(* ===== verification/_CoqProject ===== *)
-Q . S2P
Prelude.v
NorFlash.v
InMemoryFlash.v
BlockLayer.v
BlockFacts.v
BlockProps.v
BlockDev.v
BlockRefine.v
FlashDb.v
CircularStore.v
CircularFacts.v
CircularProps.v
CircularScan.v
CircularRing.v
RingFacts.v
FileStore.v
FileFacts.v
FileProps.v
Queue.v
QueueFacts.v
QueueSystem.v
QueueProps.v
StreamStore.v
StreamProps.v
Samples.v
SamplesFacts.v
SamplesProps.v
Numeric.v
UniformSamples.v
Serialize.v
Buffer.v
Quantize.v
Serializer.v
BufferProps.v
TimeAdjust.v
TimeAdjustProps.v
Time.v
DoubleBuffer.v
DispatchStore.v
DispatchFacts.v
Dispatch.v
DispatchProps.v
DispatchDemo.v
Firmware.v
FirmwareProps.v
Bootloader.v
BootloaderProps.v
BootloaderDemo.v
MetaConfig.v
MailThrottle.v
Topics.v
Bitwise.v
BootStats.v
SpiFlash.v
SpiFlashProps.v
SpiStorage.v
Network.v
NetworkProps.v
Client.v
ClientProps.v
ClientDemo.v
ActiveConfig.v
Session.v
OnceLock.v
Deserialize.v
Timeseries.v
TimeseriesProps.v
Charger.v
ChargerProps.v
StatusHandler.v
StatusHandlerProps.v
MatViews.v
MatViewsProps.v
Quectel.v
QuectelProps.v
QuectelDownload.v
Provision.v
ProvisionProps.v
ServerMqtt.v
Alarm.v
