(* ===== verification/Prelude.v ===== *)
(** * Sensor link: a verification development

    Sensor link is the firmware library, protocol crate, provisioning tools and
    server of a battery-powered sensor node: the node samples its sensors, stores
    packets in NOR flash, and sends them over a modem when it can.  This library
    verifies the parts on which no measurement may be lost and no wrong firmware may
    run: from the SPI bus of the flash chip through the storage stack and the dispatch
    task to the network task and the protocol client, and the firmware image, boot and
    update logic; and the smaller components around them.

    ** The program and its model

    Components talk through Rust traits, which are type classes here, with a second
    class for what the trait promises; each client is verified against the class, and
    the implementation is proved to satisfy it.  Paths are relative to
    [sensor-link-firmware/src] unless they start with a crate.

    Storage:
    - [NorFlash]: the trait of [embedded-storage-async] that flash drivers implement,
      a third-party interface: class [NorFlash] with the documented behaviour of NOR
      memory in [NorFlashLaws] (a program only clears bits, an erase sets a page to
      0xFF, a failing call may stop anywhere).
    - [InMemoryFlash]: [storage/backend/in_memory.rs], the mock driver with its fault
      counters; satisfies [NorFlashLaws].
    - [SpiFlash], [SpiFlashProps]: [drivers/spi_flash.rs], the driver of
      SPI flash chips, and what the data sheets of the chips promise on the bus (class
      [NorChip]).  [SpiStorage]: a concrete chip, and that the driver satisfies [NorFlashLaws], so the storage stack runs on it.
    - [BlockLayer], [BlockFacts], [BlockProps]: [storage/flash_db/block_layer.rs],
      blocks with a header and fragments with status markers.
    - [BlockDev], [BlockRefine]: the traits [Reader] and [Writer] of the block layer as
      a class over abstract blocks (a header and a list of slots), and the proof that
      [BlockDevice] implements them over any driver that satisfies [NorFlashLaws].
    - [FlashDb]: [storage/flash_db.rs], objects, locking, deletion.
    - [FileStore], [FileFacts], [FileProps]: [storage/flash_db/file_store.rs].
    - [CircularStore], [CircularFacts], [CircularProps], [CircularScan],
      [CircularRing], [RingFacts]:
      [storage/flash_db/circular_store.rs], a ring of fragments with ever-increasing
      sequence numbers.
    - [Queue], [QueueFacts], [QueueSystem], [QueueProps]: [storage/common/queue.rs],
      which elements are unread, being read, and confirmed.  The channel of
      [embassy-sync] is class [Channel]/[ChannelLaws].
    - [StreamStore], [StreamProps]:
      [storage/common/stream_store.rs], the queue and the ring together.  The checksum
      of the [crc] crate is a parameter.

    From samples to messages:
    - [Samples], [SamplesFacts], [SamplesProps], [Quantize], [Numeric],
      [UniformSamples]: [sensor-link-protocol/src/samples.rs], [samples/q15xl.rs] and
      [samples/q15.rs], the packet formats and the quantisation, on a model of [f32].
    - [Serialize]: [serialize.rs], messages with a topic header.  The
      [postcard] encoding is a parameter with its round-trip law.
    - [Serializer]: [logic/serializer.rs]; [Buffer], [BufferProps]:
      [logic/dispatch/buffer.rs], from pushed samples to packets, with latency limits.
    - [TimeAdjust], [TimeAdjustProps], [Time]: [logic/time_adjust.rs] and
      [drivers/time.rs], clock drift and temperature correction, the combined clock.
    - [DoubleBuffer]: [sync], the lock-free double buffer as a step
      relation of any number of threads over one memory; [OnceLock]: [sync/once_lock.rs],
      a cell that threads initialize once; [Session]:
      [sync/session_channel.rs], sessions of a stream between two tasks; [ActiveConfig]:
      [logic/active_config.rs], a configuration that is pinned while it is in use.
    - [Charger], [ChargerProps]: [drivers/bq25672.rs], the battery charger on an I2C bus.

    From storage to the server:
    - [DispatchStore], [DispatchFacts], [Dispatch], [DispatchProps], [DispatchDemo]:
      [logic/dispatch.rs] and [logic/dispatch/], the task that stores events and sensor
      data and hands them to the network task, as a step relation in which the two
      tasks interleave.
    - [Network], [NetworkProps]: [logic/network.rs], the
      connection loop and the retry loop over any client.
    - [Client], [ClientProps], [ClientDemo]: [logic/client.rs] over any MQTT driver
      ([mqtt.rs]), with [meta.rs] and the payload types of the protocol crate; an
      instance of the client of [Network].
    - [Topics]: [sensor-link-protocol/src/topics.rs], building and parsing topics.
    - [Quectel], [QuectelProps], [QuectelDownload]: [drivers/quectel.rs] and
      [drivers/quectel/], the driver of the modem, an instance of the MQTT driver of
      [Client].  The AT client of the [atat] crate is class [Modem]; what a modem does
      with a download is class [DownloadModem], what arrives when class [ArrivalLaws],
      and [DemoModem] is a modem that keeps both, with a script of failing commands.

    Firmware and boot:
    - [Firmware], [FirmwareProps]:
      [meta/section_header.rs], [meta/firmware.rs], [meta/firmware/v2.rs], headers and
      the streaming validator.  SHA-256 and ECDSA are parameters.
    - [Bootloader], [BootloaderProps], [BootloaderDemo]: [bootloader.rs], which image is
      booted and whether it is replaced.
    - [MetaConfig]: [meta/config.rs], [meta/bootloader.rs].
    - [BootStats]: [drivers/boot_stats.rs], counters in registers that
      survive a reset; [Bitwise]: [utils/bitwise.rs], bit fields and bit matrices.

    Server:
    - [StatusHandler], [StatusHandlerProps]:
      [server/sensor-link-server-core/src/status_handler.rs] and [status_handler/], the
      answer to a status report, over any database ([device.rs], [store_traits.rs]).
    - [Deserialize]: [sensor-link-protocol/src/samples/deserialize.rs], the server's own
      parser of the packet formats.
    - [Timeseries], [TimeseriesProps]: [server/sensor-link-server-core/src/timeseries.rs],
      downsampling, with [f64] arithmetic.
    - [MatViews], [MatViewsProps]: [server/sensor-link-server-core/src/materialized_views.rs],
      when the views of a data set are processed, and the jobs that do it, as a step
      relation.
    - [ServerMqtt]: [server/sensor-link-mqtt/src], the codec of the server, its handler of
      incoming messages, the event loop and the publishing task over any [rumqttc]
      client (class [AsyncClient]), composed with the protocol client of the device and
      with the status handler; and [server/task-supervisor/src/lib.rs].
    - [Alarm]: [server/sensor-link-notify/src/alarm.rs] and [sms.rs], the alarm events of
      the database as emails and text messages, and the way a text message takes.
    - [MailThrottle]:
      [server/sensor-link-notify/src/mail_throttle.rs] and [mail.rs], the rate limiter
      and the mail task.

    Provisioning:
    - [Provision], [ProvisionProps]: [sensor-link-provision/src], the worker that
      flashes, provisions and checks a device ([worker.rs]), with the config image, the
      log of issued certificates, the boot log, the operator's input and the session
      screen; the bench (certificate authority, probe and device, log file) is class
      [Bench], its promises [BenchLaws], and [DemoBench] keeps them with a script of
      failing calls.

    A call with [&mut self] that returns [Result<T, E>] is a function of type
    [M S E T], from a state to an outcome ([Ok], [Err] or [Panic]) and a state; [async]
    calls are run to completion.  Integers are [Z] with the wrap-around and the overflow
    checks written out; bytes are [Z] in [[0, 256)].

    ** What is shown

    - Nothing is lost between the application and the server.  While the store has room and
      works, every item that the dispatch task accepted is in the store until it is
      confirmed, and the barrier is answered only when everything is confirmed
      ([dispatch_conserves], [barrier_reply_means_confirmed]; a full ring drops its oldest
      items, and what cannot be stored is sent without a confirmation); the network task works on one upload at a time
      ([uploads_in_order]); what it confirms has been published by the driver on its
      topic and with its payload ([confirmed_means_published]).
    - Storage: writes are atomic under any fault of the driver ([write_fragment_atomic],
      [format_block_atomic], [write_circular_atomic]) and lose nothing they may not
      overwrite; the scan recovers exactly the live range ([find_circular_range_recovers]);
      the queue implements an abstract queue in every interleaving
      ([queue_refinement], [queue_calls_decide], [confirmed_never_redelivered]); items
      survive a restart and come back in full ([stream_survives_restart],
      [stream_peek_returns_item], [stream_enqueue_stores]); files read back
      ([write_file_read_file]).
    - The SPI driver: a refinement of the flash laws ([spi_flash_carries_storage]), a
      round trip over page and sector boundaries ([erased_range_roundtrip]), on a bus without
      faults and a chip within the driver's polling; and containment of faults
      ([spi_faults_contained]).
    - Network: the time without a connection is bounded, the task gives up
      ([offline_time_bounded], [gives_up_after_seven]); a firmware download delivers the
      image or says that it failed ([firmware_download_delivers_image]); an item whose topic
      does not decode blocks the connection while no action arrives
      ([undecodable_upload_blocks]).
    - Modem: a download hands out the file of the server and nothing else, whichever
      commands fail, and no late report of a cancelled request is taken for another
      ([download_delivers_file]); a publication counts only when its own id
      was acknowledged ([publish_acknowledged]); announcements of messages are neither
      lost nor overtaken while connected ([notifications_in_order]).
    - Server: the answer to a status report on every branch ([status_report_answered]);
      an update is announced until it is installed, but to a device with a format command
      pending ([update_announced_until_installed]); unseen data is processed in bounded time, unless
      its job panicked, and by one job at a time
      ([views_processed_in_time], [view_jobs_exclusive]).
    - Between server and device: commands, times and announcements reach the protocol
      client ([control_message_reaches_device]), its reports reach the server
      ([device_report_reaches_server]); messages are sent in order
      ([outgoing_messages_in_order]), the connection status is the truth
      ([status_reflects_connection]), tasks run until they are told to stop
      ([supervised_until_shutdown]).
    - Alarms: every new alarm that has a message is sent once ([working_pass_sends_all]), marked only when it
      was ([sent_only_with_email]); a text message goes one way
      ([each_text_sent_one_way]); which ones are retried ([only_old_texts_retried]).
    - Provisioning: a device that is reported as provisioned holds the config with the
      certificate that the log names ([provisioned_device_is_logged]); the log finds it
      again ([logged_uid_is_found]), the counters count it once
      ([counts_each_device_once]), mistyped SIM numbers are found
      ([iccid_detects_wrong_digit]).
    - Firmware: only genuine images are accepted and booted
      ([accepted_firmware_is_genuine], [boot_decision_is_safe]); streaming does not
      change the verdict; signed firmware is accepted and installed.
    - Buffers, samples, clocks: pushed samples are neither lost nor duplicated
      ([push_data_conserves]) and reach the server's parser with their exact timestamps
      ([samples_reach_server]), which agrees with the device's parser on every input
      ([parsers_agree]); the drift estimate stays in range, the clock follows.
    - Shared state: readers of the double buffer get what was published; a once lock is
      initialized once; sessions keep their data apart and in order whatever the two sides call and cancel, and
      used as documented give the receiver all of it ([session_data_intact]); a configuration
      does not change while it is bound ([active_config_pinned]).
    - Charger: no call leaves the bus powered, exceeds the charge limits, switches the charge
      timers or a protection off, or panics ([charger_bus_safe]); configuration, waiting and measuring do what they say on
      every outcome ([configure_sets_limits], [await_change_decides],
      [measurement_switched_off]).
    - Downsampling partitions a sorted series into aligned buckets, one row each
      ([downsample_partitions]).
    - Mail, bits, boot statistics: the rate limiter is exact and the task loses no mail;
      the fast transpose is the transpose; the boot counters refine the documented counting of boots where at most one flag is set.

    The fault theorems quantify over every driver that satisfies the laws, in any fault
    state; the theorems that promise success assume a device without pending faults and
    sequence numbers that have not reached the end of the [u32] range (the code marks
    the wrap-around as an open issue, #458).

    ** Fuel and bounds

    Loops over ranges are structural recursion over the list of the range.  Other loops
    have fuel that is the bound of the source or is shown to be enough: [reader_loop]
    runs the [2 * MAX_PEEKS] iterations of the source ([queue_calls_decide]);
    [drain_channel] runs [MAX_PEEKS] times, the capacity of the channel; [delete_confirmed]
    gets the exact number of iterations of its [while] loop; [chunks] gets the length of
    its input; [push_loop] runs at most twice; the clock conversions run
    [MAX_ITERATIONS] times; the loop of the validator has fuel 4 for its at most three
    turns; [wakeup_loop] 5, [poll_ready] 10; [program_loop] one more than the bytes, each
    turn programs at least one; [chunk_loop] of a download twice the chunk size and two, each turn
    reads a byte or fetches a slice; [compare_loop] one more than the reference; [bucket_loop] one more than the samples; the waits of the
    charger have a number of edges as fuel, and one per microsecond of the time-out is
    enough.  The loops of the tasks consume the list of their inputs.

    ** What is not modelled

    Third-party code: the flash and MQTT hardware, [embassy] channels, [heapless],
    [postcard], [serde] and JSON, base64, CRC, SHA-256, ECDSA, [libm]; they are
    parameters, with laws where the code relies on them.  Interleaving inside one [async]
    call: a call of the store is one step of the dispatch task, and a connection attempt
    whose time-out fires is run to its end with its result discarded.  Weak memory: the
    double buffer and the once lock are sequentially consistent.  Back-pressure of the signal channel;
    which branch [select] prefers; an exhausted message pool, which is a failed
    assertion in debug builds.  The network task's clock does not overflow.  The target
    is little-endian with a 32-bit [usize]; the SPI theorems are about builds without
    overflow checks, in which the statistics wrap.  Logging, the database arbiter, the
    drivers of the sensors, the AT syntax and the power pins of the modem, the certificates, the flashing and the drawing of the provisioning tool, databases, SMTP and metrics of the
    server, and the factory test are I/O around the modelled parts.

    ** This file

    The monad with its weakest preconditions, machine integers, slices and
    little-endian encoding, and the lemmas and tactics the other files share. *)

From stdpp Require Import base list list_numbers numbers option.
From Stdlib Require Import ZArith Lia Sorting.Sorted.

Global Open Scope Z_scope.

(** ** Outcomes and the state/error monad

    A Rust call that takes [&mut self] and returns [Result<T, E>] is a function
    [S -> outcome E T * S].  [Panic] is the outcome of an arithmetic overflow in
    an overflow-checked build, of an out-of-range index and of a failing
    [assert!].  A theorem that excludes [Panic] therefore also covers the builds
    in which the arithmetic wraps silently. *)

Inductive outcome (E A : Type) : Type :=
| Ok (a : A)
| Err (e : E)
| Panic.
Arguments Ok {E A} a.
Arguments Err {E A} e.
Arguments Panic {E A}.

Definition M (S E A : Type) : Type := S → outcome E A * S.

#[export] Instance M_ret {S E} : MRet (M S E) := λ A a s, (Ok a, s).

#[export] Instance M_bind {S E} : MBind (M S E) := λ A B k m s,
  match m s with
  | (Ok a, s') => k a s'
  | (Err e, s') => (Err e, s')
  | (Panic, s') => (Panic, s')
  end.

Definition fail {S E A} (e : E) : M S E A := λ s, (Err e, s).
Definition panic {S E A} : M S E A := λ s, (Panic, s).
Definition gets {S E A} (f : S → A) : M S E A := λ s, (Ok (f s), s).
Definition modify {S E} (f : S → S) : M S E unit := λ s, (Ok tt, f s).

(** Rust's [From] conversion of errors, used by the [?] operator. *)
Class From (A B : Type) : Type := from : A → B.
#[export] Instance From_refl A : From A A | 100 := λ a, a.

(** [map_err] *)
Definition map_err {S E1 E2 A} (f : E1 → E2) (m : M S E1 A) : M S E2 A := λ s,
  match m s with
  | (Ok a, s') => (Ok a, s')
  | (Err e, s') => (Err (f e), s')
  | (Panic, s') => (Panic, s')
  end.

Declare Scope link_scope.
Delimit Scope link_scope with link.
Global Open Scope link_scope.

(** [try! m] is Rust's [m?]. *)
Notation "'try!' m" := (map_err from m) (at level 10, m at level 9) : link_scope.

(** The value of a [Result] that the code inspects instead of propagating. *)
Definition caught (E A : Type) : Type := (A + E)%type.

Definition attempt {S E E' A} (m : M S E A) : M S E' (caught E A) := λ s,
  match m s with
  | (Ok a, s') => (Ok (inl a), s')
  | (Err e, s') => (Ok (inr e), s')
  | (Panic, s') => (Panic, s')
  end.

(** Run an operation of a component that is a field of a larger state. *)
Definition zoom {S T E A} (get : S → T) (set : T → S → S) (m : M T E A) : M S E A := λ s,
  let '(r, t) := m (get s) in (r, set t s).

(** ** Machine integers

    An unsigned w-bit integer is a [Z] in [[0, 2^w)]. *)

Definition u8_max : Z := 255.
Definition u16_max : Z := 65535.
Definition u32_max : Z := 4294967295.
Definition u32_size : Z := 4294967296.

Definition is_u8 (z : Z) : Prop := 0 ≤ z < 256.
Definition is_u16 (z : Z) : Prop := 0 ≤ z < 65536.
Definition is_u32 (z : Z) : Prop := 0 ≤ z < u32_size.

(** [x as u8], [x as u16], [x as u32] and the wrapping operations. *)
Definition as_u8 (z : Z) : Z := z mod 256.
Definition as_u16 (z : Z) : Z := z mod 65536.
Definition as_u32 (z : Z) : Z := z mod u32_size.
Definition wrapping_add (a b : Z) : Z := as_u32 (a + b).
Definition wrapping_sub (a b : Z) : Z := as_u32 (a - b).
Definition saturating_sub (a b : Z) : Z := Z.max 0 (a - b).

(** Plain [+], [-], [*] on [u32] and [-] on [usize] in an overflow-checked build. *)
Definition u32_add {S E} (a b : Z) : M S E Z :=
  if a + b <? u32_size then mret (a + b) else panic.
Definition u32_sub {S E} (a b : Z) : M S E Z :=
  if b <=? a then mret (a - b) else panic.
Definition u32_mul {S E} (a b : Z) : M S E Z :=
  if a * b <? u32_size then mret (a * b) else panic.
Definition usize_sub {S E} (a b : Z) : M S E Z :=
  if b <=? a then mret (a - b) else panic.

(** [/] and [%], which panic on a zero divisor. *)
Definition u32_div {S E} (a b : Z) : M S E Z := if b =? 0 then panic else mret (a / b).
Definition u32_rem {S E} (a b : Z) : M S E Z := if b =? 0 then panic else mret (a mod b).

(** ** Slices *)

Definition len {A} (l : list A) : Z := Z.of_nat (length l).

(** [&l[from..to]] without the bounds check. *)
Definition slice {A} (lo hi : Z) (l : list A) : list A :=
  take (Z.to_nat (hi - lo)) (drop (Z.to_nat lo) l).

(** [l.chunks(n)] *)
Fixpoint chunks_fuel {A} (fuel : nat) (n : nat) (l : list A) : list (list A) :=
  match fuel, l with
  | _, [] => []
  | O, _ => []
  | S fuel, _ => take n l :: chunks_fuel fuel n (drop n l)
  end.
Definition chunks {A} (n : Z) (l : list A) : list (list A) :=
  chunks_fuel (length l) (Z.to_nat n) l.

(** ** Little-endian encoding *)

Fixpoint le_bytes (n : nat) (z : Z) : list Z :=
  match n with
  | O => []
  | S n => z mod 256 :: le_bytes n (z / 256)
  end.

Fixpoint le_val (l : list Z) : Z :=
  match l with
  | [] => 0
  | b :: l => b + 256 * le_val l
  end.

(** Two's complement reading of a w-bit value. *)
Definition to_signed (w z : Z) : Z := if z <? 2 ^ (w - 1) then z else z - 2 ^ w.

(** ** Weakest preconditions

    [wp m Q R s]: run from [s], [m] does not panic, ends with [Q] when it
    returns [Ok] and with [R] when it returns [Err]. *)

Definition wp {S E A} (m : M S E A) (Q : A → S → Prop) (R : E → S → Prop) (s : S) : Prop :=
  match m s with
  | (Ok a, s') => Q a s'
  | (Err e, s') => R e s'
  | (Panic, _) => False
  end.

Section wp.
Context {S E : Type}.

Lemma wp_ret {A} (a : A) (Q : A → S → Prop) (R : E → S → Prop) s :
  Q a s → wp (mret a) Q R s.
Proof. done. Qed.

Lemma wp_fail {A} (e : E) (Q : A → S → Prop) R s : R e s → wp (fail e) Q R s.
Proof. done. Qed.

Lemma wp_gets {A} (f : S → A) (Q : A → S → Prop) (R : E → S → Prop) s :
  Q (f s) s → wp (gets f) Q R s.
Proof. done. Qed.

Lemma wp_bind {A B} (m : M S E A) (k : A → M S E B) Q R s :
  wp m (λ a, wp (k a) Q R) R s → wp (m ≫= k) Q R s.
Proof. unfold wp, mbind, M_bind. by destruct (m s) as [[]]. Qed.

Lemma wp_mono {A} (m : M S E A) (Q Q' : A → S → Prop) (R R' : E → S → Prop) s :
  wp m Q R s → (∀ a s', Q a s' → Q' a s') → (∀ e s', R e s' → R' e s') →
  wp m Q' R' s.
Proof. unfold wp. destruct (m s) as [[]]; naive_solver. Qed.

Lemma wp_map_err {E' A} (f : E' → E) (m : M S E' A) Q (R : E → S → Prop) s :
  wp m Q (λ e, R (f e)) s → wp (map_err f m) Q R s.
Proof. unfold wp, map_err. by destruct (m s) as [[]]. Qed.

Lemma wp_attempt {E' A} (m : M S E' A) (Q : caught E' A → S → Prop) (R : E → S → Prop) s :
  wp m (λ a, Q (inl a)) (λ e, Q (inr e)) s → wp (attempt m) Q R s.
Proof. unfold wp, attempt. by destruct (m s) as [[]]. Qed.

Lemma wp_zoom {T A} (get : S → T) (set : T → S → S) (m : M T E A) Q R s :
  wp m (λ a t, Q a (set t s)) (λ e t, R e (set t s)) (get s) →
  wp (zoom get set m) Q R s.
Proof. unfold wp, zoom. by destruct (m (get s)) as [[]]. Qed.

Lemma wp_u32_add a b (Q : Z → S → Prop) (R : E → S → Prop) s :
  a + b < u32_size → Q (a + b) s → wp (u32_add a b) Q R s.
Proof. intros ??. unfold u32_add. by rewrite (proj2 (Z.ltb_lt _ _)). Qed.

Lemma wp_u32_sub a b (Q : Z → S → Prop) (R : E → S → Prop) s :
  b ≤ a → Q (a - b) s → wp (u32_sub a b) Q R s.
Proof. intros ??. unfold u32_sub. by rewrite (proj2 (Z.leb_le _ _)). Qed.

Lemma wp_u32_mul a b (Q : Z → S → Prop) (R : E → S → Prop) s :
  a * b < u32_size → Q (a * b) s → wp (u32_mul a b) Q R s.
Proof. intros ??. unfold u32_mul. by rewrite (proj2 (Z.ltb_lt _ _)). Qed.

Lemma wp_usize_sub a b (Q : Z → S → Prop) (R : E → S → Prop) s :
  b ≤ a → Q (a - b) s → wp (usize_sub a b) Q R s.
Proof. intros ??. unfold usize_sub. by rewrite (proj2 (Z.leb_le _ _)). Qed.

Lemma wp_u32_div a b (Q : Z → S → Prop) (R : E → S → Prop) s :
  0 < b → Q (a / b) s → wp (u32_div a b) Q R s.
Proof. intros ??. unfold u32_div. by rewrite (proj2 (Z.eqb_neq _ _)) by lia. Qed.

Lemma wp_u32_rem a b (Q : Z → S → Prop) (R : E → S → Prop) s :
  0 < b → Q (a mod b) s → wp (u32_rem a b) Q R s.
Proof. intros ??. unfold u32_rem. by rewrite (proj2 (Z.eqb_neq _ _)) by lia. Qed.

Lemma wp_modify (f : S → S) (Q : unit → S → Prop) (R : E → S → Prop) s :
  Q tt (f s) → wp (modify f) Q R s.
Proof. done. Qed.

(** From a [wp] to the result of a run. *)
Lemma wp_run {A} (m : M S E A) Q R s r s' :
  wp m Q R s → m s = (r, s') →
  match r with Ok a => Q a s' | Err e => R e s' | Panic => False end.
Proof. unfold wp. intros H Hr. rewrite Hr in H. by destruct r. Qed.

Lemma wp_ok {A} (m : M S E A) Q s :
  wp m Q (λ _ _, False) s → ∃ a s', m s = (Ok a, s') ∧ Q a s'.
Proof. unfold wp. destruct (m s) as [[] ?]; naive_solver. Qed.
End wp.

(** A run from the runs of its parts. *)
Lemma bind_run {S E A B} (m : M S E A) (k : A → M S E B) s a s' : m s = (Ok a, s') → (m ≫= k) s = k a s'.
Proof. intros H. unfold mbind, M_bind. by rewrite H. Qed.

Lemma attempt_ok_run {S E E' A} (m : M S E A) s a s' :
  m s = (Ok a, s') → attempt (E' := E') m s = (Ok (inl a), s').
Proof. intros H. unfold attempt. by rewrite H. Qed.

Lemma attempt_err_run {S E E' A} (m : M S E A) s e s' :
  m s = (Err e, s') → attempt (E' := E') m s = (Ok (inr e), s').
Proof. intros H. unfold attempt. by rewrite H. Qed.

Lemma zoom_run {S T E A} (get : S → T) (set : T → S → S) (m : M T E A) s r t :
  m (get s) = (r, t) → zoom get set m s = (r, set t s).
Proof. intros H. unfold zoom. by rewrite H. Qed.

(** From a run that ends in [Ok] to the runs of its parts. *)
Lemma bind_ok_inv {S E A B} (m : M S E A) (k : A → M S E B) s b s'' :
  (m ≫= k) s = (Ok b, s'') → ∃ a s', m s = (Ok a, s') ∧ k a s' = (Ok b, s'').
Proof. unfold mbind, M_bind. destruct (m s) as [[a|e|] s'] eqn:Hm; [eauto|done..]. Qed.

Lemma attempt_inl_inv {S E E' A} (m : M S E A) (a : A) s s' :
  attempt (E' := E') m s = (Ok (inl a), s') → m s = (Ok a, s').
Proof. unfold attempt. destruct (m s) as [[]]; by intros [= -> ->]. Qed.

Lemma zoom_ok_inv {S T E A} (get : S → T) (set : T → S → S) (m : M T E A) s a s' :
  zoom get set m s = (Ok a, s') → ∃ t, m (get s) = (Ok a, t) ∧ s' = set t s.
Proof. unfold zoom. destruct (m (get s)) as [r t]. intros [= -> <-]. eauto. Qed.

(** The syntax-directed step of a [wp] proof. *)
Ltac wp_step :=
  lazymatch goal with
  | |- wp (mbind _ _) _ _ _ => apply wp_bind
  | |- wp (mret _) _ _ _ => apply wp_ret
  | |- wp (fail _) _ _ _ => apply wp_fail
  | |- wp (gets _) _ _ _ => apply wp_gets
  | |- wp (map_err _ _) _ _ _ => apply wp_map_err
  | |- wp (attempt _) _ _ _ => apply wp_attempt
  | |- wp (zoom _ _ _) _ _ _ => apply wp_zoom
  | |- wp (let '(_, _) := ?p in _) _ _ _ => destruct p
  end.
Ltac wp_steps := repeat (wp_step; cbv beta).

(** ** Lemmas on machine integers *)

Create HintDb link discriminated.

Lemma as_u32_range z : is_u32 (as_u32 z).
Proof. apply Z.mod_pos_bound. done. Qed.

Lemma as_u32_small z : is_u32 z → as_u32 z = z.
Proof. apply Z.mod_small. Qed.

Lemma as_u16_small z : is_u16 z → as_u16 z = z.
Proof. apply Z.mod_small. Qed.

Lemma as_u8_small z : is_u8 z → as_u8 z = z.
Proof. apply Z.mod_small. Qed.

Lemma wrapping_sub_small a b : 0 ≤ a - b < u32_size → wrapping_sub a b = a - b.
Proof. apply as_u32_small. Qed.

Lemma wrapping_add_small a b : 0 ≤ a + b < u32_size → wrapping_add a b = a + b.
Proof. apply as_u32_small. Qed.

Lemma wrapping_sub_add a i : is_u32 i → wrapping_sub (wrapping_add a i) a = i.
Proof.
  intros Hi. unfold wrapping_sub, wrapping_add, as_u32.
  rewrite Zminus_mod_idemp_l. replace (a + i - a) with i by lia. by apply Z.mod_small.
Qed.

Lemma wrapping_add_sub a b : is_u32 a → wrapping_add b (wrapping_sub a b) = a.
Proof.
  intros Hi. unfold wrapping_sub, wrapping_add, as_u32.
  rewrite Zplus_mod_idemp_r. replace (b + (a - b)) with a by lia. by apply Z.mod_small.
Qed.

Lemma wrapping_sub_range a b : is_u32 (wrapping_sub a b).
Proof. apply as_u32_range. Qed.

Lemma wrapping_add_range a b : is_u32 (wrapping_add a b).
Proof. apply as_u32_range. Qed.

#[export] Hint Resolve as_u32_range wrapping_sub_range wrapping_add_range : link.

(** ** Sorted lists *)

Lemma sorted_lookup (l : list Z) i j x y :
  StronglySorted Z.le l → (i ≤ j)%nat → l !! i = Some x → l !! j = Some y → x ≤ y.
Proof.
  intros Hs. revert i j. induction Hs as [|z l Hs IH Hz]; intros i j Hij Hi Hj; [done|].
  destruct i as [|i], j as [|j]; cbn in Hi, Hj; [| |lia|].
  - simplify_eq. lia.
  - simplify_eq. apply (proj1 (list.Forall_forall _ _) Hz). by eapply list_elem_of_lookup_2.
  - eapply (IH i j); eauto; lia.
Qed.

(** ** Lemmas on slices and little-endian encoding *)

Lemma len_nonneg {A} (l : list A) : 0 ≤ len l.
Proof. unfold len. lia. Qed.

Lemma len_app {A} (l k : list A) : len (l ++ k) = len l + len k.
Proof. unfold len. rewrite length_app. lia. Qed.

Lemma len_cons {A} (x : A) (l : list A) : len (x :: l) = 1 + len l.
Proof. unfold len. simpl. lia. Qed.

Lemma len_nil {A} : len (@nil A) = 0.
Proof. done. Qed.

Lemma length_slice {A} lo hi (l : list A) :
  0 ≤ lo ≤ hi → hi ≤ len l → length (slice lo hi l) = Z.to_nat (hi - lo).
Proof.
  unfold slice, len. intros. rewrite length_take, length_drop. lia.
Qed.

Lemma len_slice {A} lo hi (l : list A) :
  0 ≤ lo ≤ hi → hi ≤ len l → len (slice lo hi l) = hi - lo.
Proof. intros. unfold len at 1. rewrite length_slice by done. lia. Qed.

Lemma slice_all {A} n (l : list A) : len l ≤ n → slice 0 n l = l.
Proof. intros. unfold slice, len in *. change (Z.to_nat 0) with 0%nat. rewrite drop_0. apply take_ge. lia. Qed.

Lemma slice_app_l {A} n (l k : list A) : n = len l → slice 0 n (l ++ k) = l.
Proof.
  intros ->. unfold slice, len. change (Z.to_nat 0) with 0%nat.
  rewrite drop_0, Z.sub_0_r, Nat2Z.id. apply take_app_length.
Qed.

Lemma slice_app_r {A} m n (l k : list A) :
  m = len l → n = len l + len k → slice m n (l ++ k) = k.
Proof.
  intros -> ->. unfold slice, len.
  rewrite Nat2Z.id, drop_app_length. apply take_ge. lia.
Qed.

(** Bytes, by evaluation. *)
Lemma u8s l : bool_decide (Forall is_u8 l) = true → Forall is_u8 l.
Proof. apply bool_decide_eq_true. Qed.

Lemma Forall_slice {A} (P : A → Prop) lo hi l : Forall P l → Forall P (slice lo hi l).
Proof. intros. apply Forall_take, Forall_drop. done. Qed.

Lemma length_le_bytes n z : length (le_bytes n z) = n.
Proof. revert z. induction n; intros; simpl; congruence. Qed.

Lemma le_bytes_u8 n z : Forall is_u8 (le_bytes n z).
Proof.
  revert z. induction n; intros; simpl; constructor; auto.
  apply Z.mod_pos_bound. lia.
Qed.

Lemma le_val_le_bytes n z : le_val (le_bytes n z) = z mod 256 ^ Z.of_nat n.
Proof.
  revert z. induction n as [|n IH]; intros z; cbn [le_bytes le_val].
  - change (256 ^ Z.of_nat 0) with 1. by rewrite Z.mod_1_r.
  - rewrite IH, Nat2Z.inj_succ, Z.pow_succ_r by lia.
    symmetry. apply Z.rem_mul_r; [lia|]. apply Z.pow_pos_nonneg; lia.
Qed.

Lemma le_val_le_bytes_small n z : 0 ≤ z < 256 ^ Z.of_nat n → le_val (le_bytes n z) = z.
Proof. intros. rewrite le_val_le_bytes. by apply Z.mod_small. Qed.

Lemma le_val_range l : Forall is_u8 l → 0 ≤ le_val l < 256 ^ len l.
Proof.
  induction 1 as [|b l Hb _ IH]; cbn [le_val]; [done|].
  rewrite len_cons, Z.pow_add_r by (pose proof (len_nonneg l); lia).
  unfold is_u8 in Hb. lia.
Qed.

Lemma le_bytes_le_val l : Forall is_u8 l → le_bytes (length l) (le_val l) = l.
Proof.
  induction 1 as [|b l Hb _ IH]; cbn [le_bytes le_val length]; [done|].
  unfold is_u8 in Hb.
  rewrite (Z.mul_comm 256), Z.mod_add, Z.mod_small by lia.
  rewrite Z.div_add, Z.div_small by lia. by rewrite Z.add_0_l, IH.
Qed.

Lemma le_bytes_mod n z : le_bytes n (z mod 256 ^ Z.of_nat n) = le_bytes n z.
Proof.
  rewrite <-le_val_le_bytes.
  rewrite <-(length_le_bytes n z) at 1. apply le_bytes_le_val, le_bytes_u8.
Qed.

Lemma to_signed_mod w z :
  0 < w → - 2 ^ (w - 1) ≤ z < 2 ^ (w - 1) → to_signed w (z mod 2 ^ w) = z.
Proof.
  intros Hw Hz. unfold to_signed.
  assert (2 ^ w = 2 * 2 ^ (w - 1)) as Hp.
  { rewrite <-Z.pow_succ_r by lia. f_equal. lia. }
  destruct (decide (0 ≤ z)).
  - rewrite Z.mod_small by lia. by rewrite (proj2 (Z.ltb_lt _ _)) by lia.
  - rewrite <-(Z.mod_add z 1), Z.mod_small by lia.
    rewrite (proj2 (Z.ltb_ge _ _)) by lia. lia.
Qed.

Lemma to_signed_range w z : 0 < w → 0 ≤ z < 2 ^ w → - 2 ^ (w - 1) ≤ to_signed w z < 2 ^ (w - 1).
Proof.
  intros Hw Hz. unfold to_signed.
  assert (2 ^ w = 2 * 2 ^ (w - 1)) as Hp.
  { rewrite <-Z.pow_succ_r by lia. f_equal. lia. }
  destruct (Z.ltb_spec z (2 ^ (w - 1))); lia.
Qed.

(** ** Chunks *)

Lemma chunks_fuel_concat {A} n fuel (l : list A) :
  (length l ≤ fuel)%nat → (0 < n)%nat → concat (chunks_fuel fuel n l) = l.
Proof.
  revert l. induction fuel as [|fuel IH]; intros [|x l] Hf Hn; simpl in *; try done; [lia|].
  rewrite IH; [by rewrite take_drop| |done].
  rewrite length_drop. simpl. lia.
Qed.

Lemma chunks_concat {A} n (l : list A) : 0 < n → concat (chunks n l) = l.
Proof. intros. apply chunks_fuel_concat; lia. Qed.

(** The [i]-th chunk starts at offset [i * n]. *)
Lemma chunks_fuel_lookup {A} n fuel (l : list A) i c :
  (0 < n)%nat → chunks_fuel fuel n l !! i = Some c → c = take n (drop (i * n) l).
Proof.
  intros Hn. revert l i. induction fuel as [|fuel IH]; intros [|x l] [|i] Hc; simpl in Hc; try done.
  - by inversion Hc.
  - apply IH in Hc. rewrite drop_drop in Hc. subst. f_equal.
Qed.
