(* ===== verification/NorFlash.v ===== *)
(** * The flash driver interface

    The storage code is generic over [embedded_storage_async::nor_flash::NorFlash]
    (a third-party trait).  [NorFlash] is the record of operations the storage
    code calls; [NorFlashLaws] is what it relies on: the documented behaviour of
    NOR flash, seen through the byte at each address.  A failing operation may
    leave anything inside the range it was given (that is how an interrupted
    write or erase is covered), never outside it.  [InMemoryFlash] proves the
    laws for the implementation the repository ships. *)

From stdpp Require Import base list list_numbers numbers option.
From S2P Require Import Prelude.

Class NorFlash (F E : Type) : Type := {
  nf_ERASE_SIZE : Z;
  nf_capacity : F → Z;
  (** [read(offset, &mut buf)] with [buf.len() = n]; the bytes read are the result. *)
  nf_read (offset n : Z) : M F E (list Z);
  nf_write (offset : Z) (bytes : list Z) : M F E unit;
  nf_erase (lo hi : Z) : M F E unit;
}.

(** The addresses of [[lo, hi)], and no address. *)
Definition range (lo hi a : Z) : Prop := lo ≤ a < hi.
Definition nowhere (a : Z) : Prop := False.

(** What one operation may do to the flash: it keeps well-formedness, health
    and capacity, and changes nothing outside the addresses [P].  [bytes] is the
    content at an address: a byte here, a whole block in [BlockDev]. *)
Record flash_step {F A} (wf healthy : F → Prop) (cap : F → Z) (bytes : F → Z → A)
    (P : Z → Prop) (f f' : F) : Prop := {
  fs_wf : wf f';
  fs_healthy : healthy f → healthy f';
  fs_capacity : cap f' = cap f;
  fs_frame : ∀ a, ¬ P a → bytes f' a = bytes f a;
}.
Arguments fs_wf {_ _ _ _ _ _ _ _ _} _.
Arguments fs_healthy {_ _ _ _ _ _ _ _ _} _ _.
Arguments fs_capacity {_ _ _ _ _ _ _ _ _} _.
Arguments fs_frame {_ _ _ _ _ _ _ _ _} _ _ _.

Section flash_step.
Context {F A : Type} {wf healthy : F → Prop} {cap : F → Z} {bytes : F → Z → A}.
Abbreviation step := (flash_step wf healthy cap bytes).

Lemma flash_step_refl P f : wf f → step P f f.
Proof. done. Qed.

Lemma flash_step_weaken (P P' : Z → Prop) f f' :
  step P f f' → (∀ a, P a → P' a) → step P' f f'.
Proof. intros [] H. split; auto. Qed.

Lemma flash_step_nowhere P f f' : step nowhere f f' → step P f f'.
Proof. intros. by eapply flash_step_weaken. Qed.

Lemma flash_step_trans P f1 f2 f3 : step P f1 f2 → step P f2 f3 → step P f1 f3.
Proof.
  intros [] []. split; auto; [congruence|]. intros. rewrite fs_frame1 by done. auto.
Qed.

Lemma flash_step_same f f' a : step nowhere f f' → bytes f' a = bytes f a.
Proof. intros []. apply fs_frame0. intros []. Qed.
End flash_step.

(** Programming NOR flash only clears bits. *)
Definition clears_bits (bytes bytes' : Z → Z) : Prop :=
  ∀ a, bytes' a = Z.land (bytes a) (bytes' a).

(** The bytes at [off, off + n). *)
Definition view (bytes : Z → Z) (off n : Z) : list Z := bytes <$> seqZ off n.

Class NorFlashLaws (F E : Type) `{!NorFlash F E} : Type := {
  (** the byte stored at an address *)
  nf_bytes : F → Z → Z;
  nf_wf : F → Prop;
  (** no fault is pending: operations inside the bounds succeed *)
  nf_healthy : F → Prop;
  nf_bytes_u8 : ∀ f a, nf_wf f → is_u8 (nf_bytes f a);
  nf_read_law : ∀ f off n, nf_wf f → 0 ≤ off → 0 ≤ n →
    wp (nf_read off n)
       (λ bs f', flash_step nf_wf nf_healthy nf_capacity nf_bytes nowhere f f' ∧
                 bs = view (nf_bytes f) off n)
       (λ _ f', flash_step nf_wf nf_healthy nf_capacity nf_bytes nowhere f f' ∧
                ¬ (nf_healthy f ∧ off + n ≤ nf_capacity f)) f;
  nf_write_law : ∀ f off data, nf_wf f → 0 ≤ off → Forall is_u8 data →
    wp (nf_write off data)
       (λ _ f', flash_step nf_wf nf_healthy nf_capacity nf_bytes (range off (off + len data)) f f' ∧
                (∀ i b, data !! i = Some b → nf_bytes f (off + Z.of_nat i) = 255 →
                        nf_bytes f' (off + Z.of_nat i) = b) ∧
                clears_bits (nf_bytes f) (nf_bytes f'))
       (λ _ f', flash_step nf_wf nf_healthy nf_capacity nf_bytes (range off (off + len data)) f f' ∧
                ¬ (nf_healthy f ∧ off + len data ≤ nf_capacity f) ∧
                clears_bits (nf_bytes f) (nf_bytes f')) f;
  nf_erase_law : ∀ f lo hi, nf_wf f → 0 ≤ lo ≤ hi →
    wp (nf_erase lo hi)
       (λ _ f', flash_step nf_wf nf_healthy nf_capacity nf_bytes (range lo hi) f f' ∧
                (∀ a, lo ≤ a < hi → nf_bytes f' a = 255))
       (λ _ f', flash_step nf_wf nf_healthy nf_capacity nf_bytes (range lo hi) f f' ∧
                ¬ (nf_healthy f ∧ hi ≤ nf_capacity f ∧
                   (nf_ERASE_SIZE | lo) ∧ (nf_ERASE_SIZE | hi))) f;
}.

Lemma clears_bits_255 bytes bytes' a :
  clears_bits bytes bytes' → is_u8 (bytes a) → bytes' a = 255 → bytes a = 255.
Proof.
  intros H [H0 H1] H2. specialize (H a). rewrite H2 in H.
  change 255 with (Z.ones 8) in H. rewrite Z.land_ones in H by lia.
  rewrite Z.mod_small in H by lia. done.
Qed.

Lemma clears_bits_refl bytes bytes' : (∀ a, bytes' a = bytes a) → clears_bits bytes bytes'.
Proof. intros H a. by rewrite H, Z.land_diag. Qed.

(** ** Views *)

Lemma length_view bytes off n : length (view bytes off n) = Z.to_nat n.
Proof. unfold view. by rewrite length_fmap, length_seqZ. Qed.

Lemma len_view bytes off n : 0 ≤ n → len (view bytes off n) = n.
Proof. intros. unfold len. rewrite length_view. lia. Qed.

Lemma view_lookup bytes off n i :
  (i < Z.to_nat n)%nat → view bytes off n !! i = Some (bytes (off + Z.of_nat i)).
Proof.
  intros. unfold view. rewrite list_lookup_fmap.
  rewrite (proj2 (lookup_seqZ off n i (off + Z.of_nat i))) by lia. done.
Qed.

Lemma view_ext b1 b2 off n :
  (∀ a, off ≤ a < off + n → b1 a = b2 a) → view b1 off n = view b2 off n.
Proof.
  intros H. unfold view. apply list_fmap_ext. intros i a Ha.
  apply lookup_seqZ in Ha as [-> ?]. apply H. lia.
Qed.

Lemma view_u8 bytes off n : (∀ a, is_u8 (bytes a)) → Forall is_u8 (view bytes off n).
Proof. intros. unfold view. apply Forall_fmap, Forall_true. intros. apply H. Qed.

Lemma view_app bytes off m n :
  0 ≤ m → 0 ≤ n → view bytes off (m + n) = view bytes off m ++ view bytes (off + m) n.
Proof. intros. unfold view. by rewrite seqZ_app, fmap_app by done. Qed.

Lemma view_slice bytes off n lo hi :
  0 ≤ lo ≤ hi → hi ≤ n → slice lo hi (view bytes off n) = view bytes (off + lo) (hi - lo).
Proof.
  intros. replace n with (lo + ((hi - lo) + (n - hi))) by lia.
  rewrite !view_app by lia. unfold slice.
  rewrite drop_app_length' by (rewrite length_view; lia).
  rewrite take_app_length' by (rewrite length_view; lia). done.
Qed.

(** A list that agrees with memory byte by byte is the view. *)
Lemma view_eq bytes off (data : list Z) :
  (∀ i b, data !! i = Some b → bytes (off + Z.of_nat i) = b) →
  view bytes off (len data) = data.
Proof.
  intros H. apply list_eq. intros i. destruct (data !! i) as [b|] eqn:Hi.
  - pose proof (lookup_lt_Some _ _ _ Hi). rewrite view_lookup by (unfold len; lia).
    by rewrite (H _ _ Hi).
  - apply lookup_ge_None in Hi. apply lookup_ge_None. rewrite length_view.
    unfold len. lia.
Qed.
