(* ===== verification/InMemoryFlash.v ===== *)
(** * In-memory flash backend

    [storage/backend/in_memory.rs]: the flash implementation used on the host,
    with its strict programming rule (only an erased byte can be programmed)
    and its fault injection (the n-th next operation fails and corrupts the
    range it was given).  It is an instance of [NorFlash]; the laws of
    [NorFlashLaws] are proved for it, faults included. *)

From stdpp Require Import base list list_numbers numbers option.
From S2P Require Import Prelude NorFlash.

(** [embedded_storage::nor_flash::NorFlashErrorKind] *)
Inductive NorFlashErrorKind : Type := NotAligned | OutOfBounds | Other.

Record MockError : Type := mkMockError { mock_kind : NorFlashErrorKind }.

Record InMemoryFlash : Type := mkInMemoryFlash {
  memory : list Z;
  countdown_erase_error : option (Z * MockError);
  countdown_write_error : option (Z * MockError);
  countdown_read_error : option (Z * MockError);
  read_count : Z;
  write_count : Z;
  erase_count : Z;
}.

Definition new (total_size : Z) : InMemoryFlash :=
  mkInMemoryFlash (replicate (Z.to_nat total_size) 255) None None None 0 0 0.

Definition reset_stats (f : InMemoryFlash) : InMemoryFlash :=
  mkInMemoryFlash (memory f) (countdown_erase_error f) (countdown_write_error f)
    (countdown_read_error f) 0 0 0.

Definition trigger_read_error_after (nth_op : Z) (e : MockError) (f : InMemoryFlash) :=
  mkInMemoryFlash (memory f) (countdown_erase_error f) (countdown_write_error f)
    (Some (nth_op, e)) (read_count f) (write_count f) (erase_count f).

Definition trigger_write_error_after (nth_op : Z) (e : MockError) (f : InMemoryFlash) :=
  mkInMemoryFlash (memory f) (countdown_erase_error f) (Some (nth_op, e))
    (countdown_read_error f) (read_count f) (write_count f) (erase_count f).

Definition trigger_erase_error_after (nth_op : Z) (e : MockError) (f : InMemoryFlash) :=
  mkInMemoryFlash (memory f) (Some (nth_op, e)) (countdown_write_error f)
    (countdown_read_error f) (read_count f) (write_count f) (erase_count f).

(** The countdown after this operation, and the error it injects if any. *)
Definition trigger_error_on_countdown (countdown : option (Z * MockError)) :
    option MockError * option (Z * MockError) :=
  match countdown with
  | Some (n, e) => if n =? 0 then (Some e, None) else (None, Some (n - 1, e))
  | None => (None, None)
  end.

(** The store of [bytes ^ corruption] into the erased bytes of [dst]. *)
Definition program (corruption : Z) (dst bytes : list Z) : list Z :=
  zip_with (λ to from, if to =? 255 then Z.lxor from corruption else to) dst bytes.

(** [memory[lo..lo + len new].copy_from_slice(new)] *)
Definition splice (lo : Z) (new mem : list Z) : list Z :=
  take (Z.to_nat lo) mem ++ new ++ drop (Z.to_nat lo + length new) mem.

Definition with_memory (m : list Z) (f : InMemoryFlash) : InMemoryFlash :=
  mkInMemoryFlash m (countdown_erase_error f) (countdown_write_error f)
    (countdown_read_error f) (read_count f) (write_count f) (erase_count f).

Definition read (offset n : Z) : M InMemoryFlash MockError (list Z) := λ f,
  let '(fault, countdown) := trigger_error_on_countdown (countdown_read_error f) in
  let f := mkInMemoryFlash (memory f) (countdown_erase_error f) (countdown_write_error f)
             countdown (read_count f + 1) (write_count f) (erase_count f) in
  match fault with
  | Some e => (Err e, f)
  | None =>
      let end_ := offset + n in
      if len (memory f) <? end_ then (Err (mkMockError OutOfBounds), f)
      else (Ok (slice offset end_ (memory f)), f)
  end.

Definition capacity (f : InMemoryFlash) : Z := len (memory f).

Definition erase (ERASE_SIZE lo hi : Z) : M InMemoryFlash MockError unit := λ f,
  let '(fault, countdown) := trigger_error_on_countdown (countdown_erase_error f) in
  let f := mkInMemoryFlash (memory f) countdown (countdown_write_error f)
             (countdown_read_error f) (read_count f) (write_count f) (erase_count f + 1) in
  let corruption := match fault with None => 0 | Some _ => 165 end in
  if ERASE_SIZE =? 0 then (Panic, f)
  else if negb (lo mod ERASE_SIZE =? 0) || negb (hi mod ERASE_SIZE =? 0)
  then (Err (mkMockError NotAligned), f)
  else if as_u32 (len (memory f)) <? Z.max lo hi then (Err (mkMockError OutOfBounds), f)
  else if hi <? lo then (Panic, f)
  else
    let f := with_memory
      (splice lo (replicate (Z.to_nat (hi - lo)) (Z.lxor 255 corruption)) (memory f)) f in
    match fault with None => (Ok tt, f) | Some e => (Err e, f) end.

Definition write (offset : Z) (bytes : list Z) : M InMemoryFlash MockError unit := λ f,
  let '(fault, countdown) := trigger_error_on_countdown (countdown_write_error f) in
  let f := mkInMemoryFlash (memory f) (countdown_erase_error f) countdown
             (countdown_read_error f) (read_count f) (write_count f + 1) (erase_count f) in
  let corruption := match fault with None => 0 | Some _ => 165 end in
  let end_ := offset + len bytes in
  if len (memory f) <? end_ then (Err (mkMockError OutOfBounds), f)
  else
    let f := with_memory
      (splice offset (program corruption (slice offset end_ (memory f)) bytes) (memory f)) f in
    match fault with None => (Ok tt, f) | Some e => (Err e, f) end.

(** One instance per [ERASE_SIZE] const parameter. *)
Definition in_memory_nor_flash (ERASE_SIZE : Z) : NorFlash InMemoryFlash MockError := {|
  nf_ERASE_SIZE := ERASE_SIZE;
  nf_capacity := capacity;
  nf_read := read;
  nf_write := write;
  nf_erase := erase ERASE_SIZE;
|}.

(** ** The laws *)

Definition im_bytes (f : InMemoryFlash) (a : Z) : Z :=
  if a <? 0 then 255 else default 255 (memory f !! Z.to_nat a).

Definition im_wf (f : InMemoryFlash) : Prop :=
  Forall is_u8 (memory f) ∧ len (memory f) < u32_size.

Definition im_healthy (f : InMemoryFlash) : Prop :=
  countdown_erase_error f = None ∧ countdown_write_error f = None ∧
  countdown_read_error f = None.

Lemma length_splice lo new mem :
  0 ≤ lo → lo + len new ≤ len mem → length (splice lo new mem) = length mem.
Proof.
  unfold splice, len. intros. rewrite !length_app, length_take, length_drop. lia.
Qed.

Lemma splice_lookup_out lo new mem i :
  0 ≤ lo → lo + len new ≤ len mem → ¬ (lo ≤ Z.of_nat i < lo + len new) →
  splice lo new mem !! i = mem !! i.
Proof.
  unfold splice, len. intros Hlo Hl Hi. destruct (decide (Z.of_nat i < lo)).
  - rewrite lookup_app_l by (rewrite length_take; lia). apply lookup_take_lt. lia.
  - rewrite lookup_app_r by (rewrite length_take; lia).
    rewrite lookup_app_r by (rewrite length_take; lia).
    rewrite lookup_drop, length_take. f_equal. lia.
Qed.

Lemma splice_lookup_in lo new mem i :
  0 ≤ lo → lo + len new ≤ len mem → (i < length new)%nat →
  splice lo new mem !! (Z.to_nat lo + i)%nat = new !! i.
Proof.
  unfold splice, len. intros Hlo Hl Hi.
  rewrite lookup_app_r by (rewrite length_take; lia).
  rewrite lookup_app_l by (rewrite length_take; lia).
  f_equal. rewrite length_take. lia.
Qed.

Lemma Forall_splice lo new mem :
  Forall is_u8 new → Forall is_u8 mem → Forall is_u8 (splice lo new mem).
Proof. intros. unfold splice. rewrite !Forall_app. auto using Forall_take, Forall_drop. Qed.

Lemma program_u8 c dst bytes :
  is_u8 c → Forall is_u8 dst → Forall is_u8 bytes → Forall is_u8 (program c dst bytes).
Proof.
  intros Hc Hd Hb. apply Forall_lookup. intros i z Hz. unfold program in Hz.
  apply lookup_zip_with_Some in Hz as (x & y & -> & Hx & Hy).
  rewrite Forall_lookup in Hd, Hb. apply Hd in Hx. apply Hb in Hy.
  destruct (x =? 255); [|done]. unfold is_u8 in *. split.
  - apply Z.lxor_nonneg. lia.
  - destruct (decide (Z.lxor y c = 0)); [lia|].
    apply (proj2 (Z.log2_lt_pow2 (Z.lxor y c) 8 ltac:(pose proof (proj2 (Z.lxor_nonneg y c)); lia))).
    eapply Z.le_lt_trans; [apply Z.log2_lxor; lia|].
    apply Z.max_lub_lt; (destruct (decide (0 < y)), (decide (0 < c));
      first [apply Z.log2_lt_pow2; lia | rewrite Z.log2_nonpos; lia]).
Qed.

Section laws.
Context (ERASE_SIZE : Z) (HES : 0 < ERASE_SIZE).

Abbreviation im_step := (flash_step im_wf im_healthy capacity im_bytes).

(** Only the memory matters: counters and countdowns do not change the bytes. *)
Lemma im_step_same_memory f f' :
  im_wf f → memory f' = memory f → (im_healthy f → im_healthy f') → im_step nowhere f f'.
Proof.
  intros Hwf Hm Hh. split; [| done | unfold capacity | unfold im_bytes; intros].
  - unfold im_wf. by rewrite Hm.
  - by rewrite Hm.
  - by rewrite Hm.
Qed.

(** Replacing the bytes at [[lo, lo + len new)]. *)
Lemma im_step_splice f f' lo new :
  im_wf f → 0 ≤ lo → lo + len new ≤ len (memory f) → Forall is_u8 new →
  memory f' = splice lo new (memory f) → (im_healthy f → im_healthy f') →
  im_step (range lo (lo + len new)) f f' ∧
  (∀ i b, new !! i = Some b → im_bytes f' (lo + Z.of_nat i) = b).
Proof.
  intros [Hu Hl] Hlo Hle Hn Hm Hh. split; [split; [split| done | |]|].
  - rewrite Hm. by apply Forall_splice.
  - rewrite Hm. unfold len. by rewrite length_splice.
  - unfold capacity. rewrite Hm. unfold len. by rewrite length_splice.
  - intros a Ha. unfold im_bytes. destruct (Z.ltb_spec a 0); [done|].
    rewrite Hm, splice_lookup_out; try done. unfold range in Ha; rewrite Z2Nat.id; lia.
  - intros i b Hi. unfold im_bytes. rewrite (proj2 (Z.ltb_ge _ _)) by lia.
    pose proof (lookup_lt_Some _ _ _ Hi).
    rewrite Hm. replace (Z.to_nat (lo + Z.of_nat i)) with (Z.to_nat lo + i)%nat by lia.
    by rewrite splice_lookup_in, Hi.
Qed.

Lemma im_slice_view f lo hi :
  0 ≤ lo ≤ hi → hi ≤ len (memory f) → slice lo hi (memory f) = view (im_bytes f) lo (hi - lo).
Proof.
  intros. symmetry. replace (hi - lo) with (len (slice lo hi (memory f))) by (apply len_slice; lia).
  apply view_eq. intros i b Hi. unfold slice in Hi.
  apply lookup_take_Some in Hi as [Hi Hlt]. rewrite lookup_drop in Hi.
  unfold im_bytes. rewrite (proj2 (Z.ltb_ge _ _)) by lia.
  replace (Z.to_nat (lo + Z.of_nat i)) with (Z.to_nat lo + i)%nat by lia. by rewrite Hi.
Qed.

Lemma im_bytes_u8 f a : im_wf f → is_u8 (im_bytes f a).
Proof.
  intros [Hu _]. unfold im_bytes. destruct (a <? 0); [done|].
  destruct (memory f !! _) as [b|] eqn:Hb; [|done]. rewrite Forall_lookup in Hu. eauto.
Qed.

Lemma im_read_law f off n : im_wf f → 0 ≤ off → 0 ≤ n →
  wp (read off n)
     (λ bs f', im_step nowhere f f' ∧ bs = view (im_bytes f) off n)
     (λ _ f', im_step nowhere f f' ∧ ¬ (im_healthy f ∧ off + n ≤ capacity f)) f.
Proof.
  intros Hwf Hoff Hn. unfold wp, read.
  destruct (trigger_error_on_countdown _) as [fault cd] eqn:Hcd.
  assert (im_healthy f → fault = None ∧ cd = None) as Hh.
  { intros (_ & _ & Hr). rewrite Hr in Hcd. by inversion Hcd. }
  assert (∀ f', memory f' = memory f → countdown_erase_error f' = countdown_erase_error f →
    countdown_write_error f' = countdown_write_error f → countdown_read_error f' = cd →
    im_step nowhere f f') as Hst.
  { intros f' H1 H2 H3 H4. apply im_step_same_memory; [done..|]. intros H.
    destruct (Hh H) as [_ ?]. destruct H as (? & ? & ?). repeat split; congruence. }
  destruct fault as [e|]; simpl.
  { split; [by apply Hst|]. intros [H _]. by destruct (Hh H). }
  destruct (Z.ltb_spec (len (memory f)) (off + n)); simpl; (split; [by apply Hst|]).
  - unfold capacity. lia.
  - rewrite im_slice_view by lia. f_equal. lia.
Qed.

Lemma im_write_law f off data : im_wf f → 0 ≤ off → Forall is_u8 data →
  wp (write off data)
     (λ _ f', im_step (range off (off + len data)) f f' ∧
        (∀ i b, data !! i = Some b → im_bytes f (off + Z.of_nat i) = 255 →
                im_bytes f' (off + Z.of_nat i) = b) ∧
        clears_bits (im_bytes f) (im_bytes f'))
     (λ _ f', im_step (range off (off + len data)) f f' ∧
        ¬ (im_healthy f ∧ off + len data ≤ capacity f) ∧
        clears_bits (im_bytes f) (im_bytes f')) f.
Proof.
  intros Hwf Hoff Hd. pose proof (len_nonneg data). unfold wp, write.
  destruct (trigger_error_on_countdown _) as [fault cd] eqn:Hcd.
  assert (im_healthy f → fault = None ∧ cd = None) as Hh.
  { intros (_ & Hr & _). rewrite Hr in Hcd. by inversion Hcd. }
  set (c := match fault with None => 0 | Some _ => 165 end).
  assert (is_u8 c) as Hc by (by destruct fault).
  simpl. destruct (Z.ltb_spec (len (memory f)) (off + len data)); simpl.
  { split; [|split; [unfold capacity; lia|by apply clears_bits_refl]]. apply flash_step_nowhere.
    apply im_step_same_memory; [done..|]. intros H1. destruct (Hh H1) as [_ ?].
    destruct H1 as (? & ? & ?). repeat split; simpl; congruence. }
  set (new := program c (slice off (off + len data) (memory f)) data).
  set (f' := with_memory _ _).
  assert (len (slice off (off + len data) (memory f)) = len data) as Hls
    by (rewrite len_slice by lia; lia).
  assert (len new = len data) as Hlen.
  { unfold new, program, len in *. rewrite length_zip_with. lia. }
  destruct (im_step_splice f f' off new) as [Hst Hb]; try done.
  { by rewrite Hlen. }
  { apply program_u8; [done| |done]. apply Forall_slice. apply Hwf. }
  { intros H1. destruct (Hh H1) as [_ ?]. destruct H1 as (? & ? & ?).
    repeat split; simpl; congruence. }
  assert (clears_bits (im_bytes f) (im_bytes f')) as Hcl.
  { intros a. destruct (decide (range off (off + len data) a)) as [Ha|Ha].
    2: { rewrite Hlen in Hst. by rewrite (fs_frame Hst a Ha), Z.land_diag. }
    unfold range in Ha. pose proof (im_bytes_u8 f a Hwf) as Hu.
    assert (slice off (off + len data) (memory f) !! Z.to_nat (a - off) = Some (im_bytes f a)) as Hold.
    { rewrite im_slice_view, view_lookup by lia. do 2 f_equal. lia. }
    destruct (lookup_lt_is_Some_2 data (Z.to_nat (a - off))) as [d Hda]; [unfold len in *; lia|].
    assert (im_bytes f' a = if im_bytes f a =? 255 then Z.lxor d c else im_bytes f a) as Heq.
    { replace a with (off + Z.of_nat (Z.to_nat (a - off))) at 1 by lia. apply Hb.
      unfold new, program. apply lookup_zip_with_Some. eauto. }
    rewrite Heq. destruct (Z.eqb_spec (im_bytes f a) 255) as [H255|]; [|by rewrite Z.land_diag].
    pose proof (im_bytes_u8 f' a (fs_wf Hst)) as Hu'. rewrite Heq in Hu'.
    rewrite H255, Z.land_comm. change 255 with (Z.ones 8).
    rewrite Z.land_ones, Z.mod_small by (unfold is_u8 in *; lia). done. }
  rewrite Hlen in Hst. destruct fault as [e|]; (split; [done|]).
  { split; [|done]. intros [H1 _]. by destruct (Hh H1). }
  split; [|done]. intros i b Hi Hff. apply Hb. unfold new, program.
  apply lookup_zip_with_Some. exists 255, b. split; [|split; [|done]].
  { simpl. by rewrite Z.lxor_0_r. }
  pose proof (lookup_lt_Some _ _ _ Hi) as Hlt.
  rewrite im_slice_view, view_lookup by (unfold len in *; lia). by rewrite Hff.
Qed.

Lemma im_erase_law f lo hi : im_wf f → 0 ≤ lo ≤ hi →
  wp (erase ERASE_SIZE lo hi)
     (λ _ f', im_step (range lo hi) f f' ∧ (∀ a, lo ≤ a < hi → im_bytes f' a = 255))
     (λ _ f', im_step (range lo hi) f f' ∧
        ¬ (im_healthy f ∧ hi ≤ capacity f ∧ (ERASE_SIZE | lo) ∧ (ERASE_SIZE | hi))) f.
Proof.
  intros Hwf Hlo. pose proof (len_nonneg (memory f)). unfold wp, erase.
  destruct (trigger_error_on_countdown _) as [fault cd] eqn:Hcd.
  assert (im_healthy f → fault = None ∧ cd = None) as Hh.
  { intros (Hr & _ & _). rewrite Hr in Hcd. by inversion Hcd. }
  set (c := match fault with None => 0 | Some _ => 165 end).
  rewrite (proj2 (Z.eqb_neq ERASE_SIZE 0)) by lia.
  rewrite as_u32_small by (simpl; destruct Hwf; unfold is_u32; lia).
  assert (∀ f', memory f' = memory f → countdown_erase_error f' = cd →
    countdown_write_error f' = countdown_write_error f →
    countdown_read_error f' = countdown_read_error f → im_step (range lo hi) f f') as Hst.
  { intros f' H1 H2 H3 H4. apply flash_step_nowhere.
    apply im_step_same_memory; [done..|]. intros H5. destruct (Hh H5) as [_ ?].
    destruct H5 as (? & ? & ?). repeat split; congruence. }
  destruct (negb _ || negb _) eqn:Hal; simpl.
  { split; [by apply Hst|]. intros (_ & _ & H1 & H2).
    apply Z.mod_divide in H1; [|lia]. apply Z.mod_divide in H2; [|lia].
    by rewrite H1, H2 in Hal. }
  destruct (Z.ltb_spec (len (memory f)) (Z.max lo hi)); simpl.
  { split; [by apply Hst|]. unfold capacity. lia. }
  rewrite (proj2 (Z.ltb_ge _ _)) by lia.
  set (new := replicate _ _). set (f' := with_memory _ _).
  assert (lo + len new = hi) as Hlen.
  { unfold new, len. rewrite length_replicate. lia. }
  destruct (im_step_splice f f' lo new) as [Hst' Hb]; try done; [lia|lia| | |].
  { apply Forall_replicate. by destruct fault. }
  { intros H1. destruct (Hh H1) as [_ ?]. destruct H1 as (? & ? & ?).
    repeat split; simpl; congruence. }
  rewrite Hlen in Hst'. destruct fault as [e|]; (split; [done|]).
  { intros [H1 _]. by destruct (Hh H1). }
  intros a Ha. replace a with (lo + Z.of_nat (Z.to_nat (a - lo))) by lia.
  apply Hb. unfold new. apply lookup_replicate. split; [done|lia].
Qed.

Definition in_memory_laws :
    @NorFlashLaws InMemoryFlash MockError (in_memory_nor_flash ERASE_SIZE) :=
  @Build_NorFlashLaws InMemoryFlash MockError (in_memory_nor_flash ERASE_SIZE)
    im_bytes im_wf im_healthy im_bytes_u8 im_read_law im_write_law im_erase_law.
End laws.
