(* ===== verification/BlockLayer.v ===== *)
(** * Block layer: definitions

    [storage/flash_db/block_layer.rs].  Flash is divided into erase blocks; a
    formatted block starts with a 16-byte header, then one 3-byte header per
    fragment, then the fragments.  [BlockDevice] is the driver plus the number
    of blocks; every operation of the [Reader] and [Writer] traits is a
    definition in the state/error monad over it.  [B] is the const parameter
    [BLOCK_SIZE]. *)

From stdpp Require Import base list list_numbers numbers option.
From S2P Require Import Prelude NorFlash.

Record BlockValid : Type := mkBlockValid { valid : bool }.

Record BlockHeader : Type := mkBlockHeader {
  object_id : Z;
  frag_size : Z;
  first_frag_no : Z;
  object_version : Z;
  rfu : list Z;
  id : Z;
  frag_count : Z;
}.

Definition parse_u16 (slice_assumed_2bytes : list Z) : Z := le_val slice_assumed_2bytes.
Definition parse_u32 (slice_assumed_4bytes : list Z) : Z := le_val slice_assumed_4bytes.

Definition block_valid_from_bytes (bytes : list Z) : BlockValid :=
  mkBlockValid (bool_decide (bytes = [0x90; 0x0D; 0xFF; 0xFF])).

(** Offset in the 4-byte field and the two bytes to write there. *)
Definition block_valid_as_bytes (v : BlockValid) : Z * list Z :=
  if valid v then (0, [0x90; 0x0D]) else (2, [0xBA; 0xAD]).

Definition BLOCK_HEADER_SIZE : Z := 16.
Definition FRAG_HEADER_SIZE : Z := 3.

(** [block_size] is at least [BLOCK_HEADER_SIZE] (the [usize] subtraction). *)
Definition calculate_fragments_per_block (block_size fragment_size : Z) : Z :=
  (block_size - BLOCK_HEADER_SIZE) / (fragment_size + FRAG_HEADER_SIZE).

Definition first_fragment (h : BlockHeader) : Z := first_frag_no h.
Definition fragment_size (h : BlockHeader) : Z := frag_size h.
Definition fragment_count (h : BlockHeader) : Z := frag_count h.
Definition last_fragment (h : BlockHeader) : Z :=
  let offset := as_u32 (saturating_sub (fragment_count h) 1) in
  wrapping_add (first_frag_no h) offset.

Definition try_new (B block_id object_id object_version frag_size first_frag_no : Z) :
    option BlockHeader :=
  let frag_count := calculate_fragments_per_block B frag_size in
  if frag_count =? 0 then None
  else Some (mkBlockHeader object_id frag_size first_frag_no object_version
               [0xFF; 0xFF; 0xFF] block_id frag_count).

Definition header_from_bytes (B id : Z) (bytes : list Z) : option BlockHeader :=
  let first_frag_no := parse_u32 (slice 8 12 bytes) in
  let object_version := nth 12 bytes 0 in
  let v := block_valid_from_bytes (slice 0 4 bytes) in
  if valid v
  then try_new B id (parse_u16 (slice 4 6 bytes)) object_version
         (parse_u16 (slice 6 8 bytes)) first_frag_no
  else None.

Definition header_as_bytes (h : BlockHeader) : list Z :=
  [0xFF; 0xFF; 0xFF; 0xFF] ++ le_bytes 2 (object_id h) ++ le_bytes 2 (frag_size h) ++
  le_bytes 4 (first_frag_no h) ++ [object_version h; 0xFF; 0xFF; 0xFF].

Definition headers_total_size (h : BlockHeader) : Z :=
  BLOCK_HEADER_SIZE + fragment_count h * FRAG_HEADER_SIZE.

Inductive FragmentStatus : Type := Empty | Invalid | Valid | Obsolete.

#[export] Instance FragmentStatus_eq_dec : EqDecision FragmentStatus.
Proof. solve_decision. Defined.

Definition status_byte (s : FragmentStatus) : Z :=
  match s with Empty => 0xFF | Invalid => 0xD1 | Valid => 0xDC | Obsolete => 0x55 end.

(** Which byte of the fragment header records the status, and its value. *)
Definition as_byte (s : FragmentStatus) : option (Z * Z) :=
  match s with
  | Empty => None
  | Invalid => Some (0, status_byte s)
  | Valid => Some (1, status_byte s)
  | Obsolete => Some (2, status_byte s)
  end.

(** [impl From<FragmentHeader> for FragmentStatus] *)
Definition status_of_header (header : list Z) : FragmentStatus :=
  if bool_decide (header = [0xFF; 0xFF; 0xFF]) then Empty
  else if bool_decide (header = [0xD1; 0xDC; 0xFF]) then Valid
  else if bool_decide (header !! 2%nat = Some 0x55) then Obsolete
  else Invalid.

(** ** Errors *)

Inductive BoundsError : Type := mkBoundsError.

Inductive FlashError (E : Type) : Type :=
| FlashError_BlockOutOfBounds
| FlashError_Flash (e : E).
Arguments FlashError_BlockOutOfBounds {E}.
Arguments FlashError_Flash {E} e.

Inductive FlashReadErrorKind : Type :=
| FragmentEmpty | FragmentInvalid | FragmentObsolete | FragmentNotFound
| BlockInvalid | BlockOutOfBounds | FlashKind.

Inductive FlashReadError (E : Type) : Type :=
| FlashReadError_Read (k : FlashReadErrorKind)
| FlashReadError_Flash (e : E).
Arguments FlashReadError_Read {E} k.
Arguments FlashReadError_Flash {E} e.

Inductive FlashWriteErrorKind : Type :=
| W_FragmentNotFound | W_BlockInvalid | W_FragmentInvalid | W_FragmentObsolete
| W_FragmentExists | W_FragmentTooLarge | W_VerifyFailed | W_BlockOutOfBounds | W_Flash.

Inductive FlashWriteError (E : Type) : Type :=
| FlashWriteError_Write (k : FlashWriteErrorKind)
| FlashWriteError_Flash (e : E).
Arguments FlashWriteError_Write {E} k.
Arguments FlashWriteError_Flash {E} e.

Definition read_error_kind {E} (e : FlashReadError E) : FlashReadErrorKind :=
  match e with FlashReadError_Read k => k | FlashReadError_Flash _ => FlashKind end.
Definition write_error_kind {E} (e : FlashWriteError E) : FlashWriteErrorKind :=
  match e with FlashWriteError_Write k => k | FlashWriteError_Flash _ => W_Flash end.

#[export] Instance FlashError_from_bounds {E} : From BoundsError (FlashError E) :=
  λ _, FlashError_BlockOutOfBounds.
#[export] Instance FlashReadError_from_bounds {E} : From BoundsError (FlashReadError E) :=
  λ _, FlashReadError_Read BlockOutOfBounds.
#[export] Instance FlashWriteError_from_bounds {E} : From BoundsError (FlashWriteError E) :=
  λ _, FlashWriteError_Write W_BlockOutOfBounds.
#[export] Instance FlashError_from_flash {E} : From E (FlashError E) | 200 := FlashError_Flash.
#[export] Instance FlashReadError_from_flash {E} : From E (FlashReadError E) | 200 :=
  FlashReadError_Flash.
#[export] Instance FlashWriteError_from_flash {E} : From E (FlashWriteError E) | 200 :=
  FlashWriteError_Flash.

(** ** The block device *)

Record BlockDevice (F : Type) : Type := mkBlockDevice { flash : F; blocks_total : Z }.
Arguments mkBlockDevice {F} flash blocks_total.
Arguments flash {F} _.
Arguments blocks_total {F} _.

Definition set_flash {F} (f : F) (bd : BlockDevice F) : BlockDevice F :=
  mkBlockDevice f (blocks_total bd).

Section block_device.
Context {F E : Type} `{!NorFlash F E} (B : Z).
Abbreviation BD := (BlockDevice F).

Definition writeable_from (f : F) : option BD :=
  if negb (B =? nf_ERASE_SIZE) then None
  else Some (mkBlockDevice f (nf_capacity f / B)).

Definition readonly_from (f : F) : BD := mkBlockDevice f (nf_capacity f / B).

(** Calls of the driver. *)
Definition flash_read (offset n : Z) : M BD E (list Z) := zoom flash set_flash (nf_read offset n).
Definition flash_write (offset : Z) (bytes : list Z) : M BD E unit :=
  zoom flash set_flash (nf_write offset bytes).
Definition flash_erase (lo hi : Z) : M BD E unit := zoom flash set_flash (nf_erase lo hi).

Definition block_addr (block_id : Z) : M BD BoundsError Z :=
  total ← gets blocks_total;
  if as_u32 total <? block_id then fail mkBoundsError
  else u32_mul block_id (as_u32 B).

Definition try_get_fragment_status (block : BlockHeader) (frag_no : Z) :
    M BD (FlashError E) (option FragmentStatus) :=
  let rel_frag_no := wrapping_sub frag_no (first_frag_no block) in
  if fragment_count block <=? rel_frag_no then mret None
  else
    addr ← try! (block_addr (id block));
    let header_offset := BLOCK_HEADER_SIZE + FRAG_HEADER_SIZE * rel_frag_no in
    a ← u32_add addr (as_u32 header_offset);
    buffer ← try! (flash_read a FRAG_HEADER_SIZE);
    mret (Some (status_of_header buffer)).

(** [result_len] is the length of the caller's buffer; the bytes read are returned. *)
Definition read_raw_fragment (block : BlockHeader) (frag_no offset result_len : Z) :
    M BD (FlashReadError E) (list Z) :=
  let rel_frag_no := wrapping_sub frag_no (first_frag_no block) in
  if fragment_count block <=? rel_frag_no then fail (FlashReadError_Read FragmentNotFound)
  else
    let bytes_till_end_of_frag := saturating_sub (fragment_size block) offset in
    let n := Z.min result_len bytes_till_end_of_frag in
    let data_offset :=
      headers_total_size block + rel_frag_no * fragment_size block + offset in
    addr ← try! (block_addr (id block));
    a ← u32_add addr (as_u32 data_offset);
    try! (flash_read a n).

Definition fragment_status (block : BlockHeader) (frag_no : Z) :
    M BD (FlashReadError E) FragmentStatus :=
  r ← attempt (try_get_fragment_status block frag_no);
  match r with
  | inl (Some status) => mret status
  | inl None => fail (FlashReadError_Read FragmentNotFound)
  | inr FlashError_BlockOutOfBounds => fail (FlashReadError_Read BlockOutOfBounds)
  | inr (FlashError_Flash e) => fail (FlashReadError_Flash e)
  end.

Definition fragment_status_pre_write (block : BlockHeader) (frag_no : Z) :
    M BD (FlashWriteError E) FragmentStatus :=
  r ← attempt (try_get_fragment_status block frag_no);
  match r with
  | inl (Some status) => mret status
  | inl None => fail (FlashWriteError_Write W_FragmentNotFound)
  | inr FlashError_BlockOutOfBounds => fail (FlashWriteError_Write W_BlockOutOfBounds)
  | inr (FlashError_Flash e) => fail (FlashWriteError_Flash e)
  end.

Definition read_fragment_at_offset (block : BlockHeader) (frag_no offset result_len : Z) :
    M BD (FlashReadError E) (list Z) :=
  status ← fragment_status block frag_no;
  match status with
  | Empty => fail (FlashReadError_Read FragmentEmpty)
  | Invalid => fail (FlashReadError_Read FragmentInvalid)
  | Obsolete => fail (FlashReadError_Read FragmentObsolete)
  | Valid => read_raw_fragment block frag_no offset result_len
  end.

Definition read_fragment (block : BlockHeader) (frag_no result_len : Z) :
    M BD (FlashReadError E) (list Z) :=
  read_fragment_at_offset block frag_no 0 result_len.

Definition CHUNK_SIZE : Z := 128.

Definition verify_error (e : FlashReadError E) : FlashWriteError E :=
  match e with
  | FlashReadError_Read _ => FlashWriteError_Write W_VerifyFailed
  | FlashReadError_Flash e => FlashWriteError_Flash e
  end.

(** The loop of [verify_fragment] over the chunks from number [chunk_no] on. *)
Fixpoint verify_chunks (block : BlockHeader) (frag_no chunk_no : Z) (cs : list (list Z)) :
    M BD (FlashWriteError E) bool :=
  match cs with
  | [] => mret true
  | expected :: cs =>
      readback ← map_err verify_error
        (read_raw_fragment block frag_no (chunk_no * CHUNK_SIZE) (len expected));
      if negb (bool_decide (readback = expected)) then mret false
      else verify_chunks block frag_no (chunk_no + 1) cs
  end.

Definition verify_fragment (block : BlockHeader) (frag_no : Z) (expected_data : list Z) :
    M BD (FlashWriteError E) bool :=
  verify_chunks block frag_no 0 (chunks CHUNK_SIZE expected_data).

Definition block_header (block_id : Z) : M BD (FlashError E) (option BlockHeader) :=
  total ← gets blocks_total;
  if as_u32 total <? block_id then fail FlashError_BlockOutOfBounds
  else
    offset ← u32_mul block_id (as_u32 B);
    buffer ← try! (flash_read offset BLOCK_HEADER_SIZE);
    mret (header_from_bytes B block_id buffer).

Fixpoint all_empty (block : BlockHeader) (rels : list Z) : M BD (FlashReadError E) bool :=
  match rels with
  | [] => mret true
  | rel_frag :: rels =>
      frag_no ← u32_add (first_fragment block) (as_u32 rel_frag);
      status ← fragment_status block frag_no;
      if negb (bool_decide (Empty = status)) then mret false else all_empty block rels
  end.

Definition block_is_empty (block : BlockHeader) : M BD (FlashReadError E) bool :=
  all_empty block (seqZ 0 (fragment_count block)).

Fixpoint find_valid (block : BlockHeader) (rels : list Z) :
    M BD (FlashReadError E) (option Z) :=
  match rels with
  | [] => mret None
  | rel_frag :: rels =>
      frag_no ← u32_add (first_fragment block) (as_u32 rel_frag);
      status ← fragment_status block frag_no;
      if bool_decide (Valid = status) then mret (Some frag_no) else find_valid block rels
  end.

Definition block_find_valid_fragment (block : BlockHeader) :
    M BD (FlashReadError E) (option Z) :=
  find_valid block (seqZ 0 (fragment_count block)).

Definition block_is_valid (block_id : Z) : M BD (FlashError E) bool :=
  total ← gets blocks_total;
  if as_u32 total <? block_id then fail FlashError_BlockOutOfBounds
  else
    offset ← u32_mul block_id (as_u32 B);
    buffer ← try! (flash_read offset 4);
    mret (valid (block_valid_from_bytes buffer)).

Definition format_block (block_id object_id object_version frag_size first_frag_no : Z) :
    M BD (FlashWriteError E) unit :=
  addr ← try! (block_addr block_id);
  let '(offset, marker) := block_valid_as_bytes (mkBlockValid false) in
  a ← u32_add addr (as_u32 offset);
  attempt (flash_write a marker);;
  e ← u32_add addr (as_u32 B);
  try! (flash_erase addr e);;
  match try_new B block_id object_id object_version frag_size first_frag_no with
  | None => fail (FlashWriteError_Write W_FragmentTooLarge)
  | Some header =>
      a ← u32_add addr 4;
      try! (flash_write a (slice 4 16 (header_as_bytes header)));;
      let '(offset, marker) := block_valid_as_bytes (mkBlockValid true) in
      a ← u32_add addr (as_u32 offset);
      try! (flash_write a marker)
  end.

(** [if let Some((offset, marker)) = status.as_byte() { flash.write(..)? }] *)
Definition write_marker (frag_header_addr : Z) (status : FragmentStatus) :
    M BD (FlashWriteError E) unit :=
  match as_byte status with
  | None => mret tt
  | Some (marker_offset, marker) =>
      a ← u32_add frag_header_addr (as_u32 marker_offset);
      try! (flash_write a [marker])
  end.

Definition write_fragment (block : BlockHeader) (frag_no : Z) (data : list Z) :
    M BD (FlashWriteError E) unit :=
  if fragment_size block <? len data then fail (FlashWriteError_Write W_FragmentTooLarge)
  else
    addr ← try! (block_addr (id block));
    let rel_frag_no := wrapping_sub frag_no (first_frag_no block) in
    if fragment_count block <=? rel_frag_no then fail (FlashWriteError_Write W_FragmentNotFound)
    else
      status ← fragment_status_pre_write block frag_no;
      match status with
      | Invalid => fail (FlashWriteError_Write W_FragmentInvalid)
      | Obsolete => fail (FlashWriteError_Write W_FragmentObsolete)
      | Valid => fail (FlashWriteError_Write W_FragmentExists)
      | Empty =>
          frag_header_addr ←
            u32_add addr (as_u32 (BLOCK_HEADER_SIZE + FRAG_HEADER_SIZE * rel_frag_no));
          write_marker frag_header_addr Invalid;;
          let data_offset := headers_total_size block + rel_frag_no * fragment_size block in
          a ← u32_add addr (as_u32 data_offset);
          try! (flash_write a data);;
          ok ← verify_fragment block frag_no data;
          if negb ok then fail (FlashWriteError_Write W_VerifyFailed)
          else write_marker frag_header_addr Valid
      end.

Definition delete_fragment (block : BlockHeader) (frag_no : Z) :
    M BD (FlashWriteError E) unit :=
  addr ← try! (block_addr (id block));
  let rel_frag_no := wrapping_sub frag_no (first_frag_no block) in
  if fragment_count block <=? rel_frag_no then fail (FlashWriteError_Write W_FragmentNotFound)
  else
    status ← fragment_status_pre_write block frag_no;
    match status with
    | Invalid => mret tt
    | Obsolete => mret tt
    | Empty | Valid =>
        frag_header_addr ←
          u32_add addr (as_u32 (BLOCK_HEADER_SIZE + FRAG_HEADER_SIZE * rel_frag_no));
        write_marker frag_header_addr Obsolete
    end.
End block_device.
