(* ===== verification/BlockFacts.v ===== *)
(** * Block layer: geometry, frame and the specification of each operation

    Everything here is proved for any driver that satisfies [NorFlashLaws],
    faults included.  [hdr_at], [status_at] and [data_at] are the abstract
    state of a block: its header, the status of each fragment slot and the
    bytes of each fragment. *)

From stdpp Require Import base list list_numbers numbers option.
From S2P Require Import Prelude NorFlash BlockLayer.

Section facts.
Context {F E : Type} `{!NorFlash F E} `{!NorFlashLaws F E} (B : Z).
Abbreviation BD := (BlockDevice F).

Definition bd_bytes (bd : BD) : Z → Z := nf_bytes (flash bd).
Definition bd_cap (bd : BD) : Z := nf_capacity (flash bd).
Definition bd_healthy (bd : BD) : Prop := nf_healthy (flash bd).

(** A device over a driver whose erase size is [B] and whose addresses fit in [u32]. *)
Record bd_wf (bd : BD) : Prop := {
  wf_flash : nf_wf (flash bd);
  wf_total : blocks_total bd = bd_cap bd / B;
  wf_cap : 0 ≤ bd_cap bd < u32_size;
  wf_B : BLOCK_HEADER_SIZE ≤ B < u32_size;
  wf_erase : nf_ERASE_SIZE = B;
}.

Abbreviation bd_step := (flash_step bd_wf bd_healthy bd_cap bd_bytes).
Abbreviation same := (bd_step nowhere).

(** The abstract state of block [bid]. *)
Definition hdr_at (bd : BD) (bid : Z) : option BlockHeader :=
  header_from_bytes B bid (view (bd_bytes bd) (bid * B) BLOCK_HEADER_SIZE).
Definition slot_addr (bid rel : Z) : Z := bid * B + BLOCK_HEADER_SIZE + FRAG_HEADER_SIZE * rel.
Definition status_at (bd : BD) (bid rel : Z) : FragmentStatus :=
  status_of_header (view (bd_bytes bd) (slot_addr bid rel) FRAG_HEADER_SIZE).
Definition data_addr (h : BlockHeader) (rel : Z) : Z :=
  id h * B + headers_total_size h + rel * frag_size h.
Definition data_at (bd : BD) (h : BlockHeader) (rel off n : Z) : list Z :=
  view (bd_bytes bd) (data_addr h rel + off) n.

(** A header that [block_header] can return for a block of the device. *)
Record header_ok (bd : BD) (h : BlockHeader) : Prop := {
  ok_id : 0 ≤ id h < blocks_total bd;
  ok_frag_size : is_u16 (frag_size h);
  ok_first : is_u32 (first_frag_no h);
  ok_count : frag_count h = calculate_fragments_per_block B (frag_size h);
  ok_count_pos : 0 < frag_count h;
}.

(** Slot of a fragment number in a block. *)
Definition rel_of (h : BlockHeader) (frag_no : Z) : Z := wrapping_sub frag_no (first_frag_no h).

(** The addresses that belong to slot [rel]: its header and its data. *)
Definition frag_region (h : BlockHeader) (rel a : Z) : Prop :=
  range (slot_addr (id h) rel) (slot_addr (id h) rel + FRAG_HEADER_SIZE) a ∨
  range (data_addr h rel) (data_addr h rel + frag_size h) a.

Definition block_region (bid a : Z) : Prop := range (bid * B) (bid * B + B) a.

(** ** Geometry *)

Lemma count_fits fs :
  BLOCK_HEADER_SIZE ≤ B → 0 ≤ fs →
  0 ≤ calculate_fragments_per_block B fs ∧
  BLOCK_HEADER_SIZE + calculate_fragments_per_block B fs * (fs + FRAG_HEADER_SIZE) ≤ B.
Proof.
  unfold calculate_fragments_per_block, BLOCK_HEADER_SIZE, FRAG_HEADER_SIZE. intros HB Hfs.
  split; [apply Z.div_pos; lia|].
  pose proof (Z.mul_div_le (B - 16) (fs + 3)). lia.
Qed.

Lemma block_in_cap bd bid :
  bd_wf bd → 0 ≤ bid < blocks_total bd → 0 ≤ bid * B ∧ bid * B + B ≤ bd_cap bd.
Proof.
  intros [? Ht ? HB ?] Hb. unfold BLOCK_HEADER_SIZE in HB. rewrite Ht in Hb.
  pose proof (Z.mul_div_le (bd_cap bd) B). nia.
Qed.

(** Slot headers, then data, all inside the block. *)
Lemma slot_in_block bd h rel :
  bd_wf bd → header_ok bd h → 0 ≤ rel < frag_count h →
  id h * B + BLOCK_HEADER_SIZE ≤ slot_addr (id h) rel ∧
  slot_addr (id h) rel + FRAG_HEADER_SIZE ≤ id h * B + headers_total_size h ∧
  id h * B + headers_total_size h ≤ data_addr h rel ∧
  data_addr h rel + frag_size h ≤ id h * B + B.
Proof.
  intros [? ? ? HB ?] [_ [Hfs _] _ Hc _] Hrel.
  destruct (count_fits (frag_size h)) as [_ Hfit]; [lia|lia|].
  rewrite <-Hc in Hfit.
  unfold slot_addr, data_addr, headers_total_size, fragment_count,
    BLOCK_HEADER_SIZE, FRAG_HEADER_SIZE in *. nia.
Qed.

Lemma slots_disjoint h r1 r2 : r1 ≠ r2 →
  slot_addr (id h) r1 + FRAG_HEADER_SIZE ≤ slot_addr (id h) r2 ∨
  slot_addr (id h) r2 + FRAG_HEADER_SIZE ≤ slot_addr (id h) r1.
Proof. unfold slot_addr, FRAG_HEADER_SIZE, BLOCK_HEADER_SIZE. lia. Qed.

Lemma datas_disjoint h r1 r2 : 0 ≤ frag_size h → r1 ≠ r2 →
  data_addr h r1 + frag_size h ≤ data_addr h r2 ∨
  data_addr h r2 + frag_size h ≤ data_addr h r1.
Proof. unfold data_addr. intros. nia. Qed.

Lemma rel_range h n : is_u32 (rel_of h n).
Proof. apply wrapping_sub_range. Qed.

(** ** Frame lemmas *)

Lemma same_view bd bd' off n :
  same bd bd' → view (bd_bytes bd') off n = view (bd_bytes bd) off n.
Proof. intros H. apply view_ext. intros. exact (flash_step_same _ _ _ H). Qed.

Lemma same_hdr bd bd' bid : same bd bd' → hdr_at bd' bid = hdr_at bd bid.
Proof. intros H. unfold hdr_at. by erewrite same_view. Qed.

Lemma same_status bd bd' bid rel : same bd bd' → status_at bd' bid rel = status_at bd bid rel.
Proof. intros H. unfold status_at. by erewrite same_view. Qed.

Lemma same_data bd bd' h rel off n :
  same bd bd' → data_at bd' h rel off n = data_at bd h rel off n.
Proof. intros H. unfold data_at. by erewrite same_view. Qed.

Lemma step_total P bd bd' : bd_wf bd → bd_step P bd bd' → blocks_total bd' = blocks_total bd.
Proof.
  intros Hwf H. rewrite (wf_total _ (fs_wf H)), (wf_total _ Hwf). by rewrite (fs_capacity H).
Qed.

Lemma step_header_ok P bd bd' h :
  bd_wf bd → bd_step P bd bd' → header_ok bd h → header_ok bd' h.
Proof. intros Hwf H []. split; auto. by rewrite (step_total P bd bd'). Qed.

Lemma step_view P bd bd' off n :
  bd_step P bd bd' → (∀ a, range off (off + n) a → ¬ P a) →
  view (bd_bytes bd') off n = view (bd_bytes bd) off n.
Proof. intros H HP. apply view_ext. intros a Ha. apply (fs_frame H). by apply HP. Qed.

(** A step inside one slot changes no header, and no other slot. *)
Lemma frag_step_hdr bd bd' h rel bid :
  bd_wf bd → header_ok bd h → 0 ≤ rel < frag_count h → 0 ≤ bid →
  bd_step (frag_region h rel) bd bd' → hdr_at bd' bid = hdr_at bd bid.
Proof.
  intros Hwf Hh Hr Hb H. unfold hdr_at. erewrite step_view; [done|exact H|].
  intros a Ha. pose proof (slot_in_block _ _ _ Hwf Hh Hr).
  pose proof (wf_B _ Hwf). unfold frag_region, range, BLOCK_HEADER_SIZE, FRAG_HEADER_SIZE in *.
  pose proof (ok_frag_size _ _ Hh). unfold is_u16 in *.
  assert (bid = id h ∨ bid * B + B ≤ id h * B ∨ id h * B + B ≤ bid * B) by nia. lia.
Qed.

Lemma frag_region_other_block bd h rel bid a :
  bd_wf bd → header_ok bd h → 0 ≤ rel < frag_count h → bid ≠ id h →
  block_region bid a → ¬ frag_region h rel a.
Proof.
  intros Hwf Hh Hr Hb Ha HPa.
  pose proof (slot_in_block _ _ _ Hwf Hh Hr).
  pose proof (wf_B _ Hwf). pose proof (ok_frag_size _ _ Hh).
  unfold block_region, frag_region, range, is_u16, BLOCK_HEADER_SIZE, FRAG_HEADER_SIZE in *.
  assert (bid * B + B ≤ id h * B ∨ id h * B + B ≤ bid * B) by nia. lia.
Qed.

Lemma frag_step_status bd bd' h rel r :
  bd_wf bd → header_ok bd h → 0 ≤ rel < frag_count h → 0 ≤ r < frag_count h → r ≠ rel →
  bd_step (frag_region h rel) bd bd' → status_at bd' (id h) r = status_at bd (id h) r.
Proof.
  intros Hwf Hh Hrel Hr Hne H. unfold status_at. erewrite step_view; [done|exact H|].
  intros a Ha. pose proof (slot_in_block _ _ _ Hwf Hh Hrel).
  pose proof (slot_in_block _ _ _ Hwf Hh Hr). pose proof (slots_disjoint h r rel Hne).
  unfold frag_region, range, FRAG_HEADER_SIZE in *. lia.
Qed.

Lemma frag_step_data bd bd' h rel r off n :
  bd_wf bd → header_ok bd h → 0 ≤ rel < frag_count h → 0 ≤ r < frag_count h → r ≠ rel →
  0 ≤ off → off + n ≤ frag_size h →
  bd_step (frag_region h rel) bd bd' → data_at bd' h r off n = data_at bd h r off n.
Proof.
  intros Hwf Hh Hrel Hr Hne Hoff Hn H. unfold data_at. erewrite step_view; [done|exact H|].
  intros a Ha. pose proof (slot_in_block _ _ _ Hwf Hh Hrel).
  pose proof (slot_in_block _ _ _ Hwf Hh Hr). pose proof (ok_frag_size _ _ Hh).
  unfold is_u16 in *. pose proof (datas_disjoint h r rel ltac:(lia) Hne).
  unfold frag_region, range, FRAG_HEADER_SIZE in *. lia.
Qed.

(** ** The driver calls *)

Lemma bd_step_lift P bd f' :
  bd_wf bd → flash_step nf_wf nf_healthy nf_capacity nf_bytes P (flash bd) f' →
  bd_step P bd (set_flash f' bd).
Proof.
  intros [] []. unfold bd_cap in *. split; simpl; auto. split; simpl; auto.
  all: unfold bd_cap; simpl; by rewrite fs_capacity.
Qed.

Lemma wp_flash_read bd off n Q (R : E → BD → Prop) :
  bd_wf bd → 0 ≤ off → 0 ≤ n →
  (∀ bd', same bd bd' → Q (view (bd_bytes bd) off n) bd') →
  (∀ e bd', same bd bd' → ¬ (bd_healthy bd ∧ off + n ≤ bd_cap bd) → R e bd') →
  wp (flash_read off n) Q R bd.
Proof.
  intros Hwf ?? HQ HR. apply wp_zoom. eapply wp_mono; [by apply nf_read_law; [apply Hwf|..]|..]; simpl.
  - intros bs f' [Hs ->]. apply HQ. by apply bd_step_lift.
  - intros e f' [Hs Hn]. apply HR; [by apply bd_step_lift|done].
Qed.

Lemma wp_flash_write_bits bd off data (Q : unit → BD → Prop) (R : E → BD → Prop) :
  bd_wf bd → 0 ≤ off → Forall is_u8 data →
  (∀ bd', bd_step (range off (off + len data)) bd bd' →
     (∀ i b, data !! i = Some b → bd_bytes bd (off + Z.of_nat i) = 255 →
             bd_bytes bd' (off + Z.of_nat i) = b) →
     clears_bits (bd_bytes bd) (bd_bytes bd') → Q tt bd') →
  (∀ e bd', bd_step (range off (off + len data)) bd bd' →
     ¬ (bd_healthy bd ∧ off + len data ≤ bd_cap bd) →
     clears_bits (bd_bytes bd) (bd_bytes bd') → R e bd') →
  wp (flash_write off data) Q R bd.
Proof.
  intros Hwf ?? HQ HR. apply wp_zoom.
  eapply wp_mono; [by apply nf_write_law; [apply Hwf|..]|..]; simpl.
  - intros [] f' (Hs & Hb & Hcl). apply HQ; [by apply bd_step_lift|done..].
  - intros e f' (Hs & Hn & Hcl). apply HR; [by apply bd_step_lift|done..].
Qed.

Lemma wp_flash_write bd off data (Q : unit → BD → Prop) (R : E → BD → Prop) :
  bd_wf bd → 0 ≤ off → Forall is_u8 data →
  (∀ bd', bd_step (range off (off + len data)) bd bd' →
     (∀ i b, data !! i = Some b → bd_bytes bd (off + Z.of_nat i) = 255 →
             bd_bytes bd' (off + Z.of_nat i) = b) → Q tt bd') →
  (∀ e bd', bd_step (range off (off + len data)) bd bd' →
     ¬ (bd_healthy bd ∧ off + len data ≤ bd_cap bd) → R e bd') →
  wp (flash_write off data) Q R bd.
Proof. intros. apply wp_flash_write_bits; auto. Qed.

Lemma wp_flash_erase bd lo hi (Q : unit → BD → Prop) (R : E → BD → Prop) :
  bd_wf bd → 0 ≤ lo ≤ hi →
  (∀ bd', bd_step (range lo hi) bd bd' →
     (∀ a, lo ≤ a < hi → bd_bytes bd' a = 255) → Q tt bd') →
  (∀ e bd', bd_step (range lo hi) bd bd' →
     ¬ (bd_healthy bd ∧ hi ≤ bd_cap bd ∧ (nf_ERASE_SIZE | lo) ∧ (nf_ERASE_SIZE | hi)) →
     R e bd') →
  wp (flash_erase lo hi) Q R bd.
Proof.
  intros Hwf ? HQ HR. apply wp_zoom.
  eapply wp_mono; [by apply nf_erase_law; [apply Hwf|..]|..]; simpl.
  - intros [] f' [Hs Hb]. apply HQ; [by apply bd_step_lift|done].
  - intros e f' [Hs Hn]. apply HR; [by apply bd_step_lift|done].
Qed.

(** ** Addresses *)

Lemma wp_block_addr bd bid (Q : Z → BD → Prop) (R : BoundsError → BD → Prop) :
  bd_wf bd → 0 ≤ bid < blocks_total bd → Q (bid * B) bd → wp (block_addr B bid) Q R bd.
Proof.
  intros Hwf Hb HQ. unfold block_addr. wp_steps.
  destruct (block_in_cap _ _ Hwf Hb). pose proof Hwf as [_ Ht Hc HB _].
  rewrite as_u32_small. 2: { unfold is_u32, BLOCK_HEADER_SIZE in *. split; [lia|].
    rewrite Ht. apply Z.div_lt_upper_bound; nia. }
  rewrite (proj2 (Z.ltb_ge _ _)) by lia.
  unfold BLOCK_HEADER_SIZE in *. rewrite as_u32_small by (unfold is_u32; lia).
  apply wp_u32_mul; [lia|done].
Qed.

(** The address arithmetic of a slot: no overflow, and the address is [slot_addr]. *)
Lemma wp_slot_addr {E'} bd h rel (Q : Z → BD → Prop) (R : E' → BD → Prop) :
  bd_wf bd → header_ok bd h → 0 ≤ rel < frag_count h →
  Q (slot_addr (id h) rel) bd →
  wp (u32_add (id h * B) (as_u32 (BLOCK_HEADER_SIZE + FRAG_HEADER_SIZE * rel))) Q R bd.
Proof.
  intros Hwf Hh Hr HQ. pose proof (slot_in_block _ _ _ Hwf Hh Hr) as Hs.
  destruct (block_in_cap _ _ Hwf (ok_id _ _ Hh)). pose proof (wf_cap _ Hwf).
  pose proof (wf_B _ Hwf). pose proof (ok_frag_size _ _ Hh). unfold is_u16 in *.
  unfold slot_addr, BLOCK_HEADER_SIZE, FRAG_HEADER_SIZE in *.
  rewrite as_u32_small by (unfold is_u32; lia). apply wp_u32_add; [lia|].
  by replace (id h * B + (16 + 3 * rel)) with (id h * B + 16 + 3 * rel) by lia.
Qed.

Lemma wp_data_addr {E'} bd h rel off (Q : Z → BD → Prop) (R : E' → BD → Prop) :
  bd_wf bd → header_ok bd h → 0 ≤ rel < frag_count h → 0 ≤ off ≤ frag_size h →
  Q (data_addr h rel + off) bd →
  wp (u32_add (id h * B)
        (as_u32 (headers_total_size h + rel * fragment_size h + off))) Q R bd.
Proof.
  intros Hwf Hh Hr Ho HQ. pose proof (slot_in_block _ _ _ Hwf Hh Hr) as Hs.
  destruct (block_in_cap _ _ Hwf (ok_id _ _ Hh)). pose proof (wf_cap _ Hwf).
  pose proof (wf_B _ Hwf).
  assert (0 ≤ headers_total_size h).
  { unfold headers_total_size, fragment_count, BLOCK_HEADER_SIZE, FRAG_HEADER_SIZE. lia. }
  unfold data_addr, fragment_size in *.
  rewrite as_u32_small by (unfold is_u32; nia). apply wp_u32_add; [lia|].
  by replace (id h * B + (headers_total_size h + rel * frag_size h + off))
    with (id h * B + headers_total_size h + rel * frag_size h + off) by lia.
Qed.

(** ** Reading *)

Lemma wp_try_get_fragment_status bd h n Q (R : FlashError E → BD → Prop) :
  bd_wf bd → header_ok bd h → rel_of h n < frag_count h →
  (∀ bd', same bd bd' → Q (Some (status_at bd (id h) (rel_of h n))) bd') →
  (∀ e bd', same bd bd' → ¬ bd_healthy bd → R (FlashError_Flash e) bd') →
  wp (try_get_fragment_status B h n) Q R bd.
Proof.
  intros Hwf Hh Hr HQ HR. unfold try_get_fragment_status. fold (rel_of h n).
  pose proof (rel_range h n) as [Hr0 _]. unfold fragment_count.
  rewrite (proj2 (Z.leb_gt _ _)) by done. wp_steps.
  apply wp_block_addr; [done|apply Hh|]. wp_steps.
  pose proof (slot_in_block _ _ _ Hwf Hh (conj Hr0 Hr)) as Hs.
  destruct (block_in_cap _ _ Hwf (ok_id _ _ Hh)).
  pose proof (ok_frag_size _ _ Hh) as [Hfs _].
  apply wp_slot_addr; [done..|]. wp_steps.
  unfold FRAG_HEADER_SIZE in *.
  apply wp_flash_read; [done|unfold BLOCK_HEADER_SIZE in *; lia|lia|..].
  - intros bd' Hsame. wp_steps. by apply HQ.
  - intros e bd' Hsame Hn. apply HR; [done|]. intros Hhl. apply Hn. split; [done|].
    unfold BLOCK_HEADER_SIZE in *; lia.
Qed.

Lemma try_get_fragment_status_none bd h n :
  frag_count h ≤ rel_of h n → try_get_fragment_status B h n bd = (Ok None, bd).
Proof.
  intros Hr. unfold try_get_fragment_status. fold (rel_of h n). unfold fragment_count.
  by rewrite (proj2 (Z.leb_le _ _)).
Qed.

Lemma wp_fragment_status bd h n Q (R : FlashReadError E → BD → Prop) :
  bd_wf bd → header_ok bd h → rel_of h n < frag_count h →
  (∀ bd', same bd bd' → Q (status_at bd (id h) (rel_of h n)) bd') →
  (∀ e bd', same bd bd' → ¬ bd_healthy bd → R (FlashReadError_Flash e) bd') →
  wp (fragment_status B h n) Q R bd.
Proof.
  intros Hwf Hh Hr HQ HR. unfold fragment_status. wp_steps.
  apply wp_try_get_fragment_status; [done..| |]; intros; wp_steps; auto.
Qed.

Lemma wp_fragment_status_pre_write bd h n Q (R : FlashWriteError E → BD → Prop) :
  bd_wf bd → header_ok bd h → rel_of h n < frag_count h →
  (∀ bd', same bd bd' → Q (status_at bd (id h) (rel_of h n)) bd') →
  (∀ e bd', same bd bd' → ¬ bd_healthy bd → R (FlashWriteError_Flash e) bd') →
  wp (fragment_status_pre_write B h n) Q R bd.
Proof.
  intros Hwf Hh Hr HQ HR. unfold fragment_status_pre_write. wp_steps.
  apply wp_try_get_fragment_status; [done..| |]; intros; wp_steps; auto.
Qed.

Lemma wp_read_raw_fragment bd h n off rl Q (R : FlashReadError E → BD → Prop) :
  bd_wf bd → header_ok bd h → rel_of h n < frag_count h → 0 ≤ off ≤ frag_size h → 0 ≤ rl →
  (∀ bd', same bd bd' →
     Q (data_at bd h (rel_of h n) off (Z.min rl (frag_size h - off))) bd') →
  (∀ e bd', same bd bd' → ¬ bd_healthy bd → R (FlashReadError_Flash e) bd') →
  wp (read_raw_fragment B h n off rl) Q R bd.
Proof.
  intros Hwf Hh Hr Ho Hrl HQ HR. unfold read_raw_fragment. fold (rel_of h n).
  pose proof (rel_range h n) as [Hr0 _]. unfold fragment_count, saturating_sub.
  rewrite (proj2 (Z.leb_gt _ _)) by done. wp_steps.
  apply wp_block_addr; [done|apply Hh|]. wp_steps.
  pose proof (slot_in_block _ _ _ Hwf Hh (conj Hr0 Hr)) as Hs.
  destruct (block_in_cap _ _ Hwf (ok_id _ _ Hh)).
  apply wp_data_addr; [done..|]. wp_steps.
  unfold fragment_size. rewrite Z.max_r by lia.
  apply wp_flash_read; [done|unfold BLOCK_HEADER_SIZE, FRAG_HEADER_SIZE in *; lia|lia|..].
  - done.
  - intros e bd' Hsame Hn. apply HR; [done|]. intros Hhl. apply Hn. split; [done|lia].
Qed.

Lemma wp_read_fragment_at_offset bd h n off rl Q (R : FlashReadError E → BD → Prop) :
  bd_wf bd → header_ok bd h → rel_of h n < frag_count h → 0 ≤ off ≤ frag_size h → 0 ≤ rl →
  (∀ bd', same bd bd' →
     match status_at bd (id h) (rel_of h n) with
     | Empty => R (FlashReadError_Read FragmentEmpty) bd'
     | Invalid => R (FlashReadError_Read FragmentInvalid) bd'
     | Obsolete => R (FlashReadError_Read FragmentObsolete) bd'
     | Valid => Q (data_at bd h (rel_of h n) off (Z.min rl (frag_size h - off))) bd'
     end) →
  (∀ e bd', same bd bd' → ¬ bd_healthy bd → R (FlashReadError_Flash e) bd') →
  wp (read_fragment_at_offset B h n off rl) Q R bd.
Proof.
  intros Hwf Hh Hr Ho Hrl HQ HR. unfold read_fragment_at_offset. wp_steps.
  apply wp_fragment_status; [done..| |done]. intros bd1 H1.
  destruct (status_at bd _ _); wp_steps; try by apply HQ.
  apply wp_read_raw_fragment; [apply H1|by eapply step_header_ok|done..| |].
  - intros bd2 H2. rewrite (same_data bd bd1) by done. apply HQ. by eapply flash_step_trans.
  - intros e bd2 H2 Hn. apply HR; [by eapply flash_step_trans|].
    intros Hh'. by apply Hn, (fs_healthy H1).
Qed.

(** [verify_fragment] reads in chunks; it answers whether the stored bytes are the expected ones. *)
Lemma wp_verify_chunks bd h n k fuel l Q (R : FlashWriteError E → BD → Prop) :
  bd_wf bd → header_ok bd h → rel_of h n < frag_count h → 0 ≤ k →
  (length l ≤ fuel)%nat → (l ≠ [] → k * CHUNK_SIZE + len l ≤ frag_size h) →
  (∀ bd', same bd bd' →
     Q (bool_decide (data_at bd h (rel_of h n) (k * CHUNK_SIZE) (len l) = l)) bd') →
  (∀ e bd', same bd bd' → ¬ bd_healthy bd → R (FlashWriteError_Flash e) bd') →
  wp (verify_chunks B h n k (chunks_fuel fuel 128 l)) Q R bd.
Proof.
  intros Hwf Hh Hr. revert bd Hwf Hh k l. unfold CHUNK_SIZE.
  induction fuel as [|fuel IH]; intros bd Hwf Hh k [|x l'] Hk Hl Hfit HQ HR;
    try (wp_steps; apply HQ; by apply flash_step_refl); [simpl in Hl; lia|].
  assert (length (drop 128 (x :: l')) ≤ fuel)%nat as Hdl
    by (rewrite length_drop; simpl in *; lia).
  change (chunks_fuel (S fuel) 128 (x :: l'))
    with (take 128 (x :: l') :: chunks_fuel fuel 128 (drop 128 (x :: l'))).
  specialize (Hfit ltac:(done)). remember (x :: l') as l eqn:Heql. clear Heql x l'. cbn [verify_chunks]. wp_steps.
  assert (len (take 128 l) ≤ 128 ∧ len (take 128 l) + len (drop 128 l) = len l) as [Ht Htd].
  { unfold len. rewrite length_take, length_drop. lia. }
  pose proof (len_nonneg (take 128 l)) as Ht0. pose proof (len_nonneg (drop 128 l)) as Hd0.
  assert (data_at bd h (rel_of h n) (k * 128) (len l) =
    data_at bd h (rel_of h n) (k * 128) (len (take 128 l)) ++
    data_at bd h (rel_of h n) (k * 128 + len (take 128 l)) (len (drop 128 l))) as Hsplit.
  { unfold data_at. rewrite <-Htd, view_app by done. do 2 f_equal. lia. }
  change CHUNK_SIZE with 128.
  apply wp_read_raw_fragment; [done..|lia|done| |].
  - intros bd1 H1. rewrite Z.min_l by lia.
    destruct (bool_decide_reflect
      (data_at bd h (rel_of h n) (k * 128) (len (take 128 l)) = take 128 l)) as [Heq|Heq]; simpl.
    + apply IH; [apply H1|by eapply step_header_ok|lia|done|..].
      { intros Hne. assert (len (take 128 l) = 128); [|lia].
        destruct (decide (length l < 128)%nat); [by rewrite drop_ge in Hne by lia|].
        unfold len. rewrite length_take. lia. }
      * intros bd2 H2. specialize (HQ bd2 ltac:(by eapply flash_step_trans)).
        rewrite Hsplit in HQ.
        assert (bool_decide (data_at bd1 h (rel_of h n) ((k + 1) * 128) (len (drop 128 l)) = drop 128 l) =
          bool_decide (data_at bd h (rel_of h n) (k * 128) (len (take 128 l)) ++
            data_at bd h (rel_of h n) (k * 128 + len (take 128 l)) (len (drop 128 l)) = l)) as ->; [|done].
        apply bool_decide_ext. rewrite (same_data bd bd1), Heq by done.
        destruct (decide (len l < 128)).
        { rewrite (drop_ge l) by (unfold len in *; lia). rewrite take_ge by (unfold len in *; lia).
          by rewrite app_nil_r. }
        assert (len (take 128 l) = 128) as Ht128 by (unfold len in *; rewrite length_take; lia).
        rewrite Ht128. replace ((k + 1) * 128) with (k * 128 + 128) by lia.
        rewrite <-(take_drop 128 l) at 5. split; [by intros ->|]. by intros ?%app_inv_head.
      * intros e bd2 H2 Hn. apply HR; [by eapply flash_step_trans|]. intros ?. by apply Hn, (fs_healthy H1).
    + wp_steps. specialize (HQ bd1 H1). rewrite bool_decide_false in HQ; [done|].
      rewrite Hsplit. rewrite <-(take_drop 128 l) at 4. intros Hcat.
      apply app_inj_1 in Hcat; [by destruct Hcat|].
      unfold data_at. rewrite length_view. unfold len. lia.
  - intros e bd1 H1 Hn. simpl. by apply HR.
Qed.

Lemma wp_verify_fragment bd h n data Q (R : FlashWriteError E → BD → Prop) :
  bd_wf bd → header_ok bd h → rel_of h n < frag_count h → len data ≤ frag_size h →
  (∀ bd', same bd bd' → Q (bool_decide (data_at bd h (rel_of h n) 0 (len data) = data)) bd') →
  (∀ e bd', same bd bd' → ¬ bd_healthy bd → R (FlashWriteError_Flash e) bd') →
  wp (verify_fragment B h n data) Q R bd.
Proof. intros. by apply wp_verify_chunks. Qed.

(** ** Fragment headers *)

Lemma view_3 bytes a : view bytes a 3 = [bytes a; bytes (a + 1); bytes (a + 2)].
Proof.
  unfold view. rewrite !seqZ_cons by lia. simpl.
  replace (Z.succ (Z.succ a)) with (a + 2) by lia. by replace (Z.succ a) with (a + 1) by lia.
Qed.

Lemma status_cases a b c :
  match status_of_header [a; b; c] with
  | Empty => a = 255 ∧ b = 255 ∧ c = 255
  | Valid => a = 0xD1 ∧ b = 0xDC ∧ c = 255
  | Obsolete => c = 0x55
  | Invalid => (c ≠ 255 ∧ c ≠ 0x55) ∨ (c = 255 ∧ (a ≠ 255 ∨ b ≠ 255) ∧ (a ≠ 0xD1 ∨ b ≠ 0xDC))
  end.
Proof.
  unfold status_of_header. repeat case_bool_decide; simplify_eq/=; try done.
  destruct (decide (c = 255)) as [->|?]; [right|left].
  - split; [done|]. split.
    + destruct (decide (a = 255)), (decide (b = 255)); naive_solver.
    + destruct (decide (a = 0xD1)), (decide (b = 0xDC)); naive_solver.
  - split; [done|]. intros ->. by apply H1.
Qed.

Ltac case_status Hc :=
  revert Hc;
  lazymatch goal with
  | |- context [status_of_header ?l] => destruct (status_of_header l)
  end; intros Hc.

(** The status of a slot in terms of its three header bytes. *)
Lemma status_at_bytes bd bid rel :
  status_at bd bid rel =
  status_of_header [bd_bytes bd (slot_addr bid rel); bd_bytes bd (slot_addr bid rel + 1);
                    bd_bytes bd (slot_addr bid rel + 2)].
Proof. unfold status_at. by rewrite <-view_3. Qed.

Lemma wp_write_marker bd addr st o b (Q : unit → BD → Prop) (R : FlashWriteError E → BD → Prop) :
  bd_wf bd → 0 ≤ addr → as_byte st = Some (o, b) → addr + o + 1 ≤ bd_cap bd →
  (∀ bd', bd_step (range (addr + o) (addr + o + 1)) bd bd' →
     (bd_bytes bd (addr + o) = 255 → bd_bytes bd' (addr + o) = b) → Q tt bd') →
  (∀ e bd', bd_step (range (addr + o) (addr + o + 1)) bd bd' → ¬ bd_healthy bd →
     R (FlashWriteError_Flash e) bd') →
  wp (write_marker addr st) Q R bd.
Proof.
  intros Hwf Ha Hst Hcap HQ HR. unfold write_marker. rewrite Hst.
  assert (0 ≤ o < 3 ∧ is_u8 b) as [Ho Hb].
  { destruct st; simplify_eq/=; unfold is_u8; lia. }
  pose proof (wf_cap _ Hwf). wp_steps.
  rewrite as_u32_small by (unfold is_u32, u32_size; lia).
  apply wp_u32_add; [lia|]. wp_steps.
  apply wp_flash_write; [done|lia|by constructor|..].
  - intros bd' Hs Hbytes. apply HQ; [done|]. intros H255.
    specialize (Hbytes 0%nat b). rewrite Z.add_0_r in Hbytes. auto.
  - intros e bd' Hs Hn. apply HR; [done|]. intros Hh. apply Hn. split; [done|].
    change (len [b]) with 1. lia.
Qed.

(** ** Writing a fragment *)

(** The data bytes of the slot are erased, as they are after formatting. *)
Definition slot_clean (bd : BD) (h : BlockHeader) (rel : Z) : Prop :=
  ∀ a, range (data_addr h rel) (data_addr h rel + frag_size h) a → bd_bytes bd a = 255.

(** The guard that refuses a write, and its error. *)
Definition write_refused (bd : BD) (h : BlockHeader) (n : Z) (data : list Z) :
    option FlashWriteErrorKind :=
  if frag_size h <? len data then Some W_FragmentTooLarge
  else if frag_count h <=? rel_of h n then Some W_FragmentNotFound
  else match status_at bd (id h) (rel_of h n) with
       | Invalid => Some W_FragmentInvalid
       | Obsolete => Some W_FragmentObsolete
       | Valid => Some W_FragmentExists
       | Empty => None
       end.

(** What a write that started but did not complete may leave in the slot. *)
Definition write_torn (bd bd' : BD) (h : BlockHeader) (rel : Z) (data : list Z) : Prop :=
  (status_at bd' (id h) rel = Empty ∧ (slot_clean bd h rel → slot_clean bd' h rel)) ∨
  status_at bd' (id h) rel = Invalid ∨
  (status_at bd' (id h) rel = Valid ∧ data_at bd' h rel 0 (len data) = data).

Lemma slot_step bd bd' h rel o :
  0 ≤ o < 3 →
  bd_step (range (slot_addr (id h) rel + o) (slot_addr (id h) rel + o + 1)) bd bd' →
  bd_step (frag_region h rel) bd bd'.
Proof.
  intros Ho H. eapply flash_step_weaken; [exact H|]. intros a Ha. left.
  unfold range, FRAG_HEADER_SIZE in *. lia.
Qed.

Lemma data_step bd bd' h rel n :
  n ≤ frag_size h → bd_step (range (data_addr h rel) (data_addr h rel + n)) bd bd' →
  bd_step (frag_region h rel) bd bd'.
Proof.
  intros Ho H. eapply flash_step_weaken; [exact H|]. intros a Ha. right.
  unfold range in *. lia.
Qed.

Lemma slot_addr_bounds bd h rel :
  bd_wf bd → header_ok bd h → 0 ≤ rel < frag_count h →
  0 ≤ slot_addr (id h) rel ∧ slot_addr (id h) rel + 3 ≤ data_addr h rel ∧
  data_addr h rel + frag_size h ≤ bd_cap bd ∧ 0 ≤ frag_size h.
Proof.
  intros Hwf Hh Hr. pose proof (slot_in_block _ _ _ Hwf Hh Hr) as Hs.
  destruct (block_in_cap _ _ Hwf (ok_id _ _ Hh)). destruct (ok_frag_size _ _ Hh).
  unfold BLOCK_HEADER_SIZE, FRAG_HEADER_SIZE in *. lia.
Qed.

(** The programming sequence of [write_fragment] once the slot is known to be empty. *)
Lemma wp_write_program bd h n data (Q : unit → BD → Prop) (R : FlashWriteError E → BD → Prop) :
  let rel := rel_of h n in
  bd_wf bd → header_ok bd h → rel < frag_count h → len data ≤ frag_size h →
  Forall is_u8 data → status_at bd (id h) rel = Empty →
  (∀ bd', bd_step (frag_region h rel) bd bd' → status_at bd' (id h) rel = Valid →
     data_at bd' h rel 0 (len data) = data → Q tt bd') →
  (∀ e bd', bd_step (frag_region h rel) bd bd' → write_torn bd bd' h rel data →
     ¬ (bd_healthy bd ∧ slot_clean bd h rel) → R e bd') →
  wp (frag_header_addr ←
        u32_add (id h * B) (as_u32 (BLOCK_HEADER_SIZE + FRAG_HEADER_SIZE * rel));
      write_marker frag_header_addr Invalid;;
      a ← u32_add (id h * B) (as_u32 (headers_total_size h + rel * fragment_size h));
      try! (flash_write a data);;
      ok ← verify_fragment B h n data;
      if negb ok then fail (FlashWriteError_Write W_VerifyFailed)
      else write_marker frag_header_addr Valid) Q R bd.
Proof.
  intros rel Hwf Hh Hr Hlen Hu8 Hst HQ HR.
  assert (0 ≤ rel < frag_count h) as Hr' by (split; [apply rel_range|done]).
  destruct (slot_addr_bounds _ _ _ Hwf Hh Hr') as (Hs0 & Hsd & Hcap & Hfs).
  pose proof Hst as Hst0. rewrite status_at_bytes in Hst.
  pose proof (status_cases (bd_bytes bd (slot_addr (id h) rel))
    (bd_bytes bd (slot_addr (id h) rel + 1)) (bd_bytes bd (slot_addr (id h) rel + 2))) as Hc.
  rewrite Hst in Hc. destruct Hc as (Hb0 & Hb1 & Hb2).
  pose proof (len_nonneg data). wp_steps.
  apply wp_slot_addr; [done..|]. wp_steps.
  (* 1. mark as incomplete *)
  eapply (wp_write_marker _ _ Invalid 0 0xD1); [done|lia|done|lia| |].
  2: { intros e bd1 H1 Hn. apply HR; [by eapply (slot_step _ _ _ _ 0)| |by intros [??]].
    unfold write_torn. rewrite status_at_bytes.
    rewrite (fs_frame H1 (slot_addr (id h) rel + 1)), (fs_frame H1 (slot_addr (id h) rel + 2)),
      Hb1, Hb2 by (unfold range; lia).
    pose proof (status_cases (bd_bytes bd1 (slot_addr (id h) rel)) 255 255) as Hc.
    case_status Hc; [left|by auto|exfalso; lia|exfalso; lia].
    split; [done|].
    intros Hcl a Ha. rewrite (fs_frame H1); [by apply Hcl|]. unfold range in *. lia. }
  intros bd1 H1 Hm. rewrite Z.add_0_r in Hm. specialize (Hm Hb0). wp_steps.
  assert (header_ok bd1 h) as Hh1 by (by eapply step_header_ok).
  replace (headers_total_size h + rel * fragment_size h)
    with (headers_total_size h + rel * fragment_size h + 0) by lia.
  apply wp_data_addr; [apply H1|done..|lia|]. rewrite Z.add_0_r. wp_steps.
  (* 2. write the data *)
  assert (∀ bd2, bd_step (range (data_addr h rel) (data_addr h rel + len data)) bd1 bd2 →
    bd_step (frag_region h rel) bd bd2 ∧ bd_bytes bd2 (slot_addr (id h) rel) = 0xD1 ∧
    bd_bytes bd2 (slot_addr (id h) rel + 1) = 255 ∧
    bd_bytes bd2 (slot_addr (id h) rel + 2) = 255) as Hmid.
  { intros bd2 H2. split.
    - eapply flash_step_trans; [by eapply (slot_step _ _ _ _ 0)|eapply (data_step _ _ _ _ (len data)); done].
    - rewrite !(fs_frame H2) by (unfold range; lia). split; [done|].
      rewrite !(fs_frame H1) by (unfold range; lia). done. }
  apply wp_flash_write; [apply H1|lia|done|..].
  2: { intros e bd2 H2 Hn. destruct (Hmid bd2 H2) as (Hstep & Hc0 & Hc1 & Hc2).
    apply HR; [done| |].
    - right. left. by rewrite status_at_bytes, Hc0, Hc1, Hc2.
    - intros [Hhl _]. apply Hn. split; [by apply (fs_healthy H1)|].
      rewrite (fs_capacity H1). lia. }
  intros bd2 H2 Hdata. destruct (Hmid bd2 H2) as (Hstep & Hc0 & Hc1 & Hc2).
  assert (header_ok bd2 h) as Hh2 by (by eapply step_header_ok).
  assert (slot_clean bd h rel → data_at bd2 h rel 0 (len data) = data) as Hclean.
  { intros Hcl. unfold data_at. rewrite Z.add_0_r. apply view_eq. intros i b Hi.
    pose proof (lookup_lt_Some _ _ _ Hi). apply (Hdata _ _ Hi).
    rewrite (fs_frame H1) by (unfold range, len in *; lia). apply Hcl. unfold range, len in *. lia. }
  wp_steps.
  (* 3. verify *)
  apply wp_verify_fragment; [apply Hstep|done..| |].
  2: { intros e bd3 H3 Hn. apply HR.
    - eapply flash_step_trans; [done|]. by apply flash_step_nowhere.
    - right. left. rewrite (same_status bd2 bd3) by done. by rewrite status_at_bytes, Hc0, Hc1, Hc2.
    - intros [Hhl _]. apply Hn. by apply (fs_healthy Hstep). }
  intros bd3 H3. fold rel. case_bool_decide as Hver; simpl.
  2: { wp_steps. apply HR.
    - eapply flash_step_trans; [done|]. by apply flash_step_nowhere.
    - right. left. rewrite (same_status bd2 bd3) by done. by rewrite status_at_bytes, Hc0, Hc1, Hc2.
    - intros [_ Hcl]. by apply Hver, Hclean. }
  (* 4. mark as valid *)
  assert (bd_step (frag_region h rel) bd bd3) as Hstep3.
  { eapply flash_step_trans; [done|]. by apply flash_step_nowhere. }
  assert (∀ bd4, bd_step (range (slot_addr (id h) rel + 1) (slot_addr (id h) rel + 1 + 1)) bd3 bd4 →
    bd_step (frag_region h rel) bd bd4 ∧ data_at bd4 h rel 0 (len data) = data ∧
    bd_bytes bd4 (slot_addr (id h) rel) = 0xD1 ∧
    bd_bytes bd4 (slot_addr (id h) rel + 2) = 255) as Hend.
  { intros bd4 H4. split; [|split; [|split]].
    - eapply flash_step_trans; [done|by eapply (slot_step _ _ _ _ 1)].
    - rewrite <-Hver at 2. unfold data_at. rewrite <-(same_view bd2 bd3) by done.
      eapply step_view; [done|]. intros a. unfold range. lia.
    - rewrite (fs_frame H4) by (unfold range; lia). by rewrite (flash_step_same _ _ _ H3).
    - rewrite (fs_frame H4) by (unfold range; lia). by rewrite (flash_step_same _ _ _ H3). }
  eapply (wp_write_marker _ _ Valid 1 0xDC); [apply H3|lia|done| | |].
  - rewrite (fs_capacity Hstep3). lia.
  - intros bd4 H4 Hm4. destruct (Hend bd4 H4) as (? & ? & Hd0 & Hd2).
    apply HQ; [done| |done]. rewrite status_at_bytes, Hd0, Hd2, Hm4; [done|].
    by rewrite (flash_step_same _ _ _ H3).
  - intros e bd4 H4 Hn. destruct (Hend bd4 H4) as (? & ? & Hd0 & Hd2).
    apply HR; [done| |].
    + unfold write_torn. rewrite status_at_bytes, Hd0, Hd2.
      pose proof (status_cases 0xD1 (bd_bytes bd4 (slot_addr (id h) rel + 1)) 255) as Hc.
      case_status Hc; [exfalso; lia|by auto|by auto|exfalso; lia].
    + intros [Hhl _]. apply Hn. by apply (fs_healthy Hstep3).
Qed.

Lemma wp_write_fragment bd h n data :
  let rel := rel_of h n in
  bd_wf bd → header_ok bd h → Forall is_u8 data →
  wp (write_fragment B h n data)
     (λ _ bd', write_refused bd h n data = None ∧ bd_step (frag_region h rel) bd bd' ∧
        status_at bd' (id h) rel = Valid ∧ data_at bd' h rel 0 (len data) = data)
     (λ e bd', match write_refused bd h n data with
        | Some k => same bd bd' ∧ (bd_healthy bd → e = FlashWriteError_Write k)
        | None => bd_step (frag_region h rel) bd bd' ∧ write_torn bd bd' h rel data ∧
            ¬ (bd_healthy bd ∧ slot_clean bd h rel)
        end) bd.
Proof.
  intros rel Hwf Hh Hu8. unfold write_fragment, write_refused. fold (rel_of h n). fold rel.
  unfold fragment_size at 1, fragment_count.
  destruct (Z.ltb_spec (frag_size h) (len data)) as [?|Hlen].
  { wp_steps. by auto using flash_step_refl. }
  wp_steps. apply wp_block_addr; [done|apply Hh|].
  destruct (Z.leb_spec (frag_count h) rel) as [?|Hr].
  { wp_steps. by auto using flash_step_refl. }
  wp_steps. apply wp_fragment_status_pre_write; [done..| |].
  - intros bd1 H1. fold rel.
    assert (bd_step nowhere bd bd1) as H1' by done.
    destruct (status_at bd (id h) rel) eqn:Hst; try (wp_steps; by auto).
    apply wp_write_program; [apply H1|by eapply step_header_ok|done..| | |].
    + by rewrite (same_status bd bd1).
    + intros bd' Hs Hv Hd. split; [done|]. split; [|done].
      eapply flash_step_trans; [by apply flash_step_nowhere|done].
    + intros e bd' Hs Ht Hn. split; [|split].
      * eapply flash_step_trans; [by apply flash_step_nowhere|done].
      * destruct Ht as [[? Hcl]|?]; [left|by right]. split; [done|]. intros Hc. apply Hcl.
        intros a Ha. rewrite (flash_step_same _ _ _ H1). by apply Hc.
      * intros [Hhl Hc]. apply Hn. split; [by apply (fs_healthy H1)|].
        intros a Ha. rewrite (flash_step_same _ _ _ H1). by apply Hc.
  - intros e bd1 H1 Hn. fold rel. destruct (status_at bd (id h) rel) eqn:Hst; try by auto.
    split; [by apply flash_step_nowhere|]. split; [|by intros [??]].
    left. split; [by rewrite (same_status bd bd1)|].
    intros Hc a Ha. rewrite (flash_step_same _ _ _ H1). by apply Hc.
Qed.

(** ** Deleting a fragment *)

Definition deleted (st : FragmentStatus) : FragmentStatus :=
  match st with Empty | Valid => Obsolete | Invalid => Invalid | Obsolete => Obsolete end.

(** The one byte a delete programs. *)
Definition obsolete_byte (h : BlockHeader) (rel : Z) : Z → Prop :=
  range (slot_addr (id h) rel + 2) (slot_addr (id h) rel + 2 + 1).

Lemma obsolete_step bd bd' h rel :
  bd_step (obsolete_byte h rel) bd bd' → bd_step (frag_region h rel) bd bd'.
Proof. apply (slot_step _ _ _ _ 2). lia. Qed.

Lemma wp_delete_fragment bd h n :
  let rel := rel_of h n in
  bd_wf bd → header_ok bd h →
  wp (delete_fragment B h n)
     (λ _ bd', rel < frag_count h ∧ bd_step (obsolete_byte h rel) bd bd' ∧
        status_at bd' (id h) rel = deleted (status_at bd (id h) rel))
     (λ e bd', (frag_count h ≤ rel ∧ same bd bd' ∧ e = FlashWriteError_Write W_FragmentNotFound) ∨
        (rel < frag_count h ∧ ¬ bd_healthy bd ∧ bd_step (obsolete_byte h rel) bd bd' ∧
         (status_at bd' (id h) rel = status_at bd (id h) rel ∨
          status_at bd' (id h) rel = Obsolete ∨ status_at bd' (id h) rel = Invalid))) bd.
Proof.
  intros rel Hwf Hh. unfold delete_fragment. wp_steps.
  apply wp_block_addr; [done|apply Hh|]. fold (rel_of h n). fold rel. unfold fragment_count.
  destruct (Z.leb_spec (frag_count h) rel) as [?|Hr].
  { wp_steps. left. by auto using flash_step_refl. }
  assert (0 ≤ rel < frag_count h) as Hr' by (split; [apply rel_range|done]).
  destruct (slot_addr_bounds _ _ _ Hwf Hh Hr') as (Hs0 & Hsd & Hcap & Hfs).
  wp_steps. apply wp_fragment_status_pre_write; [done..| |].
  2: { intros e bd1 H1 Hn. right. rewrite (same_status bd bd1) by done.
    split; [done|]. split; [done|]. split; [by apply flash_step_nowhere|by left]. }
  intros bd1 H1. fold rel.
  assert (header_ok bd1 h) as Hh1 by (by eapply step_header_ok).
  assert (∀ st, st = Empty ∨ st = Valid → status_at bd (id h) rel = st →
    wp (frag_header_addr ←
          u32_add (id h * B) (as_u32 (BLOCK_HEADER_SIZE + FRAG_HEADER_SIZE * rel));
        write_marker frag_header_addr Obsolete)
     (λ _ bd', rel < frag_count h ∧ bd_step (obsolete_byte h rel) bd bd' ∧
        status_at bd' (id h) rel = deleted st)
     (λ e bd', (frag_count h ≤ rel ∧ same bd bd' ∧ e = FlashWriteError_Write W_FragmentNotFound) ∨
        (rel < frag_count h ∧ ¬ bd_healthy bd ∧ bd_step (obsolete_byte h rel) bd bd' ∧
         (status_at bd' (id h) rel = st ∨
          status_at bd' (id h) rel = Obsolete ∨ status_at bd' (id h) rel = Invalid))) bd1) as Hmark.
  2: { destruct (status_at bd (id h) rel) eqn:Hst; try (by apply Hmark; auto);
       (wp_steps; split; [done|]; split; [by apply flash_step_nowhere|]; by rewrite (same_status bd bd1)). }
  intros st Hcase Hst. rewrite <-(same_status bd bd1), status_at_bytes in Hst by done.
  pose proof (status_cases (bd_bytes bd1 (slot_addr (id h) rel))
    (bd_bytes bd1 (slot_addr (id h) rel + 1)) (bd_bytes bd1 (slot_addr (id h) rel + 2))) as Hc.
  rewrite Hst in Hc.
  wp_steps. apply wp_slot_addr; [apply H1|done..|].
  eapply (wp_write_marker _ _ Obsolete 2 0x55); [apply H1|lia|done|rewrite (fs_capacity H1); lia|..].
  - intros bd2 H2 Hm. split; [done|]. split.
    { eapply flash_step_trans; [by apply flash_step_nowhere|done]. }
    rewrite status_at_bytes, Hm by (destruct Hcase; subst st; by destruct Hc as (_ & _ & ?)).
    rewrite !(fs_frame H2) by (unfold range; lia).
    destruct Hcase; subst st; destruct Hc as (-> & -> & _); done.
  - intros e bd2 H2 Hn. right. split; [done|]. split; [intros ?; by apply Hn, (fs_healthy H1)|].
    split. { eapply flash_step_trans; [by apply flash_step_nowhere|done]. }
    rewrite status_at_bytes, !(fs_frame H2) by (unfold range; lia).
    destruct Hcase; subst st; destruct Hc as (-> & -> & _);
      match goal with |- context [status_of_header [?a; ?b; ?c]] =>
        pose proof (status_cases a b c) as Hd end; case_status Hd; auto; exfalso; lia.
Qed.

(** ** Block headers *)

Lemma hdr_at_unfold bd bid :
  hdr_at bd bid =
  if bool_decide (view (bd_bytes bd) (bid * B) 4 = [0x90; 0x0D; 0xFF; 0xFF])
  then try_new B bid (le_val (view (bd_bytes bd) (bid * B + 4) 2)) (bd_bytes bd (bid * B + 12))
         (le_val (view (bd_bytes bd) (bid * B + 6) 2)) (le_val (view (bd_bytes bd) (bid * B + 8) 4))
  else None.
Proof.
  unfold hdr_at, header_from_bytes, parse_u16, parse_u32.
  rewrite !(view_slice _ _ BLOCK_HEADER_SIZE) by (unfold BLOCK_HEADER_SIZE; lia).
  rewrite Z.add_0_r. unfold block_valid_from_bytes. cbn [valid].
  change (4 - 0) with 4. change (6 - 4) with 2. change (8 - 6) with 2. change (12 - 8) with 4.
  assert (nth 12 (view (bd_bytes bd) (bid * B) BLOCK_HEADER_SIZE) 0 = bd_bytes bd (bid * B + 12)) as ->.
  { apply nth_lookup_Some. rewrite view_lookup; [done|unfold BLOCK_HEADER_SIZE; lia]. }
  done.
Qed.

Lemma le_val_view_range bd off n :
  bd_wf bd → 0 ≤ n → 0 ≤ le_val (view (bd_bytes bd) off n) < 256 ^ n.
Proof.
  intros Hwf Hn. rewrite <-(len_view (bd_bytes bd) off n) at 3 by done. apply le_val_range.
  apply view_u8. intros a. apply nf_bytes_u8, Hwf.
Qed.

Lemma hdr_at_ok bd bid h :
  bd_wf bd → 0 ≤ bid < blocks_total bd → hdr_at bd bid = Some h → header_ok bd h ∧ id h = bid.
Proof.
  intros Hwf Hb. rewrite hdr_at_unfold. case_bool_decide; [|done]. unfold try_new.
  pose proof (le_val_view_range bd (bid * B + 6) 2 Hwf ltac:(lia)).
  pose proof (le_val_view_range bd (bid * B + 8) 4 Hwf ltac:(lia)).
  generalize dependent (le_val (view (bd_bytes bd) (bid * B + 8) 4)). intros ff Hff.
  generalize dependent (le_val (view (bd_bytes bd) (bid * B + 6) 2)). intros fs Hfs.
  destruct (count_fits fs) as [? _]; [apply Hwf|lia|].
  destruct (Z.eqb_spec (calculate_fragments_per_block B fs) 0); [done|].
  intros [= <-]. split; [|done].
  split; cbn [id frag_size first_frag_no frag_count]; try done; unfold is_u16; lia.
Qed.

Lemma wp_block_header bd bid Q (R : FlashError E → BD → Prop) :
  bd_wf bd → 0 ≤ bid < blocks_total bd →
  (∀ bd', same bd bd' → Q (hdr_at bd bid) bd') →
  (∀ e bd', same bd bd' → ¬ bd_healthy bd → R (FlashError_Flash e) bd') →
  wp (block_header B bid) Q R bd.
Proof.
  intros Hwf Hb HQ HR. unfold block_header. wp_steps.
  destruct (block_in_cap _ _ Hwf Hb). pose proof Hwf as [_ Ht Hc HB _].
  rewrite as_u32_small. 2: { unfold is_u32, BLOCK_HEADER_SIZE in *. split; [lia|].
    rewrite Ht. apply Z.div_lt_upper_bound; nia. }
  rewrite (proj2 (Z.ltb_ge _ _)) by lia.
  unfold BLOCK_HEADER_SIZE in HB. rewrite as_u32_small by (unfold is_u32; lia). wp_steps.
  apply wp_u32_mul; [lia|]. wp_steps.
  apply wp_flash_read; [done|lia|done|..].
  - intros bd' Hs. wp_steps. by apply HQ.
  - intros e bd' Hs Hn. apply HR; [done|]. intros ?. apply Hn. unfold BLOCK_HEADER_SIZE. split; [done|lia].
Qed.

(** ** Formatting a block *)

(** Block [bid] reads as header [h], with every slot empty and erased. *)
Definition formatted (bd : BD) (bid : Z) (h : BlockHeader) : Prop :=
  hdr_at bd bid = Some h ∧
  ∀ rel, 0 ≤ rel < frag_count h → status_at bd bid rel = Empty ∧ slot_clean bd h rel.

(** The erase of the format failed; [bd1] is the device after the BAAD marker was written. *)
Definition erase_failed (bd bd' : BD) (bid : Z) : Prop :=
  ∃ bd1 e, bd_step (range (bid * B + 2) (bid * B + 4)) bd bd1 ∧
    clears_bits (bd_bytes bd) (bd_bytes bd1) ∧
    flash_erase (bid * B) (bid * B + B) bd1 = (Err e, bd').

Lemma slice_header_as_bytes h :
  slice 4 16 (header_as_bytes h) =
  le_bytes 2 (object_id h) ++ le_bytes 2 (frag_size h) ++ le_bytes 4 (first_frag_no h) ++
  [object_version h; 0xFF; 0xFF; 0xFF].
Proof. reflexivity. Qed.

(** The header bytes, when they are in place behind the valid marker, parse back. *)
Lemma hdr_at_written bd bid oid ver fs ff :
  is_u16 oid → is_u16 fs → is_u32 ff →
  view (bd_bytes bd) (bid * B) 4 = [0x90; 0x0D; 0xFF; 0xFF] →
  view (bd_bytes bd) (bid * B + 4) 12 =
    le_bytes 2 oid ++ le_bytes 2 fs ++ le_bytes 4 ff ++ [ver; 0xFF; 0xFF; 0xFF] →
  hdr_at bd bid = try_new B bid oid ver fs ff.
Proof.
  intros Ho Hf Hff Hm Hv. rewrite hdr_at_unfold, Hm. rewrite bool_decide_true by done.
  assert (∀ lo hi, 0 ≤ lo ≤ hi → hi ≤ 12 → view (bd_bytes bd) (bid * B + 4 + lo) (hi - lo) =
    slice lo hi (le_bytes 2 oid ++ le_bytes 2 fs ++ le_bytes 4 ff ++ [ver; 0xFF; 0xFF; 0xFF])) as Hs.
  { intros. by rewrite <-Hv, view_slice. }
  pose proof (Hs 0 2 ltac:(lia) ltac:(lia)) as H0. pose proof (Hs 2 4 ltac:(lia) ltac:(lia)) as H1.
  pose proof (Hs 4 8 ltac:(lia) ltac:(lia)) as H2. pose proof (Hs 8 9 ltac:(lia) ltac:(lia)) as H3.
  rewrite <-Z.add_assoc in H0, H1, H2, H3.
  change (4 + 0) with 4 in H0. change (2 - 0) with 2 in H0. change (4 + 2) with 6 in H1.
  change (4 - 2) with 2 in H1. change (4 + 4) with 8 in H2. change (8 - 4) with 4 in H2.
  change (4 + 8) with 12 in H3. change (9 - 8) with 1 in H3.
  change (slice 0 2 _) with (le_bytes 2 oid) in H0.
  change (slice 2 4 _) with (le_bytes 2 fs) in H1.
  change (slice 4 8 _) with (le_bytes 4 ff) in H2.
  change (slice 8 9 _) with [ver] in H3.
  assert (bd_bytes bd (bid * B + 12) = ver) as ->.
  { assert (view (bd_bytes bd) (bid * B + 12) 1 !! 0%nat = Some ver) as Hl by (by rewrite H3).
    rewrite view_lookup in Hl by lia. rewrite Z.add_0_r in Hl. by inversion Hl. }
  rewrite H0, H1, H2, !le_val_le_bytes_small; done.
Qed.

Lemma view_255 bd off n :
  (∀ a, range off (off + n) a → bd_bytes bd a = 255) → 0 ≤ n →
  view (bd_bytes bd) off n = replicate (Z.to_nat n) 255.
Proof.
  intros H Hn. apply list_eq. intros i. destruct (decide (i < Z.to_nat n)%nat) as [Hi|Hi].
  - rewrite view_lookup, lookup_replicate_2 by done. f_equal. apply H. unfold range. lia.
  - rewrite !lookup_ge_None_2; [done|rewrite length_replicate; lia|rewrite length_view; lia].
Qed.

(** Slots of an erased block, whatever the first 16 bytes are. *)
Lemma erased_slots bd bid h :
  bd_wf bd → header_ok bd h → id h = bid →
  (∀ a, range (bid * B + BLOCK_HEADER_SIZE) (bid * B + B) a → bd_bytes bd a = 255) →
  ∀ rel, 0 ≤ rel < frag_count h → status_at bd bid rel = Empty ∧ slot_clean bd h rel.
Proof.
  intros Hwf Hh <- H rel Hr. pose proof (slot_in_block _ _ _ Hwf Hh Hr) as Hs.
  destruct (ok_frag_size _ _ Hh). unfold FRAG_HEADER_SIZE in *. split.
  - unfold status_at, FRAG_HEADER_SIZE. rewrite view_255; [done| |lia].
    intros a Ha. apply H. unfold range in *. lia.
  - intros a Ha. apply H. unfold range in *. lia.
Qed.

Lemma try_new_ok bd bid oid ver fs ff h :
  bd_wf bd → 0 ≤ bid < blocks_total bd → is_u16 fs → is_u32 ff →
  try_new B bid oid ver fs ff = Some h → header_ok bd h ∧ id h = bid.
Proof.
  intros Hwf Hb Hfs Hff. unfold try_new.
  destruct (count_fits fs) as [? _]; [apply Hwf|apply Hfs|].
  destruct (Z.eqb_spec (calculate_fragments_per_block B fs) 0); [done|].
  intros [= <-]. split; [|done].
  split; cbn [id frag_size first_frag_no frag_count]; try done. lia.
Qed.

Lemma block_step lo hi bid bd bd' :
  bd_step (range lo hi) bd bd' → bid * B ≤ lo → hi ≤ bid * B + B →
  bd_step (block_region bid) bd bd'.
Proof.
  intros H ??. eapply flash_step_weaken; [done|]. unfold block_region, range. lia.
Qed.

Lemma hdr_at_no_marker bd bid :
  view (bd_bytes bd) (bid * B) 4 ≠ [0x90; 0x0D; 0xFF; 0xFF] → hdr_at bd bid = None.
Proof. intros. rewrite hdr_at_unfold. by rewrite bool_decide_false. Qed.

(** Steps 3 and 4 of [format_block], on an erased block. *)
Lemma wp_format_finish bd bid oid ver fs ff h (Q : unit → BD → Prop) (R : FlashWriteError E → BD → Prop) :
  bd_wf bd → 0 ≤ bid < blocks_total bd → is_u16 oid → is_u8 ver → is_u16 fs → is_u32 ff →
  try_new B bid oid ver fs ff = Some h →
  (∀ a, range (bid * B) (bid * B + B) a → bd_bytes bd a = 255) →
  (∀ bd', bd_step (block_region bid) bd bd' → formatted bd' bid h → Q tt bd') →
  (∀ e bd', bd_step (block_region bid) bd bd' →
     hdr_at bd' bid = None ∨ formatted bd' bid h → ¬ bd_healthy bd → R e bd') →
  wp (a ← u32_add (bid * B) 4;
      try! (flash_write a (slice 4 16 (header_as_bytes h)));;
      let '(offset, marker) := block_valid_as_bytes (mkBlockValid true) in
      a ← u32_add (bid * B) (as_u32 offset);
      try! (flash_write a marker)) Q R bd.
Proof.
  intros Hwf Hb Ho Hv Hf Hff Hnew Her HQ HR.
  destruct (block_in_cap _ _ Hwf Hb) as [Hb0 Hb1]. pose proof (wf_cap _ Hwf).
  pose proof (wf_B _ Hwf) as [HB _]. unfold BLOCK_HEADER_SIZE in HB.
  destruct (try_new_ok _ _ _ _ _ _ _ Hwf Hb Hf Hff Hnew) as [Hh Hid].
  assert (object_id h = oid ∧ frag_size h = fs ∧ first_frag_no h = ff ∧ object_version h = ver)
    as (E1 & E2 & E3 & E4).
  { unfold try_new in Hnew. destruct (_ =? 0); [done|]. by inversion Hnew. }
  rewrite slice_header_as_bytes, E1, E2, E3, E4.
  set (hb := le_bytes 2 oid ++ le_bytes 2 fs ++ le_bytes 4 ff ++ [ver; 0xFF; 0xFF; 0xFF]).
  assert (len hb = 12) as Hlen by done.
  wp_steps. apply wp_u32_add; [lia|]. wp_steps.
  assert (∀ bd1 bd2, bd_step (range (bid * B + 4) (bid * B + 16)) bd bd1 →
    bd_step (range (bid * B) (bid * B + 2)) bd1 bd2 →
    bd_step (block_region bid) bd bd2 ∧
    (∀ a, range (bid * B + 2) (bid * B + 4) a ∨ range (bid * B + 16) (bid * B + B) a →
      bd_bytes bd2 a = 255)) as Hfin.
  { intros bd1 bd2 H1 H2. split.
    - eapply flash_step_trans; eapply block_step; done || lia.
    - intros a Ha. unfold range in Ha. rewrite (fs_frame H2), (fs_frame H1) by (unfold range; lia).
      apply Her. unfold range. lia. }
  replace (bid * B + 4 + len hb) with (bid * B + 16) by lia.
  apply wp_flash_write; [done|lia| | |]; rewrite ?Hlen.
  { unfold hb. rewrite !Forall_app. split_and!; try apply le_bytes_u8.
    by repeat (apply Forall_cons_2 || apply Forall_nil_2). }
  2: { intros e bd1 H1 Hn. replace (bid * B + 4 + 12) with (bid * B + 16) in * by lia. apply HR.
    - eapply block_step; done || lia.
    - left. apply hdr_at_no_marker. rewrite (view_255 bd1 _ 4); [done| |lia].
      intros a Ha. rewrite (fs_frame H1) by (unfold range in *; lia). apply Her. unfold range in *. lia.
    - intros ?. apply Hn. split; [done|lia]. }
  intros bd1 H1 Hw. replace (bid * B + 4 + 12) with (bid * B + 16) in * by lia.
  cbn [block_valid_as_bytes valid]. wp_steps.
  rewrite as_u32_small by done. apply wp_u32_add; [lia|]. rewrite Z.add_0_r. wp_steps.
  assert (∀ bd2, bd_step (range (bid * B) (bid * B + 2)) bd1 bd2 →
    view (bd_bytes bd2) (bid * B) 4 = [0x90; 0x0D; 0xFF; 0xFF] → formatted bd2 bid h) as Hform.
  { intros bd2 H2 Hm. destruct (Hfin bd1 bd2 H1 H2) as [Hs H255]. split.
    - rewrite <-Hnew. apply hdr_at_written; [done..|]. fold hb. rewrite <-Hlen. apply view_eq.
      intros i b Hi. pose proof (lookup_lt_Some _ _ _ Hi) as Hlt.
      assert (length hb = 12)%nat by done.
      rewrite (fs_frame H2) by (unfold range; lia).
      apply (Hw i b Hi). apply Her. unfold range. lia.
    - eapply (erased_slots bd2 bid h); [apply H2|by eapply step_header_ok; [|done|]|done|].
      intros a Ha. apply H255. by right. }
  apply wp_flash_write; [apply H1|lia|by repeat constructor| |].
  - intros bd2 H2 Hm. change (len [144; 13]) with 2 in *. destruct (Hfin bd1 bd2 H1 H2) as [Hs H255].
    apply HQ; [done|]. apply Hform; [done|].
    change 4 with (2 + 2). rewrite view_app by lia. rewrite (view_255 bd2 (bid * B + 2) 2).
    2: { intros a Ha. apply H255. left. unfold range in *. lia. } 2: lia.
    change [0x90; 0x0D; 0xFF; 0xFF] with ([0x90; 0x0D] ++ [0xFF; 0xFF]). f_equal.
    change 2 with (len [0x90; 0x0D]). apply view_eq. intros i b Hi. apply (Hm i b Hi).
    apply lookup_lt_Some in Hi. simpl in Hi.
    rewrite (fs_frame H1) by (unfold range; lia). apply Her. unfold range. lia.
  - intros e bd2 H2 Hn. change (len [144; 13]) with 2 in *. destruct (Hfin bd1 bd2 H1 H2) as [Hs H255].
    apply HR; [done| |].
    + destruct (decide (view (bd_bytes bd2) (bid * B) 4 = [0x90; 0x0D; 0xFF; 0xFF])) as [Hm|Hm].
      * right. by apply Hform.
      * left. by apply hdr_at_no_marker.
    + intros ?. apply Hn. split; [by apply (fs_healthy H1)|]. rewrite (fs_capacity H1). lia.
Qed.

Lemma wp_format_block bd bid oid ver fs ff :
  bd_wf bd → 0 ≤ bid < blocks_total bd → is_u16 oid → is_u8 ver → is_u16 fs → is_u32 ff →
  wp (format_block B bid oid ver fs ff)
     (λ _ bd', bd_step (block_region bid) bd bd' ∧
        ∃ h, try_new B bid oid ver fs ff = Some h ∧ formatted bd' bid h)
     (λ e bd', bd_step (block_region bid) bd bd' ∧
        (bd_healthy bd → try_new B bid oid ver fs ff = None ∧
           e = FlashWriteError_Write W_FragmentTooLarge) ∧
        (erase_failed bd bd' bid ∨ hdr_at bd' bid = None ∨
         ∃ h, try_new B bid oid ver fs ff = Some h ∧ formatted bd' bid h)) bd.
Proof.
  intros Hwf Hb Ho Hv Hf Hff. destruct (block_in_cap _ _ Hwf Hb) as [Hb0 Hb1].
  pose proof (wf_cap _ Hwf). pose proof (wf_B _ Hwf) as [HB _]. unfold BLOCK_HEADER_SIZE in HB.
  unfold format_block. wp_steps. apply wp_block_addr; [done|lia|].
  cbn [block_valid_as_bytes valid]. wp_steps. rewrite as_u32_small by done.
  apply wp_u32_add; [lia|]. wp_steps.
  assert (∀ bd1, bd_step (range (bid * B + 2) (bid * B + 2 + 2)) bd bd1 →
    clears_bits (bd_bytes bd) (bd_bytes bd1) →
    wp (e ← u32_add (bid * B) (as_u32 B);
        try! (flash_erase (bid * B) e);;
        match try_new B bid oid ver fs ff with
        | None => fail (FlashWriteError_Write W_FragmentTooLarge)
        | Some header =>
            a ← u32_add (bid * B) 4;
            try! (flash_write a (slice 4 16 (header_as_bytes header)));;
            let '(offset, marker) := block_valid_as_bytes (mkBlockValid true) in
            a ← u32_add (bid * B) (as_u32 offset);
            try! (flash_write a marker)
        end)
     (λ _ bd', bd_step (block_region bid) bd bd' ∧
        ∃ h, try_new B bid oid ver fs ff = Some h ∧ formatted bd' bid h)
     (λ e bd', bd_step (block_region bid) bd bd' ∧
        (bd_healthy bd → try_new B bid oid ver fs ff = None ∧
           e = FlashWriteError_Write W_FragmentTooLarge) ∧
        (erase_failed bd bd' bid ∨ hdr_at bd' bid = None ∨
         ∃ h, try_new B bid oid ver fs ff = Some h ∧ formatted bd' bid h)) bd1) as Hrest.
  2: { apply wp_flash_write_bits; [done|lia|by repeat constructor|..]; intros; by apply Hrest. }
  intros bd1 H1 Hcl. replace (bid * B + 2 + 2) with (bid * B + 4) in H1 by lia.
  pose proof (step_total _ _ _ Hwf H1) as Ht1.
  assert (bd_step (block_region bid) bd bd1) as Hs1 by (eapply block_step; done || lia).
  wp_steps. rewrite (as_u32_small B) by (unfold is_u32; lia). apply wp_u32_add; [lia|]. wp_steps.
  destruct (flash_erase (bid * B) (bid * B + B) bd1) as [r bd2] eqn:Hrun.
  assert (wp (flash_erase (bid * B) (bid * B + B))
    (λ _ bd2, bd_step (range (bid * B) (bid * B + B)) bd1 bd2 ∧
       (∀ a, range (bid * B) (bid * B + B) a → bd_bytes bd2 a = 255))
    (λ _ bd2, bd_step (range (bid * B) (bid * B + B)) bd1 bd2 ∧ ¬ bd_healthy bd1) bd1) as Her.
  { apply wp_flash_erase; [apply H1|lia|done|]. intros e bd' He Hn. split; [done|].
    intros Hhl. apply Hn. split; [done|]. rewrite (fs_capacity H1), (wf_erase _ Hwf).
    split; [lia|]. split; [by exists bid|]. exists (bid + 1). lia. }
  apply (wp_run _ _ _ _ _ _ Her) in Hrun as Hpost. unfold wp at 1. rewrite Hrun.
  destruct r as [[]|e|]; [| |done]; destruct Hpost as [H2 Hx];
    assert (bd_step (block_region bid) bd bd2) as Hs2
      by (eapply flash_step_trans; [exact Hs1|eapply block_step; done || lia]).
  - destruct (try_new B bid oid ver fs ff) as [h|] eqn:Hnew.
    + eapply (wp_format_finish _ _ oid ver fs ff); try done.
      { apply H2. } { by rewrite (step_total _ _ _ (fs_wf H1) H2), Ht1. }
      * intros bd' H3 Hfm. split; [by eapply flash_step_trans|eauto].
      * intros e bd' H3 Hc Hn. split; [by eapply flash_step_trans|]. split; [|right; destruct Hc; eauto].
        intros Hhl. destruct Hn. by apply (fs_healthy Hs2).
    + wp_steps. split; [done|]. split; [done|]. right. left. apply hdr_at_no_marker.
      rewrite (view_255 bd2 _ 4); [done| |lia]. intros a Ha. apply Hx. unfold range in *. lia.
  - split; [done|]. split; [intros Hhl; destruct Hx; by apply (fs_healthy H1)|]. left. by exists bd1, e.
Qed.
End facts.
