(* ===== verification/BlockProps.v ===== *)
(** * Block layer: correctness

    The contracts that the doc comments of the [Reader] and [Writer] traits
    state, for every driver that satisfies [NorFlashLaws] and every fault:
    atomicity of write, delete and format, isolation of fragments, write-once,
    and the write/read round trip; with their instances on [InMemoryFlash]. *)

From stdpp Require Import base list list_numbers numbers option.
From S2P Require Import Prelude NorFlash InMemoryFlash BlockLayer BlockFacts.

#[export] Instance is_u8_decision z : Decision (is_u8 z).
Proof. unfold is_u8. apply _. Defined.

(** Nothing but slot [rel] of block [id h] changed: every block header, every
    other slot of the block and every other block are as before. *)
Definition isolated {F E} `{!NorFlash F E} `{!NorFlashLaws F E} (B : Z)
    (bd bd' : BlockDevice F) (h : BlockHeader) (rel : Z) : Prop :=
  (∀ bid, 0 ≤ bid → hdr_at B bd' bid = hdr_at B bd bid) ∧
  (∀ r off n, 0 ≤ r < frag_count h → r ≠ rel → 0 ≤ off → off + n ≤ frag_size h →
     status_at B bd' (id h) r = status_at B bd (id h) r ∧
     data_at B bd' h r off n = data_at B bd h r off n) ∧
  (∀ bid a, bid ≠ id h → block_region B bid a → bd_bytes bd' a = bd_bytes bd a).

Section props.
Context {F E : Type} `{!NorFlash F E} `{!NorFlashLaws F E} (B : Z).
Abbreviation bd_step := (flash_step (bd_wf B) bd_healthy bd_cap bd_bytes).

Lemma frag_step_isolated bd bd' h rel :
  bd_wf B bd → header_ok B bd h → 0 ≤ rel < frag_count h →
  bd_step (frag_region B h rel) bd bd' → isolated B bd bd' h rel.
Proof.
  intros Hwf Hh Hr Hs. split; [|split].
  - intros. by apply (frag_step_hdr B bd bd' h rel).
  - intros. split; [by apply (frag_step_status B bd bd' h rel)|
      by apply (frag_step_data B bd bd' h rel)].
  - intros bid a Hb Ha. apply (fs_frame Hs). by eapply frag_region_other_block.
Qed.

Lemma same_isolated bd bd' h rel : bd_step nowhere bd bd' → isolated B bd bd' h rel.
Proof.
  intros Hs. split; [|split]; intros.
  - by apply same_hdr.
  - split; [by apply same_status|by apply same_data].
  - exact (flash_step_same _ _ _ Hs).
Qed.

(** What an erase that fails may leave: nothing changed, or a first word that
    does not read as the valid marker. *)
Definition erase_fails_safe (lo hi : Z) : Prop :=
  ∀ bd e bd', bd_wf B bd → flash_erase lo hi bd = (Err e, bd') →
    (∀ a, bd_bytes bd' a = bd_bytes bd a) ∨
    view (bd_bytes bd') lo 4 ≠ [0x90; 0x0D; 0xFF; 0xFF].

(** A failed erase leaves no header, or everything behind the marker and the header as before. *)
Lemma erase_failed_outcome bd bd' bid :
  bd_wf B bd → erase_fails_safe (bid * B) (bid * B + B) → erase_failed B bd bd' bid →
  hdr_at B bd' bid = None ∨
  (hdr_at B bd' bid = hdr_at B bd bid ∧
   ∀ a, bid * B + 4 ≤ a → bd_bytes bd' a = bd_bytes bd a).
Proof.
  intros Hwf Hsafe (bd1 & e' & H1 & Hcl & Her).
  apply Hsafe in Her; [|apply H1]. destruct Her as [Her|Her]; [|left; by apply hdr_at_no_marker].
  destruct (decide (view (bd_bytes bd') (bid * B) 4 = [0x90; 0x0D; 0xFF; 0xFF])) as [Hm|?];
    [|left; by apply hdr_at_no_marker].
  right.
  assert (∀ a, bid * B + 4 ≤ a → bd_bytes bd' a = bd_bytes bd a) as Htail.
  { intros a Ha. rewrite Her. apply (fs_frame H1). unfold range. lia. }
  split; [|done]. unfold hdr_at. f_equal. apply view_ext. intros a Ha.
  destruct (decide (bid * B + 4 ≤ a)); [by apply Htail|].
  destruct (decide (a < bid * B + 2)).
  { rewrite Her. apply (fs_frame H1). unfold range. lia. }
  (* the two bytes of the BAAD marker still read 0xFF, so they were 0xFF before *)
  assert (view (bd_bytes bd') (bid * B) 4 !! Z.to_nat (a - bid * B) = Some 255) as Hl.
  { rewrite Hm. assert (a = bid * B + 2 ∨ a = bid * B + 3) as [-> | ->] by lia.
    - by replace (bid * B + 2 - bid * B) with 2 by lia.
    - by replace (bid * B + 3 - bid * B) with 3 by lia. }
  rewrite view_lookup in Hl by lia.
  replace (bid * B + Z.of_nat (Z.to_nat (a - bid * B))) with a in Hl by lia.
  inversion Hl as [Ha']. rewrite Ha'. symmetry. eapply clears_bits_255; [exact Hcl| |].
  - apply nf_bytes_u8, Hwf.
  - by rewrite <-Her.
Qed.

(** C3: [write_fragment] is atomic.  Whatever the driver does (it may fail, or
    be interrupted, at any point and leave any bytes in the range it was
    writing), the call does not panic and afterwards the slot is as it was, or
    reads as invalid, or is valid and holds exactly the new data; [Ok] means
    the last.  No other fragment, block or header changes. *)
Theorem write_fragment_atomic bd h n data r bd' :
  bd_wf B bd → header_ok B bd h → Forall is_u8 data →
  write_fragment B h n data bd = (r, bd') →
  let rel := rel_of h n in
  r ≠ Panic ∧ bd_wf B bd' ∧ isolated B bd bd' h rel ∧
  (status_at B bd' (id h) rel = status_at B bd (id h) rel ∨
   status_at B bd' (id h) rel = Invalid ∨
   (status_at B bd' (id h) rel = Valid ∧ data_at B bd' h rel 0 (len data) = data)) ∧
  (r = Ok tt → status_at B bd' (id h) rel = Valid ∧ data_at B bd' h rel 0 (len data) = data).
Proof.
  intros Hwf Hh Hu Hrun rel.
  assert (∀ k, write_refused B bd h n data = k → k = None →
    rel < frag_count h ∧ status_at B bd (id h) rel = Empty) as Href.
  { unfold write_refused. fold rel. intros k <-. destruct (_ <? _); [done|].
    destruct (Z.leb_spec (frag_count h) rel); [done|]. by destruct (status_at B bd (id h) rel). }
  pose proof (wp_run _ _ _ _ _ _ (wp_write_fragment B bd h n data Hwf Hh Hu) Hrun) as Hpost.
  fold rel in Hpost. destruct r as [[]|e|]; [| |done].
  - destruct Hpost as (Hr & Hs & Hv & Hd). destruct (Href _ Hr eq_refl) as [Hlt _].
    split; [done|]. split; [apply Hs|]. split; [|by auto].
    apply frag_step_isolated; [done..|split; [apply rel_range|done]|done].
  - destruct (write_refused B bd h n data) eqn:Hr.
    + destruct Hpost as [Hs _]. split; [done|]. split; [apply Hs|].
      split; [by apply same_isolated|]. split; [left; by apply same_status|done].
    + destruct Hpost as (Hs & Ht & _). destruct (Href _ eq_refl eq_refl) as [Hlt Hst].
      split; [done|]. split; [apply Hs|]. split; [|split; [|done]].
      * apply frag_step_isolated; [done..|split; [apply rel_range|done]|done].
      * rewrite Hst. destruct Ht as [[? _]|?]; auto.
Qed.

(** A written fragment reads back.  On a device without pending faults,
    writing data that fits into an empty (erased) slot succeeds, and reading
    that many bytes back returns the data. *)
Theorem write_fragment_read bd h n data :
  bd_wf B bd → bd_healthy bd → header_ok B bd h → Forall is_u8 data →
  len data ≤ frag_size h → rel_of h n < frag_count h →
  status_at B bd (id h) (rel_of h n) = Empty → slot_clean B bd h (rel_of h n) →
  ∃ bd1 bd2, write_fragment B h n data bd = (Ok tt, bd1) ∧
    read_fragment B h n (len data) bd1 = (Ok data, bd2).
Proof.
  intros Hwf Hhl Hh Hu Hlen Hr Hst Hcl.
  assert (write_refused B bd h n data = None) as Href.
  { unfold write_refused. rewrite (proj2 (Z.ltb_ge _ _)), (proj2 (Z.leb_gt _ _)), Hst; done. }
  pose proof (wp_write_fragment B bd h n data Hwf Hh Hu) as Hw.
  destruct (write_fragment B h n data bd) as [r bd1] eqn:Hrun.
  apply (wp_run _ _ _ _ _ _ Hw) in Hrun. rewrite Href in Hrun.
  destruct r as [[]|e|]; [|by destruct Hrun as (_ & _ & []) |done].
  destruct Hrun as (_ & Hs & Hv & Hd). exists bd1.
  assert (wp (read_fragment B h n (len data)) (λ bs _, bs = data) (λ _ _, False) bd1) as Hrd.
  { apply wp_read_fragment_at_offset; [apply Hs|by eapply step_header_ok|done| |apply len_nonneg|..].
    - destruct (ok_frag_size _ _ _ Hh). lia.
    - intros bd2 H2. rewrite Hv, Z.min_l by lia. done.
    - intros e bd2 H2 Hn. apply Hn, (fs_healthy Hs), Hhl. }
  apply wp_ok in Hrd as (bs & bd2 & -> & ->). by exists bd2.
Qed.

(** Every fragment is written at most once.  Without faults, a write that
    a guard refuses (data too large, fragment not in this block, or slot
    already used) returns that guard's error and changes nothing. *)
Theorem write_fragment_refused bd h n data k :
  bd_wf B bd → bd_healthy bd → header_ok B bd h → Forall is_u8 data →
  write_refused B bd h n data = Some k →
  ∃ bd', write_fragment B h n data bd = (Err (FlashWriteError_Write k), bd') ∧
    ∀ a, bd_bytes bd' a = bd_bytes bd a.
Proof.
  intros Hwf Hhl Hh Hu Href. pose proof (wp_write_fragment B bd h n data Hwf Hh Hu) as Hw.
  destruct (write_fragment B h n data bd) as [r bd'] eqn:Hrun.
  apply (wp_run _ _ _ _ _ _ Hw) in Hrun. rewrite Href in Hrun.
  destruct r as [[]|e|]; [by destruct Hrun| |done].
  destruct Hrun as [Hs He]. exists bd'. rewrite (He Hhl). split; [done|].
  intros a. exact (flash_step_same _ _ _ Hs).
Qed.

(** [delete_fragment] is atomic and a soft delete.  Under any driver fault
    the slot afterwards is as before, obsolete or invalid; [Ok] means that it
    is no longer readable; the data bytes and everything else are untouched. *)
Theorem delete_fragment_atomic bd h n r bd' :
  bd_wf B bd → header_ok B bd h → delete_fragment B h n bd = (r, bd') →
  let rel := rel_of h n in
  r ≠ Panic ∧ isolated B bd bd' h rel ∧
  data_at B bd' h rel 0 (frag_size h) = data_at B bd h rel 0 (frag_size h) ∧
  (status_at B bd' (id h) rel = status_at B bd (id h) rel ∨
   status_at B bd' (id h) rel = Obsolete ∨ status_at B bd' (id h) rel = Invalid) ∧
  (r = Ok tt → status_at B bd' (id h) rel = deleted (status_at B bd (id h) rel)).
Proof.
  intros Hwf Hh Hrun rel.
  pose proof (wp_run _ _ _ _ _ _ (wp_delete_fragment B bd h n Hwf Hh) Hrun) as Hpost.
  fold rel in Hpost.
  assert (rel < frag_count h → bd_step (obsolete_byte B h rel) bd bd' →
    isolated B bd bd' h rel ∧
    data_at B bd' h rel 0 (frag_size h) = data_at B bd h rel 0 (frag_size h)) as Hmain.
  { intros Hlt Hs. assert (0 ≤ rel < frag_count h) as Hr by (split; [apply rel_range|done]).
    split; [apply frag_step_isolated; [done..|by apply obsolete_step]|].
    destruct (slot_addr_bounds _ _ _ _ Hwf Hh Hr) as (_ & Hd & _).
    eapply step_view; [exact Hs|]. intros a. unfold obsolete_byte, range. lia. }
  destruct r as [[]|e|]; [| |done].
  - destruct Hpost as (Hlt & Hs & Hst). destruct (Hmain Hlt Hs) as [? ?].
    split; [done|]. split; [done|]. split; [done|]. split; [|done]. rewrite Hst.
    destruct (status_at B bd (id h) rel); auto.
  - split; [done|]. destruct Hpost as [(Hge & Hs & _)|(Hlt & _ & Hs & Hst)].
    + split; [by apply same_isolated|]. split; [by apply same_data|].
      split; [left; by apply same_status|done].
    + destruct (Hmain Hlt Hs) as [? ?]. done.
Qed.

(** [format_block] is atomic.  For a driver whose interrupted erase does
    not fake a valid marker, the block afterwards is as before (every byte
    after the marker unchanged, the same header), or reads as invalid, or is
    completely formatted with every slot empty and erased; [Ok] means the
    last.  No byte outside the block changes. *)
Theorem format_block_atomic bd bid oid ver fs ff r bd' :
  bd_wf B bd → 0 ≤ bid < blocks_total bd →
  is_u16 oid → is_u8 ver → is_u16 fs → is_u32 ff →
  erase_fails_safe (bid * B) (bid * B + B) →
  format_block B bid oid ver fs ff bd = (r, bd') →
  r ≠ Panic ∧ (∀ a, ¬ block_region B bid a → bd_bytes bd' a = bd_bytes bd a) ∧
  (hdr_at B bd' bid = None ∨
   (hdr_at B bd' bid = hdr_at B bd bid ∧
    ∀ a, bid * B + 4 ≤ a → bd_bytes bd' a = bd_bytes bd a) ∨
   ∃ h, try_new B bid oid ver fs ff = Some h ∧ formatted B bd' bid h) ∧
  (r = Ok tt → ∃ h, try_new B bid oid ver fs ff = Some h ∧ formatted B bd' bid h).
Proof.
  intros Hwf Hb Ho Hv Hf Hff Hsafe Hrun.
  pose proof (wp_run _ _ _ _ _ _ (wp_format_block B bd bid oid ver fs ff Hwf Hb Ho Hv Hf Hff) Hrun)
    as Hpost.
  destruct r as [[]|e|]; [| |done]; destruct Hpost as [Hs Hpost];
    (split; [done|]; split; [intros a Ha; by apply (fs_frame Hs)|]).
  { auto. }
  split; [|done]. destruct Hpost as [_ [Her|[?|?]]]; [|by auto..].
  destruct (erase_failed_outcome bd bd' bid Hwf Hsafe Her) as [?|?]; auto.
Qed.

(** Formatting a block succeeds when it can.  Without faults,
    [format_block] of a block of the device returns [Ok] exactly when at least
    one fragment of that size fits, and otherwise [FragmentTooLarge]; after
    [Ok] the header read back is the one that was requested. *)
Theorem format_block_ok bd bid oid ver fs ff :
  bd_wf B bd → bd_healthy bd → 0 ≤ bid < blocks_total bd →
  is_u16 oid → is_u8 ver → is_u16 fs → is_u32 ff →
  match try_new B bid oid ver fs ff with
  | Some h => ∃ bd1 bd2, format_block B bid oid ver fs ff bd = (Ok tt, bd1) ∧
      block_header B bid bd1 = (Ok (Some h), bd2) ∧ formatted B bd1 bid h
  | None => ∃ bd1, format_block B bid oid ver fs ff bd =
      (Err (FlashWriteError_Write W_FragmentTooLarge), bd1)
  end.
Proof.
  intros Hwf Hhl Hb Ho Hv Hf Hff.
  pose proof (wp_format_block B bd bid oid ver fs ff Hwf Hb Ho Hv Hf Hff) as Hw.
  destruct (format_block B bid oid ver fs ff bd) as [r bd1] eqn:Hrun.
  apply (wp_run _ _ _ _ _ _ Hw) in Hrun. destruct r as [[]|e|]; [| |done].
  - destruct Hrun as (Hs & h & -> & Hfm). exists bd1.
    assert (wp (block_header B bid) (λ o _, o = Some h) (λ _ _, False) bd1) as Hrd.
    { apply wp_block_header; [apply Hs|by rewrite (step_total _ _ _ _ Hwf Hs)|..].
      - intros. apply Hfm.
      - intros ??? []. apply (fs_healthy Hs), Hhl. }
    apply wp_ok in Hrd as (o & bd2 & Hrd & ->). eauto.
  - destruct Hrun as (_ & He & _). destruct (He Hhl) as [-> ->]. eauto.
Qed.
End props.

(** ** Devices on the in-memory flash *)

Section in_memory.
Context (B : Z) (HES : 0 < B).
#[local] Instance im_flash : NorFlash InMemoryFlash MockError := in_memory_nor_flash B.
#[local] Instance im_laws : NorFlashLaws InMemoryFlash MockError := in_memory_laws B HES.

Lemma im_device_wf (bd : BlockDevice InMemoryFlash) n :
  BLOCK_HEADER_SIZE ≤ B < u32_size → 0 ≤ n → n * B < u32_size →
  bool_decide (Forall is_u8 (memory (flash bd))) = true → len (memory (flash bd)) = n * B →
  blocks_total bd = n → bd_wf B bd.
Proof.
  intros HB Hn Hcap Hu Hl Ht. apply bool_decide_eq_true in Hu.
  assert (bd_cap bd = n * B) as Hc by exact Hl.
  split; rewrite ?Hc, ?Ht; try done; [|by rewrite Z.div_mul by lia|lia].
  split; [done|]. by rewrite Hl.
Qed.

(** An interrupted erase of the in-memory flash leaves 0x5A everywhere. *)
Lemma im_erase_safe lo hi : 0 ≤ lo < hi → erase_fails_safe B lo hi.
Proof.
  intros Hlo bd e bd' [[_ Hlt] _ _ _ _]. unfold flash_erase, zoom, nf_erase. cbn [im_flash in_memory_nor_flash].
  unfold erase. destruct (trigger_error_on_countdown _) as [fault cd].
  rewrite (proj2 (Z.eqb_neq B 0)) by lia. cbn [memory with_memory].
  destruct (_ || _); [intros [= _ <-]; by left|].
  rewrite as_u32_small by (split; [apply len_nonneg|done]).
  destruct (Z.ltb_spec (len (memory (flash bd))) (Z.max lo hi)); [intros [= _ <-]; by left|].
  destruct (hi <? lo); [done|]. destruct fault as [e'|]; [|done].
  intros Hrun. right. intros Hv.
  assert (view (bd_bytes bd') lo 4 !! 0%nat = Some 0x90) as Hl by (by rewrite Hv).
  rewrite view_lookup, Z.add_0_r in Hl by lia. apply (f_equal snd) in Hrun. cbn [snd] in Hrun.
  subst bd'. unfold bd_bytes in Hl. cbn [flash set_flash nf_bytes im_laws in_memory_laws] in Hl.
  unfold im_bytes in Hl. cbn [memory with_memory] in Hl.
  destruct (Z.ltb_spec lo 0); [lia|].
  rewrite <-(Nat.add_0_r (Z.to_nat lo)), splice_lookup_in in Hl;
    [|lia|unfold len in *; rewrite length_replicate; lia|rewrite length_replicate; lia].
  by rewrite lookup_replicate_2 in Hl by lia.
Qed.
End in_memory.

(** ** Instances on the in-memory flash

    Four blocks of 64 bytes; block 1 formatted with four 8-byte fragments
    numbered from 100, and fragment 101 written. *)

Module Demo.
#[export] Instance demo_flash : NorFlash InMemoryFlash MockError := in_memory_nor_flash 64.
#[export] Instance demo_laws : NorFlashLaws InMemoryFlash MockError := in_memory_laws 64 eq_refl.

Definition run {S E A} (m : M S E A) (s : S) : S := (m s).2.
Definition h1 : BlockHeader := mkBlockHeader 7 8 100 1 [0xFF; 0xFF; 0xFF] 1 4.
Definition dev0 : BlockDevice InMemoryFlash := readonly_from 64 (new 256).
Definition dev1 : BlockDevice InMemoryFlash :=
  Eval vm_compute in run (format_block 64 1 7 1 8 100) dev0.
Definition dev2 : BlockDevice InMemoryFlash :=
  Eval vm_compute in run (write_fragment 64 h1 101 [1; 2; 3]) dev1.
(** The third write from now on fails half way, as an interrupted one does. *)
Definition dev2_faulty : BlockDevice InMemoryFlash :=
  set_flash (trigger_write_error_after 2 (mkMockError Other) (flash dev2)) dev2.

Lemma demo_wf (bd : BlockDevice InMemoryFlash) :
  bool_decide (Forall is_u8 (memory (flash bd))) = true → len (memory (flash bd)) = 256 →
  blocks_total bd = 4 → bd_wf 64 bd.
Proof. intros Hu Hl Ht. by apply (im_device_wf 64 eq_refl bd 4). Qed.

Lemma demo_h1 (bd : BlockDevice InMemoryFlash) : blocks_total bd = 4 → header_ok 64 bd h1.
Proof. intros Ht. split; rewrite ?Ht; done. Qed.

Lemma demo_clean rel :
  bool_decide (Forall (λ a, im_bytes (flash dev2) a = 255) (seqZ (data_addr 64 h1 rel) 8)) = true →
  slot_clean 64 dev2 h1 rel.
Proof.
  intros H a Ha. apply bool_decide_eq_true in H. rewrite Forall_forall in H.
  apply H, list_elem_of_In, elem_of_seqZ. unfold range in Ha. cbn in *. lia.
Qed.

Lemma demo_erase_safe lo hi : 0 ≤ lo < hi → erase_fails_safe 64 lo hi.
Proof. apply (im_erase_safe 64 eq_refl). Qed.
End Demo.

Import Demo.

Lemma write_fragment_atomic_witness :
  ∃ bd', write_fragment 64 h1 102 [9; 8] dev2_faulty =
      (Err (FlashWriteError_Flash (mkMockError Other)), bd') ∧
    isolated 64 dev2_faulty bd' h1 2.
Proof.
  eexists. split; [vm_compute; reflexivity|].
  eapply (write_fragment_atomic 64 dev2_faulty h1 102 [9; 8]); [by apply demo_wf|by apply demo_h1|
    by apply u8s|vm_compute; reflexivity].
Defined.

Lemma format_block_atomic_witness :
  ∃ r bd', format_block 64 1 7 2 8 100 dev2_faulty = (r, bd') ∧ r ≠ Panic.
Proof.
  eexists _, _. split; [vm_compute; reflexivity|].
  eapply (format_block_atomic 64 dev2_faulty 1 7 2 8 100); [by apply demo_wf|done..|
    by apply demo_erase_safe|vm_compute; reflexivity].
Defined.

Lemma write_fragment_read_witness :
  ∃ bd1 bd2, write_fragment 64 h1 102 [9; 8] dev2 = (Ok tt, bd1) ∧
    read_fragment 64 h1 102 2 bd1 = (Ok [9; 8], bd2).
Proof.
  apply (write_fragment_read 64 dev2 h1 102 [9; 8]); [by apply demo_wf|done|by apply demo_h1|
    by apply u8s|done..|by apply demo_clean; vm_compute].
Defined.

Lemma write_fragment_refused_witness :
  ∃ bd', write_fragment 64 h1 101 [9; 8] dev2 =
      (Err (FlashWriteError_Write W_FragmentExists), bd') ∧
    ∀ a, bd_bytes bd' a = bd_bytes dev2 a.
Proof.
  apply (write_fragment_refused 64 dev2 h1 101 [9; 8] W_FragmentExists);
    [by apply demo_wf|done|by apply demo_h1|by apply u8s|
     vm_compute; reflexivity].
Defined.

Lemma delete_fragment_atomic_witness :
  ∃ bd', delete_fragment 64 h1 101 dev2 = (Ok tt, bd') ∧ status_at 64 bd' 1 1 = Obsolete.
Proof.
  eexists. split; [vm_compute; reflexivity|].
  apply (delete_fragment_atomic 64 dev2 h1 101 (Ok tt) _
    ltac:(by apply demo_wf) ltac:(by apply demo_h1) ltac:(vm_compute; reflexivity)). done.
Defined.

Lemma format_block_ok_witness :
  ∃ bd1 bd2, format_block 64 1 7 1 8 100 dev0 = (Ok tt, bd1) ∧
    block_header 64 1 bd1 = (Ok (Some h1), bd2) ∧ formatted 64 bd1 1 h1.
Proof.
  exact (format_block_ok 64 dev0 1 7 1 8 100 ltac:(by apply demo_wf) ltac:(done) ltac:(done)
    ltac:(done) ltac:(done) ltac:(done) ltac:(done)).
Defined.
