(* ===== verification/BlockDev.v ===== *)
(** * The block device interface

    [flash_db] is written against the traits [Reader] and [Writer] of
    [block_layer.rs].  [BlockDev] is the record of their operations and
    [BlockDevLaws] is what they promise, over an abstract state: a block is its
    header and the list of its slots, each a status and the bytes stored.
    Every law covers failing devices too; [dev_healthy] is the absence of
    pending faults.  [BlockRefine] proves the laws for [BlockDevice]. *)

From stdpp Require Import base list list_numbers numbers option.
From S2P Require Import Prelude NorFlash BlockLayer BlockFacts.

(** Status and stored bytes of a fragment. *)
Abbreviation Slot := (FragmentStatus * list Z)%type.

Record Block : Type := mkBlock { blk_hdr : BlockHeader; blk_slots : list Slot }.

(** The traits [Reader] and [Writer].  A read returns the bytes it put in the
    caller's buffer of length [result_len]. *)
Class BlockDev (B : Z) (D E : Type) : Type := {
  dev_block_header (block_id : Z) : M D (FlashError E) (option BlockHeader);
  dev_fragment_status (block : BlockHeader) (frag_no : Z) : M D (FlashReadError E) FragmentStatus;
  dev_read_fragment_at_offset (block : BlockHeader) (frag_no offset result_len : Z) :
    M D (FlashReadError E) (list Z);
  dev_block_is_empty (block : BlockHeader) : M D (FlashReadError E) bool;
  dev_block_find_valid_fragment (block : BlockHeader) : M D (FlashReadError E) (option Z);
  dev_format_block (block_id object_id object_version frag_size first_frag_no : Z) :
    M D (FlashWriteError E) unit;
  dev_write_fragment (block : BlockHeader) (frag_no : Z) (data : list Z) :
    M D (FlashWriteError E) unit;
  dev_delete_fragment (block : BlockHeader) (frag_no : Z) : M D (FlashWriteError E) unit;
}.

(** The provided method [Reader::read_fragment]. *)
Definition dev_read_fragment {B D E} `{!BlockDev B D E} (block : BlockHeader)
    (frag_no result_len : Z) : M D (FlashReadError E) (list Z) :=
  dev_read_fragment_at_offset block frag_no 0 result_len.

(** ** Abstract blocks *)

Record slot_ok (fs : Z) (s : Slot) : Prop := {
  slot_len : len s.2 = fs;
  slot_empty : s.1 = Empty → s.2 = replicate (Z.to_nat fs) 255;
}.

(** A block of a device with block size [B]. *)
Record block_ok (B bid : Z) (b : Block) : Prop := {
  bok_id : id (blk_hdr b) = bid;
  bok_frag_size : is_u16 (frag_size (blk_hdr b));
  bok_first : is_u32 (first_frag_no (blk_hdr b));
  bok_count : frag_count (blk_hdr b) = calculate_fragments_per_block B (frag_size (blk_hdr b));
  bok_count_pos : 0 < frag_count (blk_hdr b);
  bok_length : len (blk_slots b) = frag_count (blk_hdr b);
  bok_slots : Forall (slot_ok (frag_size (blk_hdr b))) (blk_slots b);
}.

(** The slot that holds fragment number [n]. *)
Definition slot_of (b : Block) (n : Z) : option Slot :=
  blk_slots b !! Z.to_nat (rel_of (blk_hdr b) n).

Definition set_slot (b : Block) (n : Z) (s : Slot) : Block :=
  mkBlock (blk_hdr b) (<[Z.to_nat (rel_of (blk_hdr b) n) := s]> (blk_slots b)).

(** A block just formatted. *)
Definition fresh_block (h : BlockHeader) : Block :=
  mkBlock h (replicate (Z.to_nat (frag_count h)) (Empty, replicate (Z.to_nat (frag_size h)) 255)).

(** Why a read of a slot is refused, [None] when it is not. *)
Definition read_check (s : option Slot) : option FlashReadErrorKind :=
  match s with
  | None => Some FragmentNotFound
  | Some (Empty, _) => Some FragmentEmpty
  | Some (Invalid, _) => Some FragmentInvalid
  | Some (Obsolete, _) => Some FragmentObsolete
  | Some (Valid, _) => None
  end.

(** Why a write is refused, [None] when it is not. *)
Definition write_check (b : Block) (n : Z) (data : list Z) : option FlashWriteErrorKind :=
  if frag_size (blk_hdr b) <? len data then Some W_FragmentTooLarge
  else match slot_of b n with
       | None => Some W_FragmentNotFound
       | Some (Invalid, _) => Some W_FragmentInvalid
       | Some (Obsolete, _) => Some W_FragmentObsolete
       | Some (Valid, _) => Some W_FragmentExists
       | Some (Empty, _) => None
       end.

(** [data] was written at the start of the slot. *)
Definition holds (data : list Z) (s : Slot) : Prop :=
  s.1 = Valid ∧ slice 0 (len data) s.2 = data.

Definition is_status (st : FragmentStatus) (s : Slot) : Prop := s.1 = st.

(** ** The contract *)

Class BlockDevLaws (B : Z) (D E : Type) `{!BlockDev B D E} : Type := {
  dev_wf : D → Prop;
  dev_healthy : D → Prop;
  dev_blocks : D → Z;
  dev_block : D → Z → option Block;

  dev_block_ok : ∀ d bid b, dev_wf d → dev_block d bid = Some b →
    0 ≤ bid < dev_blocks d ∧ block_ok B bid b;

  dev_block_header_law : ∀ d bid, dev_wf d → 0 ≤ bid < dev_blocks d →
    wp (dev_block_header bid)
       (λ o d', flash_step dev_wf dev_healthy dev_blocks dev_block nowhere d d' ∧
                o = blk_hdr <$> dev_block d bid)
       (λ e d', flash_step dev_wf dev_healthy dev_blocks dev_block nowhere d d' ∧
                ¬ dev_healthy d ∧ ∃ e', e = FlashError_Flash e') d;

  dev_fragment_status_law : ∀ d bid b n, dev_wf d → dev_block d bid = Some b →
    wp (dev_fragment_status (blk_hdr b) n)
       (λ st d', flash_step dev_wf dev_healthy dev_blocks dev_block nowhere d d' ∧
                 fst <$> slot_of b n = Some st)
       (λ e d', flash_step dev_wf dev_healthy dev_blocks dev_block nowhere d d' ∧
                ((slot_of b n = None ∧ e = FlashReadError_Read FragmentNotFound) ∨
                 (¬ dev_healthy d ∧ ∃ e', e = FlashReadError_Flash e'))) d;

  dev_read_law : ∀ d bid b n off rl, dev_wf d → dev_block d bid = Some b →
    0 ≤ off ≤ frag_size (blk_hdr b) → 0 ≤ rl →
    wp (dev_read_fragment_at_offset (blk_hdr b) n off rl)
       (λ bs d', flash_step dev_wf dev_healthy dev_blocks dev_block nowhere d d' ∧
                 ∃ ds, slot_of b n = Some (Valid, ds) ∧
                   bs = slice off (off + Z.min rl (frag_size (blk_hdr b) - off)) ds)
       (λ e d', flash_step dev_wf dev_healthy dev_blocks dev_block nowhere d d' ∧
                ((∃ k, read_check (slot_of b n) = Some k ∧ e = FlashReadError_Read k) ∨
                 (¬ dev_healthy d ∧ ∃ e', e = FlashReadError_Flash e'))) d;

  dev_block_is_empty_law : ∀ d bid b, dev_wf d → dev_block d bid = Some b →
    first_frag_no (blk_hdr b) + frag_count (blk_hdr b) ≤ u32_size →
    wp (dev_block_is_empty (blk_hdr b))
       (λ r d', flash_step dev_wf dev_healthy dev_blocks dev_block nowhere d d' ∧
                (r = true ↔ Forall (is_status Empty) (blk_slots b)))
       (λ e d', flash_step dev_wf dev_healthy dev_blocks dev_block nowhere d d' ∧
                ¬ dev_healthy d ∧ ∃ e', e = FlashReadError_Flash e') d;

  dev_block_find_valid_law : ∀ d bid b, dev_wf d → dev_block d bid = Some b →
    first_frag_no (blk_hdr b) + frag_count (blk_hdr b) ≤ u32_size →
    wp (dev_block_find_valid_fragment (blk_hdr b))
       (λ r d', flash_step dev_wf dev_healthy dev_blocks dev_block nowhere d d' ∧
                (r = None ↔ Forall (λ s, ¬ is_status Valid s) (blk_slots b)))
       (λ e d', flash_step dev_wf dev_healthy dev_blocks dev_block nowhere d d' ∧
                ¬ dev_healthy d ∧ ∃ e', e = FlashReadError_Flash e') d;

  dev_format_law : ∀ d bid oid ver fs ff, dev_wf d → 0 ≤ bid < dev_blocks d →
    is_u16 oid → is_u8 ver → is_u16 fs → is_u32 ff →
    wp (dev_format_block bid oid ver fs ff)
       (λ _ d', flash_step dev_wf dev_healthy dev_blocks dev_block (λ i, i = bid) d d' ∧
                ∃ h, try_new B bid oid ver fs ff = Some h ∧
                  dev_block d' bid = Some (fresh_block h))
       (λ e d', flash_step dev_wf dev_healthy dev_blocks dev_block (λ i, i = bid) d d' ∧
                (dev_healthy d → try_new B bid oid ver fs ff = None ∧
                   e = FlashWriteError_Write W_FragmentTooLarge) ∧
                (dev_block d' bid = None ∨ dev_block d' bid = dev_block d bid ∨
                 ∃ h, try_new B bid oid ver fs ff = Some h ∧
                   dev_block d' bid = Some (fresh_block h))) d;

  dev_write_law : ∀ d bid b n data, dev_wf d → dev_block d bid = Some b → Forall is_u8 data →
    wp (dev_write_fragment (blk_hdr b) n data)
       (λ _ d', flash_step dev_wf dev_healthy dev_blocks dev_block (λ i, i = bid) d d' ∧
                write_check b n data = None ∧
                ∃ s, holds data s ∧ dev_block d' bid = Some (set_slot b n s))
       (λ e d', flash_step dev_wf dev_healthy dev_blocks dev_block (λ i, i = bid) d d' ∧
                match write_check b n data with
                | Some k => dev_block d' bid = Some b ∧
                    (dev_healthy d → e = FlashWriteError_Write k)
                | None => ¬ dev_healthy d ∧
                    (dev_block d' bid = Some b ∨
                     ∃ s, (is_status Invalid s ∨ holds data s) ∧
                       dev_block d' bid = Some (set_slot b n s))
                end) d;

  dev_delete_law : ∀ d bid b n, dev_wf d → dev_block d bid = Some b →
    wp (dev_delete_fragment (blk_hdr b) n)
       (λ _ d', flash_step dev_wf dev_healthy dev_blocks dev_block (λ i, i = bid) d d' ∧
                ∃ st ds, slot_of b n = Some (st, ds) ∧
                  dev_block d' bid = Some (set_slot b n (deleted st, ds)))
       (λ e d', flash_step dev_wf dev_healthy dev_blocks dev_block (λ i, i = bid) d d' ∧
                match slot_of b n with
                | None => dev_block d' bid = Some b ∧ e = FlashWriteError_Write W_FragmentNotFound
                | Some (st, ds) => ¬ dev_healthy d ∧
                    ∃ st', (st' = st ∨ st' = Obsolete ∨ st' = Invalid) ∧
                      dev_block d' bid = Some (set_slot b n (st', ds))
                end) d;
}.
