(* ===== verification/BlockRefine.v ===== *)
(** * [BlockDevice] implements the block device interface

    The instance of [BlockDev] for [BlockDevice] and the proof of
    [BlockDevLaws]: the abstract block of [BlockDev] is what the header, the
    slot headers and the data bytes in flash decode to.  The invariant is that
    every empty slot of a formatted block is erased. *)

From stdpp Require Import base list list_numbers numbers option.
From S2P Require Import Prelude NorFlash InMemoryFlash BlockLayer BlockFacts BlockProps BlockDev.

Section refine.
Context {F E : Type} `{!NorFlash F E} `{!NorFlashLaws F E} (B : Z).
Context (Hsafe : ∀ bid, 0 ≤ bid → erase_fails_safe B (bid * B) (bid * B + B)).
Abbreviation BD := (BlockDevice F).
Abbreviation bd_step := (flash_step (bd_wf B) bd_healthy bd_cap bd_bytes).

Definition block_device : BlockDev B BD E := {|
  dev_block_header := block_header B;
  dev_fragment_status := fragment_status B;
  dev_read_fragment_at_offset := read_fragment_at_offset B;
  dev_block_is_empty := block_is_empty B;
  dev_block_find_valid_fragment := block_find_valid_fragment B;
  dev_format_block := format_block B;
  dev_write_fragment := write_fragment B;
  dev_delete_fragment := delete_fragment B;
|}.

Definition bd_slot (bd : BD) (h : BlockHeader) (rel : Z) : Slot :=
  (status_at B bd (id h) rel, data_at B bd h rel 0 (frag_size h)).
Definition bd_block_of (bd : BD) (h : BlockHeader) : Block :=
  mkBlock h (bd_slot bd h <$> seqZ 0 (frag_count h)).
Definition bd_block (bd : BD) (bid : Z) : option Block :=
  if decide (0 ≤ bid < blocks_total bd) then bd_block_of bd <$> hdr_at B bd bid else None.

(** Empty slots are erased. *)
Definition bd_clean (bd : BD) (bid : Z) : Prop :=
  ∀ h rel, 0 ≤ bid < blocks_total bd → hdr_at B bd bid = Some h → 0 ≤ rel < frag_count h →
    status_at B bd bid rel = Empty → slot_clean B bd h rel.
Definition bd_ok (bd : BD) : Prop := bd_wf B bd ∧ ∀ bid, bd_clean bd bid.

Abbreviation ok_step := (flash_step bd_ok bd_healthy blocks_total bd_block).

(** ** The abstraction *)

Lemma bd_block_Some bd bid b :
  bd_wf B bd → bd_block bd bid = Some b →
  0 ≤ bid < blocks_total bd ∧ hdr_at B bd bid = Some (blk_hdr b) ∧
  b = bd_block_of bd (blk_hdr b) ∧ header_ok B bd (blk_hdr b) ∧ id (blk_hdr b) = bid.
Proof.
  intros Hwf. unfold bd_block. case_decide as Hb; [|done].
  destruct (hdr_at B bd bid) as [h|] eqn:Hh; [|done]. intros [= <-].
  destruct (hdr_at_ok _ _ _ _ Hwf Hb Hh). done.
Qed.

Lemma slots_lookup bd h rel :
  (bd_slot bd h <$> seqZ 0 (frag_count h)) !! Z.to_nat rel =
  if decide (Z.to_nat rel < Z.to_nat (frag_count h))%nat
  then Some (bd_slot bd h (Z.of_nat (Z.to_nat rel))) else None.
Proof.
  rewrite list_lookup_fmap. case_decide.
  - by rewrite (proj2 (lookup_seqZ 0 _ _ (Z.of_nat (Z.to_nat rel)))) by lia.
  - by rewrite lookup_seqZ_ge by lia.
Qed.

Lemma slot_of_bd bd h n :
  slot_of (bd_block_of bd h) n =
  if decide (rel_of h n < frag_count h) then Some (bd_slot bd h (rel_of h n)) else None.
Proof.
  unfold slot_of, bd_block_of. cbn [blk_slots blk_hdr].
  rewrite slots_lookup. pose proof (rel_range h n) as [? _].
  rewrite Z2Nat.id by lia. repeat case_decide; done || lia.
Qed.

Lemma bd_slot_of bd bid b n :
  bd_wf B bd → bd_block bd bid = Some b →
  slot_of b n = if decide (rel_of (blk_hdr b) n < frag_count (blk_hdr b))
                then Some (bd_slot bd (blk_hdr b) (rel_of (blk_hdr b) n)) else None.
Proof.
  intros Hwf Hb. destruct (bd_block_Some _ _ _ Hwf Hb) as (_ & _ & Hbe & _).
  rewrite Hbe at 1. apply slot_of_bd.
Qed.

Lemma data_clean bd h rel : 0 ≤ frag_size h →
  slot_clean B bd h rel ↔ data_at B bd h rel 0 (frag_size h) = replicate (Z.to_nat (frag_size h)) 255.
Proof.
  intros Hfs. unfold slot_clean, data_at. rewrite Z.add_0_r. split.
  - intros H. by apply view_255.
  - intros H a Ha. unfold range in Ha.
    assert (view (bd_bytes bd) (data_addr B h rel) (frag_size h) !! Z.to_nat (a - data_addr B h rel) = Some 255)
      as Hl by (rewrite H, lookup_replicate_2; [done|lia]).
    rewrite view_lookup in Hl by lia. inversion Hl. f_equal. lia.
Qed.

Lemma bd_block_of_ok bd h :
  header_ok B bd h → bd_clean bd (id h) → hdr_at B bd (id h) = Some h →
  block_ok B (id h) (bd_block_of bd h).
Proof.
  intros Hh Hcl Hhd. destruct Hh as [? Hfs ? ? ?].
  split; cbn [blk_hdr blk_slots bd_block_of]; try done.
  - unfold len. rewrite length_fmap, length_seqZ. lia.
  - apply Forall_fmap, Forall_forall. intros rel Hrel. apply list_elem_of_In, elem_of_seqZ in Hrel.
    unfold is_u16 in Hfs. split; cbn [bd_slot fst snd].
    + apply len_view. lia.
    + intros Hst. apply data_clean; [lia|]. by apply Hcl.
Qed.

(** ** Frame *)

(** A block whose bytes did not change is the same abstract block. *)
Lemma bd_block_ext bd bd' bid :
  bd_wf B bd → blocks_total bd' = blocks_total bd →
  (∀ a, block_region B bid a → bd_bytes bd' a = bd_bytes bd a) →
  bd_block bd' bid = bd_block bd bid ∧ (bd_clean bd bid → bd_clean bd' bid).
Proof.
  intros Hwf Ht Heq. pose proof (wf_B _ _ Hwf). unfold block_region, range, BLOCK_HEADER_SIZE in *.
  assert (hdr_at B bd' bid = hdr_at B bd bid) as Hh.
  { unfold hdr_at, BLOCK_HEADER_SIZE. f_equal. apply view_ext. intros a Ha. apply Heq. lia. }
  assert (∀ h rel, 0 ≤ bid < blocks_total bd → hdr_at B bd bid = Some h → 0 ≤ rel < frag_count h →
    bd_slot bd' h rel = bd_slot bd h rel ∧ (slot_clean B bd h rel → slot_clean B bd' h rel)) as Hs.
  { intros h rel Hb Hhd Hr. destruct (hdr_at_ok _ _ _ _ Hwf Hb Hhd) as [Hok Hid].
    pose proof (slot_in_block _ _ _ _ Hwf Hok Hr) as Hsl. rewrite Hid in Hsl.
    destruct (ok_frag_size _ _ _ Hok) as [Hfs _].
    unfold BLOCK_HEADER_SIZE, FRAG_HEADER_SIZE in *. split.
    - unfold bd_slot, status_at, data_at, FRAG_HEADER_SIZE. rewrite Hid.
      f_equal; [f_equal|]; apply view_ext; intros a Ha; apply Heq; lia.
    - intros Hcl a Ha. rewrite Heq; [by apply Hcl|]. unfold range in Ha. lia. }
  split.
  - unfold bd_block. rewrite Ht, Hh. case_decide as Hb; [|done].
    destruct (hdr_at B bd bid) as [h|] eqn:Hhd; [|done]. cbn. unfold bd_block_of. do 2 f_equal.
    apply list_fmap_ext. intros i rel Hi. apply lookup_seqZ in Hi as [-> ?]. apply Hs; done || lia.
  - intros Hcl h rel. rewrite Ht, Hh. intros Hb Hhd Hr Hst.
    destruct (Hs h rel Hb Hhd Hr) as [Hsl Hcl']. apply Hcl', Hcl; [done..|].
    destruct (hdr_at_ok _ _ _ _ Hwf Hb Hhd) as [_ Hid].
    apply (f_equal fst) in Hsl. cbn in Hsl. rewrite Hid in Hsl. congruence.
Qed.

Lemma ok_step_block bd bd' bid :
  bd_ok bd → bd_step (block_region B bid) bd bd' → bd_clean bd' bid → ok_step (λ i, i = bid) bd bd'.
Proof.
  intros [Hwf Hcl] Hs Hc. pose proof (step_total _ _ _ _ Hwf Hs) as Ht.
  assert (∀ i, i ≠ bid → ∀ a, block_region B i a → bd_bytes bd' a = bd_bytes bd a) as Hother.
  { intros i Hi a Ha. apply (fs_frame Hs). pose proof (wf_B _ _ Hwf).
    unfold block_region, range, BLOCK_HEADER_SIZE in *.
    assert (i * B + B ≤ bid * B ∨ bid * B + B ≤ i * B) by nia. lia. }
  split; [split; [apply Hs|]|apply Hs|done|].
  - intros i. destruct (decide (i = bid)) as [->|Hi]; [done|].
    apply (bd_block_ext bd bd' i); [done..|by apply Hother|apply Hcl].
  - intros i Hi. apply (bd_block_ext bd bd' i); [done..|by apply Hother].
Qed.

Lemma ok_step_same P bd bd' : bd_ok bd → bd_step nowhere bd bd' → ok_step P bd bd'.
Proof.
  intros [Hwf Hcl] Hs. pose proof (step_total _ _ _ _ Hwf Hs) as Ht.
  assert (∀ i, bd_block bd' i = bd_block bd i ∧ (bd_clean bd i → bd_clean bd' i)) as H.
  { intros i. apply bd_block_ext; [done..|]. intros a _. exact (flash_step_same _ _ _ Hs). }
  split; [split; [apply Hs|]|apply Hs|done|].
  - intros i. apply H, Hcl.
  - intros i _. apply H.
Qed.

(** A step inside slot [n] replaces that slot, and nothing else. *)
Lemma frag_step_block bd bd' bid b n :
  bd_ok bd → bd_block bd bid = Some b → rel_of (blk_hdr b) n < frag_count (blk_hdr b) →
  bd_step (frag_region B (blk_hdr b) (rel_of (blk_hdr b) n)) bd bd' →
  (bd_slot bd' (blk_hdr b) (rel_of (blk_hdr b) n)).1 = Empty ∧ slot_clean B bd' (blk_hdr b) (rel_of (blk_hdr b) n) ∨
  (bd_slot bd' (blk_hdr b) (rel_of (blk_hdr b) n)).1 ≠ Empty →
  ok_step (λ i, i = bid) bd bd' ∧
  bd_block bd' bid = Some (set_slot b n (bd_slot bd' (blk_hdr b) (rel_of (blk_hdr b) n))).
Proof.
  intros [Hwf Hcl] Hb Hr Hs Hslot.
  destruct (bd_block_Some _ _ _ Hwf Hb) as (Hbid & Hhd & Hbe & Hok & Hid).
  set (h := blk_hdr b) in *. set (rel := rel_of h n) in *.
  assert (0 ≤ rel < frag_count h) as Hrel by (split; [apply rel_range|done]).
  pose proof (frag_step_isolated B bd bd' h rel Hwf Hok Hrel Hs) as (Hhdrs & Hslots & _).
  assert (hdr_at B bd' bid = Some h) as Hhd' by (rewrite Hhdrs; [done|lia]).
  assert (∀ r, 0 ≤ r < frag_count h → r ≠ rel → bd_slot bd' h r = bd_slot bd h r) as Hsl.
  { intros r Hr' Hne. unfold bd_slot. destruct (ok_frag_size _ _ _ Hok).
    destruct (Hslots r 0 (frag_size h) Hr' Hne) as [-> ->]; done || lia. }
  split.
  - apply ok_step_block; [done| |].
    + eapply flash_step_weaken; [exact Hs|]. intros a Ha.
      pose proof (slot_in_block _ _ _ _ Hwf Hok Hrel) as Hin. destruct (ok_frag_size _ _ _ Hok).
      unfold frag_region, block_region, range, BLOCK_HEADER_SIZE, FRAG_HEADER_SIZE in *.
      rewrite <-Hid. lia.
    + intros h' r _ Hh' Hr' Hst. rewrite Hhd' in Hh'. injection Hh' as <-.
      destruct (decide (r = rel)) as [->|Hne].
      * destruct Hslot as [[_ ?]|Hslot]; [done|]. destruct Hslot. cbn. by rewrite Hid.
      * destruct (ok_frag_size _ _ _ Hok). apply data_clean; [lia|].
        pose proof (Hsl r Hr' Hne) as Heq. injection Heq as Heq1 Heq2.
        rewrite Heq2. apply data_clean; [lia|]. apply (Hcl bid); [done..|]. rewrite <-Hid in Hst |- *. congruence.
  - unfold bd_block. rewrite decide_True, Hhd' by (by rewrite (step_total _ _ _ _ Hwf Hs)).
    cbn. f_equal. unfold set_slot, bd_block_of. fold h rel. f_equal.
    rewrite Hbe. cbn [bd_block_of blk_slots]. apply list_eq. intros i.
    destruct (decide (i < Z.to_nat (frag_count h))%nat) as [Hi|Hi].
    + rewrite <-(Nat2Z.id i). rewrite slots_lookup. rewrite Nat2Z.id, decide_True by done.
      destruct (decide (i = Z.to_nat rel)) as [->|Hne].
      * rewrite list_lookup_insert_eq by (rewrite length_fmap, length_seqZ; done).
        by rewrite Z2Nat.id by lia.
      * rewrite list_lookup_insert_ne by done. rewrite <-(Nat2Z.id i) at 2. rewrite slots_lookup.
        rewrite Nat2Z.id, decide_True by done. f_equal. apply Hsl; lia.
    + rewrite !lookup_ge_None_2; [done|rewrite length_insert, length_fmap, length_seqZ; lia|
        rewrite length_fmap, length_seqZ; lia].
Qed.

(** ** The laws *)

Lemma write_check_None bd bid b n data :
  bd_wf B bd → bd_block bd bid = Some b → write_check b n data = None →
  rel_of (blk_hdr b) n < frag_count (blk_hdr b) ∧
  status_at B bd bid (rel_of (blk_hdr b) n) = Empty ∧ len data ≤ frag_size (blk_hdr b).
Proof.
  intros Hwf Hb. destruct (bd_block_Some _ _ _ Hwf Hb) as (_ & _ & _ & _ & <-).
  unfold write_check. rewrite (bd_slot_of bd (id (blk_hdr b))) by done.
  destruct (Z.ltb_spec (frag_size (blk_hdr b)) (len data)); [done|].
  case_decide; [|done]. cbn. by destruct (status_at B bd _ _).
Qed.

Lemma bd_write_law bd bid b n data :
  bd_ok bd → bd_block bd bid = Some b → Forall is_u8 data →
  wp (write_fragment B (blk_hdr b) n data)
     (λ _ bd', ok_step (λ i, i = bid) bd bd' ∧ write_check b n data = None ∧
        ∃ s, holds data s ∧ bd_block bd' bid = Some (set_slot b n s))
     (λ e bd', ok_step (λ i, i = bid) bd bd' ∧
        match write_check b n data with
        | Some k => bd_block bd' bid = Some b ∧ (bd_healthy bd → e = FlashWriteError_Write k)
        | None => ¬ bd_healthy bd ∧ (bd_block bd' bid = Some b ∨
            ∃ s, (is_status Invalid s ∨ holds data s) ∧ bd_block bd' bid = Some (set_slot b n s))
        end) bd.
Proof.
  intros Hbok Hb Hu. pose proof Hbok as [Hwf Hcl].
  destruct (bd_block_Some _ _ _ Hwf Hb) as (Hbid & Hhd & Hbe & Hok & Hid).
  assert (write_refused B bd (blk_hdr b) n data = write_check b n data) as Hck.
  { unfold write_refused, write_check. destruct (_ <? _); [done|].
    rewrite (bd_slot_of bd bid), Hid by done.
    destruct (Z.leb_spec (frag_count (blk_hdr b)) (rel_of (blk_hdr b) n)).
    - by rewrite decide_False by lia.
    - rewrite decide_True by lia. cbn. rewrite Hid. by destruct (status_at B bd bid _). }
  eapply wp_mono; [by apply wp_write_fragment| |]; cbv beta; rewrite Hck.
  - intros [] bd' (Hr & Hs & Hv & Hd).
    destruct (write_check_None _ _ _ _ _ Hwf Hb Hr) as (Hlt & _ & Hlen).
    destruct (frag_step_block bd bd' bid b n) as [Hst Hbl]; [done..| |].
    { right. cbn. by rewrite Hv. }
    split; [done|]. split; [done|]. eexists. split; [|exact Hbl].
    split; [done|]. cbn. rewrite <-Hd at 2. unfold data_at. pose proof (len_nonneg data).
    rewrite view_slice by lia. by rewrite !Z.add_0_r, Z.sub_0_r.
  - intros e bd' He. destruct (write_check b n data) as [k|] eqn:Hr.
    + destruct He as [Hs He]. pose proof (ok_step_same nowhere _ _ Hbok Hs) as Hs'.
      split; [by apply flash_step_nowhere|]. split; [|done].
      rewrite <-Hb. exact (flash_step_same _ _ _ Hs').
    + destruct He as (Hs & Ht & Hn).
      destruct (write_check_None _ _ _ _ _ Hwf Hb Hr) as (Hlt & Hemp & Hlen).
      assert (0 ≤ rel_of (blk_hdr b) n < frag_count (blk_hdr b)) as Hrel by (split; [apply rel_range|done]).
      assert (slot_clean B bd (blk_hdr b) (rel_of (blk_hdr b) n)) as Hclean by (by eapply (Hcl bid)).
      destruct (frag_step_block bd bd' bid b n) as [Hst Hbl]; [done..| |].
      { cbn. destruct Ht as [[? Hx]|[Hx|[Hx _]]]; [left; by auto|right; by rewrite Hx|right; by rewrite Hx]. }
      split; [done|]. split; [intros Hh; by apply Hn|]. rewrite Hbl.
      destruct Ht as [[Hx1 Hx2]|Hx].
      * left. f_equal. unfold set_slot. destruct b as [h sl] eqn:Hbb. cbn in *. f_equal.
        apply list_insert_id. injection Hbe as ->. rewrite slots_lookup.
        rewrite decide_True by lia. rewrite Z2Nat.id by lia. f_equal. unfold bd_slot.
        rewrite Hx1. rewrite Hid, Hemp. f_equal. destruct (ok_frag_size _ _ _ Hok).
        rewrite (proj1 (data_clean bd h _ ltac:(lia)) Hclean).
        symmetry. by apply data_clean, Hx2.
      * right. eexists. split; [|done]. destruct Hx as [?|[Hx Hd]]; [by left|right].
        split; [done|]. cbn. rewrite <-Hd at 2. unfold data_at. pose proof (len_nonneg data).
        rewrite view_slice by lia. by rewrite !Z.add_0_r, Z.sub_0_r.
Qed.
Lemma bd_delete_law bd bid b n :
  bd_ok bd → bd_block bd bid = Some b →
  wp (delete_fragment B (blk_hdr b) n)
     (λ _ bd', ok_step (λ i, i = bid) bd bd' ∧ ∃ st ds, slot_of b n = Some (st, ds) ∧
        bd_block bd' bid = Some (set_slot b n (deleted st, ds)))
     (λ e bd', ok_step (λ i, i = bid) bd bd' ∧
        match slot_of b n with
        | None => bd_block bd' bid = Some b ∧ e = FlashWriteError_Write W_FragmentNotFound
        | Some (st, ds) => ¬ bd_healthy bd ∧
            ∃ st', (st' = st ∨ st' = Obsolete ∨ st' = Invalid) ∧
              bd_block bd' bid = Some (set_slot b n (st', ds))
        end) bd.
Proof.
  intros Hbok Hb. pose proof Hbok as [Hwf Hcl].
  destruct (bd_block_Some _ _ _ Hwf Hb) as (Hbid & Hhd & Hbe & Hok & Hid).
  set (h := blk_hdr b) in *. set (rel := rel_of h n) in *.
  assert (∀ bd', rel < frag_count h → bd_step (obsolete_byte B h rel) bd bd' →
    (status_at B bd' bid rel = Empty → status_at B bd bid rel = Empty) →
    ok_step (λ i, i = bid) bd bd' ∧ bd_block bd' bid =
      Some (set_slot b n (status_at B bd' bid rel, data_at B bd h rel 0 (frag_size h)))) as Hmain.
  { intros bd' Hlt Hs Hst. assert (0 ≤ rel < frag_count h) as Hr by (split; [apply rel_range|done]).
    destruct (slot_addr_bounds _ _ _ _ Hwf Hok Hr) as (_ & Hd & _ & Hfs).
    assert (data_at B bd' h rel 0 (frag_size h) = data_at B bd h rel 0 (frag_size h)) as Hdata.
    { eapply step_view; [exact Hs|]. intros a. unfold obsolete_byte, range. lia. }
    rewrite <-Hdata, <-Hid. apply (frag_step_block bd bd' (id h) b n); [done| |done|by apply obsolete_step|].
    { by rewrite Hid. }
    fold h rel. cbn. rewrite Hid. destruct (decide (status_at B bd' bid rel = Empty)) as [He|?]; [left|by right].
    split; [done|]. apply data_clean; [done|]. rewrite Hdata. apply data_clean; [done|].
    apply (Hcl bid); auto. }
  assert (slot_of b n = if decide (rel < frag_count h) then Some (bd_slot bd h rel) else None) as Hsl
    by (by apply (bd_slot_of bd bid)).
  eapply wp_mono; [by apply wp_delete_fragment| |]; cbv beta; fold h rel; rewrite Hsl.
  - intros [] bd' (Hlt & Hs & Hst). rewrite Hid in Hst. destruct (Hmain bd' Hlt Hs) as [H1 H2].
    { rewrite Hst. by destruct (status_at B bd bid rel). }
    split; [done|]. rewrite decide_True by done. eexists _, _. split; [done|].
    rewrite H2, Hst. by rewrite Hid.
  - intros e bd' [(Hge & Hs & He)|(Hlt & Hn & Hs & Hst)].
    + split; [by apply ok_step_same|]. rewrite decide_False by lia. split; [|done].
      rewrite <-Hb. exact (flash_step_same _ _ _ (ok_step_same nowhere _ _ Hbok Hs)).
    + rewrite Hid in Hst. destruct (Hmain bd' Hlt Hs) as [H1 H2].
      { intros He. rewrite He in Hst. by destruct Hst as [<-|[?|?]]. }
      split; [done|]. rewrite decide_True by done. cbn. split; [done|].
      exists (status_at B bd' bid rel). by rewrite Hid.
Qed.

Lemma bd_read_law bd bid b n off rl :
  bd_ok bd → bd_block bd bid = Some b → 0 ≤ off ≤ frag_size (blk_hdr b) → 0 ≤ rl →
  wp (read_fragment_at_offset B (blk_hdr b) n off rl)
     (λ bs bd', ok_step nowhere bd bd' ∧ ∃ ds, slot_of b n = Some (Valid, ds) ∧
        bs = slice off (off + Z.min rl (frag_size (blk_hdr b) - off)) ds)
     (λ e bd', ok_step nowhere bd bd' ∧
        ((∃ k, read_check (slot_of b n) = Some k ∧ e = FlashReadError_Read k) ∨
         (¬ bd_healthy bd ∧ ∃ e', e = FlashReadError_Flash e'))) bd.
Proof.
  intros Hbok Hb Hoff Hrl. pose proof Hbok as [Hwf Hcl].
  destruct (bd_block_Some _ _ _ Hwf Hb) as (_ & _ & _ & Hok & Hid).
  rewrite (bd_slot_of bd bid b n Hwf Hb). case_decide as Hr.
  - apply wp_read_fragment_at_offset; [done..| |].
    + intros bd' Hs. apply (ok_step_same nowhere) in Hs; [|done].
      unfold bd_slot. destruct (status_at B bd (id (blk_hdr b)) (rel_of (blk_hdr b) n)); cbn [read_check];
        try (split; [done|]; left; by eexists).
      split; [done|]. eexists. split; [done|]. unfold data_at.
      rewrite view_slice by lia. f_equal; lia.
    + intros e bd' Hs Hn. apply (ok_step_same nowhere) in Hs; [|done]. split; [done|]. right. eauto.
  - unfold read_fragment_at_offset, fragment_status, wp, mbind, M_bind, attempt.
    rewrite try_get_fragment_status_none by lia. cbn. split; [by apply flash_step_refl|]. left. eauto.
Qed.

Lemma bd_status_law bd bid b n :
  bd_ok bd → bd_block bd bid = Some b →
  wp (fragment_status B (blk_hdr b) n)
     (λ st bd', ok_step nowhere bd bd' ∧ fst <$> slot_of b n = Some st)
     (λ e bd', ok_step nowhere bd bd' ∧
        ((slot_of b n = None ∧ e = FlashReadError_Read FragmentNotFound) ∨
         (¬ bd_healthy bd ∧ ∃ e', e = FlashReadError_Flash e'))) bd.
Proof.
  intros Hbok Hb. pose proof Hbok as [Hwf Hcl].
  destruct (bd_block_Some _ _ _ Hwf Hb) as (_ & _ & _ & Hok & Hid).
  rewrite (bd_slot_of bd bid b n Hwf Hb). case_decide as Hr.
  - apply wp_fragment_status; [done..| |].
    + intros bd' Hs. apply (ok_step_same nowhere) in Hs; [|done]. done.
    + intros e bd' Hs Hn. apply (ok_step_same nowhere) in Hs; [|done]. split; [done|]. right. eauto.
  - unfold fragment_status, wp, mbind, M_bind, attempt.
    rewrite try_get_fragment_status_none by lia. cbn. split; [by apply flash_step_refl|]. left. eauto.
Qed.

Lemma bd_header_law bd bid :
  bd_ok bd → 0 ≤ bid < blocks_total bd →
  wp (block_header B bid)
     (λ o bd', ok_step nowhere bd bd' ∧ o = blk_hdr <$> bd_block bd bid)
     (λ e bd', ok_step nowhere bd bd' ∧ ¬ bd_healthy bd ∧ ∃ e', e = FlashError_Flash e') bd.
Proof.
  intros Hbok Hb. apply wp_block_header; [apply Hbok|done|..].
  - intros bd' Hs. split; [by apply ok_step_same|]. unfold bd_block. rewrite decide_True by done.
    by destruct (hdr_at B bd bid).
  - intros e bd' Hs Hn. split; [by apply ok_step_same|eauto].
Qed.

Lemma formatted_block bd bid h :
  bd_wf B bd → 0 ≤ bid < blocks_total bd → formatted B bd bid h →
  bd_block bd bid = Some (fresh_block h) ∧ bd_clean bd bid.
Proof.
  intros Hwf Hb [Hhd Hsl]. destruct (hdr_at_ok _ _ _ _ Hwf Hb Hhd) as [Hok Hid].
  destruct (ok_frag_size _ _ _ Hok) as [Hfs _]. split.
  - unfold bd_block. rewrite decide_True, Hhd by done. cbn. f_equal. unfold bd_block_of, fresh_block. f_equal.
    apply list_eq. intros i. destruct (decide (i < Z.to_nat (frag_count h))%nat) as [Hi|Hi].
    + rewrite <-(Nat2Z.id i). rewrite slots_lookup, Nat2Z.id, decide_True, lookup_replicate_2 by done.
      f_equal. unfold bd_slot. rewrite Hid. destruct (Hsl (Z.of_nat i) ltac:(lia)) as [-> Hcl].
      f_equal. by apply data_clean.
    + rewrite !lookup_ge_None_2; [done|rewrite length_replicate; lia|rewrite length_fmap, length_seqZ; lia].
  - intros h' rel _ Hh' Hr _. rewrite Hhd in Hh'. injection Hh' as <-. by apply Hsl.
Qed.

Lemma bd_format_law bd bid oid ver fs ff :
  bd_ok bd → 0 ≤ bid < blocks_total bd → is_u16 oid → is_u8 ver → is_u16 fs → is_u32 ff →
  wp (format_block B bid oid ver fs ff)
     (λ _ bd', ok_step (λ i, i = bid) bd bd' ∧
        ∃ h, try_new B bid oid ver fs ff = Some h ∧ bd_block bd' bid = Some (fresh_block h))
     (λ e bd', ok_step (λ i, i = bid) bd bd' ∧
        (bd_healthy bd → try_new B bid oid ver fs ff = None ∧
           e = FlashWriteError_Write W_FragmentTooLarge) ∧
        (bd_block bd' bid = None ∨ bd_block bd' bid = bd_block bd bid ∨
         ∃ h, try_new B bid oid ver fs ff = Some h ∧ bd_block bd' bid = Some (fresh_block h))) bd.
Proof.
  intros Hbok Hb Ho Hv Hf Hff. pose proof Hbok as [Hwf Hcl].
  assert (∀ bd', bd_step (block_region B bid) bd bd' → 0 ≤ bid < blocks_total bd') as Htot.
  { intros bd' Hs. by rewrite (step_total _ _ _ _ Hwf Hs). }
  assert (∀ bd', bd_step (block_region B bid) bd bd' → hdr_at B bd' bid = None →
    ok_step (λ i, i = bid) bd bd' ∧ bd_block bd' bid = None) as Hnone.
  { intros bd' Hs Hnh. split.
    - apply ok_step_block; [done..|]. intros h rel _ Hh. congruence.
    - unfold bd_block. rewrite Hnh. by destruct (decide _). }
  assert (∀ bd' h, bd_step (block_region B bid) bd bd' → formatted B bd' bid h →
    ok_step (λ i, i = bid) bd bd' ∧ bd_block bd' bid = Some (fresh_block h)) as Hform.
  { intros bd' h Hs Hfm. destruct (formatted_block bd' bid h) as [? ?]; [apply Hs|by apply Htot|done|].
    split; [by apply ok_step_block|done]. }
  eapply wp_mono; [by apply wp_format_block| |]; cbv beta.
  - intros [] bd' (Hs & h & Hnew & Hfm). destruct (Hform bd' h Hs Hfm). eauto.
  - intros e bd' (Hs & He & [Her|[Hh|(h & Hnew & Hfm)]]).
    + destruct (erase_failed_outcome B bd bd' bid Hwf (Hsafe bid (proj1 Hb)) Her) as [Hh|[Hh Htail]].
      { destruct (Hnone bd' Hs Hh). auto. }
      assert (∀ h rel, hdr_at B bd bid = Some h → 0 ≤ rel < frag_count h →
        bd_slot bd' h rel = bd_slot bd h rel ∧ (slot_clean B bd h rel → slot_clean B bd' h rel)) as Hsl.
      { intros h rel Hhd Hr. destruct (hdr_at_ok _ _ _ _ Hwf Hb Hhd) as [Hok Hid].
        pose proof (slot_in_block _ _ _ _ Hwf Hok Hr) as Hin. rewrite Hid in Hin.
        destruct (ok_frag_size _ _ _ Hok). unfold BLOCK_HEADER_SIZE, FRAG_HEADER_SIZE in *. split.
        - unfold bd_slot, status_at, data_at, FRAG_HEADER_SIZE. rewrite Hid.
          f_equal; [f_equal|]; apply view_ext; intros a Ha; apply Htail; lia.
        - intros Hc a Ha. rewrite Htail; [by apply Hc|]. unfold range in Ha. lia. }
      split; [|split; [done|right; left]].
      * apply ok_step_block; [done..|]. intros h rel _ Hhd Hr Hst. rewrite Hh in Hhd.
        destruct (Hsl h rel Hhd Hr) as [Heq Hc]. apply Hc, (Hcl bid); [done..|].
        destruct (hdr_at_ok _ _ _ _ Hwf Hb Hhd) as [_ Hid].
        injection Heq as Heq _. rewrite Hid in Heq. congruence.
      * unfold bd_block. rewrite !decide_True, Hh by auto. destruct (hdr_at B bd bid) as [h|] eqn:Hhd; [|done].
        cbn. unfold bd_block_of. do 2 f_equal. apply list_fmap_ext. intros i rel Hi.
        apply lookup_seqZ in Hi as [-> ?]. apply Hsl; done || lia.
    + destruct (Hnone bd' Hs Hh). auto.
    + destruct (Hform bd' h Hs Hfm). split; [done|]. split; [done|]. right. right. by exists h.
Qed.
(** ** The loops over the slots of a block *)

Lemma rel_of_add h rel :
  0 ≤ rel → first_frag_no h + rel < u32_size → is_u32 (first_frag_no h) →
  rel_of h (first_frag_no h + rel) = rel.
Proof.
  intros. unfold is_u32 in *. unfold rel_of. rewrite wrapping_sub_small by lia. lia.
Qed.

(** One iteration: the status of slot [rel], unless the device fails. *)
Lemma wp_loop_status {A} bd bid b rel (k : Z → FragmentStatus → M BD (FlashReadError E) A) Q R :
  bd_ok bd → bd_block bd bid = Some b →
  first_frag_no (blk_hdr b) + frag_count (blk_hdr b) ≤ u32_size →
  0 ≤ rel < frag_count (blk_hdr b) →
  (∀ s bd', ok_step nowhere bd bd' → blk_slots b !! Z.to_nat rel = Some s →
     wp (k (first_frag_no (blk_hdr b) + rel) s.1) Q R bd') →
  (∀ e bd', ok_step nowhere bd bd' → ¬ bd_healthy bd → R (FlashReadError_Flash e) bd') →
  wp (n ← u32_add (first_fragment (blk_hdr b)) (as_u32 rel);
      st ← fragment_status B (blk_hdr b) n; k n st) Q R bd.
Proof.
  intros Hbok Hb Hfit Hr HQ HR. pose proof Hbok as [Hwf _].
  destruct (bd_block_Some _ _ _ Hwf Hb) as (_ & _ & Hbe & Hok & _).
  destruct (ok_first _ _ _ Hok) as [Hf0 _]. unfold first_fragment.
  rewrite as_u32_small by (unfold is_u32; lia). wp_steps. apply wp_u32_add; [lia|]. wp_steps.
  assert (rel_of (blk_hdr b) (first_frag_no (blk_hdr b) + rel) = rel) as Hrel
    by (apply rel_of_add; [lia|lia|apply Hok]).
  assert (slot_of b (first_frag_no (blk_hdr b) + rel) = Some (bd_slot bd (blk_hdr b) rel)) as Hsl.
  { rewrite (bd_slot_of bd bid) by done. rewrite Hrel. by rewrite decide_True by lia. }
  eapply wp_mono; [by apply (bd_status_law bd bid b)| |]; cbv beta; rewrite Hsl.
  - intros st bd' [Hs Hst]. injection Hst as <-. apply (HQ (bd_slot bd (blk_hdr b) rel)); [done|].
    unfold slot_of in Hsl. by rewrite Hrel in Hsl.
  - intros e bd' [Hs [[? _]|[Hn [e' ->]]]]; [done|]. by apply HR.
Qed.

Lemma ok_step_block_eq bd bd' bid : ok_step nowhere bd bd' → bd_block bd' bid = bd_block bd bid.
Proof. intros Hs. exact (flash_step_same _ _ _ Hs). Qed.

Lemma wp_all_empty bd bid b rels Q (R : FlashReadError E → BD → Prop) :
  bd_ok bd → bd_block bd bid = Some b →
  first_frag_no (blk_hdr b) + frag_count (blk_hdr b) ≤ u32_size →
  Forall (λ rel, 0 ≤ rel < frag_count (blk_hdr b)) rels →
  (∀ r bd', ok_step nowhere bd bd' →
     (r = true ↔ ∀ rel s, rel ∈ rels → blk_slots b !! Z.to_nat rel = Some s → s.1 = Empty) → Q r bd') →
  (∀ e bd', ok_step nowhere bd bd' → ¬ bd_healthy bd → R (FlashReadError_Flash e) bd') →
  wp (all_empty B (blk_hdr b) rels) Q R bd.
Proof.
  intros Hbok Hb Hfit Hrels. revert bd Hbok Hb.
  induction Hrels as [|rel rels Hr _ IH]; intros bd Hbok Hb HQ HR; cbn [all_empty].
  { wp_steps. apply HQ; [by apply flash_step_refl|]. split; [|done]. intros _ rel s Hin. by apply not_elem_of_nil in Hin. }
  apply (wp_loop_status bd bid b); [done..| |done].
  intros s bd1 H1 Hs. case_bool_decide as He; cbn [negb].
  - apply IH; [apply H1|by rewrite (ok_step_block_eq bd)|..].
    + intros r bd2 H2 Hrr. apply HQ; [by eapply flash_step_trans|]. rewrite Hrr. split.
      * intros H rel' s' [->|Hin]%elem_of_cons Hs'; [|by eapply H]. congruence.
      * intros H rel' s' Hin. apply H. by right.
    + intros e bd2 H2 Hn. apply HR; [by eapply flash_step_trans|]. intros Hh. by apply Hn, (fs_healthy H1).
  - wp_steps. apply HQ; [done|]. split; [done|]. intros H. destruct He. symmetry. apply (H rel); [by left|done].
Qed.

Lemma wp_find_valid bd bid b rels Q (R : FlashReadError E → BD → Prop) :
  bd_ok bd → bd_block bd bid = Some b →
  first_frag_no (blk_hdr b) + frag_count (blk_hdr b) ≤ u32_size →
  Forall (λ rel, 0 ≤ rel < frag_count (blk_hdr b)) rels →
  (∀ r bd', ok_step nowhere bd bd' →
     (r = None ↔ ∀ rel s, rel ∈ rels → blk_slots b !! Z.to_nat rel = Some s → s.1 ≠ Valid) → Q r bd') →
  (∀ e bd', ok_step nowhere bd bd' → ¬ bd_healthy bd → R (FlashReadError_Flash e) bd') →
  wp (find_valid B (blk_hdr b) rels) Q R bd.
Proof.
  intros Hbok Hb Hfit Hrels. revert bd Hbok Hb.
  induction Hrels as [|rel rels Hr _ IH]; intros bd Hbok Hb HQ HR; cbn [find_valid].
  { wp_steps. apply HQ; [by apply flash_step_refl|]. split; [|done]. intros _ rel s Hin. by apply not_elem_of_nil in Hin. }
  apply (wp_loop_status bd bid b); [done..| |done].
  intros s bd1 H1 Hs. case_bool_decide as He.
  - wp_steps. apply HQ; [done|]. split; [done|]. intros H. destruct (H rel s); [by left|done..].
  - apply IH; [apply H1|by rewrite (ok_step_block_eq bd)|..].
    + intros r bd2 H2 Hrr. apply HQ; [by eapply flash_step_trans|]. rewrite Hrr. split.
      * intros H rel' s' [->|Hin]%elem_of_cons Hs'; [|by eapply H]. congruence.
      * intros H rel' s' Hin. apply H. by right.
    + intros e bd2 H2 Hn. apply HR; [by eapply flash_step_trans|]. intros Hh. by apply Hn, (fs_healthy H1).
Qed.

Lemma rels_in_range n : Forall (λ rel, 0 ≤ rel < n) (seqZ 0 n).
Proof. apply Forall_forall. intros rel Hr. apply list_elem_of_In, elem_of_seqZ in Hr. lia. Qed.

(** A predicate on all slots, by slot number. *)
Lemma slots_forall b (P : Slot → Prop) :
  len (blk_slots b) = frag_count (blk_hdr b) →
  (∀ rel s, rel ∈ seqZ 0 (frag_count (blk_hdr b)) → blk_slots b !! Z.to_nat rel = Some s → P s) ↔
  Forall P (blk_slots b).
Proof.
  intros Hl. rewrite Forall_lookup. split.
  - intros H i s Hi. pose proof (lookup_lt_Some _ _ _ Hi). apply (H (Z.of_nat i)).
    + apply elem_of_seqZ. unfold len in Hl. lia.
    + by rewrite Nat2Z.id.
  - intros H rel s _. apply H.
Qed.

Lemma bd_is_empty_law bd bid b :
  bd_ok bd → bd_block bd bid = Some b →
  first_frag_no (blk_hdr b) + frag_count (blk_hdr b) ≤ u32_size →
  wp (block_is_empty B (blk_hdr b))
     (λ r bd', ok_step nowhere bd bd' ∧ (r = true ↔ Forall (is_status Empty) (blk_slots b)))
     (λ e bd', ok_step nowhere bd bd' ∧ ¬ bd_healthy bd ∧ ∃ e', e = FlashReadError_Flash e') bd.
Proof.
  intros Hbok Hb Hfit. apply (wp_all_empty bd bid b); [done..|apply rels_in_range| |eauto].
  intros r bd' Hs ->. split; [done|]. apply slots_forall.
  destruct (bd_block_Some _ _ _ (proj1 Hbok) Hb) as (_ & Hh & Hbe & Hok & <-).
  rewrite Hbe. apply bd_block_of_ok; [done|apply Hbok|done].
Qed.

Lemma bd_find_valid_law bd bid b :
  bd_ok bd → bd_block bd bid = Some b →
  first_frag_no (blk_hdr b) + frag_count (blk_hdr b) ≤ u32_size →
  wp (block_find_valid_fragment B (blk_hdr b))
     (λ r bd', ok_step nowhere bd bd' ∧ (r = None ↔ Forall (λ s, ¬ is_status Valid s) (blk_slots b)))
     (λ e bd', ok_step nowhere bd bd' ∧ ¬ bd_healthy bd ∧ ∃ e', e = FlashReadError_Flash e') bd.
Proof.
  intros Hbok Hb Hfit. apply (wp_find_valid bd bid b); [done..|apply rels_in_range| |eauto].
  intros r bd' Hs ->. split; [done|]. apply (slots_forall b (λ s, ¬ is_status Valid s)).
  destruct (bd_block_Some _ _ _ (proj1 Hbok) Hb) as (_ & Hh & Hbe & Hok & <-).
  rewrite Hbe. apply bd_block_of_ok; [done|apply Hbok|done].
Qed.

Definition block_device_laws : @BlockDevLaws B BD E block_device.
Proof.
  refine (@Build_BlockDevLaws B BD E block_device bd_ok bd_healthy blocks_total bd_block
    _ bd_header_law bd_status_law bd_read_law bd_is_empty_law bd_find_valid_law
    bd_format_law bd_write_law bd_delete_law).
  intros bd bid b Hbok Hb.
  destruct (bd_block_Some _ _ _ (proj1 Hbok) Hb) as (? & Hh & Hbe & Hok & <-).
  split; [done|]. rewrite Hbe. apply bd_block_of_ok; [done|apply Hbok|done].
Defined.
End refine.

(** ** The in-memory instance *)

Section in_memory.
Context (B : Z) (HES : 0 < B).
#[local] Instance im_flash : NorFlash InMemoryFlash MockError := in_memory_nor_flash B.
#[local] Instance im_laws : NorFlashLaws InMemoryFlash MockError := in_memory_laws B HES.

Lemma im_safe bid : 0 ≤ bid → erase_fails_safe B (bid * B) (bid * B + B).
Proof. intros. apply im_erase_safe. nia. Qed.

Definition im_dev : BlockDev B (BlockDevice InMemoryFlash) MockError := block_device B.
Definition im_dev_laws : @BlockDevLaws B (BlockDevice InMemoryFlash) MockError im_dev := block_device_laws B im_safe.

(** Empty slots are erased, decidably. *)
Definition clean_b (bd : BlockDevice InMemoryFlash) : bool :=
  forallb (λ bid,
    match bd_block B bd bid with
    | None => true
    | Some b => forallb (λ s : Slot,
        match s.1 with
        | Empty => bool_decide (s.2 = replicate (Z.to_nat (frag_size (blk_hdr b))) 255)
        | _ => true
        end) (blk_slots b)
    end) (seqZ 0 (blocks_total bd)).

Lemma im_ok (bd : BlockDevice InMemoryFlash) : bd_wf B bd → clean_b bd = true → bd_ok B bd.
Proof.
  intros Hwf Hc. split; [done|].
  intros bid h rel Hb Hh Hr Hst. destruct (hdr_at_ok _ _ _ _ Hwf Hb Hh) as [Hok Hid].
  destruct (ok_frag_size _ _ _ Hok) as [Hfs _].
  unfold clean_b in Hc. rewrite forallb_forall in Hc.
  specialize (Hc bid ltac:(apply list_elem_of_In, elem_of_seqZ; lia)).
  unfold bd_block in Hc. rewrite decide_True, Hh in Hc by done. cbn [fmap option_fmap option_map] in Hc.
  rewrite forallb_forall in Hc. specialize (Hc (bd_slot B bd h rel)).
  unfold bd_slot in Hc. cbn [fst snd blk_hdr blk_slots bd_block_of] in Hc. rewrite Hid, Hst in Hc.
  apply data_clean; [done|]. eapply bool_decide_eq_true_1, Hc. apply list_elem_of_In, list_elem_of_fmap.
  exists rel. unfold bd_slot. rewrite Hid, Hst. split; [done|]. apply elem_of_seqZ. lia.
Qed.
End in_memory.

Module DemoDev.
Import Demo.
#[export] Instance demo_dev : BlockDev 64 (BlockDevice InMemoryFlash) MockError := im_dev 64.
#[export] Instance demo_dev_laws : BlockDevLaws 64 (BlockDevice InMemoryFlash) MockError := im_dev_laws 64 eq_refl.

Lemma demo_ok (bd : BlockDevice InMemoryFlash) :
  bool_decide (Forall is_u8 (memory (flash bd))) = true → len (memory (flash bd)) = 256 →
  blocks_total bd = 4 → clean_b 64 eq_refl bd = true → dev_wf bd.
Proof. intros Hu Hl Ht Hc. by apply (im_ok 64 eq_refl); [apply demo_wf|]. Qed.
End DemoDev.
