(* ===== verification/FlashDb.v ===== *)
(** * Flash database: objects, locking and deletion

    [storage/flash_db.rs].  A database object owns a range of blocks; the last
    one is its spare block, which doubles as a persistent lock.  [Database] has
    one field with state, the block device, so an operation of the database is
    a computation over the device. *)

From stdpp Require Import base list list_numbers numbers option.
From S2P Require Import Prelude BlockLayer BlockDev NorFlash BlockFacts.

Definition RESERVED_BLOCKS_PER_FILE : Z := 1.
Definition MAX_FRAGMENTS_PER_OBJECT : Z := u32_max / 2.

(** The trait [Object]: the values its methods return.  [obj_capacity] is [Some]
    when the implementation overrides the default [capacity]. *)
Record Object : Type := mkObject {
  obj_id : Z;
  obj_fragment_size : Z;
  obj_start : Z;
  obj_end : Z;
  obj_capacity : option Z;
}.

Inductive Error : Type :=
| Error_Flash | Error_InvalidObject | Error_CorruptOutOfBounds | Error_Corrupt
| Error_CorruptStream | Error_NoSpaceAvailable | Error_NotFound | Error_BufferTooSmall
| Error_InternalError | Error_FragmentExists | Error_FragmentTooLarge
| Error_FragmentNotFound | Error_FragmentNotWriteable | Error_WriteFailedVerify
| Error_FileNotReadable | Error_FragmentNotReadable.

#[export] Instance Error_eq_dec : EqDecision Error.
Proof. solve_decision. Defined.

Inductive InitStatus : Type := Init_New | Init_Existing.

#[export] Instance Error_from_flash_error {E} : From (FlashError E) Error := λ e,
  match e with
  | FlashError_BlockOutOfBounds => Error_CorruptOutOfBounds
  | FlashError_Flash _ => Error_Flash
  end.

#[export] Instance Error_from_read_error {E} : From (FlashReadError E) Error := λ e,
  match e with
  | FlashReadError_Flash _ => Error_Flash
  | FlashReadError_Read FragmentEmpty => Error_FragmentNotReadable
  | FlashReadError_Read FragmentInvalid => Error_FragmentNotReadable
  | FlashReadError_Read FragmentObsolete => Error_FragmentNotReadable
  | FlashReadError_Read FragmentNotFound => Error_FragmentNotFound
  | FlashReadError_Read BlockInvalid => Error_FragmentNotReadable
  | FlashReadError_Read BlockOutOfBounds => Error_CorruptOutOfBounds
  | FlashReadError_Read FlashKind => Error_Flash
  end.

#[export] Instance Error_from_write_error {E} : From (FlashWriteError E) Error := λ e,
  match e with
  | FlashWriteError_Flash _ => Error_Flash
  | FlashWriteError_Write W_FragmentNotFound => Error_FragmentNotFound
  | FlashWriteError_Write (W_BlockInvalid | W_FragmentInvalid | W_FragmentObsolete) =>
      Error_FragmentNotWriteable
  | FlashWriteError_Write W_FragmentExists => Error_FragmentNotWriteable
  | FlashWriteError_Write W_FragmentTooLarge => Error_FragmentTooLarge
  | FlashWriteError_Write W_VerifyFailed => Error_WriteFailedVerify
  | FlashWriteError_Write W_BlockOutOfBounds => Error_CorruptOutOfBounds
  | FlashWriteError_Write W_Flash => Error_Flash
  end.

Inductive LockStatus : Type := Unlocked (version : Z) | Locked.
Inductive LockMode : Type := LockSpare.
Inductive DeleteMode : Type := EraseSkipSpare | EraseLockSpare | SoftVersion.

#[export] Instance DeleteMode_eq_dec : EqDecision DeleteMode.
Proof. solve_decision. Defined.

Definition lock_mode (m : DeleteMode) : option LockMode :=
  match m with
  | EraseSkipSpare => None
  | EraseLockSpare => Some LockSpare
  | SoftVersion => None
  end.

Section flash_db.
Context {D E : Type} (B : Z) `{!BlockDev B D E}.
Abbreviation MD := (M D Error).

(** ** The trait [ObjectExt] *)

Definition block_count (o : Object) : MD Z := u32_sub (obj_end o) (obj_start o).

Definition spare_block (o : Object) : Z := saturating_sub (obj_end o) 1.

(** The block ids of [flash_blocks] and [flash_blocks_except_spare]. *)
Definition flash_blocks (o : Object) : list Z := seqZ (obj_start o) (obj_end o - obj_start o).
Definition flash_blocks_except_spare (o : Object) : list Z :=
  seqZ (obj_start o) (saturating_sub (obj_end o) 1 - obj_start o).

Definition fragments_per_block (o : Object) : Z :=
  calculate_fragments_per_block B (obj_fragment_size o).

Definition obj_fragment_count (o : Object) : MD Z :=
  bc ← block_count o;
  n ← usize_sub bc RESERVED_BLOCKS_PER_FILE;
  mret (Z.min MAX_FRAGMENTS_PER_OBJECT (fragments_per_block o * n)).

Definition capacity_of (o : Object) : MD Z :=
  match obj_capacity o with
  | Some c => mret c
  | None => fc ← obj_fragment_count o; mret (fc * obj_fragment_size o)
  end.

(** ** Locking *)

Definition lock_status (o : Object) (mode : LockMode) : MD LockStatus :=
  match mode with
  | LockSpare =>
      header ← try! (dev_block_header (spare_block o));
      match header with
      | None => mret Locked
      | Some spare =>
          if negb (obj_id o =? object_id spare) then fail Error_Corrupt
          else
            status ← try! (dev_fragment_status spare (first_fragment spare));
            let locked := negb (bool_decide (Empty = status)) in
            mret (if locked then Locked else Unlocked (object_version spare))
      end
  end.

Definition lock (o : Object) (mode : LockMode) : MD unit :=
  spare_header ← try! (dev_block_header (spare_block o));
  match mode with
  | LockSpare =>
      match spare_header with
      | Some spare => try! (dev_delete_fragment spare (first_fragment spare))
      | None => mret tt
      end
  end.

Definition unlock (o : Object) (mode : LockMode) (object_version : Z) : MD unit :=
  status ← attempt (lock_status o mode);
  match status with
  | inl (Unlocked _) => mret tt
  | _ =>
      match mode with
      | LockSpare =>
          try! (dev_format_block (spare_block o) (obj_id o) object_version
                  (as_u16 (obj_fragment_size o)) 0)
      end
  end.

(** ** Deletion *)

(** The loop over [[first_header, spare_header]]: what it leaves in
    [versions[0]] and [erase_counts[0]]. *)
Fixpoint scan_headers (total_frag_count : Z)
    (headers : list (caught (FlashError E) (option BlockHeader))) (acc : Z * Z) : Z * Z :=
  match headers with
  | [] => acc
  | inl (Some header) :: headers =>
      scan_headers total_frag_count headers
        (object_version header, first_fragment header / total_frag_count)
  | _ :: headers => scan_headers total_frag_count headers acc
  end.

Definition newest_version (v0 v1 : Z) : Z :=
  let max_version := Z.max v0 v1 in
  let min_version := Z.min v0 v1 in
  if 128 <? max_version - min_version then min_version else max_version.

(** The [format_block] call shared by the delete loops:
    [first_frag_no_for_block.wrapping_add((erase_count + 1) * total_frag_count)]. *)
Definition format_next (o : Object) (block version first_frag_no_for_block erase_count
    total_frag_count : Z) : MD unit :=
  n ← u32_add erase_count 1;
  base ← u32_mul n total_frag_count;
  try! (dev_format_block block (obj_id o) version (as_u16 (obj_fragment_size o))
          (wrapping_add first_frag_no_for_block base)).

Fixpoint soft_delete (o : Object) (version total_frag_count : Z) (blocks : list (Z * Z)) :
    MD unit :=
  match blocks with
  | [] => mret tt
  | (erase_count, block_to_erase) :: blocks =>
      first_frag_no_for_block ← u32_mul block_to_erase (as_u32 (fragments_per_block o));
      format_next o block_to_erase version first_frag_no_for_block erase_count total_frag_count;;
      soft_delete o version total_frag_count blocks
  end.

(** Whether a block must be formatted, and its erase count. *)
Definition erase_needed (o : Object) (block first_frag_no_for_block total_frag_count : Z) :
    MD (bool * Z) :=
  header ← try! (dev_block_header block);
  match header with
  | None => mret (true, 0)
  | Some header =>
      if object_id header =? obj_id o then
        erase_count ← u32_div (first_fragment header) total_frag_count;
        rem ← u32_rem (first_fragment header) total_frag_count;
        if (fragment_size header =? obj_fragment_size o) && (rem =? first_frag_no_for_block) then
          empty ← try! (dev_block_is_empty header);
          mret (negb empty, erase_count)
        else mret (true, erase_count)
      else mret (true, 0)
  end.

Fixpoint erase_blocks (o : Object) (mode : DeleteMode) (version total_frag_count format_count : Z)
    (blocks : list Z) : MD unit :=
  match blocks with
  | [] => mret tt
  | block :: blocks =>
      if bool_decide (mode = EraseSkipSpare) && (block =? spare_block o)
      then erase_blocks o mode version total_frag_count format_count blocks
      else
        first_frag_no_for_block ← u32_mul block (as_u32 (fragments_per_block o));
        '(format, erase_count) ← erase_needed o block first_frag_no_for_block total_frag_count;
        if (format : bool) then
          (if format_count =? 0 then
             match lock_mode mode with Some l => lock o l | None => mret tt end
           else mret tt);;
          format_next o block version first_frag_no_for_block erase_count total_frag_count;;
          erase_blocks o mode version total_frag_count (format_count + 1) blocks
        else erase_blocks o mode version total_frag_count format_count blocks
  end.

Definition delete_object (o : Object) (mode : DeleteMode) : MD unit :=
  fc ← obj_fragment_count o;
  let total_frag_count := as_u32 fc in
  if total_frag_count =? 0 then fail Error_InvalidObject
  else
    let first_block := obj_start o in
    let spare := spare_block o in
    first_header ← attempt (dev_block_header first_block);
    spare_header ← attempt (dev_block_header spare);
    let '(v0, e0) := scan_headers total_frag_count [first_header; spare_header] (0xFF, 0) in
    (* index 1 of [versions] and [erase_counts] keeps its initial value *)
    let '(v1, e1) := (0xFF, 0) in
    let existing_version := newest_version v0 v1 in
    let object_next_version := as_u8 (existing_version + 1) in
    if bool_decide (mode = SoftVersion) then
      soft_delete o object_next_version total_frag_count
        [(e0, first_block); (e1, spare)]
    else
      erase_blocks o mode object_next_version total_frag_count 0 (flash_blocks o).

(** ** Preparing a block for writing *)

Definition is_writeable (o : Object) (version : Z) (block : BlockHeader) : bool :=
  (obj_fragment_size o =? fragment_size block) && (object_version block =? version).

Definition prepare_writeable_block (o : Object) (block_no version : Z) : MD BlockHeader :=
  first_frag_no_for_block ← u32_mul block_no (as_u32 (fragments_per_block o));
  fc ← obj_fragment_count o;
  let total_frag_count := as_u32 (Z.max fc 1) in
  let format (erase_count : Z) : MD BlockHeader :=
    format_next o block_no version first_frag_no_for_block erase_count total_frag_count;;
    header ← try! (dev_block_header block_no);
    match header with
    | Some block => if is_writeable o version block then mret block else fail Error_WriteFailedVerify
    | None => fail Error_WriteFailedVerify
    end in
  header ← try! (dev_block_header block_no);
  match header with
  | Some block =>
      if is_writeable o version block then mret block
      else erase_count ← u32_div (first_fragment block) total_frag_count; format erase_count
  | None => format 0
  end.
End flash_db.

(** ** Flash database: rules for the device calls, and object geometry

    The laws of [BlockDevLaws] as rules for [wp] proofs, and the facts about a
    well-formed object that the file store and the circular store share. *)

Section rules.
Context {D E : Type} {B : Z} `{!BlockDev B D E} `{!BlockDevLaws B D E}.

Abbreviation dev_step := (flash_step dev_wf dev_healthy dev_blocks dev_block).
Abbreviation same := (dev_step nowhere).
Abbreviation at_block bid := (λ i, i = bid).

Lemma same_block d d' bid : same d d' → dev_block d' bid = dev_block d bid.
Proof. intros H. exact (flash_step_same _ _ _ H). Qed.

Lemma same_blocks {P} d d' : dev_step P d d' → dev_blocks d' = dev_blocks d.
Proof. intros H. exact (fs_capacity H). Qed.

Lemma step_other d d' bid bid' :
  dev_step (at_block bid) d d' → bid' ≠ bid → dev_block d' bid' = dev_block d bid'.
Proof. intros H Hne. exact (fs_frame H bid' Hne). Qed.

Lemma wp_dev_header d bid Q (R : FlashError E → D → Prop) :
  dev_wf d → 0 ≤ bid < dev_blocks d →
  (∀ d', same d d' → Q (blk_hdr <$> dev_block d bid) d') →
  (∀ e d', same d d' → ¬ dev_healthy d → R (FlashError_Flash e) d') →
  wp (dev_block_header bid) Q R d.
Proof.
  intros Hwf Hb HQ HR. eapply wp_mono; [by apply dev_block_header_law| |].
  - intros o d' [Hs ->]. by apply HQ.
  - intros e d' (Hs & Hn & e' & ->). by apply HR.
Qed.

Lemma wp_dev_status d bid b n s Q (R : FlashReadError E → D → Prop) :
  dev_wf d → dev_block d bid = Some b → slot_of b n = Some s →
  (∀ d', same d d' → Q s.1 d') →
  (∀ e d', same d d' → ¬ dev_healthy d → R (FlashReadError_Flash e) d') →
  wp (dev_fragment_status (blk_hdr b) n) Q R d.
Proof.
  intros Hwf Hb Hs HQ HR. eapply wp_mono; [by apply (dev_fragment_status_law d bid)| |].
  - intros st d' [Hd Hst]. rewrite Hs in Hst. injection Hst as <-. by apply HQ.
  - intros e d' [Hd [[Hno _]|[Hn [e' ->]]]]; [congruence|]. by apply HR.
Qed.

Lemma wp_dev_read d bid b n off rl Q (R : FlashReadError E → D → Prop) :
  dev_wf d → dev_block d bid = Some b → 0 ≤ off ≤ frag_size (blk_hdr b) → 0 ≤ rl →
  (∀ d' ds, same d d' → slot_of b n = Some (Valid, ds) →
     Q (slice off (off + Z.min rl (frag_size (blk_hdr b) - off)) ds) d') →
  (∀ d' k, same d d' → read_check (slot_of b n) = Some k → R (FlashReadError_Read k) d') →
  (∀ e d', same d d' → ¬ dev_healthy d → R (FlashReadError_Flash e) d') →
  wp (dev_read_fragment_at_offset (blk_hdr b) n off rl) Q R d.
Proof.
  intros Hwf Hb Hoff Hrl HQ HR HE. eapply wp_mono; [by apply (dev_read_law d bid)| |].
  - intros bs d' (Hd & ds & Hs & ->). by apply HQ.
  - intros e d' [Hd [(k & Hk & ->)|[Hn [e' ->]]]]; [by apply HR|by apply HE].
Qed.

Lemma wp_dev_find_valid d bid b Q (R : FlashReadError E → D → Prop) :
  dev_wf d → dev_block d bid = Some b →
  first_frag_no (blk_hdr b) + frag_count (blk_hdr b) ≤ u32_size →
  (∀ d', same d d' → Forall (λ s, ¬ is_status Valid s) (blk_slots b) → Q None d') →
  (∀ d' n, same d d' → ¬ Forall (λ s, ¬ is_status Valid s) (blk_slots b) → Q (Some n) d') →
  (∀ e d', same d d' → ¬ dev_healthy d → R (FlashReadError_Flash e) d') →
  wp (dev_block_find_valid_fragment (blk_hdr b)) Q R d.
Proof.
  intros Hwf Hb Hfit HN HS HE. eapply wp_mono; [by apply (dev_block_find_valid_law d bid)| |].
  - intros [n|] d' [Hd Hiff].
    + apply HS; [done|]. intros Hf. by apply Hiff in Hf.
    + apply HN; [done|]. by apply Hiff.
  - intros e d' (Hd & Hn & e' & ->). by apply HE.
Qed.

Lemma wp_dev_format d bid oid ver fs ff (Q : unit → D → Prop) (R : FlashWriteError E → D → Prop) :
  dev_wf d → 0 ≤ bid < dev_blocks d → is_u16 oid → is_u8 ver → is_u16 fs → is_u32 ff →
  (∀ d' h, dev_step (at_block bid) d d' → try_new B bid oid ver fs ff = Some h →
     dev_block d' bid = Some (fresh_block h) → Q tt d') →
  (∀ e d', dev_step (at_block bid) d d' →
     (dev_healthy d → try_new B bid oid ver fs ff = None ∧
        e = FlashWriteError_Write W_FragmentTooLarge) →
     (dev_block d' bid = None ∨ dev_block d' bid = dev_block d bid ∨
      ∃ h, try_new B bid oid ver fs ff = Some h ∧ dev_block d' bid = Some (fresh_block h)) →
     R e d') →
  wp (dev_format_block bid oid ver fs ff) Q R d.
Proof.
  intros Hwf Hb Ho Hv Hf Hff HQ HR. eapply wp_mono; [by apply dev_format_law| |].
  - intros [] d' (Hd & h & Hn & Hbl). by eapply HQ.
  - intros e d' (Hd & He & Hc). by apply HR.
Qed.

Lemma wp_dev_write d bid b n data (Q : unit → D → Prop) (R : FlashWriteError E → D → Prop) :
  dev_wf d → dev_block d bid = Some b → Forall is_u8 data →
  (∀ d' s, dev_step (at_block bid) d d' → write_check b n data = None → holds data s →
     dev_block d' bid = Some (set_slot b n s) → Q tt d') →
  (∀ e d' k, dev_step (at_block bid) d d' → write_check b n data = Some k →
     dev_block d' bid = Some b → (dev_healthy d → e = FlashWriteError_Write k) → R e d') →
  (∀ e d' b', dev_step (at_block bid) d d' → write_check b n data = None → ¬ dev_healthy d →
     dev_block d' bid = Some b' →
     (b' = b ∨ ∃ s, (is_status Invalid s ∨ holds data s) ∧ b' = set_slot b n s) → R e d') →
  wp (dev_write_fragment (blk_hdr b) n data) Q R d.
Proof.
  intros Hwf Hb Hu HQ HR HE. eapply wp_mono; [by apply (dev_write_law d bid)| |].
  - intros [] d' (Hd & Hc & s & Hs & Hbl). by eapply HQ.
  - intros e d' [Hd Hc]. destruct (write_check b n data) as [k|] eqn:Hck.
    + destruct Hc as [Hbl He]. by eapply HR.
    + destruct Hc as [Hn [Hbl|(s & Hs & Hbl)]]; eapply HE; eauto.
Qed.
End rules.

(** ** Well-formed objects *)

(** Number of data blocks and of fragments of an object. *)
Definition n_blocks (o : Object) : Z := obj_end o - obj_start o - 1.
Definition n_frags (B : Z) (o : Object) : Z := fragments_per_block B o * n_blocks o.

(** An object that fits the device: at least one data block and the spare, at
    least one fragment per block, and no more fragments than the numbering
    allows. *)
Record obj_ok (B blocks : Z) (o : Object) : Prop := {
  oo_id : is_u16 (obj_id o);
  oo_fs : is_u16 (obj_fragment_size o);
  oo_start : 0 ≤ obj_start o;
  oo_blocks : 1 ≤ n_blocks o;
  oo_end : obj_end o ≤ blocks;
  oo_u32 : blocks ≤ u32_max;
  oo_fpb : 0 < fragments_per_block B o;
  oo_max : n_frags B o ≤ MAX_FRAGMENTS_PER_OBJECT;
}.

(** Block that stores fragment number [n] (file index or sequence number). *)
Definition block_of (B : Z) (o : Object) (n : Z) : Z :=
  obj_start o + (n mod n_frags B o) / fragments_per_block B o.

Section object.
Context {D E : Type} (B : Z) `{!BlockDev B D E}.
Context (blocks : Z) (o : Object) (Ho : obj_ok B blocks o).

Lemma n_frags_pos : 0 < n_frags B o.
Proof. pose proof (oo_fpb _ _ _ Ho). pose proof (oo_blocks _ _ _ Ho). unfold n_frags. lia. Qed.

Lemma fpb_le : fragments_per_block B o ≤ n_frags B o.
Proof. pose proof (oo_fpb _ _ _ Ho). pose proof (oo_blocks _ _ _ Ho). unfold n_frags. nia. Qed.

Lemma fpb_u32 : as_u32 (fragments_per_block B o) = fragments_per_block B o.
Proof.
  pose proof (oo_fpb _ _ _ Ho). pose proof fpb_le. pose proof (oo_max _ _ _ Ho) as Hm.
  change MAX_FRAGMENTS_PER_OBJECT with 2147483647 in Hm.
  apply as_u32_small. unfold is_u32, u32_size. lia.
Qed.

Lemma n_frags_u32 : as_u32 (n_frags B o) = n_frags B o.
Proof.
  pose proof n_frags_pos. pose proof (oo_max _ _ _ Ho) as Hm.
  change MAX_FRAGMENTS_PER_OBJECT with 2147483647 in Hm.
  apply as_u32_small. unfold is_u32, u32_size. lia.
Qed.

Lemma wp_fragment_count d (Q : Z → D → Prop) (R : Error → D → Prop) :
  Q (n_frags B o) d → wp (obj_fragment_count B o) Q R d.
Proof.
  intros HQ. pose proof (oo_blocks _ _ _ Ho) as Hb. unfold n_blocks in Hb.
  unfold obj_fragment_count, block_count, RESERVED_BLOCKS_PER_FILE. wp_steps.
  apply wp_u32_sub; [lia|]. wp_steps. apply wp_usize_sub; [lia|]. wp_steps.
  rewrite Z.min_r; [done|]. apply Ho.
Qed.

Lemma block_of_range n : obj_start o ≤ block_of B o n < obj_start o + n_blocks o.
Proof.
  pose proof n_frags_pos. pose proof (oo_fpb _ _ _ Ho). unfold block_of.
  pose proof (Z.mod_pos_bound n (n_frags B o) ltac:(lia)).
  assert (0 ≤ n mod n_frags B o / fragments_per_block B o < n_blocks o); [|lia].
  split; [apply Z.div_pos; lia|]. apply Z.div_lt_upper_bound; [lia|].
  unfold n_frags in *. lia.
Qed.

Lemma block_of_in_dev n : 0 ≤ block_of B o n < blocks.
Proof.
  pose proof (block_of_range n). pose proof (oo_start _ _ _ Ho). pose proof (oo_end _ _ _ Ho).
  unfold n_blocks in *. lia.
Qed.

Lemma spare_in_dev : 0 ≤ spare_block o < blocks ∧ spare_block o = obj_start o + n_blocks o.
Proof.
  pose proof (oo_start _ _ _ Ho). pose proof (oo_end _ _ _ Ho). pose proof (oo_blocks _ _ _ Ho).
  unfold spare_block, saturating_sub, n_blocks in *. lia.
Qed.
End object.
