(* ===== verification/CircularStore.v ===== *)
(** * Circular store

    [storage/flash_db/circular_store.rs]: a persistent ring of fragments with
    ever-increasing sequence numbers; the range of live fragments is recovered
    by scanning the blocks. *)

From stdpp Require Import base list list_numbers numbers option.
From S2P Require Import Prelude NorFlash BlockLayer BlockFacts BlockDev FlashDb.

(** The trait [Circular]. *)
Record Circular : Type := mkCircular {
  circ_obj : Object;
  overwrite_on_full : bool;
  auto_format : bool;
}.

Record CircularRange : Type := mkCircularRange { start : Z; end_ : Z }.

Definition read_at (r : CircularRange) : Z := start r.
Definition write_at (r : CircularRange) : Z := end_ r.
Definition range_len (r : CircularRange) : Z := wrapping_sub (end_ r) (start r).
Definition range_is_empty (r : CircularRange) : bool := range_len r =? 0.

Inductive FindFail : Type :=
| FindFail_NotFound (block : BlockHeader)
| FindFail_Corrupt (block : BlockHeader)
| FindFail_Other (e : Error).

#[export] Instance Error_from_find_fail : From FindFail Error := λ f,
  match f with
  | FindFail_NotFound _ => Error_FragmentNotFound
  | FindFail_Corrupt _ => Error_Corrupt
  | FindFail_Other e => e
  end.

Definition fragment_gte (large small : Z) : bool :=
  wrapping_sub large small <? MAX_FRAGMENTS_PER_OBJECT.

Section circular_store.
Context {D E : Type} (B : Z) `{!BlockDev B D E}.
Abbreviation MD := (M D Error).

Definition find_block_no_for_seq_no (circular : Circular) (seq_no : Z) : MD Z :=
  let o := circ_obj circular in
  fc ← obj_fragment_count B o;
  rel_frag_no ← u32_rem seq_no (as_u32 fc);
  block_offset ← u32_div rel_frag_no (as_u32 (fragments_per_block B o));
  u32_add (obj_start o) block_offset.

Definition find_block_for_seq_no (circular : Circular) (seq_no : Z) :
    M D FindFail (option BlockHeader) :=
  let o := circ_obj circular in
  block_no ← map_err FindFail_Other (find_block_no_for_seq_no circular seq_no);
  fragment_in_block ← u32_rem seq_no (as_u32 (fragments_per_block B o));
  block ← map_err (λ e, FindFail_Other (from e)) (dev_block_header block_no);
  match block with
  | None => mret None
  | Some block =>
      if negb (obj_id o =? object_id block) then fail (FindFail_Corrupt block)
      else if negb (obj_fragment_size o =? fragment_size block) then fail (FindFail_Corrupt block)
      else if negb (seq_no =? wrapping_add (first_fragment block) fragment_in_block)
      then fail (FindFail_NotFound block)
      else mret (Some block)
  end.

Definition initialize_circular_store : MD unit := mret tt.

(** ** Recovering the range *)

(** The variables of the scan. *)
Record Scan : Type := mkScan {
  data_blocks : option (BlockHeader * BlockHeader);
  first_empty_block : option BlockHeader;
  highest_block : option BlockHeader;
  foreign_blocks : Z;
}.

(** [slot.get_or_insert_with(|| block.clone())] followed by an update of the
    value when [upd] holds. *)
Definition get_or_insert_update (slot : option BlockHeader) (block : BlockHeader)
    (upd : BlockHeader → bool) : option BlockHeader :=
  let cur := default block slot in Some (if upd cur then block else cur).

(** The reverse search over the fragments of one block: whether it may contain
    data, and the updated first empty block. *)
Fixpoint scan_fragments (block : BlockHeader) (first_empty : option BlockHeader)
    (offsets : list Z) : MD (bool * option BlockHeader) :=
  match offsets with
  | [] => mret (false, first_empty)
  | offset :: offsets =>
      let frag_in_block := wrapping_sub (last_fragment block) (as_u32 offset) in
      status ← try! (dev_fragment_status block frag_in_block);
      match status with
      | Invalid => scan_fragments block first_empty offsets
      | Valid => mret (true, first_empty)
      | Obsolete => mret (false, first_empty)
      | Empty =>
          first_status ← try! (dev_fragment_status block (first_fragment block));
          let block_is_empty := bool_decide (first_status = Empty) in
          let first_empty :=
            if block_is_empty
            then get_or_insert_update first_empty block (λ cur,
                   negb (fragment_gte (first_fragment block) (first_fragment cur)))
            else first_empty in
          mret (negb block_is_empty, first_empty)
      end
  end.

Definition update_data_blocks (blocks : option (BlockHeader * BlockHeader)) (block : BlockHeader) :
    option (BlockHeader * BlockHeader) :=
  let '(read, write) := default (block, block) blocks in
  let frag_no := first_fragment block in
  let write := if fragment_gte frag_no (first_fragment write) then block else write in
  let read := if negb (fragment_gte frag_no (first_fragment read)) then block else read in
  Some (read, write).

(** One block of the linear scan. *)
Definition scan_block (circular : Circular) (st : Scan) (block_id : Z) : MD Scan :=
  let o := circ_obj circular in
  header ← try! (dev_block_header block_id);
  match header with
  | None => mret st
  | Some block =>
      if negb (object_id block =? obj_id o) || negb (fragment_size block =? obj_fragment_size o)
      then mret (mkScan (data_blocks st) (first_empty_block st) (highest_block st)
                   (foreign_blocks st + 1))
      else
        '(block_may_contain_data, first_empty) ←
          scan_fragments block (first_empty_block st) (seqZ 0 (fragment_count block));
        let data :=
          if (block_may_contain_data : bool) then update_data_blocks (data_blocks st) block
          else data_blocks st in
        let highest := get_or_insert_update (highest_block st) block (λ cur,
          fragment_gte (first_fragment block) (first_fragment cur)) in
        mret (mkScan data first_empty highest (foreign_blocks st))
  end.

Fixpoint scan_blocks (circular : Circular) (st : Scan) (blocks : list Z) : MD Scan :=
  match blocks with
  | [] => mret st
  | block_id :: blocks =>
      st ← scan_block circular st block_id;
      scan_blocks circular st blocks
  end.

(** The two loops that find the exact boundaries: advance while the status is
    one of those to skip, at most [n] times. *)
Fixpoint skip_while (skip : FragmentStatus → bool) (block : BlockHeader) (seq_no : Z) (n : nat) :
    MD Z :=
  match n with
  | O => mret seq_no
  | S n =>
      status ← try! (dev_fragment_status block seq_no);
      if skip status then seq_no ← u32_add seq_no 1; skip_while skip block seq_no n
      else mret seq_no
  end.

Definition skip_read (s : FragmentStatus) : bool :=
  match s with Invalid | Obsolete => true | Empty | Valid => false end.
Definition skip_write (s : FragmentStatus) : bool :=
  match s with Valid | Invalid | Obsolete => true | Empty => false end.

Definition find_circular_range (circular : Circular) : MD CircularRange :=
  st ← scan_blocks circular (mkScan None None None 0)
         (flash_blocks_except_spare (circ_obj circular));
  match data_blocks st, first_empty_block st, highest_block st with
  | Some (read, write), _, _ =>
      first_seq_no ← skip_while skip_read read (first_fragment read)
                       (Z.to_nat (fragment_count read));
      last_seq_no ← skip_while skip_write write (first_fragment write)
                      (Z.to_nat (fragment_count write));
      mret (mkCircularRange first_seq_no last_seq_no)
  | None, Some empty, _ =>
      mret (mkCircularRange (first_fragment empty) (first_fragment empty))
  | None, None, Some highest =>
      let to_be_erased := wrapping_add (first_fragment highest) (as_u32 (fragment_count highest)) in
      mret (mkCircularRange to_be_erased to_be_erased)
  | None, None, None => mret (mkCircularRange 0 0)
  end.

(** ** Reading, writing and deleting fragments *)

Definition read_circular_fragment_at_offset (circular : Circular) (frag_no buf_len offset : Z) :
    MD (list Z) :=
  block ← try! (find_block_for_seq_no circular frag_no);
  match block with
  | None => fail Error_FragmentNotReadable
  | Some block => try! (dev_read_fragment_at_offset block frag_no offset buf_len)
  end.

Definition read_circular_fragment (circular : Circular) (frag_no buf_len : Z) : MD (list Z) :=
  read_circular_fragment_at_offset circular frag_no buf_len 0.

Definition initialize_writeable_circular_store : MD InitStatus :=
  initialize_circular_store;; mret Init_Existing.

(** The header of the block to write to; [None] when the block must be formatted first. *)
Definition find_writeable (circular : Circular) (frag_no : Z) : MD (option BlockHeader) :=
  r ← attempt (find_block_for_seq_no circular frag_no);
  match r with
  | inr (FindFail_NotFound block) =>
      if overwrite_on_full circular then mret None
      else
        v ← try! (dev_block_find_valid_fragment block);
        match v with
        | None => mret None
        | Some _ => fail Error_NoSpaceAvailable
        end
  | inr (FindFail_Corrupt block) =>
      if auto_format circular then mret None else fail (from (FindFail_Corrupt block))
  | inr e => fail (from e)
  | inl b => mret b
  end.

Definition format_for (circular : Circular) (frag_no : Z) : MD unit :=
  let o := circ_obj circular in
  block_id ← find_block_no_for_seq_no circular frag_no;
  rel_frag_no ← u32_rem frag_no (as_u32 (fragments_per_block B o));
  if negb (rel_frag_no =? 0) then fail Error_FragmentNotWriteable
  else
    let object_version := 0xFF in
    try! (dev_format_block block_id (obj_id o) object_version (as_u16 (obj_fragment_size o)) frag_no).

(** [for attempt in 0..2], from attempt number [a] on. *)
Fixpoint write_attempts (circular : Circular) (frag_no : Z) (bytes : list Z) (attempts : list Z) :
    MD unit :=
  match attempts with
  | [] => fail Error_FragmentNotWriteable
  | a :: attempts =>
      block_header ← find_writeable circular frag_no;
      match block_header with
      | Some block => try! (dev_write_fragment block frag_no bytes)
      | None =>
          if a =? 0
          then format_for circular frag_no;; write_attempts circular frag_no bytes attempts
          else fail Error_FragmentNotWriteable
      end
  end.

Definition write_circular_fragment (circular : Circular) (frag_no : Z) (bytes : list Z) : MD unit :=
  write_attempts circular frag_no bytes [0; 1].

Definition delete_circular_fragment (circular : Circular) (frag_no : Z) : MD unit :=
  block ← try! (find_block_for_seq_no circular frag_no);
  match block with
  | Some block => try! (dev_delete_fragment block frag_no)
  | None => mret tt
  end.
End circular_store.
