(* ===== verification/CircularFacts.v ===== *)
(** * Circular store: what each operation does to the blocks

    [circ_slot d c n] is the abstract content of fragment [n]: the slot that
    [read_circular_fragment] looks at, when the block in place belongs to the
    circular and to that sequence number. *)

From stdpp Require Import base list list_numbers numbers option.
From S2P Require Import Prelude NorFlash BlockLayer BlockFacts BlockDev FlashDb CircularStore.

Section facts.
Context {D E : Type} (B : Z) `{!BlockDev B D E} `{!BlockDevLaws B D E}.
Context (c : Circular).
Abbreviation o := (circ_obj c).
Abbreviation fpb := (fragments_per_block B o).
Abbreviation dev_step := (flash_step dev_wf dev_healthy dev_blocks dev_block).
Abbreviation same := (dev_step nowhere).
Abbreviation at_block bid := (λ i, i = bid).

(** The block has the layout of this circular. *)
Definition own_layout (b : Block) : bool :=
  (obj_id o =? object_id (blk_hdr b)) && (obj_fragment_size o =? frag_size (blk_hdr b)).

(** The block is the one that stores fragment [n] now. *)
Definition owns (n : Z) (b : Block) : bool :=
  own_layout b && (n =? wrapping_add (first_frag_no (blk_hdr b)) (n mod fpb)).

Definition circ_slot (d : D) (n : Z) : option Slot :=
  b ← dev_block d (block_of B o n); if owns n b then slot_of b n else None.

(** What [find_block_for_seq_no] answers. *)
Definition found (n : Z) (ob : option Block) : caught FindFail (option BlockHeader) :=
  match ob with
  | None => inl None
  | Some b =>
      if negb (own_layout b) then inr (FindFail_Corrupt (blk_hdr b))
      else if negb (owns n b) then inr (FindFail_NotFound (blk_hdr b))
      else inl (Some (blk_hdr b))
  end.

(** The block that stores [n] may be formatted to write [n]: there is none, or
    it is foreign, or it holds older fragments that may go. *)
Definition may_format (n : Z) (ob : option Block) : Prop :=
  match ob with
  | None => True
  | Some b => owns n b = false ∧
      (own_layout b = true →
       overwrite_on_full c = true ∨ Forall (λ s, ¬ is_status Valid s) (blk_slots b)) ∧
      (own_layout b = false → auto_format c = true)
  end.

Context (blocks : Z) (Ho : obj_ok B blocks o).

(** ** Lookup *)

Lemma owns_rel bid n b :
  block_ok B bid b → owns n b = true →
  rel_of (blk_hdr b) n = n mod fpb ∧ frag_count (blk_hdr b) = fpb ∧ frag_size (blk_hdr b) = obj_fragment_size o.
Proof.
  intros Hb Hown. unfold owns, own_layout in Hown.
  apply andb_true_iff in Hown as [[_ Hfs%Z.eqb_eq]%andb_true_iff Hn%Z.eqb_eq].
  split; [|split; [|done]].
  - unfold rel_of. rewrite Hn at 1. apply wrapping_sub_add.
    pose proof (oo_fpb _ _ _ Ho). pose proof (fpb_le B blocks o Ho). pose proof (oo_max _ _ _ Ho) as Hm.
    change MAX_FRAGMENTS_PER_OBJECT with 2147483647 in Hm.
    pose proof (Z.mod_pos_bound n fpb ltac:(lia)). unfold is_u32, u32_size. lia.
  - rewrite (bok_count _ _ _ Hb). unfold fragments_per_block. congruence.
Qed.

Lemma owns_slot bid n b :
  block_ok B bid b → owns n b = true → ∃ s, slot_of b n = Some s.
Proof.
  intros Hb Hown. destruct (owns_rel _ _ _ Hb Hown) as (Hrel & Hc & _).
  unfold slot_of. apply lookup_lt_is_Some. rewrite Hrel.
  pose proof (bok_length _ _ _ Hb) as Hl. unfold len in Hl. rewrite Hc in Hl.
  pose proof (oo_fpb _ _ _ Ho). pose proof (Z.mod_pos_bound n fpb ltac:(lia)). lia.
Qed.

(** Two fragments of one block in the same slot are the same fragment. *)
Lemma owns_inj bid n m b :
  block_ok B bid b → owns n b = true → owns m b = true →
  rel_of (blk_hdr b) n = rel_of (blk_hdr b) m → n = m.
Proof.
  intros Hb Hn Hm Hr. destruct (owns_rel _ _ _ Hb Hn) as [Hrn _].
  destruct (owns_rel _ _ _ Hb Hm) as [Hrm _].
  apply andb_true_iff in Hn as [_ Hn%Z.eqb_eq]. apply andb_true_iff in Hm as [_ Hm%Z.eqb_eq].
  congruence.
Qed.

Lemma wp_find_block_no d n (Q : Z → D → Prop) (R : Error → D → Prop) :
  is_u32 n → Q (block_of B o n) d → wp (find_block_no_for_seq_no B c n) Q R d.
Proof.
  intros Hn HQ. unfold find_block_no_for_seq_no. wp_steps.
  apply (wp_fragment_count B blocks o Ho). wp_steps.
  rewrite (n_frags_u32 B blocks o Ho), (fpb_u32 B blocks o Ho).
  apply wp_u32_rem; [by apply (n_frags_pos B blocks)|]. wp_steps.
  apply wp_u32_div; [apply Ho|].
  pose proof (block_of_in_dev B blocks o Ho n). pose proof (oo_u32 _ _ _ Ho).
  apply wp_u32_add; [|done]. change (obj_start o + _) with (block_of B o n). unfold u32_max, u32_size in *. lia.
Qed.

Lemma wp_find_block d n Q (R : FindFail → D → Prop) :
  dev_wf d → dev_blocks d = blocks → is_u32 n →
  (∀ d' h, same d d' → found n (dev_block d (block_of B o n)) = inl h → Q h d') →
  (∀ d' f, same d d' → found n (dev_block d (block_of B o n)) = inr f → R f d') →
  (∀ d', same d d' → ¬ dev_healthy d → R (FindFail_Other Error_Flash) d') →
  wp (find_block_for_seq_no B c n) Q R d.
Proof.
  intros Hwf Hbl Hn HQ HR HE. unfold find_block_for_seq_no. wp_steps.
  apply wp_find_block_no; [done|]. wp_steps. rewrite (fpb_u32 B blocks o Ho).
  apply wp_u32_rem; [apply Ho|]. wp_steps.
  apply wp_dev_header; [done|rewrite Hbl; by apply block_of_in_dev| |done].
  intros d' Hs. unfold found in *. destruct (dev_block d (block_of B o n)) as [b|]; cbn [fmap option_fmap option_map].
  2: { wp_steps. by apply HQ. }
  unfold owns, own_layout, fragment_size, first_fragment in *.
  destruct (obj_id o =? object_id (blk_hdr b)); cbn [negb andb] in *; [|wp_steps; by apply HR].
  destruct (obj_fragment_size o =? frag_size (blk_hdr b)); cbn [negb andb] in *; [|wp_steps; by apply HR].
  destruct (n =? _); cbn [negb] in *; wp_steps; [by apply HQ|by apply HR].
Qed.

Lemma found_Some n ob h :
  found n ob = inl (Some h) → ∃ b, ob = Some b ∧ h = blk_hdr b ∧ owns n b = true.
Proof.
  unfold found. destruct ob as [b|]; [|done].
  destruct (own_layout b); cbn; [|done]. destruct (owns n b) eqn:Hown; cbn; [|done].
  intros [= <-]. eauto.
Qed.

Lemma found_None n ob : found n ob = inl None → ob = None.
Proof.
  unfold found. destruct ob as [b|]; [|done].
  destruct (own_layout b); cbn; [|done]. by destruct (owns n b).
Qed.

(** The numbering of the block in place does not run over the end of [u32]
    (the code adds with plain [+] when it looks for valid fragments). *)
Definition no_overflow (n : Z) (ob : option Block) : Prop :=
  match ob with
  | None => True
  | Some b => owns n b = true ∨ own_layout b = false ∨
      first_frag_no (blk_hdr b) + frag_count (blk_hdr b) ≤ u32_size
  end.

(** Why a write is refused before anything is written. *)
Definition plan_error (n : Z) (ob : option Block) (e : Error) : Prop :=
  ∃ b, ob = Some b ∧ owns n b = false ∧
    ((own_layout b = true ∧ overwrite_on_full c = false ∧
      ¬ Forall (λ s, ¬ is_status Valid s) (blk_slots b) ∧ e = Error_NoSpaceAvailable) ∨
     (own_layout b = false ∧ auto_format c = false ∧ e = Error_Corrupt)).

Lemma wp_find_writeable d n Q (R : Error → D → Prop) :
  let ob := dev_block d (block_of B o n) in
  dev_wf d → dev_blocks d = blocks → is_u32 n → (overwrite_on_full c = true ∨ no_overflow n ob) →
  (∀ d' b, same d d' → ob = Some b → owns n b = true → Q (Some (blk_hdr b)) d') →
  (∀ d', same d d' → may_format n ob → Q None d') →
  (∀ e d', same d d' → (plan_error n ob e ∨ ¬ dev_healthy d) → R e d') →
  wp (find_writeable B c n) Q R d.
Proof.
  intros ob Hwf Hbl Hn Hov HS HN HR. unfold find_writeable. wp_steps.
  apply wp_find_block; [done..| | |].
  - intros d' h Hs Hf. fold ob in Hf. wp_steps. destruct h as [h|].
    + apply found_Some in Hf as (b & Hb & -> & Hown). by apply HS.
    + apply found_None in Hf. apply HN; [done|]. by rewrite Hf.
  - intros d' f Hs Hf. fold ob in Hf. unfold found in Hf.
    destruct ob as [b|] eqn:Hb; [|done].
    destruct (own_layout b) eqn:Hlay; cbn [negb] in Hf.
    + destruct (owns n b) eqn:Hown; cbn [negb] in Hf; [done|]. injection Hf as <-.
      destruct (overwrite_on_full c) eqn:Hovw.
      { wp_steps. apply HN; [done|]. cbn. rewrite Hlay. split; [done|]. split; [by left|done]. }
      destruct Hov as [?|[?|[?|Hov]]]; [done|congruence..|].
      wp_steps. apply (wp_dev_find_valid d' (block_of B o n)).
      * apply Hs.
      * by rewrite (same_block d).
      * done.
      * intros d2 H2 Hall. wp_steps. apply HN; [by eapply flash_step_trans|]. cbn. rewrite Hlay.
        split; [done|]. split; [by right|done].
      * intros d2 k H2 Hall. wp_steps. apply HR; [by eapply flash_step_trans|]. left.
        exists b. split; [done|]. split; [done|]. left. done.
      * intros e d2 H2 Hh. apply HR; [by eapply flash_step_trans|]. right. intros Hh'. by apply Hh, (fs_healthy Hs).
    + injection Hf as <-. destruct (auto_format c) eqn:Haf; wp_steps.
      * apply HN; [done|]. cbn. unfold owns. rewrite Hlay. split; [done|]. split; [done|done].
      * apply HR; [done|]. left. exists b. split; [done|]. split; [unfold owns; by rewrite Hlay|].
        by right.
  - intros d' Hs Hh. wp_steps. apply HR; [done|]. by right.
Qed.

(** ** Writing *)

(** Slot [n] of an empty slot was written, or torn. *)
Definition slot_written (n : Z) (data : list Z) (b b' : Block) : Prop :=
  owns n b = true ∧ write_check b n data = None ∧
  ∃ s, (is_status Invalid s ∨ holds data s) ∧ b' = set_slot b n s.

Definition new_header (n : Z) : option BlockHeader :=
  try_new B (block_of B o n) (obj_id o) 0xFF (obj_fragment_size o) n.

(** The block was formatted for fragment [n]. *)
Definition reformatted (n : Z) (ob : option Block) (b' : Block) : Prop :=
  may_format n ob ∧ n mod fpb = 0 ∧ ∃ h, new_header n = Some h ∧ b' = fresh_block h.

(** Everything [write_circular_fragment] can do to the block of [n], completed or not. *)
Inductive wrote (n : Z) (data : list Z) (ob ob' : option Block) : Prop :=
| wrote_nothing : ob' = ob → wrote n data ob ob'
| wrote_unformatted : may_format n ob → n mod fpb = 0 → ob' = None → wrote n data ob ob'
| wrote_formatted b : reformatted n ob b → ob' = Some b → wrote n data ob ob'
| wrote_slot b b' : ob = Some b ∨ reformatted n ob b → slot_written n data b b' →
    ob' = Some b' → wrote n data ob ob'.

Lemma new_header_Some n : ∃ h, new_header n = Some h.
Proof.
  unfold new_header, try_new. pose proof (oo_fpb _ _ _ Ho) as Hf. unfold fragments_per_block in Hf.
  destruct (Z.eqb_spec (calculate_fragments_per_block B (obj_fragment_size o)) 0); [lia|]. eauto.
Qed.

Lemma reformatted_owns n ob b :
  is_u32 n → reformatted n ob b → owns n b = true.
Proof.
  intros Hn (_ & Hal & h & Hh & ->). unfold new_header, try_new in Hh. destruct (_ =? 0); [done|].
  injection Hh as <-. unfold owns, own_layout, fresh_block. cbn [blk_hdr object_id frag_size first_frag_no].
  rewrite Hal. unfold wrapping_add. rewrite Z.add_0_r, as_u32_small by done. by rewrite !Z.eqb_refl.
Qed.

Lemma wp_format_for d n (Q : unit → D → Prop) (R : Error → D → Prop) :
  let ob := dev_block d (block_of B o n) in
  dev_wf d → dev_blocks d = blocks → is_u32 n → may_format n ob →
  (∀ d' b, dev_step (at_block (block_of B o n)) d d' → reformatted n ob b →
     dev_block d' (block_of B o n) = Some b → Q tt d') →
  (∀ e d', dev_step (at_block (block_of B o n)) d d' →
     (∀ data, wrote n data ob (dev_block d' (block_of B o n))) →
     (n mod fpb = 0 → ¬ dev_healthy d) → (n mod fpb ≠ 0 → e = Error_FragmentNotWriteable) →
     R e d') →
  wp (format_for B c n) Q R d.
Proof.
  intros ob Hwf Hbl Hn Hmay HQ HR. unfold format_for. wp_steps.
  apply wp_find_block_no; [done|]. wp_steps. rewrite (fpb_u32 B blocks o Ho).
  apply wp_u32_rem; [apply Ho|]. destruct (Z.eqb_spec (n mod fpb) 0) as [Hal|Hal]; cbn [negb]; wp_steps.
  2: { apply HR; [by apply flash_step_refl|intros data; by apply wrote_nothing|done..]. }
  rewrite as_u16_small by apply Ho. destruct (new_header_Some n) as [h0 Hh0].
  apply wp_dev_format; try apply Ho; try done.
  { rewrite Hbl. by apply block_of_in_dev. }
  - intros d' h Hs Hnew Hb. eapply HQ; [done| |exact Hb]. split; [done|]. split; [done|]. by exists h.
  - intros e d' Hs Hhe Hc. apply HR; [done| | |done].
    + intros data. destruct Hc as [Hc|[Hc|(h & Hh & Hc)]].
      * by apply wrote_unformatted.
      * by apply wrote_nothing.
      * eapply wrote_formatted; [|exact Hc]. split; [done|]. split; [done|]. by exists h.
    + intros _ Hhl. destruct (Hhe Hhl) as [Hno _]. unfold new_header in Hh0. congruence.
Qed.

(** Writing to the block in place. *)
Lemma wp_write_in_place d n data b (Q : unit → D → Prop) (R : Error → D → Prop) :
  dev_wf d → dev_block d (block_of B o n) = Some b → owns n b = true → Forall is_u8 data →
  (∀ d' b', dev_step (at_block (block_of B o n)) d d' → write_check b n data = None →
     (∃ s, holds data s ∧ b' = set_slot b n s) → slot_written n data b b' →
     dev_block d' (block_of B o n) = Some b' → Q tt d') →
  (∀ e d' b', dev_step (at_block (block_of B o n)) d d' → (b' = b ∨ slot_written n data b b') →
     dev_block d' (block_of B o n) = Some b' →
     (dev_healthy d → ∃ k, write_check b n data = Some k ∧ e = from (FlashWriteError_Write (E:=E) k)) →
     R e d') →
  wp (try! (dev_write_fragment (blk_hdr b) n data)) Q R d.
Proof.
  intros Hwf Hb Hown Hu HQ HR. wp_steps. apply (wp_dev_write d (block_of B o n)); [done..| | |].
  - intros d' s Hs Hck Hho Hbl. eapply HQ; eauto. split; [done|]. split; [done|]. by eauto.
  - intros e d' k Hs Hck Hbl He. eapply HR; [exact Hs|by left|exact Hbl|].
    intros Hh. exists k. by rewrite (He Hh).
  - intros e d' b' Hs Hck Hh Hbl [->|(s & Hs' & ->)]; (eapply HR; [exact Hs| |exact Hbl|done]); [by left|right].
    split; [done|]. split; [done|]. eauto.
Qed.

(** The error of a write on a device without faults. *)
Definition write_error (n : Z) (data : list Z) (ob : option Block) (e : Error) : Prop :=
  plan_error n ob e ∨
  (may_format n ob ∧ n mod fpb ≠ 0 ∧ e = Error_FragmentNotWriteable) ∨
  (∃ b k, (ob = Some b ∨ reformatted n ob b) ∧ owns n b = true ∧ write_check b n data = Some k ∧
     e = from (FlashWriteError_Write (E:=E) k)).

Lemma wp_write_circular d n data :
  let bid := block_of B o n in
  let ob := dev_block d bid in
  dev_wf d → dev_blocks d = blocks → is_u32 n → (overwrite_on_full c = true ∨ no_overflow n ob) →
  Forall is_u8 data →
  wp (write_circular_fragment B c n data)
     (λ _ d', dev_step (at_block bid) d d' ∧ ∃ b s, (ob = Some b ∨ reformatted n ob b) ∧
        owns n b = true ∧ write_check b n data = None ∧ holds data s ∧
        dev_block d' bid = Some (set_slot b n s))
     (λ e d', dev_step (at_block bid) d d' ∧ wrote n data ob (dev_block d' bid) ∧
        (dev_healthy d → write_error n data ob e)) d.
Proof.
  intros bid ob Hwf Hbl Hn Hov Hu. unfold write_circular_fragment. cbn [write_attempts]. wp_steps.
  apply wp_find_writeable; [done..| | |]; fold bid ob.
  - intros d1 b H1 Hb Hown.
    apply (wp_write_in_place d1); [apply H1|fold bid; rewrite (same_block d d1) by done; exact Hb|done..| |];
      fold bid.
    + intros d2 b' H2 Hck (s & Hho & ->) Hsw Hb2.
      split; [eapply flash_step_trans; [by apply flash_step_nowhere|done]|]. exists b, s. auto.
    + intros e d2 b' H2 Hc Hb2 He. split; [eapply flash_step_trans; [by apply flash_step_nowhere|done]|].
      rewrite Hb2. split.
      * destruct Hc as [->|Hc]; [by apply wrote_nothing|by eapply wrote_slot; [left| |]].
      * intros Hh. right. right. destruct (He (fs_healthy H1 Hh)) as (k & ? & ?). exists b, k. auto.
  - intros d1 H1 Hmay. change (0 =? 0) with true. cbv iota. wp_steps.
    assert (dev_block d1 bid = ob) as Hob1 by (unfold ob; by apply same_block).
    apply wp_format_for; fold bid; rewrite ?Hob1; [apply H1|by rewrite (same_blocks _ _ H1)|done..| |].
    + intros d2 b H2 Hre Hb2. pose proof (reformatted_owns n ob b Hn Hre) as Hown.
      assert (dev_step (at_block bid) d d2) as H02
        by (eapply flash_step_trans; [by apply flash_step_nowhere|done]).
      wp_steps. apply wp_find_writeable; fold bid; rewrite ?Hb2; [apply H2| |done| | | |].
      * by rewrite (same_blocks _ _ H02).
      * right. by left.
      * intros d3 b3 H3 [= <-] _.
        apply (wp_write_in_place d3); [apply H3|fold bid; rewrite (same_block d2 d3) by done; exact Hb2|done..| |];
          fold bid.
        -- intros d4 b' H4 Hck (s & Hho & ->) Hsw Hb4.
           split; [eapply flash_step_trans; [exact H02|]; eapply flash_step_trans; [by apply flash_step_nowhere|done]|].
           exists b, s. auto.
        -- intros e d4 b' H4 Hc Hb4 He.
           split; [eapply flash_step_trans; [exact H02|]; eapply flash_step_trans; [by apply flash_step_nowhere|done]|].
           rewrite Hb4. split.
           ++ destruct Hc as [->|Hc]; [by eapply wrote_formatted|by eapply wrote_slot; [right| |]].
           ++ intros Hh. right. right.
              destruct (He (fs_healthy H3 (fs_healthy H02 Hh))) as (k & ? & ?). exists b, k. auto.
      * intros d3 H3 [Hno _]. congruence.
      * intros e d3 H3 Hc.
        assert (dev_step (at_block bid) d d3) as H03
          by (eapply flash_step_trans; [exact H02|]; by apply flash_step_nowhere).
        split; [done|]. rewrite (same_block d2 d3), Hb2 by done. split; [by eapply wrote_formatted|].
        intros Hh. destruct Hc as [(b' & [= <-] & Hno & _)|Hc]; [congruence|].
        destruct Hc. by apply (fs_healthy H02).
    + intros e d2 H2 Hw He He2. split; [eapply flash_step_trans; [by apply flash_step_nowhere|done]|].
      split; [apply Hw|]. intros Hh. right. left. split; [done|].
      destruct (decide (n mod fpb = 0)) as [Hal|Hal].
      * destruct (He Hal). by apply (fs_healthy H1).
      * split; [done|]. by apply He2.
  - intros e d1 H1 Hc. split; [by apply flash_step_nowhere|].
    split; [apply wrote_nothing; by apply same_block|]. intros Hh. left. by destruct Hc.
Qed.
End facts.
