(* ===== verification/CircularProps.v ===== *)
(** * Circular store: correctness of reading, writing and deleting

    Proved for every block device that satisfies [BlockDevLaws], with faults,
    and instantiated on [BlockDevice] over the in-memory flash. *)

From stdpp Require Import base list list_numbers numbers option.
From S2P Require Import Prelude NorFlash InMemoryFlash BlockLayer BlockFacts BlockProps BlockDev.
From S2P Require Import BlockRefine FlashDb CircularStore CircularFacts.

Section props.
Context {D E : Type} (B : Z) `{!BlockDev B D E} `{!BlockDevLaws B D E}.
Context (c : Circular).
Abbreviation fpb := (fragments_per_block B (circ_obj c)).
Abbreviation dev_step := (flash_step dev_wf dev_healthy dev_blocks dev_block).
Abbreviation same := (dev_step nowhere).
Abbreviation slot_at := (circ_slot (D:=D) (E:=E) B c).
Abbreviation bid n := (block_of B (circ_obj c) n).

Lemma slot_of_set_slot b n s :
  is_Some (slot_of b n) → slot_of (set_slot b n s) n = Some s.
Proof.
  intros Hs. apply lookup_lt_is_Some in Hs. unfold slot_of, set_slot. cbn [blk_hdr blk_slots].
  by rewrite list_lookup_insert_eq.
Qed.

Lemma slot_of_set_slot_ne b n m s :
  rel_of (blk_hdr b) n ≠ rel_of (blk_hdr b) m → slot_of (set_slot b n s) m = slot_of b m.
Proof.
  intros Hne. pose proof (rel_range (blk_hdr b) n) as [? _]. pose proof (rel_range (blk_hdr b) m) as [? _].
  unfold slot_of, set_slot. cbn [blk_hdr blk_slots]. apply list_lookup_insert_ne. lia.
Qed.

(** The content of fragment [m] depends on its block only. *)
Lemma slot_at_same d d' m : dev_block d' (bid m) = dev_block d (bid m) → slot_at d' m = slot_at d m.
Proof. unfold circ_slot. by intros ->. Qed.

Lemma slot_at_set d m b s n :
  obj_ok B (dev_blocks d) (circ_obj c) →
  block_ok B (bid n) b → owns B c n b = true → dev_block d (bid n) = Some (set_slot b n s) →
  (m = n → slot_at d m = Some s) ∧
  (m ≠ n → bid m = bid n → slot_at d m = if owns B c m b then slot_of b m else None).
Proof.
  intros Ho Hb Hown Hd. split.
  - intros ->. unfold circ_slot. rewrite Hd. cbn.
    change (owns B c n (set_slot b n s)) with (owns B c n b). rewrite Hown.
    apply slot_of_set_slot. by eapply owns_slot.
  - intros Hne Hbid. unfold circ_slot. rewrite Hbid, Hd. cbn.
    change (owns B c m (set_slot b n s)) with (owns B c m b).
    destruct (owns B c m b) eqn:Hm; [|done]. apply slot_of_set_slot_ne.
    intros Hr. apply Hne. symmetry. by eapply owns_inj.
Qed.

(** A fragment that cannot be read. *)
Definition unreadable (os : option Slot) : Prop := ∀ ds, os ≠ Some (Valid, ds).

Lemma fresh_slot h n s : slot_of (fresh_block h) n = Some s → s.1 = Empty.
Proof.
  unfold slot_of, fresh_block. cbn [blk_slots blk_hdr]. by intros [-> _]%lookup_replicate.
Qed.

Lemma may_format_not_owned n b : may_format B c n (Some b) → owns B c n b = false.
Proof. by intros [? _]. Qed.

(** The block after formatting is a block of the device. *)
Lemma reformatted_ok n ob b blocks :
  obj_ok B blocks (circ_obj c) → is_u32 n → reformatted B c n ob b → block_ok B (bid n) b.
Proof.
  intros Ho Hn (_ & _ & h & Hh & ->). unfold new_header, try_new in Hh.
  pose proof (oo_fpb _ _ _ Ho) as Hf. unfold fragments_per_block in Hf.
  destruct (_ =? 0); [done|]. injection Hh as <-.
  split; cbn [blk_hdr fresh_block id frag_size first_frag_no frag_count blk_slots];
    [done|apply Ho|done|done|done|..].
  - unfold len. rewrite length_replicate. lia.
  - apply Forall_replicate. split; cbn [fst snd]; [|done].
    unfold len. rewrite length_replicate. pose proof (oo_fs _ _ _ Ho) as [? _]. lia.
Qed.

(** C5: a circular write is fail-safe.  Whatever the device does, the call does
    not panic, touches only the block of [n], and leaves fragment [n] as it was,
    unreadable, or holding exactly the new data; [Ok] means the last. *)
Theorem write_circular_atomic d n data r d' :
  dev_wf d → obj_ok B (dev_blocks d) (circ_obj c) → is_u32 n → Forall is_u8 data →
  (overwrite_on_full c = true ∨ no_overflow B c n (dev_block d (bid n))) →
  write_circular_fragment B c n data d = (r, d') →
  r ≠ Panic ∧ dev_wf d' ∧
  (∀ i, i ≠ bid n → dev_block d' i = dev_block d i) ∧
  (slot_at d' n = slot_at d n ∨ unreadable (slot_at d' n) ∨
   ∃ s, slot_at d' n = Some s ∧ holds data s) ∧
  (r = Ok tt → ∃ s, slot_at d' n = Some s ∧ holds data s).
Proof.
  intros Hwf Ho Hn Hu Hov Hrun.
  pose proof (wp_run _ _ _ _ _ _ (wp_write_circular B c _ Ho d n data Hwf eq_refl Hn Hov Hu) Hrun) as Hp.
  cbv zeta in Hp.
  assert (∀ P, dev_step P d d' → dev_wf d' ∧ obj_ok B (dev_blocks d') (circ_obj c)) as Hstep.
  { intros P Hs. split; [apply Hs|]. by rewrite (same_blocks _ _ Hs). }
  assert (∀ b, dev_block d (bid n) = Some b ∨ reformatted B c n (dev_block d (bid n)) b → block_ok B (bid n) b) as Hbok.
  { intros b [Hb|Hre]; [by eapply dev_block_ok|by eapply reformatted_ok]. }
  destruct r as [[]|e|]; [| |done].
  - destruct Hp as (Hs & b & s & Hb & Hown & _ & Hho & Hd). destruct (Hstep _ Hs) as [? Ho'].
    destruct (slot_at_set d' n b s n Ho' (Hbok _ Hb) Hown Hd) as [Hsl _].
    split; [done|]. split; [done|]. split; [intros; by eapply step_other|].
    split; [right; right|intros _]; exists s; auto.
  - destruct Hp as (Hs & Hw & _). destruct (Hstep _ Hs) as [? Ho'].
    split; [done|]. split; [done|]. split; [intros; by eapply step_other|]. split; [|done].
    destruct Hw as [Hw|Hmay Hal Hw|b Hre Hw|b b' Hb (Hown & _ & s & Hc & ->) Hw].
    + left. by apply slot_at_same.
    + right. left. intros ds. unfold circ_slot. by rewrite Hw.
    + right. left. intros ds. unfold circ_slot. rewrite Hw. cbn. destruct (owns B c n b); [|done].
      destruct Hre as (_ & _ & h & _ & ->). by intros ?%fresh_slot.
    + destruct (slot_at_set d' n b s n Ho' (Hbok _ Hb) Hown Hw) as [Hsl _]. rewrite Hsl by done.
      right. destruct Hc as [Hc|Hc]; [left|right; eauto]. intros ds [= ->]. done.
Qed.

(** C6: a circular write never loses data it may not overwrite.  Any other
    fragment that is readable stays readable with the same content, unless
    [overwrite_on_full] is set, [n] starts a new block and the fragment lives in
    the block being recycled. *)
Theorem write_circular_no_data_loss d n data r d' m ds :
  dev_wf d → obj_ok B (dev_blocks d) (circ_obj c) → is_u32 n → Forall is_u8 data →
  (overwrite_on_full c = true ∨ no_overflow B c n (dev_block d (bid n))) →
  write_circular_fragment B c n data d = (r, d') →
  m ≠ n → slot_at d m = Some (Valid, ds) →
  slot_at d' m = Some (Valid, ds) ∨
  (overwrite_on_full c = true ∧ bid m = bid n ∧ n mod fpb = 0).
Proof.
  intros Hwf Ho Hn Hu Hov Hrun Hne Hm.
  pose proof (wp_run _ _ _ _ _ _ (wp_write_circular B c _ Ho d n data Hwf eq_refl Hn Hov Hu) Hrun) as Hp.
  cbv zeta in Hp.
  assert (∃ P, dev_step P d d') as [P Hs] by (destruct r as [[]|e|]; [destruct Hp; eauto..|done]).
  assert (obj_ok B (dev_blocks d') (circ_obj c)) as Ho' by (by rewrite (same_blocks _ _ Hs)).
  destruct (decide (bid m = bid n)) as [Hbid|Hbid].
  2: { left. rewrite <-Hm. apply slot_at_same.
    destruct r as [[]|e|]; [| |done]; destruct Hp as [Hs' _]; by eapply step_other. }
  assert (∃ b0, dev_block d (bid n) = Some b0 ∧ owns B c m b0 = true ∧ slot_of b0 m = Some (Valid, ds))
    as (b0 & Hb0 & Hown0 & Hsl0).
  { unfold circ_slot in Hm. rewrite Hbid in Hm. destruct (dev_block d (bid n)) as [b0|]; [|done].
    cbn in Hm. destruct (owns B c m b0) eqn:?; [|done]. eauto. }
  assert (may_format B c n (dev_block d (bid n)) → overwrite_on_full c = true) as Hmay.
  { rewrite Hb0. intros (_ & Hall & _). destruct Hall as [?|Hall]; [|done|].
    { unfold owns in Hown0. by destruct (own_layout c b0). }
    rewrite Forall_lookup in Hall. by destruct (Hall _ _ Hsl0). }
  assert (∀ b s, dev_block d (bid n) = Some b ∨ reformatted B c n (dev_block d (bid n)) b →
    owns B c n b = true → dev_block d' (bid n) = Some (set_slot b n s) →
    slot_at d' m = Some (Valid, ds) ∨ overwrite_on_full c = true ∧ bid m = bid n ∧ n mod fpb = 0) as Hset.
  { intros b s [Hb|(Hmf & Hal & _)] Hown Hd; [left|right; by auto]. assert (b = b0) as -> by congruence.
    destruct (slot_at_set d' m b0 s n Ho') as [_ Hother]; [by eapply dev_block_ok|done..|].
    rewrite Hother by done. by rewrite Hown0. }
  destruct r as [[]|e|]; [| |done].
  - destruct Hp as (_ & b & s & Hb & Hown & _ & _ & Hd). by eapply Hset.
  - destruct Hp as (_ & Hw & _).
    destruct Hw as [Hw|Hmf Hal Hw|b (Hmf & Hal & _) Hw|b b' Hb (Hown & _ & s & Hc & ->) Hw].
    + left. rewrite <-Hm. apply slot_at_same. by rewrite Hbid.
    + right. auto.
    + right. auto.
    + by eapply Hset.
Qed.

(** ** Reading back *)

Lemma wp_read_circular_at d n off rl Q (R : Error → D → Prop) :
  dev_wf d → obj_ok B (dev_blocks d) (circ_obj c) → is_u32 n →
  0 ≤ off ≤ obj_fragment_size (circ_obj c) → 0 ≤ rl →
  (∀ d' ds, same d d' → slot_at d n = Some (Valid, ds) →
     Q (slice off (off + Z.min rl (obj_fragment_size (circ_obj c) - off)) ds) d') →
  (∀ e d', same d d' → ¬ dev_healthy d ∨ unreadable (slot_at d n) → R e d') →
  wp (read_circular_fragment_at_offset B c n rl off) Q R d.
Proof.
  intros Hwf Ho Hn Hoff Hrl HQ HR. unfold read_circular_fragment_at_offset. wp_steps.
  apply (wp_find_block B c _ Ho); [done..| | |].
  - intros d1 [h|] H1 Hf.
    + apply found_Some in Hf as (b & Hb & -> & Hown).
      assert (slot_at d n = slot_of b n) as Hsl by (unfold circ_slot; rewrite Hb; cbn; by rewrite Hown).
      destruct (dev_block_ok _ _ _ Hwf Hb) as [_ Hbok].
      destruct (owns_rel B c _ Ho _ _ _ Hbok Hown) as (_ & _ & Hfs).
      destruct (bok_frag_size _ _ _ Hbok) as [Hfs0 _].
      wp_steps. apply (wp_dev_read d1 (bid n)); [apply H1|by rewrite (same_block d)|lia|done|..].
      * intros d2 ds H2 Hs. rewrite Hfs. apply HQ; [by eapply flash_step_trans|].
        by rewrite Hsl.
      * intros d2 k H2 Hk. apply HR; [by eapply flash_step_trans|]. right. rewrite Hsl.
        by intros ds Hs; rewrite Hs in Hk.
      * intros e d2 H2 Hh. apply HR; [by eapply flash_step_trans|]. left.
        intros ?. by apply Hh, (fs_healthy H1).
    + apply found_None in Hf. wp_steps. apply HR; [done|]. right. intros ds.
      unfold circ_slot. by rewrite Hf.
  - intros d1 f H1 Hf. apply HR; [done|]. right. intros ds. unfold circ_slot.
    unfold found in Hf. destruct (dev_block d (bid n)) as [b|]; [|done]. cbn.
    destruct (owns B c n b) eqn:Hown; [|done].
    unfold owns in Hown. by destruct (own_layout c b).
  - intros d1 H1 Hh. apply HR; [done|]. by left.
Qed.

Lemma wp_read_circular d n rl Q (R : Error → D → Prop) :
  dev_wf d → obj_ok B (dev_blocks d) (circ_obj c) → is_u32 n → 0 ≤ rl →
  (∀ d' ds, same d d' → slot_at d n = Some (Valid, ds) →
     Q (slice 0 (Z.min rl (obj_fragment_size (circ_obj c))) ds) d') →
  (∀ e d', same d d' → ¬ dev_healthy d ∨ unreadable (slot_at d n) → R e d') →
  wp (read_circular_fragment B c n rl) Q R d.
Proof.
  intros Hwf Ho Hn Hrl HQ HR. pose proof (oo_fs _ _ _ Ho) as [? _].
  apply wp_read_circular_at; [done..|lia|done| |done].
  intros d' ds. rewrite Z.add_0_l, Z.sub_0_r. apply HQ.
Qed.

(** Fragment [n] can be written: its slot is empty, or it starts a block that may be formatted. *)
Definition writeable (d : D) (n : Z) (data : list Z) : Prop :=
  len data ≤ obj_fragment_size (circ_obj c) ∧
  ((∃ b ds, dev_block d (bid n) = Some b ∧ owns B c n b = true ∧ slot_of b n = Some (Empty, ds)) ∨
   (may_format B c n (dev_block d (bid n)) ∧ n mod fpb = 0)).

Lemma writeable_no_error d n data e :
  dev_wf d → obj_ok B (dev_blocks d) (circ_obj c) → is_u32 n → writeable d n data →
  ¬ write_error B c (E:=E) n data (dev_block d (bid n)) e.
Proof.
  intros Hwf Ho Hn [Hlen Hw] [(b & Hb & Hown & Hc)|[(Hmay & Hal & _)|(b & k & Hb & Hown & Hck & _)]].
  - rewrite Hb in Hw. destruct Hw as [(b' & ds & [= <-] & ? & _)|[(_ & H1 & H2) _]]; [congruence|].
    destruct Hc as [(Hl & Ho1 & Hv & _)|(Hl & Ha & _)].
    + destruct (H1 Hl); [congruence|done].
    + specialize (H2 Hl). congruence.
  - destruct Hw as [(b' & ds & Hb' & ? & _)|[_ ?]]; [|done]. rewrite Hb' in Hmay.
    destruct Hmay as [? _]. congruence.
  - assert (block_ok B (bid n) b) as Hbok
      by (destruct Hb as [Hb|Hre]; [by eapply dev_block_ok|by eapply reformatted_ok]).
    destruct (owns_rel B c _ Ho _ _ _ Hbok Hown) as (_ & _ & Hfs).
    assert (∃ s, slot_of b n = Some s ∧ s.1 = Empty) as ([st ds] & Hs & Hst).
    { destruct Hb as [Hb|Hre].
      - destruct Hw as [(b' & ds & Hb' & _ & Hs)|[Hmay _]].
        + assert (b' = b) as -> by congruence. eauto.
        + rewrite Hb in Hmay. destruct Hmay as [? _]. congruence.
      - destruct (owns_slot B c _ Ho _ _ _ Hbok Hown) as [s Hs]. exists s. split; [done|].
        destruct Hre as (_ & _ & h & _ & ->). by eapply fresh_slot. }
    cbn in Hst. subst st. unfold write_check in Hck. rewrite Hfs, Hs in Hck.
    by rewrite (proj2 (Z.ltb_ge _ _)) in Hck by lia.
Qed.

(** What is written to the circular store reads back.  On a device without
    pending faults, writing a fragment that can be written succeeds, and
    reading it returns the data. *)
Theorem write_circular_read d n data :
  dev_wf d → dev_healthy d → obj_ok B (dev_blocks d) (circ_obj c) → is_u32 n → Forall is_u8 data →
  (overwrite_on_full c = true ∨ no_overflow B c n (dev_block d (bid n))) →
  writeable d n data →
  ∃ d1 d2, write_circular_fragment B c n data d = (Ok tt, d1) ∧
    read_circular_fragment B c n (len data) d1 = (Ok data, d2).
Proof.
  intros Hwf Hh Ho Hn Hu Hov Hw.
  destruct (write_circular_fragment B c n data d) as [r d1] eqn:Hrun.
  pose proof (wp_run _ _ _ _ _ _ (wp_write_circular B c _ Ho d n data Hwf eq_refl Hn Hov Hu) Hrun) as Hp.
  cbv zeta in Hp. destruct r as [[]|e|]; [| |done].
  2: { destruct Hp as (_ & _ & He). by destruct (writeable_no_error d n data e Hwf Ho Hn Hw (He Hh)). }
  destruct Hp as (Hs & b & [st ds] & Hb & Hown & _ & [Hst Hds] & Hd). cbn in Hst, Hds. subst st.
  assert (obj_ok B (dev_blocks d1) (circ_obj c)) as Ho1 by (by rewrite (same_blocks _ _ Hs)).
  assert (block_ok B (bid n) b) as Hbok
    by (destruct Hb as [Hb|Hre]; [by eapply dev_block_ok|by eapply reformatted_ok]).
  destruct (slot_at_set d1 n b (Valid, ds) n Ho1 Hbok Hown Hd) as [Hsl _]. specialize (Hsl eq_refl).
  assert (wp (read_circular_fragment B c n (len data)) (λ bs _, bs = data) (λ _ _, False) d1) as Hrd.
  { apply wp_read_circular; [apply Hs|done|done|apply len_nonneg| |].
    - intros d2 ds' H2 Hs'. rewrite Hsl in Hs'. injection Hs' as <-.
      rewrite Z.min_l by (destruct Hw; lia). done.
    - intros e d2 H2 [Hno|Hun]; [by apply Hno, (fs_healthy Hs)|]. by apply (Hun ds). }
  apply wp_ok in Hrd as (bs & d2 & Hrd & ->). eauto.
Qed.

(** Deleting a fragment.  Under any device fault the call does not panic,
    every other fragment is exactly as before, and the fragment keeps its
    content or becomes unreadable; after [Ok] it is unreadable. *)
Theorem delete_circular_spec d n r d' :
  dev_wf d → obj_ok B (dev_blocks d) (circ_obj c) → is_u32 n →
  delete_circular_fragment B c n d = (r, d') →
  r ≠ Panic ∧ dev_wf d' ∧ (∀ m, m ≠ n → slot_at d' m = slot_at d m) ∧
  (slot_at d' n = slot_at d n ∨ unreadable (slot_at d' n)) ∧
  (r = Ok tt → unreadable (slot_at d' n)).
Proof.
  intros Hwf Ho Hn Hrun.
  assert (wp (delete_circular_fragment B c n)
    (λ _ d', dev_wf d' ∧ (∀ m, m ≠ n → slot_at d' m = slot_at d m) ∧ unreadable (slot_at d' n))
    (λ _ d', dev_wf d' ∧ (∀ m, m ≠ n → slot_at d' m = slot_at d m) ∧
       (slot_at d' n = slot_at d n ∨ unreadable (slot_at d' n))) d) as Hp.
  2: { apply (wp_run _ _ _ _ _ _ Hp) in Hrun. destruct r as [[]|e|]; [| |done];
       destruct Hrun as (? & ? & ?); split_and!; auto; done. }
  assert (∀ d1 m, same d d1 → slot_at d1 m = slot_at d m) as Hsame.
  { intros. by apply slot_at_same, same_block. }
  unfold delete_circular_fragment. wp_steps. apply (wp_find_block B c _ Ho); [done..| | |].
  - intros d1 [h|] H1 Hf.
    2: { apply found_None in Hf. wp_steps. split; [apply H1|]. split; [auto|]. intros ds.
      rewrite Hsame by done. unfold circ_slot. by rewrite Hf. }
    apply found_Some in Hf as (b & Hb & -> & Hown).
    destruct (dev_block_ok _ _ _ Hwf Hb) as [_ Hbok].
    destruct (owns_slot B c _ Ho _ _ _ Hbok Hown) as [[st ds] Hsl].
    assert (dev_block d1 (bid n) = Some b) as Hb1 by (by rewrite (same_block d)).
    assert (∀ d2 s, dev_step (λ i, i = bid n) d1 d2 → dev_block d2 (bid n) = Some (set_slot b n s) →
      dev_wf d2 ∧ (∀ m, m ≠ n → slot_at d2 m = slot_at d m) ∧ slot_at d2 n = Some s) as Hset.
    { intros d2 s H2 Hd2. assert (obj_ok B (dev_blocks d2) (circ_obj c)) as Ho2.
      { by rewrite (same_blocks _ _ H2), (same_blocks _ _ H1). }
      split; [apply H2|]. split; [|by eapply slot_at_set].
      intros m Hm. destruct (decide (bid m = bid n)) as [Hbid|Hbid].
      - destruct (slot_at_set d2 m b s n Ho2 Hbok Hown Hd2) as [_ ->]; [|done..].
        unfold circ_slot. rewrite Hbid, Hb. done.
      - rewrite <-(Hsame d1) by done. apply slot_at_same. by eapply step_other. }
    wp_steps. eapply wp_mono; [by apply (dev_delete_law d1 (bid n)); [apply H1|]| |]; cbv beta; rewrite Hsl.
    + intros [] d2 (H2 & st' & ds' & [= <- <-] & Hd2). destruct (Hset _ _ H2 Hd2) as (? & ? & ->).
      split; [done|]. split; [done|]. intros ds'. by destruct st.
    + intros e d2 (H2 & _ & st' & Hst & Hd2). destruct (Hset _ _ H2 Hd2) as (? & ? & ->).
      split; [done|]. split; [done|].
      assert (slot_at d n = Some (st, ds)) as -> by (unfold circ_slot; rewrite Hb; cbn; by rewrite Hown).
      destruct Hst as [->|Hst]; [by left|right]. intros ds'. by destruct Hst as [-> | ->].
  - intros d1 f H1 _. split; [apply H1|]. split; [auto|]. left. by apply Hsame.
  - intros d1 H1 _. split; [apply H1|]. split; [auto|]. left. by apply Hsame.
Qed.
End props.

(** ** Instances

    A ring of three 64-byte blocks with four 8-byte fragments each, over the
    in-memory flash; fragments 0 and 1 written. *)

Module DemoCirc.
Import Demo DemoDev.

Definition circ (overwrite : bool) : Circular :=
  mkCircular (mkObject 7 8 0 4 None) overwrite true.

Lemma circ_ok overwrite : obj_ok 64 4 (circ_obj (circ overwrite)).
Proof. split; vm_compute; intuition congruence. Qed.

Definition ring0 : BlockDevice InMemoryFlash := dev0.
Definition ring2 : BlockDevice InMemoryFlash := Eval vm_compute in
  run (write_circular_fragment 64 (circ false) 1 [4; 5])
    (run (write_circular_fragment 64 (circ false) 0 [1; 2; 3]) ring0).
Definition ring2_faulty : BlockDevice InMemoryFlash :=
  set_flash (trigger_write_error_after 2 (mkMockError Other) (flash ring2)) ring2.
End DemoCirc.
Import Demo DemoDev DemoCirc.

Lemma write_circular_atomic_witness :
  ∃ d', write_circular_fragment 64 (circ false) 2 [9; 8] ring2_faulty =
      (Err Error_Flash, d') ∧ dev_wf d'.
Proof.
  eexists. split; [vm_compute; reflexivity|].
  eapply (write_circular_atomic 64 (circ false) ring2_faulty 2 [9; 8]);
    [by apply demo_ok|apply circ_ok|done|by apply u8s|by left + (right; vm_compute; intuition congruence)|
     vm_compute; reflexivity].
Defined.

Lemma write_circular_no_data_loss_witness :
  ∃ d', write_circular_fragment 64 (circ false) 2 [9; 8] ring2_faulty = (Err Error_Flash, d') ∧
    (circ_slot 64 (circ false) d' 1 = Some (Valid, [4; 5; 255; 255; 255; 255; 255; 255]) ∨
     (overwrite_on_full (circ false) = true ∧ block_of 64 (circ_obj (circ false)) 1 =
        block_of 64 (circ_obj (circ false)) 2 ∧
      2 mod fragments_per_block 64 (circ_obj (circ false)) = 0)).
Proof.
  eexists. split; [vm_compute; reflexivity|].
  eapply (write_circular_no_data_loss 64 (circ false) ring2_faulty 2 [9; 8]);
    [by apply demo_ok|apply circ_ok|done|by apply u8s|right; by left|
     vm_compute; reflexivity|done|vm_compute; reflexivity].
Defined.

Lemma write_circular_read_witness :
  ∃ d1 d2, write_circular_fragment 64 (circ false) 4 [9; 8] ring2 = (Ok tt, d1) ∧
    read_circular_fragment 64 (circ false) 4 2 d1 = (Ok [9; 8], d2).
Proof.
  apply (write_circular_read 64 (circ false) ring2 4 [9; 8]);
    [by apply demo_ok|done|apply circ_ok|done|by apply u8s|right; exact I|].
  split; [done|]. right. split; [exact I|done].
Defined.

Lemma delete_circular_spec_witness :
  ∃ d', delete_circular_fragment 64 (circ false) 0 ring2 = (Ok tt, d') ∧
    unreadable (circ_slot 64 (circ false) d' 0).
Proof.
  eexists. split; [vm_compute; reflexivity|].
  apply (delete_circular_spec 64 (circ false) ring2 0 (Ok tt) _
    ltac:(by apply demo_ok) ltac:(apply circ_ok) ltac:(done) ltac:(vm_compute; reflexivity)). done.
Defined.
