(* ===== verification/CircularScan.v ===== *)
(** * Circular store: the scan that recovers the range

    [find_circular_range] on a device without faults is a pure function of the
    blocks: each block of the circular is classified by the reverse search over
    its fragments, and the scan keeps the lowest and highest block with data,
    the lowest empty block and the highest block. *)

From stdpp Require Import base list list_numbers numbers option.
From S2P Require Import Prelude NorFlash BlockLayer BlockFacts BlockDev FlashDb CircularStore.
From S2P Require Import CircularFacts.

(** What the reverse search finds out about a block. *)
Inductive Kind : Type := NoData | HasData | IsEmpty.

(** [sts]: the statuses of the fragments, last one first. *)
Fixpoint kind_rev (first : FragmentStatus) (sts : list FragmentStatus) : Kind :=
  match sts with
  | [] => NoData
  | Invalid :: sts => kind_rev first sts
  | Valid :: _ => HasData
  | Obsolete :: _ => NoData
  | Empty :: _ => match first with Empty => IsEmpty | _ => HasData end
  end.

Definition first_status (b : Block) : FragmentStatus := default Empty (fst <$> blk_slots b !! 0%nat).
Definition block_kind (b : Block) : Kind := kind_rev (first_status b) (reverse ((blk_slots b).*1)).

(** Sequence numbers that are close compare as integers. *)
Definition near (a b : Z) : Prop :=
  is_u32 a ∧ is_u32 b ∧ Z.abs (a - b) < MAX_FRAGMENTS_PER_OBJECT.

Lemma fragment_gte_near a b : near a b → fragment_gte a b = (b <=? a).
Proof.
  intros ([? ?] & [? ?] & Hab). change MAX_FRAGMENTS_PER_OBJECT with 2147483647 in *.
  unfold fragment_gte, wrapping_sub, as_u32. change MAX_FRAGMENTS_PER_OBJECT with 2147483647.
  unfold u32_size in *.
  destruct (Z.leb_spec b a).
  - rewrite Z.mod_small by lia. apply Z.ltb_lt. lia.
  - rewrite <-(Z.mod_add (a - b) 1), Z.mod_small by lia. apply Z.ltb_ge. lia.
Qed.

(** The scan step for a block of the circular with header [h] and kind [k]. *)
Definition scan_step (st : Scan) (h : BlockHeader) (k : Kind) : Scan :=
  mkScan
    (match k with HasData => update_data_blocks (data_blocks st) h | _ => data_blocks st end)
    (match k with
     | IsEmpty => get_or_insert_update (first_empty_block st) h (λ cur,
         negb (fragment_gte (first_fragment h) (first_fragment cur)))
     | _ => first_empty_block st
     end)
    (get_or_insert_update (highest_block st) h (λ cur,
       fragment_gte (first_fragment h) (first_fragment cur)))
    (foreign_blocks st).

(** What the scan knows after the blocks [hs]. *)
Record scan_inv (hs : list (BlockHeader * Kind)) (st : Scan) : Prop := {
  si_data : match data_blocks st with
    | None => ∀ h, (h, HasData) ∉ hs
    | Some (rd, wr) => (rd, HasData) ∈ hs ∧ (wr, HasData) ∈ hs ∧
        ∀ h, (h, HasData) ∈ hs → first_frag_no rd ≤ first_frag_no h ≤ first_frag_no wr
    end;
  si_empty : match first_empty_block st with
    | None => ∀ h, (h, IsEmpty) ∉ hs
    | Some e => (e, IsEmpty) ∈ hs ∧ ∀ h, (h, IsEmpty) ∈ hs → first_frag_no e ≤ first_frag_no h
    end;
  si_high : match highest_block st with
    | None => hs = []
    | Some t => (∃ k, (t, k) ∈ hs) ∧ ∀ h k, (h, k) ∈ hs → first_frag_no h ≤ first_frag_no t
    end;
}.

Lemma scan_inv_init n : scan_inv [] (mkScan None None None n).
Proof. split; cbn; try done; intros h; apply not_elem_of_nil. Qed.

Lemma scan_inv_foreign hs st n :
  scan_inv hs st → scan_inv hs (mkScan (data_blocks st) (first_empty_block st) (highest_block st) n).
Proof. by intros []. Qed.

(** Choosing between the current block and the new one keeps the extremum. *)
Lemma scan_inv_step hs st h k :
  (∀ h' k', (h', k') ∈ hs → near (first_frag_no h) (first_frag_no h')) →
  is_u32 (first_frag_no h) →
  scan_inv hs st → scan_inv ((h, k) :: hs) (scan_step st h k).
Proof.
  intros Hnear Hu [Hd He Hh]. unfold first_fragment in *.
  assert (near (first_frag_no h) (first_frag_no h)) as Hself by (split; [done|]; split; [done|]; rewrite Z.sub_diag; done).
  split; cbn [scan_step data_blocks first_empty_block highest_block]; unfold first_fragment.
  - destruct k.
    1,3: destruct (data_blocks st) as [[rd wr]|]; [|intros h' [?|?]%elem_of_cons; [done|by eapply Hd]];
      destruct Hd as (H1 & H2 & H3); split; [by right|]; split; [by right|];
      intros h' [?|?]%elem_of_cons; [done|by apply H3].
    unfold update_data_blocks, first_fragment. destruct (data_blocks st) as [[rd wr]|]; cbn -[fragment_gte].
    2: { rewrite fragment_gte_near, Z.leb_refl by done. cbn. split; [by left|]. split; [by left|].
      intros h' [[= ->]|?]%elem_of_cons; [lia|by destruct (Hd h')]. }
    destruct Hd as (H1 & H2 & H3). rewrite !fragment_gte_near by (by eapply Hnear).
    split; [|split].
    + destruct (_ <=? _); cbn; [by right|by left].
    + destruct (_ <=? _); cbn; [by left|by right].
    + intros h' Hin. specialize (H3 h'). apply elem_of_cons in Hin as [[= ->]|Hin]; [clear H3|specialize (H3 Hin)];
        destruct (Z.leb_spec (first_frag_no rd) (first_frag_no h)), (Z.leb_spec (first_frag_no wr) (first_frag_no h));
        cbn [negb]; try lia.
  - destruct k.
    1,2: destruct (first_empty_block st) as [e|]; [|intros h' [?|?]%elem_of_cons; [done|by eapply He]];
      destruct He as (H1 & H2); split; [by right|]; intros h' [?|?]%elem_of_cons; [done|by apply H2].
    unfold get_or_insert_update. destruct (first_empty_block st) as [e|]; cbn -[fragment_gte].
    2: { rewrite fragment_gte_near, Z.leb_refl by done. cbn. split; [by left|].
      intros h' [[= ->]|?]%elem_of_cons; [lia|by destruct (He h')]. }
    destruct He as (H1 & H2). rewrite fragment_gte_near by (by eapply Hnear). split.
    + destruct (_ <=? _); cbn; [by right|by left].
    + intros h' Hin. specialize (H2 h'). apply elem_of_cons in Hin as [[= ->]|Hin]; [clear H2|specialize (H2 Hin)];
        destruct (Z.leb_spec (first_frag_no e) (first_frag_no h)); cbn [negb]; lia.
  - unfold get_or_insert_update. destruct (highest_block st) as [t|]; cbn -[fragment_gte].
    2: { subst hs. rewrite fragment_gte_near, Z.leb_refl by done. split; [exists k; by left|].
      intros h' k' [[= -> ->]|?%not_elem_of_nil]%elem_of_cons; [lia|done]. }
    destruct Hh as ((k0 & H1) & H2). rewrite fragment_gte_near by (by eapply Hnear). split.
    + destruct (_ <=? _); [exists k; by left|exists k0; by right].
    + intros h' k' Hin. specialize (H2 h' k'). apply elem_of_cons in Hin as [[= -> ->]|Hin]; [clear H2|specialize (H2 Hin)];
        destruct (Z.leb_spec (first_frag_no t) (first_frag_no h)); lia.
Qed.

Section scan.
Context {D E : Type} (B : Z) `{!BlockDev B D E} `{!BlockDevLaws B D E}.
Context (c : Circular).
Abbreviation dev_step := (flash_step dev_wf dev_healthy dev_blocks dev_block).
Abbreviation same := (dev_step nowhere).

Lemma rel_of_rev h i :
  0 ≤ i < frag_count h → frag_count h < u32_size →
  rel_of h (wrapping_sub (last_fragment h) (as_u32 i)) = frag_count h - 1 - i.
Proof.
  intros Hi Hc. unfold rel_of, last_fragment, fragment_count, saturating_sub.
  rewrite !as_u32_small by (unfold is_u32; lia). rewrite Z.max_r by lia.
  unfold wrapping_sub, wrapping_add, as_u32.
  rewrite Zminus_mod_idemp_l, <-Z.sub_add_distr, Zminus_mod_idemp_l.
  replace (first_frag_no h + (frag_count h - 1) - (i + first_frag_no h)) with (frag_count h - 1 - i) by lia.
  apply Z.mod_small. lia.
Qed.

Lemma rel_of_first h : rel_of h (first_frag_no h) = 0.
Proof. unfold rel_of, wrapping_sub. by rewrite Z.sub_diag. Qed.

Lemma reverse_lookup {A} (l : list A) i : (i < length l)%nat → reverse l !! i = l !! (length l - 1 - i)%nat.
Proof. intros. rewrite reverse_lookup by done. f_equal. lia. Qed.

Definition is_data (k : Kind) : bool := match k with HasData => true | _ => false end.
Definition empty_update (k : Kind) (fe : option BlockHeader) (h : BlockHeader) : option BlockHeader :=
  match k with
  | IsEmpty => get_or_insert_update fe h (λ cur, negb (fragment_gte (first_fragment h) (first_fragment cur)))
  | _ => fe
  end.

Lemma wp_scan_fragments m : ∀ d bid b i fe Q (R : Error → D → Prop),
  dev_wf d → dev_healthy d → dev_block d bid = Some b → frag_count (blk_hdr b) < u32_size →
  0 ≤ i → i + Z.of_nat m = frag_count (blk_hdr b) →
  (∀ d', same d d' →
     let k := kind_rev (first_status b) (drop (Z.to_nat i) (reverse ((blk_slots b).*1))) in
     Q (is_data k, empty_update k fe (blk_hdr b)) d') →
  wp (scan_fragments B (blk_hdr b) fe (seqZ i (Z.of_nat m))) Q R d.
Proof.
  induction m as [|m IH]; intros d bid b i fe Q R Hwf Hh Hb Hc Hi Him HQ.
  { cbn [seqZ]. change (seqZ i (Z.of_nat 0)) with (@nil Z). cbn [scan_fragments]. wp_steps.
    specialize (HQ d ltac:(by apply flash_step_refl)). rewrite drop_ge in HQ; [done|].
    destruct (dev_block_ok _ _ _ Hwf Hb) as [_ Hbok]. pose proof (bok_length _ _ _ Hbok).
    rewrite length_reverse, length_fmap. unfold len in *. lia. }
  destruct (dev_block_ok _ _ _ Hwf Hb) as [_ Hbok]. pose proof (bok_length _ _ _ Hbok) as Hlen.
  unfold len in Hlen.
  rewrite seqZ_cons by lia. replace (Z.pred (Z.of_nat (S m))) with (Z.of_nat m) by lia.
  change (Z.succ i) with (i + 1).
  cbn [scan_fragments]. wp_steps.
  destruct (lookup_lt_is_Some_2 (blk_slots b) (Z.to_nat (frag_count (blk_hdr b) - 1 - i)) ltac:(lia)) as [s Hs].
  assert (drop (Z.to_nat i) (reverse ((blk_slots b).*1)) =
    s.1 :: drop (Z.to_nat (i + 1)) (reverse ((blk_slots b).*1))) as Hdrop.
  { replace (Z.to_nat (i + 1)) with (S (Z.to_nat i)) by lia. apply drop_S.
    rewrite reverse_lookup by (rewrite length_fmap; lia). rewrite length_fmap, list_lookup_fmap.
    replace (length (blk_slots b) - 1 - Z.to_nat i)%nat with (Z.to_nat (frag_count (blk_hdr b) - 1 - i)) by lia.
    by rewrite Hs. }
  cbv zeta in HQ. rewrite Hdrop in HQ. cbn [kind_rev] in HQ.
  eapply (wp_dev_status d bid b _ s); [done..| | |].
  { unfold slot_of. rewrite rel_of_rev by lia. done. }
  2: { intros e d' Hs' Hn. done. }
  intros d1 H1.
  assert (dev_block d1 bid = Some b) as Hb1 by (by rewrite (same_block d)).
  destruct s.1.
  - (* empty: look at the first fragment *)
    wp_steps.
    destruct (lookup_lt_is_Some_2 (blk_slots b) 0 ltac:(lia)) as [s0 Hs0].
    eapply (wp_dev_status d1 bid b _ s0); [apply H1|done| | |].
    { unfold slot_of, first_fragment. by rewrite rel_of_first. }
    2: { intros e d2 H2 Hn. destruct Hn. by apply (fs_healthy H1). }
    intros d2 H2. wp_steps. specialize (HQ d2 ltac:(by eapply flash_step_trans)).
    unfold first_status in HQ. rewrite Hs0 in HQ. cbn [fmap option_fmap option_map from_option] in HQ.
    destruct s0.1; exact HQ.
  - eapply (IH d1 bid b); [apply H1|by apply (fs_healthy H1)|done..|lia|lia|].
    intros d2 H2. apply HQ. by eapply flash_step_trans.
  - wp_steps. by apply HQ.
  - wp_steps. by apply HQ.
Qed.

(** One block. *)
Definition scan_pure (st : Scan) (ob : option Block) : Scan :=
  match ob with
  | None => st
  | Some b => if own_layout c b then scan_step st (blk_hdr b) (block_kind b)
              else mkScan (data_blocks st) (first_empty_block st) (highest_block st) (foreign_blocks st + 1)
  end.

Lemma wp_scan_block d bid st Q (R : Error → D → Prop) :
  dev_wf d → dev_healthy d → 0 ≤ bid < dev_blocks d → fragments_per_block B (circ_obj c) < u32_size →
  (∀ d', same d d' → Q (scan_pure st (dev_block d bid)) d') →
  wp (scan_block B c st bid) Q R d.
Proof.
  intros Hwf Hh Hb HB HQ. unfold scan_block. wp_steps. apply wp_dev_header; [done..| |done].
  intros d1 H1. destruct (dev_block d bid) as [b|] eqn:Hbl; cbn [fmap option_fmap option_map].
  2: { wp_steps. by apply HQ. }
  unfold scan_pure, own_layout in HQ. unfold fragment_size.
  rewrite (Z.eqb_sym (object_id (blk_hdr b))), (Z.eqb_sym (frag_size (blk_hdr b))).
  destruct (obj_id _ =? _); cbn [negb orb andb] in *; [|wp_steps; by apply HQ].
  destruct (Z.eqb_spec (obj_fragment_size (circ_obj c)) (frag_size (blk_hdr b))) as [Hfs|];
    cbn [negb orb andb] in *; [|wp_steps; by apply HQ].
  destruct (dev_block_ok _ _ _ Hwf Hbl) as [_ Hbok]. pose proof (bok_count_pos _ _ _ Hbok).
  assert (frag_count (blk_hdr b) < u32_size) as Hcnt.
  { rewrite (bok_count _ _ _ Hbok), <-Hfs. exact HB. }
  wp_steps. unfold fragment_count.
  rewrite <-(Z2Nat.id (frag_count (blk_hdr b))) by lia.
  eapply (wp_scan_fragments _ d1 bid b); [apply H1|by apply (fs_healthy H1)|by rewrite (same_block d)|done|lia|lia|].
  intros d2 H2 k. wp_steps. specialize (HQ d2 ltac:(by eapply flash_step_trans)).
  unfold scan_step in HQ. change (block_kind b) with k in HQ. by destruct k.
Qed.

Lemma wp_scan_blocks blocks : ∀ d st Q (R : Error → D → Prop),
  dev_wf d → dev_healthy d → Forall (λ i, 0 ≤ i < dev_blocks d) blocks → fragments_per_block B (circ_obj c) < u32_size →
  (∀ d', same d d' → Q (fold_left scan_pure (dev_block d <$> blocks) st) d') →
  wp (scan_blocks B c st blocks) Q R d.
Proof.
  induction blocks as [|i blocks IH]; intros d st Q R Hwf Hh Hin HB HQ; cbn [scan_blocks].
  { wp_steps. apply HQ. by apply flash_step_refl. }
  apply Forall_cons_1 in Hin as [Hi Hin]. wp_steps. apply wp_scan_block; [done..|].
  intros d1 H1. apply IH; [apply H1|by apply (fs_healthy H1)| |done|].
  - by rewrite (same_blocks _ _ H1).
  - intros d2 H2. specialize (HQ d2 ltac:(by eapply flash_step_trans)). cbn in HQ.
    replace (dev_block d1 <$> blocks) with (dev_block d <$> blocks); [done|].
    apply list_fmap_ext. intros _ j _. symmetry. by apply same_block.
Qed.

(** The classified blocks of the circular among [obs]. *)
Definition own_blocks (obs : list (option Block)) : list (BlockHeader * Kind) :=
  omap (λ ob, b ← ob; if own_layout c b then Some (blk_hdr b, block_kind b) else None) obs.

Lemma scan_pure_inv obs : ∀ hs st,
  (∀ h k h' k', (h, k) ∈ hs ++ own_blocks obs → (h', k') ∈ hs ++ own_blocks obs →
     near (first_frag_no h) (first_frag_no h')) →
  scan_inv hs st → ∃ hs', (∀ x, x ∈ hs' ↔ x ∈ hs ++ own_blocks obs) ∧
    scan_inv hs' (fold_left scan_pure obs st).
Proof.
  induction obs as [|ob obs IH]; intros hs st Hnear Hinv.
  { exists hs. cbn. by rewrite app_nil_r. }
  cbn [fold_left]. destruct ob as [b|]; [|by apply IH]. cbn [scan_pure].
  unfold own_blocks in *. cbn [omap list_omap] in *. cbn [mbind option_bind] in *.
  destruct (own_layout c b) eqn:Hlay; [|apply IH; [done|by apply scan_inv_foreign]].
  set (x := (blk_hdr b, block_kind b)) in *.
  match goal with |- context [omap ?f obs] => set (l := omap f obs) in * end.
  assert (∀ y, y ∈ (x :: hs) ++ l ↔ y ∈ hs ++ x :: l) as Hperm.
  { intros y. rewrite !elem_of_app, !elem_of_cons. tauto. }
  assert (x ∈ hs ++ x :: l) as Hx by (apply Hperm; by left).
  destruct (IH (x :: hs) (scan_step st (blk_hdr b) (block_kind b))) as (hs' & Hm & Hi).
  - intros h k h' k' H1%Hperm H2%Hperm. by eapply Hnear.
  - apply scan_inv_step; [| |done].
    + intros h' k' Hin. eapply Hnear; [exact Hx|]. apply elem_of_app. by left.
    + by apply (Hnear _ _ _ _ Hx Hx).
  - exists hs'. split; [|done]. intros y. by rewrite Hm.
Qed.

(** Advance from slot [i] to slot [m]. *)
Lemma wp_skip_while skip m : ∀ d bid b i n Q (R : Error → D → Prop),
  dev_wf d → dev_healthy d → dev_block d bid = Some b →
  first_frag_no (blk_hdr b) + frag_count (blk_hdr b) < u32_size →
  (m ≤ length (blk_slots b))%nat → (i ≤ m)%nat → (i + n = length (blk_slots b))%nat →
  (∀ j s, (i ≤ j < m)%nat → blk_slots b !! j = Some s → skip s.1 = true) →
  (∀ s, blk_slots b !! m = Some s → skip s.1 = false) →
  (∀ d', same d d' → Q (first_frag_no (blk_hdr b) + Z.of_nat m) d') →
  wp (skip_while B skip (blk_hdr b) (first_frag_no (blk_hdr b) + Z.of_nat i) n) Q R d.
Proof.
  intros d bid b i n. revert d i. induction n as [|n IH]; intros d i Q R Hwf Hh Hb Hfit Hm Him Hin Hsk Hstop HQ;
    cbn [skip_while]; destruct (dev_block_ok _ _ _ Hwf Hb) as [_ Hbok];
    pose proof (bok_length _ _ _ Hbok) as Hlen; unfold len in Hlen; destruct (bok_first _ _ _ Hbok) as [Hf0 Hf1].
  { wp_steps. assert (i = m) as -> by lia. apply HQ. by apply flash_step_refl. }
  destruct (lookup_lt_is_Some_2 (blk_slots b) i ltac:(lia)) as [s Hs].
  wp_steps. eapply (wp_dev_status d bid b _ s); [done..| | |].
  { unfold slot_of, rel_of. rewrite wrapping_sub_small by lia.
    by replace (Z.to_nat (first_frag_no (blk_hdr b) + Z.of_nat i - first_frag_no (blk_hdr b))) with i by lia. }
  2: { intros. done. }
  intros d1 H1. destruct (decide (i = m)) as [->|Hne].
  - rewrite (Hstop _ Hs). wp_steps. by apply HQ.
  - rewrite (Hsk i s) by (done || lia). wp_steps. apply wp_u32_add; [lia|].
    replace (first_frag_no (blk_hdr b) + Z.of_nat i + 1) with (first_frag_no (blk_hdr b) + Z.of_nat (S i)) by lia.
    apply IH; [apply H1|by apply (fs_healthy H1)|by rewrite (same_block d)|done|done|lia|lia| |done|].
    + intros j s' Hj. apply Hsk. lia.
    + intros d2 H2. apply HQ. by eapply flash_step_trans.
Qed.
End scan.
