(* ===== verification/CircularRing.v ===== *)
(** * Circular store: the ring as a persistent FIFO

    [ring d top r w] says that the blocks of the circular hold the log of the
    sequence numbers [0, w), of which [r, w) is live: blocks [0 .. top) were
    opened one after the other, the last [n_blocks] of them are still in flash,
    fragments below [r] are deleted, from [r] on they are valid (or torn by an
    interrupted write), from [w] on empty.  [find_circular_range] recovers
    [r] and [w]; writing at [w] and deleting at [r] keep the invariant. *)

From stdpp Require Import base list list_numbers numbers option.
From S2P Require Import Prelude NorFlash BlockLayer BlockFacts BlockDev FlashDb CircularStore.
From S2P Require Import CircularFacts CircularScan.

(** The status of fragment [n] in a log whose live part is [r, w). *)
Definition log_status (r w n : Z) (st : FragmentStatus) : Prop :=
  if n <? r then st = Obsolete ∨ st = Invalid
  else if n <? w then st = Valid ∨ st = Invalid
  else st = Empty.

(** ** Classification of the blocks of a log *)

Lemma kind_rev_data first rs i :
  rs !! i = Some Valid → (∀ j, (j < i)%nat → rs !! j = Some Valid ∨ rs !! j = Some Invalid) →
  kind_rev first rs = HasData.
Proof.
  revert i. induction rs as [|st rs IH]; intros [|i] Hi Hj; [done..| |].
  - cbn in Hi. by injection Hi as ->.
  - destruct (Hj 0%nat ltac:(lia)) as [[= ->]|[= ->]]; [done|]. cbn.
    apply (IH i Hi). intros j Hlt. apply (Hj (S j)). lia.
Qed.

Lemma kind_rev_nodata first rs :
  Forall (λ st, st = Obsolete ∨ st = Invalid) rs → kind_rev first rs = NoData.
Proof. induction 1 as [|st rs [-> | ->] _ IH]; done. Qed.

Section block.
Context (b : Block) (P k r w : Z).
Context (HP : 0 < P) (Hlen : len (blk_slots b) = P) (Hrw : r ≤ w).
Context (Hst : ∀ i s, blk_slots b !! i = Some s → log_status r w (k * P + Z.of_nat i) s.1).

Lemma rev_status j st :
  reverse ((blk_slots b).*1) !! j = Some st →
  (Z.of_nat j < P) ∧ log_status r w ((k + 1) * P - 1 - Z.of_nat j) st.
Proof.
  intros Hj. pose proof (lookup_lt_Some _ _ _ Hj) as Hlt.
  rewrite length_reverse, length_fmap in Hlt. unfold len in Hlen.
  rewrite CircularScan.reverse_lookup, length_fmap, list_lookup_fmap in Hj by (by rewrite length_fmap).
  destruct (blk_slots b !! (length (blk_slots b) - 1 - j)%nat) as [s|] eqn:Hs; [|done].
  injection Hj as <-. split; [lia|]. apply Hst in Hs.
  by replace ((k + 1) * P - 1 - Z.of_nat j) with (k * P + Z.of_nat (length (blk_slots b) - 1 - j)) by lia.
Qed.

Lemma rev_lookup n : k * P ≤ n < (k + 1) * P →
  ∃ s, blk_slots b !! Z.to_nat (n - k * P) = Some s ∧
    reverse ((blk_slots b).*1) !! Z.to_nat ((k + 1) * P - 1 - n) = Some s.1.
Proof.
  intros Hn. unfold len in Hlen.
  destruct (lookup_lt_is_Some_2 (blk_slots b) (Z.to_nat (n - k * P)) ltac:(lia)) as [s Hs].
  exists s. split; [done|].
  rewrite CircularScan.reverse_lookup by (rewrite length_fmap; lia).
  rewrite length_fmap, list_lookup_fmap.
  replace (length (blk_slots b) - 1 - Z.to_nat ((k + 1) * P - 1 - n))%nat with (Z.to_nat (n - k * P)) by lia.
  by rewrite Hs.
Qed.

Lemma first_status_at : ∃ s, blk_slots b !! 0%nat = Some s ∧ first_status b = s.1.
Proof.
  unfold len in Hlen. destruct (lookup_lt_is_Some_2 (blk_slots b) 0 ltac:(lia)) as [s Hs].
  exists s. split; [done|]. unfold first_status. by rewrite Hs.
Qed.

(** The last fragment is empty: the block is empty or was started. *)
Lemma kind_open : w < (k + 1) * P →
  block_kind b = if w <=? k * P then IsEmpty else HasData.
Proof.
  intros Hw. unfold block_kind. destruct (rev_lookup ((k + 1) * P - 1) ltac:(lia)) as (s & Hs & Hr).
  replace ((k + 1) * P - 1 - ((k + 1) * P - 1)) with 0 in Hr by lia.
  destruct (reverse ((blk_slots b).*1)) as [|st rs]; [done|]. cbn in Hr. injection Hr as ->.
  apply Hst in Hs. unfold log_status in Hs.
  rewrite (proj2 (Z.ltb_ge _ _)), (proj2 (Z.ltb_ge _ _)) in Hs by lia. rewrite Hs. cbn.
  destruct first_status_at as (s0 & Hs0 & ->). apply Hst in Hs0. unfold log_status in Hs0.
  rewrite Z.add_0_r in Hs0.
  destruct (Z.leb_spec w (k * P)).
  - rewrite (proj2 (Z.ltb_ge _ _)), (proj2 (Z.ltb_ge _ _)) in Hs0 by lia. by rewrite Hs0.
  - rewrite (proj2 (Z.ltb_lt (k * P) w)) in Hs0 by lia.
    destruct (k * P <? r); destruct Hs0 as [-> | ->]; done.
Qed.

(** All fragments are deleted. *)
Lemma kind_dead : (k + 1) * P ≤ r → block_kind b = NoData.
Proof.
  intros Hr. apply kind_rev_nodata. apply Forall_lookup. intros j st Hj.
  apply rev_status in Hj as [Hj Hl]. unfold log_status in Hl.
  by rewrite (proj2 (Z.ltb_lt _ _)) in Hl by lia.
Qed.

(** A full block with a valid fragment. *)
Lemma kind_live n s : (k + 1) * P ≤ w → k * P ≤ n < (k + 1) * P →
  blk_slots b !! Z.to_nat (n - k * P) = Some s → s.1 = Valid → block_kind b = HasData.
Proof.
  intros Hw Hn Hs Hv. destruct (rev_lookup n Hn) as (s' & Hs' & Hr).
  assert (s' = s) as -> by congruence. rewrite Hv in Hr.
  assert (r ≤ n) as Hrn.
  { apply Hst in Hs. unfold log_status in Hs. rewrite Hv in Hs.
    destruct (Z.ltb_spec (k * P + Z.of_nat (Z.to_nat (n - k * P))) r); [by destruct Hs|lia]. }
  eapply kind_rev_data; [exact Hr|]. intros j Hj.
  destruct (rev_lookup ((k + 1) * P - 1 - Z.of_nat j) ltac:(lia)) as (sj & Hsj & Hrj).
  replace (Z.to_nat ((k + 1) * P - 1 - ((k + 1) * P - 1 - Z.of_nat j))) with j in Hrj by lia.
  rewrite Hrj. apply Hst in Hsj. unfold log_status in Hsj.
  rewrite (proj2 (Z.ltb_ge _ _)), (proj2 (Z.ltb_lt _ _)) in Hsj by lia.
  destruct Hsj as [-> | ->]; auto.
Qed.
End block.

Section ring.
Context {D E : Type} (B : Z) `{!BlockDev B D E} `{!BlockDevLaws B D E}.
Context (c : Circular).
Abbreviation o := (circ_obj c).
Abbreviation P := (fragments_per_block B o).
Abbreviation nb := (n_blocks o).
Abbreviation dev_step := (flash_step dev_wf dev_healthy dev_blocks dev_block).
Abbreviation same := (dev_step nowhere).

(** Physical block of the [k]-th block of the log. *)
Definition phys (k : Z) : Z := obj_start o + k mod nb.

Definition log_block (r w k : Z) (b : Block) : Prop :=
  own_layout c b = true ∧ first_frag_no (blk_hdr b) = k * P ∧
  ∀ i s, blk_slots b !! i = Some s → log_status r w (k * P + Z.of_nat i) s.1.

Record ring (d : D) (top r w : Z) : Prop := {
  rg_top : 0 ≤ top;
  rg_fit : top * P < u32_size;
  rg_w : 0 ≤ w ∧ (top - 1) * P ≤ w ≤ top * P;
  rg_r : 0 ≤ r ≤ w ∧ (top - nb) * P ≤ r;
  (** the last [nb] opened blocks are in place *)
  rg_blocks : ∀ k, 0 ≤ k → top - nb ≤ k < top →
    ∃ b, dev_block d (phys k) = Some b ∧ log_block r w k b;
  (** blocks not opened yet hold nothing of this circular *)
  rg_vacant : ∀ j b, top ≤ j < nb → dev_block d (obj_start o + j) = Some b → own_layout c b = false;
  rg_first : r < w → ∃ ds, circ_slot B c d r = Some (Valid, ds);
  (** no block of the live part consists of torn writes only *)
  rg_live : ∀ k, 0 ≤ k → r ≤ k * P → (k + 1) * P ≤ w →
    ∃ n ds, k * P ≤ n < (k + 1) * P ∧ circ_slot B c d n = Some (Valid, ds);
}.

Context (blocks : Z) (Ho : obj_ok B blocks o).

Lemma P_pos : 0 < P.
Proof. apply Ho. Qed.
Lemma nb_pos : 0 < nb.
Proof. pose proof (oo_blocks _ _ _ Ho). lia. Qed.

Lemma block_of_phys n : block_of B o n = phys (n / P).
Proof.
  pose proof P_pos. pose proof nb_pos. unfold block_of, phys, n_frags. f_equal.
  rewrite Z.rem_mul_r by lia.
  rewrite (Z.add_comm (n mod P)), Z.mul_comm, Z.div_add_l by lia.
  rewrite (Z.div_small (n mod P)); [lia|]. apply Z.mod_pos_bound. lia.
Qed.

Lemma div_block k n : k * P ≤ n < (k + 1) * P → n / P = k ∧ n mod P = n - k * P.
Proof.
  intros Hn. pose proof P_pos. assert (n / P = k) as Hk.
  { symmetry. apply (Z.div_unique n P k (n - k * P)); lia. }
  split; [done|]. rewrite Z.mod_eq by lia. rewrite Hk. lia.
Qed.

Lemma phys_range k : obj_start o ≤ phys k < obj_start o + nb.
Proof. unfold phys. pose proof (Z.mod_pos_bound k nb nb_pos). lia. Qed.

(** The fragments of a block in place. *)
Lemma log_block_slot d k b n :
  dev_wf d → dev_block d (phys k) = Some b → own_layout c b = true →
  first_frag_no (blk_hdr b) = k * P → 0 ≤ k → k * P ≤ n < (k + 1) * P → (k + 1) * P ≤ u32_size →
  circ_slot B c d n = blk_slots b !! Z.to_nat (n - k * P) ∧ owns B c n b = true.
Proof.
  intros Hwf Hb Hlay Hff Hk Hn Hfit. pose proof P_pos.
  destruct (div_block k n Hn) as [Hdiv Hmod].
  assert (owns B c n b = true) as Hown.
  { unfold owns. rewrite Hlay, Hff, Hmod. rewrite wrapping_add_small by nia. cbn. apply Z.eqb_eq. lia. }
  split; [|done]. unfold circ_slot. rewrite block_of_phys, Hdiv, Hb. cbn. rewrite Hown.
  destruct (dev_block_ok _ _ _ Hwf Hb) as [_ Hbok].
  destruct (owns_rel B c blocks Ho _ _ _ Hbok Hown) as (Hrel & _). unfold slot_of. by rewrite Hrel, Hmod.
Qed.

Lemma log_block_len d k b :
  dev_wf d → dev_block d (phys k) = Some b → own_layout c b = true →
  len (blk_slots b) = P ∧ frag_count (blk_hdr b) = P.
Proof.
  intros Hwf Hb Hlay. destruct (dev_block_ok _ _ _ Hwf Hb) as [_ Hbok].
  assert (frag_count (blk_hdr b) = P) as Hc.
  { rewrite (bok_count _ _ _ Hbok). unfold own_layout in Hlay.
    apply andb_true_iff in Hlay as [_ Hfs%Z.eqb_eq]. unfold fragments_per_block. congruence. }
  by rewrite (bok_length _ _ _ Hbok), Hc.
Qed.

(** The kind of each block of the ring. *)
Lemma ring_kind d top r w k b :
  dev_wf d → ring d top r w → 0 ≤ k → top - nb ≤ k < top →
  dev_block d (phys k) = Some b → log_block r w k b →
  block_kind b = if w <=? k * P then IsEmpty else if (k + 1) * P <=? r then NoData else HasData.
Proof.
  intros Hwf Hrg Hk0 Hk Hb (Hlay & Hff & Hst). pose proof P_pos.
  destruct (log_block_len d k b Hwf Hb Hlay) as [Hlen _]. pose proof (rg_r _ _ _ _ Hrg) as [Hr0 _].
  pose proof (rg_fit _ _ _ _ Hrg).
  destruct (Z.leb_spec w (k * P)).
  { rewrite (kind_open b P k r w) by (done || lia). by rewrite (proj2 (Z.leb_le _ _)). }
  destruct (Z.leb_spec ((k + 1) * P) r).
  { by apply (kind_dead b P k r w); lia || done. }
  destruct (decide (w < (k + 1) * P)) as [?|Hfull].
  { rewrite (kind_open b P k r w) by (done || lia). by rewrite (proj2 (Z.leb_gt _ _)) by lia. }
  assert (∃ n ds, k * P ≤ n < (k + 1) * P ∧ circ_slot B c d n = Some (Valid, ds)) as (n & ds & Hn & Hsl).
  { destruct (decide (r ≤ k * P)).
    - apply (rg_live _ _ _ _ Hrg); lia.
    - destruct (rg_first _ _ _ _ Hrg) as [ds Hds]; [lia|]. exists r, ds. split; [lia|done]. }
  destruct (log_block_slot d k b n) as [Heq _]; try done; [nia|].
  rewrite Heq in Hsl. by eapply (kind_live b P k r w); [..|exact Hn|exact Hsl|]; lia || done.
Qed.

(** ** Recovery *)

Lemma scan_list : flash_blocks_except_spare o = seqZ (obj_start o) nb.
Proof.
  pose proof (oo_start _ _ _ Ho). pose proof (oo_blocks _ _ _ Ho). unfold n_blocks in *.
  unfold flash_blocks_except_spare, saturating_sub. f_equal. lia.
Qed.

(** The block of the log that lives in physical block [j]. *)
Lemma resident top j : 0 ≤ j < nb → j < top →
  ∃ k, 0 ≤ k ∧ top - nb ≤ k < top ∧ phys k = obj_start o + j.
Proof.
  intros Hj Ht. pose proof nb_pos. exists (top - 1 - (top - 1 - j) mod nb).
  pose proof (Z.mod_pos_bound (top - 1 - j) nb ltac:(lia)) as Hm.
  assert (top - 1 - (top - 1 - j) mod nb = j + (top - 1 - j) / nb * nb) as Hk.
  { rewrite Z.mod_eq by lia. lia. }
  split; [|split; [lia|]].
  - rewrite Hk. pose proof (Z.div_pos (top - 1 - j) nb ltac:(lia) ltac:(lia)). nia.
  - unfold phys. rewrite Hk, Z.mod_add, Z.mod_small by lia. done.
Qed.

Lemma own_blocks_ring d top r w h kd :
  dev_wf d → ring d top r w →
  (h, kd) ∈ own_blocks c (dev_block d <$> seqZ (obj_start o) nb) ↔
  ∃ k b, 0 ≤ k ∧ top - nb ≤ k < top ∧ dev_block d (phys k) = Some b ∧ log_block r w k b ∧
    h = blk_hdr b ∧ kd = block_kind b.
Proof.
  intros Hwf Hrg. unfold own_blocks. rewrite list_elem_of_omap. split.
  - intros (ob & Hin & Hob). apply list_elem_of_fmap in Hin as (i & -> & Hi). apply elem_of_seqZ in Hi.
    destruct (dev_block d i) as [b|] eqn:Hb; [|done]. cbn in Hob.
    destruct (own_layout c b) eqn:Hlay; [|done]. injection Hob as <- <-.
    destruct (decide (i - obj_start o < top)) as [Hlt|Hge].
    2: { rewrite (rg_vacant _ _ _ _ Hrg (i - obj_start o) b) in Hlay; [done|lia|].
      rewrite <-Hb. f_equal. lia. }
    destruct (resident top (i - obj_start o)) as (k & Hk0 & Hk & Hph); [lia|done|].
    replace (obj_start o + (i - obj_start o)) with i in Hph by lia.
    destruct (rg_blocks _ _ _ _ Hrg k Hk0 Hk) as (b' & Hb' & Hlb).
    assert (b' = b) as -> by congruence. exists k, b. rewrite Hph. done.
  - intros (k & b & Hk0 & Hk & Hb & Hlb & -> & ->). exists (Some b). split.
    + apply list_elem_of_fmap. exists (phys k). split; [done|]. apply elem_of_seqZ, phys_range.
    + cbn. by rewrite (proj1 Hlb).
Qed.

Lemma ring_near d top r w h k h' k' :
  dev_wf d → ring d top r w →
  (h, k) ∈ own_blocks c (dev_block d <$> seqZ (obj_start o) nb) →
  (h', k') ∈ own_blocks c (dev_block d <$> seqZ (obj_start o) nb) →
  near (first_frag_no h) (first_frag_no h').
Proof.
  intros Hwf Hrg H1 H2. pose proof P_pos. pose proof (rg_fit _ _ _ _ Hrg).
  apply (own_blocks_ring d top r w) in H1 as (i & b & Hi0 & Hi & _ & (_ & Hbi & _) & -> & _); [|done..].
  apply (own_blocks_ring d top r w) in H2 as (j & b' & Hj0 & Hj & _ & (_ & Hbj & _) & -> & _); [|done..].
  rewrite Hbi, Hbj.
  pose proof (oo_max _ _ _ Ho) as Hm. unfold n_frags in Hm.
  split; [unfold is_u32; nia|]. split; [unfold is_u32; nia|]. nia.
Qed.

(** Reading the exact boundary out of the block that contains it. *)
Lemma wp_skip_to d k b r w skip n Q (R : Error → D → Prop) :
  dev_wf d → dev_healthy d → dev_block d (phys k) = Some b → log_block r w k b →
  0 ≤ k → (k + 1) * P < u32_size → k * P ≤ n ≤ (k + 1) * P →
  (∀ m st, k * P ≤ m < n → log_status r w m st → skip st = true) →
  (∀ s, n < (k + 1) * P → circ_slot B c d n = Some s → log_status r w n s.1 → skip s.1 = false) →
  (∀ d', same d d' → Q n d') →
  wp (skip_while B skip (blk_hdr b) (first_fragment (blk_hdr b)) (Z.to_nat (fragment_count (blk_hdr b)))) Q R d.
Proof.
  intros Hwf Hh Hb (Hlay & Hff & Hst) Hk Hfit Hn Hsk Hstop HQ. pose proof P_pos.
  destruct (log_block_len d k b Hwf Hb Hlay) as [Hlen Hcnt]. unfold len in Hlen.
  unfold first_fragment, fragment_count.
  replace (first_frag_no (blk_hdr b)) with (first_frag_no (blk_hdr b) + Z.of_nat 0) by lia.
  eapply (wp_skip_while B skip (Z.to_nat (n - k * P)) d (phys k) b); try done; [lia..| | |].
  - intros j s Hj Hs. apply (Hsk (k * P + Z.of_nat j)); [lia|]. by apply Hst.
  - intros s Hs. pose proof (lookup_lt_Some _ _ _ Hs).
    destruct (log_block_slot d k b n) as [Heq _]; try done; [lia..|].
    apply Hstop; [lia|by rewrite Heq|]. apply Hst in Hs. by replace (k * P + _) with n in Hs by lia.
  - intros d' Hs. rewrite Hff. replace (k * P + Z.of_nat (Z.to_nat (n - k * P))) with n by lia. by apply HQ.
Qed.

Lemma log_status_skip_read r w m st : m < r → log_status r w m st → skip_read st = true.
Proof. unfold log_status. intros Hm. rewrite (proj2 (Z.ltb_lt _ _)) by done. by intros [-> | ->]. Qed.

Lemma log_status_skip_write r w m st : m < w → log_status r w m st → skip_write st = true.
Proof.
  unfold log_status. intros Hm. destruct (m <? r); [by intros [-> | ->]|].
  rewrite (proj2 (Z.ltb_lt _ _)) by done. by intros [-> | ->].
Qed.

Lemma log_status_empty r w m st : r ≤ w → w ≤ m → log_status r w m st → st = Empty.
Proof. unfold log_status. intros. by rewrite !(proj2 (Z.ltb_ge _ _)) in * by lia. Qed.

(** The block with the boundary [n], given that the scan kept the extremum. *)
Lemma ring_block_at d top r w k :
  dev_wf d → ring d top r w → 0 ≤ k → top - nb ≤ k < top → k * P < w → r < (k + 1) * P →
  ∃ b, dev_block d (phys k) = Some b ∧ log_block r w k b ∧
    (blk_hdr b, HasData) ∈ own_blocks c (dev_block d <$> seqZ (obj_start o) nb).
Proof.
  intros Hwf Hrg Hk0 Hk Hkw Hrk. destruct (rg_blocks _ _ _ _ Hrg k Hk0 Hk) as (b & Hb & Hlb).
  exists b. split; [done|]. split; [done|]. apply (own_blocks_ring d top r w); [done..|].
  exists k, b. split_and!; try done; try lia.
  rewrite (ring_kind d top r w k b) by done.
  by rewrite (proj2 (Z.leb_gt w (k * P))), (proj2 (Z.leb_gt ((k + 1) * P) r)) by lia.
Qed.

(** The data blocks are those that overlap the live part or hold its end. *)
Lemma ring_has_data d top r w h :
  dev_wf d → ring d top r w →
  (h, HasData) ∈ own_blocks c (dev_block d <$> seqZ (obj_start o) nb) →
  ∃ k b, 0 ≤ k ∧ top - nb ≤ k < top ∧ k * P < w ∧ r < (k + 1) * P ∧
    dev_block d (phys k) = Some b ∧ log_block r w k b ∧ h = blk_hdr b.
Proof.
  intros Hwf Hrg Hin. apply (own_blocks_ring d top r w) in Hin as (k & b & Hk0 & Hk & Hb & Hlb & -> & Hkd); [|done..].
  rewrite (ring_kind d top r w k b) in Hkd by done. exists k, b.
  destruct (Z.leb_spec w (k * P)); [done|]. destruct (Z.leb_spec ((k + 1) * P) r); [done|].
  split_and!; done || lia.
Qed.

Lemma ring_is_empty d top r w h :
  dev_wf d → ring d top r w →
  (h, IsEmpty) ∈ own_blocks c (dev_block d <$> seqZ (obj_start o) nb) → first_frag_no h = w.
Proof.
  intros Hwf Hrg Hin. pose proof P_pos. pose proof (rg_w _ _ _ _ Hrg).
  apply (own_blocks_ring d top r w) in Hin as (k & b & Hk0 & Hk & Hb & Hlb & -> & Hkd); [|done..].
  rewrite (ring_kind d top r w k b) in Hkd by done.
  destruct (Z.leb_spec w (k * P)); [|by destruct (_ <=? _)].
  destruct Hlb as (_ & -> & _). assert (k = top - 1) by nia. subst k. lia.
Qed.

(** The case of a scan that found data. *)
Lemma wp_recover_data d top r w rd wr Q (R : Error → D → Prop) :
  dev_wf d → dev_healthy d → ring d top r w →
  let hs := own_blocks c (dev_block d <$> seqZ (obj_start o) nb) in
  (rd, HasData) ∈ hs → (wr, HasData) ∈ hs →
  (∀ h, (h, HasData) ∈ hs → first_frag_no rd ≤ first_frag_no h ≤ first_frag_no wr) →
  (∀ d', same d d' → Q (mkCircularRange r w) d') →
  wp (first_seq_no ← skip_while B skip_read rd (first_fragment rd) (Z.to_nat (fragment_count rd));
      last_seq_no ← skip_while B skip_write wr (first_fragment wr) (Z.to_nat (fragment_count wr));
      mret (mkCircularRange first_seq_no last_seq_no)) Q R d.
Proof.
  intros Hwf Hh Hrg hs Hrd Hwr Hext HQ. pose proof P_pos.
  pose proof (rg_r _ _ _ _ Hrg) as [Hr Hrlow]. pose proof (rg_w _ _ _ _ Hrg) as [Hw0 Hw].
  pose proof (rg_fit _ _ _ _ Hrg) as Hfit.
  destruct (ring_has_data d top r w rd Hwf Hrg Hrd) as (kr & br & Hkr0 & Hkr & Hkrw & Hkrr & Hbr & Hlr & ->).
  destruct (ring_has_data d top r w wr Hwf Hrg Hwr) as (kw & bw & Hkw0 & Hkw & Hkww & Hkwr & Hbw & Hlw & ->).
  pose proof Hlr as (_ & Hfr & _). pose proof Hlw as (_ & Hfw & _).
  (* the read block contains r *)
  assert (kr * P ≤ r) as Hkrle.
  { destruct (decide (kr * P ≤ r)) as [|Hgt]; [done|exfalso].
    destruct (ring_block_at d top r w (r / P)) as (b & _ & (_ & Hfb & _) & Hin);
      [done|done|apply Z.div_pos; lia|split; [apply Z.div_le_lower_bound; lia|apply Z.div_lt_upper_bound; nia]| | |].
    - pose proof (Z.mul_div_le r P ltac:(lia)). lia.
    - pose proof (Z.mul_succ_div_gt r P ltac:(lia)). lia.
    - apply Hext in Hin. pose proof (Z.mul_div_le r P ltac:(lia)). nia. }
  (* the write block contains the last fragment before w *)
  assert (w ≤ (kw + 1) * P) as Hkwle.
  { destruct (decide (w ≤ (kw + 1) * P)) as [|Hgt]; [done|exfalso].
    destruct (ring_block_at d top r w (kw + 1)) as (b & _ & (_ & Hfb & _) & Hin); [done|done|lia|nia|nia|nia|].
    apply Hext in Hin. nia. }
  wp_steps. eapply (wp_skip_to d kr br r w skip_read r); try done; [nia|lia| | |].
  - intros m st Hm. apply log_status_skip_read. lia.
  - intros s Hlt Hs Hls. destruct (decide (r < w)) as [Hrw|Hrw].
    + destruct (rg_first _ _ _ _ Hrg Hrw) as [ds Hds]. rewrite Hds in Hs. by injection Hs as <-.
    + rewrite (log_status_empty r w r s.1) by (done || lia). done.
  - intros d1 H1. wp_steps.
    eapply (wp_skip_to d1 kw bw r w skip_write w); try done; [apply H1|by apply (fs_healthy H1)|
      by rewrite (same_block d)|nia|lia| | |].
    + intros m st Hm. apply log_status_skip_write. lia.
    + intros s _ _ Hls. by rewrite (log_status_empty r w w s.1) by (done || lia).
    + intros d2 H2. wp_steps. apply HQ. by eapply flash_step_trans.
Qed.

(** When the scan finds no data, nothing is live and the end is at a block boundary. *)
Lemma ring_no_data d top r w :
  dev_wf d → ring d top r w →
  (∀ h, (h, HasData) ∉ own_blocks c (dev_block d <$> seqZ (obj_start o) nb)) →
  r = w ∧ (w = top * P ∨ (w = (top - 1) * P ∧ 0 < top)).
Proof.
  intros Hwf Hrg Hno. pose proof P_pos. pose proof nb_pos.
  pose proof (rg_r _ _ _ _ Hrg) as [Hr Hrlow]. pose proof (rg_w _ _ _ _ Hrg) as [Hw0 Hw].
  pose proof (rg_top _ _ _ _ Hrg).
  assert (∀ k, 0 ≤ k → top - nb ≤ k < top → k * P < w → r < (k + 1) * P → False) as Hx.
  { intros k ????. destruct (ring_block_at d top r w k) as (b & _ & _ & Hin); [done..|]. by eapply Hno. }
  assert (w = top * P ∨ (w = (top - 1) * P ∧ 0 < top)) as Hend.
  { destruct (decide (w = top * P)); [by left|]. right. assert (0 < top) by nia. split; [|done].
    destruct (decide (w = (top - 1) * P)); [done|exfalso]. apply (Hx (top - 1)); nia. }
  split; [|done]. destruct (decide (r = w)); [done|exfalso].
  destruct Hend as [Hend|[Hend Ht]].
  - apply (Hx (top - 1)); nia.
  - destruct (decide (r < w)); [|lia].
    apply (Hx (r / P)).
    + apply Z.div_pos; lia.
    + split; [apply Z.div_le_lower_bound; lia|apply Z.div_lt_upper_bound; nia].
    + pose proof (Z.mul_div_le r P ltac:(lia)). lia.
    + pose proof (Z.mul_succ_div_gt r P ltac:(lia)). lia.
Qed.

Lemma wp_find_circular_range d top r w Q (R : Error → D → Prop) :
  dev_wf d → dev_healthy d → dev_blocks d = blocks → ring d top r w →
  (∀ d', same d d' → Q (mkCircularRange r w) d') →
  wp (find_circular_range B c) Q R d.
Proof.
  intros Hwf Hh Hbl Hrg HQ. pose proof P_pos. pose proof nb_pos.
  unfold find_circular_range. rewrite scan_list. wp_steps. apply (wp_scan_blocks B c); [done..| | |].
  { apply Forall_lookup. intros i x Hx. apply lookup_seqZ in Hx as [-> Hi].
    pose proof (oo_start _ _ _ Ho). pose proof (oo_end _ _ _ Ho). unfold n_blocks in *. lia. }
  { pose proof (fpb_u32 B blocks o Ho) as Hf. rewrite <-Hf. apply as_u32_range. }
  intros d1 H1.
  destruct (scan_pure_inv c (dev_block d <$> seqZ (obj_start o) nb) [] (mkScan None None None 0))
    as (hs & Hm & [Hd He Ht]).
  { intros h k h' k'. by eapply ring_near. }
  { apply scan_inv_init. }
  cbn [app] in Hm. set (st := fold_left _ _ _) in *.
  assert (ring d1 top r w) as Hrg1.
  { destruct Hrg. split; try done.
    - intros k ??. rewrite (same_block d) by done. auto.
    - intros j b ?. rewrite (same_block d) by done. eauto.
    - intros Hlt. unfold circ_slot. rewrite (same_block d) by done. auto.
    - intros k ???. destruct (rg_live0 k) as (n & ds & ? & ?); [done..|]. exists n, ds. split; [done|].
      unfold circ_slot. by rewrite (same_block d). }
  assert (dev_block d1 <$> seqZ (obj_start o) nb = dev_block d <$> seqZ (obj_start o) nb) as Heq.
  { apply list_fmap_ext. intros _ i _. by apply same_block. }
  destruct (data_blocks st) as [[rd wr]|].
  { destruct Hd as (Hrd & Hwr & Hext). eapply wp_recover_data; [apply H1|by apply (fs_healthy H1)|exact Hrg1|..];
      rewrite ?Heq.
    - by apply Hm.
    - by apply Hm.
    - intros h Hin. apply Hext. by apply Hm.
    - intros d2 H2. apply HQ. by eapply flash_step_trans. }
  destruct (ring_no_data d top r w Hwf Hrg) as [Hrw Hend].
  { intros h Hin. by apply (Hd h), Hm. }
  subst r. pose proof (rg_w _ _ _ _ Hrg). pose proof (rg_fit _ _ _ _ Hrg). pose proof (rg_top _ _ _ _ Hrg).
  destruct (first_empty_block st) as [e|].
  { destruct He as [He _]. apply Hm in He. wp_steps. unfold first_fragment.
    rewrite (ring_is_empty d top w w e) by done. by apply HQ. }
  assert (w = top * P) as Hw.
  { destruct Hend as [?|[Hw Htop]]; [done|]. exfalso.
    destruct (rg_blocks _ _ _ _ Hrg (top - 1)) as (b & Hb & Hlb); [lia|lia|].
    apply (He (blk_hdr b)), Hm. apply (own_blocks_ring d top w w); [done..|].
    exists (top - 1), b. split_and!; try done; try lia.
    rewrite (ring_kind d top w w (top - 1) b) by (done || lia). by rewrite (proj2 (Z.leb_le _ _)) by lia. }
  destruct (highest_block st) as [t|].
  - destruct Ht as [(k & Hin) Hmax]. apply Hm in Hin.
    apply (own_blocks_ring d top w w) in Hin as (i & b & Hi0 & Hi & Hb & (Hlay & Hff & Hst) & -> & _); [|done..].
    destruct (rg_blocks _ _ _ _ Hrg (top - 1)) as (b' & Hb' & Hlb'); [lia|lia|].
    assert (first_frag_no (blk_hdr b') ≤ first_frag_no (blk_hdr b)) as Hle.
    { apply (Hmax _ (block_kind b')), Hm. apply (own_blocks_ring d top w w); [done..|].
      exists (top - 1), b'. split_and!; done || lia. }
    destruct Hlb' as (_ & Hff' & _). assert (i = top - 1) as -> by nia.
    destruct (log_block_len d (top - 1) b Hwf Hb Hlay) as [_ Hcnt].
    wp_steps. unfold first_fragment, fragment_count. rewrite Hff, Hcnt, (fpb_u32 B blocks o Ho).
    rewrite wrapping_add_small by nia. replace ((top - 1) * P + P) with w by lia. by apply HQ.
  - assert (top = 0) as ->.
    { destruct (decide (top = 0)); [done|exfalso].
      destruct (rg_blocks _ _ _ _ Hrg (top - 1)) as (b & Hb & Hlb); [lia|lia|].
      assert ((blk_hdr b, block_kind b) ∈ hs) as Hin.
      { apply Hm, (own_blocks_ring d top w w); [done..|]. exists (top - 1), b. split_and!; done || lia. }
      rewrite Ht in Hin. by apply not_elem_of_nil in Hin. }
    wp_steps. replace w with 0 in HQ by lia. by apply HQ.
Qed.

(** ** Writing at the end and deleting at the start *)

Lemma log_block_set r w k b s :
  log_block r w k b → len (blk_slots b) = P → k * P ≤ w < (k + 1) * P → r ≤ w →
  rel_of (blk_hdr b) w = w - k * P → s.1 = Valid → log_block r (w + 1) k (set_slot b w s).
Proof.
  intros (Hlay & Hff & Hst) Hlen Hw Hr Hrel Hv. unfold len in Hlen.
  split; [done|]. split; [done|]. unfold set_slot. cbn [blk_slots]. rewrite Hrel.
  intros i s' Hs. destruct (decide (i = Z.to_nat (w - k * P))) as [->|Hne].
  - rewrite list_lookup_insert_eq in Hs by lia. injection Hs as <-. unfold log_status.
    rewrite (proj2 (Z.ltb_ge _ r)), (proj2 (Z.ltb_lt _ _)) by lia. by left.
  - rewrite list_lookup_insert_ne in Hs by done. specialize (Hst i s' Hs). unfold log_status in *.
    destruct (_ <? r); [done|].
    destruct (Z.ltb_spec (k * P + Z.of_nat i) w), (Z.ltb_spec (k * P + Z.of_nat i) (w + 1)); done || lia.
Qed.

Lemma log_block_grow r w k b :
  log_block r w k b → len (blk_slots b) = P → w < k * P ∨ (k + 1) * P ≤ w → log_block r (w + 1) k b.
Proof.
  intros (Hlay & Hff & Hst) Hlen Hw. unfold len in Hlen. split; [done|]. split; [done|].
  intros i s Hs. pose proof (lookup_lt_Some _ _ _ Hs). specialize (Hst i s Hs). unfold log_status in *.
  destruct (_ <? r); [done|].
  destruct (Z.ltb_spec (k * P + Z.of_nat i) w), (Z.ltb_spec (k * P + Z.of_nat i) (w + 1)); done || lia.
Qed.

(** The next write position has room: inside the open block, or in a block that
    is free or holds no live fragment. *)
Definition room (d : D) (top r w : Z) : Prop :=
  w < top * P ∨
  (w = top * P ∧ (top + 1) * P < u32_size ∧ (top + 1 - nb) * P ≤ r ∧
   (∀ b, dev_block d (phys top) = Some b → own_layout c b = false → auto_format c = true)).

(** Number of opened blocks after the write at [w]. *)
Definition next_top (top w : Z) : Z := if w <? top * P then top else top + 1.

Lemma phys_inj k k' : Z.abs (k - k') < nb → phys k = phys k' → k = k'.
Proof.
  intros Hd Heq. pose proof nb_pos as Hnb. unfold phys in Heq.
  assert (k mod nb = k' mod nb) as Hm by lia.
  rewrite (Z.div_mod k nb), (Z.div_mod k' nb) by lia. rewrite Hm.
  pose proof (Z.div_mod k nb ltac:(lia)). pose proof (Z.div_mod k' nb ltac:(lia)).
  assert (k / nb = k' / nb) as ->; [nia|done].
Qed.

Lemma phys_wrap k : phys (k - nb) = phys k.
Proof.
  pose proof nb_pos. unfold phys. rewrite <-(Z.mod_add (k - nb) 1) by lia. do 2 f_equal. lia.
Qed.

Lemma log_block_fresh r w k h ob :
  reformatted B c w ob (fresh_block h) → w = k * P → r ≤ w → is_u32 w →
  own_layout c (fresh_block h) = true ∧ log_block r w k (fresh_block h).
Proof.
  intros Hre Hw Hr Hu. pose proof (reformatted_owns B c w ob _ Hu Hre) as Hown.
  unfold owns in Hown. apply andb_true_iff in Hown as [Hlay _]. split; [done|]. split; [done|].
  destruct Hre as (_ & _ & h' & Hh & Heq). injection Heq as <- _.
  unfold new_header, try_new in Hh. destruct (_ =? 0); [done|]. injection Hh as <-. split; [done|].
  intros i s [-> Hi]%lookup_replicate. unfold log_status.
  rewrite !(proj2 (Z.ltb_ge _ _)) by lia. done.
Qed.

(** The block that receives [w]: the open block, or the next one just formatted. *)
Lemma ring_target d top r w b :
  dev_wf d → ring d top r w → room d top r w → is_u32 w →
  dev_block d (phys (w / P)) = Some b ∨ reformatted B c w (dev_block d (phys (w / P))) b →
  owns B c w b = true →
  let k := w / P in
  k = next_top top w - 1 ∧ k * P ≤ w < (k + 1) * P ∧ log_block r w k b ∧
  (∀ k', top - nb ≤ k' < top → 0 ≤ k' → k' ≠ k → (next_top top w - nb ≤ k') → phys k' ≠ phys k).
Proof.
  intros Hwf Hrg Hroom Hu Hb Hown k. pose proof P_pos. pose proof nb_pos.
  pose proof (rg_r _ _ _ _ Hrg) as [Hr Hrlow]. pose proof (rg_w _ _ _ _ Hrg) as [Hw0 Hw].
  pose proof (rg_fit _ _ _ _ Hrg). pose proof (rg_top _ _ _ _ Hrg). unfold next_top.
  destruct Hroom as [Hlt|(Heq & Hfit & Hrec & _)].
  - rewrite (proj2 (Z.ltb_lt _ _)) by done.
    assert ((top - 1) * P ≤ w < (top - 1 + 1) * P) as Hin by lia.
    destruct (div_block (top - 1) w Hin) as [Hdiv _]. subst k. rewrite Hdiv in *.
    destruct (rg_blocks _ _ _ _ Hrg (top - 1)) as (b' & Hb' & Hlb); [nia|lia|].
    assert (b = b') as ->.
    { destruct Hb as [Hb|(Hmay & _)]; [congruence|]. rewrite Hb' in Hmay. destruct Hmay as [Hno _].
      destruct Hlb as (Hlay & Hff & _).
      destruct (log_block_slot d (top - 1) b' w) as [_ ?]; try done; [nia|lia|congruence]. }
    split; [lia|]. split; [lia|]. split; [done|].
    intros k' Hk' _ Hne _ Hph. apply Hne, phys_inj; [lia|done].
  - rewrite (proj2 (Z.ltb_ge _ _)) by lia.
    assert (top * P ≤ w < (top + 1) * P) as Hin by lia.
    destruct (div_block top w Hin) as [Hdiv Hmod]. subst k. rewrite Hdiv in *.
    split; [lia|]. split; [lia|]. split.
    2: { intros k' Hk' _ Hne Hlow Hph. apply Hne, phys_inj; [lia|done]. }
    destruct Hb as [Hb|Hre].
    + exfalso. unfold owns in Hown. apply andb_true_iff in Hown as [Hlay Hff%Z.eqb_eq].
      destruct (decide (top < nb)) as [Htop|Htop].
      * assert (own_layout c b = false) as Hno; [|congruence].
        apply (rg_vacant _ _ _ _ Hrg top); [lia|]. rewrite <-Hb. f_equal. unfold phys.
        by rewrite Z.mod_small by lia.
      * destruct (rg_blocks _ _ _ _ Hrg (top - nb)) as (b' & Hb' & (_ & Hff' & _)); [lia|lia|].
        rewrite phys_wrap in Hb'. assert (b' = b) as -> by congruence.
        rewrite Hff', Hmod, Heq in Hff. rewrite wrapping_add_small in Hff by nia. nia.
    + pose proof Hre as (_ & _ & h & _ & ->).
      apply (log_block_fresh r w top h (dev_block d (phys top))); [done|lia|lia|done].
Qed.

(** The fragments other than [w] that are still in place. *)
Lemma ring_slot_frame d d' top r w b s n :
  dev_wf d → dev_wf d' → ring d top r w → room d top r w → is_u32 w →
  dev_block d (phys (w / P)) = Some b ∨ reformatted B c w (dev_block d (phys (w / P))) b →
  owns B c w b = true → block_ok B (phys (w / P)) b →
  (∀ i, i ≠ phys (w / P) → dev_block d' i = dev_block d i) →
  dev_block d' (phys (w / P)) = Some (set_slot b w s) →
  r ≤ n < w → circ_slot B c d' n = circ_slot B c d n.
Proof.
  intros Hwf Hwf' Hrg Hroom Hu Hb Hown Hbok Hother Hd' Hn. pose proof P_pos. pose proof nb_pos.
  destruct (ring_target d top r w b Hwf Hrg Hroom Hu Hb Hown) as (Hk & Hkw & Hlb & Hdisj).
  pose proof (rg_r _ _ _ _ Hrg) as [Hr Hrlow]. pose proof (rg_w _ _ _ _ Hrg) as [Hw0 Hw].
  assert (next_top top w * P < u32_size ∧ (next_top top w - nb) * P ≤ r) as [Hfit Hlow].
  { unfold next_top. destruct (Z.ltb_spec w (top * P)); [pose proof (rg_fit _ _ _ _ Hrg); lia|].
    destruct Hroom as [?|(_ & ? & ? & _)]; lia. }
  assert ((n / P) * P ≤ n < (n / P + 1) * P) as Hnk.
  { pose proof (Z.mul_div_le n P ltac:(lia)). pose proof (Z.mul_succ_div_gt n P ltac:(lia)). lia. }
  unfold circ_slot. rewrite block_of_phys. destruct (decide (n / P = w / P)) as [Heq|Hne].
  - rewrite Heq, Hd'. cbn. change (owns B c n (set_slot b w s)) with (owns B c n b).
    destruct Hb as [Hb|(_ & Hal & _)].
    2: { exfalso. assert (w mod P = w - (w / P) * P) by (by apply div_block). rewrite Heq in Hnk. lia. }
    rewrite Hb. cbn. destruct (owns B c n b) eqn:Hn'; [|done].
    unfold slot_of, set_slot. cbn [blk_hdr blk_slots]. apply list_lookup_insert_ne.
    intros Hrel. pose proof (rel_range (blk_hdr b) n) as [? _]. pose proof (rel_range (blk_hdr b) w) as [? _].
    assert (w = n); [|lia]. eapply (owns_inj B c blocks Ho (phys (w / P)) w n b); [done|done|done|lia].
  - rewrite Hother; [done|]. apply Hdisj; [|apply Z.div_pos; lia|done|].
    + assert (n / P < next_top top w) by (apply Z.div_lt_upper_bound; nia).
      split; [apply Z.div_le_lower_bound; lia|]. unfold next_top in *. destruct (w <? top * P); lia.
    + apply Z.div_le_lower_bound; lia.
Qed.

Lemma ring_after_write d d' top r w b s :
  dev_wf d → dev_wf d' → ring d top r w → room d top r w → is_u32 w →
  dev_block d (phys (w / P)) = Some b ∨ reformatted B c w (dev_block d (phys (w / P))) b →
  owns B c w b = true → block_ok B (phys (w / P)) b → s.1 = Valid →
  (∀ i, i ≠ phys (w / P) → dev_block d' i = dev_block d i) →
  dev_block d' (phys (w / P)) = Some (set_slot b w s) →
  ring d' (next_top top w) r (w + 1) ∧ circ_slot B c d' w = Some s.
Proof.
  intros Hwf Hwf' Hrg Hroom Hu Hb Hown Hbok Hv Hother Hd'. pose proof P_pos. pose proof nb_pos.
  destruct (ring_target d top r w b Hwf Hrg Hroom Hu Hb Hown) as (Hk & Hkw & Hlb & Hdisj).
  pose proof (rg_r _ _ _ _ Hrg) as [Hr Hrlow]. pose proof (rg_w _ _ _ _ Hrg) as [Hw0 Hw].
  pose proof (rg_top _ _ _ _ Hrg) as Htop.
  assert (next_top top w * P < u32_size ∧ (next_top top w - nb) * P ≤ r) as [Hfit Hlow].
  { unfold next_top. destruct (Z.ltb_spec w (top * P)); [pose proof (rg_fit _ _ _ _ Hrg); lia|].
    destruct Hroom as [?|(_ & ? & ? & _)]; lia. }
  assert (top ≤ next_top top w ≤ top + 1) as Hnt by (unfold next_top; destruct (_ <? _); lia).
  destruct (owns_rel B c blocks Ho _ _ _ Hbok Hown) as (Hrel & Hcnt & _).
  assert (len (blk_slots b) = P) as Hlen by (by rewrite (bok_length _ _ _ Hbok)).
  destruct (div_block (w / P) w Hkw) as [_ Hmod].
  assert (circ_slot B c d' w = Some s) as Hslot.
  { unfold circ_slot. rewrite block_of_phys, Hd'. cbn.
    change (owns B c w (set_slot b w s)) with (owns B c w b). rewrite Hown.
    unfold slot_of, set_slot. cbn [blk_hdr blk_slots]. apply list_lookup_insert_eq.
    unfold len in Hlen. rewrite Hrel, Hmod. lia. }
  assert (∀ n, r ≤ n < w → circ_slot B c d' n = circ_slot B c d n) as Hframe.
  { intros n Hn. by eapply ring_slot_frame. }
  split; [|done]. split; try lia.
  - intros k Hk0 Hkr. destruct (decide (k = w / P)) as [->|Hne].
    + exists (set_slot b w s). split; [done|]. apply log_block_set; try done; [lia|]. by rewrite Hrel, Hmod.
    + destruct (rg_blocks _ _ _ _ Hrg k Hk0 ltac:(lia)) as (b' & Hb' & Hlb').
      exists b'. rewrite Hother by (apply Hdisj; lia). split; [done|].
      destruct (log_block_len d k b' Hwf Hb' (proj1 Hlb')) as [Hlen' _].
      apply log_block_grow; [done|done|]. right. nia.
  - intros j b' Hj. rewrite Hother; [apply (rg_vacant _ _ _ _ Hrg); lia|].
    unfold phys. rewrite (Z.mod_small (w / P)); [lia|]. split; [apply Z.div_pos; lia|lia].
  - intros _. destruct (decide (r = w)) as [->|Hne].
    + rewrite Hslot. destruct s as [st ds]. cbn in Hv. subst st. eauto.
    + rewrite Hframe by lia. apply (rg_first _ _ _ _ Hrg). lia.
  - intros k Hk0 Hrk Hkk. destruct (decide ((k + 1) * P ≤ w)) as [Hle|Hgt].
    + destruct (rg_live _ _ _ _ Hrg k Hk0 Hrk Hle) as (n & ds & Hn & Hsl). exists n, ds.
      split; [done|]. rewrite Hframe by lia. done.
    + exists w. rewrite Hslot. destruct s as [st ds]. cbn in Hv. subst st. exists ds. split; [lia|done].
Qed.
End ring.
