(* ===== verification/RingFacts.v ===== *)
(** * Circular store: appending to and consuming from the ring

    The runs of [write_circular_fragment] at the end and of
    [delete_circular_fragment] at the start of a ring, and what they leave. *)

From stdpp Require Import base list list_numbers numbers option.
From S2P Require Import Prelude NorFlash InMemoryFlash BlockLayer BlockFacts BlockProps BlockDev.
From S2P Require Import BlockRefine FlashDb CircularStore CircularFacts CircularProps CircularScan.
From S2P Require Import CircularRing.

Section props.
Context {D E : Type} (B : Z) `{!BlockDev B D E} `{!BlockDevLaws B D E}.
Context (c : Circular).
Abbreviation o := (circ_obj c).
Abbreviation P := (fragments_per_block B o).
Abbreviation nb := (n_blocks o).
Abbreviation dev_step := (flash_step dev_wf dev_healthy dev_blocks dev_block).
Abbreviation same := (dev_step nowhere).

(** A ring without blocks of this circular is the empty log. *)
Lemma ring_init d :
  (∀ j b, 0 ≤ j < nb → dev_block d (obj_start o + j) = Some b → own_layout c b = false) →
  0 < P → 0 < nb → ring B c d 0 0 0.
Proof. intros Hv HP Hnb. split; try lia; [done|]. intros j b Hj. apply Hv. lia. Qed.

Lemma ring_is_u32 d top r w : 0 < P → ring B c d top r w → room B c d top r w → is_u32 w.
Proof.
  intros HP Hrg Hroom. pose proof (rg_w _ _ _ _ _ _ Hrg). pose proof (rg_fit _ _ _ _ _ _ Hrg).
  unfold is_u32. destruct Hroom as [?|(? & ? & _)]; lia.
Qed.

(** At the end of the ring there is an empty slot, or a block that may be formatted. *)
Lemma ring_writeable d top r w data blocks :
  dev_wf d → obj_ok B blocks o → ring B c d top r w → room B c d top r w →
  len data ≤ obj_fragment_size o →
  writeable B c d w data ∧ no_overflow B c w (dev_block d (block_of B o w)).
Proof.
  intros Hwf Ho Hrg Hroom Hlen. pose proof (P_pos B c blocks Ho) as HP. pose proof (nb_pos B c blocks Ho) as Hnb.
  pose proof (ring_is_u32 d top r w HP Hrg Hroom) as Hu.
  pose proof (rg_w _ _ _ _ _ _ Hrg) as [Hw0 Hw]. pose proof (rg_fit _ _ _ _ _ _ Hrg) as Hfit.
  pose proof (rg_r _ _ _ _ _ _ Hrg) as [Hr Hrlow]. pose proof (rg_top _ _ _ _ _ _ Hrg) as Htop.
  unfold writeable. rewrite (block_of_phys B c blocks Ho).
  destruct Hroom as [Hlt|(Heq & Hfit' & Hrec & Hauto)].
  - destruct (div_block B c blocks Ho (top - 1) w ltac:(lia)) as [-> _].
    destruct (rg_blocks _ _ _ _ _ _ Hrg (top - 1)) as (b & Hb & (Hlay & Hff & Hst)); [nia|lia|].
    destruct (log_block_slot B c blocks Ho d (top - 1) b w) as [Hsl Hown]; try done; [nia|lia|lia|].
    rewrite Hb. split; [|by left]. split; [done|]. left.
    destruct (dev_block_ok _ _ _ Hwf Hb) as [_ Hbok].
    destruct (owns_slot B c blocks Ho _ _ _ Hbok Hown) as [[st ds] Hs]. exists b, ds.
    split; [done|]. split; [done|]. rewrite Hs. do 2 f_equal.
    assert (circ_slot B c d w = slot_of b w) as Hc.
    { unfold circ_slot. rewrite (block_of_phys B c blocks Ho).
      destruct (div_block B c blocks Ho (top - 1) w ltac:(lia)) as [-> _]. rewrite Hb. cbn. by rewrite Hown. }
    rewrite <-Hc, Hsl in Hs. apply Hst in Hs. cbn in Hs.
    eapply log_status_empty; [exact (proj2 Hr)| |exact Hs]. lia.
  - destruct (div_block B c blocks Ho top w ltac:(lia)) as [-> Hmod].
    destruct (dev_block d (phys c top)) as [b|] eqn:Hb; [|split; [split; [done|]; right; split; [done|lia]|done]].
    destruct (own_layout c b) eqn:Hlay.
    2: { split; [|by right; left]. split; [done|]. right. split; [|lia]. cbn.
      unfold owns. rewrite Hlay. split; [done|]. split; [done|]. intros _. by apply (Hauto b). }
    destruct (decide (top < nb)) as [Ht|Ht].
    { rewrite (rg_vacant _ _ _ _ _ _ Hrg top b) in Hlay; [done|lia|]. rewrite <-Hb. f_equal. unfold phys.
      by rewrite Z.mod_small by lia. }
    destruct (rg_blocks _ _ _ _ _ _ Hrg (top - nb)) as (b' & Hb' & (_ & Hff & Hst)); [lia|lia|].
    rewrite (phys_wrap B c blocks Ho), Hb in Hb'. injection Hb' as <-.
    destruct (log_block_len B c d top b Hwf Hb Hlay) as [Hl Hcnt]. unfold len in Hl.
    split; [|right; right; nia]. split; [done|]. right. split; [|lia]. cbn.
    split; [|split; [|by rewrite Hlay]].
    + unfold owns. rewrite Hlay, Hff, Hmod, Heq. rewrite wrapping_add_small by nia. cbn.
      apply Z.eqb_neq. nia.
    + intros _. right. apply Forall_lookup. intros i s Hs Hv. pose proof (lookup_lt_Some _ _ _ Hs).
      apply Hst in Hs. unfold log_status in Hs. unfold is_status in Hv.
      rewrite (proj2 (Z.ltb_lt _ r)) in Hs by nia. rewrite Hv in Hs. by destruct Hs.
Qed.

(** The blocks of the object that the ring uses. *)
Definition in_ring (i : Z) : Prop := obj_start o ≤ i < obj_end o - 1.

Lemma phys_in_ring blocks k : obj_ok B blocks o → in_ring (phys c k).
Proof.
  intros Ho. pose proof (oo_blocks _ _ _ Ho). unfold in_ring, phys, n_blocks in *.
  pose proof (Z.mod_pos_bound k (obj_end o - obj_start o - 1)). lia.
Qed.

Lemma ring_push d top r w data :
  dev_wf d → dev_healthy d → obj_ok B (dev_blocks d) o → Forall is_u8 data →
  len data ≤ obj_fragment_size o → ring B c d top r w → room B c d top r w →
  ∃ d', write_circular_fragment B c w data d = (Ok tt, d') ∧
    dev_wf d' ∧ dev_healthy d' ∧ dev_blocks d' = dev_blocks d ∧
    ring B c d' (next_top B c top w) r (w + 1) ∧
    (∃ s, circ_slot B c d' w = Some s ∧ holds data s) ∧
    (∀ n, r ≤ n < w → circ_slot B c d' n = circ_slot B c d n) ∧
    dev_step in_ring d d'.
Proof.
  intros Hwf Hh Ho Hu8 Hlen Hrg Hroom.
  destruct (ring_writeable d top r w data _ Hwf Ho Hrg Hroom Hlen) as [Hwr Hov].
  pose proof (ring_is_u32 d top r w (P_pos B c _ Ho) Hrg Hroom) as Hu.
  destruct (write_circular_fragment B c w data d) as [res d'] eqn:Hrun.
  pose proof (wp_run _ _ _ _ _ _ (wp_write_circular B c _ Ho d w data Hwf eq_refl Hu (or_intror Hov) Hu8) Hrun) as Hp.
  cbv zeta in Hp. destruct res as [[]|e|]; [| |done].
  2: { destruct Hp as (_ & _ & He). by destruct (writeable_no_error B c d w data e Hwf Ho Hu Hwr (He Hh)). }
  destruct Hp as (Hs & b & s & Hb & Hown & _ & Hho & Hd).
  assert (block_ok B (block_of B o w) b) as Hbok
    by (destruct Hb as [Hb|Hre]; [by eapply dev_block_ok|by eapply reformatted_ok]).
  rewrite (block_of_phys B c _ Ho) in Hs, Hb, Hd, Hbok.
  assert (∀ i, i ≠ phys c (w / P) → dev_block d' i = dev_block d i) as Hother
    by (intros; by eapply step_other).
  destruct (ring_after_write B c _ Ho d d' top r w b s) as [Hrg' Hsl];
    try done; [apply Hs|apply Hho|].
  exists d'. split; [done|]. split; [apply Hs|]. split; [by apply (fs_healthy Hs)|].
  split; [by apply same_blocks in Hs|]. split; [done|]. split; [by eauto|]. split.
  2: { eapply flash_step_weaken; [exact Hs|]. intros i ->. by eapply phys_in_ring. }
  intros n Hn. by apply (ring_slot_frame B c _ Ho d d' top r w b s n Hwf (fs_wf Hs)).
Qed.

(** Deleting fragment [r] of a block and moving the start to [r']. *)
Lemma log_block_delete r r' w k b ds :
  log_block B c r w k b → r < r' ≤ w → rel_of (blk_hdr b) r = r - k * P → k * P ≤ r →
  (∀ i s, blk_slots b !! i = Some s → r < k * P + Z.of_nat i < r' → s.1 = Invalid) →
  log_block B c r' w k (set_slot b r (Obsolete, ds)).
Proof.
  intros (Hlay & Hff & Hst) Hr Hrel Hk Hinv. split; [done|]. split; [done|].
  unfold set_slot. cbn [blk_slots]. rewrite Hrel. intros i s Hs.
  apply list_lookup_insert_Some in Hs as [(<- & <- & Hi)|[Hne Hs]].
  - unfold log_status. rewrite (proj2 (Z.ltb_lt _ _)) by lia. by left.
  - pose proof (Hst i s Hs) as Hl. pose proof (Hinv i s Hs) as Hin. unfold log_status in *.
    destruct (Z.ltb_spec (k * P + Z.of_nat i) r), (Z.ltb_spec (k * P + Z.of_nat i) r'); try done; try lia.
    right. apply Hin. lia.
Qed.

Lemma log_block_advance r r' w k b :
  log_block B c r w k b → r ≤ r' ≤ w → len (blk_slots b) = P → r < k * P ∨ (k + 1) * P ≤ r →
  (∀ i s, blk_slots b !! i = Some s → r < k * P + Z.of_nat i < r' → s.1 = Invalid) →
  log_block B c r' w k b.
Proof.
  intros (Hlay & Hff & Hst) Hr Hlen Hk Hinv. unfold len in Hlen. split; [done|]. split; [done|]. intros i s Hs.
  pose proof (lookup_lt_Some _ _ _ Hs).
  pose proof (Hst i s Hs) as Hl. pose proof (Hinv i s Hs) as Hin. unfold log_status in *.
  destruct (Z.ltb_spec (k * P + Z.of_nat i) r), (Z.ltb_spec (k * P + Z.of_nat i) r'); try done; try lia.
  right. apply Hin. lia.
Qed.

(** A position of the live part lies in a block that is in place. *)
Lemma ring_locate d top r w n :
  0 < P → ring B c d top r w → r ≤ n < w →
  (n / P) * P ≤ n < (n / P + 1) * P ∧ 0 ≤ n / P ∧ top - nb ≤ n / P < top.
Proof.
  intros HP Hrg Hn. pose proof (rg_w _ _ _ _ _ _ Hrg) as [Hw0 Hw]. pose proof (rg_r _ _ _ _ _ _ Hrg) as [Hr Hrlow].
  pose proof (Z.mul_div_le n P ltac:(lia)). pose proof (Z.mul_succ_div_gt n P ltac:(lia)).
  split; [lia|]. split; [apply Z.div_pos; lia|].
  split; [apply Z.div_le_lower_bound; lia|apply Z.div_lt_upper_bound; nia].
Qed.

(** The run of a delete of a valid fragment. *)
Lemma wp_delete_valid d n b ds :
  dev_wf d → dev_healthy d → obj_ok B (dev_blocks d) o → is_u32 n →
  dev_block d (phys c (n / P)) = Some b → own_layout c b = true → owns B c n b = true →
  slot_of b n = Some (Valid, ds) →
  wp (delete_circular_fragment B c n)
    (λ _ d', dev_step (λ i, i = phys c (n / P)) d d' ∧
       dev_block d' (phys c (n / P)) = Some (set_slot b n (Obsolete, ds))) (λ _ _, False) d.
Proof.
  intros Hwf Hh Ho Hu Hb Hlay Hown Hslot.
  unfold delete_circular_fragment. wp_steps. apply (wp_find_block B c _ Ho); try done.
  - rewrite (block_of_phys B c _ Ho), Hb. cbn. rewrite Hlay, Hown. cbn. intros d1 h H1 [= <-]. wp_steps.
    eapply wp_mono; [by apply (dev_delete_law d1 (phys c (n / P)) b); [apply H1|by rewrite (same_block d)]| |];
      cbv beta; rewrite Hslot.
    + intros [] d2 (H2 & st & ds' & [= <- <-] & Hd2). split; [|done].
      eapply flash_step_trans; [by apply flash_step_nowhere|done].
    + intros e d2 (H2 & Hn & _). apply Hn. by apply (fs_healthy H1).
  - rewrite (block_of_phys B c _ Ho), Hb. cbn. by rewrite Hlay, Hown.
Qed.

(** A change of one slot leaves the other fragments alone. *)
Lemma set_slot_frame d d' n b s m :
  dev_wf d → obj_ok B (dev_blocks d) o → dev_block d (phys c (n / P)) = Some b → owns B c n b = true →
  dev_step (λ i, i = phys c (n / P)) d d' → dev_block d' (phys c (n / P)) = Some (set_slot b n s) →
  m ≠ n → circ_slot B c d' m = circ_slot B c d m.
Proof.
  intros Hwf Ho Hb Hown Hs Hd' Hm. destruct (dev_block_ok _ _ _ Hwf Hb) as [_ Hbok].
  unfold circ_slot. rewrite (block_of_phys B c _ Ho).
  destruct (decide (phys c (m / P) = phys c (n / P))) as [Heq|Hne].
  - rewrite Heq, Hd', Hb. cbn. change (owns B c m (set_slot b n s)) with (owns B c m b).
    destruct (owns B c m b) eqn:Hown'; [|done]. apply slot_of_set_slot_ne.
    intros Hrr. apply Hm. symmetry. by eapply (owns_inj B c _ Ho).
  - by rewrite (step_other d d' _ _ Hs).
Qed.

(** Torn writes of the ring, seen in the block that holds them. *)
Lemma ring_torn d top r r' w k b i s :
  dev_wf d → obj_ok B (dev_blocks d) o → ring B c d top r w →
  (∀ n, r < n < r' → ∃ ds, circ_slot B c d n = Some (Invalid, ds)) →
  0 ≤ k < top → dev_block d (phys c k) = Some b → log_block B c r w k b →
  blk_slots b !! i = Some s → r < k * P + Z.of_nat i < r' → s.1 = Invalid.
Proof.
  intros Hwf Ho Hrg Htorn Hk Hb (Hlay & Hff & _) Hs Hi. destruct (Htorn _ Hi) as [ds' Hds'].
  pose proof (P_pos B c _ Ho). pose proof (rg_fit _ _ _ _ _ _ Hrg).
  destruct (log_block_len B c d k b Hwf Hb Hlay) as [Hl _]. unfold len in Hl.
  pose proof (lookup_lt_Some _ _ _ Hs).
  destruct (log_block_slot B c _ Ho d k b (k * P + Z.of_nat i)) as [Heq _]; try done; [lia|nia|nia|].
  rewrite Heq in Hds'. replace (Z.to_nat _) with i in Hds' by lia. rewrite Hs in Hds'. by injection Hds' as ->.
Qed.

(** The ring after the first live fragment was deleted. *)
Lemma ring_after_delete d d' top r r' w b ds :
  dev_wf d → obj_ok B (dev_blocks d) o → ring B c d top r w → r < r' ≤ w →
  (∀ n, r < n < r' → ∃ ds, circ_slot B c d n = Some (Invalid, ds)) →
  (r' < w → ∃ ds, circ_slot B c d r' = Some (Valid, ds)) →
  dev_block d (phys c (r / P)) = Some b → log_block B c r w (r / P) b → owns B c r b = true →
  dev_step (λ i, i = phys c (r / P)) d d' →
  dev_block d' (phys c (r / P)) = Some (set_slot b r (Obsolete, ds)) →
  ring B c d' top r' w.
Proof.
  intros Hwf Ho Hrg Hr' Htorn Hnext Hb Hlb Hown Hs Hd'.
  pose proof (P_pos B c _ Ho) as HP. destruct (ring_locate d top r w r HP Hrg ltac:(lia)) as (Hrk & Hk0 & Hk).
  pose proof (rg_r _ _ _ _ _ _ Hrg) as [Hr Hrlow].
  destruct (dev_block_ok _ _ _ Hwf Hb) as [_ Hbok].
  destruct (owns_rel B c _ Ho _ _ _ Hbok Hown) as (Hrel & _).
  destruct (div_block B c _ Ho (r / P) r Hrk) as [_ Hmod].
  assert (∀ n, n ≠ r → circ_slot B c d' n = circ_slot B c d n) as Hframe
    by (intros; by eapply set_slot_frame).
  split; try lia; try (by apply Hrg).
  - intros k Hk0' Hkr. destruct (decide (k = r / P)) as [->|Hne].
    + exists (set_slot b r (Obsolete, ds)). split; [done|].
      apply (log_block_delete r r' w); [done|done|by rewrite Hrel|lia|].
      intros i s Hi. eapply (ring_torn d top r r' w (r / P) b); done || lia.
    + destruct (rg_blocks _ _ _ _ _ _ Hrg k Hk0' Hkr) as (b' & Hb' & Hlb').
      exists b'. rewrite (step_other d d' _ _ Hs).
      2: { intros Hph. apply Hne. apply (phys_inj B c _ Ho); [lia|done]. }
      split; [done|]. destruct (log_block_len B c d k b' Hwf Hb' (proj1 Hlb')) as [Hl _].
      apply (log_block_advance r r' w); [done|lia|done|nia|].
      intros i s Hi. eapply (ring_torn d top r r' w k b'); done || lia.
  - intros j b' Hj Hb'. apply (rg_vacant _ _ _ _ _ _ Hrg j b' Hj). rewrite <-Hb'. symmetry.
    apply (step_other d d' _ _ Hs). unfold phys. rewrite Z.mod_small by lia. lia.
  - intros Hlt. rewrite Hframe by lia. by apply Hnext.
  - intros k Hk0' Hrk' Hkw. destruct (rg_live _ _ _ _ _ _ Hrg k) as (n & ds' & Hn & Hsl'); [lia|lia|done|].
    exists n, ds'. split; [done|]. rewrite Hframe by lia. done.
Qed.

Lemma ring_pop d top r r' w :
  dev_wf d → dev_healthy d → obj_ok B (dev_blocks d) o → ring B c d top r w →
  r < r' ≤ w →
  (∀ n, r < n < r' → ∃ ds, circ_slot B c d n = Some (Invalid, ds)) →
  (r' < w → ∃ ds, circ_slot B c d r' = Some (Valid, ds)) →
  ∃ d', delete_circular_fragment B c r d = (Ok tt, d') ∧
    dev_wf d' ∧ dev_healthy d' ∧ dev_blocks d' = dev_blocks d ∧ ring B c d' top r' w ∧
    (∀ n, r < n < w → circ_slot B c d' n = circ_slot B c d n) ∧
    dev_step in_ring d d'.
Proof.
  intros Hwf Hh Ho Hrg Hr' Htorn Hnext. pose proof (P_pos B c _ Ho) as HP.
  destruct (ring_locate d top r w r HP Hrg ltac:(lia)) as (Hrk & Hk0 & Hk).
  pose proof (rg_fit _ _ _ _ _ _ Hrg) as Hfit. pose proof (rg_r _ _ _ _ _ _ Hrg) as [Hr _].
  destruct (rg_blocks _ _ _ _ _ _ Hrg (r / P) Hk0 Hk) as (b & Hb & Hlb).
  pose proof Hlb as (Hlay & Hff & _).
  destruct (log_block_slot B c _ Ho d (r / P) b r) as [Hsl Hown]; try done; [nia|].
  destruct (rg_first _ _ _ _ _ _ Hrg ltac:(lia)) as [ds Hds].
  assert (slot_of b r = Some (Valid, ds)) as Hslot.
  { rewrite <-Hds. unfold circ_slot. rewrite (block_of_phys B c _ Ho), Hb. cbn. by rewrite Hown. }
  assert (is_u32 r) as Hu by (unfold is_u32; nia).
  destruct (wp_ok _ _ _ (wp_delete_valid d r b ds Hwf Hh Ho Hu Hb Hlay Hown Hslot)) as ([] & d' & Hrun & Hs & Hd').
  exists d'. split; [done|]. split; [apply Hs|]. split; [by apply (fs_healthy Hs)|].
  split; [by apply same_blocks in Hs|]. split; [by eapply ring_after_delete|]. split.
  2: { eapply flash_step_weaken; [exact Hs|]. intros i ->. by eapply phys_in_ring. }
  intros n Hn. eapply set_slot_frame; try done. lia.
Qed.

Lemma ring_find d top r w :
  dev_wf d → dev_healthy d → obj_ok B (dev_blocks d) o → ring B c d top r w →
  ∃ d', find_circular_range B c d = (Ok (mkCircularRange r w), d') ∧ same d d'.
Proof.
  intros Hwf Hh Ho Hrg.
  assert (wp (find_circular_range B c) (λ rg d', rg = mkCircularRange r w ∧ same d d') (λ _ _, False) d) as Hwp.
  { by eapply (wp_find_circular_range B c). }
  apply wp_ok in Hwp as (rg & d' & Hrun & -> & Hs). by exists d'.
Qed.
End props.

(** ** Circular store: correctness of recovery, appending and consuming

    The circular store is a persistent FIFO: the range found by the scan is the
    live range, appending at its end and deleting at its start move it by one. *)

Section props.
Context {D E : Type} (B : Z) `{!BlockDev B D E} `{!BlockDevLaws B D E}.
Context (c : Circular).
Abbreviation o := (circ_obj c).
Abbreviation P := (fragments_per_block B o).
Abbreviation nb := (n_blocks o).
Abbreviation dev_step := (flash_step dev_wf dev_healthy dev_blocks dev_block).
Abbreviation same := (dev_step nowhere).

(** C7: the range survives a restart.  On a device without faults that holds
    the log [0, w) with live part [r, w), scanning the blocks returns exactly
    [r..w], in the middle of a block, at a block boundary, with the ring
    wrapped, with nothing live and on a new store alike, and writes nothing. *)
Theorem find_circular_range_recovers d top r w :
  dev_wf d → dev_healthy d → obj_ok B (dev_blocks d) o → ring B c d top r w →
  ∃ d', find_circular_range B c d = (Ok (mkCircularRange r w), d') ∧
    ∀ i, dev_block d' i = dev_block d i.
Proof.
  intros. destruct (ring_find B c d top r w) as (d' & ? & Hs); try done.
  exists d'. split; [done|]. intros i. by apply same_block.
Qed.

(** Appending.  With room at the end of the ring, writing at [w] succeeds,
    stores the data there, keeps every live fragment and extends the live part
    to [r, w+1), opening the next block of the ring when [w] starts one. *)
Theorem ring_append d top r w data :
  dev_wf d → dev_healthy d → obj_ok B (dev_blocks d) o → Forall is_u8 data →
  len data ≤ obj_fragment_size o → ring B c d top r w → room B c d top r w →
  ∃ d', write_circular_fragment B c w data d = (Ok tt, d') ∧
    ring B c d' (next_top B c top w) r (w + 1) ∧
    (∃ s, circ_slot B c d' w = Some s ∧ holds data s) ∧
    (∀ n, r ≤ n < w → circ_slot B c d' n = circ_slot B c d n).
Proof.
  intros. destruct (ring_push B c d top r w data) as (d' & ? & _ & _ & _ & ? & ? & ? & _); try done.
  by exists d'.
Qed.

(** Consuming.  Deleting the first live fragment succeeds, keeps every
    other live fragment, and moves the start of the live part to the next
    fragment [r'] that is not a torn write. *)
Theorem ring_consume d top r r' w :
  dev_wf d → dev_healthy d → obj_ok B (dev_blocks d) o → ring B c d top r w →
  r < r' ≤ w →
  (∀ n, r < n < r' → ∃ ds, circ_slot B c d n = Some (Invalid, ds)) →
  (r' < w → ∃ ds, circ_slot B c d r' = Some (Valid, ds)) →
  ∃ d', delete_circular_fragment B c r d = (Ok tt, d') ∧ ring B c d' top r' w ∧
    (∀ n, r < n < w → circ_slot B c d' n = circ_slot B c d n).
Proof.
  intros. destruct (ring_pop B c d top r r' w) as (d' & ? & _ & _ & _ & ? & ? & _); try done.
  by exists d'.
Qed.
End props.

(** ** Instances: the ring of [DemoCirc] with fragments 0 and 1 live. *)

Module DemoRing.
Import Demo DemoDev DemoCirc.

Lemma demo_ring : ring 64 (circ false) ring2 1 0 2.
Proof.
  assert (fragments_per_block 64 (circ_obj (circ false)) = 4) as HP by done.
  assert (n_blocks (circ_obj (circ false)) = 3) as Hnb by done.
  split; rewrite ?HP, ?Hnb; [lia|done|lia|lia|..].
  - intros k Hk0 Hk. assert (k = 0) as -> by lia.
    eexists. split; [vm_compute; reflexivity|]. split; [reflexivity|]. split; [reflexivity|].
    intros i s Hs. do 4 (destruct i as [|i]; [injection Hs as <-; vm_compute; auto|]). done.
  - intros j b Hj.
    assert (j = 1 ∨ j = 2) as [-> | ->] by lia; vm_compute; done.
  - intros _. eexists. vm_compute. reflexivity.
  - intros k Hk0 Hk1 Hk2. lia.
Qed.
End DemoRing.
Import Demo DemoDev DemoCirc DemoRing.

Lemma find_circular_range_recovers_witness :
  ∃ d', find_circular_range 64 (circ false) ring2 = (Ok (mkCircularRange 0 2), d') ∧
    ∀ i, dev_block d' i = dev_block ring2 i.
Proof.
  apply (find_circular_range_recovers 64 (circ false) ring2 1 0 2);
    [by apply demo_ok|done|apply circ_ok|apply demo_ring].
Defined.

Lemma ring_append_witness :
  ∃ d', write_circular_fragment 64 (circ false) 2 [9; 8] ring2 = (Ok tt, d') ∧
    ring 64 (circ false) d' (next_top 64 (circ false) 1 2) 0 (2 + 1) ∧
    (∃ s, circ_slot 64 (circ false) d' 2 = Some s ∧ holds [9; 8] s) ∧
    (∀ n, 0 ≤ n < 2 → circ_slot 64 (circ false) d' n = circ_slot 64 (circ false) ring2 n).
Proof.
  apply (ring_append 64 (circ false) ring2 1 0 2 [9; 8]);
    [by apply demo_ok|done|apply circ_ok|by apply u8s|done|apply demo_ring|by left].
Defined.

Lemma ring_consume_witness :
  ∃ d', delete_circular_fragment 64 (circ false) 0 ring2 = (Ok tt, d') ∧
    ring 64 (circ false) d' 1 1 2 ∧
    (∀ n, 0 < n < 2 → circ_slot 64 (circ false) d' n = circ_slot 64 (circ false) ring2 n).
Proof.
  apply (ring_consume 64 (circ false) ring2 1 0 1 2);
    [by apply demo_ok|done|apply circ_ok|apply demo_ring|lia|lia|].
  intros _. eexists. vm_compute. reflexivity.
Defined.
