(* ===== verification/FileStore.v ===== *)
(** * File store

    [storage/flash_db/file_store.rs]: whole files and file fragments on top of
    the database.  Reads return the bytes they put in a buffer of length
    [buf_len]. *)

From stdpp Require Import base list list_numbers numbers option.
From S2P Require Import Prelude NorFlash BlockLayer BlockFacts BlockDev FlashDb.

Record FileHandle : Type := mkFileHandle { fh_file : Object; fh_version : Z }.
Record WriteableFileHandle : Type := mkWriteableFileHandle { wfh_handle : FileHandle }.

(** The lengths of the chunks of [bytes.chunks_mut(n)] for a buffer of [buf_len] bytes. *)
Definition chunk_lens (n buf_len : Z) : list Z :=
  len <$> chunks n (replicate (Z.to_nat buf_len) tt).

Section file_store.
Context {D E : Type} (B : Z) `{!BlockDev B D E}.
Abbreviation MD := (M D Error).

Definition initialize : MD unit := mret tt.

Definition file_handle (file : Object) : MD FileHandle :=
  status ← lock_status B file LockSpare;
  match status with
  | Unlocked version => mret (mkFileHandle file version)
  | Locked => fail Error_FileNotReadable
  end.

Definition read_file_fragment (filehandle : FileHandle) (fragment_index buf_len : Z) :
    MD (list Z) :=
  let file := fh_file filehandle in
  fc ← obj_fragment_count B file;
  if as_u32 fc <=? fragment_index then fail Error_NoSpaceAvailable
  else
    cap ← capacity_of B file;
    max_capacity_remaining ← usize_sub cap (fragment_index * obj_fragment_size file);
    let n := Z.min buf_len max_capacity_remaining in
    q ← u32_div fragment_index (as_u32 (fragments_per_block B file));
    block_no ← u32_add (obj_start file) q;
    fragment_in_block ← u32_rem fragment_index (as_u32 (fragments_per_block B file));
    header ← try! (dev_block_header block_no);
    match header with
    | None => fail Error_FragmentNotReadable
    | Some block =>
        if negb (object_version block =? fh_version filehandle)
        then fail Error_FragmentNotReadable
        else
          frag_no ← u32_add (first_fragment block) fragment_in_block;
          try! (dev_read_fragment block frag_no n)
    end.

(** The loop of [read_file] over the chunks from number [frag_index] on; [acc]
    is what was read so far. *)
Fixpoint read_file_chunks (handle : FileHandle) (max_n_frags frag_index : Z) (acc : list Z)
    (lens : list Z) : MD (list Z) :=
  match lens with
  | [] => mret acc
  | chunk_len :: lens =>
      if max_n_frags <=? frag_index then mret acc
      else
        r ← attempt (read_file_fragment handle (as_u32 frag_index) chunk_len);
        bs ← match r with
             | inr Error_FragmentNotReadable =>
                 if 0 <? len acc then mret [] else fail Error_FileNotReadable
             | inr e => fail e
             | inl bs => mret bs
             end;
        if negb (len bs =? chunk_len) then mret (acc ++ bs)
        else read_file_chunks handle max_n_frags (frag_index + 1) (acc ++ bs) lens
  end.

Definition read_file (file : Object) (buf_len : Z) : MD (list Z) :=
  handle ← file_handle file;
  cap ← capacity_of B file;
  let n := Z.min buf_len cap in
  max_n_frags ← obj_fragment_count B file;
  if obj_fragment_size file =? 0 then panic (* [chunks_mut(0)] *)
  else read_file_chunks handle max_n_frags 0 [] (chunk_lens (obj_fragment_size file) n).

Definition initialize_writeable (auto_format : bool) : MD InitStatus :=
  initialize;; mret Init_Existing.

Definition write_file_fragment (filehandle : WriteableFileHandle) (fragment_index : Z)
    (bytes : list Z) : MD unit :=
  let file := fh_file (wfh_handle filehandle) in
  fc ← obj_fragment_count B file;
  if as_u32 fc <=? fragment_index then fail Error_NoSpaceAvailable
  else
    cap ← capacity_of B file;
    max_capacity_remaining ← usize_sub cap (fragment_index * obj_fragment_size file);
    if max_capacity_remaining <? len bytes then fail Error_NoSpaceAvailable
    else
      q ← u32_div fragment_index (as_u32 (fragments_per_block B file));
      block_no ← u32_add (obj_start file) q;
      block ← prepare_writeable_block B file block_no (fh_version (wfh_handle filehandle));
      fragment_in_block ← u32_rem fragment_index (as_u32 (fragments_per_block B file));
      frag_no ← u32_add (first_fragment block) fragment_in_block;
      try! (dev_write_fragment block frag_no bytes).

Definition delete (file : Object) : MD WriteableFileHandle :=
  delete_object B file SoftVersion;;
  handle ← file_handle file;
  mret (mkWriteableFileHandle handle).

Fixpoint write_file_chunks (handle : WriteableFileHandle) (max_n_frags frag_index : Z)
    (cs : list (list Z)) : MD unit :=
  match cs with
  | [] => mret tt
  | chunk :: cs =>
      if max_n_frags <=? frag_index then fail Error_NoSpaceAvailable
      else
        write_file_fragment handle (as_u32 frag_index) chunk;;
        write_file_chunks handle max_n_frags (frag_index + 1) cs
  end.

Definition write_file (file : Object) (bytes : list Z) : MD unit :=
  cap ← capacity_of B file;
  if cap <? len bytes then fail Error_NoSpaceAvailable
  else
    lock B file LockSpare;;
    w_handle ← delete file;
    max_n_frags ← obj_fragment_count B file;
    (if obj_fragment_size file =? 0 then panic (* [chunks(0)] *)
     else write_file_chunks w_handle max_n_frags 0 (chunks (obj_fragment_size file) bytes));;
    unlock B file LockSpare (fh_version (wfh_handle w_handle)).
End file_store.
