(* ===== verification/FileFacts.v ===== *)
(** * File store: what the operations do, on a device without faults

    [file_state d cs m] is the state between two fragment writes of
    [write_file]: the spare block is unlocked with version [nv], the first [m]
    chunks of [cs] are stored, every other slot of the blocks opened so far is
    empty, and the blocks after them are from older versions. *)

From stdpp Require Import base list list_numbers numbers option.
From S2P Require Import Prelude NorFlash BlockLayer BlockFacts BlockDev FlashDb FileStore.

(** ** Chunks *)

Lemma chunks_fuel_lens {A C} fuel n (l : list A) (l' : list C) :
  length l = length l' → len <$> chunks_fuel fuel n l = len <$> chunks_fuel fuel n l'.
Proof.
  revert l l'. induction fuel as [|fuel IH]; intros [|x l] [|x' l'] Hl; try done.
  change (len (take n (x :: l)) :: (len <$> chunks_fuel fuel n (drop n (x :: l))) =
    len (take n (x' :: l')) :: (len <$> chunks_fuel fuel n (drop n (x' :: l')))). f_equal.
  - unfold len. rewrite !length_take. by rewrite Hl.
  - apply IH. rewrite !length_drop. by rewrite Hl.
Qed.

Lemma chunk_lens_eq n (l : list Z) : chunk_lens n (len l) = len <$> chunks n l.
Proof.
  unfold chunk_lens, chunks. replace (Z.to_nat (len l)) with (length l) by (unfold len; lia).
  rewrite length_replicate. apply chunks_fuel_lens. apply length_replicate.
Qed.

Lemma chunks_fuel_bound {A} fuel n (l : list A) i c :
  (0 < n)%nat → chunks_fuel fuel n l !! i = Some c →
  (i * n + length c ≤ length l)%nat ∧ (length c ≤ n)%nat ∧ (0 < length c)%nat.
Proof.
  intros Hn. revert l i. induction fuel as [|fuel IH]; intros [|x l] [|i] Hc; try done.
  - injection Hc as <-. destruct n; [lia|]. cbn. rewrite length_take. lia.
  - apply IH in Hc. rewrite length_drop in Hc. cbn [length] in *. lia.
Qed.

Lemma chunks_bound {A} n (l : list A) i c :
  0 < n → chunks n l !! i = Some c →
  Z.of_nat i * n + len c ≤ len l ∧ len c ≤ n ∧ 0 < len c.
Proof. intros Hn Hc. apply chunks_fuel_bound in Hc; [|lia]. unfold len. lia. Qed.

Section facts.
Context {D E : Type} (B : Z) `{!BlockDev B D E} `{!BlockDevLaws B D E}.
Context (o : Object) (blocks : Z) (Ho : obj_ok B blocks o) (nv : Z) (Hnv : is_u8 nv).
Context (Hfs : 0 < obj_fragment_size o).
Abbreviation P := (fragments_per_block B o).
Abbreviation nb := (n_blocks o).
Abbreviation N := (n_frags B o).
Abbreviation dev_step := (flash_step dev_wf dev_healthy dev_blocks dev_block).
Abbreviation same := (dev_step nowhere).

(** A device that works, of the size the object was made for. *)
Record good (d : D) : Prop := {
  g_wf : dev_wf d;
  g_healthy : dev_healthy d;
  g_blocks : dev_blocks d = blocks;
}.

Lemma good_step Q d d' : good d → dev_step Q d d' → good d'.
Proof.
  intros [? ? Hb] Hs. split; [apply Hs|by apply (fs_healthy Hs)|]. by rewrite (fs_capacity Hs).
Qed.

(** How often the block was erased, by its numbering. *)
Definition epoch (ob : option Block) : Z :=
  match ob with None => 0 | Some b => first_frag_no (blk_hdr b) / N end.

(** The numbering of block [bid], one epoch on, still fits in [u32]. *)
Definition epoch_fits (bid : Z) (ob : option Block) : Prop :=
  bid * P + (epoch ob + 1) * N + P ≤ u32_size.

Definition writeable_block (b : Block) : Prop :=
  is_writeable o nv (blk_hdr b) = true ∧ first_frag_no (blk_hdr b) + P ≤ u32_size.

(** The header that the next format of block [bid] writes. *)
Definition next_header (bid ver : Z) (ob : option Block) : option BlockHeader :=
  try_new B bid (obj_id o) ver (obj_fragment_size o) (bid * P + (epoch ob + 1) * N).

Lemma next_header_Some bid ver ob :
  ∃ h, next_header bid ver ob = Some h ∧ object_id h = obj_id o ∧ object_version h = ver ∧
    frag_size h = obj_fragment_size o ∧ frag_count h = P ∧
    first_frag_no h = bid * P + (epoch ob + 1) * N.
Proof.
  unfold next_header, try_new. pose proof (oo_fpb _ _ _ Ho) as Hf. unfold fragments_per_block in Hf.
  destruct (Z.eqb_spec (calculate_fragments_per_block B (obj_fragment_size o)) 0); [lia|].
  eexists. split; [reflexivity|]. done.
Qed.

Lemma epoch_nonneg ob d bid : dev_wf d → dev_block d bid = ob → 0 ≤ epoch ob.
Proof.
  intros Hwf Hb. destruct ob as [b|]; [|done]. cbn.
  destruct (dev_block_ok _ _ _ Hwf Hb) as [_ Hok]. destruct (bok_first _ _ _ Hok).
  pose proof (n_frags_pos B blocks o Ho). apply Z.div_pos; lia.
Qed.

(** [format_next] formats the block for the next epoch. *)
Lemma wp_format_next d bid ver ob (Q : unit → D → Prop) (R : Error → D → Prop) :
  good d → 0 ≤ bid < blocks → is_u8 ver → 0 ≤ epoch ob → epoch_fits bid ob →
  (∀ d' h, good d' → dev_step (λ i, i = bid) d d' → next_header bid ver ob = Some h →
     dev_block d' bid = Some (fresh_block h) → Q tt d') →
  wp (format_next B o bid ver (bid * P) (epoch ob) N) Q R d.
Proof.
  intros Hg Hb Hv He Hfit HQ. unfold format_next, epoch_fits in *.
  pose proof (n_frags_pos B blocks o Ho). pose proof (oo_fpb _ _ _ Ho). pose proof Hg as [Hwf Hh Hbl].
  wp_steps. apply wp_u32_add; [nia|]. wp_steps. apply wp_u32_mul; [nia|]. wp_steps.
  rewrite wrapping_add_small by nia. rewrite as_u16_small by apply Ho.
  destruct (next_header_Some bid ver ob) as (h0 & Hh0 & _).
  apply wp_dev_format; try apply Ho; try done; [by rewrite Hbl|unfold is_u32; nia|..].
  - intros d' h Hs Hh' Hd. eapply HQ; [by eapply good_step|done|exact Hh'|done].
  - intros e d' _ Hx _. destruct (Hx Hh) as [Hno _]. unfold next_header in Hh0. congruence.
Qed.

Lemma wp_bid_mul d bid (Q : Z → D → Prop) (R : Error → D → Prop) :
  0 ≤ bid → bid * P < u32_size → Q (bid * P) d → wp (u32_mul bid (as_u32 P)) Q R d.
Proof. intros. rewrite (fpb_u32 B blocks o Ho). by apply wp_u32_mul. Qed.

(** [prepare_writeable_block] keeps a block of this version and formats any other. *)
Lemma wp_prepare_keep d bid b (Q : BlockHeader → D → Prop) (R : Error → D → Prop) :
  good d → 0 ≤ bid < blocks → bid * P < u32_size → dev_block d bid = Some b →
  is_writeable o nv (blk_hdr b) = true →
  (∀ d', good d' → same d d' → Q (blk_hdr b) d') →
  wp (prepare_writeable_block B o bid nv) Q R d.
Proof.
  intros Hg Hb Hfit Hbl Hw HQ. pose proof Hg as [Hwf Hh Hbs]. unfold prepare_writeable_block. wp_steps.
  apply wp_bid_mul; [lia|done|]. wp_steps. apply (wp_fragment_count B blocks o Ho). wp_steps.
  apply wp_dev_header; [done|by rewrite Hbs| |done]. intros d1 H1.
  rewrite Hbl. cbn [fmap option_fmap option_map]. rewrite Hw. wp_steps. apply HQ; [by eapply good_step|done].
Qed.

Lemma wp_prepare_format d bid (Q : BlockHeader → D → Prop) (R : Error → D → Prop) :
  let ob := dev_block d bid in
  good d → 0 ≤ bid < blocks → epoch_fits bid ob →
  (∀ b, ob = Some b → is_writeable o nv (blk_hdr b) = false) →
  (∀ d' h, good d' → dev_step (λ i, i = bid) d d' → next_header bid nv ob = Some h →
     dev_block d' bid = Some (fresh_block h) → Q h d') →
  wp (prepare_writeable_block B o bid nv) Q R d.
Proof.
  intros ob Hg Hb Hfit Hnw HQ. pose proof Hg as [Hwf Hh Hbs].
  pose proof (n_frags_pos B blocks o Ho) as HN. pose proof (oo_fpb _ _ _ Ho) as HP.
  pose proof (epoch_nonneg ob d bid Hwf eq_refl) as He. unfold epoch_fits in Hfit.
  unfold prepare_writeable_block. wp_steps.
  apply wp_bid_mul; [lia|nia|]. wp_steps. apply (wp_fragment_count B blocks o Ho). wp_steps.
  rewrite Z.max_l by lia. rewrite (n_frags_u32 B blocks o Ho).
  apply wp_dev_header; [done|by rewrite Hbs| |done]. intros d1 H1. fold ob.
  assert (∀ e, e = epoch ob → wp (format_next B o bid nv (bid * P) e N;;
    header ← try! (dev_block_header bid);
    match header with
    | Some block => if is_writeable o nv block then mret block else fail Error_WriteFailedVerify
    | None => fail Error_WriteFailedVerify
    end) Q R d1) as Hfmt.
  { intros e ->. wp_steps. apply wp_format_next; [by eapply good_step|done..|].
    intros d2 h Hg2 H2 Hh2 Hd2. wp_steps.
    apply wp_dev_header; [apply Hg2|by rewrite (g_blocks _ Hg2)| |].
    2: { intros e d3 _ []. apply Hg2. }
    intros d3 H3. rewrite Hd2. cbn [fmap option_fmap option_map blk_hdr fresh_block].
    destruct (next_header_Some bid nv ob) as (h' & Hh' & _ & Hver & Hsz & _).
    assert (h' = h) as -> by congruence. unfold is_writeable, fragment_size. rewrite Hver, Hsz, !Z.eqb_refl. cbn.
    wp_steps. eapply HQ; [by eapply good_step| |exact Hh2|by rewrite (same_block d2)].
    eapply flash_step_trans; [by apply flash_step_nowhere|].
    eapply flash_step_trans; [exact H2|by apply flash_step_nowhere]. }
  destruct ob as [b|] eqn:Hob; cbn [fmap option_fmap option_map].
  - rewrite (Hnw b eq_refl). wp_steps. apply wp_u32_div; [lia|]. apply Hfmt. done.
  - apply Hfmt. done.
Qed.

(** ** The state of a file that is being written *)

Definition file_cap : Z := default (N * obj_fragment_size o) (obj_capacity o).

Lemma wp_capacity d (Q : Z → D → Prop) (R : Error → D → Prop) :
  Q file_cap d → wp (capacity_of B o) Q R d.
Proof.
  intros HQ. unfold capacity_of, file_cap in *. destruct (obj_capacity o); wp_steps; [done|].
  apply (wp_fragment_count B blocks o Ho). by wp_steps.
Qed.

(** The spare block is unlocked, with version [nv]. *)
Definition unlocked (d : D) : Prop :=
  ∃ b s, dev_block d (spare_block o) = Some b ∧ object_id (blk_hdr b) = obj_id o ∧
    object_version (blk_hdr b) = nv ∧ blk_slots b !! 0%nat = Some s ∧ s.1 = Empty.

(** Block [j] of the file with the chunks below [m] in place. *)
Definition stored_block (cs : list (list Z)) (m j : Z) (b : Block) : Prop :=
  writeable_block b ∧
  ∀ i s, blk_slots b !! i = Some s →
    if j * P + Z.of_nat i <? m
    then ∃ c, cs !! Z.to_nat (j * P + Z.of_nat i) = Some c ∧ holds c s
    else s.1 = Empty.

Record file_state (d : D) (cs : list (list Z)) (m : Z) : Prop := {
  fst_unlocked : unlocked d;
  fst_open : ∀ j, 0 ≤ j < nb → j * P < m ∨ j = 0 →
    ∃ b, dev_block d (obj_start o + j) = Some b ∧ stored_block cs m j b;
  fst_rest : ∀ j, 0 < j < nb → m ≤ j * P →
    (∀ b, dev_block d (obj_start o + j) = Some b → is_writeable o nv (blk_hdr b) = false) ∧
    epoch_fits (obj_start o + j) (dev_block d (obj_start o + j));
}.

Lemma file_state_same d d' cs m : same d d' → file_state d cs m → file_state d' cs m.
Proof.
  intros Hs [Hu Hop Hre]. split.
  - destruct Hu as (b & s & Hb & ?). exists b, s. by rewrite (same_block d).
  - intros j Hj Hm. rewrite (same_block d) by done. auto.
  - intros j Hj Hm. rewrite (same_block d) by done. auto.
Qed.

Lemma block_len d bid b :
  dev_wf d → dev_block d bid = Some b → is_writeable o nv (blk_hdr b) = true →
  len (blk_slots b) = P ∧ frag_size (blk_hdr b) = obj_fragment_size o.
Proof.
  intros Hwf Hb Hw. destruct (dev_block_ok _ _ _ Hwf Hb) as [_ Hok]. unfold is_writeable, fragment_size in Hw.
  apply andb_true_iff in Hw as [Hsz%Z.eqb_eq _]. split; [|done].
  rewrite (bok_length _ _ _ Hok), (bok_count _ _ _ Hok). unfold fragments_per_block. congruence.
Qed.

(** Fragment [n] of the file: its block and its slot. *)
Lemma file_geometry n : 0 ≤ n < N →
  let j := n / P in
  0 ≤ j < nb ∧ 0 ≤ n mod P < P ∧ n = j * P + n mod P ∧ 0 ≤ obj_start o + j < blocks ∧
  obj_start o + j < u32_size.
Proof.
  intros Hn j. pose proof (oo_fpb _ _ _ Ho) as HP. pose proof (oo_blocks _ _ _ Ho).
  pose proof (oo_start _ _ _ Ho). pose proof (oo_end _ _ _ Ho). pose proof (oo_u32 _ _ _ Ho).
  pose proof (Z.div_mod n P ltac:(lia)). pose proof (Z.mod_pos_bound n P ltac:(lia)).
  assert (0 ≤ j < nb) as Hj.
  { split; [apply Z.div_pos; lia|]. apply Z.div_lt_upper_bound; [lia|]. unfold n_frags in Hn. lia. }
  unfold n_blocks, u32_max, u32_size in *. split_and!; lia.
Qed.

(** The address computation of a fragment access. *)
Lemma wp_locate {A} d n (k : Z → M D Error A) Q (R : Error → D → Prop) :
  0 ≤ n < N → wp (k (obj_start o + n / P)) Q R d →
  wp (q ← u32_div n (as_u32 P); block_no ← u32_add (obj_start o) q; k block_no) Q R d.
Proof.
  intros Hn HQ. pose proof (file_geometry n Hn) as (Hj & _ & _ & _ & Hlt). wp_steps.
  rewrite (fpb_u32 B blocks o Ho). apply wp_u32_div; [apply Ho|]. wp_steps. by apply wp_u32_add.
Qed.

Lemma slot_of_offset b i :
  0 ≤ first_frag_no (blk_hdr b) → 0 ≤ i → first_frag_no (blk_hdr b) + i < u32_size →
  rel_of (blk_hdr b) (first_frag_no (blk_hdr b) + i) = i.
Proof. intros. unfold rel_of. rewrite wrapping_sub_small by lia. lia. Qed.

(** Writing chunk [m] into the block in place. *)
Lemma wp_write_slot d cs m c b (Q : unit → D → Prop) (R : Error → D → Prop) :
  let j := m / P in let bid := obj_start o + j in
  good d → 0 ≤ m < N → dev_block d bid = Some b → stored_block cs m j b →
  cs !! Z.to_nat m = Some c → Forall is_u8 c → len c ≤ obj_fragment_size o →
  (∀ d' b', good d' → dev_step (λ i, i = bid) d d' → dev_block d' bid = Some b' →
     stored_block cs (m + 1) j b' → Q tt d') →
  wp (fragment_in_block ← u32_rem m (as_u32 P);
      frag_no ← u32_add (first_fragment (blk_hdr b)) fragment_in_block;
      try! (dev_write_fragment (blk_hdr b) frag_no c)) Q R d.
Proof.
  intros j bid Hg Hm Hb [[Hw Hfit] Hst] Hc Hu Hlen HQ. pose proof Hg as [Hwf Hh Hbs].
  pose proof (file_geometry m Hm) as (Hj & Hmod & Heq & _). fold j in Heq.
  destruct (block_len d bid b Hwf Hb Hw) as [Hl Hsz]. unfold len in Hl.
  destruct (dev_block_ok _ _ _ Hwf Hb) as [_ Hok]. destruct (bok_first _ _ _ Hok) as [Hf0 _].
  wp_steps. rewrite (fpb_u32 B blocks o Ho). apply wp_u32_rem; [lia|]. wp_steps.
  unfold first_fragment. apply wp_u32_add; [lia|]. wp_steps.
  assert (rel_of (blk_hdr b) (first_frag_no (blk_hdr b) + m mod P) = m mod P) as Hrel
    by (apply slot_of_offset; lia).
  destruct (lookup_lt_is_Some_2 (blk_slots b) (Z.to_nat (m mod P)) ltac:(lia)) as [s Hs].
  pose proof (Hst _ _ Hs) as Hse. rewrite Z2Nat.id in Hse by lia.
  rewrite <-Heq, (proj2 (Z.ltb_ge m m)) in Hse by lia.
  assert (write_check b (first_frag_no (blk_hdr b) + m mod P) c = None) as Hck.
  { unfold write_check, slot_of. rewrite Hrel, Hs, Hsz, (proj2 (Z.ltb_ge _ _)) by lia.
    destruct s as [st ds]. cbn in Hse. by rewrite Hse. }
  apply (wp_dev_write d bid); [done..| | |].
  - intros d' s' Hs' _ Hho Hd'. eapply HQ; [by eapply good_step|done|exact Hd'|]. split; [done|].
    unfold set_slot. cbn [blk_slots]. rewrite Hrel. intros i s0 Hi.
    apply list_lookup_insert_Some in Hi as [(<- & <- & _)|[Hne Hi]].
    + rewrite Z2Nat.id, <-Heq, (proj2 (Z.ltb_lt m (m + 1))) by lia. eauto.
    + specialize (Hst i s0 Hi).
      destruct (Z.ltb_spec (j * P + Z.of_nat i) m), (Z.ltb_spec (j * P + Z.of_nat i) (m + 1)); done || lia.
  - intros e d' k _ Hk. congruence.
  - intros e d' b' _ _ Hn. by destruct Hn.
Qed.

Lemma fresh_stored bid j m cs ob h :
  next_header bid nv ob = Some h → 0 ≤ epoch ob → epoch_fits bid ob → m ≤ j * P →
  stored_block cs m j (fresh_block h).
Proof.
  intros Hh He Hfit Hm. destruct (next_header_Some bid nv ob) as (h' & Hh' & _ & Hver & Hsz & _ & Hff).
  assert (h' = h) as -> by congruence. split.
  - split; cbn [blk_hdr fresh_block].
    + unfold is_writeable, fragment_size. by rewrite Hver, Hsz, !Z.eqb_refl.
    + unfold epoch_fits in Hfit. rewrite Hff. lia.
  - intros i s [-> _]%lookup_replicate. by rewrite (proj2 (Z.ltb_ge _ _)) by lia.
Qed.

Lemma stored_other cs m j b :
  len (blk_slots b) = P → stored_block cs m j b → (j + 1) * P ≤ m ∨ m < j * P → stored_block cs (m + 1) j b.
Proof.
  intros Hl [Hw Hst] Hj. unfold len in Hl. split; [done|]. intros i s Hi. pose proof (lookup_lt_Some _ _ _ Hi).
  specialize (Hst i s Hi).
  destruct (Z.ltb_spec (j * P + Z.of_nat i) m), (Z.ltb_spec (j * P + Z.of_nat i) (m + 1)); done || lia.
Qed.

(** One fragment: the file moves from [m] to [m + 1] stored chunks. *)
Lemma wp_write_file_fragment d cs m c (Q : unit → D → Prop) (R : Error → D → Prop) :
  good d → file_state d cs m → 0 ≤ m < N → cs !! Z.to_nat m = Some c → Forall is_u8 c →
  len c ≤ obj_fragment_size o → m * obj_fragment_size o + len c ≤ file_cap →
  obj_end o * P < u32_size →
  (∀ d', good d' → file_state d' cs (m + 1) → Q tt d') →
  wp (write_file_fragment B (mkWriteableFileHandle (mkFileHandle o nv)) m c) Q R d.
Proof.
  intros Hg Hst Hm Hc Hu Hlen Hcap Hend HQ.
  pose proof (file_geometry m Hm) as (Hj & Hmod & Heq & Hbid & _).
  set (j := m / P) in *. set (bid := obj_start o + j) in *.
  assert (bid ≠ spare_block o) as Hsp.
  { destruct (spare_in_dev B blocks o Ho) as [_ ->]. subst bid. lia. }
  pose proof (oo_fpb _ _ _ Ho) as HP. pose proof (len_nonneg c).
  assert (bid * P < u32_size) as Hbfit.
  { unfold n_blocks in *. subst bid. nia. }
  (* what remains after the block of [m] has been written *)
  assert (∀ d2 b', good d2 → (∀ i, i ≠ bid → dev_block d2 i = dev_block d i) →
    dev_block d2 bid = Some b' → stored_block cs (m + 1) j b' → file_state d2 cs (m + 1)) as Hfin.
  { intros d2 b' Hg2 Hother Hb' Hsb. destruct Hst as [Hun Hop Hre]. split.
    - destruct Hun as (sb & s & Hsb' & ?). exists sb, s. rewrite Hother by done. done.
    - intros j' Hj' Hcase. destruct (decide (j' = j)) as [->|Hne]; [by exists b'|].
      assert (j' * P < m ∨ j' = 0) as Hcase' by nia.
      destruct (Hop j' Hj' Hcase') as (b & Hb & Hsb'). exists b.
      rewrite Hother by (subst bid; lia). split; [done|].
      apply stored_other; [|done|nia].
      apply (block_len d (obj_start o + j')); [apply Hg|done|apply Hsb'].
    - intros j' Hj' Hge. rewrite Hother by (subst bid; nia). apply Hre; [done|lia]. }
  unfold write_file_fragment. cbn [fh_file wfh_handle fh_version]. wp_steps.
  apply (wp_fragment_count B blocks o Ho). rewrite (n_frags_u32 B blocks o Ho), (proj2 (Z.leb_gt _ _)) by lia.
  wp_steps. apply wp_capacity. wp_steps. apply wp_usize_sub; [lia|].
  rewrite (proj2 (Z.ltb_ge _ _)) by lia. apply (wp_locate d m); [done|]. fold j bid. wp_steps.
  destruct (decide (j * P < m ∨ j = 0)) as [Hopen|Hnew].
  - destruct (fst_open _ _ _ Hst j Hj Hopen) as (b & Hb & Hsb).
    apply (wp_prepare_keep d bid b); [done..|apply Hsb|]. intros d1 Hg1 H1.
    apply (wp_write_slot d1 cs m c b); [done|done|by rewrite (same_block d)|done..|].
    intros d2 b' Hg2 H2 Hb' Hsb'. apply HQ; [done|]. eapply Hfin; [done| |exact Hb'|done].
    intros i Hi. rewrite (step_other d1 d2 _ _ H2) by done. by apply same_block.
  - assert (m = j * P ∧ 0 < j) as [Hmj Hj0] by nia.
    destruct (fst_rest _ _ _ Hst j ltac:(lia) ltac:(lia)) as [Hnw Hfit].
    apply (wp_prepare_format d bid); [done..|]. fold bid. intros d1 h Hg1 H1 Hh Hb1.
    apply (wp_write_slot d1 cs m c (fresh_block h)); [done|done|done| |done..|].
    { eapply fresh_stored; [exact Hh| |exact Hfit|lia]. by eapply epoch_nonneg; [apply Hg|]. }
    intros d2 b' Hg2 H2 Hb' Hsb'. apply HQ; [done|]. eapply Hfin; [done| |exact Hb'|done].
    intros i Hi. rewrite (step_other d1 d2 _ _ H2) by done. by rewrite (step_other d d1 _ _ H1).
Qed.

Abbreviation handle := (mkFileHandle o nv).

(** Chunk number [n] is a chunk of the file and fits its capacity. *)
Definition chunk_fits (cs : list (list Z)) : Prop :=
  ∀ n c, cs !! n = Some c → Z.of_nat n < N ∧ Forall is_u8 c ∧ 0 < len c ≤ obj_fragment_size o ∧
    Z.of_nat n * obj_fragment_size o + len c ≤ file_cap.

(** The write loop stores all chunks. *)
Lemma wp_write_file_chunks cs rest : ∀ d m (Q : unit → D → Prop) (R : Error → D → Prop),
  good d → file_state d cs (Z.of_nat m) → chunk_fits cs → drop m cs = rest →
  obj_end o * P < u32_size →
  (∀ d', good d' → file_state d' cs (Z.of_nat (m + length rest)) → Q tt d') →
  wp (write_file_chunks B (mkWriteableFileHandle handle) N (Z.of_nat m) rest) Q R d.
Proof.
  induction rest as [|c rest IH]; intros d m Q R Hg Hst Hfits Hdrop Hend HQ; cbn [write_file_chunks].
  { wp_steps. apply HQ; [done|]. by rewrite Nat.add_0_r. }
  assert (cs !! m = Some c) as Hc.
  { rewrite <-(Nat.add_0_r m), <-lookup_drop, Hdrop. done. }
  destruct (Hfits m c Hc) as (Hm & Hu & Hlen & Hcap).
  rewrite (proj2 (Z.leb_gt _ _)) by lia. wp_steps.
  pose proof (oo_max _ _ _ Ho) as Hmax. change MAX_FRAGMENTS_PER_OBJECT with 2147483647 in Hmax.
  rewrite as_u32_small by (unfold is_u32, u32_size; lia).
  apply (wp_write_file_fragment d cs _ c); [done|done|lia|by rewrite Nat2Z.id|done|lia|done|done|].
  intros d1 Hg1 Hst1. replace (Z.of_nat m + 1) with (Z.of_nat (S m)) in * by lia.
  apply IH; [done|done|done| |done|].
  - rewrite (drop_S cs c m Hc) in Hdrop. by injection Hdrop.
  - intros d2 Hg2 Hst2. apply HQ; [done|]. cbn [length]. by replace (m + S (length rest))%nat with (S m + length rest)%nat by lia.
Qed.

(** Reading a stored chunk. *)
Lemma wp_read_file_fragment d cs m n c Q (R : Error → D → Prop) :
  good d → file_state d cs m → 0 ≤ n < m → n < N → cs !! Z.to_nat n = Some c →
  len c ≤ obj_fragment_size o → n * obj_fragment_size o + len c ≤ file_cap →
  (∀ d', same d d' → Q c d') →
  wp (read_file_fragment B handle n (len c)) Q R d.
Proof.
  intros Hg Hst Hn HnN Hc Hlen Hcap HQ. pose proof (len_nonneg c).
  pose proof (file_geometry n ltac:(lia)) as (Hj & Hmod & Heq & Hbid & _).
  set (j := n / P) in *. set (bid := obj_start o + j) in *. pose proof (oo_fpb _ _ _ Ho) as HP.
  destruct (fst_open _ _ _ Hst j Hj ltac:(nia)) as (b & Hb & [[Hw Hfit] Hsl]). fold bid in Hb.
  destruct (block_len d bid b (g_wf _ Hg) Hb Hw) as [Hl Hsz]. unfold len in Hl.
  destruct (dev_block_ok _ _ _ (g_wf _ Hg) Hb) as [_ Hok]. destruct (bok_first _ _ _ Hok) as [Hf0 _].
  unfold read_file_fragment. cbn [fh_file fh_version]. wp_steps.
  apply (wp_fragment_count B blocks o Ho). rewrite (n_frags_u32 B blocks o Ho), (proj2 (Z.leb_gt _ _)) by lia.
  wp_steps. apply wp_capacity. wp_steps. apply wp_usize_sub; [lia|].
  apply (wp_locate d n); [lia|]. fold j bid. wp_steps.
  rewrite (fpb_u32 B blocks o Ho). apply wp_u32_rem; [lia|]. wp_steps.
  apply wp_dev_header; [apply Hg|by rewrite (g_blocks _ Hg)| |].
  2: { intros e d' _ []. apply Hg. }
  intros d1 H1. rewrite Hb. cbn [fmap option_fmap option_map].
  unfold is_writeable in Hw. apply andb_true_iff in Hw as [_ Hv]. rewrite Hv. cbn [negb]. wp_steps.
  unfold first_fragment. apply wp_u32_add; [lia|]. wp_steps.
  rewrite Z.min_l by lia. unfold dev_read_fragment.
  destruct (lookup_lt_is_Some_2 (blk_slots b) (Z.to_nat (n mod P)) ltac:(lia)) as [[st ds] Hs].
  pose proof (Hsl _ _ Hs) as Hho. rewrite Z2Nat.id, <-Heq, (proj2 (Z.ltb_lt _ _)) in Hho by lia.
  destruct Hho as (c' & Hc' & Hst' & Hds). assert (c' = c) as -> by congruence. cbn in Hst', Hds. subst st.
  assert (slot_of b (first_frag_no (blk_hdr b) + n mod P) = Some (Valid, ds)) as Hslot.
  { unfold slot_of. rewrite slot_of_offset by lia. done. }
  apply (wp_dev_read d1 bid); [apply H1|by rewrite (same_block d)|lia|done| | |]; rewrite ?Hslot.
  - intros d2 ds' H2 [= <-]. rewrite Z.add_0_l, Z.sub_0_r, Z.min_l, Hds by lia. apply HQ.
    by eapply flash_step_trans.
  - done.
  - intros e d2 H2 Hn'. destruct Hn'. apply (fs_healthy H1), Hg.
Qed.

Lemma wp_read_file_chunks cs rest : ∀ d m acc Q (R : Error → D → Prop),
  good d → file_state d cs (Z.of_nat (length cs)) → chunk_fits cs → drop m cs = rest →
  (∀ d', same d d' → Q (acc ++ concat rest) d') →
  wp (read_file_chunks B handle N (Z.of_nat m) acc (len <$> rest)) Q R d.
Proof.
  induction rest as [|c rest IH]; intros d m acc Q R Hg Hst Hfits Hdrop HQ; cbn [fmap list_fmap read_file_chunks].
  { wp_steps. cbn in HQ. rewrite app_nil_r in HQ. apply HQ, flash_step_refl, Hg. }
  assert (cs !! m = Some c) as Hc.
  { rewrite <-(Nat.add_0_r m), <-lookup_drop, Hdrop. done. }
  pose proof (lookup_lt_Some _ _ _ Hc) as Hlt.
  destruct (Hfits m c Hc) as (Hm & Hu & Hlen & Hcap).
  rewrite (proj2 (Z.leb_gt _ _)) by lia. wp_steps.
  pose proof (oo_max _ _ _ Ho) as Hmax. change MAX_FRAGMENTS_PER_OBJECT with 2147483647 in Hmax.
  rewrite as_u32_small by (unfold is_u32, u32_size; lia).
  apply (wp_read_file_fragment d cs (Z.of_nat (length cs)) _ c);
    [done|done|lia|lia|by rewrite Nat2Z.id|lia|done|].
  intros d1 H1. wp_steps. rewrite Z.eqb_refl. cbn [negb].
  replace (Z.of_nat m + 1) with (Z.of_nat (S m)) by lia.
  apply IH; [by eapply good_step|by eapply file_state_same|done| |].
  - rewrite (drop_S cs c m Hc) in Hdrop. by injection Hdrop.
  - intros d2 H2. rewrite <-app_assoc. apply HQ. by eapply flash_step_trans.
Qed.

(** ** Locking and deleting *)

Lemma wp_lock_status d (Q : LockStatus → D → Prop) (R : Error → D → Prop) :
  good d → unlocked d → (∀ d', same d d' → Q (Unlocked nv) d') → wp (lock_status B o LockSpare) Q R d.
Proof.
  intros Hg (b & s & Hb & Hid & Hver & Hs & Hst) HQ. pose proof Hg as [Hwf Hh Hbs].
  destruct (spare_in_dev B blocks o Ho) as [Hsp _].
  unfold lock_status. wp_steps. apply wp_dev_header; [done|by rewrite Hbs| |done].
  intros d1 H1. rewrite Hb. cbn [fmap option_fmap option_map]. rewrite Hid, Z.eqb_refl. cbn [negb]. wp_steps.
  apply (wp_dev_status d1 (spare_block o) b _ s).
  - apply H1.
  - by rewrite (same_block d).
  - unfold slot_of, rel_of, first_fragment, wrapping_sub. rewrite Z.sub_diag. done.
  - intros d2 H2. rewrite Hst. cbn. wp_steps. rewrite Hver. apply HQ. by eapply flash_step_trans.
  - intros e d2 _ Hn. destruct Hn. by apply (fs_healthy H1).
Qed.

(** The handle of an unlocked file. *)
Lemma wp_file_handle d (Q : FileHandle → D → Prop) (R : Error → D → Prop) :
  good d → unlocked d → (∀ d', same d d' → Q handle d') → wp (file_handle B o) Q R d.
Proof.
  intros Hg Hun HQ. unfold file_handle. wp_steps. apply wp_lock_status; [done..|].
  intros d1 H1. wp_steps. by apply HQ.
Qed.

Lemma wp_unlock_unlocked d (Q : unit → D → Prop) (R : Error → D → Prop) v :
  good d → unlocked d → (∀ d', same d d' → Q tt d') → wp (unlock B o LockSpare v) Q R d.
Proof.
  intros Hg Hun HQ. unfold unlock. wp_steps. apply wp_lock_status; [done..|].
  intros d1 H1. wp_steps. by apply HQ.
Qed.

(** Taking the lock touches slot 0 of the spare block only. *)
Lemma wp_lock d (Q : unit → D → Prop) (R : Error → D → Prop) :
  good d →
  (∀ d', good d' → dev_step (λ i, i = spare_block o) d d' →
     blk_hdr <$> dev_block d' (spare_block o) = blk_hdr <$> dev_block d (spare_block o) → Q tt d') →
  wp (lock B o LockSpare) Q R d.
Proof.
  intros Hg HQ. pose proof Hg as [Hwf Hh Hbs]. destruct (spare_in_dev B blocks o Ho) as [Hsp _].
  unfold lock. wp_steps. apply wp_dev_header; [done|by rewrite Hbs| |done]. intros d1 H1.
  destruct (dev_block d (spare_block o)) as [b|] eqn:Hb; cbn [fmap option_fmap option_map] in *; wp_steps.
  2: { apply HQ; [by eapply good_step|by apply flash_step_nowhere|by rewrite (same_block d), Hb]. }
  assert (dev_block d1 (spare_block o) = Some b) as Hb1 by (by rewrite (same_block d)).
  destruct (dev_block_ok _ _ _ Hwf Hb) as [_ Hok]. pose proof (bok_length _ _ _ Hok) as Hl.
  pose proof (bok_count_pos _ _ _ Hok). unfold len in Hl.
  destruct (lookup_lt_is_Some_2 (blk_slots b) 0 ltac:(lia)) as [[st ds] Hs].
  eapply wp_mono; [by apply (dev_delete_law d1 (spare_block o) b); [apply H1|]| |]; cbv beta.
  - intros [] d2 (H2 & st' & ds' & _ & Hd2). apply HQ; [|by eapply flash_step_trans; [apply flash_step_nowhere|]|].
    + eapply good_step; [|exact H2]. by eapply good_step.
    + by rewrite Hd2.
  - intros e d2 [_ Hx]. unfold slot_of, rel_of, first_fragment, wrapping_sub in Hx.
    rewrite Z.sub_diag in Hx. change (Z.to_nat (as_u32 0)) with 0%nat in Hx. rewrite Hs in Hx.
    destruct Hx as [Hn _]. destruct Hn. by apply (fs_healthy H1).
Qed.
End facts.

(** ** Deleting a file *)

Section delete.
Context {D E : Type} (B : Z) `{!BlockDev B D E} `{!BlockDevLaws B D E}.
Context (o : Object) (blocks : Z) (Ho : obj_ok B blocks o).
Abbreviation P := (fragments_per_block B o).
Abbreviation nb := (n_blocks o).
Abbreviation N := (n_frags B o).
Abbreviation dev_step := (flash_step dev_wf dev_healthy dev_blocks dev_block).
Abbreviation same := (dev_step nowhere).

(** The header that decides the next version: the spare block's, else the first block's. *)
Definition current_block (d : D) : option Block :=
  match dev_block d (spare_block o) with
  | Some b => Some b
  | None => dev_block d (obj_start o)
  end.

Definition current_version (d : D) : Z :=
  match current_block d with Some b => object_version (blk_hdr b) | None => 0xFF end.

(** The version that a delete writes. *)
Definition next_version (v : Z) : Z := as_u8 (newest_version v 0xFF + 1).

Lemma next_version_u8 v : is_u8 (next_version v).
Proof. apply Z.mod_pos_bound. lia. Qed.

Lemma scan_headers_current d :
  scan_headers (E:=E) N [inl (blk_hdr <$> dev_block d (obj_start o));
                         inl (blk_hdr <$> dev_block d (spare_block o))] (0xFF, 0) =
  (current_version d, epoch B o (current_block d)).
Proof.
  unfold current_version, current_block.
  destruct (dev_block d (spare_block o)); cbn; [by destruct (dev_block d (obj_start o))|].
  by destruct (dev_block d (obj_start o)).
Qed.

(** A delete formats the first block and the spare block with the next version. *)
Lemma wp_soft_delete d (Q : unit → D → Prop) (R : Error → D → Prop) :
  let nv := next_version (current_version d) in
  good B blocks d → epoch_fits B o (obj_start o) (current_block d) → epoch_fits B o (spare_block o) None →
  (∀ d' h1 h2, good B blocks d' →
     (∀ i, i ≠ obj_start o → i ≠ spare_block o → dev_block d' i = dev_block d i) →
     next_header B o (obj_start o) nv (current_block d) = Some h1 →
     dev_block d' (obj_start o) = Some (fresh_block h1) →
     next_header B o (spare_block o) nv None = Some h2 →
     dev_block d' (spare_block o) = Some (fresh_block h2) → Q tt d') →
  wp (delete_object B o SoftVersion) Q R d.
Proof.
  intros nv Hg Hf1 Hf2 HQ. pose proof Hg as [Hwf Hh Hbs].
  destruct (spare_in_dev B blocks o Ho) as [Hsp Hspe]. pose proof (oo_start _ _ _ Ho) as Hs0. pose proof (oo_blocks _ _ _ Ho) as Hnb.
  pose proof (oo_end _ _ _ Ho) as Hend. pose proof (n_frags_pos B blocks o Ho) as HN.
  pose proof (oo_fpb _ _ _ Ho) as HP.
  assert (0 ≤ obj_start o < blocks) as Hst by lia.
  assert (0 ≤ epoch B o (current_block d)) as He.
  { unfold current_block. destruct (dev_block d (spare_block o)) eqn:Hb;
      eapply (epoch_nonneg B o blocks Ho); [exact Hwf|exact Hb|exact Hwf|done]. }
  unfold delete_object. wp_steps. apply (wp_fragment_count B blocks o Ho).
  rewrite (n_frags_u32 B blocks o Ho), (proj2 (Z.eqb_neq _ _)) by lia. wp_steps.
  apply wp_dev_header; [done|by rewrite Hbs| |done]. intros d1 H1. wp_steps.
  apply wp_dev_header; [apply H1|by rewrite (same_blocks _ _ H1), Hbs| |].
  2: { intros e d2 _ Hn. destruct Hn. by apply (fs_healthy H1). }
  intros d2 H2. rewrite (same_block d d1) by done. rewrite scan_headers_current.
  rewrite bool_decide_true by done. cbn [soft_delete]. fold (next_version (current_version d)). fold nv.
  assert (good B blocks d2) as Hg2 by (eapply good_step; [|exact H2]; by eapply good_step).
  unfold epoch_fits in *. cbn [epoch] in Hf2. wp_steps.
  apply (wp_bid_mul B o blocks Ho); [lia|nia|]. wp_steps.
  apply (wp_format_next B o blocks Ho d2 _ nv (current_block d)); [done..|apply next_version_u8|done|done|].
  intros d3 h1 Hg3 H3 Hh1 Hb3. wp_steps. apply (wp_bid_mul B o blocks Ho); [lia|nia|]. wp_steps.
  apply (wp_format_next B o blocks Ho d3 _ nv None); [done..|apply next_version_u8|done|done|].
  intros d4 h2 Hg4 H4 Hh2 Hb4. wp_steps. eapply HQ; [done| |exact Hh1| |exact Hh2|done].
  - intros i Hi1 Hi2. rewrite (step_other _ _ _ _ H4), (step_other _ _ _ _ H3) by done.
    rewrite (same_block d1 d2), (same_block d d1) by done. done.
  - rewrite (step_other _ _ _ _ H4) by lia. done.
Qed.

(** The file can be deleted and rewritten: the numbering still fits, and no
    block after the first carries the next version already. *)
Record file_ready (d : D) (nv : Z) : Prop := {
  fr_first : epoch_fits B o (obj_start o) (current_block d);
  fr_spare : epoch_fits B o (spare_block o) None;
  fr_rest : ∀ j, 0 < j < nb →
    (∀ b, dev_block d (obj_start o + j) = Some b → is_writeable o nv (blk_hdr b) = false) ∧
    epoch_fits B o (obj_start o + j) (dev_block d (obj_start o + j));
}.

(** A deleted file is unlocked, with the next version and no chunks. *)
Lemma wp_delete d cs (Q : WriteableFileHandle → D → Prop) (R : Error → D → Prop) :
  let nv := next_version (current_version d) in
  good B blocks d → file_ready d nv →
  (∀ d', good B blocks d' → file_state B o nv d' cs 0 →
     Q (mkWriteableFileHandle (mkFileHandle o nv)) d') →
  wp (delete B o) Q R d.
Proof.
  intros nv Hg [Hf1 Hf2 Hre] HQ. unfold delete. wp_steps. apply wp_soft_delete; [done..|]. fold nv.
  intros d1 h1 h2 Hg1 Hother Hh1 Hb1 Hh2 Hb2. wp_steps.
  destruct (spare_in_dev B blocks o Ho) as [Hsp Hspe]. pose proof (oo_blocks _ _ _ Ho).
  pose proof (oo_fpb _ _ _ Ho).
  assert (0 ≤ epoch B o (current_block d)) as He.
  { unfold current_block. destruct (dev_block d (spare_block o)) eqn:Hb;
      eapply (epoch_nonneg B o blocks Ho); [apply Hg|exact Hb|apply Hg|done]. }
  assert (file_state B o nv d1 cs 0) as Hst.
  { split.
    - destruct (next_header_Some B o blocks Ho (spare_block o) nv None) as (h & Hh & Hid & Hver & _ & Hcnt & _).
      assert (h = h2) as -> by congruence.
      exists (fresh_block h2), (Empty, replicate (Z.to_nat (frag_size h2)) 255). split_and!; try done.
      cbn. apply lookup_replicate_2. lia.
    - intros j Hj Hcase. assert (j = 0) as -> by nia. rewrite Z.add_0_r. exists (fresh_block h1).
      split; [done|]. eapply (fresh_stored B o blocks Ho nv); [exact Hh1|done|done|lia].
    - intros j Hj _. rewrite Hother by lia. by apply Hre. }
  apply (wp_file_handle B o blocks Ho nv); [done|apply Hst|].
  intros d2 H2. wp_steps. apply HQ; [by eapply good_step|by eapply file_state_same].
Qed.
End delete.
