(* ===== verification/FileProps.v ===== *)
(** * File store: correctness

    Round trip of whole files, the effect of a delete, the lock as a guard of
    readers, and two places where the code does not do what its comments say. *)

From stdpp Require Import base list list_numbers numbers option.
From S2P Require Import Prelude NorFlash InMemoryFlash BlockLayer BlockFacts BlockProps BlockDev.
From S2P Require Import BlockRefine FlashDb FileStore FileFacts.

Section props.
Context {D E : Type} (B : Z) `{!BlockDev B D E} `{!BlockDevLaws B D E}.
Context (o : Object).
Abbreviation P := (fragments_per_block B o).
Abbreviation N := (n_frags B o).
Abbreviation dev_step := (flash_step dev_wf dev_healthy dev_blocks dev_block).
Abbreviation same := (dev_step nowhere).

(** A file of a device: the object fits, fragments are not empty, a capacity
    override stays inside the blocks, and block numbering fits in [u32]. *)
Record file_ok (blocks : Z) : Prop := {
  fo_obj : obj_ok B blocks o;
  fo_fs : 0 < obj_fragment_size o;
  fo_cap : 0 ≤ file_cap B o ≤ N * obj_fragment_size o;
  fo_end : obj_end o * P < u32_size;
}.

Lemma chunks_fit blocks data :
  file_ok blocks → Forall is_u8 data → len data ≤ file_cap B o →
  chunk_fits B o (chunks (obj_fragment_size o) data).
Proof.
  intros [Ho Hfs Hcap _] Hu Hlen n c Hc.
  pose proof (chunks_bound _ _ _ _ Hfs Hc) as (Hb & Hcl & Hc0).
  split; [nia|]. split; [|split; [lia|lia]].
  apply chunks_fuel_lookup in Hc as ->; [|lia]. by apply Forall_take, Forall_drop.
Qed.

Lemma file_ready_lock d d' nv :
  dev_step (λ i, i = spare_block o) d d' → obj_ok B (dev_blocks d) o →
  blk_hdr <$> dev_block d' (spare_block o) = blk_hdr <$> dev_block d (spare_block o) →
  current_version B o d' = current_version B o d ∧
  (file_ready B o d nv → file_ready B o d' nv).
Proof.
  intros Hs Ho Hh. destruct (spare_in_dev B _ o Ho) as [_ Hsp]. pose proof (oo_blocks _ _ _ Ho).
  assert (blk_hdr <$> current_block B o d' = blk_hdr <$> current_block B o d) as Hc.
  { unfold current_block. rewrite (step_other d d' _ (obj_start o) Hs) by lia.
    by destruct (dev_block d (spare_block o)), (dev_block d' (spare_block o)). }
  assert (epoch B o (current_block B o d') = epoch B o (current_block B o d)) as He.
  { destruct (current_block B o d'), (current_block B o d); try done. injection Hc as Hc. cbn. by rewrite Hc. }
  split.
  - unfold current_version. destruct (current_block B o d'), (current_block B o d); try done.
    injection Hc as Hc. by rewrite Hc.
  - intros [Hf1 Hf2 Hre]. split; [unfold epoch_fits in *; by rewrite He|done|].
    intros j Hj. rewrite (step_other d d' _ _ Hs) by lia. by apply Hre.
Qed.

(** C37: what is written to a file reads back.  On a device without faults, when no later
    block of the file already carries the version that the file gets next ([file_ready];
    stale blocks may, since versions start over at 128, see [next_version_wraps_at_128]) and
    the fragment numbers of its blocks still fit in 32 bits,
    [write_file] of any data within the capacity succeeds and [read_file] into
    a buffer of that length returns exactly the data. *)
Theorem write_file_read_file d data :
  let nv := next_version (current_version B o d) in
  dev_wf d → dev_healthy d → file_ok (dev_blocks d) → file_ready B o d nv →
  Forall is_u8 data → len data ≤ file_cap B o →
  ∃ d1 d2, write_file B o data d = (Ok tt, d1) ∧ read_file B o (len data) d1 = (Ok data, d2).
Proof.
  intros nv Hwf Hh Hf Hre Hu Hlen. pose proof Hf as [Ho Hfs Hcap Hend].
  set (cs := chunks (obj_fragment_size o) data).
  pose proof (chunks_fit _ data Hf Hu Hlen) as Hfits. fold cs in Hfits.
  assert (good B (dev_blocks d) d) as Hg by done.
  assert (wp (write_file B o data)
    (λ _ d', good B (dev_blocks d) d' ∧ file_state B o nv d' cs (Z.of_nat (length cs))) (λ _ _, False) d) as Hw.
  { unfold write_file. wp_steps. apply (wp_capacity B o _ Ho). rewrite (proj2 (Z.ltb_ge _ _)) by lia. wp_steps.
    apply (wp_lock B o _ Ho); [done|]. intros d1 Hg1 H1 Hh1. wp_steps.
    destruct (file_ready_lock d d1 nv H1 Ho Hh1) as [Hv Hre1].
    apply (wp_delete B o _ Ho d1 cs); [done|rewrite Hv; by apply Hre1|]. rewrite Hv. fold nv.
    intros d2 Hg2 Hst. wp_steps. apply (wp_fragment_count B _ o Ho). wp_steps.
    rewrite (proj2 (Z.eqb_neq _ _)) by lia. fold cs.
    apply (wp_write_file_chunks B o _ Ho nv (next_version_u8 _) cs cs d2 0); [done..|].
    intros d3 Hg3 Hst3. wp_steps. cbn [wfh_handle fh_version].
    apply (wp_unlock_unlocked B o _ Ho nv); [done|apply Hst3|].
    intros d4 H4. split; [by eapply good_step|by eapply file_state_same]. }
  apply wp_ok in Hw as ([] & d1 & Hrun & Hg1 & Hst). exists d1.
  assert (wp (read_file B o (len data)) (λ bs _, bs = data) (λ _ _, False) d1) as Hr.
  { unfold read_file. wp_steps. apply (wp_file_handle B o _ Ho nv); [done|apply Hst|].
    intros d2 H2. wp_steps. apply (wp_capacity B o _ Ho). wp_steps. apply (wp_fragment_count B _ o Ho).
    rewrite (proj2 (Z.eqb_neq _ _)) by lia. rewrite Z.min_l by lia. rewrite chunk_lens_eq. fold cs.
    apply (wp_read_file_chunks B o _ Ho nv Hfs cs cs d2 0); [by eapply good_step|by eapply file_state_same|done..|].
    intros d3 _. cbn. by apply chunks_concat. }
  apply wp_ok in Hr as (bs & d2 & Hrun2 & ->). eauto.
Qed.

(** The spare block says that the file is locked. *)
Definition file_locked (d : D) : Prop :=
  match dev_block d (spare_block o) with
  | None => True
  | Some b => ∀ s, blk_slots b !! 0%nat = Some s → s.1 ≠ Empty
  end.

Lemma wp_locked_handle d :
  dev_wf d → obj_ok B (dev_blocks d) o → file_locked d →
  wp (file_handle B o) (λ _ _, False)
     (λ e d', same d d' ∧ (e = Error_FileNotReadable ∨ e = Error_Corrupt ∨ ¬ dev_healthy d)) d.
Proof.
  intros Hwf Ho Hl. destruct (spare_in_dev B _ o Ho) as [Hsp _]. unfold file_handle, lock_status.
  wp_steps. apply wp_dev_header; [done..| |by auto]. intros d1 H1. unfold file_locked in Hl.
  destruct (dev_block d (spare_block o)) as [b|] eqn:Hb; cbn [fmap option_fmap option_map].
  2: { wp_steps. auto. }
  destruct (obj_id o =? object_id (blk_hdr b)); cbn [negb]; [|wp_steps; by auto]. wp_steps.
  destruct (dev_block_ok _ _ _ Hwf Hb) as [_ Hok]. pose proof (bok_length _ _ _ Hok) as Hlen.
  pose proof (bok_count_pos _ _ _ Hok). unfold len in Hlen.
  destruct (lookup_lt_is_Some_2 (blk_slots b) 0 ltac:(lia)) as [s Hs].
  apply (wp_dev_status d1 (spare_block o) b _ s).
  - apply H1.
  - by rewrite (same_block d).
  - unfold slot_of, rel_of, first_fragment, wrapping_sub. rewrite Z.sub_diag. done.
  - intros d2 H2. specialize (Hl s Hs). rewrite bool_decide_false by congruence. cbn. wp_steps.
    split; [by eapply flash_step_trans|by left].
  - intros e d2 H2 Hn. split; [by eapply flash_step_trans|]. right. right. intros Hh. by apply Hn, (fs_healthy H1).
Qed.

(** A locked file is not readable.  Whatever the device does, while the
    spare block is invalid or its first fragment is used, neither [file_handle]
    nor [read_file] returns a result; without faults the error says so. *)
Theorem locked_file_unreadable d n r d' :
  dev_wf d → obj_ok B (dev_blocks d) o → file_locked d → read_file B o n d = (r, d') →
  (∃ e, r = Err e ∧ (dev_healthy d → e = Error_FileNotReadable ∨ e = Error_Corrupt)) ∧
  ∀ i, dev_block d' i = dev_block d i.
Proof.
  intros Hwf Ho Hl Hrun.
  assert (wp (read_file B o n) (λ _ _, False)
    (λ e d', same d d' ∧ (e = Error_FileNotReadable ∨ e = Error_Corrupt ∨ ¬ dev_healthy d)) d) as Hwp.
  { unfold read_file. wp_steps. eapply wp_mono; [by apply wp_locked_handle|done|done]. }
  apply (wp_run _ _ _ _ _ _ Hwp) in Hrun. destruct r as [bs|e|]; [done| |done].
  destruct Hrun as [Hs He]. split; [|intros i; by apply same_block].
  exists e. split; [done|]. intros Hh. destruct He as [?|[?|?]]; auto. done.
Qed.

(** The first fragment of a file without chunks. *)
Lemma wp_read_deleted d2 cs l nv blocks (Ho : obj_ok B blocks o) :
  good B blocks d2 → file_state B o nv d2 cs 0 → 0 ≤ l → 0 ≤ file_cap B o →
  wp (read_file_fragment B (mkFileHandle o nv) 0 l) (λ _ _, False)
     (λ e _, e = Error_FragmentNotReadable) d2.
Proof.
  intros Hg2 Hst2 Hl0 Hcap0. pose proof (oo_fs _ _ _ Ho) as [Hfs0 _].
  pose proof (oo_fpb _ _ _ Ho) as HP. pose proof (n_frags_pos B _ o Ho) as HN.
  destruct (fst_open _ _ _ _ _ _ Hst2 0) as (b & Hb & [[Hw Hfit] Hsl]); [pose proof (oo_blocks _ _ _ Ho); lia|by right|].
  rewrite Z.add_0_r in Hb.
  destruct (block_len B o nv d2 _ b (g_wf _ _ _ Hg2) Hb Hw) as [Hbl Hsz]. unfold len in Hbl.
  destruct (dev_block_ok _ _ _ (g_wf _ _ _ Hg2) Hb) as [Hbr Hok]. destruct (bok_first _ _ _ Hok) as [Hf0 _].
  unfold read_file_fragment. cbn [fh_file fh_version]. wp_steps.
  apply (wp_fragment_count B _ o Ho). rewrite (n_frags_u32 B _ o Ho).
  rewrite (proj2 (Z.leb_gt _ _)) by lia.
  wp_steps. apply (wp_capacity B o _ Ho). wp_steps. apply wp_usize_sub; [lia|]. wp_steps.
  rewrite (fpb_u32 B _ o Ho). apply wp_u32_div; [lia|]. rewrite Z.div_0_l by lia. wp_steps.
  pose proof (oo_u32 _ _ _ Ho). apply wp_u32_add; [unfold u32_max, u32_size in *; rewrite (g_blocks _ _ _ Hg2) in Hbr; lia|].
  wp_steps. apply wp_u32_rem; [lia|]. rewrite Z.mod_0_l, Z.add_0_r by lia. wp_steps.
  apply wp_dev_header; [apply Hg2|done| |]; [|intros e d3 _ []; apply Hg2].
  intros d3 H3. rewrite Hb. cbn [fmap option_fmap option_map].
  unfold is_writeable in Hw. apply andb_true_iff in Hw as [_ Hv]. rewrite Hv. cbn [negb]. wp_steps.
  unfold first_fragment. apply wp_u32_add; [lia|]. rewrite Z.add_0_r. wp_steps. unfold dev_read_fragment.
  destruct (lookup_lt_is_Some_2 (blk_slots b) 0 ltac:(lia)) as [[st ds] Hs].
  assert (st = Empty) as -> by (pose proof (Hsl _ _ Hs) as Hx; cbn in Hx; done).
  assert (slot_of b (first_frag_no (blk_hdr b)) = Some (Empty, ds)) as Hslot.
  { unfold slot_of, rel_of, wrapping_sub. rewrite Z.sub_diag. done. }
  apply (wp_dev_read d3 (obj_start o)); [apply H3|by rewrite (same_block d2)|lia|lia| | |]; rewrite ?Hslot.
  - done.
  - intros d4 k _ [= <-]. done.
  - intros e d4 _ []. apply (fs_healthy H3), Hg2.
Qed.

(** [delete] empties the file.  On a device without faults it succeeds
    with a handle of the next version, and reading the file afterwards fails
    with [FileNotReadable]. *)
Theorem delete_file_empty d n :
  let nv := next_version (current_version B o d) in
  dev_wf d → dev_healthy d → file_ok (dev_blocks d) → file_ready B o d nv →
  0 < n → 0 < file_cap B o →
  ∃ d1 d2, delete B o d = (Ok (mkWriteableFileHandle (mkFileHandle o nv)), d1) ∧
    read_file B o n d1 = (Err Error_FileNotReadable, d2).
Proof.
  intros nv Hwf Hh Hf Hre Hn Hcap0. pose proof Hf as [Ho Hfs Hcap Hend].
  assert (good B (dev_blocks d) d) as Hg by done.
  assert (wp (delete B o) (λ h d', h = mkWriteableFileHandle (mkFileHandle o nv) ∧
    good B (dev_blocks d) d' ∧ file_state B o nv d' [] 0) (λ _ _, False) d) as Hw.
  { apply (wp_delete B o _ Ho d []); [done..|]. auto. }
  apply wp_ok in Hw as (h & d1 & Hrun & -> & Hg1 & Hst). exists d1.
  assert (wp (read_file B o n) (λ _ _, False) (λ e _, e = Error_FileNotReadable) d1) as Hr.
  { unfold read_file. wp_steps. apply (wp_file_handle B o _ Ho nv); [done|apply Hst|].
    intros d2 H2. wp_steps. apply (wp_capacity B o _ Ho). wp_steps. apply (wp_fragment_count B _ o Ho).
    rewrite (proj2 (Z.eqb_neq _ _)) by lia.
    destruct (chunk_lens (obj_fragment_size o) (Z.min n (file_cap B o))) as [|l lens] eqn:Hl.
    { exfalso. unfold chunk_lens, chunks in Hl. rewrite length_replicate in Hl.
      destruct (Z.to_nat (Z.min n (file_cap B o))) eqn:?; [lia|]. done. }
    assert (0 ≤ l) as Hl0.
    { unfold chunk_lens in Hl. destruct (chunks _ _) as [|ch chs]; [done|]. injection Hl as <- _. apply len_nonneg. }
    pose proof (n_frags_pos B _ o Ho) as HN. cbn [read_file_chunks].
    rewrite (proj2 (Z.leb_gt _ _)) by lia. wp_steps.
    eapply (wp_mono _ (λ _ _, False) _ (λ e _, e = Error_FragmentNotReadable)); [|done|].
    2: { intros e d3 ->. cbn. done. }
    apply (wp_read_deleted d2 [] l nv _ Ho); [by eapply good_step|by eapply file_state_same|lia|lia]. }
  destruct (read_file B o n d1) as [r d2] eqn:Hrd. apply (wp_run _ _ _ _ _ _ Hr) in Hrd as Hp.
  destruct r; [done| |done]. subst e. eauto.
Qed.
End props.

(** Versions run modulo 128, not modulo 256.  [delete_object] writes the
    header it reads to index 0 of [versions] each time, so index 1 keeps 0xFF,
    and the wrap-around test then takes 0xFF as the newer version from 127 on:
    the version after [v] is [v + 1] below 127 and 0 from 127 on. *)
Theorem next_version_wraps_at_128 v :
  is_u8 v → next_version v = if v <? 127 then v + 1 else 0.
Proof.
  unfold is_u8, next_version, newest_version. intros Hv.
  rewrite Z.max_r, Z.min_l by lia.
  destruct (Z.ltb_spec v 127), (Z.ltb_spec 128 (255 - v)); try lia; [|done].
  apply as_u8_small. unfold is_u8. lia.
Qed.

(** ** Instances on the in-memory flash *)

Module DemoFile.
Import Demo DemoDev.

(** Three data blocks of four 8-byte fragments and the spare block. *)
Definition file : Object := mkObject 5 8 0 4 None.

Lemma demo_file_ok : file_ok 64 file 4.
Proof. split; [split; vm_compute; intuition congruence|done|vm_compute; intuition congruence|done]. Qed.

(** A file with 12 bytes in it. *)
Definition old_data : list Z := seqZ 1 12.
Definition disk1 : BlockDevice InMemoryFlash := Eval vm_compute in run (write_file 64 file old_data) dev0.

Lemma demo_file_ready : file_ready 64 file disk1 1.
Proof.
  split; [done|done|]. intros j Hj. change (n_blocks file) with 3 in Hj.
  assert (j = 1 ∨ j = 2) as [-> | ->] by lia; (split; [intros b Hb; vm_compute in Hb; done|done]).
Qed.

(** The data of a rewrite. *)
Definition new_data : list Z := seqZ 101 40.
End DemoFile.
Import Demo DemoDev DemoFile.

(** An interrupted [write_file] is visible.  The lock taken at the start is
    released by the delete that follows it (formatting the spare block unlocks
    the file), so when the driver fails while a fragment is written, the file
    reads as a proper prefix of the new data: neither the old file, nor an
    empty one, nor the new one. *)
Theorem write_file_not_atomic :
  ∃ d0 d1 d2 bs, d0 = set_flash (trigger_write_error_after 16 (mkMockError Other) (flash disk1)) disk1 ∧
    write_file 64 file new_data d0 = (Err Error_Flash, d1) ∧
    read_file 64 file (len new_data) d1 = (Ok bs, d2) ∧
    bs ≠ new_data ∧ bs ≠ [] ∧ ¬ bs `prefix_of` old_data ∧ bs = take 24 new_data.
Proof.
  eexists _, _, _, _. split; [reflexivity|]. split; [vm_compute; reflexivity|].
  split; [vm_compute; reflexivity|]. split; [done|]. split; [done|]. split; [|done].
  intros [k Hk]. done.
Qed.

Lemma write_file_read_file_witness :
  ∃ d1 d2, write_file 64 file new_data disk1 = (Ok tt, d1) ∧
    read_file 64 file (len new_data) d1 = (Ok new_data, d2).
Proof.
  apply (write_file_read_file 64 file disk1 new_data);
    [by apply demo_ok|done|apply demo_file_ok|apply demo_file_ready|by apply u8s|done].
Defined.

Lemma locked_file_unreadable_witness :
  ∃ d', read_file 64 file 12 dev0 = (Err Error_FileNotReadable, d').
Proof.
  destruct (read_file 64 file 12 dev0) as [r d'] eqn:Hrun.
  destruct (locked_file_unreadable 64 file dev0 12 r d' ltac:(by apply demo_ok)
    ltac:(apply demo_file_ok) ltac:(exact I) Hrun) as [(e & He & _) _].
  exists d'. vm_compute in Hrun. by injection Hrun as <- <-.
Defined.

Lemma delete_file_empty_witness :
  ∃ d1 d2, delete 64 file disk1 = (Ok (mkWriteableFileHandle (mkFileHandle file 1)), d1) ∧
    read_file 64 file 10 d1 = (Err Error_FileNotReadable, d2).
Proof.
  change 1 with (next_version (current_version 64 file disk1)).
  apply (delete_file_empty 64 file disk1 10);
    [by apply demo_ok|done|apply demo_file_ok|apply demo_file_ready|done|done].
Defined.

Lemma next_version_wraps_at_128_witness : next_version 127 = 0.
Proof. exact (next_version_wraps_at_128 127 ltac:(done)). Defined.
