(* ===== verification/Queue.v ===== *)
(** * Queue bookkeeping

    [storage/common/queue.rs]: which elements of a persistent queue are to be
    read, are being read, and have been confirmed.  [MP] is the const parameter
    [MAX_PEEKS].  Readers report back over [embassy_sync]'s channel, a third
    party type: [Channel] is the record of the operations used and
    [ChannelLaws] its documented behaviour, a FIFO of bounded capacity. *)

From stdpp Require Import base list list_numbers numbers option.
From S2P Require Import Prelude.

Inductive QueueError : Type := QueueFull.

Record Confirm : Type := mkConfirm { confirm_id : Z; success : bool }.

(** ** The channel *)

Class Channel (Ch : Type) : Type := {
  ch_new : Ch;
  (** [None]: the channel is full *)
  ch_try_send (msg : Confirm) (ch : Ch) : option Ch;
  (** [None]: the channel is empty *)
  ch_try_receive (ch : Ch) : option (Confirm * Ch);
}.

Class ChannelLaws (cap : Z) (Ch : Type) `{!Channel Ch} : Type := {
  ch_items : Ch → list Confirm;
  ch_bounded : ∀ ch, len (ch_items ch) ≤ cap;
  ch_new_law : ch_items ch_new = [];
  ch_send_law : ∀ msg ch,
    match ch_try_send msg ch with
    | Some ch' => ch_items ch' = ch_items ch ++ [msg]
    | None => len (ch_items ch) = cap
    end;
  ch_receive_law : ∀ ch,
    match ch_try_receive ch with
    | Some (msg, ch') => ch_items ch = msg :: ch_items ch'
    | None => ch_items ch = []
    end;
}.

(** ** Handles *)

(** [sender] is [true] until the handle has reported. *)
Record ConfirmHandle : Type := mkConfirmHandle { handle_id : Z; sender : bool }.

Definition handle_new (id : Z) : ConfirmHandle := mkConfirmHandle id true.
Definition seq_no (h : ConfirmHandle) : Z := handle_id h.

(** [sender.try_send(..).ok()]: a message that does not fit is lost. *)
Definition send {Ch} `{!Channel Ch} (msg : Confirm) (ch : Ch) : Ch :=
  default ch (ch_try_send msg ch).

Definition try_abort {Ch} `{!Channel Ch} (h : ConfirmHandle) (ch : Ch) : ConfirmHandle * Ch :=
  if sender h
  then (mkConfirmHandle (handle_id h) false, send (mkConfirm (handle_id h) false) ch)
  else (h, ch).

(** [Drop] *)
Definition drop_handle {Ch} `{!Channel Ch} (h : ConfirmHandle) (ch : Ch) : Ch := (try_abort h ch).2.

(** [confirm(self)]; the handle is dropped at the end. *)
Definition confirm {Ch} `{!Channel Ch} (h : ConfirmHandle) (ch : Ch) : Ch :=
  if sender h
  then drop_handle (mkConfirmHandle (handle_id h) false) (send (mkConfirm (handle_id h) true) ch)
  else drop_handle h ch.

(** ** Readers *)

Inductive ReadState : Type := RNone | RBusy (n : Z) | RAbort (n : Z).
Inductive ReadBlocked : Type := Blocked_Busy | Blocked_Empty | Blocked_Unknown.

#[export] Instance ReadState_eq_dec : EqDecision ReadState.
Proof. solve_decision. Defined.

Record PeekQueue : Type := mkPeekQueue {
  read_index_min : Z;
  read_index_next : Z;
  reader_slots : list ReadState;
  slot_index : Z;
  stats_n_confirmed : Z;
  stats_n_aborted : Z;
}.

Definition set_min (v : Z) (q : PeekQueue) : PeekQueue :=
  mkPeekQueue v (read_index_next q) (reader_slots q) (slot_index q) (stats_n_confirmed q) (stats_n_aborted q).
Definition set_next (v : Z) (q : PeekQueue) : PeekQueue :=
  mkPeekQueue (read_index_min q) v (reader_slots q) (slot_index q) (stats_n_confirmed q) (stats_n_aborted q).
Definition set_slot_state (i : Z) (s : ReadState) (q : PeekQueue) : PeekQueue :=
  mkPeekQueue (read_index_min q) (read_index_next q) (<[Z.to_nat i := s]> (reader_slots q))
    (slot_index q) (stats_n_confirmed q) (stats_n_aborted q).
Definition set_slot_index (v : Z) (q : PeekQueue) : PeekQueue :=
  mkPeekQueue (read_index_min q) (read_index_next q) (reader_slots q) v (stats_n_confirmed q) (stats_n_aborted q).
Definition u64_max : Z := 18446744073709551615.
Definition count_confirmed (q : PeekQueue) : PeekQueue :=
  mkPeekQueue (read_index_min q) (read_index_next q) (reader_slots q) (slot_index q)
    (Z.min u64_max (stats_n_confirmed q + 1)) (stats_n_aborted q).
Definition count_aborted (q : PeekQueue) : PeekQueue :=
  mkPeekQueue (read_index_min q) (read_index_next q) (reader_slots q) (slot_index q)
    (stats_n_confirmed q) (Z.min u64_max (stats_n_aborted q + 1)).

Section peek_queue.
Context (MP : Z).

Definition peek_new (index : Z) : PeekQueue :=
  mkPeekQueue index index (replicate (Z.to_nat MP) RNone) (index mod as_u32 MP) 0 0.

Definition min_index (q : PeekQueue) : Z := read_index_min q.

Definition bump_min_index (min : Z) (q : PeekQueue) : PeekQueue :=
  let skipped := wrapping_sub min (read_index_min q) in
  let readers_active := wrapping_sub (read_index_next q) (read_index_min q) in
  let q := set_min min q in
  if readers_active <? skipped then set_next min q else q.

Definition is_in_bounds (q : PeekQueue) (n : Z) : bool :=
  if as_u32 MP <? wrapping_sub n (min_index q) then false
  else if as_u32 MP <? wrapping_sub (read_index_next q) n then false
  else true.

(** A slot index out of range panics; so does the [debug_assert!]. *)
Definition update {E} (c : Confirm) : M PeekQueue E unit :=
  i ← u32_rem (confirm_id c) (as_u32 MP);
  slots ← gets reader_slots;
  match slots !! Z.to_nat i with
  | Some (RBusy n) =>
      if n =? confirm_id c then
        if success c
        then modify count_confirmed;; modify (set_slot_state i RNone)
        else modify count_aborted;; modify (set_slot_state i (RAbort n))
      else panic
  | _ => panic
  end.

Definition inc_slot_index (q : PeekQueue) : PeekQueue :=
  let v := slot_index q + 1 in
  set_slot_index (if MP <=? v then 0 else v) q.

(** One iteration of the loop: [Some n] returns [Ok(n)], [None] goes on. *)
Definition reader_iteration (write_index : Z) : M PeekQueue ReadBlocked (option Z) :=
  slot_id ← gets slot_index;
  slots ← gets reader_slots;
  match slots !! Z.to_nat slot_id with
  | None => panic
  | Some (RBusy _) => fail Blocked_Busy
  | Some RNone =>
      alloc_index ← gets read_index_next;
      modify inc_slot_index;;
      min ← gets read_index_min;
      rem ← u32_rem min (as_u32 MP);
      base ← u32_sub min rem;
      slot_seq_no ← u32_add base (as_u32 slot_id);
      (if (slot_seq_no =? min) && negb (slot_seq_no =? alloc_index)
       then modify (set_min (wrapping_add min 1)) else mret tt);;
      min' ← gets min_index;
      if alloc_index =? write_index then
        if negb (min' =? write_index) then mret None else fail Blocked_Empty
      else
        target_slot ← u32_rem alloc_index (as_u32 MP);
        if slot_id =? target_slot then
          modify (set_next (wrapping_add alloc_index 1));;
          modify (set_slot_state slot_id (RBusy alloc_index));;
          mret (Some alloc_index)
        else mret None
  | Some (RAbort index) =>
      q ← gets (λ q, q);
      if is_in_bounds q index then
        modify inc_slot_index;;
        modify (set_slot_state slot_id (RBusy index));;
        mret (Some index)
      else
        modify (set_slot_state slot_id RNone);;
        mret None
  end.

Fixpoint reader_loop (fuel : nat) (write_index : Z) : M PeekQueue ReadBlocked Z :=
  match fuel with
  | O => fail Blocked_Unknown
  | S fuel =>
      r ← reader_iteration write_index;
      match r with
      | Some n => mret n
      | None => reader_loop fuel write_index
      end
  end.

Definition find_reader (write_index : Z) : M PeekQueue ReadBlocked Z :=
  reader_loop (Z.to_nat (2 * MP)) write_index.

Definition peek_is_drained (q : PeekQueue) (write_index : Z) : bool :=
  if negb (read_index_next q =? write_index) then false
  else forallb (λ s,
    match s with
    | RNone => true
    | RBusy _ => false
    | RAbort index => negb (is_in_bounds q index)
    end) (reader_slots q).
End peek_queue.

(** ** The queue *)

Record Queue (Ch : Type) : Type := mkQueue {
  q_capacity : Z;
  overwrite_granularity : Z;
  write_index : Z;
  readers : PeekQueue;
  confirm_channel : Ch;
}.
Arguments mkQueue {Ch} _ _ _ _ _.
Arguments q_capacity {Ch} _.
Arguments overwrite_granularity {Ch} _.
Arguments write_index {Ch} _.
Arguments readers {Ch} _.
Arguments confirm_channel {Ch} _.

Section queue.
Context (MP : Z) {Ch : Type} `{!Channel Ch}.

Definition set_readers (p : PeekQueue) (q : Queue Ch) : Queue Ch :=
  mkQueue (q_capacity q) (overwrite_granularity q) (write_index q) p (confirm_channel q).
Definition set_write_index (v : Z) (q : Queue Ch) : Queue Ch :=
  mkQueue (q_capacity q) (overwrite_granularity q) v (readers q) (confirm_channel q).
Definition set_channel (ch : Ch) (q : Queue Ch) : Queue Ch :=
  mkQueue (q_capacity q) (overwrite_granularity q) (write_index q) (readers q) ch.

(** [u32::try_from(x).unwrap_or(u32::MAX)] for an unsigned [x]. *)
Definition u32_saturate (x : Z) : Z := Z.min u32_max x.

Definition with_overwrite_support (ch : Ch) (capacity granularity : Z) : Queue Ch :=
  mkQueue (u32_saturate capacity) (u32_saturate granularity) 0 (peek_new MP 0) ch.

(** [usize_max] is [usize::MAX] of the target. *)
Definition queue_new (usize_max : Z) (ch : Ch) : Queue Ch := with_overwrite_support ch usize_max 1.

Definition reinit_with_existing_range (range : Z * Z) (q : Queue Ch) : Queue Ch :=
  mkQueue (q_capacity q) (overwrite_granularity q) range.2 (peek_new MP range.1) (confirm_channel q).

(** [while let Ok(confirm) = try_receive()]: the channel holds at most [MP] messages. *)
Fixpoint drain_channel {E} (fuel : nat) : M (Queue Ch) E unit :=
  match fuel with
  | O => mret tt
  | S fuel =>
      ch ← gets confirm_channel;
      match ch_try_receive ch with
      | None => mret tt
      | Some (c, ch') =>
          modify (set_channel ch');;
          zoom readers set_readers (update MP c);;
          drain_channel fuel
      end
  end.

Definition update_reader_slots {E} : M (Queue Ch) E unit := drain_channel (Z.to_nat MP).

(** [wait_confirmation] once a message is there; [None] while it waits. *)
Definition wait_confirmation {E} : M (Queue Ch) E (option unit) :=
  ch ← gets confirm_channel;
  match ch_try_receive ch with
  | None => mret None
  | Some (c, ch') =>
      modify (set_channel ch');;
      zoom readers set_readers (update MP c);;
      mret (Some tt)
  end.

Definition try_alloc_reader : M (Queue Ch) ReadBlocked Z :=
  w ← gets write_index;
  zoom readers set_readers (find_reader MP w).

Definition unconfirmed_count (q : Queue Ch) : Z := wrapping_sub (write_index q) (min_index (readers q)).

Definition existing_range (q : Queue Ch) : Z * Z := (min_index (readers q), write_index q).

Definition checked_next_multiple_of (x g : Z) : option Z :=
  if g =? 0 then None
  else
    let r := x mod g in
    if r =? 0 then Some x
    else if x + (g - r) <? u32_size then Some (x + (g - r)) else None.

Definition enqueue : M (Queue Ch) QueueError Z :=
  index ← gets write_index;
  count ← gets unconfirmed_count;
  if count =? u32_max then fail QueueFull
  else
    modify (set_write_index (wrapping_add index 1));;
    q ← gets (λ q, q);
    (if q_capacity q <? unconfirmed_count q then
       let erased_until :=
         wrapping_sub
           (default 0 (checked_next_multiple_of (write_index q) (overwrite_granularity q)))
           (q_capacity q) in
       modify (set_readers (bump_min_index erased_until (readers q)))
     else mret tt);;
    mret index.

Definition writable_seq_no (q : Queue Ch) : Z := write_index q.

Definition is_drained {E} : M (Queue Ch) E bool :=
  update_reader_slots;;
  q ← gets (λ q, q);
  mret (peek_is_drained MP (readers q) (write_index q)).

Definition peek_next : M (Queue Ch) ReadBlocked ConfirmHandle :=
  count ← gets unconfirmed_count;
  if count =? 0 then fail Blocked_Empty
  else
    update_reader_slots;;
    seqno ← try_alloc_reader;
    mret (handle_new seqno).
End queue.
