(* ===== verification/QueueFacts.v ===== *)
(** * Facts on the queue bookkeeping

    The invariant of [PeekQueue], the elements it still owes to a reader, and
    the behaviour of every operation of [storage/common/queue.rs] under it. *)

From stdpp Require Import base sets list list_numbers numbers option.
From S2P Require Import Prelude Queue.

Ltac q_step := first [wp_step | apply wp_modify].
Ltac q_steps := repeat (q_step; cbv beta).

(** The element whose state a slot holds. *)
Definition slot_elem (s : ReadState) : option Z :=
  match s with RNone => None | RBusy n | RAbort n => Some n end.

Lemma filter_length_le {A} (P Q : A → Prop) `{!∀ x, Decision (P x), !∀ x, Decision (Q x)} l :
  (∀ x, x ∈ l → P x → Q x) → (length (filter P l) ≤ length (filter Q l))%nat.
Proof.
  intros HPQ. induction l as [|x l IH]; [done|].
  assert (length (filter P l) ≤ length (filter Q l))%nat by (apply IH; set_solver).
  rewrite !filter_cons. destruct (decide (P x)) as [Hp|]; destruct (decide (Q x)) as [|Hq]; cbn; try lia.
  destruct Hq. apply HPQ; [set_solver|done].
Qed.

Lemma filter_length_lt {A} (P Q : A → Prop) `{!∀ x, Decision (P x), !∀ x, Decision (Q x)} l y :
  (∀ x, x ∈ l → P x → Q x) → y ∈ l → Q y → ¬ P y →
  (length (filter P l) < length (filter Q l))%nat.
Proof.
  intros HPQ (l1 & l2 & ->)%list_elem_of_split Hq Hp. rewrite !list.filter_app, !length_app, !filter_cons.
  rewrite decide_False, decide_True by done. cbn [length].
  pose proof (filter_length_le P Q l1 ltac:(set_solver)).
  pose proof (filter_length_le P Q l2 ltac:(set_solver)). lia.
Qed.

Section facts.
Context (MP : Z).

Definition slot_at (q : PeekQueue) (n : Z) : option ReadState :=
  reader_slots q !! Z.to_nat (n mod MP).

(** Slot [i] only holds elements congruent to [i]; an element that was erased
    is the last one that used its slot; the sequence numbers do not wrap. *)
Record pq_inv (w : Z) (q : PeekQueue) : Prop := mkInv {
  inv_mp : 0 < MP;
  inv_len : len (reader_slots q) = MP;
  inv_slot : 0 ≤ slot_index q < MP;
  inv_range : 0 ≤ read_index_min q ≤ read_index_next q;
  inv_next : read_index_next q ≤ w;
  inv_window : read_index_next q ≤ read_index_min q + MP;
  inv_no_wrap : w + MP < u32_size;
  inv_elem : ∀ i s n, reader_slots q !! i = Some s → slot_elem s = Some n →
    0 ≤ n < read_index_next q ∧ n mod MP = Z.of_nat i;
  inv_stale : ∀ i s n m, reader_slots q !! i = Some s → slot_elem s = Some n →
    n < read_index_min q ≤ m → m < read_index_next q → m mod MP ≠ Z.of_nat i;
}.

(** Elements written, not erased and not confirmed. *)
Definition live (w : Z) (q : PeekQueue) (n : Z) : Prop :=
  read_index_min q ≤ n < w ∧
  (read_index_next q ≤ n ∨ slot_at q n = Some (RBusy n) ∨ slot_at q n = Some (RAbort n)).

(** Elements handed to a reader that did not report back yet. *)
Definition reading (q : PeekQueue) (n : Z) : Prop := slot_at q n = Some (RBusy n).

(** Steps that neither hand out nor forget an element. *)
Record quiet (w : Z) (q q' : PeekQueue) : Prop := mkQuiet {
  quiet_next : read_index_next q' = read_index_next q;
  quiet_min : read_index_min q ≤ read_index_min q';
  quiet_reading : ∀ n, reading q' n ↔ reading q n;
  quiet_live : ∀ n, live w q' n ↔ live w q n;
}.

Lemma quiet_refl w q : quiet w q q.
Proof. by split. Qed.

Lemma quiet_trans w q1 q2 q3 : quiet w q1 q2 → quiet w q2 q3 → quiet w q1 q3.
Proof. intros [? ? R1 L1] [? ? R2 L2]. split; [congruence|lia|intros n; by rewrite R2, R1|intros n; by rewrite L2, L1]. Qed.

(** ** Arithmetic of the slots *)

Lemma next_slot_mod i : 0 ≤ i < MP → (if MP <=? i + 1 then 0 else i + 1) = (i + 1) mod MP.
Proof.
  intros. destruct (Z.leb_spec MP (i + 1)).
  - replace (i + 1) with MP by lia. rewrite Z_mod_same_full. lia.
  - rewrite Z.mod_small; lia.
Qed.

Lemma distance_zero a i : 0 ≤ i < MP → (a - i) mod MP = 0 ↔ i = a mod MP.
Proof.
  intros. split.
  - intros H0. apply Z.mod_divide in H0 as [k Hk]; [|lia].
    replace a with (i + k * MP) by lia. rewrite Z_mod_plus_full, Z.mod_small; lia.
  - intros ->. rewrite Zminus_mod_idemp_r, Z.sub_diag. apply Zmod_0_l.
Qed.

Lemma distance_step a i :
  0 ≤ i < MP → i ≠ a mod MP → (a - (i + 1) mod MP) mod MP = (a - i) mod MP - 1.
Proof.
  intros Hi Hne. rewrite Zminus_mod_idemp_r.
  pose proof (Z.mod_pos_bound (a - i) MP ltac:(lia)).
  assert ((a - i) mod MP ≠ 0) by (rewrite distance_zero; done).
  replace (a - (i + 1)) with (a - i - 1) by lia.
  rewrite <-Zminus_mod_idemp_l. apply Z.mod_small. lia.
Qed.

Lemma same_slot_close a b : a mod MP = b mod MP → a ≤ b < a + MP → a = b.
Proof.
  intros Hm Hb. assert ((b - a) mod MP = 0) as H0.
  { rewrite <-Zminus_mod_idemp_l, <-Hm, Zminus_mod_idemp_l, Z.sub_diag. apply Zmod_0_l. }
  rewrite Z.mod_small in H0; lia.
Qed.

Lemma slot_nat n : 0 < MP → Z.of_nat (Z.to_nat (n mod MP)) = n mod MP.
Proof. intros. pose proof (Z.mod_pos_bound n MP). lia. Qed.

(** ** Slots under the invariant *)

Section inv.
Context (w : Z) (q : PeekQueue) (I : pq_inv w q).

Lemma inv_as_u32 : as_u32 MP = MP.
Proof. destruct I. apply as_u32_small. unfold is_u32. lia. Qed.

Lemma slot_some i : 0 ≤ i < MP → is_Some (reader_slots q !! Z.to_nat i).
Proof. intros. apply lookup_lt_is_Some. destruct I. unfold len in *. lia. Qed.

Lemma slot_at_elem i s n :
  reader_slots q !! i = Some s → slot_elem s = Some n → slot_at q n = Some s.
Proof.
  intros Hs Hn. destruct (inv_elem _ _ I i s n Hs Hn) as [_ Hi].
  unfold slot_at. rewrite Hi. by rewrite Nat2Z.id.
Qed.

Lemma in_bounds_iff n : 0 ≤ n < read_index_next q →
  is_in_bounds MP q n = (read_index_min q <=? n).
Proof.
  intros Hn. unfold is_in_bounds, min_index. rewrite inv_as_u32. destruct I as [].
  destruct (Z.leb_spec (read_index_min q) n).
  - rewrite !wrapping_sub_small by lia.
    by rewrite !(proj2 (Z.ltb_ge _ _)) by lia.
  - unfold wrapping_sub, as_u32. rewrite <-(Z_mod_plus_full _ 1), Z.mod_small by lia.
    by rewrite (proj2 (Z.ltb_lt _ _)) by lia.
Qed.
End inv.

(** ** Updating one slot *)

Lemma slot_at_update i s q n :
  0 < MP → 0 ≤ i < len (reader_slots q) →
  slot_at (set_slot_state i s q) n = if n mod MP =? i then Some s else slot_at q n.
Proof.
  intros Hm Hi. unfold slot_at, set_slot_state; simpl. unfold len in Hi.
  destruct (Z.eqb_spec (n mod MP) i) as [->|Hne].
  - apply list_lookup_insert_eq. lia.
  - apply list_lookup_insert_ne. pose proof (Z.mod_pos_bound n MP). lia.
Qed.

(** Any slot may be emptied, or change the state of the element it holds. *)
Lemma inv_set_slot w q i s s' :
  pq_inv w q → reader_slots q !! Z.to_nat i = Some s →
  slot_elem s' = None ∨ slot_elem s' = slot_elem s →
  pq_inv w (set_slot_state i s' q).
Proof.
  intros [] Hs Hs'. split; simpl; try done.
  - unfold len. rewrite length_insert. done.
  - intros j t n. rewrite list_lookup_insert_Some. intros [(<- & -> & _)|[_ Ht]] Hn; [|by eauto].
    destruct Hs' as [Hs'|Hs']; rewrite Hs' in Hn; [done|eauto].
  - intros j t n m. rewrite list_lookup_insert_Some. intros [(<- & -> & _)|[_ Ht]] Hn; [|by eauto].
    destruct Hs' as [Hs'|Hs']; rewrite Hs' in Hn; [done|eauto].
Qed.

Lemma inv_set_slot_index w q i : pq_inv w q → 0 ≤ i < MP → pq_inv w (set_slot_index i q).
Proof. intros [] ?. by split. Qed.

Lemma inv_inc_slot w q : pq_inv w q → pq_inv w (inc_slot_index MP q).
Proof.
  intros I. unfold inc_slot_index. apply inv_set_slot_index; [done|].
  rewrite next_slot_mod by apply I. apply Z.mod_pos_bound, I.
Qed.

(** The oldest element is confirmed: [read_index_min] moves past it. *)
Lemma inv_bump_one w q :
  pq_inv w q → slot_at q (read_index_min q) = Some RNone →
  read_index_min q < read_index_next q →
  pq_inv w (set_min (read_index_min q + 1) q).
Proof.
  intros I Hs Hlt. pose proof I as []. split; simpl; try done; try lia.
  intros i s n m Hi Hn Hnm Hm. destruct (decide (n < read_index_min q)) as [Hl|Hl].
  - eapply inv_stale0; eauto. lia.
  - assert (n = read_index_min q) as -> by lia.
    pose proof (slot_at_elem _ _ I _ _ _ Hi Hn). naive_solver.
Qed.

Lemma quiet_bump_one w q :
  pq_inv w q → slot_at q (read_index_min q) = Some RNone →
  read_index_min q < read_index_next q →
  quiet w q (set_min (read_index_min q + 1) q).
Proof.
  intros I Hs Hlt. split; [done|cbn; lia|done|]. intros n. unfold live; cbn.
  change (slot_at (set_min _ q) n) with (slot_at q n).
  split; intros [Hn Hc]; (split; [|done]); [lia|].
  destruct (decide (n = read_index_min q)) as [->|]; [|lia].
  rewrite Hs in Hc. destruct Hc as [?|[?|?]]; [lia|done..].
Qed.

(** The next element goes to the slot it belongs to. *)
Lemma inv_alloc w q :
  pq_inv w q → slot_at q (read_index_next q) = Some RNone →
  read_index_next q < w → read_index_next q < read_index_min q + MP →
  pq_inv w (set_slot_state (read_index_next q mod MP) (RBusy (read_index_next q))
              (set_next (read_index_next q + 1) q)).
Proof.
  intros I Hs Hw Hwin. pose proof I as []. split; simpl; try done; try lia.
  - unfold len. by rewrite length_insert.
  - intros j t n. rewrite list_lookup_insert_Some.
    intros [(<- & <- & _)|[_ Ht]] Hn.
    + injection Hn as <-. rewrite slot_nat by done. split; [lia|done].
    + destruct (inv_elem0 _ _ _ Ht Hn). lia.
  - intros j t n m. rewrite list_lookup_insert_Some.
    intros [(<- & <- & _)|[Hj Ht]] Hn Hnm Hm.
    + injection Hn as <-. lia.
    + destruct (decide (m = read_index_next q)) as [->|]; [|eapply inv_stale0; eauto; lia].
      intros E. apply Hj. rewrite E. lia.
Qed.

Lemma live_alloc w q n :
  pq_inv w q → slot_at q (read_index_next q) = Some RNone →
  live w (set_slot_state (read_index_next q mod MP) (RBusy (read_index_next q))
              (set_next (read_index_next q + 1) q)) n ↔ live w q n.
Proof.
  intros I Hs. pose proof I as []. unfold live; cbn [read_index_min read_index_next set_next set_slot_state].
  rewrite slot_at_update; [|done|cbn; pose proof (Z.mod_pos_bound (read_index_next q) MP); lia].
  change (slot_at (set_next _ q) n) with (slot_at q n).
  destruct (Z.eqb_spec (n mod MP) (read_index_next q mod MP)) as [E|E].
  - assert (slot_at q n = Some RNone) as Hn by (unfold slot_at in *; by rewrite E).
    rewrite Hn. split; intros [Hr Hc]; (split; [done|]).
    + left. destruct Hc as [?|[[=]|[=]]]; lia.
    + destruct Hc as [Hc|[[=]|[=]]]. destruct (decide (n = read_index_next q)) as [->|]; [auto|lia].
  - assert (n ≠ read_index_next q) by congruence.
    split; intros [Hr [?|?]]; (split; [done|]); auto; left; lia.
Qed.

(** ** Looking for a reader *)

(** Aborted reads of elements that were erased: each costs an iteration. *)
Definition is_stale (min : Z) (s : option ReadState) : bool :=
  match s with Some (RAbort n) => n <? min | _ => false end.
Definition stale (q : PeekQueue) : nat :=
  length (filter (λ i, is_stale (read_index_min q) (reader_slots q !! i)) (seq 0 (Z.to_nat MP))).

(** Iterations [find_reader] still needs at most. *)
Definition potential (w : Z) (q : PeekQueue) : Z :=
  Z.of_nat (stale q) +
  if read_index_next q =? w then
    if read_index_min q =? w then 1
    else (read_index_min q - slot_index q) mod MP + (w - read_index_min q)
  else (read_index_next q - slot_index q) mod MP + 1.

(** What an iteration does at an empty slot before it looks at the write index. *)
Definition settle (q : PeekQueue) : PeekQueue :=
  if (slot_index q =? read_index_min q mod MP) && negb (read_index_min q =? read_index_next q)
  then set_min (read_index_min q + 1) (inc_slot_index MP q)
  else inc_slot_index MP q.

Lemma potential_pos w q : pq_inv w q → 0 < potential w q.
Proof.
  intros []. unfold potential.
  pose proof (Z.mod_pos_bound (read_index_min q - slot_index q) MP inv_mp0).
  pose proof (Z.mod_pos_bound (read_index_next q - slot_index q) MP inv_mp0).
  destruct (Z.eqb_spec (read_index_next q) w), (Z.eqb_spec (read_index_min q) w); lia.
Qed.

Lemma stale_bound w q :
  pq_inv w q → Z.of_nat (stale q) + (read_index_next q - read_index_min q) ≤ MP.
Proof.
  intros I. pose proof I as []. unfold stale.
  pose (P := λ i, is_stale (read_index_min q) (reader_slots q !! i)).
  set (window := (λ n, Z.to_nat (n mod MP)) <$> seqZ (read_index_min q) (read_index_next q - read_index_min q)).
  assert (NoDup (filter P (seq 0 (Z.to_nat MP)) ++ window)) as Hnd.
  { apply list.NoDup_app. split_and!.
    - apply list.NoDup_filter, NoDup_seq.
    - intros i [Hi _]%list_elem_of_filter (n & -> & Hn%elem_of_seqZ)%list_elem_of_fmap.
      revert Hi. unfold P, is_stale. destruct (reader_slots q !! _) as [[| |m]|] eqn:Hs; try done.
      intros Hm%Is_true_true_1%Z.ltb_lt. eapply inv_stale0; [done|done| | |by rewrite slot_nat]; lia.
    - apply NoDup_fmap_2_strong; [|apply NoDup_seqZ].
      intros a b Ha%elem_of_seqZ Hb%elem_of_seqZ E.
      apply (f_equal Z.of_nat) in E. rewrite !slot_nat in E by done.
      destruct (decide (a ≤ b)); [apply same_slot_close|symmetry; apply same_slot_close]; try done; lia. }
  assert (length (filter P (seq 0 (Z.to_nat MP)) ++ window) ≤ length (seq 0 (Z.to_nat MP)))%nat as Hl.
  { apply submseteq_length, NoDup_submseteq; [done|].
    intros i [[_ Hi]%list_elem_of_filter|(n & -> & _)%list_elem_of_fmap]%elem_of_app; [done|].
    apply elem_of_seq. pose proof (Z.mod_pos_bound n MP inv_mp0) as [??]. split; [lia|].
    apply Z2Nat.inj_lt; lia. }
  revert Hl. rewrite length_app, length_seq. unfold window. rewrite length_fmap, length_seqZ. unfold P. lia.
Qed.

Lemma potential_bound w q : pq_inv w q → potential w q ≤ 2 * MP.
Proof.
  intros I. pose proof (stale_bound w q I). destruct I. unfold potential.
  pose proof (Z.mod_pos_bound (read_index_min q - slot_index q) MP inv_mp0).
  pose proof (Z.mod_pos_bound (read_index_next q - slot_index q) MP inv_mp0).
  destruct (Z.eqb_spec (read_index_next q) w), (Z.eqb_spec (read_index_min q) w); lia.
Qed.

Section iteration.
Context (w : Z) (q : PeekQueue) (I : pq_inv w q).

Lemma settle_next : read_index_next (settle q) = read_index_next q.
Proof. unfold settle. by destruct (_ && _). Qed.

Lemma settle_slots : reader_slots (settle q) = reader_slots q.
Proof. unfold settle. by destruct (_ && _). Qed.

Lemma settle_slot : slot_index (settle q) = (slot_index q + 1) mod MP.
Proof.
  rewrite <-next_slot_mod by apply I. unfold settle. by destruct (_ && _).
Qed.

(** The oldest element has moved on exactly when its slot was looked at. *)
Lemma settle_min :
  read_index_min (settle q) =
  read_index_min q +
  if (slot_index q =? read_index_min q mod MP) && negb (read_index_min q =? read_index_next q) then 1 else 0.
Proof. unfold settle. destruct (_ && _); cbn; lia. Qed.

Section none.
Hypothesis Hnone : reader_slots q !! Z.to_nat (slot_index q) = Some RNone.

Lemma oldest_none : slot_index q = read_index_min q mod MP → slot_at q (read_index_min q) = Some RNone.
Proof. unfold slot_at. by intros <-. Qed.

Lemma settle_inv : pq_inv w (settle q).
Proof.
  unfold settle. destruct (Z.eqb_spec (slot_index q) (read_index_min q mod MP)) as [E|];
    destruct (Z.eqb_spec (read_index_min q) (read_index_next q)); cbn [andb negb];
    try by apply inv_inc_slot.
  apply (inv_bump_one w (inc_slot_index MP q)); [by apply inv_inc_slot|by apply oldest_none|].
  cbn. pose proof I as []. lia.
Qed.

Lemma settle_quiet : quiet w q (settle q).
Proof.
  unfold settle. destruct (Z.eqb_spec (slot_index q) (read_index_min q mod MP)) as [E|];
    destruct (Z.eqb_spec (read_index_min q) (read_index_next q)); cbn [andb negb]; try done.
  apply (quiet_trans _ _ (set_min (read_index_min q + 1) q)); [|done].
  apply quiet_bump_one; [done|by apply oldest_none|]. pose proof I as []. lia.
Qed.

(** An aborted oldest element would sit in the slot that is empty. *)
Lemma settle_stale : (stale (settle q) ≤ stale q)%nat.
Proof.
  unfold stale. rewrite settle_slots. apply filter_length_le. intros i _.
  unfold is_stale. destruct (reader_slots q !! i) as [[| |n]|] eqn:Hi; try done.
  intros Hn%Is_true_true_1%Z.ltb_lt. apply Is_true_true_2, Z.ltb_lt.
  rewrite settle_min in Hn. destruct (Z.eqb_spec (slot_index q) (read_index_min q mod MP)) as [E|]; [|cbn in Hn; lia].
  assert (n ≠ read_index_min q) by
    (intros ->; pose proof (slot_at_elem _ _ I _ _ _ Hi eq_refl); rewrite oldest_none in *; done).
  destruct (negb _); cbn in Hn; lia.
Qed.

Lemma reader_iteration_none :
  reader_iteration MP w q =
  if read_index_next q =? w then
    if read_index_min (settle q) =? w then (Err Blocked_Empty, settle q) else (Ok None, settle q)
  else if slot_index q =? read_index_next q mod MP
  then (Ok (Some (read_index_next q)),
        set_slot_state (slot_index q) (RBusy (read_index_next q))
          (set_next (read_index_next q + 1) (settle q)))
  else (Ok None, settle q).
Proof.
  pose proof I as []. pose proof (Z.mod_pos_bound (read_index_min q) MP inv_mp0) as Hr.
  pose proof (Z.mod_le (read_index_min q) MP ltac:(lia) inv_mp0).
  unfold reader_iteration, mbind, M_bind, gets, modify, fail. rewrite Hnone. cbn [mret M_ret].
  unfold u32_rem, u32_sub, u32_add. rewrite (inv_as_u32 _ _ I), (as_u32_small (slot_index q)) by (unfold is_u32; lia).
  cbn [read_index_min inc_slot_index set_slot_index].
  rewrite (proj2 (Z.eqb_neq MP 0)) by lia. cbn [mret M_ret].
  rewrite (proj2 (Z.leb_le _ _)) by lia. cbn [mret M_ret].
  rewrite (proj2 (Z.ltb_lt _ _)) by lia. cbn [mret M_ret].
  replace (read_index_min q - read_index_min q mod MP + slot_index q =? read_index_min q)
    with (slot_index q =? read_index_min q mod MP).
  2: { destruct (Z.eqb_spec (slot_index q) (read_index_min q mod MP)); symmetry; [apply Z.eqb_eq|apply Z.eqb_neq]; lia. }
  rewrite (wrapping_add_small (read_index_min q) 1), (wrapping_add_small (read_index_next q) 1) by lia.
  unfold settle. destruct (Z.eqb_spec (slot_index q) (read_index_min q mod MP)) as [E|E]; cbn [andb].
  2: { unfold min_index; cbn. repeat case_match; done. }
  replace (read_index_min q - read_index_min q mod MP + slot_index q) with (read_index_min q) by lia.
  destruct (Z.eqb_spec (read_index_min q) (read_index_next q)); cbn [negb]; unfold min_index; cbn;
    repeat case_match; done.
Qed.

Lemma potential_settle :
  (if read_index_next q =? w then read_index_min (settle q) ≠ w
   else slot_index q ≠ read_index_next q mod MP) →
  potential w (settle q) < potential w q.
Proof.
  intros Hc. pose proof settle_stale. pose proof settle_inv as []. pose proof I as [].
  rewrite settle_min, settle_next in *. revert Hc. unfold potential. rewrite settle_next, settle_slot, settle_min.
  destruct (Z.eqb_spec (read_index_next q) w) as [E|E].
  2: { intros Hne. rewrite distance_step by done. lia. }
  destruct (Z.eqb_spec (slot_index q) (read_index_min q mod MP)) as [E'|E'];
    destruct (Z.eqb_spec (read_index_min q) (read_index_next q)); cbn [andb negb]; intros Hne; try lia;
    rewrite !(proj2 (Z.eqb_neq _ w)) by lia.
  - rewrite E' at 1. rewrite Zplus_mod_idemp_l, Zminus_mod_idemp_r, Z.sub_diag, Zmod_0_l.
    pose proof (Z.mod_pos_bound (read_index_min q - slot_index q) MP inv_mp0). lia.
  - rewrite Z.add_0_r, distance_step by done. lia.
Qed.
End none.
End iteration.

(** [n] is handed out: it was live, in no reader's hands, and nothing else changes. *)
Record taken (w : Z) (q : PeekQueue) (n : Z) (q' : PeekQueue) : Prop := mkTaken {
  taken_live : live w q n;
  taken_free : ¬ reading q n;
  taken_order : n ≤ read_index_next q;
  taken_next : read_index_next q' = Z.max (read_index_next q) (n + 1);
  taken_min : read_index_min q ≤ read_index_min q';
  taken_same : ∀ m, live w q' m ↔ live w q m;
  taken_reading : ∀ m, reading q' m ↔ m = n ∨ reading q m;
}.

Lemma reading_set_busy w q i n :
  pq_inv w q → 0 ≤ i < MP → n mod MP = i →
  reader_slots q !! Z.to_nat i = Some RNone ∨ reader_slots q !! Z.to_nat i = Some (RAbort n) →
  ∀ m, reading (set_slot_state i (RBusy n) q) m ↔ m = n ∨ reading q m.
Proof.
  intros I Hi <- Hs m. unfold reading.
  rewrite slot_at_update; [|apply I|rewrite (inv_len _ _ I); done].
  destruct (Z.eqb_spec (m mod MP) (n mod MP)) as [E|E].
  - assert (slot_at q m ≠ Some (RBusy m)) by (unfold slot_at; rewrite E; destruct Hs as [->| ->]; done).
    split; [|naive_solver]. intros [= ->]. by left.
  - split; [auto|]. intros [->|?]; done.
Qed.

Lemma taken_alloc w q q' :
  pq_inv w q → quiet w q q' → pq_inv w q' → slot_at q' (read_index_next q) = Some RNone →
  read_index_next q < w →
  taken w q (read_index_next q)
    (set_slot_state (read_index_next q mod MP) (RBusy (read_index_next q))
       (set_next (read_index_next q + 1) q')).
Proof.
  intros I [Hn Hmin Hr Hl] I' Hs Hlt. split.
  - split; [|by left]. pose proof I as []. lia.
  - rewrite <-Hr. unfold reading. by rewrite Hs.
  - done.
  - cbn. lia.
  - done.
  - intros m. rewrite <-Hl, <-Hn. apply live_alloc; [done|by rewrite Hn].
  - intros m. rewrite <-Hr.
    apply (reading_set_busy w (set_next (read_index_next q) q')); [|apply Z.mod_pos_bound, I|done|by left].
    rewrite <-Hn. by destruct q', I'.
Qed.

Lemma taken_retry w q n :
  pq_inv w q → reader_slots q !! Z.to_nat (slot_index q) = Some (RAbort n) → read_index_min q ≤ n →
  taken w q n (set_slot_state (slot_index q) (RBusy n) (inc_slot_index MP q)).
Proof.
  intros I Hs Hmin. pose proof I as [].
  destruct (inv_elem0 _ _ _ Hs eq_refl) as [Hn Hi]. rewrite Z2Nat.id in Hi by lia.
  pose proof (slot_at_elem _ _ I _ _ _ Hs eq_refl) as Ha.
  assert (∀ m, slot_at (set_slot_state (slot_index q) (RBusy n) (inc_slot_index MP q)) m =
    if m mod MP =? slot_index q then Some (RBusy n) else slot_at q m) as Hat.
  { intros m. rewrite slot_at_update; [done|done|]. cbn. lia. }
  split.
  - split; [lia|auto].
  - unfold reading. by rewrite Ha.
  - lia.
  - cbn. lia.
  - done.
  - intros m. unfold live. rewrite Hat. cbn.
    destruct (Z.eqb_spec (m mod MP) (slot_index q)) as [E|E]; [|done].
    unfold slot_at. rewrite E, Hs. naive_solver.
  - apply (reading_set_busy w (inc_slot_index MP q)); [by apply inv_inc_slot|done|done|by right].
Qed.

(** A read that aborted and whose element is gone frees its slot. *)
Lemma drop_stale w q n :
  pq_inv w q → reader_slots q !! Z.to_nat (slot_index q) = Some (RAbort n) → n < read_index_min q →
  quiet w q (set_slot_state (slot_index q) RNone q) ∧
  potential w (set_slot_state (slot_index q) RNone q) < potential w q.
Proof.
  intros I Hs Hn. pose proof I as []. split.
  - assert (∀ m, slot_at (set_slot_state (slot_index q) RNone q) m =
      if m mod MP =? slot_index q then Some RNone else slot_at q m) as Hat.
    { intros m. by rewrite slot_at_update by (done || lia). }
    split; [done|done|..]; intros m; unfold live, reading; rewrite Hat; cbn;
      (destruct (Z.eqb_spec (m mod MP) (slot_index q)) as [E|E]; [|done]);
      unfold slot_at; rewrite E, Hs; [naive_solver|].
    split; intros [Hr [?|[[=]|[=]]]]; (split; [done|auto]). lia.
  - unfold potential. cbn [read_index_next read_index_min slot_index set_slot_state].
    apply Z.add_lt_mono_r, Nat2Z.inj_lt. unfold stale. cbn [read_index_min reader_slots set_slot_state].
    apply (filter_length_lt _ _ _ (Z.to_nat (slot_index q))).
    + intros i _. destruct (decide (i = Z.to_nat (slot_index q))) as [->|].
      * rewrite list_lookup_insert_eq by (unfold len in *; lia). done.
      * by rewrite list_lookup_insert_ne by done.
    + apply elem_of_seq. lia.
    + rewrite Hs. apply Is_true_true_2, Z.ltb_lt, Hn.
    + rewrite list_lookup_insert_eq by (unfold len in *; lia). by intros [].
Qed.

Lemma wp_reader_iteration w q :
  pq_inv w q →
  wp (reader_iteration MP w)
    (λ r q', pq_inv w q' ∧
       match r with
       | Some n => taken w q n q'
       | None => quiet w q q' ∧ potential w q' < potential w q
       end)
    (λ e q', pq_inv w q' ∧ quiet w q q' ∧
       match e with
       | Blocked_Busy => ∃ n, reading q' n
       | Blocked_Empty => read_index_min q' = w
       | Blocked_Unknown => False
       end) q.
Proof.
  intros I. destruct (slot_some w q I (slot_index q)) as [s Hs]; [apply I|].
  destruct s as [|n|n].
  - unfold wp. rewrite reader_iteration_none by done.
    pose proof (settle_inv w q I Hs) as I'. pose proof (settle_quiet w q I Hs) as Hq.
    pose proof (potential_settle w q I Hs) as Hp.
    destruct (Z.eqb_spec (read_index_next q) w) as [Ew|Ew].
    + by destruct (Z.eqb_spec (read_index_min (settle q)) w); auto.
    + destruct (Z.eqb_spec (slot_index q) (read_index_next q mod MP)) as [Es|Es]; [|auto].
      assert (slot_at (settle q) (read_index_next q) = Some RNone) as Hn
        by (unfold slot_at; rewrite settle_slots, <-Es; done).
      assert (read_index_next q < w) by (pose proof I as []; lia).
      rewrite Es. split; [|by apply taken_alloc].
      pose proof (settle_next q) as Hsn. rewrite <-Hsn in Hn |- *. apply inv_alloc; [done..|lia|].
      rewrite settle_min, Hsn. pose proof I as [].
      destruct (Z.eqb_spec (slot_index q) (read_index_min q mod MP)) as [E|E];
        destruct (Z.eqb_spec (read_index_min q) (read_index_next q)); cbn [andb negb]; try lia.
      destruct (decide (read_index_next q = read_index_min q + MP)) as [En|]; [|lia].
      destruct E. rewrite Es, En. rewrite <-(Z.mul_1_l MP) at 1. by rewrite Z_mod_plus_full.
  - unfold wp, reader_iteration, mbind, M_bind, gets. rewrite Hs. cbn.
    split_and!; [done|apply quiet_refl|]. exists n. by apply (slot_at_elem w q I _ _ _ Hs).
  - destruct (inv_elem _ _ I _ _ _ Hs eq_refl) as [Hn _].
    unfold wp, reader_iteration, mbind, M_bind, gets. rewrite Hs, (in_bounds_iff w) by done.
    destruct (Z.leb_spec (read_index_min q) n); cbn.
    + split; [|by apply taken_retry]. eapply (inv_set_slot w (inc_slot_index MP q)); [by apply inv_inc_slot|done|].
      by right.
    + split; [|by apply (drop_stale w q n)]. eapply inv_set_slot; [done..|by left].
Qed.

Lemma taken_quiet w q1 q2 q3 n : quiet w q1 q2 → taken w q2 n q3 → taken w q1 n q3.
Proof.
  intros [Hn Hmin Hr Hl] []. rewrite Hn in *. split; try done.
  - by apply Hl.
  - by rewrite <-Hr.
  - lia.
  - intros m. by rewrite taken_same0.
  - intros m. by rewrite taken_reading0, Hr.
Qed.

Lemma wp_reader_loop w fuel q :
  pq_inv w q → potential w q ≤ Z.of_nat fuel →
  wp (reader_loop MP fuel w)
    (λ n q', pq_inv w q' ∧ taken w q n q')
    (λ e q', pq_inv w q' ∧ quiet w q q' ∧
       match e with
       | Blocked_Busy => ∃ n, reading q' n
       | Blocked_Empty => read_index_min q' = w
       | Blocked_Unknown => False
       end) q.
Proof.
  revert q. induction fuel as [|fuel IH]; intros q I Hf; cbn [reader_loop].
  { pose proof (potential_pos w q I). lia. }
  apply wp_bind. eapply wp_mono; [by apply wp_reader_iteration| |done].
  intros [n|] q' [I' Hq]; [by q_steps|]. destruct Hq as [Hq Hp].
  eapply wp_mono; [apply IH; [done|lia]| |].
  - intros n q'' [? ?]. split; [done|]. by eapply taken_quiet.
  - intros e q'' (? & ? & ?). split_and!; try done. by eapply quiet_trans.
Qed.

(** [find_reader]: the bound of [2 * MAX_PEEKS] iterations is enough. *)
Lemma wp_find_reader w q :
  pq_inv w q →
  wp (find_reader MP w)
    (λ n q', pq_inv w q' ∧ taken w q n q')
    (λ e q', pq_inv w q' ∧ quiet w q q' ∧
       match e with
       | Blocked_Busy => ∃ n, reading q' n
       | Blocked_Empty => read_index_min q' = w
       | Blocked_Unknown => False
       end) q.
Proof.
  intros I. apply wp_reader_loop; [done|].
  pose proof (potential_bound w q I). destruct I. lia.
Qed.

(** ** Reports *)

(** The state after the report [c] on an element that is being read. *)
Definition reported (w : Z) (q : PeekQueue) (c : Confirm) (q' : PeekQueue) : Prop :=
  read_index_next q' = read_index_next q ∧ read_index_min q' = read_index_min q ∧
  (∀ m, reading q' m ↔ reading q m ∧ m ≠ confirm_id c) ∧
  (∀ m, live w q' m ↔ live w q m ∧ (success c = true → m ≠ confirm_id c)).

Lemma reported_set w q c s :
  pq_inv w q → reading q (confirm_id c) →
  s = (if success c then RNone else RAbort (confirm_id c)) →
  reported w q c (set_slot_state (confirm_id c mod MP) s q).
Proof.
  intros I Hr ->. pose proof I as []. pose proof (Z.mod_pos_bound (confirm_id c) MP inv_mp0).
  destruct (inv_elem0 _ _ _ Hr eq_refl) as [Hlt _].
  assert (∀ m, m mod MP = confirm_id c mod MP → slot_at q m = Some (RBusy (confirm_id c))) as Hat.
  { intros m Em. unfold slot_at. by rewrite Em. }
  split; [done|]. split; [done|].
  split; intros m; unfold live, reading; rewrite slot_at_update by (done || lia); cbn;
    (destruct (Z.eqb_spec (m mod MP) (confirm_id c mod MP)) as [Em|Em];
     [rewrite (Hat m Em)|assert (m ≠ confirm_id c) by congruence; naive_solver]).
  - destruct (success c); naive_solver.
  - destruct (success c); [|naive_solver].
    split; intros [??]; naive_solver lia.
Qed.

Lemma wp_update {E} w q c (R : E → PeekQueue → Prop) :
  pq_inv w q → reading q (confirm_id c) →
  wp (update MP c) (λ _ q', pq_inv w q' ∧ reported w q c q') R q.
Proof.
  intros I Hr. pose proof I as [].
  unfold update. apply wp_bind, wp_u32_rem; [by rewrite (inv_as_u32 _ _ I)|].
  rewrite (inv_as_u32 _ _ I). q_steps. pose proof Hr as Hs. unfold reading, slot_at in Hs.
  rewrite Hs, Z.eqb_refl.
  pose proof (reported_set w q c _ I Hr eq_refl) as Hrep.
  destruct (success c) eqn:Hok; q_steps.
  - split; [|exact Hrep]. eapply (inv_set_slot w (count_confirmed q)); [by destruct I|exact Hs|by left].
  - split; [|exact Hrep]. eapply (inv_set_slot w (count_aborted q)); [by destruct I|exact Hs|by right].
Qed.

(** ** Draining, overwriting, growing *)

Lemma drained_iff w q :
  pq_inv w q →
  peek_is_drained MP q w = true ↔ (∀ n, ¬ live w q n) ∧ (∀ n, ¬ reading q n).
Proof.
  intros I. pose proof I as []. unfold peek_is_drained.
  destruct (Z.eqb_spec (read_index_next q) w) as [E|E]; cbn [negb].
  2: { split; [done|]. intros [Hl _]. destruct (Hl (read_index_next q)). split; [lia|by left]. }
  rewrite forallb_forall. split.
  - intros Hall. assert (∀ i s, reader_slots q !! i = Some s →
      match s with RNone => True | RBusy _ => False | RAbort n => n < read_index_min q end) as Hs.
    { intros i s Hi. specialize (Hall s). rewrite <-list_elem_of_In in Hall.
      specialize (Hall (list_elem_of_lookup_2 _ _ _ Hi)). destruct s as [|n|n]; [done..|].
      rewrite (in_bounds_iff w) in Hall by (eauto || eapply inv_elem0; eauto).
      apply negb_true_iff, Z.leb_gt in Hall. done. }
    split.
    + intros n [Hn [?|[Hi|Hi]]]; [lia|apply Hs in Hi..]; [done|lia].
    + intros n Hn. by apply Hs in Hn.
  - intros [Hl Hr] s (i & Hi)%list_elem_of_In%list_elem_of_lookup. destruct s as [|n|n]; [done|..].
    + destruct (Hr n). eapply (slot_at_elem w q I); done.
    + destruct (inv_elem0 _ _ _ Hi eq_refl) as [Hn _]. rewrite (in_bounds_iff w) by done.
      apply negb_true_iff, Z.leb_gt. destruct (decide (read_index_min q ≤ n)); [|lia].
      destruct (Hl n). split; [lia|]. right; right. eapply (slot_at_elem w q I); done.
Qed.

Lemma bump_min_eq w q e :
  pq_inv w q → read_index_min q ≤ e ≤ w →
  bump_min_index e q = set_next (Z.max (read_index_next q) e) (set_min e q).
Proof.
  intros [] He. unfold bump_min_index. rewrite !wrapping_sub_small by lia.
  destruct (Z.ltb_spec (read_index_next q - read_index_min q) (e - read_index_min q)).
  - by rewrite Z.max_r by lia.
  - rewrite Z.max_l by lia. by destruct q.
Qed.

Lemma inv_bump w q e : pq_inv w q → read_index_min q ≤ e ≤ w → pq_inv w (bump_min_index e q).
Proof.
  intros I He. rewrite (bump_min_eq w) by done. destruct I. split; cbn; try done; try lia.
  - intros i s n Hi Hn. destruct (inv_elem0 _ _ _ Hi Hn). lia.
  - intros i s n m Hi Hn Hnm Hm. destruct (inv_elem0 _ _ _ Hi Hn) as [? En].
    destruct (decide (n < read_index_min q)); [eapply inv_stale0; eauto; lia|].
    rewrite <-En. intros E. assert (n = m) by (apply same_slot_close; [done|lia]). lia.
Qed.

Lemma bump_reading q e n : reading (bump_min_index e q) n ↔ reading q n.
Proof. unfold bump_min_index. by destruct (_ <? _). Qed.

Lemma bump_live w q e n :
  pq_inv w q → read_index_min q ≤ e ≤ w →
  live w (bump_min_index e q) n ↔ live w q n ∧ e ≤ n.
Proof.
  intros I He. rewrite (bump_min_eq w) by done. unfold live. cbn.
  change (slot_at (set_next _ _) n) with (slot_at q n). pose proof I as [].
  split.
  - intros [Hn Hc]. split; [|lia]. split; [lia|]. destruct Hc; [left; lia|by right].
  - intros [[Hn Hc] Hle]. split; [lia|]. destruct Hc; [left; lia|by right].
Qed.

Lemma inv_grow w w' q : pq_inv w q → w ≤ w' → w' + MP < u32_size → pq_inv w' q.
Proof. intros [] ??. split; try done. lia. Qed.

Lemma live_grow w q n : pq_inv w q → live (w + 1) q n ↔ live w q n ∨ n = w.
Proof.
  intros []. unfold live. split.
  - intros [Hn Hc]. destruct (decide (n = w)); [by right|]. left. split; [lia|done].
  - intros [[Hn Hc]| ->]; (split; [lia|]); [done|left; lia].
Qed.

Lemma inv_peek_new lo hi :
  0 < MP → 0 ≤ lo ≤ hi → hi + MP < u32_size → pq_inv hi (peek_new MP lo).
Proof.
  intros. unfold peek_new. split; cbn -[u32_size]; try lia.
  - unfold len. rewrite length_replicate. lia.
  - rewrite as_u32_small by (unfold is_u32; lia). by apply Z.mod_pos_bound.
  - intros i s n [-> _]%lookup_replicate. done.
Qed.

Lemma peek_new_reading lo n : ¬ reading (peek_new MP lo) n.
Proof. unfold reading, slot_at. cbn. by intros [? _]%lookup_replicate. Qed.

Lemma peek_new_live lo hi n : live hi (peek_new MP lo) n ↔ lo ≤ n < hi.
Proof.
  unfold live. cbn. split; [by intros []|]. intros. split; [done|]. left. lia.
Qed.

(** Elements in readers' hands sit in different slots. *)
Lemma reading_bound w q l :
  pq_inv w q → NoDup l → (∀ n, n ∈ l → reading q n) → len l ≤ MP.
Proof.
  intros I Hnd Hl. pose proof I as [].
  assert (NoDup ((λ n, Z.to_nat (n mod MP)) <$> l)) as Hm.
  { apply NoDup_fmap_2_strong; [|done]. intros a b Ha%Hl Hb%Hl E.
    unfold reading, slot_at in *. rewrite E in Ha. congruence. }
  assert (length ((λ n, Z.to_nat (n mod MP)) <$> l) ≤ length (reader_slots q))%nat as Hle.
  { rewrite <-(length_seq (length (reader_slots q)) 0).
    apply submseteq_length, NoDup_submseteq; [done|].
    intros i (n & -> & Hn%Hl)%list_elem_of_fmap. apply elem_of_seq.
    apply lookup_lt_Some in Hn. lia. }
  rewrite length_fmap in Hle. unfold len in *. lia.
Qed.
End facts.
