(* ===== verification/QueueSystem.v ===== *)
(** * The queue and its readers

    A [Queue] of [storage/common/queue.rs] together with the [ConfirmHandle]s it
    gave out, as a transition system whose steps are the calls of the code in
    any order, and the abstract queue that system implements: a set of elements
    owed to readers and a set of elements in readers' hands. *)

From stdpp Require Import base sets gmap list list_numbers numbers option.
From S2P Require Import Prelude Queue QueueFacts.

Inductive event : Type :=
| Enqueued (n : Z)
| Peeked (n : Z)
| PeekBlocked (e : ReadBlocked)
| Confirmed (n : Z)
| Aborted (n : Z)
| Drained (b : bool)
| Waited (r : option unit).

#[export] Instance ReadBlocked_eq_dec : EqDecision ReadBlocked.
Proof. solve_decision. Defined.
#[export] Instance event_eq_dec : EqDecision event.
Proof. solve_decision. Defined.

(** ** The abstract queue *)

Record AQueue : Type := mkAQ { aq_next : Z; aq_live : gset Z; aq_held : gset Z }.

(** An element is owed until it is confirmed or overwritten; it is in the hands
    of at most one reader.  Only elements that are at least [cap - g] older
    than the newest are ever overwritten. *)
Inductive aq_step (cap g : Z) : AQueue → event → AQueue → Prop :=
| aq_enqueue a e :
    aq_next a + 1 - cap ≤ e ≤ aq_next a + g - cap →
    aq_step cap g a (Enqueued (aq_next a))
      (mkAQ (aq_next a + 1) (filter (λ n, e ≤ n) ({[aq_next a]} ∪ aq_live a)) (aq_held a))
| aq_peek a n :
    n ∈ aq_live a → n ∉ aq_held a →
    aq_step cap g a (Peeked n) (mkAQ (aq_next a) (aq_live a) ({[n]} ∪ aq_held a))
| aq_empty a : aq_live a = ∅ → aq_step cap g a (PeekBlocked Blocked_Empty) a
| aq_busy a : aq_held a ≠ ∅ → aq_step cap g a (PeekBlocked Blocked_Busy) a
| aq_confirm a n :
    n ∈ aq_held a →
    aq_step cap g a (Confirmed n) (mkAQ (aq_next a) (aq_live a ∖ {[n]}) (aq_held a ∖ {[n]}))
| aq_abort a n :
    n ∈ aq_held a →
    aq_step cap g a (Aborted n) (mkAQ (aq_next a) (aq_live a) (aq_held a ∖ {[n]}))
| aq_drained a b :
    (b = true ↔ aq_live a = ∅ ∧ aq_held a = ∅) → aq_step cap g a (Drained b) a
| aq_waited a r : aq_step cap g a (Waited r) a.

Record System (Ch : Type) : Type := mkSys { sys_queue : Queue Ch; sys_handles : list ConfirmHandle }.
Arguments mkSys {Ch} _ _.
Arguments sys_queue {Ch} _.
Arguments sys_handles {Ch} _.

Section system.
Context (MP : Z) {Ch : Type} `{!Channel Ch, !ChannelLaws MP Ch}.
Implicit Types (q : Queue Ch) (s : System Ch).

(** The write index has not reached the end of the [u32] range. *)
Definition no_wrap q : Prop :=
  write_index q + 1 + MP < u32_size ∧ write_index q + overwrite_granularity q < u32_size.

Inductive sys_step : System Ch → event → System Ch → Prop :=
| step_enqueue q hs n q' :
    no_wrap q → enqueue q = (Ok n, q') → sys_step (mkSys q hs) (Enqueued n) (mkSys q' hs)
| step_peek q hs h q' :
    peek_next MP q = (Ok h, q') → sys_step (mkSys q hs) (Peeked (seq_no h)) (mkSys q' (h :: hs))
| step_peek_blocked q hs e q' :
    peek_next MP q = (Err e, q') → sys_step (mkSys q hs) (PeekBlocked e) (mkSys q' hs)
| step_confirm q hs1 h hs2 :
    sys_step (mkSys q (hs1 ++ h :: hs2)) (Confirmed (seq_no h))
      (mkSys (set_channel (confirm h (confirm_channel q)) q) (hs1 ++ hs2))
| step_abort q hs1 h hs2 :
    sys_step (mkSys q (hs1 ++ h :: hs2)) (Aborted (seq_no h))
      (mkSys (set_channel (drop_handle h (confirm_channel q)) q) (hs1 ++ hs2))
| step_drained q hs b q' :
    is_drained (E := QueueError) MP q = (Ok b, q') → sys_step (mkSys q hs) (Drained b) (mkSys q' hs)
| step_wait q hs r q' :
    wait_confirmation (E := QueueError) MP q = (Ok r, q') → sys_step (mkSys q hs) (Waited r) (mkSys q' hs).

(** Traces, oldest event first. *)
Inductive sys_run : System Ch → list event → System Ch → Prop :=
| run_nil s : sys_run s [] s
| run_snoc s1 tr s2 e s3 : sys_run s1 tr s2 → sys_step s2 e s3 → sys_run s1 (tr ++ [e]) s3.

Inductive aq_run (cap g : Z) : AQueue → list event → AQueue → Prop :=
| aq_run_nil a : aq_run cap g a [] a
| aq_run_snoc a1 tr a2 e a3 : aq_run cap g a1 tr a2 → aq_step cap g a2 e a3 → aq_run cap g a1 (tr ++ [e]) a3.

(** ** The invariant of the system *)

Definition held_ids s : list Z := handle_id <$> sys_handles s.
Definition sent_ids s : list Z := confirm_id <$> ch_items (confirm_channel (sys_queue s)).

(** Every element being read has one handle or one report under way. *)
Record sys_inv s : Prop := mkSysInv {
  si_pq : pq_inv MP (write_index (sys_queue s)) (readers (sys_queue s));
  si_nodup : NoDup (held_ids s ++ sent_ids s);
  si_reading : ∀ n, n ∈ held_ids s ++ sent_ids s ↔ reading MP (readers (sys_queue s)) n;
  si_sender : Forall (λ h, sender h = true) (sys_handles s);
  si_cap : 0 < overwrite_granularity (sys_queue s) ≤ q_capacity (sys_queue s);
  si_u32 : q_capacity (sys_queue s) ≤ u32_max;
}.

(** An element whose confirmation is under way is no longer owed. *)
Record implements s (a : AQueue) : Prop := mkImpl {
  impl_next : aq_next a = write_index (sys_queue s);
  impl_live : ∀ n, n ∈ aq_live a ↔
    live MP (write_index (sys_queue s)) (readers (sys_queue s)) n ∧
    mkConfirm n true ∉ ch_items (confirm_channel (sys_queue s));
  impl_held : ∀ n, n ∈ aq_held a ↔ n ∈ held_ids s;
}.

(** ** Reports over the channel *)

(** A handle that is still out has room for its report. *)
Lemma send_room s h c :
  sys_inv s → h ∈ sys_handles s →
  ch_items (send c (confirm_channel (sys_queue s))) = ch_items (confirm_channel (sys_queue s)) ++ [c].
Proof.
  intros I Hh. unfold send. pose proof (ch_send_law (cap := MP) c (confirm_channel (sys_queue s))) as Hs.
  destruct (ch_try_send c _) as [ch'|]; [done|].
  pose proof (reading_bound MP _ _ _ (si_pq _ I) (si_nodup _ I)
    (λ n Hn, proj1 (si_reading _ I n) Hn)) as Hb.
  rewrite len_app in Hb. unfold held_ids, sent_ids, len in Hb, Hs. rewrite !length_fmap in Hb.
  apply list_elem_of_split in Hh as (l1 & l2 & Hl). rewrite Hl, length_app in Hb. cbn in Hb. lia.
Qed.

Lemma handle_sender s h : sys_inv s → h ∈ sys_handles s → sender h = true.
Proof. intros I Hh. pose proof (si_sender _ I) as Hs. rewrite list.Forall_forall in Hs. by apply Hs. Qed.

Lemma confirm_items s h :
  sys_inv s → h ∈ sys_handles s →
  ch_items (confirm h (confirm_channel (sys_queue s))) =
    ch_items (confirm_channel (sys_queue s)) ++ [mkConfirm (handle_id h) true].
Proof.
  intros I Hh. unfold confirm. rewrite (handle_sender s h) by done. by apply (send_room s h).
Qed.

Lemma drop_items s h :
  sys_inv s → h ∈ sys_handles s →
  ch_items (drop_handle h (confirm_channel (sys_queue s))) =
    ch_items (confirm_channel (sys_queue s)) ++ [mkConfirm (handle_id h) false].
Proof.
  intros I Hh. unfold drop_handle, try_abort. rewrite (handle_sender s h) by done. by apply (send_room s h).
Qed.

(** The report of one handle moves its element from the handles to the channel. *)
Lemma inv_report q hs1 h hs2 ch b :
  sys_inv (mkSys q (hs1 ++ h :: hs2)) →
  ch_items ch = ch_items (confirm_channel q) ++ [mkConfirm (handle_id h) b] →
  sys_inv (mkSys (set_channel ch q) (hs1 ++ hs2)).
Proof.
  intros [] Hch. unfold held_ids, sent_ids in *. cbn [sys_queue sys_handles] in *.
  assert ((handle_id <$> (hs1 ++ h :: hs2)) ++ (confirm_id <$> ch_items (confirm_channel q)) ≡ₚ
          (handle_id <$> (hs1 ++ hs2)) ++ (confirm_id <$> ch_items ch)) as Hp.
  { rewrite Hch, !fmap_app. cbn. rewrite <-!(assoc_L (++)). f_equiv.
    rewrite (assoc_L (++) (handle_id <$> hs2)). apply Permutation_cons_append. }
  split; unfold held_ids, sent_ids; cbn [sys_queue sys_handles set_channel write_index readers confirm_channel
    overwrite_granularity q_capacity]; try done.
  - by rewrite <-Hp.
  - intros n. rewrite <-Hp. apply si_reading0.
  - apply Forall_app in si_sender0 as [? Hc]. apply Forall_app. split; [done|].
    by apply Forall_cons_1 in Hc as [_ ?].
Qed.

(** ** Receiving reports *)

Lemma wp_assoc {S E A} (m k : M S E unit) (n : M S E A) Q (R : E → S → Prop) (x : S) :
  wp ((m;; k);; n) Q R x ↔ wp (m;; k;; n) Q R x.
Proof. unfold wp, mbind, M_bind. by destruct (m x) as [[]]. Qed.

(** [q'] is [q] after the reports [l] were processed. *)
Record received q (l : list Confirm) q' : Prop := mkReceived {
  rc_inv : pq_inv MP (write_index q') (readers q');
  rc_write : write_index q' = write_index q;
  rc_min : read_index_min (readers q') = read_index_min (readers q);
  rc_cfg : q_capacity q' = q_capacity q ∧ overwrite_granularity q' = overwrite_granularity q;
  rc_reading : ∀ n, reading MP (readers q') n ↔ reading MP (readers q) n ∧ n ∉ confirm_id <$> l;
  rc_live : ∀ n, live MP (write_index q') (readers q') n ↔
    live MP (write_index q) (readers q) n ∧ mkConfirm n true ∉ l;
}.

Lemma wp_receive_one {E} q c ch' (R : E → Queue Ch → Prop) :
  pq_inv MP (write_index q) (readers q) → reading MP (readers q) (confirm_id c) →
  wp (modify (set_channel ch');; zoom readers set_readers (update MP c))
     (λ _ q', received q [c] q' ∧ confirm_channel q' = ch') R q.
Proof.
  intros I Hr. q_steps.
  eapply wp_mono; [by apply (wp_update MP (write_index q) _ _ (λ _ _, False))| |done].
  intros _ p (I' & _ & Hmin & Hrd & Hlv). split; [|done]. split; cbn; try done.
  - intros n. rewrite Hrd. set_solver.
  - intros n. rewrite Hlv, list_elem_of_singleton. destruct c as [id []]; cbn; naive_solver.
Qed.

Lemma received_cons q1 q2 q3 c l : received q1 [c] q2 → received q2 l q3 → received q1 (c :: l) q3.
Proof.
  intros [_ W1 N1 [C1 C2] R1 L1] [I3 W2 N2 [C3 C4] R2 L2]. split; try done; try congruence.
  - split; congruence.
  - intros n. rewrite R2, R1. set_solver.
  - intros n. rewrite L2, L1. set_solver.
Qed.

Lemma wp_drain {E} fuel q (R : E → Queue Ch → Prop) :
  (length (ch_items (confirm_channel q)) ≤ fuel)%nat →
  pq_inv MP (write_index q) (readers q) →
  NoDup (confirm_id <$> ch_items (confirm_channel q)) →
  (∀ n, n ∈ confirm_id <$> ch_items (confirm_channel q) → reading MP (readers q) n) →
  wp (drain_channel MP fuel)
     (λ _ q', received q (ch_items (confirm_channel q)) q' ∧ ch_items (confirm_channel q') = []) R q.
Proof.
  revert q. induction fuel as [|fuel IH]; intros q Hf I Hnd Hr; cbn [drain_channel].
  { assert (ch_items (confirm_channel q) = []) as Hnil by (apply length_zero_iff_nil; lia).
    rewrite Hnil. q_steps. split; [|done]. split; try done; intros n; set_solver. }
  apply wp_bind, wp_gets. pose proof (ch_receive_law (cap := MP) (confirm_channel q)) as Hc.
  destruct (ch_try_receive _) as [[c ch']|].
  2: { rewrite Hc. q_steps. split; [|done]. split; try done; intros n; set_solver. }
  rewrite Hc in *. rewrite fmap_cons in *. apply list.NoDup_cons in Hnd as [Hni Hnd].
  rewrite <-wp_assoc. apply wp_bind.
  eapply wp_mono; [apply (wp_receive_one q c ch' R I); set_solver| |done]. intros _ q2 [Hrc Hch].
  eapply wp_mono; [apply IH|..].
  - rewrite Hch. cbn in Hf. lia.
  - apply Hrc.
  - by rewrite Hch.
  - intros n. rewrite Hch. intros Hn. apply (rc_reading _ _ _ Hrc). set_solver.
  - intros _ q3 [Hrc' ?]. rewrite Hch in Hrc'. split; [|done]. by eapply received_cons.
  - done.
Qed.

(** After the reports are in, the elements being read are those of the handles. *)
Definition settled_queue (hs : list ConfirmHandle) q q' : Prop :=
  sys_inv (mkSys q' hs) ∧ ch_items (confirm_channel q') = [] ∧
  (q_capacity q' = q_capacity q ∧ overwrite_granularity q' = overwrite_granularity q) ∧
  existing_range q' = existing_range q ∧
  ∀ a, implements (mkSys q hs) a → implements (mkSys q' hs) a.

Lemma received_inv q q' hs l :
  sys_inv (mkSys q hs) → received q l q' →
  ch_items (confirm_channel q) = l ++ ch_items (confirm_channel q') →
  sys_inv (mkSys q' hs) ∧ ∀ a, implements (mkSys q hs) a → implements (mkSys q' hs) a.
Proof.
  intros I [Iq W _ [C1 C2] R L] Hch. destruct I as [? Hnd Hr Hs Hcap Hu]. unfold held_ids, sent_ids in *. cbn in *.
  rewrite Hch, fmap_app in Hnd, Hr.
  assert (∀ n, n ∈ confirm_id <$> l → n ∉ (handle_id <$> hs) ++ (confirm_id <$> ch_items (confirm_channel q'))) as Hdis.
  { intros n Hn. apply list.NoDup_app in Hnd as (_ & H1 & (_ & H2 & _)%list.NoDup_app). set_solver. }
  split.
  - split; unfold held_ids, sent_ids; cbn [sys_queue sys_handles]; try done; rewrite ?C1, ?C2; try done.
    + apply list.NoDup_app in Hnd as (? & H1 & (_ & _ & ?)%list.NoDup_app). apply list.NoDup_app.
      split_and!; try done. set_solver.
    + intros n. rewrite R, <-Hr. set_solver.
  - intros a [An Al Ah]. split; cbn in *.
    + by rewrite W.
    + intros n. rewrite Al, L, Hch. set_solver.
    + done.
Qed.

Lemma wp_update_reader_slots {E} q hs (R : E → Queue Ch → Prop) :
  sys_inv (mkSys q hs) → wp (update_reader_slots MP) (λ _, settled_queue hs q) R q.
Proof.
  intros I. pose proof I as [Iq Hnd Hr _ _ _]. unfold update_reader_slots, held_ids, sent_ids in *.
  eapply wp_mono; [apply wp_drain| |done]; cbn in *.
  - pose proof (ch_bounded (cap := MP) (confirm_channel q)). unfold len in *. lia.
  - done.
  - by apply list.NoDup_app in Hnd as (_ & _ & ?).
  - intros n Hn. apply Hr. set_solver.
  - intros _ q' [Hrc Hnil]. destruct (received_inv q q' hs _ I Hrc) as [? ?].
    + by rewrite Hnil, app_nil_r.
    + split_and!; try done; try apply Hrc. unfold existing_range, min_index.
      by rewrite (rc_write _ _ _ Hrc), (rc_min _ _ _ Hrc).
Qed.

(** ** Every call implements a step of the abstract queue *)

Definition same_config s s' : Prop :=
  q_capacity (sys_queue s') = q_capacity (sys_queue s) ∧
  overwrite_granularity (sys_queue s') = overwrite_granularity (sys_queue s).

Definition simulates s (e : event) s' : Prop :=
  sys_inv s' ∧ same_config s s' ∧ ∀ a, implements s a →
    ∃ a', aq_step (q_capacity (sys_queue s)) (overwrite_granularity (sys_queue s)) a e a' ∧ implements s' a'.

Lemma next_multiple_spec x g :
  0 ≤ x → 0 < g → x + g ≤ u32_size →
  ∃ y, checked_next_multiple_of x g = Some y ∧ x ≤ y < x + g ∧ y mod g = 0.
Proof.
  intros Hx Hg Hw. unfold checked_next_multiple_of. rewrite (proj2 (Z.eqb_neq g 0)) by lia.
  pose proof (Z.mod_pos_bound x g Hg). destruct (Z.eqb_spec (x mod g) 0).
  - exists x. split_and!; [done|lia..].
  - rewrite (proj2 (Z.ltb_lt _ _)) by lia. exists (x + (g - x mod g)). split_and!; [done|lia..|].
    replace (x + (g - x mod g)) with ((x / g + 1) * g) by (pose proof (Z.div_mod x g); lia).
    apply Z_mod_mult.
Qed.

Lemma sent_below q hs n :
  sys_inv (mkSys q hs) → mkConfirm n true ∈ ch_items (confirm_channel q) → n < write_index q.
Proof.
  intros [[] _ Hr _ _ _] Hn. unfold held_ids, sent_ids in Hr. cbn in *.
  assert (reading MP (readers q) n) as Hrd.
  { apply Hr, elem_of_app. right. apply list_elem_of_fmap. by exists (mkConfirm n true). }
  destruct (inv_elem _ _ _ Hrd eq_refl). lia.
Qed.

(** The part of [enqueue] that may move the lower bound. *)
Lemma sim_grow q hs e p :
  sys_inv (mkSys q hs) → no_wrap q →
  write_index q + 1 - q_capacity q ≤ e ≤ write_index q + overwrite_granularity q - q_capacity q →
  pq_inv MP (write_index q + 1) p →
  (∀ n, reading MP p n ↔ reading MP (readers q) n) →
  (∀ n, live MP (write_index q + 1) p n ↔ live MP (write_index q + 1) (readers q) n ∧ e ≤ n) →
  simulates (mkSys q hs) (Enqueued (write_index q))
    (mkSys (set_readers p (set_write_index (write_index q + 1) q)) hs).
Proof.
  intros I [Hw1 Hw2] He Ip Hr Hl. pose proof I as [Iq Hnd Hrd Hs Hcap Hu]. split.
  - split; unfold held_ids, sent_ids in *; cbn in *; try done. intros n. by rewrite Hr, Hrd.
  - split; [done|]. intros a Ha. pose proof Ha as [An Al Ah]. unfold held_ids, sent_ids in *; cbn in *.
    eexists. split; [rewrite <-An; apply (aq_enqueue _ _ a e); cbn; lia|].
    split; unfold held_ids, sent_ids; cbn; [by rewrite An| |done].
    intros n. rewrite elem_of_filter, elem_of_union, elem_of_singleton, Al, Hl, live_grow, An by done.
    pose proof (sent_below q hs n I). split; [|naive_solver].
    intros [? [->|[? ?]]]; [|naive_solver]. split_and!; [auto|lia|]. intros ?%H. lia.
Qed.

Lemma sim_enqueue q hs :
  sys_inv (mkSys q hs) → no_wrap q →
  wp enqueue (λ n q', simulates (mkSys q hs) (Enqueued n) (mkSys q' hs)) (λ _ _, False) q.
Proof.
  intros I Hw. pose proof I as [Iq _ _ _ Hcap Hu]. cbn in *. pose proof Iq as []. destruct Hw as [Hw1 Hw2].
  unfold enqueue, unconfirmed_count, min_index. q_steps.
  rewrite wrapping_sub_small, (wrapping_add_small (write_index q) 1) by lia.
  rewrite (proj2 (Z.eqb_neq _ _)) by (unfold u32_max, u32_size in *; lia).
  q_steps. cbn [write_index readers q_capacity overwrite_granularity set_write_index].
  assert (pq_inv MP (write_index q + 1) (readers q)) as Ig by (apply (inv_grow MP (write_index q)); [done|lia..]).
  rewrite wrapping_sub_small by lia.
  destruct (Z.ltb_spec (q_capacity q) (write_index q + 1 - read_index_min (readers q))); q_steps.
  - destruct (next_multiple_spec (write_index q + 1) (overwrite_granularity q)) as (y & -> & Hy & _); [lia..|].
    change (default 0 (Some y)) with y. rewrite wrapping_sub_small by (unfold u32_max, u32_size in *; lia).
    eapply (sim_grow q hs (y - q_capacity q)); [done|by split|lia|..].
    + apply inv_bump; [done|lia].
    + intros n. apply bump_reading.
    + intros n. apply bump_live; [done|lia].
  - eapply (sim_grow q hs (write_index q + 1 - q_capacity q) (readers q)); [done|by split|lia|done..|].
    intros n. split; [|tauto]. intros Hn. split; [done|]. destruct Hn. lia.
Qed.

(** Handing out an element of a queue that has no report pending. *)
Lemma sim_taken q q1 hs p n :
  sys_inv (mkSys q1 hs) → ch_items (confirm_channel q1) = [] →
  q_capacity q1 = q_capacity q → overwrite_granularity q1 = overwrite_granularity q →
  (∀ a, implements (mkSys q hs) a → implements (mkSys q1 hs) a) →
  pq_inv MP (write_index q1) p → taken MP (write_index q1) (readers q1) n p →
  simulates (mkSys q hs) (Peeked n) (mkSys (set_readers p q1) (handle_new n :: hs)).
Proof.
  intros [Iq Hnd Hrd Hs Hcap Hu] Hnil C1 C2 Himp Ip Ht. unfold held_ids, sent_ids in *. cbn in *.
  rewrite Hnil in Hnd, Hrd. cbn in *. rewrite app_nil_r in Hnd.
  assert (n ∉ handle_id <$> hs) as Hn.
  { intros Hn. apply (taken_free _ _ _ _ _ Ht), Hrd. set_solver. }
  split.
  - split; unfold held_ids, sent_ids; cbn; rewrite ?Hnil, ?app_nil_r; try done.
    + by apply list.NoDup_cons.
    + intros m. rewrite (taken_reading _ _ _ _ _ Ht), <-Hrd. cbn. set_solver.
    + by constructor.
  - split; [done|]. intros a Ha%Himp. pose proof Ha as [An Al Ah]. unfold held_ids in *. cbn in *. rewrite Hnil in Al.
    eexists. split; [rewrite <-C1, <-C2; apply (aq_peek _ _ a n)|].
    + rewrite Al. split; [apply Ht|set_solver].
    + by rewrite Ah.
    + split; unfold held_ids; cbn; [done| |].
      * intros m. by rewrite Al, (taken_same _ _ _ _ _ Ht), Hnil.
      * intros m. rewrite elem_of_union, elem_of_singleton, Ah. set_solver.
Qed.

(** Steps of the reader bookkeeping that hand nothing out. *)
Lemma inv_quiet q hs p :
  sys_inv (mkSys q hs) → pq_inv MP (write_index q) p → quiet MP (write_index q) (readers q) p →
  sys_inv (mkSys (set_readers p q) hs).
Proof.
  intros [] Ip Hq. split; unfold held_ids, sent_ids in *; cbn in *; try done.
  intros n. by rewrite (quiet_reading _ _ _ _ Hq), si_reading0.
Qed.

Lemma impl_quiet q hs p a :
  quiet MP (write_index q) (readers q) p → implements (mkSys q hs) a →
  implements (mkSys (set_readers p q) hs) a.
Proof.
  intros Hq []. split; unfold held_ids in *; cbn in *; try done.
  intros n. by rewrite (quiet_live _ _ _ _ Hq).
Qed.

Lemma sim_peek q hs :
  sys_inv (mkSys q hs) →
  wp (peek_next MP)
    (λ h q', simulates (mkSys q hs) (Peeked (seq_no h)) (mkSys q' (h :: hs)))
    (λ e q', simulates (mkSys q hs) (PeekBlocked e) (mkSys q' hs)) q.
Proof.
  intros I. pose proof I as [Iq _ _ _ _ _]. cbn in *. unfold peek_next, unconfirmed_count, min_index. q_steps.
  pose proof Iq as []. rewrite wrapping_sub_small by lia.
  destruct (Z.eqb_spec (write_index q - read_index_min (readers q)) 0) as [E|E]; q_steps.
  { split; [done|]. split; [done|]. intros a Ha. exists a. split; [|done]. apply aq_empty.
    apply gset_leibniz. intros n. rewrite (impl_live _ _ Ha). unfold live. cbn. set_solver by lia. }
  eapply wp_mono; [by apply (wp_update_reader_slots q hs (λ _ _, False))| |done].
  intros _ q1 (I1 & Hnil & [C1 C2] & _ & Himp). unfold try_alloc_reader. q_steps.
  eapply wp_mono; [by apply (wp_find_reader MP (write_index q1)), (si_pq _ I1)|..].
  - intros n p [Ip Ht]. apply wp_ret. by apply (sim_taken q q1).
  - intros e p (Ip & Hq & He). split; [by apply inv_quiet|]. split; [done|]. intros a Ha%Himp. exists a.
    split; [|by apply impl_quiet]. cbn. destruct e; [|apply aq_empty|done].
    + apply aq_busy. destruct He as [n Hn]. rewrite (quiet_reading _ _ _ _ Hq) in Hn.
      apply (si_reading _ I1), elem_of_app in Hn as [Hn|Hn]; [apply (impl_held _ _ Ha) in Hn; set_solver|].
      unfold sent_ids in Hn. cbn in Hn. rewrite Hnil in Hn. set_solver.
    + apply gset_leibniz. intros n. rewrite (impl_live _ _ Ha). cbn.
      rewrite <-(quiet_live _ _ _ _ Hq). unfold live. rewrite He. set_solver by lia.
Qed.

Lemma report_held q hs1 h hs2 a :
  sys_inv (mkSys q (hs1 ++ h :: hs2)) → implements (mkSys q (hs1 ++ h :: hs2)) a →
  (∀ n, n ∈ aq_held a ∖ {[handle_id h]} ↔ n ∈ handle_id <$> hs1 ++ hs2) ∧ handle_id h ∈ aq_held a.
Proof.
  intros [_ Hnd _ _ _ _] [_ _ Ah]. unfold held_ids, sent_ids in *. cbn in *.
  rewrite fmap_app, fmap_cons in *.
  apply list.NoDup_app in Hnd as ((_ & H1 & [H2 _]%list.NoDup_cons)%list.NoDup_app & _ & _).
  split; [|rewrite Ah; set_solver]. intros n. rewrite elem_of_difference, Ah, elem_of_singleton, !elem_of_app, elem_of_cons.
  split; [naive_solver|]. intros Hn. split; [naive_solver|]. intros ->.
  destruct Hn as [Hn|Hn]; [|done]. apply (H1 _ Hn). set_solver.
Qed.

Lemma sim_confirm q hs1 h hs2 :
  sys_inv (mkSys q (hs1 ++ h :: hs2)) →
  simulates (mkSys q (hs1 ++ h :: hs2)) (Confirmed (seq_no h))
    (mkSys (set_channel (confirm h (confirm_channel q)) q) (hs1 ++ hs2)).
Proof.
  intros I. pose proof (confirm_items _ h I ltac:(cbn; set_solver)) as Hch. cbn in Hch.
  split; [by eapply inv_report|]. split; [done|]. intros a Ha. destruct (report_held _ _ _ _ _ I Ha) as [Hh Hin].
  eexists. split; [by apply (aq_confirm _ _ a)|]. destruct Ha as [An Al Ah].
  split; unfold held_ids; cbn in *; [done| |done].
  intros n. rewrite elem_of_difference, Al, Hch, elem_of_singleton, elem_of_app, list_elem_of_singleton.
  unfold seq_no. naive_solver.
Qed.

Lemma sim_abort q hs1 h hs2 :
  sys_inv (mkSys q (hs1 ++ h :: hs2)) →
  simulates (mkSys q (hs1 ++ h :: hs2)) (Aborted (seq_no h))
    (mkSys (set_channel (drop_handle h (confirm_channel q)) q) (hs1 ++ hs2)).
Proof.
  intros I. pose proof (drop_items _ h I ltac:(cbn; set_solver)) as Hch. cbn in Hch.
  split; [by eapply inv_report|]. split; [done|]. intros a Ha. destruct (report_held _ _ _ _ _ I Ha) as [Hh Hin].
  eexists. split; [by apply (aq_abort _ _ a)|]. destruct Ha as [An Al Ah].
  split; unfold held_ids; cbn in *; [done| |done].
  intros n. rewrite Al, Hch, elem_of_app, list_elem_of_singleton. naive_solver.
Qed.

Lemma sim_drained {E} q hs (R : E → Queue Ch → Prop) :
  sys_inv (mkSys q hs) →
  wp (is_drained MP) (λ b q', simulates (mkSys q hs) (Drained b) (mkSys q' hs)) R q.
Proof.
  intros I. unfold is_drained. apply wp_bind.
  eapply wp_mono; [by apply (wp_update_reader_slots q hs (λ _ _, False))| |done].
  intros _ q1 (I1 & Hnil & ? & _ & Himp). q_steps. split; [done|]. split; [done|]. intros a Ha%Himp. exists a. split; [|done].
  apply aq_drained. rewrite (drained_iff MP) by apply I1.
  destruct Ha as [_ Al Ah]. destruct I1 as [_ _ Hr _ _ _]. unfold held_ids, sent_ids in *. cbn in *. rewrite Hnil in *.
  f_equiv.
  - rewrite elem_of_equiv_empty_L. apply forall_proper. intros n. rewrite Al. set_solver.
  - rewrite elem_of_equiv_empty_L. apply forall_proper. intros n. rewrite Ah, <-Hr, app_nil_r. done.
Qed.

Lemma sim_wait {E} q hs (R : E → Queue Ch → Prop) :
  sys_inv (mkSys q hs) →
  wp (wait_confirmation MP) (λ r q', simulates (mkSys q hs) (Waited r) (mkSys q' hs)) R q.
Proof.
  intros I. unfold wait_confirmation. apply wp_bind, wp_gets.
  pose proof (ch_receive_law (cap := MP) (confirm_channel q)) as Hc.
  destruct (ch_try_receive _) as [[c ch']|].
  2: { q_steps. split; [done|]. split; [done|]. intros a Ha. exists a. split; [apply aq_waited|done]. }
  rewrite <-wp_assoc. apply wp_bind. pose proof I as [Iq _ Hr _ _ _]. unfold held_ids, sent_ids in *. cbn in *.
  eapply wp_mono; [apply (wp_receive_one q c ch' R Iq), Hr; rewrite Hc; set_solver| |done].
  intros _ q' [Hrc Hch]. q_steps. destruct (received_inv q q' hs [c] I Hrc) as [? Himp]; [by rewrite Hc, Hch|].
  split; [done|]. split; [apply Hrc|]. intros a Ha%Himp. exists a. split; [apply aq_waited|done].
Qed.

(** ** The range of existing elements *)

(** [peek_next] does not move the write index, moves the lower bound forward
    only, and hands out an element of the range. *)
Lemma wp_peek_range q hs :
  sys_inv (mkSys q hs) →
  wp (peek_next MP)
    (λ h q', write_index q' = write_index q ∧ read_index_min (readers q) ≤ read_index_min (readers q') ∧
       read_index_min (readers q') ≤ seq_no h < write_index q')
    (λ _ q', write_index q' = write_index q ∧ read_index_min (readers q) ≤ read_index_min (readers q')) q.
Proof.
  intros I. unfold peek_next. q_steps. destruct (_ =? 0); q_steps; [done|].
  eapply wp_mono; [by apply (wp_update_reader_slots q hs (λ _ _, False))| |done].
  intros _ q1 (I1 & _ & _ & Hrange & _). unfold try_alloc_reader, existing_range, min_index in *.
  injection Hrange as Hmin Hw. q_steps.
  eapply wp_mono; [by apply (wp_find_reader MP (write_index q1)), (si_pq _ I1)|..].
  - intros n p [Ip Ht]. apply wp_ret. cbn. split; [done|]. split; [pose proof (taken_min _ _ _ _ _ Ht); lia|].
    apply (proj2 (taken_same _ _ _ _ _ Ht n)), Ht.
  - intros e p (_ & Hq & _). cbn. split; [done|]. pose proof (quiet_min _ _ _ _ Hq). lia.
Qed.

(** [is_drained] and [wait_confirmation] do not move the range. *)
Lemma wp_drained_range {E} q hs (R : E → Queue Ch → Prop) :
  sys_inv (mkSys q hs) → wp (is_drained MP) (λ _ q', existing_range q' = existing_range q) R q.
Proof.
  intros I. unfold is_drained. apply wp_bind.
  eapply wp_mono; [by apply (wp_update_reader_slots q hs (λ _ _, False))| |done].
  intros _ q1 (_ & _ & _ & Hrange & _). by q_steps.
Qed.

Lemma wp_wait_range {E} q hs (R : E → Queue Ch → Prop) :
  sys_inv (mkSys q hs) → wp (wait_confirmation MP) (λ _ q', existing_range q' = existing_range q) R q.
Proof.
  intros I. unfold wait_confirmation. apply wp_bind, wp_gets.
  pose proof (ch_receive_law (cap := MP) (confirm_channel q)) as Hc.
  destruct (ch_try_receive _) as [[c ch']|]; [|by q_steps].
  rewrite <-wp_assoc. apply wp_bind. pose proof I as [Iq _ Hr _ _ _]. unfold held_ids, sent_ids in *. cbn in *.
  eapply wp_mono; [apply (wp_receive_one q c ch' R Iq), Hr; rewrite Hc; set_solver| |done].
  intros _ q' [Hrc _]. q_steps. unfold existing_range, min_index.
  by rewrite (rc_write _ _ _ Hrc), (rc_min _ _ _ Hrc).
Qed.

(** Below the capacity [enqueue] only moves the write index. *)
Lemma enqueue_grows q hs :
  sys_inv (mkSys q hs) → no_wrap q → write_index q + 1 - read_index_min (readers q) ≤ q_capacity q →
  enqueue q = (Ok (write_index q), set_write_index (write_index q + 1) q).
Proof.
  intros [[] _ _ _ _ _] [Hw1 Hw2] Hcap. cbn in *.
  unfold enqueue, unconfirmed_count, min_index, mbind, M_bind, gets, modify, mret, M_ret, fail. cbn.
  rewrite wrapping_sub_small, (wrapping_add_small (write_index q) 1) by lia.
  rewrite (proj2 (Z.eqb_neq _ _)) by (unfold u32_max, u32_size in *; lia).
  rewrite wrapping_sub_small by lia. by rewrite (proj2 (Z.ltb_ge _ _)) by lia.
Qed.

(** A queue just restored hands out its oldest element first. *)
Lemma drain_empty {E} fuel q :
  ch_items (confirm_channel q) = [] → drain_channel (E := E) MP fuel q = (Ok tt, q).
Proof.
  intros Hnil. destruct fuel as [|fuel]; [done|]. cbn [drain_channel]. unfold mbind, M_bind, gets.
  pose proof (ch_receive_law (cap := MP) (confirm_channel q)) as Hc.
  destruct (ch_try_receive _) as [[c ch']|]; [congruence|done].
Qed.

Lemma restored_peek q lo :
  pq_inv MP (write_index q) (peek_new MP lo) → readers q = peek_new MP lo → lo < write_index q →
  ch_items (confirm_channel q) = [] →
  ∃ q', peek_next MP q = (Ok (handle_new lo), q').
Proof.
  intros I Hq Hlt Hnil. pose proof I as []. cbn in *.
  unfold peek_next, update_reader_slots, try_alloc_reader, unconfirmed_count, min_index, mbind, M_bind, gets, zoom.
  rewrite Hq. cbn [read_index_min peek_new]. rewrite wrapping_sub_small by lia.
  rewrite (proj2 (Z.eqb_neq _ _)) by lia. rewrite drain_empty by done. rewrite Hq.
  assert (reader_slots (peek_new MP lo) !! Z.to_nat (slot_index (peek_new MP lo)) = Some RNone) as Hs.
  { apply lookup_replicate. split; [done|]. cbn. lia. }
  unfold find_reader. destruct (Z.to_nat (2 * MP)) as [|fuel] eqn:Hf; [lia|]. cbn [reader_loop].
  unfold mbind, M_bind. rewrite (reader_iteration_none MP _ _ I Hs). cbn [read_index_next slot_index peek_new].
  rewrite (inv_as_u32 _ _ _ I), (proj2 (Z.eqb_neq _ _)) by lia. rewrite Z.eqb_refl. eauto.
Qed.

(** ** Traces *)

Lemma step_simulates s e s' : sys_inv s → sys_step s e s' → simulates s e s'.
Proof.
  intros I Hs. destruct Hs as [q hs n q' Hw H|q hs h q' H|q hs e q' H| | |q hs b q' H|q hs r q' H].
  - apply (wp_run _ _ _ _ _ _ (sim_enqueue q hs I Hw) H).
  - apply (wp_run _ _ _ _ _ _ (sim_peek q hs I) H).
  - apply (wp_run _ _ _ _ _ _ (sim_peek q hs I) H).
  - by apply sim_confirm.
  - by apply sim_abort.
  - apply (wp_run _ _ _ _ _ _ (sim_drained q hs (λ _ _, False) I) H).
  - apply (wp_run _ _ _ _ _ _ (sim_wait q hs (λ _ _, False) I) H).
Qed.

Definition sys_init (ch : Ch) (cap g lo hi : Z) : System Ch :=
  mkSys (reinit_with_existing_range MP (lo, hi) (with_overwrite_support MP ch cap g)) [].

Lemma init_inv ch cap g lo hi :
  0 < MP → 0 < g ≤ cap → cap ≤ u32_max → 0 ≤ lo ≤ hi → hi + MP < u32_size → ch_items ch = [] →
  sys_inv (sys_init ch cap g lo hi).
Proof.
  intros ????? Hch. split; unfold held_ids, sent_ids; cbn -[u32_saturate]; rewrite ?Hch; cbn -[u32_saturate];
    unfold u32_saturate, u32_max in *; try lia.
  - by apply inv_peek_new.
  - constructor.
  - intros n. split; [set_solver|]. by intros ?%peek_new_reading.
  - by constructor.
Qed.

Lemma init_implements ch cap g lo hi :
  0 < MP → ch_items ch = [] →
  implements (sys_init ch cap g lo hi) (mkAQ hi (list_to_set (seqZ lo (hi - lo))) ∅).
Proof.
  intros ? Hch. split; unfold held_ids; cbn [sys_init sys_queue sys_handles aq_next aq_live aq_held
    reinit_with_existing_range with_overwrite_support write_index readers confirm_channel fst snd]; [done| |set_solver].
  intros n. rewrite Hch, elem_of_list_to_set, elem_of_seqZ, peek_new_live. split; [|lia].
  intros. split; [lia|set_solver].
Qed.

Lemma run_simulates s tr s' :
  sys_inv s → sys_run s tr s' →
  sys_inv s' ∧ same_config s s' ∧ ∀ a, implements s a →
    ∃ a', aq_run (q_capacity (sys_queue s)) (overwrite_granularity (sys_queue s)) a tr a' ∧ implements s' a'.
Proof.
  intros I Hr. induction Hr as [s|s1 tr s2 e s3 Hr IH Hs].
  - split; [done|]. split; [done|]. intros a Ha. exists a. split; [constructor|done].
  - destruct (IH I) as (I2 & [C1 C2] & Himp). destruct (step_simulates _ _ _ I2 Hs) as (I3 & [C3 C4] & Hsim).
    split; [done|]. split; [split; congruence|]. intros a (a2 & Hr2 & Ha2)%Himp.
    destruct (Hsim a2 Ha2) as (a3 & Hs3 & Ha3). rewrite C1, C2 in Hs3. exists a3. split; [|done].
    by eapply aq_run_snoc.
Qed.
End system.
