(* ===== verification/QueueProps.v ===== *)
(** * Properties of the queue bookkeeping

    What [storage/common/queue.rs] promises to the stores built on it, for every
    interleaving of its calls with confirmations and aborts of its handles. *)

From stdpp Require Import base sets gmap list list_numbers numbers option.
From S2P Require Import Prelude Queue QueueFacts QueueSystem.

(** ** A channel as a bounded list *)

Module ListChannel.
(** Lists of at most [n] messages. *)
Definition t (n : nat) : Type := { l : list Confirm | (length l <=? n)%nat = true }.

Lemma snoc_fits (n : nat) (l : list Confirm) c :
  (length l <? n)%nat = true → (length (l ++ [c]) <=? n)%nat = true.
Proof. rewrite Nat.ltb_lt, Nat.leb_le, length_app. cbn. lia. Qed.

Lemma tail_fits (n : nat) (c : Confirm) l :
  (length (c :: l) <=? n)%nat = true → (length l <=? n)%nat = true.
Proof. rewrite !Nat.leb_le. cbn. lia. Qed.

Definition try_send {n} (c : Confirm) (ch : t n) : option (t n) :=
  match bool_dec ((length (`ch) <? n)%nat) true with
  | left H => Some ((`ch ++ [c]) ↾ snoc_fits n (`ch) c H)
  | right _ => None
  end.

Definition try_receive {n} (ch : t n) : option (Confirm * t n) :=
  match ch with
  | exist _ [] _ => None
  | exist _ (c :: l) H => Some (c, l ↾ tail_fits n c l H)
  end.

#[global] Instance channel n : Channel (t n) :=
  {| ch_new := [] ↾ eq_refl; ch_try_send := try_send; ch_try_receive := try_receive |}.

#[global] Instance laws n : ChannelLaws (Z.of_nat n) (t n).
Proof.
  refine {| ch_items := λ ch : t n, `ch |}.
  - intros [l Hl]. pose proof (proj1 (Nat.leb_le _ _) Hl). unfold len. cbn. lia.
  - done.
  - intros c ch. cbn. unfold try_send. destruct (bool_dec _ true) as [H|H]; [done|].
    destruct ch as [l Hl]. cbn in *. pose proof (proj1 (Nat.leb_le _ _) Hl). apply not_true_iff_false, Nat.ltb_ge in H.
    unfold len. lia.
  - intros [[|c l] Hl]; done.
Defined.
End ListChannel.

(** ** Traces of the abstract queue *)

Section abstract.
Context (cap g : Z).

Lemma aq_run_last a tr e c :
  aq_run cap g a (tr ++ [e]) c → ∃ b, aq_run cap g a tr b ∧ aq_step cap g b e c.
Proof.
  intros H. remember (tr ++ [e]) as l eqn:Hl. destruct H as [|a tr' b e' c Hr Hs].
  - by destruct tr.
  - apply app_inj_tail in Hl as [-> ->]. eauto.
Qed.

Lemma aq_run_app a tr1 tr2 c :
  aq_run cap g a (tr1 ++ tr2) c → ∃ b, aq_run cap g a tr1 b ∧ aq_run cap g b tr2 c.
Proof.
  revert c. induction tr2 as [|e tr2 IH] using rev_ind; intros c.
  - rewrite app_nil_r. intros H. exists c. split; [done|constructor].
  - rewrite (assoc_L (++)). intros (b & Hr & Hs)%aq_run_last. apply IH in Hr as (b' & Hb & Hr).
    exists b'. split; [done|]. by eapply aq_run_snoc.
Qed.

Lemma aq_run_one a e c : aq_run cap g a [e] c → aq_step cap g a e c.
Proof.
  intros (b & Hr & Hs)%(aq_run_last _ []). remember [] as l eqn:Hl. destruct Hr; [done|].
  by destruct tr.
Qed.

(** Elements owed or in readers' hands were written. *)
Definition aq_wf (a : AQueue) : Prop := ∀ n, n ∈ aq_live a ∪ aq_held a → n < aq_next a.

Lemma aq_step_wf a e b : aq_wf a → aq_step cap g a e b → aq_wf b ∧ aq_next a ≤ aq_next b.
Proof.
  intros Hwf Hs. unfold aq_wf in *. destruct Hs as [a e He| | | | | | |]; cbn; (split; [|lia]); intros m Hm; try (apply Hwf; set_solver).
  destruct (decide (m = aq_next a)) as [->|]; [lia|].
  enough (m < aq_next a) by lia. apply Hwf. set_solver.
Qed.

Lemma aq_run_wf a tr b : aq_wf a → aq_run cap g a tr b → aq_wf b ∧ aq_next a ≤ aq_next b.
Proof.
  intros Hwf Hr. induction Hr as [|a1 tr a2 e a3 Hr IH Hs]; [done|].
  destruct (IH Hwf) as [Hwf2 ?]. destruct (aq_step_wf _ _ _ Hwf2 Hs). split; [done|lia].
Qed.

(** An element that is no longer owed never comes back. *)
Lemma aq_run_gone a tr b n :
  aq_run cap g a tr b → n < aq_next a → n ∉ aq_live a →
  n < aq_next b ∧ n ∉ aq_live b ∧ Peeked n ∉ tr.
Proof.
  intros Hr Hn Hl. induction Hr as [|a1 tr a2 e a3 Hr IH Hs]; [set_solver|].
  destruct (IH Hn Hl) as (H1 & H2 & H3). rewrite not_elem_of_app, list_elem_of_singleton.
  destruct Hs; cbn; (split; [lia|]); (split; [|split; [done|]]); try done; try set_solver.
  - rewrite elem_of_filter, elem_of_union, elem_of_singleton. intros [_ [->|?]]; [lia|done].
Qed.

(** An element in a reader's hands is handed out again only after an abort. *)
Definition untouchable (n : Z) (a : AQueue) : Prop := n ∈ aq_held a ∨ n ∉ aq_live a.

Lemma aq_step_untouchable a e b n :
  aq_step cap g a e b → n < aq_next a → untouchable n a → e ≠ Aborted n →
  untouchable n b ∧ e ≠ Peeked n.
Proof.
  unfold untouchable. intros Hs Hn Hu He. destruct Hs as [a e' ?|a m Hl Hh| | |a m Hm|a m Hm| |]; cbn; (split; [|done || idtac]); try done.
  - destruct Hu as [?|Hu]; [by left|right]. rewrite elem_of_filter, elem_of_union, elem_of_singleton.
    intros [_ [->|?]]; [lia|done].
  - destruct Hu as [?|Hu]; [left; by apply elem_of_union_r|by right].
  - intros [= ->]. naive_solver.
  - destruct (decide (n = m)) as [->|Hne]; [right|].
    + rewrite elem_of_difference, elem_of_singleton. naive_solver.
    + rewrite !elem_of_difference, !elem_of_singleton. naive_solver.
  - destruct (decide (n = m)) as [->|Hne]; [done|].
    rewrite elem_of_difference, elem_of_singleton. naive_solver.
Qed.

Lemma aq_run_untouchable a tr b n :
  aq_wf a → aq_run cap g a tr b → n < aq_next a → untouchable n a → Aborted n ∉ tr →
  untouchable n b ∧ Peeked n ∉ tr.
Proof.
  intros Hwf Hr Hn Hu. induction Hr as [a|a1 tr a2 e a3 Hr IH Hs].
  { intros _. split; [done|]. by intros ?%elem_of_nil. }
  rewrite !not_elem_of_app, !list_elem_of_singleton. intros [Ha He].
  destruct (IH Hwf Hn Hu Ha) as (H1 & H2). destruct (aq_run_wf _ _ _ Hwf Hr) as [_ ?].
  destruct (aq_step_untouchable _ _ _ n Hs) as [? Hp]; [lia|done|congruence|].
  split; [done|]. split; congruence.
Qed.
End abstract.

(** ** The claims *)

Section claims.
Context (MP : Z) {Ch : Type} `{!Channel Ch, !ChannelLaws MP Ch}.

(** A queue over an empty channel, restored to a range that leaves room to grow. *)
Definition start_ok (ch : Ch) (cap g lo hi : Z) : Prop :=
  0 < MP ∧ 0 < g ≤ cap ∧ cap ≤ u32_max ∧ 0 ≤ lo ≤ hi ∧ hi + MP < u32_size ∧ ch_items (cap := MP) ch = [].

Lemma start_inv ch cap g lo hi : start_ok ch cap g lo hi → sys_inv MP (sys_init MP ch cap g lo hi).
Proof. intros (? & ? & ? & ? & ? & ?). by apply init_inv. Qed.

Lemma start_capacity ch cap g lo hi :
  start_ok ch cap g lo hi →
  q_capacity (sys_queue (sys_init MP ch cap g lo hi)) = cap ∧
  overwrite_granularity (sys_queue (sys_init MP ch cap g lo hi)) = g.
Proof. intros (? & ? & ? & ?). cbn. unfold u32_saturate. lia. Qed.

Definition start_abstract (lo hi : Z) : AQueue := mkAQ hi (list_to_set (seqZ lo (hi - lo))) ∅.

Lemma start_wf lo hi : aq_wf (start_abstract lo hi).
Proof.
  intros n. cbn. rewrite elem_of_union, elem_of_list_to_set, elem_of_seqZ, elem_of_empty. lia.
Qed.

Lemma run_abstract ch cap g lo hi tr s :
  start_ok ch cap g lo hi → sys_run MP (sys_init MP ch cap g lo hi) tr s →
  ∃ a, aq_run cap g (start_abstract lo hi) tr a ∧ implements MP s a.
Proof.
  intros Hok Hr. destruct (run_simulates MP _ _ _ (start_inv _ _ _ _ _ Hok) Hr) as (_ & _ & Himp).
  destruct (start_capacity _ _ _ _ _ Hok) as [-> ->] in Himp. apply Himp.
  destruct Hok as (? & _ & _ & _ & _ & ?). by apply init_implements.
Qed.

(** C8: from any restored range, every sequence of [enqueue], [peek_next],
    [is_drained] and [wait_confirmation] calls, interleaved in any way with
    confirmations and drops of the handles given out, is a sequence of steps of
    the abstract queue: an element is owed from its enqueue until its
    confirmation, unless the circular overwrite reaches it; it is never in two
    readers' hands; [peek_next] reports an empty queue only when nothing is
    owed and [is_drained] answers exactly whether nothing is owed or held. *)
Theorem queue_refinement ch cap g lo hi tr s :
  start_ok ch cap g lo hi → sys_run MP (sys_init MP ch cap g lo hi) tr s →
  ∃ a, aq_run cap g (start_abstract lo hi) tr a ∧ aq_next a = writable_seq_no (sys_queue s) ∧
    (∀ n, n ∈ aq_held a ↔ n ∈ seq_no <$> sys_handles s) ∧
    (∀ n, n ∈ aq_live a → read_index_min (readers (sys_queue s)) ≤ n < writable_seq_no (sys_queue s)).
Proof.
  intros Hok Hr. destruct (run_abstract _ _ _ _ _ _ _ Hok Hr) as (a & Ha & [An Al Ah]).
  exists a. split_and!; try done. intros n [[? _] _]%Al. done.
Qed.

(** C40: whatever happened before, no call panics: the branch of [update] that
    reports a bug in the upper layer is not taken, the slot arithmetic does
    not overflow, [enqueue] succeeds, and the [2 * MAX_PEEKS] iterations of
    [find_reader] always decide ([peek_next] never answers [Unknown]). *)
Theorem queue_calls_decide ch cap g lo hi tr s :
  start_ok ch cap g lo hi → sys_run MP (sys_init MP ch cap g lo hi) tr s → no_wrap MP (sys_queue s) →
  (∃ q', enqueue (sys_queue s) = (Ok (writable_seq_no (sys_queue s)), q')) ∧
  (∃ r q', peek_next MP (sys_queue s) = (r, q') ∧ r ≠ Panic ∧ r ≠ Err Blocked_Unknown) ∧
  (∃ b q', is_drained (E := QueueError) MP (sys_queue s) = (Ok b, q')) ∧
  (∃ r q', wait_confirmation (E := QueueError) MP (sys_queue s) = (Ok r, q')).
Proof.
  intros Hok Hr Hw. destruct (run_simulates MP _ _ _ (start_inv _ _ _ _ _ Hok) Hr) as (I & _ & _).
  destruct (run_abstract _ _ _ _ _ _ _ Hok Hr) as (a & _ & Ha). destruct s as [q hs]. cbn in *.
  split_and!.
  - destruct (wp_ok _ _ _ (sim_enqueue MP q hs I Hw)) as (n & q' & Hq & _ & _ & Hsim).
    destruct (Hsim a Ha) as (a' & Hs & _). exists q'. rewrite Hq.
    inversion Hs; subst. by rewrite (impl_next _ _ _ Ha).
  - pose proof (sim_peek MP q hs I) as Hp. unfold wp in Hp.
    destruct (peek_next MP q) as [[h|e|] q'] eqn:Hq; [|destruct Hp as (_ & _ & Hsim)|done].
    + exists (Ok h), q'. by split.
    + destruct (Hsim a Ha) as (a' & Hs & _). exists (Err e), q'. split_and!; [done|done|].
      by intros [= ->]; inversion Hs.
  - destruct (wp_ok _ _ _ (sim_drained (E := QueueError) MP q hs (λ _ _, False) I)) as (b & q' & Hq & _). eauto.
  - destruct (wp_ok _ _ _ (sim_wait (E := QueueError) MP q hs (λ _ _, False) I)) as (b & q' & Hq & _). eauto.
Qed.

(** An element whose handle was confirmed is never handed out again. *)
Theorem confirmed_never_redelivered ch cap g lo hi tr1 n tr2 s :
  start_ok ch cap g lo hi →
  sys_run MP (sys_init MP ch cap g lo hi) (tr1 ++ [Confirmed n] ++ tr2) s →
  Peeked n ∉ tr2.
Proof.
  intros Hok Hr. destruct (run_abstract _ _ _ _ _ _ _ Hok Hr) as (a & Ha & _).
  apply aq_run_app in Ha as (a1 & H1 & (a2 & H2%aq_run_one & H3)%aq_run_app).
  destruct (aq_run_wf _ _ _ _ _ (start_wf lo hi) H1) as [Hwf _].
  inversion H2 as [| | | |? ? Hin| | |]; subst.
  apply (aq_run_gone _ _ _ _ _ n) in H3 as (_ & _ & ?); cbn; [done| |set_solver].
  apply Hwf. set_solver.
Qed.

(** Between two deliveries of an element its first reader gave it back. *)
Theorem redelivery_after_abort ch cap g lo hi tr1 n tr2 s :
  start_ok ch cap g lo hi →
  sys_run MP (sys_init MP ch cap g lo hi) (tr1 ++ [Peeked n] ++ tr2 ++ [Peeked n]) s →
  Aborted n ∈ tr2.
Proof.
  intros Hok Hr. destruct (run_abstract _ _ _ _ _ _ _ Hok Hr) as (a & Ha & _).
  apply aq_run_app in Ha as (a1 & H1 & (a2 & H2%aq_run_one & H3)%aq_run_app).
  destruct (aq_run_wf _ _ _ _ _ (start_wf lo hi) H1) as [Hwf _].
  destruct (aq_step_wf _ _ _ _ _ Hwf H2) as [Hwf2 _].
  inversion H2 as [|? ? Hin Hni| | | | | |]; subst.
  destruct (decide (Aborted n ∈ tr2)) as [|Hna]; [done|exfalso].
  destruct (aq_run_untouchable _ _ _ _ _ n Hwf2 H3) as [_ Hp].
  - cbn. apply Hwf. set_solver.
  - left. cbn. set_solver.
  - set_solver.
  - apply Hp. set_solver.
Qed.

(** When no reader holds an element and one is owed, [peek_next] hands one out. *)
Theorem unheld_queue_delivers ch cap g lo hi tr q :
  start_ok ch cap g lo hi → sys_run MP (sys_init MP ch cap g lo hi) tr (mkSys q []) →
  (∃ q1, is_drained (E := QueueError) MP q = (Ok false, q1)) →
  ∃ h q', peek_next MP q = (Ok h, q').
Proof.
  intros Hok Hr (q1 & Hd). destruct (run_simulates MP _ _ _ (start_inv _ _ _ _ _ Hok) Hr) as (I & _ & _).
  destruct (run_abstract _ _ _ _ _ _ _ Hok Hr) as (a & _ & Ha).
  destruct (wp_run _ _ _ _ _ _ (sim_drained MP q [] (λ _ _, False) I) Hd) as (_ & _ & Hsd).
  destruct (Hsd a Ha) as (a' & Hs & _). inversion Hs as [| | | | | |? ? Hiff|]; subst.
  assert (aq_held a' = ∅) as Hh.
  { apply elem_of_equiv_empty_L. intros n. rewrite (impl_held _ _ _ Ha). set_solver. }
  pose proof (sim_peek MP q [] I) as Hp. unfold wp in Hp.
  destruct (peek_next MP q) as [[h|e|] q'] eqn:Hq; [by eauto|exfalso|done].
  destruct Hp as (_ & _ & Hsim). destruct (Hsim a' Ha) as (a2 & Hs2 & _).
  inversion Hs2 as [| |? He|? Hb| | | |]; subst; [|done]. destruct Hiff as [_ Hf]. by discriminate (Hf (conj He Hh)).
Qed.

(** [enqueue] moves the lower bound only when the count exceeds the
    capacity.  While the count is within the capacity, elements of the block
    that the write recycles (below the next multiple of the granularity, less
    the capacity) stay in the range although their data is erased. *)
Theorem recycled_items_stay_listed q hs y :
  sys_inv MP (mkSys q hs) → no_wrap MP q →
  write_index q + 1 - read_index_min (readers q) ≤ q_capacity q →
  checked_next_multiple_of (write_index q + 1) (overwrite_granularity q) = Some y →
  read_index_min (readers q) < y - q_capacity q →
  ∃ q', enqueue q = (Ok (write_index q), q') ∧
    (existing_range q').1 < y - q_capacity q ∧ (existing_range q').1 = (existing_range q).1.
Proof.
  intros I Hw Hc _ Hlt. rewrite (enqueue_grows MP q hs) by done. by eexists.
Qed.
End claims.

(** ** A concrete run

    Two slots, four elements restored from storage; the first is read and
    confirmed, the second is read, dropped and read again. *)

Module DemoQueue.
Abbreviation N := (Z.of_nat 2).
Abbreviation Q := (Queue (ListChannel.t 2)).

Definition q0 : Q := sys_queue (sys_init N (ch_new (Ch := ListChannel.t 2)) 8 4 3 5).
Definition q1 : Q := (enqueue q0).2.
Definition q2 : Q := (peek_next N q1).2.
Definition q3 : Q := (peek_next N q2).2.
Definition q4 : Q := set_channel (confirm (handle_new 3) (confirm_channel q3)) q3.
Definition q5 : Q := set_channel (drop_handle (handle_new 4) (confirm_channel q4)) q4.
Definition q6 : Q := (peek_next N q5).2.
Definition q7 : Q := (peek_next N q6).2.

Lemma start : start_ok N (ch_new (Ch := ListChannel.t 2)) 8 4 3 5.
Proof. unfold start_ok, u32_max, u32_size. cbn. repeat split; lia. Qed.

Lemma run3 : sys_run N (mkSys q0 []) [Enqueued 5; Peeked 3; Peeked 4] (mkSys q3 [handle_new 4; handle_new 3]).
Proof.
  apply (run_snoc _ _ [Enqueued 5; Peeked 3] (mkSys q2 [handle_new 3])).
  - apply (run_snoc _ _ [Enqueued 5] (mkSys q1 [])).
    + apply (run_snoc _ _ [] (mkSys q0 [])); [constructor|].
      apply step_enqueue; [by vm_compute|by vm_compute].
    + apply (step_peek _ _ _ (handle_new 3)). by vm_compute.
  - apply (step_peek _ _ _ (handle_new 4)). by vm_compute.
Qed.

Lemma run5 : sys_run N (mkSys q0 [])
  [Enqueued 5; Peeked 3; Peeked 4; Confirmed 3; Aborted 4] (mkSys q5 []).
Proof.
  apply (run_snoc _ _ [Enqueued 5; Peeked 3; Peeked 4; Confirmed 3] (mkSys q4 [handle_new 4])).
  - apply (run_snoc _ _ _ _ _ _ run3). apply (step_confirm _ q3 [handle_new 4] (handle_new 3) []).
  - apply (step_abort _ q4 [] (handle_new 4) []).
Qed.

Lemma run6 : sys_run N (mkSys q0 [])
  [Enqueued 5; Peeked 3; Peeked 4; Confirmed 3; Aborted 4; Peeked 5] (mkSys q6 [handle_new 5]).
Proof.
  apply (run_snoc _ _ _ _ _ _ run5). apply (step_peek _ _ _ (handle_new 5)). by vm_compute.
Qed.

Lemma run7 : sys_run N (mkSys q0 [])
  [Enqueued 5; Peeked 3; Peeked 4; Confirmed 3; Aborted 4; Peeked 5; Peeked 4] (mkSys q7 [handle_new 4; handle_new 5]).
Proof.
  apply (run_snoc _ _ _ _ _ _ run6). apply (step_peek _ _ _ (handle_new 4)). by vm_compute.
Qed.

Lemma queue_refinement_witness : ∃ a, aq_run 8 4 (start_abstract 3 5)
  [Enqueued 5; Peeked 3; Peeked 4; Confirmed 3; Aborted 4; Peeked 5; Peeked 4] a ∧ aq_next a = 6.
Proof.
  destruct (queue_refinement N _ 8 4 3 5 _ _ start run7) as (a & Ha & Hn & _).
  exists a. split; [exact Ha|exact Hn].
Defined.

Lemma queue_calls_decide_witness :
  ∃ r q', peek_next N q5 = (r, q') ∧ r ≠ Panic ∧ r ≠ Err Blocked_Unknown.
Proof.
  apply (queue_calls_decide N _ 8 4 3 5 _ _ start run5). by vm_compute.
Defined.

Lemma confirmed_never_redelivered_witness : Peeked 3 ∉ [Aborted 4; Peeked 5; Peeked 4].
Proof.
  exact (confirmed_never_redelivered N _ 8 4 3 5 [Enqueued 5; Peeked 3; Peeked 4] 3 _ _ start run7).
Defined.

Lemma redelivery_after_abort_witness : Aborted 4 ∈ [Confirmed 3; Aborted 4; Peeked 5].
Proof.
  exact (redelivery_after_abort N _ 8 4 3 5 [Enqueued 5; Peeked 3] 4 [Confirmed 3; Aborted 4; Peeked 5] _ start run7).
Defined.

Lemma unheld_queue_delivers_witness : ∃ h q', peek_next N q5 = (Ok h, q').
Proof.
  apply (unheld_queue_delivers N _ 8 4 3 5 _ _ start run5).
  exists (is_drained (E := QueueError) N q5).2. by vm_compute.
Defined.

(** Capacity 8 in blocks of 4, items 1 to 7 unread: writing item 8 recycles
    the block of items 0 to 3. *)
Definition qr : Q := sys_queue (sys_init N (ch_new (Ch := ListChannel.t 2)) 8 4 1 8).

Lemma recycled_items_stay_listed_witness :
  ∃ q', enqueue qr = (Ok 8, q') ∧ (existing_range q').1 < 12 - 8 ∧ (existing_range q').1 = 1.
Proof.
  apply (recycled_items_stay_listed N qr [] 12).
  - apply (init_inv N ch_new 8 4 1 8); done || (unfold u32_max; lia).
  - by vm_compute.
  - by vm_compute.
  - by vm_compute.
  - by vm_compute.
Defined.
End DemoQueue.
