(* ===== verification/StreamStore.v ===== *)
(** * Stream store

    [storage/common/stream_store.rs]: a persistent FIFO of variable-length
    items, each stored in one fragment of a circular object as
    [length (u16 LE), CRC (u32 LE), data].  The database is used through the
    trait [WriteableCircularStore]: [CircStore] is the record of its operations,
    [CircLog] what they promise on a device without faults; [StreamProps]
    discharges the promise with the circular store.  The checksum of the [crc]
    crate is the parameter [crc]. *)

From stdpp Require Import base list list_numbers numbers option.
From S2P Require Import Prelude NorFlash BlockLayer BlockFacts BlockDev FlashDb CircularStore Queue.

(** ** The trait [WriteableCircularStore] *)

Class CircStore (D : Type) : Type := {
  cs_initialize : M D Error InitStatus;
  cs_find_circular_range (circular : Circular) : M D Error CircularRange;
  cs_read_at_offset (circular : Circular) (frag_no buf_len offset : Z) : M D Error (list Z);
  cs_write (circular : Circular) (frag_no : Z) (bytes : list Z) : M D Error unit;
  cs_delete (circular : Circular) (frag_no : Z) : M D Error unit;
}.

Definition cs_read {D} `{!CircStore D} (circular : Circular) (frag_no buf_len : Z) : M D Error (list Z) :=
  cs_read_at_offset circular frag_no buf_len 0.

#[export] Instance circ_store {D E B} `{!BlockDev B D E} : CircStore D | 10 := {|
  cs_initialize := initialize_writeable_circular_store;
  cs_find_circular_range := find_circular_range B;
  cs_read_at_offset := read_circular_fragment_at_offset B;
  cs_write := write_circular_fragment B;
  cs_delete := delete_circular_fragment B;
|}.

(** The promise: [cs_log d r w f] says that the fragments [r, w) are live and
    that fragment [n] begins with the bytes [f n]. *)
Class CircLog (c : Circular) (D : Type) `{!CircStore D} : Type := {
  cs_log : D → Z → Z → (Z → list Z) → Prop;
  cs_room : D → Z → Z → Prop;
  cs_capacity : Z;
  cs_range : ∀ d r w f, cs_log d r w f → 0 ≤ r ≤ w ∧ w < u32_size;
  cs_bytes : ∀ d r w f n, cs_log d r w f → r ≤ n < w → len (f n) ≤ obj_fragment_size (circ_obj c);
  cs_log_ext : ∀ d r w f g, cs_log d r w f → (∀ n, r ≤ n < w → f n = g n) → cs_log d r w g;
  cs_room_law : ∀ d r w f, cs_log d r w f → cs_room d r w → w + 1 - r ≤ cs_capacity;
  cs_init_law : ∀ d r w f, cs_log d r w f →
    ∃ s d', cs_initialize d = (Ok s, d') ∧ cs_log d' r w f;
  cs_find_law : ∀ d r w f, cs_log d r w f →
    ∃ d', cs_find_circular_range c d = (Ok (mkCircularRange r w), d') ∧ cs_log d' r w f;
  cs_read_law : ∀ d r w f n off l, cs_log d r w f → r ≤ n < w → 0 ≤ off → 0 ≤ l → off + l ≤ len (f n) →
    ∃ d', cs_read_at_offset c n l off d = (Ok (slice off (off + l) (f n)), d') ∧ cs_log d' r w f;
  cs_write_law : ∀ d r w f bytes, cs_log d r w f → cs_room d r w →
    Forall is_u8 bytes → len bytes ≤ obj_fragment_size (circ_obj c) →
    ∃ d', cs_write c w bytes d = (Ok tt, d') ∧
      cs_log d' r (w + 1) (λ n, if n =? w then bytes else f n);
  cs_delete_law : ∀ d r w f, cs_log d r w f → r < w →
    ∃ d', cs_delete c r d = (Ok tt, d') ∧ cs_log d' (r + 1) w f;
}.

(** ** The store *)

Definition CRC_OVERHEAD_BYTES : Z := 4.
Definition LEN_OVERHEAD_BYTES : Z := 2.
Definition STREAM_OVERHEAD_BYTES : Z := LEN_OVERHEAD_BYTES + CRC_OVERHEAD_BYTES.
Definition MAX_PEEKS : Z := 5.

Record StreamStore (D Ch : Type) : Type := mkStream {
  store : D;
  queue : Queue Ch;
  init_done : bool;
  circular : Circular;
}.
Arguments mkStream {D Ch} _ _ _ _.
Arguments store {D Ch} _.
Arguments queue {D Ch} _.
Arguments init_done {D Ch} _.
Arguments circular {D Ch} _.

Section stream.
Context {D Ch : Type} `{!CircStore D, !Channel Ch} (B : Z) (crc : list Z → Z).
Abbreviation SS := (StreamStore D Ch).
Abbreviation MS := (M SS Error).

Definition set_store (d : D) (s : SS) : SS := mkStream d (queue s) (init_done s) (circular s).
Definition set_queue (q : Queue Ch) (s : SS) : SS := mkStream (store s) q (init_done s) (circular s).
Definition set_init_done (b : bool) (s : SS) : SS := mkStream (store s) (queue s) b (circular s).

(** Calls of the database and of the queue. *)
Definition on_store {E A} (m : M D E A) : M SS E A := zoom store set_store m.
Definition on_queue {E A} (m : M (Queue Ch) E A) : M SS E A := zoom queue set_queue m.
Definition on_channel (f : Ch → Ch) : MS unit :=
  modify (λ s, set_queue (set_channel (f (confirm_channel (queue s))) (queue s)) s).

Definition stream_new {E} `{!BlockDev B D E} (circ : Circular) (ch : Ch) : M D Error SS :=
  count ← obj_fragment_count B (circ_obj circ);
  gets (λ d, mkStream d
    (with_overwrite_support MAX_PEEKS ch count (fragments_per_block B (circ_obj circ))) false circ).

Definition stream_initialize : MS unit :=
  done ← gets init_done;
  if (done : bool) then mret tt
  else
    circ ← gets circular;
    on_store cs_initialize;;
    range ← on_store (cs_find_circular_range circ);
    modify (λ s, set_queue (reinit_with_existing_range MAX_PEEKS (read_at range, write_at range) (queue s)) s);;
    modify (set_init_done true).

Definition stream_is_drained : MS bool :=
  stream_initialize;;
  on_queue (is_drained MAX_PEEKS).

Definition stream_wait_confirmation : MS (option unit) := on_queue (wait_confirmation MAX_PEEKS).

(** A [ConfirmHandle] that goes out of scope. *)
Definition drop_peek (r : caught ReadBlocked ConfirmHandle) : MS unit :=
  match r with inl h => on_channel (drop_handle h) | inr _ => mret tt end.

(** The cleanup loop; it runs [upto - oldest] times. *)
Fixpoint delete_confirmed (fuel : nat) (circ : Circular) (oldest upto : Z) : MS unit :=
  match fuel with
  | O => mret tt
  | S fuel =>
      if oldest =? upto then mret tt
      else
        r ← attempt (on_store (cs_delete circ oldest));
        match r with
        | inl _ | inr Error_FragmentNotFound => delete_confirmed fuel circ (wrapping_add oldest 1) upto
        | inr err => fail err
        end
  end.

(** [Err] with the handle confirmed first. *)
Definition skip_item {A} (h : ConfirmHandle) (e : Error) : MS A := on_channel (confirm h);; fail e.

(** The zero-initialised header buffer after the read, and its two fields. *)
Definition header_buffer (header : list Z) : list Z :=
  header ++ replicate (Z.to_nat (STREAM_OVERHEAD_BYTES - len header)) 0.
Definition header_data_len (header : list Z) : Z :=
  le_val (slice 0 LEN_OVERHEAD_BYTES (header_buffer header)).
Definition header_data_crc (header : list Z) : Z :=
  le_val (slice LEN_OVERHEAD_BYTES STREAM_OVERHEAD_BYTES (header_buffer header)).

(** The part of [peek_next] after a handle was obtained. *)
Definition read_item (circ : Circular) (h : ConfirmHandle) (buf_len : Z) :
    MS (option (list Z * ConfirmHandle)) :=
  let seqno := seq_no h in
  hd ← attempt (on_store (cs_read circ seqno STREAM_OVERHEAD_BYTES));
  match hd with
  | inl header =>
      let data_len := header_data_len header in
      let data_crc := header_data_crc header in
      if buf_len <? data_len then skip_item h Error_BufferTooSmall
      else
        r ← attempt (on_store (cs_read_at_offset circ seqno data_len STREAM_OVERHEAD_BYTES));
        match r with
        | inl data =>
            if negb (data_len =? len data) || negb (data_crc =? crc data)
            then skip_item h Error_FragmentNotReadable
            else mret (Some (data, h))
        | inr e => skip_item h e
        end
  | inr Error_Flash => on_channel (drop_handle h);; fail Error_Flash
  | inr Error_InvalidObject => on_channel (drop_handle h);; fail Error_InvalidObject
  | inr e => skip_item h e
  end.

(** [buf_len] is the length of the caller's buffer; the bytes returned are its
    first [len], the new content. *)
Definition stream_peek_next (buf_len : Z) : MS (option (list Z * ConfirmHandle)) :=
  stream_initialize;;
  q ← gets queue;
  let oldest_fragment := (existing_range q).1 in
  peek_result ← attempt (on_queue (peek_next MAX_PEEKS));
  circ ← gets circular;
  q ← gets queue;
  let range := existing_range q in
  cleanup ← attempt (delete_confirmed (Z.to_nat (wrapping_sub range.1 oldest_fragment)) circ oldest_fragment range.1);
  match cleanup with
  | inr err => drop_peek peek_result;; fail err
  | inl _ =>
      match peek_result with
      | inl h => read_item circ h buf_len
      | inr _ => mret None
      end
  end.

(** [Vec<u8, BLOCK_SIZE>::extend_from_slice] *)
Definition extend_from_slice (v bytes : list Z) : MS (list Z) :=
  if B <? len v + len bytes then fail Error_FragmentTooLarge else mret (v ++ bytes).

Definition stream_enqueue (data : list Z) : MS Z :=
  stream_initialize;;
  q ← gets queue;
  circ ← gets circular;
  let seqno := writable_seq_no q in
  if saturating_sub (obj_fragment_size (circ_obj circ)) STREAM_OVERHEAD_BYTES <? len data
  then fail Error_FragmentTooLarge
  else
    let data_len := as_u16 (len data) in
    v ← extend_from_slice [] (le_bytes 2 data_len);
    v ← extend_from_slice v (le_bytes 4 (crc data));
    prefixed_data ← extend_from_slice v data;
    write_result ← attempt (on_store (cs_write circ seqno prefixed_data));
    match write_result with
    | inl _ =>
        map_err (λ _, Error_NoSpaceAvailable) (on_queue enqueue);;
        mret seqno
    | inr Error_FragmentNotWriteable =>
        attempt (on_queue enqueue);; fail Error_FragmentNotWriteable
    | inr Error_FragmentExists =>
        attempt (on_queue enqueue);; fail Error_FragmentExists
    | inr other => fail other
    end.
End stream.
