(* ===== verification/StreamProps.v ===== *)
(** * Properties of the stream store

    [storage/common/stream_store.rs] is a persistent FIFO: what was enqueued is
    what a later peek returns, also after a restart, until it is confirmed.
    The theorems hold over any database that keeps the promise of [CircLog];
    [StreamProps] shows that the circular store does. *)

From stdpp Require Import base sets list list_numbers numbers option.
From S2P Require Import Prelude NorFlash BlockLayer BlockFacts BlockDev FlashDb CircularStore.
From S2P Require Import CircularFacts CircularProps CircularRing RingFacts Queue StreamStore.
From S2P Require Import QueueFacts QueueSystem InMemoryFlash BlockProps BlockRefine CircularScan.
From S2P Require Import QueueProps.

(** ** The circular store keeps the promise of [CircLog]

    The log of a stream in the ring of a circular object: the laws that the
    stream store relies on, from the theorems on the ring. *)

Lemma slice_of_prefix {A} (ds bytes : list A) off l :
  slice 0 (len bytes) ds = bytes → 0 ≤ off → 0 ≤ l → off + l ≤ len bytes →
  slice off (off + l) ds = slice off (off + l) bytes.
Proof.
  intros Hp Hoff Hl Hle. rewrite <-Hp. unfold slice. rewrite Z.sub_0_r.
  change (Z.to_nat 0) with 0%nat. rewrite drop_0, skipn_firstn_comm, take_take. f_equal.
  unfold len in *. lia.
Qed.

Lemma slice_le {A} n (ds : list A) : len (slice 0 n ds) ≤ len ds.
Proof. unfold slice, len. rewrite length_take, length_drop. lia. Qed.

Section log.
Context {D E : Type} (B : Z) `{!BlockDev B D E} `{!BlockDevLaws B D E}.
Context (c : Circular).
Abbreviation o := (circ_obj c).
Abbreviation dev_step := (flash_step dev_wf dev_healthy dev_blocks dev_block).
Abbreviation same := (dev_step nowhere).

Definition stored (d : D) (r w : Z) (f : Z → list Z) : Prop :=
  ∀ n, r ≤ n < w → ∃ s, circ_slot B c d n = Some s ∧ holds (f n) s.

Record ring_log (d : D) (r w : Z) (f : Z → list Z) : Prop := {
  rl_wf : dev_wf d;
  rl_healthy : dev_healthy d;
  rl_obj : obj_ok B (dev_blocks d) o;
  rl_ring : ∃ top, ring B c d top r w;
  rl_stored : stored d r w f;
}.

Definition ring_room (d : D) (r w : Z) : Prop := ∀ top, ring B c d top r w → room B c d top r w.

Lemma stored_valid d r w f n : stored d r w f → r ≤ n < w → ∃ ds, circ_slot B c d n = Some (Valid, ds).
Proof. intros Hst Hn. destruct (Hst n Hn) as ([st ds] & Hs & [Hv _]). cbn in Hv. subst. eauto. Qed.

Lemma circ_slot_ok d n s :
  dev_wf d → obj_ok B (dev_blocks d) o → circ_slot B c d n = Some s → len s.2 = obj_fragment_size o.
Proof.
  intros Hwf Ho. unfold circ_slot. destruct (dev_block d _) as [b|] eqn:Hb; [|done]. cbn.
  destruct (owns B c n b) eqn:Hown; [|done]. intros Hs.
  destruct (dev_block_ok _ _ _ Hwf Hb) as [_ Hbok]. destruct (owns_rel B c _ Ho _ _ _ Hbok Hown) as (_ & _ & <-).
  pose proof (bok_slots _ _ _ Hbok) as Hall. rewrite Forall_lookup in Hall. by apply (Hall _ _ Hs).
Qed.

(** Steps outside the blocks of the ring keep the log. *)
Lemma ring_log_frame (P : Z → Prop) d d' r w f :
  ring_log d r w f → dev_step P d d' → (∀ i, P i → ¬ in_ring c i) → ring_log d' r w f.
Proof.
  intros [Hwf Hh Ho [top Hrg] Hst] Hs HP.
  assert (∀ i, in_ring c i → dev_block d' i = dev_block d i) as Hin
    by (intros i Hi; apply (fs_frame Hs); intros Hp; by apply (HP i)).
  assert (∀ k, dev_block d' (phys c k) = dev_block d (phys c k)) as Hph
    by (intros k; apply Hin; by eapply phys_in_ring).
  assert (∀ n, circ_slot B c d' n = circ_slot B c d n) as Hsl
    by (intros n; apply slot_at_same; rewrite (block_of_phys B c _ Ho); apply Hph).
  pose proof Hrg as [H1 H2 H3 H4 H5 H6 H7 H8].
  split.
  - apply Hs.
  - by apply (fs_healthy Hs).
  - by rewrite (same_blocks _ _ Hs).
  - exists top. split; try done.
    + intros k. rewrite Hph. apply H5.
    + intros j b Hj. rewrite Hin by (unfold in_ring, n_blocks in *; lia). by apply H6.
    + by rewrite Hsl.
    + intros k Hk0 Hk1 Hk2. destruct (H8 k Hk0 Hk1 Hk2) as (n & ds & ? & ?). exists n, ds. by rewrite Hsl.
  - intros n Hn. rewrite Hsl. by apply Hst.
Qed.

Lemma ring_log_same d d' r w f : ring_log d r w f → same d d' → ring_log d' r w f.
Proof. intros Hl Hs. by eapply (ring_log_frame nowhere). Qed.

Lemma ring_log_u32 d r w f : ring_log d r w f → 0 ≤ r ≤ w ∧ w < u32_size.
Proof.
  intros [_ _ _ [top Hrg] _]. pose proof (rg_r _ _ _ _ _ _ Hrg). pose proof (rg_w _ _ _ _ _ _ Hrg).
  pose proof (rg_fit _ _ _ _ _ _ Hrg). lia.
Qed.

Lemma ring_log_read d r w f n off l :
  ring_log d r w f → r ≤ n < w → 0 ≤ off → 0 ≤ l → off + l ≤ len (f n) →
  ∃ d', read_circular_fragment_at_offset B c n l off d = (Ok (slice off (off + l) (f n)), d') ∧
    ring_log d' r w f ∧ same d d'.
Proof.
  intros Hlog Hn Hoff Hl Hle. pose proof (ring_log_u32 _ _ _ _ Hlog). pose proof Hlog as [Hwf Hh Ho _ Hst].
  destruct (Hst n Hn) as ([st ds] & Hs & [Hv Hp]). cbn in Hv, Hp. subst st.
  pose proof (circ_slot_ok _ _ _ Hwf Ho Hs) as Hlen. cbn in Hlen.
  assert (len (f n) ≤ len ds) by (rewrite <-Hp; apply slice_le).
  assert (wp (read_circular_fragment_at_offset B c n l off)
    (λ bs d', same d d' ∧ bs = slice off (off + l) (f n)) (λ _ _, False) d) as Hwp.
  { apply (wp_read_circular_at B c); [done|done|unfold is_u32; lia|lia|done| |].
    - intros d' ds' Hs' Hsl. rewrite Hs in Hsl. injection Hsl as <-. split; [done|].
      rewrite Z.min_l by lia. by apply slice_of_prefix.
    - intros e d' _ [?|Hu]; [done|]. by apply (Hu ds). }
  apply wp_ok in Hwp as (bs & d' & Hrun & Hs' & ->). exists d'. split; [done|]. split; [|done]. by eapply ring_log_same.
Qed.

Lemma ring_log_write d r w f bytes :
  ring_log d r w f → ring_room d r w → Forall is_u8 bytes → len bytes ≤ obj_fragment_size o →
  ∃ d', write_circular_fragment B c w bytes d = (Ok tt, d') ∧
    ring_log d' r (w + 1) (λ n, if n =? w then bytes else f n) ∧ dev_step (in_ring c) d d'.
Proof.
  intros [Hwf Hh Ho [top Hrg] Hst] Hroom Hu Hlen.
  destruct (ring_push B c d top r w bytes) as (d' & Hrun & Hwf' & Hh' & Hbl & Hrg' & Hnew & Hold & Hs);
    try done; [by apply Hroom|].
  exists d'. split; [done|]. split; [|done]. split; try done; [by rewrite Hbl|by eauto|].
  intros n Hn. destruct (Z.eqb_spec n w) as [->|]; [done|]. rewrite Hold by lia. apply Hst. lia.
Qed.

Lemma ring_log_delete d r w f :
  ring_log d r w f → r < w →
  ∃ d', delete_circular_fragment B c r d = (Ok tt, d') ∧ ring_log d' (r + 1) w f ∧ dev_step (in_ring c) d d'.
Proof.
  intros [Hwf Hh Ho [top Hrg] Hst] Hlt.
  destruct (ring_pop B c d top r (r + 1) w) as (d' & Hrun & Hwf' & Hh' & Hbl & Hrg' & Hold & Hs); try done; try lia.
  { intros ?. eapply stored_valid; [done|lia]. }
  exists d'. split; [done|]. split; [|done]. split; try done; [by rewrite Hbl|by eauto|].
  intros n Hn. rewrite Hold by lia. apply Hst. lia.
Qed.

(** The log together with a property of the device that operations on this ring
    keep, such as the log of another ring. *)
Context (F : D → Prop) (HF : ∀ d d', F d → dev_step (in_ring c) d d' → F d').

Lemma F_same d d' : F d → same d d' → F d'.
Proof using HF. intros Hf Hs. apply (HF d); [done|]. by apply flash_step_nowhere. Qed.

Definition framed_log : CircLog c D.
Proof using BlockDevLaws0 HF.
  refine {| cs_log d r w f := ring_log d r w f ∧ F d; cs_room := ring_room; cs_capacity := n_frags B o |}.
  - intros d r w f [Hl _]. by eapply ring_log_u32.
  - intros d r w f n [[Hwf _ Ho _ Hst] _] Hn. destruct (Hst n Hn) as (s & Hs & [_ Hp]).
    pose proof (circ_slot_ok _ _ _ Hwf Ho Hs). rewrite <-Hp. pose proof (slice_le (len (f n)) s.2). lia.
  - intros d r w f g [[Hwf Hh Ho Hrg Hst] HFd] Hfg. split; [|done]. split; try done.
    intros n Hn. rewrite <-Hfg by done. by apply Hst.
  - intros d r w f [[_ _ Ho [top Hrg] _] _] Hroom. unfold n_frags.
    pose proof (rg_r _ _ _ _ _ _ Hrg). pose proof (rg_w _ _ _ _ _ _ Hrg). pose proof (P_pos B c _ Ho).
    destruct (Hroom top Hrg) as [?|(? & _ & ? & _)]; nia.
  - intros d r w f Hl. by exists Init_Existing, d.
  - intros d r w f [Hl HFd]. pose proof Hl as [Hwf Hh Ho [top Hrg] _].
    destruct (ring_find B c d top r w) as (d' & Hf & Hs); try done. exists d'. split; [done|].
    split; [by eapply ring_log_same|by eapply F_same].
  - intros d r w f n off l [Hl HFd] Hn Hoff Hl0 Hle.
    destruct (ring_log_read d r w f n off l) as (d' & Hrun & Hl' & Hs); try done.
    exists d'. split; [done|]. split; [done|by eapply F_same].
  - intros d r w f bytes [Hl HFd] Hroom Hu Hlen.
    destruct (ring_log_write d r w f bytes) as (d' & Hrun & Hl' & Hs); try done.
    exists d'. split; [done|]. split; [done|by eapply HF].
  - intros d r w f [Hl HFd] Hlt. destruct (ring_log_delete d r w f) as (d' & Hrun & Hl' & Hs); try done.
    exists d'. split; [done|]. split; [done|by eapply HF].
Defined.
End log.

#[export] Instance circ_log {D E B} `{!BlockDev B D E} `{!BlockDevLaws B D E} (c : Circular) : CircLog c D | 10 :=
  framed_log B c (λ _, True) (λ _ _ _ _, I).

(** The stored form of an item. *)
Definition frame (crc : list Z → Z) (data : list Z) : list Z :=
  le_bytes 2 (as_u16 (len data)) ++ le_bytes 4 (crc data) ++ data.

Section frame.
Context (crc : list Z → Z) (Hcrc : ∀ l, is_u32 (crc l)).

Lemma len_le_bytes n z : len (le_bytes n z) = Z.of_nat n.
Proof. unfold len. by rewrite length_le_bytes. Qed.

Lemma len_frame data : len (frame crc data) = STREAM_OVERHEAD_BYTES + len data.
Proof. unfold frame. rewrite !len_app, !len_le_bytes. unfold STREAM_OVERHEAD_BYTES, LEN_OVERHEAD_BYTES, CRC_OVERHEAD_BYTES. lia. Qed.

Lemma frame_u8 data : Forall is_u8 data → Forall is_u8 (frame crc data).
Proof. intros. unfold frame. rewrite !Forall_app. auto using le_bytes_u8. Qed.

Lemma frame_header data :
  slice 0 (0 + STREAM_OVERHEAD_BYTES) (frame crc data) = le_bytes 2 (as_u16 (len data)) ++ le_bytes 4 (crc data).
Proof. unfold frame. rewrite (assoc_L (++)). apply slice_app_l. by rewrite len_app, !len_le_bytes. Qed.

Lemma frame_data data :
  slice STREAM_OVERHEAD_BYTES (STREAM_OVERHEAD_BYTES + len data) (frame crc data) = data.
Proof.
  unfold frame. rewrite (assoc_L (++)). apply slice_app_r; rewrite len_app, !len_le_bytes; done.
Qed.

Lemma header_buffer_full data :
  header_buffer (le_bytes 2 (as_u16 (len data)) ++ le_bytes 4 (crc data)) =
  le_bytes 2 (as_u16 (len data)) ++ le_bytes 4 (crc data).
Proof. unfold header_buffer. rewrite len_app, !len_le_bytes. apply app_nil_r. Qed.

Lemma header_len data : len data < 65536 →
  header_data_len (le_bytes 2 (as_u16 (len data)) ++ le_bytes 4 (crc data)) = len data.
Proof.
  intros Hl. unfold header_data_len. rewrite header_buffer_full, slice_app_l by (by rewrite len_le_bytes).
  pose proof (len_nonneg data).
  rewrite as_u16_small by (unfold is_u16; lia). apply le_val_le_bytes_small. cbn. lia.
Qed.

Lemma header_crc data :
  header_data_crc (le_bytes 2 (as_u16 (len data)) ++ le_bytes 4 (crc data)) = crc data.
Proof using Hcrc.
  unfold header_data_crc. rewrite header_buffer_full.
  rewrite slice_app_r by (rewrite !len_le_bytes; done). apply le_val_le_bytes_small. apply Hcrc.
Qed.
End frame.

Section stream.
Context {D Ch : Type} `{!CircStore D, !Channel Ch, !ChannelLaws MAX_PEEKS Ch}.
Context (B : Z) (crc : list Z → Z) (Hcrc : ∀ l, is_u32 (crc l)).
Context (c : Circular) `{!CircLog c D}.
Abbreviation SS := (StreamStore D Ch).
Implicit Types (s : SS) (q : Queue Ch).

Definition lower s : Z := read_index_min (readers (queue s)).
Definition upper s : Z := write_index (queue s).

(** A store in use: [hs] are the handles given out, [msgs n] is item [n]. *)
Record stream_inv s (hs : list ConfirmHandle) (msgs : Z → list Z) : Prop := {
  st_done : init_done s = true;
  st_circ : circular s = c;
  st_sys : sys_inv MAX_PEEKS (mkSys (queue s) hs);
  st_cap : cs_capacity ≤ q_capacity (queue s);
  st_log : cs_log (store s) (lower s) (upper s) (λ n, frame crc (msgs n));
  st_msgs : ∀ n, lower s ≤ n < upper s → len (msgs n) < 65536;
}.

(** ** Runs of the parts *)

Lemma wp_and {S E A} (m : M S E A) (Q1 Q2 : A → S → Prop) (R1 R2 : E → S → Prop) (x : S) :
  wp m Q1 R1 x → wp m Q2 R2 x → wp m (λ a y, Q1 a y ∧ Q2 a y) (λ e y, R1 e y ∧ R2 e y) x.
Proof. unfold wp. by destruct (m x) as [[]]. Qed.

Lemma on_store_run {E A} (m : M D E A) s r d : m (store s) = (r, d) → on_store m s = (r, set_store d s).
Proof. intros H. unfold on_store, zoom. by rewrite H. Qed.

Lemma delete_confirmed_run s lo hi w f :
  cs_log (store s) lo w f → lo ≤ hi ≤ w →
  ∃ d', delete_confirmed (Z.to_nat (hi - lo)) c lo hi s = (Ok tt, set_store d' s) ∧ cs_log d' hi w f.
Proof.
  remember (Z.to_nat (hi - lo)) as fuel eqn:Hf. revert s lo Hf.
  induction fuel as [|fuel IH]; intros s lo Hf Hlog Hr.
  { assert (lo = hi) as -> by lia. exists (store s). split; [by destruct s|done]. }
  destruct (cs_delete_law (store s) lo w f Hlog) as (d1 & Hrun & Hlog1); [lia|].
  destruct (IH (set_store d1 s) (lo + 1)) as (d2 & Hrest & Hlog2); [lia|done|lia|].
  exists d2. split; [|done]. cbn [delete_confirmed]. rewrite (proj2 (Z.eqb_neq lo hi)) by lia.
  unfold attempt, mbind, M_bind. rewrite (on_store_run _ _ _ _ Hrun).
  destruct (cs_range _ _ _ _ Hlog). rewrite wrapping_add_small by lia. exact Hrest.
Qed.

Lemma read_item_run s h r w msgs buf_len :
  cs_log (store s) r w (λ n, frame crc (msgs n)) → r ≤ seq_no h < w →
  len (msgs (seq_no h)) < 65536 → len (msgs (seq_no h)) ≤ buf_len →
  ∃ d', read_item crc c h buf_len s = (Ok (Some (msgs (seq_no h), h)), set_store d' s) ∧
    cs_log d' r w (λ n, frame crc (msgs n)).
Proof using Hcrc.
  intros Hlog Hn Hlen Hbuf. set (data := msgs (seq_no h)) in *.
  destruct (cs_read_law (store s) r w _ (seq_no h) 0 STREAM_OVERHEAD_BYTES Hlog Hn) as (d1 & H1 & Hlog1);
    [done|done|rewrite len_frame; pose proof (len_nonneg data); unfold data in *; lia|].
  destruct (cs_read_law d1 r w _ (seq_no h) STREAM_OVERHEAD_BYTES (len data) Hlog1 Hn) as (d2 & H2 & Hlog2);
    [done|apply len_nonneg|by rewrite len_frame|].
  fold data in H1, H2. rewrite frame_header in H1. rewrite frame_data in H2.
  exists d2. split; [|done]. unfold read_item, attempt, mbind, M_bind, cs_read.
  rewrite (on_store_run _ _ _ _ H1). cbv iota beta.
  rewrite header_len, header_crc by done.
  rewrite (proj2 (Z.ltb_ge _ _)) by lia.
  rewrite (on_store_run _ (set_store d1 s) _ _ H2). by rewrite !Z.eqb_refl.
Qed.

Lemma initialize_done s : init_done s = true → stream_initialize s = (Ok tt, s).
Proof. intros H. unfold stream_initialize, mbind, M_bind, gets. by rewrite H. Qed.

Lemma extend_run v bytes s :
  len v + len bytes ≤ B → extend_from_slice B v bytes s = (Ok (v ++ bytes), s).
Proof. intros. unfold extend_from_slice. by rewrite (proj2 (Z.ltb_ge _ _)) by lia. Qed.

Lemma st_range s hs msgs : stream_inv s hs msgs →
  0 ≤ lower s ≤ upper s ∧ upper s + MAX_PEEKS < u32_size.
Proof. intros [_ _ [[] _ _ _ _ _] _ _ _]. unfold lower, upper. cbn in *. lia. Qed.

(** ** Enqueueing *)

(** The item fits: its fragment, the scratch buffer and the length field. *)
Definition item_fits (data : list Z) : Prop :=
  Forall is_u8 data ∧ len data + STREAM_OVERHEAD_BYTES ≤ obj_fragment_size (circ_obj c) ∧
  obj_fragment_size (circ_obj c) ≤ B ∧ obj_fragment_size (circ_obj c) < 65536.

Lemma enqueue_run s hs msgs data :
  stream_inv s hs msgs → item_fits data → no_wrap MAX_PEEKS (queue s) →
  cs_room (store s) (lower s) (upper s) →
  ∃ s', stream_enqueue B crc data s = (Ok (upper s), s') ∧
    stream_inv s' hs (λ n, if n =? upper s then data else msgs n) ∧
    lower s' = lower s ∧ upper s' = upper s + 1 ∧
    queue s' = set_write_index (upper s + 1) (queue s).
Proof.
  intros I (Hu8 & Hfit & HB & H16) Hw Hroom. pose proof (st_range _ _ _ I) as Hrange.
  pose proof I as [Hd Hc Hsys Hcap Hlog Hmsgs]. pose proof (len_nonneg data) as Hl0.
  destruct (cs_write_law (store s) (lower s) (upper s) _ (frame crc data) Hlog Hroom) as (d' & Hrun & Hlog');
    [by apply frame_u8|rewrite len_frame; lia|].
  pose proof (cs_room_law _ _ _ _ Hlog Hroom) as Hcount.
  pose proof (enqueue_grows MAX_PEEKS (queue s) hs Hsys Hw ltac:(unfold lower, upper in *; lia)) as Hq.
  assert (sys_inv MAX_PEEKS (mkSys (set_write_index (write_index (queue s) + 1) (queue s)) hs)) as Hsys'.
  { destruct (wp_run _ _ _ _ _ _ (sim_enqueue MAX_PEEKS (queue s) hs Hsys Hw) Hq). done. }
  exists (set_queue (set_write_index (upper s + 1) (queue s)) (set_store d' s)).
  split; [|split; [|done]].
  - unfold stream_enqueue, mbind, M_bind, gets. rewrite (initialize_done s Hd), Hc. unfold writable_seq_no.
    rewrite (proj2 (Z.ltb_ge _ _)) by (unfold saturating_sub; lia).
    unfold STREAM_OVERHEAD_BYTES, LEN_OVERHEAD_BYTES, CRC_OVERHEAD_BYTES in Hfit.
    rewrite extend_run by (rewrite len_nil, len_le_bytes; lia). cbn [app].
    rewrite extend_run by (rewrite !len_le_bytes; lia).
    rewrite extend_run by (rewrite len_app, !len_le_bytes; lia).
    unfold frame, upper in Hrun. rewrite (assoc_L (++)) in Hrun.
    unfold attempt. rewrite (on_store_run _ _ _ _ Hrun).
    unfold map_err, on_queue, zoom. cbn [queue set_store]. by rewrite Hq.
  - split; cbn; try done.
    + eapply cs_log_ext; [exact Hlog'|]. intros n _. cbn. by destruct (n =? upper s).
    + intros n Hn. unfold lower, upper in *. cbn in Hn.
      destruct (Z.eqb_spec n (write_index (queue s))); [unfold STREAM_OVERHEAD_BYTES, LEN_OVERHEAD_BYTES, CRC_OVERHEAD_BYTES in Hfit; lia|]. apply Hmsgs. lia.
Qed.

(** ** Peeking *)

(** What a peek answers: an item in full with a new handle, or nothing.  It keeps
    the end of the log and moves the start only forward. *)
Definition peeked s hs msgs (r : option (list Z * ConfirmHandle)) s' : Prop :=
  lower s ≤ lower s' ∧ upper s' = upper s ∧
  match r with
  | Some (data, h) =>
      data = msgs (seq_no h) ∧ stream_inv s' (h :: hs) msgs ∧
      simulates MAX_PEEKS (mkSys (queue s) hs) (Peeked (seq_no h)) (mkSys (queue s') (h :: hs))
  | None =>
      stream_inv s' hs msgs ∧
      ∃ e, simulates MAX_PEEKS (mkSys (queue s) hs) (PeekBlocked e) (mkSys (queue s') hs)
  end.

(** After the queue was asked: the fragments below the new lower bound go. *)
Lemma cleanup_run s hs hs' msgs q' e :
  stream_inv s hs msgs → write_index q' = upper s → lower s ≤ read_index_min (readers q') →
  simulates MAX_PEEKS (mkSys (queue s) hs) e (mkSys q' hs') →
  ∃ d', delete_confirmed (Z.to_nat (wrapping_sub (existing_range q').1 (existing_range (queue s)).1))
          c (existing_range (queue s)).1 (existing_range q').1 (set_queue q' s) =
        (Ok tt, set_store d' (set_queue q' s)) ∧
    stream_inv (set_store d' (set_queue q' s)) hs' msgs.
Proof.
  intros I Hw Hmin (Hsys' & [Hc1 _] & _). pose proof (st_range _ _ _ I) as Hrange.
  destruct I as [Hd Hc Hsys Hcap Hlog Hmsgs]. cbn in Hc1.
  pose proof (si_pq _ _ Hsys') as []. cbn in *.
  unfold lower, upper, min_index in *. rewrite wrapping_sub_small by lia.
  destruct (delete_confirmed_run (set_queue q' s) (read_index_min (readers (queue s)))
    (read_index_min (readers q')) (write_index (queue s)) _ Hlog) as (d' & Hrun & Hlog'); [lia|].
  exists d'. split; [exact Hrun|]. split; unfold lower, upper in *; cbn; try done.
  - by rewrite Hc1.
  - by rewrite Hw.
  - intros n Hn. apply Hmsgs. lia.
Qed.

Lemma peek_run_some s hs msgs buf_len h q' :
  stream_inv s hs msgs → (∀ n, lower s ≤ n < upper s → len (msgs n) ≤ buf_len) →
  peek_next MAX_PEEKS (queue s) = (Ok h, q') →
  ∃ s', stream_peek_next crc buf_len s = (Ok (Some (msgs (seq_no h), h)), s') ∧
    peeked s hs msgs (Some (msgs (seq_no h), h)) s'.
Proof using Hcrc.
  intros I Hbuf Hq. pose proof I as [Hd Hc Hsys _ _ _].
  pose proof (wp_run _ _ _ _ _ _ (sim_peek _ _ _ Hsys) Hq) as Hsim.
  destruct (wp_run _ _ _ _ _ _ (wp_peek_range _ _ _ Hsys) Hq) as (Hw & Hmin & Hn).
  destruct (cleanup_run _ _ _ _ _ _ I Hw Hmin Hsim) as (d' & Hrun & I').
  pose proof I' as [_ _ _ _ Hlog' Hmsgs']. unfold lower, upper in *. cbn in Hlog', Hmsgs'.
  destruct (read_item_run (set_store d' (set_queue q' s)) h _ _ msgs buf_len Hlog') as (d2 & Hrd & Hlog2);
    [lia|apply Hmsgs'; lia|apply Hbuf; lia|].
  exists (set_store d2 (set_store d' (set_queue q' s))). split.
  - unfold stream_peek_next, mbind, M_bind, gets, attempt, on_queue, zoom.
    rewrite (initialize_done s Hd), Hq. cbn [circular set_queue queue]. by rewrite Hc, Hrun.
  - split; [done|]. split; [done|]. split; [done|]. split; [|done]. by destruct I'.
Qed.

Lemma peek_run_none s hs msgs buf_len e q' :
  stream_inv s hs msgs → peek_next MAX_PEEKS (queue s) = (Err e, q') →
  ∃ s', stream_peek_next crc buf_len s = (Ok None, s') ∧ peeked s hs msgs None s'.
Proof.
  intros I Hq. pose proof I as [Hd Hc Hsys _ _ _].
  pose proof (wp_run _ _ _ _ _ _ (sim_peek _ _ _ Hsys) Hq) as Hsim.
  destruct (wp_run _ _ _ _ _ _ (wp_peek_range _ _ _ Hsys) Hq) as (Hw & Hmin).
  destruct (cleanup_run _ _ _ _ _ _ I Hw Hmin Hsim) as (d' & Hrun & I').
  exists (set_store d' (set_queue q' s)). split; [|split; [done|]; split; [done|]; split; [done|by exists e]].
  unfold stream_peek_next, mbind, M_bind, gets, attempt, on_queue, zoom.
  rewrite (initialize_done s Hd), Hq. cbn [circular set_queue queue]. by rewrite Hc, Hrun.
Qed.

(** ** Integrity *)

(** A peek that succeeds, over any database, faults included. *)
Lemma peek_checked s buf_len data h s' :
  stream_peek_next crc buf_len s = (Ok (Some (data, h)), s') →
  ∃ circ header d1 d2 d3,
    cs_read circ (seq_no h) STREAM_OVERHEAD_BYTES d1 = (Ok header, d2) ∧
    cs_read_at_offset circ (seq_no h) (len data) STREAM_OVERHEAD_BYTES d2 = (Ok data, d3) ∧
    header_data_len header = len data ∧ header_data_crc header = crc data ∧ len data ≤ buf_len.
Proof.
  intros H. unfold stream_peek_next in H.
  apply bind_ok_inv in H as (_ & s1 & _ & H). apply bind_ok_inv in H as (q & s2 & _ & H).
  apply bind_ok_inv in H as (pr & s3 & _ & H). apply bind_ok_inv in H as (circ & s4 & _ & H).
  apply bind_ok_inv in H as (q2 & s5 & _ & H). apply bind_ok_inv in H as (cl & s6 & _ & H).
  destruct cl as [_|err]; [|by apply bind_ok_inv in H as (? & ? & _ & [=])].
  destruct pr as [h'|e]; [|done]. unfold read_item in H.
  apply bind_ok_inv in H as ([header|e] & s7 & H1 & H).
  2: { by destruct e; apply bind_ok_inv in H as (? & ? & _ & [=]). }
  apply attempt_inl_inv, zoom_ok_inv in H1 as (d2 & H1 & ->).
  destruct (Z.ltb_spec buf_len (header_data_len header)); [by apply bind_ok_inv in H as (? & ? & _ & [=])|].
  apply bind_ok_inv in H as ([data'|e] & s8 & H2 & H); [|by apply bind_ok_inv in H as (? & ? & _ & [=])].
  apply attempt_inl_inv, zoom_ok_inv in H2 as (d3 & H2 & ->).
  destruct (Z.eqb_spec (header_data_len header) (len data')) as [El|]; cbn [negb orb] in H;
    [|by apply bind_ok_inv in H as (? & ? & _ & [=])].
  destruct (Z.eqb_spec (header_data_crc header) (crc data')) as [Ec|]; cbn [negb] in H;
    [|by apply bind_ok_inv in H as (? & ? & _ & [=])].
  injection H as -> -> _. rewrite El in H2. exists circ, header, (store s6), d2, d3. split_and!; try done. lia.
Qed.

(** ** Restarting *)

(** A new [StreamStore] over the same database. *)
Lemma restart_run s hs msgs ch cap g :
  stream_inv s hs msgs → cs_capacity ≤ cap → 0 < g ≤ cap → cap ≤ u32_max → ch_items (cap := MAX_PEEKS) ch = [] →
  ∃ s', stream_initialize (mkStream (store s) (with_overwrite_support MAX_PEEKS ch cap g) false c) = (Ok tt, s') ∧
    stream_inv s' [] msgs ∧ lower s' = lower s ∧ upper s' = upper s ∧
    readers (queue s') = peek_new MAX_PEEKS (lower s) ∧ ch_items (cap := MAX_PEEKS) (confirm_channel (queue s')) = [].
Proof.
  intros I Hcap Hg Hu Hch. pose proof (st_range _ _ _ I) as Hr. destruct I as [_ _ _ _ Hlog Hmsgs].
  destruct (cs_init_law _ _ _ _ Hlog) as (st & d1 & H1 & Hlog1).
  destruct (cs_find_law _ _ _ _ Hlog1) as (d2 & H2 & Hlog2).
  unfold stream_initialize, mbind, M_bind, gets. cbn [init_done circular].
  rewrite (on_store_run _ (mkStream (store s) _ false c) _ _ H1).
  rewrite (on_store_run _ (set_store d1 _) _ _ H2).
  eexists. split; [reflexivity|]. split; [|done]. split; try done.
  - apply (init_inv MAX_PEEKS ch cap g (lower s) (upper s)); done || lia.
  - cbn. unfold u32_saturate. lia.
Qed.

(** ** The claims *)

(** Enqueueing.  With room in the ring, [enqueue] returns the next sequence
    number, the item is stored in full, and every item enqueued before, every
    handle given out and the numbering stay as they were. *)
Theorem stream_enqueue_stores s hs msgs data :
  stream_inv s hs msgs → item_fits data → no_wrap MAX_PEEKS (queue s) →
  cs_room (store s) (lower s) (upper s) →
  ∃ s', stream_enqueue B crc data s = (Ok (upper s), s') ∧
    stream_inv s' hs (λ n, if n =? upper s then data else msgs n) ∧
    lower s' = lower s ∧ upper s' = upper s + 1.
Proof.
  intros I Hf Hw Hr. destruct (enqueue_run s hs msgs data I Hf Hw Hr) as (s' & ? & ? & ? & ? & _). by exists s'.
Qed.

(** Peeking.  On a store in use, [peek_next] with a buffer that is large
    enough never fails: it returns the exact bytes of an item that is owed and
    in nobody's hands, with its handle, or nothing when the queue is blocked;
    the items confirmed since the last peek are deleted and the others kept. *)
Theorem stream_peek_returns_item s hs msgs buf_len :
  stream_inv s hs msgs → (∀ n, lower s ≤ n < upper s → len (msgs n) ≤ buf_len) →
  ∃ r s', stream_peek_next crc buf_len s = (Ok r, s') ∧ peeked s hs msgs r s'.
Proof using Hcrc.
  intros I Hbuf. pose proof I as [_ _ Hsys _ _ _].
  pose proof (sim_peek _ _ _ Hsys) as Hp. unfold wp in Hp.
  destruct (peek_next MAX_PEEKS (queue s)) as [[h|e|] q'] eqn:Hq; [| |done].
  - destruct (peek_run_some s hs msgs buf_len h q' I Hbuf Hq) as (s' & ? & ?). by eexists _, s'.
  - destruct (peek_run_none s hs msgs buf_len e q' I Hq) as (s' & ? & ?). by exists None, s'.
Qed.

(** C11: restarting.  A new store over the same database, with a new channel,
    comes up with exactly the items of the old one that were not deleted: the
    same numbers and the same contents, all owed and in nobody's hands; its
    first [peek_next] returns the oldest. *)
Theorem stream_survives_restart s hs msgs ch cap g buf_len :
  stream_inv s hs msgs → (∀ n, lower s ≤ n < upper s → len (msgs n) ≤ buf_len) →
  cs_capacity ≤ cap → 0 < g ≤ cap → cap ≤ u32_max → ch_items (cap := MAX_PEEKS) ch = [] →
  ∃ s1, stream_initialize (mkStream (store s) (with_overwrite_support MAX_PEEKS ch cap g) false c) = (Ok tt, s1) ∧
    stream_inv s1 [] msgs ∧ lower s1 = lower s ∧ upper s1 = upper s ∧
    (lower s < upper s → ∃ s2,
      stream_peek_next crc buf_len s1 = (Ok (Some (msgs (lower s), handle_new (lower s))), s2)).
Proof using Hcrc.
  intros I Hbuf Hcap Hg Hu Hch.
  destruct (restart_run s hs msgs ch cap g I Hcap Hg Hu Hch) as (s1 & Hrun & I1 & Hlo & Hhi & Hrd & Hnil).
  exists s1. split_and!; try done. intros Hlt. pose proof I1 as [_ _ [Hpq _ _ _ _ _] _ _ _]. cbn in Hpq.
  destruct (restored_peek MAX_PEEKS (queue s1) (lower s)) as [q' Hq]; [by rewrite <-Hrd|done|unfold upper in *; lia|done|].
  destruct (peek_run_some s1 [] msgs buf_len _ _ I1 ltac:(rewrite Hlo, Hhi; done) Hq) as (s2 & Hp & _). by exists s2.
Qed.

(** Integrity.  Whatever the database does, bytes that [peek_next] returns
    fit the buffer, have the length recorded in the stored header and match
    the checksum recorded there. *)
Theorem stream_peek_integrity s buf_len data h s' :
  stream_peek_next crc buf_len s = (Ok (Some (data, h)), s') →
  ∃ circ header d1 d2 d3,
    cs_read circ (seq_no h) STREAM_OVERHEAD_BYTES d1 = (Ok header, d2) ∧
    cs_read_at_offset circ (seq_no h) (len data) STREAM_OVERHEAD_BYTES d2 = (Ok data, d3) ∧
    header_data_len header = len data ∧ header_data_crc header = crc data ∧ len data ≤ buf_len.
Proof. apply peek_checked. Qed.
End stream.

(** ** A stream on the in-memory flash

    The theorems on the stream store applied to the whole stack: stream store,
    circular store, block layer and the in-memory NOR flash. *)

Module DemoStream.
Import Demo DemoDev DemoCirc.

Abbreviation Ch5 := (ListChannel.t 5).
#[export] Instance laws5 : ChannelLaws MAX_PEEKS Ch5 := ListChannel.laws 5.

Abbreviation c := (circ false).
Abbreviation Store := (StreamStore (BlockDevice InMemoryFlash) Ch5).

(** A checksum. *)
Definition crc (l : list Z) : Z := foldr Z.add 7 l mod u32_size.

Lemma crc_u32 l : is_u32 (crc l).
Proof. apply Z.mod_pos_bound. done. Qed.

Definition booted (d : BlockDevice InMemoryFlash) : Store :=
  mkStream d (with_overwrite_support MAX_PEEKS ch_new 12 4) false c.

Definition s0 : Store := (stream_initialize (booted dev0)).2.
Definition s1 : Store := (stream_enqueue 64 crc [10; 20] s0).2.

Lemma demo_vacant : ring 64 c (store s0) 0 0 0.
Proof.
  apply ring_init; [|by vm_compute|by vm_compute].
  intros j b Hj. assert (n_blocks (circ_obj c) = 3) as Hn by done. rewrite Hn in Hj.
  assert (j = 0 ∨ j = 1 ∨ j = 2) as [-> |[-> | ->]] by lia; vm_compute; done.
Qed.

Lemma s0_inv : stream_inv crc c s0 [] (λ _, []).
Proof.
  split.
  - by vm_compute.
  - by vm_compute.
  - apply (init_inv MAX_PEEKS ch_new 12 4 0 0); done || (unfold u32_max; lia).
  - by vm_compute.
  - split; [|done]. split; [by apply demo_ok|by vm_compute|apply circ_ok| |].
    + exists 0. apply demo_vacant.
    + intros n Hn. change (0 ≤ n < 0) in Hn. lia.
  - intros n Hn. change (0 ≤ n < 0) in Hn. lia.
Qed.

Lemma demo_room : cs_room (c := c) (store s0) (lower s0) (upper s0).
Proof.
  intros top Hrg. pose proof (rg_w _ _ _ _ _ _ Hrg) as [_ Hw]. pose proof (rg_r _ _ _ _ _ _ Hrg) as [_ Hr].
  assert (fragments_per_block 64 (circ_obj c) = 4) as HP by done.
  assert (n_blocks (circ_obj c) = 3) as Hnb by done.
  assert (upper s0 = 0) as Hu by done. assert (lower s0 = 0) as Hl by done.
  unfold room. rewrite HP, Hnb, Hu, Hl in *. assert (top = 0 ∨ top = 1) as [-> | ->] by lia; [right|by left].
  split; [done|]. split; [done|]. split; [lia|]. by intros b Hb Hlay.
Qed.

Lemma demo_fits : item_fits 64 c [10; 20].
Proof. split; [by apply u8s|]. by vm_compute. Qed.

Lemma s1_inv : stream_inv crc c s1 [] (λ n, if n =? upper s0 then [10; 20] else []).
Proof.
  destruct (enqueue_run 64 crc c s0 [] _ [10; 20] s0_inv demo_fits) as (s' & Hrun & I & _);
    [by vm_compute|apply demo_room|].
  unfold s1. by rewrite Hrun.
Qed.

Lemma demo_buffer n : lower s1 ≤ n < upper s1 → len (if n =? upper s0 then [10; 20] else []) ≤ 16.
Proof. intros _. by destruct (n =? upper s0). Qed.

Lemma stream_enqueue_stores_witness :
  ∃ s', stream_enqueue 64 crc [10; 20] s0 = (Ok 0, s') ∧ upper s' = 1.
Proof.
  destruct (stream_enqueue_stores 64 crc c s0 [] _ [10; 20] s0_inv demo_fits) as (s' & Hrun & _ & _ & Hu).
  - by vm_compute.
  - apply demo_room.
  - exists s'. split; [exact Hrun|exact Hu].
Defined.

Lemma stream_peek_returns_item_witness :
  ∃ r s', stream_peek_next crc 16 s1 = (Ok r, s') ∧
    peeked crc c s1 [] (λ n, if n =? upper s0 then [10; 20] else []) r s'.
Proof. exact (stream_peek_returns_item crc crc_u32 c s1 [] _ 16 s1_inv demo_buffer). Defined.

Lemma stream_survives_restart_witness :
  ∃ s2 s3, stream_initialize (booted (store s1)) = (Ok tt, s2) ∧
    stream_peek_next crc 16 s2 = (Ok (Some ([10; 20], handle_new 0)), s3).
Proof.
  destruct (stream_survives_restart crc crc_u32 c s1 [] _ ch_new 12 4 16 s1_inv demo_buffer)
    as (s2 & Hrun & _ & _ & _ & Hp); [by vm_compute|lia|by vm_compute|done|].
  destruct Hp as [s3 Hp]; [by vm_compute|]. exists s2, s3. split; [exact Hrun|exact Hp].
Defined.

Lemma stream_peek_integrity_witness :
  ∃ circ header d1 d2 d3,
    cs_read circ 0 STREAM_OVERHEAD_BYTES d1 = (Ok header, d2) ∧
    cs_read_at_offset circ 0 (len [10; 20]) STREAM_OVERHEAD_BYTES d2 = (Ok [10; 20], d3) ∧
    header_data_len header = len [10; 20] ∧ header_data_crc header = crc [10; 20] ∧ len [10; 20] ≤ 16.
Proof.
  apply (stream_peek_integrity crc s1 16 [10; 20] (handle_new 0) (stream_peek_next crc 16 s1).2).
  vm_compute. reflexivity.
Defined.
End DemoStream.
