(* ===== verification/Samples.v ===== *)
(** * Sample packets

    The binary format of [sensor-link-protocol/src/samples/q15xl.rs] and
    [samples/q15.rs]: 16-bit fixed-point samples with one exponent per channel
    behind a timestamp and a sampling frequency.  The two files are the same
    code for a length field of two and of one byte; [LB] is its width
    ([Q15_OVERHEAD_PER_PACKET]), and [Q15] names the one-byte instances.  A byte buffer is the state of the
    call that fills or reads it; an [f32] is its bit pattern.  The conversions
    from and to [f32] samples are not modelled. *)

From stdpp Require Import base list list_numbers numbers option.
From S2P Require Import Prelude.

(** ** Buffers and loops *)

Definition splice_at (off : Z) (new buf : list Z) : list Z :=
  take (Z.to_nat off) buf ++ new ++ drop (Z.to_nat off + length new) buf.

(** [&buf[lo..hi]], [buf[off..off + n].copy_from_slice(data)] and [l[i]]. *)
Definition get_slice {E} (lo hi : Z) : M (list Z) E (list Z) := λ buf,
  if (lo <=? hi) && (hi <=? len buf) then (Ok (slice lo hi buf), buf) else (Panic, buf).
Definition put_slice {E} (off : Z) (data : list Z) : M (list Z) E unit := λ buf,
  if off + len data <=? len buf then (Ok tt, splice_at off data buf) else (Panic, buf).
Definition index {S E A} (l : list A) (i : Z) : M S E A :=
  match l !! Z.to_nat i with Some a => mret a | None => panic end.

Fixpoint for_each {S E A} (l : list A) (body : A → M S E unit) : M S E unit :=
  match l with
  | [] => mret tt
  | a :: l => body a;; for_each l body
  end.

Fixpoint fold_m {S E A X} (body : X → A → M S E X) (x : X) (l : list A) : M S E X :=
  match l with
  | [] => mret x
  | a :: l => x ← body x a; fold_m body x l
  end.

Definition assert {S E} (b : bool) : M S E unit := if b then mret tt else panic.

(** ** Data *)

Definition MAX_MESSAGE_LEN : Z := 1500.
Definition Q15_BYTES_PER_SAMPLE : Z := 2.
Definition Q15_OVERHEAD_PER_CHANNEL : Z := 1.
Definition UNIFORM_HEADER_OVERHEAD : Z := 8 + 4.

(** [values] has [MAX_N_SAMPLES] elements; -32768 stands for NaN. *)
Record Q15Channel : Type := mkChannel { exponent : Z; values : list Z }.
Record Q15XL : Type := mkQ15 { num_samples : Z; channels : list Q15Channel }.
Record Uniform : Type := mkUniform { u_t : Z; u_fs : Z; u_data : Q15XL }.

Inductive SerializeError : Type := BufferFull (min_size : Z).
Inductive DeserializeError : Type :=
| BufferUnexpectedEnd (expected : Z)
| TooManySamples (actual max_allowed : Z).

(** The message of [ParseError::Deserialize]: "Buffer too small", or that of
    the [DeserializeError]. *)
Inductive ParseError : Type :=
| PE_BufferTooSmall
| PE_Deserialize (e : DeserializeError)
| PE_Invalid.

Definition empty_channel (MAX : Z) : Q15Channel := mkChannel 0 (replicate (Z.to_nat MAX) 0).

(** [I16::to_bytes], [I16::from_bytes] and the exponent byte. *)
Definition i16_to_bytes (v : Z) : list Z := le_bytes 2 (v mod 2 ^ 16).
Definition i16_from_bytes (bs : list Z) : Z := to_signed 16 (le_val bs).
Definition i8_to_bytes (v : Z) : list Z := le_bytes 1 (v mod 2 ^ 8).
Definition i8_from_bytes (bs : list Z) : Z := to_signed 8 (le_val bs).

Section codec.
Context (LB N_CH MAX : Z).

(** Largest value of the length field. *)
Definition num_max : Z := 256 ^ LB - 1.

Definition serialized_size_per_channel {S E} (n : Z) : M S E Z :=
  if n =? 0 then mret 0
  else assert (n <=? num_max);; mret (Q15_OVERHEAD_PER_CHANNEL + Q15_BYTES_PER_SAMPLE * n).

Definition serialized_size_for {S E} (n : Z) : M S E Z :=
  if N_CH =? 0 then mret 0
  else
    assert (n <=? num_max);;
    if n =? 0 then mret 0
    else per_ch ← serialized_size_per_channel n; mret (LB + N_CH * per_ch).

Definition serialized_size {S E} (q : Q15XL) : M S E Z := serialized_size_for (num_samples q).
Definition q15_len (q : Q15XL) : Z := num_samples q.
Definition q15_is_empty (q : Q15XL) : bool := num_samples q =? 0.

(** One iteration of the channel loop of [to_bytes]. *)
Definition write_channel (q : Q15XL) (bytes_per_ch ch : Z) : M (list Z) SerializeError unit :=
  let dst := LB + ch * bytes_per_ch in
  c ← index (channels q) ch;
  put_slice dst (i8_to_bytes (exponent c));;
  for_each (seqZ 0 (num_samples q)) (λ spl,
    v ← index (values c) spl;
    put_slice (dst + 1 + 2 * spl) (i16_to_bytes v)).

(** The slice returned starts behind the length field. *)
Definition to_bytes (q : Q15XL) : M (list Z) SerializeError (list Z) :=
  output_len ← serialized_size q;
  buf_len ← gets len;
  if buf_len <? output_len then fail (BufferFull output_len)
  else if (num_samples q =? 0) || (N_CH =? 0) then mret []
  else
    put_slice 0 (le_bytes (Z.to_nat LB) (num_samples q));;
    bytes_per_ch ← serialized_size_per_channel (num_samples q);
    for_each (seqZ 0 N_CH) (write_channel q bytes_per_ch);;
    get_slice LB output_len.

(** One iteration of the sample loop of [from_bytes]. *)
Definition read_sample (ch_src dst : list Z) (spl : Z) : M (list Z) DeserializeError (list Z) :=
  b0 ← index ch_src (2 * spl);
  b1 ← index ch_src (2 * spl + 1);
  index dst spl;;
  mret (<[Z.to_nat spl := i16_from_bytes [b0; b1]]> dst).

(** One iteration of the channel loop of [from_bytes]. *)
Definition read_channel (n bytes_per_ch : Z) (chs : list Q15Channel) (ch : Z) :
    M (list Z) DeserializeError (list Q15Channel) :=
  src ← get_slice (LB + ch * bytes_per_ch) (LB + (ch + 1) * bytes_per_ch);
  c ← index chs ch;
  let ch_exp := slice 0 Q15_OVERHEAD_PER_CHANNEL src in
  let ch_src := slice Q15_OVERHEAD_PER_CHANNEL (len src) src in
  vs ← fold_m (read_sample ch_src) (values c) (seqZ 0 n);
  mret (<[Z.to_nat ch := mkChannel (i8_from_bytes ch_exp) vs]> chs).

Definition from_bytes : M (list Z) DeserializeError Q15XL :=
  num_samples ← gets (λ bytes, if LB <=? len bytes then le_val (slice 0 LB bytes) else 0);
  let empty := replicate (Z.to_nat N_CH) (empty_channel MAX) in
  if MAX <? num_samples then fail (TooManySamples num_samples MAX)
  else if 0 <? num_samples then
    expected_bytes ← serialized_size_for num_samples;
    bytes_len ← gets len;
    if bytes_len <? expected_bytes then fail (BufferUnexpectedEnd expected_bytes)
    else
      bytes_per_ch ← serialized_size_per_channel num_samples;
      chs ← fold_m (read_channel num_samples bytes_per_ch) empty (seqZ 0 N_CH);
      mret (mkQ15 num_samples chs)
  else mret (mkQ15 0 empty).

(** ** With timestamp and sampling frequency *)

Definition max_num_input_samples (buffer_size : Z) : Z :=
  let required_overhead := UNIFORM_HEADER_OVERHEAD + LB in
  if (buffer_size <? required_overhead) || (N_CH =? 0) then 0
  else
    let available_bytes := buffer_size - required_overhead in
    let required_per_channel := Q15_OVERHEAD_PER_CHANNEL + Q15_BYTES_PER_SAMPLE in
    if available_bytes <? N_CH * required_per_channel then 0
    else (available_bytes / N_CH - Q15_OVERHEAD_PER_CHANNEL) / Q15_BYTES_PER_SAMPLE.

Definition uniform_serialized_size_for {S E} (n : Z) : M S E Z :=
  size ← serialized_size_for n;
  assert (UNIFORM_HEADER_OVERHEAD + size <=? MAX_MESSAGE_LEN);;
  mret (UNIFORM_HEADER_OVERHEAD + size).

Definition uniform_serialized_size {S E} (u : Uniform) : M S E Z :=
  uniform_serialized_size_for (num_samples (u_data u)).

(** [f32] comparisons on the bit pattern: sign, 8 bits of exponent, 23 of mantissa. *)
Definition f32_is_nan (bits : Z) : bool := (bits / 2 ^ 23 mod 256 =? 255) && negb (bits mod 2 ^ 23 =? 0).
Definition f32_le_zero (bits : Z) : bool :=
  negb (f32_is_nan bits) && ((2 ^ 31 <=? bits) || (bits =? 0)).

Definition verify (u : Uniform) : bool :=
  if u_t u <=? 0 then false
  else if f32_le_zero (u_fs u) || f32_is_nan (u_fs u) then false
  else true.

Definition as_topic_data (u : Uniform) : M (list Z) SerializeError (list Z) :=
  output_len ← uniform_serialized_size u;
  buf_len ← gets len;
  if buf_len <? output_len then fail (BufferFull output_len)
  else
    put_slice 0 (le_bytes 8 (u_t u mod 2 ^ 64));;
    put_slice 8 (le_bytes 4 (u_fs u));;
    zoom (slice 12 output_len) (splice_at 12) (to_bytes (u_data u));;
    get_slice 0 output_len.

Definition from_topic_data : M (list Z) ParseError Uniform :=
  min_len ← uniform_serialized_size_for 0;
  bytes_len ← gets len;
  if bytes_len <? min_len then fail PE_BufferTooSmall
  else
    t ← get_slice 0 8;
    fs ← get_slice 8 12;
    data ← map_err PE_Deserialize (zoom (λ bytes, slice 12 (len bytes) bytes) (λ _ bytes, bytes) from_bytes);
    let result := mkUniform (to_signed 64 (le_val t)) (le_val fs) data in
    if verify result then mret result else fail PE_Invalid.
End codec.

(** ** The one-byte variant, [samples/q15.rs] *)

Module Q15.
Section q15.
Context (N_CH MAX : Z).

Definition q15_OVERHEAD_PER_PACKET : Z := 1.
Definition q15_serialized_size (q : Q15XL) : M (list Z) SerializeError Z := serialized_size q15_OVERHEAD_PER_PACKET N_CH q.
Definition q15_to_bytes (q : Q15XL) : M (list Z) SerializeError (list Z) := to_bytes q15_OVERHEAD_PER_PACKET N_CH q.
Definition q15_from_bytes : M (list Z) DeserializeError Q15XL := from_bytes q15_OVERHEAD_PER_PACKET N_CH MAX.
Definition q15_max_num_input_samples (buffer_size : Z) : Z :=
  max_num_input_samples q15_OVERHEAD_PER_PACKET N_CH buffer_size.
Definition q15_as_topic_data (u : Uniform) : M (list Z) SerializeError (list Z) :=
  as_topic_data q15_OVERHEAD_PER_PACKET N_CH u.
Definition q15_from_topic_data : M (list Z) ParseError Uniform := from_topic_data q15_OVERHEAD_PER_PACKET N_CH MAX.
End q15.
End Q15.
