(* ===== verification/SamplesFacts.v ===== *)
(** * Sample packets: what the codec loops compute

    The loops of [to_bytes] and [from_bytes] against the list functions
    [packet] and [decode_channel]. *)

From stdpp Require Import base list list_numbers numbers option.
From S2P Require Import Prelude Samples.

(** ** Buffers *)

Lemma splice_app off p x new s :
  len p = off → length x = length new → splice_at off new (p ++ x ++ s) = p ++ new ++ s.
Proof.
  intros <- Hl. unfold splice_at, len. rewrite Nat2Z.id, take_app_length. do 2 f_equal.
  rewrite <-Hl, <-length_app, (assoc_L (++)). apply drop_app_length.
Qed.

Lemma put_slice_app {E} off p x data s :
  len p = off → length x = length data →
  put_slice (E := E) off data (p ++ x ++ s) = (Ok tt, p ++ data ++ s).
Proof.
  intros Hp Hx. unfold put_slice. rewrite splice_app by done.
  rewrite (proj2 (Z.leb_le _ _)); [done|]. rewrite !len_app. pose proof (len_nonneg s). unfold len in *. lia.
Qed.

Lemma get_slice_run {E} lo hi buf :
  lo ≤ hi ≤ len buf → get_slice (E := E) lo hi buf = (Ok (slice lo hi buf), buf).
Proof. intros. unfold get_slice. by rewrite !(proj2 (Z.leb_le _ _)) by lia. Qed.

Lemma slice_mid {A} lo hi (p x s : list A) :
  len p = lo → len p + len x = hi → slice lo hi (p ++ x ++ s) = x.
Proof.
  intros <- <-. unfold slice, len. rewrite Nat2Z.id, drop_app_length.
  replace (Z.to_nat _) with (length x) by lia. apply take_app_length.
Qed.

Lemma index_run {S E A} (l : list A) i a (st : S) :
  l !! Z.to_nat i = Some a → index (E := E) l i st = (Ok a, st).
Proof. intros H. unfold index. by rewrite H. Qed.

(** ** Loops *)

(** A loop whose iterations write consecutive chunks of [w] bytes. *)
Lemma for_each_chunks {E} (body : Z → M (list Z) E unit) (f : Z → list Z) off w (k : nat) : ∀ i p x s,
  0 ≤ w → len p = off + w * i → len x = w * Z.of_nat k →
  (∀ j, i ≤ j < i + Z.of_nat k → len (f j) = w) →
  (∀ j p x s, i ≤ j < i + Z.of_nat k → len p = off + w * j → len x = w →
     body j (p ++ x ++ s) = (Ok tt, p ++ f j ++ s)) →
  for_each (seqZ i (Z.of_nat k)) body (p ++ x ++ s) = (Ok tt, p ++ concat (f <$> seqZ i (Z.of_nat k)) ++ s).
Proof.
  induction k as [|k IH]; intros i p x s Hw Hp Hx Hf Hbody.
  { assert (x = []) as -> by (apply length_zero_iff_nil; unfold len in Hx; lia). done. }
  rewrite seqZ_cons by lia. cbn [for_each fmap list_fmap concat].
  replace (Z.pred (Z.of_nat (S k))) with (Z.of_nat k) by lia.
  assert (len x = w + w * Z.of_nat k) as Hx2 by lia. assert (0 ≤ w * Z.of_nat k) by lia.
  assert (len (take (Z.to_nat w) x) = w) as Hx1 by (unfold len in *; rewrite length_take; lia).
  rewrite <-(take_drop (Z.to_nat w) x) at 1. rewrite <-(assoc_L (++)).
  unfold mbind, M_bind. rewrite Hbody by (done || lia).
  rewrite <-(assoc_L (++)), (assoc_L (++) p).
  replace (Z.succ i) with (i + 1) by lia. rewrite (IH (i + 1)); [by rewrite <-!(assoc_L (++))|done| | | |].
  - rewrite len_app, Hf by lia. lia.
  - unfold len in *. rewrite length_drop. lia.
  - intros j Hj. apply Hf. lia.
  - intros j p' x' s' Hj. apply Hbody. lia.
Qed.

(** A loop whose iterations assign consecutive elements of an array. *)
Lemma fold_inserts {S E X} (body : list X → Z → M S E (list X)) (f : Z → X) (init : list X) (st : S) (k : nat) :
  ∀ i pre, len pre = i → 0 ≤ i → i + Z.of_nat k ≤ len init →
  (∀ j dst, i ≤ j < i + Z.of_nat k → length dst = length init → dst !! Z.to_nat j = init !! Z.to_nat j →
     body dst j st = (Ok (<[Z.to_nat j := f j]> dst), st)) →
  fold_m body (pre ++ drop (Z.to_nat i) init) (seqZ i (Z.of_nat k)) st =
    (Ok (pre ++ (f <$> seqZ i (Z.of_nat k)) ++ drop (Z.to_nat (i + Z.of_nat k)) init), st).
Proof.
  induction k as [|k IH]; intros i pre Hpre Hi Hk Hbody.
  { cbn. by rewrite Z.add_0_r. }
  rewrite seqZ_cons by lia. replace (Z.pred (Z.of_nat (Datatypes.S k))) with (Z.of_nat k) by lia.
  cbn [fold_m fmap list_fmap]. unfold mbind, M_bind. unfold len in Hk, Hpre.
  destruct (lookup_lt_is_Some_2 init (Z.to_nat i)) as [x Hx]; [lia|].
  rewrite (drop_S init x (Z.to_nat i) Hx). rewrite Hbody.
  - rewrite insert_app_r_alt by lia. replace (Z.to_nat i - length pre)%nat with 0%nat by lia. cbn [insert list_insert].
    replace (pre ++ f i :: drop (Datatypes.S (Z.to_nat i)) init) with ((pre ++ [f i]) ++ drop (Z.to_nat (i + 1)) init)
      by (rewrite <-(assoc_L (++)); do 2 f_equal; f_equal; lia).
    replace (Z.succ i) with (i + 1) by lia. rewrite (IH (i + 1)).
    + rewrite <-(assoc_L (++)). cbn. do 6 f_equal. lia.
    + unfold len. rewrite length_app. cbn. lia.
    + lia.
    + unfold len. lia.
    + intros j dst Hj. apply Hbody. lia.
  - lia.
  - rewrite length_app. cbn. rewrite length_drop. lia.
  - rewrite lookup_app_r by lia. replace (Z.to_nat i - length pre)%nat with 0%nat by lia. by rewrite Hx.
Qed.

(** ** Integers *)

Lemma i16_roundtrip v : - 2 ^ 15 ≤ v < 2 ^ 15 → i16_from_bytes (i16_to_bytes v) = v.
Proof.
  intros Hv. unfold i16_from_bytes, i16_to_bytes.
  rewrite le_val_le_bytes, Z.mod_mod by done. by apply to_signed_mod.
Qed.

Lemma i8_roundtrip v : - 2 ^ 7 ≤ v < 2 ^ 7 → i8_from_bytes (i8_to_bytes v) = v.
Proof.
  intros Hv. unfold i8_from_bytes, i8_to_bytes.
  rewrite le_val_le_bytes, Z.mod_mod by done. by apply to_signed_mod.
Qed.

(** ** Packets as lists *)

Definition sample_at (c : Q15Channel) (spl : Z) : Z := default 0 (values c !! Z.to_nat spl).

Definition channel_bytes (n : Z) (c : Q15Channel) : list Z :=
  i8_to_bytes (exponent c) ++ concat ((λ spl, i16_to_bytes (sample_at c spl)) <$> seqZ 0 n).

Definition channel_at (q : Q15XL) (ch : Z) : Q15Channel := default (mkChannel 0 []) (channels q !! Z.to_nat ch).

Definition packet (LB N_CH : Z) (q : Q15XL) : list Z :=
  le_bytes (Z.to_nat LB) (num_samples q) ++
  concat ((λ ch, channel_bytes (num_samples q) (channel_at q ch)) <$> seqZ 0 N_CH).

(** The channel whose bytes are [src]. *)
Definition byte_at (src : list Z) (i : Z) : Z := default 0 (src !! Z.to_nat i).
Definition decode_channel (n MAX : Z) (src : list Z) : Q15Channel :=
  mkChannel (i8_from_bytes (slice 0 1 src))
    (((λ spl, i16_from_bytes [byte_at src (1 + 2 * spl); byte_at src (2 + 2 * spl)]) <$> seqZ 0 n) ++
     replicate (Z.to_nat (MAX - n)) 0).

(** Elements past [num_samples] are not part of the packet. *)
Definition truncate_channel (n MAX : Z) (c : Q15Channel) : Q15Channel :=
  mkChannel (exponent c) ((sample_at c <$> seqZ 0 n) ++ replicate (Z.to_nat (MAX - n)) 0).
Definition truncate (N_CH MAX : Z) (q : Q15XL) : Q15XL :=
  mkQ15 (num_samples q) ((λ ch, truncate_channel (num_samples q) MAX (channel_at q ch)) <$> seqZ 0 N_CH).

Lemma len_concat_chunks (f : Z → list Z) w k i :
  0 ≤ k → (∀ j, len (f j) = w) → len (concat (f <$> seqZ i k)) = w * k.
Proof.
  intros Hk Hf. rewrite <-(Z2Nat.id k) by done. generalize (Z.to_nat k) as m. clear k Hk.
  intros m. revert i. induction m as [|m IH]; intros i; [by rewrite Z.mul_0_r|].
  rewrite seqZ_cons by lia. cbn [fmap list_fmap concat]. rewrite len_app, Hf.
  replace (Z.pred (Z.of_nat (S m))) with (Z.of_nat m) by lia. rewrite IH. lia.
Qed.

Lemma len_i16 v : len (i16_to_bytes v) = 2.
Proof. unfold len, i16_to_bytes. by rewrite length_le_bytes. Qed.
Lemma len_i8 v : len (i8_to_bytes v) = 1.
Proof. unfold len, i8_to_bytes. by rewrite length_le_bytes. Qed.

Lemma len_channel_bytes n c : 0 ≤ n → len (channel_bytes n c) = 1 + 2 * n.
Proof.
  intros Hn. unfold channel_bytes. rewrite len_app, len_i8, (len_concat_chunks _ 2) by (done || (intros; apply len_i16)).
  lia.
Qed.

Section codec.
Context (LB N_CH MAX : Z) (HLB : 0 < LB) (HN : 0 ≤ N_CH) (HMAX : 0 ≤ MAX ≤ num_max LB).

(** A packet of the declared shape, with 16-bit samples and 8-bit exponents. *)
Record q15_ok (q : Q15XL) : Prop := {
  ok_num : 0 ≤ num_samples q ≤ MAX;
  ok_channels : len (channels q) = N_CH;
  ok_values : ∀ c, c ∈ channels q → len (values c) = MAX;
  ok_exponent : ∀ c, c ∈ channels q → - 2 ^ 7 ≤ exponent c < 2 ^ 7;
  ok_samples : ∀ c v, c ∈ channels q → v ∈ values c → - 2 ^ 15 ≤ v < 2 ^ 15;
}.

Lemma num_bound : 0 < 256 ^ LB.
Proof using HLB. apply Z.pow_pos_nonneg; lia. Qed.

Lemma per_channel_run {S E} n (st : S) : 0 < n ≤ num_max LB →
  serialized_size_per_channel (E := E) LB n st = (Ok (1 + 2 * n), st).
Proof.
  intros Hn. unfold serialized_size_per_channel, assert, mbind, M_bind.
  rewrite (proj2 (Z.eqb_neq _ _)), (proj2 (Z.leb_le _ _)) by lia. done.
Qed.

Definition size_of (n : Z) : Z := if (N_CH =? 0) || (n =? 0) then 0 else LB + N_CH * (1 + 2 * n).

Lemma size_run {S E} n (st : S) : 0 ≤ n ≤ num_max LB →
  serialized_size_for (E := E) LB N_CH n st = (Ok (size_of n), st).
Proof.
  intros Hn. unfold serialized_size_for, size_of, assert, mbind, M_bind.
  destruct (Z.eqb_spec N_CH 0); [done|]. rewrite (proj2 (Z.leb_le _ _)) by lia.
  cbn [mret M_ret orb]. destruct (Z.eqb_spec n 0); [done|]. by rewrite per_channel_run by lia.
Qed.

Lemma channel_lookup q ch : q15_ok q → 0 ≤ ch < N_CH →
  channels q !! Z.to_nat ch = Some (channel_at q ch) ∧ channel_at q ch ∈ channels q.
Proof.
  intros Hq Hch. destruct (lookup_lt_is_Some_2 (channels q) (Z.to_nat ch)) as [c Hc].
  { pose proof (ok_channels _ Hq). unfold len in *. lia. }
  unfold channel_at. rewrite Hc. split; [done|]. by eapply list_elem_of_lookup_2.
Qed.

Lemma sample_lookup q c spl : q15_ok q → c ∈ channels q → 0 ≤ spl < num_samples q →
  values c !! Z.to_nat spl = Some (sample_at c spl) ∧ sample_at c spl ∈ values c.
Proof.
  intros Hq Hc Hs. destruct (lookup_lt_is_Some_2 (values c) (Z.to_nat spl)) as [v Hv].
  { pose proof (ok_values _ Hq c Hc). pose proof (ok_num _ Hq). unfold len in *. lia. }
  unfold sample_at. rewrite Hv. split; [done|]. by eapply list_elem_of_lookup_2.
Qed.

(** ** Writing *)

Lemma write_channel_run q ch p x s :
  q15_ok q → 0 ≤ ch < N_CH → 0 < num_samples q →
  len p = LB + (1 + 2 * num_samples q) * ch → len x = 1 + 2 * num_samples q →
  write_channel LB q (1 + 2 * num_samples q) ch (p ++ x ++ s) =
    (Ok tt, p ++ channel_bytes (num_samples q) (channel_at q ch) ++ s).
Proof.
  intros Hq Hch Hn Hp Hx. destruct (channel_lookup q ch Hq Hch) as [Hl Hin].
  destruct x as [|x0 x]; [unfold len in Hx; cbn in Hx; lia|].
  unfold write_channel, mbind, M_bind. rewrite (index_run _ _ _ _ Hl).
  change ((x0 :: x) ++ s) with ([x0] ++ x ++ s).
  rewrite put_slice_app; [|lia|by unfold i8_to_bytes; rewrite length_le_bytes].
  rewrite (assoc_L (++) p), len_cons in *.
  rewrite <-(Z2Nat.id (num_samples q)) by lia.
  rewrite (for_each_chunks _ (λ spl, i16_to_bytes (sample_at (channel_at q ch) spl)) (LB + ch * (1 + 2 * num_samples q) + 1) 2
    (Z.to_nat (num_samples q))).
  - unfold channel_bytes. rewrite Z2Nat.id by lia. by rewrite <-!(assoc_L (++)).
  - lia.
  - rewrite len_app, len_i8. lia.
  - lia.
  - intros. apply len_i16.
  - intros j p' x' s' Hj Hp' Hx'. rewrite Z2Nat.id in Hj by lia.
    destruct (sample_lookup q _ j Hq Hin ltac:(lia)) as [Hv _]. rewrite (index_run _ _ _ _ Hv).
    apply put_slice_app; [lia|]. unfold i16_to_bytes. rewrite length_le_bytes. unfold len in Hx'. lia.
Qed.

Lemma len_packet q : q15_ok q → 0 < num_samples q → 0 < N_CH → len (packet LB N_CH q) = size_of (num_samples q).
Proof using HLB HN.
  intros Hq Hn HN0. unfold packet, size_of. rewrite len_app, (len_concat_chunks _ (1 + 2 * num_samples q)).
  - unfold len. rewrite length_le_bytes. rewrite !(proj2 (Z.eqb_neq _ _)) by lia. cbn [orb]. lia.
  - lia.
  - intros j. apply len_channel_bytes. lia.
Qed.

Lemma to_bytes_run q buf :
  q15_ok q → 0 < num_samples q → 0 < N_CH → size_of (num_samples q) ≤ len buf →
  to_bytes LB N_CH q buf =
    (Ok (slice LB (size_of (num_samples q)) (packet LB N_CH q)),
     packet LB N_CH q ++ drop (Z.to_nat (size_of (num_samples q))) buf).
Proof using HLB HN HMAX.
  intros Hq Hn HN0 Hlen. pose proof (ok_num _ Hq) as Hnum. set (n := num_samples q) in *.
  assert (size_of n = LB + N_CH * (1 + 2 * n)) as Hsize
    by (unfold size_of; by rewrite !(proj2 (Z.eqb_neq _ _)) by lia).
  unfold to_bytes, serialized_size, mbind, M_bind, gets. fold n. rewrite size_run by lia.
  rewrite (proj2 (Z.ltb_ge _ _)), !(proj2 (Z.eqb_neq _ _)) by lia. cbn [orb].
  set (body := slice LB (size_of n) buf). set (rest := drop (Z.to_nat (size_of n)) buf).
  assert (buf = [] ++ take (Z.to_nat LB) buf ++ (body ++ rest)) as Hbuf.
  { cbn. rewrite <-(take_drop (Z.to_nat LB) buf) at 1. f_equal.
    rewrite <-(take_drop (Z.to_nat (size_of n - LB)) (drop (Z.to_nat LB) buf)) at 1. unfold body, slice. f_equal.
    rewrite drop_drop. unfold rest. f_equal. lia. }
  assert (len body = (1 + 2 * n) * N_CH) as Hbody by (unfold body; rewrite len_slice by lia; lia).
  rewrite Hbuf at 1. rewrite put_slice_app;
    [|done|rewrite length_le_bytes; unfold len in Hlen; rewrite length_take; lia].
  cbn [app]. rewrite per_channel_run by lia. rewrite <-(Z2Nat.id N_CH) at 1 by lia.
  rewrite (for_each_chunks _ (λ ch, channel_bytes n (channel_at q ch)) LB (1 + 2 * n) (Z.to_nat N_CH)).
  - rewrite Z2Nat.id by lia. unfold get_slice. rewrite (assoc_L (++)). fold n.
    change (le_bytes (Z.to_nat LB) n ++ _) with (packet LB N_CH q).
    pose proof (len_packet q Hq Hn HN0) as Hpl. fold n in Hpl. rewrite len_app, Hpl. pose proof (len_nonneg rest).
    rewrite !(proj2 (Z.leb_le _ _)) by lia. cbn [andb]. do 2 f_equal.
    unfold slice. rewrite skipn_app, take_app_le; [done|]. rewrite length_drop. unfold len in Hpl. lia.
  - lia.
  - unfold len. rewrite length_le_bytes. lia.
  - lia.
  - intros. apply len_channel_bytes. lia.
  - intros j p x s' Hj. rewrite Z2Nat.id in Hj by lia. apply write_channel_run; [done|lia|done].
Qed.

(** ** Reading *)

Lemma byte_lookup (src : list Z) i : 0 ≤ i < len src → src !! Z.to_nat i = Some (byte_at src i).
Proof.
  intros Hi. destruct (lookup_lt_is_Some_2 src (Z.to_nat i)) as [b Hb]; [unfold len in *; lia|].
  unfold byte_at. by rewrite Hb.
Qed.

Lemma slice_tail_lookup (src : list Z) i : 0 ≤ i → slice 1 (len src) src !! Z.to_nat i = src !! Z.to_nat (1 + i).
Proof.
  intros Hi. unfold slice, len. destruct (decide (Z.to_nat i < length src - 1)%nat) as [Hlt|Hge].
  - rewrite lookup_take_lt by lia. rewrite lookup_drop. f_equal. lia.
  - rewrite lookup_ge_None_2 by (rewrite length_take, length_drop; lia).
    by rewrite lookup_ge_None_2 by lia.
Qed.

Lemma read_channel_run n ch chs bytes :
  0 < n ≤ MAX → 0 ≤ ch → chs !! Z.to_nat ch = Some (empty_channel MAX) →
  LB + (ch + 1) * (1 + 2 * n) ≤ len bytes →
  read_channel LB n (1 + 2 * n) chs ch bytes =
    (Ok (<[Z.to_nat ch := decode_channel n MAX (slice (LB + ch * (1 + 2 * n)) (LB + (ch + 1) * (1 + 2 * n)) bytes)]> chs),
     bytes).
Proof using HLB.
  intros Hn Hch Hc Hlen. unfold read_channel, mbind, M_bind. rewrite get_slice_run by lia.
  rewrite (index_run _ _ _ _ Hc). set (src := slice _ _ bytes).
  assert (len src = 1 + 2 * n) as Hsrc by (unfold src; rewrite len_slice by lia; lia).
  cbn [values empty_channel]. set (init := replicate (Z.to_nat MAX) 0).
  assert (len init = MAX) as Hinit by (unfold init, len; rewrite length_replicate; lia).
  pose proof (fold_inserts (read_sample (slice Q15_OVERHEAD_PER_CHANNEL (len src) src))
    (λ spl, i16_from_bytes [byte_at src (1 + 2 * spl); byte_at src (2 + 2 * spl)])
    init bytes (Z.to_nat n) 0 []) as Hfold.
  rewrite Z2Nat.id in Hfold by lia. change (Z.to_nat 0) with 0%nat in Hfold. rewrite drop_0 in Hfold. cbn [app] in Hfold.
  rewrite Hfold; [|done|lia|lia|].
  - unfold decode_channel, init. rewrite drop_replicate.
    by replace (Z.to_nat MAX - Z.to_nat (0 + n))%nat with (Z.to_nat (MAX - n)) by lia.
  - intros j dst Hj Hd _. unfold read_sample, mbind, M_bind, Q15_OVERHEAD_PER_CHANNEL.
    rewrite (index_run _ _ (byte_at src (1 + 2 * j))) by (rewrite slice_tail_lookup by lia; apply byte_lookup; lia).
    rewrite (index_run _ _ (byte_at src (2 + 2 * j))).
    2: { rewrite slice_tail_lookup by lia. replace (1 + (2 * j + 1)) with (2 + 2 * j) by lia. apply byte_lookup. lia. }
    destruct (lookup_lt_is_Some_2 dst (Z.to_nat j)) as [v Hv]; [unfold len in *; lia|].
    by rewrite (index_run _ _ _ _ Hv).
Qed.

Definition len_field (bytes : list Z) : Z := if LB <=? len bytes then le_val (slice 0 LB bytes) else 0.

(** What [from_bytes] computes on any input. *)
Definition decode (bytes : list Z) : outcome DeserializeError Q15XL :=
  let n := len_field bytes in
  if MAX <? n then Err (TooManySamples n MAX)
  else if 0 <? n then
    if len bytes <? size_of n then Err (BufferUnexpectedEnd (size_of n))
    else Ok (mkQ15 n ((λ ch, decode_channel n MAX
               (slice (LB + ch * (1 + 2 * n)) (LB + (ch + 1) * (1 + 2 * n)) bytes)) <$> seqZ 0 N_CH))
  else Ok (mkQ15 0 (replicate (Z.to_nat N_CH) (empty_channel MAX))).

Lemma from_bytes_run bytes : from_bytes LB N_CH MAX bytes = (decode bytes, bytes).
Proof using HLB HN HMAX.
  unfold from_bytes, decode, mbind, M_bind, gets. fold (len_field bytes). set (n := len_field bytes).
  destruct (Z.ltb_spec MAX n); [done|]. destruct (Z.ltb_spec 0 n); [|done].
  rewrite size_run by lia. destruct (Z.ltb_spec (len bytes) (size_of n)) as [?|Hlen]; [done|].
  rewrite per_channel_run by lia. set (init := replicate _ _).
  assert (len init = N_CH) as Hinit by (unfold init, len; rewrite length_replicate; lia).
  pose proof (fold_inserts (read_channel LB n (1 + 2 * n))
    (λ ch, decode_channel n MAX (slice (LB + ch * (1 + 2 * n)) (LB + (ch + 1) * (1 + 2 * n)) bytes))
    init bytes (Z.to_nat N_CH) 0 []) as Hfold.
  rewrite Z2Nat.id in Hfold by lia. change (Z.to_nat 0) with 0%nat in Hfold. rewrite drop_0 in Hfold. cbn [app] in Hfold.
  rewrite Hfold; [|done|lia|lia|].
  - rewrite drop_ge by (unfold len in Hinit; lia). by rewrite app_nil_r.
  - intros j dst Hj Hd Hdj. apply read_channel_run; [lia|lia| |].
    + rewrite Hdj. unfold init. apply lookup_replicate. split; [done|lia].
    + unfold size_of in Hlen. rewrite !(proj2 (Z.eqb_neq _ _)) in Hlen by lia. cbn [orb] in Hlen. nia.
Qed.
End codec.

(** ** Round trip *)

Lemma concat_chunk (f : Z → list Z) w off p s j k :
  0 ≤ w → (∀ i, len (f i) = w) → len p = off → 0 ≤ j < k →
  slice (off + j * w) (off + (j + 1) * w) (p ++ concat (f <$> seqZ 0 k) ++ s) = f j.
Proof.
  intros Hw Hf Hp Hj. replace k with (j + (1 + (k - j - 1))) by lia.
  rewrite !seqZ_app, !fmap_app, !concat_app by lia. rewrite <-!(assoc_L (++)).
  rewrite (assoc_L (++) p), Z.add_0_l.
  assert (seqZ j 1 = [j]) as -> by (rewrite seqZ_cons by lia; done).
  cbn [fmap list_fmap]. replace (concat [f j]) with (f j) by (cbn [concat]; by rewrite app_nil_r).
  apply slice_mid; rewrite len_app, (len_concat_chunks f w) by (done || lia); rewrite ?Hf; lia.
Qed.

Lemma slice_two (src : list Z) i :
  0 ≤ i → i + 2 ≤ len src → slice i (i + 2) src = [byte_at src i; byte_at src (i + 1)].
Proof.
  intros Hi Hl. pose proof (byte_lookup src i ltac:(lia)) as H0. pose proof (byte_lookup src (i + 1) ltac:(lia)) as H1.
  unfold slice. replace (Z.to_nat (i + 2 - i)) with 2%nat by lia.
  rewrite (drop_S _ _ _ H0). replace (Z.to_nat (i + 1)) with (S (Z.to_nat i)) in H1 by lia.
  by rewrite (drop_S _ _ _ H1).
Qed.

Lemma decode_channel_bytes n MAX c :
  0 ≤ n → - 2 ^ 7 ≤ exponent c < 2 ^ 7 → (∀ spl, 0 ≤ spl < n → - 2 ^ 15 ≤ sample_at c spl < 2 ^ 15) →
  decode_channel n MAX (channel_bytes n c) = truncate_channel n MAX c.
Proof.
  intros Hn He Hs. unfold decode_channel, truncate_channel. f_equal; [|f_equal].
  - unfold channel_bytes. rewrite slice_app_l by (by rewrite len_i8). by apply i8_roundtrip.
  - apply list_fmap_ext. intros i spl Hi. apply lookup_seqZ in Hi as [-> Hi].
    pose proof (slice_two (channel_bytes n c) (1 + 2 * (0 + Z.of_nat i))) as H2.
    rewrite len_channel_bytes in H2 by done. specialize (H2 ltac:(lia) ltac:(lia)).
    replace (1 + 2 * (0 + Z.of_nat i) + 1) with (2 + 2 * (0 + Z.of_nat i)) in H2 by lia. rewrite <-H2.
    unfold channel_bytes. rewrite <-(app_nil_r (concat _)).
    replace (1 + 2 * (0 + Z.of_nat i)) with (1 + Z.of_nat i * 2) by lia.
    replace (1 + Z.of_nat i * 2 + 2) with (1 + (Z.of_nat i + 1) * 2) by lia.
    rewrite (concat_chunk _ 2 1); [|lia|intros; apply len_i16|apply len_i8|lia].
    apply i16_roundtrip. apply Hs. lia.
Qed.
