(* ===== verification/SamplesProps.v ===== *)
(** * Properties of the sample packets

    Round trip, robustness against any input, and the size computation of the
    codec of [samples/q15xl.rs] and [samples/q15.rs], for both widths of the
    length field. *)

From stdpp Require Import base list list_numbers numbers option.
From S2P Require Import Prelude Samples SamplesFacts.

Section props.
Context (LB N_CH MAX : Z) (HLB : 0 < LB) (HN : 0 < N_CH) (HMAX : 0 ≤ MAX ≤ num_max LB).

(** What arrives: the valid samples, and nothing of a packet without samples. *)
Definition received (q : Q15XL) : Q15XL :=
  if num_samples q =? 0 then mkQ15 0 (replicate (Z.to_nat N_CH) (empty_channel MAX))
  else truncate N_CH MAX q.

Definition payload (q : Q15XL) : list Z := if num_samples q =? 0 then [] else packet LB N_CH q.

Definition header (u : Uniform) : list Z := le_bytes 8 (u_t u mod 2 ^ 64) ++ le_bytes 4 (u_fs u).

Record uniform_ok (u : Uniform) : Prop := {
  uo_t : - 2 ^ 63 ≤ u_t u < 2 ^ 63;
  uo_fs : is_u32 (u_fs u);
  uo_data : q15_ok N_CH MAX (u_data u);
}.

Lemma len_payload q : q15_ok N_CH MAX q → len (payload q) = size_of LB N_CH (num_samples q).
Proof using HLB HN.
  intros Hq. unfold payload. destruct (Z.eqb_spec (num_samples q) 0) as [->|Hne].
  - unfold size_of. by rewrite orb_true_r.
  - pose proof (ok_num _ _ _ Hq). apply (len_packet LB N_CH MAX); done || lia.
Qed.

Lemma len_header u : len (header u) = 12.
Proof. unfold header, len. by rewrite length_app, !length_le_bytes. Qed.

Lemma decode_packet q s :
  q15_ok N_CH MAX q → 0 < num_samples q → decode LB N_CH MAX (packet LB N_CH q ++ s) = Ok (truncate N_CH MAX q).
Proof using HLB HN HMAX.
  intros Hq Hn. pose proof (ok_num _ _ _ Hq) as Hnum. set (n := num_samples q) in *.
  assert (len_field LB (packet LB N_CH q ++ s) = n) as Hf.
  { unfold len_field, packet. rewrite <-(assoc_L (++)), slice_app_l, len_app by (unfold len; rewrite length_le_bytes; lia).
    unfold len at 1. rewrite length_le_bytes. pose proof (len_nonneg (concat ((λ ch, channel_bytes n (channel_at q ch)) <$> seqZ 0 N_CH) ++ s)).
    fold n. rewrite (proj2 (Z.leb_le _ _)) by lia. apply le_val_le_bytes_small.
    rewrite Z2Nat.id by lia. unfold num_max in HMAX. lia. }
  assert (len (packet LB N_CH q) = size_of LB N_CH n) as Hl by (by apply (len_packet LB N_CH MAX); lia || done).
  unfold decode. rewrite Hf, len_app, Hl. pose proof (len_nonneg s).
  rewrite (proj2 (Z.ltb_ge MAX n)), (proj2 (Z.ltb_lt 0 n)), (proj2 (Z.ltb_ge (size_of LB N_CH n + len s) _)) by lia.
  unfold truncate. fold n. do 2 f_equal. apply list_fmap_ext. intros i ch Hi. apply lookup_seqZ in Hi as [-> Hi].
  destruct (channel_lookup N_CH MAX q (0 + Z.of_nat i) Hq ltac:(lia)) as [_ Hin].
  unfold packet. fold n. rewrite <-(assoc_L (++)).
  rewrite (concat_chunk _ (1 + 2 * n) LB); [|lia|intros; apply len_channel_bytes; lia|unfold len; rewrite length_le_bytes; lia|lia].
  apply decode_channel_bytes; [lia|by apply (ok_exponent _ _ _ Hq)|].
  intros spl Hs. destruct (sample_lookup N_CH MAX q _ spl Hq Hin Hs) as [_ Hv]. by apply (ok_samples _ _ _ Hq _ _ Hin).
Qed.

Lemma from_payload q : q15_ok N_CH MAX q → from_bytes LB N_CH MAX (payload q) = (Ok (received q), payload q).
Proof using HLB HN HMAX.
  intros Hq. rewrite from_bytes_run by lia. f_equal. unfold payload, received. pose proof (ok_num _ _ _ Hq).
  destruct (Z.eqb_spec (num_samples q) 0).
  - unfold decode, len_field. rewrite (proj2 (Z.leb_gt LB (len []))) by (unfold len; cbn; lia).
    by rewrite (proj2 (Z.ltb_ge MAX 0)) by lia.
  - rewrite <-(app_nil_r (packet _ _ _)). apply decode_packet; [done|lia].
Qed.

Lemma size_le n : 0 ≤ n → 0 ≤ size_of LB N_CH n.
Proof using HLB HN. intros. unfold size_of. destruct (_ || _); nia. Qed.

Lemma uniform_size_run {S E} n (st : S) :
  0 ≤ n ≤ num_max LB → 12 + size_of LB N_CH n ≤ MAX_MESSAGE_LEN →
  uniform_serialized_size_for (E := E) LB N_CH n st = (Ok (12 + size_of LB N_CH n), st).
Proof using HN.
  intros Hn Hs. unfold uniform_serialized_size_for, mbind, M_bind. rewrite size_run by lia.
  unfold assert, UNIFORM_HEADER_OVERHEAD. by rewrite (proj2 (Z.leb_le _ _)) by lia.
Qed.

(** The payload goes into the sub-slice behind the header. *)
Lemma to_bytes_sub q sub :
  q15_ok N_CH MAX q → len sub = size_of LB N_CH (num_samples q) →
  ∃ r, to_bytes LB N_CH q sub = (Ok r, payload q).
Proof using HLB HN HMAX.
  intros Hq Hl. pose proof (ok_num _ _ _ Hq). unfold payload. destruct (Z.eqb_spec (num_samples q) 0) as [E|E].
  - assert (sub = []) as ->.
    { unfold size_of in Hl. rewrite E, orb_true_r in Hl. apply length_zero_iff_nil. unfold len in Hl. lia. }
    exists []. unfold to_bytes, serialized_size, mbind, M_bind, gets. rewrite size_run by lia.
    unfold size_of. by rewrite E, orb_true_r.
  - rewrite (to_bytes_run LB N_CH MAX) by (done || lia). rewrite drop_ge by (unfold len in Hl; lia).
    rewrite app_nil_r. eauto.
Qed.

Lemma as_topic_data_run u buf :
  uniform_ok u → 12 + size_of LB N_CH (num_samples (u_data u)) ≤ MAX_MESSAGE_LEN →
  12 + size_of LB N_CH (num_samples (u_data u)) ≤ len buf →
  ∃ rest, as_topic_data LB N_CH u buf =
      (Ok (header u ++ payload (u_data u)), (header u ++ payload (u_data u)) ++ rest) ∧
    12 + size_of LB N_CH (num_samples (u_data u)) + len rest = len buf.
Proof using HLB HN HMAX.
  intros [_ _ Hq] Hmax Hlen. pose proof (ok_num _ _ _ Hq) as Hnum. set (sz := size_of _ _ _) in *.
  assert (0 ≤ sz) as Hsz by (apply size_le; lia).
  unfold as_topic_data, uniform_serialized_size, mbind, M_bind, gets.
  rewrite uniform_size_run by lia. fold sz. rewrite (proj2 (Z.ltb_ge _ _)) by lia.
  set (h0 := slice 0 8 buf). set (h1 := slice 8 12 buf). set (body := slice 12 (12 + sz) buf).
  set (rest := drop (Z.to_nat (12 + sz)) buf).
  assert (buf = h0 ++ h1 ++ body ++ rest) as Hbuf.
  { unfold h0, h1, body, rest, slice. rewrite drop_0.
    rewrite <-(take_drop 8 buf) at 1. f_equal. rewrite <-(take_drop 4 (drop 8 buf)) at 1. f_equal.
    rewrite drop_drop. rewrite <-(take_drop (Z.to_nat (12 + sz - 12)) (drop _ buf)) at 1. f_equal.
    rewrite drop_drop. f_equal. lia. }
  assert (length h0 = 8%nat) as Hh0 by (unfold h0; rewrite length_slice by lia; done).
  assert (length h1 = 4%nat) as Hh1 by (unfold h1; rewrite length_slice by lia; done).
  assert (len body = sz) as Hbody by (unfold body; rewrite len_slice by lia; lia).
  rewrite Hbuf. change (h0 ++ h1 ++ body ++ rest) with ([] ++ h0 ++ (h1 ++ body ++ rest)).
  rewrite put_slice_app by (done || by rewrite length_le_bytes). cbn [app].
  rewrite put_slice_app by (done || (rewrite length_le_bytes; done) || (unfold len; by rewrite length_le_bytes)).
  rewrite (assoc_L (++)). fold (header u). unfold zoom.
  rewrite slice_mid by (rewrite ?len_header; lia).
  destruct (to_bytes_sub (u_data u) body Hq Hbody) as [r ->].
  rewrite splice_app by (apply len_header || (pose proof (len_payload _ Hq); unfold len in *; lia)).
  rewrite get_slice_run, (assoc_L (++)).
  - rewrite slice_app_l by (by rewrite len_app, len_header, len_payload). exists rest. split; [done|].
    rewrite !len_app, Hbody. unfold len. rewrite Hh0, Hh1. unfold sz. lia.
  - rewrite !len_app, len_header, len_payload by done. pose proof (len_nonneg rest). fold sz. lia.
Qed.

Lemma from_topic_run bytes :
  12 ≤ len bytes →
  from_topic_data LB N_CH MAX bytes =
    (match decode LB N_CH MAX (slice 12 (len bytes) bytes) with
     | Ok d =>
         let u := mkUniform (to_signed 64 (le_val (slice 0 8 bytes))) (le_val (slice 8 12 bytes)) d in
         if verify u then Ok u else Err PE_Invalid
     | Err e => Err (PE_Deserialize e)
     | Panic => Panic
     end, bytes).
Proof using HLB HN HMAX.
  intros Hl. unfold from_topic_data, mbind, M_bind, gets, map_err, zoom.
  rewrite uniform_size_run by (unfold size_of, MAX_MESSAGE_LEN; rewrite ?orb_true_r; lia).
  replace (12 + size_of LB N_CH 0) with 12 by (unfold size_of; by rewrite orb_true_r).
  rewrite (proj2 (Z.ltb_ge _ _)) by lia. rewrite !get_slice_run by lia. rewrite from_bytes_run by lia.
  destruct (decode _ _ _ _); [|done..]. by destruct (verify _).
Qed.

Lemma from_topic_short bytes : len bytes < 12 → from_topic_data LB N_CH MAX bytes = (Err PE_BufferTooSmall, bytes).
Proof using HLB HN HMAX.
  intros Hl. unfold from_topic_data, mbind, M_bind, gets.
  rewrite uniform_size_run by (unfold size_of, MAX_MESSAGE_LEN; rewrite ?orb_true_r; lia).
  unfold size_of. by rewrite orb_true_r, (proj2 (Z.ltb_lt _ _)) by lia.
Qed.

Lemma received_run u :
  uniform_ok u → verify u = true → 12 + size_of LB N_CH (num_samples (u_data u)) ≤ MAX_MESSAGE_LEN →
  let out := header u ++ payload (u_data u) in
  from_topic_data LB N_CH MAX out = (Ok (mkUniform (u_t u) (u_fs u) (received (u_data u))), out).
Proof using HLB HN HMAX.
  intros Hu Hv Hmax out. pose proof Hu as [Ht Hfs Hq]. pose proof (ok_num _ _ _ Hq).
  pose proof (size_le (num_samples (u_data u)) ltac:(lia)).
  assert (len out = 12 + size_of LB N_CH (num_samples (u_data u))) as Hl
    by (unfold out; by rewrite len_app, len_header, len_payload).
  rewrite from_topic_run by lia. unfold out in *.
  rewrite slice_app_r by (rewrite ?len_header, ?len_app, ?len_header; lia).
  pose proof (from_payload _ Hq) as Hd. rewrite from_bytes_run in Hd by lia. injection Hd as ->.
  unfold header. rewrite <-!(assoc_L (++)), slice_app_l by (unfold len; by rewrite length_le_bytes).
  rewrite slice_mid by (unfold len; rewrite !length_le_bytes; lia).
  rewrite le_val_le_bytes, Z.mod_mod, to_signed_mod by (done || lia).
  rewrite le_val_le_bytes_small by apply Hfs. cbv zeta. unfold verify in *. cbn [u_t u_fs]. by rewrite Hv.
Qed.

Lemma roundtrip_run u buf :
  uniform_ok u → verify u = true →
  12 + size_of LB N_CH (num_samples (u_data u)) ≤ MAX_MESSAGE_LEN →
  12 + size_of LB N_CH (num_samples (u_data u)) ≤ len buf →
  ∃ out buf', as_topic_data LB N_CH u buf = (Ok out, buf') ∧
    len out = 12 + size_of LB N_CH (num_samples (u_data u)) ∧
    from_topic_data LB N_CH MAX out = (Ok (mkUniform (u_t u) (u_fs u) (received (u_data u))), out).
Proof using HLB HN HMAX.
  intros Hu Hv Hmax Hlen.
  destruct (as_topic_data_run u buf Hu Hmax Hlen) as (rest & Hrun & _). eexists _, _. split; [exact Hrun|].
  split; [by rewrite len_app, len_header, len_payload by apply Hu|]. by apply received_run.
Qed.

Lemma max_num_fits buffer_size n :
  0 < n → n ≤ max_num_input_samples LB N_CH buffer_size ↔ 12 + (LB + N_CH * (1 + 2 * n)) ≤ buffer_size.
Proof using HLB HN.
  intros Hpos. unfold max_num_input_samples, UNIFORM_HEADER_OVERHEAD, Q15_OVERHEAD_PER_CHANNEL, Q15_BYTES_PER_SAMPLE.
  rewrite (proj2 (Z.eqb_neq N_CH 0)), orb_false_r by lia.
  destruct (Z.ltb_spec buffer_size (8 + 4 + LB)); [split; [lia|nia]|].
  destruct (Z.ltb_spec (buffer_size - (8 + 4 + LB)) (N_CH * (1 + 2))); [split; [lia|nia]|].
  set (a := buffer_size - (8 + 4 + LB)). pose proof (Z.div_mod a N_CH ltac:(lia)).
  pose proof (Z.mod_pos_bound a N_CH HN). pose proof (Z.div_mod (a / N_CH - 1) 2 ltac:(lia)).
  pose proof (Z.mod_pos_bound (a / N_CH - 1) 2 ltac:(lia)).
  split; intros Hle.
  - assert (N_CH * (1 + 2 * n) ≤ N_CH * (a / N_CH)) by (apply Z.mul_le_mono_nonneg_l; lia). unfold a in *. lia.
  - assert (1 + 2 * n ≤ a / N_CH) by (apply Z.div_le_lower_bound; unfold a; lia). lia.
Qed.

(** ** The claims *)

(** Round trip.  A packet with a valid timestamp and sampling frequency
    that respects the message limit is serialized into any buffer of that
    size, and what is parsed from the bytes is the packet: same timestamp,
    same frequency, same exponents and the same samples of every channel. *)
Theorem topic_data_roundtrip u buf :
  uniform_ok u → verify u = true →
  12 + size_of LB N_CH (num_samples (u_data u)) ≤ MAX_MESSAGE_LEN →
  12 + size_of LB N_CH (num_samples (u_data u)) ≤ len buf →
  ∃ out buf', as_topic_data LB N_CH u buf = (Ok out, buf') ∧
    len out = 12 + size_of LB N_CH (num_samples (u_data u)) ∧
    from_topic_data LB N_CH MAX out = (Ok (mkUniform (u_t u) (u_fs u) (received (u_data u))), out).
Proof using HLB HN HMAX. apply roundtrip_run. Qed.

(** Robustness.  Whatever bytes arrive, parsing returns (no panic, no read
    out of bounds); a packet it accepts has a positive timestamp and frequency
    and the declared shape. *)
Theorem from_topic_data_total bytes :
  ∃ r, from_topic_data LB N_CH MAX bytes = (r, bytes) ∧ r ≠ Panic ∧
    ∀ u, r = Ok u → verify u = true ∧ 0 ≤ num_samples (u_data u) ≤ MAX ∧
      len (channels (u_data u)) = N_CH ∧ Forall (λ c, len (values c) = MAX) (channels (u_data u)).
Proof using HLB HN HMAX.
  destruct (decide (12 ≤ len bytes)) as [Hl|Hl].
  2: { exists (Err PE_BufferTooSmall). split; [apply from_topic_short; lia|done]. }
  rewrite from_topic_run by done. eexists. split; [done|].
  unfold decode. set (n := len_field _ _). set (src := slice 12 _ bytes).
  destruct (Z.ltb_spec MAX n); [done|]. destruct (Z.ltb_spec 0 n).
  - destruct (_ <? _); [done|]. cbv zeta. destruct (verify _) eqn:Hv; [|done]. split; [done|].
    intros u [= <-]. split; [done|]. cbn [u_data num_samples channels]. split; [lia|]. split.
    + unfold len. rewrite length_fmap, length_seqZ. lia.
    + apply Forall_fmap, list.Forall_forall. intros ch _. unfold compose, decode_channel, len. cbn [values].
      rewrite length_app, length_fmap, length_seqZ, length_replicate. lia.
  - cbv zeta. destruct (verify _) eqn:Hv; [|done]. split; [done|]. intros u [= <-]. split; [done|].
    cbn [u_data num_samples channels]. split; [lia|]. split.
    + unfold len. rewrite length_replicate. lia.
    + apply Forall_replicate. unfold len. cbn. rewrite length_replicate. lia.
Qed.

(** [max_num_input_samples] is exact: that many samples fit the buffer
    and one more does not. *)
Theorem max_num_input_samples_exact buffer_size n :
  0 ≤ n ≤ num_max LB → 0 < n →
  n ≤ max_num_input_samples LB N_CH buffer_size ↔
  ∃ size, serialized_size_for (E := SerializeError) LB N_CH n [] = (Ok size, @nil Z) ∧
    UNIFORM_HEADER_OVERHEAD + size ≤ buffer_size.
Proof using HLB HN.
  intros Hn Hpos.
  rewrite max_num_fits by done.
  rewrite size_run by lia.
  assert (size_of LB N_CH n = LB + N_CH * (1 + 2 * n)) as ->
    by (unfold size_of; by rewrite !(proj2 (Z.eqb_neq _ _)) by lia).
  unfold UNIFORM_HEADER_OVERHEAD. split; [intros; eexists; split; [done|lia]|]. intros (sz & [= <-] & ?). lia.
Qed.

(** The slice that [to_bytes] returns leaves out the length field, which
    only the buffer holds: the buffer parses back to the packet, the slice
    returned is shorter by the width of the field. *)
Theorem to_bytes_returns_tail q buf :
  q15_ok N_CH MAX q → 0 < num_samples q → size_of LB N_CH (num_samples q) ≤ len buf →
  ∃ out buf', to_bytes LB N_CH q buf = (Ok out, buf') ∧
    from_bytes LB N_CH MAX buf' = (Ok (truncate N_CH MAX q), buf') ∧
    slice 0 (size_of LB N_CH (num_samples q)) buf' = le_bytes (Z.to_nat LB) (num_samples q) ++ out.
Proof using HLB HN HMAX.
  intros Hq Hn Hlen. pose proof (ok_num _ _ _ Hq). rewrite (to_bytes_run LB N_CH MAX) by (done || lia).
  pose proof (len_packet LB N_CH MAX HLB ltac:(lia) q Hq Hn HN) as Hl. eexists _, _. split; [done|]. split.
  - rewrite from_bytes_run by lia. f_equal. by apply decode_packet.
  - rewrite slice_app_l by done. unfold packet at 2. rewrite slice_app_r; [done|unfold len; rewrite length_le_bytes; lia|].
    rewrite <-len_app. exact (eq_sym Hl).
Qed.
End props.

(** The same round trip for the packets with a one-byte length field. *)
Theorem q15_topic_data_roundtrip N_CH MAX u buf :
  0 < N_CH → 0 ≤ MAX ≤ 255 → uniform_ok N_CH MAX u → verify u = true →
  12 + size_of 1 N_CH (num_samples (u_data u)) ≤ MAX_MESSAGE_LEN →
  12 + size_of 1 N_CH (num_samples (u_data u)) ≤ len buf →
  ∃ out buf', Q15.q15_as_topic_data N_CH u buf = (Ok out, buf') ∧
    Q15.q15_from_topic_data N_CH MAX out = (Ok (mkUniform (u_t u) (u_fs u) (received N_CH MAX (u_data u))), out).
Proof.
  intros HN HMAX Hu Hv Hmax Hlen.
  destruct (roundtrip_run 1 N_CH MAX ltac:(lia) HN HMAX u buf) as (out & buf' & ? & _ & ?); [done..|].
  by exists out, buf'.
Qed.

(** ** Instances: two channels of up to three samples, both widths. *)

Module DemoSamples.
Definition q : Q15XL := mkQ15 2 [mkChannel (-3) [100; -200; 7]; mkChannel 4 [-32768; 32767; 0]].
(** 1000.0 as [f32]. *)
Definition u : Uniform := mkUniform 1700000000000000 1148846080 q.
Definition buf : list Z := replicate 64 170.

Lemma q_ok : q15_ok 2 3 q.
Proof.
  assert (∀ c, c ∈ channels q → c = mkChannel (-3) [100; -200; 7] ∨ c = mkChannel 4 [-32768; 32767; 0]) as Hc.
  { intros c. cbn. rewrite !elem_of_cons, elem_of_nil. tauto. }
  split; [cbn; lia|done|..].
  - by intros c [-> | ->]%Hc.
  - intros c [-> | ->]%Hc; cbn; lia.
  - intros c v [-> | ->]%Hc; cbn; rewrite !elem_of_cons, elem_of_nil; lia.
Qed.

Lemma u_ok : uniform_ok 2 3 u.
Proof. split; [by vm_compute|by vm_compute|apply q_ok]. Qed.

Lemma topic_data_roundtrip_witness :
  ∃ out buf', as_topic_data 2 2 u buf = (Ok out, buf') ∧ len out = 24 ∧
    from_topic_data 2 2 3 out =
      (Ok (mkUniform 1700000000000000 1148846080
             (mkQ15 2 [mkChannel (-3) [100; -200; 0]; mkChannel 4 [-32768; 32767; 0]])), out).
Proof.
  apply (topic_data_roundtrip 2 2 3); [lia|lia|by vm_compute|apply u_ok|by vm_compute..].
Defined.

Lemma from_topic_data_total_witness :
  ∃ r, from_topic_data 1 2 3 [1; 2; 3; 4; 5; 6; 7; 0; 0; 0; 122; 68; 2; 9] =
    (r, [1; 2; 3; 4; 5; 6; 7; 0; 0; 0; 122; 68; 2; 9]) ∧ r ≠ Panic.
Proof.
  destruct (from_topic_data_total 1 2 3 ltac:(lia) ltac:(lia) ltac:(by vm_compute)
    [1; 2; 3; 4; 5; 6; 7; 0; 0; 0; 122; 68; 2; 9]) as (r & Hr & Hn & _). by exists r.
Defined.

Lemma max_num_input_samples_exact_witness :
  2 ≤ max_num_input_samples 2 2 25 ↔
  ∃ size, serialized_size_for (E := SerializeError) 2 2 2 [] = (Ok size, @nil Z) ∧
    UNIFORM_HEADER_OVERHEAD + size ≤ 25.
Proof. apply (max_num_input_samples_exact 2 2); [lia|lia|by vm_compute|lia]. Defined.

Lemma to_bytes_returns_tail_witness :
  ∃ out buf', to_bytes 1 2 q buf = (Ok out, buf') ∧
    from_bytes 1 2 3 buf' = (Ok (truncate 2 3 q), buf') ∧
    slice 0 (size_of 1 2 (num_samples q)) buf' = le_bytes (Z.to_nat 1) (num_samples q) ++ out.
Proof.
  apply (to_bytes_returns_tail 1 2 3); [lia|lia|by vm_compute|apply q_ok|by vm_compute|by vm_compute].
Defined.

Lemma q15_topic_data_roundtrip_witness :
  ∃ out buf', Q15.q15_as_topic_data 2 u buf = (Ok out, buf') ∧
    Q15.q15_from_topic_data 2 3 out = (Ok (mkUniform 1700000000000000 1148846080 (received 2 3 q)), out).
Proof. apply (q15_topic_data_roundtrip 2 3 u buf); [lia|lia|apply u_ok|by vm_compute..]. Defined.
End DemoSamples.
