(* ===== verification/Numeric.v ===== *)
(** * [i64] and [f32]

    The arithmetic of the sampling code.  An [i64] is a [Z] with the overflow
    checks written out.  An [f32] is a [spec_float] of the Standard Library with
    the parameters of IEEE binary32 (24-bit precision, exponents below 128):
    division and multiplication round to nearest even, and a cast to [i64]
    truncates and saturates, as Rust defines it. *)

From stdpp Require Import base list list_numbers numbers option.
From Stdlib Require Import SpecFloat.
From S2P Require Import Prelude.

(** ** [i64] *)

Definition i64_max : Z := 2 ^ 63 - 1.
Definition i64_min : Z := - 2 ^ 63.
Definition is_i64 (z : Z) : Prop := i64_min ≤ z ≤ i64_max.
Definition in_i64 (z : Z) : bool := (i64_min <=? z) && (z <=? i64_max).

(** [checked_add], [checked_mul]; plain operators panic on overflow. *)
Definition i64_checked (z : Z) : option Z := if in_i64 z then Some z else None.
Definition checked_mul (a b : Z) : option Z := i64_checked (a * b).
Definition checked_add (a b : Z) : option Z := i64_checked (a + b).

Definition i64_op {S E} (z : Z) : M S E Z := if in_i64 z then mret z else panic.
Definition i64_add {S E} (a b : Z) : M S E Z := i64_op (a + b).
Definition i64_sub {S E} (a b : Z) : M S E Z := i64_op (a - b).
Definition i64_mul {S E} (a b : Z) : M S E Z := i64_op (a * b).

Definition i64_saturate (z : Z) : Z := Z.max i64_min (Z.min i64_max z).
Definition i64_saturating_sub (a b : Z) : Z := i64_saturate (a - b).
Definition i64_saturating_mul (a b : Z) : Z := i64_saturate (a * b).
Definition i64_saturating_abs (a : Z) : Z := Z.min i64_max (Z.abs a).

(** ** [i32] and [u32] *)

Definition is_i32 (z : Z) : Prop := - 2 ^ 31 ≤ z < 2 ^ 31.
Definition as_i32 (z : Z) : Z := to_signed 32 (z mod 2 ^ 32).
Definition i32_op {S E} (z : Z) : M S E Z :=
  if (- 2 ^ 31 <=? z) && (z <? 2 ^ 31) then mret z else panic.
Definition u32_op {S E} (z : Z) : M S E Z :=
  if (0 <=? z) && (z <? 2 ^ 32) then mret z else panic.
Definition i32_saturating_sub (a b : Z) : Z := Z.max (- 2 ^ 31) (Z.min (2 ^ 31 - 1) (a - b)).
Definition i32_saturating_add (a b : Z) : Z := Z.max (- 2 ^ 31) (Z.min (2 ^ 31 - 1) (a + b)).
Definition clamp (lo hi z : Z) : Z := Z.max lo (Z.min hi z).

(** ** [f32] *)

Notation f32 := spec_float.
Definition f32_div : f32 → f32 → f32 := SFdiv 24 128.
Definition f32_mul : f32 → f32 → f32 := SFmul 24 128.
Definition f32_add : f32 → f32 → f32 := SFadd 24 128.
Definition f32_sub : f32 → f32 → f32 := SFsub 24 128.
(** [n as f32] *)
Definition f32_of_int (n : Z) : f32 := binary_normalize 24 128 n 0 false.
Definition f32_nan : f32 := S754_nan.
(** The literal [1e6]. *)
Definition f32_1e6 : f32 := f32_of_int 1000000.

Definition is_nan (x : f32) : bool := if x is S754_nan then true else false.
Definition is_finite (x : f32) : bool :=
  match x with S754_zero _ | S754_finite _ _ _ => true | _ => false end.
(** [x <= 0.0] *)
Definition le_zero (x : f32) : bool := SFleb x (S754_zero false).

(** [x as iN] and [x as uN] for the integer type with values [lo] to [hi]. *)
Definition f32_as (lo hi : Z) (x : f32) : Z :=
  match x with
  | S754_nan | S754_zero _ => 0
  | S754_infinity s => if s then lo else hi
  | S754_finite s m e =>
      let abs := if 0 <=? e then Z.pos m * 2 ^ e else Z.pos m / 2 ^ (- e) in
      Z.max lo (Z.min hi (if s then - abs else abs))
  end.
Definition f32_as_i64 : f32 → Z := f32_as i64_min i64_max.
Definition f32_as_i32 : f32 → Z := f32_as (- 2 ^ 31) (2 ^ 31 - 1).
Definition f32_as_u32 : f32 → Z := f32_as 0 (2 ^ 32 - 1).
Definition f32_as_i16 : f32 → Z := f32_as (- 2 ^ 15) (2 ^ 15 - 1).
Definition f32_as_i8 : f32 → Z := f32_as (- 2 ^ 7) (2 ^ 7 - 1).

(** [x.max(y)]: a NaN gives way. *)
Definition f32_max (x y : f32) : f32 :=
  if is_nan x then y else if is_nan y then x else if SFltb x y then y else x.

(** [x.to_bits()] and [f32::from_bits]; the model has one NaN. *)
Definition f32_to_bits (x : f32) : Z :=
  match x with
  | S754_nan => 255 * 2 ^ 23 + 2 ^ 22
  | S754_zero s => (if s then 2 ^ 31 else 0)
  | S754_infinity s => (if s then 2 ^ 31 else 0) + 255 * 2 ^ 23
  | S754_finite s m e =>
      (if s then 2 ^ 31 else 0) +
      (if Z.pos m <? 2 ^ 23 then Z.pos m else (e + 150) * 2 ^ 23 + (Z.pos m - 2 ^ 23))
  end.
Definition f32_from_bits (b : Z) : f32 :=
  let s := 2 ^ 31 <=? b in
  let e := b / 2 ^ 23 mod 256 in
  let m := b mod 2 ^ 23 in
  if e =? 255 then (if m =? 0 then S754_infinity s else S754_nan)
  else if e =? 0 then (if m =? 0 then S754_zero s else S754_finite s (Z.to_pos m) (-149))
  else S754_finite s (Z.to_pos (m + 2 ^ 23)) (e - 150).

(** The floating-point numbers of the format. *)
Definition f32_valid (x : f32) : Prop := valid_binary 24 128 x = true.

(** The sign bit; a NaN counts as positive. *)
Definition f32_sign (x : f32) : bool :=
  match x with
  | S754_nan => false
  | S754_zero s | S754_infinity s | S754_finite s _ _ => s
  end.

(** ** Lemmas *)

Lemma in_i64_spec z : in_i64 z = true ↔ is_i64 z.
Proof. unfold in_i64, is_i64. rewrite andb_true_iff, !Z.leb_le. done. Qed.

Lemma i64_checked_Some z y : i64_checked z = Some y ↔ y = z ∧ is_i64 z.
Proof.
  unfold i64_checked. rewrite <-in_i64_spec. destruct (in_i64 z); naive_solver.
Qed.

Lemma i64_checked_ok z : is_i64 z → i64_checked z = Some z.
Proof. intros ?. by apply i64_checked_Some. Qed.

Lemma i64_op_run {S E} z (s : S) : is_i64 z → i64_op (E := E) z s = (Ok z, s).
Proof. intros H%in_i64_spec. unfold i64_op. by rewrite H. Qed.

Lemma i32_op_run {S E} z (s : S) : is_i32 z → i32_op (E := E) z s = (Ok z, s).
Proof.
  unfold is_i32, i32_op. intros ?.
  by rewrite (proj2 (Z.leb_le _ _)), (proj2 (Z.ltb_lt _ _)) by lia.
Qed.

Lemma u32_op_run {S E} z (s : S) : 0 ≤ z < 2 ^ 32 → u32_op (E := E) z s = (Ok z, s).
Proof.
  unfold u32_op. intros ?. by rewrite (proj2 (Z.leb_le _ _)), (proj2 (Z.ltb_lt _ _)) by lia.
Qed.

Lemma as_i32_small z : is_i32 z → as_i32 z = z.
Proof. intros ?. unfold as_i32. by apply (to_signed_mod 32). Qed.

Lemma wp_i64_op {S E} z (Q : Z → S → Prop) (R : E → S → Prop) s :
  is_i64 z → Q z s → wp (i64_op z) Q R s.
Proof. intros H ?. unfold wp. by rewrite i64_op_run. Qed.

Lemma binary_round_aux_sign sx m e l : f32_sign (binary_round_aux 24 128 sx m e l) = true → sx = true.
Proof.
  unfold binary_round_aux. do 2 (destruct (shr_fexp _ _ _ _ _)).
  destruct (shr_m _); [done| |done]. by destruct (Z.leb _ _).
Qed.

Lemma f32_div_sign x y : f32_sign x = false → f32_sign y = false → f32_sign (f32_div x y) = false.
Proof.
  unfold f32_div. destruct x as [[]|[]| |[] mx ex], y as [[]|[]| |[] my ey]; try done.
  intros _ _. cbn [SFdiv xorb]. destruct (SFdiv_core_binary _ _ _ _ _ _) as [[q e] l].
  apply not_true_is_false. by intros ?%binary_round_aux_sign.
Qed.

Lemma f32_mul_sign x y : f32_sign x = false → f32_sign y = false → f32_sign (f32_mul x y) = false.
Proof.
  unfold f32_mul. destruct x as [[]|[]| |[] mx ex], y as [[]|[]| |[] my ey]; try done.
  intros _ _. cbn [SFmul xorb].
  apply not_true_is_false. by intros ?%binary_round_aux_sign.
Qed.

Lemma f32_of_int_sign n : 0 ≤ n → f32_sign (f32_of_int n) = false.
Proof.
  intros ?. unfold f32_of_int. destruct n as [|p|p]; [done| |lia].
  cbn [binary_normalize]. unfold binary_round. destruct (shl_align _ _ _).
  apply not_true_is_false. by intros ?%binary_round_aux_sign.
Qed.

Lemma f32_as_range lo hi x : lo ≤ 0 ≤ hi → lo ≤ f32_as lo hi x ≤ hi.
Proof. intros ?. destruct x as [|[]| |]; cbn [f32_as]; lia. Qed.

Lemma f32_as_i64_range x : is_i64 (f32_as_i64 x).
Proof. apply f32_as_range. done. Qed.

Lemma f32_as_nonneg lo hi x : lo ≤ 0 ≤ hi → f32_sign x = false → 0 ≤ f32_as lo hi x.
Proof.
  unfold f32_as, f32_sign. intros ? H. destruct x as [?|s| |s m e]; subst; try lia.
  case_match; [lia|]. pose proof (Z.div_pos (Z.pos m) (2 ^ - e)). lia.
Qed.

Lemma f32_as_i64_nonneg x : f32_sign x = false → 0 ≤ f32_as_i64 x.
Proof. by apply f32_as_nonneg. Qed.

(** ** Bit patterns *)

Lemma digits2_pos_bounds m : 2 ^ (Z.pos (digits2_pos m) - 1) ≤ Z.pos m < 2 ^ Z.pos (digits2_pos m).
Proof.
  induction m as [m IH|m IH|]; cbn [digits2_pos]; [| |done];
    (rewrite Pos2Z.inj_succ; replace (Z.succ _ - 1) with (Z.succ (Z.pos (digits2_pos m) - 1)) by lia;
     rewrite !Z.pow_succ_r by lia; lia).
Qed.

(** The mantissas and exponents of valid numbers. *)
Lemma f32_valid_finite s m e :
  f32_valid (S754_finite s m e) →
  Z.pos m < 2 ^ 24 ∧ -149 ≤ e ≤ 104 ∧ (Z.pos m < 2 ^ 23 → e = -149).
Proof.
  unfold f32_valid, valid_binary, bounded, canonical_mantissa, fexp, emin.
  intros [He%Zeq_bool_eq Hm%Z.leb_le]%andb_true_iff.
  pose proof (digits2_pos_bounds m) as [Hlo Hhi]. set (d := Z.pos (digits2_pos m)) in *.
  assert (d ≤ 24) by lia. split_and!; [|lia|lia|].
  - eapply Z.lt_le_trans; [exact Hhi|]. apply Z.pow_le_mono_r; lia.
  - intros Hs. destruct (decide (d ≤ 23)); [lia|]. assert (d = 24) as Hd by lia.
    rewrite Hd in Hlo. change (24 - 1) with 23 in Hlo. lia.
Qed.

(** Sign, exponent and mantissa fields of a bit pattern. *)
Lemma f32_fields (s : bool) e m :
  0 ≤ e < 256 → 0 ≤ m < 2 ^ 23 →
  let b := (if s then 2 ^ 31 else 0) + (e * 2 ^ 23 + m) in
  (2 ^ 31 <=? b) = s ∧ b / 2 ^ 23 mod 256 = e ∧ b mod 2 ^ 23 = m ∧ is_u32 b.
Proof.
  intros He Hm b. unfold is_u32, u32_size, b in *.
  assert (Hb : b = ((if s then 256 else 0) + e) * 2 ^ 23 + m) by (unfold b; destruct s; lia).
  fold b. rewrite Hb, Z.div_add_l, (Z.div_small m), Z.add_0_r by lia.
  rewrite Z.add_comm, Z.mod_add, (Z.mod_small m) by lia. split_and!; [..|done| |]; destruct s; try lia.
  - by replace (256 + e) with (e + 1 * 256) by lia; rewrite Z.mod_add, Z.mod_small by lia.
  - by rewrite Z.add_0_l, Z.mod_small by lia.
Qed.

Lemma f32_bits_fields x :
  f32_valid x → ∃ s e m, f32_to_bits x = (if s : bool then 2 ^ 31 else 0) + (e * 2 ^ 23 + m) ∧
    0 ≤ e < 256 ∧ 0 ≤ m < 2 ^ 23 ∧
    match x with
    | S754_nan => s = false ∧ e = 255 ∧ m = 2 ^ 22
    | S754_infinity sx => s = sx ∧ e = 255 ∧ m = 0
    | S754_zero sx => s = sx ∧ e = 0 ∧ m = 0
    | S754_finite sx mx ex => s = sx ∧ e ≠ 255 ∧
        if decide (e = 0) then m = Z.pos mx ∧ ex = -149 else m = Z.pos mx - 2 ^ 23 ∧ ex = e - 150
    end.
Proof.
  intros Hv. destruct x as [s|s| |s mx ex]; [exists s, 0, 0; by destruct s|exists s, 255, 0; by destruct s|by exists false, 255, (2 ^ 22)|].
  destruct (f32_valid_finite _ _ _ Hv) as (Hm & He & Hsub). exists s. cbn [f32_to_bits].
  destruct (Z.ltb_spec (Z.pos mx) (2 ^ 23)) as [Hlt|Hge].
  - exists 0, (Z.pos mx). split_and!; [f_equal; lia|lia..|done|done|]. by case_decide; [split; [|apply Hsub]|].
  - exists (ex + 150), (Z.pos mx - 2 ^ 23). split_and!; [done|lia..|done|lia|].
    case_decide; [lia|]. split; [done|lia].
Qed.

Lemma f32_to_bits_range x : f32_valid x → is_u32 (f32_to_bits x).
Proof. intros (s & e & m & -> & He & Hm & _)%f32_bits_fields. by apply f32_fields. Qed.

Lemma f32_bits_roundtrip x : f32_valid x → f32_from_bits (f32_to_bits x) = x.
Proof.
  intros (s & e & m & -> & He & Hm & Hx)%f32_bits_fields.
  destruct (f32_fields s e m He Hm) as (Hs & Hfe & Hfm & _). unfold f32_from_bits.
  rewrite Hs, Hfe, Hfm. destruct x as [sx|sx| |sx mx ex]; destruct Hx as (-> & Hne & Hx); subst; try done.
  rewrite (proj2 (Z.eqb_neq _ _) Hne). case_decide as He0.
  - subst. destruct Hx as [-> ->]. done.
  - rewrite (proj2 (Z.eqb_neq _ _) He0). destruct Hx as [-> ->]. f_equal. lia.
Qed.

(** A finite number that is not [<= 0.0] has a clear sign bit. *)
Lemma f32_positive_sign x : le_zero x = false → f32_sign x = false.
Proof. unfold le_zero, SFleb, SFcompare. by destruct x as [[]|[]| |[] ? ?]. Qed.

(** The sampling interval [(1e6 / fs) as i64] in microseconds. *)
Definition interval_us (fs : f32) : Z := f32_as_i64 (f32_div f32_1e6 fs).

Lemma interval_us_nonneg fs : f32_sign fs = false → 0 ≤ interval_us fs.
Proof. intros ?. apply f32_as_i64_nonneg, f32_div_sign; [|done]. by apply f32_of_int_sign. Qed.

Lemma interval_us_range fs : is_i64 (interval_us fs).
Proof. apply f32_as_i64_range. Qed.
