(* ===== verification/UniformSamples.v ===== *)
(** * Uniformly sampled data

    [sensor-link-protocol/src/samples.rs]: a set of samples of [N_CH] channels
    taken at a fixed frequency, its validity check, and its conversion to samples
    with one timestamp each.  The fixed-capacity vector of the [heapless] crate
    is class [HeaplessVec], with its documented behaviour in [HeaplessVecLaws];
    the encoding by [postcard] is a parameter. *)

From stdpp Require Import base list list_numbers numbers option.
From Stdlib Require Import SpecFloat.
From S2P Require Import Prelude Numeric.

(** ** [heapless::Vec<f32, MAX>] *)

(** [vec_slice] is the slice a vector dereferences to; [vec_extend] is
    [extend_from_slice] and [vec_push] is [push], with [false] for [Err]. *)
Class HeaplessVec (V : Type) : Type := {
  vec_new : V;
  vec_slice : V → list f32;
  vec_extend : list f32 → V → bool * V;
  vec_push : f32 → V → bool * V;
  vec_clear : V → V
}.

Class HeaplessVecLaws (V : Type) `{HeaplessVec V} (MAX : Z) : Prop := {
  vec_slice_new : vec_slice vec_new = [];
  vec_slice_clear v : vec_slice (vec_clear v) = [];
  vec_slice_len v : len (vec_slice v) ≤ MAX;
  vec_extend_ok v data :
    len (vec_slice v) + len data ≤ MAX →
    ∃ v', vec_extend data v = (true, v') ∧ vec_slice v' = vec_slice v ++ data;
  vec_extend_err v data :
    MAX < len (vec_slice v) + len data → (vec_extend data v).1 = false;
  vec_push_ok v x :
    len (vec_slice v) < MAX →
    ∃ v', vec_push x v = (true, v') ∧ vec_slice v' = vec_slice v ++ [x]
}.

(** ** [UniformSamples<N_CH, MAX_N_SAMPLES>] *)

Record UniformSamples (V : Type) : Type := mkUniformSamples {
  us_t : Z;
  us_fs : f32;
  us_ch : list V
}.
Arguments mkUniformSamples {V}.
Arguments us_t {V}.
Arguments us_fs {V}.
Arguments us_ch {V}.

(** [x as i64] of a [usize] *)
Definition as_i64 (z : Z) : Z := to_signed 64 (z mod 2 ^ 64).

(** [sample_timestamp] *)
Definition sample_timestamp (t : Z) (fs : f32) (idx : Z) : option Z :=
  let sample_interval_us := f32_as_i64 (f32_div f32_1e6 fs) in
  x ← checked_mul sample_interval_us (as_i64 idx);
  checked_add x t.

(** [NChannelSamples<N_CH>] *)
Record NChannelSamples : Type := mkNChannel {
  nc_t : list Z;
  nc_fs : f32;
  nc_ch : list (list f32)
}.

Section uniform_samples.
Context {V : Type} `{HeaplessVec V} (N_CH MAX_N_SAMPLES : Z).

Definition us_empty_at (t_start : Z) (sampling_frequency : f32) : UniformSamples V :=
  mkUniformSamples t_start sampling_frequency (replicate (Z.to_nat N_CH) vec_new).
Definition us_empty (sampling_frequency : f32) : UniformSamples V :=
  us_empty_at 0 sampling_frequency.

Definition us_len (s : UniformSamples V) : Z :=
  if us_t s =? 0 then 0
  else foldl (λ acc vec, Z.min acc (len (vec_slice vec))) MAX_N_SAMPLES (us_ch s).

Definition us_is_empty (s : UniformSamples V) : bool := us_t s =? 0.

Definition us_free_space {S E} (s : UniformSamples V) : M S E Z :=
  let max_len := foldl (λ acc vec, Z.max acc (len (vec_slice vec))) 0 (us_ch s) in
  usize_sub MAX_N_SAMPLES max_len.

Definition us_clear (t_start : Z) (s : UniformSamples V) : UniformSamples V :=
  mkUniformSamples t_start (us_fs s) (vec_clear <$> us_ch s).

Definition us_verify (s : UniformSamples V) : bool :=
  if us_t s <=? 0 then false
  else if negb (is_finite (us_fs s)) || le_zero (us_fs s) then false
  else if (if 1 <=? us_len s
           then bool_decide (sample_timestamp (us_t s) (us_fs s) (us_len s - 1) = None)
           else false) then false
  else forallb (λ ch, negb (existsb is_nan (vec_slice ch))) (us_ch s).

(** [NChannelSamples::from] *)
Definition nchannel_from (value : UniformSamples V) : NChannelSamples :=
  let sample_count := us_len value in
  let t := (λ i, match sample_timestamp (us_t value) (us_fs value) i with
                 | Some x => x | None => i64_max end) <$> seqZ 0 sample_count in
  mkNChannel t (us_fs value) (vec_slice <$> us_ch value).

(** [from_topic_data], over the deserialization of the [postcard] crate. *)
Inductive UsParseError : Type := US_Deserialize | US_Invalid.
Definition us_from_topic_data (postcard_from_bytes : list Z → option (UniformSamples V))
    (bytes : list Z) : UniformSamples V + UsParseError :=
  match postcard_from_bytes bytes with
  | None => inr US_Deserialize
  | Some samples => if us_verify samples then inl samples else inr US_Invalid
  end.

(** The samples per channel. *)
Definition us_axes (s : UniformSamples V) : list (list f32) := vec_slice <$> us_ch s.

(** All channels hold [n] samples. *)
Definition us_wf (n : Z) (s : UniformSamples V) : Prop :=
  length (us_ch s) = Z.to_nat N_CH ∧ Forall (λ v, len (vec_slice v) = n) (us_ch s).
End uniform_samples.
Arguments us_empty_at {V _} N_CH t_start sampling_frequency.
Arguments us_empty {V _} N_CH sampling_frequency.
Arguments us_len {V _} MAX_N_SAMPLES s.
Arguments us_free_space {V _} MAX_N_SAMPLES {S E} s.
Arguments us_verify {V _} MAX_N_SAMPLES s.
Arguments nchannel_from {V _} MAX_N_SAMPLES value.
Arguments us_from_topic_data {V _} MAX_N_SAMPLES postcard_from_bytes bytes.
Arguments us_axes {V _} s.
Arguments us_wf {V _} N_CH n s.

(** ** Timestamps *)

Lemma as_i64_small z : 0 ≤ z ≤ i64_max → as_i64 z = z.
Proof.
  unfold i64_max. intros ?. unfold as_i64, to_signed. rewrite Z.mod_small by lia.
  by rewrite (proj2 (Z.ltb_lt _ _)) by lia.
Qed.

Lemma sample_timestamp_eq t fs i :
  0 ≤ i ≤ i64_max → is_i64 (interval_us fs * i) → is_i64 (interval_us fs * i + t) →
  sample_timestamp t fs i = Some (interval_us fs * i + t).
Proof.
  intros Hi Hm Ha. unfold sample_timestamp. rewrite as_i64_small by done.
  change (f32_as_i64 _) with (interval_us fs).
  unfold checked_mul. rewrite i64_checked_ok by done. by apply i64_checked_ok.
Qed.

Lemma sample_timestamp_inv t fs i x :
  0 ≤ i ≤ i64_max → sample_timestamp t fs i = Some x →
  x = interval_us fs * i + t ∧ is_i64 (interval_us fs * i) ∧ is_i64 (interval_us fs * i + t).
Proof.
  intros Hi. unfold sample_timestamp. rewrite as_i64_small by done.
  change (f32_as_i64 _) with (interval_us fs).
  intros (y & [-> ?]%i64_checked_Some & [-> ?]%i64_checked_Some)%bind_Some. done.
Qed.

(** When the last timestamp of a set fits, all earlier ones do. *)
Lemma sample_timestamp_mono t fs i j x :
  0 < t → f32_sign fs = false → 0 ≤ i ≤ j → j ≤ i64_max →
  sample_timestamp t fs j = Some x →
  sample_timestamp t fs i = Some (interval_us fs * i + t) ∧ t ≤ interval_us fs * i + t ≤ x.
Proof.
  intros Ht Hs Hij Hj (-> & Hm & Ha)%sample_timestamp_inv; [|lia].
  pose proof (interval_us_nonneg fs Hs). unfold is_i64, i64_min, i64_max in *.
  assert (0 ≤ interval_us fs * i ≤ interval_us fs * j) by nia.
  rewrite sample_timestamp_eq; unfold is_i64, i64_min, i64_max; [split; [done|lia]|lia..].
Qed.

(** ** Properties *)

Section facts.
Context {V : Type} `{HeaplessVec V} (N_CH MAX : Z).
Implicit Types s : UniformSamples V.

Lemma fold_min_le (a : Z) (l : list V) :
  foldl (λ acc vec, Z.min acc (len (vec_slice vec))) a l ≤ a.
Proof.
  revert a. induction l as [|v l IH]; intros a; simpl; [lia|]. specialize (IH (Z.min a (len (vec_slice v)))). lia.
Qed.

Lemma us_len_le s : 0 ≤ MAX → us_len MAX s ≤ MAX.
Proof. intros ?. unfold us_len. case_match; [done|]. apply fold_min_le. Qed.

Lemma us_verify_inv s :
  us_verify MAX s = true →
  0 < us_t s ∧ is_finite (us_fs s) = true ∧ f32_sign (us_fs s) = false ∧
  (1 ≤ us_len MAX s → is_Some (sample_timestamp (us_t s) (us_fs s) (us_len MAX s - 1))) ∧
  Forall (Forall (λ x, is_nan x = false)) (us_axes s).
Proof.
  unfold us_verify. intros Hv. destruct (us_t s <=? 0) eqn:Ht; [done|]. apply Z.leb_gt in Ht.
  destruct (negb _ || _) eqn:Hf; [done|]. apply orb_false_iff in Hf as [Hf Hz].
  apply negb_false_iff in Hf. destruct (if 1 <=? us_len MAX s then _ else _) eqn:Hl; [done|].
  split_and!; [done|done|by apply f32_positive_sign|..].
  - intros Hn%Z.leb_le. rewrite Hn in Hl. apply bool_decide_eq_false in Hl. by apply not_eq_None_Some.
  - unfold us_axes. apply list.Forall_fmap, list.Forall_forall. intros v Hin. apply list.Forall_forall.
    intros x Hx. apply forallb_forall with (x := v) in Hv; [|by apply list_elem_of_In].
    apply negb_true_iff in Hv. apply not_true_is_false. intros Hn.
    apply not_true_iff_false in Hv. apply Hv, existsb_exists. exists x. by rewrite <-list_elem_of_In.
Qed.

(** The timestamps of verified samples are exact.  For a set that passes
    [verify], the conversion to individually timestamped samples never clamps:
    sample [i] gets [t + i * interval] with [interval = (1e6 / fs) as i64], the
    timestamps do not decrease and stay within [i64], there is one per complete
    sample, and the channel data is carried over without a NaN. *)
Theorem verified_timestamps_exact s :
  0 ≤ MAX ≤ i64_max → us_verify MAX s = true →
  let n := nchannel_from MAX s in
  nc_t n = (λ i, us_t s + i * interval_us (us_fs s)) <$> seqZ 0 (us_len MAX s) ∧
  0 ≤ interval_us (us_fs s) ∧
  Forall (λ t, us_t s ≤ t ≤ i64_max) (nc_t n) ∧
  nc_ch n = us_axes s ∧ Forall (Forall (λ x, is_nan x = false)) (nc_ch n).
Proof.
  intros HM (Ht & _ & Hs & Hlast & Hn)%us_verify_inv n.
  assert (Hi : ∀ i, i ∈ seqZ 0 (us_len MAX s) →
    sample_timestamp (us_t s) (us_fs s) i = Some (us_t s + i * interval_us (us_fs s)) ∧
    us_t s ≤ us_t s + i * interval_us (us_fs s) ≤ i64_max).
  { intros i Hi%elem_of_seqZ. pose proof (us_len_le s ltac:(lia)).
    destruct Hlast as [x Hx]; [lia|].
    assert (Hj : 0 ≤ us_len MAX s - 1 ≤ i64_max) by lia.
    destruct (sample_timestamp_inv _ _ _ _ Hj Hx) as (-> & _ & Hr).
    assert (Hij : 0 ≤ i ≤ us_len MAX s - 1) by lia.
    destruct (sample_timestamp_mono _ _ _ _ _ Ht Hs Hij (proj2 Hj) Hx) as [-> ?].
    unfold is_i64 in Hr. split; [f_equal; lia|lia]. }
  assert (Heq : nc_t n = (λ i, us_t s + i * interval_us (us_fs s)) <$> seqZ 0 (us_len MAX s)).
  { apply list_fmap_ext. intros k i Hk%list_elem_of_lookup_2. by rewrite (proj1 (Hi _ Hk)). }
  split_and!; [done|by apply interval_us_nonneg| |done|done].
  rewrite Heq. apply list.Forall_fmap, list.Forall_forall. intros i Hk. apply Hi, Hk.
Qed.
End facts.

(** ** A vector of the crate, and the property at work *)

Module DemoUniform.
Definition listvec (MAX : Z) : Type := { l : list f32 | bool_decide (len l ≤ MAX) }.

Program Definition listvec_extend {MAX} (data : list f32) (v : listvec MAX) : bool * listvec MAX :=
  match decide (len (`v) + len data ≤ MAX) with
  | left Hle => (true, (`v ++ data) ↾ _)
  | right _ => (false, v)
  end.
Next Obligation. intros. apply bool_decide_pack. by rewrite len_app. Qed.

#[global] Program Instance listvec_vec : HeaplessVec (listvec 4) := {
  vec_new := [] ↾ I;
  vec_slice := proj1_sig;
  vec_extend := listvec_extend;
  vec_push x := listvec_extend [x];
  vec_clear _ := [] ↾ I
}.

#[global] Instance listvec_laws : HeaplessVecLaws (listvec 4) 4.
Proof.
  split; [done..| | | |].
  - intros [l Hl]. exact (bool_decide_unpack _ Hl).
  - intros v data Hle. cbn. unfold listvec_extend.
    destruct (decide _) as [|Hn]; [by eexists|by destruct Hn].
  - intros v data Hlt. cbn. unfold listvec_extend. cbn in Hlt. by destruct (decide _); [lia|].
  - intros v x Hlt. cbn. unfold listvec_extend. cbn in Hlt.
    destruct (decide _) as [|[]]; [by eexists|]. change (len [x]) with 1. lia.
Qed.

(** Two channels, three samples at 1 kHz, from t = 5 s. *)
Definition demo : UniformSamples (listvec 4) :=
  mkUniformSamples 5000000 (f32_of_int 1000)
    [[f32_of_int 1; f32_of_int 2; f32_of_int 3] ↾ I; [f32_of_int 4; f32_of_int 5; f32_of_int 6] ↾ I].

Example demo_timestamps : nc_t (nchannel_from 4 demo) = [5000000; 5001000; 5002000].
Proof. vm_compute. reflexivity. Qed.

Lemma verified_timestamps_exact_witness :
  us_verify 4 demo = true ∧
  nc_t (nchannel_from 4 demo) = (λ i, us_t demo + i * interval_us (us_fs demo)) <$> seqZ 0 3.
Proof.
  split; [vm_compute; reflexivity|].
  refine (proj1 (verified_timestamps_exact 4 demo _ _)).
  - unfold i64_max. lia.
  - vm_compute. reflexivity.
Defined.
End DemoUniform.
