(* ===== verification/Serialize.v ===== *)
(** * Sendable messages

    [sensor-link-firmware/src/serialize.rs]: a message is a topic header of
    [TOPIC_HEADER_SIZE] bytes and a payload in one fixed-size array; the builders
    fill it, [as_slice] gives the bytes to store, and [try_from_slice] and
    [create_with_total_length] rebuild the message from them.  The serializer of
    the [postcard] crate is class [Postcard], with its documented behaviour in
    [PostcardLaws].  [MAX_OUTPUT_LEN] is the const parameter of the types. *)

From stdpp Require Import base list list_numbers numbers option.
From S2P Require Import Prelude Samples.

(** ** [postcard] *)

(** [postcard::to_slice] fills a buffer or fails; [postcard::from_bytes]
    ignores bytes behind the message. *)
Class Postcard (T : Type) : Type := {
  pc_to_slice : T → list Z → option (list Z);
  pc_from_bytes : list Z → option T
}.

(** [pc_to_slice] writes an encoding at the start of the buffer; decoding it
    does not depend on what follows. *)
Class PostcardLaws (T : Type) `{Postcard T} : Prop := {
  pc_encodes t buf buf' :
    pc_to_slice t buf = Some buf' →
    ∃ enc, buf' = enc ++ drop (length enc) buf ∧ (length enc ≤ length buf)%nat ∧ Forall is_u8 enc ∧
      ∀ rest, pc_from_bytes (enc ++ rest) = Some t
}.

(** ** Data *)

Definition TOPIC_HEADER_SIZE : Z := 8.

Record SerializedSendable : Type := mkSendable { ss_bytes : list Z; payload_len : Z }.
Record Builder : Type := mkBuilder { b_bytes : list Z }.
Record BuilderWithTopic (T : Type) : Type := mkBuilderT { bt_bytes : list Z; bt_topic : T }.
Arguments mkBuilderT {T}.
Arguments bt_bytes {T}.
Arguments bt_topic {T}.

Inductive LengthError : Type := TooLong | TooShort.
Inductive BuildError : Type := TopicSerializeFailed | PayloadTooLong.

(** ** Operations *)

(** [&l[lo..hi]] *)
Definition range_of {S E A} (lo hi : Z) (l : list A) : M S E (list A) :=
  if (lo <=? hi) && (hi <=? len l) then mret (slice lo hi l) else panic.

(** [for byte in buffer { *byte ^= 0xA5 }] *)
Definition obfuscate (buffer : list Z) : list Z := (λ byte, Z.lxor byte 165) <$> buffer.

Definition calc_max_payload_len {S E} (output_len : Z) : M S E Z :=
  assert (TOPIC_HEADER_SIZE <? output_len);;
  let payload_len := output_len - TOPIC_HEADER_SIZE in
  assert (payload_len <=? MAX_MESSAGE_LEN);;
  mret payload_len.

Section serialize.
Context {T : Type} `{Postcard T} (MAX_OUTPUT_LEN : Z).

Definition zeroed : list Z := replicate (Z.to_nat MAX_OUTPUT_LEN) 0.

Definition serialize_topic_header (topic : T) (buffer : list Z) : option (list Z) :=
  obfuscate <$> pc_to_slice topic buffer.

Definition deserialize_topic_header (buffer : list Z) : option T :=
  pc_from_bytes (obfuscate buffer).

Definition from_bytes_with_payload_len {S E} (bytes : list Z) (payload_len : Z) :
    M S E SerializedSendable :=
  max ← calc_max_payload_len MAX_OUTPUT_LEN;
  assert (payload_len <=? max);;
  mret (mkSendable bytes payload_len).

Definition builder_new : Builder := mkBuilder zeroed.

Definition create_with_total_length {S} (b : Builder) (total_len : Z) :
    M S LengthError SerializedSendable :=
  if MAX_OUTPUT_LEN <? total_len then fail TooLong
  else if total_len <? TOPIC_HEADER_SIZE then fail TooShort
  else from_bytes_with_payload_len (b_bytes b) (total_len - TOPIC_HEADER_SIZE).

Definition builder_with_topic_new (topic : T) : BuilderWithTopic T := mkBuilderT zeroed topic.
Definition with_topic (topic : T) : BuilderWithTopic T := builder_with_topic_new topic.

(** [payload_buffer] borrows a part of the array: [payload_buffer] is what the
    caller sees, [write_payload_buffer] what writing through the borrow does. *)
Definition payload_buffer (b : BuilderWithTopic T) : list Z :=
  drop (Z.to_nat TOPIC_HEADER_SIZE) (bt_bytes b).
Definition write_payload_buffer (new : list Z) (b : BuilderWithTopic T) : BuilderWithTopic T :=
  mkBuilderT (take (Z.to_nat TOPIC_HEADER_SIZE) (bt_bytes b) ++ new) (bt_topic b).

Definition create_with_payload_length {S} (b : BuilderWithTopic T) (payload_len : Z) :
    M S BuildError SerializedSendable :=
  max ← calc_max_payload_len MAX_OUTPUT_LEN;
  if max <? payload_len then fail PayloadTooLong
  else
    header ← range_of 0 TOPIC_HEADER_SIZE (bt_bytes b);
    match serialize_topic_header (bt_topic b) header with
    | None => fail TopicSerializeFailed
    | Some header =>
        from_bytes_with_payload_len
          (header ++ drop (Z.to_nat TOPIC_HEADER_SIZE) (bt_bytes b)) payload_len
    end.

Definition try_from_slice {S} (sl : list Z) : M S LengthError SerializedSendable :=
  if MAX_OUTPUT_LEN <? len sl then fail TooLong
  else if len sl <? TOPIC_HEADER_SIZE then fail TooShort
  else mret (mkSendable (splice_at 0 sl zeroed) (len sl - TOPIC_HEADER_SIZE)).

Definition as_slice {S E} (s : SerializedSendable) : M S E (list Z) :=
  range_of 0 (TOPIC_HEADER_SIZE + payload_len s) (ss_bytes s).

Definition payload_bytes {S E} (s : SerializedSendable) : M S E (list Z) :=
  range_of TOPIC_HEADER_SIZE (TOPIC_HEADER_SIZE + payload_len s) (ss_bytes s).

Definition header_bytes {S E} (s : SerializedSendable) : M S E (list Z) :=
  range_of 0 TOPIC_HEADER_SIZE (ss_bytes s).

(** [topic]; [None] is the error of [postcard]. *)
Definition topic {S E} (s : SerializedSendable) : M S E (option T) :=
  header ← header_bytes s;
  mret (deserialize_topic_header header).

(** ** Invariant *)

Definition sendable_ok (s : SerializedSendable) : Prop :=
  len (ss_bytes s) = MAX_OUTPUT_LEN ∧ 0 ≤ payload_len s ∧
  TOPIC_HEADER_SIZE + payload_len s ≤ MAX_OUTPUT_LEN.

(** The instantiations of the builders that compile. *)
Definition output_len_ok : Prop :=
  TOPIC_HEADER_SIZE < MAX_OUTPUT_LEN ≤ TOPIC_HEADER_SIZE + MAX_MESSAGE_LEN.
End serialize.
Arguments serialize_topic_header {T _} topic buffer.
Arguments deserialize_topic_header {T _} buffer.
Arguments create_with_payload_length {T _} MAX_OUTPUT_LEN {S} b payload_len.
Arguments payload_buffer {T} b.
Arguments write_payload_buffer {T} new b.
Arguments builder_with_topic_new {T} MAX_OUTPUT_LEN topic.
Arguments with_topic {T} MAX_OUTPUT_LEN topic.
Arguments topic {T _} {S E} s.
Arguments header_bytes {S E} s.

(** ** Lemmas *)

Lemma range_of_run {S E A} lo hi (l : list A) (st : S) :
  lo ≤ hi ≤ len l → range_of (E := E) lo hi l st = (Ok (slice lo hi l), st).
Proof. intros. unfold range_of. by rewrite !(proj2 (Z.leb_le _ _)) by lia. Qed.

Lemma obfuscate_involutive l : obfuscate (obfuscate l) = l.
Proof.
  unfold obfuscate. rewrite <-list_fmap_compose. etransitivity; [|apply list_fmap_id].
  apply list_fmap_ext. intros i x _. simpl. by rewrite Z.lxor_assoc, Z.lxor_nilpotent, Z.lxor_0_r.
Qed.

Lemma obfuscate_app l k : obfuscate (l ++ k) = obfuscate l ++ obfuscate k.
Proof. apply fmap_app. Qed.

Lemma length_obfuscate l : length (obfuscate l) = length l.
Proof. apply length_fmap. Qed.

Lemma slice_0 {A} hi (l : list A) : slice 0 hi l = take (Z.to_nat hi) l.
Proof. unfold slice. by rewrite drop_0, Z.sub_0_r. Qed.

Lemma slice_prefix {A} lo hi (l k : list A) :
  0 ≤ lo → hi ≤ len l → slice lo hi (l ++ k) = slice lo hi l.
Proof.
  intros ??. unfold slice, len in *. destruct (decide (hi ≤ lo)).
  { by replace (Z.to_nat (hi - lo)) with 0%nat by lia. }
  rewrite drop_app_le by lia. rewrite take_app_le; [done|]. rewrite length_drop. lia.
Qed.

Section facts.
Context {T : Type} `{PostcardLaws T} (MAX_OUTPUT_LEN : Z).
Context (HM : output_len_ok MAX_OUTPUT_LEN).

Lemma calc_max_payload_len_run {S E} (st : S) :
  calc_max_payload_len (E := E) MAX_OUTPUT_LEN st = (Ok (MAX_OUTPUT_LEN - TOPIC_HEADER_SIZE), st).
Proof using HM.
  unfold calc_max_payload_len, output_len_ok in *. rewrite (proj2 (Z.ltb_lt _ _)) by lia. cbn.
  by rewrite (proj2 (Z.leb_le _ _)) by lia.
Qed.

Lemma from_bytes_with_payload_len_run {S E} bytes n (st : S) :
  n ≤ MAX_OUTPUT_LEN - TOPIC_HEADER_SIZE →
  from_bytes_with_payload_len (E := E) MAX_OUTPUT_LEN bytes n st = (Ok (mkSendable bytes n), st).
Proof using HM.
  intros. unfold from_bytes_with_payload_len. unfold mbind, M_bind at 1.
  rewrite calc_max_payload_len_run. by rewrite (proj2 (Z.leb_le _ _)).
Qed.

Lemma header_roundtrip t buf header rest :
  serialize_topic_header t buf = Some header →
  length header = length buf ∧ deserialize_topic_header (header ++ rest) = Some t.
Proof using Type*.
  unfold serialize_topic_header, deserialize_topic_header.
  intros (buf' & (enc & -> & Hlen & _ & Hdec)%pc_encodes & ->)%fmap_Some.
  split; [rewrite length_obfuscate, length_app, length_drop; lia|].
  rewrite obfuscate_app, obfuscate_involutive, <-(assoc_L (++)). apply Hdec.
Qed.

Lemma reads_of_sendable {S E} s (st : S) :
  sendable_ok MAX_OUTPUT_LEN s →
  let data := take (Z.to_nat (TOPIC_HEADER_SIZE + payload_len s)) (ss_bytes s) in
  as_slice (E := E) s st = (Ok data, st) ∧
  payload_bytes (E := E) s st = (Ok (drop (Z.to_nat TOPIC_HEADER_SIZE) data), st) ∧
  topic (E := E) s st = (Ok (deserialize_topic_header (take (Z.to_nat TOPIC_HEADER_SIZE) data)), st).
Proof using HM.
  intros (Hl & Hp & Hle) data. unfold output_len_ok, TOPIC_HEADER_SIZE in *.
  unfold as_slice, payload_bytes, topic, header_bytes, TOPIC_HEADER_SIZE. unfold mbind, M_bind.
  rewrite !range_of_run by lia. rewrite !slice_0. split_and!; [done| |].
  - unfold slice, data. rewrite take_drop_commute. repeat f_equal. lia.
  - unfold data. by rewrite take_take, Nat.min_l by lia.
Qed.

Lemma create_with_payload_length_run {S} t z body n header (st : S) :
  len z = TOPIC_HEADER_SIZE → n ≤ MAX_OUTPUT_LEN - TOPIC_HEADER_SIZE →
  serialize_topic_header t z = Some header →
  create_with_payload_length MAX_OUTPUT_LEN (mkBuilderT (z ++ body) t) n st =
    (Ok (mkSendable (header ++ body) n), st).
Proof using HM.
  intros Hz Hn Hh. unfold create_with_payload_length. unfold mbind, M_bind at 1.
  rewrite calc_max_payload_len_run. rewrite (proj2 (Z.ltb_ge _ _)) by lia. cbn [bt_bytes bt_topic].
  unfold M_bind at 1. pose proof (len_nonneg body).
  rewrite range_of_run by (rewrite len_app; unfold TOPIC_HEADER_SIZE in *; lia).
  replace (Z.to_nat TOPIC_HEADER_SIZE) with (length z) by (unfold len in Hz; lia).
  rewrite slice_0. replace (Z.to_nat TOPIC_HEADER_SIZE) with (length z) by (unfold len in Hz; lia).
  rewrite take_app_length, drop_app_length, Hh. by apply from_bytes_with_payload_len_run.
Qed.

Lemma reads_of_parts {S E} header payload tail (st : S) :
  len header = TOPIC_HEADER_SIZE → TOPIC_HEADER_SIZE + len payload + len tail = MAX_OUTPUT_LEN →
  let s := mkSendable (header ++ payload ++ tail) (len payload) in
  sendable_ok MAX_OUTPUT_LEN s ∧
  as_slice (E := E) s st = (Ok (header ++ payload), st) ∧
  payload_bytes (E := E) s st = (Ok payload, st) ∧
  topic (E := E) s st = (Ok (deserialize_topic_header header), st).
Proof using HM.
  intros Hh Hl s. pose proof (len_nonneg payload). pose proof (len_nonneg tail).
  assert (Hs : sendable_ok MAX_OUTPUT_LEN s).
  { unfold sendable_ok, s. cbn [ss_bytes payload_len]. rewrite !len_app. lia. }
  split; [done|]. destruct (reads_of_sendable (E := E) s st Hs) as (-> & -> & ->).
  assert (Hd : take (Z.to_nat (TOPIC_HEADER_SIZE + payload_len s)) (ss_bytes s) = header ++ payload).
  { unfold s. cbn [ss_bytes payload_len]. rewrite (assoc_L (++)).
    replace (Z.to_nat _) with (length (header ++ payload)); [by rewrite take_app_length|].
    rewrite length_app. unfold len in *. lia. }
  rewrite Hd. replace (Z.to_nat TOPIC_HEADER_SIZE) with (length header) by (unfold len in Hh; lia).
  by rewrite drop_app_length, take_app_length.
Qed.
End facts.

(** ** Sendable messages: properties

    A message built from a topic and a payload gives both back, and it survives
    storage as a byte string. *)

(** The payload buffer of a new builder after a write of [payload]. *)
Lemma payload_written {T} MAX_OUTPUT_LEN (t : T) payload :
  output_len_ok MAX_OUTPUT_LEN → len payload ≤ MAX_OUTPUT_LEN - TOPIC_HEADER_SIZE →
  let b := with_topic MAX_OUTPUT_LEN t in
  ∃ tail, write_payload_buffer (splice_at 0 payload (payload_buffer b)) b =
      mkBuilderT (replicate (Z.to_nat TOPIC_HEADER_SIZE) 0 ++ payload ++ tail) t ∧
    TOPIC_HEADER_SIZE + len payload + len tail = MAX_OUTPUT_LEN.
Proof.
  intros HM Hp b. exists (drop (length payload) (payload_buffer b)).
  unfold output_len_ok, write_payload_buffer, payload_buffer, b, with_topic, builder_with_topic_new,
    zeroed, len in *. cbn [bt_bytes bt_topic] in *. split.
  - rewrite take_replicate, Nat.min_l by lia. done.
  - rewrite !length_drop, length_replicate. unfold TOPIC_HEADER_SIZE in *. lia.
Qed.

Section properties.
Context {T : Type} `{PostcardLaws T} (MAX_OUTPUT_LEN : Z).

(** A built message gives its topic and payload back.  For a payload that
    fits and a topic that [postcard] can encode in the header, writing the
    payload through [payload_buffer] and calling [create_with_payload_length]
    succeeds; the message then has exactly that topic, that payload and the
    length of both. *)
Theorem sendable_built_reads_back {S E} (t : T) (payload : list Z) (st : S) :
  output_len_ok MAX_OUTPUT_LEN →
  len payload ≤ MAX_OUTPUT_LEN - TOPIC_HEADER_SIZE →
  is_Some (pc_to_slice t (replicate (Z.to_nat TOPIC_HEADER_SIZE) 0)) →
  let b := with_topic MAX_OUTPUT_LEN t in
  let b := write_payload_buffer (splice_at 0 payload (payload_buffer b)) b in
  ∃ s, create_with_payload_length MAX_OUTPUT_LEN b (len payload) st = (Ok s, st) ∧
    sendable_ok MAX_OUTPUT_LEN s ∧
    topic (E := E) s st = (Ok (Some t), st) ∧
    payload_bytes (E := E) s st = (Ok payload, st) ∧
    ∃ header, as_slice (E := E) s st = (Ok (header ++ payload), st) ∧ len header = TOPIC_HEADER_SIZE.
Proof.
  intros HM Hp [hd Hhd] b b'. destruct (payload_written _ t payload HM Hp) as (tail & Hb & Hlen).
  assert (Hser : serialize_topic_header t (replicate (Z.to_nat TOPIC_HEADER_SIZE) 0) = Some (obfuscate hd)).
  { unfold serialize_topic_header. by rewrite Hhd. }
  destruct (header_roundtrip t _ _ [] Hser) as [Hl Ht].
  rewrite length_replicate in Hl. rewrite app_nil_r in Ht.
  assert (Hh : len (obfuscate hd) = TOPIC_HEADER_SIZE) by (unfold len; rewrite Hl; done).
  destruct (reads_of_parts (E := E) MAX_OUTPUT_LEN HM _ payload tail st Hh Hlen) as (Hs & Ha & Hpl & Htp).
  eexists. split_and!; [|done| |done|by eauto].
  - unfold b', b. rewrite Hb. by apply create_with_payload_length_run.
  - by rewrite Htp, Ht.
Qed.

(** A message survives storage.  The bytes [as_slice] gives can be stored
    and rebuilt into a message of any capacity that holds them, by
    [try_from_slice] or by filling a [Builder] and calling
    [create_with_total_length]: topic, payload and bytes are the same. *)
Theorem sendable_survives_storage {S E} (s : SerializedSendable) (MAX' : Z) (junk : list Z) (st : S) :
  output_len_ok MAX_OUTPUT_LEN → sendable_ok MAX_OUTPUT_LEN s → output_len_ok MAX' →
  TOPIC_HEADER_SIZE + payload_len s + len junk = MAX' →
  ∃ bytes s1 s2,
    as_slice (E := E) s st = (Ok bytes, st) ∧ len bytes = TOPIC_HEADER_SIZE + payload_len s ∧
    try_from_slice MAX' bytes st = (Ok s1, st) ∧
    create_with_total_length MAX' (mkBuilder (bytes ++ junk)) (len bytes) st = (Ok s2, st) ∧
    ∀ s', s' = s1 ∨ s' = s2 →
      sendable_ok MAX' s' ∧
      as_slice (E := E) s' st = as_slice s st ∧
      payload_bytes (E := E) s' st = payload_bytes s st ∧
      topic (E := E) (T := T) s' st = topic s st.
Proof.
  intros HM Hs HM' Hj. pose proof (len_nonneg junk). destruct (reads_of_sendable (E := E) _ HM s st Hs) as (Ha & Hp & Ht).
  set (bytes := take _ _) in *. rewrite Ha, Hp, Ht. destruct Hs as (Hl & Hpl & Hbound).
  assert (Hlen : len bytes = TOPIC_HEADER_SIZE + payload_len s).
  { unfold bytes, len, TOPIC_HEADER_SIZE in *. rewrite length_take. lia. }
  assert (Hread : ∀ s' rest, s' = mkSendable (bytes ++ rest) (payload_len s) → len bytes + len rest = MAX' →
    sendable_ok MAX' s' ∧ as_slice (E := E) s' st = (Ok bytes, st) ∧
    payload_bytes (E := E) s' st = (Ok (drop (Z.to_nat TOPIC_HEADER_SIZE) bytes), st) ∧
    topic (E := E) (T := T) s' st =
      (Ok (deserialize_topic_header (take (Z.to_nat TOPIC_HEADER_SIZE) bytes)), st)).
  { intros s' rest -> Hr.
    assert (Hok : sendable_ok MAX' (mkSendable (bytes ++ rest) (payload_len s))).
    { unfold sendable_ok. cbn [ss_bytes payload_len]. rewrite len_app. lia. }
    split; [done|]. destruct (reads_of_sendable (E := E) (T := T) _ HM' _ st Hok) as (-> & -> & ->).
    cbn [ss_bytes payload_len].
    replace (Z.to_nat (TOPIC_HEADER_SIZE + payload_len s)) with (length bytes) by (unfold len in Hlen; lia).
    by rewrite take_app_length. }
  exists bytes, (mkSendable (splice_at 0 bytes (zeroed MAX')) (payload_len s)),
    (mkSendable (bytes ++ junk) (payload_len s)).
  split_and!; [done|done| | |].
  - unfold try_from_slice. rewrite !(proj2 (Z.ltb_ge _ _)) by (unfold TOPIC_HEADER_SIZE in *; lia).
    rewrite Hlen. by replace (TOPIC_HEADER_SIZE + payload_len s - TOPIC_HEADER_SIZE) with (payload_len s) by lia.
  - unfold create_with_total_length. rewrite !(proj2 (Z.ltb_ge _ _)) by (unfold TOPIC_HEADER_SIZE in *; lia).
    cbn [b_bytes]. rewrite from_bytes_with_payload_len_run by (done || lia).
    rewrite Hlen. by replace (TOPIC_HEADER_SIZE + payload_len s - TOPIC_HEADER_SIZE) with (payload_len s) by lia.
  - intros s' [->| ->]; [|by eapply Hread; [done|lia]].
    eapply Hread; [done|]. unfold zeroed, len in *. rewrite length_drop, length_replicate. lia.
Qed.
End properties.

Module DemoSerialize.
(** Topics 0 and 1, encoded as one byte, as [postcard] encodes the variants of
    an enum. *)
#[global] Instance demo_postcard : Postcard bool := {
  pc_to_slice t buf :=
    match buf with [] => None | _ :: rest => Some ((if t then 1 else 0) :: rest) end;
  pc_from_bytes buf :=
    match buf with 0 :: _ => Some false | 1 :: _ => Some true | _ => None end
}.

#[global] Instance demo_postcard_laws : PostcardLaws bool.
Proof.
  split. intros t [|b buf] buf'; [done|]. cbn. intros [= <-]. exists [if t then 1 else 0].
  split_and!; [done|cbn; lia| |]; destruct t; try done; repeat constructor; done.
Qed.

Lemma sendable_built_reads_back_witness :
  ∃ s, create_with_payload_length 20
      (write_payload_buffer (splice_at 0 [1; 2; 3] (payload_buffer (with_topic 20 true))) (with_topic 20 true))
      3 tt = (Ok s, tt) ∧
    topic (E := unit) s tt = (Ok (Some true), tt) ∧ payload_bytes (E := unit) s tt = (Ok [1; 2; 3], tt).
Proof.
  destruct (sendable_built_reads_back (E := unit) 20 true [1; 2; 3] tt) as (s & Hs & _ & Ht & Hp & _).
  - unfold output_len_ok, TOPIC_HEADER_SIZE, MAX_MESSAGE_LEN. lia.
  - vm_compute. done.
  - by eexists.
  - exists s. done.
Defined.

Lemma sendable_survives_storage_witness :
  let s := mkSendable [164; 165; 165; 165; 165; 165; 165; 165; 7; 9; 0; 0] 2 in
  topic (E := unit) s tt = (Ok (Some true), tt) ∧
  ∃ s1, try_from_slice 11 [164; 165; 165; 165; 165; 165; 165; 165; 7; 9] tt = (Ok s1, tt) ∧
    topic (E := unit) s1 tt = (Ok (Some true), tt).
Proof.
  intros s. split; [vm_compute; reflexivity|].
  destruct (sendable_survives_storage (E := unit) (T := bool) 12 s 11 [5] tt)
    as (bytes & s1 & s2 & Ha & _ & H1 & _ & Hread).
  - unfold output_len_ok, TOPIC_HEADER_SIZE, MAX_MESSAGE_LEN. lia.
  - unfold sendable_ok. vm_compute. split_and!; done.
  - unfold output_len_ok, TOPIC_HEADER_SIZE, MAX_MESSAGE_LEN. lia.
  - vm_compute. done.
  - vm_compute in Ha. injection Ha as <-. exists s1. split; [done|].
    destruct (Hread s1 (or_introl eq_refl)) as (_ & _ & _ & ->). vm_compute. reflexivity.
Defined.
End DemoSerialize.
