(* ===== verification/Buffer.v ===== *)
(** * Buffering of samples

    [sensor-link-firmware/src/logic/dispatch/buffer.rs]: batches of samples are
    collected in a fixed-size buffer; the buffer is serialized into one message
    when it is full, when a batch does not follow on from it, or when the data in
    it spans more than the timeout.  [N_AXES] and [MAX_INPUT_SIZE] are the const
    parameters of the types; [Ser] implements trait [BufferSerializer], whose
    [serialize] is a parameter of the manager. *)

From stdpp Require Import base list list_numbers numbers option.
From S2P Require Import Prelude Samples Numeric UniformSamples Serialize.

(** ** Batches of samples *)

Record SampleData : Type := mkSampleData {
  sd_t : Z;
  sd_len : Z;
  sd_samples : list (list f32);
  sd_t_last : Z;
  sd_fs : f32
}.

(** [samples.iter().map(|slice| slice.len()).min()] *)
Definition min_len (samples : list (list f32)) : option Z :=
  match samples with
  | [] => None
  | s :: rest => Some (foldl (λ acc s, Z.min acc (len s)) (len s) rest)
  end.

(** One element of the array: [CAPACITY] values, the samples at the front. *)
Definition fill_axis {S E} (CAPACITY n : Z) (samples : list f32) : M S E (list f32) :=
  if CAPACITY <? n then panic
  else
    src ← range_of 0 n samples;
    mret (src ++ replicate (Z.to_nat (CAPACITY - n)) f32_nan).

Fixpoint map_m {S E A B} (f : A → M S E B) (l : list A) : M S E (list B) :=
  match l with
  | [] => mret []
  | a :: l => b ← f a; bs ← map_m f l; mret (b :: bs)
  end.

Definition from_slices {S E} (CAPACITY t_start : Z) (sampling_frequency : f32)
    (samples : list (list f32)) : M S E SampleData :=
  match min_len samples with
  | None => panic
  | Some n =>
      let dt_per_sample := f32_div f32_1e6 sampling_frequency in
      let dt := f32_as_i64 (f32_mul (f32_of_int (saturating_sub n 1)) dt_per_sample) in
      t_last ← i64_add t_start dt;
      arr ← map_m (fill_axis CAPACITY n) samples;
      mret (mkSampleData t_start n arr t_last sampling_frequency)
  end.

Definition sd_empty_at {S E} (N_AXES CAPACITY t_start : Z) (sampling_frequency : f32) :
    M S E SampleData :=
  from_slices CAPACITY t_start sampling_frequency (replicate (Z.to_nat N_AXES) []).

(** ** The buffer *)

Inductive BufferStatus : Type :=
| BS_Ok | BS_NotContiguous | BS_NotEnoughSpace | BS_NotEnoughSpaceForNext | BS_Timeout.

Record SerializingBuffer (V : Type) : Type := mkBuffer {
  sample_buffer : UniformSamples V;
  last_timestamp : Z;
  t_delta_us : Z;
  timeout_us : Z
}.
Arguments mkBuffer {V}.
Arguments sample_buffer {V}.
Arguments last_timestamp {V}.
Arguments t_delta_us {V}.
Arguments timeout_us {V}.

(** [BufferResult] and [BufferManager] *)
Inductive BufferResult : Type :=
| DataAdded
| Serialized (packet : SerializedSendable)
| SerializationFailed.

Record BufferManager (V Ser : Type) : Type := mkManager {
  buffer : SerializingBuffer V;
  serializer : Ser
}.
Arguments mkManager {V Ser}.
Arguments buffer {V Ser}.
Arguments serializer {V Ser}.

Section buffer.
Context {V : Type} `{HeaplessVec V} (N_AXES MAX_INPUT_SIZE : Z).
Implicit Types sb : SerializingBuffer V.

Definition set_sample_buffer (us : UniformSamples V) sb : SerializingBuffer V :=
  mkBuffer us (last_timestamp sb) (t_delta_us sb) (timeout_us sb).
Definition set_last_timestamp (t : Z) sb : SerializingBuffer V :=
  mkBuffer (sample_buffer sb) t (t_delta_us sb) (timeout_us sb).
Definition set_us_t (t : Z) (us : UniformSamples V) : UniformSamples V :=
  mkUniformSamples t (us_fs us) (us_ch us).
Definition set_us_ch (ch : list V) (us : UniformSamples V) : UniformSamples V :=
  mkUniformSamples (us_t us) (us_fs us) ch.

Definition sb_empty {S E} (fs : f32) (timeout_us : Z) : M S E (SerializingBuffer V) :=
  t_delta_us ← i64_mul (f32_as_i64 (f32_div f32_1e6 fs)) 2;
  mret (mkBuffer (us_empty N_AXES fs) 0 t_delta_us timeout_us).

Definition sb_set_timeout (timeout_us : Z) sb : SerializingBuffer V :=
  mkBuffer (sample_buffer sb) (last_timestamp sb) (t_delta_us sb) timeout_us.

Definition sb_len sb : Z := us_len MAX_INPUT_SIZE (sample_buffer sb).
Definition sb_is_empty sb : bool := sb_len sb =? 0.
Definition sb_is_full sb : bool := sb_len sb =? MAX_INPUT_SIZE.
Definition sb_clear sb : SerializingBuffer V :=
  set_sample_buffer (us_empty N_AXES (us_fs (sample_buffer sb))) sb.

(** The loop over the axes; [false] when a channel has no room. *)
Fixpoint extend_axes (data : SampleData) (axes : list Z) : M (SerializingBuffer V) Empty_set bool :=
  match axes with
  | [] => mret true
  | i :: axes =>
      axis ← index (sd_samples data) i;
      sl ← range_of 0 (sd_len data) axis;
      chs ← gets (us_ch ∘ sample_buffer);
      v ← index chs i;
      let '(ok, v') := vec_extend sl v in
      modify (λ sb, set_sample_buffer (set_us_ch (<[Z.to_nat i := v']> chs) (sample_buffer sb)) sb);;
      if ok then extend_axes data axes else mret false
  end.

Definition push (data : SampleData) : M (SerializingBuffer V) Empty_set BufferStatus :=
  n ← gets sb_len;
  if MAX_INPUT_SIZE <? n + sd_len data then mret BS_NotEnoughSpace
  else
    empty ← gets sb_is_empty;
    (if empty : bool then
       modify (λ sb, set_sample_buffer (set_us_t (sd_t data) (sample_buffer sb)) sb);;
       modify (set_last_timestamp (sd_t_last data))
     else mret tt);;
    last ← gets last_timestamp;
    delta ← gets t_delta_us;
    limit ← i64_add last delta;
    if limit <? sd_t data then mret BS_NotContiguous
    else
      ok ← extend_axes data (seqZ 0 N_AXES);
      if negb ok then mret BS_NotEnoughSpace
      else
        modify (set_last_timestamp (sd_t_last data));;
        first_timestamp ← gets (us_t ∘ sample_buffer);
        last ← gets last_timestamp;
        dt_us ← i64_sub last first_timestamp;
        timeout ← gets timeout_us;
        if timeout <? dt_us then mret BS_Timeout
        else
          n ← gets sb_len;
          if MAX_INPUT_SIZE <? n + sd_len data then mret BS_NotEnoughSpaceForNext
          else mret BS_Ok.

(** ** The manager *)

Section manager.
Context {Ser Error : Type} (serialize : Ser → UniformSamples V → SerializedSendable + Error).

Definition set_buffer (sb : SerializingBuffer V) (m : BufferManager V Ser) : BufferManager V Ser :=
  mkManager sb (serializer m).

Definition bm_new {S E} (fs : f32) (serializer : Ser) (timeout_us : Z) : M S E (BufferManager V Ser) :=
  sb ← sb_empty fs timeout_us; mret (mkManager sb serializer).

Definition bm_clear : M (BufferManager V Ser) Empty_set unit :=
  modify (λ m, set_buffer (sb_clear (buffer m)) m).

(** The result behind the loop. *)
Definition push_result (serialized_packet : option SerializedSendable) : BufferResult :=
  match serialized_packet with Some packet => Serialized packet | None => DataAdded end.

(** The [while] loop; [None] when [fuel] iterations are not enough. *)
Fixpoint push_loop (fuel : nat) (data : SampleData) (serialized_packet : option SerializedSendable)
    (num_tries : Z) : M (BufferManager V Ser) Empty_set (option BufferResult) :=
  match fuel with
  | O => mret None
  | S fuel =>
      status ← zoom buffer set_buffer (push data);
      full ← gets (sb_is_full ∘ buffer);
      let '(data_inserted, should_serialize) :=
        match status with
        | BS_Ok => (true, full)
        | BS_NotContiguous | BS_NotEnoughSpace => (false, true)
        | BS_NotEnoughSpaceForNext | BS_Timeout =>
            (true, if serialized_packet is None then true else false)
        end in
      let next packet tries :=
        if data_inserted : bool then mret (Some (push_result packet))
        else push_loop fuel data packet tries in
      if should_serialize : bool then
        m ← gets id;
        match serialize (serializer m) (sample_buffer (buffer m)) with
        | inl serialized =>
            bm_clear;;
            if data_inserted : bool then mret (Some (Serialized serialized))
            else next (Some serialized) num_tries
        | inr _ =>
            bm_clear;;
            if 1 <=? num_tries then mret (Some SerializationFailed)
            else next serialized_packet (num_tries + 1)
        end
      else next serialized_packet num_tries
  end.

Definition push_data (fuel : nat) (data : SampleData) :
    M (BufferManager V Ser) Empty_set (option BufferResult) :=
  push_loop fuel data None 0.

Definition force_serialize : M (BufferManager V Ser) Empty_set (option SerializedSendable) :=
  m ← gets id;
  if negb (sb_is_empty (buffer m)) then
    match serialize (serializer m) (sample_buffer (buffer m)) with
    | inl serialized => bm_clear;; mret (Some serialized)
    | inr _ => bm_clear;; mret None
    end
  else mret None.

Definition bm_is_full (m : BufferManager V Ser) : bool := sb_is_full (buffer m).
Definition bm_is_empty (m : BufferManager V Ser) : bool := sb_is_empty (buffer m).
Definition bm_len (m : BufferManager V Ser) : Z := sb_len (buffer m).
Definition bm_set_timeout (timeout_us : Z) (m : BufferManager V Ser) : BufferManager V Ser :=
  set_buffer (sb_set_timeout timeout_us (buffer m)) m.
End manager.
End buffer.
