(* ===== verification/Quantize.v ===== *)
(** * Quantisation of samples

    The conversions between [f32] samples and 16-bit fixed-point samples of
    [sensor-link-protocol/src/samples/q15xl.rs] (and [q15.rs], for a length field
    of [LB] = 1 byte).  The functions of the [libm] crate are class [Libm]; no
    property here depends on what they compute. *)

From stdpp Require Import base list list_numbers numbers option.
From Stdlib Require Import SpecFloat.
From S2P Require Import Prelude Samples SamplesFacts SamplesProps Numeric UniformSamples Serialize Buffer.

Class Libm : Type := {
  fabsf : f32 → f32;
  log2f : f32 → f32;
  ceilf : f32 → f32;
  roundf : f32 → f32;
  powf : f32 → f32 → f32
}.

Definition EXPONENT_MIN : Z := - 128 + 15.
Definition EXPONENT_MAX : Z := 127 - 15.

(** [I16::from_f32] and [I16::as_f32] *)
Definition i16_from_f32 (value : f32) : Z :=
  if is_finite value then
    let value := f32_as_i16 value in
    if value =? - 2 ^ 15 then value + 1 else value
  else - 2 ^ 15.
Definition i16_as_f32 (v : Z) : f32 := if v =? - 2 ^ 15 then f32_nan else f32_of_int v.

Section quantize.
Context `{Libm} {V : Type} `{HeaplessVec V} (LB N_CH MAX : Z).

Fixpoint abs_max_finite (max : f32) (values : list f32) : f32 :=
  match values with
  | [] => max
  | value :: values =>
      abs_max_finite (if is_finite value then f32_max (fabsf value) max else max) values
  end.

Definition find_max_exponent (input : f32) : Z :=
  let log := log2f (fabsf input) in
  let exponent := f32_as_i8 (ceilf log) in
  Z.max EXPONENT_MIN (Z.min EXPONENT_MAX exponent).

Definition inv_scale (exponent : Z) : f32 :=
  f32_div (f32_of_int 32767) (powf (f32_of_int 2) (f32_of_int exponent)).
Definition scale_factor (c : Q15Channel) : f32 :=
  f32_div (powf (f32_of_int 2) (f32_of_int (exponent c))) (f32_of_int 32767).

(** One iteration of the loop of [from_slice]. *)
Definition quantize (exponent : Z) (sample : f32) : Z :=
  i16_from_f32 (roundf (f32_mul sample (inv_scale exponent))).

Definition from_slice {S E} (exponent : Z) (sl : list f32) : M S E Q15Channel :=
  assert (len sl <=? MAX);;
  let result := empty_channel MAX in
  mret (mkChannel exponent (list_inserts 0 (quantize exponent <$> sl) (values result))).

Definition value_at {S E} (c : Q15Channel) (idx : Z) : M S E f32 :=
  v ← index (values c) idx;
  mret (f32_mul (i16_as_f32 v) (scale_factor c)).

(** One iteration of the channel loop of [from_uniform]. *)
Definition quantize_channel {S E} (n_samples : Z) (ch : V) : M S E Q15Channel :=
  samples ← range_of 0 n_samples (vec_slice ch);
  let max := abs_max_finite (S754_zero false) samples in
  let exponent := find_max_exponent max in
  from_slice exponent samples.

Definition from_uniform {S E} (input : UniformSamples V) : M S E Uniform :=
  let n_samples := us_len MAX input in
  chs ← map_m (quantize_channel n_samples) (us_ch input);
  mret (mkUniform (us_t input) (f32_to_bits (us_fs input))
    (mkQ15 (n_samples mod 256 ^ LB) chs)).

(** One iteration of the channel loop of [as_uniform]. *)
Definition restore_channel {S E} (n_samples : Z) (ch : Q15Channel) : M S E V :=
  fold_m (λ res_ch sample_idx,
    x ← value_at ch sample_idx;
    let '(ok, res_ch) := vec_push x res_ch in
    if ok : bool then mret res_ch else panic) vec_new (seqZ 0 n_samples).

Definition as_uniform {S E} (u : Uniform) : M S E (UniformSamples V) :=
  let n_samples := num_samples (u_data u) in
  assert (n_samples <=? MAX);;
  chs ← map_m (restore_channel n_samples) (channels (u_data u));
  mret (mkUniformSamples (u_t u) (f32_from_bits (u_fs u)) chs).

(** ** What quantisation does to a channel *)

Definition channel_exponent (samples : list f32) : Z :=
  find_max_exponent (abs_max_finite (S754_zero false) samples).

(** A sample after quantisation and back. *)
Definition requantize (exponent : Z) (sample : f32) : f32 :=
  f32_mul (i16_as_f32 (quantize exponent sample)) (scale_factor (mkChannel exponent [])).
End quantize.
Arguments from_uniform {_ V _} LB MAX {S E} input.
Arguments as_uniform {_ V _} MAX {S E} u.
Arguments quantize_channel {_ V _} MAX {S E} n_samples ch.
Arguments restore_channel {_ V _} {S E} n_samples ch.
Arguments from_slice {_} MAX {S E} exponent sl.

(** ** Lemmas *)

Lemma i16_from_f32_range x : - 2 ^ 15 ≤ i16_from_f32 x < 2 ^ 15.
Proof.
  unfold i16_from_f32. case_match; [|lia]. unfold f32_as_i16.
  pose proof (f32_as_range (- 2 ^ 15) (2 ^ 15 - 1) x). case_match; lia.
Qed.

(** The reserved code is used exactly for NaN and the infinities. *)
Lemma i16_from_f32_reserved x : i16_from_f32 x = - 2 ^ 15 ↔ is_finite x = false.
Proof.
  unfold i16_from_f32. destruct (is_finite x); [|done]. split; [|done].
  destruct (Z.eqb_spec (f32_as_i16 x) (- 2 ^ 15)); lia.
Qed.

Section facts.
Context `{Libm}.

Lemma find_max_exponent_range x : - 2 ^ 7 ≤ find_max_exponent x < 2 ^ 7.
Proof. unfold find_max_exponent, EXPONENT_MIN, EXPONENT_MAX. lia. Qed.

Lemma list_inserts_prefix {A} (l k : list A) :
  (length l ≤ length k)%nat → list_inserts 0 l k = l ++ drop (length l) k.
Proof.
  revert k. induction l as [|x l IH]; intros [|y k] Hl; simpl in *; [done|done|lia|].
  rewrite <-(IH k) by lia. clear IH Hl. revert k. 
  assert (Hc : ∀ (i : nat) (k : list A), list_inserts (S i) l (y :: k) = y :: list_inserts i l k).
  { induction l as [|z l IHl]; intros i k; [done|]. simpl. by rewrite IHl. }
  intros k. by rewrite Hc.
Qed.

Lemma from_slice_run {S E} MAX e sl (st : S) :
  len sl ≤ MAX →
  from_slice (E := E) MAX e sl st =
    (Ok (mkChannel e ((quantize e <$> sl) ++ replicate (Z.to_nat (MAX - len sl)) 0)), st).
Proof.
  intros Hl. unfold from_slice, assert, mbind, M_bind. rewrite (proj2 (Z.leb_le _ _)) by done. cbn.
  rewrite list_inserts_prefix by (rewrite length_fmap, length_replicate; unfold len in Hl; lia).
  rewrite length_fmap, drop_replicate.
  by replace (Z.to_nat MAX - length sl)%nat with (Z.to_nat (MAX - len sl)) by (unfold len; lia).
Qed.

Lemma map_m_run {S E A B} (f : A → M S E B) (g : A → B) l (st : S) :
  (∀ a, a ∈ l → f a st = (Ok (g a), st)) → map_m f l st = (Ok (g <$> l), st).
Proof.
  intros Hf. induction l as [|a l IH]; [done|]. cbn [map_m]. unfold mbind, M_bind at 1.
  rewrite Hf by apply list_elem_of_here. unfold M_bind. rewrite IH; [done|].
  intros b Hb. apply Hf. by apply list_elem_of_further.
Qed.

Context {V : Type} `{HV : HeaplessVec V} (LB N_CH MAX : Z) `{HVL : !HeaplessVecLaws V MAX}.
Context (HLB : 0 < LB) (HN : 0 < N_CH) (HMAX : 0 ≤ MAX ≤ num_max LB).

(** The channel that holds the samples [sl]. *)
Definition quantized (sl : list f32) : Q15Channel :=
  let e := channel_exponent sl in
  mkChannel e ((quantize e <$> sl) ++ replicate (Z.to_nat (MAX - len sl)) 0).

Lemma from_uniform_run {S E} n us (st : S) :
  us_wf N_CH n us → us_len MAX us = n → 0 ≤ n ≤ MAX →
  from_uniform (E := E) LB MAX us st =
    (Ok (mkUniform (us_t us) (f32_to_bits (us_fs us)) (mkQ15 n (quantized <$> us_axes us))), st).
Proof using HLB HMAX HN.
  intros [Hl Hf] Hn Hr. unfold from_uniform. rewrite Hn. unfold mbind, M_bind.
  rewrite (map_m_run _ (λ v, quantized (vec_slice v))).
  - unfold us_axes. rewrite <-list_fmap_compose. rewrite Z.mod_small; [done|]. unfold num_max in HMAX. lia.
  - intros v Hv. rewrite list.Forall_forall in Hf. pose proof (Hf v Hv) as Hlen.
    unfold quantize_channel, mbind, M_bind. rewrite range_of_run by lia.
    rewrite <-Hlen, slice_0. unfold len at 1 2. rewrite Nat2Z.id, firstn_all.
    rewrite from_slice_run by lia. done.
Qed.

Lemma quantized_ok n us :
  us_wf N_CH n us → 0 ≤ n ≤ MAX → q15_ok N_CH MAX (mkQ15 n (quantized <$> us_axes us)).
Proof using HN.
  intros [Hl Hf] Hr. unfold us_axes. rewrite <-list_fmap_compose.
  assert (Hc : ∀ c, c ∈ ((quantized ∘ vec_slice) <$> us_ch us) →
    ∃ v, c = quantized (vec_slice v) ∧ len (vec_slice v) = n).
  { intros c (v & -> & Hv)%list_elem_of_fmap. rewrite list.Forall_forall in Hf. eauto. }
  split; cbn [num_samples channels]; [done|..].
  - unfold len. rewrite length_fmap, Hl. lia.
  - intros c (v & -> & Hv)%Hc. cbn. unfold len in *. rewrite length_app, length_fmap, length_replicate. lia.
  - intros c (v & -> & _)%Hc. apply find_max_exponent_range.
  - intros c x (v & -> & _)%Hc. cbn. rewrite elem_of_app, list_elem_of_fmap.
    intros [(y & -> & _)|[-> _]%elem_of_replicate]; [apply i16_from_f32_range|lia].
Qed.

Lemma restore_run {S E} n c vs (st : S) :
  0 ≤ n ≤ MAX → values c = vs → n ≤ len vs →
  ∃ v, restore_channel (E := E) n c st = (Ok v, st) ∧
    vec_slice v = (λ x, f32_mul (i16_as_f32 x) (scale_factor c)) <$> take (Z.to_nat n) vs.
Proof using HVL.
  intros Hn Hvs Hlen. unfold restore_channel.
  set (g := λ x, f32_mul (i16_as_f32 x) (scale_factor c)).
  assert (Hloop : ∀ k i v0, 0 ≤ i → i + Z.of_nat k = n → vec_slice v0 = g <$> take (Z.to_nat i) vs →
    ∃ v, fold_m (λ res_ch sample_idx, x ← value_at c sample_idx;
        let '(ok, res_ch) := vec_push x res_ch in if ok : bool then mret res_ch else panic)
        v0 (seqZ i (Z.of_nat k)) st = (Ok (E := E) v, st) ∧ vec_slice v = g <$> take (Z.to_nat n) vs).
  { induction k as [|k IH]; intros i v0 Hi Hk Hv0.
    - exists v0. split; [done|]. by replace n with i by lia.
    - destruct (lookup_lt_is_Some_2 vs (Z.to_nat i)) as [x Hx]; [unfold len in Hlen; lia|].
      destruct (vec_push_ok v0 (g x)) as (v1 & Hp & Hv1).
      { rewrite Hv0. unfold len. rewrite length_fmap, length_take. lia. }
      rewrite seqZ_cons by lia. cbn [fold_m]. unfold mbind, M_bind at 1. unfold value_at, mbind, M_bind.
      rewrite (index_run _ _ x) by (by rewrite Hvs). unfold mret, M_ret. fold (g x). rewrite Hp.
      replace (Z.pred (Z.of_nat (Datatypes.S k))) with (Z.of_nat k) by lia.
      apply IH; [lia|lia|]. rewrite Hv1, Hv0. replace (Z.to_nat (Z.succ i)) with (Datatypes.S (Z.to_nat i)) by lia.
      by rewrite (take_S_r _ _ _ Hx), fmap_app. }
  destruct (Hloop (Z.to_nat n) 0 vec_new) as (v & Hr & Hv); [lia|lia|by rewrite vec_slice_new|].
  rewrite Z2Nat.id in Hr by lia. by exists v.
Qed.
End facts.
