(* ===== verification/Serializer.v ===== *)
(** * From samples to a message and back

    [UniformSampleSerializer] of [sensor-link-firmware/src/logic/serializer.rs]:
    quantises a set of samples, encodes it behind a topic header and gives the
    message to send.  The property composes the quantisation, the packet format
    and the message builder with what the receiver does. *)

From stdpp Require Import base list list_numbers numbers option.
From Stdlib Require Import SpecFloat.
From S2P Require Import Prelude Samples SamplesFacts SamplesProps Numeric UniformSamples Serialize.
From S2P Require Import Buffer Quantize.

Inductive UssError : Type :=
| BufferTooSmall (provided required : Z)
| TopicSerializationFailed (available : Z)
| ChannelExtendFailed (channel_index samples_attempted channel_capacity : Z)
| Q15EncodingFailed (available_bytes sample_count : Z).

Section serializer.
Context `{Libm} {V : Type} `{HeaplessVec V} {T : Type} `{Postcard T}.
Context (N_CH MAX_OUTPUT_LEN MAX : Z).

(** Width of the length field, [Q15_OVERHEAD_PER_PACKET] of [q15xl.rs]. *)
Definition XL : Z := 2.

Definition calc_max_input_len {S E} : M S E Z :=
  assert (TOPIC_HEADER_SIZE <? MAX_OUTPUT_LEN);;
  mret (max_num_input_samples XL N_CH (MAX_OUTPUT_LEN - TOPIC_HEADER_SIZE)).

Definition uss_serialize {S} (input : UniformSamples V) (t : T) : M S UssError SerializedSendable :=
  max_input_len ← calc_max_input_len;
  assert (MAX <=? max_input_len);;
  let serialized := with_topic MAX_OUTPUT_LEN t in
  if max_input_len <? us_len MAX input then fail (BufferTooSmall (us_len MAX input) max_input_len)
  else
    q15_input ← from_uniform XL MAX input;
    max_payload_len ← calc_max_payload_len MAX_OUTPUT_LEN;
    let '(r, buf) := as_topic_data XL N_CH q15_input (payload_buffer serialized) in
    match r with
    | Panic => panic
    | Err _ => fail (Q15EncodingFailed max_payload_len (us_len MAX input))
    | Ok q15_bytes =>
        map_err (λ build_error, match build_error with
          | TopicSerializeFailed => TopicSerializationFailed TOPIC_HEADER_SIZE
          | PayloadTooLong => BufferTooSmall max_payload_len (len q15_bytes)
          end)
          (create_with_payload_length MAX_OUTPUT_LEN (write_payload_buffer buf serialized) (len q15_bytes))
    end.
End serializer.
Arguments uss_serialize {_ V _ T _} N_CH MAX_OUTPUT_LEN MAX {S} input t.

(** ** Lemmas *)

Lemma map_m_ex {S E A B} (f : A → M S E B) (P : A → B → Prop) l (st : S) :
  (∀ a, a ∈ l → ∃ b, f a st = (Ok b, st) ∧ P a b) →
  ∃ bs, map_m f l st = (Ok bs, st) ∧ Forall2 P l bs.
Proof.
  intros Hf. induction l as [|a l IH]; [by exists []|].
  destruct (Hf a) as (b & Hb & HP); [apply list_elem_of_here|].
  destruct IH as (bs & Hbs & HPs); [intros c Hc; apply Hf; by apply list_elem_of_further|].
  exists (b :: bs). cbn [map_m]. unfold mbind, M_bind. rewrite Hb, Hbs. split; [done|by constructor].
Qed.

(** A frequency that passes the check on the [f32] passes it on the bits. *)
Lemma verify_bits t fs d :
  0 < t → f32_valid fs → le_zero fs = false → is_nan fs = false →
  verify (mkUniform t (f32_to_bits fs) d) = true.
Proof.
  intros Ht Hv Hz Hn. unfold verify. cbn [u_t u_fs]. rewrite (proj2 (Z.leb_gt _ _)) by lia.
  destruct (f32_bits_fields fs Hv) as (s & e & m & Hb & He & Hm & Hx). rewrite Hb.
  destruct (f32_fields s e m He Hm) as (Hs & Hfe & Hfm & Hr).
  unfold f32_is_nan, f32_le_zero, f32_is_nan. rewrite Hfe, Hfm, Hs.
  destruct fs as [[]|[]| |[] mx ex]; try done; destruct Hx as (-> & Hx); cbn [orb].
  - destruct Hx as [-> ->]. done.
  - destruct Hx as [Hne Hx]. rewrite (proj2 (Z.eqb_neq e 255)) by done. cbn [andb negb orb].
    rewrite orb_false_r. rewrite (proj2 (Z.eqb_neq _ _)); [done|]. case_decide; [|lia]. lia.
Qed.

Section facts.
Context `{Libm} {V : Type} `{HV : HeaplessVec V} (LB N_CH MAX : Z) `{HVL : !HeaplessVecLaws V MAX}.
Context (HLB : 0 < LB) (HN : 0 < N_CH) (HMAX : 0 ≤ MAX ≤ num_max LB).

(** Quantised channels have nothing behind their samples, so they arrive as
    they are. *)
Lemma truncate_quantized n us :
  us_wf N_CH n us → 0 < n ≤ MAX →
  truncate N_CH MAX (mkQ15 n (quantized MAX <$> us_axes us)) = mkQ15 n (quantized MAX <$> us_axes us).
Proof using HN.
  intros [Hl Hf] Hn. unfold truncate. f_equal. cbn [num_samples].
  apply list_eq_same_length with (n := Z.to_nat N_CH).
  { unfold us_axes. by rewrite !length_fmap. }
  { rewrite length_fmap, length_seqZ. done. }
  intros i c1 c2 Hi H1 H2. apply list_lookup_fmap_Some in H1 as (ch & -> & Hch).
  apply lookup_seqZ in Hch as [-> Hch]. rewrite Z.add_0_l.
  unfold channel_at. rewrite Nat2Z.id. cbn [channels]. rewrite H2. cbn [default].
  apply list_lookup_fmap_Some in H2 as (ax & -> & Hax).
  apply list_lookup_fmap_Some in Hax as (v & -> & Hv).
  assert (Hlen : len (vec_slice v) = n).
  { rewrite list.Forall_forall in Hf. apply Hf. by eapply list_elem_of_lookup_2. }
  unfold truncate_channel, quantized. cbn [exponent values]. f_equal. rewrite Hlen. f_equal.
  apply list_eq_same_length with (n := Z.to_nat n).
  { rewrite length_fmap. unfold len in Hlen. lia. }
  { by rewrite length_fmap, length_seqZ. }
  intros j x y Hj H3 H4. apply list_lookup_fmap_Some in H3 as (k & -> & Hk).
  apply lookup_seqZ in Hk as [-> Hk]. rewrite Z.add_0_l. unfold sample_at. rewrite Nat2Z.id. cbn [values id].
  rewrite lookup_app_l; [by rewrite H4|]. apply lookup_lt_Some in H4. done.
Qed.

(** The channels of the packet that arrives, scaled back. *)
Lemma received_channels n us :
  us_wf N_CH n us → 0 ≤ n ≤ MAX →
  let q := received N_CH MAX (mkQ15 n (quantized MAX <$> us_axes us)) in
  num_samples q = n ∧ Forall2 (λ c axis, n ≤ len (values c) ∧
    (λ x, f32_mul (i16_as_f32 x) (scale_factor c)) <$> take (Z.to_nat n) (values c) =
    requantize (channel_exponent axis) <$> axis) (channels q) (us_axes us).
Proof using HN.
  intros Hwf Hn. pose proof Hwf as [Hl Hf]. unfold received. cbn [num_samples].
  destruct (Z.eqb_spec n 0) as [->|Hn0]; (split; [done|]).
  - cbn [channels]. apply Forall2_same_length_lookup_2; [rewrite length_replicate; unfold us_axes; by rewrite length_fmap|].
    intros i c axis [-> _]%lookup_replicate Hax. split; [apply len_nonneg|].
    apply list_lookup_fmap_Some in Hax as (v & -> & Hv).
    rewrite list.Forall_forall in Hf. pose proof (Hf v (list_elem_of_lookup_2 _ _ _ Hv)) as Hlen.
    by destruct (vec_slice v).
  - rewrite truncate_quantized by (done || lia). cbn [channels].
    apply Forall2_fmap_l, Forall_Forall2_diag, list.Forall_forall.
    intros axis (v & -> & Hv)%list_elem_of_fmap. rewrite list.Forall_forall in Hf.
    pose proof (Hf v Hv) as Hlen. unfold quantized. split; cbn [values].
    + unfold len in *. rewrite length_app, length_fmap, length_replicate. lia.
    + rewrite take_app_length' by (rewrite length_fmap; unfold len in Hlen; lia).
      by rewrite <-list_fmap_compose.
Qed.

(** What the receiver restores from the packet that arrives. *)
Lemma as_uniform_received {S E} n us t fs (st : S) :
  us_wf N_CH n us → 0 ≤ n ≤ MAX →
  ∃ us', as_uniform (V := V) (E := E) MAX
      (mkUniform t fs (received N_CH MAX (mkQ15 n (quantized MAX <$> us_axes us)))) st = (Ok us', st) ∧
    us_t us' = t ∧ us_fs us' = f32_from_bits fs ∧
    us_axes us' = (λ axis, requantize (channel_exponent axis) <$> axis) <$> us_axes us.
Proof using HVL HN.
  intros Hwf Hn. pose proof Hwf as [Hl Hf].
  destruct (received_channels n us Hwf Hn) as [Hnum Hch]. set (q := received _ _ _) in *. clearbody q.
  unfold as_uniform. cbn [u_data u_t u_fs]. rewrite Hnum. unfold assert, mbind, M_bind.
  rewrite (proj2 (Z.leb_le _ _)) by lia. cbn [mret M_ret].
  destruct (map_m_ex (restore_channel (V := V) (E := E) n) (λ c v, vec_slice v =
    (λ x, f32_mul (i16_as_f32 x) (scale_factor c)) <$> take (Z.to_nat n) (values c)) (channels q) st)
    as (vs & Hrun & Hvs).
  { intros c [i Hi]%list_elem_of_lookup_1.
    destruct (Forall2_lookup_l _ _ _ _ _ Hch Hi) as (axis & _ & Hlen & _). by eapply restore_run. }
  rewrite Hrun. eexists. split; [done|]. cbn [us_t us_fs]. split_and!; [done..|].
  unfold us_axes at 1. cbn [us_ch]. clear Hrun Hf Hl Hwf.
  revert vs Hvs. induction Hch as [|c axis cs axes [_ Hc] _ IH]; intros vs Hvs.
  - apply Forall2_nil_inv_l in Hvs as ->. done.
  - apply Forall2_cons_inv_l in Hvs as (v & vs' & Hv & Hvs & ->). rewrite !fmap_cons, Hv, Hc. f_equal. by apply IH.
Qed.
End facts.

(** ** The composition *)

Section property.
Context `{Libm} {V : Type} `{HV : HeaplessVec V} {T : Type} `{HT : Postcard T} `{HTL : !PostcardLaws T}.
Context (N_CH MAX_OUTPUT_LEN MAX : Z) `{HVL : !HeaplessVecLaws V MAX}.

(** The quantised packet fits the payload of the message. *)
Lemma packet_fits n :
  0 < N_CH → output_len_ok MAX_OUTPUT_LEN → 0 ≤ n ≤ MAX →
  MAX ≤ max_num_input_samples XL N_CH (MAX_OUTPUT_LEN - TOPIC_HEADER_SIZE) →
  12 ≤ MAX_OUTPUT_LEN - TOPIC_HEADER_SIZE →
  12 + size_of XL N_CH n ≤ MAX_OUTPUT_LEN - TOPIC_HEADER_SIZE ∧
  12 + size_of XL N_CH n ≤ MAX_MESSAGE_LEN ∧ MAX ≤ num_max XL.
Proof.
  intros HN Hout Hn Hmax Hmin. unfold output_len_ok in Hout.
  assert (HX : 0 < XL) by done.
  assert (Hs : 12 + size_of XL N_CH n ≤ MAX_OUTPUT_LEN - TOPIC_HEADER_SIZE).
  { unfold size_of. destruct (decide (n = 0)) as [->|]; [rewrite orb_true_r; lia|].
    rewrite !(proj2 (Z.eqb_neq _ _)) by lia. cbn [orb].
    apply (max_num_fits XL N_CH HX HN); lia. }
  split_and!; [done|lia|]. destruct (decide (MAX ≤ 0)); [unfold num_max, XL; lia|].
  assert (Hf : 12 + (XL + N_CH * (1 + 2 * MAX)) ≤ MAX_OUTPUT_LEN - TOPIC_HEADER_SIZE)
    by (apply (max_num_fits XL N_CH HX HN); lia).
  unfold MAX_MESSAGE_LEN, num_max, XL in *. assert (1 * (1 + 2 * MAX) ≤ N_CH * (1 + 2 * MAX)) by nia. lia.
Qed.

Lemma payload_buffer_len (t : T) :
  output_len_ok MAX_OUTPUT_LEN →
  len (payload_buffer (with_topic MAX_OUTPUT_LEN t)) = MAX_OUTPUT_LEN - TOPIC_HEADER_SIZE.
Proof.
  intros Hout. unfold payload_buffer, with_topic, builder_with_topic_new, zeroed, len. cbn [bt_bytes].
  rewrite length_drop, length_replicate. unfold output_len_ok, TOPIC_HEADER_SIZE in *. lia.
Qed.

(** The packet of [us]. *)
Definition packet_of n (us : UniformSamples V) : Uniform :=
  mkUniform (us_t us) (f32_to_bits (us_fs us)) (mkQ15 n (quantized MAX <$> us_axes us)).

Lemma uss_serialize_run {S} n (us : UniformSamples V) (t : T) hd (st : S) :
  0 < N_CH → output_len_ok MAX_OUTPUT_LEN → 12 ≤ MAX_OUTPUT_LEN - TOPIC_HEADER_SIZE →
  MAX ≤ max_num_input_samples XL N_CH (MAX_OUTPUT_LEN - TOPIC_HEADER_SIZE) →
  us_wf N_CH n us → us_len MAX us = n → 0 ≤ n ≤ MAX → uniform_ok N_CH MAX (packet_of n us) →
  serialize_topic_header t (replicate (Z.to_nat TOPIC_HEADER_SIZE) 0) = Some hd →
  let p := header (packet_of n us) ++ payload XL N_CH (u_data (packet_of n us)) in
  ∃ rest, uss_serialize N_CH MAX_OUTPUT_LEN MAX us t st = (Ok (mkSendable (hd ++ p ++ rest) (len p)), st) ∧
    TOPIC_HEADER_SIZE + len p + len rest = MAX_OUTPUT_LEN.
Proof using HVL.
  intros HN Hout Hmin Hmax Hwf Hlen Hn Hu Hser p. assert (HX : 0 < XL) by done.
  destruct (packet_fits n HN Hout Hn Hmax Hmin) as (Hfit & Hmsg & Hnm).
  assert (HM : 0 ≤ MAX ≤ num_max XL) by lia. pose proof (payload_buffer_len t Hout) as Hb.
  destruct (as_topic_data_run XL N_CH MAX HX HN HM (packet_of n us) (payload_buffer (with_topic MAX_OUTPUT_LEN t)) Hu Hmsg)
    as (rest & Hrun & Hrest); [cbn [packet_of u_data num_samples]; lia|].
  assert (Hp : len p = 12 + size_of XL N_CH n).
  { unfold p. rewrite len_app, len_header, (len_payload XL N_CH MAX HX HN) by apply Hu. done. }
  cbn [packet_of u_data num_samples] in Hrest. fold p in Hrun.
  exists rest. split; [|lia]. unfold uss_serialize, calc_max_input_len, assert, mbind, M_bind.
  unfold output_len_ok in Hout. rewrite (proj2 (Z.ltb_lt _ _)) by lia. cbn [mret M_ret].
  rewrite (proj2 (Z.leb_le _ _)) by done. cbn [mret M_ret]. rewrite (proj2 (Z.ltb_ge _ _)) by lia.
  rewrite (from_uniform_run (S := S) (E := UssError) XL N_CH MAX HX HN HM n us st Hwf Hlen Hn). fold (packet_of n us).
  rewrite calc_max_payload_len_run by done. rewrite Hrun. unfold map_err, write_payload_buffer. cbn [bt_topic].
  replace (take _ _) with (replicate (Z.to_nat TOPIC_HEADER_SIZE) 0); last first.
  { unfold with_topic, builder_with_topic_new, zeroed. cbn [bt_bytes].
    by rewrite take_replicate, Nat.min_l by (unfold TOPIC_HEADER_SIZE in *; lia). }
  change (bt_topic (with_topic MAX_OUTPUT_LEN t)) with t.
  by rewrite (create_with_payload_length_run MAX_OUTPUT_LEN Hout t _ _ _ hd) by (done || lia).
Qed.

(** The message, and what its payload parses to. *)
Lemma serialized_payload {S E} n (us : UniformSamples V) (t : T) (st : S) :
  0 < N_CH → output_len_ok MAX_OUTPUT_LEN → 12 ≤ MAX_OUTPUT_LEN - TOPIC_HEADER_SIZE →
  MAX ≤ max_num_input_samples XL N_CH (MAX_OUTPUT_LEN - TOPIC_HEADER_SIZE) →
  us_wf N_CH n us → us_len MAX us = n → 0 ≤ n ≤ MAX →
  0 < us_t us < 2 ^ 63 → f32_valid (us_fs us) → le_zero (us_fs us) = false → is_nan (us_fs us) = false →
  is_Some (pc_to_slice t (replicate (Z.to_nat TOPIC_HEADER_SIZE) 0)) →
  let p := header (packet_of n us) ++ payload XL N_CH (u_data (packet_of n us)) in
  MAX ≤ num_max XL ∧
  ∃ s, uss_serialize N_CH MAX_OUTPUT_LEN MAX us t st = (Ok s, st) ∧
    topic (E := E) s st = (Ok (Some t), st) ∧
    payload_bytes (E := E) s st = (Ok p, st) ∧
    from_topic_data XL N_CH MAX p =
      (Ok (mkUniform (us_t us) (f32_to_bits (us_fs us)) (received N_CH MAX (mkQ15 n (quantized MAX <$> us_axes us)))), p).
Proof using HTL HVL.
  intros HN Hout Hmin Hmax Hwf Hlen Hn Ht Hfs Hz Hnan [enc Henc] p. assert (HX : 0 < XL) by done.
  destruct (packet_fits n HN Hout Hn Hmax Hmin) as (Hfit & Hmsg & Hnm).
  assert (HM : 0 ≤ MAX ≤ num_max XL) by lia.
  assert (Hu : uniform_ok N_CH MAX (packet_of n us)).
  { split; cbn; [lia|by apply f32_to_bits_range|by apply quantized_ok]. }
  assert (Hv : verify (packet_of n us) = true) by (apply verify_bits; done || lia).
  assert (Hser : serialize_topic_header t (replicate (Z.to_nat TOPIC_HEADER_SIZE) 0) = Some (obfuscate enc)).
  { unfold serialize_topic_header. by rewrite Henc. }
  destruct (header_roundtrip t _ _ [] Hser) as [Hl Htp]. rewrite length_replicate in Hl. rewrite app_nil_r in Htp.
  assert (Hh : len (obfuscate enc) = TOPIC_HEADER_SIZE) by (unfold len; rewrite Hl; done).
  destruct (uss_serialize_run n us t _ st HN Hout Hmin Hmax Hwf Hlen Hn Hu Hser) as (rest & Hrun & Hrest).
  destruct (reads_of_parts (T := T) (E := E) MAX_OUTPUT_LEN Hout _ _ rest st Hh Hrest) as (_ & _ & Hpl & Htop).
  split; [done|]. eexists. split; [exact Hrun|]. split; [by rewrite Htop, Htp|]. split; [exact Hpl|].
  exact (received_run XL N_CH MAX HX HN HM (packet_of n us) Hu Hv Hmsg).
Qed.

(** What is sent is what arrives.  For a set of samples with a valid time
    and frequency that fits the capacity the type declares, and a topic that
    [postcard] can encode, [serialize] never fails or panics; the message has
    the topic, and its payload parses at the receiver to a set with the same
    time, frequency, channels and number of samples, each sample being the
    original quantised with its channel's exponent and scaled back. *)
Theorem serialized_samples_arrive {S E} n (us : UniformSamples V) (t : T) (st : S) :
  0 < N_CH → output_len_ok MAX_OUTPUT_LEN → 12 ≤ MAX_OUTPUT_LEN - TOPIC_HEADER_SIZE →
  MAX ≤ max_num_input_samples XL N_CH (MAX_OUTPUT_LEN - TOPIC_HEADER_SIZE) →
  us_wf N_CH n us → us_len MAX us = n → 0 ≤ n ≤ MAX →
  0 < us_t us < 2 ^ 63 → f32_valid (us_fs us) → le_zero (us_fs us) = false → is_nan (us_fs us) = false →
  is_Some (pc_to_slice t (replicate (Z.to_nat TOPIC_HEADER_SIZE) 0)) →
  ∃ s payload u us',
    uss_serialize N_CH MAX_OUTPUT_LEN MAX us t st = (Ok s, st) ∧
    topic (E := E) s st = (Ok (Some t), st) ∧
    payload_bytes (E := E) s st = (Ok payload, st) ∧
    from_topic_data XL N_CH MAX payload = (Ok u, payload) ∧
    as_uniform (V := V) (E := E) MAX u st = (Ok us', st) ∧
    us_t us' = us_t us ∧ us_fs us' = us_fs us ∧
    us_axes us' = (λ axis, requantize (channel_exponent axis) <$> axis) <$> us_axes us.
Proof using HTL HVL.
  intros HN Hout Hmin Hmax Hwf Hlen Hn Ht Hfs Hz Hnan Htopic.
  destruct (serialized_payload (E := E) n us t st HN Hout Hmin Hmax Hwf Hlen Hn Ht Hfs Hz Hnan Htopic)
    as (_ & s & Hrun & Htop & Hpl & Hrecv).
  destruct (as_uniform_received (S := S) (E := E) N_CH MAX HN n us (us_t us) (f32_to_bits (us_fs us)) st Hwf Hn)
    as (us' & Has & Ht' & Hfs' & Hax).
  rewrite f32_bits_roundtrip in Hfs' by done.
  eexists _, _, _, us'. split_and!; [exact Hrun|exact Htop|exact Hpl|exact Hrecv|exact Has|done..].
Qed.
End property.

Module DemoSerializer.
Import DemoUniform DemoSerialize.

(** Stand-ins for the functions of [libm]. *)
#[global] Instance demo_libm : Libm := {
  fabsf := SFabs; log2f x := x; ceilf x := x; roundf x := x; powf _ y := f32_of_int 4
}.

Lemma serialized_samples_arrive_witness :
  ∃ s payload u us',
    uss_serialize 2 100 4 demo true tt = (Ok s, tt) ∧
    payload_bytes (E := unit) s tt = (Ok payload, tt) ∧
    from_topic_data XL 2 4 payload = (Ok u, payload) ∧
    as_uniform (V := listvec 4) (E := unit) 4 u tt = (Ok us', tt) ∧ us_t us' = 5000000.
Proof.
  destruct (serialized_samples_arrive (V := listvec 4) (E := unit) 2 100 4 3 demo true tt)
    as (s & payload & u & us' & Hs & _ & Hp & Hu & Ha & Ht & _).
  - lia.
  - unfold output_len_ok, TOPIC_HEADER_SIZE, MAX_MESSAGE_LEN. lia.
  - unfold TOPIC_HEADER_SIZE. lia.
  - vm_compute. discriminate.
  - split; [reflexivity|]. repeat constructor.
  - vm_compute. reflexivity.
  - lia.
  - cbn. lia.
  - vm_compute. reflexivity.
  - vm_compute. reflexivity.
  - vm_compute. reflexivity.
  - by eexists.
  - exists s, payload, u, us'. done.
Defined.
End DemoSerializer.
