(* ===== verification/BufferProps.v ===== *)
(** * Buffering of samples: properties

    Every call of [push_data] ends within two iterations of its loop and
    accounts for every sample; a packet is never dropped. *)

From stdpp Require Import base list list_numbers numbers option.
From S2P Require Import Prelude Samples SamplesFacts Numeric UniformSamples Serialize Buffer.

(** ** Buffering of samples: invariant and the effect of a push *)

(** ** Samples per axis *)

Notation axes := (list (list f32)).

(** Append per axis. *)
Definition axes_app (a b : axes) : axes := zip_with (++) a b.
Definition axes_nil (N : Z) : axes := replicate (Z.to_nat N) [].

(** The samples of a batch. *)
Definition sd_axes (data : SampleData) : axes := take (Z.to_nat (sd_len data)) <$> sd_samples data.

Lemma axes_app_assoc a b c : axes_app a (axes_app b c) = axes_app (axes_app a b) c.
Proof.
  unfold axes_app. revert b c. induction a as [|x a IH]; intros [|y b] [|z c]; try done.
  simpl. by rewrite IH, (assoc_L (++)).
Qed.

Lemma axes_app_nil_r N a : length a = Z.to_nat N → axes_app a (axes_nil N) = a.
Proof.
  unfold axes_app, axes_nil. intros <-. induction a as [|x a IH]; [done|]. simpl. by rewrite IH, app_nil_r.
Qed.

Lemma axes_app_nil_l N a : length a = Z.to_nat N → axes_app (axes_nil N) a = a.
Proof.
  unfold axes_app, axes_nil. intros <-. induction a as [|x a IH]; [done|]. simpl. by rewrite IH.
Qed.

Section facts.
Context {V : Type} `{HV : HeaplessVec V} (N MAX : Z) `{HVL : !HeaplessVecLaws V MAX}.
Context (HN : 0 < N) (HMAX : 0 < MAX).
Implicit Types sb : SerializingBuffer V.

(** Timestamps for which the arithmetic of [push] cannot overflow. *)
Definition ts_ok (t : Z) : Prop := 0 ≤ t < 2 ^ 62.

(** All axes hold [n] samples. *)
Definition holds (n : Z) sb : Prop :=
  us_wf N n (sample_buffer sb) ∧ 0 ≤ n ≤ MAX ∧ (us_t (sample_buffer sb) = 0 → n = 0).
Definition buffer_ok sb : Prop :=
  (∃ n, holds n sb) ∧ ts_ok (us_t (sample_buffer sb)) ∧ ts_ok (last_timestamp sb) ∧ ts_ok (t_delta_us sb).

(** A batch of a type that compiles, with timestamps in order. *)
Definition data_ok (data : SampleData) : Prop :=
  length (sd_samples data) = Z.to_nat N ∧
  Forall (λ axis, sd_len data ≤ len axis) (sd_samples data) ∧
  0 ≤ sd_len data ≤ MAX ∧ 0 < sd_t data ∧ sd_t data ≤ sd_t_last data ∧ ts_ok (sd_t_last data).

Definition sb_axes sb : axes := us_axes (sample_buffer sb).

Lemma fold_min_const n (l : list V) a :
  n ≤ a → Forall (λ v, len (vec_slice v) = n) l → l ≠ [] →
  foldl (λ acc vec, Z.min acc (len (vec_slice vec))) a l = n.
Proof.
  intros Ha Hl Hne. assert (Hmin : ∀ l a, n ≤ a → Forall (λ v, len (vec_slice v) = n) l →
    foldl (λ acc vec, Z.min acc (len (vec_slice vec))) a l = if decide (l = []) then a else n).
  { clear. induction l as [|v l IH]; intros a Ha Hl; [done|]. apply Forall_cons_1 in Hl as [Hv Hl].
    simpl. rewrite IH by (done || lia). repeat case_decide; (done || lia). }
  rewrite Hmin by done. by case_decide.
Qed.

Lemma sb_len_holds n sb : holds n sb → sb_len MAX sb = n.
Proof using HN.
  intros ((Hl & Hf) & Hn & Ht). unfold sb_len, us_len. destruct (Z.eqb_spec (us_t (sample_buffer sb)) 0) as [H0|].
  - symmetry. by apply Ht.
  - apply fold_min_const; [lia|done|]. intros Heq. rewrite Heq in Hl. simpl in Hl. lia.
Qed.

Lemma length_sb_axes n sb : holds n sb → length (sb_axes sb) = Z.to_nat N.
Proof. intros ((Hl & _) & _). unfold sb_axes, us_axes. by rewrite length_fmap. Qed.

Lemma length_sd_axes data : data_ok data → length (sd_axes data) = Z.to_nat N.
Proof. intros (Hl & _). unfold sd_axes. by rewrite length_fmap. Qed.

(** ** Clearing *)

Lemma sb_axes_clear sb : sb_axes (sb_clear N sb) = axes_nil N.
Proof using HVL.
  unfold sb_axes, us_axes, sb_clear, axes_nil. cbn. by rewrite fmap_replicate, vec_slice_new.
Qed.

Lemma holds_clear sb : holds 0 (sb_clear N sb).
Proof using HVL HMAX.
  split_and!; [|lia|lia|done]. split; cbn; [by rewrite length_replicate|].
  apply Forall_replicate. by rewrite vec_slice_new.
Qed.

Lemma buffer_ok_clear sb : buffer_ok sb → buffer_ok (sb_clear N sb).
Proof using HVL HMAX.
  intros (_ & _ & ? & ?). split_and!; [eexists; apply holds_clear|done..|unfold ts_ok; cbn; lia| |]; try done.
Qed.

(** ** The loop over the axes *)

Lemma extend_axes_run data n cdone ctodo sdone stodo sb :
  us_ch (sample_buffer sb) = cdone ++ ctodo →
  sd_samples data = sdone ++ stodo → length cdone = length sdone → length ctodo = length stodo →
  0 ≤ sd_len data → n + sd_len data ≤ MAX →
  Forall (λ v, len (vec_slice v) = n) ctodo → Forall (λ axis, sd_len data ≤ len axis) stodo →
  ∃ ctodo', extend_axes data (seqZ (len cdone) (len ctodo)) sb =
      (Ok true, set_sample_buffer (set_us_ch (cdone ++ ctodo') (sample_buffer sb)) sb) ∧
    length ctodo' = length ctodo ∧
    vec_slice <$> ctodo' = axes_app (vec_slice <$> ctodo) (take (Z.to_nat (sd_len data)) <$> stodo).
Proof using HVL.
  revert cdone ctodo sdone sb. induction stodo as [|ax stodo IH]; intros cdone [|v ctodo] sdone sb
    Hch Hsd Hd Ht Hl0 Hlen Hc Hs; try done.
  - exists []. split; [|done]. cbn. rewrite <-Hch. by destruct sb as [[]].
  - apply Forall_cons_1 in Hc as [Hv Hc]. apply Forall_cons_1 in Hs as [Hax Hs].
    rewrite len_cons, seqZ_cons by (pose proof (len_nonneg ctodo); lia).
    replace (Z.succ (len cdone)) with (len (cdone ++ [v])) by (rewrite len_app; done).
    replace (Z.pred (1 + len ctodo)) with (len ctodo) by lia.
    destruct (vec_extend_ok v (take (Z.to_nat (sd_len data)) ax)) as (v' & Hext & Hv').
    { rewrite Hv. unfold len in *. rewrite length_take. lia. }
    cbn [extend_axes]. unfold mbind, M_bind at 1.
    rewrite (index_run _ _ ax) by (rewrite Hsd; unfold len; rewrite Nat2Z.id, Hd; apply list_lookup_middle; done).
    unfold M_bind at 1. rewrite range_of_run by lia. rewrite slice_0. unfold M_bind at 1. cbn [gets].
    unfold M_bind at 1. unfold compose at 1. rewrite Hch.
    rewrite (index_run _ _ v) by (unfold len; rewrite Nat2Z.id; apply list_lookup_middle; done).
    rewrite Hext. unfold M_bind at 1. cbn [modify].
    replace (Z.to_nat (len cdone)) with (length cdone) by (unfold len; lia).
    change ((us_ch ∘ sample_buffer) sb) with (us_ch (sample_buffer sb)). rewrite Hch.
    rewrite insert_app_r_alt, Nat.sub_diag by lia. cbn [insert list_insert].
    destruct (IH (cdone ++ [v']) ctodo (sdone ++ [ax])
      (set_sample_buffer (set_us_ch (cdone ++ v' :: ctodo) (sample_buffer sb)) sb)) as (ct' & Hrun & Hlt & Heq).
    + cbn. by rewrite <-(assoc_L (++)).
    + rewrite Hsd. by rewrite <-(assoc_L (++)).
    + rewrite !length_app. simpl. lia.
    + simpl in Ht. lia.
    + done.
    + done.
    + done.
    + done.
    + exists (v' :: ct'). split_and!; [|simpl; lia|].
      * replace (len (cdone ++ [v])) with (len (cdone ++ [v'])) by (rewrite !len_app; done).
        rewrite Hrun. cbn. by rewrite <-(assoc_L (++)).
      * rewrite !fmap_cons, Heq, Hv'. done.
Qed.

(** ** A push *)

(** [sb'] is [sb] with the batch appended. *)
Record appended (data : SampleData) (n : Z) sb sb' : Prop := {
  app_axes : sb_axes sb' = axes_app (sb_axes sb) (sd_axes data);
  app_holds : holds (n + sd_len data) sb';
  app_t : us_t (sample_buffer sb') = if decide (n = 0) then sd_t data else us_t (sample_buffer sb);
  app_fs : us_fs (sample_buffer sb') = us_fs (sample_buffer sb);
  app_last : last_timestamp sb' = sd_t_last data;
  app_delta : t_delta_us sb' = t_delta_us sb;
  app_timeout : timeout_us sb' = timeout_us sb
}.

(** How far the samples in the buffer reach back. *)
Definition time_range sb : Z := last_timestamp sb - us_t (sample_buffer sb).

(** What [push] does to a buffer of [n] samples. *)
Inductive pushed (data : SampleData) (n : Z) sb : BufferStatus → SerializingBuffer V → Prop :=
| pushed_no_space :
    MAX < n + sd_len data → pushed data n sb BS_NotEnoughSpace sb
| pushed_not_contiguous :
    n + sd_len data ≤ MAX → 0 < n → last_timestamp sb + t_delta_us sb < sd_t data →
    pushed data n sb BS_NotContiguous sb
| pushed_timeout sb' :
    appended data n sb sb' → timeout_us sb < time_range sb' →
    pushed data n sb BS_Timeout sb'
| pushed_no_space_for_next sb' :
    appended data n sb sb' → time_range sb' ≤ timeout_us sb → MAX < n + sd_len data + sd_len data →
    pushed data n sb BS_NotEnoughSpaceForNext sb'
| pushed_ok sb' :
    appended data n sb sb' → time_range sb' ≤ timeout_us sb → n + sd_len data + sd_len data ≤ MAX →
    pushed data n sb BS_Ok sb'.

(** The state [push] continues with after the check for an empty buffer. *)
Definition started (data : SampleData) (n : Z) sb : SerializingBuffer V :=
  if decide (n = 0) then
    set_last_timestamp (sd_t_last data) (set_sample_buffer (set_us_t (sd_t data) (sample_buffer sb)) sb)
  else sb.

Lemma append_run data n sb :
  holds n sb → data_ok data → n + sd_len data ≤ MAX →
  ∃ sb', extend_axes data (seqZ 0 N) (started data n sb) = (Ok true, sb') ∧
    appended data n sb (set_last_timestamp (sd_t_last data) sb').
Proof using HVL HN.
  intros Hh (Hls & Hax & Hdl & Ht & _) Hle. pose proof Hh as ((Hlc & Hfc) & Hn & Ht0).
  assert (Hst : us_ch (sample_buffer (started data n sb)) = [] ++ us_ch (sample_buffer sb)).
  { unfold started. by case_decide. }
  destruct (extend_axes_run data n [] (us_ch (sample_buffer sb)) [] (sd_samples data) (started data n sb))
    as (ch' & Hrun & Hl' & Heq); try done; [congruence|lia|].
  replace (len (us_ch (sample_buffer sb))) with N in Hrun by (unfold len; rewrite Hlc; lia).
  rewrite len_nil in Hrun. eexists. split; [exact Hrun|].
  assert (Hax' : sb_axes (set_last_timestamp (sd_t_last data)
      (set_sample_buffer (set_us_ch ([] ++ ch') (sample_buffer (started data n sb))) (started data n sb))) =
      axes_app (sb_axes sb) (sd_axes data)) by exact Heq.
  constructor; [exact Hax'| |unfold started; by case_decide..].
  split_and!; [split|lia..|].
  - cbn. by rewrite Hl'.
  - cbn. apply list.Forall_forall. intros v Hv.
    apply list_elem_of_lookup_1 in Hv as [i Hi].
    assert (Hvi : (vec_slice <$> ch') !! i = Some (vec_slice v)) by (rewrite list_lookup_fmap, Hi; done).
    rewrite Heq in Hvi. unfold axes_app in Hvi.
    apply lookup_zip_with_Some in Hvi as (a & b & -> & Ha & Hb).
    apply list_lookup_fmap_Some in Ha as (w & -> & Hw). apply list_lookup_fmap_Some in Hb as (ax & -> & Hb).
    rewrite list.Forall_forall in Hfc. rewrite list.Forall_forall in Hax.
    rewrite len_app, (Hfc w) by (by eapply list_elem_of_lookup_2).
    pose proof (Hax ax (list_elem_of_lookup_2 _ _ _ Hb)). unfold len in *. rewrite length_take. lia.
  - unfold started. case_decide; cbn; [lia|]. intros ?%Ht0. lia.
Qed.

Lemma push_spec data n sb :
  holds n sb → buffer_ok sb → data_ok data →
  ∃ st sb', push N MAX data sb = (Ok st, sb') ∧ pushed data n sb st sb'.
Proof using HVL HN.
  intros Hh (_ & Ht & Hl & Hd) Hdata. unfold push. unfold mbind, M_bind at 1. cbn [gets].
  rewrite (sb_len_holds n) by done.
  destruct (Z.ltb_spec MAX (n + sd_len data)); [do 2 eexists; split; [done|by constructor]|].
  unfold M_bind at 1. cbn [gets]. unfold sb_is_empty at 1. rewrite (sb_len_holds n) by done.
  unfold M_bind at 1.
  replace (_ sb) with (@Ok Empty_set unit tt, started data n sb); last first.
  { unfold started. destruct (Z.eqb_spec n 0); by case_decide. }
  unfold M_bind at 1. cbn [gets]. unfold M_bind at 1. cbn [gets]. unfold M_bind at 1.
  pose proof Hdata as (_ & _ & Hdl & Htp & Htl & Hts). unfold ts_ok in *.
  unfold i64_add. rewrite i64_op_run; last first.
  { unfold started, is_i64, i64_min, i64_max. case_decide; cbn; lia. }
  destruct (append_run data n sb Hh Hdata) as (sb1 & Hrun & Happ); [done|].
  destruct (Z.ltb_spec (last_timestamp (started data n sb) + t_delta_us (started data n sb)) (sd_t data)) as [Hc|Hc].
  { unfold started in Hc |- *. case_decide; [cbn in Hc; lia|]. do 2 eexists. split; [done|].
    apply pushed_not_contiguous; [done|destruct Hh as (_ & ? & _); lia|done]. }
  unfold M_bind at 1. rewrite Hrun. cbn [negb]. unfold M_bind at 1. cbn [modify].
  set (sb2 := set_last_timestamp _ sb1) in *.
  unfold M_bind at 1. cbn [gets compose]. unfold M_bind at 1. cbn [gets]. unfold M_bind at 1.
  unfold i64_sub. rewrite i64_op_run; last first.
  { unfold compose. rewrite (app_t _ _ _ _ Happ), (app_last _ _ _ _ Happ). unfold is_i64, i64_min, i64_max.
    case_decide; lia. }
  unfold M_bind at 1. cbn [gets]. rewrite (app_timeout _ _ _ _ Happ).
  change (last_timestamp sb2 - us_t (sample_buffer sb2)) with (time_range sb2).
  destruct (Z.ltb_spec (timeout_us sb) (time_range sb2)); [do 2 eexists; split; [done|by constructor]|].
  unfold M_bind at 1. cbn [gets]. rewrite (sb_len_holds _ _ (app_holds _ _ _ _ Happ)).
  destruct (Z.ltb_spec MAX (n + sd_len data + sd_len data)); do 2 eexists; (split; [done|by constructor]).
Qed.
End facts.

Section manager.
Context {V : Type} `{HV : HeaplessVec V} (N MAX : Z) `{HVL : !HeaplessVecLaws V MAX}.
Context (HN : 0 < N) (HMAX : 0 < MAX).
Context {Ser Error : Type} (serialize : Ser → UniformSamples V → SerializedSendable + Error).
Implicit Types m : BufferManager V Ser.
Implicit Types sb : SerializingBuffer V.

(** A call of the serializer with its result. *)
Notation call := (UniformSamples V * (SerializedSendable + Error))%type.

Definition call_packet (c : call) : option SerializedSendable :=
  match c.2 with inl p => Some p | inr _ => None end.
Definition result_packets (r : BufferResult) : list SerializedSendable :=
  match r with Serialized p => [p] | _ => [] end.

(** The samples of the calls, followed by those of a buffer. *)
Definition all_samples (calls : list call) (rest : axes) : axes :=
  foldr (λ c acc, axes_app (us_axes c.1) acc) rest calls.

(** What [push_data] does: the calls of the serializer it makes, its result and
    the buffer it leaves. *)
Record push_effect (data : SampleData) m (calls : list call) (r : BufferResult) m' : Prop := {
  pe_calls : Forall (λ c, serialize (serializer m) c.1 = c.2) calls;
  pe_samples : all_samples calls (sb_axes (buffer m')) = axes_app (sb_axes (buffer m)) (sd_axes data);
  pe_packets : omap call_packet calls = result_packets r;
  pe_two : (length calls ≤ 2)%nat;
  pe_failed : r = SerializationFailed → length calls = 2%nat;
  pe_ok : buffer_ok N MAX (buffer m');
  pe_serializer : serializer m' = serializer m;
  pe_timeout : timeout_us (buffer m') = timeout_us (buffer m);
  pe_latency : r = DataAdded → calls = [] →
    time_range (buffer m') ≤ timeout_us (buffer m) ∧ sb_len MAX (buffer m') + sd_len data ≤ MAX
}.

Lemma appended_ok data n sb sb' :
  buffer_ok N MAX sb → data_ok N MAX data → appended N MAX data n sb sb' → buffer_ok N MAX sb'.
Proof.
  intros (_ & Ht & Hl & Hd) (_ & _ & Hdl & Htp & Htl & Hts) [? Happ Ht' ? Hl' Hd' ?].
  split_and!; [by eexists|rewrite Ht'|by rewrite Hl'|by rewrite Hd'].
  unfold ts_ok in *. case_decide; lia.
Qed.

(** ** One iteration of the loop *)

Definition cleared sb m : BufferManager V Ser := set_buffer (sb_clear N sb) m.

Lemma push_loop_step fuel data m packet tries st sb' :
  push N MAX data (buffer m) = (Ok st, sb') →
  push_loop N MAX serialize (S fuel) data packet tries m =
  let '(ins, should) :=
    match st with
    | BS_Ok => (true, sb_is_full MAX sb')
    | BS_NotContiguous | BS_NotEnoughSpace => (false, true)
    | BS_NotEnoughSpaceForNext | BS_Timeout => (true, if packet is None then true else false)
    end in
  if should then
    match serialize (serializer m) (sample_buffer sb') with
    | inl p => if ins then (Ok (Some (Serialized p)), cleared sb' m)
               else push_loop N MAX serialize fuel data (Some p) tries (cleared sb' m)
    | inr _ => if 1 <=? tries then (Ok (Some SerializationFailed), cleared sb' m)
               else if ins then (Ok (Some (push_result packet)), cleared sb' m)
               else push_loop N MAX serialize fuel data packet (tries + 1) (cleared sb' m)
    end
  else if ins then (Ok (Some (push_result packet)), set_buffer sb' m)
  else push_loop N MAX serialize fuel data packet tries (set_buffer sb' m).
Proof.
  intros Hrun. cbn [push_loop]. unfold mbind, M_bind at 1. unfold zoom at 1. rewrite Hrun.
  unfold M_bind at 1. cbn [gets]. change ((sb_is_full MAX ∘ buffer) (set_buffer sb' m)) with (sb_is_full MAX sb').
  destruct st, (sb_is_full MAX sb'), packet; try done; unfold M_bind at 1; cbn [gets id];
    change (serializer (set_buffer sb' m)) with (serializer m);
    change (buffer (set_buffer sb' m)) with sb';
    destruct (serialize (serializer m) (sample_buffer sb')); try done;
    by destruct (1 <=? tries) eqn:Ht; unfold M_bind; cbn [modify bm_clear]; rewrite ?Ht.
Qed.

(** An iteration that inserts the batch into a buffer of [n] samples: the batch
    stays in the buffer, or the buffer is serialized. *)
Inductive inserted (data : SampleData) (n : Z) m (packet : option SerializedSendable) (tries : Z) :
    BufferResult → BufferManager V Ser → Prop :=
| inserted_kept sb' :
    appended N MAX data n (buffer m) sb' →
    (packet = None → time_range sb' ≤ timeout_us (buffer m) ∧ n + sd_len data + sd_len data ≤ MAX) →
    inserted data n m packet tries (push_result packet) (set_buffer sb' m)
| inserted_serialized sb' :
    appended N MAX data n (buffer m) sb' → packet = None ∨ 0 < n →
    inserted data n m packet tries
      match serialize (serializer m) (sample_buffer sb') with
      | inl p => Serialized p
      | inr _ => if 1 <=? tries then SerializationFailed else push_result packet
      end (cleared sb' m).

Lemma serialized_case data n m packet tries sb' :
  appended N MAX data n (buffer m) sb' → packet = None ∨ 0 < n →
  ∃ r m',
    match serialize (serializer m) (sample_buffer sb') with
    | inl p => (Ok (Some (Serialized p)), cleared sb' m)
    | inr _ => if 1 <=? tries then (Ok (Some SerializationFailed), cleared sb' m)
               else (Ok (E := Empty_set) (Some (push_result packet)), cleared sb' m)
    end = (Ok (Some r), m') ∧ inserted data n m packet tries r m'.
Proof.
  intros Ha Hc. do 2 eexists. split; [|by apply (inserted_serialized data n m packet tries sb')].
  by destruct (serialize _ _); [|destruct (1 <=? tries)].
Qed.

Lemma push_iteration fuel data n m packet tries :
  holds N MAX n (buffer m) → buffer_ok N MAX (buffer m) → data_ok N MAX data →
  (∃ r m', push_loop N MAX serialize (S fuel) data packet tries m = (Ok (Some r), m') ∧
     inserted data n m packet tries r m') ∨
  0 < n ∧ push_loop N MAX serialize (S fuel) data packet tries m =
    match serialize (serializer m) (sample_buffer (buffer m)) with
    | inl p => push_loop N MAX serialize fuel data (Some p) tries (cleared (buffer m) m)
    | inr _ => if 1 <=? tries then (Ok (Some SerializationFailed), cleared (buffer m) m)
               else push_loop N MAX serialize fuel data packet (tries + 1) (cleared (buffer m) m)
    end.
Proof using HVL HN HMAX.
  intros Hh Hok Hd. destruct (push_spec N MAX HN data n (buffer m) Hh Hok Hd) as (st & sb' & Hrun & Hp).
  pose proof Hd as (_ & _ & Hdl & _). pose proof Hh as (_ & Hn & _).
  rewrite (push_loop_step _ _ _ _ _ _ _ Hrun).
  destruct Hp as [Hs|Hs Hn0 Hc|sb' Ha Ht|sb' Ha Ht Hs|sb' Ha Ht Hs].
  - right. split; [lia|done].
  - right. done.
  - left. destruct packet as [p|].
    + do 2 eexists. split; [done|]. by apply (inserted_kept data n m (Some p)).
    + apply serialized_case; [done|by left].
  - left. destruct packet as [p|].
    + do 2 eexists. split; [done|]. by apply (inserted_kept data n m (Some p)).
    + apply serialized_case; [done|by left].
  - left. unfold sb_is_full. rewrite (sb_len_holds N MAX HN _ _ (app_holds _ _ _ _ _ _ Ha)).
    destruct (Z.eqb_spec (n + sd_len data) MAX).
    + apply serialized_case; [done|right; lia].
    + do 2 eexists. split; [done|]. by apply (inserted_kept data n m packet).
Qed.

(** ** The effect of a call *)

Lemma all_samples_kept data n m sb' :
  appended N MAX data n (buffer m) sb' →
  all_samples [] (sb_axes sb') = axes_app (sb_axes (buffer m)) (sd_axes data).
Proof. intros []. done. Qed.

Lemma all_samples_serialized data n m sb' res :
  appended N MAX data n (buffer m) sb' →
  all_samples [(sample_buffer sb', res)] (sb_axes (sb_clear N sb')) =
    axes_app (sb_axes (buffer m)) (sd_axes data).
Proof using HVL.
  intros []. cbn [all_samples foldr fst]. rewrite (sb_axes_clear _ MAX).
  rewrite axes_app_nil_r; [done|]. by eapply length_sb_axes.
Qed.

(** The samples of a refused batch after the buffer was handed over. *)
Lemma all_samples_retry data n m res calls rest :
  holds N MAX n (buffer m) → data_ok N MAX data →
  all_samples calls rest = axes_app (sb_axes (sb_clear N (buffer m))) (sd_axes data) →
  all_samples ((sample_buffer (buffer m), res) :: calls) rest =
    axes_app (sb_axes (buffer m)) (sd_axes data).
Proof using HVL.
  intros Hh Hd Heq. cbn [all_samples foldr fst]. fold (all_samples calls rest). rewrite Heq.
  rewrite (sb_axes_clear _ MAX), axes_app_nil_l by (by eapply length_sd_axes). done.
Qed.

Lemma set_buffer_ok data n m sb' :
  buffer_ok N MAX (buffer m) → data_ok N MAX data → appended N MAX data n (buffer m) sb' →
  buffer_ok N MAX (buffer (set_buffer sb' m)) ∧ buffer_ok N MAX (buffer (cleared sb' m)) ∧
  timeout_us (buffer (set_buffer sb' m)) = timeout_us (buffer m) ∧
  timeout_us (buffer (cleared sb' m)) = timeout_us (buffer m).
Proof using HVL HMAX.
  intros Hok Hd Ha. pose proof (appended_ok _ _ _ _ Hok Hd Ha) as Hok'.
  split_and!; [done|by apply buffer_ok_clear|apply Ha..].
Qed.

(** The iteration that inserts the batch while no packet is held. *)
Lemma inserted_effect data n m tries r m' :
  buffer_ok N MAX (buffer m) → data_ok N MAX data → inserted data n m None tries r m' →
  ∃ calls, push_effect data m calls (if r is SerializationFailed then DataAdded else r) m' ∧
    (length calls ≤ 1)%nat ∧ (r = SerializationFailed → 1 ≤ tries ∧ length calls = 1%nat).
Proof using HVL HN HMAX.
  intros Hok Hd Hi. inversion Hi as [sb' Ha Hlat|sb' Ha _]; subst; clear Hi;
    destruct (set_buffer_ok _ _ _ _ Hok Hd Ha) as (Hok1 & Hok2 & Ht1 & Ht2).
  - exists []. split_and!; [|simpl; lia|done]. cbn. split; try done; [by eapply all_samples_kept|cbn; lia|].
    intros _ _. cbn. rewrite (sb_len_holds N MAX HN _ _ (app_holds _ _ _ _ _ _ Ha)). by apply Hlat.
  - exists [(sample_buffer sb', serialize (serializer m) (sample_buffer sb'))].
    assert (Hall := all_samples_serialized _ _ _ _ (serialize (serializer m) (sample_buffer sb')) Ha).
    split_and!; [|simpl; lia|].
    + split; try done; [by constructor| |cbn; lia|].
      * cbn. unfold call_packet. cbn. by destruct (serialize _ _); [|destruct (1 <=? tries)].
      * by destruct (serialize _ _); [|destruct (1 <=? tries)].
    + destruct (serialize _ _); [done|]. by destruct (Z.leb_spec 1 tries).
Qed.

(** The iteration that inserts the batch into the cleared buffer while packet
    [p] is held. *)
Lemma inserted_held data m p tries r m' :
  buffer_ok N MAX (buffer m) → data_ok N MAX data → inserted data 0 m (Some p) tries r m' →
  r = Serialized p ∧ all_samples [] (sb_axes (buffer m')) = axes_app (sb_axes (buffer m)) (sd_axes data) ∧
  buffer_ok N MAX (buffer m') ∧ serializer m' = serializer m ∧
  timeout_us (buffer m') = timeout_us (buffer m).
Proof using HVL HMAX.
  intros Hok Hd Hi. inversion Hi as [sb' Ha _|sb' Ha Hc]; subst; [|destruct Hc; [done|lia]].
  destruct (set_buffer_ok _ _ _ _ Hok Hd Ha) as (Hok1 & _ & Ht1 & _).
  split_and!; [done|by eapply all_samples_kept|done..].
Qed.

Lemma push_data_effect fuel data m :
  buffer_ok N MAX (buffer m) → data_ok N MAX data → (2 ≤ fuel)%nat →
  ∃ calls r m', push_data N MAX serialize fuel data m = (Ok (Some r), m') ∧
    push_effect data m calls r m'.
Proof using HVL HN HMAX.
  intros Hok Hd Hf. destruct fuel as [|[|fuel]]; [lia..|]. unfold push_data.
  pose proof Hok as ((n & Hh) & _).
  destruct (push_iteration (S fuel) data n m None 0 Hh Hok Hd) as [(r & m' & -> & Hi)|[Hn ->]].
  { destruct (inserted_effect _ _ _ _ _ _ Hok Hd Hi) as (calls & He & _ & Hfail).
    exists calls, r, m'. split; [done|]. by destruct r; [..|destruct Hfail; [done|lia]]. }
  assert (Hh' : holds N MAX 0 (buffer (cleared (buffer m) m))) by by apply holds_clear.
  assert (Hok' : buffer_ok N MAX (buffer (cleared (buffer m) m))) by by apply buffer_ok_clear.
  destruct (serialize (serializer m) (sample_buffer (buffer m))) as [p|e] eqn:Hser.
  - destruct (push_iteration fuel data 0 (cleared (buffer m) m) (Some p) 0 Hh' Hok' Hd)
      as [(r & m' & -> & Hi)|[? _]]; [|lia].
    destruct (inserted_held _ _ _ _ _ _ Hok' Hd Hi) as (-> & Hs & Hk & Hsr & Hto).
    exists [(sample_buffer (buffer m), inl p)], (Serialized p), m'. split; [done|].
    split; try done; [by repeat constructor|by apply (all_samples_retry _ n _ _ [])|cbn; lia].
  - destruct (push_iteration fuel data 0 (cleared (buffer m) m) None 1 Hh' Hok' Hd)
      as [(r & m' & Heq & Hi)|[? _]]; [|lia].
    cbn [Z.leb Z.compare Z.add]. change (0 + 1) with 1. rewrite Heq.
    destruct (inserted_effect _ _ _ _ _ _ Hok' Hd Hi) as (calls & [He1 He2 He3 He4 He5 He6 He7 He8 He9] & Hl & Hfail).
    exists ((sample_buffer (buffer m), inr e) :: calls), r, m'. split; [done|].
    split; try done; [by constructor|by apply (all_samples_retry _ n)| |simpl; lia|].
    + change (omap call_packet calls = result_packets r). rewrite He3. by destruct r.
    + intros [_ ?]%Hfail. simpl. lia.
Qed.

(** C33: no sample is lost by buffering, and no packet either.  For a batch with
    ordered timestamps, [push_data] ends within two iterations of its loop and
    does not panic; the samples it hands to the serializer (in at most two calls)
    followed by the samples left in the buffer are exactly the samples that were
    in the buffer followed by the batch, per axis and in order; and the packet it
    returns is the only one the serializer produced. *)
Theorem push_data_conserves fuel data m :
  buffer_ok N MAX (buffer m) → data_ok N MAX data → (2 ≤ fuel)%nat →
  ∃ calls r m', push_data N MAX serialize fuel data m = (Ok (Some r), m') ∧
    Forall (λ c, serialize (serializer m) c.1 = c.2) calls ∧
    all_samples calls (sb_axes (buffer m')) = axes_app (sb_axes (buffer m)) (sd_axes data) ∧
    omap call_packet calls = result_packets r ∧ (length calls ≤ 2)%nat ∧
    buffer_ok N MAX (buffer m') ∧ serializer m' = serializer m.
Proof using HVL HN HMAX.
  intros Hok Hd Hf. destruct (push_data_effect fuel data m Hok Hd Hf) as (calls & r & m' & ? & []).
  by exists calls, r, m'.
Qed.

(** Bounded latency.  When the serializer does not fail and [push_data]
    only adds the batch, the samples in the buffer span at most the timeout and
    there is room for another batch of the same length; when it returns a packet
    it has emptied the buffer or kept just the new batch. *)
Theorem push_data_latency fuel data m :
  buffer_ok N MAX (buffer m) → data_ok N MAX data → (2 ≤ fuel)%nat →
  (∀ us, ∃ p, serialize (serializer m) us = inl p) →
  ∃ r m', push_data N MAX serialize fuel data m = (Ok (Some r), m') ∧
    match r with
    | DataAdded =>
        sb_axes (buffer m') = axes_app (sb_axes (buffer m)) (sd_axes data) ∧
        time_range (buffer m') ≤ timeout_us (buffer m) ∧
        sb_len MAX (buffer m') + sd_len data ≤ MAX
    | Serialized p =>
        ∃ us, serialize (serializer m) us = inl p ∧
          axes_app (us_axes us) (sb_axes (buffer m')) = axes_app (sb_axes (buffer m)) (sd_axes data)
    | SerializationFailed => False
    end.
Proof using HVL HN HMAX.
  intros Hok Hd Hf Hser.
  destruct (push_data_effect fuel data m Hok Hd Hf) as (calls & r & m' & Hr & [Hc Hs Hp Ht Hfail _ _ _ Hl]).
  exists r, m'. split; [done|].
  assert (Hlen : length calls = length (result_packets r)).
  { rewrite <-Hp. clear -Hc Hser. induction Hc as [|[us res] calls Hres _ IH]; [done|]. simpl in Hres.
    destruct (Hser us) as [p Hp]. rewrite Hp in Hres. subst. simpl. by rewrite IH. }
  destruct r as [|p|]; simpl in Hlen.
  - apply nil_length_inv in Hlen as ->. destruct Hl; done.
  - destruct calls as [|[us res] [|]]; [done| |done]. apply Forall_cons_1 in Hc as [Hc _]. simpl in *.
    unfold call_packet in Hp. simpl in Hp. destruct res; [|done]. simplify_eq. by exists us.
  - specialize (Hfail eq_refl). lia.
Qed.

(** A lost buffer reported as success.  When a batch fills the buffer so
    that no other fits, and the serializer fails, [push_data] clears the buffer,
    the batch included, and returns [DataAdded]. *)
Theorem push_data_hides_failure fuel data n m e :
  holds N MAX n (buffer m) → buffer_ok N MAX (buffer m) → data_ok N MAX data → (2 ≤ fuel)%nat →
  n + sd_len data ≤ MAX < n + sd_len data + sd_len data →
  (0 < n → sd_t data ≤ last_timestamp (buffer m) + t_delta_us (buffer m)) →
  (∀ us, serialize (serializer m) us = inr e) →
  ∃ m', push_data N MAX serialize fuel data m = (Ok (Some DataAdded), m') ∧
    sb_axes (buffer m') = axes_nil N.
Proof using HVL HN HMAX.
  intros Hh Hok Hd Hf Hfit Hct Hser. destruct fuel as [|fuel]; [lia|].
  destruct (push_spec N MAX HN data n (buffer m) Hh Hok Hd) as (st & sb' & Hrun & Hp).
  unfold push_data. rewrite (push_loop_step _ _ _ _ _ _ _ Hrun), Hser.
  destruct Hp; try lia; (eexists; split; [done|]; apply (sb_axes_clear _ MAX)).
Qed.
End manager.

(** ** Batches from slices and new managers meet the hypotheses *)

Lemma fold_min_slices (l : list (list f32)) a :
  0 ≤ a → let n := foldl (λ acc s, Z.min acc (len s)) a l in
  0 ≤ n ≤ a ∧ Forall (λ s, n ≤ len s) l.
Proof.
  revert a. induction l as [|s l IH]; intros a Ha; cbn [foldl]; [split; [lia|done]|].
  destruct (IH (Z.min a (len s))) as [Hn Hl]; [pose proof (len_nonneg s); lia|].
  split; [lia|]. constructor; [lia|done].
Qed.

Lemma fill_axes_run {S E} CAPACITY n (samples : list (list f32)) (st : S) :
  0 ≤ n ≤ CAPACITY → Forall (λ s, n ≤ len s) samples →
  ∃ arr, map_m (fill_axis (E := E) CAPACITY n) samples st = (Ok arr, st) ∧
    length arr = length samples ∧ Forall (λ axis, len axis = CAPACITY) arr ∧
    take (Z.to_nat n) <$> arr = take (Z.to_nat n) <$> samples.
Proof.
  intros Hn. induction 1 as [|s samples Hs _ (arr & Hrun & Hl & Hc & Ht)]; [by exists []|].
  exists ((take (Z.to_nat n) s ++ replicate (Z.to_nat (CAPACITY - n)) f32_nan) :: arr).
  assert (Hlen : length (take (Z.to_nat n) s) = Z.to_nat n) by (rewrite length_take; unfold len in Hs; lia).
  split_and!; [|simpl; lia| |].
  - cbn [map_m]. unfold mbind, M_bind at 1. unfold fill_axis at 1.
    rewrite (proj2 (Z.ltb_ge _ _)) by lia. unfold mbind, M_bind at 1.
    rewrite range_of_run by lia. rewrite slice_0. cbn. unfold M_bind. by rewrite Hrun.
  - constructor; [|done]. rewrite len_app. unfold len. rewrite Hlen, length_replicate. lia.
  - rewrite !fmap_cons, Ht. f_equal. by rewrite take_app_le, take_take, Nat.min_id by lia.
Qed.

(** [from_slices] truncates all axes to the shortest one, and its batch has
    ordered timestamps when the sampling frequency has a clear sign bit. *)
Lemma from_slices_ok {S E} N MAX CAPACITY t_start fs samples (st : S) :
  length samples = Z.to_nat N → 0 < N → CAPACITY ≤ MAX →
  0 < t_start < 2 ^ 61 → f32_sign fs = false → 
  (∃ n, min_len samples = Some n ∧ n ≤ CAPACITY ∧
     f32_as_i64 (f32_mul (f32_of_int (saturating_sub n 1)) (f32_div f32_1e6 fs)) < 2 ^ 61) →
  ∃ data n, from_slices (E := E) CAPACITY t_start fs samples st = (Ok data, st) ∧
    data_ok N MAX data ∧ sd_t data = t_start ∧ sd_len data = n ∧
    sd_axes data = take (Z.to_nat n) <$> samples.
Proof.
  intros Hl HN Hcap Ht Hfs (n & Hmin & Hn & Hdt). unfold from_slices. rewrite Hmin.
  set (dt := f32_as_i64 _) in *.
  assert (Hdt0 : 0 ≤ dt).
  { apply f32_as_i64_nonneg, f32_mul_sign; [apply f32_of_int_sign; unfold saturating_sub; lia|].
    apply f32_div_sign; [by apply f32_of_int_sign|done]. }
  destruct samples as [|s samples]; [done|]. injection Hmin as Hmin.
  pose proof (fold_min_slices samples (len s) (len_nonneg s)) as [Hr Hall].
  rewrite Hmin in Hr, Hall.
  destruct (fill_axes_run (S := S) (E := E) CAPACITY n (s :: samples) st) as (arr & Hrun & Hla & Hca & Hta);
    [lia|constructor; [lia|done]|].
  exists (mkSampleData t_start n arr (t_start + dt) fs), n. split.
  { unfold mbind, M_bind at 1. unfold i64_add.
    rewrite i64_op_run by (unfold is_i64, i64_min, i64_max; lia). unfold M_bind. by rewrite Hrun. }
  split_and!; try done. unfold data_ok, ts_ok. cbn [sd_samples sd_len sd_t sd_t_last].
  split_and!; [congruence| |lia..]. eapply list.Forall_impl; [exact Hca|]. simpl. lia.
Qed.

Lemma bm_new_ok {V Ser S E} `{HV : HeaplessVec V} N MAX `{HVL : !HeaplessVecLaws V MAX}
    fs (ser : Ser) timeout (st : S) :
  0 < MAX → f32_sign fs = false → interval_us fs < 2 ^ 60 →
  ∃ m, bm_new (V := V) (E := E) N fs ser timeout st = (Ok m, st) ∧ buffer_ok N MAX (buffer m) ∧
    sb_axes (buffer m) = axes_nil N ∧ t_delta_us (buffer m) = interval_us fs * 2.
Proof.
  intros HMAX Hfs Hi. pose proof (interval_us_nonneg fs Hfs).
  pose (sb := mkBuffer (us_empty (V := V) N fs) 0 (interval_us fs * 2) timeout).
  exists (mkManager sb ser). split.
  - unfold bm_new, sb_empty, i64_mul, mbind, M_bind. change (f32_as_i64 _) with (interval_us fs).
    rewrite i64_op_run by (unfold is_i64, i64_min, i64_max; lia). done.
  - split_and!; [|apply (sb_axes_clear N MAX sb)|done]. split_and!; [|unfold ts_ok; cbn; lia..].
    eexists. apply (holds_clear N MAX HMAX sb).
Qed.

Module DemoBuffer.
Import DemoUniform.

(** A serializer that answers with an empty packet, or fails. *)
Definition demo_serialize (ok : bool) (us : UniformSamples (listvec 4)) : SerializedSendable + unit :=
  if ok then inl (mkSendable (replicate 20 0) (us_t us)) else inr tt.

Definition one : f32 := f32_of_int 1.
Definition demo_data (t : Z) (n : nat) : SampleData :=
  mkSampleData t (Z.of_nat n) [replicate 4 one] (t + 1000) (f32_of_int 1000).
Definition demo_manager (ok : bool) : BufferManager (listvec 4) bool :=
  mkManager (mkBuffer (us_empty 1 (f32_of_int 1000)) 0 2000 1000000) ok.

Lemma demo_buffer_ok ok : buffer_ok 1 4 (buffer (demo_manager ok)).
Proof.
  split_and!; [|unfold ts_ok; cbn; lia..]. eexists.
  apply (holds_clear 1 4 ltac:(lia) (buffer (demo_manager ok))).
Qed.

Lemma demo_data_ok t n : (n ≤ 4)%nat → 0 < t < 2 ^ 61 → data_ok 1 4 (demo_data t n).
Proof.
  intros Hn Ht. unfold data_ok, ts_ok, demo_data. cbn [sd_samples sd_len sd_t sd_t_last].
  split_and!; try lia; [done|]. repeat constructor. change (len (replicate 4 one)) with 4. lia.
Qed.

Lemma push_data_conserves_witness :
  ∃ (calls : list (UniformSamples (listvec 4) * (SerializedSendable + unit))) r m', push_data 1 4 demo_serialize 2 (demo_data 5000 3) (demo_manager true) = (Ok (Some r), m') ∧
    omap call_packet calls = result_packets r ∧
    all_samples calls (sb_axes (buffer m')) = [[one; one; one]].
Proof.
  destruct (push_data_conserves 1 4 ltac:(lia) ltac:(lia) demo_serialize 2 (demo_data 5000 3)
    (demo_manager true)) as (calls & r & m' & Hr & _ & Hs & Hp & _).
  - apply demo_buffer_ok.
  - apply demo_data_ok; lia.
  - lia.
  - exists calls, r, m'. split_and!; [done|done|]. rewrite Hs. reflexivity.
Defined.

Lemma push_data_latency_witness :
  ∃ r m', push_data 1 4 demo_serialize 2 (demo_data 5000 2) (demo_manager true) = (Ok (Some r), m') ∧
    (r = DataAdded → time_range (buffer m') ≤ 1000000).
Proof.
  destruct (push_data_latency 1 4 ltac:(lia) ltac:(lia) demo_serialize 2 (demo_data 5000 2)
    (demo_manager true)) as (r & m' & Hr & Hm).
  - apply demo_buffer_ok.
  - apply demo_data_ok; lia.
  - lia.
  - intros us. by eexists.
  - exists r, m'. split; [done|]. intros ->. apply Hm.
Defined.

Lemma push_data_hides_failure_witness :
  ∃ m', push_data 1 4 demo_serialize 2 (demo_data 5000 3) (demo_manager false) = (Ok (Some DataAdded), m') ∧
    sb_axes (buffer m') = [[]].
Proof.
  destruct (push_data_hides_failure 1 4 ltac:(lia) ltac:(lia) demo_serialize 2 (demo_data 5000 3) 0
    (demo_manager false) tt) as (m' & Hr & Hs).
  - apply (holds_clear 1 4 ltac:(lia) (buffer (demo_manager false))).
  - apply demo_buffer_ok.
  - apply demo_data_ok; lia.
  - lia.
  - cbn. lia.
  - lia.
  - done.
  - by exists m'.
Defined.
End DemoBuffer.
