(* ===== verification/TimeAdjust.v ===== *)
(** * Clock error estimation

    [sensor-link-firmware/src/logic/time_adjust.rs]: the drift of the local clock
    is estimated from comparisons with the time of the server, on top of a
    correction for temperature; timestamps are converted between the raw clock,
    the temperature-corrected and the drift-corrected time.  Errors and
    uncertainties are in parts per billion, times in microseconds. *)

From stdpp Require Import base list list_numbers numbers option.
From Stdlib Require Import SpecFloat.
From S2P Require Import Prelude Numeric.

Definition NETWORK_TIME_UPDATE_INTERVAL_MIN_US : Z := 60000000.
Definition NETWORK_UNCERTAINTY_THRESHOLD_MIN_PPB : Z := 1000.
Definition ESTIMATE_MIN_INITIAL_UNCERTAINTY_PPB : Z := 100.
Definition CORRECTION_ERROR_MAX_PPB : Z := 500000000.
(** The factor between a ratio and parts per billion. *)
Definition BILLION : Z := 1000000000.

(** [ErrorEstimate]; [TempErrorEstimate], [TotalDriftError] and the newtype
    [DriftError] have the same fields. *)
Record ErrorEstimate : Type := mkEstimate { error_ppb : Z; uncertainty_ppb : Z }.
Definition TempErrorEstimate : Type := ErrorEstimate.
Definition TotalDriftError : Type := ErrorEstimate.
Definition DriftError : Type := ErrorEstimate.
Definition est_zero : ErrorEstimate := mkEstimate 0 0.
Definition est_unknown : ErrorEstimate := mkEstimate 0 CORRECTION_ERROR_MAX_PPB.

(** [ClockCalibration], the estimate in persistent storage. *)
Record ClockCalibration : Type := mkCal { drift_error_ppb : Z; drift_uncertainty_ppb : Z }.
Definition is_significantly_different (a b : ClockCalibration) : bool :=
  (ESTIMATE_MIN_INITIAL_UNCERTAINTY_PPB <? Z.abs (drift_uncertainty_ppb a - drift_uncertainty_ppb b)) ||
  (ESTIMATE_MIN_INITIAL_UNCERTAINTY_PPB <?
     Z.abs (i32_saturating_sub (drift_error_ppb a) (drift_error_ppb b))).
Definition drift_of_cal (cal : ClockCalibration) : DriftError :=
  mkEstimate (drift_error_ppb cal) (drift_uncertainty_ppb cal).
Definition cal_of_drift (drift : DriftError) : ClockCalibration :=
  mkCal (error_ppb drift) (uncertainty_ppb drift).

(** [DriftError::weighed_average] *)
Definition weighed_average (self other : DriftError) : DriftError :=
  let u1 := f32_of_int (uncertainty_ppb self) in
  let u2 := f32_of_int (uncertainty_ppb other) in
  let self_sq := f32_mul u1 u1 in
  let other_sq := f32_mul u2 u2 in
  let frac := f32_div other_sq (f32_add self_sq other_sq) in
  let other_frac := f32_sub (f32_of_int 1) frac in
  let uncertainty := f32_as_u32 (f32_add (f32_mul frac u1) (f32_mul other_frac u2)) in
  let error := f32_as_i32 (f32_add (f32_mul frac (f32_of_int (error_ppb self)))
                                   (f32_mul other_frac (f32_of_int (error_ppb other)))) in
  mkEstimate (clamp (- CORRECTION_ERROR_MAX_PPB) CORRECTION_ERROR_MAX_PPB error)
             (Z.min uncertainty CORRECTION_ERROR_MAX_PPB).

(** ** Slopes *)

Definition slope_correct {S E} (dt correction_ppb : Z) : M S E Z :=
  if i64_saturating_abs dt <? 2 ^ 31 - 1 then
    x ← i64_mul dt correction_ppb;
    mret (Z.quot x BILLION)
  else
    mret (f32_as_i64 (f32_mul (f32_of_int dt) (f32_div (f32_of_int correction_ppb) (f32_of_int BILLION)))).

Definition forward_slope_convert {S E} (dt correction_ppb : Z) : M S E Z :=
  x ← slope_correct dt correction_ppb;
  i64_add dt x.

Definition MAX_ITERATIONS : nat := 16.

(** The [for] loop of [reverse_slope_convert]. *)
Fixpoint reverse_loop {S E} (k : nat) (dt delta_adj correction_ppb : Z) : M S E Z :=
  match k with
  | O => mret dt
  | S k =>
      delta_adj ← slope_correct delta_adj correction_ppb;
      dt ← i64_add dt delta_adj;
      if delta_adj =? 0 then mret dt else reverse_loop k dt delta_adj correction_ppb
  end.

Definition reverse_slope_convert {S E} (dt correction_ppb : Z) : M S E Z :=
  reverse_loop MAX_ITERATIONS dt dt correction_ppb.

(** ** The estimator *)

Record NetworkTime : Type := mkNetworkTime { timestamp_server_us : Z; latency_estimate_us : Z }.

Record NetworkRef : Type := mkNetworkRef {
  nr_network : NetworkTime;
  nr_local : Z;
  nr_initial : DriftError;
  nr_max_temp : Z
}.

(** The temperature correction is [(t_raw, t_temp, estimate)]. *)
Record ClockDriftEstimate : Type := mkDrift {
  estimate_pre_temp : DriftError;
  estimate_at : option (Z * Z);
  cd_temp : option (Z * Z * TempErrorEstimate);
  cd_network : option NetworkRef
}.

Inductive NetworkEstError : Type :=
| NoPreviousData | PreviousDataTooRecent | UncertaintyTooLarge | UncertaintyNotImprovedYet | ErrorTooLarge.

Definition set_network (nw : option NetworkRef) (s : ClockDriftEstimate) : ClockDriftEstimate :=
  mkDrift (estimate_pre_temp s) (estimate_at s) (cd_temp s) nw.
Definition set_temp (t : option (Z * Z * TempErrorEstimate)) (s : ClockDriftEstimate) : ClockDriftEstimate :=
  mkDrift (estimate_pre_temp s) (estimate_at s) t (cd_network s).
Definition set_estimate (e : DriftError) (at_ : option (Z * Z)) (s : ClockDriftEstimate) : ClockDriftEstimate :=
  mkDrift e at_ (cd_temp s) (cd_network s).
Definition set_max_temp (u : Z) (nw : NetworkRef) : NetworkRef :=
  mkNetworkRef (nr_network nw) (nr_local nw) (nr_initial nw) u.

Definition drift_new (initial : DriftError) : ClockDriftEstimate :=
  let u := if uncertainty_ppb initial <? ESTIMATE_MIN_INITIAL_UNCERTAINTY_PPB
           then ESTIMATE_MIN_INITIAL_UNCERTAINTY_PPB else uncertainty_ppb initial in
  mkDrift (mkEstimate (error_ppb initial) u) None None None.

Definition estimate {E} : M ClockDriftEstimate E TotalDriftError :=
  s ← gets id;
  let temp_error := match cd_temp s with Some (_, _, e) => e | None => est_zero end in
  let drift_error := estimate_pre_temp s in
  error ← i32_op (error_ppb temp_error + error_ppb drift_error);
  uncertainty ← u32_op (uncertainty_ppb temp_error + uncertainty_ppb drift_error);
  mret (mkEstimate (clamp (- CORRECTION_ERROR_MAX_PPB) CORRECTION_ERROR_MAX_PPB error)
                   (Z.min uncertainty CORRECTION_ERROR_MAX_PPB)).

(** The width of the range that both temperature corrections span. *)
Definition temp_spread {S E} (prev temp_adjust : TempErrorEstimate) : M S E Z :=
  prev_min ← i32_op (error_ppb prev - as_i32 (uncertainty_ppb prev));
  prev_max ← i32_op (error_ppb prev + as_i32 (uncertainty_ppb prev));
  new_min ← i32_op (error_ppb temp_adjust - as_i32 (uncertainty_ppb temp_adjust));
  new_max ← i32_op (error_ppb temp_adjust + as_i32 (uncertainty_ppb temp_adjust));
  spread ← i32_op (Z.max prev_max new_max - Z.min prev_min new_min);
  mret (Z.abs spread).

(** The worst-case uncertainty during the network interval. *)
Definition track_temp_uncertainty {E} (t_temp : Z) (temp_adjust : TempErrorEstimate) :
    M ClockDriftEstimate E unit :=
  s ← gets id;
  match cd_network s with
  | Some network =>
      if nr_local network <? t_temp then
        uncertainty ←
          match cd_temp s with
          | Some (_, _, prev) => temp_spread prev temp_adjust
          | None => mret (uncertainty_ppb temp_adjust)
          end;
        if nr_max_temp network <? uncertainty
        then modify (set_network (Some (set_max_temp uncertainty network)))
        else mret tt
      else mret tt
  | None => mret tt
  end.

Definition update_temp_correction {E} (t_raw t_temp : Z) (temp_adjust : TempErrorEstimate) :
    M ClockDriftEstimate E TotalDriftError :=
  track_temp_uncertainty t_temp temp_adjust;;
  modify (set_temp (Some (t_raw, t_temp, temp_adjust)));;
  estimate.

(** The reference that starts a new interval. *)
Definition new_ref (network_time : NetworkTime) (t_temp max_temp : Z) (s : ClockDriftEstimate) :
    ClockDriftEstimate :=
  set_network (Some (mkNetworkRef network_time t_temp (estimate_pre_temp s) max_temp)) s.

Definition update_network_time (t_temp t_drift : Z) (network_time : NetworkTime) :
    M ClockDriftEstimate NetworkEstError unit :=
  s ← gets id;
  match cd_network s with
  | None =>
      modify (new_ref network_time t_temp
        (match cd_temp s with Some (_, _, est) => uncertainty_ppb est | None => 0 end));;
      fail NoPreviousData
  | Some prev_network =>
      let local_dt := i64_saturating_sub t_temp (nr_local prev_network) in
      let network_dt := i64_saturating_sub (timestamp_server_us network_time)
                          (timestamp_server_us (nr_network prev_network)) in
      let max_latency_error := Z.max (latency_estimate_us network_time)
                                 (latency_estimate_us (nr_network prev_network)) in
      let network_dt_minimum := i64_saturating_sub network_dt max_latency_error in
      if Z.min network_dt_minimum local_dt <=? NETWORK_TIME_UPDATE_INTERVAL_MIN_US
      then fail PreviousDataTooRecent
      else
        scaled ← i64_mul max_latency_error BILLION;
        let uncertainty := Z.quot scaled network_dt_minimum in
        if CORRECTION_ERROR_MAX_PPB <=? uncertainty then fail UncertaintyTooLarge
        else
          let uncertainty := as_u32 uncertainty in
          drift ← i64_sub local_dt network_dt;
          let error := Z.quot (i64_saturating_mul drift BILLION) network_dt in
          if (2 ^ 31 - 1 <=? drift) || (CORRECTION_ERROR_MAX_PPB <=? error) then
            modify (new_ref network_time t_temp (nr_max_temp prev_network));;
            fail ErrorTooLarge
          else
            sum ← u32_op (uncertainty + nr_max_temp prev_network);
            let network_estimate := mkEstimate (as_i32 error) sum in
            modify (set_estimate (weighed_average (nr_initial prev_network) network_estimate)
                      (Some (t_temp, t_drift)));;
            if uncertainty <? Z.min (nr_max_temp prev_network) NETWORK_UNCERTAINTY_THRESHOLD_MIN_PPB
            then modify (new_ref network_time t_temp (nr_max_temp prev_network))
            else mret tt
  end.

Definition temp_normalized_estimate (s : ClockDriftEstimate) : DriftError := estimate_pre_temp s.

(** ** Conversions of timestamps *)

Definition convert_raw_to_temp_corrected {E} (raw : Z) : M ClockDriftEstimate E Z :=
  s ← gets id;
  match cd_temp s with
  | None => mret raw
  | Some (t_raw_offset, t_corr_offset, est) =>
      delta_raw ← i64_sub raw t_raw_offset;
      slope ← i32_op (- error_ppb est);
      delta_corr ← reverse_slope_convert delta_raw slope;
      i64_add t_corr_offset delta_corr
  end.

Definition convert_temp_corrected_to_raw {E} (temp_corr : Z) : M ClockDriftEstimate E Z :=
  s ← gets id;
  match cd_temp s with
  | None => mret temp_corr
  | Some (t_raw_offset, t_corr_offset, est) =>
      delta_corr ← i64_sub temp_corr t_corr_offset;
      delta_raw ← forward_slope_convert delta_corr (error_ppb est);
      i64_add t_raw_offset delta_raw
  end.

Definition convert_temp_corrected_to_drift_corrected {E} (temp_corr : Z) : M ClockDriftEstimate E Z :=
  s ← gets id;
  match estimate_at s with
  | None => modify (set_estimate (estimate_pre_temp s) (Some (temp_corr, temp_corr)));; mret temp_corr
  | Some (temp_corr_offset, drift_corr_offset) =>
      delta ← i64_sub temp_corr temp_corr_offset;
      slope ← i32_op (- error_ppb (estimate_pre_temp s));
      delta_drift ← reverse_slope_convert delta slope;
      i64_add drift_corr_offset delta_drift
  end.

Definition convert_drift_corrected_to_temp_corrected {E} (drift_corr : Z) : M ClockDriftEstimate E Z :=
  s ← gets id;
  match estimate_at s with
  | None => modify (set_estimate (estimate_pre_temp s) (Some (drift_corr, drift_corr)));; mret drift_corr
  | Some (temp_corr_offset, drift_corr_offset) =>
      delta ← i64_sub drift_corr drift_corr_offset;
      delta_temp ← forward_slope_convert delta (error_ppb (estimate_pre_temp s));
      i64_add temp_corr_offset delta_temp
  end.

(** ** [ClockErrorEstimate] *)

Inductive Timestamp : Type :=
| RawMono (t : Z) | TempCorrectedMono (t : Z) | DriftCorrectedMono (t : Z) | OffsetAdjusted (t : Z).

Record ClockErrorEstimate : Type := mkClock { cee_drift : ClockDriftEstimate }.
Definition on_drift {E A} (m : M ClockDriftEstimate E A) : M ClockErrorEstimate E A :=
  zoom cee_drift (λ d _, mkClock d) m.

Definition clock_new (initial_calibration : ClockCalibration) : ClockErrorEstimate :=
  mkClock (drift_new (drift_of_cal initial_calibration)).
Definition calibration (c : ClockErrorEstimate) : ClockCalibration :=
  cal_of_drift (temp_normalized_estimate (cee_drift c)).
Definition drift_estimate {E} : M ClockErrorEstimate E TotalDriftError := on_drift estimate.

Definition convert_to_temp_corrected {E} (timestamp : Timestamp) : M ClockErrorEstimate E (Z * Z) :=
  match timestamp with
  | RawMono raw =>
      temp_corr ← on_drift (convert_raw_to_temp_corrected raw);
      mret (raw, temp_corr)
  | TempCorrectedMono temp_corr =>
      raw ← on_drift (convert_temp_corrected_to_raw temp_corr);
      mret (raw, temp_corr)
  | DriftCorrectedMono drift_corr | OffsetAdjusted drift_corr =>
      temp_corr ← on_drift (convert_drift_corrected_to_temp_corrected drift_corr);
      raw ← on_drift (convert_temp_corrected_to_raw temp_corr);
      mret (raw, temp_corr)
  end.

Definition convert_to_drift_corrected {E} (timestamp : Timestamp) : M ClockErrorEstimate E (Z * Z) :=
  match timestamp with
  | RawMono raw =>
      temp_corr ← on_drift (convert_raw_to_temp_corrected raw);
      drift_corr ← on_drift (convert_temp_corrected_to_drift_corrected temp_corr);
      mret (temp_corr, drift_corr)
  | TempCorrectedMono temp_corr =>
      drift_corr ← on_drift (convert_temp_corrected_to_drift_corrected temp_corr);
      mret (temp_corr, drift_corr)
  | DriftCorrectedMono drift_corr | OffsetAdjusted drift_corr =>
      temp_corr ← on_drift (convert_drift_corrected_to_temp_corrected drift_corr);
      mret (temp_corr, drift_corr)
  end.

Definition clock_update_temp_correction {E} (timestamp : Timestamp) (temp_adjust : TempErrorEstimate) :
    M ClockErrorEstimate E TotalDriftError :=
  '(t_raw, t_temp) ← convert_to_temp_corrected timestamp;
  on_drift (update_temp_correction t_raw t_temp temp_adjust).

Definition clock_update_network_time (timestamp : Timestamp) (network_time : NetworkTime) :
    M ClockErrorEstimate NetworkEstError unit :=
  '(t_temp, t_drift) ← convert_to_drift_corrected timestamp;
  on_drift (update_network_time t_temp t_drift network_time).

(** The values of the unit tests of the source. *)
Example slope_small : reverse_slope_convert (E := unit) 1800000000 100000 tt = (Ok 1800180018, tt).
Proof. vm_compute. reflexivity. Qed.
Example slope_long : reverse_slope_convert (E := unit) 86400000000 100000 tt = (Ok 86408640864, tt).
Proof. vm_compute. reflexivity. Qed.
