(* ===== verification/TimeAdjustProps.v ===== *)
(** * Clock error estimation: properties

    Accuracy of the slope conversions, round trip of the timestamp conversions,
    and the invariant of the estimator. *)

From stdpp Require Import base list list_numbers numbers option.
From Stdlib Require Import SpecFloat.
From S2P Require Import Prelude Numeric TimeAdjust.

(** ** Slopes *)

(** Intervals below about 36 minutes, for which [slope_correct] is exact. *)
Definition small_dt (dt : Z) : Prop := Z.abs dt < 2 ^ 31 - 1.
Definition slope_ok (c : Z) : Prop := Z.abs c ≤ CORRECTION_ERROR_MAX_PPB.

Lemma slope_correct_run {S E} dt c (st : S) :
  small_dt dt → slope_ok c → slope_correct (E := E) dt c st = (Ok (Z.quot (dt * c) BILLION), st).
Proof.
  unfold small_dt, slope_ok, CORRECTION_ERROR_MAX_PPB. intros Hd Hc. unfold slope_correct, i64_saturating_abs, i64_mul.
  rewrite (proj2 (Z.ltb_lt _ _)) by lia. unfold mbind, M_bind.
  rewrite i64_op_run by (unfold is_i64, i64_min, i64_max; nia). done.
Qed.

(** Truncated division by [BILLION]: remainder, and halving for valid slopes. *)
Lemma quot_facts a c :
  slope_ok c → let q := Z.quot (a * c) BILLION in
  Z.abs (a * c - q * BILLION) ≤ BILLION - 1 ∧ 2 * Z.abs q ≤ Z.abs a.
Proof.
  intros Hc q. unfold slope_ok, CORRECTION_ERROR_MAX_PPB, BILLION in *.
  pose proof (Z.quot_rem' (a * c) 1000000000). pose proof (Z.rem_bound_abs (a * c) 1000000000).
  split; [lia|].
  assert (Hq : Z.abs q = Z.abs a * Z.abs c / 1000000000).
  { unfold q. rewrite <-Z.quot_abs, Z.abs_mul by lia. by apply Z.quot_div_nonneg; lia. }
  rewrite Hq. assert (Z.abs a * Z.abs c / 1000000000 ≤ Z.abs a * 500000000 / 1000000000)
    by (apply Z.div_le_mono; nia).
  pose proof (Z.mul_div_le (Z.abs a * 500000000) 1000000000). lia.
Qed.

(** The loop sums a geometric series: what it leaves out is the last term
    [last], at most [a / 2^k], and the [k] roundings, together [rho]. *)
Lemma reverse_loop_run {S E} k acc a c (st : S) :
  slope_ok c → small_dt a → Z.abs acc + Z.abs a ≤ 2 ^ 62 →
  ∃ r last rho, reverse_loop (E := E) k acc a c st = (Ok r, st) ∧
    (r - acc) * (BILLION - c) = a * c - last * c - rho ∧
    Z.abs rho ≤ Z.of_nat k * (BILLION - 1) ∧ 2 ^ Z.of_nat k * Z.abs last ≤ Z.abs a ∧
    Z.abs (r - acc) ≤ Z.abs a.
Proof.
  intros Hc. revert acc a. induction k as [|k IH]; intros acc a Ha Hb.
  { exists acc, a, 0. split_and!; [done|nia|done|lia|lia]. }
  cbn [reverse_loop]. unfold mbind, M_bind. rewrite slope_correct_run by done.
  destruct (quot_facts a c Hc) as [Hrem Hhalf]. set (q := Z.quot (a * c) BILLION) in *.
  unfold i64_add. rewrite i64_op_run by (unfold is_i64, i64_min, i64_max; lia).
  destruct (Z.eqb_spec q 0) as [H0|H0].
  { exists (acc + q), 0, (a * c - q * BILLION). split_and!; [done|nia|unfold BILLION in *; lia|lia|lia]. }
  destruct (IH (acc + q) q) as (r & last & rho & -> & Heq & Hrho & Hlast & Hr);
    [unfold small_dt in *; lia|lia|].
  exists r, last, (rho + (a * c - q * BILLION)). split_and!; [done|nia|unfold BILLION in *; lia| |lia].
  rewrite Nat2Z.inj_succ, Z.pow_succ_r by lia. nia.
Qed.

(** What the iterations of [reverse_slope_convert] leave out. *)
Definition slope_tolerance (c dt : Z) : Z := 16 * (BILLION - 1) + Z.abs c * Z.abs dt / 2 ^ 16.

Lemma reverse_slope_run {S E} dt c (st : S) :
  small_dt dt → slope_ok c →
  ∃ r, reverse_slope_convert (E := E) dt c st = (Ok r, st) ∧
    Z.abs (r * (BILLION - c) - dt * BILLION) ≤ slope_tolerance c dt ∧ Z.abs r ≤ 2 * Z.abs dt.
Proof.
  intros Hd Hc. unfold reverse_slope_convert, MAX_ITERATIONS.
  destruct (reverse_loop_run (S := S) (E := E) 16 dt dt c st Hc Hd) as (r & last & rho & Hr & Heq & Hrho & Hlast & Hb);
    [unfold small_dt in Hd; lia|].
  exists r. split_and!; [done| |lia]. unfold slope_tolerance.
  assert (Z.abs last ≤ Z.abs dt / 2 ^ 16) by (apply Z.div_le_lower_bound; [done|exact Hlast]).
  assert (Z.abs c * Z.abs last ≤ Z.abs c * Z.abs dt / 2 ^ 16).
  { apply Z.div_le_lower_bound; [done|]. change (Z.of_nat 16) with 16 in Hlast. nia. }
  assert (r * (BILLION - c) - dt * BILLION = - (last * c) - rho) as -> by lia.
  pose proof (Z.abs_mul last c). change (Z.of_nat 16) with 16 in Hrho. lia.
Qed.

(** Forward after reverse. *)
Lemma slope_roundtrip_run {S E} dt c (st : S) :
  Z.abs dt < 2 ^ 30 - 1 → slope_ok c →
  ∃ r f, reverse_slope_convert (E := E) dt (- c) st = (Ok r, st) ∧
    forward_slope_convert (E := E) r c st = (Ok f, st) ∧ Z.abs r ≤ 2 * Z.abs dt ∧
    Z.abs (f - dt) * BILLION ≤ slope_tolerance c dt + (BILLION - 1) ∧ Z.abs f ≤ 3 * Z.abs dt.
Proof.
  intros Hd Hc. assert (Hc' : slope_ok (- c)) by (unfold slope_ok in *; lia).
  destruct (reverse_slope_run (S := S) (E := E) dt (- c) st) as (r & Hr & Hacc & Hb); [unfold small_dt; lia|done|].
  assert (Hsr : small_dt r) by (unfold small_dt; lia).
  destruct (quot_facts r c Hc) as [Hrem Hhalf].
  exists r, (r + Z.quot (r * c) BILLION). split_and!; [done| |done| |lia].
  - unfold forward_slope_convert, mbind, M_bind. rewrite slope_correct_run by done.
    unfold i64_add. apply i64_op_run. unfold is_i64, i64_min, i64_max. lia.
  - set (q := Z.quot (r * c) BILLION) in *. unfold slope_tolerance in *.
    rewrite Z.abs_opp in Hacc. rewrite <-(Z.abs_eq BILLION) at 1 by done. rewrite <-Z.abs_mul.
    replace ((r + q - dt) * BILLION) with ((r * (BILLION - - c) - dt * BILLION) - (r * c - q * BILLION)) by lia.
    lia.
Qed.

(** ** The invariant of the estimator *)

Definition est_ok (e : ErrorEstimate) : Prop :=
  Z.abs (error_ppb e) ≤ CORRECTION_ERROR_MAX_PPB ∧ 0 ≤ uncertainty_ppb e ≤ CORRECTION_ERROR_MAX_PPB.
Definition network_ok (t : NetworkTime) : Prop :=
  is_i64 (timestamp_server_us t) ∧ 0 ≤ latency_estimate_us t < 2 ^ 32.

(** The width of the range two temperature corrections can span. *)
Definition SPREAD_MAX : Z := 4 * CORRECTION_ERROR_MAX_PPB.

Record drift_ok (s : ClockDriftEstimate) : Prop := {
  do_estimate : est_ok (estimate_pre_temp s);
  do_temp : ∀ r t e, cd_temp s = Some (r, t, e) → est_ok e;
  do_network : ∀ nw, cd_network s = Some nw →
    network_ok (nr_network nw) ∧ is_i64 (nr_local nw) ∧ est_ok (nr_initial nw) ∧
    0 ≤ nr_max_temp nw ≤ SPREAD_MAX
}.

Ltac ppb := unfold est_ok, SPREAD_MAX, CORRECTION_ERROR_MAX_PPB, BILLION, is_i32 in *.

Lemma weighed_average_ok a b : est_ok (weighed_average a b).
Proof.
  unfold weighed_average, est_ok. cbn [error_ppb uncertainty_ppb].
  match goal with |- context [f32_as_u32 ?x] => pose proof (f32_as_range 0 (2 ^ 32 - 1) x) as Hu; fold f32_as_u32 in Hu end.
  unfold clamp, CORRECTION_ERROR_MAX_PPB, f32_as_u32 in *. split; lia.
Qed.

Lemma estimate_run {E} s :
  drift_ok s → ∃ e, estimate (E := E) s = (Ok e, s) ∧ est_ok e.
Proof.
  intros [He Ht _]. set (te := match cd_temp s with Some (_, _, e) => e | None => est_zero end).
  assert (Hte : est_ok te).
  { unfold te. destruct (cd_temp s) as [[[r t] e]|] eqn:Hs; [by eapply Ht|]. ppb. cbn. lia. }
  unfold estimate, mbind, M_bind. cbn [gets id]. fold te.
  rewrite i32_op_run by (ppb; lia). rewrite u32_op_run by (ppb; lia).
  eexists. split; [done|]. ppb. unfold clamp. cbn [error_ppb uncertainty_ppb]. lia.
Qed.

Lemma temp_spread_run {S E} a b (st : S) :
  est_ok a → est_ok b → ∃ u, temp_spread (E := E) a b st = (Ok u, st) ∧ 0 ≤ u ≤ SPREAD_MAX.
Proof.
  intros Ha Hb. unfold temp_spread, mbind, M_bind. rewrite !as_i32_small by (ppb; lia).
  rewrite !i32_op_run by (ppb; lia). eexists. split; [done|]. ppb. lia.
Qed.

Lemma drift_ok_new e : est_ok e → drift_ok (drift_new e).
Proof.
  intros He. unfold drift_new. split; cbn; [|done..]. ppb. unfold ESTIMATE_MIN_INITIAL_UNCERTAINTY_PPB.
  cbn [error_ppb uncertainty_ppb]. case_match; lia.
Qed.

Lemma drift_ok_set_temp s r t e : drift_ok s → est_ok e → drift_ok (set_temp (Some (r, t, e)) s).
Proof. intros [He _ Hn] Hok. split; cbn; [done| |done]. naive_solver. Qed.

Lemma drift_ok_new_ref s nt t u :
  drift_ok s → network_ok nt → is_i64 t → 0 ≤ u ≤ SPREAD_MAX → drift_ok (new_ref nt t u s).
Proof. intros [He Ht _] Hnt Hi Hu. split; cbn; [done|done|]. intros nw [= <-]. cbn. done. Qed.

Lemma track_temp_run {E} s t_temp e :
  drift_ok s → est_ok e →
  ∃ s', track_temp_uncertainty (E := E) t_temp e s = (Ok tt, s') ∧ drift_ok s' ∧
    estimate_pre_temp s' = estimate_pre_temp s ∧ estimate_at s' = estimate_at s.
Proof.
  intros Hs He. pose proof Hs as [Hest Htemp Hnet]. unfold track_temp_uncertainty, mbind, M_bind. cbn [gets id].
  destruct (cd_network s) as [nw|] eqn:Hnw; [|by eexists].
  destruct (nr_local nw <? t_temp); [|by eexists].
  destruct (Hnet nw eq_refl) as (Hn1 & Hn2 & Hn3 & Hn4).
  assert (Hsp : ∃ u, (match cd_temp s with
     | Some (_, _, prev) => temp_spread prev e | None => mret (uncertainty_ppb e) end) s
       = (Ok (E := E) u, s) ∧ 0 ≤ u ≤ SPREAD_MAX).
  { destruct (cd_temp s) as [[[r t] prev]|] eqn:Ht; [apply temp_spread_run; [by eapply Htemp|done]|].
    eexists. split; [done|]. ppb. lia. }
  destruct Hsp as (u & -> & Hr). destruct (Z.ltb_spec (nr_max_temp nw) u); [|by eexists].
  eexists. split; [done|]. split; [|done]. split; cbn; [done|done|]. intros nw' [= <-]. cbn. done.
Qed.

Lemma update_temp_correction_run {E} s t_raw t_temp e :
  drift_ok s → est_ok e →
  ∃ r s', update_temp_correction (E := E) t_raw t_temp e s = (Ok r, s') ∧ drift_ok s' ∧ est_ok r ∧
    estimate_pre_temp s' = estimate_pre_temp s ∧ estimate_at s' = estimate_at s ∧
    cd_temp s' = Some (t_raw, t_temp, e).
Proof.
  intros Hs He. destruct (track_temp_run (E := E) s t_temp e Hs He) as (s1 & Hrun & Hs1 & He1 & Ha1).
  pose proof (drift_ok_set_temp s1 t_raw t_temp e Hs1 He) as Hs2.
  destruct (estimate_run (E := E) _ Hs2) as (r & Hr & Hok).
  eexists r, _. split; [|split; [exact Hs2|done]].
  unfold update_temp_correction, mbind, M_bind. rewrite Hrun. exact Hr.
Qed.

(** ** Updates from the network *)

(** The quantities of an update against the reference [nw]. *)
Definition local_dt (t_temp : Z) (nw : NetworkRef) : Z := i64_saturating_sub t_temp (nr_local nw).
Definition network_dt (nt : NetworkTime) (nw : NetworkRef) : Z :=
  i64_saturating_sub (timestamp_server_us nt) (timestamp_server_us (nr_network nw)).

Lemma saturate_range z : is_i64 (i64_saturate z).
Proof. unfold is_i64, i64_saturate, i64_min, i64_max. lia. Qed.

(** No update panics; a refused one leaves the estimate alone. *)
Lemma update_network_time_run s t_temp t_drift nt :
  drift_ok s → network_ok nt → is_i64 t_temp →
  ∃ r s', update_network_time t_temp t_drift nt s = (r, s') ∧ r ≠ Panic ∧ drift_ok s' ∧
    cd_temp s' = cd_temp s ∧
    (∀ e, r = Err e → estimate_pre_temp s' = estimate_pre_temp s ∧ estimate_at s' = estimate_at s ∧
       (e = PreviousDataTooRecent ∨ e = UncertaintyTooLarge → s' = s)).
Proof.
  intros Hs Hnt Ht. pose proof Hs as [Hest Htemp Hnet]. unfold update_network_time, mbind, M_bind. cbn [gets id].
  destruct (cd_network s) as [nw|] eqn:Hnw; last first.
  { eexists _, _. split; [done|]. split; [done|]. split; [|naive_solver].
    apply drift_ok_new_ref; try done. destruct (cd_temp s) as [[[r t] e]|] eqn:Hte; [|by ppb].
    pose proof (Htemp _ _ _ eq_refl). ppb. lia. }
  destruct (Hnet nw eq_refl) as ((Hts & Hlat) & Hloc & Hini & Hmax). destruct Hnt as [Hts' Hlat'].
  fold (local_dt t_temp nw) (network_dt nt nw). set (ld := local_dt t_temp nw). set (nd := network_dt nt nw).
  set (lat := Z.max _ _). set (ndm := i64_saturating_sub nd lat).
  assert (Hld : is_i64 ld) by apply saturate_range. assert (Hnd : is_i64 nd) by apply saturate_range.
  destruct (Z.leb_spec (Z.min ndm ld) NETWORK_TIME_UPDATE_INTERVAL_MIN_US) as [|Hgt]; [by eexists _, _; naive_solver|].
  unfold NETWORK_TIME_UPDATE_INTERVAL_MIN_US in Hgt.
  assert (Hlat2 : 0 ≤ lat < 2 ^ 32) by (unfold lat; lia).
  assert (Hndp : 60000000 < nd) by (unfold ndm, i64_saturating_sub, i64_saturate, is_i64, i64_min, i64_max in *; lia).
  unfold i64_mul. rewrite i64_op_run by (unfold is_i64, i64_min, i64_max, BILLION; lia).
  set (u := Z.quot _ _). assert (Hu : 0 ≤ u) by (apply Z.quot_pos; unfold BILLION; lia).
  destruct (Z.leb_spec CORRECTION_ERROR_MAX_PPB u) as [|Hul]; [by eexists _, _; naive_solver|].
  unfold i64_sub. rewrite i64_op_run by (unfold is_i64, i64_min, i64_max in *; lia).
  rewrite as_u32_small by (unfold is_u32, u32_size; ppb; lia).
  destruct (_ || _).
  { eexists _, _. split; [done|]. split; [done|]. split; [by apply drift_ok_new_ref|naive_solver]. }
  rewrite u32_op_run by (ppb; lia). set (net := mkEstimate _ _). set (avg := weighed_average _ _).
  assert (Hs1 : drift_ok (set_estimate avg (Some (t_temp, t_drift)) s)).
  { split; cbn; [apply weighed_average_ok|apply (do_temp _ Hs)|apply (do_network _ Hs)]. }
  destruct (_ <? _); eexists _, _.
  - split; [done|]. split; [done|]. split; [by apply drift_ok_new_ref|naive_solver].
  - split; [done|]. split; [done|]. split; [done|naive_solver].
Qed.

(** ** Sequences of updates *)

Inductive clock_event : Type :=
| EvTemp (t_raw t_temp : Z) (e : TempErrorEstimate)
| EvNetwork (t_temp t_drift : Z) (nt : NetworkTime).

Definition event_ok (ev : clock_event) : Prop :=
  match ev with
  | EvTemp _ _ e => est_ok e
  | EvNetwork t_temp _ nt => is_i64 t_temp ∧ network_ok nt
  end.

(** The caller ignores the results. *)
Definition run_event (ev : clock_event) : M ClockDriftEstimate Empty_set unit :=
  match ev with
  | EvTemp t_raw t_temp e => attempt (E := Empty_set) (update_temp_correction t_raw t_temp e);; mret tt
  | EvNetwork t_temp t_drift nt => attempt (update_network_time t_temp t_drift nt);; mret tt
  end.

Fixpoint run_events (evs : list clock_event) : M ClockDriftEstimate Empty_set unit :=
  match evs with
  | [] => mret tt
  | ev :: evs => run_event ev;; run_events evs
  end.

Lemma run_event_ok s ev :
  drift_ok s → event_ok ev → ∃ s', run_event ev s = (Ok tt, s') ∧ drift_ok s'.
Proof.
  intros Hs Hev. destruct ev as [t_raw t_temp e|t_temp t_drift nt]; unfold run_event, mbind, M_bind, attempt.
  - destruct (update_temp_correction_run (E := Empty_set) s t_raw t_temp e Hs Hev) as (r & s' & -> & Hs' & _).
    by eexists.
  - destruct Hev as [Ht Hn].
    destruct (update_network_time_run s t_temp t_drift nt Hs Hn Ht) as (r & s' & -> & Hr & Hs' & _).
    destruct r as [[]|e|]; [by eexists|by eexists|done].
Qed.

(** The estimator never leaves its range.  From a calibration in range,
    whatever sequence of temperature corrections in range and of server times it
    gets, no update overflows or panics, and the estimate that corrects the clock
    stays within half a billion parts per billion, as does its uncertainty. *)
Theorem estimator_stays_in_range cal evs :
  est_ok (drift_of_cal cal) → Forall event_ok evs →
  ∃ s e, run_events evs (cee_drift (clock_new cal)) = (Ok tt, s) ∧ drift_ok s ∧
    estimate (E := Empty_set) s = (Ok e, s) ∧ est_ok e.
Proof.
  intros Hcal Hevs. pose proof (drift_ok_new _ Hcal) as Hs. cbn [clock_new cee_drift].
  generalize dependent (drift_new (drift_of_cal cal)).
  induction Hevs as [|ev evs Hev _ IH]; intros s Hs.
  - destruct (estimate_run (E := Empty_set) s Hs) as (e & He & Hok). by exists s, e.
  - destruct (run_event_ok s ev Hs Hev) as (s1 & Hr & Hs1).
    destruct (IH s1 Hs1) as (s' & e & Hrun & H'). exists s', e.
    cbn [run_events]. unfold mbind, M_bind. by rewrite Hr.
Qed.

(** Accuracy of the reverse conversion.  For intervals below [i32::MAX]
    microseconds and corrections up to half a billion parts per billion,
    [reverse_slope_convert] does not overflow, and its result [r] satisfies
    [r * (1 - c) = dt] up to 16 roundings and 2^-16 of the correction: after 16
    iterations at most 8 millionths of the result (and 32 microseconds). *)
Theorem reverse_slope_accurate {S E} dt c (st : S) :
  small_dt dt → slope_ok c →
  ∃ r, reverse_slope_convert (E := E) dt c st = (Ok r, st) ∧
    Z.abs (r * (BILLION - c) - dt * BILLION) ≤ 16 * (BILLION - 1) + Z.abs c * Z.abs dt / 2 ^ 16 ∧
    1000000 * Z.abs (r * (BILLION - c) - dt * BILLION) ≤ 8 * (Z.abs dt * BILLION) + 16000000 * BILLION.
Proof.
  intros Hd Hc. destruct (reverse_slope_run (S := S) (E := E) dt c st Hd Hc) as (r & Hr & Ha & _).
  exists r. split_and!; [done|done|]. unfold slope_tolerance in Ha.
  assert (Z.abs c * Z.abs dt / 2 ^ 16 ≤ 500000000 * Z.abs dt / 2 ^ 16).
  { apply Z.div_le_mono; [done|]. unfold slope_ok, CORRECTION_ERROR_MAX_PPB in Hc. nia. }
  pose proof (Z.mul_div_le (500000000 * Z.abs dt) (2 ^ 16)). unfold BILLION in *. lia.
Qed.

Lemma abs_is_i64 z : Z.abs z < 2 ^ 62 → is_i64 z.
Proof. unfold is_i64, i64_min, i64_max. lia. Qed.

(** One conversion and back, relative to the pair of offsets [o1], [o2]. *)
Lemma affine_roundtrip {S E} x o1 o2 c (st : S) :
  slope_ok c → Z.abs (x - o1) < 2 ^ 30 - 1 → Z.abs o1 < 2 ^ 61 → Z.abs o2 < 2 ^ 61 →
  ∃ y z,
    (delta ← i64_sub x o1; slope ← i32_op (- c); d ← reverse_slope_convert delta slope; i64_add o2 d) st
      = (Ok (E := E) y, st) ∧
    (delta ← i64_sub y o2; d ← forward_slope_convert delta c; i64_add o1 d) st = (Ok (E := E) z, st) ∧
    Z.abs (z - x) * BILLION ≤ 17 * BILLION + Z.abs c * Z.abs (x - o1) / 2 ^ 16.
Proof.
  intros Hc Hd H1 H2.
  destruct (slope_roundtrip_run (S := S) (E := E) (x - o1) c st Hd Hc) as (r & f & Hr & Hf & Hb & Hacc & Hb').
  exists (o2 + r), (o1 + f). unfold mbind, M_bind, i64_sub, i64_add.
  assert (is_i32 (- c)) by (unfold slope_ok, CORRECTION_ERROR_MAX_PPB, is_i32 in *; clear Hacc; lia).
  assert (is_i64 (x - o1) ∧ is_i64 (o2 + r) ∧ is_i64 (o1 + f) ∧ is_i64 r) as (? & ? & ? & ?)
    by (clear Hacc; split_and!; apply abs_is_i64; lia).
  replace (o2 + r - o2) with r by (clear; lia).
  rewrite !i64_op_run, i32_op_run, Hr by done. rewrite i64_op_run by done.
  split_and!; [done|by rewrite Hf, i64_op_run|].
  replace (o1 + f - x) with (f - (x - o1)) by (clear; lia).
  unfold slope_tolerance in Hacc. clear -Hacc. lia.
Qed.

(** Converting a timestamp and back.  Within 2^30 microseconds of the last
    correction, converting a raw timestamp to temperature-corrected time and back
    changes it by at most 17 microseconds and 2^-16 of the correction, and so
    does the way from temperature-corrected to drift-corrected time and back. *)
Theorem timestamp_conversions_roundtrip {E} s raw r0 t0 e t1 d1 :
  cd_temp s = Some (r0, t0, e) → estimate_at s = Some (t1, d1) →
  slope_ok (error_ppb e) → slope_ok (error_ppb (estimate_pre_temp s)) →
  Z.abs (raw - r0) < 2 ^ 30 - 1 → Z.abs (raw - t1) < 2 ^ 30 - 1 →
  Z.abs r0 < 2 ^ 61 → Z.abs t0 < 2 ^ 61 → Z.abs t1 < 2 ^ 61 → Z.abs d1 < 2 ^ 61 →
  ∃ t raw' d t',
    convert_raw_to_temp_corrected (E := E) raw s = (Ok t, s) ∧
    convert_temp_corrected_to_raw (E := E) t s = (Ok raw', s) ∧
    Z.abs (raw' - raw) * BILLION ≤ 17 * BILLION + Z.abs (error_ppb e) * Z.abs (raw - r0) / 2 ^ 16 ∧
    convert_temp_corrected_to_drift_corrected (E := E) raw s = (Ok d, s) ∧
    convert_drift_corrected_to_temp_corrected (E := E) d s = (Ok t', s) ∧
    Z.abs (t' - raw) * BILLION ≤
      17 * BILLION + Z.abs (error_ppb (estimate_pre_temp s)) * Z.abs (raw - t1) / 2 ^ 16.
Proof.
  intros Htemp Hat Hc1 Hc2 Hd1 Hd2 Hr0 Ht0 Ht1 Hdd.
  destruct (affine_roundtrip (E := E) raw r0 t0 (error_ppb e) s Hc1 Hd1 Hr0 Ht0) as (t & raw' & H1 & H2 & H3).
  destruct (affine_roundtrip (E := E) raw t1 d1 (error_ppb (estimate_pre_temp s)) s Hc2 Hd2 Ht1 Hdd)
    as (d & t' & H4 & H5 & H6).
  exists t, raw', d, t'.
  unfold convert_raw_to_temp_corrected, convert_temp_corrected_to_raw,
    convert_temp_corrected_to_drift_corrected, convert_drift_corrected_to_temp_corrected.
  split_and!; (done || (unfold mbind, M_bind at 1; cbn [gets id]; rewrite ?Htemp, ?Hat; done)).
Qed.

(** A forward jump of the server time is not rejected.  When the server
    time advanced at least twice as much as the local time (a drift beyond the
    limit), [update_network_time] succeeds and averages an error at or below the
    limit into the estimate; only a backward jump resets the estimator. *)
Theorem forward_jump_accepted s t_temp t_drift nt nw :
  drift_ok s → network_ok nt → is_i64 t_temp → cd_network s = Some nw →
  latency_estimate_us nt = 0 → latency_estimate_us (nr_network nw) = 0 →
  NETWORK_TIME_UPDATE_INTERVAL_MIN_US < local_dt t_temp nw →
  2 * local_dt t_temp nw ≤ network_dt nt nw < 2 ^ 62 / BILLION →
  ∃ error s', update_network_time t_temp t_drift nt s = (Ok tt, s') ∧
    error ≤ - CORRECTION_ERROR_MAX_PPB ∧
    estimate_pre_temp s' = weighed_average (nr_initial nw) (mkEstimate error (nr_max_temp nw)).
Proof.
  intros Hs [Hts Hlat] Ht Hnw Hl1 Hl2 Hmin Hjump. destruct (do_network _ Hs _ Hnw) as (_ & _ & _ & Hmax).
  unfold update_network_time, mbind, M_bind. cbn [gets id]. rewrite Hnw, Hl1, Hl2.
  fold (local_dt t_temp nw) (network_dt nt nw). set (ld := local_dt t_temp nw) in *. set (nd := network_dt nt nw) in *.
  change (Z.max 0 0) with 0. change (2 ^ 62 / BILLION) with 4611686018 in Hjump.
  unfold NETWORK_TIME_UPDATE_INTERVAL_MIN_US in *.
  replace (i64_saturating_sub nd 0) with nd
    by (unfold i64_saturating_sub, i64_saturate, i64_min, i64_max; lia).
  rewrite (proj2 (Z.leb_gt _ _)) by lia. cbn [i64_mul Z.mul]. unfold i64_mul at 1. cbn [Z.mul].
  rewrite i64_op_run by (unfold is_i64, i64_min, i64_max; lia). rewrite Z.quot_0_l by lia.
  cbn [Z.leb CORRECTION_ERROR_MAX_PPB Z.compare]. change (as_u32 0) with 0.
  unfold i64_sub. rewrite i64_op_run by (unfold is_i64, i64_min, i64_max; lia).
  replace (i64_saturating_mul (ld - nd) BILLION) with ((ld - nd) * BILLION)
    by (unfold i64_saturating_mul, i64_saturate, i64_min, i64_max, BILLION; lia).
  set (err := Z.quot _ nd).
  assert (Herr : - BILLION ≤ err ≤ - CORRECTION_ERROR_MAX_PPB).
  { assert (Hq : err = - ((nd - ld) * BILLION / nd)).
    { unfold err. replace ((ld - nd) * BILLION) with (- ((nd - ld) * BILLION)) by lia.
      rewrite Z.quot_opp_l by lia. f_equal. apply Z.quot_div_nonneg; unfold BILLION; lia. }
    unfold CORRECTION_ERROR_MAX_PPB, BILLION in *.
    assert (500000000 ≤ (nd - ld) * 1000000000 / nd) by (apply Z.div_le_lower_bound; lia).
    assert ((nd - ld) * 1000000000 / nd ≤ 1000000000) by (apply Z.div_le_upper_bound; lia). lia. }
  rewrite (proj2 (Z.leb_gt _ (ld - nd))) by lia.
  rewrite (proj2 (Z.leb_gt _ err)) by (unfold CORRECTION_ERROR_MAX_PPB in *; lia). cbn [orb].
  rewrite u32_op_run by (ppb; lia). rewrite as_i32_small by (ppb; lia). rewrite Z.add_0_l.
  destruct (_ <? _); eexists err, _; (split; [done|]); (split; [lia|done]).
Qed.

Module DemoClock.
Definition cal : ClockCalibration := mkCal 120000 40000.
Definition nt (t : Z) : NetworkTime := mkNetworkTime t 0.
Definition events : list clock_event :=
  [EvTemp 1000 1000 (mkEstimate 100000 5000); EvNetwork 2000 2000 (nt 7000000);
   EvNetwork 600002000 600002000 (nt 607000000)].

Lemma nt_ok t : 0 ≤ t < 2 ^ 62 → network_ok (nt t).
Proof. intros ?. unfold network_ok, is_i64, i64_min, i64_max. cbn. lia. Qed.

Lemma estimator_stays_in_range_witness :
  ∃ s e, run_events events (cee_drift (clock_new cal)) = (Ok tt, s) ∧ drift_ok s ∧
    estimate (E := Empty_set) s = (Ok e, s) ∧ est_ok e.
Proof.
  apply (estimator_stays_in_range cal events).
  - ppb. cbn. lia.
  - repeat constructor; cbn; unfold est_ok, network_ok, is_i64, i64_min, i64_max, CORRECTION_ERROR_MAX_PPB; cbn; lia.
Defined.

Lemma reverse_slope_accurate_witness :
  ∃ r, reverse_slope_convert (E := unit) 1800000000 500000000 tt = (Ok r, tt) ∧
    Z.abs (r * 500000000 - 1800000000 * BILLION) ≤ 28800 * 500000000.
Proof.
  destruct (reverse_slope_accurate (S := unit) (E := unit) 1800000000 500000000 tt) as (r & Hr & H1 & _).
  - unfold small_dt. lia.
  - unfold slope_ok, CORRECTION_ERROR_MAX_PPB. lia.
  - exists r. split; [done|].
    change (16 * (BILLION - 1) + Z.abs 500000000 * Z.abs 1800000000 / 2 ^ 16) with 13748910156234 in H1.
    change (BILLION - 500000000) with 500000000 in H1. lia.
Defined.

Definition demo_drift : ClockDriftEstimate :=
  mkDrift (mkEstimate 120000 40000) (Some (5000, 5100)) (Some (1000, 900, mkEstimate 100000 5000)) None.

Lemma timestamp_conversions_roundtrip_witness :
  ∃ t raw', convert_raw_to_temp_corrected (E := unit) 1000000 demo_drift = (Ok t, demo_drift) ∧
    convert_temp_corrected_to_raw (E := unit) t demo_drift = (Ok raw', demo_drift) ∧
    Z.abs (raw' - 1000000) ≤ 17.
Proof.
  destruct (timestamp_conversions_roundtrip (E := unit) demo_drift 1000000 1000 900 (mkEstimate 100000 5000) 5000 5100)
    as (t & raw' & d & t' & H1 & H2 & H3 & _);
    try reflexivity; try (unfold slope_ok, CORRECTION_ERROR_MAX_PPB; cbn; lia).
  exists t, raw'. split_and!; [done|done|].
  change (17 * BILLION + Z.abs (error_ppb (mkEstimate 100000 5000)) * Z.abs (1000000 - 1000) / 2 ^ 16)
    with 17001524353 in H3. unfold BILLION in H3. lia.
Defined.

(** The server time jumps a minute ahead within the second minute. *)
Definition jumped : ClockDriftEstimate :=
  set_network (Some (mkNetworkRef (nt 0) 0 (mkEstimate 0 100) 0)) (drift_new (mkEstimate 0 100)).

Lemma forward_jump_accepted_witness :
  ∃ error s', update_network_time 61000000 61000000 (nt 122000000) jumped = (Ok tt, s') ∧
    error ≤ - CORRECTION_ERROR_MAX_PPB ∧
    estimate_pre_temp s' = weighed_average (mkEstimate 0 100) (mkEstimate error 0).
Proof.
  apply (forward_jump_accepted jumped 61000000 61000000 (nt 122000000) (mkNetworkRef (nt 0) 0 (mkEstimate 0 100) 0)).
  - split; cbn; [ppb; cbn; lia|done|]. intros nw [= <-].
    cbn. unfold network_ok, is_i64, i64_min, i64_max. ppb. cbn. lia.
  - apply nt_ok. lia.
  - unfold is_i64, i64_min, i64_max. lia.
  - reflexivity.
  - reflexivity.
  - reflexivity.
  - vm_compute. reflexivity.
  - vm_compute. split; [discriminate|reflexivity].
Defined.
End DemoClock.
