(* ===== verification/Time.v ===== *)
(** * The wall clock

    [sensor-link-firmware/src/drivers/time.rs]: [CombinedTime] interpolates an
    accurate clock of low resolution with a fast clock, which [TimeCorrection]
    keeps in step.  The two clocks are implementations of trait
    [TimestampSource] by the user of the library: their readings are arguments.
    [lock] tells whether [try_write] of the double buffer got the lock. *)

From stdpp Require Import base list list_numbers numbers option.
From S2P Require Import Prelude Numeric.

Inductive TimeError : Type := TimeUnknown | TimeInvalid | TimeNotTicking.

(** The result of [TimestampSource::timestamp_us]. *)
Definition reading : Type := (Z + TimeError)%type.

Record TimeCorrection : Type := mkCorrection {
  is_initialized : bool;
  tc_offset : Z;
  last_corrected : Z;
  slope : Z;
  tc_error : Z
}.

Definition UPDATE_INTERVAL_US : Z := 120000000.
Definition UPDATE_INTERVAL_MIN_US : Z := 4000000.
Definition SLOPE_RESOLUTION : Z := 2 ^ 24.

Definition tc_default : TimeCorrection := mkCorrection false 0 0 0 0.
Definition tc_initialized (initial_time initial_offset : Z) : TimeCorrection :=
  mkCorrection true initial_offset initial_time 0 0.

Definition tc_correct {S E} (c : TimeCorrection) (raw_time : Z) : M S E Z :=
  now ← i64_add raw_time (tc_offset c);
  if last_corrected c <=? now then
    t_since_last ← i64_sub now (last_corrected c);
    match checked_mul t_since_last (slope c) with
    | Some compensation => i64_add now (Z.quot compensation SLOPE_RESOLUTION)
    | None => mret now
    end
  else mret now.

Definition should_update {S E} (c : TimeCorrection) (ref_time offset offset_limit : Z) : M S E bool :=
  t_now ← i64_add ref_time offset;
  t_since_last ← i64_sub t_now (last_corrected c);
  mret (negb (is_initialized c) || (offset_limit <=? Z.abs offset) ||
        (UPDATE_INTERVAL_MIN_US <=? t_since_last)).

Definition error_since_last {S E} (c : TimeCorrection) (error : Z) : M S E Z :=
  i64_sub (tc_error c) error.

(** [i32::try_from] *)
Definition i32_try_from (z : Z) : option Z :=
  if (- 2 ^ 31 <=? z) && (z <? 2 ^ 31) then Some z else None.

(** The slope after [update_slope]; the caller ignores a failed conversion. *)
Definition update_slope {S E} (c : TimeCorrection) (t_since_last error : Z) : M S E TimeCorrection :=
  if 0 <? t_since_last then
    e ← error_since_last c error;
    scaled ← i64_mul e SLOPE_RESOLUTION;
    match i32_try_from (Z.quot scaled t_since_last) with
    | Some slope_correction =>
        mret (mkCorrection (is_initialized c) (tc_offset c) (last_corrected c)
                (i32_saturating_add (slope c) slope_correction) (tc_error c))
    | None => mret c
    end
  else mret c.

Definition tc_update (ref_time offset offset_limit : Z) : M TimeCorrection Empty_set unit :=
  c ← gets id;
  t_now ← i64_add ref_time offset;
  let error := offset in
  t_since_last ← i64_sub t_now (last_corrected c);
  if negb (is_initialized c) then
    modify (λ _, mkCorrection true (- error) t_now (slope c) (tc_error c))
  else if offset_limit <=? Z.abs error then
    new_offset ← i64_sub (tc_offset c) error;
    modify (λ _, mkCorrection true new_offset t_now (slope c) 0)
  else
    e ← error_since_last c error;
    if (UPDATE_INTERVAL_US <? t_since_last) || (offset_limit / 4 <=? Z.abs e) then
      c' ← update_slope c t_since_last error;
      modify (λ _, mkCorrection true (tc_offset c') t_now (slope c') (as_i32 error))
    else mret tt.

(** ** [CombinedTime] *)

Record CombinedTime : Type := mkTime { max_deviation : Z; time_correction : TimeCorrection }.

Inductive ClockStatus : Type :=
| CS_Error (e : TimeError)
| CS_LimitedResolution (time : Z) (offset : option Z)
| CS_FastClock (time offset : Z).

(** [new] and [with_high_resolution_clock], before the first reading. *)
Definition combined_new : CombinedTime := mkTime 0 tc_default.
Definition with_high_resolution_clock (max_deviation_us : Z) (t : CombinedTime) : CombinedTime :=
  mkTime max_deviation_us (time_correction t).

Definition clock_status {E} (accurate : reading) (fast : option reading) : M CombinedTime E ClockStatus :=
  t ← gets id;
  let fast := match fast with Some (inl f) => Some f | _ => None end in
  match accurate, fast with
  | inr error, _ => mret (CS_Error error)
  | inl accurate, None => mret (CS_LimitedResolution accurate None)
  | inl accurate, Some fast =>
      fast ← tc_correct (time_correction t) fast;
      delta ← i64_sub fast accurate;
      if Z.abs delta <? max_deviation t then mret (CS_FastClock accurate delta)
      else mret (CS_LimitedResolution accurate (Some delta))
  end.

Definition update_time_correction {E} (lock : bool) (time offset : Z) : M CombinedTime E unit := λ t,
  match should_update (E := Empty_set) (time_correction t) time offset (max_deviation t) tt with
  | (Ok true, _) =>
      if lock then
        match tc_update time offset (max_deviation t) (time_correction t) with
        | (Ok _, c) => (Ok tt, mkTime (max_deviation t) c)
        | (_, _) => (Panic, t)
        end
      else (Ok tt, t)
  | (Ok false, _) => (Ok tt, t)
  | (_, _) => (Panic, t)
  end.

Definition wrapping_add_i64 (a b : Z) : Z := to_signed 64 ((a + b) mod 2 ^ 64).

Definition combined_timestamp_us (lock : bool) (accurate : reading) (fast : option reading) :
    M CombinedTime TimeError Z :=
  status ← clock_status accurate fast;
  match status with
  | CS_Error error => fail error
  | CS_LimitedResolution time None => mret time
  | CS_LimitedResolution time (Some offset) => update_time_correction lock time offset;; mret time
  | CS_FastClock time offset =>
      update_time_correction lock time offset;; mret (wrapping_add_i64 time offset)
  end.

(** ** What the operations compute on times in range *)

(** Times up to about five hundred years around the epoch. *)
Definition time_ok (t : Z) : Prop := Z.abs t < 2 ^ 54.

Record tc_ok (c : TimeCorrection) : Prop := {
  tco_offset : Z.abs (tc_offset c) < 2 ^ 56;
  tco_last : Z.abs (last_corrected c) < 2 ^ 57;
  tco_slope : is_i32 (slope c);
  tco_error : is_i32 (tc_error c);
  tco_fresh : is_initialized c = false → tc_offset c = 0
}.

(** The compensation for the slope, which [checked_mul] limits. *)
Definition compensation (c : TimeCorrection) (now : Z) : Z :=
  if last_corrected c <=? now then
    match checked_mul (now - last_corrected c) (slope c) with
    | Some x => Z.quot x SLOPE_RESOLUTION
    | None => 0
    end
  else 0.

Lemma compensation_range c now : Z.abs (compensation c now) ≤ 2 ^ 39.
Proof.
  unfold compensation. case_match; [|lia]. destruct (checked_mul _ _) as [x|] eqn:Hx; [|lia].
  apply i64_checked_Some in Hx as [-> Hr]. unfold is_i64, i64_min, i64_max in Hr. set (x := _ * _) in *.
  unfold SLOPE_RESOLUTION. rewrite <-Z.quot_abs, Z.quot_div_nonneg by lia.
  apply Z.div_le_upper_bound; lia.
Qed.

Lemma abs63 z : Z.abs z < 2 ^ 63 → is_i64 z.
Proof. unfold is_i64, i64_min, i64_max. lia. Qed.

Lemma tc_correct_run {S E} c raw (st : S) :
  tc_ok c → time_ok raw →
  let now := raw + tc_offset c in
  tc_correct (E := E) c raw st = (Ok (now + compensation c now), st) ∧
  Z.abs (now + compensation c now) < 2 ^ 57.
Proof.
  intros [Ho Hl Hs He _] Hr now. unfold time_ok in Hr. pose proof (compensation_range c now) as Hc.
  split; [|unfold now in *; lia]. unfold tc_correct, mbind, M_bind, i64_add, i64_sub. fold now.
  rewrite i64_op_run by (apply abs63; unfold now; lia). unfold compensation in *.
  destruct (last_corrected c <=? now); [|by rewrite Z.add_0_r].
  rewrite i64_op_run by (apply abs63; unfold now; lia).
  destruct (checked_mul _ _); [|by rewrite Z.add_0_r].
  rewrite i64_op_run; [done|]. apply abs63. unfold now in *. lia.
Qed.

Lemma as_i32_range z : is_i32 (as_i32 z).
Proof.
  unfold as_i32, to_signed, is_i32. pose proof (Z.mod_pos_bound z (2 ^ 32)). case_match; lia.
Qed.

Lemma update_slope_run {S E} c t error (st : S) :
  tc_ok c → Z.abs error < 2 ^ 32 →
  ∃ c', update_slope (E := E) c t error st = (Ok c', st) ∧ is_i32 (slope c') ∧ tc_offset c' = tc_offset c.
Proof.
  intros [Ho Hl Hs He _] Her. unfold update_slope. destruct (0 <? t); [|by exists c].
  unfold mbind, M_bind, error_since_last, i64_sub, i64_mul, is_i32 in *.
  rewrite i64_op_run by (apply abs63; lia). rewrite i64_op_run by (apply abs63; unfold SLOPE_RESOLUTION; lia).
  destruct (i32_try_from _); [|by exists c]. eexists. split; [done|]. split; [|done]. cbn.
  unfold i32_saturating_add. lia.
Qed.

(** An update with the error [offset] of the corrected time [ref + offset]. *)
Lemma tc_update_run c ref offset limit :
  tc_ok c → time_ok ref → Z.abs (ref + offset) < 2 ^ 57 → Z.abs (tc_offset c - offset) < 2 ^ 56 →
  0 ≤ limit < 2 ^ 32 →
  ∃ c', tc_update ref offset limit c = (Ok tt, c') ∧ tc_ok c' ∧
    (limit ≤ Z.abs offset → tc_offset c' = tc_offset c - offset).
Proof.
  intros Hc Href Hnow Hoff Hlim. pose proof Hc as [Ho Hl Hs He Hf]. unfold time_ok in Href.
  unfold tc_update, mbind, M_bind, i64_add, i64_sub. cbn [gets id].
  rewrite !i64_op_run by (apply abs63; lia).
  destruct (is_initialized c) eqn:Hi; cbn [negb]; last first.
  { eexists. split; [done|]. rewrite (Hf eq_refl) in *. split; [|cbn; lia]. split; cbn; done || lia. }
  destruct (Z.leb_spec limit (Z.abs offset)) as [Hle|Hgt].
  { eexists. split; [by rewrite i64_op_run by (apply abs63; lia)|]. split; [|done].
    split; cbn; (done || lia || (unfold is_i32; lia)). }
  unfold error_since_last, i64_sub, is_i32 in *. rewrite i64_op_run by (apply abs63; lia).
  destruct (_ || _); [|eexists; split; [done|]; split; [done|lia]].
  destruct (update_slope_run (E := Empty_set) c (ref + offset - last_corrected c) offset c Hc) as (c' & -> & Hsl & Hof);
    [lia|].
  eexists. split; [done|]. split; [|cbn; lia]. split; cbn; [by rewrite Hof|done|done|apply as_i32_range|done].
Qed.

Lemma update_time_correction_run {E} lock t ref offset :
  tc_ok (time_correction t) → 0 ≤ max_deviation t < 2 ^ 32 → time_ok ref → Z.abs (ref + offset) < 2 ^ 57 →
  Z.abs (tc_offset (time_correction t) - offset) < 2 ^ 56 →
  ∃ t', update_time_correction (E := E) lock ref offset t = (Ok tt, t') ∧
    tc_ok (time_correction t') ∧ max_deviation t' = max_deviation t.
Proof.
  intros Hc Hm Href Hnow Hoff. unfold update_time_correction, should_update, mbind, M_bind, i64_add, i64_sub.
  pose proof Hc as [_ Hl _ _ _].
  rewrite !i64_op_run by (apply abs63; lia). cbn [mret M_ret].
  destruct (_ || _); [|by eexists]. destruct lock; [|by eexists].
  destruct (tc_update_run _ ref offset (max_deviation t) Hc Href Hnow Hoff Hm) as (c' & -> & Hc' & _).
  eexists. split; [done|]. done.
Qed.

(** A slope above -100% never lets time run backward. *)
Lemma slope_mono a b k :
  0 ≤ a ≤ b → - 2 ^ 24 ≤ k → a + Z.quot (a * k) (2 ^ 24) ≤ b + Z.quot (b * k) (2 ^ 24).
Proof.
  intros Hab Hk. destruct (Z.leb_spec 0 k).
  - rewrite !Z.quot_div_nonneg by nia. enough (a * k / 2 ^ 24 ≤ b * k / 2 ^ 24) by lia.
    apply Z.div_le_mono; nia.
  - replace (a * k) with (- (a * - k)) by lia. replace (b * k) with (- (b * - k)) by lia.
    rewrite !Z.quot_opp_l, !Z.quot_div_nonneg by nia.
    enough (b * - k / 2 ^ 24 ≤ (b - a) + a * - k / 2 ^ 24) by lia.
    rewrite <-Z.div_add_l by lia. apply Z.div_le_mono; nia.
Qed.

(** ** Properties *)

(** Successive calls of [timestamp_us]: whether the lock was free, and what the
    clocks read. *)
Fixpoint run_readings (readings : list (bool * reading * option reading)) (t : CombinedTime) :
    list (outcome TimeError Z) * CombinedTime :=
  match readings with
  | [] => ([], t)
  | (lock, accurate, fast) :: readings =>
      let '(r, t) := combined_timestamp_us lock accurate fast t in
      let '(rs, t) := run_readings readings t in
      (r :: rs, t)
  end.

Definition reading_ok (r : reading) : Prop := match r with inl t => time_ok t | inr _ => True end.

Lemma wrapping_add_i64_small a b : Z.abs (a + b) < 2 ^ 63 → wrapping_add_i64 a b = a + b.
Proof. intros ?. unfold wrapping_add_i64. apply to_signed_mod; lia. Qed.

Lemma combined_timestamp_run lock accurate fast t :
  tc_ok (time_correction t) → 0 ≤ max_deviation t < 2 ^ 32 → reading_ok accurate →
  (∀ r, fast = Some r → reading_ok r) →
  ∃ r t', combined_timestamp_us lock accurate fast t = (r, t') ∧
    tc_ok (time_correction t') ∧ max_deviation t' = max_deviation t ∧
    match accurate with
    | inr e => r = Err e
    | inl a => ∃ now, r = Ok now ∧ (now = a ∨ Z.abs (now - a) < max_deviation t)
    end.
Proof.
  intros Hc Hm Ha Hf. unfold combined_timestamp_us, clock_status, mbind, M_bind. cbn [gets id].
  destruct accurate as [a|e]; [|eexists _, t; by split_and!]. cbn in Ha.
  destruct fast as [[f|e]|]; [|eexists _, t; split_and!; by eauto..].
  destruct (tc_correct_run (E := TimeError) (time_correction t) f t Hc (Hf _ eq_refl)) as [Hrun Hb].
  pose proof (compensation_range (time_correction t) (f + tc_offset (time_correction t))) as Hcomp.
  rewrite Hrun. set (comp := compensation _ _) in *. clearbody comp.
  set (now := f + _ + comp) in *. pose proof (Hf _ eq_refl) as Hfr. cbn in Hfr. unfold time_ok in *.
  unfold i64_sub. rewrite i64_op_run by (apply abs63; lia).
  destruct (update_time_correction_run (E := TimeError) lock t a (now - a) Hc Hm Ha)
    as (t' & Hup & Hc' & Hm'); [unfold time_ok; lia|unfold now; lia|].
  destruct (Z.ltb_spec (Z.abs (now - a)) (max_deviation t)); cbn [mret M_ret]; rewrite Hup;
    (eexists _, t'; split; [done|]; split; [done|]; split; [done|]).
  - exists now. rewrite wrapping_add_i64_small by lia. split; [f_equal; lia|by right].
  - exists a. by split; [|left].
Qed.

(** The combined clock follows the accurate clock.  Whatever the fast clock
    reads, for times within five centuries of the epoch, [timestamp_us] does not
    overflow or panic; it fails only with the error of the accurate clock, and
    otherwise deviates from it by less than the maximum deviation.  The
    correction stays in range, so this holds for every later reading as well. *)
Theorem combined_time_follows readings max_deviation_us :
  0 ≤ max_deviation_us < 2 ^ 32 →
  Forall (λ '(_, accurate, fast), reading_ok accurate ∧ ∀ r, fast = Some r → reading_ok r) readings →
  ∃ results t,
    run_readings readings (with_high_resolution_clock max_deviation_us combined_new) = (results, t) ∧
    Forall2 (λ '(_, accurate, _) r,
      match accurate with
      | inr e => r = Err e
      | inl a => ∃ now, r = Ok now ∧ (now = a ∨ Z.abs (now - a) < max_deviation_us)
      end) readings results.
Proof.
  intros Hm Hr. set (t0 := with_high_resolution_clock _ _).
  assert (Hok : tc_ok (time_correction t0) ∧ max_deviation t0 = max_deviation_us).
  { split; [|done]. split; cbn; unfold is_i32; done || lia. }
  clearbody t0. revert t0 Hok.
  induction Hr as [|[[lock accurate] fast] readings [Ha Hf] _ IH]; intros t [Hc Hmt]; cbn [run_readings].
  - by exists [], t.
  - destruct (combined_timestamp_run lock accurate fast t Hc ltac:(lia) Ha Hf) as (r & t1 & -> & Hc1 & Hm1 & Hres).
    destruct (IH t1) as (rs & t2 & -> & Hrs); [split; [done|congruence]|].
    eexists _, _. split; [done|]. constructor; [by rewrite Hmt in Hres|done].
Qed.

(** Between updates the corrected clock never runs backward.  For a slope
    above -100%, as long as the compensation does not overflow, a later reading of
    the fast clock never gives an earlier time. *)
Theorem corrected_time_monotone {S E} c raw1 raw2 (st : S) :
  tc_ok c → time_ok raw1 → time_ok raw2 → raw1 ≤ raw2 → - SLOPE_RESOLUTION ≤ slope c →
  is_i64 ((raw2 + tc_offset c - last_corrected c) * slope c) →
  ∃ t1 t2, tc_correct (E := E) c raw1 st = (Ok t1, st) ∧ tc_correct (E := E) c raw2 st = (Ok t2, st) ∧
    t1 ≤ t2.
Proof.
  intros Hc H1 H2 Hle Hs Hov. destruct (tc_correct_run (S := S) (E := E) c raw1 st Hc H1) as [Hr1 _].
  destruct (tc_correct_run (S := S) (E := E) c raw2 st Hc H2) as [Hr2 _].
  eexists _, _. split; [exact Hr1|]. split; [exact Hr2|]. unfold compensation.
  set (o := tc_offset c) in *. set (l := last_corrected c) in *. set (k := slope c) in *.
  destruct (Z.leb_spec l (raw2 + o)) as [Hl2|Hl2]; [|rewrite (proj2 (Z.leb_gt _ _)) by lia; lia].
  unfold checked_mul. rewrite (i64_checked_ok _ Hov). unfold SLOPE_RESOLUTION in *.
  set (b := raw2 + o - l) in *. assert (Hb : 0 ≤ b) by (unfold b; lia).
  destruct (Z.leb_spec l (raw1 + o)) as [Hl1|Hl1].
  - set (a := raw1 + o - l) in *. assert (Ha : 0 ≤ a ≤ b) by (unfold a, b; lia).
    rewrite i64_checked_ok by (unfold is_i64, i64_min, i64_max in *; nia).
    enough (a + Z.quot (a * k) (2 ^ 24) ≤ b + Z.quot (b * k) (2 ^ 24)) by (unfold a, b in *; lia).
    by apply slope_mono.
  - enough (0 ≤ b + Z.quot (b * k) (2 ^ 24)) by (unfold b in *; lia).
    pose proof (slope_mono 0 b k ltac:(lia) Hs). rewrite Z.mul_0_l, Z.quot_0_l in * by lia. lia.
Qed.

Module DemoTime.
Definition c : TimeCorrection := mkCorrection true 5000 1000 (-1678) 3.
Lemma c_ok : tc_ok c.
Proof. split; cbn; unfold is_i32; done || lia. Qed.

Lemma combined_time_follows_witness :
  ∃ results t,
    run_readings [(true, inl 1000000, Some (inl 5)); (true, inl 2000000, Some (inl 1000006))]
      (with_high_resolution_clock 1000000 combined_new) = (results, t) ∧ length results = 2%nat.
Proof.
  destruct (combined_time_follows [(true, inl 1000000, Some (inl 5)); (true, inl 2000000, Some (inl 1000006))] 1000000)
    as (rs & t & Hr & Hf).
  - lia.
  - repeat constructor; try (intros r [= <-]); cbn; unfold time_ok; lia.
  - exists rs, t. split; [exact Hr|]. by apply Forall2_length in Hf.
Defined.

Lemma corrected_time_monotone_witness :
  ∃ t1 t2, tc_correct (E := unit) c 100000 tt = (Ok t1, tt) ∧
    tc_correct (E := unit) c 200000 tt = (Ok t2, tt) ∧ t1 ≤ t2.
Proof.
  apply (corrected_time_monotone (E := unit) c 100000 200000 tt c_ok); unfold time_ok, is_i64, i64_min, i64_max, SLOPE_RESOLUTION; cbn; lia.
Defined.
End DemoTime.
