(* ===== verification/DoubleBuffer.v ===== *)
(** * The lock-free double buffer

    [DoubleBuffer] of [sensor-link-firmware/src/sync/mod.rs]: readers copy the
    current value without blocking and retry when a write interfered; a writer
    fills the other copy and then switches.  The model interleaves the atomic
    operations of any number of threads: each load, each compare-and-exchange,
    each store, and each word of the value that is copied or written, so that a
    reader can observe a half-written value.  Memory is sequentially consistent:
    the orderings of the source are not weakened further.  A value of type [T] is
    a list of [SIZE] words. *)

From stdpp Require Import base list list_numbers numbers option relations.
From S2P Require Import Prelude.

(** ** The state word *)

Inductive State : Type := WriteIdleRead0 | Writing1Read0 | WriteIdleRead1 | Writing0Read1.
#[export] Instance State_eq_dec : EqDecision State.
Proof. solve_decision. Defined.

Definition state_as_u32 (s : State) : Z :=
  match s with WriteIdleRead0 => 0 | Writing1Read0 => 1 | WriteIdleRead1 => 2 | Writing0Read1 => 3 end.
Definition state_from_u32 (v : Z) : State :=
  match Z.land v 3 with 0 => WriteIdleRead0 | 1 => Writing1Read0 | 2 => WriteIdleRead1 | _ => Writing0Read1 end.
Definition from_write_index (i : nat) : State :=
  match i with O => Writing0Read1 | _ => Writing1Read0 end.
Definition state_next (s : State) : State := state_from_u32 (state_as_u32 s + 1).
Definition read_index (s : State) : nat :=
  match s with WriteIdleRead0 | Writing1Read0 => 0 | WriteIdleRead1 | Writing0Read1 => 1 end.
Definition write_index (s : State) : option nat :=
  match s with
  | WriteIdleRead0 | WriteIdleRead1 => None
  | Writing0Read1 => Some 0%nat
  | Writing1Read0 => Some 1%nat
  end.

Section double_buffer.
Context {W : Type} (SIZE : nat).

Record DoubleBuffer : Type := mkDB {
  db_state : Z;
  data_version : Z;
  db_buffer : list (list W)
}.

Definition db_new (initial_value : list W) : DoubleBuffer :=
  mkDB (state_as_u32 WriteIdleRead0) 0 [initial_value; initial_value].

Definition compare_exchange (old new : Z) (m : DoubleBuffer) : option DoubleBuffer :=
  if db_state m =? old then Some (mkDB new (data_version m) (db_buffer m)) else None.

(** The lock part of [try_write]: two attempts, the second when the first one
    failed; the result is the index to write. *)
Definition lock_attempt (old new : State) (m : DoubleBuffer) : option (nat * DoubleBuffer) :=
  m' ← compare_exchange (state_as_u32 old) (state_as_u32 new) m;
  i ← write_index (state_next (state_from_u32 (state_as_u32 old)));
  Some (i, m').
Definition try_lock_first : DoubleBuffer → option (nat * DoubleBuffer) :=
  lock_attempt WriteIdleRead0 Writing1Read0.
Definition try_lock_second : DoubleBuffer → option (nat * DoubleBuffer) :=
  lock_attempt WriteIdleRead1 Writing0Read1.

(** [version] and [new_data_available_since], which updates its argument. *)
Definition version (m : DoubleBuffer) : Z := data_version m.
Definition new_data_available_since (v : Z) (m : DoubleBuffer) : bool * Z :=
  let latest := version m in (negb (v =? latest), latest).

(** The two operations of [finish_writing]. *)
Definition finish_bump (m : DoubleBuffer) : DoubleBuffer :=
  mkDB (db_state m) (as_u32 (data_version m + 1)) (db_buffer m).
Definition finish_store (i : nat) (m : DoubleBuffer) : DoubleBuffer :=
  mkDB (state_as_u32 (state_next (from_write_index i))) (data_version m) (db_buffer m).

(** A word written through the guard. *)
Definition write_word (i j : nat) (w : W) (m : DoubleBuffer) : DoubleBuffer :=
  mkDB (db_state m) (data_version m) (alter (λ v, <[j := w]> v) i (db_buffer m)).

(** ** [read] as a sequence of atomic steps

    The fields [g_start] (how many values were published when the read started)
    and [g_version] (how many writes had counted up when the version was loaded)
    are for the properties only. *)
Record ghost : Type := mkGhost { g_start : nat; g_version : Z }.

Inductive reader : Type :=
| RStart
| RState (s : State) (g : ghost)
| RCopy (s : State) (version : Z) (ws : list W) (g : ghost)
| RCheck (s : State) (version : Z) (ws : list W) (state_check : State) (g : ghost).

(** [p] values published after the first one, [b] writes counted up. *)
Definition reader_step (m : DoubleBuffer) (p : nat) (b : Z) (r : reader) : reader * option (list W) :=
  match r with
  | RStart => (RState (state_from_u32 (db_state m)) (mkGhost p b), None)
  | RState s g => (RCopy s (data_version m) [] (mkGhost (g_start g) b), None)
  | RCopy s version ws g =>
      if (length ws <? SIZE)%nat then
        match db_buffer m !! read_index s ≫= lookup (length ws) with
        | Some w => (RCopy s version (ws ++ [w]) g, None)
        | None => (r, None)
        end
      else (RCheck s version ws (state_from_u32 (db_state m)) g, None)
  | RCheck s version ws state_check g =>
      if (read_index s =? read_index state_check)%nat && (version =? data_version m)
      then (RStart, Some ws) else (RStart, None)
  end.

(** ** Threads *)

(** A thread is idle, in [read], between the two attempts to lock, or has won the
    lock: it reads the last value,
    assigns it to its copy word by word, lets the user write, and on drop counts
    up the version and switches. *)
Inductive thread : Type :=
| TIdle
| TReading (r : reader)
| TLocking
| TInit (i : nat) (r : reader)
| TAssign (i : nat) (val : list W) (k : nat)
| TOpen (i : nat)
| TBumped (i : nat).

Record config : Type := mkConfig {
  mem : DoubleBuffer;
  threads : list thread;
  published : list (list W);
  bumps : Z
}.

Definition pubs (c : config) : nat := pred (length (published c)).
Definition set_thread (t : nat) (th : thread) (c : config) : config :=
  mkConfig (mem c) (<[t := th]> (threads c)) (published c) (bumps c).
Definition set_mem (m : DoubleBuffer) (c : config) : config :=
  mkConfig m (threads c) (published c) (bumps c).

Definition config_new (initial_value : list W) (n : nat) : config :=
  mkConfig (db_new initial_value) (replicate n TIdle) [initial_value] 0.

Inductive db_step : config → config → Prop :=
| step_read_start c t :
    threads c !! t = Some TIdle → db_step c (set_thread t (TReading RStart) c)
| step_read c t r r' :
    threads c !! t = Some (TReading r) → reader_step (mem c) (pubs c) (bumps c) r = (r', None) →
    db_step c (set_thread t (TReading r') c)
| step_read_done c t r r' ws :
    threads c !! t = Some (TReading r) → reader_step (mem c) (pubs c) (bumps c) r = (r', Some ws) →
    db_step c (set_thread t TIdle c)
| step_lock c t i m :
    threads c !! t = Some TIdle → try_lock_first (mem c) = Some (i, m) →
    db_step c (set_thread t (TInit i RStart) (set_mem m c))
| step_lock_else c t :
    threads c !! t = Some TIdle → try_lock_first (mem c) = None → db_step c (set_thread t TLocking c)
| step_lock_second c t i m :
    threads c !! t = Some TLocking → try_lock_second (mem c) = Some (i, m) →
    db_step c (set_thread t (TInit i RStart) (set_mem m c))
| step_lock_fails c t :
    threads c !! t = Some TLocking → try_lock_second (mem c) = None → db_step c (set_thread t TIdle c)
| step_init c t i r r' :
    threads c !! t = Some (TInit i r) → reader_step (mem c) (pubs c) (bumps c) r = (r', None) →
    db_step c (set_thread t (TInit i r') c)
| step_init_done c t i r r' ws :
    threads c !! t = Some (TInit i r) → reader_step (mem c) (pubs c) (bumps c) r = (r', Some ws) →
    db_step c (set_thread t (TAssign i ws 0) c)
| step_assign c t i val k w :
    threads c !! t = Some (TAssign i val k) → val !! k = Some w →
    db_step c (set_thread t (TAssign i val (S k)) (set_mem (write_word i k w (mem c)) c))
| step_assign_done c t i val k :
    threads c !! t = Some (TAssign i val k) → val !! k = None →
    db_step c (set_thread t (TOpen i) c)
| step_write c t i j w :
    threads c !! t = Some (TOpen i) →
    db_step c (set_mem (write_word i j w (mem c)) c)
| step_bump c t i :
    threads c !! t = Some (TOpen i) →
    db_step c (mkConfig (finish_bump (mem c)) (<[t := TBumped i]> (threads c)) (published c) (bumps c + 1))
| step_publish c t i v :
    threads c !! t = Some (TBumped i) → db_buffer (mem c) !! i = Some v →
    db_step c (mkConfig (finish_store i (mem c)) (<[t := TIdle]> (threads c)) (published c ++ [v]) (bumps c)).
End double_buffer.
Arguments DoubleBuffer W : clear implicits.
Arguments reader W : clear implicits.
Arguments thread W : clear implicits.
Arguments config W : clear implicits.

(** ** The lock-free double buffer: properties

    No interleaving lets a reader return a half-written value; at most one thread
    writes, and it starts from the value published last. *)

Section props.
Context {W : Type} (SIZE : nat).
Implicit Types c : config W.
Implicit Types th : thread W.
Implicit Types r : reader W.

Definition side (p : nat) : nat := p mod 2.
#[local] Arguments side : simpl never.
Definition idle_state (p : nat) : Z := if Nat.even p then 0 else 2.
Definition writing_state (p : nat) : Z := if Nat.even p then 1 else 3.

Lemma side_cases p : (side p = 0 ∧ Nat.even p = true ∨ side p = 1 ∧ Nat.even p = false)%nat.
Proof.
  unfold side. rewrite <-Nat.bit0_mod, Nat.bit0_odd, <-Nat.negb_even. destruct (Nat.even p); auto.
Qed.

Lemma side_S p : side (S p) = (1 - side p)%nat.
Proof.
  destruct (side_cases p) as [[H He]|[H He]], (side_cases (S p)) as [[H' He']|[H' He']];
    rewrite Nat.even_succ, <-Nat.negb_even, He in He'; try done; lia.
Qed.

Lemma side_le p : (side p ≤ 1)%nat.
Proof. destruct (side_cases p) as [[-> _]|[-> _]]; lia. Qed.

(** ** The invariant *)

(** What a reader has seen, [p] published values and [b] version counts in. *)
Definition reader_ok (p : nat) (b : Z) (pub bufs : list (list W)) r : Prop :=
  match r with
  | RStart => True
  | RState s g => (g_start g ≤ p)%nat ∧ read_index s = side (g_start g)
  | RCopy s v ws g =>
      (g_start g ≤ p)%nat ∧ read_index s = side (g_start g) ∧ v = as_u32 (g_version g) ∧
      Z.of_nat (g_start g) ≤ g_version g ≤ b ∧ (length ws ≤ SIZE)%nat ∧
      (b = g_version g → g_version g = Z.of_nat p ∧ side (g_start g) = side p ∨ g_version g = Z.of_nat p + 1 →
       ∀ buf, bufs !! read_index s = Some buf → ws = take (length ws) buf)
  | RCheck s v ws s' g =>
      (g_start g ≤ p)%nat ∧ v = as_u32 (g_version g) ∧ 0 ≤ g_version g ≤ b ∧
      (b = g_version g → read_index s = read_index s' →
       ∃ pc, (g_start g ≤ pc ≤ p)%nat ∧ pub !! pc = Some ws)
  end.

(** A read by the thread that holds the lock is not overtaken. *)
Definition reader_current (p : nat) (b : Z) r : Prop :=
  match r with
  | RStart => True
  | RState _ g => g_start g = p
  | RCopy _ _ _ g | RCheck _ _ _ _ g => g_start g = p ∧ g_version g = b
  end.

Definition is_writer th : bool :=
  match th with TIdle | TReading _ | TLocking => false | _ => true end.

Definition thread_ok (p : nat) (b : Z) (pub bufs : list (list W)) th : Prop :=
  match th with
  | TIdle | TLocking => True
  | TReading r => reader_ok p b pub bufs r
  | TInit i r => i = side (S p) ∧ b = Z.of_nat p ∧ reader_ok p b pub bufs r ∧ reader_current p b r
  | TAssign i val k => i = side (S p) ∧ b = Z.of_nat p ∧ pub !! p = Some val ∧
      ∃ buf, bufs !! i = Some buf ∧ take k buf = take k val
  | TOpen i => i = side (S p) ∧ b = Z.of_nat p
  | TBumped i => i = side (S p) ∧ b = Z.of_nat p + 1
  end.

Record inv c : Prop := {
  inv_pub : length (published c) = S (pubs c);
  inv_sizes : Forall (λ v, length v = SIZE) (published c);
  inv_bufs : length (db_buffer (mem c)) = 2%nat ∧ Forall (λ v, length v = SIZE) (db_buffer (mem c));
  inv_current : db_buffer (mem c) !! side (pubs c) = published c !! pubs c;
  inv_version : data_version (mem c) = as_u32 (bumps c);
  inv_threads : ∀ t th, threads c !! t = Some th →
    thread_ok (pubs c) (bumps c) (published c) (db_buffer (mem c)) th;
  inv_unique : ∀ t1 t2 th1 th2, threads c !! t1 = Some th1 → threads c !! t2 = Some th2 →
    is_writer th1 = true → is_writer th2 = true → t1 = t2;
  inv_lock :
    (db_state (mem c) = idle_state (pubs c) ∧ bumps c = Z.of_nat (pubs c) ∧
     ∀ t th, threads c !! t = Some th → is_writer th = false) ∨
    (db_state (mem c) = writing_state (pubs c) ∧
     ∃ t th, threads c !! t = Some th ∧ is_writer th = true)
}.

Lemma inv_bumps c : inv c → Z.of_nat (pubs c) ≤ bumps c ≤ Z.of_nat (pubs c) + 1.
Proof.
  intros Hi. destruct (inv_lock c Hi) as [(_ & -> & _)|(_ & t & th & Ht & Hw)]; [lia|].
  pose proof (inv_threads c Hi t th Ht) as Hok. destruct th; cbn in *; naive_solver lia.
Qed.

Lemma inv_read_index c : inv c → read_index (state_from_u32 (db_state (mem c))) = side (pubs c).
Proof.
  intros Hi. unfold idle_state, writing_state.
  destruct (inv_lock c Hi) as [(-> & _)|(-> & _)], (side_cases (pubs c)) as [[Hs He]|[Hs He]];
    unfold idle_state, writing_state; rewrite He, Hs; done.
Qed.

(** ** The steps of a reader *)

Lemma take_lookup_app (ws buf : list W) (w : W) :
  ws = take (length ws) buf → buf !! length ws = Some w → ws ++ [w] = take (length (ws ++ [w])) buf.
Proof.
  intros Hws Hw. rewrite length_app, Nat.add_1_r. rewrite (take_S_r _ _ _ Hw). by rewrite <-Hws.
Qed.

Lemma reader_step_ok c r r' o :
  inv c → reader_ok (pubs c) (bumps c) (published c) (db_buffer (mem c)) r →
  reader_step SIZE (mem c) (pubs c) (bumps c) r = (r', o) →
  reader_ok (pubs c) (bumps c) (published c) (db_buffer (mem c)) r' ∧
  (reader_current (pubs c) (bumps c) r → reader_current (pubs c) (bumps c) r').
Proof.
  intros Hi Hr Hstep. pose proof (inv_bumps c Hi) as Hb. pose proof (inv_read_index c Hi) as Hidx.
  destruct r as [|s g|s v ws g|s v ws s' g]; cbn [reader_step] in Hstep.
  - injection Hstep as <- <-. cbn. by rewrite Hidx.
  - injection Hstep as <- <-. destruct Hr as [Hs Hx]. cbn. split; [|done].
    split_and!; [done|done|apply Hi|lia|lia|lia|done].
  - destruct Hr as (Hs & Hx & Hv & Hg & Hl & Hc). destruct (Nat.ltb_spec (length ws) SIZE) as [Hlt|Hge].
    + destruct (db_buffer (mem c) !! read_index s ≫= lookup (length ws)) as [w|] eqn:Hw;
        injection Hstep as <- <-; [|done].
      split; [|done]. cbn. rewrite length_app. cbn [length]. split_and!; [done|done|done|lia|lia|lia|].
      intros Hbg Hcase buf Hbuf. rewrite Hbuf in Hw. cbn in Hw.
      pose proof (take_lookup_app ws buf w (Hc Hbg Hcase buf Hbuf) Hw) as Ht. by rewrite length_app in Ht.
    + injection Hstep as <- <-. split; [|done]. cbn. split_and!; [done|done|lia|lia|].
      intros Hbg Hsame. rewrite Hidx, Hx in Hsame.
      destruct (inv_bufs c Hi) as [Hlen Hsz].
      destruct (lookup_lt_is_Some_2 (db_buffer (mem c)) (read_index s)) as [buf Hbuf].
      { rewrite Hlen, Hx. pose proof (side_le (g_start g)). lia. }
      exists (pubs c). split; [lia|]. rewrite <-(inv_current c Hi), <-Hsame, <-Hx, Hbuf. f_equal.
      rewrite (Hc Hbg) with (buf := buf); [|lia|done].
      rewrite take_ge; [done|]. rewrite list.Forall_forall in Hsz.
      rewrite (Hsz buf) by (by eapply list_elem_of_lookup_2). lia.
  - destruct (_ && _); injection Hstep as <- <-; done.
Qed.

(** The value a reader returns was published, unless the version counter went
    around in between. *)
Lemma reader_returns c s v ws s' g ws' r' :
  inv c → reader_ok (pubs c) (bumps c) (published c) (db_buffer (mem c)) (RCheck s v ws s' g) →
  bumps c - g_version g < u32_size →
  reader_step SIZE (mem c) (pubs c) (bumps c) (RCheck s v ws s' g) = (r', Some ws') →
  ws' = ws ∧ ∃ pc, (g_start g ≤ pc ≤ pubs c)%nat ∧ published c !! pc = Some ws.
Proof.
  intros Hi (Hs & Hv & Hg & Hc) Hwin Hstep. cbn [reader_step] in Hstep.
  destruct (_ && _) eqn:Hcheck; [|done]. injection Hstep as <- <-. split; [done|].
  apply andb_true_iff in Hcheck as [Hidx%Nat.eqb_eq Hver%Z.eqb_eq]. apply Hc; [|done].
  rewrite Hv, (inv_version c Hi) in Hver. unfold as_u32, u32_size in *.
  pose proof (Z.div_mod (g_version g) 4294967296). pose proof (Z.div_mod (bumps c) 4294967296).
  pose proof (Z.mod_pos_bound (g_version g) 4294967296). lia.
Qed.

(** ** Other threads while the owner of the lock moves *)

(** A reader is not disturbed by writes to the other side, by a count of the
    version and by a publication. *)
Lemma reader_ok_write p pub bufs bufs' r :
  bufs' !! side p = bufs !! side p →
  reader_ok p (Z.of_nat p) pub bufs r → reader_ok p (Z.of_nat p) pub bufs' r.
Proof.
  intros Hsame. destruct r as [|s g|s v ws g|s v ws s' g]; try done. cbn.
  intros (Hs & Hx & Hv & Hg & Hl & Hc). split_and!; try done; [lia..|].
  intros Hb [[Hbp Hside]|?]; [|lia]. intros buf Hbuf. apply Hc; [done|by left|]. rewrite Hx, Hside in Hbuf |- *. by rewrite <-Hsame.
Qed.

Lemma reader_ok_bump p b pub bufs r : reader_ok p b pub bufs r → reader_ok p (b + 1) pub bufs r.
Proof.
  destruct r as [|s g|s v ws g|s v ws s' g]; try done; cbn.
  - intros (Hs & Hx & Hv & Hg & Hl & Hc). split_and!; try done; lia.
  - intros (Hs & Hv & Hg & Hc). split_and!; try done; lia.
Qed.

Lemma reader_ok_publish p b pub bufs v0 r :
  b = Z.of_nat p + 1 → reader_ok p b pub bufs r → reader_ok (S p) b (pub ++ [v0]) bufs r.
Proof.
  intros Hb. destruct r as [|s g|s v ws g|s v ws s' g]; cbn; [done| | |].
  - intros [? ?]. split; [lia|done].
  - intros (Hs & Hx & Hv & Hg & Hl & Hc). split_and!; try done; [lia..|].
    intros Hbg [[Hbp Hside]|?]; [|lia]. apply Hc; [done|]. right. lia.
  - intros (Hs & Hv & Hg & Hc). split_and!; try done; [lia..|].
    intros Hbg Hidx. destruct (Hc Hbg Hidx) as (pc & Hpc & Hpub). exists pc. split; [lia|].
    by apply lookup_app_l_Some.
Qed.

(** A step of the thread [t0] that owns the lock keeps the others. *)
Lemma others_ok c t0 th0 (P : reader W → Prop) :
  inv c → threads c !! t0 = Some th0 → is_writer th0 = true →
  (∀ r, reader_ok (pubs c) (bumps c) (published c) (db_buffer (mem c)) r → P r) →
  ∀ t th, t ≠ t0 → threads c !! t = Some th → th = TIdle ∨ th = TLocking ∨ ∃ r, th = TReading r ∧ P r.
Proof.
  intros Hi H0 Hw HP t th Hne Ht. pose proof (inv_threads c Hi t th Ht) as Hok.
  destruct th as [|r| | | | |]; [by left|right; right; eauto|by right; left|..];
    (exfalso; apply Hne; by eapply (inv_unique c Hi)).
Qed.

(** ** Preservation *)

Lemma insert_lookup_cases (ts : list (thread W)) t th' t' x :
  <[t := th']> ts !! t' = Some x → t' = t ∧ x = th' ∨ t' ≠ t ∧ ts !! t' = Some x.
Proof. intros [(-> & -> & _)|[? ?]]%list_lookup_insert_Some; [by left|by right]. Qed.

(** After an update of thread [t] that stays in or out of the lock. *)
Lemma unique_insert c t th th' :
  inv c → threads c !! t = Some th → is_writer th' = is_writer th →
  ∀ t1 t2 th1 th2, <[t := th']> (threads c) !! t1 = Some th1 → <[t := th']> (threads c) !! t2 = Some th2 →
    is_writer th1 = true → is_writer th2 = true → t1 = t2.
Proof.
  intros Hi Ht Hw t1 t2 th1 th2 [[-> ->]|[Hn1 H1]]%insert_lookup_cases [[-> ->]|[Hn2 H2]]%insert_lookup_cases W1 W2;
    [done|..]; rewrite ?Hw in *; by eapply (inv_unique c Hi).
Qed.

Lemma lock_insert c t th th' :
  threads c !! t = Some th → is_writer th' = true →
  ∃ t0 th0, <[t := th']> (threads c) !! t0 = Some th0 ∧ is_writer th0 = true.
Proof.
  intros Ht Hw. exists t, th'. split; [|done]. apply list_lookup_insert_eq. by eapply lookup_lt_Some.
Qed.

Lemma inv_set_thread c t th th' :
  inv c → threads c !! t = Some th → is_writer th' = is_writer th →
  thread_ok (pubs c) (bumps c) (published c) (db_buffer (mem c)) th' → inv (set_thread t th' c).
Proof.
  intros Hi Ht Hw Hok. split; try apply Hi.
  - intros t' x [[-> ->]|[_ Hx]]%insert_lookup_cases; [done|]. by apply (inv_threads c Hi) in Hx.
  - by eapply unique_insert.
  - destruct (inv_lock c Hi) as [(Hs & Hb & Hnone)|(Hs & t0 & th0 & Ht0 & Hw0)]; [left|right].
    + split_and!; [done|done|]. intros t' x [[-> ->]|[_ Hx]]%insert_lookup_cases; [|by eapply Hnone].
      rewrite Hw. by eapply Hnone.
    + split; [done|]. destruct (decide (t0 = t)) as [->|Hne].
      * eapply lock_insert; [done|]. rewrite Hw. congruence.
      * exists t0, th0. split; [|done]. cbn. by rewrite list_lookup_insert_ne by done.
Qed.

(** The lock is only given out when nobody holds it. *)
Lemma try_lock_inv c i m :
  inv c → try_lock_first (mem c) = Some (i, m) ∨ try_lock_second (mem c) = Some (i, m) →
  i = side (S (pubs c)) ∧ db_state m = writing_state (pubs c) ∧ data_version m = data_version (mem c) ∧
  db_buffer m = db_buffer (mem c) ∧ bumps c = Z.of_nat (pubs c) ∧
  ∀ t th, threads c !! t = Some th → is_writer th = false.
Proof.
  intros Hi. unfold try_lock_first, try_lock_second, lock_attempt, compare_exchange, writing_state. rewrite side_S.
  destruct (inv_lock c Hi) as [(-> & Hb & Hnone)|(-> & _)]; unfold idle_state, writing_state;
    destruct (side_cases (pubs c)) as [[-> ->]|[-> ->]]; cbn; intros [[= <- <-]|[= <- <-]]; done.
Qed.

Lemma inv_lock_step c t th i m :
  inv c → threads c !! t = Some th →
  try_lock_first (mem c) = Some (i, m) ∨ try_lock_second (mem c) = Some (i, m) →
  inv (set_thread t (TInit i RStart) (set_mem m c)).
Proof.
  intros Hi Ht (Hidx & Hst & Hv & Hbuf & Hb & Hnone)%try_lock_inv; [|done].
  split; unfold pubs in *; cbn [set_thread set_mem mem threads published bumps]; rewrite ?Hbuf, ?Hv; try apply Hi.
  - intros t' x [[-> ->]|[_ Hx]]%insert_lookup_cases; [done|]. by apply (inv_threads c Hi) in Hx.
  - intros t1 t2 th1 th2 [[-> ->]|[_ H1]]%insert_lookup_cases [[-> ->]|[_ H2]]%insert_lookup_cases W1 W2; [done|..];
      (apply Hnone in H1 || apply Hnone in H2); congruence.
  - right. split; [done|]. by eapply lock_insert.
Qed.

(** Writing a word of the copy on the other side. *)
Lemma inv_write c t th th' i j w :
  inv c → threads c !! t = Some th → is_writer th = true → is_writer th' = true →
  i = side (S (pubs c)) → bumps c = Z.of_nat (pubs c) →
  thread_ok (pubs c) (bumps c) (published c) (db_buffer (write_word i j w (mem c))) th' →
  inv (set_thread t th' (set_mem (write_word i j w (mem c)) c)).
Proof.
  intros Hi Ht Hw Hw' -> Hb Hok.
  assert (Hsame : db_buffer (write_word (side (S (pubs c))) j w (mem c)) !! side (pubs c) =
                  db_buffer (mem c) !! side (pubs c)).
  { cbn. apply list_lookup_alter_ne. rewrite side_S. pose proof (side_le (pubs c)). lia. }
  destruct (inv_bufs c Hi) as [Hlen Hsz].
  split; unfold pubs in *; cbn [set_thread set_mem mem threads published bumps]; try apply Hi.
  - cbn. rewrite length_alter. split; [done|]. apply list.Forall_forall. intros v.
    rewrite list.Forall_forall in Hsz. intros [k Hk]%list_elem_of_lookup_1.
    destruct (decide (k = side (S (pred (length (published c)))))) as [->|Hne].
    + rewrite list_lookup_alter_eq in Hk. apply fmap_Some in Hk as (v0 & Hv0 & ->).
      rewrite length_insert. apply Hsz. by eapply list_elem_of_lookup_2.
    + rewrite list_lookup_alter_ne in Hk by done. apply Hsz. by eapply list_elem_of_lookup_2.
  - rewrite Hsame. apply Hi.
  - intros t' x [[-> ->]|[Hne Hx]]%insert_lookup_cases; [done|].
    destruct (others_ok c t th (reader_ok (pubs c) (bumps c) (published c)
      (db_buffer (write_word (side (S (pubs c))) j w (mem c)))) Hi Ht Hw) with t' x as [->|[->|(r & -> & Hr)]]; [|done..].
    intros r. unfold pubs. rewrite Hb. by apply reader_ok_write.
  - eapply unique_insert; [done|done|congruence].
  - right. destruct (inv_lock c Hi) as [(_ & _ & Hnone)|(Hs & _)]; [by rewrite (Hnone _ _ Ht) in Hw|].
    split; [done|]. by eapply lock_insert.
Qed.

Lemma db_inv_bump c t i :
  inv c → threads c !! t = Some (TOpen i) →
  inv (mkConfig (finish_bump (mem c)) (<[t := TBumped i]> (threads c)) (published c) (bumps c + 1)).
Proof.
  intros Hi Ht. destruct (inv_threads c Hi t _ Ht) as [-> Hb].
  split; unfold pubs in *; cbn [mem threads published bumps finish_bump db_buffer data_version]; try apply Hi.
  - rewrite (inv_version c Hi). unfold as_u32. by rewrite Zplus_mod_idemp_l.
  - intros t' x [[-> ->]|[Hne Hx]]%insert_lookup_cases; [cbn; lia|].
    destruct (others_ok c t _ (reader_ok (pubs c) (bumps c + 1) (published c) (db_buffer (mem c))) Hi Ht eq_refl)
      with t' x as [->|[->|(r & -> & Hr)]]; [|done..]. intros r. apply reader_ok_bump.
  - by eapply (unique_insert c t (TOpen (side (S (pubs c)))) (TBumped (side (S (pubs c))))).
  - right. destruct (inv_lock c Hi) as [(_ & _ & Hnone)|(Hs & _)]; [by apply Hnone in Ht|].
    split; [done|]. by eapply lock_insert.
Qed.

Lemma inv_publish c t i v :
  inv c → threads c !! t = Some (TBumped i) → db_buffer (mem c) !! i = Some v →
  inv (mkConfig (finish_store i (mem c)) (<[t := TIdle]> (threads c)) (published c ++ [v]) (bumps c)).
Proof.
  intros Hi Ht Hv. destruct (inv_threads c Hi t _ Ht) as [-> Hb]. pose proof (inv_pub c Hi) as Hlen.
  set (c' := mkConfig _ _ _ _). assert (Hp : pubs c' = S (pubs c)).
  { unfold pubs, c'. cbn. rewrite length_app, Nat.add_1_r. cbn. unfold pubs in Hlen. lia. }
  destruct (inv_bufs c Hi) as [Hbl Hsz].
  assert (Hvs : length v = SIZE).
  { rewrite list.Forall_forall in Hsz. apply Hsz. by eapply list_elem_of_lookup_2. }
  split; rewrite ?Hp; unfold c'; cbn [mem threads published bumps finish_store db_buffer data_version db_state];
    try apply Hi.
  - rewrite length_app, Hlen. cbn. lia.
  - apply Forall_app. split; [apply Hi|by repeat constructor].
  - rewrite Hv, lookup_app_r by lia. by rewrite Hlen, Nat.sub_diag.
  - intros t' x [[-> ->]|[Hne Hx]]%insert_lookup_cases; [done|].
    destruct (others_ok c t _ (reader_ok (S (pubs c)) (bumps c) (published c ++ [v]) (db_buffer (mem c))) Hi Ht eq_refl)
      with t' x as [->|[->|(r & -> & Hr)]]; [|done..]. intros r. by apply reader_ok_publish.
  - intros t1 t2 th1 th2 [[-> ->]|[N1 H1]]%insert_lookup_cases [[-> ->]|[N2 H2]]%insert_lookup_cases W1 W2; try done.
    by eapply (inv_unique c Hi).
  - left. split_and!.
    + rewrite side_S. unfold idle_state. rewrite Nat.even_succ, <-Nat.negb_even.
      by destruct (side_cases (pubs c)) as [[-> ->]|[-> ->]].
    + lia.
    + intros t' x [[-> ->]|[N1 H1]]%insert_lookup_cases; [done|].
      destruct (others_ok c t _ (λ _, True) Hi Ht eq_refl) with t' x as [->|[->|(r & -> & _)]]; done.
Qed.

Lemma db_step_inv c c' : inv c → db_step SIZE c c' → inv c'.
Proof.
  intros Hi Hstep. destruct Hstep as [c t Ht|c t r r' Ht Hr|c t r r' ws Ht Hr|c t i m Ht Hm|c t Ht Hm
    |c t i m Ht Hm|c t Ht Hm|c t i r r' Ht Hr
    |c t i r r' ws Ht Hr|c t i val k w Ht Hw|c t i val k Ht Hw|c t i j w Ht|c t i Ht|c t i v Ht Hv];
    try pose proof (inv_threads c Hi t _ Ht) as Hok.
  - by eapply inv_set_thread.
  - eapply inv_set_thread; [done..|]. by eapply reader_step_ok.
  - by eapply inv_set_thread.
  - eapply inv_lock_step; [done..|by left].
  - by eapply inv_set_thread.
  - eapply inv_lock_step; [done..|by right].
  - by eapply inv_set_thread.
  - destruct Hok as (Hidx & Hb & Hrd & Hcur). destruct (reader_step_ok c r r' None Hi Hrd Hr) as [Hrd' Hcur'].
    eapply inv_set_thread; [done..|]. cbn. split_and!; auto.
  - destruct Hok as (Hidx & Hb & Hrd & Hcur). destruct r as [|s g|s v ws0 g|s v ws0 s' g]; cbn [reader_step] in Hr;
      [done|done|by repeat case_match|].
    destruct Hcur as [Hg1 Hg2].
    destruct (reader_returns c s v ws0 s' g ws r' Hi Hrd ltac:(unfold u32_size; lia) Hr) as (-> & pc & Hpc & Hpub).
    replace pc with (pubs c) in Hpub by lia.
    destruct (inv_bufs c Hi) as [Hbl _]. destruct (lookup_lt_is_Some_2 (db_buffer (mem c)) i) as [buf Hbuf].
    { rewrite Hbl, Hidx. pose proof (side_le (S (pubs c))). lia. }
    eapply inv_set_thread; [done..|]. cbn. split_and!; try done. by exists buf.
  - destruct Hok as (Hidx & Hb & Hpub & buf & Hbuf & Hk). eapply inv_write; [done..|]. cbn.
    split_and!; try done. exists (<[k := w]> buf). rewrite list_lookup_alter_eq, Hbuf. split; [done|].
    assert (Hlt : (k < length buf)%nat).
    { apply lookup_lt_Some in Hw. pose proof (inv_sizes c Hi) as Hs. destruct (inv_bufs c Hi) as [_ Hs'].
      rewrite list.Forall_forall in Hs. rewrite list.Forall_forall in Hs'.
      rewrite (Hs' buf) by (by eapply list_elem_of_lookup_2).
      by rewrite (Hs val) in Hw by (by eapply list_elem_of_lookup_2). }
    rewrite (take_S_r _ _ w), (take_S_r _ _ _ Hw), take_insert_ge, Hk by (lia || by apply list_lookup_insert_eq).
    done.
  - destruct Hok as (Hidx & Hb & _). eapply inv_set_thread; [done..|]. done.
  - destruct Hok as [Hidx Hb].
    assert (Hin : inv (set_thread t (TOpen i) (set_mem (write_word i j w (mem c)) c))) by (by eapply inv_write).
    unfold set_thread in Hin. cbn [threads set_mem] in Hin. rewrite list_insert_id in Hin by done. done.
  - by apply db_inv_bump.
  - by apply inv_publish.
Qed.

Lemma inv_new v n : length v = SIZE → inv (config_new v n).
Proof.
  intros Hv. split; cbn; try done.
  - by repeat constructor.
  - split; [done|]. by repeat constructor.
  - by intros t th [-> _]%lookup_replicate.
  - by intros t1 t2 th1 th2 [-> _]%lookup_replicate.
  - left. split_and!; [done..|]. by intros t th [-> _]%lookup_replicate.
Qed.

Lemma inv_reachable v n c : length v = SIZE → rtc (db_step SIZE) (config_new v n) c → inv c.
Proof.
  intros Hv Hc. apply (rtc_ind_r (λ c, inv c)) with (x := config_new v n) in Hc; [done|by apply inv_new|].
  intros c1 c2 _ Hstep Hi. by eapply db_step_inv.
Qed.

(** C29: readers never see a half-written value.  In every interleaving of any
    number of readers and writers, when a reader's checks pass and fewer than 2^32
    writes finished since it loaded the version, the value it returns is, in full,
    one that was the published value at some moment between the start of the read
    and its end. *)
Theorem reads_return_published v n c t s ver ws0 s' g r' ws :
  length v = SIZE → rtc (db_step SIZE) (config_new v n) c →
  threads c !! t = Some (TReading (RCheck s ver ws0 s' g)) →
  reader_step SIZE (mem c) (pubs c) (bumps c) (RCheck s ver ws0 s' g) = (r', Some ws) →
  bumps c - g_version g < u32_size →
  ∃ pc, (g_start g ≤ pc ≤ pubs c)%nat ∧ published c !! pc = Some ws.
Proof.
  intros Hv Hc Ht Hstep Hwin. pose proof (inv_reachable v n c Hv Hc) as Hi.
  pose proof (inv_threads c Hi t _ Ht) as Hok.
  destruct (reader_returns c s ver ws0 s' g ws r' Hi Hok Hwin Hstep) as (-> & Hpub). done.
Qed.

(** One writer at a time, starting from the last value.  In every
    interleaving at most one thread holds a write guard, one of the two attempts of
    [try_write] succeeds exactly when none does, and once the guard is handed out its copy equals the
    value published last. *)
Theorem writers_exclusive v n c :
  length v = SIZE → rtc (db_step SIZE) (config_new v n) c →
  (∀ t1 t2 th1 th2, threads c !! t1 = Some th1 → threads c !! t2 = Some th2 →
     is_writer th1 = true → is_writer th2 = true → t1 = t2) ∧
  (is_Some (try_lock_first (mem c)) ∨ is_Some (try_lock_second (mem c)) ↔
   ∀ t th, threads c !! t = Some th → is_writer th = false) ∧
  (∀ t i val k, threads c !! t = Some (TAssign i val k) → val !! k = None →
     db_buffer (mem c) !! i = published c !! pubs c).
Proof.
  intros Hv Hc. pose proof (inv_reachable v n c Hv Hc) as Hi. split_and!.
  - apply (inv_unique c Hi).
  - split.
    + intros [[[i m] Hl]|[[i m] Hl]]; eapply (try_lock_inv c i m Hi); eauto.
    + intros Hnone. destruct (inv_lock c Hi) as [(Hs & _)|(_ & t & th & Ht & Hw)];
        [|by rewrite (Hnone t th Ht) in Hw].
      unfold try_lock_first, try_lock_second, lock_attempt, compare_exchange. rewrite Hs. unfold idle_state.
      destruct (Nat.even _); [left|right]; by eexists.
  - intros t i val k Ht Hk. destruct (inv_threads c Hi t _ Ht) as (_ & _ & Hpub & buf & Hbuf & Htk).
    rewrite Hbuf, Hpub. f_equal. apply lookup_ge_None in Hk.
    pose proof (inv_sizes c Hi) as Hs. destruct (inv_bufs c Hi) as [_ Hs'].
    rewrite list.Forall_forall in Hs. rewrite list.Forall_forall in Hs'.
    pose proof (Hs val (list_elem_of_lookup_2 _ _ _ Hpub)). pose proof (Hs' buf (list_elem_of_lookup_2 _ _ _ Hbuf)).
    by rewrite !take_ge in Htk by lia.
Qed.
End props.

(** ** The version counter

    A writer that has counted up the version and not switched yet: the window in
    which the counter runs ahead of the value. *)
Module VersionWindow.
Definition in_window : config Z :=
  mkConfig (mkDB 1 1 [[7]; [8]]) [TIdle; TBumped 1] [[7]] 1.
Definition after_check : config Z :=
  set_thread 0 (TReading (RCheck Writing1Read0 1 [7] Writing1Read0 (mkGhost 0 1))) in_window.
Definition after_publish : config Z :=
  mkConfig (mkDB 2 1 [[7]; [8]]) [TIdle; TIdle] [[7]; [8]] 1.

Ltac step rule t := eapply rtc_l; [eapply (rule 1%nat _ t); reflexivity|]; cbn.

Lemma window_reached : rtc (db_step 1) (config_new [7] 2) in_window.
Proof.
  step (@step_lock Z) 1%nat. do 4 step (@step_init Z) 1%nat. step (@step_init_done Z) 1%nat.
  step (@step_assign Z) 1%nat. step (@step_assign_done Z) 1%nat.
  eapply rtc_l; [eapply (step_write 1 _ 1 1 0 8); reflexivity|]; cbn.
  step (@step_bump Z) 1%nat. apply rtc_refl.
Qed.

Lemma window_read : rtc (db_step 1) in_window after_check.
Proof. step (@step_read_start Z) 0%nat. do 4 step (@step_read Z) 0%nat. apply rtc_refl. Qed.

Lemma window_published : rtc (db_step 1) (set_thread 0 TIdle after_check) after_publish.
Proof. step (@step_publish Z) 1%nat. apply rtc_refl. Qed.

(** An update can go unnoticed.  [finish_writing] counts up the version before
    it switches the state, so a thread that runs in between sees the new version
    ([new_data_available_since] returns true), reads the old value, and is told
    after the switch that there is no new data, although the value it read is not
    the published one. *)
Theorem version_misses_update :
  rtc (db_step 1) (config_new [7] 2) in_window ∧
  new_data_available_since (version (mem (config_new [7] 2))) (mem in_window) = (true, 1) ∧
  rtc (db_step 1) in_window after_check ∧
  db_step 1 after_check (set_thread 0 TIdle after_check) ∧
  (∃ r r', threads after_check !! 0%nat = Some (TReading r) ∧
     reader_step 1 (mem after_check) (pubs after_check) (bumps after_check) r = (r', Some [7])) ∧
  rtc (db_step 1) (set_thread 0 TIdle after_check) after_publish ∧
  new_data_available_since 1 (mem after_publish) = (false, 1) ∧
  last (published after_publish) = Some [8].
Proof.
  split_and!; [apply window_reached|done|apply window_read|by eapply (step_read_done 1 _ 0)|
    by eexists _, _|apply window_published|done..].
Qed.
End VersionWindow.

Module DemoDoubleBuffer.
(** One thread reads a one-word value. *)
Definition c0 : config Z := config_new [7] 1.
Definition c1 : config Z := set_thread 0 (TReading RStart) c0.
Definition g : ghost := mkGhost 0 0.
Definition c2 : config Z := set_thread 0 (TReading (RState WriteIdleRead0 g)) c1.
Definition c3 : config Z := set_thread 0 (TReading (RCopy WriteIdleRead0 0 [] g)) c2.
Definition c4 : config Z := set_thread 0 (TReading (RCopy WriteIdleRead0 0 [7] g)) c3.
Definition c5 : config Z := set_thread 0 (TReading (RCheck WriteIdleRead0 0 [7] WriteIdleRead0 g)) c4.

Lemma reach5 : rtc (db_step 1) (config_new [7] 1) c5.
Proof.
  apply (rtc_l _ _ c1); [by apply (step_read_start 1 c0 0)|].
  apply (rtc_l _ _ c2); [by eapply (step_read 1 c1 0)|].
  apply (rtc_l _ _ c3); [by eapply (step_read 1 c2 0)|].
  apply (rtc_l _ _ c4); [by eapply (step_read 1 c3 0)|].
  apply (rtc_l _ _ c5); [by eapply (step_read 1 c4 0)|]. apply rtc_refl.
Qed.

Lemma reads_return_published_witness :
  ∃ pc, (0 ≤ pc ≤ 0)%nat ∧ published c5 !! pc = Some [7].
Proof.
  apply (reads_return_published 1 [7] 1 c5 0 WriteIdleRead0 0 [7] WriteIdleRead0 g RStart [7]).
  - reflexivity.
  - exact reach5.
  - reflexivity.
  - reflexivity.
  - reflexivity.
Defined.

Lemma writers_exclusive_witness : is_Some (try_lock_first (mem c5)) ∨ is_Some (try_lock_second (mem c5)).
Proof.
  apply (writers_exclusive 1 [7] 1 c5 eq_refl reach5). by intros [|t] th; [intros [= <-]|].
Defined.
End DemoDoubleBuffer.
