(* ===== verification/DispatchStore.v ===== *)
(** * Dispatch store

    [storage/dispatch_store.rs]: messages in two persistent streams, one for
    events and one for sensor data.  Both [StreamStore]s hold a clone of the
    database handle, so they share the database: [sp_db] is the database and
    each stream keeps the rest of its state. *)

From stdpp Require Import base sets gmap list list_numbers numbers option.
From S2P Require Import Prelude BlockDev FlashDb CircularStore Queue StreamStore Samples Serialize.

Definition MAX_EVENT_LEN : Z := 350.

(** The two methods of each pair differ in the stream only. *)
Inductive Kind : Type := KEvent | KData.
#[export] Instance Kind_eq_dec : EqDecision Kind.
Proof. solve_decision. Defined.

(** ** The trait [DispatchStore]

    [ds_store KEvent] is [store_event], [ds_store KData] is [store_sensor_data],
    and so on; [ds_confirm] and [ds_drop] are what the owner of a [ConfirmHandle]
    does with it. *)
Class DispatchStore (St : Type) : Type := {
  ds_store (k : Kind) (item : SerializedSendable) : M St Error Z;
  ds_peek (k : Kind) : M St Error (option (SerializedSendable * ConfirmHandle));
  ds_is_drained : M St Error bool;
  ds_wait_confirmation : M St Error (option unit);
  ds_confirm (k : Kind) (h : ConfirmHandle) : St → St;
  ds_drop (k : Kind) (h : ConfirmHandle) : St → St;
}.

(** ** The promise of the trait

    A stream as its users see it: the items stored so far and not confirmed are
    [as_live], those peeked and not reported back are [as_held], and item [n] has
    the bytes [as_msg n]. *)
Record AStream : Type := mkAS {
  as_next : Z;
  as_live : gset Z;
  as_held : gset Z;
  as_msg : Z → list Z
}.

Definition as_stored (bytes : list Z) (a : AStream) : AStream :=
  mkAS (as_next a + 1) ({[as_next a]} ∪ as_live a) (as_held a)
    (λ n, if n =? as_next a then bytes else as_msg a n).
Definition as_peeked (n : Z) (a : AStream) : AStream :=
  mkAS (as_next a) (as_live a) ({[n]} ∪ as_held a) (as_msg a).
Definition as_confirmed (n : Z) (a : AStream) : AStream :=
  mkAS (as_next a) (as_live a ∖ {[n]}) (as_held a ∖ {[n]}) (as_msg a).
Definition as_dropped (n : Z) (a : AStream) : AStream :=
  mkAS (as_next a) (as_live a) (as_held a ∖ {[n]}) (as_msg a).

Definition update_kind {A} (f : Kind → A) (k : Kind) (a : A) : Kind → A :=
  λ k', if decide (k' = k) then a else f k'.

(** The bytes that are stored for a message. *)
Definition bytes_of (item : SerializedSendable) : list Z :=
  take (Z.to_nat (TOPIC_HEADER_SIZE + payload_len item)) (ss_bytes item).

(** [ds_rep st hs A]: the store is in use, [hs k] are the handles of stream [k]
    that are out, and the streams are as [A] says.  While there is room and the
    messages are well-formed, no call fails. *)
Class DispatchStoreLaws (St : Type) `{!DispatchStore St} : Type := {
  ds_rep : St → (Kind → list ConfirmHandle) → (Kind → AStream) → Prop;
  ds_item : Kind → SerializedSendable → Prop;
  ds_room : Kind → St → Prop;
  ds_held_law : ∀ st hs A k n, ds_rep st hs A → n ∈ as_held (A k) ↔ n ∈ seq_no <$> hs k;
  ds_live_law : ∀ st hs A k n, ds_rep st hs A → n ∈ as_live (A k) → n < as_next (A k);
  ds_store_law : ∀ st hs A k item, ds_rep st hs A → ds_item k item → ds_room k st →
    ∃ st', ds_store k item st = (Ok (as_next (A k)), st') ∧
      ds_rep st' hs (update_kind A k (as_stored (bytes_of item) (A k)));
  ds_peek_law : ∀ st hs A k, ds_rep st hs A →
    ∃ r st', ds_peek k st = (Ok r, st') ∧
      match r with
      | Some (item, h) =>
          seq_no h ∈ as_live (A k) ∧ seq_no h ∉ as_held (A k) ∧
          bytes_of item = as_msg (A k) (seq_no h) ∧
          ds_rep st' (update_kind hs k (h :: hs k)) (update_kind A k (as_peeked (seq_no h) (A k)))
      | None => (as_live (A k) = ∅ ∨ as_held (A k) ≠ ∅) ∧ ds_rep st' hs A
      end;
  ds_drained_law : ∀ st hs A, ds_rep st hs A →
    ∃ b st', ds_is_drained st = (Ok b, st') ∧ ds_rep st' hs A ∧
      (b = true ↔ ∀ k, as_live (A k) = ∅ ∧ as_held (A k) = ∅);
  ds_wait_law : ∀ st hs A, ds_rep st hs A →
    ∃ r st', ds_wait_confirmation st = (Ok r, st') ∧ ds_rep st' hs A;
  ds_confirm_law : ∀ st hs A k hs1 h hs2, ds_rep st hs A → hs k = hs1 ++ h :: hs2 →
    ds_rep (ds_confirm k h st) (update_kind hs k (hs1 ++ hs2))
      (update_kind A k (as_confirmed (seq_no h) (A k)));
  ds_drop_law : ∀ st hs A k hs1 h hs2, ds_rep st hs A → hs k = hs1 ++ h :: hs2 →
    ds_rep (ds_drop k h st) (update_kind hs k (hs1 ++ hs2))
      (update_kind A k (as_dropped (seq_no h) (A k)));
}.

(** ** [StreamPairStore] *)

Record StreamPairStore (D Ch : Type) : Type := mkPair {
  sp_db : D;
  sp_sensor_data : StreamStore unit Ch;
  sp_events : StreamStore unit Ch
}.
Arguments mkPair {D Ch}.
Arguments sp_db {D Ch}.
Arguments sp_sensor_data {D Ch}.
Arguments sp_events {D Ch}.

Section pair.
Context {D Ch : Type} `{!CircStore D, !Channel Ch} (B MAX_SENSOR_DATA_LEN : Z) (crc : list Z → Z).
Abbreviation SP := (StreamPairStore D Ch).

Definition attach (d : D) (s : StreamStore unit Ch) : StreamStore D Ch :=
  mkStream d (queue s) (init_done s) (circular s).
Definition detach (s : StreamStore D Ch) : StreamStore unit Ch :=
  mkStream tt (queue s) (init_done s) (circular s).

Definition stream_of (k : Kind) (p : SP) : StreamStore D Ch :=
  attach (sp_db p) (match k with KEvent => sp_events p | KData => sp_sensor_data p end).
Definition set_stream (k : Kind) (s : StreamStore D Ch) (p : SP) : SP :=
  match k with
  | KEvent => mkPair (store s) (sp_sensor_data p) (detach s)
  | KData => mkPair (store s) (detach s) (sp_events p)
  end.
Definition on_stream {E A} (k : Kind) (m : M (StreamStore D Ch) E A) : M SP E A :=
  zoom (stream_of k) (set_stream k) m.

Definition pair_new {E} `{!BlockDev B D E} (c_data c_event : Circular) (ch_data ch_event : Ch) :
    M D Error SP :=
  sd ← stream_new B c_data ch_data;
  ev ← stream_new B c_event ch_event;
  gets (λ d, mkPair d (detach sd) (detach ev)).

Definition pair_initialize : M SP Error unit :=
  on_stream KData stream_initialize;;
  on_stream KEvent stream_initialize.

(** [store_event] and, with the check of its const parameter, [store_sensor_data]. *)
Definition store_sendable (k : Kind) (item : SerializedSendable) : M SP Error Z :=
  bytes ← as_slice item;
  on_stream k (stream_enqueue B crc bytes).

(** The part of [peek_event] and [peek_sensor_data] behind [peek_next]: the
    builder's buffer holds the item, the rest of it is zero. *)
Definition rebuild (k : Kind) (max_len : Z) (data : list Z) (h : ConfirmHandle) :
    M SP Error (option (SerializedSendable * ConfirmHandle)) :=
  let buffer := mkBuilder (splice_at 0 data (b_bytes (builder_new max_len))) in
  r ← attempt (create_with_total_length max_len buffer (len data));
  match r with
  | inl item => mret (Some (item, h))
  | inr _ => on_stream k (on_channel (confirm h));; fail Error_FragmentNotReadable
  end.

Definition peek_sendable (k : Kind) (max_len : Z) :
    M SP Error (option (SerializedSendable * ConfirmHandle)) :=
  r ← on_stream k (stream_peek_next crc max_len);
  match r with
  | Some (data, h) => rebuild k max_len data h
  | None => mret None
  end.

Definition store_event : SerializedSendable → M SP Error Z := store_sendable KEvent.
Definition peek_event : M SP Error (option (SerializedSendable * ConfirmHandle)) :=
  peek_sendable KEvent MAX_EVENT_LEN.
Definition store_sensor_data (MAX_PROCESSING_LEN : Z) (item : SerializedSendable) : M SP Error Z :=
  assert (MAX_PROCESSING_LEN <=? MAX_SENSOR_DATA_LEN);;
  store_sendable KData item.
Definition peek_sensor_data (MAX_PROCESSING_LEN : Z) :
    M SP Error (option (SerializedSendable * ConfirmHandle)) :=
  assert (MAX_SENSOR_DATA_LEN <=? MAX_PROCESSING_LEN);;
  peek_sendable KData MAX_PROCESSING_LEN.

Definition pair_is_drained : M SP Error bool :=
  e ← on_stream KEvent stream_is_drained;
  if e : bool then on_stream KData stream_is_drained else mret false.

(** [select2]: the first future that is ready, events first. *)
Definition pair_wait_confirmation : M SP Error (option unit) :=
  e ← on_stream KEvent stream_wait_confirmation;
  match e with
  | Some u => mret (Some u)
  | None => on_stream KData stream_wait_confirmation
  end.

(** What the owner of a handle does to the stream it came from. *)
Definition pair_confirm (k : Kind) (h : ConfirmHandle) (p : SP) : SP :=
  (on_stream k (on_channel (confirm h)) p).2.
Definition pair_drop (k : Kind) (h : ConfirmHandle) (p : SP) : SP :=
  (on_stream k (on_channel (drop_handle h)) p).2.
End pair.

(** [impl DispatchStore for StreamPairStore] *)
Definition pair_dispatch_store {D Ch} `{!CircStore D, !Channel Ch}
    (B MAX_SENSOR_DATA_LEN : Z) (crc : list Z → Z) : DispatchStore (StreamPairStore D Ch) := {|
  ds_store k := match k with
                | KEvent => store_event B crc
                | KData => store_sensor_data B MAX_SENSOR_DATA_LEN crc MAX_SENSOR_DATA_LEN
                end;
  ds_peek k := match k with
               | KEvent => peek_event crc
               | KData => peek_sensor_data MAX_SENSOR_DATA_LEN crc MAX_SENSOR_DATA_LEN
               end;
  ds_is_drained := pair_is_drained;
  ds_wait_confirmation := pair_wait_confirmation;
  ds_confirm := pair_confirm;
  ds_drop := pair_drop;
|}.
