(* ===== verification/DispatchFacts.v ===== *)
(** * Dispatch store: two streams in one database

    The two rings of a [StreamPairStore] occupy different blocks, so an
    operation on one stream keeps the log of the other; each operation of the
    store is the operation of one stream. *)

From stdpp Require Import base sets list list_numbers numbers option.
From S2P Require Import Prelude NorFlash BlockLayer BlockFacts BlockDev FlashDb CircularStore.
From S2P Require Import CircularRing RingFacts Queue QueueFacts QueueSystem StreamStore StreamProps.
From S2P Require Import Samples SamplesFacts Serialize DispatchStore.

Definition other (k : Kind) : Kind := match k with KEvent => KData | KData => KEvent end.

Lemma update_kind_eq {A} (f : Kind → A) k a : update_kind f k a k = a.
Proof. unfold update_kind. by rewrite decide_True. Qed.

Lemma update_kind_ne {A} (f : Kind → A) k a : update_kind f k a (other k) = f (other k).
Proof. unfold update_kind. rewrite decide_False; [done|]. by destruct k. Qed.

Lemma kind_cases k k' : k' = k ∨ k' = other k.
Proof. destruct k, k'; auto. Qed.

Section pair.
Context {D E Ch : Type} (B : Z) `{!BlockDev B D E, !BlockDevLaws B D E} `{!Channel Ch, !ChannelLaws MAX_PEEKS Ch}.
Context (crc : list Z → Z) (Hcrc : ∀ l, is_u32 (crc l)).
Context (circ : Kind → Circular) (MAX_SENSOR_DATA_LEN : Z).
Context (Hdisj : ∀ i, in_ring (circ KEvent) i → ¬ in_ring (circ KData) i).
Context (Hlen : output_len_ok MAX_SENSOR_DATA_LEN).
Abbreviation SP := (StreamPairStore D Ch).
Abbreviation SS := (StreamStore D Ch).
Abbreviation dev_step := (flash_step dev_wf dev_healthy dev_blocks dev_block).
Implicit Types (p : SP) (hs : Kind → list ConfirmHandle) (msgs : Kind → Z → list Z).

Definition max_len (k : Kind) : Z := match k with KEvent => MAX_EVENT_LEN | KData => MAX_SENSOR_DATA_LEN end.

Lemma max_len_ok k : output_len_ok (max_len k).
Proof using Hlen. destruct k; [|done]. done. Qed.

(** Both streams are in use, and every stored item is a message. *)
Record pair_inv p hs msgs : Prop := {
  pi_streams : ∀ k, stream_inv crc (circ k) (stream_of k p) (hs k) (msgs k);
  pi_msgs : ∀ k n, lower (stream_of k p) ≤ n < upper (stream_of k p) →
    TOPIC_HEADER_SIZE ≤ len (msgs k n) ≤ max_len k;
}.

(** The log of the other stream, which operations on stream [k] keep. *)
Definition other_log (k : Kind) p msgs (d : D) : Prop :=
  ring_log B (circ (other k)) d (lower (stream_of (other k) p)) (upper (stream_of (other k) p))
    (λ n, frame crc (msgs (other k) n)).

Lemma other_log_kept k p msgs d d' :
  other_log k p msgs d → dev_step (in_ring (circ k)) d d' → other_log k p msgs d'.
Proof using Hdisj.
  intros Hl Hs. eapply ring_log_frame; [exact Hl|exact Hs|]. intros i Hi Ho.
  destruct k; [by apply (Hdisj i)|by apply (Hdisj i)].
Qed.

Definition kept_log k p msgs : CircLog (circ k) D :=
  framed_log B (circ k) (other_log k p msgs) (other_log_kept k p msgs).

Lemma stream_inv_kept k p hs msgs :
  pair_inv p hs msgs →
  stream_inv crc (circ k) (CircLog0 := kept_log k p msgs) (stream_of k p) (hs k) (msgs k).
Proof.
  intros [Hs _]. destruct (Hs k) as [H1 H2 H3 H4 [H5 _] H6], (Hs (other k)) as [_ _ _ _ [H7 _] _].
  split; try done.
Qed.

(** After an operation on stream [k]. *)
Lemma pair_inv_set k p hs msgs s' (hs' : list ConfirmHandle) (msgs' : Z → list Z) :
  pair_inv p hs msgs →
  stream_inv crc (circ k) (CircLog0 := kept_log k p msgs) s' hs' msgs' →
  (∀ n, lower s' ≤ n < upper s' → TOPIC_HEADER_SIZE ≤ len (msgs' n) ≤ max_len k) →
  pair_inv (set_stream k s' p) (update_kind hs k hs') (update_kind msgs k msgs').
Proof.
  intros [Hs Hm] [H1 H2 H3 H4 [H5 H6] H7] Hb. split.
  - intros k'. destruct (kind_cases k k') as [->| ->].
    + rewrite !update_kind_eq. destruct k, s'; by split.
    + rewrite !update_kind_ne. destruct (Hs (other k)) as [G1 G2 G3 G4 _ G6]. destruct k; by split.
  - intros k' n. destruct (kind_cases k k') as [->| ->].
    + rewrite update_kind_eq. intros Hn. apply Hb. by destruct k.
    + rewrite update_kind_ne. intros Hn. apply Hm. by destruct k.
Qed.

(** A call of stream [k] keeps the rest of the other stream. *)
Lemma set_stream_other k s' p : detach (stream_of (other k) (set_stream k s' p)) = detach (stream_of (other k) p).
Proof. by destruct k. Qed.

Lemma stream_of_set k s' p : stream_of k (set_stream k s' p) = s'.
Proof. by destruct k, s'. Qed.

Lemma on_stream_run {E' A} k (m : M SS E' A) p r s' :
  m (stream_of k p) = (r, s') → on_stream k m p = (r, set_stream k s' p).
Proof. intros H. unfold on_stream, zoom. by rewrite H. Qed.

(** ** The operations *)

Definition message_ok k (item : SerializedSendable) : Prop :=
  sendable_ok (max_len k) item ∧ Forall is_u8 (ss_bytes item) ∧
  max_len k + STREAM_OVERHEAD_BYTES ≤ obj_fragment_size (circ_obj (circ k)) ∧
  obj_fragment_size (circ_obj (circ k)) ≤ B ∧ obj_fragment_size (circ_obj (circ k)) < 65536.

Lemma bytes_of_slice {S E'} k item (st : S) :
  sendable_ok (max_len k) item →
  as_slice (E := E') item st = (Ok (bytes_of item), st) ∧ len (bytes_of item) = TOPIC_HEADER_SIZE + payload_len item.
Proof.
  intros (Hl & Hp & Hm). unfold as_slice, bytes_of. split.
  - rewrite range_of_run by (unfold TOPIC_HEADER_SIZE in *; lia). by rewrite slice_0.
  - unfold len in *. rewrite length_take. unfold TOPIC_HEADER_SIZE in *. lia.
Qed.

Lemma message_fits k item : message_ok k item → item_fits B (circ k) (bytes_of item).
Proof.
  intros (Hs & Hu & Hf & HB & H16). destruct (bytes_of_slice (S := unit) (E' := Empty_set) k item tt Hs) as [_ Hl].
  destruct Hs as (_ & _ & Hm). split; [by apply Forall_take|]. split; [lia|done].
Qed.

Lemma store_sendable_run k p hs msgs item :
  pair_inv p hs msgs → message_ok k item → no_wrap MAX_PEEKS (queue (stream_of k p)) →
  cs_room (c := circ k) (sp_db p) (lower (stream_of k p)) (upper (stream_of k p)) →
  let n := upper (stream_of k p) in
  ∃ p', store_sendable B crc k item p = (Ok n, p') ∧
    pair_inv p' hs (update_kind msgs k (λ m, if m =? n then bytes_of item else msgs k m)) ∧
    lower (stream_of k p') = lower (stream_of k p) ∧ upper (stream_of k p') = n + 1 ∧
    queue (stream_of k p') = set_write_index (n + 1) (queue (stream_of k p)) ∧
    detach (stream_of (other k) p') = detach (stream_of (other k) p).
Proof using Hdisj.
  intros I Hok Hw Hroom n. pose proof Hok as (Hs & _).
  destruct (bytes_of_slice (S := SP) (E' := Error) k item p Hs) as [Hsl Hbl].
  destruct (enqueue_run B crc (circ k) (CircLog0 := kept_log k p msgs) (stream_of k p) (hs k) (msgs k) (bytes_of item))
    as (s' & Hrun & I' & Hlo & Hhi & Hq); [by apply stream_inv_kept|by apply message_fits|done|by destruct k|].
  exists (set_stream k s' p). rewrite stream_of_set, set_stream_other. split_and!; try done.
  - unfold store_sendable, mbind, M_bind. rewrite Hsl. by apply on_stream_run.
  - assert (Hi : pair_inv (set_stream k s' p) (update_kind hs k (hs k))
      (update_kind msgs k (λ m, if m =? n then bytes_of item else msgs k m))).
    { eapply pair_inv_set; [done|exact I'|]. intros m Hm. destruct (Z.eqb_spec m n) as [->|Hne].
      - rewrite Hbl. destruct Hs as (_ & ? & ?). lia.
      - apply (pi_msgs _ _ _ I). unfold n in *. lia. }
    destruct Hi as [Hi1 Hi2]. split; [|done]. intros k'. specialize (Hi1 k').
    destruct (kind_cases k k') as [->| ->]; by rewrite ?update_kind_eq, ?update_kind_ne in *.
Qed.

(** The message that a peek rebuilds. *)
Lemma rebuild_run k data h p :
  TOPIC_HEADER_SIZE ≤ len data ≤ max_len k →
  ∃ item, rebuild k (max_len k) data h p = (Ok (Some (item, h)), p) ∧
    sendable_ok (max_len k) item ∧ bytes_of item = data.
Proof using Hlen.
  intros Hl. pose proof (max_len_ok k) as Hok. unfold output_len_ok, TOPIC_HEADER_SIZE in *.
  set (bytes := splice_at 0 data (b_bytes (builder_new (max_len k)))).
  assert (Hb : bytes = data ++ replicate (Z.to_nat (max_len k - len data)) 0).
  { unfold bytes, splice_at, builder_new, zeroed. cbn [b_bytes]. rewrite drop_replicate.
    change (Z.to_nat 0) with 0%nat. rewrite take_0, app_nil_l. do 2 f_equal. unfold len. lia. }
  assert (Hbl : len bytes = max_len k).
  { rewrite Hb, len_app. unfold len at 2. rewrite length_replicate. lia. }
  exists (mkSendable bytes (len data - 8)). split_and!.
  - unfold rebuild. fold bytes. unfold attempt, mbind, M_bind, create_with_total_length.
    rewrite !(proj2 (Z.ltb_ge _ _)) by (unfold TOPIC_HEADER_SIZE; lia). cbn [b_bytes].
    by rewrite from_bytes_with_payload_len_run by (done || unfold TOPIC_HEADER_SIZE; lia).
  - unfold sendable_ok, TOPIC_HEADER_SIZE. cbn. lia.
  - unfold bytes_of, TOPIC_HEADER_SIZE. cbn. rewrite Hb. replace (8 + (len data - 8)) with (len data) by lia.
    unfold len. rewrite Nat2Z.id. apply take_app_length.
Qed.

Lemma peek_sendable_run k p hs msgs :
  pair_inv p hs msgs →
  ∃ r p', peek_sendable crc k (max_len k) p = (Ok r, p') ∧
    detach (stream_of (other k) p') = detach (stream_of (other k) p) ∧
    match r with
    | Some (item, h) =>
        bytes_of item = msgs k (seq_no h) ∧ pair_inv p' (update_kind hs k (h :: hs k)) (update_kind msgs k (msgs k)) ∧
        simulates MAX_PEEKS (mkSys (queue (stream_of k p)) (hs k)) (Peeked (seq_no h))
          (mkSys (queue (stream_of k p')) (h :: hs k))
    | None =>
        pair_inv p' (update_kind hs k (hs k)) (update_kind msgs k (msgs k)) ∧
        ∃ e, simulates MAX_PEEKS (mkSys (queue (stream_of k p)) (hs k)) (PeekBlocked e)
          (mkSys (queue (stream_of k p')) (hs k))
    end.
Proof using Hdisj Hcrc Hlen.
  intros I. pose proof (stream_inv_kept k p hs msgs I) as Is. pose proof (pi_msgs _ _ _ I k) as Hm.
  pose proof Is as [_ _ Hsys _ _ _]. pose proof (sim_peek _ _ _ Hsys) as Hp. unfold wp in Hp.
  destruct (peek_next MAX_PEEKS (queue (stream_of k p))) as [[h|e|] q'] eqn:Hq; [| |done].
  - destruct (wp_run _ _ _ _ _ _ (wp_peek_range _ _ _ Hsys) Hq) as (Hw & Hmin & Hn).
    destruct (peek_run_some crc Hcrc (circ k) (CircLog0 := kept_log k p msgs) (stream_of k p) (hs k) (msgs k)
      (max_len k) h q' Is) as (s' & Hrun & Hlo & Hhi & _ & Is' & Hsim); [intros n Hn'; by apply Hm|done|].
    destruct (rebuild_run k (msgs k (seq_no h)) h (set_stream k s' p)) as (item & Hreb & _ & Hb).
    { apply Hm. unfold lower, upper. lia. }
    exists (Some (item, h)), (set_stream k s' p). split_and!; try done.
    + unfold peek_sendable, mbind, M_bind. by rewrite (on_stream_run _ _ _ _ _ Hrun).
    + apply set_stream_other.
    + eapply pair_inv_set; [done|exact Is'|]. intros n Hn'. apply Hm. lia.
    + by rewrite stream_of_set.
  - destruct (peek_run_none crc (circ k) (CircLog0 := kept_log k p msgs) (stream_of k p) (hs k) (msgs k)
      (max_len k) e q' Is Hq) as (s' & Hrun & Hlo & Hhi & Is' & Hsim).
    exists None, (set_stream k s' p). split_and!; try done.
    + unfold peek_sendable, mbind, M_bind. by rewrite (on_stream_run _ _ _ _ _ Hrun).
    + apply set_stream_other.
    + eapply pair_inv_set; [done|exact Is'|]. intros n Hn'. apply Hm. lia.
    + by rewrite stream_of_set.
Qed.

(** An operation on the queue of stream [k] that leaves the log alone. *)
Lemma pair_queue_step k p hs msgs q' (hs' : list ConfirmHandle) e :
  pair_inv p hs msgs →
  simulates MAX_PEEKS (mkSys (queue (stream_of k p)) (hs k)) e (mkSys q' hs') →
  existing_range q' = existing_range (queue (stream_of k p)) →
  pair_inv (set_stream k (set_queue q' (stream_of k p)) p) (update_kind hs k hs') (update_kind msgs k (msgs k)).
Proof using Hdisj.
  intros I (Hsys & [Hc1 _] & _) [= Hr Hw]. unfold min_index in Hr. pose proof (stream_inv_kept k p hs msgs I) as [H1 H2 H3 H4 H5 H6].
  eapply pair_inv_set; [done| |].
  - split; unfold lower, upper in *; cbn in *; rewrite ?Hw, ?Hr; try done. by rewrite Hc1.
  - intros n. unfold lower, upper. cbn. rewrite Hw, Hr. apply (pi_msgs _ _ _ I k).
Qed.

(** ** The store keeps the promise *)

Definition aq_of (a : AStream) : AQueue := mkAQ (as_next a) (as_live a) (as_held a).

Definition pair_rep p hs (A : Kind → AStream) : Prop :=
  ∃ msgs, pair_inv p hs msgs ∧ (∀ k n, msgs k n = as_msg (A k) n) ∧
    ∀ k, implements MAX_PEEKS (mkSys (queue (stream_of k p)) (hs k)) (aq_of (A k)).

Lemma pair_rep_ext p hs hs' A A' :
  (∀ k, hs k = hs' k) → (∀ k, A k = A' k) → pair_rep p hs A → pair_rep p hs' A'.
Proof.
  intros Hh HA (msgs & [I1 I2] & Hm & Hi). exists msgs. split; [split; [|done]|split].
  - intros k. by rewrite <-Hh.
  - intros k n. by rewrite <-HA.
  - intros k. rewrite <-Hh, <-HA. apply Hi.
Qed.

(** After an operation on stream [k]. *)
Lemma pair_rep_step k p p' hs msgs A (hk : list ConfirmHandle) (mk : Z → list Z) a' :
  (∀ k n, msgs k n = as_msg (A k) n) →
  (∀ k, implements MAX_PEEKS (mkSys (queue (stream_of k p)) (hs k)) (aq_of (A k))) →
  pair_inv p' (update_kind hs k hk) (update_kind msgs k mk) →
  detach (stream_of (other k) p') = detach (stream_of (other k) p) →
  implements MAX_PEEKS (mkSys (queue (stream_of k p')) hk) (aq_of a') → (∀ n, mk n = as_msg a' n) →
  pair_rep p' (update_kind hs k hk) (update_kind A k a').
Proof.
  intros Hm Hi I Hd Hk Hmk. exists (update_kind msgs k mk). split_and!; [done|..].
  - intros k' n. destruct (kind_cases k k') as [->| ->]; [by rewrite !update_kind_eq|by rewrite !update_kind_ne].
  - intros k'. destruct (kind_cases k k') as [->| ->]; [by rewrite !update_kind_eq|].
    rewrite !update_kind_ne. specialize (Hi (other k)). assert (queue (stream_of (other k) p') = queue (stream_of (other k) p)) as -> by (by injection Hd). done.
Qed.

Lemma update_kind_id {A} (f : Kind → A) k k' : update_kind f k (f k) k' = f k'.
Proof. destruct (kind_cases k k') as [->| ->]; [apply update_kind_eq|apply update_kind_ne]. Qed.

Lemma implements_grow (q : Queue Ch) (hs : list ConfirmHandle) a :
  sys_inv MAX_PEEKS (mkSys q hs) → implements MAX_PEEKS (mkSys q hs) a →
  implements MAX_PEEKS (mkSys (set_write_index (write_index q + 1) q) hs)
    (mkAQ (aq_next a + 1) ({[aq_next a]} ∪ aq_live a) (aq_held a)).
Proof.
  intros [I _ Hr _ _ _] [Hn Hl Hh]. pose proof I as []. cbn in *. split; cbn; [by rewrite Hn| |done].
  assert (mkConfirm (write_index q) true ∉ ch_items (cap := MAX_PEEKS) (confirm_channel q)) as Hno.
  { intros Hin. assert (reading MAX_PEEKS (readers q) (write_index q)) as Hrd.
    { apply Hr, elem_of_app. right. unfold sent_ids. cbn. by apply (list_elem_of_fmap_2 confirm_id) in Hin. }
    unfold reading, slot_at in Hrd. apply (inv_elem _ _ (write_index q)) in Hrd; [lia|done]. }
  intros n. rewrite elem_of_union, elem_of_singleton, Hn, Hl. unfold live. cbn.
  destruct (decide (n = write_index q)) as [->|Hne]; [|naive_solver lia].
  split; [|intros _; by left]. intros _. split; [|done]. split; [lia|left; lia].
Qed.

Lemma pair_store_law k p hs A item :
  pair_rep p hs A → message_ok k item → no_wrap MAX_PEEKS (queue (stream_of k p)) →
  cs_room (c := circ k) (sp_db p) (lower (stream_of k p)) (upper (stream_of k p)) →
  ∃ p', store_sendable B crc k item p = (Ok (as_next (A k)), p') ∧
    pair_rep p' hs (update_kind A k (as_stored (bytes_of item) (A k))).
Proof using Hdisj.
  intros (msgs & I & Hm & Hi) Hok Hw Hroom. assert (as_next (A k) = upper (stream_of k p)) as Hn by apply (impl_next _ _ _ (Hi k)).
  destruct (store_sendable_run k p hs msgs item I Hok Hw Hroom) as (p' & Hrun & I' & _ & _ & Hq & Hd).
  exists p'. split; [by rewrite Hn|].
  eapply (pair_rep_ext _ (update_kind hs k (hs k))); [apply update_kind_id|done|].
  eapply (pair_rep_step k p p' hs msgs); [done|done| |done| |].
  - destruct I' as [I1 I2]. split; [|exact I2]. intros k'. rewrite update_kind_id. apply I1.
  - rewrite Hq. apply (implements_grow _ _ (aq_of (A k))); [|by apply Hi]. apply (pi_streams _ _ _ I k).
  - intros n. cbn. by rewrite Hn, Hm.
Qed.

Lemma pair_peek_law k p hs A :
  pair_rep p hs A →
  ∃ r p', peek_sendable crc k (max_len k) p = (Ok r, p') ∧
    match r with
    | Some (item, h) =>
        seq_no h ∈ as_live (A k) ∧ seq_no h ∉ as_held (A k) ∧ bytes_of item = as_msg (A k) (seq_no h) ∧
        pair_rep p' (update_kind hs k (h :: hs k)) (update_kind A k (as_peeked (seq_no h) (A k)))
    | None => (as_live (A k) = ∅ ∨ as_held (A k) ≠ ∅) ∧ pair_rep p' hs A
    end.
Proof using Hdisj Hcrc Hlen.
  intros (msgs & I & Hm & Hi). destruct (peek_sendable_run k p hs msgs I) as (r & p' & Hrun & Hd & Hr).
  exists r, p'. split; [done|]. destruct r as [[item h]|].
  - destruct Hr as (Hb & I' & (_ & _ & Hsim)). destruct (Hsim _ (Hi k)) as (a' & Hstep & Himp).
    inversion Hstep; subst. cbn in *. split_and!; [done|done|by rewrite Hb, Hm|].
    by eapply (pair_rep_step k p p' hs msgs).
  - destruct Hr as (I' & e & (_ & _ & Hsim)). destruct (Hsim _ (Hi k)) as (a' & Hstep & Himp).
    assert (a' = aq_of (A k) ∧ (as_live (A k) = ∅ ∨ as_held (A k) ≠ ∅)) as [-> ?].
    { inversion Hstep; subst; split; [done|by left|done|by right]. }
    split; [done|]. eapply (pair_rep_ext _ (update_kind hs k (hs k)) _ (update_kind A k (A k)));
      [apply update_kind_id|apply update_kind_id|]. by eapply (pair_rep_step k p p' hs msgs).
Qed.

(** An operation on the queue of stream [k] that leaves its log alone. *)
Lemma pair_queue_rep k p hs A q' (hk : list ConfirmHandle) e :
  pair_rep p hs A →
  simulates MAX_PEEKS (mkSys (queue (stream_of k p)) (hs k)) e (mkSys q' hk) →
  existing_range q' = existing_range (queue (stream_of k p)) →
  ∃ a', aq_step (q_capacity (queue (stream_of k p))) (overwrite_granularity (queue (stream_of k p)))
          (aq_of (A k)) e a' ∧
    pair_rep (set_stream k (set_queue q' (stream_of k p)) p) (update_kind hs k hk)
      (update_kind A k (mkAS (aq_next a') (aq_live a') (aq_held a') (as_msg (A k)))).
Proof using Hdisj.
  intros (msgs & I & Hm & Hi) Hsim Hr. pose proof Hsim as (_ & _ & Himp).
  destruct (Himp _ (Hi k)) as (a' & Hstep & Ha'). exists a'. split; [done|].
  eapply (pair_rep_step k p _ hs msgs A hk (msgs k)); [done|done|by eapply pair_queue_step| | |done].
  - apply set_stream_other.
  - rewrite stream_of_set. by destruct a'.
Qed.

Lemma pair_report_law (report : ConfirmHandle → Ch → Ch) e k p hs A (hs1 : list ConfirmHandle) h (hs2 : list ConfirmHandle) :
  (∀ q, sys_inv MAX_PEEKS (mkSys q (hs1 ++ h :: hs2)) →
     simulates MAX_PEEKS (mkSys q (hs1 ++ h :: hs2)) e
       (mkSys (set_channel (report h (confirm_channel q)) q) (hs1 ++ hs2))) →
  pair_rep p hs A → hs k = hs1 ++ h :: hs2 →
  ∃ a', aq_step (q_capacity (queue (stream_of k p))) (overwrite_granularity (queue (stream_of k p)))
          (aq_of (A k)) e a' ∧
    pair_rep (on_stream k (on_channel (report h)) p).2 (update_kind hs k (hs1 ++ hs2))
      (update_kind A k (mkAS (aq_next a') (aq_live a') (aq_held a') (as_msg (A k)))).
Proof using Hdisj.
  intros Hsim Hrep Hhs. pose proof Hrep as (msgs & I & _). pose proof (pi_streams _ _ _ I k) as [_ _ Hsys _ _ _].
  rewrite Hhs in Hsys. destruct (pair_queue_rep k p hs A
    (set_channel (report h (confirm_channel (queue (stream_of k p)))) (queue (stream_of k p)))
    (hs1 ++ hs2) e Hrep) as (a' & Hstep & Hrep'); [rewrite Hhs; by apply Hsim|done|]. by exists a'.
Qed.

Lemma update_same A k k' :
  update_kind A k (mkAS (as_next (A k)) (as_live (A k)) (as_held (A k)) (as_msg (A k))) k' = A k'.
Proof. unfold update_kind. case_decide as Hk; [subst; by destruct (A k)|done]. Qed.

(** [is_drained] and [wait_confirmation] of one stream. *)
Lemma stream_drained_law k p hs A :
  pair_rep p hs A →
  ∃ b p', on_stream k stream_is_drained p = (Ok b, p') ∧ pair_rep p' hs A ∧
    (b = true ↔ as_live (A k) = ∅ ∧ as_held (A k) = ∅).
Proof using Hdisj.
  intros Hrep. pose proof Hrep as (msgs & I & _). pose proof (pi_streams _ _ _ I k) as [Hd _ Hsys _ _ _].
  pose proof (sim_drained MAX_PEEKS (E := Error) _ _ (λ _ _, False) Hsys) as Hw.
  pose proof (wp_drained_range MAX_PEEKS (E := Error) _ _ (λ _ _, False) Hsys) as Hrg.
  apply wp_ok in Hw as (b & q' & Hrun & Hsim). apply (wp_run _ _ _ _ _ _ Hrg) in Hrun as Hr.
  destruct (pair_queue_rep k p hs A q' (hs k) _ Hrep Hsim Hr) as (a' & Hstep & Hrep').
  exists b, (set_stream k (set_queue q' (stream_of k p)) p). split_and!.
  - apply on_stream_run. unfold stream_is_drained, mbind, M_bind. rewrite (initialize_done _ Hd).
    unfold on_queue, zoom. by rewrite Hrun.
  - inversion Hstep; subst. eapply pair_rep_ext; [apply update_kind_id|apply update_same|exact Hrep'].
  - by inversion Hstep; subst.
Qed.

Lemma stream_wait_law k p hs A :
  pair_rep p hs A → ∃ r p', on_stream k stream_wait_confirmation p = (Ok r, p') ∧ pair_rep p' hs A.
Proof using Hdisj.
  intros Hrep. pose proof Hrep as (msgs & I & _). pose proof (pi_streams _ _ _ I k) as [_ _ Hsys _ _ _].
  pose proof (sim_wait MAX_PEEKS (E := Error) _ _ (λ _ _, False) Hsys) as Hw.
  pose proof (wp_wait_range MAX_PEEKS (E := Error) _ _ (λ _ _, False) Hsys) as Hrg.
  apply wp_ok in Hw as (b & q' & Hrun & Hsim). apply (wp_run _ _ _ _ _ _ Hrg) in Hrun as Hr.
  destruct (pair_queue_rep k p hs A q' (hs k) _ Hrep Hsim Hr) as (a' & Hstep & Hrep').
  exists b, (set_stream k (set_queue q' (stream_of k p)) p). split_and!.
  - apply on_stream_run. unfold stream_wait_confirmation, on_queue, zoom. by rewrite Hrun.
  - inversion Hstep; subst. eapply pair_rep_ext; [apply update_kind_id|apply update_same|exact Hrep'].
Qed.

Definition pair_room (k : Kind) (p : SP) : Prop :=
  no_wrap MAX_PEEKS (queue (stream_of k p)) ∧
  cs_room (c := circ k) (sp_db p) (lower (stream_of k p)) (upper (stream_of k p)).

Lemma store_kind k item p :
  match k with
  | KEvent => store_event B crc
  | KData => store_sensor_data B MAX_SENSOR_DATA_LEN crc MAX_SENSOR_DATA_LEN
  end item p = store_sendable B crc k item p.
Proof. destruct k; [done|]. unfold store_sensor_data. by rewrite Z.leb_refl. Qed.

Lemma peek_kind k p :
  match k with
  | KEvent => peek_event crc
  | KData => peek_sensor_data MAX_SENSOR_DATA_LEN crc MAX_SENSOR_DATA_LEN
  end p = peek_sendable crc k (max_len k) p.
Proof. destruct k; [done|]. unfold peek_sensor_data. by rewrite Z.leb_refl. Qed.

Lemma pair_drained_law p hs A :
  pair_rep p hs A →
  ∃ b p', pair_is_drained p = (Ok b, p') ∧ pair_rep p' hs A ∧
    (b = true ↔ ∀ k, as_live (A k) = ∅ ∧ as_held (A k) = ∅).
Proof using Hdisj.
  intros Hrep. destruct (stream_drained_law KEvent p hs A Hrep) as (b1 & p1 & H1 & Hrep1 & Hb1).
  unfold pair_is_drained, mbind, M_bind. rewrite H1. destruct b1.
  - destruct (stream_drained_law KData p1 hs A Hrep1) as (b2 & p2 & H2 & Hrep2 & Hb2).
    exists b2, p2. split_and!; [done|done|]. rewrite Hb2. split; [|done]. intros H k. destruct k; [by apply Hb1|done].
  - exists false, p1. split_and!; [done|done|]. split; [done|]. intros H. by apply Hb1, (H KEvent).
Qed.

Lemma pair_wait_law p hs A :
  pair_rep p hs A → ∃ r p', pair_wait_confirmation p = (Ok r, p') ∧ pair_rep p' hs A.
Proof using Hdisj.
  intros Hrep. destruct (stream_wait_law KEvent p hs A Hrep) as (r1 & p1 & H1 & Hrep1).
  unfold pair_wait_confirmation, mbind, M_bind. rewrite H1. destruct r1 as [u|]; [by exists (Some u), p1|].
  by apply stream_wait_law.
Qed.

(** [StreamPairStore] keeps the promise of the trait. *)
Definition pair_laws : @DispatchStoreLaws SP (pair_dispatch_store B MAX_SENSOR_DATA_LEN crc).
Proof using Hdisj Hcrc Hlen BlockDevLaws0 ChannelLaws0.
  refine {| ds_rep := pair_rep; ds_item := message_ok; ds_room := pair_room |}.
  - intros p hs A k n (_ & _ & _ & Hi). apply (impl_held _ _ _ (Hi k)).
  - intros p hs A k n (_ & _ & _ & Hi) Hn. pose proof (impl_next _ _ _ (Hi k)) as Hx. cbn in Hx.
    apply (impl_live _ _ _ (Hi k)) in Hn as [[[_ Hn] _] _]. cbn in Hn. rewrite Hx. exact Hn.
  - intros p hs A k item Hrep Hok [Hw Hroom]. cbn [ds_store pair_dispatch_store]. rewrite store_kind.
    by apply pair_store_law.
  - intros p hs A k Hrep. cbn [ds_peek pair_dispatch_store]. rewrite peek_kind. by apply pair_peek_law.
  - apply pair_drained_law.
  - apply pair_wait_law.
  - intros p hs A k hs1 h hs2 Hrep Hhs.
    destruct (pair_report_law confirm (Confirmed (seq_no h)) k p hs A hs1 h hs2) as (a' & Hstep & Hrep');
      [by intros q; apply sim_confirm|done|done|]. inversion Hstep; subst. exact Hrep'.
  - intros p hs A k hs1 h hs2 Hrep Hhs.
    destruct (pair_report_law drop_handle (Aborted (seq_no h)) k p hs A hs1 h hs2) as (a' & Hstep & Hrep');
      [by intros q; apply sim_abort|done|done|]. inversion Hstep; subst. exact Hrep'.
Defined.
End pair.
