(* ===== verification/Dispatch.v ===== *)
(** * The dispatch task

    [dispatch_task] of [logic/dispatch.rs] with [Pending] and [Confirmable]: it
    stores incoming events and sensor data, and hands stored items one by one to
    the network task, which confirms or drops them.  The task is a state machine:
    each call of the store is one step, and the other tasks (the network task, the
    requester of a barrier) may run between any two steps.  [select3] polls its
    futures again and again, so the future that transmits may have sent the event
    and be waiting for room for the data when another future wins: [Stage] is how
    far it got.

    The store is the class [DispatchStore]; the upload channel has one sender and
    room for [UPLOADS] items; [flush] of the serializer and the encoding of events
    are parameters. *)

From stdpp Require Import base sets gmap list list_numbers numbers option.
From S2P Require Import Prelude Queue FlashDb Samples Serialize DispatchStore.

(** Signals to the orchestrator that the task sends. *)
Inductive Signal : Type := UrgentEvent | DispatchQueueEmpty | DispatchDrained.

(** ** [Confirmable] and [Pending] *)

(** The handle is tagged with the stream whose channel it reports to. *)
Record Confirmable (U : Type) : Type := mkConfirmable {
  inner : U;
  confirm_handle : option (Kind * ConfirmHandle)
}.
Arguments mkConfirmable {U}.
Arguments inner {U}.
Arguments confirm_handle {U}.

Definition confirmable_map {U V} (f : U → V) (c : Confirmable U) : Confirmable V :=
  mkConfirmable (f (inner c)) (confirm_handle c).
Definition can_be_retried {U} (c : Confirmable U) : bool :=
  if confirm_handle c is Some _ then true else false.
Definition with_no_retry {U} (u : U) : Confirmable U := mkConfirmable u None.

(** [UploadAlloc]: moves a message to a pool; [Err] gives it back. *)
Class UploadAlloc (U : Type) : Type := {
  alloc : Kind → SerializedSendable → U + SerializedSendable;
  sendable : U → SerializedSendable
}.

(** [LatencyControlledSerializer::flush] *)
Class Flush (L : Type) : Type := flush : L → option SerializedSendable * L.

Record Dispatch (St U L : Type) : Type := mkDispatch {
  d_store : St;
  pending_event : option (Confirmable U);
  pending_data : option (Confirmable U);
  barrier_active : bool;
  data_in : L;
  signal_out : list Signal
}.
Arguments mkDispatch {St U L}.
Arguments d_store {St U L}.
Arguments pending_event {St U L}.
Arguments pending_data {St U L}.
Arguments barrier_active {St U L}.
Arguments data_in {St U L}.
Arguments signal_out {St U L}.

Section dispatch.
Context {St U L Ev : Type} `{!DispatchStore St, !UploadAlloc U, !Flush L}.
(** [EventPayload::from_event_at(event, now).as_sendable()] and [is_urgent] *)
Context (event_sendable : Ev → Z → option SerializedSendable) (is_urgent : Ev → bool).
Context (UPLOADS : Z).
Abbreviation DS := (Dispatch St U L).
Abbreviation MD := (M DS Empty_set).

Definition set_d_store (st : St) (d : DS) : DS :=
  mkDispatch st (pending_event d) (pending_data d) (barrier_active d) (data_in d) (signal_out d).
Definition set_pending (k : Kind) (p : option (Confirmable U)) (d : DS) : DS :=
  match k with
  | KEvent => mkDispatch (d_store d) p (pending_data d) (barrier_active d) (data_in d) (signal_out d)
  | KData => mkDispatch (d_store d) (pending_event d) p (barrier_active d) (data_in d) (signal_out d)
  end.
Definition set_barrier (b : bool) (d : DS) : DS :=
  mkDispatch (d_store d) (pending_event d) (pending_data d) b (data_in d) (signal_out d).
Definition set_data_in (l : L) (d : DS) : DS :=
  mkDispatch (d_store d) (pending_event d) (pending_data d) (barrier_active d) l (signal_out d).
Definition send_signal (s : Signal) : MD unit :=
  modify (λ d, mkDispatch (d_store d) (pending_event d) (pending_data d) (barrier_active d) (data_in d)
                 (signal_out d ++ [s])).
Definition pending (k : Kind) (d : DS) : option (Confirmable U) :=
  match k with KEvent => pending_event d | KData => pending_data d end.
Definition is_pending (k : Kind) (d : DS) : bool := if pending k d is Some _ then true else false.

Definition on_dstore {A} (m : M St Error A) : MD (caught Error A) :=
  attempt (zoom d_store set_d_store m).

(** What becomes of the handle of a [Confirmable] that is dropped, or confirmed. *)
Definition drop_confirmable (c : Confirmable U) (st : St) : St :=
  match confirm_handle c with Some (k, h) => ds_drop k h st | None => st end.
Definition confirm_confirmable (c : Confirmable U) (st : St) : St :=
  match confirm_handle c with Some (k, h) => ds_confirm k h st | None => st end.
Definition drop_pending (p : option (Confirmable U)) (st : St) : St :=
  match p with Some c => drop_confirmable c st | None => st end.

(** [Pending::inner_write]: an assignment, which drops the old value. *)
Definition inner_write (k : Kind) (data : SerializedSendable) (handle : option ConfirmHandle) : MD unit :=
  match alloc k data with
  | inl u =>
      old ← gets (pending k);
      modify (set_pending k (Some (mkConfirmable u ((λ h, (k, h)) <$> handle))));;
      modify (λ d, set_d_store (drop_pending old (d_store d)) d)
  | inr _ => panic
  end.
Definition overwrite (k : Kind) (data : SerializedSendable) : MD unit := inner_write k data None.

(** [consume]: the pending item is taken out. *)
Definition consume (k : Kind) : MD (option (Confirmable U)) :=
  p ← gets (pending k);
  modify (set_pending k None);;
  mret p.

(** ** The parts of an iteration *)

(** Peek the next item of a stream; the result is [store_retry]. *)
Definition peek_into (k : Kind) : MD bool :=
  r ← on_dstore (ds_peek k);
  match r with
  | inl (Some (item, h)) => inner_write k item (Some h);; mret false
  | inl None => mret false
  | inr _ => mret true
  end.

Definition peek_next_event : MD bool :=
  busy ← gets (is_pending KEvent);
  if busy : bool then mret false else peek_into KEvent.
Definition peek_next_data (store_retry : bool) : MD bool :=
  ev ← gets (is_pending KEvent);
  busy ← gets (is_pending KData);
  if (ev : bool) || (busy : bool) then mret store_retry
  else r ← peek_into KData; mret (store_retry || r).

Definition process_sensor_data (data : SerializedSendable) : MD unit :=
  r ← on_dstore (ds_store KData data);
  match r with
  | inl _ => mret tt
  | inr _ => overwrite KData data
  end.

Definition process_event (event : Ev) (now : Z) : MD unit :=
  (if is_urgent event then send_signal UrgentEvent else mret tt);;
  match event_sendable event now with
  | None => mret tt
  | Some item =>
      r ← on_dstore (ds_store KEvent item);
      match r with
      | inl _ => mret tt
      | inr _ => overwrite KEvent item
      end
  end.

(** One iteration of the flush loop; [false] when nothing is buffered. *)
Definition flush_one : MD bool :=
  l ← gets data_in;
  let '(r, l') := flush l in
  modify (set_data_in l');;
  match r with
  | Some data => process_sensor_data data;; mret true
  | None => mret false
  end.

(** The barrier check behind the flush loop. *)
Definition check_barrier : MD unit :=
  r ← on_dstore ds_is_drained;
  match r with
  | inl true => send_signal DispatchDrained;; modify (set_barrier false)
  | inl false | inr _ => mret tt
  end.

(** ** The task and its environment *)

Inductive TransmitError : Type := UploadFailed | NothingPending.

(** How far [try_transmit] got: before the event, before the data (and whether
    the event was sent), or done. *)
Inductive Stage : Type :=
| TxEvent
| TxData (sent : bool)
| TxDone (result : unit + TransmitError).

Inductive Phase : Type :=
| PPeekEvent
| PPeekData (store_retry : bool)
| PFlush (store_retry flushed : bool)
| PDrained (store_retry : bool)
| PSelect (store_retry : bool) (stage : Stage).

(** [uploads] is the upload channel, [network] the items the network task has
    taken from it; [accepted] (what the task took in, per stream) and [confirms]
    (what the network task confirmed) are for the properties only. *)
Record config : Type := mkConfig {
  disp : DS;
  phase : Phase;
  uploads : list (Confirmable U);
  network : list (Confirmable U);
  barrier_requested : bool;
  accepted : Kind → list (list Z);
  confirms : list (Kind * Z)
}.

Definition go (d : DS) (ph : Phase) (c : config) : config :=
  mkConfig d ph (uploads c) (network c) (barrier_requested c) (accepted c) (confirms c).
Definition go_accept (k : Kind) (item : SerializedSendable) (d : DS) (ph : Phase) (c : config) : config :=
  mkConfig d ph (uploads c) (network c) (barrier_requested c)
    (update_kind (accepted c) k (accepted c k ++ [bytes_of item])) (confirms c).
Definition go_sent (us : list (Confirmable U)) (d : DS) (ph : Phase) (c : config) : config :=
  mkConfig d ph us (network c) (barrier_requested c) (accepted c) (confirms c).
Definition go_network (us net : list (Confirmable U)) (st : St) (cf : list (Kind * Z)) (c : config) : config :=
  mkConfig (set_d_store st (disp c)) (phase c) us net (barrier_requested c) (accepted c) cf.

(** Behind the two peeks. *)
Definition after_peeks (store_retry : bool) (d : DS) : DS * Phase :=
  if is_pending KEvent d || is_pending KData d then (d, PSelect store_retry TxEvent)
  else if barrier_active d then (d, PFlush store_retry false)
  else ((send_signal DispatchQueueEmpty d).2, PSelect store_retry TxEvent).

(** [upload_tx.is_ready()] and [try_send] *)
Definition is_ready (c : config) : bool := len (uploads c) <? UPLOADS.

(** [try_transmit] for one stream, once [reserve] returned: [consume], [try_send];
    an item that does not fit is dropped. *)
Definition transmit (k : Kind) (next : Stage) (store_retry : bool) (c : config) : config :=
  let '(r, d) := consume k (disp c) in
  match r with
  | Ok (Some item) =>
      if is_ready c then go_sent (uploads c ++ [item]) d (PSelect store_retry next) c
      else go (set_d_store (drop_confirmable item (d_store d)) d)
              (PSelect store_retry (TxDone (inr UploadFailed))) c
  | _ => c
  end.

Definition transmit_result (sent : bool) : unit + TransmitError :=
  if sent then inl tt else inr NothingPending.

(** The future resolves, at once or after a delay. *)
Definition resolves (store_retry : bool) (result : unit + TransmitError) : bool :=
  match result with inl _ | inr UploadFailed => true | inr NothingPending => store_retry end.

Inductive dispatch_step (item_ok : Kind → SerializedSendable → Prop) : config → config → Prop :=
| step_peek_event c r d :
    phase c = PPeekEvent → peek_next_event (disp c) = (Ok r, d) →
    dispatch_step item_ok c (go d (PPeekData r) c)
| step_peek_data c r0 r d :
    phase c = PPeekData r0 → peek_next_data r0 (disp c) = (Ok r, d) →
    dispatch_step item_ok c (go (after_peeks r d).1 (after_peeks r d).2 c)
| step_flush c r fl data l d :
    phase c = PFlush r fl → flush (data_in (disp c)) = (Some data, l) → item_ok KData data →
    flush_one (disp c) = (Ok true, d) →
    dispatch_step item_ok c (go_accept KData data d (PFlush r true) c)
| step_flushed c r fl d :
    phase c = PFlush r fl → flush_one (disp c) = (Ok false, d) →
    dispatch_step item_ok c (go d (if fl then PPeekEvent else PDrained r) c)
| step_drained c r d d' :
    phase c = PDrained r → check_barrier (disp c) = (Ok tt, d) →
    send_signal DispatchQueueEmpty d = (Ok tt, d') →
    dispatch_step item_ok c (go d' (PSelect r TxEvent) c)
(** transmitting *)
| step_no_event c r :
    phase c = PSelect r TxEvent → pending_event (disp c) = None →
    dispatch_step item_ok c (go (disp c) (PSelect r (TxData false)) c)
| step_send_event c r x :
    phase c = PSelect r TxEvent → pending_event (disp c) = Some x → is_ready c = true →
    dispatch_step item_ok c (transmit KEvent (TxData true) r c)
| step_no_data c r sent :
    phase c = PSelect r (TxData sent) → pending_data (disp c) = None →
    dispatch_step item_ok c (go (disp c) (PSelect r (TxDone (transmit_result sent))) c)
| step_send_data c r sent x :
    phase c = PSelect r (TxData sent) → pending_data (disp c) = Some x → is_ready c = true →
    dispatch_step item_ok c (transmit KData (TxDone (inl tt)) r c)
(** polling [next_packet] lets the serializer take in samples *)
| step_poll_data c r st l :
    phase c = PSelect r st →
    dispatch_step item_ok c (go (set_data_in l (disp c)) (phase c) c)
(** the branches of [select3] *)
| step_transmitted c r res :
    phase c = PSelect r (TxDone res) → resolves r res = true →
    dispatch_step item_ok c (go (disp c) PPeekEvent c)
| step_event c r st ev now item d :
    phase c = PSelect r st → event_sendable ev now = Some item → item_ok KEvent item →
    process_event ev now (disp c) = (Ok tt, d) →
    dispatch_step item_ok c (go_accept KEvent item d PPeekEvent c)
| step_event_lost c r st ev now d :
    phase c = PSelect r st → event_sendable ev now = None →
    process_event ev now (disp c) = (Ok tt, d) →
    dispatch_step item_ok c (go d PPeekEvent c)
| step_data c r st data d :
    phase c = PSelect r st → item_ok KData data →
    process_sensor_data data (disp c) = (Ok tt, d) →
    dispatch_step item_ok c (go_accept KData data d PPeekEvent c)
| step_incoming_error c r st :
    phase c = PSelect r st → dispatch_step item_ok c (go (disp c) PPeekEvent c)
| step_barrier c r st :
    phase c = PSelect r st → barrier_requested c = true →
    dispatch_step item_ok c
      (mkConfig (set_barrier true (disp c)) PPeekEvent (uploads c) (network c) false (accepted c) (confirms c))
| step_confirmation c r st s' :
    phase c = PSelect r st → ds_wait_confirmation (d_store (disp c)) = (Ok (Some tt), s') →
    dispatch_step item_ok c (go (set_d_store s' (disp c)) PPeekEvent c)
(** polling [wait_confirmation] without a result *)
| step_poll_confirmation c r st s' :
    phase c = PSelect r st → ds_wait_confirmation (d_store (disp c)) = (Ok None, s') →
    dispatch_step item_ok c (go (set_d_store s' (disp c)) (phase c) c)
(** the other tasks *)
| step_request c :
    dispatch_step item_ok c
      (mkConfig (disp c) (phase c) (uploads c) (network c) true (accepted c) (confirms c))
| step_net_receive c x us :
    uploads c = x :: us →
    dispatch_step item_ok c (go_network us (x :: network c) (d_store (disp c)) (confirms c) c)
| step_net_confirm c l1 x l2 :
    network c = l1 ++ x :: l2 →
    dispatch_step item_ok c
      (go_network (uploads c) (l1 ++ l2) (confirm_confirmable x (d_store (disp c)))
         (match confirm_handle x with Some (k, h) => (k, seq_no h) :: confirms c | None => confirms c end) c)
| step_net_drop c l1 x l2 :
    network c = l1 ++ x :: l2 →
    dispatch_step item_ok c
      (go_network (uploads c) (l1 ++ l2) (drop_confirmable x (d_store (disp c))) (confirms c) c).

Definition dispatch_start (st : St) (l : L) : config :=
  mkConfig (mkDispatch st None None false l []) PPeekEvent [] [] false (λ _, []) [].
End dispatch.
Arguments config St U L : clear implicits.
