(* ===== verification/DispatchProps.v ===== *)
(** * The dispatch task: properties

    Proved against the promise of the [DispatchStore] trait, for every
    interleaving of the dispatch task with the other tasks, while the store has
    room: nothing that was taken in is lost before the network task confirms it,
    and the reply to a barrier means that everything was confirmed. *)

From stdpp Require Import base sets gmap list list_numbers numbers option relations.
From S2P Require Import Prelude Queue FlashDb Samples Serialize DispatchStore Dispatch.

(** The pools are large enough: allocation does not fail. *)
Class UploadAllocLaws (U : Type) `{!UploadAlloc U} : Prop :=
  alloc_law : ∀ k item, ∃ u, alloc k item = inl u ∧ sendable u = item.

(** Once nothing is buffered, [flush] keeps returning [None]. *)
Class FlushLaws (L : Type) `{!Flush L} : Prop :=
  flush_law : ∀ l l', flush l = (None, l') → (flush l').1 = None.

(** The handles of stream [k] in a list of uploads. *)
Definition handle_in {U} (k : Kind) (x : Confirmable U) : option ConfirmHandle :=
  match confirm_handle x with
  | Some (k', h) => if decide (k' = k) then Some h else None
  | None => None
  end.
Definition handles_of {U} (k : Kind) (xs : list (Confirmable U)) : list ConfirmHandle := omap (handle_in k) xs.

Section props.
Context {St U L Ev : Type} `{!DispatchStore St, !DispatchStoreLaws St, !UploadAlloc U, !UploadAllocLaws U}.
Context `{!Flush L, !FlushLaws L}.
Context (event_sendable : Ev → Z → option SerializedSendable) (is_urgent : Ev → bool) (UPLOADS : Z).
Context (start : Kind → Z).
Implicit Types (st : St) (xs : list (Confirmable U)) (acc : Kind → list (list Z)) (cf : list (Kind * Z)).
Implicit Types (d : Dispatch St U L) (c : config St U L).

(** ** The books

    [xs] are the uploads that were peeked and not reported back, [acc] the items
    taken in and [cf] the confirmations so far. *)
Record books st xs acc cf (hs : Kind → list ConfirmHandle) (A : Kind → AStream) : Prop := {
  bk_rep : ds_rep st hs A;
  bk_handles : ∀ k, hs k ≡ₚ handles_of k xs;
  bk_uploads : Forall (λ x, ∃ k h, confirm_handle x = Some (k, h) ∧
    bytes_of (sendable (inner x)) = as_msg (A k) (seq_no h) ∧ seq_no h < as_next (A k)) xs;
  bk_accepted : ∀ k, start k ≤ as_next (A k) ∧
    acc k = as_msg (A k) <$> seqZ (start k) (as_next (A k) - start k);
  bk_owed : ∀ k n, start k ≤ n < as_next (A k) → n ∈ as_live (A k) ∨ (k, n) ∈ cf;
  bk_paid : ∀ k n, (k, n) ∈ cf → n < as_next (A k) ∧ n ∉ as_live (A k);
}.

Definition balanced st xs acc cf : Prop := ∃ hs A, books st xs acc cf hs A.

Lemma update_at {A} (f : Kind → A) k a k' :
  update_kind f k a k' = if decide (k' = k) then a else f k'.
Proof. done. Qed.

Lemma balanced_perm st xs xs' acc cf : xs ≡ₚ xs' → balanced st xs acc cf → balanced st xs' acc cf.
Proof.
  intros Hp (hs & A & [H1 H2 H3 H4 H5 H6]). exists hs, A. split; try done.
  - intros k. rewrite H2. unfold handles_of. by rewrite Hp.
  - by rewrite <-Hp.
Qed.

Lemma balanced_store k item st xs acc cf :
  balanced st xs acc cf → ds_item k item → ds_room k st →
  ∃ n st', ds_store k item st = (Ok n, st') ∧
    balanced st' xs (update_kind acc k (acc k ++ [bytes_of item])) cf.
Proof.
  intros (hs & A & [H1 H2 H3 H4 H5 H6]) Hok Hroom.
  destruct (ds_store_law st hs A k item H1 Hok Hroom) as (st' & Hrun & Hrep).
  eexists _, st'. split; [done|]. exists hs, (update_kind A k (as_stored (bytes_of item) (A k))).
  split; try done.
  - eapply list.Forall_impl; [exact H3|]. intros x (k' & h & Hx & Hb & Hn). exists k', h. split; [done|].
    rewrite update_at. case_decide; [subst|done]. cbn. rewrite (proj2 (Z.eqb_neq _ _)) by lia. split; [done|lia].
  - intros k'. rewrite !update_at. case_decide; [subst|done]. destruct (H4 k) as [Hs Ha]. cbn. split; [lia|].
    rewrite Ha. replace (as_next (A k) + 1 - start k) with (as_next (A k) - start k + 1) by lia.
    rewrite seqZ_app, fmap_app by lia. f_equal.
    + apply list_fmap_ext. intros i n Hi. apply lookup_seqZ in Hi. rewrite (proj2 (Z.eqb_neq _ _)) by lia. done.
    + replace (start k + (as_next (A k) - start k)) with (as_next (A k)) by lia.
      rewrite seqZ_cons by lia. cbn. by rewrite Z.eqb_refl.
  - intros k' n. rewrite !update_at. case_decide; [subst|apply H5]. cbn. intros Hn.
    destruct (decide (n = as_next (A k))) as [->|]; [left; set_solver|].
    destruct (H5 k n ltac:(lia)); [left; set_solver|by right].
  - intros k' n Hn. rewrite !update_at. case_decide; [subst|by apply H6]. destruct (H6 k n Hn). cbn.
    rewrite not_elem_of_union, not_elem_of_singleton. split_and!; [lia|lia|done].
Qed.

Lemma balanced_peek k st xs acc cf :
  balanced st xs acc cf →
  ∃ r st', ds_peek k st = (Ok r, st') ∧
    match r with
    | Some (item, h) => ∀ u, sendable u = item → balanced st' (mkConfirmable u (Some (k, h)) :: xs) acc cf
    | None => balanced st' xs acc cf
    end.
Proof.
  intros (hs & A & [H1 H2 H3 H4 H5 H6]). destruct (ds_peek_law st hs A k H1) as (r & st' & Hrun & Hr).
  exists r, st'. split; [done|]. destruct r as [[item h]|]; [|by exists hs, A; destruct Hr].
  intros u Hu. destruct Hr as (Hl & Hh & Hb & Hrep).
  exists (update_kind hs k (h :: hs k)), (update_kind A k (as_peeked (seq_no h) (A k))).
  assert (Hsame : ∀ k', as_msg (update_kind A k (as_peeked (seq_no h) (A k)) k') = as_msg (A k') ∧
    as_next (update_kind A k (as_peeked (seq_no h) (A k)) k') = as_next (A k') ∧
    as_live (update_kind A k (as_peeked (seq_no h) (A k)) k') = as_live (A k')).
  { intros k'. rewrite update_at. case_decide; by subst. }
  split; [done| | | | |].
  - intros k'. rewrite update_at. unfold handles_of. cbn. unfold handle_in at 1. cbn.
    destruct (decide (k' = k)) as [->|Hne]; [by rewrite decide_True, (H2 k)|].
    rewrite decide_False by congruence. apply H2.
  - constructor.
    + exists k, h. destruct (Hsame k) as (-> & -> & _). cbn. rewrite Hu. split_and!; [done|done|].
      by eapply ds_live_law.
    + eapply list.Forall_impl; [exact H3|]. intros x (k' & h' & Hx & Hb' & Hn). exists k', h'.
      by destruct (Hsame k') as (-> & -> & _).
  - intros k'. destruct (Hsame k') as (-> & -> & _). apply H4.
  - intros k' n. destruct (Hsame k') as (_ & -> & ->). apply H5.
  - intros k' n. destruct (Hsame k') as (_ & -> & ->). apply H6.
Qed.

Lemma balanced_drained st xs acc cf :
  balanced st xs acc cf →
  ∃ b st', ds_is_drained st = (Ok b, st') ∧ balanced st' xs acc cf ∧
    (b = true → ∀ k n, start k ≤ n < start k + len (acc k) → (k, n) ∈ cf).
Proof.
  intros (hs & A & [H1 H2 H3 H4 H5 H6]). destruct (ds_drained_law st hs A H1) as (b & st' & Hrun & Hrep & Hb).
  exists b, st'. split; [done|]. split; [by exists hs, A|]. intros Hbt k n Hn. rewrite Hb in Hbt.
  destruct (H4 k) as [Hs Ha]. rewrite Ha in Hn. unfold len in Hn. rewrite length_fmap, length_seqZ in Hn.
  destruct (H5 k n ltac:(lia)) as [Hl|]; [|done]. destruct (Hbt k) as [He _]. rewrite He in Hl. set_solver.
Qed.

Lemma balanced_wait st xs acc cf :
  balanced st xs acc cf → ∃ r st', ds_wait_confirmation st = (Ok r, st') ∧ balanced st' xs acc cf.
Proof.
  intros (hs & A & [H1 H2 H3 H4 H5 H6]). destruct (ds_wait_law st hs A H1) as (r & st' & Hrun & Hrep).
  exists r, st'. split; [done|]. by exists hs, A.
Qed.

(** The handle of the first upload, in the list of the handles of its stream. *)
Lemma split_handles xs x (k : Kind) h (hs : Kind → list ConfirmHandle) :
  confirm_handle x = Some (k, h) → (∀ k, hs k ≡ₚ handles_of k (x :: xs)) →
  ∃ hs1 hs2, hs k = hs1 ++ h :: hs2 ∧
    ∀ k', update_kind hs k (hs1 ++ hs2) k' ≡ₚ handles_of k' xs.
Proof.
  intros Hx Hp. pose proof (Hp k) as Hk. unfold handles_of in Hk. cbn in Hk. unfold handle_in at 1 in Hk.
  rewrite Hx, decide_True in Hk by done.
  destruct (Permutation_cons_inv_r _ _ _ Hk) as (hs1 & hs2 & Heq & Hp').
  exists hs1, hs2. split; [done|]. intros k'. rewrite update_at. case_decide; [by subst|].
  rewrite (Hp k'). unfold handles_of. cbn. unfold handle_in at 1. rewrite Hx, decide_False by congruence. done.
Qed.

(** A report of the first upload: the abstract stream changes by [f]. *)
Lemma balanced_report (f : AStream → AStream) st st' x xs acc cf cf' k h hs A :
  books st (x :: xs) acc cf hs A → confirm_handle x = Some (k, h) →
  (∀ hs1 hs2, hs k = hs1 ++ h :: hs2 → ds_rep st' (update_kind hs k (hs1 ++ hs2)) (update_kind A k (f (A k)))) →
  (∀ a, as_msg (f a) = as_msg a ∧ as_next (f a) = as_next a) →
  (∀ n, n ∈ as_live (A k) → n ∈ as_live (f (A k)) ∨ (k, n) ∈ cf') → (∀ y, y ∈ cf → y ∈ cf') →
  (∀ n, n ∈ as_live (f (A k)) → n ∈ as_live (A k)) →
  (∀ k' n, (k', n) ∈ cf' → (k', n) ∈ cf ∨ (k' = k ∧ n = seq_no h ∧ n ∉ as_live (f (A k)))) →
  balanced st' xs acc cf'.
Proof.
  intros [H1 H2 H3 H4 H5 H6] Hx Hrep Hf Hl Hcf Hless Hpaid.
  destruct (split_handles xs x k h hs Hx H2) as (hs1 & hs2 & Hs & Hp).
  exists (update_kind hs k (hs1 ++ hs2)), (update_kind A k (f (A k))).
  assert (Hsame : ∀ k', as_msg (update_kind A k (f (A k)) k') = as_msg (A k') ∧
    as_next (update_kind A k (f (A k)) k') = as_next (A k')).
  { intros k'. rewrite update_at. case_decide; [subst; apply Hf|done]. }
  apply Forall_cons_1 in H3 as [(k0 & h0 & Hx0 & _ & Hlt) H3].
  assert (k0 = k ∧ h0 = h) as [-> ->] by (rewrite Hx in Hx0; by injection Hx0).
  split; [by apply Hrep|done| | | |].
  - eapply list.Forall_impl; [exact H3|].
    intros y (k' & h' & Hy & Hb & Hn). exists k', h'. by destruct (Hsame k') as [-> ->].
  - intros k'. destruct (Hsame k') as [-> ->]. apply H4.
  - intros k' n. destruct (Hsame k') as [_ ->]. rewrite update_at. intros Hn.
    destruct (H5 k' n Hn) as [Hi|Hi]; [|right; by apply Hcf].
    case_decide; [subst; by apply Hl|by left].
  - intros k' n Hn. destruct (Hsame k') as [_ ->]. rewrite update_at.
    destruct (Hpaid k' n Hn) as [Hc|(-> & -> & Hno)]; [destruct (H6 k' n Hc)|by rewrite decide_True].
    split; [done|]. case_decide; [subst|done]. intros Hi. by apply Hless in Hi.
Qed.

Lemma balanced_confirm st x xs acc cf :
  balanced st (x :: xs) acc cf →
  balanced (confirm_confirmable x st) xs acc
    (match confirm_handle x with Some (k, h) => (k, seq_no h) :: cf | None => cf end).
Proof.
  intros (hs & A & HB). pose proof (bk_uploads _ _ _ _ _ _ HB) as Hu.
  apply Forall_cons_1 in Hu as [(k & h & Hx & _) _]. unfold confirm_confirmable. rewrite Hx.
  eapply (balanced_report (as_confirmed (seq_no h))); [exact HB|exact Hx| |done| |set_solver|set_solver|].
  - intros hs1 hs2 Hs. by apply ds_confirm_law; [apply HB|].
  - intros n Hn. cbn. destruct (decide (n = seq_no h)) as [->|]; [right; set_solver|left; set_solver].
  - intros k' n [[= -> ->]|Hc]%elem_of_cons; [right|by left]. split_and!; [done..|]. cbn. set_solver.
Qed.

Lemma balanced_drop st x xs acc cf :
  balanced st (x :: xs) acc cf → balanced (drop_confirmable x st) xs acc cf.
Proof.
  intros (hs & A & HB). pose proof (bk_uploads _ _ _ _ _ _ HB) as Hu.
  apply Forall_cons_1 in Hu as [(k & h & Hx & _) _]. unfold drop_confirmable. rewrite Hx.
  eapply (balanced_report (as_dropped (seq_no h))); [exact HB|exact Hx| |done|by left|done|done|by left].
  intros hs1 hs2 Hs. by apply ds_drop_law; [apply HB|].
Qed.

(** ** The invariant *)

Definition in_hand d : list (Confirmable U) := option_list (pending_event d) ++ option_list (pending_data d).
Definition outstanding c : list (Confirmable U) := in_hand (disp c) ++ uploads c ++ network c.

Definition phase_ok c : Prop :=
  match phase c with
  | PFlush _ _ => in_hand (disp c) = [] ∧ barrier_active (disp c) = true
  | PDrained _ => in_hand (disp c) = [] ∧ barrier_active (disp c) = true ∧ (flush (data_in (disp c))).1 = None
  | _ => True
  end.

Definition dispatch_ok c : Prop :=
  balanced (d_store (disp c)) (outstanding c) (accepted c) (confirms c) ∧ phase_ok c.

(** A step of the store part of the task, with [ys] the uploads elsewhere. *)
Definition held_ok d ys acc cf : Prop := balanced (d_store d) (in_hand d ++ ys) acc cf.

Lemma in_hand_set_store st d : in_hand (set_d_store st d) = in_hand d.
Proof. done. Qed.

Lemma in_hand_set_pending k x d :
  is_pending k d = false → in_hand (set_pending k (Some x) d) ≡ₚ x :: in_hand d.
Proof.
  unfold is_pending, in_hand. destruct k; cbn; intros Hp.
  - by destruct (pending_event d).
  - destruct (pending_data d); [done|]. by rewrite app_nil_r, Permutation_app_comm.
Qed.

Lemma on_dstore_run {A} (m : M St Error A) d r st' :
  m (d_store d) = (Ok r, st') → on_dstore m d = (Ok (inl r), set_d_store st' d).
Proof. intros H. unfold on_dstore, attempt, zoom. by rewrite H. Qed.

Lemma peek_into_run k d ys acc cf :
  held_ok d ys acc cf → is_pending k d = false →
  ∃ d', peek_into k d = (Ok false, d') ∧ held_ok d' ys acc cf ∧
    barrier_active d' = barrier_active d ∧ data_in d' = data_in d ∧ signal_out d' = signal_out d.
Proof.
  intros Hok Hp. destruct (balanced_peek k _ _ _ _ Hok) as (r & st' & Hrun & Hr).
  unfold peek_into, mbind, M_bind. rewrite (on_dstore_run _ _ _ _ Hrun).
  destruct r as [[item h]|]; [|by exists (set_d_store st' d)].
  destruct (alloc_law k item) as (u & Hu & Hs). unfold inner_write, mbind, M_bind. rewrite Hu. cbn.
  assert (pending k (set_d_store st' d) = None) as ->.
  { unfold is_pending in Hp. destruct k; cbn in *; [by destruct (pending_event d)|by destruct (pending_data d)]. }
  eexists. split; [reflexivity|]. split; [|by destruct k]. unfold held_ok. cbn [d_store set_d_store].
  eapply balanced_perm; [|destruct k; exact (Hr u Hs)].
  rewrite in_hand_set_store, app_comm_cons. f_equiv. symmetry. by rewrite in_hand_set_pending by (by destruct k).
Qed.

Lemma store_run k item d ys acc cf :
  held_ok d ys acc cf → ds_item k item → ds_room k (d_store d) →
  ∃ n st', on_dstore (ds_store k item) d = (Ok (inl n), set_d_store st' d) ∧
    held_ok (set_d_store st' d) ys (update_kind acc k (acc k ++ [bytes_of item])) cf.
Proof.
  intros Hok Hi Hroom. destruct (balanced_store k item _ _ _ _ Hok Hi Hroom) as (n & st' & Hrun & Hb).
  exists n, st'. split; [by apply on_dstore_run|done].
Qed.

(** The task keeps the books in every step. *)
Lemma held_of c : dispatch_ok c → held_ok (disp c) (uploads c ++ network c) (accepted c) (confirms c).
Proof. by intros []. Qed.

Lemma peek_next_event_ok d ys acc cf r d' :
  held_ok d ys acc cf → peek_next_event d = (Ok r, d') →
  held_ok d' ys acc cf ∧ signal_out d' = signal_out d.
Proof.
  intros Hok. unfold peek_next_event, mbind, M_bind, gets. destruct (is_pending KEvent d) eqn:Hp.
  - by intros [= <- <-].
  - destruct (peek_into_run KEvent d ys acc cf Hok Hp) as (d1 & -> & H1 & _ & _ & H2). by intros [= <- <-].
Qed.

Lemma peek_next_data_ok d ys acc cf r0 r d' :
  held_ok d ys acc cf → peek_next_data r0 d = (Ok r, d') →
  held_ok d' ys acc cf ∧ signal_out d' = signal_out d.
Proof.
  intros Hok. unfold peek_next_data, mbind, M_bind, gets. destruct (is_pending KEvent d); [by intros [= <- <-]|].
  destruct (is_pending KData d) eqn:Hp; [by intros [= <- <-]|]. cbn [orb].
  destruct (peek_into_run KData d ys acc cf Hok Hp) as (d1 & -> & H1 & _ & _ & H2). by intros [= <- <-].
Qed.

Lemma process_sensor_data_ok data d ys acc cf r d' :
  held_ok d ys acc cf → ds_item KData data → ds_room KData (d_store d) →
  process_sensor_data data d = (r, d') →
  ∃ st', d' = set_d_store st' d ∧ held_ok d' ys (update_kind acc KData (acc KData ++ [bytes_of data])) cf.
Proof.
  intros Hok Hi Hroom. destruct (store_run KData data d ys acc cf Hok Hi Hroom) as (n & st' & Hrun & H1).
  unfold process_sensor_data, mbind, M_bind. rewrite Hrun. intros [= <- <-]. by exists st'.
Qed.

Lemma process_event_ok ev now d ys acc cf r d' :
  held_ok d ys acc cf → (∀ item, event_sendable ev now = Some item → ds_item KEvent item) →
  ds_room KEvent (d_store d) → process_event event_sendable is_urgent ev now d = (r, d') →
  held_ok d' ys (match event_sendable ev now with
                 | Some item => update_kind acc KEvent (acc KEvent ++ [bytes_of item])
                 | None => acc end) cf ∧
  ∃ s, signal_out d' = signal_out d ++ s ∧ DispatchDrained ∉ s.
Proof.
  intros Hok Hi Hroom. unfold process_event, mbind, M_bind.
  set (d1 := if is_urgent ev then (send_signal UrgentEvent d).2 else d).
  assert ((if is_urgent ev then send_signal UrgentEvent else mret tt) d = (Ok tt, d1)) as ->
    by (unfold d1; by destruct (is_urgent ev)).
  assert (H1 : held_ok d1 ys acc cf) by (unfold d1; by destruct (is_urgent ev)).
  assert (H2 : d_store d1 = d_store d) by (unfold d1; by destruct (is_urgent ev)). rewrite <-H2 in Hroom.
  assert (Hs : ∃ s, signal_out d1 = signal_out d ++ s ∧ DispatchDrained ∉ s).
  { exists (if is_urgent ev then [UrgentEvent] else []). unfold d1. destruct (is_urgent ev); cbn;
      rewrite ?app_nil_r; (split; [done|]); intros Hin; apply list_elem_of_singleton in Hin || apply elem_of_nil in Hin; done. }
  destruct (event_sendable ev now) as [item|]; [|by intros [= <- <-]].
  destruct (store_run KEvent item d1 ys acc cf H1 (Hi item eq_refl) Hroom) as (n & st' & Hrun & H3).
  rewrite Hrun. by intros [= <- <-].
Qed.

Lemma in_hand_nil d : is_pending KEvent d || is_pending KData d = false → in_hand d = [].
Proof.
  unfold is_pending, in_hand. cbn. destruct (pending_event d), (pending_data d); done.
Qed.

Lemma after_peeks_ok r d c :
  held_ok d (uploads c ++ network c) (accepted c) (confirms c) →
  dispatch_ok (go (after_peeks r d).1 (after_peeks r d).2 c).
Proof.
  intros Hok. unfold after_peeks. destruct (_ || _) eqn:Hp; [by split|].
  destruct (barrier_active d) eqn:Hb; [|by split]. split; [done|]. split; [by apply in_hand_nil|done].
Qed.

(** [try_transmit] moves an upload from the task to the channel. *)
Lemma transmit_ok k next r c x :
  dispatch_ok c → pending k (disp c) = Some x → is_ready UPLOADS c = true →
  (match next with TxData _ | TxDone _ => True | _ => False end) →
  dispatch_ok (transmit UPLOADS k next r c).
Proof.
  intros [Hb _] Hp Hr _. unfold transmit, consume, mbind, M_bind. cbn. rewrite Hp, Hr. split; [|done].
  unfold outstanding in *. cbn. eapply balanced_perm; [|destruct k; exact Hb].
  unfold in_hand. destruct k; cbn in *; rewrite Hp; cbn.
  - rewrite <-!(assoc_L (++)). cbn. rewrite (assoc_L (++) _ _ (x :: _)).
    apply Permutation_cons_app. by rewrite (assoc_L (++)).
  - rewrite <-!(assoc_L (++)). f_equiv. cbn. by apply Permutation_cons_app.
Qed.

Abbreviation step := (dispatch_step event_sendable is_urgent UPLOADS ds_item).
Definition roomy c : Prop := ∀ k, ds_room k (d_store (disp c)).

Lemma net_take c l1 x l2 :
  dispatch_ok c → network c = l1 ++ x :: l2 →
  balanced (d_store (disp c)) (x :: in_hand (disp c) ++ uploads c ++ l1 ++ l2) (accepted c) (confirms c).
Proof.
  intros [Hb _] Hn. eapply balanced_perm; [|exact Hb]. unfold outstanding. rewrite Hn.
  rewrite !(assoc_L (++)). symmetry. apply Permutation_middle.
Qed.

(** The part of the phase that the other tasks do not touch. *)
Lemma phase_ok_store st c us net br acc cf :
  phase_ok c → phase_ok (mkConfig (set_d_store st (disp c)) (phase c) us net br acc cf).
Proof. done. Qed.

Lemma step_ok c c' : dispatch_ok c → roomy c → step c c' → dispatch_ok c'.
Proof.
  intros Hok Hroom Hstep. pose proof (held_of c Hok) as Hh.
  destruct Hstep as [c r d Hph Hrun|c r0 r d Hph Hrun|c r fl data l d Hph Hfl Hi Hrun|c r fl d Hph Hrun
    |c r d d' Hph Hrun Hsig|c r Hph Hp|c r x Hph Hp Hr|c r sent Hph Hp|c r sent x Hph Hp Hr|c r st l Hph
    |c r res Hph Hres|c r st ev now item d Hph Hev Hi Hrun|c r st ev now d Hph Hev Hrun|c r st data d Hph Hi Hrun
    |c r st Hph|c r st Hph Hreq|c r st s' Hph Hrun|c r st s' Hph Hrun|c|c x us Hus|c l1 x l2 Hn|c l1 x l2 Hn].
  - split; [|done]. by eapply peek_next_event_ok.
  - apply after_peeks_ok. by eapply peek_next_data_ok.
  - destruct Hok as [_ Hpo]. unfold phase_ok in Hpo. rewrite Hph in Hpo. destruct Hpo as [Hin Hba].
    unfold flush_one, mbind, M_bind, gets in Hrun. rewrite Hfl in Hrun. cbn in Hrun.
    destruct (process_sensor_data data (set_data_in l (disp c))) as [res d1] eqn:Hpr.
    eapply process_sensor_data_ok in Hpr as (st' & -> & Hh'); [|exact Hh|done|apply Hroom].
    destruct res as [[]|e|]; [|done..]. injection Hrun as <-. split; [exact Hh'|]. by split.
  - destruct Hok as [_ Hpo]. unfold phase_ok in Hpo. rewrite Hph in Hpo. destruct Hpo as [Hin Hba].
    unfold flush_one, mbind, M_bind, gets in Hrun. destruct (flush (data_in (disp c))) as [[data|] l] eqn:Hfl; cbn in Hrun.
    { by destruct (process_sensor_data _ _) as [[[]|e|] d1]. }
    injection Hrun as <-. split; [exact Hh|]. destruct fl; [done|]. split_and!; [done|done|by eapply flush_law].
  - injection Hsig as <-. destruct (balanced_drained _ _ _ _ Hh) as (b & st' & Hd & Hb & _).
    unfold check_barrier, mbind, M_bind in Hrun. rewrite (on_dstore_run _ _ _ _ Hd) in Hrun.
    split; [|done]. by destruct b; injection Hrun as <-.
  - by split.
  - by eapply transmit_ok.
  - by split.
  - by eapply transmit_ok.
  - split; [exact Hh|]. unfold phase_ok. cbn. by rewrite Hph.
  - by split.
  - split; [|done]. eapply process_event_ok in Hrun as [Hh' _]; [|exact Hh| |apply Hroom]; rewrite ?Hev in *; [done|naive_solver].
  - split; [|done]. eapply process_event_ok in Hrun as [Hh' _]; [|exact Hh| |apply Hroom]; by rewrite ?Hev in *.
  - split; [|done]. by destruct (process_sensor_data_ok data _ _ _ _ _ _ Hh Hi (Hroom KData) Hrun) as (st' & _ & Hh').
  - by split.
  - by split.
  - destruct (balanced_wait _ _ _ _ Hh) as (w & st' & Hw & Hb). rewrite Hw in Hrun. injection Hrun as _ <-. by split.
  - destruct (balanced_wait _ _ _ _ Hh) as (w & st' & Hw & Hb). rewrite Hw in Hrun. injection Hrun as _ <-.
    split; [done|]. unfold phase_ok. cbn. by rewrite Hph.
  - done.
  - destruct Hok as [Hb Hpo]. split; [|done]. unfold outstanding in *. cbn. rewrite Hus in Hb.
    eapply balanced_perm; [|exact Hb]. rewrite in_hand_set_store. apply Permutation_app_head. cbn.
    by apply Permutation_cons_app.
  - pose proof (balanced_confirm _ _ _ _ _ (net_take c l1 x l2 Hok Hn)) as Hb. destruct Hok as [_ Hpo]. by split.
  - pose proof (balanced_drop _ _ _ _ _ (net_take c l1 x l2 Hok Hn)) as Hb. destruct Hok as [_ Hpo]. by split.
Qed.

(** Only the check of a barrier in an empty task sends [DispatchDrained]. *)
Definition quiet c c' : Prop := ∃ s, signal_out (disp c') = signal_out (disp c) ++ s ∧ DispatchDrained ∉ s.

Lemma quiet_same c c' : signal_out (disp c') = signal_out (disp c) → quiet c c'.
Proof. intros H. exists []. rewrite app_nil_r. split; [done|apply not_elem_of_nil]. Qed.

Lemma quiet_empty (s : list Signal) : ∃ s', s ++ [DispatchQueueEmpty] = s ++ s' ∧ DispatchDrained ∉ s'.
Proof. exists [DispatchQueueEmpty]. split; [done|]. by intros Hin%list_elem_of_singleton. Qed.

Lemma step_quiet c c' :
  dispatch_ok c → roomy c → step c c' →
  quiet c c' ∨
  ∃ r, phase c = PDrained r ∧ signal_out (disp c') = signal_out (disp c) ++ [DispatchDrained; DispatchQueueEmpty] ∧
    barrier_active (disp c') = false ∧
    ∀ k n, start k ≤ n < start k + len (accepted c k) → (k, n) ∈ confirms c.
Proof.
  intros Hok Hroom Hstep. pose proof (held_of c Hok) as Hh.
  destruct Hstep as [c r d Hph Hrun|c r0 r d Hph Hrun|c r fl data l d Hph Hfl Hi Hrun|c r fl d Hph Hrun
    |c r d d' Hph Hrun Hsig|c r Hph Hp|c r x Hph Hp Hr|c r sent Hph Hp|c r sent x Hph Hp Hr|c r st l Hph
    |c r res Hph Hres|c r st ev now item d Hph Hev Hi Hrun|c r st ev now d Hph Hev Hrun|c r st data d Hph Hi Hrun
    |c r st Hph|c r st Hph Hreq|c r st s' Hph Hrun|c r st s' Hph Hrun|c|c x us Hus|c l1 x l2 Hn|c l1 x l2 Hn];
    try (left; by apply quiet_same).
  - left. apply quiet_same. by destruct (peek_next_event_ok _ _ _ _ _ _ Hh Hrun).
  - left. destruct (peek_next_data_ok _ _ _ _ _ _ _ Hh Hrun) as [_ Hs]. unfold after_peeks.
    destruct (_ || _); [by apply quiet_same|]. destruct (barrier_active d); [by apply quiet_same|].
    unfold quiet. cbn. rewrite Hs. apply quiet_empty.
  - left. apply quiet_same. unfold flush_one, mbind, M_bind, gets in Hrun. rewrite Hfl in Hrun. cbn in Hrun.
    destruct (process_sensor_data data (set_data_in l (disp c))) as [res d1] eqn:Hpr.
    eapply process_sensor_data_ok in Hpr as (st' & -> & Hh'); [|exact Hh|done|apply Hroom].
    destruct res as [[]|e|]; [|done..]. by injection Hrun as <-.
  - left. apply quiet_same. unfold flush_one, mbind, M_bind, gets in Hrun.
    destruct (flush (data_in (disp c))) as [[data|] l] eqn:Hfl; cbn in Hrun.
    { by destruct (process_sensor_data _ _) as [[[]|e|] d1]. }
    by injection Hrun as <-.
  - injection Hsig as <-. destruct (balanced_drained _ _ _ _ Hh) as (b & st' & Hd & Hb & Hall).
    unfold check_barrier, mbind, M_bind in Hrun. rewrite (on_dstore_run _ _ _ _ Hd) in Hrun.
    destruct b; injection Hrun as <-; [right|left; apply quiet_empty].
    exists r. cbn. rewrite <-(assoc_L (++)). split_and!; try done. by apply Hall.
  - left. apply quiet_same. unfold transmit, consume, mbind, M_bind. cbn. by rewrite Hp, Hr.
  - left. apply quiet_same. unfold transmit, consume, mbind, M_bind. cbn. by rewrite Hp, Hr.
  - left. eapply process_event_ok in Hrun as [_ Hs]; [exact Hs|exact Hh| |apply Hroom]. rewrite Hev. naive_solver.
  - left. eapply process_event_ok in Hrun as [_ Hs]; [exact Hs|exact Hh| |apply Hroom]. by rewrite Hev.
  - left. apply quiet_same. by destruct (process_sensor_data_ok data _ _ _ _ _ _ Hh Hi (Hroom KData) Hrun) as (st' & -> & _).
Qed.

(** With items in the store and none out, a peek finds one. *)
Lemma peek_next_pending k d hs A :
  ds_rep (d_store d) hs A → hs k = [] → as_live (A k) ≠ ∅ →
  ∃ d' x h, peek_into k d = (Ok false, d') ∧ pending k d' = Some x ∧
    confirm_handle x = Some (k, h) ∧ seq_no h ∈ as_live (A k) ∧
    bytes_of (sendable (inner x)) = as_msg (A k) (seq_no h).
Proof.
  intros Hrep Hh Hl. destruct (ds_peek_law _ hs A k Hrep) as (r & st' & Hrun & Hr).
  unfold peek_into, mbind, M_bind. rewrite (on_dstore_run _ _ _ _ Hrun). destruct r as [[item h]|].
  - destruct Hr as (Hin & _ & Hb & _). destruct (alloc_law k item) as (u & Hu & Hs).
    unfold inner_write, mbind, M_bind. rewrite Hu. cbn. eexists _, (mkConfirmable u (Some (k, h))), h.
    split; [reflexivity|]. subst item. destruct k; done.
  - destruct Hr as [[?|Hne] _]; [done|]. exfalso. apply Hne. apply elem_of_equiv_empty_L. intros n.
    rewrite (ds_held_law _ _ _ k n Hrep), Hh. apply not_elem_of_nil.
Qed.

(** ** The claims *)

(** Runs of the system while the store has room. *)
Abbreviation run := (rtc (λ c c', roomy c ∧ step c c')).

Lemma start_ok st l hs A :
  ds_rep st hs A → (∀ k, hs k = []) → (∀ k, as_next (A k) = start k) → dispatch_ok (dispatch_start st l).
Proof.
  intros Hrep Hhs Hn. split; [|done]. exists hs, A. split; cbn; try done.
  - intros k. by rewrite Hhs.
  - intros k. rewrite Hn, Z.sub_diag. done.
  - intros k n. rewrite Hn. lia.
  - intros k n Hin. by apply elem_of_nil in Hin.
Qed.

Lemma run_ok c c' : dispatch_ok c → run c c' → dispatch_ok c'.
Proof. intros Hok Hr. induction Hr as [|c1 c2 c3 [Hroom Hs] _ IH]; [done|]. by apply IH, (step_ok c1). Qed.

(** The [i]-th item taken in. *)
Lemma books_lookup st xs acc cf hs A k i bytes :
  books st xs acc cf hs A → acc k !! i = Some bytes →
  as_msg (A k) (start k + Z.of_nat i) = bytes ∧ start k + Z.of_nat i < as_next (A k) ∧
  (start k + Z.of_nat i ∈ as_live (A k) ∨ (k, start k + Z.of_nat i) ∈ cf).
Proof.
  intros [H1 H2 H3 H4 H5 H6] Hi. destruct (H4 k) as [Hs Ha]. rewrite Ha in Hi.
  apply list_lookup_fmap_Some in Hi as (n & -> & Hi). apply lookup_seqZ in Hi as [-> Hlt].
  split_and!; [done|lia|]. apply H5. lia.
Qed.

Lemma books_at st xs acc cf hs A k n :
  books st xs acc cf hs A → n < as_next (A k) →
  n < start k ∨ acc k !! Z.to_nat (n - start k) = Some (as_msg (A k) n).
Proof.
  intros [H1 H2 H3 H4 H5 H6] Hn. destruct (H4 k) as [Hs ->]. destruct (decide (n < start k)); [by left|right].
  apply list_lookup_fmap_Some. exists n. split; [done|]. apply lookup_seqZ. lia.
Qed.

(** C1: nothing is lost on the way, while the store has room and works.  In every
    interleaving of the task with its channels and the network task in which, at every
    step, each stream of the store has room for another item, and no store operation
    fails and no upload pool is exhausted (the laws [DispatchStoreLaws] and
    [UploadAllocLaws]): each item the task took in is stored with its bytes in order, and it stays in the store exactly as
    long as the network task has not confirmed it; every upload that is pending, in
    the channel or with the network task carries the bytes of the stored item its
    handle stands for, and the handles that are out are exactly those of these
    uploads.  (A stream without room gives up its oldest items for new ones, and an item that
    cannot be stored is sent without a confirmation; neither is covered here.) *)
Theorem dispatch_conserves st l hs0 A0 c :
  ds_rep st hs0 A0 → (∀ k, hs0 k = []) → (∀ k, as_next (A0 k) = start k) →
  run (dispatch_start st l) c →
  ∃ hs A, ds_rep (d_store (disp c)) hs A ∧
    (∀ k i bytes, accepted c k !! i = Some bytes →
       as_msg (A k) (start k + Z.of_nat i) = bytes ∧
       (start k + Z.of_nat i ∈ as_live (A k) ↔ (k, start k + Z.of_nat i) ∉ confirms c)) ∧
    (∀ k, hs k ≡ₚ handles_of k (outstanding c)) ∧
    Forall (λ x, ∃ k h, confirm_handle x = Some (k, h) ∧
      bytes_of (sendable (inner x)) = as_msg (A k) (seq_no h)) (outstanding c).
Proof.
  intros Hrep Hhs Hn Hrun. destruct (run_ok _ _ (start_ok st l hs0 A0 Hrep Hhs Hn) Hrun) as [(hs & A & HB) _].
  exists hs, A. split_and!; [apply HB| |apply HB|].
  - intros k i bytes Hi. destruct (books_lookup _ _ _ _ _ _ k i bytes HB Hi) as (-> & Hlt & Hown).
    split; [done|]. split; [|by destruct Hown]. intros Hl Hc. by apply (bk_paid _ _ _ _ _ _ HB k _ Hc).
  - eapply list.Forall_impl; [apply HB|]. intros x (k & h & ? & ? & _). by exists k, h.
Qed.

(** C2: the barrier.  In a run in which the store always had room for another item, none
    of its operations failed and no upload pool was exhausted: when the task replies [DispatchDrained],
    nothing is pending, the serializer has nothing buffered, and the network task has
    confirmed every item taken in so far. *)
Theorem barrier_reply_means_confirmed st l hs0 A0 c c' rest :
  ds_rep st hs0 A0 → (∀ k, hs0 k = []) → (∀ k, as_next (A0 k) = start k) →
  run (dispatch_start st l) c → roomy c → step c c' →
  signal_out (disp c') = signal_out (disp c) ++ DispatchDrained :: rest →
  in_hand (disp c) = [] ∧ barrier_active (disp c) = true ∧ barrier_active (disp c') = false ∧
  (flush (data_in (disp c))).1 = None ∧
  ∀ k n, start k ≤ n < start k + len (accepted c k) → (k, n) ∈ confirms c.
Proof.
  intros Hrep Hhs Hn Hrun Hroom Hstep Hsig. pose proof (run_ok _ _ (start_ok st l hs0 A0 Hrep Hhs Hn) Hrun) as Hok.
  destruct (step_quiet c c' Hok Hroom Hstep) as [(s & Hs & Hno)|(r & Hph & _ & Hb & Hall)].
  { rewrite Hs in Hsig. apply (inj (app _)) in Hsig. subst s. set_solver. }
  destruct Hok as [_ Hpo]. unfold phase_ok in Hpo. rewrite Hph in Hpo. naive_solver.
Qed.

(** An unconfirmed item is picked up.  When the task is about to look for
    work, no event is pending or out (all uploads of events were reported back, as confirmed or
    as aborted) and some event taken in was never confirmed, the task's next step
    makes an unconfirmed event pending, with the bytes that were taken in. *)
Theorem unconfirmed_event_is_picked_up st l hs0 A0 c i bytes :
  ds_rep st hs0 A0 → (∀ k, hs0 k = []) → (∀ k, as_next (A0 k) = start k) →
  run (dispatch_start st l) c → phase c = PPeekEvent →
  pending_event (disp c) = None → handles_of KEvent (outstanding c) = [] →
  accepted c KEvent !! i = Some bytes → (KEvent, start KEvent + Z.of_nat i) ∉ confirms c →
  ∃ d x h, step c (go d (PPeekData false) c) ∧
    pending_event d = Some x ∧ confirm_handle x = Some (KEvent, h) ∧ (KEvent, seq_no h) ∉ confirms c ∧
    (seq_no h < start KEvent ∨
     accepted c KEvent !! Z.to_nat (seq_no h - start KEvent) = Some (bytes_of (sendable (inner x)))).
Proof.
  intros Hrep Hhs Hn Hrun Hph Hnone Hout Hi Hno.
  destruct (run_ok _ _ (start_ok st l hs0 A0 Hrep Hhs Hn) Hrun) as [(hs & A & HB) _].
  pose proof (bk_rep _ _ _ _ _ _ HB) as Hr. pose proof (bk_handles _ _ _ _ _ _ HB KEvent) as Hh.
  rewrite Hout in Hh. apply Permutation_nil_r in Hh.
  destruct (books_lookup _ _ _ _ _ _ _ _ _ HB Hi) as (_ & _ & [Hlive|?]); [|done].
  destruct (peek_next_pending KEvent (disp c) hs A Hr Hh) as (d & x & h & Hpk & Hpe & Hx & Hl & Hb);
    [by intros He; rewrite He in Hlive; set_solver|].
  exists d, x, h. split_and!; try done.
  - apply step_peek_event; [done|]. unfold peek_next_event, mbind, M_bind, gets, is_pending. cbn. by rewrite Hnone.
  - intros Hc. by apply (bk_paid _ _ _ _ _ _ HB _ _ Hc).
  - rewrite Hb. eapply books_at; [done|]. by eapply ds_live_law.
Qed.
(** A failed store degrades to one attempt.  When an event cannot be stored it
    becomes the pending event with its bytes and no handle, so it is sent once and
    never retried; the event it replaces is reported back as aborted and stays in
    the store; the pending data and the barrier are not touched. *)
Theorem store_failure_keeps_event ev now item e st' d :
  event_sendable ev now = Some item → ds_store KEvent item (d_store d) = (Err e, st') →
  ∃ u d', process_event event_sendable is_urgent ev now d = (Ok tt, d') ∧ sendable u = item ∧
    pending_event d' = Some (with_no_retry u) ∧ d_store d' = drop_pending (pending_event d) st' ∧
    pending_data d' = pending_data d ∧ barrier_active d' = barrier_active d ∧
    signal_out d' = signal_out d ++ (if is_urgent ev then [UrgentEvent] else []).
Proof.
  intros Hev Hst. destruct (alloc_law KEvent item) as (u & Hu & Hs). exists u.
  unfold process_event, overwrite, inner_write, on_dstore, attempt, zoom, mbind, M_bind. rewrite Hev, Hu.
  destruct (is_urgent ev); cbn; rewrite Hst; cbn; (eexists; split; [reflexivity|]); cbn; by rewrite ?app_nil_r.
Qed.
End props.
