(* ===== verification/DispatchDemo.v ===== *)
(** * The dispatch task on the whole stack

    The theorems on the dispatch task applied to a [StreamPairStore] on two
    circulars of one in-memory NOR flash, six blocks of 1024 bytes: an event is
    stored, uploaded, aborted, uploaded again and confirmed, and a barrier is
    answered. *)

From stdpp Require Import base sets gmap list list_numbers numbers option relations.
From S2P Require Import Prelude NorFlash InMemoryFlash BlockLayer BlockFacts BlockProps BlockDev.
From S2P Require Import BlockRefine FlashDb CircularStore CircularFacts CircularProps CircularScan.
From S2P Require Import CircularRing RingFacts Queue QueueFacts QueueSystem QueueProps StreamStore.
From S2P Require Import StreamProps Samples Serialize DispatchStore DispatchFacts Dispatch.
From S2P Require Import DispatchProps.

Module DemoDispatch.
Abbreviation BS := 1024.
Abbreviation BD := (BlockDevice InMemoryFlash).
Abbreviation Ch5 := (ListChannel.t 5).
#[export] Instance pair_flash : NorFlash InMemoryFlash MockError := in_memory_nor_flash BS.
#[export] Instance pair_flash_laws : NorFlashLaws InMemoryFlash MockError := in_memory_laws BS eq_refl.
#[export] Instance pair_dev : BlockDev BS BD MockError := im_dev BS.
#[export] Instance pair_dev_laws : BlockDevLaws BS BD MockError := im_dev_laws BS eq_refl.
#[export] Instance pair_channel : ChannelLaws MAX_PEEKS Ch5 := ListChannel.laws 5.

Definition circ (k : Kind) : Circular :=
  match k with
  | KEvent => mkCircular (mkObject 7 400 0 3 None) false true
  | KData => mkCircular (mkObject 9 400 3 6 None) false true
  end.
Abbreviation MAX_DATA := 350.

Definition crc (l : list Z) : Z := foldr Z.add 7 l mod u32_size.

Lemma demo_crc_u32 l : is_u32 (crc l).
Proof. apply Z.mod_pos_bound. done. Qed.

Lemma rings_disjoint i : in_ring (circ KEvent) i → ¬ in_ring (circ KData) i.
Proof. unfold in_ring. cbn. lia. Qed.

Lemma data_len_ok : output_len_ok MAX_DATA.
Proof. done. Qed.

Abbreviation St := (StreamPairStore BD Ch5).
#[export] Instance pair_store : DispatchStore St := pair_dispatch_store BS MAX_DATA crc.
#[export] Instance pair_store_laws : DispatchStoreLaws St :=
  pair_laws BS crc demo_crc_u32 circ MAX_DATA rings_disjoint data_len_ok.

(** Uploads are not pooled, and the serializer has nothing buffered. *)
#[export] Instance plain_alloc : UploadAlloc SerializedSendable := {| alloc _ item := inl item; sendable u := u |}.
#[export] Instance plain_alloc_laws : UploadAllocLaws SerializedSendable.
Proof. intros k item. by exists item. Qed.
#[export] Instance no_flush : Flush unit := λ l, (None, l).
#[export] Instance no_flush_laws : FlushLaws unit.
Proof. done. Qed.

(** An event is a byte; it is always urgent. *)
Definition event_sendable (e now : Z) : option SerializedSendable :=
  Some (mkSendable (replicate 8 now ++ e :: replicate 341 0) 1).
Definition urgent (_ : Z) : bool := true.
Abbreviation Config := (config St SerializedSendable unit).
Abbreviation step := (dispatch_step event_sendable urgent 2 ds_item).
Abbreviation run := (rtc (λ c c' : Config, roomy c ∧ step c c')).

Definition blank : BD := readonly_from BS (new (6 * BS)).
Definition opened : St :=
  match pair_new BS (circ KData) (circ KEvent) ch_new ch_new blank with
  | (Ok p, _) => (pair_initialize p).2
  | (_, d) => mkPair d (mkStream tt (with_overwrite_support MAX_PEEKS ch_new 0 0) false (circ KData))
                       (mkStream tt (with_overwrite_support MAX_PEEKS ch_new 0 0) false (circ KEvent))
  end.
Definition empty_stream (_ : Kind) : AStream := mkAS 0 ∅ ∅ (λ _, []).

Lemma demo_circ_ok k : obj_ok BS 6 (circ_obj (circ k)).
Proof. destruct k; split; vm_compute; intuition congruence. Qed.

Lemma opened_ok : dev_wf (sp_db opened).
Proof. apply (im_ok BS eq_refl); [apply (im_device_wf BS eq_refl _ 6)|]; by vm_compute. Qed.

Lemma opened_vacant k : ring BS (circ k) (sp_db opened) 0 0 0.
Proof.
  apply ring_init; [|by destruct k; vm_compute|by destruct k; vm_compute].
  intros j b Hj. assert (n_blocks (circ_obj (circ k)) = 2) as Hn by (by destruct k). rewrite Hn in Hj.
  assert (j = 0 ∨ j = 1) as [-> | ->] by lia; destruct k; vm_compute; done.
Qed.

Lemma opened_queue k : stream_of k opened = mkStream (sp_db opened)
  (reinit_with_existing_range MAX_PEEKS (0, 0) (with_overwrite_support MAX_PEEKS ch_new 4 2)) true (circ k).
Proof. destruct k; vm_compute; reflexivity. Qed.

Lemma opened_rep : ds_rep opened (λ _, []) empty_stream.
Proof.
  exists (λ _ _, []). split; [|split; [done|]].
  - split; intros k; rewrite opened_queue.
    + constructor; [reflexivity|reflexivity| | | |].
      * apply (init_inv MAX_PEEKS ch_new 4 2 0 0); done || (unfold u32_max; lia).
      * by destruct k.
      * split; [|exact I]. split; [apply opened_ok|by vm_compute|apply demo_circ_ok|exists 0; apply opened_vacant|].
        intros n Hn. change (0 ≤ n < 0) in Hn. lia.
      * intros n Hn. change (0 ≤ n < 0) in Hn. lia.
    + intros n Hn. change (0 ≤ n < 0) in Hn. lia.
  - intros k. rewrite opened_queue. by apply (init_implements MAX_PEEKS ch_new 4 2 0 0).
Qed.

(** At most one item is stored, so the open block has room or a block is free. *)
Lemma short_room k (d : BD) r w : 0 ≤ r → w ≤ 1 → cs_room (c := circ k) d r w.
Proof.
  intros Hr Hw top Hrg. pose proof (rg_w _ _ _ _ _ _ Hrg) as [Hw0 Hw1].
  assert (fragments_per_block BS (circ_obj (circ k)) = 2) as HP by (by destruct k).
  assert (n_blocks (circ_obj (circ k)) = 2) as Hnb by (by destruct k).
  unfold room. rewrite HP, Hnb in *. destruct (decide (w < top * 2)); [by left|right].
  assert (top = 0) as -> by lia. split_and!; [lia|done|lia|]. intros b _ _. by destruct k.
Qed.

Definition short_b (c : Config) : bool :=
  forallb (λ k, let s := stream_of k (d_store (disp c)) in
    (0 <=? lower s) && (upper s <=? 1) && bool_decide (no_wrap MAX_PEEKS (queue s))) [KEvent; KData].

Lemma roomy_short (c : Config) : short_b c = true → roomy c.
Proof.
  unfold short_b. cbn [forallb]. rewrite !andb_true_r, !andb_true_iff, !Z.leb_le, !bool_decide_eq_true.
  intros [[[? ?] ?] [[? ?] ?]] k. split; [by destruct k|]. destruct k; by apply short_room.
Qed.

Lemma result_of {S E A} (m : M S E A) s r : (m s).1 = r → m s = (r, (m s).2).
Proof. intros <-. apply surjective_pairing. Qed.

(** ** The run *)

Definition peek_event_step (c : Config) : Config := go (peek_next_event (disp c)).2 (PPeekData false) c.
Definition peek_data_step (c : Config) : Config :=
  let a := after_peeks false (peek_next_data false (disp c)).2 in go a.1 a.2 c.
Definition event_step (e now : Z) (item : SerializedSendable) (c : Config) : Config :=
  go_accept KEvent item (process_event event_sendable urgent e now (disp c)).2 PPeekEvent c.
Definition receive_step (c : Config) : Config :=
  match uploads c with
  | x :: us => go_network us (x :: network c) (d_store (disp c)) (confirms c) c
  | [] => c
  end.
Definition report_step (confirmed : bool) (c : Config) : Config :=
  match network c, confirmed with
  | x :: net, true =>
      go_network (uploads c) net (confirm_confirmable x (d_store (disp c)))
        (match confirm_handle x with Some (k, h) => (k, seq_no h) :: confirms c | None => confirms c end) c
  | x :: net, false => go_network (uploads c) net (drop_confirmable x (d_store (disp c))) (confirms c) c
  | [], _ => c
  end.
Definition no_data_step (c : Config) : Config := go (disp c) (PSelect false (TxDone (inl tt))) c.
Definition again (c : Config) : Config := go (disp c) PPeekEvent c.

Ltac evaluate := vm_compute; reflexivity.
Ltac ran := apply result_of; evaluate.

Lemma run_peeks c :
  phase c = PPeekEvent → (peek_next_event (disp c)).1 = Ok false →
  (peek_next_data false (disp (peek_event_step c))).1 = Ok false →
  short_b c = true → short_b (peek_event_step c) = true → run c (peek_data_step (peek_event_step c)).
Proof.
  intros Hp H1 H2 Hs1 Hs2. eapply rtc_l, rtc_once.
  - split; [by apply roomy_short|]. apply step_peek_event; [done|by apply result_of].
  - split; [by apply roomy_short|]. eapply step_peek_data; [reflexivity|by apply result_of].
Qed.

(** The pending event is sent, taken by the network task and reported back. *)
Definition upload (confirmed : bool) (c : Config) : Config :=
  again (no_data_step (report_step confirmed (receive_step (transmit 2 KEvent (TxData true) false c)))).

Lemma run_upload confirmed c x :
  phase c = PSelect false TxEvent → pending_event (disp c) = Some x → pending_data (disp c) = None →
  uploads c = [] → network c = [] → short_b c = true → short_b (upload confirmed c) = true →
  run c (upload confirmed c).
Proof.
  intros Hph He Hd Hu Hn Hs Hs'. unfold upload.
  assert (Htx : transmit 2 KEvent (TxData true) false c =
    go_sent [x] (set_pending KEvent None (disp c)) (PSelect false (TxData true)) c).
  { unfold transmit, consume, mbind, M_bind. cbn. rewrite He. unfold is_ready. by rewrite Hu. }
  set (c1 := transmit 2 KEvent (TxData true) false c) in *.
  set (c2 := receive_step c1). set (c3 := report_step confirmed c2). set (c4 := no_data_step c3).
  assert (Hc2 : c2 = go_network [] [x] (d_store (disp c)) (confirms c) c1)
    by (unfold c2, receive_step; rewrite Htx; cbn; by rewrite Hn).
  apply (rtc_l _ _ c1); [split; [by apply roomy_short|]|].
  { by eapply step_send_event; [|exact He|unfold is_ready; rewrite Hu]. }
  apply (rtc_l _ _ c2); [split; [apply roomy_short; by rewrite Htx|]|].
  { unfold c2, receive_step. replace (uploads c1) with [x] by (by rewrite Htx).
    apply step_net_receive. by rewrite Htx. }
  apply (rtc_l _ _ c3); [split; [apply roomy_short; by rewrite Hc2, Htx|]|].
  { unfold c3, report_step. replace (network c2) with [x] by (by rewrite Hc2).
    destruct confirmed; [apply (step_net_confirm _ _ _ _ _ [] x [])|apply (step_net_drop _ _ _ _ _ [] x [])];
      by rewrite Hc2. }
  assert (H3 : phase c3 = PSelect false (TxData true) ∧ pending_data (disp c3) = None).
  { unfold c3, report_step. replace (network c2) with [x] by (by rewrite Hc2).
    destruct confirmed; rewrite Hc2, Htx; split; try done; cbn; exact Hd. }
  apply (rtc_l _ _ c4); [split; [by apply roomy_short|]|].
  { destruct H3. by apply (step_no_data _ _ _ _ c3 false true). }
  apply rtc_once. split; [by apply roomy_short|]. by apply (step_transmitted _ _ _ _ c4 false (inl tt)).
Qed.

Definition item : SerializedSendable := mkSendable (replicate 8 5 ++ 42 :: replicate 341 0) 1.
Definition started : Config := dispatch_start opened tt.
Definition stored : Config := event_step 42 5 item (peek_data_step (peek_event_step started)).
(** The upload was aborted, and the task is about to look for work. *)
Definition aborted : Config := upload false (peek_data_step (peek_event_step stored)).
Definition confirmed : Config := upload true (peek_data_step (peek_event_step aborted)).
(** A barrier was requested, and nothing is left to flush. *)
Definition requested : Config :=
  let c := peek_data_step (peek_event_step confirmed) in
  mkConfig (disp c) (phase c) (uploads c) (network c) true (accepted c) (confirms c).
Definition barrier : Config :=
  mkConfig (set_barrier true (disp requested)) PPeekEvent (uploads requested) (network requested) false
    (accepted requested) (confirms requested).
Definition flushed : Config :=
  let c := peek_data_step (peek_event_step barrier) in go (flush_one (disp c)).2 (PDrained false) c.
Definition replied : Config :=
  go (send_signal DispatchQueueEmpty (check_barrier (disp flushed)).2).2 (PSelect false TxEvent) flushed.

Lemma item_ok : ds_item KEvent item.
Proof.
  split; [done|]. split; [by apply u8s|]. by vm_compute.
Qed.

Lemma run_stored : run started stored.
Proof.
  etrans; [apply (run_peeks started); evaluate|]. apply rtc_once.
  split; [apply roomy_short; evaluate|]. eapply (step_event _ _ _ _ _ false TxEvent); [evaluate|done|exact item_ok|ran].
Qed.

Lemma run_aborted : run started aborted.
Proof.
  etrans; [apply run_stored|]. etrans; [apply (run_peeks stored); evaluate|].
  eapply run_upload; evaluate.
Qed.

Lemma run_confirmed : run started confirmed.
Proof.
  etrans; [apply run_aborted|]. etrans; [apply (run_peeks aborted); evaluate|].
  eapply run_upload; evaluate.
Qed.

Lemma run_flushed : run started flushed.
Proof.
  etrans; [apply run_confirmed|]. etrans; [apply (run_peeks confirmed); evaluate|].
  apply (rtc_l _ _ requested); [split; [apply roomy_short; evaluate|]|].
  { exact (step_request _ _ _ _ (peek_data_step (peek_event_step confirmed))). }
  apply (rtc_l _ _ barrier); [split; [apply roomy_short; evaluate|]|].
  { by eapply (step_barrier _ _ _ _ requested false TxEvent); [evaluate|]. }
  etrans; [apply (run_peeks barrier); evaluate|]. apply rtc_once.
  split; [apply roomy_short; evaluate|]. eapply (step_flushed _ _ _ _ _ false false); [evaluate|ran].
Qed.

Lemma replied_step : step flushed replied.
Proof.
  eapply (step_drained _ _ _ _ _ false); [evaluate|ran|ran].
Qed.

(** ** Witnesses *)

Definition from_zero (_ : Kind) : Z := 0.

Lemma started_empty k : as_next (empty_stream k) = from_zero k.
Proof. reflexivity. Qed.

Lemma dispatch_conserves_witness :
  ∃ hs A, ds_rep (d_store (disp aborted)) hs A ∧ 0 ∈ as_live (A KEvent) ∧
    as_msg (A KEvent) 0 = replicate 8 5 ++ [42].
Proof.
  destruct (dispatch_conserves event_sendable urgent 2 from_zero opened tt (λ _, []) empty_stream aborted
    opened_rep (λ _, eq_refl) started_empty run_aborted) as (hs & A & Hrep & Hacc & _).
  exists hs, A. split; [exact Hrep|].
  destruct (Hacc KEvent 0%nat (replicate 8 5 ++ [42])) as [Hm Hl]; [evaluate|].
  split; [|exact Hm]. apply Hl. replace (confirms aborted) with (@nil (Kind * Z)) by evaluate. apply not_elem_of_nil.
Defined.

Lemma barrier_reply_means_confirmed_witness :
  step flushed replied ∧ (KEvent, 0) ∈ confirms flushed.
Proof.
  split; [exact replied_step|].
  destruct (barrier_reply_means_confirmed event_sendable urgent 2 from_zero opened tt (λ _, []) empty_stream
    flushed replied [DispatchQueueEmpty] opened_rep (λ _, eq_refl) started_empty run_flushed)
    as (_ & _ & _ & _ & Hall); [apply roomy_short; evaluate|exact replied_step|evaluate|].
  apply Hall. replace (len (accepted flushed KEvent)) with 1 by evaluate. done.
Defined.

Lemma unconfirmed_event_is_picked_up_witness :
  ∃ d x h, step aborted (go d (PPeekData false) aborted) ∧ pending_event d = Some x ∧
    confirm_handle x = Some (KEvent, h).
Proof.
  destruct (unconfirmed_event_is_picked_up event_sendable urgent 2 from_zero opened tt (λ _, []) empty_stream
    aborted 0 (replicate 8 5 ++ [42]) opened_rep (λ _, eq_refl) started_empty run_aborted)
    as (d & x & h & H1 & H2 & H3 & _); [evaluate..| |].
  - replace (confirms aborted) with (@nil (Kind * Z)) by evaluate. apply not_elem_of_nil.
  - exists d, x, h. split; [exact H1|]. split; [exact H2|exact H3].
Defined.

(** A write of the next store fails half way. *)
Definition faulty : Dispatch St SerializedSendable unit :=
  let p := opened in
  mkDispatch (mkPair (set_flash (trigger_write_error_after 1 (mkMockError Other) (flash (sp_db p))) (sp_db p))
    (sp_sensor_data p) (sp_events p)) None None false tt [].

Lemma store_failure_keeps_event_witness :
  ∃ u d', process_event event_sendable urgent 42 5 faulty = (Ok tt, d') ∧ sendable u = item ∧
    pending_event d' = Some (with_no_retry u).
Proof.
  destruct (ds_store KEvent item (d_store faulty)) as [[n|e|] st'] eqn:Hst.
  { exfalso. apply (f_equal fst) in Hst. vm_compute in Hst. discriminate. }
  2: { exfalso. apply (f_equal fst) in Hst. vm_compute in Hst. discriminate. }
  destruct (store_failure_keeps_event event_sendable urgent 42 5 item e st' faulty eq_refl Hst)
    as (u & d' & H1 & H2 & H3 & _).
  exists u, d'. split; [exact H1|]. split; [exact H2|exact H3].
Defined.
End DemoDispatch.
