(* ===== verification/Firmware.v ===== *)
(** * Firmware images

    [meta/section_header.rs], [meta/firmware.rs], [meta/firmware/v2.rs] and the
    parts of [utils/crypto.rs] they use: the header of a firmware image, the
    streaming [Validator] and [sign].  SHA-256 and ECDSA are the classes [Crypto]
    and [CryptoLaws]; a [Hasher] is the bytes it was fed, since a digest depends
    on their concatenation only.  The validator is generic in the header format
    ([ApplicationHeader]), as in the code; the V2 header is its instance. *)

From stdpp Require Import base list list_numbers numbers option.
From S2P Require Import Prelude Samples Serialize.

(** ** Section headers *)

Inductive Header : Type := AppMetaV2 | Config | BootloaderMeta.

Definition HEADER_MASK : Z := 0x55.
Definition M_HEADER_IMG_V2 : list Z := (λ b, Z.lxor b HEADER_MASK) <$> [0x4A; 0x54; 0x52; 0x02].
Definition M_HEADER_CFG : list Z := (λ b, Z.lxor b HEADER_MASK) <$> [0x4A; 0x54; 0x52; 0x10].
Definition M_HEADER_BOOT_META : list Z := (λ b, Z.lxor b HEADER_MASK) <$> [0x4A; 0x54; 0x52; 0x08].

Definition header (h : Header) : list Z :=
  let header_bytes := match h with
    | AppMetaV2 => M_HEADER_IMG_V2
    | Config => M_HEADER_CFG
    | BootloaderMeta => M_HEADER_BOOT_META
    end in
  (λ b, Z.lxor HEADER_MASK b) <$> header_bytes.

(** ** Cryptography *)

(** What the code uses of the crates [sha2] and [p256]. *)
Class Crypto : Type := {
  p256_Signature : Type;
  VerifyingKey : Type;
  SigningKey : Type;
  sha256 : list Z → list Z;
  sig_from_slice : list Z → option p256_Signature;
  sig_to_bytes : p256_Signature → list Z;
  verify_prehash : VerifyingKey → list Z → p256_Signature → bool;
  sign_recoverable : SigningKey → list Z → option p256_Signature;
  verifying_key : SigningKey → VerifyingKey;
}.

Class CryptoLaws {Cr : Crypto} : Prop := {
  sha256_len : ∀ l, len (sha256 l) = 32;
  sig_len : ∀ s, len (sig_to_bytes s) = 64;
  sig_u8 : ∀ s, Forall is_u8 (sig_to_bytes s);
  sig_roundtrip : ∀ s, sig_from_slice (sig_to_bytes s) = Some s;
  sign_verifies : ∀ k data s, sign_recoverable k data = Some s →
    verify_prehash (verifying_key k) (sha256 data) s = true;
}.

Definition Hash_BINARY_SIZE : Z := 32.
Definition Signature_BINARY_SIZE : Z := 64.

(** ** Security levels and errors *)

Inductive SecurityLevel : Type := LevelNone | LevelIntegrityOnly | LevelSigned.
#[export] Instance SecurityLevel_eq_dec : EqDecision SecurityLevel.
Proof. solve_decision. Defined.

Definition level_as_u8 (l : SecurityLevel) : Z :=
  match l with LevelNone => 0 | LevelIntegrityOnly => 1 | LevelSigned => 2 end.
Definition level_try_from (b : Z) : option SecurityLevel :=
  if b =? 0 then Some LevelNone else if b =? 1 then Some LevelIntegrityOnly
  else if b =? 2 then Some LevelSigned else None.
(** The derived [PartialOrd]. *)
Definition level_lt (a b : SecurityLevel) : bool := level_as_u8 a <? level_as_u8 b.

Inductive ApplicationHeaderError : Type :=
| TooFewBytes | InvalidHeader | InvalidSecurityLevel | InvalidSecurityTag | InvalidLength | InvalidDeviceType.
Inductive SignError : Type :=
| SignError_InvalidImage (e : ApplicationHeaderError)
| SignError_Signing.
Inductive ValidationError : Type :=
| Incomplete
| Invalid (e : ApplicationHeaderError)
| SecurityTooLow (level : SecurityLevel)
| Downgrade (version : Z)
| Integrity
| SignatureInvalid.

(** Rust's trait [DeviceType]. *)
Class DeviceType (D : Type) : Type := {
  device_eq_dec :: EqDecision D;
  to_byte : D → Z;
  try_from_byte : Z → option D;
}.
Class DeviceTypeLaws (D : Type) `{!DeviceType D} : Prop := {
  to_byte_u8 : ∀ d, is_u8 (to_byte d);
  byte_roundtrip : ∀ d, try_from_byte (to_byte d) = Some d;
  byte_unique : ∀ b d, try_from_byte b = Some d → to_byte d = b;
}.

Section crypto.
Context {Cr : Crypto}.

Inductive Security : Type :=
| SecNone
| SecIntegrityOnly (length : Z) (hash : list Z)
| SecSigned (length : Z) (signature : p256_Signature).

Definition level (s : Security) : SecurityLevel :=
  match s with SecNone => LevelNone | SecIntegrityOnly _ _ => LevelIntegrityOnly | SecSigned _ _ => LevelSigned end.

(** [Hash::try_from_bytes] and [Signature::try_from_bytes] *)
Definition hash_try_from_bytes (bytes : list Z) : option (list Z) :=
  if len bytes <? Hash_BINARY_SIZE then None else Some (slice 0 Hash_BINARY_SIZE bytes).
Definition signature_try_from_bytes (bytes : list Z) : option p256_Signature :=
  if len bytes <? Signature_BINARY_SIZE then None
  else sig_from_slice (slice 0 Signature_BINARY_SIZE bytes).

(** [Hasher]: new, update and hash *)
Definition hasher_new : list Z := [].
Definition hasher_update (bytes hasher : list Z) : list Z := hasher ++ bytes.
Definition hasher_hash (hasher : list Z) : list Z := sha256 hasher.

(** [PubKey::verify] *)
Definition pubkey_verify {S E} (key : VerifyingKey) (hash : list Z) (s : p256_Signature) : M S E bool :=
  assert (len hash =? 32);;
  mret (verify_prehash key hash s).
End crypto.

(** Run [m] on the sub-slice [lo..hi] of a buffer. *)
Definition on_range {E A} (lo hi : Z) (m : M (list Z) E A) : M (list Z) E A := λ buf,
  if (lo <=? hi) && (hi <=? len buf)
  then let '(r, sub) := m (slice lo hi buf) in (r, splice_at lo sub buf)
  else (Panic, buf).

(** ** The trait [ApplicationHeader] *)

Class ApplicationHeader {Cr : Crypto} (H D : Type) `{!DeviceType D} : Type := {
  BINARY_SIZE : Z;
  BINARY_SIZE_RAW : Z;
  BINARY_SIZE_AUTH : Z;
  try_from_bytes : M (list Z) ApplicationHeaderError H;
  as_bytes : H → M (list Z) ApplicationHeaderError unit;
  authenticated_fields_as_bytes : H → M (list Z) ApplicationHeaderError unit;
  write_signature : Z → p256_Signature → H → H;
  security : H → Security;
  device_type : H → D;
  anti_downgrade_version : H → Z;
}.
Arguments BINARY_SIZE {_} H {D _ _}.
Arguments BINARY_SIZE_RAW {_} H {D _ _}.
Arguments BINARY_SIZE_AUTH {_} H {D _ _}.

(** The default method [length]. *)
Definition header_length {Cr : Crypto} (s : Security) : option Z :=
  match s with SecNone => None | SecIntegrityOnly l _ | SecSigned l _ => Some l end.

Definition MAX_AUTH_FIELD_BYTES : Z := 16.

(** ** The V2 header *)

Module V2.
Definition BINARY_SIZE_RAW : Z := 76.
Definition BINARY_SIZE_AUTH : Z := 5.
Definition BINARY_SIZE : Z := BINARY_SIZE_RAW + BINARY_SIZE_AUTH.

Section v2.
Context {Cr : Crypto} {D : Type} `{!DeviceType D}.

Record ApplicationHeader : Type := mkHeader {
  h_security : Security;
  h_anti_downgrade_version : Z;
  h_device_type : D
}.

Definition placeholder (device_type : D) : ApplicationHeader := mkHeader SecNone 0 device_type.

Definition write_signature (application_total_length : Z) (signature : p256_Signature)
    (h : ApplicationHeader) : ApplicationHeader :=
  mkHeader (SecSigned application_total_length signature) (h_anti_downgrade_version h) (h_device_type h).

Definition authenticated_fields_as_bytes (h : ApplicationHeader) : M (list Z) ApplicationHeaderError unit :=
  n ← gets len;
  if n <? BINARY_SIZE_AUTH then fail TooFewBytes
  else
    put_slice 0 (le_bytes 4 (h_anti_downgrade_version h));;
    put_slice 4 [to_byte (h_device_type h)].

(** The security tag, a hash or a signature. *)
Definition tag (s : Security) : list Z :=
  match s with SecNone => [] | SecIntegrityOnly _ hash => hash | SecSigned _ sg => sig_to_bytes sg end.

Definition as_bytes (h : ApplicationHeader) : M (list Z) ApplicationHeaderError unit :=
  n ← gets len;
  if n <? BINARY_SIZE then fail TooFewBytes
  else on_range 0 BINARY_SIZE (
    modify (λ b, replicate (length b) 0);;
    put_slice 0 (header AppMetaV2);;
    put_slice 4 [level_as_u8 (level (h_security h))];;
    let length := default 0 (header_length (h_security h)) in
    put_slice 8 (le_bytes 4 (as_u32 length));;
    put_slice 12 (tag (h_security h));;
    on_range BINARY_SIZE_RAW BINARY_SIZE (authenticated_fields_as_bytes h)).

Definition try_from_bytes : M (list Z) ApplicationHeaderError ApplicationHeader :=
  n ← gets len;
  if n <? BINARY_SIZE then fail TooFewBytes
  else
    magic ← get_slice 0 4;
    if negb (bool_decide (magic = header AppMetaV2)) then fail InvalidHeader
    else
      lv ← get_slice 4 5;
      security_level ← match level_try_from (le_val lv) with
                       | Some l => mret l
                       | None => fail InvalidSecurityLevel
                       end;
      lb ← get_slice 8 12;
      let length := le_val lb in
      tb ← get_slice 12 76;
      security ← match security_level with
                 | LevelNone => mret SecNone
                 | _ =>
                     if length =? 0 then fail InvalidLength
                     else match security_level with
                          | LevelNone => mret SecNone
                          | LevelIntegrityOnly =>
                              match hash_try_from_bytes tb with
                              | Some hash => mret (SecIntegrityOnly length hash)
                              | None => fail InvalidSecurityTag
                              end
                          | LevelSigned =>
                              match signature_try_from_bytes tb with
                              | Some sg => mret (SecSigned length sg)
                              | None => fail InvalidSecurityTag
                              end
                          end
                 end;
      vb ← get_slice 76 80;
      db ← get_slice 80 81;
      match try_from_byte (le_val db) with
      | Some d => mret (mkHeader security (le_val vb) d)
      | None => fail InvalidDeviceType
      end.
End v2.
Arguments ApplicationHeader {_} D.

(** [impl super::ApplicationHeader for ApplicationHeader<D>] *)
#[global] Instance application_header {Cr : Crypto} D `{!DeviceType D} :
    Firmware.ApplicationHeader (ApplicationHeader D) D := {|
  Firmware.BINARY_SIZE := BINARY_SIZE;
  Firmware.BINARY_SIZE_RAW := BINARY_SIZE_RAW;
  Firmware.BINARY_SIZE_AUTH := BINARY_SIZE_AUTH;
  Firmware.try_from_bytes := try_from_bytes;
  Firmware.as_bytes := as_bytes;
  Firmware.authenticated_fields_as_bytes := authenticated_fields_as_bytes;
  Firmware.write_signature := write_signature;
  Firmware.security := h_security;
  Firmware.device_type := h_device_type;
  Firmware.anti_downgrade_version := h_anti_downgrade_version;
|}.
End V2.

(** ** The validator *)

Section validator.
Context {Cr : Crypto} {H D : Type} `{!DeviceType D, !ApplicationHeader H D}.

Inductive ValidatorState : Type :=
| VInit (buffer : list Z)
| NeedMoreData (meta : H) (hasher : list Z)
| Complete (meta : H) (hash : list Z)
| VFail (e : ApplicationHeaderError).

Record Validator : Type := mkValidator {
  signing_key : VerifyingKey;
  min_security : SecurityLevel;
  v_device_type : D;
  state : ValidatorState;
  n_bytes : Z
}.

Definition set_state (st : ValidatorState) (v : Validator) : Validator :=
  mkValidator (signing_key v) (min_security v) (v_device_type v) st (n_bytes v).
Definition set_n_bytes (n : Z) (v : Validator) : Validator :=
  mkValidator (signing_key v) (min_security v) (v_device_type v) (state v) n.

Definition new_raw_buffer : list Z := replicate (Z.to_nat (BINARY_SIZE H)) 0.
Definition validator_new (key : VerifyingKey) (min : SecurityLevel) (dt : D) : Validator :=
  mkValidator key min dt (VInit new_raw_buffer) 0.
Definition validator_reset (v : Validator) : Validator :=
  validator_new (signing_key v) (min_security v) (v_device_type v).

Abbreviation MV := (M Validator Empty_set).

(** The header is parsed: the next state. *)
Definition parse_header (buffer : list Z) : MV ValidatorState :=
  match (try_from_bytes buffer).1 with
  | Ok meta => mret (NeedMoreData meta hasher_new)
  | Err e => mret (VFail e)
  | Panic => panic
  end.

(** The authenticated fields of the header, as they are hashed. *)
Definition auth_bytes (meta : H) : MV (list Z) :=
  header_bytes ← range_of 0 (BINARY_SIZE_AUTH H) (replicate (Z.to_nat MAX_AUTH_FIELD_BYTES) 0);
  match authenticated_fields_as_bytes meta header_bytes with
  | (Ok _, hb) => mret hb
  | _ => panic (* [unwrap] *)
  end.

(** One turn of the loop of [update]: [inl] is the value it returns, [inr] the
    number of bytes it processed. *)
Definition update_turn (application_bytes : list Z) : MV (bool + Z) :=
  st ← gets state;
  n ← gets n_bytes;
  match st with
  | VInit buffer =>
      remaining ← usize_sub (BINARY_SIZE H) n;
      let bytes_processed := Z.min remaining (len application_bytes) in
      buffer ← (if n + bytes_processed <=? len buffer
                then mret (splice_at n (slice 0 bytes_processed application_bytes) buffer) else panic);
      (if bytes_processed =? remaining
       then modify (set_n_bytes 0);; st' ← parse_header buffer; modify (set_state st')
       else modify (set_state (VInit buffer)));;
      mret (inr bytes_processed)
  | NeedMoreData meta hasher =>
      match header_length (security meta) with
      | None => modify (set_state (Complete meta (hasher_hash hasher)));; mret (inl true)
      | Some n_bytes_required =>
          if n_bytes_required <? n
          then modify (set_state (VFail InvalidLength));; mret (inl true)
          else
            let remaining := n_bytes_required - n in
            let bytes_processed := Z.min remaining (len application_bytes) in
            hasher ← (if n =? BINARY_SIZE H
                      then hb ← auth_bytes meta; mret (hasher_update hb hasher)
                      else mret hasher);
            let hasher := hasher_update (slice 0 bytes_processed application_bytes) hasher in
            modify (set_state (if bytes_processed =? remaining
                               then Complete meta (hasher_hash hasher)
                               else NeedMoreData meta hasher));;
            mret (inr bytes_processed)
      end
  | Complete _ _ | VFail _ => mret (inl true)
  end.

(** The loop takes at most three turns: header, data, end. *)
Fixpoint update_loop (fuel : nat) (application_bytes : list Z) : MV bool :=
  match fuel with
  | O => panic
  | S fuel =>
      r ← update_turn application_bytes;
      match r with
      | inl result => mret result
      | inr bytes_processed =>
          modify (λ v, set_n_bytes (n_bytes v + bytes_processed) v);;
          let rest := drop (Z.to_nat bytes_processed) application_bytes in
          if (bytes_processed =? 0) || (len rest =? 0) then mret false
          else update_loop fuel rest
      end
  end.

Definition update : list Z → MV bool := update_loop 4.

Definition validate_update (existing_application : option H) : M Validator ValidationError H :=
  st ← gets state;
  match st with
  | VInit _ | NeedMoreData _ _ => fail Incomplete
  | VFail meta_error => fail (Invalid meta_error)
  | Complete meta hash =>
      let lv := level (security meta) in
      let min_version := default 0 (anti_downgrade_version <$> existing_application) in
      let version := anti_downgrade_version meta in
      dt ← gets v_device_type;
      if negb (bool_decide (device_type meta = dt)) then fail (Invalid InvalidDeviceType)
      else
        min ← gets min_security;
        if level_lt lv min then fail (SecurityTooLow lv)
        else if version <? min_version then fail (Downgrade version)
        else
          match security meta with
          | SecNone => mret meta
          | SecIntegrityOnly _ ref_hash =>
              if bool_decide (ref_hash = hash) then mret meta else fail Integrity
          | SecSigned _ ref_signature =>
              key ← gets signing_key;
              ok ← pubkey_verify key hash ref_signature;
              if ok : bool then mret meta else fail SignatureInvalid
          end
  end.
Definition verify : M Validator ValidationError H := validate_update None.
Definition allow_update_from (existing_application : H) : M Validator ValidationError H :=
  validate_update (Some existing_application).

Definition data_hash : M Validator ValidationError (list Z) :=
  st ← gets state;
  match st with
  | VInit _ | NeedMoreData _ _ => fail Incomplete
  | VFail meta_error => fail (Invalid meta_error)
  | Complete _ hash => mret hash
  end.

(** ** [sign] *)

Definition sign (key : SigningKey) : M (list Z) SignError unit :=
  header ← map_err SignError_InvalidImage try_from_bytes;
  total ← gets len;
  payload ← get_slice (BINARY_SIZE_RAW H) total;
  signature ← match sign_recoverable key payload with
              | Some s => mret s
              | None => fail SignError_Signing
              end;
  map_err SignError_InvalidImage
    (on_range 0 (BINARY_SIZE H) (as_bytes (write_signature total signature header))).
End validator.
Arguments ValidatorState : clear implicits.
Arguments Validator {_} H D.
