(* ===== verification/FirmwareProps.v ===== *)
(** * Firmware images: properties

    The streaming validator against a definition on the whole image, what a
    positive verdict means, that a signed image is accepted, and where slices of
    an image may not be cut. *)

From stdpp Require Import base list list_numbers numbers option.
From S2P Require Import Prelude Samples SamplesFacts Serialize Firmware.

(** ** Firmware headers: what the codec computes

    The laws of a header format that the validator relies on
    ([ApplicationHeaderLaws]), and their proof for the V2 header. *)

(** A parse depends on the header only; the authenticated fields are the last
    bytes of the header; writing a signature keeps them and parses back. *)
Class ApplicationHeaderLaws {Cr : Crypto} (H D : Type) `{!DeviceType D, !ApplicationHeader H D} : Prop := {
  sizes_law : 0 < BINARY_SIZE_RAW H ∧ 0 ≤ BINARY_SIZE_AUTH H ≤ MAX_AUTH_FIELD_BYTES ∧
    BINARY_SIZE H = BINARY_SIZE_RAW H + BINARY_SIZE_AUTH H;
  parse_total : ∀ b, ∃ r, try_from_bytes (H := H) b = (r, b) ∧ r ≠ Panic;
  parse_prefix : ∀ b b', len b = BINARY_SIZE H →
    (try_from_bytes (H := H) (b ++ b')).1 = (try_from_bytes (H := H) b).1;
  auth_law : ∀ b h buf, len b = BINARY_SIZE H → Forall is_u8 b → try_from_bytes b = (Ok h, b) →
    len buf = BINARY_SIZE_AUTH H →
    authenticated_fields_as_bytes h buf = (Ok tt, slice (BINARY_SIZE_RAW H) (BINARY_SIZE H) b);
  write_law : ∀ b h buf n s, len b = BINARY_SIZE H → Forall is_u8 b → try_from_bytes b = (Ok h, b) →
    0 < n < u32_size → len buf = BINARY_SIZE H →
    ∃ out, as_bytes (write_signature n s h) buf = (Ok tt, out) ∧ len out = BINARY_SIZE H ∧
      Forall is_u8 out ∧ try_from_bytes out = (Ok (write_signature n s h), out) ∧
      slice (BINARY_SIZE_RAW H) (BINARY_SIZE H) out = slice (BINARY_SIZE_RAW H) (BINARY_SIZE H) b;
  version_law : ∀ b h, Forall is_u8 b → try_from_bytes b = (Ok h, b) → is_u32 (anti_downgrade_version h);
  write_fields : ∀ h n s, security (write_signature n s h) = SecSigned n s ∧
    device_type (write_signature n s h) = device_type h ∧
    anti_downgrade_version (write_signature n s h) = anti_downgrade_version h;
}.

(** ** Slices *)

Lemma slice_app_prefix {A} lo hi (l k : list A) : 0 ≤ lo → hi ≤ len l → slice lo hi (l ++ k) = slice lo hi l.
Proof.
  unfold slice, len. intros Hlo Hh. destruct (decide (hi ≤ lo)).
  { replace (Z.to_nat (hi - lo)) with 0%nat by lia. done. }
  rewrite drop_app, take_app, length_drop.
  replace (Z.to_nat (hi - lo) - (length l - Z.to_nat lo))%nat with 0%nat by lia.
  by rewrite take_0, app_nil_r.
Qed.

Lemma slice_slice {A} lo mid hi (l : list A) :
  0 ≤ lo ≤ mid → mid ≤ hi → slice lo mid l ++ slice mid hi l = slice lo hi l.
Proof.
  intros ??. unfold slice. replace (Z.to_nat mid) with (Z.to_nat lo + Z.to_nat (mid - lo))%nat by lia.
  rewrite <-drop_drop. replace (Z.to_nat (hi - lo)) with (Z.to_nat (mid - lo) + Z.to_nat (hi - mid))%nat by lia.
  set (k := drop _ l). rewrite <-(take_drop (Z.to_nat (mid - lo)) k) at 3.
  destruct (decide (length k ≤ Z.to_nat (mid - lo))%nat).
  - rewrite !(drop_ge k) by done. rewrite take_nil, !app_nil_r. rewrite take_take. f_equal. lia.
  - rewrite take_app, length_take, take_take. f_equal; f_equal; lia.
Qed.

Lemma put_slice_at {E} off data p x s (buf buf' : list Z) :
  buf = p ++ x ++ s → buf' = p ++ data ++ s → len p = off → len x = len data →
  put_slice (E := E) off data buf = (Ok tt, buf').
Proof. intros -> -> Ho Hx. apply put_slice_app; [done|]. unfold len in Hx. lia. Qed.

(** ** The V2 header *)

Module V2Facts.
Import V2.
Section v2.
Context `{Cr : Crypto, !CryptoLaws} {D : Type} `{!DeviceType D, !DeviceTypeLaws D}.
Abbreviation Hd := (V2.ApplicationHeader D).

Definition security_ok (s : Security) : Prop :=
  match s with
  | SecNone => True
  | SecIntegrityOnly n hash => 0 < n < u32_size ∧ len hash = 32 ∧ Forall is_u8 hash
  | SecSigned n _ => 0 < n < u32_size
  end.
Definition header_ok (h : Hd) : Prop := security_ok (h_security h) ∧ is_u32 (h_anti_downgrade_version h).

(** The bytes of a header. *)
Definition tag_field (s : Security) : list Z := tag s ++ replicate (64 - length (tag s)) 0.
Definition auth_field (h : Hd) : list Z :=
  le_bytes 4 (h_anti_downgrade_version h) ++ [to_byte (h_device_type h)].
Definition image (h : Hd) : list Z :=
  header AppMetaV2 ++ [level_as_u8 (level (h_security h))] ++ [0; 0; 0] ++
  le_bytes 4 (as_u32 (default 0 (header_length (h_security h)))) ++ tag_field (h_security h) ++ auth_field h.

Lemma tag_len s : security_ok s → (length (tag s) ≤ 64)%nat.
Proof.
  destruct s as [|n hash|n sg]; cbn; [lia| |].
  - unfold len. lia.
  - intros _. pose proof (sig_len sg). unfold len in *. lia.
Qed.

Lemma len_tag_field s : security_ok s → len (tag_field s) = 64.
Proof. intros Hs%tag_len. unfold tag_field, len. rewrite length_app, length_replicate. lia. Qed.

Lemma len_image h : security_ok (h_security h) → len (image h) = BINARY_SIZE.
Proof.
  intros Hs%len_tag_field. unfold image, auth_field. rewrite !len_app, Hs. unfold len. rewrite !length_le_bytes. done.
Qed.

Lemma auth_fields_run h buf :
  len buf = BINARY_SIZE_AUTH → authenticated_fields_as_bytes h buf = (Ok tt, auth_field h).
Proof.
  intros Hl. unfold authenticated_fields_as_bytes, mbind, M_bind, gets. rewrite Hl, Z.ltb_irrefl.
  do 5 (destruct buf as [|? buf]; [done|]).
  destruct buf; [|rewrite !len_cons in Hl; pose proof (len_nonneg buf); unfold BINARY_SIZE_AUTH in Hl; lia].
  reflexivity.
Qed.

Lemma as_bytes_run h buf :
  security_ok (h_security h) → len buf = BINARY_SIZE → as_bytes h buf = (Ok tt, image h).
Proof.
  intros Hs Hl. unfold as_bytes, mbind, M_bind, gets. rewrite Hl, Z.ltb_irrefl.
  unfold on_range at 1. rewrite !(proj2 (Z.leb_le _ _)) by (rewrite ?Hl; done). cbn [andb].
  rewrite slice_all by lia. unfold modify.
  assert (length buf = 81%nat) as Hb by (change BINARY_SIZE with 81 in Hl; unfold len in Hl; lia). rewrite Hb.
  pose proof (tag_len _ Hs) as Ht. pose proof (len_image h Hs) as Hi. unfold image in Hi |- *.
  set (s := h_security h) in *. set (lv := [level_as_u8 (level s)]) in *.
  set (lb := le_bytes 4 _) in *. assert (Hlb : len lb = 4) by (unfold lb, len; by rewrite length_le_bytes).
  set (p4 := header AppMetaV2 ++ lv ++ [0; 0; 0]).
  rewrite (put_slice_at 0 _ [] (replicate 4 0) (replicate 77 0) _ (header AppMetaV2 ++ replicate 77 0)) by done.
  rewrite (put_slice_at 4 _ (header AppMetaV2) [0] (replicate 76 0) _ (header AppMetaV2 ++ lv ++ replicate 76 0)) by done.
  rewrite (put_slice_at 8 _ p4 (replicate 4 0) (replicate 69 0) _ (p4 ++ lb ++ replicate 69 0)) by done.
  rewrite (put_slice_at 12 _ (p4 ++ lb) (replicate (length (tag s)) 0)
    (replicate (64 - length (tag s)) 0 ++ replicate 5 0) _ ((p4 ++ lb ++ tag_field s) ++ replicate 5 0 ++ [])).
  2: { rewrite <-(assoc_L (++)). do 2 f_equal. rewrite (assoc_L (++) (replicate _ _)), <-replicate_add.
       replace (length (tag s) + (64 - length (tag s)))%nat with 64%nat by lia. by rewrite <-replicate_add. }
  2: { unfold tag_field. by rewrite app_nil_r, <-!(assoc_L (++)). }
  2: { by rewrite len_app, Hlb. }
  2: { unfold len. by rewrite length_replicate. }
  assert (Hp : len (p4 ++ lb ++ tag_field s) = 76) by (rewrite !len_app, Hlb, (len_tag_field s Hs); done).
  unfold on_range. rewrite (len_app (p4 ++ lb ++ tag_field s)), Hp.
  change ((BINARY_SIZE_RAW <=? BINARY_SIZE) && (BINARY_SIZE <=? 76 + len (replicate 5 0 ++ []))) with true. cbv iota.
  rewrite (slice_mid BINARY_SIZE_RAW BINARY_SIZE) by (rewrite ?Hp; done).
  rewrite auth_fields_run by done. rewrite (splice_app 76) by (done || (unfold auth_field; by rewrite length_app, length_le_bytes)).
  rewrite app_nil_r. f_equal. unfold splice_at. change (Z.to_nat 0) with 0%nat. rewrite take_0.
  unfold p4. rewrite <-!(assoc_L (++)). rewrite drop_ge, app_nil_l, app_nil_r; [done|].
  rewrite Hb. change BINARY_SIZE with 81 in Hi. unfold len in Hi. lia.
Qed.

(** ** Parsing *)

(** The security field, from the level, the length and the 64 bytes of the tag. *)
Definition parse_security (lv n : Z) (tb : list Z) : Security + ApplicationHeaderError :=
  match level_try_from lv with
  | None => inr InvalidSecurityLevel
  | Some LevelNone => inl SecNone
  | Some l =>
      if n =? 0 then inr InvalidLength
      else match l with
           | LevelNone => inl SecNone
           | LevelIntegrityOnly => if hash_try_from_bytes tb is Some hash then inl (SecIntegrityOnly n hash) else inr InvalidSecurityTag
           | LevelSigned => if signature_try_from_bytes tb is Some sg then inl (SecSigned n sg) else inr InvalidSecurityTag
           end
  end.

Definition parse (b : list Z) : outcome ApplicationHeaderError Hd :=
  if len b <? BINARY_SIZE then Err TooFewBytes
  else if negb (bool_decide (slice 0 4 b = header AppMetaV2)) then Err InvalidHeader
  else match parse_security (le_val (slice 4 5 b)) (le_val (slice 8 12 b)) (slice 12 76 b) with
       | inr e => Err e
       | inl sec =>
           match try_from_byte (le_val (slice 80 81 b)) with
           | Some d => Ok (mkHeader sec (le_val (slice 76 80 b)) d)
           | None => Err InvalidDeviceType
           end
       end.

Lemma try_from_bytes_run b : try_from_bytes b = (parse b, b).
Proof.
  unfold try_from_bytes, parse, parse_security, mbind, M_bind, gets. destruct (Z.ltb_spec (len b) BINARY_SIZE); [done|].
  change BINARY_SIZE with 81 in *. rewrite get_slice_run by lia. destruct (negb _); [done|].
  rewrite get_slice_run by lia. unfold mret, M_ret. destruct (level_try_from _) as [l|]; [|done].
  do 2 (rewrite get_slice_run by lia; cbv beta iota zeta). set (n := le_val (slice 8 12 b)).
  assert (Hend : ∀ sec : Security,
    match get_slice 76 80 b with
    | (Ok vb, s) =>
        match get_slice 80 81 s with
        | (Ok db, s') =>
            match try_from_byte (le_val db) with
            | Some d => λ s : list Z, (Ok (mkHeader sec (le_val vb) d), s)
            | None => fail InvalidDeviceType
            end s'
        | (Err e, s') => (Err e, s')
        | (Panic, s') => (Panic, s')
        end
    | (Err e, s) => (Err e, s)
    | (Panic, s) => (Panic, s)
    end =
    (match try_from_byte (le_val (slice 80 81 b)) with
     | Some d => Ok (mkHeader sec (le_val (slice 76 80 b)) d)
     | None => Err InvalidDeviceType
     end, b)).
  { intros sec. do 2 (rewrite get_slice_run by lia; cbv beta iota). by destruct (try_from_byte _). }
  destruct l; [apply Hend| |]; (destruct (n =? 0); [done|]).
  - destruct (hash_try_from_bytes _); [apply Hend|done].
  - destruct (signature_try_from_bytes _); [apply Hend|done].
Qed.

Lemma parse_app b b' : len b = BINARY_SIZE → parse (b ++ b') = parse b.
Proof.
  intros Hl. unfold parse. rewrite len_app, Hl. pose proof (len_nonneg b').
  rewrite !(proj2 (Z.ltb_ge _ _)) by lia. by rewrite !slice_app_prefix by (rewrite ?Hl; done).
Qed.

Lemma parse_Ok b h :
  parse b = Ok h →
  BINARY_SIZE ≤ len b ∧ h_anti_downgrade_version h = le_val (slice 76 80 b) ∧
  try_from_byte (le_val (slice 80 81 b)) = Some (h_device_type h).
Proof.
  unfold parse. destruct (Z.ltb_spec (len b) BINARY_SIZE); [done|]. destruct (negb _); [done|].
  destruct (parse_security _ _ _) as [sec|]; [|done]. destruct (try_from_byte _) eqn:Hd; [|done]. by intros [= <-].
Qed.

Lemma parse_auth b h :
  Forall is_u8 b → parse b = Ok h → auth_field h = slice BINARY_SIZE_RAW BINARY_SIZE b.
Proof.
  intros Hu Hp. destruct (parse_Ok b h Hp) as (Hl & Hv & Hd). change BINARY_SIZE with 81 in *.
  change BINARY_SIZE_RAW with 76. rewrite <-(slice_slice 76 80 81) by lia. unfold auth_field. f_equal.
  - rewrite Hv. replace 4%nat with (length (slice 76 80 b)) by (rewrite length_slice by lia; done).
    apply le_bytes_le_val. by apply Forall_slice.
  - apply byte_unique in Hd. rewrite Hd.
    pose proof (length_slice 80 81 b ltac:(lia) ltac:(lia)) as H1. destruct (slice 80 81 b) as [|x [|]]; [done| |done].
    cbn. f_equal. lia.
Qed.

Lemma parse_image h : header_ok h → parse (image h) = Ok h.
Proof.
  intros [Hs Hv]. unfold parse. rewrite (len_image h Hs), Z.ltb_irrefl. pose proof (len_tag_field _ Hs) as Ht.
  unfold image. set (lv := [level_as_u8 (level (h_security h))]). set (lb := le_bytes 4 (as_u32 _)).
  assert (Hlb : len lb = 4) by (unfold lb, len; by rewrite length_le_bytes).
  assert (Ha : len (le_bytes 4 (h_anti_downgrade_version h)) = 4) by (unfold len; by rewrite length_le_bytes).
  set (p4 := header AppMetaV2 ++ lv ++ [0; 0; 0]). unfold auth_field. set (av := le_bytes 4 (h_anti_downgrade_version h)) in *.
  set (tf := tag_field (h_security h)) in *.
  assert (H0 : slice 0 4 (header AppMetaV2 ++ lv ++ [0; 0; 0] ++ lb ++ tf ++ av ++ [to_byte (h_device_type h)]) = header AppMetaV2) by done.
  assert (H4 : slice 4 5 (header AppMetaV2 ++ lv ++ [0; 0; 0] ++ lb ++ tf ++ av ++ [to_byte (h_device_type h)]) = lv) by done.
  rewrite H0, H4, bool_decide_true by done. cbn [negb].
  replace (header AppMetaV2 ++ lv ++ [0; 0; 0] ++ lb ++ tf ++ av ++ [to_byte (h_device_type h)])
    with (p4 ++ lb ++ tf ++ av ++ [to_byte (h_device_type h)]) by done.
  rewrite (slice_mid 8 12 p4 lb) by (rewrite ?Hlb; done).
  rewrite (assoc_L (++) p4), (slice_mid 12 76 (p4 ++ lb) tf) by (rewrite !len_app, ?Ht, Hlb; done).
  rewrite (assoc_L (++) (p4 ++ lb)), (slice_mid 76 80 ((p4 ++ lb) ++ tf) av) by (rewrite !len_app, Ht, ?Ha, Hlb; done).
  rewrite (assoc_L (++) ((p4 ++ lb) ++ tf)), (slice_app_r 80 81) by (rewrite !len_app, Ht, Ha, Hlb; done).
  assert (Hlv : le_val lv = level_as_u8 (level (h_security h))) by (cbn; lia).
  assert (Hdv : le_val [to_byte (h_device_type h)] = to_byte (h_device_type h)) by (cbn; lia).
  rewrite Hlv, Hdv, byte_roundtrip. unfold av. rewrite le_val_le_bytes_small by exact Hv.
  assert (parse_security (level_as_u8 (level (h_security h))) (le_val lb) tf = inl (h_security h)) as ->; [|by destruct h].
  assert (Hn : ∀ n, header_length (h_security h) = Some n → 0 < n < u32_size → le_val lb = n ∧ (n =? 0) = false).
  { intros n Hhl Hn. unfold lb. rewrite Hhl. change (default 0 (Some n)) with n. rewrite as_u32_small by (unfold is_u32; lia).
    rewrite le_val_le_bytes_small by (split; [lia|apply Hn]). split; [done|]. apply Z.eqb_neq. lia. }
  unfold parse_security, tf, tag_field in *. destruct (h_security h) as [|n hash|n sg] eqn:He; [done| |].
  - destruct Hs as (Hr & Hh & _). destruct (Hn n eq_refl Hr) as [-> ->]. cbn [level level_as_u8 level_try_from Z.eqb Pos.eqb].
    unfold hash_try_from_bytes. rewrite Ht. change (64 <? Hash_BINARY_SIZE) with false. cbv iota. cbn [tag].
    by rewrite slice_app_l by done.
  - destruct (Hn n eq_refl Hs) as [-> ->]. cbn [level level_as_u8 level_try_from Z.eqb Pos.eqb].
    unfold signature_try_from_bytes. rewrite Ht. change (64 <? Signature_BINARY_SIZE) with false. cbv iota. cbn [tag].
    rewrite slice_app_l by (by rewrite sig_len). by rewrite sig_roundtrip.
Qed.

Lemma image_u8 h : header_ok h → Forall is_u8 (image h).
Proof.
  intros [Hs Hv]. unfold image, auth_field, tag_field. rewrite !Forall_app. split_and!; try apply le_bytes_u8.
  - repeat constructor; done.
  - constructor; [|constructor]. by destruct (h_security h).
  - repeat constructor; done.
  - destruct (h_security h) as [|n hash|n sg]; cbn in Hs |- *; [constructor|naive_solver|apply sig_u8].
  - apply Forall_replicate. done.
  - constructor; [|constructor]. apply to_byte_u8.
Qed.

Lemma image_auth h : header_ok h → slice BINARY_SIZE_RAW BINARY_SIZE (image h) = auth_field h.
Proof.
  intros Hok. symmetry. apply parse_auth; [by apply image_u8|by apply parse_image].
Qed.

Lemma le_val_u32 b : Forall is_u8 b → 81 ≤ len b → is_u32 (le_val (slice 76 80 b)).
Proof.
  intros Hu Hl. pose proof (le_val_range (slice 76 80 b) (Forall_slice _ _ _ _ Hu)) as Hr.
  rewrite len_slice in Hr by lia. exact Hr.
Qed.

#[global] Instance v2_laws : ApplicationHeaderLaws Hd D.
Proof.
  split.
  - cbn. unfold MAX_AUTH_FIELD_BYTES, BINARY_SIZE_AUTH, BINARY_SIZE_RAW, BINARY_SIZE. done.
  - intros b. exists (parse b). split; [apply try_from_bytes_run|]. unfold parse, parse_security.
    repeat (match goal with |- context [if ?c then _ else _] => destruct c | |- context [match ?o with Some _ => _ | None => _ end] => destruct o as [[]|] || destruct o end; try done).
  - intros b b' Hl. cbn. rewrite !try_from_bytes_run. cbn. by apply parse_app.
  - intros b h buf Hl Hu Hp Hb. cbn in *. rewrite try_from_bytes_run in Hp. injection Hp as Hp.
    rewrite auth_fields_run by done. by rewrite (parse_auth b h).
  - intros b h buf n s Hl Hu Hp Hn Hb. cbn in *. rewrite try_from_bytes_run in Hp. injection Hp as Hp.
    destruct (parse_Ok b h Hp) as (Hlb & Hv & _). change BINARY_SIZE with 81 in Hlb.
    assert (Hok : header_ok (write_signature n s h)).
    { split; [exact Hn|]. cbn. rewrite Hv. by apply le_val_u32. }
    exists (image (write_signature n s h)). split; [by apply as_bytes_run|]. split; [by apply len_image|].
    split; [by apply image_u8|]. split; [by rewrite try_from_bytes_run, parse_image|].
    rewrite image_auth by done. by rewrite <-(parse_auth b h).
  - intros b h Hu Hp. cbn in *. rewrite try_from_bytes_run in Hp. injection Hp as Hp.
    destruct (parse_Ok b h Hp) as (Hlb & -> & _). by apply le_val_u32.
  - done.
Qed.
End v2.
End V2Facts.

(** Feed the slices of an image one by one. *)
Definition feed {Cr : Crypto} {H D : Type} `{!DeviceType D, !ApplicationHeader H D}
    (slices : list (list Z)) : M (Validator H D) Empty_set unit :=
  for_each slices (λ sl, update sl;; mret tt).

Section props.
Context {Cr : Crypto} {CL : CryptoLaws} {H D : Type} `{!DeviceType D, !ApplicationHeader H D, !ApplicationHeaderLaws H D}.
Implicit Types (v : Validator H D) (image sl : list Z) (h : H).
Abbreviation N := (BINARY_SIZE H).
Abbreviation RAW := (BINARY_SIZE_RAW H).

(** ** The verdict on a whole image *)

Definition image_state (image : list Z) : ValidatorState H :=
  match (try_from_bytes (H := H) (slice 0 N image)).1 with
  | Ok h =>
      if len image =? N then NeedMoreData h []
      else match header_length (security h) with
           | None => Complete h (sha256 [])
           | Some l =>
               if l <? N then VFail InvalidLength
               else if l <=? len image then Complete h (sha256 (slice RAW l image))
               else NeedMoreData h (slice RAW (len image) image)
           end
  | Err e => VFail e
  | Panic => VFail TooFewBytes
  end.

Lemma N_pos : 0 < RAW ∧ RAW ≤ N.
Proof. destruct (sizes_law (H := H)) as (? & ? & ?). lia. Qed.

Lemma parse_ok_run image h :
  (try_from_bytes (H := H) (slice 0 N image)).1 = Ok h → try_from_bytes (slice 0 N image) = (Ok h, slice 0 N image).
Proof. destruct (parse_total (H := H) (slice 0 N image)) as (r & -> & _). cbn. by intros ->. Qed.

Lemma len_header_slice image : N ≤ len image → len (slice 0 N image) = N.
Proof. intros. pose proof N_pos. rewrite len_slice by lia. lia. Qed.

(** The authenticated fields of the header are its bytes from [RAW] on. *)
Lemma auth_bytes_run image h v :
  N ≤ len image → Forall is_u8 image → (try_from_bytes (H := H) (slice 0 N image)).1 = Ok h →
  auth_bytes h v = (Ok (slice RAW N image), v).
Proof.
  intros Hl Hu Hp. destruct (sizes_law (H := H)) as (Hr & Ha & Hs). unfold auth_bytes, mbind, M_bind.
  assert (Hm : len (replicate (Z.to_nat MAX_AUTH_FIELD_BYTES) 0) = MAX_AUTH_FIELD_BYTES) by done.
  rewrite range_of_run by lia.
  erewrite auth_law; [|by apply len_header_slice|by apply Forall_slice|by apply parse_ok_run|rewrite len_slice by lia; lia].
  unfold mret, M_ret. do 2 f_equal. rewrite <-(slice_app_prefix RAW N (slice 0 N image) (slice N (len image) image))
    by (rewrite ?len_header_slice; lia).
  by rewrite slice_slice, slice_all by lia.
Qed.

(** ** One slice *)

(** [v] has seen [image]. *)
Record seen v image : Prop := {
  seen_state : state v = image_state image;
  seen_bytes : ∀ h hasher, state v = NeedMoreData h hasher → n_bytes v = len image;
}.

Definition same_settings v v' : Prop :=
  signing_key v' = signing_key v ∧ min_security v' = min_security v ∧ v_device_type v' = v_device_type v.

Lemma slice_0_app image sl : N ≤ len image → slice 0 N (image ++ sl) = slice 0 N image.
Proof. intros. apply slice_app_prefix; lia. Qed.

(** A state that more bytes do not change. *)
Lemma image_state_final image sl :
  N ≤ len image → sl ≠ [] → (match image_state image with NeedMoreData _ _ => False | _ => True end) →
  image_state (image ++ sl) = image_state image.
Proof.
  intros Hl Hne. pose proof N_pos. unfold image_state. rewrite slice_0_app by done.
  assert (0 < len sl) by (destruct sl; [done|]; rewrite len_cons; pose proof (len_nonneg sl); lia).
  destruct (try_from_bytes _).1 as [h|e|]; [|done..]. rewrite len_app.
  rewrite (proj2 (Z.eqb_neq (len image + len sl) N)) by lia. destruct (Z.eqb_spec (len image) N); [done|].
  destruct (header_length (security h)) as [l|]; [|done]. destruct (Z.ltb_spec l N); [done|].
  destruct (Z.leb_spec l (len image)); [|done]. intros _. rewrite (proj2 (Z.leb_le _ _)) by lia.
  by rewrite slice_app_prefix by lia.
Qed.

(** The hasher once the header is accounted for. *)
Lemma more_state image h hasher :
  N ≤ len image → image_state image = NeedMoreData h hasher →
  (try_from_bytes (H := H) (slice 0 N image)).1 = Ok h ∧
  ((len image = N ∧ hasher = []) ∨
   (N < len image ∧ hasher = slice RAW (len image) image ∧
    ∃ l, header_length (security h) = Some l ∧ N ≤ l ∧ len image < l)).
Proof.
  intros Hl. unfold image_state. destruct (try_from_bytes _).1 as [h'|e|]; [|done..].
  destruct (Z.eqb_spec (len image) N). { intros [= <- <-]. eauto. }
  destruct (header_length (security h')) as [l|] eqn:Hh; [|done]. destruct (Z.ltb_spec l N); [done|].
  destruct (Z.leb_spec l (len image)); [done|]. intros [= <- <-]. split; [done|]. right. split_and!; [lia|done|].
  exists l. split_and!; [done|lia|lia].
Qed.

Lemma slice_extend image sl k :
  0 ≤ k ≤ len sl → RAW ≤ len image →
  slice RAW (len image) image ++ slice 0 k sl = slice RAW (len image + k) (image ++ sl).
Proof.
  intros Hk Hr. pose proof N_pos. rewrite <-(slice_slice RAW (len image) (len image + k) (image ++ sl)) by lia. f_equal; [by rewrite slice_app_prefix by lia|].
  unfold slice, len. rewrite Nat2Z.id, drop_app_length. f_equal. lia.
Qed.

(** The state behind [NeedMoreData] and [n] bytes of [sl]. *)
Lemma image_state_data image sl h l :
  N ≤ len image → 0 < len sl → (try_from_bytes (H := H) (slice 0 N image)).1 = Ok h →
  header_length (security h) = Some l → N ≤ l → len image ≤ l →
  let k := Z.min (l - len image) (len sl) in
  image_state (image ++ sl) =
  (if k =? l - len image then Complete h (sha256 (slice RAW (len image) image ++ slice 0 k sl))
   else NeedMoreData h (slice RAW (len image) image ++ slice 0 k sl)).
Proof.
  intros Hl Hs Hp Hh HN Hle k. pose proof N_pos. unfold image_state. rewrite slice_0_app, Hp, Hh, len_app by done.
  rewrite (proj2 (Z.eqb_neq _ _)) by lia. rewrite (proj2 (Z.ltb_ge l N)) by lia.
  rewrite slice_extend by lia. unfold k. destruct (Z.leb_spec l (len image + len sl)).
  - rewrite (proj2 (Z.eqb_eq _ _)) by lia. do 3 f_equal. lia.
  - rewrite (proj2 (Z.eqb_neq _ _)) by lia. do 2 f_equal. lia.
Qed.

Lemma update_loop_final fuel sl v :
  (match state v with Complete _ _ | VFail _ => True | _ => False end) →
  update_loop (S fuel) sl v = (Ok true, v).
Proof. intros Hv. cbn. unfold update_turn, mbind, M_bind, gets. destruct (state v); done. Qed.

(** A slice behind the header. *)
Lemma update_more fuel v image sl :
  seen v image → N ≤ len image → Forall is_u8 image → sl ≠ [] →
  ∃ r v', update_loop (S (S fuel)) sl v = (Ok r, v') ∧ seen v' (image ++ sl) ∧ same_settings v v'.
Proof.
  intros [Hst Hn] Hl Hu Hne. pose proof N_pos.
  assert (Hs : 0 < len sl) by (destruct sl; [done|]; rewrite len_cons; pose proof (len_nonneg sl); lia).
  destruct (state v) as [buf|h hasher|h hash|e] eqn:Hv.
  - exfalso. unfold image_state in Hst. repeat (case_match; try discriminate).
  - destruct (more_state image h hasher Hl (eq_sym Hst)) as [Hp Hcase]. specialize (Hn h hasher eq_refl).
    destruct (header_length (security h)) as [l|] eqn:Hh.
    2: { destruct Hcase as [[He ->]|(_ & _ & l & ? & _)]; [|done].
         eexists true, _. split.
         { cbn [update_loop]. unfold update_turn, mbind, M_bind, gets. rewrite Hv, Hh. reflexivity. }
         split; [|done]. split; [|done]. cbn. unfold image_state. rewrite slice_0_app, Hp, Hh, len_app by done.
         by rewrite (proj2 (Z.eqb_neq _ _)) by lia. }
    destruct (decide (l < N)).
    { destruct Hcase as [[He ->]|(_ & _ & l' & [= <-] & ? & _)]; [|lia].
      eexists true, _. split.
      { cbn [update_loop]. unfold update_turn, mbind, M_bind, gets. rewrite Hv, Hh, Hn.
        rewrite (proj2 (Z.ltb_lt _ _)) by lia. reflexivity. }
      split; [|done]. split; [|done]. cbn. unfold image_state. rewrite slice_0_app, Hp, Hh, len_app by done.
      rewrite (proj2 (Z.eqb_neq _ _)) by lia. by rewrite (proj2 (Z.ltb_lt _ _)) by lia. }
    assert (Hle : len image ≤ l) by (destruct Hcase as [[-> _]|(_ & _ & l' & [= <-] & ? & ?)]; lia).
    pose proof (image_state_data image sl h l Hl Hs Hp Hh ltac:(lia) Hle) as Hdata. cbv zeta in Hdata.
    set (k := Z.min (l - len image) (len sl)) in *.
    set (st' := if k =? l - len image then _ else _) in Hdata.
    assert (Hturn : update_turn sl v = (Ok (inr k), set_state st' v)).
    { unfold update_turn, mbind, M_bind, gets. rewrite Hv, Hh, Hn, (proj2 (Z.ltb_ge l _)) by lia. fold k.
      unfold hasher_update, hasher_hash. destruct Hcase as [[He ->]|(Hlt & -> & _)].
      - rewrite He, Z.eqb_refl. rewrite (auth_bytes_run image) by (done || lia). unfold mret, M_ret, modify.
        unfold st'. rewrite He. rewrite app_nil_l. done.
      - rewrite (proj2 (Z.eqb_neq _ _)) by lia. done. }
    set (v1 := set_n_bytes (len image + k) (set_state st' v)).
    assert (Hseen : seen v1 (image ++ sl)).
    { split; [cbn; by rewrite Hdata|]. intros h' hs' Hst'. cbn in Hst' |- *. rewrite len_app. unfold st' in Hst'.
      destruct (Z.eqb_spec k (l - len image)); [done|]. lia. }
    cbn [update_loop]. unfold mbind at 1, M_bind at 1. rewrite Hturn. unfold mbind, M_bind, modify. cbn [n_bytes set_state].
    rewrite Hn. fold v1. destruct (_ || _) eqn:Hend; [by exists false, v1|].
    apply orb_false_iff in Hend as [Hk0 Hrest]. apply Z.eqb_neq in Hk0, Hrest.
    exists true, v1. split; [|done]. apply update_loop_final. cbn. unfold st'.
    rewrite (proj2 (Z.eqb_eq _ _)); [done|]. unfold len in Hrest. rewrite length_drop in Hrest. unfold k, len in *. lia.
  - exists true, v. split; [apply update_loop_final; by rewrite Hv|]. split; [|done].
    split; [|by rewrite Hv]. rewrite image_state_final; [by rewrite Hv| done|done|by rewrite <-Hst].
  - exists true, v. split; [apply update_loop_final; by rewrite Hv|]. split; [|done].
    split; [|by rewrite Hv]. rewrite image_state_final; [by rewrite Hv| done|done|by rewrite <-Hst].
Qed.

(** The first slice holds the whole header. *)
Lemma header_turn sl v :
  state v = VInit new_raw_buffer → n_bytes v = 0 → N ≤ len sl →
  ∃ st, update_turn sl v = (Ok (inr N), set_state st (set_n_bytes 0 v)) ∧ st = image_state (slice 0 N sl).
Proof.
  intros Hst Hn Hl. pose proof N_pos.
  assert (Hb : len (new_raw_buffer (H := H)) = N) by (unfold new_raw_buffer, len; rewrite length_replicate; lia).
  exists (image_state (slice 0 N sl)). split; [|done]. unfold update_turn, mbind, M_bind, gets. rewrite Hst, Hn.
  unfold usize_sub. rewrite (proj2 (Z.leb_le 0 N)) by lia. unfold mret, M_ret. rewrite Z.sub_0_r, Z.min_l by lia.
  rewrite Hb, Z.add_0_l, Z.leb_refl, Z.eqb_refl. unfold modify.
  assert (splice_at 0 (slice 0 N sl) new_raw_buffer = slice 0 N sl) as ->.
  { unfold splice_at. change (Z.to_nat 0) with 0%nat. rewrite take_0, drop_ge, app_nil_r; [done|].
    rewrite length_slice by lia. unfold len in Hb. lia. }
  unfold parse_header, image_state. rewrite (slice_all N (slice 0 N sl)) by (rewrite len_header_slice by lia; lia).
  rewrite len_header_slice, Z.eqb_refl by lia. destruct (parse_total (H := H) (slice 0 N sl)) as ([h|e|] & -> & ?); done.
Qed.

Lemma update_first sl v :
  state v = VInit new_raw_buffer → n_bytes v = 0 → N ≤ len sl → Forall is_u8 sl →
  ∃ r v', update sl v = (Ok r, v') ∧ seen v' sl ∧ same_settings v v'.
Proof.
  intros Hst Hn Hl Hu. pose proof N_pos. destruct (header_turn sl v Hst Hn Hl) as (st & Hturn & Est).
  unfold update. cbn [update_loop]. unfold mbind at 1, M_bind at 1. rewrite Hturn. unfold mbind, M_bind, modify.
  set (v1 := set_n_bytes _ _).
  assert (Hseen : seen v1 (slice 0 N sl)).
  { split; [done|]. intros h hs _. unfold v1. cbn. rewrite len_header_slice by done. lia. }
  rewrite (proj2 (Z.eqb_neq N 0)) by lia. cbn [orb].
  assert (Hsl : sl = slice 0 N sl ++ drop (Z.to_nat N) sl).
  { unfold slice. rewrite Z.sub_0_r. change (Z.to_nat 0) with 0%nat. by rewrite drop_0, take_drop. }
  destruct (Z.eqb_spec (len (drop (Z.to_nat N) sl)) 0) as [Hz|Hz].
  - exists false, v1. split; [done|]. split; [|done]. rewrite Hsl. assert (drop (Z.to_nat N) sl = []) as ->.
    { destruct (drop _ _); [done|]. rewrite len_cons in Hz. pose proof (len_nonneg l). lia. }
    by rewrite app_nil_r.
  - destruct (update_more 1 v1 (slice 0 N sl) (drop (Z.to_nat N) sl) Hseen) as (r & v' & Hrun & Hs & Hset);
      [by rewrite len_header_slice|by apply Forall_slice|by destruct (drop _ _)|].
    exists r, v'. split; [exact Hrun|]. split; [by rewrite Hsl|]. exact Hset.
Qed.

(** An empty slice changes nothing, once more than the header was seen. *)
Lemma update_empty fuel v image :
  seen v image → N < len image → ∃ r v', update_loop (S fuel) [] v = (Ok r, v') ∧ seen v' image ∧ same_settings v v'.
Proof.
  intros [Hst Hn] Hl. destruct (state v) as [buf|h hasher|h hash|e] eqn:Hv.
  - exfalso. unfold image_state in Hst. repeat (case_match; try discriminate).
  - destruct (more_state image h hasher ltac:(lia) (eq_sym Hst)) as [Hp [[? _]|(_ & -> & l & Hh & ? & ?)]]; [lia|].
    specialize (Hn _ _ eq_refl). exists false, (set_n_bytes (n_bytes v + 0) (set_state (state v) v)). rewrite Hv.
    split; [|split; [split; [done|]|done]].
    + cbn [update_loop]. unfold update_turn, mbind, M_bind, gets. rewrite Hv, Hh, Hn.
      rewrite (proj2 (Z.ltb_ge l _)), (proj2 (Z.eqb_neq (len image) N)) by lia.
      change (len []) with 0. rewrite Z.min_r by lia. rewrite (proj2 (Z.eqb_neq 0 _)) by lia.
unfold mret, M_ret, modify. cbv beta iota zeta.
      assert (Hnil : ∀ hs : list Z, hasher_update (slice 0 0 []) hs = hs) by (intros hs; apply app_nil_r).
      rewrite Hnil. cbn. by rewrite Hn.
    + intros h' hs' _. cbn. lia.
  - exists true, v. split; [apply update_loop_final; by rewrite Hv|]. split; [|done]. split; by rewrite Hv.
  - exists true, v. split; [apply update_loop_final; by rewrite Hv|]. split; [|done]. split; by rewrite Hv.
Qed.

(** One more slice. *)
Lemma update_seen v image sl :
  seen v image → N ≤ len image → Forall is_u8 image → (N < len image ∨ sl ≠ []) →
  ∃ r v', update sl v = (Ok r, v') ∧ seen v' (image ++ sl) ∧ same_settings v v' ∧ N < len (image ++ sl).
Proof.
  intros Hs Hl Hu Hcut. destruct (decide (sl = [])) as [->|Hne].
  - assert (N < len image) by naive_solver. rewrite app_nil_r.
    destruct (update_empty 3 v image Hs) as (r & v1 & ? & ? & ?); [done|]. by exists r, v1.
  - destruct (update_more 2 v image sl Hs Hl Hu Hne) as (r & v1 & ? & ? & ?).
    exists r, v1. split_and!; try done. rewrite len_app. destruct sl as [|x sl]; [done|].
    rewrite len_cons. pose proof (len_nonneg sl). lia.
Qed.

Lemma feed_more slices : ∀ v image,
  seen v image → N ≤ len image → Forall is_u8 (image ++ concat slices) →
  (N < len image ∨ Forall (λ sl, sl ≠ []) slices) →
  ∃ v', feed slices v = (Ok tt, v') ∧ seen v' (image ++ concat slices) ∧ same_settings v v'.
Proof.
  induction slices as [|sl slices IH]; intros v image Hs Hl Hu Hcut.
  { exists v. cbn. by rewrite app_nil_r. }
  cbn in Hu. destruct (update_seen v image sl Hs Hl) as (r & v1 & Hrun & Hs1 & (Ha & Hb & Hc) & Hl1).
  { by apply Forall_app in Hu as [? _]. }
  { destruct Hcut as [?|Hall]; [by left|right]. by apply Forall_cons_1 in Hall as [? _]. }
  rewrite (assoc_L (++)) in Hu. destruct (IH v1 (image ++ sl) Hs1) as (v2 & Hrun2 & Hs2 & (Ha2 & Hb2 & Hc2)); [lia|done|by left|].
  exists v2. split; [|split].
  - unfold feed in *. cbn [for_each]. unfold mbind, M_bind. rewrite Hrun. exact Hrun2.
  - cbn. by rewrite (assoc_L (++)).
  - unfold same_settings. by rewrite Ha2, Hb2, Hc2.
Qed.

(** How an image may be cut: the first slice holds the header, and when it holds
    nothing else, no slice is empty. *)
Definition cut_ok (sl : list Z) (slices : list (list Z)) : Prop :=
  N ≤ len sl ∧ Forall is_u8 (concat (sl :: slices)) ∧ (N < len sl ∨ Forall (λ sl, sl ≠ []) slices).

(** From a new validator. *)
Lemma feed_new key min dt sl slices :
  cut_ok sl slices →
  ∃ v, feed (sl :: slices) (validator_new key min dt) = (Ok tt, v) ∧
    state v = image_state (concat (sl :: slices)) ∧
    signing_key v = key ∧ min_security v = min ∧ v_device_type v = dt.
Proof.
  intros (Hl & Hu & Hcut). pose proof (proj1 (Forall_app _ sl (concat slices)) Hu) as [Hu1 _].
  destruct (update_first sl (validator_new key min dt) eq_refl eq_refl Hl Hu1) as (r & v1 & Hrun & Hs & (Ha & Hb & Hc)).
  destruct (feed_more slices v1 sl Hs Hl Hu Hcut) as (v2 & Hrun2 & [Hs2 _] & (Ha2 & Hb2 & Hc2)).
  exists v2. split_and!; [|exact Hs2|by rewrite Ha2|by rewrite Hb2|by rewrite Hc2].
  unfold feed in *. cbn [for_each]. unfold mbind, M_bind. rewrite Hrun. exact Hrun2.
Qed.

(** ** The verdict *)

(** [h] is the header of [image], it is for this device and protects the image
    with its hash or signature. *)
Definition genuine (key : VerifyingKey) (dt : D) image h : Prop :=
  (try_from_bytes (H := H) (slice 0 N image)).1 = Ok h ∧ device_type h = dt ∧
  match security h with
  | SecNone => True
  | SecIntegrityOnly l hash => N ≤ l ≤ len image ∧ hash = sha256 (slice RAW l image)
  | SecSigned l s => N ≤ l ≤ len image ∧ verify_prehash key (sha256 (slice RAW l image)) s = true
  end.

Lemma image_complete image h hash :
  N ≤ len image → image_state image = Complete h hash →
  (try_from_bytes (H := H) (slice 0 N image)).1 = Ok h ∧
  match header_length (security h) with
  | None => hash = sha256 []
  | Some l => N ≤ l ≤ len image ∧ hash = sha256 (slice RAW l image)
  end.
Proof.
  intros Hl. unfold image_state. destruct (try_from_bytes _).1 as [h'|e|]; [|done..].
  destruct (len image =? N); [done|]. destruct (header_length (security h')) as [l|] eqn:Hh.
  - destruct (Z.ltb_spec l N); [done|]. destruct (Z.leb_spec l (len image)); [|done]. intros [= <- <-]. by rewrite Hh.
  - intros [= <- <-]. by rewrite Hh.
Qed.

Lemma validate_update_sound existing v image h v' :
  N ≤ len image → state v = image_state image → validate_update existing v = (Ok h, v') →
  genuine (signing_key v) (v_device_type v) image h ∧ level_lt (level (security h)) (min_security v) = false ∧
  default 0 (anti_downgrade_version <$> existing) ≤ anti_downgrade_version h.
Proof.
  intros Hl Hst. unfold validate_update, mbind, M_bind, gets. rewrite Hst.
  destruct (image_state image) as [|h0 hs|h0 hash|] eqn:Him; [done|done| |done].
  destruct (image_complete image h0 hash Hl Him) as [Hp Hh].
  destruct (bool_decide_reflect (device_type h0 = v_device_type v)) as [Hd|]; [cbn [negb]|done].
  destruct (level_lt _ _) eqn:Hlv; [done|]. destruct (Z.ltb_spec (anti_downgrade_version h0) (default 0 (anti_downgrade_version <$> existing))); [done|].
  destruct (security h0) as [|l ref|l sg] eqn:Hs; cbn in Hh.
  - intros [= <- <-]. unfold genuine. rewrite Hs. split_and!; done.
  - destruct (bool_decide_reflect (ref = hash)); [|done]. intros [= <- <-]. unfold genuine. rewrite Hs.
    split_and!; try done; [naive_solver|naive_solver|by subst ref; destruct Hh].
  - unfold pubkey_verify, mbind, M_bind, assert. destruct (len hash =? 32); [|done]. unfold mret, M_ret.
    destruct (verify_prehash _ _ _) eqn:Hv; [|done]. intros [= <- <-]. unfold genuine. rewrite Hs.
    destruct Hh as [Hb ->]. split_and!; try done; naive_solver.
Qed.

(** A genuine image of a sufficient level is accepted. *)
Lemma verify_genuine v image h :
  N < len image → state v = image_state image → genuine (signing_key v) (v_device_type v) image h →
  level_lt (level (security h)) (min_security v) = false → 0 ≤ anti_downgrade_version h → verify v = (Ok h, v).
Proof.
  intros Hl Hst (Hp & Hd & Hsec) Hlv Hv. unfold verify, validate_update, mbind, M_bind, gets. rewrite Hst. unfold image_state.
  rewrite Hp, (proj2 (Z.eqb_neq _ _)) by lia. cbn [default fmap option_fmap option_map].
  destruct (security h) as [|l hash|l s] eqn:Hs; cbn [header_length].
  2, 3: destruct Hsec as [Hb Hok]; rewrite (proj2 (Z.ltb_ge _ _)), (proj2 (Z.leb_le _ _)) by lia.
  all: rewrite bool_decide_true by done; cbn [negb]; rewrite Hs, Hlv, (proj2 (Z.ltb_ge _ _)) by done; cbn [option_fmap option_map].
  - done.
  - by rewrite bool_decide_true.
  - unfold pubkey_verify, mbind, M_bind, assert. rewrite sha256_len. cbn [Z.eqb Pos.eqb]. unfold mret, M_ret. by rewrite Hok.
Qed.

(** ** Signing *)

Lemma slice_split image : slice 0 N image ++ drop (Z.to_nat N) image = image.
Proof. unfold slice. rewrite Z.sub_0_r. change (Z.to_nat 0) with 0%nat. by rewrite drop_0, take_drop. Qed.

Lemma slice_from {A} lo n (l : list A) : 0 ≤ lo → n = len l → slice lo n l = drop (Z.to_nat lo) l.
Proof. intros ? ->. unfold slice, len. apply take_ge. rewrite length_drop. lia. Qed.

(** [sign] replaces the header and keeps the bytes from [RAW] on. *)
Lemma sign_run key binary binary' :
  N < len binary < u32_size → Forall is_u8 binary → sign (H := H) key binary = (Ok tt, binary') →
  ∃ h s, (try_from_bytes (H := H) (slice 0 N binary)).1 = Ok h ∧
    sign_recoverable key (slice RAW (len binary) binary) = Some s ∧
    len binary' = len binary ∧ Forall is_u8 binary' ∧ drop (Z.to_nat N) binary' = drop (Z.to_nat N) binary ∧
    slice RAW (len binary) binary' = slice RAW (len binary) binary ∧
    (try_from_bytes (H := H) (slice 0 N binary')).1 = Ok (write_signature (len binary) s h).
Proof.
  intros Hl Hu. pose proof N_pos. pose proof (len_header_slice binary ltac:(lia)) as Hlh.
  unfold sign, mbind, M_bind, gets, map_err. destruct (parse_total (H := H) binary) as (r & Hpr & _). rewrite Hpr.
  destruct r as [h|e|]; [|done..]. assert (Hp : (try_from_bytes (H := H) (slice 0 N binary)).1 = Ok h).
  { rewrite <-(parse_prefix (H := H) _ (drop (Z.to_nat N) binary)) by done. by rewrite slice_split, Hpr. }
  rewrite get_slice_run by lia. destruct (sign_recoverable key _) as [s|] eqn:Hs; [|done]. unfold mret, M_ret.
  destruct (write_law (slice 0 N binary) h (slice 0 N binary) (len binary) s) as (out & Hrun & Hlo & Huo & Hpo & Ht);
    [done|by apply Forall_slice|by apply parse_ok_run|lia|done|].
  unfold on_range. rewrite !(proj2 (Z.leb_le _ _)) by lia. cbn [andb]. rewrite Hrun. intros [= <-].
  assert (Hd : splice_at 0 out binary = out ++ drop (Z.to_nat N) binary).
  { unfold splice_at. change (Z.to_nat 0) with 0%nat. rewrite take_0. cbn. do 2 f_equal. unfold len in Hlo. lia. }
  rewrite Hd. assert (Hdr : drop (Z.to_nat N) (out ++ drop (Z.to_nat N) binary) = drop (Z.to_nat N) binary).
  { replace (Z.to_nat N) with (length out) at 1 by (unfold len in Hlo; lia). apply drop_app_length. }
  assert (Hlb : len (out ++ drop (Z.to_nat N) binary) = len binary).
  { rewrite len_app, Hlo. unfold len in *. rewrite length_drop. lia. }
  exists h, s. split_and!; try done.
  - apply Forall_app. split; [done|by apply Forall_drop].
  - rewrite <-(slice_slice RAW N (len binary) (out ++ _)), <-(slice_slice RAW N (len binary) binary) by lia. f_equal.
    + rewrite slice_app_prefix by lia. rewrite Ht. rewrite <-(slice_split binary) at 2. by rewrite slice_app_prefix by lia.
    + rewrite !slice_from by (done || lia). exact Hdr.
  - rewrite slice_app_prefix, slice_all by lia. by rewrite Hpo.
Qed.

(** ** The claims *)

(** The streaming validator computes the verdict on the image.  However an image
    is cut into slices of which the first holds the header, [update] does not
    panic, does not loop, and leaves the validator in the state that belongs to the
    whole image. *)
Theorem streamed_verdict_is_image_verdict key min dt sl slices :
  cut_ok sl slices →
  ∃ v, feed (sl :: slices) (validator_new key min dt) = (Ok tt, v) ∧ state v = image_state (concat (sl :: slices)).
Proof. intros Hcut. destruct (feed_new key min dt sl slices Hcut) as (v & Hrun & Hst & _). by exists v. Qed.

(** C14: an accepted image is genuine.  The image is fed in slices of which the first
    holds the whole header, as the bootloader's fragments do (and the others are not empty
    if it holds nothing else); a header that is split is outside the theorem, and a genuine
    image is then rejected, see [split_header_is_not_accepted].  When the validator allows
    an update, the header is the one of the image, it is for this device, its security
    level is not below the required one, its version is not below that of the installed
    image, and the hash, or the signature by the trusted key, is over all bytes of the image
    behind the tag. *)
Theorem accepted_firmware_is_genuine key min dt sl slices existing v h v' :
  cut_ok sl slices →
  feed (sl :: slices) (validator_new key min dt) = (Ok tt, v) → allow_update_from existing v = (Ok h, v') →
  genuine key dt (concat (sl :: slices)) h ∧ level_lt (level (security h)) min = false ∧
  anti_downgrade_version existing ≤ anti_downgrade_version h.
Proof.
  intros Hcut Hrun Hok. destruct (feed_new key min dt sl slices Hcut) as (v0 & Hrun0 & Hst & <- & <- & <-).
  rewrite Hrun in Hrun0. injection Hrun0 as <-. destruct Hcut as [Hl _].
  apply (validate_update_sound (Some existing) v _ h v'); [|done|done].
  cbn [concat]. rewrite len_app. pose proof (len_nonneg (concat slices)). lia.
Qed.

(** A signed image is accepted.  What [sign] makes of an image passes the
    validator with the matching key, at every required level, however it is cut. *)
Theorem signed_firmware_is_accepted key min dt binary binary' sl slices v :
  N < len binary < u32_size → Forall is_u8 binary → sign (H := H) key binary = (Ok tt, binary') →
  (∀ h, (try_from_bytes (H := H) (slice 0 N binary)).1 = Ok h → device_type h = dt) →
  concat (sl :: slices) = binary' → cut_ok sl slices →
  feed (sl :: slices) (validator_new (verifying_key key) min dt) = (Ok tt, v) →
  ∃ h, verify v = (Ok h, v) ∧ genuine (verifying_key key) dt binary' h ∧ level (security h) = LevelSigned.
Proof.
  intros Hl Hu Hsign Hdt Hcat Hcut Hrun. pose proof N_pos.
  destruct (sign_run key binary binary' Hl Hu Hsign) as (h & s & Hp & Hs & Hlb & Hub & _ & Hraw & Hpo).
  destruct (feed_new (verifying_key key) min dt sl slices Hcut) as (v0 & Hrun0 & Hst & Hk & _ & Hd).
  rewrite Hrun in Hrun0. injection Hrun0 as <-. rewrite Hcat in Hst.
  destruct (write_fields h (len binary) s) as (Hsec & Hdev & Hver).
  set (h' := write_signature (len binary) s h) in *.
  pose proof (sign_verifies key _ s Hs) as Hsv. rewrite <-Hraw in Hsv.
  assert (Hg : genuine (verifying_key key) dt binary' h').
  { split; [done|]. split; [by rewrite Hdev, (Hdt h)|]. rewrite Hsec. split; [lia|done]. }
  exists h'. split; [|split; [done|by rewrite Hsec]].
  apply (verify_genuine v binary' h'); [lia|done|by rewrite Hk, Hd|rewrite Hsec; by destruct (min_security v)|].
  rewrite Hver. apply (version_law _ h (Forall_slice _ 0 N _ Hu)). by apply parse_ok_run.
Qed.
End props.
