(* ===== verification/Bootloader.v ===== *)
(** * The bootloader's update logic

    [bootloader.rs]: whether the installed application may boot and whether the
    firmware file in external flash replaces it, and the copying of that file.  The
    file store is the trait [FileStore] and the internal flash the traits
    [AppFlashRead] and [AppFlashWrite]; the writer that [erase_application] returns
    borrows the flash, so its calls are operations on the flash. *)

From stdpp Require Import base list list_numbers numbers option.
From S2P Require Import Prelude BlockDev FlashDb FileStore Samples Serialize Firmware.

(** The methods of the trait [FileStore] that are used here. *)
Class FileStoreReads (St : Type) : Type := {
  fs_file_handle : Object → M St Error FileHandle;
  fs_read_file_fragment : FileHandle → Z → Z → M St Error (list Z);
}.
#[global] Instance flash_file_store {D E} (B : Z) `{!BlockDev B D E} : FileStoreReads D := {|
  fs_file_handle := file_handle B;
  fs_read_file_fragment := read_file_fragment B;
|}.

Class AppFlashRead (IF : Type) : Type := application_total : IF → list Z.
Class AppFlashWrite (IF EraseError WriteError : Type) : Type := {
  erase_application : M IF EraseError unit;
  append : list Z → M IF WriteError Z;
  finalize : M IF WriteError Z;
}.

Inductive AppStatus (H : Type) : Type :=
| UpToDate (h : H)
| UpdateRejected (h : H) (e : ValidationError)
| ShouldUpdate (h : H)
| Bricked (existing_error new_error : ValidationError).
Arguments UpToDate {H}.
Arguments UpdateRejected {H}.
Arguments ShouldUpdate {H}.
Arguments Bricked {H}.

Inductive UpdateError (EE WE : Type) : Type :=
| Update_Erase (e : EE)
| Update_Write (e : WE)
| Update_Validate (e : ValidationError).
Arguments Update_Erase {EE WE}.
Arguments Update_Write {EE WE}.
Arguments Update_Validate {EE WE}.

Section bootloader.
Context {Cr : Crypto} {H D : Type} `{!DeviceType D, !ApplicationHeader H D, !EqDecision H}.
Context {St IF EE WE : Type} `{!FileStoreReads St, !AppFlashRead IF, !AppFlashWrite IF EE WE}.
Context (BLOCK_SIZE CHUNK_SIZE : Z).

(** Calls of a validator that is a local variable. *)
Definition with_validator {S E A} (m : M (Validator H D) Empty_set A) (v : Validator H D) :
    M S E (A * Validator H D) :=
  match m v with
  | (Ok a, v') => mret (a, v')
  | (Err e, _) => match e with end
  | (Panic, _) => panic
  end.
Definition ask {S E A} (m : M (Validator H D) ValidationError A) (v : Validator H D) :
    M S E (A + ValidationError) :=
  match (m v).1 with
  | Ok a => mret (inl a)
  | Err e => mret (inr e)
  | Panic => panic
  end.

Definition fragment_count (file : Object) : M St Empty_set Z := λ s,
  match obj_fragment_count BLOCK_SIZE file s with
  | (Ok n, s') => (Ok (as_u32 n), s')
  | (_, s') => (Panic, s')
  end.

Definition validate_existing_firmware {S E} (internal_flash : IF) (device_type : D) (pubkey : VerifyingKey)
    (min_security : SecurityLevel) : M S E (Validator H D) :=
  r ← with_validator (update (application_total internal_flash)) (validator_new pubkey min_security device_type);
  mret r.2.

(** The loop over the fragments of the candidate. *)
Fixpoint validate_fragments (handle : FileHandle) (frags : list Z) (v : Validator H D) :
    M St Empty_set (Validator H D) :=
  match frags with
  | [] => mret v
  | frag :: frags =>
      r ← attempt (fs_read_file_fragment handle frag CHUNK_SIZE);
      match r with
      | inl buffer =>
          u ← with_validator (update buffer) v;
          if u.1 : bool then mret u.2 else validate_fragments handle frags u.2
      | inr _ => mret v
      end
  end.

Definition validate_new_firmware (fw_file : Object) (device_type : D) (pubkey : VerifyingKey) :
    M St Empty_set (Validator H D) :=
  let validator := validator_new pubkey LevelSigned device_type in
  r ← attempt (fs_file_handle fw_file);
  match r with
  | inl file_handle =>
      n ← fragment_count fw_file;
      validate_fragments file_handle (seqZ 0 n) validator
  | inr _ => mret validator
  end.

(** The header of the candidate, not validated. *)
Definition candidate_header (fw_file : Object) : M St Empty_set (option H) :=
  r ← attempt (fs_file_handle fw_file);
  match r with
  | inl file_handle =>
      r ← attempt (fs_read_file_fragment file_handle 0 CHUNK_SIZE);
      match r with
      | inl buffer =>
          match (try_from_bytes buffer).1 with
          | Ok h => mret (Some h)
          | Err _ => mret None
          | Panic => panic
          end
      | inr _ => mret None
      end
  | inr _ => mret None
  end.

Definition validate_update (internal_flash : IF) (fw_file : Object) (device_type : D) (pubkey : VerifyingKey)
    (installed_min_security : SecurityLevel) : M St Empty_set (AppStatus H) :=
  new_unvalidated_header ← candidate_header fw_file;
  old_validator ← validate_existing_firmware internal_flash device_type pubkey installed_min_security;
  existing ← ask verify old_validator;
  match existing with
  | inl existing_header =>
      if bool_decide (new_unvalidated_header = Some existing_header) then mret (UpToDate existing_header)
      else
        new_validator ← validate_new_firmware fw_file device_type pubkey;
        new_hash ← ask data_hash new_validator;
        old_hash ← ask data_hash old_validator;
        if match new_hash, old_hash with
           | inl new_hash, inl old_hash => bool_decide (new_hash = old_hash)
           | _, _ => false
           end
        then mret (UpToDate existing_header)
        else
          r ← ask (allow_update_from existing_header) new_validator;
          match r with
          | inl new_header => mret (ShouldUpdate new_header)
          | inr error => mret (UpdateRejected existing_header error)
          end
  | inr existing_error =>
      new_validator ← validate_new_firmware fw_file device_type pubkey;
      r ← ask verify new_validator;
      match r with
      | inl new_header => mret (ShouldUpdate new_header)
      | inr new_error => mret (Bricked existing_error new_error)
      end
  end.

(** ** Applying the update *)

Abbreviation Both := (IF * St)%type.
Abbreviation MU := (M Both (UpdateError EE WE)).
Definition set_fst (f : IF) (s : Both) : Both := (f, s.2).
Definition set_snd (t : St) (s : Both) : Both := (s.1, t).
Definition on_flash {E A} (conv : E → UpdateError EE WE) (m : M IF E A) : MU A :=
  map_err conv (zoom fst set_fst m).
Definition on_files {E A} (m : M St Error A) : M Both E (caught Error A) :=
  attempt (zoom snd set_snd m).

Fixpoint copy_fragments (handle : FileHandle) (frags : list Z) : MU unit :=
  match frags with
  | [] => mret tt
  | frag :: frags =>
      r ← on_files (fs_read_file_fragment handle frag CHUNK_SIZE);
      match r with
      | inl buffer => on_flash Update_Write (append buffer);; mret tt
      | inr _ => mret tt
      end;;
      copy_fragments handle frags
  end.

Definition apply_update (fw_file : Object) (device_type : D) (pubkey : VerifyingKey) : MU H :=
  on_flash Update_Erase erase_application;;
  r ← on_files (fs_file_handle fw_file);
  match r with
  | inl file_handle =>
      n ← (λ s, let '(r, t) := fragment_count fw_file s.2 in
                (match r with Ok n => Ok n | _ => Panic end, set_snd t s));
      copy_fragments file_handle (seqZ 0 n)
  | inr _ => mret tt
  end;;
  on_flash Update_Write finalize;;
  flash ← gets fst;
  v ← validate_existing_firmware flash device_type pubkey LevelSigned;
  r ← ask verify v;
  match r with
  | inl header => mret header
  | inr e => fail (Update_Validate e)
  end.
End bootloader.
