(* ===== verification/BootloaderProps.v ===== *)
(** * The bootloader's update logic: properties

    What each decision of the bootloader means for the two images, and that an
    update it decided on is applied. *)

From stdpp Require Import base list list_numbers numbers option.
From S2P Require Import Prelude BlockDev FlashDb FileStore Samples SamplesFacts Serialize Firmware.
From S2P Require Import FirmwareProps Bootloader.

(** What the bootloader relies on: reading does not change the file, whose
    fragments from the first one on are [fs_fragments]; fragments behind a gap may
    read as anything. *)
Class FileStoreReadsLaws (St : Type) `{!FileStoreReads St} (CHUNK_SIZE : Z) : Type := {
  fs_fragments : St → Object → option (list (list Z));
  fs_handle_law : ∀ st f, ∃ r st', fs_file_handle f st = (r, st') ∧ fs_fragments st' f = fs_fragments st f ∧
    match fs_fragments st f with
    | Some _ => ∃ h, r = Ok h ∧ fh_file h = f
    | None => ∃ e, r = Err e
    end;
  fs_read_law : ∀ st h i frs, fs_fragments st (fh_file h) = Some frs → 0 ≤ i →
    ∃ r st', fs_read_file_fragment h i CHUNK_SIZE st = (r, st') ∧
      fs_fragments st' (fh_file h) = Some frs ∧
      match r with
      | Ok buffer => len buffer ≤ CHUNK_SIZE ∧ Forall is_u8 buffer ∧
          (Z.to_nat i ≤ length frs → frs !! Z.to_nat i = Some buffer)%nat
      | Err _ => frs !! Z.to_nat i = None
      | Panic => False
      end;
}.

(** The internal flash: behind [written s w] the writer has appended [w] since the
    erase, and the image starts with what was appended. *)
Class AppFlashLaws (IF EE WE : Type) `{!AppFlashRead IF, !AppFlashWrite IF EE WE} : Type := {
  af_capacity : Z;
  af_written : IF → list Z → Prop;
  af_erase_law : ∀ s, ∃ s', erase_application s = (Ok tt, s') ∧ af_written s' [];
  af_append_law : ∀ s w d, af_written s w → len w + len d ≤ af_capacity → Forall is_u8 d →
    ∃ s', append d s = (Ok (len d), s') ∧ af_written s' (w ++ d);
  af_finalize_law : ∀ s w, af_written s w → ∃ n s' pad, finalize s = (Ok n, s') ∧
    application_total s' = w ++ pad ∧ Forall is_u8 pad;
}.

Section props.
Context {Cr : Crypto} {CL : CryptoLaws} {H D : Type}.
Context `{!DeviceType D, !ApplicationHeader H D, !ApplicationHeaderLaws H D, !EqDecision H}.
Context {St IF EE WE : Type} (BLOCK_SIZE CHUNK_SIZE : Z).
Context `{!FileStoreReads St, !FileStoreReadsLaws St CHUNK_SIZE, !AppFlashRead IF}.
Implicit Types (st : St) (v : Validator H D) (h : H) (frs : list (list Z)).
Abbreviation N := (BINARY_SIZE H).
Abbreviation RAW := (BINARY_SIZE_RAW H).

(** ** The validator in the loop *)

Definition final (s : ValidatorState H) : Prop :=
  match s with Complete _ _ | VFail _ => True | _ => False end.

Lemma turn_true sl v b v' : update_turn sl v = (Ok (inl b), v') → b = true ∧ final (state v').
Proof.
  unfold update_turn, mbind, M_bind, gets. destruct (state v) as [buf|h hs|h hash|e] eqn:Hv; cbn.
  - unfold usize_sub. destruct (_ <=? _); cbn; [|done]. destruct (_ <=? _); cbn; [|done].
    destruct (_ =? _); cbn; [|done]. unfold parse_header. by destruct (try_from_bytes _) as [[]].
  - destruct (header_length _) as [l|]; [|by intros [= <- <-]]. destruct (_ <? _); [by intros [= <- <-]|].
    destruct (_ =? _); [|done]. by destruct (auth_bytes _ _) as [[]].
  - intros [= <- <-]. by rewrite Hv.
  - intros [= <- <-]. by rewrite Hv.
Qed.

Lemma update_true fuel : ∀ sl v v', update_loop fuel sl v = (Ok true, v') → final (state v').
Proof.
  induction fuel as [|fuel IH]; intros sl v v'; [done|]. cbn [update_loop]. unfold mbind at 1, M_bind at 1.
  destruct (update_turn sl v) as [[[b|k]|e|] v1] eqn:Ht; try done.
  - intros [= -> ->]. by destruct (turn_true _ _ _ _ Ht).
  - unfold mbind, M_bind, modify. destruct (_ || _); [done|]. apply IH.
Qed.

(** ** Reading the candidate *)

Lemma lookup_drop_cons frs (k : nat) fr rest : drop k frs = fr :: rest → frs !! k = Some fr ∧ drop (S k) frs = rest.
Proof.
  intros Hd. split; [by rewrite <-(Nat.add_0_r k), <-lookup_drop, Hd|].
  replace (S k) with (k + 1)%nat by lia. by rewrite <-drop_drop, Hd.
Qed.

(** A verdict does not change with more bytes. *)
Lemma final_state image more :
  N ≤ len image → final (image_state (H := H) image) → image_state (H := H) (image ++ more) = image_state image.
Proof.
  intros Hl Hf. destruct (decide (more = [])) as [->|]; [by rewrite app_nil_r|].
  apply image_state_final; [done..|]. by destruct (image_state image).
Qed.

(** The loop from fragment [k] on, behind [image]. *)
Lemma validate_fragments_run fh frs (m : nat) : ∀ (k : nat) v image st,
  fs_fragments st (fh_file fh) = Some frs → (k ≤ length frs)%nat →
  seen v image → N ≤ len image → Forall is_u8 (image ++ concat (drop k frs)) →
  (N < len image ∨ Forall (λ sl, sl ≠ []) (drop k frs)) →
  ∃ v' st', validate_fragments CHUNK_SIZE fh (seqZ (Z.of_nat k) (Z.of_nat m)) v st = (Ok v', st') ∧
    state v' = image_state (image ++ concat (take m (drop k frs))) ∧ same_settings v v'.
Proof.
  induction m as [|m IH]; intros k v image st Hf Hk Hs Hl Hu Hcut.
  { exists v, st. split; [done|]. rewrite take_0, app_nil_r. by split; [apply Hs|]. }
  rewrite seqZ_cons by lia. cbn [validate_fragments]. unfold mbind, M_bind, attempt.
  destruct (fs_read_law st fh (Z.of_nat k) frs Hf) as (r & st1 & -> & Hf1 & Hr); [lia|]. rewrite Nat2Z.id in Hr.
  destruct r as [buffer|e|]; [| |done].
  - destruct Hr as (_ & _ & Hlk). specialize (Hlk Hk). pose proof (lookup_lt_Some _ _ _ Hlk) as Hlt.
    rewrite (drop_S _ _ _ Hlk) in Hu, Hcut |- *. cbn [take concat] in Hu |- *. fold (concat (drop (S k) frs)) in Hu.
    destruct (update_seen v image buffer Hs Hl) as (b & v1 & Hrun & Hs1 & Hset & Hl1).
    { by apply Forall_app in Hu as [? _]. }
    { destruct Hcut as [?|Hall]; [by left|right]. by apply Forall_cons_1 in Hall as [? _]. }
    unfold with_validator. rewrite Hrun. unfold mret, M_ret. cbn [fst snd]. rewrite (assoc_L (++)).
    destruct b.
    + exists v1, st1. split; [done|]. split; [|done]. pose proof (update_true _ _ _ _ Hrun) as Hfin.
      rewrite (seen_state _ _ Hs1) in Hfin |- *. symmetry. apply final_state; [lia|exact Hfin].
    + replace (Z.succ (Z.of_nat k)) with (Z.of_nat (S k)) by lia. replace (Z.pred (Z.of_nat (S m))) with (Z.of_nat m) by lia.
      destruct (IH (S k) v1 (image ++ buffer) st1 Hf1 ltac:(lia) Hs1) as (v2 & st2 & Hrun2 & Hst2 & Hset2);
        [lia|by rewrite <-(assoc_L (++))|by left|].
      exists v2, st2. split; [done|]. split; [done|].
      destruct Hset as (? & ? & ?), Hset2 as (? & ? & ?). unfold same_settings. split_and!; congruence.
  - apply lookup_ge_None_1 in Hr. rewrite drop_ge by lia. rewrite take_nil. cbn. rewrite app_nil_r.
    exists v, st1. split; [done|]. by split; [apply Hs|].
Qed.

(** ** Verdicts *)

(** [v] has seen [image], or nothing. *)
Definition judges v (image : list Z) key min (dt : D) : Prop :=
  (N ≤ len image ∧ Forall is_u8 image ∧ state v = image_state image ∨ image = [] ∧ ∃ buf, state v = VInit buf) ∧
  signing_key v = key ∧ min_security v = min ∧ v_device_type v = dt.

Lemma verdict_total v image key min dt existing :
  judges v image key min dt → ∃ r, Firmware.validate_update existing v = (r, v) ∧ r ≠ Panic.
Proof.
  intros [Hj _]. unfold Firmware.validate_update, mbind, M_bind, gets.
  destruct Hj as [(Hl & _ & Hst)|(_ & buf & Hst)]; rewrite Hst; [|by eexists].
  destruct (image_state image) as [|h0 hs|h0 hash|] eqn:Him; [by eexists|by eexists| |by eexists].
  destruct (image_complete image h0 hash Hl Him) as [_ Hh]. destruct (negb _); [by eexists|].
  destruct (level_lt _ _); [by eexists|]. destruct (_ <? _); [by eexists|].
  destruct (security h0) as [|l ref|l sg]; cbn in Hh; [by eexists|destruct (bool_decide _); by eexists|].
  destruct Hh as [_ ->]. unfold pubkey_verify, mbind, M_bind, assert. rewrite sha256_len. cbn.
  destruct (verify_prehash _ _ _); by eexists.
Qed.

Lemma verdict_sound v image key min dt existing h v' :
  judges v image key min dt → Firmware.validate_update existing v = (Ok h, v') →
  genuine key dt image h ∧ level_lt (level (security h)) min = false ∧
  default 0 (anti_downgrade_version <$> existing) ≤ anti_downgrade_version h.
Proof.
  intros [Hj (<- & <- & <-)] Hv. destruct Hj as [(Hl & _ & Hst)|(_ & buf & Hst)].
  - by apply (validate_update_sound existing v image h v').
  - unfold Firmware.validate_update, mbind, M_bind, gets in Hv. by rewrite Hst in Hv.
Qed.

Lemma genuine_version image key dt h : Forall is_u8 image → genuine key dt image h → 0 ≤ anti_downgrade_version h.
Proof.
  intros Hu (Hp & _). apply (version_law (slice 0 N image)); [by apply Forall_slice|by apply parse_ok_run].
Qed.

Lemma verdict_complete v image key min dt h :
  judges v image key min dt → N < len image → Forall is_u8 image → genuine key dt image h →
  level_lt (level (security h)) min = false → verify v = (Ok h, v).
Proof.
  intros [Hj (<- & <- & <-)] Hl Hu Hg Hs. destruct Hj as [(_ & _ & Hst)|(-> & _)]; [|change (len []) with 0 in Hl; pose proof (N_pos (H := H)); lia].
  by apply (verify_genuine v image h); [| | | |eapply genuine_version].
Qed.

Lemma ask_run {S E A} (m : M (Validator H D) ValidationError A) v r (s : S) :
  m v = (r, v) → r ≠ Panic → ask (E := E) m v s =
    (Ok (match r with Ok a => inl a | Err e => inr e | Panic => inr Incomplete end), s).
Proof. intros Hm Hr. unfold ask. rewrite Hm. by destruct r. Qed.

Lemma data_hash_run v : ∃ r, data_hash v = (r, v) ∧ r ≠ Panic.
Proof. unfold data_hash, mbind, M_bind, gets. destruct (state v); by eexists. Qed.

Lemma existing_run {S E} (flash : IF) dt key min (s : S) :
  N ≤ len (application_total flash) → Forall is_u8 (application_total flash) →
  ∃ v, validate_existing_firmware (E := E) flash dt key min s = (Ok v, s) ∧ judges v (application_total flash) key min dt.
Proof.
  intros Hl Hu. destruct (update_first (application_total flash) (validator_new key min dt) eq_refl eq_refl Hl Hu)
    as (r & v & Hrun & [Hst _] & Hset).
  exists v. unfold validate_existing_firmware, with_validator, mbind, M_bind. rewrite Hrun. split; [done|]. split; [by left|done].
Qed.

(** ** The candidate *)

Context (fw_file : Object) (n_frags : nat).
Context (Hcount : ∀ st, ∃ st', fragment_count BLOCK_SIZE fw_file st = (Ok (Z.of_nat n_frags), st') ∧
  ∀ f, fs_fragments st' f = fs_fragments st f).

(** The image in external flash. *)
Definition candidate st : list Z :=
  match fs_fragments st fw_file with Some frs => concat (take n_frags frs) | None => [] end.
Definition candidate_ok st : Prop :=
  match fs_fragments st fw_file with Some (fr :: frs) => cut_ok (H := H) fr frs | _ => True end.

Lemma candidate_same st st' : fs_fragments st' fw_file = fs_fragments st fw_file →
  candidate st' = candidate st ∧ (candidate_ok st → candidate_ok st').
Proof. unfold candidate, candidate_ok. by intros ->. Qed.

Lemma candidate_u8 st : candidate_ok st → Forall is_u8 (candidate st).
Proof.
  unfold candidate_ok, candidate. destruct (fs_fragments st fw_file) as [[|fr frs]|]; [by rewrite take_nil| |done].
  intros (_ & Hu & _). rewrite <-(take_drop n_frags (fr :: frs)), concat_app in Hu. by apply Forall_app in Hu as [? _].
Qed.

Lemma validate_new_run dt key st :
  candidate_ok st →
  ∃ v st', validate_new_firmware BLOCK_SIZE CHUNK_SIZE fw_file dt key st = (Ok v, st') ∧
    judges v (candidate st) key LevelSigned dt.
Proof using ApplicationHeaderLaws0 Hcount.
  intros Hok. unfold validate_new_firmware, mbind, M_bind, attempt. pose proof (N_pos (H := H)).
  destruct (fs_handle_law (CHUNK_SIZE := CHUNK_SIZE) st fw_file) as (r & st1 & -> & Hf1 & Hr). unfold candidate_ok, candidate in *.
  destruct (fs_fragments st fw_file) as [frs|].
  2: { destruct Hr as [e ->]. eexists _, st1. split; [done|]. split; [right; split; [done|by eexists]|done]. }
  destruct Hr as (fh & -> & Hfh). destruct (Hcount st1) as (st2 & -> & Hf2). rewrite <-Hfh, <-(Hf2 (fh_file fh)) in Hf1.
  destruct frs as [|fr frs].
  - destruct n_frags as [|m].
    { eexists _, st2. split; [done|]. split; [right; split; [done|by eexists]|done]. }
    rewrite seqZ_cons by lia. cbn [validate_fragments]. unfold mbind, M_bind, attempt.
    destruct (fs_read_law st2 fh 0 [] Hf1) as (r & st3 & -> & _ & Hr); [lia|].
    destruct r as [buffer|e|]; [|eexists _, st3; split; [done|]; split; [right; split; [done|by eexists]|done]|done].
    destruct Hr as (_ & _ & Hr). specialize (Hr ltac:(cbn; lia)). done.
  - destruct n_frags as [|m].
    { eexists _, st2. split; [done|]. split; [right; split; [done|by eexists]|done]. }
    destruct Hok as (Hl & Hu & Hcut). rewrite seqZ_cons by lia. cbn [validate_fragments]. unfold mbind, M_bind, attempt.
    destruct (fs_read_law st2 fh 0 (fr :: frs) Hf1) as (r & st3 & -> & Hf3 & Hr); [lia|].
    destruct r as [buffer|e|]; [|done|done]. destruct Hr as (_ & _ & Hr). specialize (Hr ltac:(cbn; lia)). injection Hr as <-.
    pose proof (proj1 (Forall_app _ fr (concat frs)) Hu) as [Hu1 Hu2].
    destruct (update_first fr (validator_new key LevelSigned dt) eq_refl eq_refl Hl Hu1) as (b & v1 & Hrun & Hs1 & Hset1).
    unfold with_validator. rewrite Hrun. unfold mret, M_ret. cbn [fst snd]. cbn [take].
    assert (Hjust : ∀ v, state v = image_state (fr ++ concat (take m frs)) → same_settings (validator_new key LevelSigned dt) v →
      judges v (concat (fr :: take m frs)) key LevelSigned dt).
    { intros v Hv Hset. split; [left|done]. cbn [concat]. rewrite len_app. pose proof (len_nonneg (concat (take m frs))).
      split_and!; [lia| |done]. apply Forall_app. split; [done|].
      rewrite <-(take_drop m frs), concat_app in Hu2. by apply Forall_app in Hu2 as [? _]. }
    destruct b.
    + exists v1, st3. split; [done|]. apply Hjust; [|done]. pose proof (update_true _ _ _ _ Hrun) as Hfin.
      rewrite (seen_state _ _ Hs1) in Hfin |- *. symmetry. by apply final_state.
    + destruct (validate_fragments_run fh (fr :: frs) m 1 v1 fr st3 Hf3) as (v2 & st4 & Hrun2 & Hst2 & Hset2);
        [cbn; lia|done|done|done|done|]. cbn [drop] in Hst2. rewrite drop_0 in Hst2.
      exists v2, st4. split.
      { replace (Z.succ 0) with (Z.of_nat 1) by lia. replace (Z.pred (Z.of_nat (S m))) with (Z.of_nat m) by lia. exact Hrun2. }
      apply Hjust; [done|]. destruct Hset1 as (? & ? & ?), Hset2 as (? & ? & ?). unfold same_settings. split_and!; congruence.
Qed.

Lemma candidate_header_run st :
  ∃ o st', candidate_header (H := H) (D := D) CHUNK_SIZE fw_file st = (Ok o, st') ∧
    fs_fragments st' fw_file = fs_fragments st fw_file.
Proof using ApplicationHeaderLaws0.
  unfold candidate_header, mbind, M_bind, attempt.
  destruct (fs_handle_law (CHUNK_SIZE := CHUNK_SIZE) st fw_file) as (r & st1 & -> & Hf1 & Hr).
  destruct (fs_fragments st fw_file) as [frs|]; [|destruct Hr as [e ->]; by eexists None, st1].
  destruct Hr as (fh & -> & Hfh). rewrite <-Hfh in Hf1 |- *.
  destruct (fs_read_law st1 fh 0 frs Hf1) as (r & st2 & -> & Hf2 & Hr); [lia|].
  destruct r as [buffer|e|]; [|by eexists None, st2|done].
  destruct (parse_total (H := H) buffer) as (r & -> & Hnp). cbn [fst]. destruct r as [h|e|]; [|by eexists None, st2|done].
  by eexists (Some h), st2.
Qed.

(** The installed image has a payload, and the first fragment of the candidate, if there
    is one, holds its header. *)
Definition images_ok (flash : IF) st : Prop :=
  N < len (application_total flash) ∧ Forall is_u8 (application_total flash) ∧ candidate_ok st.

(** The candidate is an image with a payload. *)
Definition has_candidate st : Prop := N < len (candidate st).

(** What a decision means. *)
Definition decision_ok (flash : IF) st key dt min (status : AppStatus H) : Prop :=
  let installed := application_total flash in
  match status with
  | UpToDate h | UpdateRejected h _ =>
      genuine key dt installed h ∧ level_lt (level (security h)) min = false
  | ShouldUpdate h =>
      genuine key dt (candidate st) h ∧ level (security h) = LevelSigned ∧
      (∀ h0, genuine key dt installed h0 → level_lt (level (security h0)) min = false →
         anti_downgrade_version h0 ≤ anti_downgrade_version h)
  | Bricked _ _ => ∀ h,
      (genuine key dt installed h → level_lt (level (security h)) min = true) ∧
      (has_candidate st → genuine key dt (candidate st) h → level (security h) ≠ LevelSigned)
  end.

Lemma signed_level h : level_lt (level (security h)) LevelSigned = false → level (security h) = LevelSigned.
Proof. by destruct (level (security h)). Qed.

Lemma genuine_unique key dt image h h' : genuine key dt image h → genuine key dt image h' → h = h'.
Proof. intros (Hp & _) (Hp' & _). congruence. Qed.

(** C15: the bootloader's decision.  With an installed image that has a payload, and a
    firmware file that is missing or whose first fragment holds its header,
    [validate_update] always decides.  Firmware that it lets boot ([UpToDate],
    [UpdateRejected]) is genuine, at the required security level; the candidate that it
    wants to install is signed by the trusted key for this device and not older than an
    installed image that may boot (one that may not, because it is damaged or below the
    required level, may be replaced by an older one); and [Bricked] means that the installed
    image may not boot and that the candidate is not a signed one for this device. *)
Theorem boot_decision_is_safe flash st key dt min :
  images_ok flash st →
  ∃ status st', validate_update (H := H) BLOCK_SIZE CHUNK_SIZE flash fw_file dt key min st = (Ok status, st') ∧
    decision_ok flash st key dt min status.
Proof using ApplicationHeaderLaws0 CL Hcount.
  intros (Hl & Hu & Hok). destruct (candidate_header_run st) as (o & st1 & Ho & Hf1).
  destruct (candidate_same st st1 Hf1) as [Hc1 Hok1]. specialize (Hok1 Hok). pose proof (candidate_u8 st Hok) as Huc.
  unfold validate_update, mbind, M_bind. rewrite Ho.
  destruct (existing_run (E := Empty_set) flash dt key min st1 ltac:(lia) Hu) as (v & -> & Hj).
  destruct (verdict_total v _ key min dt None Hj) as (r & Hr & Hnp). rewrite (ask_run verify v r) by done.
  destruct (validate_new_run dt key st1 Hok1) as (v1 & st2 & Hrun1 & Hj1). rewrite Hc1 in Hj1.
  destruct r as [h|e|]; [| |done].
  - destruct (verdict_sound v _ key min dt None h v Hj Hr) as (Hg & Hlv & _).
    destruct (bool_decide (o = Some h)); [by eexists (UpToDate h), st1|]. rewrite Hrun1.
    destruct (data_hash_run v1) as (r1 & Hh1 & Hnp1). rewrite (ask_run data_hash v1 r1) by done.
    destruct (data_hash_run v) as (r2 & Hh2 & Hnp2). rewrite (ask_run data_hash v r2) by done.
    match goal with |- context [if ?c then mret (UpToDate _) else _] => destruct c; [by eexists (UpToDate h), st2|] end.
    destruct (verdict_total v1 _ key LevelSigned dt (Some h) Hj1) as (r3 & Hr3 & Hnp3).
    rewrite (ask_run (allow_update_from h) v1 r3) by done. destruct r3 as [h1|e1|]; [| |done].
    + destruct (verdict_sound v1 _ key LevelSigned dt (Some h) h1 v1 Hj1 Hr3) as (Hg1 & Hl1 & Hv1).
      eexists (ShouldUpdate h1), st2. split; [done|]. split; [done|]. split; [by apply signed_level|].
      intros h0 Hg0 _. by rewrite (genuine_unique _ _ _ _ _ Hg0 Hg).
    + by eexists (UpdateRejected h e1), st2.
  - rewrite Hrun1. destruct (verdict_total v1 _ key LevelSigned dt None Hj1) as (r3 & Hr3 & Hnp3).
    rewrite (ask_run verify v1 r3) by done.
    assert (Hno : ∀ h0, genuine key dt (application_total flash) h0 → level_lt (level (security h0)) min = false → False).
    { intros h0 Hg0 Hs0. pose proof (verdict_complete v _ key min dt h0 Hj Hl Hu Hg0 Hs0) as Hv. unfold verify in Hv. congruence. }
    destruct r3 as [h1|e1|]; [| |done].
    + destruct (verdict_sound v1 _ key LevelSigned dt None h1 v1 Hj1 Hr3) as (Hg1 & Hl1 & _).
      eexists (ShouldUpdate h1), st2. split; [done|]. split; [done|]. split; [by apply signed_level|].
      intros h0 Hg0 Hs0. by destruct (Hno h0).
    + eexists (Bricked e e1), st2. split; [done|]. intros h0. split.
      { intros Hg0. destruct (level_lt _ min) eqn:Hs0; [done|]. by destruct (Hno h0). }
      intros Hlc Hg0 Hs0. assert (level_lt (level (security h0)) LevelSigned = false) as Hs1 by (by rewrite Hs0).
      pose proof (verdict_complete v1 _ key LevelSigned dt h0 Hj1 Hlc Huc Hg0 Hs1) as Hv. unfold verify in Hv. congruence.
Qed.

(** ** Applying the update *)

Context `{!AppFlashWrite IF EE WE, !AppFlashLaws IF EE WE}.

Lemma on_files_run {E A} (m : M St Error A) (s : IF) st r st' :
  m st = (r, st') → r ≠ Panic →
  on_files (IF := IF) (E := E) m (s, st) =
    (Ok (match r with Ok a => inl a | Err e => inr e | Panic => inr Error_InternalError end), (s, st')).
Proof. intros Hm Hr. unfold on_files, attempt, zoom. cbn. rewrite Hm. by destruct r. Qed.

(** What is appended: the fragments, and what reads behind a gap. *)
Lemma copy_fragments_run fh frs (m : nat) : ∀ (k : nat) s st w,
  fs_fragments st (fh_file fh) = Some frs → af_written (EE := EE) (WE := WE) s w →
  0 ≤ CHUNK_SIZE → len w + Z.of_nat m * CHUNK_SIZE ≤ af_capacity (EE := EE) (WE := WE) →
  ∃ extra s' st', copy_fragments (EE := EE) (WE := WE) CHUNK_SIZE fh (seqZ (Z.of_nat k) (Z.of_nat m)) (s, st) = (Ok tt, (s', st')) ∧
    af_written (EE := EE) (WE := WE) s' (w ++ concat (take m (drop k frs)) ++ extra) ∧ Forall is_u8 extra.
Proof.
  induction m as [|m IH]; intros k s st w Hf Hw HC Hcap.
  { exists [], s, st. split; [done|]. rewrite take_0. cbn. by rewrite app_nil_r. }
  rewrite seqZ_cons by lia. cbn [copy_fragments].
  replace (Z.succ (Z.of_nat k)) with (Z.of_nat (S k)) by lia. replace (Z.pred (Z.of_nat (S m))) with (Z.of_nat m) by lia.
  unfold mbind, M_bind. destruct (fs_read_law st fh (Z.of_nat k) frs Hf) as (r & st1 & Hrun & Hf1 & Hr); [lia|].
  rewrite Nat2Z.id in Hr. rewrite (on_files_run _ s st r st1 Hrun) by (by destruct r).
  destruct r as [buffer|e|]; [| |done].
  - destruct Hr as (Hlen & Hu & Hlk).
    destruct (af_append_law (EE := EE) (WE := WE) s w buffer Hw) as (s1 & Hap & Hw1); [lia|done|].
    unfold on_flash, map_err, zoom. cbn [fst]. rewrite Hap. unfold set_fst. cbn [snd].
    destruct (IH (S k) s1 st1 (w ++ buffer) Hf1 Hw1 HC) as (extra & s2 & st2 & Hrun2 & Hw2 & Hu2); [rewrite len_app; lia|].
    unfold mret, M_ret. rewrite Hrun2. destruct (decide (k < length frs)%nat) as [Hlt|Hge].
    + exists extra, s2, st2. split; [done|]. split; [|done]. rewrite (drop_S frs buffer k) by (apply Hlk; lia). cbn [take concat].
      by rewrite <-!(assoc_L (++)) in Hw2 |- *.
    + exists (buffer ++ extra), s2, st2. split; [done|]. split; [|by apply Forall_app].
      rewrite drop_ge in Hw2 |- * by lia. rewrite take_nil in Hw2 |- *. cbn in Hw2 |- *. by rewrite (assoc_L (++)).
  - destruct (IH (S k) s st1 w Hf1 Hw HC) as (extra & s2 & st2 & Hrun2 & Hw2 & Hu2); [lia|].
    unfold mret, M_ret. rewrite Hrun2. exists extra, s2, st2. split; [done|]. split; [|done].
    apply lookup_ge_None_1 in Hr. rewrite drop_ge in Hw2 |- * by lia. by rewrite take_nil in Hw2 |- *.
Qed.

Lemma genuine_more key dt image more h :
  N ≤ len image → genuine key dt image h → genuine key dt (image ++ more) h.
Proof.
  intros Hl (Hp & Hd & Hs). pose proof (N_pos (H := H)). split; [by rewrite slice_0_app|]. split; [done|]. rewrite len_app. pose proof (len_nonneg more).
  destruct (security h) as [|l hash|l sg]; [done| |]; destruct Hs as [? Hs]; (split; [lia|]); by rewrite slice_app_prefix by lia.
Qed.

(** C16: an update that was decided on is applied.  When the candidate is a signed
    image for this device and the internal flash works and is large enough,
    [apply_update] returns the candidate's header, and the installed image starts
    with the candidate. *)
Theorem update_is_applied flash st key dt h :
  candidate_ok st → N < len (candidate st) → Forall is_u8 (candidate st) → genuine key dt (candidate st) h →
  level (security h) = LevelSigned →
  0 ≤ CHUNK_SIZE → Z.of_nat n_frags * CHUNK_SIZE ≤ af_capacity (IF := IF) (EE := EE) (WE := WE) →
  ∃ flash' st' rest, apply_update (EE := EE) (WE := WE) BLOCK_SIZE CHUNK_SIZE fw_file dt key (flash, st) = (Ok h, (flash', st')) ∧
    application_total flash' = candidate st ++ rest.
Proof using ApplicationHeaderLaws0 CL Hcount.
  intros Hok Hl Hu Hg Hs HC Hcap. unfold apply_update, mbind, M_bind.
  destruct (af_erase_law (EE := EE) (WE := WE) flash) as (s1 & He & Hw1).
  unfold on_flash at 1, map_err, zoom. cbn [fst]. rewrite He. unfold set_fst. cbn [snd].
  destruct (fs_handle_law (CHUNK_SIZE := CHUNK_SIZE) st fw_file) as (r & st1 & Hrun1 & Hf1 & Hr).
  unfold candidate in Hl, Hu, Hg |- *. destruct (fs_fragments st fw_file) as [frs|]; [|change (len []) with 0 in Hl; pose proof (N_pos (H := H)); lia].
  destruct Hr as (fh & -> & Hfh). rewrite (on_files_run _ s1 st _ st1 Hrun1) by done.
  destruct (Hcount st1) as (st2 & Hcnt & Hf2). cbn [snd]. rewrite Hcnt. unfold set_snd. cbn [fst].
  rewrite <-Hfh, <-(Hf2 (fh_file fh)) in Hf1.
  destruct (copy_fragments_run fh frs n_frags 0 s1 st2 [] Hf1 Hw1 HC) as (extra & s2 & st3 & Hrun2 & Hw2 & Hu2); [change (len []) with 0; lia|].
  change (seqZ 0 (Z.of_nat n_frags)) with (seqZ (Z.of_nat 0) (Z.of_nat n_frags)). rewrite Hrun2. rewrite drop_0, app_nil_l in Hw2.
  destruct (af_finalize_law (EE := EE) (WE := WE) s2 _ Hw2) as (n & s3 & pad & Hfin & Htot & Hup).
  unfold on_flash, map_err, zoom. cbn [fst]. rewrite Hfin. unfold set_fst, gets. cbn [snd fst].
  rewrite <-(assoc_L (++)) in Htot. set (cand := concat (take n_frags frs)) in *.
  assert (Hut : Forall is_u8 (application_total s3)) by (rewrite Htot, !Forall_app; done).
  assert (Hlt : N < len (application_total s3)) by (rewrite Htot, len_app; pose proof (len_nonneg (extra ++ pad)); lia).
  destruct (existing_run (E := UpdateError EE WE) s3 dt key LevelSigned (s3, st3) ltac:(lia) Hut) as (v & -> & Hj).
  assert (Hgt : genuine key dt (application_total s3) h) by (rewrite Htot; apply genuine_more; [lia|exact Hg]).
  rewrite (ask_run verify v (Ok h)); [|apply (verdict_complete v _ key LevelSigned dt h Hj Hlt Hut Hgt); by rewrite Hs|done].
  exists s3, st3, (extra ++ pad). split; [done|exact Htot].
Qed.
End props.
