(* ===== verification/BootloaderDemo.v ===== *)
(** * A firmware update

    The theorems on the bootloader applied to the image below, in a file
    store that keeps its fragments in a list, as the mock store of the tests does,
    and an internal flash that is a list of bytes, with an unsigned application
    installed. *)

From stdpp Require Import base list list_numbers numbers option.
From Stdlib Require Import Strings.Byte.
From S2P Require Import Prelude Samples SamplesFacts Serialize Firmware FirmwareProps BlockDev.
From S2P Require Import FlashDb FileStore Bootloader BootloaderProps.

(** ** A firmware image

    The theorems on firmware images applied to a V2 image with a payload of twelve
    bytes, a toy hash and a toy signature; and the same image cut inside its
    header. *)

Module DemoFirmware.
(** Polynomial hash; a signature is a byte that depends on the key and the hash. *)
Definition toy_hash (l : list Z) : list Z := le_bytes 32 (foldl (λ a b, (a * 31 + b + 7) mod 2 ^ 61) 17 l).
Definition toy_byte (z : Z) : byte := default x00 (of_N (Z.to_N (z mod 256))).
Definition toy_tag (k : Z) (hash : list Z) : byte := toy_byte (foldr Z.add k hash).

#[export] Instance toy_crypto : Crypto := {|
  p256_Signature := byte; VerifyingKey := Z; SigningKey := Z;
  sha256 := toy_hash;
  sig_to_bytes s := Z.of_N (to_N s) :: replicate 63 0;
  sig_from_slice bs := of_N (Z.to_N (default 0 (head bs)));
  verify_prehash k hash s := Byte.eqb s (toy_tag k hash);
  sign_recoverable k data := Some (toy_tag k (toy_hash data));
  verifying_key k := k;
|}.

#[export] Instance toy_laws : CryptoLaws.
Proof.
  split.
  - intros l. change (len (toy_hash l) = 32). unfold len, toy_hash. by rewrite length_le_bytes.
  - done.
  - intros s. cbn [sig_to_bytes toy_crypto]. constructor; [by destruct s|]. by apply Forall_replicate.
  - intros s. cbn. by rewrite N2Z.id, of_to_N.
  - intros k data s Hs. injection Hs as <-. by apply Byte.byte_dec_lb.
Qed.

(** Two device types. *)
#[export] Instance mock_device : DeviceType bool := {|
  device_eq_dec := _;
  to_byte := λ d : bool, if d then 1 else 0;
  try_from_byte := λ b, if b =? 0 then Some false else if b =? 1 then Some true else None;
|}.
#[export] Instance mock_device_laws : DeviceTypeLaws bool.
Proof.
  split; [by intros []|by intros []|]. intros b d. cbn.
  destruct (Z.eqb_spec b 0) as [->|]; [by intros [= <-]|]. destruct (Z.eqb_spec b 1) as [->|]; by intros [= <-].
Qed.

Abbreviation Hd := (V2.ApplicationHeader (Cr := toy_crypto) bool).
Definition hello : list Z := [72; 101; 108; 108; 111; 32; 87; 111; 114; 108; 100; 46].
Definition unsigned : list Z :=
  (V2.as_bytes (V2.placeholder false) (replicate 81 0)).2 ++ hello.
Definition signed : list Z := Eval vm_compute in (sign (Cr := toy_crypto) (H := Hd) (D := bool) 7 unsigned).2.
Definition verdict (slices : list (list Z)) : outcome ValidationError Hd :=
  (verify (feed (Cr := toy_crypto) (H := Hd) (D := bool) slices (validator_new (Cr := toy_crypto) 7 LevelSigned false)).2).1.
Definition reader : Validator Hd bool := (feed [take 85 signed; drop 85 signed] (validator_new (Cr := toy_crypto) (H := Hd) (D := bool) 7 LevelSigned false)).2.
Definition installed : Hd := V2.mkHeader SecNone 0 false.
Definition accepted : Hd := V2.mkHeader (SecSigned 93 (toy_tag 7 (toy_hash (slice 76 93 signed)))) 0 false.

Lemma signed_cut : cut_ok (Cr := toy_crypto) (H := Hd) (D := bool) (take 85 signed) [drop 85 signed].
Proof. split; [done|]. split; [|by left]. apply u8s. by vm_compute. Qed.

Lemma streamed_verdict_is_image_verdict_witness :
  ∃ v, feed [take 85 signed; drop 85 signed] (validator_new (Cr := toy_crypto) (H := Hd) (D := bool) 7 LevelSigned false) = (Ok tt, v) ∧
    state v = image_state (Cr := toy_crypto) (H := Hd) (D := bool) (concat [take 85 signed; drop 85 signed]).
Proof.
  apply (streamed_verdict_is_image_verdict (Cr := toy_crypto) (H := Hd) (D := bool) 7 LevelSigned false (take 85 signed) [drop 85 signed]).
  exact signed_cut.
Defined.

Lemma accepted_firmware_is_genuine_witness :
  genuine (Cr := toy_crypto) (H := Hd) (D := bool) 7 false (concat [take 85 signed; drop 85 signed]) accepted ∧
  level_lt (level (security accepted)) LevelSigned = false ∧ anti_downgrade_version installed ≤ anti_downgrade_version accepted.
Proof.
  apply (accepted_firmware_is_genuine (Cr := toy_crypto) (H := Hd) (D := bool) 7 LevelSigned false (take 85 signed) [drop 85 signed] installed reader accepted reader);
    [exact signed_cut|reflexivity|reflexivity].
Defined.

Lemma signed_firmware_is_accepted_witness :
  ∃ h, verify reader = (Ok h, reader) ∧ genuine (Cr := toy_crypto) (H := Hd) (D := bool) 7 false signed h ∧ level (security h) = LevelSigned.
Proof.
  apply (signed_firmware_is_accepted (Cr := toy_crypto) (H := Hd) (D := bool) 7 LevelSigned false unsigned signed (take 85 signed) [drop 85 signed] reader).
  - done.
  - apply u8s. by vm_compute.
  - reflexivity.
  - intros h Hh. assert (h = V2.placeholder false) as -> by (by injection Hh as <-). reflexivity.
  - reflexivity.
  - exact signed_cut.
  - reflexivity.
Defined.

(** Slices may not cut the header.  A signed image that is accepted as a whole
    is not accepted, and reads as incomplete, when its first ten bytes arrive in a
    slice of their own: the number of bytes seen is then that of the last slice of
    the header, and the authenticated fields are not hashed. *)
Theorem split_header_is_not_accepted :
  verdict [signed] = Ok accepted ∧ verdict [take 10 signed; drop 10 signed] = Err Incomplete ∧
  verdict [take 10 signed; drop 10 signed; replicate 10 0] = Err SignatureInvalid.
Proof. split; [reflexivity|]. split; reflexivity. Qed.
End DemoFirmware.

Module DemoBootloader.
Import DemoFirmware.
Abbreviation CHUNK := 85.
Abbreviation Files := (list (list Z)).
Abbreviation Internal := (list Z).

Definition files_ok (st : Files) : bool :=
  forallb (λ fr, (len fr <=? CHUNK) && bool_decide (Forall is_u8 fr)) st.

(** A store is a list of fragments of at most [CHUNK] bytes. *)
Definition Store : Type := { st : Files | files_ok st = true }.
#[export] Instance store_files : FileStoreReads Store := {|
  fs_file_handle := λ f st, (Ok (mkFileHandle f 0), st);
  fs_read_file_fragment := λ _ i n st,
    match proj1_sig st !! Z.to_nat i with
    | Some fr => (Ok (slice 0 n fr), st)
    | None => (Err Error_FragmentNotReadable, st)
    end;
|}.

#[export] Instance store_laws : FileStoreReadsLaws Store CHUNK.
Proof.
  refine {| fs_fragments := λ st _, Some (proj1_sig st) |}.
  - intros st f. eexists _, st. split; [done|]. split; [done|]. by exists (mkFileHandle f 0).
  - intros [st Hok] h i frs [= <-] Hi. cbn. destruct (st !! Z.to_nat i) as [fr|] eqn:Hl.
    + eexists _, _. split; [done|]. split; [done|]. unfold files_ok in Hok. rewrite forallb_forall in Hok.
      specialize (Hok fr ltac:(apply list_elem_of_In; by eapply list_elem_of_lookup_2)).
      apply andb_true_iff in Hok as [Hn Hu]. apply Z.leb_le in Hn. apply bool_decide_eq_true in Hu.
      rewrite slice_all by done. by split_and!.
    + by eexists _, _.
Defined.

#[export] Instance list_flash_read : AppFlashRead Internal := λ f, f.
#[export] Instance list_flash_write : AppFlashWrite Internal unit unit := {|
  erase_application := λ _, (Ok tt, []);
  append := λ d f, (Ok (len d), f ++ d);
  finalize := λ f, (Ok (len f), f ++ replicate 7 255);
|}.
#[export] Instance list_flash_laws : AppFlashLaws Internal unit unit.
Proof.
  refine {| af_capacity := 4096; af_written := λ s w, s = w |}.
  - intros s. by exists [].
  - intros s w d -> _ _. by exists (w ++ d).
  - intros s w ->. eexists _, _, (replicate 7 255). split; [done|]. split; [done|]. apply u8s. by vm_compute.
Defined.

#[export] Instance hd_eq_dec : EqDecision Hd.
Proof.
  assert (EqDecision (p256_Signature (Crypto := toy_crypto))) by exact Byte.byte_eq_dec.
  assert (EqDecision (Security (Cr := toy_crypto))) by solve_decision. solve_decision.
Defined.

Definition fw_file : Object := mkObject 1 CHUNK 0 2 None.
Definition store : Store := exist _ [take 85 signed; drop 85 signed] eq_refl.

Lemma demo_count (st : Store) : ∃ st', fragment_count 512 fw_file st = (Ok (Z.of_nat 5), st') ∧
  ∀ f, fs_fragments st' f = fs_fragments st f.
Proof. exists st. split; [reflexivity|done]. Qed.

Lemma demo_candidate : candidate CHUNK fw_file 5 store = signed.
Proof. vm_compute. reflexivity. Qed.

Lemma demo_candidate_ok : candidate_ok (Cr := toy_crypto) (H := Hd) (D := bool) CHUNK fw_file store.
Proof. exact signed_cut. Qed.

Lemma demo_images : images_ok (Cr := toy_crypto) (H := Hd) (D := bool) CHUNK fw_file (unsigned : Internal) store.
Proof. split; [done|]. split; [apply u8s; by vm_compute|exact demo_candidate_ok]. Qed.

Lemma boot_decision_is_safe_witness :
  ∃ status st', validate_update (H := Hd) (D := bool) 512 CHUNK (unsigned : Internal) fw_file false 7 LevelNone store = (Ok status, st') ∧
    decision_ok (H := Hd) (D := bool) CHUNK fw_file 5 (unsigned : Internal) store 7 false LevelNone status.
Proof.
  exact (boot_decision_is_safe (Cr := toy_crypto) (H := Hd) (D := bool) 512 CHUNK fw_file 5 demo_count
    (unsigned : Internal) store 7 false LevelNone demo_images).
Defined.

Lemma accepted_genuine : genuine (Cr := toy_crypto) (H := Hd) (D := bool) 7 false signed accepted.
Proof. split; [reflexivity|]. split; [reflexivity|]. cbn [security V2.application_header V2.h_security accepted]. split; [done|reflexivity]. Qed.

Lemma update_is_applied_witness :
  ∃ flash' st' rest,
    apply_update (H := Hd) (D := bool) (EE := unit) (WE := unit) 512 CHUNK fw_file false 7 (unsigned : Internal, store) =
      (Ok accepted, (flash', st')) ∧
    application_total flash' = candidate CHUNK fw_file 5 store ++ rest.
Proof.
  apply (update_is_applied (Cr := toy_crypto) (H := Hd) (D := bool) 512 CHUNK fw_file 5 demo_count (unsigned : Internal) store 7 false accepted).
  - exact demo_candidate_ok.
  - rewrite demo_candidate. done.
  - rewrite demo_candidate. apply u8s. by vm_compute.
  - rewrite demo_candidate. exact accepted_genuine.
  - reflexivity.
  - done.
  - done.
Defined.
End DemoBootloader.
