(* ===== verification/MetaConfig.v ===== *)
(** * Provisioned data: board config and bootloader metadata

    [meta/config.rs], [meta/bootloader.rs] and [utils::try_string_from_bytes]: two
    binary records with zero-padded fields.  A [str] is the list of its bytes, which
    are well-formed UTF-8. *)

From stdpp Require Import base list list_numbers numbers option.
From S2P Require Import Prelude Samples SamplesFacts Serialize Firmware FirmwareProps.
From S2P Require Import BootloaderDemo.

(** ** Strings *)

(** [core::str::from_utf8]: well-formed UTF-8 byte sequences. *)
Definition cont (b : Z) : bool := (0x80 <=? b) && (b <=? 0xBF).
Definition between (lo b hi : Z) : bool := (lo <=? b) && (b <=? hi).
Fixpoint utf8_valid (l : list Z) : bool :=
  match l with
  | [] => true
  | b0 :: l0 =>
      if b0 <? 0x80 then utf8_valid l0
      else match l0 with
      | [] => false
      | b1 :: l1 =>
          if between 0xC2 b0 0xDF then cont b1 && utf8_valid l1
          else match l1 with
          | [] => false
          | b2 :: l2 =>
              if b0 =? 0xE0 then between 0xA0 b1 0xBF && cont b2 && utf8_valid l2
              else if between 0xE1 b0 0xEC || between 0xEE b0 0xEF then cont b1 && cont b2 && utf8_valid l2
              else if b0 =? 0xED then between 0x80 b1 0x9F && cont b2 && utf8_valid l2
              else match l2 with
              | [] => false
              | b3 :: l3 =>
                  if b0 =? 0xF0 then between 0x90 b1 0xBF && cont b2 && cont b3 && utf8_valid l3
                  else if between 0xF1 b0 0xF3 then cont b1 && cont b2 && cont b3 && utf8_valid l3
                  else if b0 =? 0xF4 then between 0x80 b1 0x8F && cont b2 && cont b3 && utf8_valid l3
                  else false
              end
          end
      end
  end.

(** The index of the first zero byte. *)
Fixpoint find_zero (l : list Z) : option Z :=
  match l with
  | [] => None
  | b :: l => if b =? 0 then Some 0 else Z.succ <$> find_zero l
  end.

(** [None] is the [Utf8Error]. *)
Definition try_string_from_bytes {S E} (MAX_STR_LEN : Z) (bytes : list Z) : M S E (option (list Z)) :=
  let max_len := Z.min (len bytes) MAX_STR_LEN in
  let length := default MAX_STR_LEN (find_zero (slice 0 max_len bytes)) in
  str_ref ← range_of 0 length bytes;
  mret (if utf8_valid str_ref then Some str_ref else None).

Definition str_from_zero_padded_slice (sl : list Z) : option (list Z) :=
  let end_ := default (len sl) (find_zero sl) in
  let s := slice 0 end_ sl in
  if utf8_valid s then Some s else None.

(** ** [FirmwareConfig] *)

Definition MAX_UID_LEN : Z := 9.
Definition MAX_CERT_SIZE : Z := 1024.
Definition MAX_KEY_SIZE : Z := 512.
Definition MAX_SERIAL_SIZE_BYTES : Z := 16.
Definition BINARY_SIZE_COMMON : Z := 4 + MAX_SERIAL_SIZE_BYTES + 4 + MAX_CERT_SIZE + 4 + MAX_KEY_SIZE.
Definition CONFIG_BINARY_SIZE : Z := BINARY_SIZE_COMMON + 1.

Inductive FirmwareConfigError (D : Type) : Type :=
| Config_TooFewBytes | Config_InvalidHeader | Config_InvalidSerial | Config_InvalidClientCert
| Config_InvalidClientKey | Config_InvalidDeviceType | Config_MismatchedDeviceType (d : D).
Arguments Config_TooFewBytes {D}.
Arguments Config_InvalidHeader {D}.
Arguments Config_InvalidSerial {D}.
Arguments Config_InvalidClientCert {D}.
Arguments Config_InvalidClientKey {D}.
Arguments Config_InvalidDeviceType {D}.

Section config.
Context {D : Type} `{!DeviceType D}.

Record FirmwareConfig : Type := mkConfig {
  serial : list Z;
  client_cert : list Z;
  client_key : list Z;
  c_device_type : D
}.

Definition config_as_bytes (c : FirmwareConfig) : M (list Z) Empty_set unit :=
  modify (λ b, replicate (length b) 0);;
  put_slice 0 (header Config);;
  put_slice 4 (slice 0 (Z.min (len (serial c)) MAX_SERIAL_SIZE_BYTES) (serial c));;
  put_slice 20 (le_bytes 4 (as_u32 (len (client_cert c))));;
  put_slice 24 (client_cert c);;
  put_slice 1048 (le_bytes 4 (as_u32 (len (client_key c))));;
  put_slice 1052 (client_key c);;
  put_slice 1564 [to_byte (c_device_type c)].

Definition config_try_from_bytes : M (list Z) (FirmwareConfigError D) FirmwareConfig :=
  n ← gets len;
  if n <? CONFIG_BINARY_SIZE then fail Config_TooFewBytes
  else
    magic ← get_slice 0 4;
    if negb (bool_decide (magic = header Config)) then fail Config_InvalidHeader
    else
      sb ← get_slice 4 20;
      s ← try_string_from_bytes MAX_UID_LEN sb;
      match s with
      | None => fail Config_InvalidSerial
      | Some s =>
          lb ← get_slice 20 24;
          let cert_len := le_val lb in
          if MAX_CERT_SIZE <? cert_len then fail Config_InvalidClientCert
          else
            cert ← get_slice 24 (24 + cert_len);
            kb ← get_slice 1048 1052;
            let key_len := le_val kb in
            if MAX_KEY_SIZE <? key_len then fail Config_InvalidClientKey
            else
              key ← get_slice 1052 (1052 + key_len);
              db ← get_slice 1564 1565;
              match try_from_byte (le_val db) with
              | Some d => mret (mkConfig s cert key d)
              | None => fail Config_InvalidDeviceType
              end
      end.
End config.
Arguments FirmwareConfig : clear implicits.

(** ** [BootloaderMeta] *)

Inductive BootloaderMetaError : Type :=
| Meta_TooFewBytes | Meta_InvalidHeader | Meta_InvalidVersion | Meta_InvalidGitRevision.

Record BootloaderMeta : Type := mkMeta { version : list Z; git_revision : list Z }.

Definition VERSION_LEN : Z := 16.
Definition META_BINARY_SIZE : Z := 4 + 2 * VERSION_LEN.

Definition meta_as_bytes (m : BootloaderMeta) : M (list Z) BootloaderMetaError unit :=
  n ← gets len;
  if n <? META_BINARY_SIZE then fail Meta_TooFewBytes
  else on_range 0 META_BINARY_SIZE (
    modify (λ b, replicate (length b) 0);;
    put_slice 0 (header Firmware.BootloaderMeta);;
    put_slice 4 (slice 0 (Z.min (len (version m)) VERSION_LEN) (version m));;
    put_slice 20 (slice 0 (Z.min (len (git_revision m)) VERSION_LEN) (git_revision m))).

Definition meta_try_from_bytes : M (list Z) BootloaderMetaError BootloaderMeta :=
  n ← gets len;
  if n <? META_BINARY_SIZE then fail Meta_TooFewBytes
  else
    magic ← get_slice 0 4;
    if negb (bool_decide (magic = header Firmware.BootloaderMeta)) then fail Meta_InvalidHeader
    else
      vb ← get_slice 4 20;
      match str_from_zero_padded_slice vb with
      | None => fail Meta_InvalidVersion
      | Some v =>
          gb ← get_slice 20 36;
          match str_from_zero_padded_slice gb with
          | None => fail Meta_InvalidGitRevision
          | Some g => mret (mkMeta v g)
          end
      end.

(** ** Provisioned data: round trips

    What [as_bytes] writes, [try_from_bytes] reads: board config and bootloader
    metadata, from any buffer of the right size and with anything behind it. *)

(** ** Zero-padded fields *)

Definition zeros (n : Z) : list Z := replicate (Z.to_nat n) 0.
(** A field of [n] bytes that starts with [data]. *)
Definition pad (n : Z) (data : list Z) : list Z := data ++ zeros (n - len data).

Lemma len_zeros n : 0 ≤ n → len (zeros n) = n.
Proof. intros. unfold len, zeros. rewrite length_replicate. lia. Qed.

Lemma len_pad n data : len data ≤ n → len (pad n data) = n.
Proof. intros. unfold pad. rewrite len_app, len_zeros by lia. lia. Qed.

Lemma zeros_add n m : 0 ≤ n → 0 ≤ m → zeros (n + m) = zeros n ++ zeros m.
Proof. intros. unfold zeros. rewrite Z2Nat.inj_add by lia. apply replicate_add. Qed.

Lemma replicate_zeros {A} (l : list A) : replicate (length l) 0 = zeros (len l).
Proof. unfold zeros, len. by rewrite Nat2Z.id. Qed.

(** Writing the next field of a buffer that is zero from [off] on. *)
Lemma put_field {E} off n m data p :
  len p = off → len data ≤ n → 0 ≤ m →
  put_slice (E := E) off data (p ++ zeros (n + m)) = (Ok tt, (p ++ pad n data) ++ zeros m).
Proof.
  intros Hp Hd Hm. pose proof (len_nonneg data).
  apply (put_slice_at off data p (zeros (len data)) (zeros (n - len data + m))); [| |done|by rewrite len_zeros].
  - rewrite <-zeros_add by lia. do 2 f_equal. lia.
  - unfold pad. by rewrite <-!(assoc_L (++)), <-zeros_add by lia.
Qed.

Lemma read_field {E} lo hi p x s b :
  b = p ++ x ++ s → len p = lo → hi = lo + len x → get_slice (E := E) lo hi b = (Ok x, b).
Proof.
  intros -> Hp ->. pose proof (len_nonneg x). pose proof (len_nonneg s). pose proof (len_nonneg p).
  rewrite get_slice_run by (rewrite !len_app; lia). by rewrite slice_mid by lia.
Qed.

Lemma slice_pad_prefix k n data : 0 ≤ k ≤ n → len data ≤ k → slice 0 k (pad n data) = pad k data.
Proof.
  intros Hk Hd. unfold pad. replace (n - len data) with ((k - len data) + (n - k)) by lia.
  rewrite zeros_add by lia. rewrite (assoc_L (++)). apply slice_app_l. rewrite len_app, len_zeros; lia.
Qed.

Lemma find_zero_app s l : 0 ∉ s → find_zero (s ++ l) = Z.add (len s) <$> find_zero l.
Proof.
  induction s as [|b s IH]; cbn [find_zero app]; intros Hn.
  - destruct (find_zero l); [|done]. cbn. f_equal.
  - apply not_elem_of_cons in Hn as [Hb Hn]. rewrite (proj2 (Z.eqb_neq b 0)) by congruence.
    rewrite IH by done. destruct (find_zero l); [|done]. cbn. rewrite len_cons. f_equal. lia.
Qed.

Lemma find_zero_pad n s : 0 ∉ s → len s ≤ n → default n (find_zero (pad n s)) = len s.
Proof.
  intros Hs Hn. unfold pad. rewrite find_zero_app by done. unfold zeros.
  destruct (Z.to_nat (n - len s)) as [|k] eqn:Hk; cbn; lia.
Qed.

Lemma find_zero_None l : 0 ∉ l → find_zero l = None.
Proof. intros Hn. rewrite <-(app_nil_r l). by rewrite find_zero_app. Qed.

(** ** Strings *)

Lemma try_string_pad {S E} mx n s (st : S) :
  0 ∉ s → utf8_valid s = true → len s ≤ mx ≤ n →
  try_string_from_bytes (E := E) mx (pad n s) st = (Ok (Some s), st).
Proof.
  intros H0 Hu Hl. unfold try_string_from_bytes, mbind, M_bind. rewrite len_pad, Z.min_r by lia.
  pose proof (len_nonneg s). rewrite slice_pad_prefix, find_zero_pad by (done || lia).
  rewrite range_of_run by (rewrite len_pad; lia). unfold pad. rewrite slice_app_l by done. by rewrite Hu.
Qed.

Lemma str_pad n s :
  0 ∉ s → utf8_valid s = true → len s ≤ n → str_from_zero_padded_slice (pad n s) = Some s.
Proof.
  intros H0 Hu Hl. unfold str_from_zero_padded_slice. rewrite len_pad, find_zero_pad by done.
  unfold pad. rewrite slice_app_l by done. by rewrite Hu.
Qed.

(** A slice that ends before the limit, with no zero byte in it, is read past its end. *)
Theorem short_string_panics {S E} mx bytes (st : S) :
  len bytes < mx → 0 ∉ bytes → try_string_from_bytes (E := E) mx bytes st = (Panic, st).
Proof.
  intros Hl H0. unfold try_string_from_bytes, mbind, M_bind. rewrite Z.min_l by lia.
  rewrite slice_all by lia. rewrite find_zero_None by done. change (default mx None) with mx. unfold range_of.
  by rewrite (proj2 (Z.leb_gt mx (len bytes))), andb_false_r by lia.
Qed.

(** ** Board config *)

Section config.
Context {D : Type} `{!DeviceType D, !DeviceTypeLaws D}.

(** A provisioned config: a serial number without zero bytes that fits its string,
    a certificate and a key that fit their fields. *)
Definition config_ok (c : FirmwareConfig D) : Prop :=
  0 ∉ serial c ∧ utf8_valid (serial c) = true ∧ len (serial c) ≤ MAX_UID_LEN ∧
  len (client_cert c) ≤ MAX_CERT_SIZE ∧ len (client_key c) ≤ MAX_KEY_SIZE.

Definition len_field (l : list Z) : list Z := le_bytes 4 (as_u32 (len l)).

Definition config_image (c : FirmwareConfig D) : list Z :=
  (((((header Config ++ pad 16 (serial c)) ++ pad 4 (len_field (client_cert c))) ++ pad 1024 (client_cert c)) ++
    pad 4 (len_field (client_key c))) ++ pad 512 (client_key c)) ++ pad 1 [to_byte (c_device_type c)].

Lemma len_len_field l : len (len_field l) = 4.
Proof. unfold len_field, len. by rewrite length_le_bytes. Qed.

Lemma le_val_len_field l : len l < u32_size → le_val (len_field l) = len l.
Proof.
  intros Hl. pose proof (len_nonneg l). unfold len_field. rewrite as_u32_small by done.
  by rewrite le_val_le_bytes_small.
Qed.

Lemma pad_all n l : len l = n → pad n l = l.
Proof. intros <-. unfold pad. rewrite Z.sub_diag. apply app_nil_r. Qed.

Ltac lens := rewrite ?len_app, ?len_pad; rewrite ?len_len_field, ?len_cons; unfold MAX_UID_LEN, MAX_SERIAL_SIZE_BYTES, MAX_CERT_SIZE, MAX_KEY_SIZE in *;
  try change (len (header Config)) with 4; try change (len (@nil Z)) with 0; lia.

Lemma len_config_image c : config_ok c → len (config_image c) = CONFIG_BINARY_SIZE.
Proof. intros (_ & _ & ?&?&?). unfold config_image. change CONFIG_BINARY_SIZE with 1565. lens. Qed.

Lemma config_as_bytes_run c buf :
  config_ok c → len buf = CONFIG_BINARY_SIZE → config_as_bytes c buf = (Ok tt, config_image c).
Proof.
  intros (_ & _ & Hs & Hc & Hk) Hl. unfold config_as_bytes, mbind, M_bind, modify.
  change (le_bytes 4 (as_u32 (len (client_cert c)))) with (len_field (client_cert c)).
  change (le_bytes 4 (as_u32 (len (client_key c)))) with (len_field (client_key c)).
  rewrite (replicate_zeros buf), Hl. change (zeros CONFIG_BINARY_SIZE) with ([] ++ zeros (4 + 1561)).
  rewrite put_field by (done || lens). rewrite (pad_all 4 (header Config)), app_nil_l by done.
  rewrite Z.min_l by lens. rewrite slice_all by lia.
  change 1561 with (16 + 1545). rewrite put_field by (done || lens).
  change 1545 with (4 + 1541). rewrite (put_field 20) by (done || lens).
  change 1541 with (1024 + 517). rewrite (put_field 24) by (done || lens).
  change 517 with (4 + 513). rewrite (put_field 1048) by (done || lens).
  change 513 with (512 + 1). rewrite (put_field 1052) by (done || lens).
  change (zeros 1) with (zeros (1 + 0)). rewrite (put_field 1564) by (done || lens).
  unfold config_image. by rewrite (app_nil_r (_ ++ pad 1 _)).
Qed.

Lemma config_try_run c rest :
  config_ok c → config_try_from_bytes (config_image c ++ rest) = (Ok c, config_image c ++ rest).
Proof.
  intros Hok. pose proof (len_config_image c Hok) as Hlen. destruct Hok as (H0 & Hu & Hs & Hc & Hk).
  pose proof (len_nonneg (client_cert c)). pose proof (len_nonneg (client_key c)). pose proof (len_nonneg rest).
  unfold config_try_from_bytes, mbind, M_bind, gets. rewrite len_app, Hlen, (proj2 (Z.ltb_ge _ _)) by lia.
  unfold config_image. rewrite <-!(assoc_L (++)). set (h := header Config). set (sf := pad 16 (serial c)).
  set (cl := pad 4 (len_field (client_cert c))). set (kl := pad 4 (len_field (client_key c))).
  set (cf := pad 1024 (client_cert c)). set (kf := pad 512 (client_key c)).
  assert (Hh : len h = 4) by done. assert (Hsf : len sf = 16) by (unfold sf; lens). assert (Hcl : len cl = 4) by (unfold cl; lens).
  assert (Hkl : len kl = 4) by (unfold kl; lens). assert (Hcf : len cf = 1024) by (unfold cf; lens). assert (Hkf : len kf = 512) by (unfold kf; lens).
  set (b := h ++ _).
  rewrite (read_field 0 4 [] h (sf ++ cl ++ cf ++ kl ++ kf ++ pad 1 [to_byte (c_device_type c)] ++ rest)) by done.
  rewrite bool_decide_true by done. cbn [negb].
  rewrite (read_field 4 20 h sf (cl ++ cf ++ kl ++ kf ++ pad 1 [to_byte (c_device_type c)] ++ rest)) by (done || lia).
  unfold sf at 1. rewrite try_string_pad by (done || lens).
  rewrite (read_field 20 24 (h ++ sf) cl (cf ++ kl ++ kf ++ pad 1 [to_byte (c_device_type c)] ++ rest)) by (unfold b; rewrite <-?(assoc_L (++)); done || lens).
  assert (le_val cl = len (client_cert c)) as ->.
  { unfold cl. rewrite pad_all by apply len_len_field. apply le_val_len_field. unfold u32_size. lens. }
  rewrite (proj2 (Z.ltb_ge _ _)) by done.
  rewrite (read_field 24 (24 + len (client_cert c)) (h ++ sf ++ cl) (client_cert c) (zeros (1024 - len (client_cert c)) ++ kl ++ kf ++ pad 1 [to_byte (c_device_type c)] ++ rest))
    by (unfold b, cf, pad; rewrite <-?(assoc_L (++)); done || lens).
  rewrite (read_field 1048 1052 (h ++ sf ++ cl ++ cf) kl (kf ++ pad 1 [to_byte (c_device_type c)] ++ rest)) by (unfold b; rewrite <-?(assoc_L (++)); done || lens).
  assert (le_val kl = len (client_key c)) as ->.
  { unfold kl. rewrite pad_all by apply len_len_field. apply le_val_len_field. unfold u32_size. lens. }
  rewrite (proj2 (Z.ltb_ge _ _)) by done.
  rewrite (read_field 1052 (1052 + len (client_key c)) (h ++ sf ++ cl ++ cf ++ kl) (client_key c) (zeros (512 - len (client_key c)) ++ pad 1 [to_byte (c_device_type c)] ++ rest))
    by (unfold b, kf, pad; rewrite <-?(assoc_L (++)); done || lens).
  rewrite (read_field 1564 1565 (h ++ sf ++ cl ++ cf ++ kl ++ kf) [to_byte (c_device_type c)] rest) by (unfold b; rewrite <-?(assoc_L (++)); done || lens).
  cbn [le_val foldr]. rewrite Z.mul_0_r, Z.add_0_r, byte_roundtrip. by destruct c.
Qed.

(** A provisioned config survives its section of flash.  [as_bytes] does not
    panic and overwrites the whole section, and [try_from_bytes] reads the same
    serial number, certificate, key and device type back, whatever the section held
    before and whatever follows it. *)
Theorem config_roundtrip c buf :
  config_ok c → len buf = CONFIG_BINARY_SIZE →
  ∃ out, config_as_bytes c buf = (Ok tt, out) ∧ len out = CONFIG_BINARY_SIZE ∧
    ∀ rest, config_try_from_bytes (out ++ rest) = (Ok c, out ++ rest).
Proof using DeviceTypeLaws0.
  intros Hok Hl. exists (config_image c). split; [by apply config_as_bytes_run|]. split; [by apply len_config_image|].
  intros rest. by apply config_try_run.
Qed.
End config.

(** ** Bootloader metadata *)

Definition meta_ok (m : BootloaderMeta) : Prop :=
  (0 ∉ version m ∧ utf8_valid (version m) = true ∧ len (version m) ≤ VERSION_LEN) ∧
  (0 ∉ git_revision m ∧ utf8_valid (git_revision m) = true ∧ len (git_revision m) ≤ VERSION_LEN).

(** Bootloader metadata reads back as written: versions and revisions of up to
    sixteen bytes, from a buffer of any sufficient size, of which the bytes behind
    the record are kept. *)
Theorem meta_roundtrip m buf :
  meta_ok m → META_BINARY_SIZE ≤ len buf →
  ∃ out, meta_as_bytes m buf = (Ok tt, out ++ slice META_BINARY_SIZE (len buf) buf) ∧ len out = META_BINARY_SIZE ∧
    ∀ rest, meta_try_from_bytes (out ++ rest) = (Ok m, out ++ rest).
Proof.
  intros [(Hv0 & Hvu & Hv) (Hg0 & Hgu & Hg)] Hl. change META_BINARY_SIZE with 36 in *. change VERSION_LEN with 16 in *.
  set (h := header Firmware.BootloaderMeta). assert (Hh : len h = 4) by done.
  exists ((h ++ pad 16 (version m)) ++ pad 16 (git_revision m)). split; [|split].
  - unfold meta_as_bytes, mbind, M_bind, gets. change META_BINARY_SIZE with 36. change VERSION_LEN with 16. fold h. rewrite (proj2 (Z.ltb_ge _ _)) by done.
    unfold on_range. change ((0 <=? 36) && (36 <=? len buf)) with (36 <=? len buf). rewrite (proj2 (Z.leb_le _ _)) by done.
    unfold modify. cbv beta iota. rewrite replicate_zeros, len_slice by lia.
    change (zeros (36 - 0)) with ([] ++ zeros (4 + 32)).
    rewrite put_field by (done || lia). rewrite pad_all, app_nil_l by done.
    rewrite !Z.min_l by done. rewrite !slice_all by lia.
    change 32 with (16 + 16). rewrite put_field by (done || lia).
    change (zeros 16) with (zeros (16 + 0)). rewrite put_field by (done || (rewrite ?len_app, ?len_pad, ?Hh by done; done || lia)).
    rewrite (app_nil_r (_ ++ pad 16 (git_revision m))). f_equal. unfold splice_at. rewrite take_0, app_nil_l. f_equal.
    unfold slice. rewrite take_ge by (rewrite length_drop; unfold len; lia). f_equal.
    rewrite !length_app. pose proof (len_pad 16 (version m) Hv). pose proof (len_pad 16 (git_revision m) Hg). unfold len in *. lia.
  - by rewrite !len_app, !len_pad, Hh by lia.
  - intros rest. unfold meta_try_from_bytes, mbind, M_bind, gets. pose proof (len_nonneg rest).
    rewrite !len_app, !len_pad, Hh by lia. rewrite (proj2 (Z.ltb_ge _ _)) by (change META_BINARY_SIZE with 36; lia).
    rewrite <-!(assoc_L (++)). rewrite (read_field 0 4 [] h (pad 16 (version m) ++ pad 16 (git_revision m) ++ rest)) by done.
    rewrite bool_decide_true by done. cbn [negb].
    rewrite (read_field 4 20 h (pad 16 (version m)) (pad 16 (git_revision m) ++ rest)) by (done || (rewrite len_pad by done; done)).
    rewrite str_pad by done.
    rewrite (read_field 20 36 (h ++ pad 16 (version m)) (pad 16 (git_revision m)) rest)
      by (rewrite <-?(assoc_L (++)); done || (rewrite ?len_app, ?len_pad, ?Hh by done; done)).
    rewrite str_pad by done. by destruct m.
Qed.

(** ** A board and its bootloader *)

Module DemoMeta.
Import DemoFirmware.
Definition board : FirmwareConfig bool := mkConfig [65; 48; 48; 49; 50; 51; 52; 53; 54] [1; 2; 0; 3] [4; 0] true.
Definition boot : BootloaderMeta := mkMeta [49; 50; 46; 49] [0xC3; 0xA9].

Lemma config_roundtrip_witness :
  len (serial board) = MAX_UID_LEN ∧
  ∃ out, config_as_bytes board (replicate 1565 0x11) = (Ok tt, out) ∧ len out = CONFIG_BINARY_SIZE ∧
    ∀ rest, config_try_from_bytes (out ++ rest) = (Ok board, out ++ rest).
Proof.
  split; [reflexivity|]. apply (config_roundtrip board (replicate 1565 0x11)); [|reflexivity].
  split; [by apply (bool_decide_unpack _)|]. split; [reflexivity|]. split; [|split]; vm_compute; discriminate.
Defined.

Lemma meta_roundtrip_witness :
  ∃ out, meta_as_bytes boot (replicate 40 0x11) = (Ok tt, out ++ slice META_BINARY_SIZE (len (replicate 40 0x11)) (replicate 40 0x11)) ∧
    len out = META_BINARY_SIZE ∧ ∀ rest, meta_try_from_bytes (out ++ rest) = (Ok boot, out ++ rest).
Proof.
  apply (meta_roundtrip boot (replicate 40 0x11)); [|vm_compute; discriminate].
  split; (split; [by apply (bool_decide_unpack _)|split; [reflexivity|vm_compute; discriminate]]).
Defined.
End DemoMeta.
