(* ===== verification/MailThrottle.v ===== *)
(** * Throttled mail

    The server's mail task: [sensor-link-notify/src/mail_throttle.rs], the sliding
    window rate limiter, and the loop of [send_task] in [mail.rs].  An [Instant] is
    the number of nanoseconds since the earliest instant of the platform, a
    [Duration] a number of nanoseconds; sums are not bounded.  What the loop does to
    the outside (delivering an email, reporting a drop, metrics) is the list of its
    outputs, in order, with the instant at which it hands an email over.
    A turn of the loop gets the branch that [select!] takes and the instants that
    [Instant::now] returns; a disabled branch is the error [Blocked].  The bias of
    [select!] between branches that are ready together is not modelled. *)

From stdpp Require Import base list list_numbers numbers option strings sorting.
From S2P Require Import Prelude.

Definition SECOND : Z := 1000000000.
Definition MINUTE : Z := 60 * SECOND.
Definition HOUR : Z := 60 * 60 * SECOND.
Definition DAY : Z := 24 * 60 * 60 * SECOND.

(** [Instant::checked_sub] and [VecDeque::partition_point] *)
Definition checked_sub (instant duration : Z) : option Z :=
  if duration <=? instant then Some (instant - duration) else None.
Fixpoint partition_point (pred : Z → bool) (l : list Z) : Z :=
  match l with
  | [] => 0
  | x :: l => if pred x then 1 + partition_point pred l else 0
  end.

(** ** [RateLimiter] *)

Record ThrottleConfig : Type := mkThrottle {
  per_minute : Z;
  per_hour : Z;
  per_day : Z;
  max_queued : Z
}.
Definition throttle_default : ThrottleConfig := mkThrottle 20 200 800 10000.

Definition batch_idle_time (c : ThrottleConfig) : Z :=
  let longest_gap := if per_hour c <? per_minute c * 60 then HOUR else MINUTE in
  longest_gap + MINUTE.

Record RateLimiter : Type := mkLimiter { lim_config : ThrottleConfig; sends : list Z }.
Definition set_sends (l : list Z) (r : RateLimiter) : RateLimiter := mkLimiter (lim_config r) l.

Abbreviation ML := (M RateLimiter Empty_set).

Definition limiter_new (config : ThrottleConfig) : RateLimiter := mkLimiter config [].

(** The loop of [prune]. *)
Fixpoint pop_expired (cutoff : Z) (l : list Z) : list Z :=
  match l with
  | [] => []
  | ts :: l' => if ts <=? cutoff then pop_expired cutoff l' else l
  end.
Definition prune (now : Z) : ML unit :=
  match checked_sub now DAY with
  | None => mret tt
  | Some cutoff => modify (λ r, set_sends (pop_expired cutoff (sends r)) r)
  end.

Definition record (now count : Z) : ML unit :=
  prune now;;
  modify (λ r, set_sends (sends r ++ replicate (Z.to_nat count) now) r).

Definition window_release (now window limit count : Z) : ML (option Z) :=
  l ← gets sends;
  let first_in_window := match checked_sub now window with
                         | Some cutoff => partition_point (λ ts, ts <=? cutoff) l
                         | None => 0
                         end in
  let in_window := len l - first_in_window in
  if in_window + count <=? limit then mret None
  else if in_window =? 0 then mret None
  else
    let must_expire := Z.min (in_window + count - limit) in_window in
    match l !! Z.to_nat (first_in_window + must_expire - 1) with
    | Some last_to_expire => mret (Some (last_to_expire + window))
    | None => panic
    end.

(** [Iterator::max] over the releases that are not [None]. *)
Definition max_release (a b : option Z) : option Z := union_with (λ x y, Some (Z.max x y)) a b.

Definition next_allowed (now count : Z) : ML (option Z) :=
  prune now;;
  c ← gets lim_config;
  minute ← window_release now MINUTE (per_minute c) count;
  hour ← window_release now HOUR (per_hour c) count;
  day ← window_release now DAY (per_day c) count;
  mret (max_release (max_release minute hour) day).

(** ** The mail task *)

Record Email : Type := mkEmail {
  recipients : list string;
  cc : option string;
  subject : string;
  message : string;
  html : option string;
  logo_path : string;
  urgent : bool
}.
Definition send_count (m : Email) : Z := len (recipients m).

Definition SHUTDOWN_DRAIN_GRACE : Z := 60 * SECOND.
Definition RELEASE_STARVATION_LIMIT : Z := 1 * SECOND.

Record QueuedEmail : Type := mkQueued { mail : Email; queued_at : Z }.
Record Batch : Type := mkBatch { started_at : Z; last_sent_at : Z; batch_sent : Z }.

Inductive DropReason : Type := DROP_QUEUE_FULL | DROP_SHUTDOWN.
Inductive Output : Type :=
| SendEmail (at_ : Z) (m : Email)
| ReportDropped (m : Email) (reason : DropReason)
| RecordBatch (b : Batch).

(** The locals of [send_task], and its outputs so far. *)
Record SendTask : Type := mkTask {
  limiter : RateLimiter;
  queue : list QueuedEmail;
  batch : option Batch;
  drain_until : option Z;
  eligible_since : option Z;
  outputs : list Output
}.
Definition set_limiter (l : RateLimiter) (t : SendTask) : SendTask :=
  mkTask l (queue t) (batch t) (drain_until t) (eligible_since t) (outputs t).
Definition set_queue (q : list QueuedEmail) (t : SendTask) : SendTask :=
  mkTask (limiter t) q (batch t) (drain_until t) (eligible_since t) (outputs t).
Definition set_batch (b : option Batch) (t : SendTask) : SendTask :=
  mkTask (limiter t) (queue t) b (drain_until t) (eligible_since t) (outputs t).
Definition set_drain_until (d : option Z) (t : SendTask) : SendTask :=
  mkTask (limiter t) (queue t) (batch t) d (eligible_since t) (outputs t).
Definition set_eligible_since (e : option Z) (t : SendTask) : SendTask :=
  mkTask (limiter t) (queue t) (batch t) (drain_until t) e (outputs t).
Definition emit (o : list Output) (t : SendTask) : SendTask :=
  mkTask (limiter t) (queue t) (batch t) (drain_until t) (eligible_since t) (outputs t ++ o).

(** The branches of [select!]. *)
Inductive Branch : Type :=
| MailReceived (m : option Email)
| Release
| BatchDone
| DrainExpired
| ShutdownChanged.

(** What one turn gets from its environment: the clock at the top of the loop, when
    the branch is taken and when an email was handed over; and the branch. *)
Record Turn : Type := mkTurn { at_top : Z; at_branch : Z; at_end : Z; branch : Branch }.

Inductive Blocked : Type := branch_disabled.
Abbreviation MT := (M SendTask Blocked).

Definition on_limiter {A} (m : ML A) : MT A :=
  map_err (λ e : Empty_set, match e with end) (zoom limiter set_limiter m).

Definition guard_branch (b : bool) : MT unit := if b then mret tt else fail branch_disabled.

Definition is_some {A} (o : option A) : bool := if o is Some _ then true else false.

(** [sleep_until] has fired. *)
Definition reached (now : Z) (deadline : option Z) : bool :=
  match deadline with Some d => d <=? now | None => true end.

Definition report_dropped_all (reason : DropReason) (l : list QueuedEmail) : list Output :=
  (λ q, ReportDropped (mail q) reason) <$> l.

Definition receive_mail (throttle : ThrottleConfig) (now : Z) (m : option Email) : MT unit :=
  match m with
  | None => modify (set_drain_until (Some (now + SHUTDOWN_DRAIN_GRACE)))
  | Some m =>
      if urgent m then
        on_limiter (record now (send_count m));;
        modify (emit [SendEmail now m])
      else
        b ← gets batch;
        (if b is None then modify (set_batch (Some (mkBatch now now 0))) else mret tt);;
        q ← gets queue;
        (if max_queued throttle <=? len q then
           match q with
           | dropped :: q => modify (set_queue q);; modify (emit [ReportDropped (mail dropped) DROP_QUEUE_FULL])
           | [] => mret tt
           end
         else mret tt);;
        modify (λ t, set_queue (queue t ++ [mkQueued m now]) t)
  end.

Definition release_mail (now finished : Z) : MT unit :=
  q ← gets queue;
  match q with
  | [] => mret tt
  | queued :: q =>
      modify (set_queue q);;
      modify (set_eligible_since None);;
      on_limiter (record now (send_count (mail queued)));;
      modify (emit [SendEmail now (mail queued)]);;
      modify (λ t, set_batch ((λ b, mkBatch (started_at b) finished (batch_sent b + 1)) <$> batch t) t)
  end.

(** One turn of the loop; the result says whether the loop ended. *)
Definition send_turn (throttle : ThrottleConfig) (e : Turn) : MT bool :=
  drain ← gets drain_until;
  q ← gets queue;
  if is_some drain && (len q =? 0) then mret true
  else
    b ← gets batch;
    let batch_done_at := if q is [] then (λ b, last_sent_at b + batch_idle_time throttle) <$> b else None in
    release_at ← match q with
                 | [] => mret None
                 | queued :: _ =>
                     r ← on_limiter (next_allowed (at_top e) (send_count (mail queued)));
                     mret (Some r)
                 end;
    (if release_at is Some None
     then modify (λ t, set_eligible_since (Some (default (at_top e) (eligible_since t))) t)
     else modify (set_eligible_since None));;
    since ← gets eligible_since;
    let starving := if since is Some s then RELEASE_STARVATION_LIMIT <=? at_top e - s else false in
    match branch e with
    | MailReceived m =>
        guard_branch (negb (is_some drain) && negb starving);;
        receive_mail throttle (at_branch e) m;;
        mret false
    | Release =>
        guard_branch (if release_at is Some r then reached (at_branch e) r else false);;
        release_mail (at_branch e) (at_end e);;
        mret false
    | BatchDone =>
        guard_branch (is_some batch_done_at && reached (at_branch e) batch_done_at);;
        b ← gets batch;
        modify (set_batch None);;
        modify (emit (if b is Some b then [RecordBatch b] else []));;
        mret false
    | DrainExpired =>
        guard_branch (is_some drain && reached (at_branch e) drain);;
        q ← gets queue;
        modify (set_queue []);;
        modify (emit (report_dropped_all DROP_SHUTDOWN q));;
        mret true
    | ShutdownChanged =>
        guard_branch (negb (is_some drain));;
        modify (set_drain_until (Some (at_branch e + SHUTDOWN_DRAIN_GRACE)));;
        mret false
    end.

Definition task_new (throttle : ThrottleConfig) : SendTask :=
  mkTask (limiter_new throttle) [] None None None [].

(** The loop, and what follows it. *)
Fixpoint send_loop (throttle : ThrottleConfig) (turns : list Turn) : MT bool :=
  match turns with
  | [] => mret false
  | e :: turns =>
      done ← send_turn throttle e;
      if done : bool then mret true else send_loop throttle turns
  end.
Definition send_task (throttle : ThrottleConfig) (turns : list Turn) : MT bool :=
  done ← send_loop throttle turns;
  (if done : bool then
     b ← gets batch;
     modify (set_batch None);;
     modify (emit (if b is Some b then [RecordBatch b] else []))
   else mret tt);;
  mret done.

(** ** Throttled mail: limits and order

    The rate limiter against its specification by counting, and the invariants of
    the mail task: nothing is lost or reordered, and no throttled mail exceeds a
    limit. *)

(** ** Sends in a window *)

(** The sends of [l] in the window of length [w] that ends at [t]. *)
Definition count_in (l : list Z) (t w : Z) : Z := len (filter (λ ts, t - w < ts) l).

(** [count] more sends fit at [t]: within the limit, or the window is empty. *)
Definition fits_window (l : list Z) (w limit count t : Z) : Prop :=
  count_in l t w + count ≤ limit ∨ count_in l t w = 0.
Definition fits (c : ThrottleConfig) (l : list Z) (count t : Z) : Prop :=
  fits_window l MINUTE (per_minute c) count t ∧ fits_window l HOUR (per_hour c) count t ∧
  fits_window l DAY (per_day c) count t.

(** [r] is the earliest instant from [now] on from which [P] holds. *)
Definition earliest (P : Z → Prop) (now : Z) (r : option Z) : Prop :=
  match r with
  | None => ∀ t, now ≤ t → P t
  | Some e => now < e ∧ (∀ t, e ≤ t → P t) ∧ (∀ t, now ≤ t < e → ¬ P t)
  end.

Definition sends_ok (now : Z) (l : list Z) : Prop := StronglySorted Z.le l ∧ Forall (λ ts, 0 ≤ ts ≤ now) l.

Lemma filter_all {A} (P : A → Prop) `{∀ x, Decision (P x)} l : Forall P l → filter P l = l.
Proof. induction 1 as [|x l Hx _ IH]; [done|]. by rewrite filter_cons_True, IH. Qed.

Lemma filter_none {A} (P : A → Prop) `{∀ x, Decision (P x)} l : Forall (λ x, ¬ P x) l → filter P l = [].
Proof. induction 1 as [|x l Hx _ IH]; [done|]. by rewrite filter_cons_False. Qed.

Lemma earliest_and P Q now a b :
  earliest P now a → earliest Q now b → earliest (λ t, P t ∧ Q t) now (max_release a b).
Proof.
  destruct a as [x|], b as [y|]; cbn.
  - intros (? & HP & HnP) (? & HQ & HnQ). split; [lia|]. split; [intros t ?; split; [apply HP|apply HQ]; lia|].
    intros t ? [Hp Hq]. destruct (Z_lt_le_dec t x); [apply (HnP t); [lia|done]|apply (HnQ t); [lia|done]].
  - intros (? & HP & HnP) HQ. split; [lia|]. split; [intros t ?; split; [apply HP|apply HQ]; lia|].
    intros t ? [Hp _]. by apply (HnP t).
  - intros HP (? & HQ & HnQ). split; [lia|]. split; [intros t ?; split; [apply HP|apply HQ]; lia|].
    intros t ? [_ Hq]. by apply (HnQ t).
  - naive_solver.
Qed.

Lemma earliest_ext P Q now r : (∀ t, now ≤ t → P t ↔ Q t) → earliest P now r → earliest Q now r.
Proof.
  intros H. destruct r as [e|]; cbn.
  - intros (? & HP & HnP). split; [done|]. split; [intros t ?; apply H; [lia|]; by apply HP|].
    intros t ? Hq. apply (HnP t); [done|]. apply H; [lia|done].
  - intros HP t ?. apply H; [done|]. by apply HP.
Qed.

Lemma count_nonneg l t w : 0 ≤ count_in l t w.
Proof. unfold count_in, len. lia. Qed.

Lemma count_app l k t w : count_in (l ++ k) t w = count_in l t w + count_in k t w.
Proof. unfold count_in. by rewrite filter_app, len_app. Qed.

(** Sends that have left a window that is at least as long do not count. *)
Lemma count_filter l now d t w :
  w ≤ d → now ≤ t → count_in (filter (λ ts, now - d < ts) l) t w = count_in l t w.
Proof. intros. unfold count_in. rewrite list_filter_filter. f_equal. apply list_filter_iff. intros x. lia. Qed.

(** ** Sorted sends *)

Lemma partition_range p l : 0 ≤ partition_point p l ≤ len l.
Proof.
  induction l as [|x l IH]; cbn [partition_point]; [unfold len; cbn; lia|]. rewrite len_cons.
  destruct (p x); lia.
Qed.

Lemma filter_drop cutoff l :
  StronglySorted Z.le l →
  filter (λ ts, cutoff < ts) l = drop (Z.to_nat (partition_point (λ ts, ts <=? cutoff) l)) l.
Proof.
  induction 1 as [|x l Hs IH Hx]; [done|]. cbn [partition_point]. destruct (Z.leb_spec x cutoff).
  - rewrite filter_cons_False by lia. pose proof (partition_range (λ ts, ts <=? cutoff) l).
    replace (Z.to_nat _) with (S (Z.to_nat (partition_point (λ ts, ts <=? cutoff) l))) by lia. exact IH.
  - change (Z.to_nat 0) with 0%nat. rewrite drop_0. rewrite filter_cons_True by lia. f_equal.
    apply filter_all. eapply Forall_impl; [exact Hx|]. cbn. lia.
Qed.

Lemma pop_expired_drop cutoff l : pop_expired cutoff l = drop (Z.to_nat (partition_point (λ ts, ts <=? cutoff) l)) l.
Proof.
  induction l as [|x l IH]; [done|]. cbn. destruct (x <=? cutoff); [|done].
  pose proof (partition_range (λ ts, ts <=? cutoff) l).
  replace (Z.to_nat (1 + _)) with (S (Z.to_nat (partition_point (λ ts, ts <=? cutoff) l))) by lia. exact IH.
Qed.

Lemma filter_sorted (P : Z → Prop) `{∀ x, Decision (P x)} l : StronglySorted Z.le l → StronglySorted Z.le (filter P l).
Proof.
  induction 1 as [|x l Hs IH Hx]; [constructor|]. rewrite filter_cons. destruct (decide (P x)); [|done].
  constructor; [done|]. apply list.Forall_forall. intros y [_ Hy]%list_elem_of_filter.
  by apply (proj1 (list.Forall_forall _ _) Hx).
Qed.

Lemma filter_ok now (P : Z → Prop) `{∀ x, Decision (P x)} l : sends_ok now l → sends_ok now (filter P l).
Proof.
  intros [Hs Hf]. split; [by apply filter_sorted|]. apply list.Forall_forall. intros y [_ Hy]%list_elem_of_filter.
  by apply (proj1 (list.Forall_forall _ _) Hf).
Qed.

(** ** [prune] and [record] *)

Lemma window_start now w l :
  sends_ok now l →
  drop (Z.to_nat match checked_sub now w with
                 | Some cutoff => partition_point (λ ts, ts <=? cutoff) l
                 | None => 0
                 end) l = filter (λ ts, now - w < ts) l.
Proof.
  intros [Hs Hf]. unfold checked_sub. destruct (Z.leb_spec w now).
  - by rewrite filter_drop.
  - change (Z.to_nat 0) with 0%nat. rewrite drop_0. symmetry. apply filter_all.
    eapply Forall_impl; [exact Hf|]. cbn. lia.
Qed.

Lemma prune_run now r :
  sends_ok now (sends r) → prune now r = (Ok tt, set_sends (filter (λ ts, now - DAY < ts) (sends r)) r).
Proof.
  intros Hok. unfold prune. rewrite <-(window_start now DAY) by done. destruct (checked_sub now DAY).
  - unfold modify. by rewrite pop_expired_drop.
  - change (Z.to_nat 0) with 0%nat. rewrite drop_0. by destruct r.
Qed.

Definition recorded (now count : Z) (l : list Z) : list Z :=
  filter (λ ts, now - DAY < ts) l ++ replicate (Z.to_nat count) now.

Lemma record_run now count r :
  sends_ok now (sends r) → record now count r = (Ok tt, set_sends (recorded now count (sends r)) r).
Proof. intros Hok. unfold record, mbind, M_bind. by rewrite prune_run. Qed.

Lemma sends_ok_mono now now' l : now ≤ now' → sends_ok now l → sends_ok now' l.
Proof. intros ? [??]. split; [done|]. eapply Forall_impl; [done|]. cbn. lia. Qed.

Lemma recorded_ok now count l : 0 ≤ now → sends_ok now l → sends_ok now (recorded now count l).
Proof.
  intros Hn Hok. destruct (filter_ok now (λ ts, now - DAY < ts) l Hok) as [Hs Hf]. unfold recorded. split.
  - induction Hs as [|x k Hs IH Hx]; cbn.
    + induction (Z.to_nat count) as [|n IH]; cbn; constructor; [done|]. apply list.Forall_replicate. lia.
    + apply list.Forall_cons in Hf as [? Hf]. constructor; [by apply IH|]. apply list.Forall_app. split; [done|].
      apply list.Forall_replicate. lia.
  - apply list.Forall_app. split; [done|]. apply list.Forall_replicate. lia.
Qed.

(** ** [window_release] *)

(** The sends of a window after the first [k] have left it. *)
Lemma count_after K k x w t :
  StronglySorted Z.le K → K !! k = Some x → x + w ≤ t → count_in K t w ≤ len K - Z.of_nat k - 1.
Proof.
  intros Hs Hk Ht. unfold count_in. rewrite <-(take_drop (S k) K) at 1. rewrite filter_app, len_app.
  rewrite (filter_none _ (take (S k) K)).
  - pose proof (length_filter (λ ts, t - w < ts) (drop (S k) K)) as Hl. rewrite length_drop in Hl.
    apply lookup_lt_Some in Hk. unfold len. cbn [length]. lia.
  - apply list.Forall_forall. intros y (i & Hi)%list_elem_of_lookup. apply lookup_take_Some in Hi as [Hi Hlt].
    assert (y ≤ x); [|lia]. apply (sorted_lookup K i k); [done|lia|done..].
Qed.

Lemma count_before K k x w t :
  StronglySorted Z.le K → K !! k = Some x → t < x + w → len K - Z.of_nat k ≤ count_in K t w.
Proof.
  intros Hs Hk Ht. pose proof (lookup_lt_Some _ _ _ Hk). unfold count_in.
  rewrite <-(take_drop k K) at 2. rewrite filter_app, len_app.
  rewrite (filter_all _ (drop k K)); [unfold len; rewrite length_drop; lia|].
  apply list.Forall_forall. intros y (i & Hi)%list_elem_of_lookup. rewrite lookup_drop in Hi.
  assert (x ≤ y); [|lia]. apply (sorted_lookup K k (k + i)); [done|lia|done..].
Qed.

Lemma count_mono l t t' w : t ≤ t' → count_in l t' w ≤ count_in l t w.
Proof.
  intros. unfold count_in, len. induction l as [|x l IH]; [done|]. rewrite !filter_cons.
  destruct (decide (t' - w < x)); destruct (decide (t - w < x)); cbn [length]; lia.
Qed.

Lemma window_release_run now w limit count r :
  sends_ok now (sends r) → 0 < w → 0 ≤ limit → 0 ≤ count →
  ∃ e, window_release now w limit count r = (Ok e, r) ∧ earliest (fits_window (sends r) w limit count) now e.
Proof.
  intros Hok Hw Hlim Hc. unfold window_release, mbind, M_bind, gets. set (l := sends r) in *.
  pose proof (window_start now w l Hok) as HK. set (first := match checked_sub now w with Some c => _ | None => 0 end) in *.
  assert (Hfirst : 0 ≤ first ≤ len l).
  { unfold first. destruct (checked_sub now w); [apply partition_range|]. unfold len. lia. }
  set (K := filter (λ ts, now - w < ts) l) in *. assert (HlenK : len l - first = len K).
  { rewrite <-HK. unfold len. rewrite length_drop. unfold len in Hfirst. lia. }
  rewrite HlenK. assert (HcK : ∀ t, now ≤ t → count_in l t w = count_in K t w) by (intros; unfold K; by rewrite count_filter by lia).
  assert (Hfits : ∀ t, now ≤ t → fits_window l w limit count t ↔ fits_window K w limit count t) by (intros; unfold fits_window; by rewrite HcK).
  assert (HsK : StronglySorted Z.le K) by (apply filter_sorted, Hok).
  assert (Hnow : count_in K now w = len K).
  { unfold count_in. rewrite filter_all; [done|]. apply list.Forall_forall. by intros x [? _]%list_elem_of_filter. }
  destruct (Z.leb_spec (len K + count) limit) as [Hfit|Hfull].
  { exists None. split; [done|]. intros t Ht. apply Hfits; [done|]. left. pose proof (count_mono K now t w Ht). lia. }
  destruct (Z.eqb_spec (len K) 0) as [H0|H0].
  { exists None. split; [done|]. intros t Ht. apply Hfits; [done|]. right.
    pose proof (count_mono K now t w Ht). pose proof (count_nonneg K t w). lia. }
  pose proof (len_nonneg K). set (must := Z.min (len K + count - limit) (len K)).
  destruct (lookup_lt_is_Some_2 K (Z.to_nat (must - 1))) as [x Hx]; [unfold must, len in *; lia|].
  assert (l !! Z.to_nat (first + must - 1) = Some x) as ->.
  { rewrite <-Hx, <-HK, lookup_drop. f_equal. unfold must. lia. }
  exists (Some (x + w)). split; [done|]. split; [|split].
  - apply list_elem_of_lookup_2, list_elem_of_filter in Hx as [? _]. lia.
  - intros t Ht. apply Hfits; [apply list_elem_of_lookup_2, list_elem_of_filter in Hx as [? _]; lia|].
    pose proof (count_after K _ x w t HsK Hx Ht). pose proof (count_nonneg K t w).
    destruct (Z.min_spec (len K + count - limit) (len K)) as [[? Hm]|[? Hm]]; fold must in Hm; [left|right]; lia.
  - intros t Ht Hf%Hfits; [|lia]. pose proof (count_before K _ x w t HsK Hx ltac:(lia)).
    destruct Hf as [Hf|Hf]; unfold must in *; lia.
Qed.

Lemma MINUTE_pos : 0 < MINUTE < HOUR ∧ HOUR < DAY.
Proof. unfold MINUTE, HOUR, DAY, SECOND. lia. Qed.

Definition config_ok (c : ThrottleConfig) : Prop := 0 ≤ per_minute c ∧ 0 ≤ per_hour c ∧ 0 ≤ per_day c.

Lemma fits_filter c l now count t :
  now ≤ t → fits c (filter (λ ts, now - DAY < ts) l) count t ↔ fits c l count t.
Proof. intros. pose proof MINUTE_pos. unfold fits, fits_window. by rewrite !count_filter by lia. Qed.

Lemma next_allowed_run now count r :
  sends_ok now (sends r) → config_ok (lim_config r) → 0 ≤ count →
  ∃ e, next_allowed now count r = (Ok e, set_sends (filter (λ ts, now - DAY < ts) (sends r)) r) ∧
    earliest (fits (lim_config r) (sends r) count) now e.
Proof.
  intros Hok (Hm & Hh & Hd) Hc. pose proof MINUTE_pos. unfold next_allowed, mbind, M_bind.
  rewrite prune_run by done. set (r' := set_sends _ r). assert (Hok' : sends_ok now (sends r')) by (by apply filter_ok).
  change (gets lim_config r') with (@Ok Empty_set _ (lim_config r), r'). cbv iota beta.
  destruct (window_release_run now MINUTE (per_minute (lim_config r)) count r') as (a & -> & Ha); [done|lia..|].
  destruct (window_release_run now HOUR (per_hour (lim_config r)) count r') as (b & -> & Hb); [done|lia..|].
  destruct (window_release_run now DAY (per_day (lim_config r)) count r') as (d & -> & Hdd); [done|lia..|].
  exists (max_release (max_release a b) d). split; [done|].
  eapply earliest_ext; [|apply earliest_and; [apply earliest_and; [exact Ha|exact Hb]|exact Hdd]].
  intros t Ht. rewrite <-(fits_filter _ _ now) by done. change (filter _ (sends r)) with (sends r'). unfold fits. tauto.
Qed.

(** [next_allowed] is exact.  For a limiter whose sends are in order and not in
    the future it answers without panic, and its answer is the earliest instant from
    which on the sends fit the minute, the hour and the day window, counted over
    all recorded sends: at no instant before it do they fit, and [None] means they
    fit now.  Forgetting the sends of more than a day ago changes no answer. *)
Theorem next_allowed_is_earliest now count r :
  sends_ok now (sends r) → config_ok (lim_config r) → 0 ≤ count →
  ∃ e r', next_allowed now count r = (Ok e, r') ∧ earliest (fits (lim_config r) (sends r) count) now e ∧
    ∀ t n, now ≤ t → fits (lim_config r') (sends r') n t ↔ fits (lim_config r) (sends r) n t.
Proof.
  intros Hok Hcfg Hc. destruct (next_allowed_run now count r Hok Hcfg Hc) as (e & Hrun & He).
  eexists e, _. split; [exact Hrun|]. split; [exact He|]. intros t n Ht. by apply fits_filter.
Qed.

(** ** The mail task *)

(** The instants of all transactions with the mail server. *)
Definition send_times (o : list Output) : list Z :=
  o ≫= λ x, if x is SendEmail at_ m then replicate (Z.to_nat (send_count m)) at_ else [].

(** Throttled mail that has left the queue, sent or reported as dropped; urgent mail sent. *)
Definition handled_bulk (o : list Output) : list Email :=
  o ≫= λ x, match x with
            | SendEmail _ m => if urgent m then [] else [m]
            | ReportDropped m _ => [m]
            | RecordBatch _ => []
            end.
Definition sent_urgent (o : list Output) : list Email :=
  o ≫= λ x, if x is SendEmail _ m then (if urgent m then [m] else []) else [].

Definition bulk (l : list Email) : list Email := filter (λ m, urgent m = false) l.
Definition urgents (l : list Email) : list Email := filter (λ m, urgent m = true) l.

(** The emails a turn takes from the channel. *)
Definition received (e : Turn) : list Email := if branch e is MailReceived (Some m) then [m] else [].

Section task.
Context (throttle : ThrottleConfig) (Hcfg : config_ok throttle).

(** The states of the loop, with the clock and the emails accepted so far. *)
Inductive task_run : Z → list Email → SendTask → Prop :=
| run_start now : 0 ≤ now → task_run now [] (task_new throttle)
| run_turn now acc t e t' :
    task_run now acc t → now ≤ at_top e → at_top e ≤ at_branch e → at_branch e ≤ at_end e →
    send_turn throttle e t = (Ok false, t') →
    task_run (at_end e) (acc ++ received e) t'.

(** The loop with a clock that does not run backwards is such a run. *)
Fixpoint clock_ok (now : Z) (turns : list Turn) : Prop :=
  match turns with
  | [] => True
  | e :: turns => (now ≤ at_top e ∧ at_top e ≤ at_branch e ∧ at_branch e ≤ at_end e) ∧ clock_ok (at_end e) turns
  end.

Fixpoint clock_end (now : Z) (turns : list Turn) : Z :=
  match turns with [] => now | e :: turns => clock_end (at_end e) turns end.

Lemma send_loop_run turns now acc t t' :
  clock_ok now turns → send_loop throttle turns t = (Ok false, t') → task_run now acc t →
  task_run (clock_end now turns) (acc ++ (turns ≫= received)) t'.
Proof.
  revert now acc t. induction turns as [|e turns IH]; intros now acc t Hc Hl Hr.
  - injection Hl as <-. cbn. by rewrite app_nil_r.
  - destruct Hc as [(H1 & H2 & H3) Hc]. cbn [send_loop] in Hl. unfold mbind, M_bind in Hl.
    destruct (send_turn throttle e t) as [[[]| |] t1] eqn:He; [done| |done..].
    pose proof (IH (at_end e) (acc ++ received e) t1 Hc Hl (run_turn _ _ _ _ _ Hr H1 H2 H3 He)) as Hrun.
    rewrite <-(assoc_L (++)) in Hrun. exact Hrun.
Qed.

(** Every throttled email was sent when it fitted, given all that was sent before it. *)
Definition within_limits (o : list Output) : Prop :=
  ∀ pre at_ m post, o = pre ++ SendEmail at_ m :: post → urgent m = false →
    fits throttle (send_times pre) (send_count m) at_.

Definition limiter_inv (now : Z) (l : RateLimiter) (o : list Output) : Prop :=
  0 ≤ now ∧ sends_ok now (sends l) ∧ lim_config l = throttle ∧
  ∀ t w, now ≤ t → w ≤ DAY → count_in (sends l) t w = count_in (send_times o) t w.

Definition fifo (acc : list Email) (q : list QueuedEmail) (o : list Output) : Prop :=
  bulk acc = handled_bulk o ++ (mail <$> q) ∧ urgents acc = sent_urgent o ∧
  Forall (λ x, urgent (mail x) = false) q ∧ len q ≤ Z.max 1 (max_queued throttle).

Definition task_inv (now : Z) (acc : list Email) (t : SendTask) : Prop :=
  limiter_inv now (limiter t) (outputs t) ∧ within_limits (outputs t) ∧ fifo acc (queue t) (outputs t).

(** *** Outputs *)

Lemma within_limits_snoc o x :
  within_limits o → (∀ at_ m, x = SendEmail at_ m → urgent m = false → fits throttle (send_times o) (send_count m) at_) →
  within_limits (o ++ [x]).
Proof.
  intros Ho Hx pre at_ m post Heq Hu. destruct post as [|y post] using rev_ind.
  - apply app_inj_tail in Heq as [-> ->]. by apply Hx.
  - rewrite app_comm_cons, (assoc_L (++)) in Heq. apply app_inj_tail in Heq as [-> _]. by apply (Ho pre at_ m post).
Qed.

Definition is_send (x : Output) : bool := if x is SendEmail _ _ then true else false.

Lemma within_limits_emit o l :
  Forall (λ x, is_send x = false) l → within_limits o → within_limits (o ++ l).
Proof.
  intros Hl. revert o. induction Hl as [|x l Hx Hl IH]; intros o Ho; [by rewrite app_nil_r|].
  rewrite (cons_middle x), (assoc_L (++)). apply IH. apply within_limits_snoc; [done|]. intros ?? ->. done.
Qed.

Lemma send_times_app o l : send_times (o ++ l) = send_times o ++ send_times l.
Proof. apply bind_app. Qed.
Lemma handled_app o l : handled_bulk (o ++ l) = handled_bulk o ++ handled_bulk l.
Proof. apply bind_app. Qed.
Lemma sent_urgent_app o l : sent_urgent (o ++ l) = sent_urgent o ++ sent_urgent l.
Proof. apply bind_app. Qed.

Lemma send_times_quiet l : Forall (λ x, is_send x = false) l → send_times l = [] ∧ sent_urgent l = [].
Proof. induction 1 as [|[]] ; naive_solver. Qed.

Lemma bulk_snoc acc m : bulk (acc ++ [m]) = bulk acc ++ (if urgent m then [] else [m]).
Proof. unfold bulk. rewrite filter_app, filter_cons, filter_nil. by destruct (urgent m). Qed.
Lemma urgents_snoc acc m : urgents (acc ++ [m]) = urgents acc ++ (if urgent m then [m] else []).
Proof. unfold urgents. rewrite filter_app, filter_cons, filter_nil. by destruct (urgent m). Qed.

(** *** The limiter *)

Lemma limiter_inv_later now now' l o : now ≤ now' → limiter_inv now l o → limiter_inv now' l o.
Proof.
  intros ? (? & Hs & Hc & Hl). split; [lia|]. split; [by eapply sends_ok_mono|]. split; [done|].
  intros t w ??. apply Hl; lia.
Qed.

Lemma limiter_inv_quiet now l o k :
  Forall (λ x, is_send x = false) k → limiter_inv now l o → limiter_inv now l (o ++ k).
Proof.
  intros Hk (? & Hs & Hc & Hl). unfold limiter_inv. rewrite send_times_app, (proj1 (send_times_quiet _ Hk)), app_nil_r. done.
Qed.

Lemma limiter_inv_pruned now l o :
  limiter_inv now l o → limiter_inv now (set_sends (filter (λ ts, now - DAY < ts) (sends l)) l) o.
Proof.
  intros (? & Hs & Hc & Hl). split; [done|]. split; [by apply filter_ok|]. split; [done|].
  intros t w ??. cbn [sends set_sends]. rewrite count_filter by lia. by apply Hl.
Qed.

Lemma limiter_inv_sent now l o m :
  limiter_inv now l o →
  limiter_inv now (set_sends (recorded now (send_count m) (sends l)) l) (o ++ [SendEmail now m]).
Proof.
  intros (? & Hs & Hc & Hl). split; [done|]. split; [by apply recorded_ok|]. split; [done|].
  intros t w ??. cbn [sends set_sends]. rewrite send_times_app. unfold recorded.
  rewrite !count_app, count_filter, Hl by lia. f_equal. cbn. by rewrite app_nil_r.
Qed.

Lemma inv_fits now l o count t :
  limiter_inv now l o → now ≤ t → fits (lim_config l) (sends l) count t ↔ fits throttle (send_times o) count t.
Proof.
  intros (_ & _ & -> & Hl) Ht. pose proof MINUTE_pos. unfold fits, fits_window. by rewrite !Hl by lia.
Qed.

Lemma wp_on_limiter {A} (m : ML A) a r' (Q : A → SendTask → Prop) (R : Blocked → SendTask → Prop) t :
  m (limiter t) = (Ok a, r') → Q a (set_limiter r' t) → wp (on_limiter m) Q R t.
Proof. intros Hm HQ. unfold wp, on_limiter, map_err, zoom. by rewrite Hm. Qed.

(** *** The branches *)

Ltac mail_steps := repeat (first [wp_step | apply wp_modify]; cbv beta).

Lemma task_inv_later now now' acc t : now ≤ now' → task_inv now acc t → task_inv now' acc t.
Proof. intros ? (Hl & ?). split; [by eapply limiter_inv_later|done]. Qed.

(** A turn only changes fields the invariant does not mention. *)
Lemma task_inv_same now acc t t' :
  limiter t' = limiter t → queue t' = queue t → outputs t' = outputs t → task_inv now acc t → task_inv now acc t'.
Proof. intros Hl Hq Ho. unfold task_inv. by rewrite Hl, Hq, Ho. Qed.

Lemma wp_receive now acc t m n (R : Blocked → SendTask → Prop) :
  task_inv now acc t → now ≤ n →
  wp (receive_mail throttle n m) (λ _ t', task_inv n (acc ++ option_list m) t') R t.
Proof.
  intros Hinv Hn. apply (task_inv_later now n) in Hinv; [|done]. pose proof Hinv as (Hl & Hw & Hb & Hu & Hq & Hlen). destruct m as [m|].
  2: { cbn [receive_mail]. change (option_list None) with (@nil Email). rewrite app_nil_r. unfold modify, wp. by split_and!. }
  cbn [receive_mail]. change (option_list (Some m)) with [m]. destruct (urgent m) eqn:Hm.
  - mail_steps. eapply wp_on_limiter; [apply record_run, Hl|]. mail_steps.
    split; [|split; [|split; [|split; [|split]]]]; cbn [limiter outputs queue set_limiter emit].
    + by apply limiter_inv_sent.
    + apply within_limits_snoc; [done|]. intros ?? [= <- <-]. congruence.
    + rewrite bulk_snoc, handled_app, Hm, app_nil_r. cbn. by rewrite Hm, !app_nil_r.
    + rewrite urgents_snoc, sent_urgent_app, Hm, Hu. cbn. by rewrite Hm, app_nil_r.
    + done.
    + done.
  - mail_steps. apply (wp_mono _ (λ _ t', task_inv n acc t') _ (λ _ _, False) R); [by destruct (batch t); apply (task_inv_same _ _ t)| |done].
    clear Hinv Hl Hw Hb Hu Hq Hlen t. intros _ t (Hl & Hw & Hb & Hu & Hq & Hlen). mail_steps.
    apply (wp_mono _ (λ _ t', limiter_inv n (limiter t') (outputs t') ∧ within_limits (outputs t') ∧
      bulk acc = handled_bulk (outputs t') ++ (mail <$> queue t') ∧ urgents acc = sent_urgent (outputs t') ∧
      Forall (λ x, urgent (mail x) = false) (queue t') ∧ len (queue t') + 1 ≤ Z.max 1 (max_queued throttle)) _ (λ _ _, False) R).
    + destruct (Z.leb_spec (max_queued throttle) (len (queue t))) as [Hfull|Hroom]; [|apply wp_ret; split; [|split; [|split; [|split; [|split]]]]; done || lia].
      destruct (queue t) as [|d q] eqn:Hqt; [apply wp_ret; rewrite Hqt; split; [|split; [|split; [|split; [|split]]]]; done || (unfold len; cbn; lia)|].
      apply list.Forall_cons in Hq as [Hd Hq]. mail_steps. mail_steps. cbn [limiter outputs queue set_queue emit].
      split; [|split; [|split; [|split; [|split]]]];
        [by apply limiter_inv_quiet; [repeat constructor|]|by apply within_limits_emit; [repeat constructor|]| | |done|].
      * rewrite Hb, handled_app. cbn. by rewrite <-(assoc_L (++)).
      * by rewrite Hu, sent_urgent_app, app_nil_r.
      * rewrite len_cons in Hlen. lia.
    + clear -Hm. intros _ t (Hl & Hw & Hb & Hu & Hq & Hlen). mail_steps.
      split; [|split; [|split; [|split; [|split]]]]; cbn [limiter outputs queue set_queue]; try done.
      * rewrite bulk_snoc, Hm, Hb, fmap_app. by rewrite (assoc_L (++)).
      * by rewrite urgents_snoc, Hm, app_nil_r.
      * apply list.Forall_app. split; [done|]. by constructor.
      * rewrite len_app. unfold len at 2. cbn. lia.
    + done.
Qed.

Lemma wp_release_mail now acc t n n' (R : Blocked → SendTask → Prop) :
  task_inv now acc t → now ≤ n → n ≤ n' →
  (∀ x, head (queue t) = Some x → fits throttle (send_times (outputs t)) (send_count (mail x)) n) →
  wp (release_mail n n') (λ _ t', task_inv n' acc t') R t.
Proof.
  intros Hinv Hn Hn' Hfit. apply (task_inv_later now n) in Hinv; [|done]. destruct Hinv as (Hl & Hw & Hb & Hu & Hq & Hlen). unfold release_mail. mail_steps.
  destruct (queue t) as [|x q] eqn:Hqt.
  { mail_steps. split; [by apply (limiter_inv_later n)|]. split; [done|]. unfold fifo. by rewrite Hqt. }
  apply list.Forall_cons in Hq as [Hx Hq]. mail_steps.
  eapply wp_on_limiter; [apply record_run, Hl|]. mail_steps.
  split; [by apply (limiter_inv_later n), limiter_inv_sent|].
  split; [|split; [|split; [|split]]]; cbn [limiter outputs queue set_limiter emit set_batch set_queue set_eligible_since].
  - apply within_limits_snoc; [done|]. intros ?? [= <- <-] _. by apply Hfit.
  - rewrite Hb, handled_app. cbn. by rewrite Hx, <-(assoc_L (++)).
  - rewrite Hu, sent_urgent_app. cbn. by rewrite Hx, app_nil_r.
  - done.
  - rewrite len_cons in Hlen. lia.
Qed.

(** What a turn ensures: the invariant goes on; when the loop ends the queue is empty. *)
Definition turn_post (acc : list Email) (e : Turn) (done : bool) (t' : SendTask) : Prop :=
  if done then bulk acc = handled_bulk (outputs t') ∧ urgents acc = sent_urgent (outputs t') ∧ queue t' = [] ∧ within_limits (outputs t')
  else task_inv (at_end e) (acc ++ received e) t'.

Lemma wp_guard b (Q : unit → SendTask → Prop) (t : SendTask) : (b = true → Q tt t) → wp (guard_branch b) Q (λ _ _, True) t.
Proof. destruct b; unfold guard_branch, wp; cbn; auto. Qed.

Lemma task_inv_quiet now acc t l :
  Forall (λ x, is_send x = false) l → handled_bulk l = [] → task_inv now acc t → task_inv now acc (emit l t).
Proof.
  intros Hs Hh (Hl & Hw & Hb & Hu & Hq). destruct (send_times_quiet _ Hs) as [_ Hsu].
  split; [by apply limiter_inv_quiet|]. split; [by apply within_limits_emit|].
  split; [cbn; by rewrite handled_app, Hh, app_nil_r|]. cbn. by rewrite sent_urgent_app, Hsu, app_nil_r.
Qed.

(** The head of the queue and the answer of the limiter. *)
Definition release_ok (top : Z) (t : SendTask) (r : option (option Z)) : Prop :=
  match r with
  | None => queue t = []
  | Some r => ∀ x n, head (queue t) = Some x → top ≤ n → reached n r = true → fits throttle (send_times (outputs t)) (send_count (mail x)) n
  end.

Lemma wp_release_at now acc t top :
  task_inv now acc t → now ≤ top →
  wp (match queue t with
      | [] => mret None
      | queued :: _ => r ← on_limiter (next_allowed top (send_count (mail queued))); mret (Some r)
      end : MT (option (option Z)))
    (λ r t', task_inv top acc t' ∧ queue t' = queue t ∧ outputs t' = outputs t ∧ drain_until t' = drain_until t ∧ batch t' = batch t ∧ release_ok top t' r) (λ _ _, False) t.
Proof.
  intros Hinv Htop. apply (task_inv_later now top) in Hinv; [|done]. pose proof Hinv as (Hl & Hw & Hb). pose proof Hl as (Htop' & Hs & Hc & _).
  destruct (queue t) as [|x q] eqn:Hq; [by mail_steps|]. mail_steps.
  destruct (next_allowed_run top (send_count (mail x)) (limiter t)) as (r & Hrun & Hr);
    [done|by rewrite Hc|apply len_nonneg|].
  eapply wp_on_limiter; [exact Hrun|]. mail_steps. split; [|split_and!; [done..|]].
  - split; [by apply limiter_inv_pruned|]. split; [done|]. cbn [queue set_limiter]. by rewrite Hq.
  - intros y n Hy Hn Hre. cbn in Hy. rewrite Hq in Hy. cbn in Hy. injection Hy as <-. cbn [outputs set_limiter].
    apply (inv_fits top (limiter t)); [done|done|]. destruct r as [d|]; cbn in Hre, Hr; [|by apply Hr].
    apply Hr. by apply Z.leb_le.
Qed.

Lemma wp_turn now acc t e :
  task_inv now acc t → now ≤ at_top e → at_top e ≤ at_branch e → at_branch e ≤ at_end e →
  wp (send_turn throttle e) (turn_post acc e) (λ _ _, True) t.
Proof.
  intros Hinv Htop Hbr Hend. unfold send_turn. mail_steps. destruct (is_some (drain_until t) && (len (queue t) =? 0)) eqn:Hdone.
  { apply andb_prop in Hdone as [_ Hq%Z.eqb_eq]. destruct Hinv as (Hl & Hw & Hb & Hu & _). mail_steps. unfold turn_post.
    assert (Hnil : queue t = []) by (destruct (queue t); [done|rewrite len_cons in Hq; pose proof (len_nonneg l); lia]).
    rewrite Hnil, app_nil_r in Hb. done. }
  mail_steps. cbv zeta. eapply wp_mono; [by apply (wp_release_at now acc)| |done].
  intros r t1 (Hinv1 & Hq1 & Ho1 & Hd1 & Hb1 & Hr). clear Hinv. mail_steps.
  apply (wp_mono _ (λ _ t', task_inv (at_top e) acc t' ∧ queue t' = queue t ∧ outputs t' = outputs t1 ∧ release_ok (at_top e) t' r) _ (λ _ _, False)); [| |done].
  { destruct r as [[d|]|]; unfold modify, wp; (split; [by apply (task_inv_same _ _ t1)|done]). }
  clear Hinv1 Hr. intros _ t2 (Hinv & Hq2 & Ho2 & Hr). mail_steps. cbv zeta. unfold turn_post, received. destruct (branch e) as [m| | | |].
  - mail_steps. apply wp_guard. intros _. mail_steps. eapply wp_mono; [by apply (wp_receive (at_top e) acc _ _ _ (λ _ _, False))| |done].
    intros [] t3 H3. mail_steps. by apply (task_inv_later (at_branch e)).
  - mail_steps. apply wp_guard. intros Hg. mail_steps. eapply wp_mono; [apply (wp_release_mail (at_top e) acc _ _ _ (λ _ _, False)); [done..|]| |done].
    + intros x Hx. destruct r as [r|]; [|done]. by apply Hr.
    + intros [] t3 H3. mail_steps. by rewrite app_nil_r.
  - mail_steps. apply wp_guard. intros _. mail_steps.
    rewrite app_nil_r. apply (task_inv_later (at_top e)); [lia|].
    apply task_inv_quiet; [by destruct (batch t2); repeat constructor|by destruct (batch t2)|]. by apply (task_inv_same _ _ t2).
  - mail_steps. apply wp_guard. intros _. mail_steps.
    destruct Hinv as (Hl & Hw & Hb & Hu & Hq & _). cbn [outputs queue emit set_queue].
    assert (Hs : Forall (λ x, is_send x = false) (report_dropped_all DROP_SHUTDOWN (queue t2))) by (apply list.Forall_fmap, list.Forall_true; done).
    split_and!; [|by rewrite sent_urgent_app, (proj2 (send_times_quiet _ Hs)), app_nil_r|done|by apply within_limits_emit].
    rewrite Hb, handled_app. f_equal. clear. induction (queue t2) as [|x l IH]; [done|]. cbn. f_equal. exact IH.
  - mail_steps. apply wp_guard. intros _. mail_steps.  rewrite app_nil_r.
    apply (task_inv_later (at_top e)); [lia|]. by apply (task_inv_same _ _ t2).
Qed.

Lemma task_run_inv now acc t : task_run now acc t → task_inv now acc t ∧ 0 ≤ now.
Proof.
  induction 1 as [now Hn|now acc t e t' Hrun [IH Hn] H1 H2 H3 Hturn].
  - split; [|done]. split; [|split].
    + split; [done|]. split; [split; constructor|done].
    + intros pre ?? post Heq. by destruct pre.
    + split_and!; [done|done|constructor|]. unfold len. cbn. lia.
  - split; [|lia]. pose proof (wp_turn now acc t e IH H1 H2 H3) as Hw. unfold wp in Hw. by rewrite Hturn in Hw.
Qed.

(** C38: the mail task loses nothing and keeps the order.  In every reachable state
    the throttled emails accepted so far are, in order, those that were sent or
    reported as dropped followed by those in the queue; the urgent ones were all
    sent, in order; the queue is within its capacity (or holds one email).  No turn
    panics, and when the loop ends every accepted email was sent or reported. *)
Theorem mail_is_conserved now acc t :
  task_run now acc t →
  bulk acc = handled_bulk (outputs t) ++ (mail <$> queue t) ∧ urgents acc = sent_urgent (outputs t) ∧
  len (queue t) ≤ Z.max 1 (max_queued throttle) ∧
  ∀ e r t', now ≤ at_top e → at_top e ≤ at_branch e → at_branch e ≤ at_end e → send_turn throttle e t = (r, t') →
    r ≠ Panic ∧
    (r = Ok true → bulk acc = handled_bulk (outputs t') ∧ urgents acc = sent_urgent (outputs t') ∧ queue t' = []).
Proof using Hcfg.
  intros [Hinv _]%task_run_inv. pose proof Hinv as (_ & _ & Hb & Hu & _ & Hl). split; [done|]. split; [done|]. split; [done|].
  intros e r t' H1 H2 H3 Hturn. pose proof (wp_turn now acc t e Hinv H1 H2 H3) as Hw. unfold wp in Hw. rewrite Hturn in Hw.
  destruct r as [done_| |]; [|done|done]. split; [done|]. intros [= ->]. destruct Hw as (?&?&?&_). done.
Qed.

(** Throttled email stays within the limits.  Whenever a reachable state has sent
    a throttled email, then at that instant, and counting every transaction before it,
    urgent email included, its recipients fitted the minute, the hour and the day
    window, or the window held nothing else. *)
Theorem throttled_mail_within_limits now acc t pre at_ m post :
  task_run now acc t → outputs t = pre ++ SendEmail at_ m :: post → urgent m = false →
  fits throttle (send_times pre) (send_count m) at_.
Proof using Hcfg. intros [(_ & Hw & _) _]%task_run_inv Ho Hm. by eapply Hw. Qed.

Lemma release_mail_run n n' t x q :
  queue t = x :: q → sends_ok n (sends (limiter t)) →
  ∃ t', release_mail n n' t = (Ok tt, t') ∧ queue t' = q ∧ outputs t' = outputs t ++ [SendEmail n (mail x)].
Proof.
  intros Hq Hs. unfold release_mail, mbind, M_bind, gets. rewrite Hq. unfold modify at 1 2, on_limiter, map_err, zoom.
  cbn [limiter set_queue set_eligible_since]. rewrite record_run by done. eexists. split; [reflexivity|]. done.
Qed.

(** Queued email is released.  When nothing was sent or accepted for a day, the
    release branch is enabled and sends the email at the head of the queue, whatever
    its number of recipients. *)
Theorem queued_mail_is_released now acc t x q e :
  task_run now acc t → queue t = x :: q → branch e = Release →
  now + DAY ≤ at_top e → at_top e ≤ at_branch e →
  ∃ t', send_turn throttle e t = (Ok false, t') ∧ queue t' = q ∧ outputs t' = outputs t ++ [SendEmail (at_branch e) (mail x)].
Proof using Hcfg.
  intros [(Hl & _) _]%task_run_inv Hq Hbr Htop Hat. pose proof MINUTE_pos.
  pose proof (limiter_inv_later now (at_top e) (limiter t) (outputs t) ltac:(lia) Hl) as (_ & Hs & Hc & _).
  destruct (next_allowed_run (at_top e) (send_count (mail x)) (limiter t)) as (r & Hrun & Hr);
    [done|by rewrite Hc|apply len_nonneg|].
  assert (r = None) as ->.
  { destruct r as [d|]; [|done]. destruct Hr as (Hd & _ & Hno). exfalso. apply (Hno (at_top e)); [lia|].
    destruct Hl as (_ & [_ Hf] & _).
    assert (Hz : ∀ w, w ≤ DAY → count_in (sends (limiter t)) (at_top e) w = 0).
    { intros w Hw. unfold count_in. rewrite filter_none; [done|]. eapply Forall_impl; [exact Hf|]. cbn. lia. }
    split_and!; right; apply Hz; lia. }
  unfold send_turn, mbind, M_bind, gets. rewrite Hq, Hbr. assert ((len (x :: q) =? 0) = false) as ->.
  { apply Z.eqb_neq. rewrite len_cons. pose proof (len_nonneg q). lia. }
  rewrite andb_false_r. unfold on_limiter at 1, map_err, zoom. rewrite Hrun. cbv beta iota.
  unfold mret at 1, M_ret at 1. cbv beta iota. unfold modify at 1. cbv beta iota. cbn [guard_branch reached].
  unfold mret at 1, M_ret at 1. cbv beta iota. set (t1 := set_eligible_since _ _).
  destruct (release_mail_run (at_branch e) (at_end e) t1 x q) as (t' & -> & Ht'); [done| |by exists t'].
  apply (sends_ok_mono (at_top e)); [done|]. by apply filter_ok.
Qed.
End task.

(** ** A day of mail *)

Module DemoMail.
Definition limits : ThrottleConfig := mkThrottle 2 100 100 1.
Definition note (urgent : bool) (to : list string) : Email := mkEmail to None "s" "m" None "" urgent.
Definition sec (s : Z) : Z := s * SECOND.
Definition turns : list Turn := [
  mkTurn 0 (sec 1) (sec 1) (MailReceived (Some (note false ["a"; "b"]%string)));
  mkTurn (sec 1) (sec 1) (sec 2) Release;
  mkTurn (sec 2) (sec 3) (sec 3) (MailReceived (Some (note false ["c"]%string)));
  mkTurn (sec 3) (sec 3) (sec 3) (MailReceived (Some (note true ["d"]%string)));
  mkTurn (sec 3) (sec 4) (sec 4) (MailReceived (Some (note false ["e"; "f"; "g"]%string)))].
Definition outcome_of (l : list Turn) : outcome Blocked bool * SendTask := send_loop limits l (task_new limits).
Definition final : SendTask := Eval vm_compute in (outcome_of turns).2.

Lemma limits_ok : config_ok limits.
Proof. by vm_compute. Qed.

Lemma demo_run : task_run limits (sec 4) (turns ≫= received) final.
Proof.
  apply (send_loop_run limits turns 0 [] (task_new limits) final); [by vm_compute|by vm_compute|by apply run_start].
Qed.

Lemma next_allowed_is_earliest_witness :
  ∃ e r', next_allowed (sec 5) 2 (limiter final) = (Ok e, r') ∧
    earliest (fits (lim_config (limiter final)) (sends (limiter final)) 2) (sec 5) e ∧
    ∀ t n, sec 5 ≤ t → fits (lim_config r') (sends r') n t ↔ fits (lim_config (limiter final)) (sends (limiter final)) n t.
Proof.
  apply (next_allowed_is_earliest (sec 5) 2 (limiter final)); [|exact limits_ok|done].
  split; repeat constructor; vm_compute; discriminate.
Defined.

Lemma mail_is_conserved_witness :
  bulk (turns ≫= received) = handled_bulk (outputs final) ++ (mail <$> queue final) ∧
  urgents (turns ≫= received) = sent_urgent (outputs final).
Proof.
  destruct (mail_is_conserved limits limits_ok (sec 4) _ final demo_run) as (H1 & H2 & _). split; [exact H1|exact H2].
Defined.

Lemma throttled_mail_within_limits_witness :
  fits limits (send_times []) 2 (sec 1).
Proof.
  apply (throttled_mail_within_limits limits limits_ok (sec 4) _ final [] (sec 1) (note false ["a"; "b"]%string)
    [SendEmail (sec 3) (note true ["d"]%string); ReportDropped (note false ["c"]%string) DROP_QUEUE_FULL] demo_run);
    reflexivity.
Defined.

Lemma queued_mail_is_released_witness :
  ∃ t', send_turn limits (mkTurn (sec 4 + DAY) (sec 4 + DAY) (sec 4 + DAY) Release) final = (Ok false, t') ∧
    queue t' = [] ∧ outputs t' = outputs final ++ [SendEmail (sec 4 + DAY) (note false ["e"; "f"; "g"]%string)].
Proof.
  apply (queued_mail_is_released limits limits_ok (sec 4) _ final (mkQueued (note false ["e"; "f"; "g"]%string) (sec 4)) []
    (mkTurn (sec 4 + DAY) (sec 4 + DAY) (sec 4 + DAY) Release) demo_run); reflexivity || (vm_compute; discriminate).
Defined.
End DemoMail.
