(* ===== verification/Topics.v ===== *)
(** * MQTT topics

    [sensor-link-protocol/src/topics.rs]: the names of the topics, building
    "prefix/uid/topic" strings into a string of bounded capacity, and parsing them.
    A [str] is a [string], whose characters are its bytes; splitting at a slash, an
    ASCII character, does not depend on the encoding. *)

From Stdlib Require Import Ascii.
From stdpp Require Import base list list_numbers numbers option strings.
From S2P Require Import Prelude MetaConfig.
#[local] Open Scope string_scope.
#[local] Open Scope Z_scope.

Definition MAX_TOPIC_PREFIX_LEN : Z := 8.
Definition MAX_TOPIC_LEN : Z := 40.

Definition str_len (s : string) : Z := Z.of_nat (String.length s).
(** The bytes of a [str]. *)
Fixpoint bytes_of (s : string) : list Z :=
  match s with
  | EmptyString => []
  | String a s => Z.of_nat (nat_of_ascii a) :: bytes_of s
  end.

Inductive SystemTopic : Type := SMSRequest | SMSResponse | ServerStatus.
Inductive TopicFromDevice : Type :=
| Online | Event | FWStatus | DeviceInfoV2 | DeviceInfoV3 | Status
| BenchmarkEvent | BenchmarkData | ChargerStatus.
Inductive TopicToDevice : Type := Command | FWUpdateAnnounce | Time.

Inductive TopicParseError : Type := NoMatch | MissingPrefix | SuffixParse.
Inductive TopicSerializeError : Type := PrefixLength | UIDLength | SuffixLength | TotalLength | Other.

(** ** Names *)

Definition as_str (t : SystemTopic) : string :=
  match t with
  | SMSRequest => "sms/req"
  | SMSResponse => "sms/resp"
  | ServerStatus => "server/status"
  end.

Definition parse_system_topic (value : string) : option SystemTopic :=
  if bool_decide (value = "sms/req") then Some SMSRequest
  else if bool_decide (value = "sms/resp") then Some SMSResponse
  else if bool_decide (value = "server/status") then Some ServerStatus
  else None.

Definition from_topic_name (t : TopicFromDevice) : string :=
  match t with
  | Online => "online"
  | Event => "events"
  | FWStatus => "fw_update/status"
  | DeviceInfoV2 => "info_v2"
  | DeviceInfoV3 => "info_v3"
  | Status => "status"
  | ChargerStatus => "charger_status"
  | BenchmarkEvent => "benchmark_event"
  | BenchmarkData => "benchmark_data"
  end.

Definition to_topic_name (t : TopicToDevice) : string :=
  match t with
  | Command => "commands"
  | FWUpdateAnnounce => "fw_update/meta"
  | Time => "time"
  end.

(** ** Building *)

Definition validate_prefix {S} (prefix : string) : M S TopicSerializeError string :=
  if str_len prefix <=? MAX_TOPIC_PREFIX_LEN then mret prefix else fail PrefixLength.
Definition validate_uid {S} (prefix : string) : M S TopicSerializeError string :=
  if str_len prefix <=? MAX_UID_LEN then mret prefix else fail UIDLength.

(** [heapless::String::push_str], and [write!] with pieces that are strings: the
    pieces before the one that does not fit stay written. *)
Definition push_str (s : string) : M string unit unit := λ out,
  if str_len out + str_len s <=? MAX_TOPIC_LEN then (Ok tt, (out +:+ s)%string) else (Err tt, out).
Fixpoint write_pieces (pieces : list string) : M string unit unit :=
  match pieces with
  | [] => mret tt
  | s :: pieces => push_str s;; write_pieces pieces
  end.

Definition build_topic_string (prefix uid topic_part : string) : outcome TopicSerializeError string :=
  let '(r, output) :=
    (prefix_str ← validate_prefix prefix;
     uid_str ← validate_uid uid;
     map_err (λ _, TotalLength) (write_pieces [prefix_str; "/"; uid_str; "/"; topic_part])) "" in
  match r with
  | Ok _ => Ok output
  | Err e => Err e
  | Panic => Panic
  end.

(** [suffix] is the [Display] output of the number. *)
Definition topic_fmt_f32 (topic_name suffix : string) : M string TopicSerializeError string :=
  map_err (λ _, SuffixLength) (write_pieces [topic_name; "/"; suffix]);;
  gets id.

Definition from_to_topic_string_with_prefix (t : TopicFromDevice) (prefix uid : string) : outcome TopicSerializeError string :=
  build_topic_string prefix uid (from_topic_name t).
Definition from_to_topic_string (t : TopicFromDevice) (uid : string) : outcome TopicSerializeError string :=
  from_to_topic_string_with_prefix t "f" uid.
Definition to_to_topic_string_with_prefix (t : TopicToDevice) (prefix uid : string) : outcome TopicSerializeError string :=
  build_topic_string prefix uid (to_topic_name t).
Definition to_to_topic_string (t : TopicToDevice) (uid : string) : outcome TopicSerializeError string :=
  to_to_topic_string_with_prefix t "t" uid.

(** ** Parsing *)

Record TopicParts (T : Type) : Type := mkParts { prefix : string; device_id : string; topic : T }.
Arguments mkParts {T}.
Arguments prefix {T}.
Arguments device_id {T}.
Arguments topic {T}.

Fixpoint split_slash (s : string) : option (string * string) :=
  match s with
  | EmptyString => None
  | String c s =>
      if bool_decide (c = "/"%char) then Some (EmptyString, s)
      else '(a, b) ← split_slash s; Some (String c a, b)
  end.

(** The iterator [str::splitn(n, '/')] and its [next]. *)
Record SplitN : Type := mkSplitN { count : nat; rest : option string }.
Definition splitn (n : nat) (s : string) : SplitN := mkSplitN n (Some s).
Definition next {E} : M SplitN E (option string) := λ it,
  match count it, rest it with
  | O, _ | _, None => (Ok None, it)
  | 1%nat, Some s => (Ok (Some s), mkSplitN 0 None)
  | S n, Some s =>
      match split_slash s with
      | Some (a, b) => (Ok (Some a), mkSplitN n (Some b))
      | None => (Ok (Some s), mkSplitN n None)
      end
  end.

(** [ok_or(MissingPrefix)?] *)
Definition next_part : M SplitN TopicParseError string :=
  p ← next;
  match p with Some p => mret p | None => fail MissingPrefix end.

Definition from_of_name (topic_name : string) : option TopicFromDevice :=
  if bool_decide (topic_name = "online") then Some Online
  else if bool_decide (topic_name = "benchmark_data") then Some BenchmarkData
  else if bool_decide (topic_name = "benchmark_event") then Some BenchmarkEvent
  else if bool_decide (topic_name = "events") then Some Event
  else if bool_decide (topic_name = "status") then Some Status
  else if bool_decide (topic_name = "charger_status") then Some ChargerStatus
  else if bool_decide (topic_name = "info_v2") then Some DeviceInfoV2
  else if bool_decide (topic_name = "info_v3") then Some DeviceInfoV3
  else if bool_decide (topic_name = "fw_update/status") then Some FWStatus
  else None.

Definition to_of_name (topic_name : string) : option TopicToDevice :=
  if bool_decide (topic_name = "commands") then Some Command
  else if bool_decide (topic_name = "time") then Some Time
  else if bool_decide (topic_name = "fw_update/meta") then Some FWUpdateAnnounce
  else None.

(** The body the two parsers share but for the names. *)
Definition parse_topic {T} (of_name : string → option T) (s : string) : outcome TopicParseError (TopicParts T) :=
  ((p ← next_part;
    d ← next_part;
    topic_name ← next_part;
    match of_name topic_name with
    | Some t => mret (mkParts p d t)
    | None => fail NoMatch
    end) (splitn 3 s)).1.

Definition parse_topic_from_device (s : string) : outcome TopicParseError (TopicParts TopicFromDevice) :=
  parse_topic from_of_name s.
Definition parse_topic_to_device (s : string) : outcome TopicParseError (TopicParts TopicToDevice) :=
  parse_topic to_of_name s.

(** ** What topics promise *)

(** The text of a topic. *)
Definition topic_text (p d name : string) : string := p +:+ "/" +:+ d +:+ "/" +:+ name.

Fixpoint no_slash (s : string) : bool :=
  match s with
  | EmptyString => true
  | String c s => negb (bool_decide (c = "/"%char)) && no_slash s
  end.

Lemma str_app_cons c a b : String c a +:+ b = String c (a +:+ b).
Proof. done. Qed.

Lemma split_app a b : no_slash a = true → split_slash (a +:+ "/" +:+ b) = Some (a, b).
Proof.
  induction a as [|c a IH]; [done|]. rewrite str_app_cons. cbn [split_slash no_slash]. intros [Hc Ha]%andb_prop.
  apply negb_true_iff, bool_decide_eq_false in Hc. rewrite bool_decide_false by done. by rewrite IH.
Qed.

Lemma split_inv s a b : split_slash s = Some (a, b) → s = a +:+ "/" +:+ b ∧ no_slash a = true.
Proof.
  revert a. induction s as [|c s IH]; intros a; [done|]. cbn [split_slash]. case_bool_decide as Hc.
  - intros [= <- <-]. by subst.
  - destruct (split_slash s) as [[a' b']|]; [|done]. cbn. intros [= <- <-]. destruct (IH a' eq_refl) as [-> Ha].
    split; [done|]. cbn [no_slash]. by rewrite bool_decide_false.
Qed.

Lemma parse_topic_Ok {T} (of_name : string → option T) s p d t :
  parse_topic of_name s = Ok (mkParts p d t) ↔
  ∃ name, s = topic_text p d name ∧ of_name name = Some t ∧ no_slash p = true ∧ no_slash d = true.
Proof.
  unfold parse_topic, next_part, splitn, mbind, M_bind, next at 1. cbn [count rest]. split.
  - destruct (split_slash s) as [[a b]|] eqn:Ha; cbn; [|done]. apply split_inv in Ha as [-> Hna].
    destruct (split_slash b) as [[c name]|] eqn:Hb; cbn; [|done]. apply split_inv in Hb as [-> Hnc].
    destruct (of_name name) as [t'|] eqn:Ht; cbn; [|done]. intros [= <- <- <-]. by exists name.
  - intros (name & -> & Ht & Hp & Hd). unfold topic_text. rewrite split_app by done. cbn. rewrite split_app by done.
    cbn. by rewrite Ht.
Qed.

Lemma str_len_app a b : str_len (a +:+ b) = str_len a + str_len b.
Proof. unfold str_len. induction a as [|c a IH]; [done|]. rewrite str_app_cons. cbn [String.length]. lia. Qed.

Lemma str_app_assoc (a b c : string) : (a +:+ b) +:+ c = a +:+ b +:+ c.
Proof. induction a as [|x a IH]; [done|]. rewrite !str_app_cons. by rewrite IH. Qed.

Lemma push_str_run s out : str_len out + str_len s ≤ MAX_TOPIC_LEN → push_str s out = (Ok tt, out +:+ s).
Proof. intros. unfold push_str. by rewrite (proj2 (Z.leb_le _ _)). Qed.

Lemma build_run p d name :
  str_len p ≤ MAX_TOPIC_PREFIX_LEN → str_len d ≤ MAX_UID_LEN → str_len name ≤ 21 →
  build_topic_string p d name = Ok (topic_text p d name).
Proof.
  intros Hp Hd Hn. unfold build_topic_string, validate_prefix, validate_uid, mbind, M_bind.
  rewrite !(proj2 (Z.leb_le _ _)) by done. unfold mret, M_ret, map_err. cbn [write_pieces].
  unfold MAX_TOPIC_PREFIX_LEN, MAX_UID_LEN, MAX_TOPIC_LEN in *. unfold mbind, M_bind.
  assert (0 ≤ str_len p ∧ 0 ≤ str_len d ∧ 0 ≤ str_len name) by (unfold str_len; lia).
  change (str_len "/") with 1 in *. assert (Hs : str_len "/" = 1) by done. assert (He : str_len "" = 0) by done.
  do 5 (rewrite push_str_run by (rewrite ?str_len_app, ?Hs, ?He; unfold MAX_TOPIC_LEN; lia)).
  unfold topic_text. cbn [mret M_ret]. rewrite !str_app_assoc. done.
Qed.

Lemma build_Ok_inv p d name s : build_topic_string p d name = Ok s → str_len p ≤ MAX_TOPIC_PREFIX_LEN ∧ str_len d ≤ MAX_UID_LEN.
Proof.
  unfold build_topic_string, validate_prefix, validate_uid, mbind, M_bind.
  destruct (Z.leb_spec (str_len p) MAX_TOPIC_PREFIX_LEN); [|done]. cbn [mret M_ret].
  unfold mret, M_ret. destruct (Z.leb_spec (str_len d) MAX_UID_LEN); done.
Qed.

(** Topics from devices round-trip, in both directions.  A string parses to a
    prefix, a device id and a topic exactly when it is "prefix/id/name" with the
    name of that topic and no slash in the prefix or the id; and with a prefix and
    an id within their limits, and only then, [to_topic_string_with_prefix] builds
    that string, which is never too long for its buffer. *)
Theorem device_topics_roundtrip s p d t :
  (parse_topic_from_device s = Ok (mkParts p d t) ↔
     s = topic_text p d (from_topic_name t) ∧ no_slash p = true ∧ no_slash d = true) ∧
  (from_to_topic_string_with_prefix t p d = Ok s ↔
     s = topic_text p d (from_topic_name t) ∧ str_len p ≤ MAX_TOPIC_PREFIX_LEN ∧ str_len d ≤ MAX_UID_LEN).
Proof.
  split; unfold parse_topic_from_device, from_to_topic_string_with_prefix.
  - rewrite parse_topic_Ok. split.
    + intros (name & -> & Hn & Hp & Hd). split; [|done]. f_equal.
      unfold from_of_name in Hn. repeat case_bool_decide; by simplify_eq.
    + intros (-> & Hp & Hd). exists (from_topic_name t). split; [done|]. split; [by destruct t|done].
  - assert (str_len (from_topic_name t) ≤ 21) by (by destruct t; vm_compute). split.
    + intros Hb. pose proof (build_Ok_inv _ _ _ _ Hb) as [??]. rewrite build_run in Hb by done. by injection Hb as <-.
    + intros (-> & ? & ?). by apply build_run.
Qed.

Lemma to_topics_roundtrip s p d t :
  (parse_topic_to_device s = Ok (mkParts p d t) ↔
     s = topic_text p d (to_topic_name t) ∧ no_slash p = true ∧ no_slash d = true) ∧
  (to_to_topic_string_with_prefix t p d = Ok s ↔
     s = topic_text p d (to_topic_name t) ∧ str_len p ≤ MAX_TOPIC_PREFIX_LEN ∧ str_len d ≤ MAX_UID_LEN).
Proof.
  split; unfold parse_topic_to_device, to_to_topic_string_with_prefix.
  - rewrite parse_topic_Ok. split.
    + intros (name & -> & Hn & Hp & Hd). split; [|done]. f_equal.
      unfold to_of_name in Hn. repeat case_bool_decide; by simplify_eq.
    + intros (-> & Hp & Hd). exists (to_topic_name t). split; [done|]. split; [by destruct t|done].
  - assert (str_len (to_topic_name t) ≤ 21) by (by destruct t; vm_compute). split.
    + intros Hb. pose proof (build_Ok_inv _ _ _ _ Hb) as [??]. rewrite build_run in Hb by done. by injection Hb as <-.
    + intros (-> & ? & ?). by apply build_run.
Qed.

Lemma system_topics_roundtrip v t : parse_system_topic v = Some t ↔ v = as_str t.
Proof.
  split.
  - unfold parse_system_topic. repeat case_bool_decide; intros [= <-]; done.
  - intros ->. by destruct t.
Qed.
