(* ===== verification/Bitwise.v ===== *)
(** * Bit fields and bit matrices

    [utils/bitwise.rs], the bits of an integer of 8, 16 or 32 bits, and
    [utils/bitwise/transpose.rs], the transpose of an 8x8 bit matrix in two words,
    proved equal to the transpose bit by bit.  [u32::from_be] is that of a
    little-endian target, as the firmware's and the server's. *)

From stdpp Require Import base list list_numbers numbers option.
From S2P Require Import Prelude.

(** ** [Bitfield] *)

Inductive Width : Type := W8 | W16 | W32.
Definition bits (w : Width) : Z := match w with W8 => 8 | W16 => 16 | W32 => 32 end.
(** The variants of [width8::Bit], [width16::Bit] and [width32::Bit]: the largest is
    [B7], [B15] and [B32]. *)
Definition last_bit (w : Width) : Z := match w with W8 => 7 | W16 => 15 | W32 => 32 end.
Definition bit_try_from (w : Width) (n : Z) : option Z :=
  if (0 <=? n) && (n <=? last_bit w) then Some n else None.

(** [1 << n] panics when [n] is not below the width. *)
Definition one_shl {S E} (w : Width) (n : Z) : M S E Z :=
  if n <? bits w then mret (Z.shiftl 1 n) else panic.

Definition bit {S E} (w : Width) (x n : Z) : M S E bool :=
  m ← one_shl w n;
  mret (negb (Z.land x m =? 0)).

Definition set_bit {E} (w : Width) (n : Z) : M Z E unit :=
  m ← one_shl w n;
  modify (λ x, Z.lor x m).

(** The loop of [each_set]; the result lists the bits that are handed to [f].  It
    ends when the value is zero, after at most as many turns as the width. *)
Fixpoint each_set_loop (fuel : nat) (w : Width) (x n : Z) : list Z :=
  match fuel with
  | O => []
  | S fuel =>
      if x =? 0 then []
      else
        let found := if negb (Z.land x 1 =? 0) then option_list (bit_try_from w n) else [] in
        found ++ each_set_loop fuel w (Z.shiftr x 1) (n + 1)
  end.
Definition each_set (w : Width) (x : Z) : list Z := each_set_loop (Z.to_nat (bits w)) w x 0.

(** ** [Matrix8x8] *)

Record Matrix8x8 : Type := mkMatrix { word0 : Z; word1 : Z }.

(** [x << n] on [u32], which drops the bits above. *)
Definition shl32 (x n : Z) : Z := as_u32 (Z.shiftl x n).

(** [u32::from_be] *)
Definition from_be (x : Z) : Z :=
  Z.lor (Z.lor (Z.lor (shl32 (Z.land x 0xFF) 24) (shl32 (Z.land (Z.shiftr x 8) 0xFF) 16))
    (shl32 (Z.land (Z.shiftr x 16) 0xFF) 8)) (Z.land (Z.shiftr x 24) 0xFF).

Definition from_le_words (w0 w1 : Z) : Matrix8x8 := mkMatrix (from_be w0) (from_be w1).

Definition word_of (b3 b2 b1 b0 : Z) : Z := Z.lor (Z.lor (Z.lor (shl32 b3 24) (shl32 b2 16)) (shl32 b1 8)) b0.

(** The argument is a [[u8; 8]]. *)
Definition from_bytes (b : list Z) : Matrix8x8 :=
  from_le_words (word_of (b !!! 3%nat) (b !!! 2%nat) (b !!! 1%nat) (b !!! 0%nat))
    (word_of (b !!! 7%nat) (b !!! 6%nat) (b !!! 5%nat) (b !!! 4%nat)).

Definition byte_at (w shift : Z) : Z := as_u8 (Z.land (Z.shiftr w shift) 0xFF).

Definition as_slice (m : Matrix8x8) : list Z :=
  [byte_at (word0 m) 24; byte_at (word0 m) 16; byte_at (word0 m) 8; byte_at (word0 m) 0;
   byte_at (word1 m) 24; byte_at (word1 m) 16; byte_at (word1 m) 8; byte_at (word1 m) 0].

Definition as_reverse_slice (m : Matrix8x8) : list Z :=
  [byte_at (word1 m) 0; byte_at (word1 m) 8; byte_at (word1 m) 16; byte_at (word1 m) 24;
   byte_at (word0 m) 0; byte_at (word0 m) 8; byte_at (word0 m) 16; byte_at (word0 m) 24].

Definition swap_bits (input n_shifts mask : Z) : Z :=
  let delta := Z.land (Z.lxor input (Z.shiftr input n_shifts)) mask in
  Z.lxor (Z.lxor input delta) (shl32 delta n_shifts).

Definition transpose (m : Matrix8x8) : Matrix8x8 :=
  let x := word0 m in
  let y := word1 m in
  let x := swap_bits x 7 0x00AA00AA in
  let y := swap_bits y 7 0x00AA00AA in
  let x := swap_bits x 14 0x0000CCCC in
  let y := swap_bits y 14 0x0000CCCC in
  mkMatrix (Z.lor (Z.land x 0xF0F0F0F0) (Z.land (Z.shiftr y 4) 0x0F0F0F0F))
    (Z.lor (Z.land (shl32 x 4) 0xF0F0F0F0) (Z.land y 0x0F0F0F0F)).

(** ** Bit by bit *)

(** Row [r], column [c], with the leftmost bit as column 0. *)
Definition entry (b : list Z) (r c : nat) : bool := Z.testbit (b !!! r) (7 - Z.of_nat c).

(** Eight bits, leftmost first, as a byte; and the transpose as a nested loop. *)
Definition byte_of (f : nat → bool) : Z := foldl (λ acc c, 2 * acc + Z.b2z (f c)) 0 (seq 0 8).
Definition transposed (b : list Z) : list Z := (λ r, byte_of (λ c, entry b c r)) <$> seq 0 8.
Definition transposed_mirrored (b : list Z) : list Z := reverse (transposed b).

Definition is_matrix (b : list Z) : Prop := length b = 8%nat ∧ Forall is_u8 b.

Lemma as_u32_bit z i : 0 ≤ i < 32 → Z.testbit (as_u32 z) i = Z.testbit z i.
Proof. intros. unfold as_u32. change u32_size with (2 ^ 32). apply Z.mod_pow2_bits_low. lia. Qed.

Lemma shl32_bit x n i : 0 ≤ i < 32 → Z.testbit (shl32 x n) i = Z.testbit x (i - n).
Proof. intros. unfold shl32. rewrite as_u32_bit by done. apply Z.shiftl_spec. lia. Qed.

Lemma byte_at_bit w s i : 0 ≤ s → 0 ≤ i < 8 → Z.testbit (byte_at w s) i = Z.testbit w (i + s).
Proof.
  intros. unfold byte_at, as_u8. change 256 with (2 ^ 8). rewrite Z.mod_pow2_bits_low by lia.
  rewrite Z.land_spec, Z.shiftr_spec by lia. change 0xFF with (Z.ones 8). rewrite Z.ones_spec_low by lia. apply andb_true_r.
Qed.

Lemma u8_high b i : is_u8 b → 8 ≤ i → Z.testbit b i = false.
Proof.
  intros [H0 H1] Hi. destruct (Z.eq_dec b 0) as [->|]; [apply Z.bits_0|]. apply Z.bits_above_log2; [done|].
  assert (Z.log2 b < 8); [|lia]. apply Z.log2_lt_pow2; lia.
Qed.

Lemma byte_eq a b : is_u8 a → is_u8 b → (∀ i, 0 ≤ i < 8 → Z.testbit a i = Z.testbit b i) → a = b.
Proof.
  intros Ha Hb H. apply Z.bits_inj_iff'. intros i Hi. destruct (Z_lt_le_dec i 8); [by apply H|]. by rewrite !u8_high.
Qed.

(** The bits of [swap_bits] and of [transpose], from the bits of their arguments. *)
Definition swap_f (f : Z → bool) (n mask i : Z) : bool :=
  xorb (xorb (f i) (xorb (f i) (f (i + n)) && Z.testbit mask i))
    (if i <? n then false else xorb (f (i - n)) (f i) && Z.testbit mask (i - n)).
Definition swap_both (f : Z → bool) : Z → bool := swap_f (swap_f f 7 0x00AA00AA) 14 0x0000CCCC.
Definition transpose_f0 (f g : Z → bool) (i : Z) : bool :=
  (swap_both f i && Z.testbit 0xF0F0F0F0 i) || (swap_both g (i + 4) && Z.testbit 0x0F0F0F0F i).
Definition transpose_f1 (f g : Z → bool) (i : Z) : bool :=
  ((if i <? 4 then false else swap_both f (i - 4)) && Z.testbit 0xF0F0F0F0 i) || (swap_both g i && Z.testbit 0x0F0F0F0F i).

Lemma swap_bits_bit x n mask i :
  0 ≤ n → 0 ≤ i < 32 → Z.testbit (swap_bits x n mask) i = swap_f (Z.testbit x) n mask i.
Proof.
  intros Hn Hi. unfold swap_bits, swap_f. rewrite !Z.lxor_spec, shl32_bit by done.
  rewrite Z.land_spec, Z.lxor_spec, Z.shiftr_spec by lia. f_equal. destruct (Z.ltb_spec i n).
  - apply Z.testbit_neg_r. lia.
  - rewrite Z.land_spec, Z.lxor_spec, Z.shiftr_spec by lia. by rewrite Z.sub_add.
Qed.

Lemma swap_f_ext f g n mask i :
  f i = g i → (Z.testbit mask i = true → f (i + n) = g (i + n)) → (n ≤ i → f (i - n) = g (i - n)) →
  swap_f f n mask i = swap_f g n mask i.
Proof.
  intros H1 H2 H3. unfold swap_f. rewrite H1. f_equal.
  - destruct (Z.testbit mask i); [by rewrite H2|by rewrite !andb_false_r].
  - destruct (Z.ltb_spec i n); [done|]. by rewrite H3.
Qed.

(** A bit of a mask is below its length. *)
Lemma mask_bit mask i : 0 ≤ mask → Z.testbit mask i = true → i ≤ Z.log2 mask.
Proof. intros H0 Hm. destruct (Z.leb_spec i (Z.log2 mask)); [done|]. by rewrite Z.bits_above_log2 in Hm. Qed.

Lemma swap_both_bit x i :
  0 ≤ i < 32 → Z.testbit (swap_bits (swap_bits x 7 0x00AA00AA) 14 0x0000CCCC) i = swap_both (Z.testbit x) i.
Proof.
  intros Hi. rewrite swap_bits_bit by lia. unfold swap_both. apply swap_f_ext.
  - by apply swap_bits_bit.
  - intros Hm%mask_bit; [|done]. change (Z.log2 52428) with 15 in Hm. apply swap_bits_bit; lia.
  - intros. apply swap_bits_bit; lia.
Qed.

Lemma transpose_bits m i :
  0 ≤ i < 32 →
  Z.testbit (word0 (transpose m)) i = transpose_f0 (Z.testbit (word0 m)) (Z.testbit (word1 m)) i ∧
  Z.testbit (word1 (transpose m)) i = transpose_f1 (Z.testbit (word0 m)) (Z.testbit (word1 m)) i.
Proof.
  intros Hi. unfold transpose, transpose_f0, transpose_f1. cbn [word0 word1].
  rewrite !Z.lor_spec, !Z.land_spec, Z.shiftr_spec, shl32_bit by lia. rewrite !(swap_both_bit _ i) by done. split.
  - f_equal. destruct (Z.testbit 0x0F0F0F0F i) eqn:Hm; [|by rewrite !andb_false_r].
    apply mask_bit in Hm; [|done]. change (Z.log2 0x0F0F0F0F) with 27 in Hm. by rewrite swap_both_bit by lia.
  - f_equal. destruct (Z.ltb_spec i 4).
    + by rewrite Z.testbit_neg_r by lia.
    + by rewrite swap_both_bit by lia.
Qed.

(** The word of four bytes, first byte on top, from the bits of the bytes. *)
Definition word_g (bit_of : Z → Z → bool) (i : Z) : bool := bit_of (3 - i / 8) (i mod 8).
Definition word_f (b0 b1 b2 b3 : Z) (i : Z) : bool :=
  if i <? 32 then word_g (λ j k, Z.testbit (nth (Z.to_nat j) [b0; b1; b2; b3] 0) k) i else false.

Lemma shiftr_byte_bit x s i : 0 ≤ s → Z.testbit (Z.land (Z.shiftr x s) 0xFF) i = (0 <=? i) && (i <? 8) && Z.testbit x (i + s).
Proof.
  intros Hs. rewrite Z.land_spec. change 0xFF with (Z.ones 8). destruct (Z.leb_spec 0 i).
  - rewrite Z.shiftr_spec by done. destruct (Z.ltb_spec i 8).
    + rewrite Z.ones_spec_low by lia. apply andb_true_r.
    + rewrite Z.ones_spec_high by lia. apply andb_false_r.
  - by rewrite !Z.testbit_neg_r by lia.
Qed.

Lemma quarter i :
  0 ≤ i < 32 → (i / 8 = 0 ∨ i / 8 = 1 ∨ i / 8 = 2 ∨ i / 8 = 3) ∧ i = 8 * (i / 8) + i mod 8 ∧ 0 ≤ i mod 8 < 8.
Proof.
  intros. pose proof (Z.div_mod i 8 ltac:(done)). pose proof (Z.mod_pos_bound i 8 ltac:(done)). lia.
Qed.

Lemma from_be_bit x i : 0 ≤ i < 32 → Z.testbit (from_be x) i = Z.testbit x (24 - 8 * (i / 8) + i mod 8).
Proof.
  intros Hi. unfold from_be. rewrite <-(Z.shiftr_0_r x) at 1. rewrite !Z.lor_spec, !shl32_bit, !shiftr_byte_bit by lia.
  destruct (quarter i Hi) as (Hq & Hdm & ?).
  set (r := i mod 8) in *. clearbody r.
  destruct Hq as [Hq|[Hq|[Hq|Hq]]]; rewrite Hq in Hdm |- *; subst i;
    repeat match goal with |- context [?a <=? ?b] => destruct (Z.leb_spec a b); try lia | |- context [?a <? ?b] => destruct (Z.ltb_spec a b); try lia end;
    cbn [andb orb]; rewrite ?orb_false_r; f_equal; lia.
Qed.

Lemma word_of_bit b3 b2 b1 b0 i :
  is_u8 b3 → is_u8 b2 → is_u8 b1 → is_u8 b0 → 0 ≤ i < 32 →
  Z.testbit (word_of b3 b2 b1 b0) i = Z.testbit ([b0; b1; b2; b3] !!! Z.to_nat (i / 8)) (i mod 8).
Proof.
  intros H3 H2 H1 H0 Hi. unfold word_of. rewrite !Z.lor_spec, !shl32_bit by done.
  destruct (quarter i Hi) as (Hq & Hdm & ?).
  set (r := i mod 8) in *. clearbody r.
  assert (Hz : ∀ b j, is_u8 b → j < 0 ∨ 8 ≤ j → Z.testbit b j = false).
  { intros b j Hb [?|?]; [by apply Z.testbit_neg_r|by apply u8_high]. }
  destruct Hq as [Hq|[Hq|[Hq|Hq]]]; rewrite Hq in Hdm |- *; subst i.
  - rewrite (Hz b3), (Hz b2), (Hz b1) by (done || lia). cbn. f_equal; lia.
  - rewrite (Hz b3), (Hz b2), (Hz b0) by (done || lia). rewrite orb_false_r. cbn. f_equal; lia.
  - rewrite (Hz b3), (Hz b1), (Hz b0) by (done || lia). rewrite !orb_false_r. cbn. f_equal; lia.
  - rewrite (Hz b2), (Hz b1), (Hz b0) by (done || lia). rewrite !orb_false_r. cbn. f_equal; lia.
Qed.

Lemma from_be_high x i : 32 ≤ i → Z.testbit (from_be x) i = false.
Proof.
  intros Hi. unfold from_be, shl32, as_u32. change u32_size with (2 ^ 32). rewrite !Z.lor_spec, !Z.mod_pow2_bits_high by lia.
  cbn [orb]. rewrite shiftr_byte_bit by done. destruct (Z.ltb_spec i 8); [lia|]. by rewrite andb_false_r.
Qed.

Lemma word_f_high b0 b1 b2 b3 i : 32 ≤ i → word_f b0 b1 b2 b3 i = false.
Proof. intros Hi. unfold word_f. destruct (Z.ltb_spec i 32); [lia|done]. Qed.

Lemma word_bit b0 b1 b2 b3 i :
  is_u8 b0 → is_u8 b1 → is_u8 b2 → is_u8 b3 → 0 ≤ i →
  Z.testbit (from_be (word_of b3 b2 b1 b0)) i = word_f b0 b1 b2 b3 i.
Proof.
  intros H0 H1 H2 H3 Hi0. destruct (Z.ltb_spec i 32) as [Hlt|Hge]; [|by rewrite from_be_high, word_f_high].
  pose proof (conj Hi0 Hlt) as Hi. rewrite from_be_bit by done. destruct (quarter i Hi) as (Hq & Hdm & ?).
  rewrite word_of_bit by (done || lia). unfold word_f, word_g. rewrite (proj2 (Z.ltb_lt i 32)) by done.
  assert ((24 - 8 * (i / 8) + i mod 8) mod 8 = i mod 8 ∧ (24 - 8 * (i / 8) + i mod 8) / 8 = 3 - i / 8) as [-> ->].
  { split; [symmetry; apply (Z.mod_unique _ _ (3 - i / 8))|symmetry; apply (Z.div_unique _ _ _ (i mod 8))]; lia. }
  by destruct Hq as [->|[->|[->| ->]]].
Qed.


(** ** The transpose *)

Definition row_bit (m : Matrix8x8) (r : nat) (i : Z) : bool := Z.testbit (as_slice m !!! r) i.

(** A statement about a bit of a byte, for each bit. *)
Lemma each_bit (P : Z → Prop) : Forall P (seqZ 0 8) → ∀ i, 0 ≤ i < 8 → P i.
Proof. intros HP i Hi. apply (proj1 (list.Forall_forall _ _) HP), elem_of_seqZ. lia. Qed.
Lemma each_row (P : nat → Prop) : Forall P (seq 0 8) → ∀ r, (r < 8)%nat → P r.
Proof. intros HP r Hr. apply (proj1 (list.Forall_forall _ _) HP), elem_of_seq. lia. Qed.

Lemma swap_both_ext f g j : (∀ j, 0 ≤ j → f j = g j) → 0 ≤ j → swap_both f j = swap_both g j.
Proof.
  intros H Hj. assert (H7 : ∀ j, 0 ≤ j → swap_f f 7 0x00AA00AA j = swap_f g 7 0x00AA00AA j).
  { intros k Hk. apply swap_f_ext; intros; apply H; lia. }
  unfold swap_both. apply swap_f_ext; intros; apply H7; lia.
Qed.

(** [transpose] on bits, with the words of [from_bytes]. *)
Lemma transpose_bytes b0 b1 b2 b3 b4 b5 b6 b7 i :
  Forall is_u8 [b0; b1; b2; b3; b4; b5; b6; b7] → 0 ≤ i < 32 →
  Z.testbit (word0 (transpose (from_bytes [b0; b1; b2; b3; b4; b5; b6; b7]))) i =
    transpose_f0 (word_f b0 b1 b2 b3) (word_f b4 b5 b6 b7) i ∧
  Z.testbit (word1 (transpose (from_bytes [b0; b1; b2; b3; b4; b5; b6; b7]))) i =
    transpose_f1 (word_f b0 b1 b2 b3) (word_f b4 b5 b6 b7) i.
Proof.
  intros Hb Hi. repeat match goal with H : Forall _ (_ :: _) |- _ => apply list.Forall_cons in H as [? H] end.
  destruct (transpose_bits (from_bytes [b0; b1; b2; b3; b4; b5; b6; b7]) i Hi) as [-> ->].
  change (word0 (from_bytes _)) with (from_be (word_of b3 b2 b1 b0)).
  change (word1 (from_bytes _)) with (from_be (word_of b7 b6 b5 b4)).
  assert (He : ∀ j, 0 ≤ j → swap_both (Z.testbit (from_be (word_of b3 b2 b1 b0))) j = swap_both (word_f b0 b1 b2 b3) j ∧
    swap_both (Z.testbit (from_be (word_of b7 b6 b5 b4))) j = swap_both (word_f b4 b5 b6 b7) j).
  { intros j Hj. split; (apply swap_both_ext; [|done]); intros k Hk; by apply word_bit. }
  unfold transpose_f0, transpose_f1. rewrite !(proj1 (He i ltac:(lia))), !(proj2 (He i ltac:(lia))), (proj2 (He (i + 4) ltac:(lia))).
  split; [done|]. destruct (Z.ltb_spec i 4); [done|]. by rewrite (proj1 (He (i - 4) ltac:(lia))).
Qed.

(** The bits that [transpose] puts in the eight bytes of the result. *)
Definition result_f (f g : Z → bool) (r : nat) (i : Z) : bool :=
  match r with
  | 0%nat => transpose_f0 f g (i + 24) | 1%nat => transpose_f0 f g (i + 16)
  | 2%nat => transpose_f0 f g (i + 8) | 3%nat => transpose_f0 f g (i + 0)
  | 4%nat => transpose_f1 f g (i + 24) | 5%nat => transpose_f1 f g (i + 16)
  | 6%nat => transpose_f1 f g (i + 8) | _ => transpose_f1 f g (i + 0)
  end.
Definition window (bit_of : Z → Z → bool) (i : Z) : bool := if i <? 32 then word_g bit_of i else false.

Ltac bit_by_bit := cbv -[xorb andb orb];
  rewrite ?andb_true_r, ?andb_false_r, ?orb_false_r, ?orb_false_l, ?xorb_false_r, ?xorb_false_l;
  repeat match goal with |- context [?f ?a ?b] => is_var f; destruct (f a b) end; reflexivity.

Lemma result_entries (bit_of : Z → Z → bool) :
  Forall (λ r, Forall (λ i, result_f (window bit_of) (window (λ j, bit_of (j + 4))) r i = bit_of (7 - i) (7 - Z.of_nat r)) (seqZ 0 8)) (seq 0 8).
Proof. repeat (constructor; [repeat (constructor; [bit_by_bit|]); constructor|]). constructor. Qed.

Lemma result_entry bit_of r i :
  (r < 8)%nat → 0 ≤ i < 8 →
  result_f (window bit_of) (window (λ j, bit_of (j + 4))) r i = bit_of (7 - i) (7 - Z.of_nat r).
Proof. intros Hr Hi. revert i Hi. apply each_bit. revert r Hr. apply each_row, result_entries. Qed.

Lemma result_f_ext f f' g g' r i :
  0 ≤ i → (∀ j, 0 ≤ j → f j = f' j) → (∀ j, 0 ≤ j → g j = g' j) → result_f f g r i = result_f f' g' r i.
Proof.
  intros Hi Hf Hg. assert (Hb : ∀ j, 0 ≤ j → swap_both f j = swap_both f' j ∧ swap_both g j = swap_both g' j).
  { intros j Hj. split; by apply swap_both_ext. }
  assert (Ht : ∀ j, 0 ≤ j → transpose_f0 f g j = transpose_f0 f' g' j ∧ transpose_f1 f g j = transpose_f1 f' g' j).
  { intros j Hj. unfold transpose_f0, transpose_f1. destruct (Hb j Hj) as [-> ->]. destruct (Hb (j + 4) ltac:(lia)) as [_ ->].
    split; [done|]. destruct (Z.ltb_spec j 4); [done|]. by destruct (Hb (j - 4) ltac:(lia)) as [-> _]. }
  unfold result_f. do 8 (destruct r as [|r]; [apply Ht; lia|]). apply Ht. lia.
Qed.

Lemma row_bits b r i :
  is_matrix b → (r < 8)%nat → 0 ≤ i < 8 →
  Z.testbit (nth r (as_slice (transpose (from_bytes b))) 0) i = Z.testbit (nth (Z.to_nat (7 - i)) b 0) (7 - Z.of_nat r).
Proof.
  intros [Hl Hb] Hr Hi. do 8 (destruct b as [|? b]; [done|]). destruct b; [|done]. clear Hl.
  rename z into b0, z0 into b1, z1 into b2, z2 into b3, z3 into b4, z4 into b5, z5 into b6, z6 into b7.
  set (bs := [b0; b1; b2; b3; b4; b5; b6; b7]) in *.
  rewrite <-(result_entry (λ j k, Z.testbit (nth (Z.to_nat j) bs 0) k)) by done.
  assert (Hres : Z.testbit (nth r (as_slice (transpose (from_bytes bs))) 0) i =
    result_f (word_f b0 b1 b2 b3) (word_f b4 b5 b6 b7) r i).
  { assert (Ht : ∀ j, 0 ≤ j < 32 → _) by (intros j Hj; exact (transpose_bytes b0 b1 b2 b3 b4 b5 b6 b7 j Hb Hj)).
    fold bs in Ht. unfold as_slice. do 8 (destruct r as [|r]; [cbn [nth result_f]; rewrite byte_at_bit by lia; apply Ht; lia|]). lia. }
  rewrite Hres. apply result_f_ext; [lia|..]; intros j Hj; unfold word_f, window, word_g;
    (destruct (Z.ltb_spec j 32); [|done]); destruct (quarter j ltac:(lia)) as ([->|[->|[->| ->]]] & _); reflexivity.
Qed.

Lemma as_slice_ok m : is_matrix (as_slice m).
Proof. split; [done|]. unfold as_slice, byte_at, as_u8. repeat constructor; apply Z.mod_pos_bound; lia. Qed.

(** *** Bytes from bits *)

Ltac byte_bit :=
  lazymatch goal with
  | |- Z.testbit _ 0 = _ => rewrite Z.testbit_0_r; reflexivity
  | |- Z.testbit ?a ?n = ?b =>
      let m := eval cbv in (Z.pred n) in
      change (Z.testbit a (Z.succ m) = b); rewrite Z.testbit_succ_r by done; byte_bit
  end.

Lemma byte_of_bits (f : nat → bool) :
  is_u8 (byte_of f) ∧ ∀ i, 0 ≤ i < 8 → Z.testbit (byte_of f) i = f (Z.to_nat (7 - i)).
Proof.
  split.
  - unfold byte_of. cbn [seq foldl]. destruct (f 0%nat), (f 1%nat), (f 2%nat), (f 3%nat), (f 4%nat), (f 5%nat), (f 6%nat), (f 7%nat); done.
  - apply each_bit. change (seqZ 0 8) with [0; 1; 2; 3; 4; 5; 6; 7]. unfold byte_of. cbn [seq foldl].
    repeat (constructor; [byte_bit|]). constructor.
Qed.

Lemma transposed_nth b r :
  (r < 8)%nat → nth r (transposed b) 0 = byte_of (λ c, entry b c r) ∧ nth r (transposed_mirrored b) 0 = byte_of (λ c, entry b c (7 - r)).
Proof.
  intros Hr. revert r Hr. apply each_row. repeat (constructor; [done|]). constructor.
Qed.

Lemma eight_bytes (l k : list Z) :
  is_matrix l → is_matrix k →
  (∀ r i, (r < 8)%nat → 0 ≤ i < 8 → Z.testbit (nth r l 0) i = Z.testbit (nth r k 0) i) → l = k.
Proof.
  intros [Hl Hul] [Hk Huk] H. apply (nth_ext l k 0 0); [congruence|]. intros r Hr. rewrite Hl in Hr.
  apply byte_eq; [..|intros i Hi; by apply H]; apply (proj1 (list.Forall_forall _ _)) with (2 := nth_In _ 0 ltac:(lia)) || idtac.
  - apply (proj1 (list.Forall_forall _ _) Hul), list_elem_of_In, nth_In. lia.
  - apply (proj1 (list.Forall_forall _ _) Huk), list_elem_of_In, nth_In. lia.
Qed.

Lemma transposed_ok b : is_matrix (transposed b) ∧ is_matrix (transposed_mirrored b).
Proof.
  assert (H : Forall is_u8 (transposed b)) by (apply list.Forall_fmap, list.Forall_true; intros r; apply byte_of_bits).
  split; (split; [done|]); [done|]. unfold transposed_mirrored. by apply list.Forall_reverse.
Qed.

Lemma entry_nth b c r : (c < 8)%nat → is_matrix b → entry b c r = Z.testbit (nth c b 0) (7 - Z.of_nat r).
Proof.
  intros Hc [Hl _]. unfold entry. f_equal. destruct (lookup_lt_is_Some_2 b c ltac:(lia)) as [x Hx].
  rewrite (list_lookup_total_correct _ _ _ Hx). symmetry. by apply nth_lookup_Some.
Qed.

(** The transpose by swapping bits is the transpose bit by bit.  For any eight
    bytes, [as_slice] of the transposed matrix has the bit of row [c], column [r] in
    row [r], column [c], counting columns from the left; [as_reverse_slice] has the
    rows in the opposite order; and transposing twice gives the bytes back. *)
Theorem transpose_is_transposed b :
  is_matrix b →
  as_slice (transpose (from_bytes b)) = transposed b ∧
  as_reverse_slice (transpose (from_bytes b)) = transposed_mirrored b ∧
  as_slice (transpose (from_bytes (as_slice (transpose (from_bytes b))))) = b.
Proof.
  intros Hb.
  assert (H1 : as_slice (transpose (from_bytes b)) = transposed b).
  { apply eight_bytes; [exact (as_slice_ok _)|exact (proj1 (transposed_ok b))|]. intros r i Hr Hi. rewrite row_bits by done.
    transitivity (Z.testbit (byte_of (λ c, entry b c r)) i); [|exact (f_equal (λ z, Z.testbit z i) (eq_sym (proj1 (transposed_nth b r Hr))))].
    destruct (byte_of_bits (λ c, entry b c r)) as [_ Hbits]. rewrite Hbits by exact Hi.
    rewrite entry_nth by (assumption || lia). reflexivity. }
  split; [done|]. split.
  - unfold transposed_mirrored. by rewrite <-H1.
  - apply eight_bytes; [exact (as_slice_ok _)|exact Hb|]. intros r i Hr Hi. rewrite row_bits by (done || apply as_slice_ok).
    rewrite row_bits by (done || lia). f_equal; lia || (f_equal; lia).
Qed.

(** ** The bits that are set *)

Lemma each_set_loop_spec w fuel x n :
  0 ≤ n → 0 ≤ x → n + Z.of_nat fuel ≤ last_bit w + 1 → (∀ i, Z.of_nat fuel ≤ i → Z.testbit x i = false) →
  each_set_loop fuel w x n = filter (λ i, Z.testbit x (i - n) = true) (seqZ n (Z.of_nat fuel)).
Proof.
  revert x n. induction fuel as [|fuel IH]; intros x n Hn Hx Hlast Hhigh; [done|]. cbn [each_set_loop].
  rewrite Nat2Z.inj_succ, seqZ_cons by lia. rewrite Z.pred_succ.
  assert (H0 : Z.land x 1 = Z.b2z (Z.testbit x 0)).
  { change 1 with (Z.ones 1). rewrite Z.land_ones by done. change (2 ^ 1) with 2. symmetry. apply Z.bit0_mod. }
  destruct (Z.eqb_spec x 0) as [->|Hne].
  { rewrite filter_cons_False by (rewrite Z.bits_0; done). clear. generalize (Z.succ n). generalize (Z.of_nat fuel) as m. intros m k.
    induction (seqZ k m) as [|y l IH]; [done|]. rewrite filter_cons_False; [done|]. by rewrite Z.bits_0. }
  rewrite H0, (IH (Z.shiftr x 1) (n + 1)); [|lia|by apply Z.shiftr_nonneg|lia|].
  2: { intros i Hi. rewrite Z.shiftr_spec by lia. apply Hhigh. lia. }
  assert (Hrest : filter (λ i, Z.testbit (Z.shiftr x 1) (i - (n + 1)) = true) (seqZ (n + 1) (Z.of_nat fuel)) =
    filter (λ i, Z.testbit x (i - n) = true) (seqZ (Z.succ n) (Z.of_nat fuel))).
  { change (Z.succ n) with (n + 1). assert (Hf : Forall (λ i, n + 1 ≤ i) (seqZ (n + 1) (Z.of_nat fuel))).
    { apply list.Forall_forall. intros i Hi%elem_of_seqZ. lia. }
    induction Hf as [|i l Hi _ IHl]; [done|]. rewrite !filter_cons, IHl, Z.shiftr_spec by lia.
    by replace (i - (n + 1) + 1) with (i - n) by lia. }
  rewrite Hrest. rewrite filter_cons, Z.sub_diag. destruct (Z.testbit x 0) eqn:Hb; cbn [Z.b2z Z.eqb negb].
  - destruct (decide (true = true)); [|done]. unfold bit_try_from. rewrite !(proj2 (Z.leb_le _ _)) by lia. done.
  - destruct (decide (false = true)); [done|]. done.
Qed.

(** [each_set] hands over exactly the bits that are set, in order. *)
Theorem each_set_spec w x :
  0 ≤ x < 2 ^ bits w → each_set w x = filter (λ i, Z.testbit x i = true) (seqZ 0 (bits w)).
Proof.
  intros [H0 Hx]. unfold each_set. assert (0 ≤ bits w) by (by destruct w). rewrite each_set_loop_spec; [|done|done|by destruct w|].
  - rewrite Z2Nat.id by done. apply list_filter_iff. intros i. by rewrite Z.sub_0_r.
  - rewrite Z2Nat.id by done. intros i Hi. destruct (Z.eq_dec x 0) as [->|]; [apply Z.bits_0|]. apply Z.bits_above_log2; [done|].
    assert (Z.log2 x < bits w); [|lia]. apply Z.log2_lt_pow2; lia.
Qed.

(** Bit 32 of a 32-bit field exists as a value but has no bit. *)
Lemma bit_32_panics {S E} x (st : S) :
  bit_try_from W32 32 = Some 32 ∧ bit (E := E) W32 x 32 st = (Panic, st).
Proof. done. Qed.

Module DemoBitwise.
Definition sample : list Z := [0x80; 0xE0; 0x20; 0xF0; 0x01; 0x01; 0x01; 0x01].
Lemma transpose_is_transposed_witness :
  as_slice (transpose (from_bytes sample)) = [0xD0; 0x50; 0x70; 0x10; 0; 0; 0; 0x0F].
Proof.
  destruct (transpose_is_transposed sample) as [H _]; [|exact (eq_trans H eq_refl)].
  split; [reflexivity|]. repeat constructor; vm_compute; discriminate.
Defined.
End DemoBitwise.
