(* ===== verification/BootStats.v ===== *)
(** * Boot statistics

    [drivers/boot_stats.rs]: counters and flags in backup registers that survive a
    reset.  The registers are the list of their values; each is a [u32]. *)

From stdpp Require Import base list list_numbers numbers option.
From S2P Require Import Prelude.

(** [logic::signal::BootReason] *)
Inductive BootReason : Type := Unknown | PowerOn | HardFault | Watchdog | Panic_ | Software | Loop.
#[export] Instance BootReason_eq_dec : EqDecision BootReason.
Proof. solve_decision. Defined.

Inductive Stat : Type := UptimeTotal | UptimeCurrent | Boot | POR | WDT | SPanic | Fault.
Definition stat_index (s : Stat) : nat :=
  match s with UptimeTotal => 0 | UptimeCurrent => 1 | Boot => 2 | POR => 3 | WDT => 4 | SPanic => 5 | Fault => 6 end.
Definition stats_iter : list Stat := [UptimeTotal; UptimeCurrent; Boot; POR; WDT; SPanic; Fault].
Definition Stat_COUNT : Z := 7.

Definition COUNT_MASK : Z := 0x0FFFFFFF.
Definition FLAG_MASK : Z := 0xF0000000.
Definition FLAG : Z := 0xB0000000.

Record Stats : Type := mkStats {
  boot_reason : BootReason;
  uptime_total : Z;
  boot_total : Z;
  por_total : Z;
  wdt_total : Z;
  panic_total : Z;
  fault_total : Z
}.
Definition stats_default : Stats := mkStats Unknown 0 0 0 0 0 0.

Abbreviation MR := (M (list Z) unit).

Definition read (stat : Stat) : MR Z := λ regs,
  match regs !! stat_index stat with Some v => (Ok v, regs) | None => (Panic, regs) end.
Definition write (stat : Stat) (value : Z) : MR unit := λ regs,
  match regs !! stat_index stat with Some _ => (Ok tt, <[stat_index stat := value]> regs) | None => (Panic, regs) end.

Definition read_split (stat : Stat) : MR (Z * bool) :=
  raw ← read stat;
  mret (Z.land raw COUNT_MASK, negb (Z.land raw FLAG_MASK =? 0)).

(** [saturating_add] on [u32] *)
Definition saturating_add (a b : Z) : Z := Z.min u32_max (a + b).
Definition bump (count : Z) : Z := Z.min (saturating_add count 1) COUNT_MASK.

(** [set_flag] and [increment_by] on a register. *)
Definition set_flag (stat : Stat) : MR unit :=
  prev ← read stat;
  write stat (Z.lor (Z.land prev COUNT_MASK) FLAG).

Definition increment_by (stat : Stat) (delta : Z) : MR Z :=
  prev ← read stat;
  let count := Z.min (saturating_add (Z.land prev COUNT_MASK) delta) COUNT_MASK in
  write stat (Z.lor count (Z.land prev FLAG_MASK));;
  mret count.

Fixpoint write_all (stats : list Stat) (value : Z) : MR unit :=
  match stats with
  | [] => mret tt
  | s :: stats => write s value;; write_all stats value
  end.

Definition reset : MR unit :=
  n ← gets len;
  if n <? Stat_COUNT then fail tt
  else
    write_all stats_iter 0;;
    write UptimeTotal FLAG;;
    write UptimeCurrent FLAG.

(** The uptime registers are checked, and written when they are not valid. *)
Definition check_flag (stat : Stat) (flag : Z) : MR Z :=
  if negb (flag =? FLAG) then write stat FLAG;; mret 1 else mret 0.

Definition validate_uptimes : MR unit :=
  prev ← read UptimeCurrent;
  let uptime_prev_flag := Z.land prev FLAG_MASK in
  total ← read UptimeTotal;
  let uptime_total_flag := Z.land total FLAG_MASK in
  c1 ← check_flag UptimeCurrent uptime_prev_flag;
  c2 ← check_flag UptimeTotal uptime_total_flag;
  if 1 <? c1 + c2 then reset else mret tt.

(** The boot reason from the flags. *)
Definition reason_of (fault_flag panic_flag wdt_flag por_flag : bool) (default : BootReason) : BootReason :=
  match fault_flag, panic_flag, wdt_flag, por_flag with
  | true, _, _, _ => HardFault
  | false, true, _, _ => Panic_
  | false, false, true, _ => Watchdog
  | false, false, false, true => PowerOn
  | false, false, false, false => default
  end.

(** A boot counts for its reason; the result is whether that is a boot loop, and the
    totals of the reasons. *)
Definition count_reason (reason : BootReason) (s : Stats) : MR (bool * Stats) :=
  match reason with
  | PowerOn =>
      let n := bump (por_total s) in
      write POR n;;
      mret (20 <? n, mkStats reason (uptime_total s) (boot_total s) n (wdt_total s) (panic_total s) (fault_total s))
  | Software => mret (30 <? boot_total s, s)
  | HardFault =>
      let n := bump (fault_total s) in
      write Fault n;;
      mret (5 <? n, mkStats reason (uptime_total s) (boot_total s) (por_total s) (wdt_total s) (panic_total s) n)
  | Watchdog =>
      let n := bump (wdt_total s) in
      write WDT n;;
      mret (5 <? n, mkStats reason (uptime_total s) (boot_total s) (por_total s) n (panic_total s) (fault_total s))
  | Panic_ =>
      let n := bump (panic_total s) in
      write SPanic n;;
      mret (5 <? n, mkStats reason (uptime_total s) (boot_total s) (por_total s) (wdt_total s) n (fault_total s))
  | Unknown => mret (10 <? boot_total s, s)
  | Loop => mret (true, s)
  end.

Definition set_reason (r : BootReason) (s : Stats) : Stats :=
  mkStats r (uptime_total s) (boot_total s) (por_total s) (wdt_total s) (panic_total s) (fault_total s).

Definition try_from_registers_or (default : BootReason) : MR Stats :=
  n ← gets len;
  if n <? Stat_COUNT then fail tt
  else
    validate_uptimes;;
    current ← read UptimeCurrent;
    uptime_total ← increment_by UptimeTotal (Z.land current COUNT_MASK);
    write UptimeCurrent FLAG;;
    boot_total ← increment_by Boot 1;
    por ← read_split POR;
    wdt ← read_split WDT;
    pan ← read_split SPanic;
    fault ← read_split Fault;
    let reason := reason_of fault.2 pan.2 wdt.2 por.2 default in
    let s := mkStats reason uptime_total boot_total por.1 wdt.1 pan.1 fault.1 in
    if 1800 <=? uptime_total then reset;; mret s
    else
      r ← count_reason reason s;
      if r.1 : bool then reset;; mret (set_reason Loop r.2) else mret r.2.

Definition try_from_registers : MR Stats := try_from_registers_or Unknown.

(** ** Boot statistics: counters and boot loops

    The registers as an encoding of counters and flags, what a boot does to them,
    and the detection of boot loops. *)

(** ** Counts and flags in a register *)

Definition is_count (c : Z) : Prop := 0 ≤ c ≤ COUNT_MASK.
Definition enc (c : Z) (flag : bool) : Z := Z.lor c (if flag then FLAG else 0).

Lemma count_high c i : is_count c → 28 ≤ i → Z.testbit c i = false.
Proof.
  intros [H0 H1] Hi. destruct (Z.eq_dec c 0) as [->|]; [apply Z.bits_0|]. apply Z.bits_above_log2; [done|].
  assert (Z.log2 c < 28); [|lia]. apply Z.log2_lt_pow2; [lia|]. change (2 ^ 28) with (COUNT_MASK + 1). lia.
Qed.

Lemma flag_bits i : Z.testbit FLAG i = if i <? 28 then false else Z.testbit 11 (i - 28).
Proof.
  change FLAG with (Z.shiftl 11 28). destruct (Z.ltb_spec i 28); [apply Z.shiftl_spec_low; lia|apply Z.shiftl_spec_high; lia].
Qed.
Lemma flag_mask_bits i : Z.testbit FLAG_MASK i = if i <? 28 then false else Z.testbit 15 (i - 28).
Proof.
  change FLAG_MASK with (Z.shiftl 15 28). destruct (Z.ltb_spec i 28); [apply Z.shiftl_spec_low; lia|apply Z.shiftl_spec_high; lia].
Qed.

Lemma land_count c f : is_count c → Z.land (enc c f) COUNT_MASK = c.
Proof.
  intros Hc. unfold enc. rewrite Z.land_lor_distr_l. assert (Z.land (if f then FLAG else 0) COUNT_MASK = 0) as -> by (by destruct f).
  rewrite Z.lor_0_r. change COUNT_MASK with (Z.ones 28). rewrite Z.land_ones by done. apply Z.mod_small.
  unfold is_count in Hc. change (2 ^ 28) with (COUNT_MASK + 1). lia.
Qed.

Lemma land_flag c f : is_count c → Z.land (enc c f) FLAG_MASK = if f then FLAG else 0.
Proof.
  intros Hc. unfold enc. rewrite Z.land_lor_distr_l. assert (Z.land c FLAG_MASK = 0) as ->.
  { apply Z.bits_inj_iff'. intros i Hi. rewrite Z.land_spec, flag_mask_bits, Z.bits_0. destruct (Z.ltb_spec i 28); [apply andb_false_r|].
    by rewrite count_high. }
  by destruct f.
Qed.

Lemma land_mask_count x : is_count (Z.land x COUNT_MASK).
Proof.
  change COUNT_MASK with (Z.ones 28) at 1. rewrite Z.land_ones by done. unfold is_count, COUNT_MASK.
  pose proof (Z.mod_pos_bound x (2 ^ 28) ltac:(done)). lia.
Qed.

Lemma min_count a b : 0 ≤ a → 0 ≤ b → Z.min (saturating_add a b) COUNT_MASK = Z.min (a + b) COUNT_MASK.
Proof. unfold saturating_add, u32_max, COUNT_MASK. lia. Qed.

Lemma is_count_min a : 0 ≤ a → is_count (Z.min a COUNT_MASK).
Proof. unfold is_count, COUNT_MASK. lia. Qed.

(** ** What a boot does, on counters *)

(** The counters; the four flags say why the device was reset. *)
Record Counters : Type := mkCounters {
  c_total : Z; c_current : Z; c_boot : Z;
  c_por : Z; c_wdt : Z; c_panic : Z; c_fault : Z;
  f_por : bool; f_wdt : bool; f_panic : bool; f_fault : bool
}.
Definition counters_ok (c : Counters) : Prop :=
  is_count (c_total c) ∧ is_count (c_current c) ∧ is_count (c_boot c) ∧
  is_count (c_por c) ∧ is_count (c_wdt c) ∧ is_count (c_panic c) ∧ is_count (c_fault c).
Definition encode (c : Counters) : list Z :=
  [enc (c_total c) true; enc (c_current c) true; enc (c_boot c) false;
   enc (c_por c) (f_por c); enc (c_wdt c) (f_wdt c); enc (c_panic c) (f_panic c); enc (c_fault c) (f_fault c)].
Definition fresh : Counters := mkCounters 0 0 0 0 0 0 0 false false false false.

Definition next_count (c : Z) : Z := Z.min (c + 1) COUNT_MASK.

(** Why the device was reset, the gravest cause first. *)
Definition causes (c : Counters) : list BootReason :=
  (if f_fault c then [HardFault] else []) ++ (if f_panic c then [Panic_] else []) ++
  (if f_wdt c then [Watchdog] else []) ++ (if f_por c then [PowerOn] else []).

(** What a boot is put down to: the causes, or the default if there is none. *)
Definition blamed (default : BootReason) (c : Counters) : list BootReason :=
  match causes c with [] => [default] | l => l end.

(** Every cause of the list is counted, and its flag reset. *)
Definition counted (l : list BootReason) (r : BootReason) (n : Z) : Z := if bool_decide (r ∈ l) then next_count n else n.
Definition flag_left (l : list BootReason) (r : BootReason) (f : bool) : bool := f && negb (bool_decide (r ∈ l)).
Definition count_causes (l : list BootReason) (c : Counters) : Counters :=
  mkCounters (c_total c) (c_current c) (c_boot c)
    (counted l PowerOn (c_por c)) (counted l Watchdog (c_wdt c)) (counted l Panic_ (c_panic c)) (counted l HardFault (c_fault c))
    (flag_left l PowerOn (f_por c)) (flag_left l Watchdog (f_wdt c)) (flag_left l Panic_ (f_panic c)) (flag_left l HardFault (f_fault c)).

Definition is_loop (reason : BootReason) (c : Counters) : bool :=
  match reason with
  | PowerOn => 20 <? c_por c
  | Software => 30 <? c_boot c
  | HardFault => 5 <? c_fault c
  | Watchdog => 5 <? c_wdt c
  | Panic_ => 5 <? c_panic c
  | Unknown => 10 <? c_boot c
  | Loop => true
  end.

(** The statistics that are reported, and the counters after the boot, when the causes
    [l] are counted.  [boot] is what the documentation says: each of them. *)
Definition boot_counting (l : list BootReason) (default : BootReason) (c : Counters) : Stats * Counters :=
  let reason := hd default (causes c) in
  let total := Z.min (c_total c + c_current c) COUNT_MASK in
  let c := mkCounters total 0 (next_count (c_boot c)) (c_por c) (c_wdt c) (c_panic c) (c_fault c) (f_por c) (f_wdt c) (f_panic c) (f_fault c) in
  let report r c := mkStats r total (c_boot c) (c_por c) (c_wdt c) (c_panic c) (c_fault c) in
  if 1800 <=? total then (report reason c, fresh)
  else
    let c := count_causes l c in
    if is_loop reason c then (report Loop c, fresh) else (report reason c, c).
Definition boot (default : BootReason) (c : Counters) : Stats * Counters := boot_counting (blamed default c) default c.

Lemma enc_false c : enc c false = c.
Proof. apply Z.lor_0_r. Qed.

Lemma reset_run r0 r1 r2 r3 r4 r5 r6 rest :
  reset (r0 :: r1 :: r2 :: r3 :: r4 :: r5 :: r6 :: rest) = (Ok tt, encode fresh ++ rest).
Proof.
  unfold reset, mbind, M_bind, gets. assert ((len (r0 :: r1 :: r2 :: r3 :: r4 :: r5 :: r6 :: rest) <? Stat_COUNT) = false) as ->; [|done].
  apply Z.ltb_ge. rewrite !len_cons. pose proof (len_nonneg rest). unfold Stat_COUNT. lia.
Qed.

Lemma next_count_ok c : is_count c → is_count (next_count c).
Proof. intros []. apply is_count_min. lia. Qed.

Lemma bump_next c : is_count c → bump c = next_count c.
Proof. intros []. unfold bump, next_count. by rewrite min_count by lia. Qed.

Lemma long_enough c rest : (len (encode c ++ rest) <? Stat_COUNT) = false.
Proof.
  apply Z.ltb_ge. rewrite len_app. pose proof (len_nonneg rest). change (len (encode c)) with 7. unfold Stat_COUNT. lia.
Qed.

Lemma flag_not_zero : (FLAG =? 0) = false.
Proof. done. Qed.

(** Evaluate whether a cause is in a list. *)
Ltac eval_causes :=
  repeat match goal with
  | |- context [bool_decide (?a ∈ ?l)] => let v := eval vm_compute in (bool_decide (a ∈ l)) in change (bool_decide (a ∈ l)) with v
  end.

Lemma count_reason_run reason s regs rest c :
  counters_ok c → regs = encode c ++ rest →
  por_total s = c_por c → wdt_total s = c_wdt c → panic_total s = c_panic c → fault_total s = c_fault c → boot_total s = c_boot c →
  reason = boot_reason s →
  let c' := count_causes [reason] c in
  count_reason reason s regs =
    (Ok (is_loop reason c', mkStats reason (uptime_total s) (c_boot c) (c_por c') (c_wdt c') (c_panic c') (c_fault c')),
     encode c' ++ rest).
Proof.
  destruct c as [t u b p w n f fp fw fn ff]. intros (?&?&?&?&?&?&?) ->. destruct s as [r ut bt pt wt nt ft].
  cbn [por_total wdt_total panic_total fault_total boot_total boot_reason uptime_total]. intros -> -> -> -> -> ->.
  cbn [c_por c_wdt c_panic c_fault c_boot f_por f_wdt f_panic f_fault] in *.
  destruct r; cbn [count_reason is_loop]; unfold count_causes, counted, flag_left;
    eval_causes; cbn; rewrite ?andb_true_r; try done;
    rewrite bump_next by done; subst; unfold mbind, M_bind, write; cbn [encode app stat_index lookup list_lookup];
    cbn [c_total c_current c_boot c_por c_wdt c_panic c_fault f_por f_wdt f_panic f_fault]; rewrite !andb_false_r, !enc_false; done.
Qed.

Lemma increment_run stat regs x delta c f :
  regs !! stat_index stat = Some (enc c f) → x = c + delta → is_count c → 0 ≤ delta →
  increment_by stat delta regs =
    (Ok (Z.min x COUNT_MASK), <[stat_index stat := enc (Z.min x COUNT_MASK) f]> regs).
Proof.
  intros Hl -> Hc Hd. unfold increment_by, mbind, M_bind, read. rewrite Hl, land_count, min_count by (done || apply Hc || lia).
  unfold write. rewrite Hl. unfold mret, M_ret. do 2 f_equal. rewrite land_flag by done. by destruct f.
Qed.

Lemma read_split_run stat regs c f :
  regs !! stat_index stat = Some (enc c f) → is_count c → read_split stat regs = (Ok (c, f), regs).
Proof.
  intros Hl Hc. unfold read_split, mbind, M_bind, read. rewrite Hl, land_count, land_flag by done. by destruct f.
Qed.

Lemma count_causes_ok l c : counters_ok c → counters_ok (count_causes l c).
Proof.
  intros (?&?&?&?&?&?&?). assert (∀ r n, is_count n → is_count (counted l r n)) as H'.
  { intros r n Hn. unfold counted. case_bool_decide; [by apply next_count_ok|done]. }
  unfold counters_ok. cbn. split_and!; auto.
Qed.

Lemma fresh_ok : counters_ok fresh.
Proof. unfold counters_ok, is_count. cbn. unfold COUNT_MASK. lia. Qed.

Lemma boot_ok l d c : counters_ok c → counters_ok (boot_counting l d c).2.
Proof.
  intros (?&?&?&?&?&?&?). unfold boot_counting. destruct (1800 <=? _); [apply fresh_ok|].
  match goal with |- context [count_causes l ?c'] => assert (counters_ok (count_causes l c')) end.
  { apply count_causes_ok. unfold counters_ok. cbn. split_and!; try done; [|by apply next_count_ok].
    apply is_count_min. unfold is_count in *. lia. }
  destruct (is_loop _ _); [apply fresh_ok|done].
Qed.

Lemma validate_run t u rest :
  is_count t → is_count u → validate_uptimes (enc t true :: enc u true :: rest) = (Ok tt, enc t true :: enc u true :: rest).
Proof.
  intros Ht Hu. unfold validate_uptimes, mbind, M_bind, read. cbn [stat_index lookup list_lookup].
  by rewrite !land_flag by done.
Qed.

(** The code reports the gravest cause, and counts that one only. *)
Lemma reason_of_causes d c : reason_of (f_fault c) (f_panic c) (f_wdt c) (f_por c) d = hd d (causes c).
Proof. unfold causes. by destruct (f_fault c), (f_panic c), (f_wdt c), (f_por c). Qed.
Lemma take_blamed d c : take 1 (blamed d c) = [hd d (causes c)].
Proof. unfold blamed. by destruct (causes c). Qed.

Lemma boot_run d c rest :
  counters_ok c →
  try_from_registers_or d (encode c ++ rest) =
    (Ok (boot_counting (take 1 (blamed d c)) d c).1, encode (boot_counting (take 1 (blamed d c)) d c).2 ++ rest).
Proof.
  intros Hc. rewrite take_blamed. unfold try_from_registers_or, mbind at 1, M_bind at 1, gets. rewrite long_enough. unfold boot_counting.
  rewrite <-reason_of_causes.
  destruct c as [t u b p w n f fp fw fn ff]. pose proof Hc as (Ht & Hu & Hb & Hp & Hw & Hn & Hf). cbn [c_total c_current c_boot c_por c_wdt c_panic c_fault f_por f_wdt f_panic f_fault] in *.
  unfold mbind, M_bind. cbn [encode app c_total c_current c_boot c_por c_wdt c_panic c_fault f_por f_wdt f_panic f_fault].
  rewrite validate_run by done. unfold read at 1. cbn [stat_index lookup list_lookup]. rewrite land_count by done.
  rewrite (increment_run UptimeTotal _ (t + u) u t true) by (done || apply Hu). cbn [stat_index insert list_insert].
  unfold write at 1. cbn [stat_index insert list_insert lookup list_lookup].
  rewrite (increment_run Boot _ (b + 1) 1 b false) by done. cbn [stat_index insert list_insert].
  do 4 (erewrite read_split_run by (reflexivity || done)). cbn [fst snd].
  set (total := Z.min (t + u) COUNT_MASK). set (reason := reason_of ff fn fw fp d). fold (next_count b).
  set (c' := mkCounters total 0 (next_count b) p w n f fp fw fn ff).
  change (enc total true :: FLAG :: enc (next_count b) false :: enc p fp :: enc w fw :: enc n fn :: enc f ff :: rest) with (encode c' ++ rest).
  destruct (1800 <=? total).
  - unfold encode at 1. cbn [app]. by rewrite reset_run.
  - rewrite (count_reason_run reason _ _ rest c'); [|split_and!; try done; [by apply is_count_min; unfold is_count in *; lia|by apply next_count_ok]|done..].
    cbn [fst snd uptime_total]. destruct (is_loop reason (count_causes [reason] c')); [|done].
    unfold encode at 1. cbn [app]. by rewrite reset_run.
Qed.

(** C39: a boot is counted as documented.  On registers that encode counters and reset
    flags, [try_from_registers_or] never fails.  It reports the gravest of the causes whose
    flags are set (a hard fault, a panic, the watchdog, a power cycle, in this order), or
    the default; it counts that cause and resets its flag, adds up the uptime and the
    boots, and starts over after 1800 seconds or when the cause has occurred too often,
    which it reports as a loop.  When at most one flag is set this is the documented
    behaviour, that each flag is reset and counted; with several flags the others stay
    for the next boot, see [stale_flag_misreports]. *)
Theorem boot_refines d c rest :
  counters_ok c →
  let implements (b : Stats * Counters) :=
    try_from_registers_or d (encode c ++ rest) = (Ok b.1, encode b.2 ++ rest) ∧ counters_ok b.2 in
  implements (boot_counting (take 1 (blamed d c)) d c) ∧ ((length (causes c) ≤ 1)%nat → implements (boot d c)).
Proof.
  intros Hc implements.
  assert (implements (boot_counting (take 1 (blamed d c)) d c)) as H1 by (split; [by apply boot_run|by apply boot_ok]).
  split; [done|]. intros Hl. rewrite take_ge in H1; [done|]. unfold blamed. by destruct (causes c).
Qed.

(** ** Any registers *)

(** The uptime registers are marked as valid, and the current uptime is zero. *)
Definition uptime_ok (regs : list Z) : Prop :=
  (∃ t, is_count t ∧ regs !! 0%nat = Some (enc t true)) ∧ regs !! 1%nat = Some (enc 0 true).

Lemma u32_enc v : is_u32 v → Z.land v FLAG_MASK = FLAG → v = enc (Z.land v COUNT_MASK) true.
Proof.
  intros [H0 H1] Hf. unfold enc. rewrite <-Hf, <-Z.land_lor_distr_r. change (Z.lor COUNT_MASK FLAG_MASK) with (Z.ones 32).
  rewrite Z.land_ones by done. symmetry. by apply Z.mod_small.
Qed.

Lemma wp_read stat n regs (Q : Z → list Z → Prop) (R : unit → list Z → Prop) :
  len regs = n → 7 ≤ n → (∀ v, regs !! stat_index stat = Some v → Q v regs) → wp (read stat) Q R regs.
Proof.
  intros Hl Hn HQ. unfold wp, read. destruct (regs !! stat_index stat) eqn:He; [by apply HQ|].
  apply lookup_ge_None in He. unfold len in Hl. destruct stat; cbn in He; lia.
Qed.

Lemma wp_write stat v n regs (Q : unit → list Z → Prop) (R : unit → list Z → Prop) :
  len regs = n → 7 ≤ n → Q tt (<[stat_index stat := v]> regs) → wp (write stat v) Q R regs.
Proof.
  intros Hl Hn HQ. unfold wp, write. destruct (regs !! stat_index stat) eqn:He; [done|].
  apply lookup_ge_None in He. unfold len in Hl. destruct stat; cbn in He; lia.
Qed.

Lemma len_insert i v (regs : list Z) : len (<[i := v]> regs) = len regs.
Proof. unfold len. by rewrite length_insert. Qed.

(** Writing a register other than the two uptimes. *)
Lemma uptime_ok_insert i v regs : (2 ≤ i)%nat → uptime_ok regs → uptime_ok (<[i := v]> regs).
Proof. intros Hi [(t & Ht & H0) H1]. split; [exists t|]; by rewrite list_lookup_insert_ne by lia. Qed.

Lemma reset_any n regs :
  len regs = n → 7 ≤ n → ∃ regs', reset regs = (Ok tt, regs') ∧ len regs' = n ∧ uptime_ok regs' ∧ regs' !! 0%nat = Some (enc 0 true).
Proof.
  intros Hl Hn. do 7 (destruct regs as [|? regs]; [rewrite ?len_cons in Hl; unfold len in Hl; cbn in Hl; lia|]).
  rewrite reset_run. eexists. split; [reflexivity|]. rewrite !len_cons in Hl. split; [|split; [split|]].
  - rewrite len_app. change (len (encode fresh)) with 7. lia.
  - exists 0. split; [|done]. unfold is_count, COUNT_MASK. lia.
  - done.
  - done.
Qed.

Lemma wp_reset n regs (Q : unit → list Z → Prop) (R : unit → list Z → Prop) :
  len regs = n → 7 ≤ n → (∀ regs', len regs' = n → uptime_ok regs' → Q tt regs') → wp reset Q R regs.
Proof. intros Hl Hn HQ. destruct (reset_any n regs Hl Hn) as (regs' & Hr & ? & ? & _). unfold wp. rewrite Hr. by apply HQ. Qed.

Lemma wp_increment stat delta n regs (Q : Z → list Z → Prop) (R : unit → list Z → Prop) :
  len regs = n → 7 ≤ n → (2 ≤ stat_index stat)%nat → uptime_ok regs →
  (∀ v regs', len regs' = n → uptime_ok regs' → Q v regs') → wp (increment_by stat delta) Q R regs.
Proof.
  intros Hl Hn Hs Hu HQ. unfold increment_by. wp_steps. eapply wp_read; [done..|]. intros v Hv. wp_steps.
  eapply wp_write; [done..|]. wp_steps. apply HQ; [by rewrite len_insert|by apply uptime_ok_insert].
Qed.

Lemma wp_count_reason reason s n regs (R : unit → list Z → Prop) :
  len regs = n → 7 ≤ n → uptime_ok regs →
  wp (count_reason reason s) (λ _ regs', len regs' = n ∧ uptime_ok regs') R regs.
Proof.
  intros Hl Hn Hu. destruct reason; cbn [count_reason]; wp_steps; try done;
    (eapply wp_write; [done..|]; wp_steps; split; [by rewrite len_insert|apply uptime_ok_insert; [cbn; lia|done]]).
Qed.

(** After the checks of the uptime registers both are valid. *)
Lemma wp_checked n regs (R : unit → list Z → Prop) :
  len regs = n → 7 ≤ n → Forall is_u32 regs →
  wp validate_uptimes
    (λ _ regs', len regs' = n ∧ ∃ t u, is_count t ∧ is_count u ∧ regs' !! 0%nat = Some (enc t true) ∧ regs' !! 1%nat = Some (enc u true)) R regs.
Proof.
  intros Hl Hn Hu. unfold validate_uptimes. cbv zeta. wp_steps. eapply wp_read; [done..|]. intros prev Hprev. wp_steps. eapply wp_read; [done..|]. intros total Htotal. wp_steps.
  assert (Hreset : ∀ regs', len regs' = n → wp reset (λ _ regs', len regs' = n ∧ ∃ t u, is_count t ∧ is_count u ∧
    regs' !! 0%nat = Some (enc t true) ∧ regs' !! 1%nat = Some (enc u true)) R regs').
  { intros regs' Hl'. eapply wp_reset; [done..|]. intros regs2 Hl2 [(t & Ht & H0) H1]. split; [done|]. exists t, 0.
    split_and!; try done; unfold is_count, COUNT_MASK; lia. }
  assert (Hp : is_u32 prev ∧ is_u32 total) by (split; by eapply (proj1 (Forall_lookup _ _) Hu)). destruct Hp as [Hp Ht].
  assert (Hz : is_count 0) by (unfold is_count, COUNT_MASK; lia).
  unfold check_flag. destruct (Z.eqb_spec (Z.land prev FLAG_MASK) FLAG) as [H1|H1]; destruct (Z.eqb_spec (Z.land total FLAG_MASK) FLAG) as [H2|H2]; cbn [negb]; wp_steps.
  - split; [done|]. exists (Z.land total COUNT_MASK), (Z.land prev COUNT_MASK). rewrite <-!u32_enc by done. split_and!; try done; apply land_mask_count.
  - eapply wp_write; [done..|]. wp_steps. split; [by rewrite len_insert|]. exists 0, (Z.land prev COUNT_MASK). rewrite <-u32_enc by done.
    split_and!; [done|apply land_mask_count| |]; cbn [stat_index]; [|by rewrite list_lookup_insert_ne].
    rewrite list_lookup_insert_eq; [done|]. apply lookup_lt_Some in Htotal. exact Htotal.
  - eapply wp_write; [done..|]. wp_steps. split; [by rewrite len_insert|]. exists (Z.land total COUNT_MASK), 0. rewrite <-u32_enc by done.
    split_and!; [apply land_mask_count|done| |]; cbn [stat_index]; [by rewrite list_lookup_insert_ne|].
    rewrite list_lookup_insert_eq; [done|]. apply lookup_lt_Some in Hprev. exact Hprev.
  - eapply wp_write; [done..|]. wp_steps. eapply wp_write; [by rewrite len_insert|done|]. wp_steps. apply Hreset. by rewrite !len_insert.
Qed.

(** Boot statistics recover from any contents of the registers.  Too few registers
    are refused and left alone; otherwise, whatever the registers hold (a first power-on,
    an empty backup battery), [try_from_registers_or] returns statistics without panic,
    keeps the number of registers, and leaves both uptime registers valid, the current
    one at zero, as [increment_by] and the next boot need them. *)
Theorem any_registers_recover d regs :
  Forall is_u32 regs →
  (len regs < Stat_COUNT → try_from_registers_or d regs = (Err tt, regs)) ∧
  (Stat_COUNT ≤ len regs →
    ∃ s regs', try_from_registers_or d regs = (Ok s, regs') ∧ len regs' = len regs ∧ uptime_ok regs').
Proof.
  intros Hu. split.
  { intros Hl. unfold try_from_registers_or, mbind at 1, M_bind at 1, gets. by rewrite (proj2 (Z.ltb_lt _ _)). }
  intros Hl. unfold Stat_COUNT in Hl. apply wp_ok. unfold try_from_registers_or. wp_steps.
  rewrite (proj2 (Z.ltb_ge _ _)) by done. wp_steps. eapply wp_mono; [by apply (wp_checked (len regs) regs (λ _ _, False))| |done].
  intros _ r1 (Hl1 & t & u & Ht & Hcu & H0 & H1). wp_steps. eapply wp_read; [done..|]. intros v Hv. cbn [stat_index] in Hv.
  rewrite H1 in Hv. injection Hv as <-. rewrite land_count by done. wp_steps. unfold wp at 1.
  rewrite (increment_run UptimeTotal r1 (t + u) u t true) by (done || apply Hcu). set (r2 := <[_ := _]> r1).
  cbv iota beta. wp_steps.
  assert (Hl2 : len r2 = len regs) by (by unfold r2; rewrite len_insert).
  eapply wp_write; [done..|]. wp_steps. eapply wp_increment; [by rewrite len_insert|done|done| |].
  { split.
    - exists (Z.min (t + u) COUNT_MASK). split; [apply is_count_min; unfold is_count in *; lia|].
      rewrite list_lookup_insert_ne by done. apply list_lookup_insert_eq. by apply lookup_lt_Some in H0.
    - apply list_lookup_insert_eq. unfold r2. rewrite length_insert. by apply lookup_lt_Some in H1. }
  intros b r3 Hl3 Hu3. wp_steps. do 4 (unfold read_split at 1; wp_steps; eapply wp_read; [done..|]; intros ? _; wp_steps).
  destruct (1800 <=? _).
  - wp_steps. eapply wp_reset; [done..|]. intros r4 Hl4 Hu4. by wp_steps.
  - wp_steps. eapply wp_mono; [by apply (wp_count_reason _ _ (len regs) r3 (λ _ _, False))| |done]. intros [l s] r4 [Hl4 Hu4]. cbn [fst snd].
    destruct l; [|by wp_steps]. wp_steps. eapply wp_reset; [done..|]. intros r5 Hl5 Hu5. by wp_steps.
Qed.

(** ** Boot loops *)

(** A reboot after [up] seconds because of a panic. *)
Definition panic_and_boot (up : Z) : MR Stats :=
  increment_by UptimeCurrent up;;
  set_flag SPanic;;
  try_from_registers_or Software.

Fixpoint panics (ups : list Z) : MR (list BootReason) :=
  match ups with
  | [] => mret []
  | up :: ups => s ← panic_and_boot up; l ← panics ups; mret (boot_reason s :: l)
  end.

Lemma set_flag_run stat regs c f :
  regs !! stat_index stat = Some (enc c f) → is_count c → set_flag stat regs = (Ok tt, <[stat_index stat := enc c true]> regs).
Proof. intros Hl Hc. unfold set_flag, mbind, M_bind, read. rewrite Hl, land_count by done. unfold write. by rewrite Hl. Qed.

(** Only panics so far, [n] of them, [t] seconds in all. *)
Definition panicked (t n : Z) : Counters := mkCounters t 0 n 0 0 n 0 false false false false.

Lemma panic_and_boot_boot t n up rest :
  0 ≤ t → 0 ≤ n ≤ 5 → 0 ≤ up → t + up < 1800 →
  panic_and_boot up (encode (panicked t n) ++ rest) =
    (Ok (boot Software (mkCounters t up n 0 0 n 0 false false true false)).1,
     encode (boot Software (mkCounters t up n 0 0 n 0 false false true false)).2 ++ rest).
Proof.
  intros Ht Hn Hup Hsum. assert (Hc : ∀ x, 0 ≤ x < 1800 → is_count x) by (unfold is_count, COUNT_MASK; lia).
  unfold panic_and_boot, mbind, M_bind. rewrite (increment_run UptimeCurrent _ up up 0 true) by (done || (apply Hc; lia) || lia).
  rewrite Z.min_l by (unfold COUNT_MASK; lia). cbn [encode panicked app stat_index insert list_insert c_total c_current c_boot c_por c_wdt c_panic c_fault f_por f_wdt f_panic f_fault].
  rewrite (set_flag_run SPanic _ n false) by (done || (apply Hc; lia)). cbn [stat_index insert list_insert].
  apply (boot_run Software (mkCounters t up n 0 0 n 0 false false true false)). unfold counters_ok. cbn. split_and!; apply Hc; lia.
Qed.

Lemma panic_boot t n up :
  0 ≤ t → 0 ≤ n ≤ 5 → 0 ≤ up → t + up < 1800 →
  ∃ s, boot Software (mkCounters t up n 0 0 n 0 false false true false) =
    (s, if n <? 5 then panicked (t + up) (n + 1) else fresh) ∧ boot_reason s = (if n <? 5 then Panic_ else Loop).
Proof.
  intros Ht Hn Hup Hsum.
  unfold boot, boot_counting, count_causes, counted, flag_left.
  change (blamed Software _) with [Panic_]. change (hd Software _) with Panic_. eval_causes.
  cbn [c_total c_current c_boot c_por c_wdt c_panic c_fault f_por f_wdt f_panic f_fault is_loop andb negb].
  rewrite Z.min_l by (unfold COUNT_MASK; lia). rewrite (proj2 (Z.leb_gt _ _)) by lia.
  unfold next_count. rewrite !Z.min_l by (unfold COUNT_MASK; lia).
  destruct (Z.ltb_spec n 5); [rewrite (proj2 (Z.ltb_ge _ _)) by lia|rewrite (proj2 (Z.ltb_lt _ _)) by lia]; eexists; by split.
Qed.

Lemma panics_snoc ups up regs rs regs' s regs'' :
  panics ups regs = (Ok rs, regs') → panic_and_boot up regs' = (Ok s, regs'') →
  panics (ups ++ [up]) regs = (Ok (rs ++ [boot_reason s]), regs'').
Proof.
  revert regs rs. induction ups as [|u ups IH]; intros regs rs Hp Hs; cbn [panics app] in Hp |- *; unfold mbind, M_bind in Hp |- *.
  - injection Hp as <- <-. rewrite Hs. done.
  - destruct (panic_and_boot u regs) as [[s1| |] r1]; [|done..]. destruct (panics ups r1) as [[l| |] r2] eqn:Hr; [|done..].
    injection Hp as <- <-. by rewrite (IH r1 l Hr Hs).
Qed.

Lemma panics_run ups t n rest :
  0 ≤ t → 0 ≤ n → n + len ups ≤ 5 → Forall (λ u, 0 ≤ u) ups → t + foldr Z.add 0 ups < 1800 →
  panics ups (encode (panicked t n) ++ rest) =
    (Ok (replicate (length ups) Panic_), encode (panicked (t + foldr Z.add 0 ups) (n + len ups)) ++ rest).
Proof.
  revert t n. induction ups as [|up ups IH]; intros t n Ht Hn Hl Hu Hsum.
  { cbn [panics foldr length replicate]. change (len []) with 0. by rewrite !Z.add_0_r. }
  apply list.Forall_cons in Hu as [Hup Hu]. rewrite len_cons in Hl. pose proof (len_nonneg ups). cbn [foldr] in Hsum.
  assert (0 ≤ foldr Z.add 0 ups) by (clear -Hu; induction Hu; cbn; lia).
  cbn [panics]. unfold mbind, M_bind. rewrite panic_and_boot_boot by lia.
  destruct (panic_boot t n up) as (s & -> & Hs); [lia..|]. rewrite (proj2 (Z.ltb_lt n 5)) in * by lia. cbn [fst snd].
  rewrite (IH (t + up) (n + 1)) by (done || lia). cbn [foldr length replicate]. unfold mret, M_ret. rewrite Hs, len_cons.
  do 3 f_equal; f_equal; lia.
Qed.

(** A boot loop is detected.  Starting from reset statistics, the sixth panic in
    less than half an hour of uptime is reported as a loop, the five before it as
    panics, and the statistics start over. *)
Theorem panic_loop_detected ups rest :
  length ups = 6%nat → Forall (λ u, 0 ≤ u) ups → foldr Z.add 0 ups < 1800 →
  panics ups (encode fresh ++ rest) = (Ok [Panic_; Panic_; Panic_; Panic_; Panic_; Loop], encode fresh ++ rest).
Proof.
  intros Hl Hu Hsum. destruct ups as [|up ups _] using rev_ind; [done|]. rewrite length_app in Hl. cbn in Hl.
  apply list.Forall_app in Hu as [Hu Hup]. apply list.Forall_cons in Hup as [Hup _].
  rewrite foldr_app in Hsum. cbn [foldr] in Hsum. rewrite Z.add_0_r in Hsum.
  assert (Hfold : ∀ l z, foldr Z.add z l = foldr Z.add 0 l + z) by (induction l as [|x l IH]; intros z; cbn; [|rewrite IH]; lia).
  rewrite Hfold in Hsum. assert (0 ≤ foldr Z.add 0 ups) by (clear -Hu; induction Hu; cbn; lia).
  assert (Hlen : len ups = 5) by (unfold len; lia).
  pose proof (panics_run ups 0 0 rest ltac:(lia) ltac:(lia) ltac:(lia) Hu ltac:(lia)) as Hrun.
  rewrite Hlen, !Z.add_0_l in Hrun. change (panicked 0 0) with fresh in Hrun.
  destruct (panic_boot (foldr Z.add 0 ups) 5 up) as (s & Hb & Hs); [lia..|].
  change (5 <? 5) with false in Hb, Hs. cbv iota in Hb, Hs.
  erewrite panics_snoc; [|exact Hrun|].
  2: { rewrite panic_and_boot_boot by lia. rewrite Hb. cbn [fst snd]. reflexivity. }
  rewrite Hs. by replace (length ups) with 5%nat by lia.
Qed.

(** A flag that is not counted is reported at the next boot.  After a hard fault
    whose handler panicked both flags are set; only the fault is counted and cleared,
    so the next reset, a deliberate one, is reported as a panic. *)
Theorem stale_flag_misreports :
  ∃ s1 s2 r1 r2 r3,
    (set_flag Fault;; set_flag SPanic) (encode fresh) = (Ok tt, r1) ∧
    try_from_registers_or Software r1 = (Ok s1, r2) ∧ boot_reason s1 = HardFault ∧ panic_total s1 = 0 ∧
    try_from_registers_or Software r2 = (Ok s2, r3) ∧ boot_reason s2 = Panic_ ∧ panic_total s2 = 1.
Proof. do 5 eexists. repeat (split; [vm_compute; reflexivity|]). reflexivity. Qed.

Module DemoBoot.
Lemma boot_refines_witness :
  try_from_registers_or Unknown (encode (mkCounters 100 20 3 1 0 0 0 true false false false) ++ [7]) =
    (Ok (mkStats PowerOn 120 4 2 0 0 0), encode (mkCounters 120 0 4 2 0 0 0 false false false false) ++ [7]).
Proof.
  destruct (boot_refines Unknown (mkCounters 100 20 3 1 0 0 0 true false false false) [7]) as [_ H].
  - unfold counters_ok, is_count. cbn. unfold COUNT_MASK. lia.
  - destruct H as [H _]; [cbn; lia|exact H].
Defined.

Lemma any_registers_recover_witness :
  ∃ s regs', try_from_registers_or Unknown (replicate 7 0xFF) = (Ok s, regs') ∧ len regs' = 7 ∧ uptime_ok regs'.
Proof.
  destruct (any_registers_recover Unknown (replicate 7 0xFF)) as [_ H].
  - repeat constructor; vm_compute; discriminate || reflexivity.
  - apply H. vm_compute. discriminate.
Defined.

Lemma panic_loop_detected_witness :
  panics [10; 20; 0; 300; 5; 5] (encode fresh ++ []) = (Ok [Panic_; Panic_; Panic_; Panic_; Panic_; Loop], encode fresh ++ []).
Proof. apply (panic_loop_detected [10; 20; 0; 300; 5; 5] []); [reflexivity| |reflexivity]. repeat constructor; vm_compute; discriminate. Defined.
End DemoBoot.
