(* ===== verification/SpiFlash.v ===== *)
(** * The SPI flash driver

    [drivers/spi_flash.rs]: the driver of NOR flash chips behind the third-party
    trait [SpiDevice], whose bus it owns.  Three layers borrow each other mutably:
    the low-level commands on the device, [Sleepy], which wakes the chip and puts it
    to sleep, and [SPIFlash], which checks bounds, selects the addressing mode and
    splits programs at page boundaries.  Time passes only in [delay_us].  The
    statistics are plain [u32] sums: whether they panic or wrap is the build's
    [overflow_checks].  [usize] is that of a 32-bit target. *)

From stdpp Require Import base list list_numbers numbers option.
From S2P Require Import Prelude Bitwise NorFlash.

(** ** The bus *)

(** [embedded_hal_async::spi::Operation]; [Read] fills a buffer of [n] bytes. *)
Inductive Operation : Type := OpWrite (bytes : list Z) | OpRead (n : Z).

(** [SpiDevice::transaction], with what its reads returned, and the time. *)
Class SpiDevice (DEV : Type) : Type := {
  transaction : list Operation → M DEV unit (list Z);
  delay_us : Z → DEV → DEV;
}.

(** ** Data *)

Record FlashDescriptor : Type := mkDescriptor {
  page_size : Z;
  erase_size : Z;
  total_size : Z;
  program_timeout_us : Z;
  erase_timeout_us : Z;
  sleep_timeout_us : Z
}.

Inductive DescriptorError : Type :=
| PageSizeInvalid | EraseSizeNotMultipleOfPage | TotalSizeNotMultipleOfErase | EraseSizeNotMultipleMaxEraseSize.

(** [usize::is_power_of_two] and [is_multiple_of] *)
Definition is_power_of_two (n : Z) : bool := (0 <? n) && (2 ^ Z.log2 n =? n).
Definition is_multiple_of (a b : Z) : bool := if b =? 0 then a =? 0 else a mod b =? 0.

Definition descriptor_validate (MAX_ERASE_SIZE : Z) (d : FlashDescriptor) : FlashDescriptor + DescriptorError :=
  if (page_size d <? 1) || negb (is_power_of_two (page_size d)) then inr PageSizeInvalid
  else if negb (is_multiple_of (erase_size d) (page_size d)) then inr EraseSizeNotMultipleOfPage
  else if negb (is_multiple_of (total_size d) (erase_size d)) then inr TotalSizeNotMultipleOfErase
  else if negb (is_multiple_of MAX_ERASE_SIZE (erase_size d)) then inr EraseSizeNotMultipleMaxEraseSize
  else inl d.

Inductive Manufacturer : Type := InfineonCypress | WinBondNexcom.
Definition manufacturer_try_from (b : Z) : option Manufacturer :=
  if b =? 0x01 then Some InfineonCypress else if b =? 0xEF then Some WinBondNexcom else None.

Inductive SpiError : Type := UnSupported | SizeMismatch | SPI | SpiOutOfBounds | Alignment | WriteFailed | Timeout.

Inductive Command : Type :=
| Wakeup | Sleep | PowerDown | ReadJEDEC | ReadStatus | WriteStatus | Enter4ByteMode | Read
| WriteEnable | WriteDisable | EraseSector | EraseSector4B | ProgramPage.
#[export] Instance Command_eq_dec : EqDecision Command.
Proof. solve_decision. Defined.

Definition command_as_u8 (c : Command) : Z :=
  match c with
  | Wakeup => 0xAB | Sleep => 0xB9 | PowerDown => 0x79
  | ReadJEDEC => 0x9F | ReadStatus => 0x05 | WriteStatus => 0x01
  | Enter4ByteMode => 0xB7 | Read => 0x03
  | WriteEnable => 0x06 | WriteDisable => 0x04
  | EraseSector => 0x20 | EraseSector4B => 0x21 | ProgramPage => 0x02
  end.

(** [Status]: the busy bit and the write enable latch. *)
Definition is_busy {S E} (status : Z) : M S E bool := bit W8 status 0.
Definition is_write_enable_set {S E} (status : Z) : M S E bool := bit W8 status 1.

Inductive Mode : Type := B24 | B32.
#[export] Instance Mode_eq_dec : EqDecision Mode.
Proof. solve_decision. Defined.

Record SpiStats : Type := mkSpiStats {
  read_bytes : Z;
  read_attempts : Z;
  reads : Z;
  erase_attempts : Z
}.
Definition spi_stats_default : SpiStats := mkSpiStats 0 0 0 0.

Record Sleepy (DEV : Type) : Type := mkSleepy { device : DEV; awake : bool; sleep_delay_us : Z }.
Arguments mkSleepy {DEV}.
Arguments device {DEV}.
Arguments awake {DEV}.
Arguments sleep_delay_us {DEV}.

Record SPIFlash (DEV : Type) : Type := mkSPIFlash {
  spi_flash : Sleepy DEV;
  cfg : FlashDescriptor;
  mode : Mode;
  stats : SpiStats
}.
Arguments mkSPIFlash {DEV}.
Arguments spi_flash {DEV}.
Arguments cfg {DEV}.
Arguments mode {DEV}.
Arguments stats {DEV}.

(** [u32::to_be_bytes] *)
Definition to_be_bytes (z : Z) : list Z := reverse (le_bytes 4 z).

(** Three address bytes in [B24], four in [B32]. *)
Definition cmd_and_addr (cmd : Command) (addr : Z) (m : Mode) : list Z :=
  match m with
  | B24 => command_as_u8 cmd :: drop 1 (to_be_bytes addr)
  | B32 => command_as_u8 cmd :: to_be_bytes addr
  end.

Definition bounds_check {S} (address length min_addr max_len : Z) : M S SpiError Z :=
  if address <? min_addr then fail SpiOutOfBounds
  else if max_len <? length then fail SpiOutOfBounds
  else
    let offset := address - min_addr in
    if as_u32 (max_len - length) <? offset then fail SpiOutOfBounds else mret address.

Section driver.
Context {DEV : Type} `{!SpiDevice DEV} (overflow_checks : bool).
Abbreviation MD := (M DEV SpiError).
Abbreviation MS := (M (Sleepy DEV) SpiError).
Abbreviation MF := (M (SPIFlash DEV) SpiError).

(** ** [LowlevelFlash] *)

Definition spi_transaction (ops : list Operation) : MD (list Z) := map_err (λ _, SPI) (transaction ops).

Definition send_command (cmd : Command) : MD unit :=
  spi_transaction [OpWrite [command_as_u8 cmd]];; mret tt.

(** [result] has length [n]. *)
Definition read_reg (cmd : Command) (n : Z) : MD (list Z) :=
  spi_transaction [OpWrite [command_as_u8 cmd]; OpRead n].

Definition status : MD Z :=
  r ← read_reg ReadStatus 1;
  mret (nth 0 r 0).

Definition write_enable : MD unit :=
  send_command WriteEnable;;
  st ← status;
  set ← is_write_enable_set st;
  if set : bool then mret tt else fail WriteFailed.

Fixpoint poll_ready (n : nat) (step_us : Z) : MD unit :=
  match n with
  | O => fail Timeout
  | S n =>
      st ← status;
      busy ← is_busy st;
      if negb busy then mret tt
      else modify (delay_us step_us);; poll_ready n step_us
  end.
Definition is_ready (timeout_us : Z) : MD unit := poll_ready 10 (timeout_us / 10).

Definition program_page (timeout_us : Z) (cmd_addr bytes : list Z) : MD unit :=
  write_enable;;
  spi_transaction [OpWrite cmd_addr; OpWrite bytes];;
  is_ready timeout_us.

(** ** [Sleepy] *)

Definition set_device (d : DEV) (s : Sleepy DEV) : Sleepy DEV := mkSleepy d (awake s) (sleep_delay_us s).
Definition set_awake (b : bool) (s : Sleepy DEV) : Sleepy DEV := mkSleepy (device s) b (sleep_delay_us s).
Definition on_device {E A} (m : M DEV E A) : M (Sleepy DEV) E A := zoom device set_device m.

Definition sleepy_new (d : DEV) (delay : Z) : Sleepy DEV := mkSleepy d false delay.

(** The best-effort loop of [sleep]. *)
Fixpoint send_sleep {E} (n : nat) : M DEV E unit :=
  match n with
  | O => mret tt
  | S n =>
      r ← attempt (send_command Sleep);
      match r with inl _ => mret tt | inr _ => send_sleep n end
  end.
Definition sleep {E} : M (Sleepy DEV) E unit :=
  modify (set_awake false);;
  on_device (send_sleep 2).

(** The loop of [wakeup], at most five attempts. *)
Fixpoint wakeup_loop (fuel : nat) (attempts : Z) : MS unit :=
  match fuel with
  | O => panic
  | S fuel =>
      delay ← gets sleep_delay_us;
      on_device (modify (delay_us delay));;
      r ← attempt (on_device (send_command Wakeup));
      match r with
      | inl _ => mret tt
      | inr error =>
          let attempts := attempts + 1 in
          if 5 <=? attempts then sleep;; fail error else wakeup_loop fuel attempts
      end
  end.
Definition wakeup : MS unit :=
  is_awake ← gets awake;
  if is_awake : bool then mret tt
  else
    wakeup_loop 5 0;;
    delay ← gets sleep_delay_us;
    on_device (modify (delay_us delay));;
    modify (set_awake true).

(** ** [SPIFlash] *)

Definition set_flash (s : Sleepy DEV) (f : SPIFlash DEV) : SPIFlash DEV := mkSPIFlash s (cfg f) (mode f) (stats f).
Definition set_mode (m : Mode) (f : SPIFlash DEV) : SPIFlash DEV := mkSPIFlash (spi_flash f) (cfg f) m (stats f).
Definition set_stats (st : SpiStats) (f : SPIFlash DEV) : SPIFlash DEV :=
  mkSPIFlash (spi_flash f) (cfg f) (mode f) st.
Definition on_flash {E A} (m : M (Sleepy DEV) E A) : M (SPIFlash DEV) E A := zoom spi_flash set_flash m.
Definition on_spi {E A} (m : M DEV E A) : M (SPIFlash DEV) E A := on_flash (on_device m).

Definition spi_new (spi_dev : DEV) (descriptor : FlashDescriptor) : SPIFlash DEV :=
  mkSPIFlash (sleepy_new spi_dev (sleep_timeout_us descriptor)) descriptor B24 spi_stats_default.

(** [+=] on a statistic. *)
Definition stat_add {S E} (a b : Z) : M S E Z :=
  if overflow_checks && (u32_size <=? a + b) then panic else mret (as_u32 (a + b)).

(** An error after which the chip is put to sleep. *)
Definition sleep_and_fail {A} (e : SpiError) : MF A := on_flash sleep;; fail e.

Definition detect_type : MF Manufacturer :=
  on_flash wakeup;;
  r ← attempt (on_spi (read_reg ReadJEDEC 3));
  match r with
  | inr err => sleep_and_fail err
  | inl result =>
      let density := nth 2 result 0 in
      if 31 <? density then sleep_and_fail SizeMismatch
      else
        let size := Z.shiftl 1 density in
        total ← gets (total_size ∘ cfg);
        if negb (size =? total) then sleep_and_fail SizeMismatch
        else
          match manufacturer_try_from (nth 0 result 0) with
          | Some manufacturer => mret manufacturer
          | None => sleep_and_fail UnSupported
          end
  end.

Definition init_and_check_addr (addr length : Z) : MF (Z * Mode) :=
  total ← gets (total_size ∘ cfg);
  addr ← bounds_check addr length 0 total;
  m ← gets mode;
  (match m with
   | B32 => mret tt
   | B24 =>
       if 0x1000000 <? total then
         on_flash wakeup;;
         r ← attempt (on_spi (send_command Enter4ByteMode));
         match r with
         | inr err => sleep_and_fail err
         | inl _ => modify (set_mode B32)
         end
       else mret tt
   end);;
  m ← gets mode;
  on_flash wakeup;;
  mret (addr, m).

(** [self.stats.read_attempts], the statistics reset now and then. *)
Definition count_read_attempt : MF unit :=
  st ← gets stats;
  (if is_multiple_of (read_attempts st) 2048 then modify (set_stats spi_stats_default) else mret tt);;
  st ← gets stats;
  n ← stat_add (read_attempts st) 1;
  modify (set_stats (mkSpiStats (read_bytes st) n (reads st) (erase_attempts st))).
Definition count_read (n : Z) : MF unit :=
  st ← gets stats;
  b ← stat_add (read_bytes st) (as_u32 n);
  r ← stat_add (reads st) 1;
  modify (set_stats (mkSpiStats b (read_attempts st) r (erase_attempts st))).
Definition count_erase : MF unit :=
  st ← gets stats;
  n ← stat_add (erase_attempts st) 1;
  modify (set_stats (mkSpiStats (read_bytes st) (read_attempts st) (reads st) n)).

(** A [Result] that is returned after the chip went to sleep. *)
Definition finish {A} (r : caught SpiError A) : MF A :=
  on_flash sleep;;
  match r with inl a => mret a | inr e => fail e end.

Definition spi_read (address n : Z) : MF (list Z) :=
  count_read_attempt;;
  am ← init_and_check_addr address n;
  result ← attempt (on_spi (spi_transaction [OpWrite (cmd_and_addr Read am.1 am.2); OpRead n]));
  count_read n;;
  finish result.

(** The loop over the sectors; it ends at the first error. *)
Fixpoint erase_sectors (cmd : Command) (addr : Z) (m : Mode) (timeout_us : Z) (offsets : list Z) : MD unit :=
  match offsets with
  | [] => mret tt
  | offset :: offsets =>
      write_enable;;
      a ← u32_add addr (as_u32 offset);
      spi_transaction [OpWrite (cmd_and_addr cmd a m)];;
      is_ready timeout_us;;
      erase_sectors cmd addr m timeout_us offsets
  end.

(** [(0..len).step_by(step)] *)
Definition step_by (length step : Z) : list Z :=
  (λ i, i * step) <$> seqZ 0 ((length + step - 1) / step).

(** The address and length that are returned make up the [ErasedRange]. *)
Definition spi_erase (address length : Z) : MF (Z * Z) :=
  sector ← gets (erase_size ∘ cfg);
  timeout ← gets (erase_timeout_us ∘ cfg);
  count_erase;;
  am ← init_and_check_addr address length;
  if negb (is_multiple_of am.1 sector) || negb (is_multiple_of length sector) then sleep_and_fail Alignment
  else
    let erase_cmd := match am.2 with B24 => EraseSector | B32 => EraseSector4B end in
    if sector =? 0 then panic
    else
      error ← attempt (on_spi (erase_sectors erase_cmd am.1 am.2 timeout (step_by length sector)));
      finish error;;
      mret (am.1, length).

(** The loop of [program]; each turn programs at least one byte. *)
Fixpoint program_loop (fuel : nat) (timeout_us program_size addr : Z) (m : Mode) (bytes : list Z)
    (block_offset : Z) : MD unit :=
  match fuel with
  | O => panic
  | S fuel =>
      block_address ← u32_add addr (as_u32 block_offset);
      rem ← u32_rem block_address program_size;
      let block_max_len := program_size - rem in
      let bytes_to_program := Z.min (len bytes - block_offset) block_max_len in
      if bytes_to_program =? 0 then mret tt
      else
        program_page timeout_us (cmd_and_addr ProgramPage block_address m)
          (slice block_offset (block_offset + bytes_to_program) bytes);;
        program_loop fuel timeout_us program_size addr m bytes (block_offset + bytes_to_program)
  end.

Definition spi_program (address : Z) (bytes : list Z) : MF unit :=
  timeout ← gets (program_timeout_us ∘ cfg);
  program_size ← gets (page_size ∘ cfg);
  am ← init_and_check_addr address (len bytes);
  result ← attempt (on_spi (program_loop (S (length bytes)) timeout program_size am.1 am.2 bytes 0));
  finish result.

(** ** [ErasedRange], which borrows the flash *)

Record ErasedRange : Type := mkErasedRange { start_addr : Z; max_len : Z }.

Definition range_write (r : ErasedRange) (address : Z) (bytes : list Z) : MF unit :=
  addr ← bounds_check address (len bytes) (start_addr r) (max_len r);
  spi_program addr bytes.

Definition write_relative (r : ErasedRange) (relative_offset : Z) (bytes : list Z) : MF unit :=
  if max_len r <=? relative_offset then fail SpiOutOfBounds
  else
    address ← u32_add (as_u32 relative_offset) (start_addr r);
    range_write r address bytes.

(** ** The traits [ReadNorFlash] and [NorFlash] *)

Definition nor_capacity (f : SPIFlash DEV) : Z := total_size (cfg f).
Definition nor_erase (from to : Z) : MF unit :=
  length ← u32_sub to from;
  spi_erase from length;; mret tt.
End driver.

(** ** What the SPI flash driver relies on

    A serial NOR flash chip as its data sheet documents it (third-party hardware):
    its memory, the write enable latch, the time until the operation in progress
    completes, its power state and its addressing mode, and what each command does.
    [NorChip] says that a device is such a chip behind a bus: a transaction that
    succeeds is one documented step, after some time; one that fails may have been
    executed, not executed, or interrupted, with each bit of the memory old or new.
    A busy chip ignores every command but [ReadStatus], and its latch reads
    anything; a chip in power down only wakes up. *)

(** [PEntering] and [PLeaving] power down take some microseconds. *)
Inductive Power : Type := PAwake | PAsleep | PEntering (t : Z) | PLeaving (t : Z).

Record Chip : Type := mkChip {
  mem : Z → Z;
  wel : bool;
  ready_in : Z;
  power : Power;
  wide : bool
}.

Definition set_mem (m : Z → Z) (busy : Z) (c : Chip) : Chip := mkChip m false busy (power c) (wide c).
Definition set_wel (b : bool) (c : Chip) : Chip := mkChip (mem c) b (ready_in c) (power c) (wide c).
Definition set_power (p : Power) (c : Chip) : Chip := mkChip (mem c) (wel c) (ready_in c) p (wide c).
Definition set_wide (c : Chip) : Chip := mkChip (mem c) (wel c) (ready_in c) (power c) true.

(** [n] microseconds pass. *)
Definition power_delay (n : Z) (p : Power) : Power :=
  match p with
  | PAwake => PAwake
  | PAsleep => PAsleep
  | PEntering t => if t <=? n then PAsleep else PEntering (t - n)
  | PLeaving t => if t <=? n then PAwake else PLeaving (t - n)
  end.
Definition chip_delay (n : Z) (c : Chip) : Chip :=
  mkChip (mem c) (wel c) (Z.max 0 (ready_in c - n)) (power_delay n (power c)) (wide c).

(** Programming a page clears bits and wraps around in the page. *)
Definition programmed (page addr : Z) (data : list Z) (m : Z → Z) (a : Z) : Z :=
  if a / page =? addr / page
  then match data !! Z.to_nat ((a - addr) mod page) with Some b => Z.land (m a) b | None => m a end
  else m a.
Definition erased (sector addr : Z) (m : Z → Z) (a : Z) : Z :=
  if a / sector =? addr / sector then 255 else m a.

Definition addr_val (bytes : list Z) : Z := le_val (reverse bytes).

(** A byte or a bit of a status register. *)
Definition command_of (b : Z) : option Command :=
  list_find (λ c, command_as_u8 c = b)
    [Wakeup; Sleep; PowerDown; ReadJEDEC; ReadStatus; WriteStatus; Enter4ByteMode; Read; WriteEnable;
     WriteDisable; EraseSector; EraseSector4B; ProgramPage] ≫= λ x, Some x.2.

Definition accepts (c : Chip) (cmd : Command) : Prop :=
  match power c with
  | PAwake => ready_in c ≤ 0 ∨ cmd = ReadStatus
  | PAsleep => cmd = Wakeup
  | PEntering _ | PLeaving _ => False
  end.

#[export] Instance accepts_dec c cmd : Decision (accepts c cmd).
Proof. unfold accepts. destruct (power c); apply _. Defined.

Section chip.
(** The geometry, and the longest times the chip really takes. *)
Context (d : FlashDescriptor) (T_program T_erase T_sleep : Z) (jedec : list Z).

Definition mode_bytes (c : Chip) : Z := if wide c then 4 else 3.

Definition takes (t_max : Z) (p : Z → Prop) : Prop := ∃ t, 0 ≤ t ≤ t_max ∧ p t.

(** What an accepted command does: its arguments, the rest of the transaction, the
    bytes read and the state after it; nothing is said of what is not documented. *)
Definition command_does (c : Chip) (cmd : Command) (args : list Z) (rest : list Operation)
    (out : list Z) (c' : Chip) : Prop :=
  match cmd, args, rest with
  | WriteEnable, [], [] => c' = set_wel true c
  | Enter4ByteMode, [], [] => c' = set_wide c
  | Sleep, [], [] => takes T_sleep (λ t, c' = set_power (PEntering t) c)
  | Wakeup, [], [] =>
      match power c with PAsleep => takes T_sleep (λ t, c' = set_power (PLeaving t) c) | _ => c' = c end
  | ReadStatus, [], [OpRead n] =>
      n = 1 → c' = c ∧ ∃ s, out = [s] ∧ is_u8 s ∧ Z.testbit s 0 = (0 <? ready_in c) ∧
        (ready_in c ≤ 0 → Z.testbit s 1 = wel c)
  | ReadJEDEC, [], [OpRead n] => n = 3 → c' = c ∧ out = jedec
  | Read, args, [OpRead n] =>
      len args = mode_bytes c → addr_val args + n ≤ total_size d →
      c' = c ∧ out = view (mem c) (addr_val args) n
  | ProgramPage, args, [OpWrite data] =>
      len args = mode_bytes c → len data ≤ page_size d →
      if wel c then takes T_program (λ t, c' = set_mem (programmed (page_size d) (addr_val args) data (mem c)) t c)
      else c' = c
  | (EraseSector | EraseSector4B), args, [] =>
      len args = (if decide (cmd = EraseSector4B) then 4 else mode_bytes c) →
      if wel c then takes T_erase (λ t, c' = set_mem (erased (erase_size d) (addr_val args) (mem c)) t c)
      else c' = c
  | _, _, _ => True
  end.

Definition chip_does (c : Chip) (ops : list Operation) (out : list Z) (c' : Chip) : Prop :=
  match ops with
  | OpWrite (b :: args) :: rest =>
      match command_of b with
      | Some cmd => (accepts c cmd → command_does c cmd args rest out c') ∧ (¬ accepts c cmd → c' = c)
      | None => True
      end
  | _ => True
  end.

(** [c'] is [c] on the way to [c1]. *)
Definition same_control (c c' : Chip) : Prop :=
  wel c' = wel c ∧ ready_in c' = ready_in c ∧ power c' = power c ∧ wide c' = wide c.
Definition interrupted (c c1 c' : Chip) : Prop :=
  (same_control c c' ∨ same_control c1 c') ∧
  ∀ a i, Z.testbit (mem c' a) i = Z.testbit (mem c a) i ∨ Z.testbit (mem c' a) i = Z.testbit (mem c1 a) i.

Class NorChip (DEV : Type) `{!SpiDevice DEV} : Type := {
  chip : DEV → Chip;
  (** no transaction will fail *)
  bus_ok : DEV → Prop;
  delay_law : ∀ n dev, 0 ≤ n →
    (∃ t, n ≤ t ∧ chip (delay_us n dev) = chip_delay t (chip dev)) ∧ (bus_ok dev → bus_ok (delay_us n dev));
  transaction_law : ∀ ops dev,
    wp (transaction ops)
      (λ out dev', (∃ t, 0 ≤ t ∧ chip_does (chip_delay t (chip dev)) ops out (chip dev')) ∧
                   (bus_ok dev → bus_ok dev'))
      (λ _ dev', ¬ bus_ok dev ∧ ∃ t out c1, 0 ≤ t ∧ chip_does (chip_delay t (chip dev)) ops out c1 ∧
                   interrupted (chip_delay t (chip dev)) c1 (chip dev')) dev;
}.
End chip.

(** ** Facts about the SPI flash driver

    What each layer of the driver does to a chip that satisfies [NorChip]: the
    commands, the wake-up and the sleep, and the loops over pages and sectors. *)

(** ** Memory *)

(** Nothing outside [P] changes and no bit is set. *)
Definition clears (P : Z → Prop) (m m' : Z → Z) : Prop :=
  (∀ a, ¬ P a → m' a = m a) ∧ clears_bits m m'.

Lemma land_mono x y z : y = Z.land x y → z = Z.land y z → z = Z.land x z.
Proof. intros Hy Hz. rewrite Hz at 1. rewrite Hy, <-Z.land_assoc, <-Hz. done. Qed.

Lemma clears_refl P m m' : (∀ a, m' a = m a) → clears P m m'.
Proof. intros H. split; [done|]. by apply clears_bits_refl. Qed.

Lemma clears_trans (P : Z → Prop) m1 m2 m3 : clears P m1 m2 → clears P m2 m3 → clears P m1 m3.
Proof.
  intros [H1 H2] [H3 H4]. split; [intros a Ha; by rewrite H3, H1|].
  intros a. eapply land_mono; [apply H2|apply H4].
Qed.

Lemma clears_weaken (P P' : Z → Prop) m m' : clears P m m' → (∀ a, P a → P' a) → clears P' m m'.
Proof. intros [H1 H2] H. split; auto. Qed.

Lemma interrupted_same c c1 c' : interrupted c c1 c' → (∀ a, mem c1 a = mem c a) → ∀ a, mem c' a = mem c a.
Proof. intros [_ H] He a. apply Z.bits_inj. intros i. destruct (H a i) as [->| ->]; by rewrite ?He. Qed.

Lemma interrupted_frame (P : Z → Prop) c c1 c' :
  interrupted c c1 c' → (∀ a, ¬ P a → mem c1 a = mem c a) → ∀ a, ¬ P a → mem c' a = mem c a.
Proof.
  intros [_ H] He a Ha. apply Z.bits_inj. intros i. destruct (H a i) as [->| ->]; by rewrite ?He.
Qed.

Lemma interrupted_clears P c c1 c' :
  interrupted c c1 c' → clears P (mem c) (mem c1) → clears P (mem c) (mem c').
Proof.
  intros Hi [Hf Hc]. split; [by eapply interrupted_frame|]. intros a. apply Z.bits_inj. intros i.
  rewrite Z.land_spec. destruct Hi as [_ Hi]. destruct (Hi a i) as [->| ->]; [by destruct (Z.testbit _ _)|].
  specialize (Hc a). rewrite Hc, Z.land_spec. by destruct (Z.testbit (mem c a) i), (Z.testbit (mem c1 a) i).
Qed.

Lemma command_of_u8 c : command_of (command_as_u8 c) = Some c.
Proof. by destruct c. Qed.

Lemma bit0 {S E} x (Q : bool → S → Prop) (R : E → S → Prop) s :
  Q (Z.testbit x 0) s → wp (is_busy x) Q R s.
Proof.
  intros H. change (Q (negb (Z.land x 1 =? 0)) s).
  assert (negb (Z.land x 1 =? 0) = Z.testbit x 0) as ->; [|done].
  change 1 with (Z.ones 1). rewrite Z.land_ones by lia. change (2 ^ 1) with 2.
  rewrite <-Z.bit0_mod. by destruct (Z.testbit x 0).
Qed.

Lemma bit1 {S E} x (Q : bool → S → Prop) (R : E → S → Prop) s :
  Q (Z.testbit x 1) s → wp (is_write_enable_set x) Q R s.
Proof.
  intros H. change (Q (negb (Z.land x 2 =? 0)) s).
  assert (negb (Z.land x 2 =? 0) = Z.testbit x 1) as ->; [|done].
  destruct (Z.testbit x 1) eqn:Hb.
  - apply negb_true_iff, Z.eqb_neq. intros H0. apply (f_equal (λ z, Z.testbit z 1)) in H0.
    by rewrite Z.land_spec, Hb in H0.
  - apply negb_false_iff, Z.eqb_eq, Z.bits_inj. intros i. rewrite Z.land_spec, Z.bits_0.
    destruct (decide (i = 1)) as [->|]; [by rewrite Hb|]. change 2 with (2 ^ 1).
    by rewrite Z.pow2_bits_false, andb_false_r by lia.
Qed.

Section facts.
Context {DEV : Type} `{!SpiDevice DEV} (d : FlashDescriptor) (T_program T_erase T_sleep : Z) (jedec : list Z).
Context `{!NorChip d T_program T_erase T_sleep jedec DEV}.
Context (HTS : T_sleep ≤ sleep_timeout_us d) (HS0 : 0 ≤ sleep_timeout_us d).
Abbreviation chip := (chip d T_program T_erase T_sleep jedec).
Abbreviation bus_ok := (bus_ok d T_program T_erase T_sleep jedec).
Abbreviation does := (command_does d T_program T_erase T_sleep jedec).
Implicit Types dev : DEV.

Abbreviation same_mem dev dev' := (∀ a, mem (chip dev') a = mem (chip dev) a).

(** Awake and not busy. *)
Definition ready (c : Chip) : Prop := power c = PAwake ∧ ready_in c ≤ 0.
(** Power changes complete within the driver's delay. *)
Definition settled (c : Chip) : Prop :=
  match power c with PAwake | PAsleep => True | PEntering t | PLeaving t => t ≤ sleep_timeout_us d end.

(** ** One command *)

Lemma accepts_delay t c cmd : 0 ≤ t → accepts c cmd → accepts (chip_delay t c) cmd.
Proof. unfold accepts, chip_delay; cbn. destruct (power c); cbn; try done. intros ? [?|?]; [left; lia|by right]. Qed.

Lemma accepts_ready c cmd : ready c → accepts c cmd.
Proof. intros [Hp Hr]. unfold accepts. rewrite Hp. by left. Qed.

Lemma ready_delay t c : 0 ≤ t → ready c → ready (chip_delay t c).
Proof. intros ? [Hp Hr]. unfold ready, chip_delay. cbn. rewrite Hp. split; [done|lia]. Qed.

Lemma cmd_law cmd args rest dev :
  accepts (chip dev) cmd →
  wp (spi_transaction (OpWrite (command_as_u8 cmd :: args) :: rest))
    (λ out dev', (∃ t, 0 ≤ t ∧ does (chip_delay t (chip dev)) cmd args rest out (chip dev')) ∧
                 (bus_ok dev → bus_ok dev'))
    (λ e dev', ¬ bus_ok dev ∧ ∃ t out c1, 0 ≤ t ∧ does (chip_delay t (chip dev)) cmd args rest out c1 ∧
                 interrupted (chip_delay t (chip dev)) c1 (chip dev')) dev.
Proof.
  intros Ha. unfold spi_transaction. apply wp_map_err. eapply wp_mono; [apply transaction_law| |].
  - intros out dev' [(t & Ht & Hd) Hb]. split; [|done]. exists t. split; [done|].
    cbn [chip_does] in Hd. rewrite command_of_u8 in Hd. by apply Hd, accepts_delay.
  - intros e dev' (Hb & t & out & c1 & Ht & Hd & Hi). split; [done|]. exists t, out, c1. split_and!; try done.
    cbn [chip_does] in Hd. rewrite command_of_u8 in Hd. by apply Hd, accepts_delay.
Qed.

(** A command that never changes the memory, whatever state the chip is in. *)
Definition harmless (cmd : Command) (args : list Z) (rest : list Operation) : Prop :=
  ∀ c out c', does c cmd args rest out c' → ∀ a, mem c' a = mem c a.

Lemma harmless_law cmd args rest dev :
  harmless cmd args rest →
  wp (spi_transaction (OpWrite (command_as_u8 cmd :: args) :: rest))
    (λ _ dev', same_mem dev dev' ∧ (bus_ok dev → bus_ok dev'))
    (λ e dev', same_mem dev dev' ∧ ¬ bus_ok dev) dev.
Proof.
  intros Hh. unfold spi_transaction. apply wp_map_err.
  assert (∀ t out c', chip_does d T_program T_erase T_sleep jedec (chip_delay t (chip dev))
    (OpWrite (command_as_u8 cmd :: args) :: rest) out c' → ∀ a, mem c' a = mem (chip dev) a) as Hm.
  { intros t out c' Hd. cbn [chip_does] in Hd. rewrite command_of_u8 in Hd.
    destruct (decide (accepts (chip_delay t (chip dev)) cmd)) as [Ha|Ha].
    - intros a. destruct Hd as [Hd _]. by rewrite (Hh _ _ _ (Hd Ha)).
    - destruct Hd as [_ Hd]. by rewrite (Hd Ha). }
  eapply wp_mono; [apply transaction_law| |].
  - intros out dev' [(t & Ht & Hd) Hb]. split; [by eapply Hm|done].
  - intros e dev' (Hb & t & out & c1 & Ht & Hd & Hi). split; [|done].
    intros a. rewrite (interrupted_same _ _ _ Hi); [done|]. intros b. by rewrite (Hm _ _ _ Hd).
Qed.

(** [m] is the addressing mode of the chip. *)
Definition mode_ok (m : Mode) (c : Chip) : Prop := wide c = bool_decide (m = B32).
Definition addr_fits (m : Mode) (a : Z) : Prop := 0 ≤ a < match m with B24 => 2 ^ 24 | B32 => 2 ^ 32 end.

Definition addr_size (m : Mode) : Z := match m with B24 => 2 ^ 24 | B32 => 2 ^ 32 end.

Lemma cmd_and_addr_shape cmd a m c :
  mode_ok m c →
  ∃ args, cmd_and_addr cmd a m = command_as_u8 cmd :: args ∧ len args = mode_bytes c ∧ addr_val args = a mod addr_size m.
Proof.
  unfold mode_ok, mode_bytes. intros Hw.
  assert (∀ n, addr_val (reverse (le_bytes n a)) = a mod 256 ^ Z.of_nat n) as Hv.
  { intros n. unfold addr_val. by rewrite reverse_involutive, le_val_le_bytes. }
  destruct m; rewrite Hw; cbn [cmd_and_addr].
  - exists (reverse (le_bytes 3 a)). split; [done|]. split; [done|apply Hv].
  - exists (reverse (le_bytes 4 a)). split; [done|]. split; [done|apply Hv].
Qed.

Lemma cmd_and_addr_frame cmd a m c :
  mode_ok m c → addr_fits m a →
  ∃ args, cmd_and_addr cmd a m = command_as_u8 cmd :: args ∧ len args = mode_bytes c ∧ addr_val args = a.
Proof.
  intros Hw Ha. destruct (cmd_and_addr_shape cmd a m c Hw) as (args & H1 & H2 & H3). exists args.
  split; [done|]. split; [done|]. rewrite H3. by apply Z.mod_small; destruct m.
Qed.

(** ** The low-level commands *)

Lemma status_law dev :
  power (chip dev) = PAwake →
  wp status
    (λ s dev', (∃ t, 0 ≤ t ∧ chip dev' = chip_delay t (chip dev)) ∧
       Z.testbit s 0 = (0 <? ready_in (chip dev')) ∧
       (ready_in (chip dev') ≤ 0 → Z.testbit s 1 = wel (chip dev')) ∧ (bus_ok dev → bus_ok dev'))
    (λ _ dev', ¬ bus_ok dev ∧ same_mem dev dev') dev.
Proof.
  intros Hp. unfold status, read_reg. apply wp_bind. eapply wp_mono; [apply cmd_law| |].
  - unfold accepts. rewrite Hp. by right.
  - intros out dev' [(t & Ht & Hd) Hb]. destruct (Hd eq_refl) as (He & s & -> & _ & H0 & H1). apply wp_ret.
    cbn [nth]. rewrite He. split_and!; [by exists t|done|done|done].
  - intros e dev' (Hb & t & out & c1 & Ht & Hd & Hi). split; [done|]. destruct (Hd eq_refl) as (He & _).
    by apply (interrupted_same _ _ _ Hi); rewrite He.
Qed.

(** The chip is ready, in the same addressing mode as before. *)
Definition still_ready dev dev' : Prop :=
  ready (chip dev') ∧ wide (chip dev') = wide (chip dev) ∧ (bus_ok dev → bus_ok dev').

Lemma still_ready_refl dev : ready (chip dev) → still_ready dev dev.
Proof. by intros. Qed.

Lemma still_ready_trans dev1 dev2 dev3 : still_ready dev1 dev2 → still_ready dev2 dev3 → still_ready dev1 dev3.
Proof. intros (? & ? & ?) (? & ? & ?). split_and!; [done|congruence|auto]. Qed.

Lemma write_enable_law dev :
  ready (chip dev) →
  wp write_enable (λ _ dev', still_ready dev dev' ∧ wel (chip dev') = true ∧ same_mem dev dev')
    (λ _ dev', ¬ bus_ok dev ∧ same_mem dev dev') dev.
Proof.
  intros Hr. unfold write_enable, send_command. do 2 apply wp_bind. eapply wp_mono; [by apply cmd_law, accepts_ready| |].
  2: { intros e dev' (Hb & t & out & c1 & Ht & Hd & Hi). split; [done|].
       by apply (interrupted_same _ _ _ Hi); cbn in Hd; rewrite Hd. }
  intros out dev1 [(t & Ht & Hd) Hb]. cbn in Hd. apply wp_ret, wp_bind.
  assert (ready (chip dev1)) as Hr1 by (rewrite Hd; by apply (ready_delay t (chip dev))).
  eapply wp_mono; [apply status_law, Hr1| |].
  2: { intros e dev2 [Hb2 Hm]. split; [auto|]. intros a. by rewrite Hm, Hd. }
  intros s dev2 ((t2 & Ht2 & He) & _ & Hw & Hb2). apply wp_bind, bit1.
  assert (ready (chip dev2)) as Hr2 by (rewrite He; by apply ready_delay).
  rewrite (Hw (proj2 Hr2)), He. cbn [wel chip_delay]. rewrite Hd. cbn [wel set_wel]. apply wp_ret.
  split_and!; [split_and!; [done|by rewrite He, Hd|auto]|by rewrite He, Hd|intros a; by rewrite He, Hd].
Qed.

Lemma poll_ready_law n step dev :
  power (chip dev) = PAwake → 0 ≤ step →
  wp (poll_ready n step) (λ _ dev', still_ready dev dev' ∧ same_mem dev dev')
    (λ _ dev', same_mem dev dev' ∧
       ¬ (bus_ok dev ∧ (0 < n)%nat ∧ ready_in (chip dev) ≤ (Z.of_nat n - 1) * step)) dev.
Proof.
  intros Hp Hs. revert dev Hp. induction n as [|n IH]; intros dev Hp; cbn [poll_ready].
  { apply wp_fail. split; [done|lia]. }
  apply wp_bind. eapply wp_mono; [by apply status_law| |].
  2: { intros e dev' [Hb Hm]. split; [done|]. by intros [? _]. }
  intros s dev1 ((t & Ht & He) & H0 & _ & Hb). apply wp_bind, bit0. rewrite H0.
  assert (power (chip dev1) = PAwake) as Hp1 by (rewrite He; cbn; by rewrite Hp).
  assert (ready_in (chip dev1) = Z.max 0 (ready_in (chip dev) - t)) as Hri by by rewrite He.
  destruct (Z.ltb_spec 0 (ready_in (chip dev1))) as [Hbusy|Hbusy]; cbn [negb].
  - apply wp_bind, wp_modify. destruct (delay_law d T_program T_erase T_sleep jedec step dev1 Hs) as [(t2 & Ht2 & He2) Hb2].
    eapply wp_mono; [apply IH; rewrite He2; cbn; by rewrite Hp1| |].
    + intros _ dev' [Hr' Hm]. split; [|intros a; by rewrite Hm, He2, He].
      destruct Hr' as (Hr & Hw & Hbb). split_and!; [done|by rewrite Hw, He2, He|auto].
    + intros _ dev' [Hm Hn]. split; [intros a; by rewrite Hm, He2, He|]. intros (Hbd & _ & Hle).
      apply Hn. rewrite He2. cbn [chip_delay ready_in]. split_and!; [auto|nia|].
      assert (n ≠ 0%nat) by (intros ->; lia). nia.
  - apply wp_ret. split; [|intros a; by rewrite He]. split_and!; [split; [done|lia]|by rewrite He|done].
Qed.

Lemma is_ready_law timeout dev :
  power (chip dev) = PAwake → 0 ≤ timeout →
  wp (is_ready timeout) (λ _ dev', still_ready dev dev' ∧ same_mem dev dev')
    (λ _ dev', same_mem dev dev' ∧ ¬ (bus_ok dev ∧ ready_in (chip dev) ≤ 9 * (timeout / 10))) dev.
Proof.
  intros Hp Ht. unfold is_ready. eapply wp_mono; [apply poll_ready_law; [done|by apply Z.div_pos]|done|].
  intros _ dev' [Hm Hn]. split; [done|]. intros [Hb Hr]. apply Hn. split_and!; [done|lia|lia].
Qed.

(** The shape of a program and of an erase: a command that is executed when the
    latch is set, then the wait. *)
Lemma write_then_wait (f : (Z → Z) → Z → Z) ops cmd args rest T timeout dev (post : (Z → Z) → (Z → Z) → Prop) :
  ops = OpWrite (command_as_u8 cmd :: args) :: rest →
  ready (chip dev) → 0 ≤ timeout →
  (∀ c out c', wide c = wide (chip dev) → wel c = true → does c cmd args rest out c' →
     takes T (λ t, c' = set_mem (f (mem c)) t c)) →
  (∀ c c1 c', (∀ a, mem c a = mem (chip dev) a) → (∀ a, mem c1 a = f (mem c) a) → interrupted c c1 c' ∨ (∀ a, mem c' a = mem c1 a) →
     post (mem (chip dev)) (mem c')) →
  (∀ m', (∀ a, m' a = mem (chip dev) a) → post (mem (chip dev)) m') →
  (∀ m m' a, (∀ a, m' a = m a) → f m' a = f m a) →
  wp (write_enable;; spi_transaction ops;; is_ready timeout)
    (λ _ dev', still_ready dev dev' ∧ ∀ a, mem (chip dev') a = f (mem (chip dev)) a)
    (λ _ dev', post (mem (chip dev)) (mem (chip dev')) ∧ ¬ (bus_ok dev ∧ T ≤ 9 * (timeout / 10))) dev.
Proof.
  intros -> Hr Ht Hdoes Hpost Hsame Hext. apply wp_bind. eapply wp_mono; [by apply write_enable_law| |].
  2: { intros e dev' [Hb Hm]. split; [by apply Hsame|]. by intros [? _]. }
  intros _ dev1 (Hs1 & Hw1 & Hm1). destruct Hs1 as (Hr1 & Hwd1 & Hb1). apply wp_bind.
  eapply wp_mono; [by apply cmd_law, accepts_ready| |].
  - intros out dev2 [(t & Htt & Hd) Hb2].
    apply Hdoes in Hd as (t2 & Ht2 & He); [|by cbn; rewrite Hwd1|done].
    assert (∀ a, mem (chip dev2) a = f (mem (chip dev)) a) as Hm2.
    { intros a. rewrite He. cbn [mem set_mem chip_delay]. by apply Hext. }
    eapply wp_mono; [apply is_ready_law; [rewrite He; cbn; by rewrite (proj1 Hr1)|done]| |].
    + intros _ dev3 [(Hr3 & Hwd3 & Hb3) Hm3]. split; [|intros a; by rewrite Hm3].
      split_and!; [done|rewrite Hwd3, He; cbn; done|auto].
    + intros _ dev3 [Hm3 Hn]. split.
      * eapply (Hpost (chip dev) (chip dev2)); [done|done|by right].
      * intros [Hb HT]. apply Hn. split; [auto|]. rewrite He. cbn. lia.
  - intros e dev2 (Hb2 & t & out & c1 & Htt & Hd & Hi). split.
    + apply Hdoes in Hd as (t2 & Ht2 & He); [|by cbn; rewrite Hwd1|done].
      eapply Hpost; [| |by left].
      * intros a. cbn [mem chip_delay]. apply Hm1.
      * intros a. by rewrite He.
    + intros [? _]. auto.
Qed.

(** ** Pages and sectors *)

Lemma programmed_in page a data m x :
  0 < page → 0 ≤ a → a mod page + len data ≤ page → range a (a + len data) x →
  ∃ b, data !! Z.to_nat (x - a) = Some b ∧ programmed page a data m x = Z.land (m x) b.
Proof.
  intros Hp Ha Hl [Hx1 Hx2]. unfold programmed. pose proof (Z.div_mod a page ltac:(lia)) as Hdm.
  pose proof (Z.mod_pos_bound a page Hp).
  assert (x / page = a / page) as ->.
  { symmetry. apply Z.div_unique with (r := a mod page + (x - a)); lia. }
  rewrite Z.eqb_refl, (Z.mod_small (x - a)) by lia.
  destruct (lookup_lt_is_Some_2 data (Z.to_nat (x - a))) as [b Hb]; [unfold len in *; lia|].
  exists b. by rewrite Hb.
Qed.

Lemma programmed_out page a data m x :
  0 < page → 0 ≤ a → a mod page + len data ≤ page → ¬ range a (a + len data) x →
  programmed page a data m x = m x.
Proof.
  intros Hp Ha Hl Hx. unfold programmed. destruct (Z.eqb_spec (x / page) (a / page)) as [He|]; [|done].
  destruct (data !! Z.to_nat ((x - a) mod page)) as [b|] eqn:Hb; [|done].
  apply lookup_lt_Some in Hb. exfalso. apply Hx. unfold range.
  pose proof (Z.div_mod a page ltac:(lia)). pose proof (Z.div_mod x page ltac:(lia)).
  pose proof (Z.mod_pos_bound a page Hp). pose proof (Z.mod_pos_bound x page Hp).
  pose proof (Z.mod_pos_bound (x - a) page Hp). rewrite He in *.
  assert (x - a = x mod page - a mod page) as Hxa by lia.
  destruct (decide (a ≤ x)).
  - rewrite Z.mod_small in Hb by lia. unfold len. lia.
  - rewrite <-(Z.mod_add _ 1), Z.mod_small in Hb by lia. unfold len in *. lia.
Qed.

Lemma programmed_clears page a data m :
  0 < page → 0 ≤ a → a mod page + len data ≤ page → clears (range a (a + len data)) m (programmed page a data m).
Proof.
  intros Hp Ha Hl. split; [intros; by apply programmed_out|]. intros x.
  destruct (decide (range a (a + len data) x)) as [Hx|Hx].
  - destruct (programmed_in page a data m x Hp Ha Hl Hx) as (b & _ & ->). by rewrite Z.land_assoc, Z.land_diag.
  - by rewrite programmed_out, Z.land_diag.
Qed.

Lemma programmed_ext page a data m m' x : (∀ a, m' a = m a) → programmed page a data m' x = programmed page a data m x.
Proof. intros H. unfold programmed. by rewrite !H. Qed.

Lemma clears_ext P m1 m2 m1' m2' :
  clears P m1 m2 → (∀ a, m1' a = m1 a) → (∀ a, m2' a = m2 a) → clears P m1' m2'.
Proof. intros [H1 H2] E1 E2. split; [intros; by rewrite E1, E2, H1|intros a; rewrite E1, E2; apply H2]. Qed.

Lemma program_page_law timeout a m data dev :
  ready (chip dev) → mode_ok m (chip dev) → addr_fits m a → 0 < page_size d → 0 ≤ timeout →
  a mod page_size d + len data ≤ page_size d →
  wp (program_page timeout (cmd_and_addr ProgramPage a m) data)
    (λ _ dev', still_ready dev dev' ∧ ∀ x, mem (chip dev') x = programmed (page_size d) a data (mem (chip dev)) x)
    (λ _ dev', clears (range a (a + len data)) (mem (chip dev)) (mem (chip dev')) ∧
               ¬ (bus_ok dev ∧ T_program ≤ 9 * (timeout / 10))) dev.
Proof.
  intros Hr Hm Ha Hp Ht Hl. destruct (cmd_and_addr_frame ProgramPage a m _ Hm Ha) as (args & Hca & Hlen & Hav).
  assert (0 ≤ a) as Ha0 by apply Ha.
  eapply write_then_wait with (post := clears (range a (a + len data))); [by rewrite Hca|done|done| | | |].
  - intros c out c' Hw Hwel Hd. cbn [command_does] in Hd. rewrite Hwel, Hav in Hd. apply Hd.
    + unfold mode_bytes in *. by rewrite Hw.
    + pose proof (Z.mod_pos_bound a _ Hp). lia.
  - intros c c1 c' Hc Hc1 Hi.
    assert (clears (range a (a + len data)) (mem c) (mem c1)) as Hcl.
    { by apply (clears_ext _ (mem c) (programmed (page_size d) a data (mem c))); [apply programmed_clears|..]. }
    eapply clears_ext; [|intros x; symmetry; apply Hc|done]. destruct Hi as [Hi|Hi].
    + by eapply interrupted_clears.
    + by eapply clears_ext.
  - intros m' Hm'. by apply clears_refl.
  - intros m1 m2 x Hx. by apply programmed_ext.
Qed.

Definition frame (P : Z → Prop) (m m' : Z → Z) : Prop := ∀ a, ¬ P a → m' a = m a.

Lemma erased_in sector a m x : 0 < sector → (sector | a) → range a (a + sector) x → erased sector a m x = 255.
Proof.
  intros Hs [k ->] [H1 H2]. unfold erased. rewrite Z.div_mul by lia.
  assert (x / sector = k) as ->; [|by rewrite Z.eqb_refl].
  symmetry. apply Z.div_unique with (r := x - k * sector); lia.
Qed.

Lemma erased_out sector a m : 0 < sector → (sector | a) → frame (range a (a + sector)) m (erased sector a m).
Proof.
  intros Hs [k ->] x Hx. unfold erased. rewrite Z.div_mul by lia.
  destruct (Z.eqb_spec (x / sector) k) as [He|]; [|done]. exfalso. apply Hx. unfold range.
  pose proof (Z.div_mod x sector ltac:(lia)). pose proof (Z.mod_pos_bound x sector Hs). rewrite He in *. lia.
Qed.

(** The erase command of a mode. *)
Definition erase_command (m : Mode) : Command := match m with B24 => EraseSector | B32 => EraseSector4B end.

Lemma erase_sector_law timeout a m dev :
  ready (chip dev) → mode_ok m (chip dev) → addr_fits m a → 0 < erase_size d → (erase_size d | a) → 0 ≤ timeout →
  wp (write_enable;; spi_transaction [OpWrite (cmd_and_addr (erase_command m) a m)];; is_ready timeout)
    (λ _ dev', still_ready dev dev' ∧ ∀ x, mem (chip dev') x = erased (erase_size d) a (mem (chip dev)) x)
    (λ _ dev', frame (range a (a + erase_size d)) (mem (chip dev)) (mem (chip dev')) ∧
               ¬ (bus_ok dev ∧ T_erase ≤ 9 * (timeout / 10))) dev.
Proof.
  intros Hr Hm Ha Hp Hdiv Ht. destruct (cmd_and_addr_frame (erase_command m) a m _ Hm Ha) as (args & Hca & Hlen & Hav).
  eapply write_then_wait with (post := frame (range a (a + erase_size d))); [by rewrite Hca|done|done| | | |].
  - intros c out c' Hw Hwel Hd. unfold mode_ok, mode_bytes in *.
    destruct m; cbn [erase_command command_does] in Hd; rewrite Hwel, Hav in Hd; apply Hd; cbn.
    + unfold mode_bytes. by rewrite Hw.
    + by rewrite Hlen, Hm.
  - intros c c1 c' Hc Hc1 Hi x Hx. rewrite <-Hc.
    assert (∀ y, ¬ range a (a + erase_size d) y → mem c1 y = mem c y) as He.
    { intros y Hy. rewrite Hc1. by apply erased_out. }
    destruct Hi as [Hi|Hi]; [by apply (interrupted_frame _ _ _ _ Hi He)|by rewrite Hi, He].
  - by intros m' Hm' x _.
  - intros m1 m2 x Hx. unfold erased. by rewrite Hx.
Qed.

(** ** Sleep and wake-up *)

Lemma harmless_sleep : harmless Sleep [] [].
Proof. intros c out c' (t & _ & ->). done. Qed.

(** A chip between two operations. *)
Definition rested (c : Chip) : Prop := settled c ∧ ready_in c ≤ 0.

Lemma rested_delay t c : 0 ≤ t → rested c → rested (chip_delay t c).
Proof.
  unfold rested, settled, chip_delay. cbn [power ready_in]. intros ? [? ?].
  destruct (power c) as [| |u|u]; cbn [power_delay]; (split; [|lia]); try done; destruct (u <=? t); (done || lia).
Qed.

Lemma ready_rested c : ready c → rested c.
Proof. intros [Hp Hr]. unfold rested, settled. by rewrite Hp. Qed.

Lemma rested_control c c' : same_control c c' → rested c → rested c'.
Proof. intros (_ & Hr & Hp & _). unfold rested, settled. by rewrite Hr, Hp. Qed.

(** From any rested chip the two power commands lead to a rested chip. *)
Lemma rested_does cmd c out c' :
  rested c → cmd = Sleep ∨ cmd = Wakeup →
  (accepts c cmd → does c cmd [] [] out c') → (¬ accepts c cmd → c' = c) →
  rested c' ∧ wide c' = wide c ∧ ∀ a, mem c' a = mem c a.
Proof.
  intros Hr Hcmd H1 H2. destruct (decide (accepts c cmd)) as [Ha|Ha]; [|by rewrite H2].
  specialize (H1 Ha). destruct Hcmd as [-> | ->]; cbn in H1.
  - destruct H1 as (t & Ht & ->). split; [|done]. split; [cbn; lia|apply Hr].
  - destruct (power c); try (by subst). destruct H1 as (t & Ht & ->). split; [|done].
    split; [cbn; lia|apply Hr].
Qed.

Lemma power_command_law cmd dev :
  rested (chip dev) → cmd = Sleep ∨ cmd = Wakeup →
  wp (send_command cmd)
    (λ _ dev', rested (chip dev') ∧ wide (chip dev') = wide (chip dev) ∧ same_mem dev dev' ∧ (bus_ok dev → bus_ok dev'))
    (λ _ dev', ¬ bus_ok dev ∧ rested (chip dev') ∧ wide (chip dev') = wide (chip dev) ∧ same_mem dev dev') dev.
Proof.
  intros Hr Hc. unfold send_command, spi_transaction. apply wp_bind, wp_map_err.
  assert (∀ t out c1, 0 ≤ t → chip_does d T_program T_erase T_sleep jedec (chip_delay t (chip dev))
    [OpWrite [command_as_u8 cmd]] out c1 →
    rested c1 ∧ wide c1 = wide (chip dev) ∧ ∀ a, mem c1 a = mem (chip dev) a) as Hd.
  { intros t out c1 Ht Hd. cbn [chip_does] in Hd. rewrite command_of_u8 in Hd. destruct Hd.
    by eapply (rested_does cmd (chip_delay t (chip dev)) out); [by apply rested_delay|..]. }
  eapply wp_mono; [apply transaction_law| |].
  - intros out dev' [(t & Ht & H1) Hb]. apply wp_ret. destruct (Hd _ _ _ Ht H1) as (? & ? & ?). done.
  - intros e dev' (Hb & t & out & c1 & Ht & H1 & Hi). destruct (Hd _ _ _ Ht H1) as (H2 & H3 & H4). split; [done|].
    split_and!.
    + destruct Hi as [[Hs|Hs] _]; (eapply rested_control; [exact Hs|]); [by apply rested_delay|done].
    + destruct Hi as [[(_ & _ & _ & ->)|(_ & _ & _ & ->)] _]; done.
    + by apply (interrupted_same _ _ _ Hi).
Qed.

Definition sleeps dev dev' : Prop :=
  (rested (chip dev) → rested (chip dev') ∧ wide (chip dev') = wide (chip dev)) ∧
  same_mem dev dev' ∧ (bus_ok dev → bus_ok dev').

Lemma send_sleep_law {E} n dev : wp (E := E) (send_sleep n) (λ _ dev', sleeps dev dev') (λ _ _, False) dev.
Proof.
  revert dev. induction n as [|n IH]; intros dev; cbn [send_sleep]; [by apply wp_ret|].
  apply wp_bind, wp_attempt.
  assert (wp (send_command Sleep) (λ _ dev', sleeps dev dev') (λ _ dev', ¬ bus_ok dev ∧ sleeps dev dev') dev) as H.
  { unfold wp. pose proof (harmless_law Sleep [] [] dev harmless_sleep) as Hh.
    assert (rested (chip dev) → _) as Hr by (intros Hr; exact (power_command_law Sleep dev Hr (or_introl eq_refl))).
    unfold send_command, wp, mbind, M_bind in *. destruct (spi_transaction _ dev) as [[out|e|] dev']; [| |done].
    - destruct Hh. split_and!; [|done|done]. intros Hrd. by destruct (Hr Hrd) as (? & ? & _).
    - destruct Hh as [? ?]. split; [done|]. split_and!; [|done|done]. intros Hrd. by destruct (Hr Hrd) as (_ & ? & ? & _). }
  eapply wp_mono; [exact H| |].
  - intros [] dev' Hs. by apply wp_ret.
  - intros e dev' [Hb (H1 & H2 & H3)]. eapply wp_mono; [apply IH| |done].
    intros _ dev2 (H4 & H5 & H6). split_and!; [|intros a; by rewrite H5|done].
    intros Hrd. destruct (H1 Hrd) as [? Hw]. destruct H4 as [? Hw2]; [done|]. by rewrite Hw2, Hw.
Qed.

Lemma sleep_law {E} (s : Sleepy DEV) :
  wp (E := E) sleep
    (λ _ s', awake s' = false ∧ sleep_delay_us s' = sleep_delay_us s ∧ sleeps (device s) (device s'))
    (λ _ _, False) s.
Proof.
  unfold sleep, on_device. apply wp_bind, wp_modify, wp_zoom.
  eapply wp_mono; [apply send_sleep_law|by intros ?? H|done].
Qed.

(** After the driver's delay no power change is in progress. *)
Lemma rested_after_delay n c :
  sleep_timeout_us d ≤ n → rested c →
  ready_in (chip_delay n c) ≤ 0 ∧ (power (chip_delay n c) = PAwake ∨ power (chip_delay n c) = PAsleep).
Proof.
  unfold rested, settled, chip_delay. cbn. intros Hn [Hs Hr]. split; [lia|].
  destruct (power c); cbn; try (by left); try (by right); rewrite (proj2 (Z.leb_le _ _)) by lia;
    [by right|by left].
Qed.

Definition waking (c : Chip) : Prop :=
  rested c ∧ match power c with PAwake | PLeaving _ => True | _ => False end.

Lemma waking_after_delay n c : sleep_timeout_us d ≤ n → waking c → ready (chip_delay n c).
Proof.
  intros Hn [Hr Hw]. destruct (rested_after_delay n c Hn Hr) as [H1 H2]. split; [|done].
  unfold rested, settled, chip_delay in *. cbn in *. destruct (power c); cbn in *; try done.
  by rewrite (proj2 (Z.leb_le _ _)) by lia.
Qed.

Lemma waking_delay n c : 0 ≤ n → waking c → waking (chip_delay n c).
Proof.
  intros Hn [Hr Hw]. split; [by apply rested_delay|]. unfold chip_delay. cbn.
  destruct (power c); cbn; try done. by destruct (_ <=? _).
Qed.

Lemma wakeup_command_law dev :
  rested (chip dev) → power (chip dev) = PAwake ∨ power (chip dev) = PAsleep →
  wp (send_command Wakeup)
    (λ _ dev', waking (chip dev') ∧ wide (chip dev') = wide (chip dev) ∧ same_mem dev dev' ∧ (bus_ok dev → bus_ok dev'))
    (λ _ dev', ¬ bus_ok dev ∧ rested (chip dev') ∧ wide (chip dev') = wide (chip dev) ∧ same_mem dev dev') dev.
Proof.
  intros Hr Hp. pose proof (power_command_law Wakeup dev Hr (or_intror eq_refl)) as Hpc.
  unfold send_command in *. assert (accepts (chip dev) Wakeup) as Ha.
  { unfold accepts. destruct Hp as [-> | ->]; [left; apply Hr|done]. }
  pose proof (cmd_law Wakeup [] [] dev Ha) as Hc. unfold wp, mbind, M_bind in *.
  destruct (spi_transaction _ dev) as [[out|e|] dev']; [|done|done].
  destruct Hpc as (H1 & H2 & H3 & H4). split_and!; try done. split; [done|].
  destruct Hc as [(t & Ht & Hd) _]. cbn [command_does] in Hd. cbn [power chip_delay] in Hd.
  destruct Hp as [Hp|Hp]; rewrite Hp in Hd; cbn [power_delay] in Hd.
  - rewrite Hd. cbn. by rewrite Hp.
  - by destruct Hd as (t2 & _ & ->).
Qed.

Definition sleepy_ok (s : Sleepy DEV) : Prop :=
  sleep_delay_us s = sleep_timeout_us d ∧ rested (chip (device s)) ∧
  (awake s = true → power (chip (device s)) = PAwake).

Lemma wakeup_loop_law n (s : Sleepy DEV) :
  sleep_delay_us s = sleep_timeout_us d → rested (chip (device s)) → (0 < n)%nat →
  wp (wakeup_loop n (5 - Z.of_nat n))
    (λ _ s', sleep_delay_us s' = sleep_delay_us s ∧ waking (chip (device s')) ∧
       wide (chip (device s')) = wide (chip (device s)) ∧ same_mem (device s) (device s') ∧
       (bus_ok (device s) → bus_ok (device s')))
    (λ _ s', ¬ bus_ok (device s) ∧ same_mem (device s) (device s')) s.
Proof.
  revert s. induction n as [|n IH]; intros s Hdel Hr Hn; [lia|]. cbn [wakeup_loop].
  apply wp_bind, wp_gets, wp_bind, wp_zoom, wp_modify. rewrite Hdel.
  destruct (delay_law d T_program T_erase T_sleep jedec (sleep_timeout_us d) (device s) HS0) as [(t & Ht & He) Hb].
  destruct (rested_after_delay t _ Ht Hr) as [_ Hpw]. pose proof (rested_delay t _ ltac:(lia) Hr) as Hr1.
  rewrite <-He in Hpw, Hr1. apply wp_bind, wp_attempt, wp_zoom. cbn [device set_device].
  eapply wp_mono; [by apply wakeup_command_law| |].
  - intros _ dev2 (H1 & H2 & H3 & H4). apply wp_ret. cbn.
    split; [congruence|]. split; [done|]. split; [by rewrite H2, He|]. split; [intros a; by rewrite H3, He|auto].
  - intros e dev2 (H1 & H2 & H3 & H4). destruct (Z.leb_spec 5 (5 - Z.of_nat (S n) + 1)) as [Hlast|Hmore].
    + apply wp_bind. eapply wp_mono; [apply sleep_law| |done]. intros _ s' (_ & _ & _ & Hm & _). apply wp_fail.
      split; [auto|]. intros a. rewrite Hm. cbn. by rewrite H4, He.
    + replace (5 - Z.of_nat (S n) + 1) with (5 - Z.of_nat n) by lia.
      eapply wp_mono; [apply IH; cbn; [done|done|lia]| |].
      * intros _ s' (J1 & J2 & J3 & J4 & J5). cbn in *.
        split; [congruence|]. split; [done|]. split; [by rewrite J3, H3, He|]. split; [intros a; by rewrite J4, H4, He|].
        intros Hbs. exfalso. auto.
      * intros e' s' (J1 & J2). cbn in *. split; [auto|]. intros a. by rewrite J2, H4, He.
Qed.

Lemma wakeup_law (s : Sleepy DEV) :
  sleepy_ok s →
  wp wakeup
    (λ _ s', awake s' = true ∧ sleep_delay_us s' = sleep_delay_us s ∧ still_ready (device s) (device s') ∧
             same_mem (device s) (device s'))
    (λ _ s', ¬ bus_ok (device s) ∧ same_mem (device s) (device s')) s.
Proof.
  intros (Hdel & Hr & Ha). unfold wakeup. apply wp_bind, wp_gets.
  destruct (awake s) eqn:Haw; [apply wp_ret; split_and!; try done; by split; [split; [auto|apply Hr]|]|].
  apply wp_bind. eapply wp_mono; [by apply (wakeup_loop_law 5); [| |lia]| |done].
  intros _ s1 (H1 & H2 & H3 & H4 & H5). apply wp_bind, wp_gets, wp_bind, wp_zoom, wp_modify, wp_modify. cbn.
  rewrite H1, Hdel.
  destruct (delay_law d T_program T_erase T_sleep jedec (sleep_timeout_us d) (device s1) HS0) as [(t & Ht & He) Hb].
  split; [done|]. split; [congruence|]. split; [|intros a; by rewrite He; cbn; rewrite H4].
  unfold still_ready. rewrite <-H3. split; [rewrite He; by apply waking_after_delay|]. split; [by rewrite He|auto].
Qed.

(** ** The loops *)

Context (Hpage : 0 < page_size d) (Herase : 0 < erase_size d) (Htotal : is_u32 (total_size d)).
Context (HPT : 0 ≤ program_timeout_us d) (HET : 0 ≤ erase_timeout_us d).

(** An addressing mode that reaches the whole chip. *)
Definition mode_fits (m : Mode) : Prop := m = B24 → total_size d ≤ 2 ^ 24.

Lemma mode_fits_addr m a : mode_fits m → 0 ≤ a < total_size d → addr_fits m a.
Proof. unfold mode_fits, addr_fits, is_u32, u32_size in *. destruct m; [|lia]. intros H. specialize (H eq_refl). lia. Qed.

(** Each byte of [data] was programmed over what was at its address. *)
Definition stored (a : Z) (data : list Z) (from : Z) (m m' : Z → Z) : Prop :=
  clears (range (a + from) (a + len data)) m m' ∧
  ∀ i b, from ≤ i → data !! Z.to_nat i = Some b → m' (a + i) = Z.land (m (a + i)) b.

Lemma stored_nothing a data m m' :
  (∀ x, m' x = m x) → stored a data (len data) m m'.
Proof.
  intros H. split; [by apply clears_refl|]. intros i b Hi Hb. apply lookup_lt_Some in Hb. unfold len in Hi. lia.
Qed.

Lemma page_clears a data from n m m1 :
  0 ≤ a → 0 ≤ from → 0 < n → from + n ≤ len data → (a + from) mod page_size d + n ≤ page_size d →
  (∀ x, m1 x = programmed (page_size d) (a + from) (slice from (from + n) data) m x) →
  clears (range (a + from) (a + from + n)) m m1.
Proof.
  intros Ha Hf Hn Hle Hpg H1.
  assert (len (slice from (from + n) data) = n) as Hls by (rewrite len_slice; lia).
  pose proof (programmed_clears (page_size d) (a + from) (slice from (from + n) data) m Hpage
    ltac:(lia) ltac:(rewrite Hls; lia)) as H0.
  rewrite Hls in H0. by eapply clears_ext.
Qed.

(** One page, then the rest. *)
Lemma stored_page a data from n m m1 m2 :
  0 ≤ a → 0 ≤ from → 0 < n → from + n ≤ len data → (a + from) mod page_size d + n ≤ page_size d →
  (∀ x, m1 x = programmed (page_size d) (a + from) (slice from (from + n) data) m x) →
  stored a data (from + n) m1 m2 → stored a data from m m2.
Proof.
  intros Ha Hf Hn Hle Hpg H1 [H2 H3]. pose proof (page_clears a data from n m m1 Ha Hf Hn Hle Hpg H1) as Hc.
  assert (len (slice from (from + n) data) = n) as Hls by (rewrite len_slice; lia).
  split.
  - eapply clears_trans; [eapply clears_weaken; [exact Hc|]|eapply clears_weaken; [exact H2|]]; unfold range; lia.
  - intros i b Hi Hb. pose proof (lookup_lt_Some _ _ _ Hb) as Hlt.
    destruct (decide (from + n ≤ i)) as [Hge|Hlo].
    + rewrite (H3 i b) by done. f_equal. apply Hc. unfold range. lia.
    + destruct H2 as [Hfr _]. rewrite Hfr by (unfold range; lia). rewrite H1.
      destruct (programmed_in (page_size d) (a + from) (slice from (from + n) data) m (a + i)) as (b' & Hb' & ->);
        [done|lia|lia|unfold range; lia|].
      f_equal. unfold slice in Hb'. apply lookup_take_Some in Hb' as [Hb' _]. rewrite lookup_drop in Hb'.
      replace (Z.to_nat from + Z.to_nat (a + i - (a + from)))%nat with (Z.to_nat i) in Hb' by lia. congruence.
Qed.

Lemma program_loop_law fuel a m data from dev :
  ready (chip dev) → mode_ok m (chip dev) → mode_fits m → 0 ≤ a → 0 ≤ from ≤ len data →
  a + len data ≤ total_size d → (Z.to_nat (len data - from) < fuel)%nat →
  wp (program_loop fuel (program_timeout_us d) (page_size d) a m data from)
    (λ _ dev', still_ready dev dev' ∧ stored a data from (mem (chip dev)) (mem (chip dev')))
    (λ _ dev', clears (range (a + from) (a + len data)) (mem (chip dev)) (mem (chip dev')) ∧
               ¬ (bus_ok dev ∧ T_program ≤ 9 * (program_timeout_us d / 10))) dev.
Proof.
  intros Hr Hm Hmf Ha. revert from dev Hr Hm.
  induction fuel as [|fuel IH]; intros from dev Hr Hm Hfrom Hle Hfuel; [lia|]. cbn [program_loop].
  unfold is_u32 in *. rewrite as_u32_small by (unfold is_u32; lia). apply wp_bind, wp_u32_add; [lia|].
  apply wp_bind, wp_u32_rem; [done|]. pose proof (Z.mod_pos_bound (a + from) (page_size d) Hpage) as Hmod.
  destruct (Z.eqb_spec (Z.min (len data - from) (page_size d - (a + from) mod page_size d)) 0) as [H0|H0].
  { apply wp_ret. split; [by apply still_ready_refl|]. replace from with (len data) by lia.
    by apply stored_nothing. }
  set (n := Z.min _ _) in *. assert (len (slice from (from + n) data) = n) as Hls by (rewrite len_slice; lia).
  apply wp_bind. eapply wp_mono.
  - apply program_page_law; [done|done|apply mode_fits_addr; [done|lia]|done|done|lia].
  - intros _ dev1 [Hs1 H1]. destruct Hs1 as (Hr1 & Hw1 & Hb1). eapply wp_mono.
    + apply (IH (from + n)); [done|unfold mode_ok; by rewrite Hw1|lia|done|lia].
    + intros _ dev2 [(Hr2 & Hw2 & Hb2) H2]. split; [split_and!; [done|congruence|auto]|].
      eapply stored_page; [done|lia| | | |done|done]; lia.
    + intros _ dev2 [H2 Hn2]. split.
      * eapply clears_trans.
        -- eapply clears_weaken; [apply (page_clears a data from n); [lia..|exact H1]|unfold range; lia].
        -- eapply clears_weaken; [exact H2|unfold range; lia].
      * intros [Hb HT]. apply Hn2. auto.
  - intros _ dev1 [H1 Hn1]. split; [|done]. eapply clears_weaken; [exact H1|]. unfold range. lia.
Qed.

Lemma erase_sectors_cons cmd a m timeout offset offsets dev :
  a + as_u32 offset < u32_size →
  erase_sectors cmd a m timeout (offset :: offsets) dev =
  ((write_enable;; spi_transaction [OpWrite (cmd_and_addr cmd (a + as_u32 offset) m)];; is_ready timeout);;
   erase_sectors cmd a m timeout offsets) dev.
Proof.
  intros Hlt. cbn [erase_sectors]. unfold mbind, M_bind, u32_add. rewrite (proj2 (Z.ltb_lt _ _) Hlt). cbn.
  destruct (write_enable dev) as [[] dev1]; [|done..].
  destruct (spi_transaction _ dev1) as [[] dev2]; [|done..]. by destruct (is_ready timeout dev2) as [[]].
Qed.

Lemma erase_sectors_law n a m k dev :
  ready (chip dev) → mode_ok m (chip dev) → mode_fits m → (erase_size d | a) → 0 ≤ a → 0 ≤ k →
  a + (k + Z.of_nat n) * erase_size d ≤ total_size d →
  wp (erase_sectors (erase_command m) a m (erase_timeout_us d) ((λ i, i * erase_size d) <$> seqZ k (Z.of_nat n)))
    (λ _ dev', still_ready dev dev' ∧
       (∀ x, range (a + k * erase_size d) (a + (k + Z.of_nat n) * erase_size d) x → mem (chip dev') x = 255) ∧
       frame (range (a + k * erase_size d) (a + (k + Z.of_nat n) * erase_size d)) (mem (chip dev)) (mem (chip dev')))
    (λ _ dev', frame (range (a + k * erase_size d) (a + (k + Z.of_nat n) * erase_size d)) (mem (chip dev)) (mem (chip dev')) ∧
               ¬ (bus_ok dev ∧ T_erase ≤ 9 * (erase_timeout_us d / 10))) dev.
Proof.
  intros Hr Hm Hmf Hdiv Ha. revert k dev Hr Hm. induction n as [|n IH]; intros k dev Hr Hm Hk Hle.
  { rewrite Z.add_0_r. apply wp_ret. split; [by apply still_ready_refl|].
    split; [unfold range; lia|done]. }
  rewrite seqZ_cons by lia. replace (Z.pred (Z.of_nat (S n))) with (Z.of_nat n) by lia.
  cbn [fmap list_fmap]. unfold is_u32 in Htotal.
  assert (a + k * erase_size d + erase_size d ≤ total_size d) by nia.
  assert (as_u32 (k * erase_size d) = k * erase_size d) as Hk32 by (apply as_u32_small; unfold is_u32; nia).
  assert (erase_size d | a + k * erase_size d) as Hdivk by (apply Z.divide_add_r; [done|apply Z.divide_factor_r]).
  unfold wp. rewrite erase_sectors_cons by lia. rewrite Hk32. apply wp_bind. eapply wp_mono.
  - apply erase_sector_law; [done|done|apply mode_fits_addr; [done|nia]|done|done|done].
  - intros _ dev1 [Hs1 H1]. destruct Hs1 as (Hr1 & Hw1 & Hb1).
    assert (mode_ok m (chip dev1)) as Hm1 by (unfold mode_ok; by rewrite Hw1).
    pose proof (IH (Z.succ k) dev1 Hr1 Hm1 ltac:(lia) ltac:(lia)) as H2.
    replace (Z.succ k + Z.of_nat n) with (k + Z.of_nat (S n)) in H2 by lia.
    pose proof (erased_out (erase_size d) (a + k * erase_size d) (mem (chip dev)) Herase Hdivk) as Hout.
    eapply wp_mono; [exact H2| |].
    + intros _ dev2 ((Hr2 & Hw2 & Hb2) & H3 & H4). split; [split_and!; [done|congruence|auto]|].
      split.
      * intros x Hx. destruct (decide (range (a + k * erase_size d) (a + k * erase_size d + erase_size d) x)) as [Hin|Hin].
        -- rewrite H4 by (unfold range in *; nia). rewrite H1. by apply erased_in.
        -- apply H3. unfold range in *. nia.
      * intros x Hx. rewrite H4, H1 by (unfold range in *; nia). apply Hout. unfold range in *. nia.
    + intros _ dev2 [H3 Hn]. split.
      * intros x Hx. rewrite H3, H1 by (unfold range in *; nia). apply Hout. unfold range in *. nia.
      * intros [Hb HT]. apply Hn. auto.
  - intros _ dev1 [H1 Hn]. split; [|done]. intros x Hx. apply H1. unfold range in *. nia.
Qed.
End facts.
