(* ===== verification/SpiFlashProps.v ===== *)
(** * The SPI flash driver implements NOR flash

    Every operation of [SPIFlash] over any chip that satisfies [NorChip], bus faults
    included; and, for a bus without pending faults, the laws of [NorFlash] on which
    the storage stack is built.  The statements are about builds without overflow
    checks; [stats_overflow] is about those with them. *)

From stdpp Require Import base list list_numbers numbers option.
From S2P Require Import Prelude NorFlash Bitwise SpiFlash.

Lemma divide_multiple a b : is_multiple_of a b = true ↔ (b | a).
Proof.
  unfold is_multiple_of. destruct (Z.eqb_spec b 0) as [->|Hb].
  - rewrite Z.eqb_eq. split; [intros ->; apply Z.divide_refl|apply Z.divide_0_l].
  - rewrite Z.eqb_eq. by apply Z.mod_divide.
Qed.

(** A descriptor that [validate] accepts. *)
Lemma validate_ok MAX d d' :
  descriptor_validate MAX d = inl d' →
  d' = d ∧ (∃ k, 0 ≤ k ∧ page_size d = 2 ^ k) ∧ (page_size d | erase_size d) ∧ (erase_size d | total_size d) ∧
  (erase_size d | MAX).
Proof.
  unfold descriptor_validate. destruct (_ || _) eqn:H1; [done|].
  destruct (is_multiple_of (erase_size d) _) eqn:H2; [|done]. destruct (is_multiple_of (total_size d) _) eqn:H3; [|done].
  destruct (is_multiple_of MAX _) eqn:H4; [|done]. intros [= <-].
  apply orb_false_iff in H1 as [_ H1]. apply negb_false_iff in H1. unfold is_power_of_two in H1.
  apply andb_true_iff in H1 as [Hp H1]. split_and!; [done| |by apply divide_multiple..].
  exists (Z.log2 (page_size d)). split; [apply Z.log2_nonneg|]. by apply Z.eqb_eq in H1.
Qed.

Lemma bounds_check_law {S} a n lo max (s : S) :
  0 ≤ n → is_u32 max →
  wp (bounds_check a n lo max) (λ r s', r = a ∧ s' = s ∧ lo ≤ a ∧ a - lo + n ≤ max)
    (λ e s', e = SpiOutOfBounds ∧ s' = s ∧ ¬ (lo ≤ a ∧ a - lo + n ≤ max)) s.
Proof.
  intros Hn Hm. unfold bounds_check. destruct (Z.ltb_spec a lo); [apply wp_fail; split_and!; [done|done|lia]|].
  destruct (Z.ltb_spec max n); [apply wp_fail; split_and!; [done|done|lia]|].
  unfold is_u32 in *. rewrite as_u32_small by (unfold is_u32; lia).
  destruct (Z.ltb_spec (max - n) (a - lo)); [apply wp_fail|apply wp_ret]; split_and!; try done; lia.
Qed.

Section props.
Context {DEV : Type} `{!SpiDevice DEV} (d : FlashDescriptor) (T_program T_erase T_sleep : Z) (jedec : list Z).
Context `{!NorChip d T_program T_erase T_sleep jedec DEV}.
Context (HTS : T_sleep ≤ sleep_timeout_us d) (HS0 : 0 ≤ sleep_timeout_us d).
Context (Hpage : 0 < page_size d) (Herase : 0 < erase_size d) (Htotal : is_u32 (total_size d)).
Context (HPT : 0 ≤ program_timeout_us d) (HET : 0 ≤ erase_timeout_us d).
Abbreviation chip := (chip d T_program T_erase T_sleep jedec).
Abbreviation bus_ok := (bus_ok d T_program T_erase T_sleep jedec).
Implicit Types f : SPIFlash DEV.

Definition dev_of f : DEV := device (spi_flash f).
Definition mem_of f : Z → Z := mem (chip (dev_of f)).

(** The state between two calls. *)
Definition spi_ok f : Prop :=
  cfg f = d ∧ sleepy_ok d T_program T_erase T_sleep jedec (spi_flash f) ∧
  match mode f with
  | B24 => 2 ^ 24 < total_size d ∨ wide (chip (dev_of f)) = false
  | B32 => 2 ^ 24 < total_size d ∧ wide (chip (dev_of f)) = true
  end.

(** The chip is awake during a call, in mode [m]. *)
Definition active (m : Mode) f : Prop :=
  cfg f = d ∧ mode f = m ∧ awake (spi_flash f) = true ∧ sleep_delay_us (spi_flash f) = sleep_timeout_us d ∧
  ready (chip (dev_of f)) ∧ mode_ok m (chip (dev_of f)) ∧ mode_fits d m ∧ (m = B32 → 2 ^ 24 < total_size d).

(** The memory and the bus of [f'] are those of [f]. *)
Definition keeps f f' : Prop := (∀ a, mem_of f' a = mem_of f a) ∧ (bus_ok (dev_of f) → bus_ok (dev_of f')).

Lemma keeps_trans f1 f2 f3 : keeps f1 f2 → keeps f2 f3 → keeps f1 f3.
Proof. intros [H1 H2] [H3 H4]. split; [intros a; by rewrite H3|auto]. Qed.

(** In bounds. *)
Definition inside (a n : Z) : Prop := a + n ≤ total_size d.

(** What a call that fails because of the bus leaves behind: nothing is known of the
    chip but its memory. *)
Lemma wakeup_flash f :
  sleepy_ok d T_program T_erase T_sleep jedec (spi_flash f) →
  wp (on_flash wakeup)
    (λ _ f', f' = set_flash (spi_flash f') f ∧ awake (spi_flash f') = true ∧
       sleep_delay_us (spi_flash f') = sleep_timeout_us d ∧ ready (chip (dev_of f')) ∧
       wide (chip (dev_of f')) = wide (chip (dev_of f)) ∧ keeps f f')
    (λ _ f', ¬ bus_ok (dev_of f) ∧ ∀ a, mem_of f' a = mem_of f a) f.
Proof.
  intros Hs. unfold on_flash. apply wp_zoom. eapply wp_mono; [by apply wakeup_law| |done].
  intros _ s' (H1 & H2 & (H3 & H4 & H5) & H6). cbn. split; [done|]. split; [done|].
  split; [rewrite H2; apply Hs|]. split; [done|]. split; [done|]. by split.
Qed.

(** Going to sleep keeps the memory, and keeps a rested chip rested. *)
Lemma sleep_flash {E} f :
  wp (E := E) (on_flash sleep)
    (λ _ f', keeps f f' ∧ (∀ m, active m f → spi_ok f')) (λ _ _, False) f.
Proof.
  unfold on_flash. apply wp_zoom. eapply wp_mono; [by apply sleep_law| |done].
  intros _ s' (H1 & H2 & H3 & H4 & H5). split; [by split|].
  intros m (Hc & Hm & _ & Hd & Hr & Hmo & Hmf & Hm32). destruct H3 as [H3 Hw]; [by apply ready_rested|].
  split; [done|]. split; [split; [cbn; congruence|split; [done|cbn; congruence]]|].
  unfold mode_ok, dev_of in *. cbn. rewrite Hm, Hw, Hmo. destruct m; cbn; [by right|auto].
Qed.

Lemma finish_law {A} (r : caught SpiError A) f Q R :
  (∀ f', keeps f f' → (∀ m, active m f → spi_ok f') → match r with inl a => Q a f' | inr e => R e f' end) →
  wp (finish r) Q R f.
Proof.
  intros H. unfold finish. apply wp_bind. eapply wp_mono; [apply sleep_flash| |done].
  intros _ f' [H1 H2]. specialize (H f' H1 H2). by destruct r.
Qed.

Lemma enter_4byte_law f :
  ready (chip (dev_of f)) →
  wp (on_spi (send_command Enter4ByteMode))
    (λ _ f', f' = set_flash (set_device (dev_of f') (spi_flash f)) f ∧ ready (chip (dev_of f')) ∧
       wide (chip (dev_of f')) = true ∧ keeps f f')
    (λ _ f', ¬ bus_ok (dev_of f) ∧ ∀ a, mem_of f' a = mem_of f a) f.
Proof.
  intros Hr. unfold on_spi, on_flash, on_device, send_command. do 2 apply wp_zoom. apply wp_bind.
  eapply wp_mono; [by apply cmd_law, accepts_ready| |].
  - intros out dev' [(t & Ht & Hd) Hb]. cbn in Hd. apply wp_ret. unfold keeps, mem_of, dev_of. cbn.
    split; [done|]. rewrite Hd. split; [by apply (ready_delay t (chip (dev_of f)))|]. by split.
  - intros e dev' (Hb & t & out & c1 & Ht & Hd & Hi). split; [done|]. unfold mem_of, dev_of. cbn.
    by apply (interrupted_same _ _ _ Hi); cbn in Hd; rewrite Hd.
Qed.

(** [init_and_check_addr]: the chip is awake in a mode that reaches the address. *)
Lemma init_law a n f :
  spi_ok f → 0 ≤ a → 0 ≤ n →
  wp (init_and_check_addr a n)
    (λ am f', am.1 = a ∧ active am.2 f' ∧ inside a n ∧ keeps f f' ∧ stats f' = stats f)
    (λ e f', (∀ x, mem_of f' x = mem_of f x) ∧ (bus_ok (dev_of f) → f' = f ∧ ¬ inside a n)) f.
Proof.
  intros (Hc & Hs & Hw) Ha Hn. unfold init_and_check_addr, inside. apply wp_bind, wp_gets, wp_bind. cbn. rewrite Hc.
  eapply wp_mono; [by apply (bounds_check_law a n 0)| |].
  2: { intros e f' (_ & -> & Hno). split; [done|]. intros _. split; [done|lia]. }
  intros r f' (-> & -> & _ & Hin). apply wp_bind, wp_gets, wp_bind.
  assert (∀ f1 m, f1 = set_flash (spi_flash f1) (set_mode m f) → mode f1 = m →
    sleepy_ok d T_program T_erase T_sleep jedec (spi_flash f1) → keeps f f1 →
    mode_ok m (chip (dev_of f1)) → mode_fits d m → (m = B32 → 2 ^ 24 < total_size d) →
    wp (m ← gets mode; on_flash wakeup;; mret (a, m))
      (λ am f', am.1 = a ∧ active am.2 f' ∧ a + n ≤ total_size d ∧ keeps f f' ∧ stats f' = stats f)
      (λ e f', (∀ x, mem_of f' x = mem_of f x) ∧ (bus_ok (dev_of f) → f' = f ∧ ¬ a + n ≤ total_size d)) f1) as Hrest.
  { intros f1 m Hf1 Hm Hs1 Hk1 Hmo Hmf H32. apply wp_bind, wp_gets, wp_bind. rewrite Hm.
    eapply wp_mono; [by apply wakeup_flash| |].
    - intros _ f2 (J1 & J2 & J3 & J4 & J5 & J6). apply wp_ret. cbn. split; [done|].
      split; [|split; [lia|split; [by eapply keeps_trans|rewrite J1, Hf1; done]]].
      split; [rewrite J1, Hf1; done|]. split; [rewrite J1, Hf1; done|]. split; [done|]. split; [done|].
      split; [done|]. split; [unfold mode_ok; by rewrite J5|done].
    - intros e f2 [Hb Hm2]. destruct Hk1 as [Hk1 Hk2]. split; [intros x; by rewrite Hm2, Hk1|]. intros Hb1.
      exfalso. auto. }
  destruct (mode f) eqn:Hmode; [|apply wp_ret].
  - destruct (Z.ltb_spec 0x1000000 (total_size d)) as [Hbig|Hsmall].
    + apply wp_bind. eapply wp_mono; [by apply wakeup_flash| |].
      2: { intros e f2 [Hb Hm2]. split; [done|]. by intros. }
      intros _ f1 (J1 & J2 & J3 & J4 & J5 & J6). apply wp_bind, wp_attempt.
      eapply wp_mono; [by apply enter_4byte_law| |].
      * intros _ f2 (K1 & K2 & K3 & K4). apply wp_modify.
        apply (Hrest _ B32); [by rewrite K1, J1|done| |by eapply keeps_trans|exact K3|done|lia].
        unfold sleepy_ok. cbn. split; [rewrite K1; cbn; done|].
        split; [by apply ready_rested|]. intros _. apply K2.
      * intros e f2 [Hb Hm2]. unfold sleep_and_fail. apply wp_bind. eapply wp_mono; [apply sleep_flash| |done].
        intros _ f3 [[Hk _] _]. apply wp_fail. destruct J6 as [J6 J7].
        split; [intros x; by rewrite Hk, Hm2, J6|]. intros Hbb. exfalso. auto.
    + apply wp_ret. apply (Hrest f B24); [|done|done|by split| | |done].
      * destruct f; cbn in *. by subst.
      * unfold mode_ok. destruct Hw as [?|Hw]; [change 0x1000000 with (2 ^ 24) in Hsmall; lia|by rewrite Hw].
      * intros _. done.
  - apply (Hrest f B32); [|done|done|by split|exact (proj2 Hw)|done|by destruct Hw].
    destruct f; cbn in *. by subst.
Qed.

(** ** The operations *)

(** The chip is fast enough for the polling of [is_ready]. *)
Definition timely : Prop := T_program ≤ 9 * (program_timeout_us d / 10) ∧ T_erase ≤ 9 * (erase_timeout_us d / 10).

(** A refused call changes nothing but the statistics. *)
Definition refused f f' : Prop := spi_ok f' ∧ (bus_ok (dev_of f) → bus_ok (dev_of f')) ∧ ∀ a, mem_of f' a = mem_of f a.

Lemma spi_ok_stats f st : spi_ok f → spi_ok (set_stats st f).
Proof. done. Qed.

Lemma read_command_law a n m f :
  active m f → 0 ≤ a → 0 ≤ n → inside a n →
  wp (on_spi (spi_transaction [OpWrite (cmd_and_addr Read a m); OpRead n]))
    (λ out f', out = view (mem_of f) a n ∧ active m f' ∧ keeps f f' ∧ stats f' = stats f)
    (λ _ f', ¬ bus_ok (dev_of f) ∧ ∀ x, mem_of f' x = mem_of f x) f.
Proof.
  intros (Hc & Hm & Haw & Hd & Hr & Hmo & Hmf & H32) Ha Hn Hin. unfold inside in Hin.
  destruct (cmd_and_addr_shape Read a m (chip (dev_of f)) Hmo) as (args & -> & Hlen & Hav).
  (* a read of no bytes at the very end may wrap around *)
  assert (addr_val args + n ≤ total_size d ∧ view (mem_of f) (addr_val args) n = view (mem_of f) a n) as [Hle Hview].
  { rewrite Hav. destruct (decide (n = 0)) as [->|].
    - split; [|done]. pose proof (Z.mod_le a (addr_size m) Ha ltac:(by destruct m)). lia.
    - assert (addr_fits m a) as Hf by (eapply mode_fits_addr; [done..|lia]).
      by rewrite Z.mod_small by (destruct m; apply Hf). }
  unfold on_spi, on_flash, on_device. do 2 apply wp_zoom.
  eapply wp_mono; [by apply cmd_law, accepts_ready| |].
  - intros out dev' [(t & Ht & H) Hb]. destruct (H Hlen Hle) as [He ->]. cbn in He |- *.
    unfold keeps, active, mem_of, dev_of. cbn. split; [exact Hview|]. rewrite He. split; [|by split].
    do 4 (split; [done|]). split; [by apply (ready_delay t (chip (dev_of f)))|]. done.
  - intros e dev' (Hb & t & out & c1 & Ht & H & Hi). split; [done|]. destruct (H Hlen Hle) as [He _].
    unfold mem_of, dev_of. cbn. by apply (interrupted_same _ _ _ Hi); rewrite He.
Qed.

Lemma count_read_attempt_law f Q R :
  (∀ st, Q tt (set_stats st f)) → wp (count_read_attempt false) Q R f.
Proof.
  intros H. unfold count_read_attempt, wp, stat_add, mbind, M_bind, gets.
  destruct (is_multiple_of (read_attempts (stats f)) 2048); apply H.
Qed.

Lemma count_read_law n f Q R : (∀ st, Q tt (set_stats st f)) → wp (count_read false n) Q R f.
Proof. intros H. apply H. Qed.

Lemma count_erase_law f Q R : (∀ st, Q tt (set_stats st f)) → wp (count_erase false) Q R f.
Proof. intros H. apply H. Qed.

(** A read that succeeds returns the bytes of the memory. *)
Lemma spi_read_law a n f :
  spi_ok f → 0 ≤ a → 0 ≤ n →
  wp (spi_read false a n)
    (λ bs f', bs = view (mem_of f) a n ∧ refused f f')
    (λ _ f', (∀ x, mem_of f' x = mem_of f x) ∧ (bus_ok (dev_of f) → refused f f' ∧ ¬ inside a n)) f.
Proof.
  intros Hf Ha Hn. unfold spi_read. apply wp_bind, count_read_attempt_law. intros st. apply wp_bind.
  eapply wp_mono; [by apply init_law| |].
  2: { intros e f' [H1 H2]. split; [done|]. intros Hb. destruct (H2 Hb) as [-> ?]. split; [by split|done]. }
  intros [addr m] f1 (H1 & H2 & H3 & [H4 H5] & H6). cbn [fst snd] in *. subst addr.
  apply wp_bind, wp_attempt. eapply wp_mono; [by apply read_command_law| |].
  - intros out f2 (J1 & J2 & [J3 J4] & _). apply wp_bind, count_read_law. intros st2. apply finish_law.
    intros f3 [K1 K2] K3. split; [rewrite J1; by apply view_ext|]. split; [by apply (K3 m)|]. split; [auto|].
    intros x. etrans; [apply K1|]. etrans; [apply J3|apply H4].
  - intros e f2 [J1 J2]. apply wp_bind, count_read_law. intros st2. apply finish_law. intros f3 [K1 K2] K3.
    split; [intros x; etrans; [apply K1|]; etrans; [apply J2|apply H4]|]. intros Hb. exfalso. auto.
Qed.

Lemma program_active_law a data m f :
  active m f → 0 ≤ a → inside a (len data) →
  wp (on_spi (program_loop (S (length data)) (program_timeout_us d) (page_size d) a m data 0))
    (λ _ f', active m f' ∧ (bus_ok (dev_of f) → bus_ok (dev_of f')) ∧ stored a data 0 (mem_of f) (mem_of f'))
    (λ _ f', clears (range a (a + len data)) (mem_of f) (mem_of f') ∧ ¬ (bus_ok (dev_of f) ∧ timely)) f.
Proof.
  intros (Hc & Hm & Haw & Hd & Hr & Hmo & Hmf & H32) Ha Hin. unfold inside in Hin. pose proof (len_nonneg data).
  unfold on_spi, on_flash, on_device. do 2 apply wp_zoom.
  eapply wp_mono; [apply program_loop_law; try done; unfold len; lia| |].
  - intros _ dev' [(H1 & H2 & H3) H4]. unfold active, mem_of, dev_of. cbn. split; [|done].
    do 5 (split; [done|]). split; [unfold mode_ok; by rewrite H2|done].
  - intros e dev' [H1 H2]. rewrite Z.add_0_r in H1. split; [done|]. intros [? [? _]]. by apply H2.
Qed.

Lemma spi_program_law a data f :
  spi_ok f → 0 ≤ a →
  wp (spi_program a data)
    (λ _ f', spi_ok f' ∧ (bus_ok (dev_of f) → bus_ok (dev_of f')) ∧ stored a data 0 (mem_of f) (mem_of f') ∧
             inside a (len data))
    (λ _ f', clears (range a (a + len data)) (mem_of f) (mem_of f') ∧
             (bus_ok (dev_of f) ∧ timely → f' = f ∧ ¬ inside a (len data))) f.
Proof.
  intros Hf Ha. pose proof (len_nonneg data). pose proof (proj1 Hf) as Hc. unfold spi_program.
  apply wp_bind, wp_gets, wp_bind, wp_gets, wp_bind. cbn. rewrite Hc.
  eapply wp_mono; [by apply init_law| |].
  2: { intros e f' [H1 H2]. split; [by apply clears_refl|]. intros [Hb _]. by apply H2. }
  intros [addr m] f1 (H1 & H2 & H3 & [H4 H5] & H6). cbn [fst snd] in *. subst addr.
  apply wp_bind, wp_attempt. eapply wp_mono; [by apply program_active_law| |].
  - intros r f2 (J1 & J2 & J3). apply finish_law. intros f3 [K1 K2] K3. split; [by apply (K3 m)|].
    split; [auto|]. split; [|done]. destruct J3 as [J3 J5]. split; [by eapply clears_ext; [exact J3|..]|].
    intros i b Hi Hb. rewrite K1, <-H4. by apply J5.
  - intros e f2 [J1 J2]. apply finish_law. intros f3 [K1 K2] K3. split; [by eapply clears_ext; [exact J1|..]|].
    intros [Hb Ht]. exfalso. auto.
Qed.

Lemma step_by_multiple n step : 0 < step → (step | n) → step_by n step = (λ i, i * step) <$> seqZ 0 (n / step).
Proof.
  intros Hs [k ->]. unfold step_by. do 2 f_equal. rewrite Z.div_mul by lia.
  symmetry. apply Z.div_unique with (r := step - 1); lia.
Qed.

Lemma erase_active_law a n m f :
  active m f → 0 ≤ a → 0 ≤ n → inside a n → (erase_size d | a) → (erase_size d | n) →
  wp (on_spi (erase_sectors (erase_command m) a m (erase_timeout_us d) (step_by n (erase_size d))))
    (λ _ f', active m f' ∧ (bus_ok (dev_of f) → bus_ok (dev_of f')) ∧
       (∀ x, range a (a + n) x → mem_of f' x = 255) ∧ frame (range a (a + n)) (mem_of f) (mem_of f'))
    (λ _ f', frame (range a (a + n)) (mem_of f) (mem_of f') ∧ ¬ (bus_ok (dev_of f) ∧ timely)) f.
Proof.
  intros (Hc & Hm & Haw & Hd & Hr & Hmo & Hmf & H32) Ha Hn Hin Hda Hdn. unfold inside in Hin.
  unfold on_spi, on_flash, on_device. do 2 apply wp_zoom. rewrite step_by_multiple by done.
  destruct Hdn as [k ->]. rewrite Z.div_mul by lia. assert (0 ≤ k) by nia.
  assert (Z.of_nat (Z.to_nat k) = k) as Hk by lia. rewrite <-Hk at 1.
  eapply wp_mono; [apply (erase_sectors_law d T_program T_erase T_sleep jedec Herase Htotal HET (Z.to_nat k) a m 0); try done; rewrite Hk; lia| |];
    rewrite Hk, Z.mul_0_l, Z.add_0_l, Z.add_0_r.
  - intros _ dev' [(H1 & H2 & H3) H4].
    unfold active, mem_of, dev_of. cbn. split; [|done].
    do 5 (split; [done|]). split; [unfold mode_ok; by rewrite H2|done].
  - intros e dev' [H1 H2]. split; [done|]. intros [? [_ ?]]. by apply H2.
Qed.

Lemma spi_erase_law a n f :
  spi_ok f → 0 ≤ a → 0 ≤ n →
  wp (spi_erase false a n)
    (λ r f', r = (a, n) ∧ spi_ok f' ∧ (bus_ok (dev_of f) → bus_ok (dev_of f')) ∧
       (∀ x, range a (a + n) x → mem_of f' x = 255) ∧ frame (range a (a + n)) (mem_of f) (mem_of f') ∧ inside a n)
    (λ _ f', frame (range a (a + n)) (mem_of f) (mem_of f') ∧
       (bus_ok (dev_of f) ∧ timely →
          refused f f' ∧ ¬ (inside a n ∧ (erase_size d | a) ∧ (erase_size d | n)))) f.
Proof.
  intros Hf Ha Hn. pose proof (proj1 Hf) as Hc. unfold spi_erase.
  apply wp_bind, wp_gets, wp_bind, wp_gets, wp_bind, count_erase_law. intros st. apply wp_bind. cbn. rewrite Hc.
  eapply wp_mono; [by apply init_law| |].
  2: { intros e f' [H1 H2]. split; [intros x _; apply H1|]. intros [Hb _]. destruct (H2 Hb) as [-> Hno].
       split; [by split|]. by intros [? _]. }
  intros [addr m] f1 (H1 & H2 & H3 & [H4 H5] & H6). cbn [fst snd] in *. subst addr.
  rewrite (proj2 (Z.eqb_neq (erase_size d) 0)) by lia.
  destruct (negb (is_multiple_of a (erase_size d)) || negb (is_multiple_of n (erase_size d))) eqn:Hal.
  - unfold sleep_and_fail. apply wp_bind. eapply wp_mono; [apply sleep_flash| |done]. intros _ f2 [[K1 K2] K3].
    apply wp_fail. split; [intros x _; etrans; [apply K1|apply H4]|]. intros _.
    split; [split; [by apply (K3 m)|split; [auto|intros x; etrans; [apply K1|apply H4]]]|].
    intros (_ & Hda%divide_multiple & Hdn%divide_multiple). by rewrite Hda, Hdn in Hal.
  - apply orb_false_iff in Hal as [Hda%negb_false_iff%divide_multiple Hdn%negb_false_iff%divide_multiple].
    apply wp_bind, wp_attempt.
    change (match m with B24 => EraseSector | B32 => EraseSector4B end) with (erase_command m).
    eapply wp_mono; [by apply erase_active_law| |].
    + intros r f2 (J1 & J2 & J3 & J4). apply wp_bind, finish_law. intros f3 [K1 K2] K3. apply wp_ret. split; [done|].
      split; [by apply (K3 m)|]. split; [auto|].
      split; [intros x Hx; rewrite K1; auto|]. split; [|done].
      intros x Hx. etrans; [apply K1|]. etrans; [by apply J4|]. apply H4.
    + intros e f2 [J1 J2]. apply wp_bind, finish_law. intros f3 [K1 K2] K3.
      split; [intros x Hx; etrans; [apply K1|]; etrans; [by apply J1|apply H4]|]. intros [Hb Ht]. exfalso. auto.
Qed.

(** ** The laws of [NorFlash] *)

Definition spi_nor_flash (MAX_ERASE_SIZE : Z) : NorFlash (SPIFlash DEV) SpiError := {|
  nf_ERASE_SIZE := MAX_ERASE_SIZE;
  nf_capacity := nor_capacity;
  nf_read := spi_read false;
  nf_write := spi_program;
  nf_erase := nor_erase false;
|}.

(** No fault is pending on the bus. *)
Definition spi_wf f : Prop := spi_ok f ∧ bus_ok (dev_of f) ∧ ∀ a, is_u8 (mem_of f a).
Definition spi_healthy f : Prop := True.
Abbreviation spi_step := (flash_step spi_wf spi_healthy nor_capacity mem_of).

Lemma clears_u8 P m m' : clears P m m' → (∀ a, is_u8 (m a)) → ∀ a, is_u8 (m' a).
Proof.
  intros [_ H] Hu a. specialize (H a). assert (Z.land (m a) (Z.ones 8) = m a) as Hm.
  { rewrite Z.land_ones by lia. apply Z.mod_small, Hu. }
  assert (m' a = m' a mod 2 ^ 8) as ->; [|apply Z.mod_pos_bound; lia].
  rewrite <-Z.land_ones by lia. rewrite H at 2. rewrite (Z.land_comm (m a)), <-Z.land_assoc, Hm.
  by rewrite Z.land_comm.
Qed.

Lemma refused_step f f' : spi_wf f → refused f f' → spi_step nowhere f f'.
Proof.
  intros (Hok & Hb & Hu) (Hok' & Hb' & Hm). split; [split; [done|split; [auto|intros a; by rewrite Hm]]|done| |done].
  unfold nor_capacity. by rewrite (proj1 Hok), (proj1 Hok').
Qed.

Context (Htimely : timely) (MAX_ERASE_SIZE : Z) (Hmax : (erase_size d | MAX_ERASE_SIZE)).

Lemma spi_read_nor f off n : spi_wf f → 0 ≤ off → 0 ≤ n →
  wp (spi_read false off n)
    (λ bs f', spi_step nowhere f f' ∧ bs = view (mem_of f) off n)
    (λ _ f', spi_step nowhere f f' ∧ ¬ (spi_healthy f ∧ off + n ≤ nor_capacity f)) f.
Proof.
  intros Hwf Ho Hn. destruct Hwf as (Hok & Hb & Hu) eqn:E. clear E.
  eapply wp_mono; [by apply spi_read_law| |].
  - intros bs f' [H1 H2]. split; [by apply refused_step|done].
  - intros e f' [_ H]. destruct (H Hb) as [H1 H2]. split; [by apply refused_step|]. unfold nor_capacity.
    rewrite (proj1 Hok). by intros [_ ?].
Qed.

Lemma spi_write_nor f off data : spi_wf f → 0 ≤ off → Forall is_u8 data →
  wp (spi_program off data)
    (λ _ f', spi_step (range off (off + len data)) f f' ∧
       (∀ i b, data !! i = Some b → mem_of f (off + Z.of_nat i) = 255 → mem_of f' (off + Z.of_nat i) = b) ∧
       clears_bits (mem_of f) (mem_of f'))
    (λ _ f', spi_step (range off (off + len data)) f f' ∧
       ¬ (spi_healthy f ∧ off + len data ≤ nor_capacity f) ∧ clears_bits (mem_of f) (mem_of f')) f.
Proof.
  intros (Hok & Hb & Hu) Ho Hd. eapply wp_mono; [by apply spi_program_law| |].
  - intros _ f' (Hok' & Hb' & [Hc Hs] & _). rewrite Z.add_0_r in Hc. split; [|split; [|apply Hc]].
    + split; [split; [done|split; [auto|by eapply clears_u8]]|done| |apply Hc].
      unfold nor_capacity. by rewrite (proj1 Hok), (proj1 Hok').
    + intros i b Hi Hff. rewrite (Hs (Z.of_nat i) b) by (rewrite ?Nat2Z.id; done || lia). rewrite Hff, Z.land_comm.
      change 255 with (Z.ones 8). rewrite Z.land_ones by lia. apply Z.mod_small.
      by apply (proj1 (Forall_lookup _ _) Hd i).
  - intros e f' [Hc H]. destruct (H (conj Hb Htimely)) as [-> Hno]. split; [done|]. split; [|apply Hc].
    unfold nor_capacity. rewrite (proj1 Hok). by intros [_ ?].
Qed.

Lemma spi_erase_nor f lo hi : spi_wf f → 0 ≤ lo ≤ hi →
  wp (nor_erase false lo hi)
    (λ _ f', spi_step (range lo hi) f f' ∧ (∀ a, lo ≤ a < hi → mem_of f' a = 255))
    (λ _ f', spi_step (range lo hi) f f' ∧
       ¬ (spi_healthy f ∧ hi ≤ nor_capacity f ∧ (MAX_ERASE_SIZE | lo) ∧ (MAX_ERASE_SIZE | hi))) f.
Proof.
  intros (Hok & Hb & Hu) Hlo. unfold nor_erase. apply wp_bind, wp_u32_sub; [lia|]. apply wp_bind.
  eapply wp_mono; [apply spi_erase_law; [done|lia|lia]| |];
    (replace (lo + (hi - lo)) with hi by lia).
  - intros r f' (_ & Hok' & Hb' & H1 & H2 & _). apply wp_ret. split; [|done].
    split; [split; [done|split; [auto|]]|done| |done].
    + intros a. destruct (decide (range lo hi a)) as [Hr|Hr]; [by rewrite H1|by rewrite H2].
    + unfold nor_capacity. by rewrite (proj1 Hok), (proj1 Hok').
  - intros e f' [_ H]. destruct (H (conj Hb Htimely)) as [H1 H2].
    split; [by apply flash_step_nowhere, refused_step|]. unfold nor_capacity. rewrite (proj1 Hok).
    intros (_ & Hc & Hx & Hy). apply H2. unfold inside. split; [lia|]. split; [by eapply Z.divide_trans|].
    apply Z.divide_sub_r; by eapply Z.divide_trans.
Qed.

Definition spi_nor_flash_laws : @NorFlashLaws (SPIFlash DEV) SpiError (spi_nor_flash MAX_ERASE_SIZE) :=
  @Build_NorFlashLaws (SPIFlash DEV) SpiError (spi_nor_flash MAX_ERASE_SIZE)
    mem_of spi_wf spi_healthy (λ f a H, proj2 (proj2 H) a) spi_read_nor spi_write_nor spi_erase_nor.

(** ** Erased ranges *)

Lemma range_write_law r a data f :
  spi_ok f → 0 ≤ a → is_u32 (max_len r) →
  wp (range_write r a data)
    (λ _ f', spi_ok f' ∧ (bus_ok (dev_of f) → bus_ok (dev_of f')) ∧ stored a data 0 (mem_of f) (mem_of f') ∧
             start_addr r ≤ a ∧ a + len data ≤ start_addr r + max_len r)
    (λ _ f', clears (range (start_addr r) (start_addr r + max_len r)) (mem_of f) (mem_of f') ∧
             (bus_ok (dev_of f) ∧ timely → f' = f ∧
                ¬ (start_addr r ≤ a ∧ a + len data ≤ start_addr r + max_len r ∧ inside a (len data)))) f.
Proof.
  intros Hf Ha Hm. unfold range_write. apply wp_bind.
  eapply wp_mono; [by apply (bounds_check_law a (len data)); [apply len_nonneg|]| |].
  - intros addr f1 (-> & -> & Hlo & Hhi). eapply wp_mono; [by apply spi_program_law| |].
    + intros _ f' (H1 & H2 & H3 & _). split; [done|]. split; [done|]. split; [done|lia].
    + intros e f' [H1 H2]. split; [eapply clears_weaken; [exact H1|unfold range; lia]|]. intros Hb.
      destruct (H2 Hb) as [-> ?]. split; [done|]. by intros (_ & _ & ?).
  - intros e f1 (_ & -> & Hno). split; [by apply clears_refl|]. intros _. split; [done|]. intros (? & ? & _). apply Hno. lia.
Qed.

(** C28: erase, write, read.  On a bus without faults and a chip within the driver's
    polling, a range of whole sectors that was erased takes any data at an offset inside
    it through [ErasedRange::write_relative], across page and sector boundaries, and the
    data reads back; the rest of the range is erased, and the rest of the chip keeps its
    contents. *)
Theorem erased_range_roundtrip f a n offset data :
  spi_wf f → 0 ≤ a → 0 ≤ n → a + n ≤ total_size d → (erase_size d | a) → (erase_size d | n) →
  0 ≤ offset < n → offset + len data ≤ n → Forall is_u8 data →
  ∃ f1 f2 f3, spi_erase false a n f = (Ok (a, n), f1) ∧
    write_relative (mkErasedRange a n) offset data f1 = (Ok tt, f2) ∧
    spi_read false (a + offset) (len data) f2 = (Ok data, f3) ∧ spi_wf f3 ∧
    (∀ x, ¬ range a (a + n) x → mem_of f3 x = mem_of f x) ∧
    (∀ x, range a (a + n) x → ¬ range (a + offset) (a + offset + len data) x → mem_of f3 x = 255).
Proof using HTS HS0 Hpage Herase Htotal HPT HET Htimely.
  intros (Hok & Hb & Hu) Ha Hn Hin Hda Hdn Hoff Hfit Hd. pose proof (len_nonneg data). unfold is_u32 in Htotal.
  pose proof (spi_erase_law a n f Hok Ha Hn) as He. unfold wp in He.
  destruct (spi_erase false a n f) as [[r|e|] f1]; [|by destruct (proj2 (proj2 He (conj Hb Htimely)))|done].
  destruct He as (-> & Hok1 & Hb1 & Hff & Hfr & _). exists f1.
  pose proof (range_write_law (mkErasedRange a n) (a + offset) data f1 Hok1 ltac:(lia) ltac:(cbn; unfold is_u32; lia)) as Hw.
  assert (write_relative (mkErasedRange a n) offset data f1 = range_write (mkErasedRange a n) (a + offset) data f1) as Hrel.
  { unfold write_relative. cbn [max_len start_addr]. rewrite (proj2 (Z.leb_gt n offset)) by lia.
    rewrite as_u32_small by (unfold is_u32; lia). unfold u32_add, mbind, M_bind.
    rewrite (proj2 (Z.ltb_lt _ _)) by lia. cbn. by rewrite Z.add_comm. }
  rewrite Hrel. unfold wp in Hw. destruct (range_write _ _ data f1) as [[[]|e|] f2]; [| |done].
  2: { exfalso. apply (proj2 (proj2 Hw (conj (Hb1 Hb) Htimely))). cbn. unfold inside. lia. }
  destruct Hw as (Hok2 & Hb2 & [Hc Hs] & _). exists f2.
  pose proof (spi_read_law (a + offset) (len data) f2 Hok2 ltac:(lia) ltac:(done)) as Hr. unfold wp in Hr.
  destruct (spi_read false (a + offset) (len data) f2) as [[bs|e|] f3]; [| |done].
  2: { exfalso. apply (proj2 (proj2 Hr (Hb2 (Hb1 Hb)))). unfold inside. lia. }
  destruct Hr as [-> (Hok3 & Hb3 & Hm3)]. exists f3. split; [done|]. split; [done|].
  assert (∀ x, is_u8 (mem_of f1 x)) as Hu1.
  { intros x. destruct (decide (range a (a + n) x)); [by rewrite Hff|by rewrite Hfr]. }
  split.
  - do 2 f_equal. apply view_eq. intros i b Hi. pose proof (lookup_lt_Some _ _ _ Hi).
    rewrite (Hs (Z.of_nat i) b) by (rewrite ?Nat2Z.id; done || lia).
    rewrite Hff by (unfold range, len in *; lia). rewrite Z.land_comm. change 255 with (Z.ones 8).
    rewrite Z.land_ones by lia. apply Z.mod_small. by apply (proj1 (Forall_lookup _ _) Hd i).
  - rewrite Z.add_0_r in Hc. destruct Hc as [Hcf Hcc]. split; [split; [done|split; [auto|]]|split].
    + intros x. rewrite Hm3. by eapply clears_u8.
    + intros x Hx. rewrite Hm3, Hcf; [by apply Hfr|]. unfold range in *. lia.
    + intros x Hx Hnot. rewrite Hm3, Hcf by done. by apply Hff.
Qed.

(** What the calls at address [a] may do on any bus, faults and slow chips included: a
    read returns the bytes of the chip or an error; a program that returns [Ok] has
    stored every byte, one that returns an error (bus error, time-out) has only cleared
    bits of its own range; an erase changes its own range only; no call panics. *)
Definition contained f a : Prop :=
  (∀ n r f', 0 ≤ n → spi_read false a n f = (r, f') →
     (∀ x, mem_of f' x = mem_of f x) ∧
     match r with Ok bs => bs = view (mem_of f) a n | Err _ => True | Panic => False end) ∧
  (∀ data r f', spi_program a data f = (r, f') →
     clears (range a (a + len data)) (mem_of f) (mem_of f') ∧
     match r with Ok _ => stored a data 0 (mem_of f) (mem_of f') | Err _ => True | Panic => False end) ∧
  (∀ n r f', 0 ≤ n → spi_erase false a n f = (r, f') →
     frame (range a (a + n)) (mem_of f) (mem_of f') ∧
     match r with Ok _ => ∀ x, range a (a + n) x → mem_of f' x = 255 | Err _ => True | Panic => False end).

(** A faulty bus does no harm beyond the call, in any state of the bus. *)
Theorem spi_faults_contained f a : spi_ok f → 0 ≤ a → contained f a.
Proof using HTS HS0 Hpage Herase Htotal HPT HET.
  intros Hf Ha. split; [|split].
  - intros n r f' Hn Hr. pose proof (wp_run _ _ _ _ _ _ (spi_read_law a n f Hf Ha Hn) Hr) as H. destruct r; [| |done].
    + by destruct H as [-> (_ & _ & ?)].
    + destruct H as [? _]. by split.
  - intros data r f' Hr. pose proof (wp_run _ _ _ _ _ _ (spi_program_law a data f Hf Ha) Hr) as H. destruct r; [| |done].
    + destruct H as (_ & _ & [Hc Hs] & _). split; [by rewrite Z.add_0_r in Hc|by split].
    + destruct H as [? _]. by split.
  - intros n r f' Hn Hr. pose proof (wp_run _ _ _ _ _ _ (spi_erase_law a n f Hf Ha Hn) Hr) as H. destruct r; [| |done].
    + split; apply H.
    + destruct H as [? _]. by split.
Qed.
End props.

(** With overflow checks a statistic that leaves the [u32] range panics. *)
Lemma stats_overflow {DEV} (n : Z) (f : SPIFlash DEV) :
  u32_size ≤ read_bytes (stats f) + as_u32 n → count_read true n f = (Panic, f).
Proof.
  intros H. unfold count_read, stat_add, mbind, M_bind, gets. by rewrite (proj2 (Z.leb_le _ _) H).
Qed.
