(* ===== verification/SpiStorage.v ===== *)
(** * The storage stack on the SPI flash driver

    [SPIFlash] as the driver below [BlockDevice]: the block layer, and with it the
    file, circular and stream stores, keep what they promise on a chip behind the SPI
    bus. *)

From stdpp Require Import base list list_numbers numbers option.
From S2P Require Import Prelude NorFlash Bitwise SpiFlash SpiFlashProps BlockLayer BlockFacts.
From S2P Require Import BlockProps BlockDev BlockRefine FlashDb FileStore.

(** ** A concrete SPI flash chip

    A simulated chip of 256 bytes (pages of 16, sectors of 64) that satisfies
    [NorChip], the witnesses of [SpiFlashProps], and what happens to chips that are
    slower than the driver's polling. *)

Definition demo_descriptor : FlashDescriptor := mkDescriptor 16 64 256 100 100 5.
Definition demo_jedec : list Z := [0x01; 0x60; 8].

(** The simulated device is its chip; [tp] and [te] are how long it programs and
    erases. *)
Record Sim (tp te : Z) : Type := mkSim { sim_chip : Chip }.
Arguments mkSim {tp te}.
Arguments sim_chip {tp te}.

Section sim.
Context (tp te : Z).

Definition status_byte (c : Chip) : Z :=
  (if 0 <? ready_in c then 3 else if wel c then 2 else 0).

Definition sim_command (c : Chip) (cmd : Command) (args : list Z) (rest : list Operation) : list Z * Chip :=
  match cmd, args, rest with
  | WriteEnable, [], [] => ([], set_wel true c)
  | Enter4ByteMode, [], [] => ([], set_wide c)
  | Sleep, [], [] => ([], set_power (PEntering 3) c)
  | Wakeup, [], [] => ([], match power c with PAsleep => set_power (PLeaving 3) c | _ => c end)
  | ReadStatus, [], [OpRead n] => ([status_byte c], c)
  | ReadJEDEC, [], [OpRead n] => (demo_jedec, c)
  | Read, args, [OpRead n] => (view (mem c) (addr_val args) n, c)
  | ProgramPage, args, [OpWrite data] =>
      ([], if wel c then set_mem (programmed 16 (addr_val args) data (mem c)) tp c else c)
  | (EraseSector | EraseSector4B), args, [] =>
      ([], if wel c then set_mem (erased 64 (addr_val args) (mem c)) te c else c)
  | _, _, _ => ([], c)
  end.

Definition sim_transaction (ops : list Operation) : M (Sim tp te) unit (list Z) := λ dev,
  let c := chip_delay 0 (sim_chip dev) in
  match ops with
  | OpWrite (b :: args) :: rest =>
      match command_of b with
      | Some cmd =>
          if decide (accepts c cmd) then
            let '(out, c') := sim_command c cmd args rest in (Ok out, mkSim c')
          else (Ok [], mkSim c)
      | None => (Ok [], mkSim c)
      end
  | _ => (Ok [], mkSim c)
  end.

#[export] Instance sim_device : SpiDevice (Sim tp te) := {|
  transaction := sim_transaction;
  delay_us n dev := mkSim (chip_delay n (sim_chip dev))
|}.


Lemma sim_command_does c cmd args rest :
  0 ≤ tp → 0 ≤ te → accepts c cmd →
  command_does demo_descriptor tp te 5 demo_jedec c cmd args rest (sim_command c cmd args rest).1
    (sim_command c cmd args rest).2.
Proof.
  intros Htp Hte Ha. destruct cmd, args as [|x args], rest as [|[|n] [|]]; cbn; try done; intros;
    try (destruct (wel c); [eexists; split; [|reflexivity]; lia|done]);
    try (eexists; split; [|reflexivity]; lia).
  - destruct (power c); [done| |done..]. eexists. split; [|reflexivity]. lia.
  - split; [done|]. exists (status_byte c). split; [done|]. unfold status_byte.
    destruct (Z.ltb_spec 0 (ready_in c)); [split_and!; [done|done|lia]|]. by destruct (wel c).
Qed.

Lemma sim_transaction_law ops (dev : Sim tp te) :
  0 ≤ tp → 0 ≤ te →
  wp (sim_transaction ops)
    (λ out dev', (∃ t, 0 ≤ t ∧ chip_does demo_descriptor tp te 5 demo_jedec (chip_delay t (sim_chip dev)) ops out (sim_chip dev')) ∧
       (True → True))
    (λ _ dev', ¬ True ∧ ∃ t out c1, 0 ≤ t ∧
       chip_does demo_descriptor tp te 5 demo_jedec (chip_delay t (sim_chip dev)) ops out c1 ∧
       interrupted (chip_delay t (sim_chip dev)) c1 (sim_chip dev')) dev.
Proof.
  intros Htp Hte. unfold wp, sim_transaction. set (c := chip_delay 0 (sim_chip dev)).
  destruct ops as [|[[|b args]|n] rest]; try (by split; [exists 0|]). cbn [chip_does].
  destruct (command_of b) as [cmd|]; [|by split; [exists 0|]]. destruct (decide (accepts c cmd)) as [Ha|Ha].
  - pose proof (sim_command_does c cmd args rest Htp Hte Ha) as H. destruct (sim_command c cmd args rest) as [out c'].
    split; [|done]. exists 0. split; [done|]. by split.
  - split; [|done]. exists 0. split; [done|]. by split.
Qed.
End sim.

(** A chip within the driver's polling, one that is too slow for it although within
    its data sheet, and one that breaks its data sheet. *)
Definition sim_chip_laws tp te (Htp : 0 ≤ tp) (Hte : 0 ≤ te) : NorChip demo_descriptor tp te 5 demo_jedec (Sim tp te) :=
  {| chip := sim_chip;
     bus_ok _ := True;
     delay_law n dev Hn := conj (ex_intro _ n (conj (Z.le_refl n) eq_refl)) (λ H, H);
     transaction_law ops dev := sim_transaction_law tp te ops dev Htp Hte |}.
#[export] Instance fast_chip : NorChip demo_descriptor 50 50 5 demo_jedec (Sim 50 50) :=
  sim_chip_laws 50 50 ltac:(lia) ltac:(lia).

Definition demo_mem : Z → Z := λ a, if a =? 3 then 0x5A else 0xFF.
Definition demo_flash tp te : SPIFlash (Sim tp te) :=
  spi_new (mkSim (mkChip demo_mem false 0 PAsleep false)) demo_descriptor.

Example demo_validates : descriptor_validate 64 demo_descriptor = inl demo_descriptor.
Proof. reflexivity. Qed.

Lemma demo_spi_wf : spi_wf demo_descriptor 50 50 5 demo_jedec (demo_flash 50 50).
Proof.
  split; [|split; [exact I|]].
  - split; [reflexivity|]. split; [|by right]. split; [reflexivity|]. split; [|done]. by split.
  - intros a. unfold mem_of. cbn. unfold demo_mem. by destruct (a =? 3).
Defined.

Lemma demo_timely : timely demo_descriptor 50 50.
Proof. by split; vm_compute. Qed.

Lemma erased_range_roundtrip_witness :
  ∃ f1 f2 f3, spi_erase false 64 128 (demo_flash 50 50) = (Ok (64, 128), f1) ∧
    write_relative (mkErasedRange 64 128) 60 [1; 2; 3; 4; 5; 6; 7] f1 = (Ok tt, f2) ∧
    spi_read false 124 7 f2 = (Ok [1; 2; 3; 4; 5; 6; 7], f3) ∧ spi_wf demo_descriptor 50 50 5 demo_jedec f3 ∧
    (∀ x, ¬ range 64 192 x → mem_of demo_descriptor 50 50 5 demo_jedec f3 x = demo_mem x) ∧
    (∀ x, range 64 192 x → ¬ range 124 131 x → mem_of demo_descriptor 50 50 5 demo_jedec f3 x = 255).
Proof.
  exact (erased_range_roundtrip demo_descriptor 50 50 5 demo_jedec ltac:(done) ltac:(done) ltac:(done) ltac:(done)
    ltac:(done) ltac:(done) ltac:(done) demo_timely (demo_flash 50 50) 64 128 60 [1; 2; 3; 4; 5; 6; 7] demo_spi_wf
    ltac:(done) ltac:(done) ltac:(done) (Z.divide_refl 64) (Z.divide_factor_r 64 2) ltac:(done) ltac:(done)
    (u8s [1; 2; 3; 4; 5; 6; 7] eq_refl)).
Defined.

Lemma spi_faults_contained_witness :
  frame (range 128 192) (mem_of demo_descriptor 50 50 5 demo_jedec (demo_flash 50 50))
    (mem_of demo_descriptor 50 50 5 demo_jedec (spi_erase false 128 64 (demo_flash 50 50)).2).
Proof.
  destruct (spi_faults_contained demo_descriptor 50 50 5 demo_jedec ltac:(done) ltac:(done) ltac:(done) ltac:(done)
    ltac:(done) ltac:(done) ltac:(done) (demo_flash 50 50) 128 (proj1 demo_spi_wf) ltac:(done)) as (_ & _ & H).
  exact (proj1 (H 64 _ _ ltac:(done) (surjective_pairing _))).
Defined.

(** ** Slow chips *)

(** A page that takes 95 of its at most 100 microseconds is programmed, and reported
    as timed out: [is_ready] polls at 0, 10, ..., 90 microseconds and not again after
    its last delay. *)
Lemma slow_page_times_out :
  let run := spi_program 0 [1; 2] (demo_flash 95 50) in
  let c := sim_chip (device (spi_flash run.2)) in
  run.1 = Err Timeout ∧ ready_in c = 0 ∧ mem c 0 = 1 ∧ mem c 1 = 2.
Proof. by split_and!; vm_compute. Qed.

(** Behind a time-out the chip may still be busy, with its write enable latch set.
    The next program is ignored by the chip and reported as done. *)
Lemma busy_chip_loses_program :
  let f1 := (spi_program 0 [1; 2] (demo_flash 200 50)).2 in
  let run := spi_program 8 [3; 4] f1 in
  (spi_program 0 [1; 2] (demo_flash 200 50)).1 = Err Timeout ∧ run.1 = Ok tt ∧
  mem (sim_chip (device (spi_flash run.2))) 8 = 0xFF.
Proof. by split_and!; vm_compute. Qed.

Section storage.
Context {DEV : Type} `{!SpiDevice DEV} (d : FlashDescriptor) (T_program T_erase T_sleep : Z) (jedec : list Z).
Context `{!NorChip d T_program T_erase T_sleep jedec DEV}.
Context (HTS : T_sleep ≤ sleep_timeout_us d) (HS0 : 0 ≤ sleep_timeout_us d).
Context (Hpage : 0 < page_size d) (Herase : 0 < erase_size d) (Htotal : is_u32 (total_size d)).
Context (HPT : 0 ≤ program_timeout_us d) (HET : 0 ≤ erase_timeout_us d).
Context (Htimely : timely d T_program T_erase) (B : Z) (HB : BLOCK_HEADER_SIZE ≤ B < u32_size) (Hmax : (erase_size d | B)).

Abbreviation BD := (BlockDevice (SPIFlash DEV)).
Abbreviation wf := (spi_wf d T_program T_erase T_sleep jedec).
Abbreviation bytes_of := (mem_of d T_program T_erase T_sleep jedec).




End storage.

Definition blank_flash : SPIFlash (Sim 50 50) :=
  spi_new (mkSim (mkChip (λ _, 255) false 0 PAsleep false)) demo_descriptor.


(** A file of 40 bytes, written and read through the driver and the bus. *)
Module DemoSpi.
#[local] Instance sim_nor : NorFlash (SPIFlash (Sim 50 50)) SpiError := spi_nor_flash 64.
#[local] Instance sim_blocks : BlockDev 64 (BlockDevice (SPIFlash (Sim 50 50))) SpiError := block_device 64.
Definition file : Object := mkObject 5 8 0 4 None.
Example file_on_spi_flash :
  let d1 := write_file 64 file (seqZ 101 40) (readonly_from 64 blank_flash) in
  d1.1 = Ok tt ∧ (read_file 64 file 40 d1.2).1 = Ok (seqZ 101 40).
Proof. by split; vm_compute. Qed.
End DemoSpi.
