(* ===== verification/Network.v ===== *)
(** * The network task

    [logic/network.rs]: the retry loop of [network_task] and [handle_connection],
    generic in the protocol client ([NetworkClient]).  What the other tasks do is an
    input: each turn of [handle_connection] gets what its queues hold and which
    branch [select3] takes ([Env]), each connection attempt gets whether its time-out
    fired, its turns and how long it took ([Attempt]).  What the task does to the
    outside is the list of its outputs.  The clock counts microseconds and is read
    where the source reads it. *)

From stdpp Require Import base list list_numbers numbers option.
From S2P Require Import Prelude DispatchStore Dispatch.

Definition MIN_RETRY_DELAY_SEC : Z := 3.
Definition NETWORK_CONNECTING_TIMEOUT_SEC : Z := 11 * 60.
Definition RETRY_TIMEOUT_SEC : Z := 5 * 60.
Definition NETWORK_DISCONNECTED_TIMEOUT_MS : Z := (RETRY_TIMEOUT_SEC + NETWORK_CONNECTING_TIMEOUT_SEC) * 1000.
Definition DEFAULT_TIMEOUT_S : Z := 20.
Definition MINIMUM_TIMEOUT_S : Z := 5.

(** [sensor_link_protocol::Error] *)
Inductive NetError : Type := InvalidSIM | ClientError | TimeOut | MQTT | Serialize | SerializeTopic.

Inductive FirmwareDownloadStart : Type := Started | Failed.
Inductive ReadOutcome : Type := Continue | Disconnected_.
Inductive DisconnectReason : Type := Success | NotConnected | Unexpected | Error_ | Fatal.
#[export] Instance DisconnectReason_eq_dec : EqDecision DisconnectReason.
Proof. solve_decision. Defined.

Inductive DisconnectInfo : Type := Final | Retry (sec : Z).
Inductive NetworkSignal : Type := Connected | Disconnected (info : DisconnectInfo) | ConnectFailed.

(** The signals of the task; [Sg] are those of the client. *)
Inductive NSignal (Sg CellInfo : Type) : Type :=
| Network (s : NetworkSignal)
| SCellInfo (cell : CellInfo)
| StatusSent (token : Z)
| FirmwareUpdateFailed
| FromClient (s : Sg).
Arguments Network {Sg CellInfo}.
Arguments SCellInfo {Sg CellInfo}.
Arguments StatusSent {Sg CellInfo}.
Arguments FirmwareUpdateFailed {Sg CellInfo}.
Arguments FromClient {Sg CellInfo}.

Inductive NetworkAction (S : Type) : Type :=
| ADisconnect | SendDeviceInfo | SendStatus (s : S) | DownloadUpdate | SetTimeout (t : Z).
Arguments ADisconnect {S}.
Arguments SendDeviceInfo {S}.
Arguments SendStatus {S}.
Arguments DownloadUpdate {S}.
Arguments SetTimeout {S}.

(** The traits [NetworkClient], without [await_response], and [NetworkUploadItem].
    [nc_send_status] returns the status, in which it sets the signal strength. *)
Class NetworkClient (C U S Sg CellInfo : Type) : Type := {
  nc_connect : M C NetError unit;
  nc_disconnect : M C NetError unit;
  nc_download_firmware_update : M C NetError FirmwareDownloadStart;
  nc_upload : U → M C NetError unit;
  nc_handle_read : M C Empty_set (list Sg * ReadOutcome);
  nc_send_device_info : M C NetError unit;
  nc_send_status : S → M C NetError S;
  nc_cell_info : M C Empty_set (option CellInfo);
  confirmation_token : S → Z;
}.

Inductive Op (S : Type) : Type := OpAction (a : NetworkAction S) | OpUpload | OpRead | OpStop | OpNone.
Arguments OpAction {S}.
Arguments OpUpload {S}.
Arguments OpRead {S}.
Arguments OpStop {S}.
Arguments OpNone {S}.
Definition is_upload {S} (op : Op S) : bool := if op is OpUpload then true else false.

(** The branch of [select3]; [SelRead] is whether there was a response. *)
Inductive Selected (U S : Type) : Type :=
| SelRead (response : bool)
| SelAction (a : NetworkAction S)
| SelMsg (msg : option (Confirmable U)).
Arguments SelRead {U S}.
Arguments SelAction {U S}.
Arguments SelMsg {U S}.

Record Env (U S : Type) : Type := mkEnv {
  try_next_action : option (NetworkAction S);
  try_recv_drain_only : option (Confirmable U);
  selected : Selected U S
}.
Arguments mkEnv {U S}.
Arguments try_next_action {U S}.
Arguments try_recv_drain_only {U S}.
Arguments selected {U S}.

(** [took] microseconds until the connection is closed again, [late] after the delay. *)
Record Attempt (U S : Type) : Type := mkAttempt { timed_out : bool; turns : list (Env U S); took : Z; late : Z }.
Arguments mkAttempt {U S}.
Arguments timed_out {U S}.
Arguments turns {U S}.
Arguments took {U S}.
Arguments late {U S}.

Inductive Out (U Sg CellInfo : Type) : Type :=
| OSignal (s : NSignal Sg CellInfo)
| OReceived (c : Confirmable U)
| OSent (c : Confirmable U) (result : option NetError)
| OConfirmed (c : Confirmable U)
| ODropped (c : Confirmable U)
| OAttempt (start : Z).
Arguments OSignal {U Sg CellInfo}.
Arguments OReceived {U Sg CellInfo}.
Arguments OSent {U Sg CellInfo}.
Arguments OConfirmed {U Sg CellInfo}.
Arguments ODropped {U Sg CellInfo}.
Arguments OAttempt {U Sg CellInfo}.

(** [State], the client, the clock, and the outputs so far. *)
Record NetTask (C U Sg CellInfo : Type) : Type := mkNetTask {
  nt_client : C;
  timeout_s : Z;
  pending_upload : option (Confirmable U);
  clock : Z;
  outs : list (Out U Sg CellInfo)
}.
Arguments mkNetTask {C U Sg CellInfo}.
Arguments nt_client {C U Sg CellInfo}.
Arguments timeout_s {C U Sg CellInfo}.
Arguments pending_upload {C U Sg CellInfo}.
Arguments clock {C U Sg CellInfo}.
Arguments outs {C U Sg CellInfo}.

Section network.
Context {C U S Sg CellInfo : Type} `{!NetworkClient C U S Sg CellInfo}.
Abbreviation NT := (NetTask C U Sg CellInfo).

(** The inputs ended while the task was running. *)
Inductive StillRunning : Type := still_running.
Abbreviation MN := (M NT StillRunning).

Definition set_client (c : C) (t : NT) : NT := mkNetTask c (timeout_s t) (pending_upload t) (clock t) (outs t).
Definition set_timeout (n : Z) (t : NT) : NT := mkNetTask (nt_client t) n (pending_upload t) (clock t) (outs t).
Definition set_upload (p : option (Confirmable U)) (t : NT) : NT :=
  mkNetTask (nt_client t) (timeout_s t) p (clock t) (outs t).
Definition advance (dt : Z) (t : NT) : NT :=
  mkNetTask (nt_client t) (timeout_s t) (pending_upload t) (clock t + dt) (outs t).
Definition emit (o : list (Out U Sg CellInfo)) (t : NT) : NT :=
  mkNetTask (nt_client t) (timeout_s t) (pending_upload t) (clock t) (outs t ++ o).

Definition on_client {A} (m : M C NetError A) : MN (caught NetError A) := attempt (zoom nt_client set_client m).
Definition on_client_ok {A} (m : M C Empty_set A) : MN A :=
  map_err (λ e : Empty_set, match e with end) (zoom nt_client set_client m).
Definition send_signal (s : NSignal Sg CellInfo) : MN unit := modify (emit [OSignal s]).

(** [state.pending_upload.insert(msg)] *)
Definition receive (msg : Confirmable U) : MN unit :=
  modify (emit [OReceived msg]);; modify (set_upload (Some msg)).

(** ** [handle_connection] *)

(** What to do next; [None] ends the loop. *)
Definition next_op (disconnect_pending : bool) (e : Env U S) : MN (option (Op S)) :=
  p ← gets pending_upload;
  match p with
  | Some _ => mret (Some (match try_next_action e with Some a => OpAction a | None => OpUpload end))
  | None =>
      if disconnect_pending : bool then
        match try_next_action e with
        | Some a => mret (Some (OpAction a))
        | None =>
            match try_recv_drain_only e with
            | Some msg => receive msg;; mret (Some OpUpload)
            | None => mret None
            end
        end
      else
        match selected e with
        | SelRead true => mret (Some OpRead)
        | SelRead false => mret (Some OpStop)
        | SelAction a => mret (Some (OpAction a))
        | SelMsg (Some msg) => receive msg;; mret (Some OpUpload)
        | SelMsg None => mret (Some OpNone)
        end
  end.

(** The result of an operation: [inl] breaks the loop; [inr] is [op_result], with
    [disconnect_pending]. *)
Abbreviation OpResult := (DisconnectReason + option NetError * bool)%type.

Definition error_of {A} (r : caught NetError A) : option NetError :=
  match r with inl _ => None | inr e => Some e end.

Definition perform_action (disconnect_pending : bool) (a : NetworkAction S) : MN OpResult :=
  match a with
  | ADisconnect => mret (inr (None, true))
  | SetTimeout new_timeout =>
      modify (set_timeout (Z.max new_timeout MINIMUM_TIMEOUT_S));;
      mret (inr (None, disconnect_pending))
  | SendDeviceInfo =>
      r ← on_client nc_send_device_info;
      mret (inr (error_of r, disconnect_pending))
  | SendStatus device_status =>
      r ← on_client (nc_send_status device_status);
      (if r is inl sent then send_signal (StatusSent (confirmation_token sent)) else mret tt);;
      mret (inr (error_of r, disconnect_pending))
  | DownloadUpdate =>
      r ← on_client nc_download_firmware_update;
      match r with
      | inl Started => mret (inr (None, disconnect_pending))
      | inl Failed => send_signal FirmwareUpdateFailed;; mret (inr (None, disconnect_pending))
      | inr _ => mret (inl Error_)
      end
  end.

Definition perform (disconnect_pending : bool) (op : Op S) : MN OpResult :=
  match op with
  | OpRead =>
      r ← on_client_ok nc_handle_read;
      modify (emit (OSignal ∘ FromClient <$> r.1));;
      match r.2 with
      | Continue => mret (inr (None, disconnect_pending))
      | Disconnected_ => mret (inl Unexpected)
      end
  | OpAction a => perform_action disconnect_pending a
  | OpUpload =>
      p ← gets pending_upload;
      match p with
      | Some c =>
          r ← on_client (nc_upload (inner c));
          modify (emit [OSent c (error_of r)]);;
          mret (inr (error_of r, disconnect_pending))
      | None => panic
      end
  | OpNone => mret (inr (None, disconnect_pending))
  | OpStop => mret (inl Success)
  end.

(** The match on [op_result]: [inl] breaks the loop, [inr] is [disconnect_pending]. *)
Definition finish_op (op : Op S) (r : OpResult) : MN (DisconnectReason + bool) :=
  match r with
  | inl reason => mret (inl reason)
  | inr (Some (InvalidSIM | ClientError | TimeOut | MQTT), _) => mret (inl Error_)
  | inr (Some (Serialize | SerializeTopic), dp) => mret (inr dp)
  | inr (None, dp) =>
      (if is_upload op then
         p ← gets pending_upload;
         match p with
         | Some completed => modify (set_upload None);; modify (emit [OConfirmed completed])
         | None => mret tt
         end
       else mret tt);;
      mret (inr dp)
  end.

Definition perform_op (disconnect_pending : bool) (op : Op S) : MN (DisconnectReason + bool) :=
  r ← perform disconnect_pending op;
  finish_op op r.

Definition conn_turn (disconnect_pending : bool) (e : Env U S) : MN (DisconnectReason + bool) :=
  o ← next_op disconnect_pending e;
  match o with
  | None => mret (inl Success)
  | Some op => perform_op disconnect_pending op
  end.

Fixpoint conn_loop (disconnect_pending : bool) (es : list (Env U S)) : MN DisconnectReason :=
  match es with
  | [] => fail still_running
  | e :: es =>
      r ← conn_turn disconnect_pending e;
      match r with inl reason => mret reason | inr dp => conn_loop dp es end
  end.
Definition handle_connection : list (Env U S) → MN DisconnectReason := conn_loop false.

(** ** [network_task] *)

(** [offline_since] and [next_retry_sec] *)
Record Retrying : Type := mkRetrying { offline_since : option Z; next_retry_sec : Z }.

Definition elapsed_sec (now since : Z) : Z := Z.max 0 (now - since) / 1000000.

(** One connection: why it ended, and [offline_since]. *)
Definition attempt_connection (a : Attempt U S) (offline : option Z) : MN (DisconnectReason * option Z) :=
  start ← gets clock;
  modify (emit [OAttempt start]);;
  r ← on_client nc_connect;
  x ← match (if timed_out a then None else Some r) with
      | Some (inr err) => on_client nc_disconnect;; mret (NotConnected, offline)
      | None => on_client nc_disconnect;; mret (Fatal, offline)
      | Some (inl _) =>
          send_signal (Network Connected);;
          cell ← on_client_ok nc_cell_info;
          (if cell is Some cell then send_signal (SCellInfo cell) else mret tt);;
          reason ← handle_connection (turns a);
          on_client nc_disconnect;;
          mret (reason, None)
      end;
  modify (advance (took a));;
  mret x.

(** [u32] sum of the elapsed seconds and the delay *)
Definition will_retry_after {E} (now since next : Z) : M NT E bool :=
  s ← u32_add (as_u32 (elapsed_sec now since)) next;
  mret (s <=? RETRY_TIMEOUT_SEC).

(** The end of the task: its state, with a pending upload, is dropped. *)
Definition finish_task : MN (option Retrying) :=
  p ← gets pending_upload;
  modify (set_upload None);;
  modify (emit (ODropped <$> option_list p));;
  mret None.

(** One turn of the retry loop; [None] when the task returned. *)
Definition retry_turn (a : Attempt U S) (s : Retrying) : MN (option Retrying) :=
  x ← attempt_connection a (offline_since s);
  let '(disconnect_reason, offline) := x in
  now ← gets clock;
  let next := next_retry_sec s in
  will_retry ← match offline with
               | None => mret true
               | Some time => will_retry_after now time next
               end;
  let offline := default now offline in
  match disconnect_reason with
  | Success => send_signal (Network (Disconnected Final));; finish_task
  | _ =>
      let '(sig, will_retry) := match disconnect_reason with
        | Fatal => (Disconnected Final, false)
        | Error_ | Unexpected => (Disconnected (if will_retry : bool then Retry next else Final), will_retry)
        | _ => (ConnectFailed, will_retry)
        end in
      send_signal (Network sig);;
      if negb will_retry then finish_task
      else
        modify (advance (next * 1000000 + late a));;
        mret (Some (mkRetrying (Some offline) (Z.min (next * 2) RETRY_TIMEOUT_SEC)))
  end.

Fixpoint retry_loop (attempts : list (Attempt U S)) (s : Retrying) : MN unit :=
  match attempts with
  | [] => fail still_running
  | a :: attempts =>
      r ← retry_turn a s;
      match r with None => mret tt | Some s => retry_loop attempts s end
  end.

Definition network_start (now : Z) : Retrying := mkRetrying (Some now) MIN_RETRY_DELAY_SEC.
Definition network_task (attempts : list (Attempt U S)) : MN unit :=
  modify (set_timeout DEFAULT_TIMEOUT_S);;
  modify (set_upload None);;
  now ← gets clock;
  retry_loop attempts (network_start now).
End network.
