(* ===== verification/NetworkProps.v ===== *)
(** * The network task: what happens to uploads, and when it gives up

    The outputs of every run are a [trace]: one upload at a time, in order, confirmed
    only after a successful send.  A trace is a behaviour that the dispatch model
    allows its environment.  Then the retry loop: back-off, the time without a
    connection, and that it ends. *)

From stdpp Require Import base list list_numbers numbers option relations.
From S2P Require Import Prelude Queue Serialize DispatchStore Dispatch Network FlashDb.

(** ** The life of uploads *)

(** From the pending upload [p] to [p'] with the given outputs. *)
Inductive trace {U Sg CI : Type} : option (Confirmable U) → list (Out U Sg CI) → option (Confirmable U) → Prop :=
| trace_nil p : trace p [] p
| trace_signal p s l p' : trace p l p' → trace p (OSignal s :: l) p'
| trace_attempt p n l p' : trace p l p' → trace p (OAttempt n :: l) p'
| trace_receive c l p' : trace (Some c) l p' → trace None (OReceived c :: l) p'
| trace_retry c e l p' : trace (Some c) l p' → trace (Some c) (OSent c (Some e) :: l) p'
| trace_confirm c l p' : trace None l p' → trace (Some c) (OSent c None :: OConfirmed c :: l) p'
| trace_drop c l p' : trace None l p' → trace (Some c) (ODropped c :: l) p'.

Lemma trace_app {U Sg CI} (p q r : option (Confirmable U)) (l k : list (Out U Sg CI)) :
  trace p l q → trace q k r → trace p (l ++ k) r.
Proof. induction 1; cbn; eauto using @trace. Qed.

(** The uploads of a list of outputs. *)
Definition received {U Sg CI} (l : list (Out U Sg CI)) : list (Confirmable U) :=
  omap (λ o, if o is OReceived c then Some c else None) l.
Definition settled_uploads {U Sg CI} (l : list (Out U Sg CI)) : list (Confirmable U) :=
  omap (λ o, match o with OConfirmed c | ODropped c => Some c | _ => None end) l.

Lemma trace_conserves {U Sg CI} p (l : list (Out U Sg CI)) p' :
  trace p l p' → option_list p ++ received l = settled_uploads l ++ option_list p'.
Proof.
  unfold received, settled_uploads. induction 1; cbn in *; try done.
  - by rewrite app_nil_r.
  - by rewrite IHtrace.
  - by rewrite IHtrace.
Qed.

Section props.
Context {C U S Sg CellInfo : Type} `{!NetworkClient C U S Sg CellInfo}.
Abbreviation NT := (NetTask C U Sg CellInfo).
Implicit Types t : NT.

(** The outputs from [t] to [t'] are a trace; and no time passes. *)
Definition extends t t' : Prop := ∃ l, outs t' = outs t ++ l ∧ trace (pending_upload t) l (pending_upload t').
Definition quiet t t' : Prop := extends t t' ∧ clock t' = clock t.
Definition steps_out {E A} (m : M NT E A) : Prop := ∀ t, extends t (m t).2.
Definition steps_trace {E A} (m : M NT E A) : Prop := ∀ t, quiet t (m t).2.

Lemma extends_refl t : extends t t.
Proof. exists []. rewrite app_nil_r. split; [done|constructor]. Qed.

Lemma net_quiet_refl t : quiet t t.
Proof. split; [apply extends_refl|done]. Qed.

Lemma extends_trans t1 t2 t3 : extends t1 t2 → extends t2 t3 → extends t1 t3.
Proof.
  intros (l & H1 & H2) (k & H3 & H4). exists (l ++ k). rewrite H3, H1, app_assoc. split; [done|].
  by eapply trace_app.
Qed.

Lemma net_quiet_trans t1 t2 t3 : quiet t1 t2 → quiet t2 t3 → quiet t1 t3.
Proof. intros [] []. split; [by eapply extends_trans|congruence]. Qed.

Lemma extends_same t t' : outs t' = outs t → pending_upload t' = pending_upload t → extends t t'.
Proof. intros H1 H2. exists []. rewrite H1, H2, app_nil_r. split; [done|constructor]. Qed.

Lemma net_quiet_same t t' :
  outs t' = outs t → pending_upload t' = pending_upload t → clock t' = clock t → quiet t t'.
Proof. intros. split; [by apply extends_same|done]. Qed.

Lemma st_ret {E A} (a : A) : steps_trace (E := E) (mret a).
Proof. intros t. apply net_quiet_refl. Qed.
Lemma st_fail {E A} (e : E) : steps_trace (A := A) (fail e).
Proof. intros t. apply net_quiet_refl. Qed.
Lemma st_panic {E A} : steps_trace (E := E) (A := A) panic.
Proof. intros t. apply net_quiet_refl. Qed.
Lemma st_gets {E A} (f : NT → A) : steps_trace (E := E) (gets f).
Proof. intros t. apply net_quiet_refl. Qed.
Lemma st_same {E} (f : NT → NT) :
  (∀ t, outs (f t) = outs t) → (∀ t, pending_upload (f t) = pending_upload t) → (∀ t, clock (f t) = clock t) →
  steps_trace (E := E) (modify f).
Proof. intros H1 H2 H3 t. by apply net_quiet_same; cbn. Qed.
Lemma st_bind {E A B} (m : M NT E A) (k : A → M NT E B) :
  steps_trace m → (∀ a, steps_trace (k a)) → steps_trace (m ≫= k).
Proof.
  intros Hm Hk t. unfold mbind, M_bind. specialize (Hm t). destruct (m t) as [[a|e|] t'] eqn:He; cbn in *; [|done..].
  eapply net_quiet_trans; [exact Hm|apply Hk].
Qed.
Lemma st_signals {E} (l : list (NSignal Sg CellInfo)) : steps_trace (E := E) (modify (emit (OSignal <$> l))).
Proof.
  intros t. split; [|done]. exists (OSignal <$> l). split; [done|]. cbn. induction l; cbn; by constructor.
Qed.
Lemma st_client {A} (m : M C NetError A) : steps_trace (on_client m).
Proof. intros t. unfold on_client, attempt, zoom. destruct (m (nt_client t)) as [[]]; by apply net_quiet_same. Qed.
Lemma st_client_ok {A} (m : M C Empty_set A) : steps_trace (on_client_ok m).
Proof. intros t. unfold on_client_ok, map_err, zoom. destruct (m (nt_client t)) as [[]]; by apply net_quiet_same. Qed.
Lemma st_signal s : steps_trace (send_signal s).
Proof. apply (st_signals [s]). Qed.

Lemma st_finish : steps_trace finish_task.
Proof.
  intros t. unfold finish_task, mbind, M_bind, gets, modify. cbn.
  split; [|done]. exists (ODropped <$> option_list (pending_upload t)). split; [done|]. cbn.
  destruct (pending_upload t); repeat constructor.
Qed.

(** One step of the program. *)
Ltac st :=
  repeat first
    [ apply st_finish | apply st_bind; [|intros ?]
    | apply st_ret | apply st_fail | apply st_panic | apply st_gets | apply st_client | apply st_client_ok
    | apply st_signal
    | apply st_same; done
    | match goal with |- context [match ?x with _ => _ end] => destruct x end ].

Lemma st_action dp (a : NetworkAction S) : steps_trace (perform_action dp a).
Proof. unfold perform_action. destruct a; st. Qed.

Lemma st_receive_then {A} c (k : M NT StillRunning A) t :
  pending_upload t = None →
  (∀ t', pending_upload t' = Some c → quiet t' (k t').2) → quiet t ((receive c;; k) t).2.
Proof.
  intros Hp Hk. unfold receive, mbind, M_bind, modify. cbn. set (t' := set_upload (Some c) (emit [OReceived c] t)).
  eapply net_quiet_trans; [|by apply Hk]. split; [|done]. exists [OReceived c]. split; [done|]. rewrite Hp. repeat constructor.
Qed.

(** An upload that is pending is sent, and confirmed when that succeeds. *)
Lemma upload_op_trace dp c t : pending_upload t = Some c → quiet t (perform_op dp OpUpload t).2.
Proof.
  intros Hp. unfold perform_op, perform, mbind, M_bind, gets. rewrite Hp. unfold on_client, attempt, zoom.
  destruct (nc_upload (inner c) (nt_client t)) as [[[]|e|] cl]; cbn.
  - split; [|cbn; unfold mbind, M_bind, gets; cbn; by rewrite Hp].
    exists [OSent c None; OConfirmed c]. unfold mbind, M_bind, gets. cbn. rewrite Hp. cbn.
    split; [by rewrite <-app_assoc|repeat constructor].
  - assert (quiet t (emit [OSent c (Some e)] (set_client cl t))) as H.
    { split; [|done]. exists [OSent c (Some e)]. split; [done|]. cbn. rewrite Hp. repeat constructor. }
    by destruct e.
  - by apply net_quiet_same.
Qed.

Lemma other_op_trace dp (op : Op S) : op ≠ OpUpload → steps_trace (perform_op dp op).
Proof.
  intros Hop. unfold perform_op. apply st_bind.
  - destruct op as [a| | | |]; cbn [perform]; try done; [apply st_action| |st..].
    apply st_bind; [apply st_client_ok|intros [l o]]. cbn [fst snd]. rewrite list_fmap_compose.
    apply st_bind; [apply st_signals|intros _]. st.
  - intros r. unfold finish_op. destruct op; [|done|..]; cbn [is_upload]; st.
Qed.

Lemma op_trace dp (op : Op S) t : (op = OpUpload → pending_upload t ≠ None) → quiet t (perform_op dp op t).2.
Proof.
  intros Hop. destruct op; try by apply other_op_trace.
  destruct (pending_upload t) as [c|] eqn:Hp; [by eapply upload_op_trace|by destruct Hop].
Qed.

Lemma st_conn_turn dp (e : Env U S) : steps_trace (conn_turn dp e).
Proof.
  intros t. assert (∀ c, pending_upload t = None → quiet t
      ((o ← (receive c;; mret (Some OpUpload));
        match o with None => mret (inl Success) | Some op => perform_op dp op end) t).2) as Hrec.
  { intros c Hp. exact (st_receive_then c (perform_op dp OpUpload) t Hp (λ t' Ht', upload_op_trace dp c t' Ht')). }
  assert (∀ op : Op S, (op = OpUpload → pending_upload t ≠ None) → quiet t
      ((o ← mret (Some op);
        match o with None => mret (inl Success) | Some op => perform_op dp op end) t).2) as Hop.
  { intros op H. by apply (op_trace dp op t). }
  unfold conn_turn, next_op, mbind at 1 2, M_bind at 1 2, gets.
  destruct (pending_upload t) as [c|] eqn:Hp.
  - apply (Hop (match try_next_action e with Some a => OpAction a | None => OpUpload end)). by intros _.
  - destruct dp.
    + destruct (try_next_action e) as [a|]; [by apply (Hop (OpAction a))|].
      destruct (try_recv_drain_only e) as [msg|]; [by apply (Hrec msg)|apply net_quiet_refl].
    + destruct (selected e) as [[]|a|[msg|]];
        [by apply (Hop OpRead)|by apply (Hop OpStop)|by apply (Hop (OpAction a))|by apply (Hrec msg)|by apply (Hop OpNone)].
Qed.

Lemma st_conn_loop dp (es : list (Env U S)) : steps_trace (conn_loop dp es).
Proof.
  revert dp. induction es as [|e es IH]; intros dp; cbn [conn_loop]; [apply st_fail|].
  apply st_bind; [apply st_conn_turn|]. intros [reason|dp']; [apply st_ret|apply IH].
Qed.

(** ** The outer loop, where time passes *)

Lemma so_quiet {E A} (m : M NT E A) : steps_trace m → steps_out m.
Proof. intros H t. apply H. Qed.
Lemma so_bind {E A B} (m : M NT E A) (k : A → M NT E B) :
  steps_out m → (∀ a, steps_out (k a)) → steps_out (m ≫= k).
Proof.
  intros Hm Hk t. unfold mbind, M_bind. specialize (Hm t). destruct (m t) as [[a|e|] t'] eqn:He; cbn in *; [|done..].
  eapply extends_trans; [exact Hm|apply Hk].
Qed.
Lemma so_advance {E} n : steps_out (E := E) (modify (advance n)).
Proof. intros t. by apply extends_same. Qed.

Ltac so :=
  repeat first
    [ apply so_advance | apply so_quiet, st_finish
    | apply so_bind; [|intros ?]
    | apply so_quiet; first [apply st_conn_loop | apply st_finish | apply st_ret | apply st_panic | apply st_gets
        | apply st_client | apply st_client_ok | apply st_signal]
    | match goal with |- context [match ?x with _ => _ end] => destruct x end ].

Lemma so_attempt (a : Attempt U S) o : steps_out (attempt_connection a o).
Proof.
  unfold attempt_connection. apply so_bind; [apply so_quiet, st_gets|intros start]. apply so_bind; [|intros _; so].
  intros t. exists [OAttempt start]. split; [done|repeat constructor].
Qed.

Lemma so_retry_turn (a : Attempt U S) s : steps_out (retry_turn a s).
Proof.
  unfold retry_turn. apply so_bind; [apply so_attempt|intros [reason offline]].
  unfold will_retry_after, u32_add. so.
Qed.

Lemma so_network_task (l : list (Attempt U S)) t :
  extends (set_upload None t) (network_task l t).2.
Proof.
  unfold network_task. revert t. assert (∀ s, steps_out (retry_loop l s)) as H.
  { induction l as [|a l IH]; intros s; cbn [retry_loop]; [apply so_quiet, st_fail|].
    apply so_bind; [apply so_retry_turn|]. intros [s'|]; [apply IH|apply so_quiet, st_ret]. }
  intros t. unfold mbind, M_bind, modify, gets. cbn. eapply extends_trans; [|apply H]. by apply extends_same.
Qed.

(** When the task returns no upload is pending. *)
Lemma finish_pending t r t' : finish_task t = (r, t') → r = Ok None ∧ pending_upload t' = None.
Proof. unfold finish_task, mbind, M_bind, gets, modify. cbn. by intros [= <- <-]. Qed.

Lemma retry_turn_ends (a : Attempt U S) s t t' : retry_turn a s t = (Ok None, t') → pending_upload t' = None.
Proof.
  unfold retry_turn. intros ([reason offline] & t1 & _ & H)%bind_ok_inv.
  apply bind_ok_inv in H as (now & t2 & _ & H). apply bind_ok_inv in H as (w & t3 & _ & H).
  destruct reason.
  1: { apply bind_ok_inv in H as (_ & t4 & _ & H). by apply finish_pending in H as [_ ?]. }
  all: apply bind_ok_inv in H as (_ & t4 & _ & H); destruct w; cbn [negb] in H;
    first [by apply finish_pending in H as [_ ?] | by apply bind_ok_inv in H as (_ & t5 & _ & H)].
Qed.

Lemma retry_loop_ends (l : list (Attempt U S)) s t t' : retry_loop l s t = (Ok tt, t') → pending_upload t' = None.
Proof.
  revert s t. induction l as [|a l IH]; intros s t; cbn [retry_loop]; [done|].
  intros ([s'|] & t1 & H1 & H2)%bind_ok_inv; [by apply IH in H2|]. injection H2 as <-. by eapply retry_turn_ends.
Qed.

(** C13: the task never loses or reorders an upload.  Whatever the client, the other
    tasks and the clock do, the task works on one upload at a time, sends it until
    a send succeeds, confirms it exactly then, and takes the next one only
    afterwards; the uploads it received are those it confirmed or dropped, in order,
    and the one that is pending.  When it returns none is pending. *)
Theorem uploads_in_order (l : list (Attempt U S)) t r t' :
  outs t = [] → network_task l t = (r, t') →
  trace None (outs t') (pending_upload t') ∧
  received (outs t') = settled_uploads (outs t') ++ option_list (pending_upload t') ∧
  (r = Ok tt → pending_upload t' = None).
Proof.
  intros Ho Hrun. destruct (so_network_task l t) as (k & H1 & H2). rewrite Hrun in H1, H2. cbn in H1, H2.
  rewrite Ho in H1. cbn in H1. rewrite H1. split; [done|]. split; [apply (trace_conserves _ _ _ H2)|].
  intros ->. unfold network_task in Hrun. apply bind_ok_inv in Hrun as (_ & t1 & _ & Hrun).
  apply bind_ok_inv in Hrun as (_ & t2 & _ & Hrun). apply bind_ok_inv in Hrun as (now & t3 & _ & Hrun).
  by eapply retry_loop_ends.
Qed.

(** ** What a successful send means *)

(** A fact [Pub] about the client that a successful send makes true, and that no
    operation of the client makes false, is true of everything that was sent. *)
Section effect.
Context (Pub : U → C → Prop) (G : C → C → Prop) `{!Reflexive G, !Transitive G}.
Context (Hmono : ∀ u c c', G c c' → Pub u c → Pub u c').
Definition grows {E A} (m : M C E A) : Prop := ∀ c, G c (m c).2.
Context (Hconnect : grows nc_connect) (Hdisconnect : grows nc_disconnect) (Hdownload : grows nc_download_firmware_update).
Context (Hread : grows nc_handle_read) (Hinfo : grows nc_send_device_info) (Hcell : grows nc_cell_info).
Context (Hstatus : ∀ s, grows (nc_send_status s)) (Hupload : ∀ u, grows (nc_upload u)).
Context (Hpub : ∀ u c c', nc_upload u c = (Ok tt, c') → Pub u c').

Definition honest t : Prop := ∀ x, OSent x None ∈ outs t → Pub (inner x) (nt_client t).
Definition keeps {E A} (m : M NT E A) : Prop := ∀ t, honest t → honest (m t).2.

Lemma k_bind {E A B} (m : M NT E A) (k : A → M NT E B) : keeps m → (∀ a, keeps (k a)) → keeps (m ≫= k).
Proof.
  intros Hm Hk t Ht. unfold mbind, M_bind. specialize (Hm t Ht). destruct (m t) as [[a|e|] t']; [by apply Hk|done..].
Qed.
Lemma k_id {E A} (r : NT → outcome E A) : keeps (λ t, (r t, t)).
Proof. intros t Ht. exact Ht. Qed.
Lemma k_same {E} (f : NT → NT) :
  (∀ t, outs (f t) = outs t) → (∀ t, nt_client (f t) = nt_client t) → keeps (E := E) (modify f).
Proof. intros H1 H2 t Ht x. cbn. rewrite H1, H2. apply Ht. Qed.
Lemma k_emit {E} os : (∀ x, OSent x None ∉ os) → keeps (E := E) (modify (emit os)).
Proof. intros Hos t Ht x. cbn. intros [Hx|Hx]%elem_of_app; [by apply Ht|by apply Hos in Hx]. Qed.
Lemma k_client {A} (m : M C NetError A) : grows m → keeps (on_client m).
Proof.
  intros Hm t Ht x Hx. specialize (Hm (nt_client t)). unfold on_client, attempt, zoom in *.
  destruct (m (nt_client t)) as [[] c']; cbn in *; by eapply Hmono, Ht.
Qed.
Lemma k_client_ok {A} (m : M C Empty_set A) : grows m → keeps (on_client_ok m).
Proof.
  intros Hm t Ht x Hx. specialize (Hm (nt_client t)). unfold on_client_ok, map_err, zoom in *.
  destruct (m (nt_client t)) as [[] c']; cbn in *; by eapply Hmono, Ht.
Qed.

Ltac kp :=
  repeat first
    [ apply k_bind; [|intros ?] | apply k_id | apply k_same; done
    | apply k_emit; intros ?; by (set_solver || (intros ?%list_elem_of_fmap; naive_solver))
    | apply k_client | apply k_client_ok | done | by auto
    | match goal with |- context [match ?x with _ => _ end] => destruct x end ].

Lemma k_perform dp (op : Op S) : keeps (perform dp op).
Proof.
  destruct op as [a| | | |]; cbn [perform].
  - unfold perform_action. destruct a; kp.
  - intros t Ht. unfold mbind at 1, M_bind at 1, gets. destruct (pending_upload t) as [c|]; [|done].
    unfold mbind, M_bind, on_client, attempt, zoom. pose proof (Hupload (inner c) (nt_client t)) as Hg.
    destruct (nc_upload (inner c) (nt_client t)) as [[[]|e|] c'] eqn:Hu; cbn in *;
      intros x; cbn; rewrite ?elem_of_app, ?list_elem_of_singleton.
    + intros [Hx|[= ->]]; [by eapply Hmono, Ht|by apply (Hpub _ _ _ Hu)].
    + intros [Hx|[=]]; by eapply Hmono, Ht.
    + intros Hx; by eapply Hmono, Ht.
  - kp.
  - kp.
  - kp.
Qed.

Lemma k_conn_loop dp (es : list (Env U S)) : keeps (conn_loop dp es).
Proof.
  revert dp. induction es as [|e es IH]; intros dp; cbn [conn_loop]; [kp|]. apply k_bind; [|intros [r|dp']; [kp|apply IH]].
  unfold conn_turn, next_op, receive, perform_op, finish_op. kp; apply k_perform.
Qed.

Lemma k_retry_loop (l : list (Attempt U S)) : ∀ s, keeps (retry_loop l s).
Proof.
  induction l as [|a l IH]; intros s; cbn [retry_loop]; [kp|]. apply k_bind; [|intros [s'|]; [apply IH|kp]].
  unfold retry_turn, attempt_connection, will_retry_after, u32_add, finish_task, send_signal, handle_connection. kp; try apply k_conn_loop.
Qed.

Lemma sent_was_published (l : list (Attempt U S)) t r t' x :
  outs t = [] → network_task l t = (r, t') → OSent x None ∈ outs t' → Pub (inner x) (nt_client t').
Proof.
  intros Ho Hrun. assert (keeps (network_task l)) as Hk.
  { unfold network_task. kp. apply k_retry_loop. }
  specialize (Hk t). rewrite Hrun in Hk. apply Hk. intros y. rewrite Ho. by intros []%not_elem_of_nil.
Qed.
End effect.

(** ** The network task as the environment of the dispatch task *)

Section environment.
Context {St L Ev : Type} `{!DispatchStore St, !UploadAlloc U, !Flush L}.
Context (event_sendable : Ev → Z → option Serialize.SerializedSendable) (is_urgent : Ev → bool) (UPLOADS : Z).
Context (item_ok : Kind → Serialize.SerializedSendable → Prop).
Abbreviation dstep := (dispatch_step (St := St) (U := U) (L := L) event_sendable is_urgent UPLOADS item_ok).
Implicit Types c : config St U L.

(** The handles of confirmed uploads, the last one first. *)
Definition confirmed_handles (l : list (Out U Sg CellInfo)) : list (Kind * Z) :=
  reverse (omap (λ o, match o with
    | OConfirmed x => (λ kh, (kh.1, seq_no kh.2)) <$> confirm_handle x
    | _ => None end) l).

Lemma confirmed_handles_confirm x (l : list (Out U Sg CellInfo)) :
  confirmed_handles (OConfirmed x :: l) =
  confirmed_handles l ++ option_list ((λ kh, (kh.1, seq_no kh.2)) <$> confirm_handle x).
Proof.
  unfold confirmed_handles. cbn [omap list_omap]. destruct (confirm_handle x) as [[k h]|];
    cbn [fmap option_fmap option_map option_list]; [apply reverse_cons|by rewrite app_nil_r].
Qed.

Lemma trace_dispatch p (l : list (Out U Sg CellInfo)) p' c rest :
  trace p l p' → uploads c = received l ++ rest → network c = option_list p →
  ∃ c', rtc dstep c c' ∧ uploads c' = rest ∧ network c' = option_list p' ∧
    confirms c' = confirmed_handles l ++ confirms c ∧ phase c' = phase c ∧ accepted c' = accepted c.
Proof.
  intros Htr. revert c.
  induction Htr as [p|p s l p' _ IH|p n l p' _ IH|x l p' _ IH|x e l p' _ IH|x l p' _ IH|x l p' _ IH];
    intros c Hu Hn; cbn in Hu, Hn.
  - by exists c.
  - by apply IH.
  - by apply IH.
  - destruct (IH (go_network (received l ++ rest) (x :: network c) (d_store (disp c)) (confirms c) c)) as (c' & H1 & H2);
      [done|cbn; by rewrite Hn|]. exists c'. split; [|done]. eapply rtc_l; [by apply step_net_receive|done].
  - by apply IH.
  - destruct (IH (go_network (uploads c) [] (confirm_confirmable x (d_store (disp c)))
      (match confirm_handle x with Some (k, h) => (k, seq_no h) :: confirms c | None => confirms c end) c))
      as (c' & H1 & H2 & H3 & H4 & H5); [done|done|]. exists c'.
    split; [eapply rtc_l; [by apply (step_net_confirm _ _ _ _ c [] x [])|done]|].
    split; [done|]. split; [done|]. split; [|done]. rewrite H4.
    change (confirmed_handles (OSent x None :: OConfirmed x :: l)) with (confirmed_handles (OConfirmed x :: l)).
    rewrite confirmed_handles_confirm, <-app_assoc. cbn [confirms go_network].
    by destruct (confirm_handle x) as [[k h]|].
  - destruct (IH (go_network (uploads c) [] (drop_confirmable x (d_store (disp c))) (confirms c) c))
      as (c' & H1 & H2); [done|done|]. exists c'. split; [|done].
    eapply rtc_l; [by apply (step_net_drop _ _ _ _ c [] x [])|done].
Qed.

Lemma confirmed_was_sent p (l : list (Out U Sg CellInfo)) p' kn :
  trace p l p' → kn ∈ confirmed_handles l →
  ∃ x h, OSent x None ∈ l ∧ confirm_handle x = Some (kn.1, h) ∧ seq_no h = kn.2.
Proof.
  intros Htr Hin. unfold confirmed_handles in Hin. apply elem_of_reverse, list_elem_of_omap in Hin as (o & Ho & Hk).
  destruct o as [| | |x| |]; try done.
  destruct (confirm_handle x) as [[k h]|] eqn:Hx; [|done]. injection Hk as <-. exists x, h. split; [|done].
  clear Hx. induction Htr; set_solver.
Qed.

(** What leaves the store was sent.  Running the network task against a dispatch
    task that handed it these uploads is a run of the dispatch model (its environment
    steps), and it adds to the confirmed items only those whose bytes the client
    reported as sent. *)
Lemma network_refines_dispatch_environment (l : list (Attempt U S)) t r t' c rest :
  outs t = [] → network_task l t = (r, t') →
  uploads c = received (outs t') ++ rest → network c = [] →
  ∃ c', rtc dstep c c' ∧ uploads c' = rest ∧ network c' = option_list (pending_upload t') ∧
    phase c' = phase c ∧ accepted c' = accepted c ∧
    ∀ k n, (k, n) ∈ confirms c' → (k, n) ∈ confirms c ∨
      ∃ x h, OSent x None ∈ outs t' ∧ confirm_handle x = Some (k, h) ∧ seq_no h = n.
Proof.
  intros Ho Hrun Hu Hn. destruct (so_network_task l t) as (o & H1 & H2). rewrite Hrun in H1, H2. cbn in H1, H2.
  rewrite Ho in H1. cbn in H1. rewrite <-H1 in H2.
  destruct (trace_dispatch _ _ _ c rest H2 Hu Hn) as (c' & J1 & J2 & J3 & J4 & J5 & J6).
  exists c'. do 5 (split; [done|]). intros k n Hin. rewrite J4 in Hin.
  apply elem_of_app in Hin as [Hin|Hin]; [right|by left]. by apply (confirmed_was_sent _ _ _ (k, n) H2).
Qed.
End environment.
End props.

(** ** The network task: retries

    How long the task stays without a connection before it gives up, that it gives
    up, and an upload that it retries for ever; with a small client for the
    witnesses. *)

Section retry.
Context {C U S Sg CellInfo : Type} `{!NetworkClient C U S Sg CellInfo}.
Abbreviation NT := (NetTask C U Sg CellInfo).
Implicit Types t : NT.

Lemma quiet_clock {E A} (m : M NT E A) t r t' : steps_trace m → m t = (r, t') → clock t' = clock t.
Proof. intros H Hr. specialize (H t). rewrite Hr in H. apply H. Qed.

(** An attempt takes [took]; its end is the new [offline_since] when it was connected. *)
Lemma attempt_clock (a : Attempt U S) o t reason off t' :
  attempt_connection a o t = (Ok (reason, off), t') → clock t' = clock t + took a ∧ (off = o ∨ off = None).
Proof.
  unfold attempt_connection. intros (start & t1 & H1 & H)%bind_ok_inv. injection H1 as <- <-.
  apply bind_ok_inv in H as ([] & t2 & H2 & H). injection H2 as <-.
  apply bind_ok_inv in H as (r & t3 & H3 & H). apply bind_ok_inv in H as ([reason' off'] & t4 & H4 & H).
  apply bind_ok_inv in H as ([] & t5 & H5 & H). injection H5 as <-. injection H as <- <- <-. cbn [clock advance].
  apply quiet_clock in H3; [|apply st_client]. cbn in H3. rewrite <-H3.
  destruct (if timed_out a then None else Some r) as [[?|err]|].
  - apply bind_ok_inv in H4 as ([] & u1 & J1 & H4). apply quiet_clock in J1; [|apply st_signal].
    apply bind_ok_inv in H4 as (cell & u2 & J2 & H4). apply quiet_clock in J2; [|apply st_client_ok].
    apply bind_ok_inv in H4 as ([] & u3 & J3 & H4).
    apply quiet_clock in J3; [|destruct cell; [apply st_signal|apply st_ret]].
    apply bind_ok_inv in H4 as (rs & u4 & J4 & H4). apply quiet_clock in J4; [|apply st_conn_loop].
    apply bind_ok_inv in H4 as (rd & u5 & J5 & H4). apply quiet_clock in J5; [|apply st_client].
    injection H4 as _ <- <-. split; [congruence|by right].
  - apply bind_ok_inv in H4 as (rd & u5 & J5 & H4). apply quiet_clock in J5; [|apply st_client].
    injection H4 as _ <- <-. split; [congruence|by left].
  - apply bind_ok_inv in H4 as (rd & u5 & J5 & H4). apply quiet_clock in J5; [|apply st_client].
    injection H4 as _ <- <-. split; [congruence|by left].
Qed.

(** A turn of the loop that goes on. *)
Lemma retry_turn_spec (a : Attempt U S) s t s' t' :
  retry_turn a s t = (Ok (Some s'), t') →
  let now := clock t + took a in
  ∃ since, offline_since s' = Some since ∧ next_retry_sec s' = Z.min (next_retry_sec s * 2) RETRY_TIMEOUT_SEC ∧
    clock t' = now + next_retry_sec s * 1000000 + late a ∧
    (since = now ∨
     offline_since s = Some since ∧ as_u32 (elapsed_sec now since) + next_retry_sec s ≤ RETRY_TIMEOUT_SEC ∧
     as_u32 (elapsed_sec now since) + next_retry_sec s < u32_size).
Proof.
  unfold retry_turn. intros ([reason off] & t1 & H1 & H)%bind_ok_inv. apply attempt_clock in H1 as [Hc Hoff].
  apply bind_ok_inv in H as (now & t2 & H2 & H). injection H2 as <- <-.
  apply bind_ok_inv in H as (w & t3 & H3 & H).
  assert (t3 = t1 ∧ (w = true → match off with
      | None => True
      | Some time => as_u32 (elapsed_sec (clock t1) time) + next_retry_sec s ≤ RETRY_TIMEOUT_SEC ∧
                     as_u32 (elapsed_sec (clock t1) time) + next_retry_sec s < u32_size end)) as [-> Hw].
  { destruct off as [time|]; [|by injection H3 as <- <-]. unfold will_retry_after, u32_add, mbind, M_bind in H3.
    destruct (Z.ltb_spec (as_u32 (elapsed_sec (clock t1) time) + next_retry_sec s) u32_size) as [Hlt|]; [|done].
    injection H3 as <- <-. split; [done|]. intros Hle. by apply Z.leb_le in Hle. }
  assert (∀ (m : M NT StillRunning (option Retrying)), m = finish_task → m t1 ≠ (Ok (Some s'), t')) as Hfin.
  { intros m -> Hf. by apply finish_pending in Hf as [? _]. }
  assert (w = true ∧ s' = mkRetrying (Some (default (clock t1) off)) (Z.min (next_retry_sec s * 2) RETRY_TIMEOUT_SEC) ∧
    clock t' = clock t1 + (next_retry_sec s * 1000000 + late a)) as (Hwt & -> & Hct).
  { destruct reason; [by apply bind_ok_inv in H as ([] & t4 & _ & [? _]%finish_pending)|..];
      apply bind_ok_inv in H as ([] & t4 & J1 & H); injection J1 as <-;
      (destruct w; cbn [negb] in H; [|by apply finish_pending in H as [? _]]);
      first [by apply finish_pending in H as [? _] |
             apply bind_ok_inv in H as ([] & t5 & J2 & H); injection J2 as <-; by injection H as <- <-]. }
  exists (default (clock t1) off). split; [done|]. split; [done|]. split; [rewrite Hct, Hc; lia|].
  rewrite <-Hc. destruct off as [time|]; [|by left]. right. destruct Hoff as [<-|]; [|done].
  by destruct (Hw Hwt).
Qed.

(** The states of a run in front of an attempt; delays are at most [L] late. *)
Inductive reach (L : Z) : NT → Retrying → Prop :=
| reach_start t : reach L t (network_start (clock t))
| reach_turn t s a t' s' :
    reach L t s → 0 ≤ took a < 1000000 * 2 ^ 31 → 0 ≤ late a ≤ L →
    retry_turn a s t = (Ok (Some s'), t') → reach L t' s'.

Lemma elapsed_bound now since n :
  since ≤ now → elapsed_sec now since ≤ n → now - since < (n + 1) * 1000000.
Proof.
  unfold elapsed_sec. intros H1 H2. rewrite Z.max_r in H2 by lia.
  pose proof (Z.div_mod (now - since) 1000000 ltac:(done)). pose proof (Z.mod_pos_bound (now - since) 1000000 ltac:(done)). lia.
Qed.

(** C18: the task does not stay without a connection for long.  In front of every
    attempt to connect less than 301 seconds have passed since the connection was
    lost (or the task was started), plus what the delay was late; so when an attempt
    takes at most the eleven minutes of its time-out, the task is connected again or
    has given up within 961 seconds.  The back-off stays between 3 and 300 seconds. *)
Theorem offline_time_bounded L t s :
  0 ≤ L < 1000000 * 2 ^ 30 → reach L t s →
  ∃ since, offline_since s = Some since ∧ since ≤ clock t < since + (RETRY_TIMEOUT_SEC + 1) * 1000000 + L ∧
    MIN_RETRY_DELAY_SEC ≤ next_retry_sec s ≤ RETRY_TIMEOUT_SEC ∧
    ∀ a r t', attempt_connection a (offline_since s) t = (Ok r, t') → 0 ≤ took a ≤ NETWORK_CONNECTING_TIMEOUT_SEC * 1000000 →
      clock t' < since + NETWORK_DISCONNECTED_TIMEOUT_MS * 1000 + 1000000 + L.
Proof.
  intros HL Hr. unfold RETRY_TIMEOUT_SEC, MIN_RETRY_DELAY_SEC, NETWORK_CONNECTING_TIMEOUT_SEC, NETWORK_DISCONNECTED_TIMEOUT_MS.
  assert (∃ since, offline_since s = Some since ∧ since ≤ clock t < since + 301 * 1000000 + L ∧ 3 ≤ next_retry_sec s ≤ 300)
    as (since & H1 & H2 & H3).
  { induction Hr as [t|t s a t' s' Hr IH Ht Hl Hturn].
    - exists (clock t). cbn. unfold MIN_RETRY_DELAY_SEC. split; [done|lia].
    - destruct IH as (since & H1 & H2 & H3).
      apply retry_turn_spec in Hturn as (since' & J1 & J2 & J3 & J4). exists since'. split; [done|].
      unfold RETRY_TIMEOUT_SEC in *. split; [|lia]. destruct J4 as [->|(J4 & J5 & J6)]; [lia|].
      rewrite H1 in J4. injection J4 as <-.
      assert (0 ≤ elapsed_sec (clock t + took a) since < u32_size) as He.
      { unfold elapsed_sec. split; [apply Z.div_pos; lia|]. apply Z.div_lt_upper_bound; [lia|]. unfold u32_size. lia. }
      rewrite as_u32_small in J5 by done.
      pose proof (elapsed_bound (clock t + took a) since (300 - next_retry_sec s) ltac:(lia) ltac:(lia)). lia. }
  exists since. split; [done|]. split; [lia|]. split; [lia|].
  intros a [reason off] t' [Hc _]%attempt_clock Ht. unfold RETRY_TIMEOUT_SEC, NETWORK_CONNECTING_TIMEOUT_SEC. lia.
Qed.

(** ** Giving up *)

Section failing.
Context (Hconnect : ∀ c : C, ∃ e c', nc_connect c = (Err e, c')).
Context (Hdisconnect : ∀ c : C, (nc_disconnect c).1 ≠ Panic).
Context (L : Z) (HL : 0 ≤ L < 1000000 * 2 ^ 30).

Definition failing (a : Attempt U S) : Prop :=
  0 ≤ took a ≤ NETWORK_CONNECTING_TIMEOUT_SEC * 1000000 ∧ 0 ≤ late a ≤ L.

Lemma failing_attempt (a : Attempt U S) o t :
  ∃ reason t', attempt_connection a o t = (Ok (reason, o), t') ∧ (reason = NotConnected ∨ reason = Fatal).
Proof.
  unfold attempt_connection, mbind, M_bind, gets, modify, on_client, attempt, zoom. cbn.
  destruct (Hconnect (nt_client t)) as (e & c' & He). rewrite He.
  destruct (timed_out a); cbn; pose proof (Hdisconnect c') as Hd;
    destruct (nc_disconnect c') as [[]]; try done; by (eexists _, _; split; [reflexivity|auto]).
Qed.

Lemma failing_turn (a : Attempt U S) s t since lo :
  failing a → offline_since s = Some since → 3 ≤ next_retry_sec s ≤ 300 →
  0 ≤ lo → lo * 1000000 ≤ clock t - since ≤ 301 * 1000000 + L →
  ∃ t', retry_turn a s t = (Ok None, t') ∨
    (lo + next_retry_sec s ≤ 300 ∧
     retry_turn a s t = (Ok (Some (mkRetrying (Some since) (Z.min (next_retry_sec s * 2) 300))), t') ∧
     (lo + next_retry_sec s) * 1000000 ≤ clock t' - since ≤ 301 * 1000000 + L).
Proof.
  intros [Ht Hl] Ho Hn Hlo Hc. unfold NETWORK_CONNECTING_TIMEOUT_SEC in Ht.
  destruct (failing_attempt a (offline_since s) t) as (reason & t1 & Hat & Hr).
  pose proof (attempt_clock _ _ _ _ _ _ Hat) as [Hc1 _]. unfold retry_turn. rewrite Ho in *.
  rewrite (bind_run _ _ _ _ _ Hat). rewrite (bind_run _ _ t1 (clock t1) t1) by done.
  assert (0 ≤ elapsed_sec (clock t1) since < 2 ^ 31) as He.
  { unfold elapsed_sec. split; [apply Z.div_pos; lia|]. apply Z.div_lt_upper_bound; lia. }
  assert (lo ≤ elapsed_sec (clock t1) since) as Hge.
  { unfold elapsed_sec. apply Z.div_le_lower_bound; lia. }
  set (w := elapsed_sec (clock t1) since + next_retry_sec s <=? RETRY_TIMEOUT_SEC).
  rewrite (bind_run _ _ t1 w t1).
  2: { unfold will_retry_after, mbind, M_bind, u32_add. rewrite as_u32_small by (unfold is_u32, u32_size; lia).
       by rewrite (proj2 (Z.ltb_lt _ _)) by (unfold u32_size; lia). }
  destruct Hr as [-> | ->]; [|eexists; by left].
  unfold w. destruct (Z.leb_spec (elapsed_sec (clock t1) since + next_retry_sec s) RETRY_TIMEOUT_SEC) as [Hle|Hgt]; [|eexists; by left].
  unfold RETRY_TIMEOUT_SEC in *.
  pose proof (elapsed_bound (clock t1) since (300 - next_retry_sec s) ltac:(lia) ltac:(lia)) as Hb.
  eexists. right. split; [lia|]. split; [reflexivity|]. cbn. lia.
Qed.

(** [k] failing attempts are enough, from a back-off of [n] with at least [lo] seconds gone. *)
Definition enough (k : nat) (n lo : Z) : Prop :=
  ∀ (l : list (Attempt U S)) t since, (k ≤ length l)%nat → Forall failing l →
    lo * 1000000 ≤ clock t - since ≤ 301 * 1000000 + L →
    ∃ t', retry_loop l (mkRetrying (Some since) n) t = (Ok tt, t').

Lemma enough_step k n lo :
  3 ≤ n ≤ 300 → 0 ≤ lo → lo + n ≤ 300 → enough k (Z.min (n * 2) 300) (lo + n) → enough (1 + k) n lo.
Proof.
  intros Hn Hlo Hle Hk l t since Hlen Hl Hc. destruct l as [|a l]; [cbn in Hlen; lia|].
  apply list.Forall_cons in Hl as [Ha Hl]. cbn [retry_loop].
  destruct (failing_turn a (mkRetrying (Some since) n) t since lo Ha eq_refl Hn Hlo Hc) as (t' & [H|(_ & H & Hc')]);
    rewrite (bind_run _ _ _ _ _ H); [by eexists|]. apply Hk; [cbn in Hlen; lia|done|done].
Qed.

Lemma enough_last n lo : 3 ≤ n ≤ 300 → 0 ≤ lo → 300 < lo + n → enough 1 n lo.
Proof.
  intros Hn Hlo Hle l t since Hlen Hl Hc. destruct l as [|a l]; [cbn in Hlen; lia|].
  apply list.Forall_cons in Hl as [Ha Hl]. cbn [retry_loop].
  destruct (failing_turn a (mkRetrying (Some since) n) t since lo Ha eq_refl Hn Hlo Hc) as (t' & [H|(Hno & _)]);
    [rewrite (bind_run _ _ _ _ _ H); by eexists|cbn in Hno; lia].
Qed.

(** The task gives up.  When no connection can be made, the task returns after
    at most seven attempts, however long each of them takes. *)
Theorem gives_up_after_seven (l : list (Attempt U S)) t :
  (7 ≤ length l)%nat → Forall failing l → ∃ t', network_task l t = (Ok tt, t').
Proof using Hconnect Hdisconnect HL.
  intros Hlen Hl. assert (enough 7 3 0) as H.
  { do 6 (apply enough_step; [lia|lia|lia|]). apply enough_last; lia. }
  by apply (H l (set_upload None (set_timeout DEFAULT_TIMEOUT_S t)) (clock t)); [| |cbn; lia].
Qed.
End failing.

(** ** An upload that cannot be serialized *)

(** A serialization error does not end the connection, and does not take the upload
    away: while no action arrives the task only sends it again. *)
Lemma retried_upload_blocks dp (es : list (Env U S)) t c e :
  e = Network.Serialize ∨ e = SerializeTopic →
  pending_upload t = Some c →
  (∀ cl : C, ∃ cl', nc_upload (inner c) cl = (Err e, cl')) →
  Forall (λ e, try_next_action e = None) es →
  ∃ t', conn_loop dp es t = (Err still_running, t') ∧ pending_upload t' = Some c ∧
    outs t' = outs t ++ replicate (length es) (OSent c (Some e)).
Proof.
  intros Hkind Hp Hup Hes. revert t Hp. induction Hes as [|env es He _ IH]; intros t Hp; cbn [conn_loop].
  { exists t. cbn. by rewrite app_nil_r. }
  destruct (Hup (nt_client t)) as (cl' & Hcl).
  set (t1 := emit [OSent c (Some e)] (set_client cl' t)).
  rewrite (bind_run _ _ t (inr dp) t1).
  2: { unfold conn_turn, next_op, perform_op, perform, on_client, attempt, zoom, mbind, M_bind, gets, modify.
       rewrite Hp, He. cbn. rewrite Hp, Hcl. by destruct Hkind as [-> | ->]. }
  destruct (IH t1 Hp) as (t' & H1 & H2 & H3). exists t'. split; [done|]. split; [done|].
  rewrite H3. cbn. by rewrite <-app_assoc.
Qed.
End retry.

(** ** Runs of the network task

    A client that fails the first send of every second upload and one that never
    connects; the witnesses of [NetworkProps] and [NetworkProps]; and two runs that
    show what the retry loop does not do. *)

Module DemoNetwork.
(** The client counts its sends; [reachable] is whether it can connect. *)
Definition demo_client (reachable : bool) : NetworkClient Z Z Z Z Z := {|
  nc_connect := if reachable then mret tt else fail TimeOut;
  nc_disconnect := mret tt;
  nc_download_firmware_update := mret Failed;
  nc_upload u := n ← gets id; modify (Z.add 1);; if u =? 0 then fail Network.Serialize else if n =? 1 then fail TimeOut else mret tt;
  nc_handle_read := mret ([7], Continue);
  nc_send_device_info := mret tt;
  nc_send_status s := mret s;
  nc_cell_info := mret (Some 5);
  confirmation_token := id
|}.

Definition upload (n : Z) : Confirmable Z := mkConfirmable n (Some (KEvent, handle_new n)).
Definition msg (c : Confirmable Z) : Env Z Z := mkEnv None None (SelMsg (Some c)).
Definition idle : Env Z Z := mkEnv None None (SelRead true).
Definition stop : Env Z Z := mkEnv None None (SelRead false).
Definition task_0 : NetTask Z Z Z Z := mkNetTask 0 0 None 0 [].

(** Two connections: the second upload fails, is sent again after a retry, and then
    the connection is closed. *)
Definition two_connections : list (Attempt Z Z) :=
  [mkAttempt false [msg (upload 1); idle; msg (upload 2)] 5000000 0;
   mkAttempt false [idle; stop] 1000000 0].

Definition good_end : NetTask Z Z Z Z :=
  Eval vm_compute in (@network_task _ _ _ _ _ (demo_client true) two_connections task_0).2.

Lemma good_run : @network_task _ _ _ _ _ (demo_client true) two_connections task_0 = (Ok tt, good_end).
Proof. vm_compute. reflexivity. Qed.

Example good_run_outs :
  outs good_end =
    [OAttempt 0; OSignal (Network Connected); OSignal (SCellInfo 5);
     OReceived (upload 1); OSent (upload 1) None; OConfirmed (upload 1); OSignal (FromClient 7);
     OReceived (upload 2); OSent (upload 2) (Some TimeOut); OSignal (Network (Disconnected (Retry 3)));
     OAttempt 8000000; OSignal (Network Connected); OSignal (SCellInfo 5);
     OSent (upload 2) None; OConfirmed (upload 2); OSignal (Network (Disconnected Final))].
Proof. reflexivity. Qed.

Lemma uploads_in_order_witness : received (outs good_end) = settled_uploads (outs good_end).
Proof.
  rewrite <-(app_nil_r (settled_uploads (outs good_end))).
  destruct (@uploads_in_order _ _ _ _ _ (demo_client true) two_connections task_0 (Ok tt) good_end eq_refl good_run)
    as (_ & H & _).
  exact H.
Defined.

(** A task that never connects. *)
Definition no_connection (took : Z) : Attempt Z Z := mkAttempt false [] took 0.
Definition seven : list (Attempt Z Z) := replicate 7 (no_connection 1000000).

Lemma gives_up_after_seven_witness :
  ∃ t', @network_task _ _ _ _ _ (demo_client false) seven task_0 = (Ok tt, t').
Proof.
  apply (@gives_up_after_seven _ _ _ _ _ (demo_client false)
    (λ c, ex_intro _ TimeOut (ex_intro _ c eq_refl)) (λ c H, eq_ind (Ok tt) (λ e, if e is Ok _ then True else False) I Panic H)
    0 ltac:(lia)); [vm_compute; lia|].
  repeat constructor; vm_compute; intuition congruence.
Defined.

(** The state behind the first failure. *)
Definition after_first := (@retry_turn _ _ _ _ _ (demo_client false) (no_connection 1000000) (network_start 0) task_0).
Lemma offline_time_bounded_witness :
  ∃ since, offline_since (mkRetrying (Some 0) 6) = Some since ∧
    since ≤ clock after_first.2 < since + (RETRY_TIMEOUT_SEC + 1) * 1000000 + 0.
Proof.
  destruct (@offline_time_bounded _ _ _ _ _ (demo_client false) 0 after_first.2 (mkRetrying (Some 0) 6) ltac:(lia)
    (@reach_turn _ _ _ _ _ (demo_client false) 0 task_0 (network_start 0) (no_connection 1000000) _ _
       (@reach_start _ _ _ _ _ (demo_client false) 0 task_0)
       ltac:(by split; vm_compute) ltac:(by split; vm_compute) eq_refl)) as (since & H1 & H2 & _).
  exists since. split; [exact H1|exact H2].
Defined.

(** The time without a connection exceeds [NETWORK_DISCONNECTED_TIMEOUT_MS]: elapsed
    time is rounded down to seconds, so the sixth attempt starts after 300.9 seconds,
    and may take eleven minutes. *)
Lemma offline_longer_than_documented :
  let l := no_connection 111900000 :: replicate 4 (no_connection 0) ++ [no_connection 0; no_connection 660000000] in
  let run := @network_task _ _ _ _ _ (demo_client false) l task_0 in
  run.1 = Ok tt ∧ OAttempt 300900000 ∈ outs run.2 ∧ NETWORK_DISCONNECTED_TIMEOUT_MS * 1000 < clock run.2.
Proof. vm_compute. split; [done|]. split; [|done]. by repeat constructor. Qed.

(** The back-off is not reset by a connection that works: after eight connections of
    an hour each that were lost, the next attempt waits for 300 seconds. *)
Lemma backoff_survives_connections :
  let sending := mkEnv None None (SelMsg (Some (upload 1))) : Env Z Z in
  let lost := mkAttempt false [sending] 3600000000 0 in
  let lossy := {| nc_connect := mret tt; nc_disconnect := mret tt; nc_download_firmware_update := mret Failed;
    nc_upload _ := fail TimeOut; nc_handle_read := mret ([], Continue); nc_send_device_info := mret tt;
    nc_send_status s := mret s; nc_cell_info := mret None; confirmation_token := id |} : NetworkClient Z Z Z Z Z in
  let run := @network_task _ _ _ _ _ lossy (replicate 8 lost) task_0 in
  omap (λ o, if o is OSignal (Network s) then Some s else None) (outs run.2) =
    mjoin ((λ s, [Connected; Disconnected (Retry s)]) <$> [3; 6; 12; 24; 48; 96; 192; 300]).
Proof. vm_compute. reflexivity. Qed.
End DemoNetwork.
