(* ===== verification/Client.v ===== *)
(** * The protocol client

    [logic/client.rs]: the client that speaks the protocol over an MQTT driver
    (trait [MqttClient] of [mqtt.rs]), with the types of its events and signals.  It
    is the [NetworkClient] of the network task.  JSON and base64 are third-party:
    classes [ToJson], [FromJson] and [Base64].  Time is read through
    [timestamp_or_default_us], a function of the driver's state, which stands for the
    moment of the call. *)

From stdpp Require Import base list list_numbers numbers option strings.
From S2P Require Import Prelude Samples Serialize MetaConfig Topics TimeAdjust DispatchStore Dispatch Network.
#[local] Open Scope Z_scope.

Definition FW_CHUNK_SIZE : Z := 300.
Definition B64_ENCODED_CHUNK_SIZE : Z := (FW_CHUNK_SIZE + 3 - 1) / 3 * 4.
Definition MAX_ONLINE_PAYLOAD_LEN : Z := 34.
Definition VERSION_STRING_MAX_LEN : Z := 16.

(** ** Payloads *)

Record Online : Type := mkOnline { since : option Z; canary : option Z }.
Definition online_no : Online := mkOnline None (Some 1).
Definition online_yes (t : Z) : Online := mkOnline (Some t) None.
Definition online_will : Online := mkOnline None None.
Definition ungraceful_offline (o : Online) : bool :=
  bool_decide (since o = None) && bool_decide (canary o = None).

Inductive FWStatus : Type := FwStart | FwFailed | FwReceived | FwComplete.
Record FWChunk : Type := mkFWChunk { sequence_no : Z; chunk_bytes : list Z }.
Record FWAnnounce : Type := mkFWAnnounce { url : string; timestamp : option Z }.
Inductive Cmd : Type := CmdStart | CmdStop | Blink | Reboot.
Record CommandPayload : Type := mkCommandPayload { cmd : Cmd }.
Record TimePayload : Type := mkTimePayload { time : Z }.
Inductive ServerStatus : Type := SsOk | SsOffline | SsMaintenance.

(** [DeviceInfoV3] *)
Record DeviceInfo (DT : Type) : Type := mkDeviceInfo {
  device_type : DT;
  fw_version : string;
  fw_rev : string;
  bootloader_version : string;
  hw_rev : string;
  modem_model : string;
  modem_fw_version : string;
  sim_iccid : option string
}.
Arguments mkDeviceInfo {DT}.

(** [serde_json_core::to_slice] into a buffer of the given size, and [from_slice]. *)
Class ToJson (T : Type) : Type := to_json : Z → T → option (list Z).
Class FromJson (T : Type) : Type := from_json : list Z → option T.

Definition serialize_topic_payload {T} `{!ToJson T} (n : Z) (t : T) : option (list Z) := to_json n t.
Definition parse_json_payload {T} `{!FromJson T} (bytes : list Z) : option T :=
  if len bytes <=? 1 then None else from_json bytes.

(** [decode_slice] of the URL-safe engine: how much it wrote, and the buffer. *)
Class Base64 : Type := decode_slice : list Z → list Z → option (Z * list Z).
Definition decode_base64 `{!Base64} (input output : list Z) : option (Z * list Z) := decode_slice input output.

(** ** The driver *)

Record Message : Type := mkMessage { msg_topic : string; msg_payload : list Z }.
Inductive MqttEvent : Type := ReceivedMessage (m : Message) | EvDisconnected.
Inductive FileError : Type := FileNotFound | ReadError | EndOfFile.
Record Will : Type := mkWill { will_topic : string; will_payload : list Z }.

(** [MqttClient], as far as the client uses it. *)
Class MqttClient (D CellInfo : Type) : Type := {
  mq_connect : string → Will → M D NetError unit;
  mq_disconnect : M D NetError unit;
  mq_subscribe : string → M D NetError unit;
  mq_publish : string → list Z → M D NetError unit;
  mq_await_response : Z → M D unit unit;
  mq_handle_response : M D unit MqttEvent;
  mq_download_file : string → M D NetError unit;
  mq_read_file_chunk : Z → M D FileError (list Z);
  mq_signal_quality : M D Empty_set (option Z);
  mq_cell_info : M D Empty_set (option CellInfo);
  mq_sim_iccid : M D Empty_set (option string);
  mq_modem_model : M D Empty_set string;
  mq_modem_fw_version : M D Empty_set string;
}.

(** [DeviceMetaDataProvider] *)
Class DeviceMetaDataProvider (P DT : Type) : Type := {
  p_device_type : P → DT;
  p_bootloader_version : P → string;
  p_git_rev : string;
  p_fw_version : string;
  p_hw_rev : P → string;
}.

(** [heapless::String::try_from(s).unwrap()] *)
Definition string_try_from {S E} (n : Z) (s : string) : M S E string :=
  if str_len s <=? n then mret s else panic.

Definition device_info {P DT S E} `{!DeviceMetaDataProvider P DT} (p : P) (model fw : string) (iccid : option string) :
    M S E (DeviceInfo DT) :=
  v ← string_try_from VERSION_STRING_MAX_LEN p_fw_version;
  r ← string_try_from VERSION_STRING_MAX_LEN p_git_rev;
  b ← string_try_from VERSION_STRING_MAX_LEN (p_bootloader_version p);
  h ← string_try_from VERSION_STRING_MAX_LEN (p_hw_rev p);
  mret (mkDeviceInfo (p_device_type p) v r b h model fw iccid).

(** [NetworkStatus] *)
Class NetworkStatus (S : Type) : Type := {
  set_signal_strength : Z → S → S;
  ns_confirmation_token : S → Z;
}.

(** ** Events and signals *)

Inductive ClientEvent : Type :=
| CommandReceived (c : Cmd)
| TimestampReceived (t : Z)
| FWChunkReceived (c : FWChunk)
| FWDownloadComplete
| FWDownloadFailed
| FirmwareUpdateAnnounced
| Disconnected_event
| ServerStatus_event (s : ServerStatus).

(** The signals [Signal::try_from(ClientEvent)] makes. *)
Inductive ClientSignal : Type :=
| SCommand (c : Cmd)
| SNetworkTime (t : Timestamp) (n : NetworkTime)
| SFirmwareChunk (c : FWChunk)
| SFirmwareUpdateAnnounced
| SFirmwareUpdateComplete
| SFirmwareUpdateFailed.

(** [Err] is the [ReadOutcome]. *)
Definition signal_try_from (t_local : Z) (e : ClientEvent) : ClientSignal + ReadOutcome :=
  match e with
  | ServerStatus_event _ => inr Continue
  | CommandReceived c => inl (SCommand c)
  | TimestampReceived t_network => inl (SNetworkTime (OffsetAdjusted t_local) (mkNetworkTime t_network 2000000))
  | FWChunkReceived chunk => inl (SFirmwareChunk chunk)
  | FirmwareUpdateAnnounced => inl SFirmwareUpdateAnnounced
  | FWDownloadComplete => inl SFirmwareUpdateComplete
  | FWDownloadFailed => inl SFirmwareUpdateFailed
  | Disconnected_event => inr Disconnected_
  end.

(** ** The client *)

Inductive ClientState : Type := Normal | FirmwareUpdate.
#[export] Instance ClientState_eq_dec : EqDecision ClientState.
Proof. solve_decision. Defined.

Record Client (D : Type) : Type := mkClient {
  driver : D;
  uid : string;
  cl_state : ClientState;
  update_url : option string;
  update_seq_num : Z
}.
Arguments mkClient {D}.
Arguments driver {D}.
Arguments uid {D}.
Arguments cl_state {D}.
Arguments update_url {D}.
Arguments update_seq_num {D}.

Section client.
Context {D CellInfo S P DT U : Type} `{!MqttClient D CellInfo, !NetworkStatus S, !DeviceMetaDataProvider P DT}.
Context `{!ToJson Online, !ToJson FWStatus, !ToJson (DeviceInfo DT), !ToJson S}.
Context `{!FromJson CommandPayload, !FromJson TimePayload, !FromJson FWAnnounce, !FromJson ServerStatus}.
Context {b64 : Base64}.
Context `{!Postcard TopicFromDevice, !UploadAlloc U}.
Context (timestamp_or_default_us : D → Z) (provider : P) (timestamp_ms : Z).
Abbreviation MC := (M (Client D) NetError).

Definition set_driver (d : D) (c : Client D) : Client D :=
  mkClient d (uid c) (cl_state c) (update_url c) (update_seq_num c).
Definition set_state (s : ClientState) (c : Client D) : Client D :=
  mkClient (driver c) (uid c) s (update_url c) (update_seq_num c).
Definition set_url (u : string) (c : Client D) : Client D :=
  mkClient (driver c) (uid c) (cl_state c) (Some u) (update_seq_num c).
Definition set_seq_num (n : Z) (c : Client D) : Client D :=
  mkClient (driver c) (uid c) (cl_state c) (update_url c) n.
Definition on_driver {E A} (m : M D E A) : M (Client D) E A := zoom driver set_driver m.

Definition client_new (d : D) (uid : string) : Client D := mkClient d uid Normal None 0.
Definition is_firmware_update (c : Client D) : bool := bool_decide (cl_state c = FirmwareUpdate).

(** The result of building a topic, with [?]. *)
Definition topic_name (r : outcome TopicSerializeError string) : MC string := λ c,
  match r with Ok t => (Ok t, c) | Err _ => (Err SerializeTopic, c) | Panic => (Panic, c) end.
Definition topic_name_sub (t : TopicToDevice) : MC string :=
  u ← gets uid;
  topic_name (to_to_topic_string t u).
Definition topic_name_pub (t : TopicFromDevice) : MC string :=
  u ← gets uid;
  topic_name (from_to_topic_string t u).

(** A payload on a topic; the topic is built after the payload. *)
Definition publish_on (t : TopicFromDevice) (payload : option (list Z)) : MC unit :=
  match payload with
  | None => fail Network.Serialize
  | Some s =>
      topic ← topic_name_pub t;
      on_driver (mq_publish topic s)
  end.

Definition send_online (t : Z) : MC unit :=
  publish_on Topics.Online (serialize_topic_payload MAX_ONLINE_PAYLOAD_LEN (online_yes t)).
Definition send_offline : MC unit :=
  publish_on Topics.Online (serialize_topic_payload MAX_ONLINE_PAYLOAD_LEN online_no).
Definition send_info (info : DeviceInfo DT) : MC unit :=
  publish_on Topics.DeviceInfoV3 (serialize_topic_payload MAX_MESSAGE_LEN info).
Definition send_firmware_update_status (s : FWStatus) : MC unit :=
  publish_on Topics.FWStatus (serialize_topic_payload MAX_MESSAGE_LEN s).

Definition send_sendable (s : SerializedSendable) : MC unit :=
  t ← Serialize.topic s;
  match t with
  | None => fail Network.SerializeTopic
  | Some t =>
      topic ← topic_name_pub t;
      payload ← payload_bytes s;
      on_driver (mq_publish topic payload)
  end.

Definition subscribe_server_status : MC unit :=
  if str_len (as_str Topics.ServerStatus) <=? MAX_TOPIC_LEN then on_driver (mq_subscribe (as_str Topics.ServerStatus))
  else fail Network.SerializeTopic.
Definition subscribe_topic (t : TopicToDevice) : MC unit :=
  topic ← topic_name_sub t;
  on_driver (mq_subscribe topic).
Definition subscribe_commands : MC unit := subscribe_topic Topics.Command.
Definition subscribe_time : MC unit := subscribe_topic Topics.Time.
Definition subscribe_firmware_updates : MC unit := subscribe_topic Topics.FWUpdateAnnounce.

Definition client_connect : MC unit :=
  let payload := default [] (serialize_topic_payload MAX_ONLINE_PAYLOAD_LEN online_will) in
  topic ← topic_name_pub Topics.Online;
  u ← gets uid;
  on_driver (mq_connect u (mkWill topic (if utf8_valid payload then payload else [])));;
  attempt (E' := NetError) subscribe_server_status;;
  subscribe_commands;;
  subscribe_time;;
  subscribe_firmware_updates;;
  send_online timestamp_ms.

Definition client_disconnect : MC unit :=
  attempt (E' := NetError) send_offline;;
  on_driver mq_disconnect.

Definition client_download_firmware_update : MC FirmwareDownloadStart :=
  attempt (E' := NetError) (send_firmware_update_status FwStart);;
  u ← gets update_url;
  match u with
  | Some u =>
      r ← attempt (on_driver (mq_download_file u));
      match r with
      | inl _ => modify (set_seq_num 0);; modify (set_state FirmwareUpdate);; mret Started
      | inr _ =>
          r ← attempt (send_firmware_update_status FwFailed);
          match r with inl _ => mret Failed | inr err => fail err end
      end
  | None => mret Failed
  end.

(** [Some] when there is a response; in the middle of an update there always is. *)
Definition await_response (timeout : Z) : M (Client D) Empty_set bool :=
  s ← gets cl_state;
  match s with
  | Normal => r ← attempt (on_driver (mq_await_response timeout)); mret (if r is inl _ then true else false)
  | FirmwareUpdate => mret true
  end.

Abbreviation ME := (M (Client D) Empty_set).

Definition fail_firmware_download : ME ClientEvent :=
  modify (set_state Normal);;
  attempt (send_firmware_update_status FwFailed);;
  mret FWDownloadFailed.

(** [self.update_seq_num += 1] *)
Definition u16_add {St E} (a b : Z) : M St E Z := if a + b <? 65536 then mret (a + b) else panic.

Definition handle_update_state : ME (option ClientEvent) :=
  r ← attempt (on_driver (mq_read_file_chunk B64_ENCODED_CHUNK_SIZE));
  match r with
  | inl chunk =>
      match decode_base64 chunk (replicate (Z.to_nat FW_CHUNK_SIZE) 0) with
      | Some (_, bytes) =>
          sequence_no ← gets update_seq_num;
          n ← u16_add sequence_no 1;
          modify (set_seq_num n);;
          mret (Some (FWChunkReceived (mkFWChunk sequence_no bytes)))
      | None => e ← fail_firmware_download; mret (Some e)
      end
  | inr ReadError => e ← fail_firmware_download; mret (Some e)
  | inr EndOfFile =>
      modify (set_state Normal);;
      attempt (send_firmware_update_status FwComplete);;
      mret (Some FWDownloadComplete)
  | inr FileNotFound => e ← fail_firmware_download; mret (Some e)
  end.

Definition handle_common_topic (topic : TopicToDevice) (payload : list Z) : ME (option ClientEvent) :=
  match topic with
  | Topics.Command => mret (CommandReceived ∘ cmd <$> parse_json_payload payload)
  | Topics.Time => mret (TimestampReceived ∘ time <$> parse_json_payload payload)
  | FWUpdateAnnounce =>
      match parse_json_payload payload with
      | Some announcement => modify (set_url (url announcement));; mret (Some FirmwareUpdateAnnounced)
      | None => mret None
      end
  end.

Definition handle_message (m : Message) : ME (option ClientEvent) :=
  let status : option ServerStatus := match parse_system_topic (msg_topic m) with
    | Some Topics.ServerStatus => from_json (msg_payload m)
    | _ => None
    end in
  match status with
  | Some status => mret (Some (ServerStatus_event status))
  | None =>
      match parse_topic_to_device (msg_topic m) with
      | Ok topic_parts => handle_common_topic (Topics.topic topic_parts) (msg_payload m)
      | _ => mret None
      end
  end.

Definition handle_normal_state : ME (option ClientEvent) :=
  r ← attempt (on_driver mq_handle_response);
  match r with
  | inl (ReceivedMessage m) => handle_message m
  | inl EvDisconnected => mret (Some Disconnected_event)
  | inr _ => mret (Some Disconnected_event)
  end.

Definition handle_response : ME (option ClientEvent) :=
  s ← gets cl_state;
  match s with
  | Normal => handle_normal_state
  | FirmwareUpdate => handle_update_state
  end.

(** ** [impl NetworkClient for Client] *)

(** The signals sent, and the outcome. *)
Definition handle_read : ME (list ClientSignal * ReadOutcome) :=
  e ← handle_response;
  match e with
  | None => mret ([], Continue)
  | Some event =>
      t_local ← gets (timestamp_or_default_us ∘ driver);
      match signal_try_from t_local event with
      | inl signal => mret ([signal], Continue)
      | inr outcome => mret ([], outcome)
      end
  end.

Definition never {A} (e : Empty_set) : A := match e with end.

Definition send_device_info : MC unit :=
  model ← map_err never (on_driver mq_modem_model);
  fw ← map_err never (on_driver mq_modem_fw_version);
  iccid ← map_err never (on_driver mq_sim_iccid);
  info ← device_info provider model fw iccid;
  send_info info.

Definition send_status (status : S) : MC S :=
  q ← map_err never (on_driver mq_signal_quality);
  let status := set_signal_strength (default 0 q) status in
  topic ← topic_name_pub Topics.Status;
  match serialize_topic_payload MAX_MESSAGE_LEN status with
  | None => fail Network.Serialize
  | Some s => on_driver (mq_publish topic s);; mret status
  end.

(** An upload is sent as its [sendable]. *)
#[export] Instance client_network : NetworkClient (Client D) U S ClientSignal CellInfo := {|
  nc_connect := client_connect;
  nc_disconnect := client_disconnect;
  nc_download_firmware_update := client_download_firmware_update;
  nc_upload u := send_sendable (sendable u);
  nc_handle_read := handle_read;
  nc_send_device_info := send_device_info;
  nc_send_status := send_status;
  nc_cell_info := on_driver mq_cell_info;
  confirmation_token := ns_confirmation_token
|}.
End client.
