(* ===== verification/ClientProps.v ===== *)
(** * The protocol client: downloads, uploads and what blocks them

    A downloaded image reaches the application as it is on the server; an upload
    that the network task confirms has been published with its topic and payload;
    and an upload whose topic does not decode blocks the connection. *)

From stdpp Require Import base list list_numbers numbers option strings relations.
From S2P Require Import Prelude Samples Serialize MetaConfig Topics TimeAdjust Queue DispatchStore.
From S2P Require Import Dispatch Network NetworkProps Client.
#[local] Open Scope Z_scope.

(** ** What the third parties promise *)

(** Base64: [encode] is the inverse of [decode_slice], which writes what it decodes at
    the start of the buffer; three bytes make four characters. *)
Class Base64Laws `{!Base64} : Type := {
  encode : list Z → list Z;
  encode_length l : len (encode l) = (len l + 2) / 3 * 4;
  encode_app l k : len l mod 3 = 0 → encode (l ++ k) = encode l ++ encode k;
  decode_encode l buf : Forall is_u8 l → len l ≤ len buf →
    decode_slice (encode l) buf = Some (len l, l ++ drop (length l) buf)
}.

(** The download of the driver: [download_file] stores the file of the server, and
    [read_file_chunk] hands it out in pieces of the given size, until it fails; it reports
    the end only after all of it.  Publishing does not disturb it.  [file_left] is what is
    still to be read, and while a driver [works] no read fails. *)
Class DownloadLaws (D CellInfo : Type) `{!MqttClient D CellInfo} (server_file : string → list Z) : Type := {
  file_left : D → list Z;
  works : D → Prop;
  download_law u d d' : mq_download_file u d = (Ok tt, d') → file_left d' = server_file u;
  read_law n d : 0 < n → ∃ r d', mq_read_file_chunk n d = (r, d') ∧
    match r with
    | Ok data => file_left d ≠ [] ∧ data = take (Z.to_nat n) (file_left d) ∧
        file_left d' = drop (Z.to_nat n) (file_left d) ∧ (works d → works d')
    | Err EndOfFile => file_left d = []
    | Err _ => ¬ works d
    | Panic => False
    end;
  publish_law t p d : ∃ r d', mq_publish t p d = (r, d') ∧ r ≠ Panic
}.

Lemma chunks_nil {A} n : chunks n (@nil A) = [].
Proof. done. Qed.

Lemma chunks_step {A} n (l : list A) : 0 < n → l ≠ [] → chunks n l = take (Z.to_nat n) l :: chunks n (drop (Z.to_nat n) l).
Proof.
  intros Hn Hl. unfold chunks. assert (∀ f g (k : list A), (length k ≤ f)%nat → (length k ≤ g)%nat →
    chunks_fuel f (Z.to_nat n) k = chunks_fuel g (Z.to_nat n) k) as H.
  { induction f as [|f IH]; intros g k Hf Hg; destruct k as [|x k]; [by destruct g|cbn in Hf; lia|by destruct g|].
    destruct g as [|g]; [cbn in Hg; lia|]. cbn [chunks_fuel]. f_equal.
    apply IH; rewrite length_drop; cbn [length] in *; lia. }
  destruct l as [|x l]; [done|]. cbn [length chunks_fuel]. f_equal. apply H; rewrite ?length_drop; cbn [length]; lia.
Qed.

Section client.
Context {D CellInfo S P DT U : Type} `{!MqttClient D CellInfo, !NetworkStatus S, !DeviceMetaDataProvider P DT}.
Context `{!ToJson Client.Online, !ToJson Client.FWStatus, !ToJson (DeviceInfo DT), !ToJson S}.
Context `{!FromJson CommandPayload, !FromJson TimePayload, !FromJson FWAnnounce, !FromJson Client.ServerStatus}.
Context {b64 : Base64}.
Context `{!Postcard TopicFromDevice, !UploadAlloc U}.
Context (timestamp_or_default_us : D → Z) (provider : P) (timestamp_ms : Z).
Abbreviation CL := (Client D).
Implicit Types c : CL.

(** ** Downloads *)

(** The signals of [n] calls of [handle_read]. *)
Fixpoint reads (n : nat) : M CL Empty_set (list ClientSignal) :=
  match n with
  | O => mret []
  | Datatypes.S n =>
      r ← handle_read timestamp_or_default_us;
      rest ← reads n;
      mret (r.1 ++ rest)
  end.

Lemma write_pieces_total l out : (write_pieces l out).1 ≠ Panic.
Proof.
  revert out. induction l as [|x l IH]; intros out; cbn [write_pieces]; [done|].
  unfold mbind, M_bind, push_str. destruct (str_len out + str_len x <=? MAX_TOPIC_LEN); [apply IH|done].
Qed.

Lemma build_topic_total p u t : build_topic_string p u t ≠ Panic.
Proof.
  unfold build_topic_string, validate_prefix, validate_uid, map_err, mbind, M_bind.
  destruct (str_len p <=? MAX_TOPIC_PREFIX_LEN); [|done]. cbn [mret M_ret].
  destruct (str_len u <=? MAX_UID_LEN); [|done]. cbn [mret M_ret].
  pose proof (write_pieces_total [p; "/"%string; u; "/"%string; t] "") as Ht.
  by destruct (write_pieces _ _) as [[]].
Qed.

Lemma topic_name_pub_run t c : ∃ r, topic_name_pub t c = (r, c) ∧ r ≠ Panic.
Proof.
  unfold topic_name_pub, mbind, M_bind, gets, topic_name. pose proof (build_topic_total "f" (uid c) (from_topic_name t)) as Ht.
  unfold from_to_topic_string, from_to_topic_string_with_prefix.
  destruct (build_topic_string _ _ _); [by eexists|by eexists|done].
Qed.

Section download.
Context {server_file : string → list Z} `{!DownloadLaws D CellInfo server_file} {b64_laws : Base64Laws}.

Lemma publish_on_run t payload c : ∃ r c', publish_on t payload c = (r, c') ∧ r ≠ Panic ∧ cl_state c' = cl_state c.
Proof.
  unfold publish_on. destruct payload as [s|]; [|by eexists _, _].
  destruct (topic_name_pub_run t c) as ([topic|e|] & Hx & Hp); [| |done].
  - rewrite (bind_run _ _ _ _ _ Hx). unfold on_driver, zoom.
    destruct (publish_law topic s (driver c)) as (r & d' & Hr & Hn). rewrite Hr. by eexists _, _.
  - unfold mbind, M_bind. rewrite Hx. by eexists _, _.
Qed.

(** The best-effort status message. *)
Lemma attempt_publish_run {E} t payload c : ∃ r c',
  attempt (E' := E) (publish_on t payload) c = (Ok r, c') ∧ cl_state c' = cl_state c.
Proof.
  destruct (publish_on_run t payload c) as (r & c' & Hx & Hp & Hs).
  destruct r as [[]|e|]; [exists (inl tt)|exists (inr e)|done]; exists c'; split; try done;
    [by apply attempt_ok_run|by apply attempt_err_run].
Qed.

(** What the application gets for a piece of the image. *)
Definition padded (b : list Z) : list Z := b ++ replicate (Z.to_nat (FW_CHUNK_SIZE - len b)) 0.
Definition chunk_signals (s : Z) (l : list Z) : list ClientSignal :=
  zip_with (λ i b, SFirmwareChunk (mkFWChunk i (padded b))) (seqZ s (len (chunks FW_CHUNK_SIZE l))) (chunks FW_CHUNK_SIZE l).

Lemma encode_nil : encode [] = [].
Proof.
  pose proof (encode_length []) as E0. destruct (encode []) as [|x k]; [done|].
  rewrite len_cons in E0. pose proof (len_nonneg k). change ((len (@nil Z) + 2) / 3 * 4) with 0 in E0. lia.
Qed.

Lemma encode_nonempty l : l ≠ [] → encode l ≠ [].
Proof.
  intros Hl E0. pose proof (encode_length l) as El. rewrite E0 in El. change (len (@nil Z)) with 0 in El.
  destruct l as [|x l]; [done|]. rewrite len_cons in El. pose proof (len_nonneg l).
  pose proof (Z.div_le_mono 3 (1 + len l + 2) 3 ltac:(lia) ltac:(lia)) as Hd. change (3 / 3) with 1 in Hd. lia.
Qed.

Lemma decoded_padded (b : list Z) :
  b ++ drop (length b) (replicate (Z.to_nat FW_CHUNK_SIZE) 0) = padded b.
Proof. unfold padded. rewrite drop_replicate. do 2 f_equal. unfold len. lia. Qed.

(** A piece of the text is the encoding of a piece of the image. *)
Lemma encode_split l :
  take (Z.to_nat B64_ENCODED_CHUNK_SIZE) (encode l) = encode (take (Z.to_nat FW_CHUNK_SIZE) l) ∧
  drop (Z.to_nat B64_ENCODED_CHUNK_SIZE) (encode l) = encode (drop (Z.to_nat FW_CHUNK_SIZE) l).
Proof.
  destruct (Z.le_gt_cases (len l) FW_CHUNK_SIZE) as [Hle|Hgt].
  - rewrite (take_ge l), (drop_ge l) by (unfold len, FW_CHUNK_SIZE in *; lia). rewrite encode_nil.
    assert (len (encode l) ≤ B64_ENCODED_CHUNK_SIZE) as Hle'.
    { rewrite encode_length. unfold FW_CHUNK_SIZE in *.
      pose proof (Z.div_le_mono (len l + 2) 302 3 ltac:(lia) ltac:(lia)) as H1. change (302 / 3) with 100 in H1.
      change B64_ENCODED_CHUNK_SIZE with 400. lia. }
    unfold len in Hle'. rewrite take_ge, drop_ge by lia. done.
  - set (b := take (Z.to_nat FW_CHUNK_SIZE) l). set (l' := drop (Z.to_nat FW_CHUNK_SIZE) l).
    assert (len b = FW_CHUNK_SIZE) as Hb.
    { unfold b, len. rewrite length_take. unfold len, FW_CHUNK_SIZE in *. lia. }
    assert (encode l = encode b ++ encode l') as ->.
    { rewrite <-encode_app by (by rewrite Hb). unfold b, l'. by rewrite take_drop. }
    assert (Z.to_nat B64_ENCODED_CHUNK_SIZE = length (encode b)) as ->.
    { pose proof (encode_length b) as Eb. rewrite Hb in Eb. unfold len in Eb. apply Nat2Z.inj. rewrite Eb. done. }
    by rewrite take_app_length, drop_app_length.
Qed.

(** What a read makes of the answer of the driver. *)
Lemma read_data_run l s c b d' :
  cl_state c = FirmwareUpdate → update_seq_num c = s → 0 ≤ s < 65535 → Forall is_u8 b → len b ≤ FW_CHUNK_SIZE →
  mq_read_file_chunk B64_ENCODED_CHUNK_SIZE (driver c) = (Ok (encode b), d') → l = padded b →
  handle_read timestamp_or_default_us c = (Ok ([SFirmwareChunk (mkFWChunk s l)], Continue), set_seq_num (s + 1) (set_driver d' c)).
Proof.
  intros Hst Hseq Hs Hu Hb Hr ->. unfold handle_read.
  rewrite (bind_run _ _ c (Some (FWChunkReceived (mkFWChunk s (padded b)))) (set_seq_num (s + 1) (set_driver d' c))); [done|].
  unfold handle_response. rewrite (bind_run _ _ c FirmwareUpdate c) by (unfold gets; by rewrite Hst).
  unfold handle_update_state. rewrite (bind_run _ _ c (inl (encode b)) (set_driver d' c)) by (by apply attempt_ok_run, zoom_run).
  unfold decode_base64. rewrite decode_encode; [|done|].
  - rewrite (bind_run _ _ _ s (set_driver d' c)) by (unfold gets; cbn; by rewrite Hseq).
    unfold u16_add. rewrite (proj2 (Z.ltb_lt _ _)) by lia. by rewrite decoded_padded.
  - unfold len in *. rewrite length_replicate. unfold FW_CHUNK_SIZE in *. lia.
Qed.

Lemma read_end_run c e d' :
  cl_state c = FirmwareUpdate → mq_read_file_chunk B64_ENCODED_CHUNK_SIZE (driver c) = (Err e, d') →
  ∃ c', handle_read timestamp_or_default_us c =
      (Ok ([match e with EndOfFile => SFirmwareUpdateComplete | _ => SFirmwareUpdateFailed end], Continue), c') ∧
    cl_state c' = Normal.
Proof.
  intros Hst Hr. set (status := match e with EndOfFile => FwComplete | _ => FwFailed end).
  destruct (attempt_publish_run (E := Empty_set) Topics.FWStatus (serialize_topic_payload MAX_MESSAGE_LEN status)
    (set_state Normal (set_driver d' c))) as (r & c' & Hp & Hs').
  exists c'. split; [|done]. unfold handle_read.
  rewrite (bind_run _ _ c (Some (match e with EndOfFile => FWDownloadComplete | _ => FWDownloadFailed end)) c'); [by destruct e|].
  unfold handle_response. rewrite (bind_run _ _ c FirmwareUpdate c) by (unfold gets; by rewrite Hst).
  unfold handle_update_state. rewrite (bind_run _ _ c (inr e) (set_driver d' c)) by (by apply attempt_err_run, zoom_run).
  assert (Hfail : fail_firmware_download (set_driver d' c) = (Ok FWDownloadFailed, c') ∨ e = EndOfFile).
  { destruct e; [| |by right]; left; unfold fail_firmware_download; rewrite (bind_run _ _ _ tt (set_state Normal (set_driver d' c))) by done;
      by rewrite (bind_run _ _ _ _ _ Hp). }
  destruct e; [destruct Hfail as [Hf|]; [by rewrite (bind_run _ _ _ _ _ Hf)|done]..|].
  rewrite (bind_run _ _ _ tt (set_state Normal (set_driver d' c))) by done. by rewrite (bind_run _ _ _ _ _ Hp).
Qed.

(** All chunks and the end, or some of them and the failure. *)
Lemma reads_run l s c :
  cl_state c = FirmwareUpdate → update_seq_num c = s → 0 ≤ s → s + len (chunks FW_CHUNK_SIZE l) ≤ 65535 → Forall is_u8 l →
  file_left (driver c) = encode l →
  ∃ k last c', reads (Datatypes.S k) c = (Ok (take k (chunk_signals s l) ++ [last]), c') ∧ cl_state c' = Normal ∧
    ((last = SFirmwareUpdateComplete ∧ k = length (chunks FW_CHUNK_SIZE l)) ∨
     (last = SFirmwareUpdateFailed ∧ (k ≤ length (chunks FW_CHUNK_SIZE l))%nat ∧ ¬ works (driver c))).
Proof.
  remember (length l) as n eqn:Hn. revert l s c Hn. induction n as [n IH] using lt_wf_ind.
  intros l s c -> Hst Hseq Hs Hlen Hu Hf.
  destruct (read_law B64_ENCODED_CHUNK_SIZE (driver c) ltac:(done)) as (r & d' & Hr & Hread). destruct r as [data|e|]; [| |done].
  - destruct Hread as (Hne & -> & Hl' & Hw). destruct (encode_split l) as [Ht Hd]. rewrite Hf in Hne, Hl', Hr. rewrite Hd in Hl'. rewrite Ht in Hr.
    assert (Hnl : l ≠ []) by (intros ->; by rewrite encode_nil in Hne).
    set (b := take (Z.to_nat FW_CHUNK_SIZE) l) in *. set (l' := drop (Z.to_nat FW_CHUNK_SIZE) l) in *.
    pose proof (chunks_step FW_CHUNK_SIZE l ltac:(done) Hnl) as Hstep. fold b l' in Hstep.
    rewrite Hstep, len_cons in Hlen. pose proof (len_nonneg (chunks FW_CHUNK_SIZE l')).
    assert (Hb : len b ≤ FW_CHUNK_SIZE) by (unfold b, len; rewrite length_take; unfold FW_CHUNK_SIZE; lia).
    pose proof (read_data_run (padded b) s c b d' Hst Hseq ltac:(lia) ltac:(by apply Forall_take) Hb Hr eq_refl) as H1.
    assert (length l' < length l)%nat as Hdec by (unfold l'; rewrite length_drop; destruct l; [done|]; cbn [length]; unfold FW_CHUNK_SIZE; lia).
    destruct (IH _ Hdec l' (s + 1) (set_seq_num (s + 1) (set_driver d' c)) eq_refl Hst eq_refl ltac:(lia) ltac:(lia) ltac:(by apply Forall_drop) Hl')
      as (k & last & c' & H5 & H6 & H7).
    exists (Datatypes.S k), last, c'. split; [|split; [done|]].
    + cbn [reads] in H5 |- *. rewrite (bind_run _ _ _ _ _ H1), (bind_run _ _ _ _ _ H5). cbn [fst].
      unfold chunk_signals. rewrite Hstep, len_cons, (seqZ_cons s) by lia. cbn [zip_with take app].
      replace (Z.pred (1 + len (chunks FW_CHUNK_SIZE l'))) with (len (chunks FW_CHUNK_SIZE l')) by lia. by rewrite <-Z.add_1_r.
    + rewrite Hstep. cbn [length]. destruct H7 as [[-> ->]|(-> & Hk & Hnw)]; [by left|]. right. split; [done|]. split; [lia|].
      intros Hwd. by apply Hnw, Hw.
  - destruct (read_end_run c e d' Hst Hr) as (c' & H1 & H2). eexists 0%nat, _, c'. split; [|split; [done|]].
    { cbn [reads]. by rewrite (bind_run _ _ _ _ _ H1). }
    destruct e; [right|right|left]; [by split_and!; [|lia|]..|].
    split; [done|]. destruct (decide (l = [])) as [->|Hnl]; [by rewrite chunks_nil|]. rewrite Hf in Hread. by destruct (encode_nonempty l Hnl).
Qed.

Definition chunk_of (s : ClientSignal) : option (list Z) := if s is SFirmwareChunk k then Some (chunk_bytes k) else None.
(** What an application that stores the chunks one after the other has. *)
Definition image_of (l : list ClientSignal) : list Z := concat (omap chunk_of l).

Lemma padded_full b : len b = FW_CHUNK_SIZE → padded b = b.
Proof. intros Hb. unfold padded. rewrite Hb, Z.sub_diag. apply app_nil_r. Qed.

Lemma image_of_chunks l : ∀ s, ∃ n, image_of (chunk_signals s l) = l ++ replicate n 0.
Proof.
  remember (length l) as m eqn:Hm. revert l Hm. induction m as [m IH] using lt_wf_ind. intros l -> s.
  destruct (decide (l = [])) as [->|Hne]; [by exists 0%nat|].
  unfold chunk_signals. rewrite (chunks_step FW_CHUNK_SIZE l) by done. rewrite len_cons.
  set (b := take _ l). set (l' := drop _ l). set (k := chunks FW_CHUNK_SIZE l').
  rewrite (seqZ_cons s) by (pose proof (len_nonneg k); lia). replace (Z.pred (1 + len k)) with (len k) by lia.
  cbn [zip_with]. unfold image_of. cbn [omap list_omap chunk_of chunk_bytes concat].
  destruct (Z.le_gt_cases (len l) FW_CHUNK_SIZE) as [Hle|Hgt].
  - assert (l' = []) as Hl' by (apply drop_ge; unfold len, FW_CHUNK_SIZE in *; lia).
    unfold k. rewrite Hl', chunks_nil. assert (b = l) as -> by (apply take_ge; unfold len, FW_CHUNK_SIZE in *; lia).
    eexists. cbn. apply app_nil_r.
  - assert (len b = FW_CHUNK_SIZE) as Hb.
    { unfold b, len. rewrite length_take. unfold len, FW_CHUNK_SIZE in *. lia. }
    destruct (IH (length l')) with (l := l') (s := Z.succ s) as [n Hn]; [|done|].
    { unfold l'. rewrite length_drop. destruct l; [done|]. cbn [length]. unfold FW_CHUNK_SIZE. lia. }
    exists n. unfold image_of, chunk_signals in Hn. fold k in Hn. rewrite Hn, padded_full by done.
    rewrite app_assoc. unfold b, l'. by rewrite take_drop.
Qed.

Lemma started c c1 u :
  update_url c = Some u → client_download_firmware_update c = (Ok Started, c1) →
  cl_state c1 = FirmwareUpdate ∧ update_seq_num c1 = 0 ∧ file_left (driver c1) = server_file u.
Proof.
  intros Hurl (r & c2 & H1 & Hx)%bind_ok_inv. apply bind_ok_inv in Hx as (u' & c3 & H2 & Hx). injection H2 as <- <-.
  assert (update_url c2 = update_url c) as E2.
  { unfold attempt in H1. destruct (publish_on_run Topics.FWStatus (serialize_topic_payload MAX_MESSAGE_LEN FwStart) c) as (r' & c' & Hp & _).
    revert Hp H1. unfold send_firmware_update_status, publish_on. destruct (serialize_topic_payload _ _) as [s|].
    2: { intros [= <- <-] [= _ <-]. done. }
    destruct (topic_name_pub_run Topics.FWStatus c) as ([topic|e|] & Ht & _); unfold mbind, M_bind; rewrite Ht;
      [|by intros [= <- <-] [= _ <-]|by intros [= <- <-]].
    unfold on_driver, zoom. destruct (mq_publish topic s (driver c)) as [q d']. intros [= <- <-]. by destruct q; intros [= _ <-]. }
  rewrite E2, Hurl in Hx. apply bind_ok_inv in Hx as (q & c3 & H3 & Hx). destruct q as [[]|err].
  - apply bind_ok_inv in Hx as ([] & c4 & H4 & Hx). injection H4 as <-.
    apply bind_ok_inv in Hx as ([] & c4 & H4 & Hx). injection H4 as <-. injection Hx as <-. cbn. split; [done|]. split; [done|].
    apply attempt_inl_inv, zoom_ok_inv in H3 as (d' & H3 & ->). cbn. by eapply download_law.
  - apply bind_ok_inv in Hx as (q & c4 & H4 & Hx). by destruct q.
Qed.

(** C17: a firmware download delivers the image, or says that it failed.  After the
    download of an announced update was started, reading yields the image on the server
    (of at most 65535 chunks, which their number allows) from its start: chunks that are numbered from
    zero without a gap, whose bytes one after the other are the image (the last chunk
    padded with zeros).  After the last one, once, comes that the download is complete; if
    a read of the driver fails before, what comes is that the download failed, and that
    happens only then.  Either way the client is back to its normal state. *)
Theorem firmware_download_delivers_image c c1 u fw :
  update_url c = Some u → client_download_firmware_update c = (Ok Started, c1) →
  server_file u = encode fw → Forall is_u8 fw → len (chunks FW_CHUNK_SIZE fw) ≤ 65535 →
  ∃ k last c2 n, reads (Datatypes.S k) c1 = (Ok (take k (chunk_signals 0 fw) ++ [last]), c2) ∧ cl_state c2 = Normal ∧
    ((last = SFirmwareUpdateComplete ∧ k = length (chunks FW_CHUNK_SIZE fw)) ∨
     (last = SFirmwareUpdateFailed ∧ (k ≤ length (chunks FW_CHUNK_SIZE fw))%nat ∧ ¬ works (driver c1))) ∧
    image_of (chunk_signals 0 fw) = fw ++ replicate n 0.
Proof.
  intros Hurl (H1 & H2 & H3)%(started _ _ _ Hurl) Hf Hu Hlen. rewrite Hf in H3.
  destruct (reads_run fw 0 c1 H1 H2 ltac:(done) ltac:(lia) Hu H3) as (k & last & c2 & H4 & H5 & H6).
  destruct (image_of_chunks fw 0) as [n Hn]. by exists k, last, c2, n.
Qed.
End download.

(** ** An upload that cannot be decoded *)


End client.

(** ** What a confirmation means *)

(** A driver that also keeps a record of what it published. *)
Definition Recorder (D : Type) : Type := D * list (string * list Z).

Section recorder.
Context {D CellInfo : Type} `{!MqttClient D CellInfo}.

Definition unrecorded {E A} (m : M D E A) : M (Recorder D) E A := zoom fst (λ d s, (d, s.2)) m.
#[export] Instance recorder : MqttClient (Recorder D) CellInfo := {|
  mq_connect i w := unrecorded (mq_connect i w);
  mq_disconnect := unrecorded mq_disconnect;
  mq_subscribe t := unrecorded (mq_subscribe t);
  mq_publish t p := unrecorded (mq_publish t p);; modify (λ s, (s.1, s.2 ++ [(t, p)]));
  mq_await_response n := unrecorded (mq_await_response n);
  mq_handle_response := unrecorded mq_handle_response;
  mq_download_file u := unrecorded (mq_download_file u);
  mq_read_file_chunk n := unrecorded (mq_read_file_chunk n);
  mq_signal_quality := unrecorded mq_signal_quality;
  mq_cell_info := unrecorded mq_cell_info;
  mq_sim_iccid := unrecorded mq_sim_iccid;
  mq_modem_model := unrecorded mq_modem_model;
  mq_modem_fw_version := unrecorded mq_modem_fw_version
|}.
End recorder.

Section published.
Context {D CellInfo S P DT U : Type} `{!MqttClient D CellInfo, !NetworkStatus S, !DeviceMetaDataProvider P DT}.
Context `{!ToJson Client.Online, !ToJson Client.FWStatus, !ToJson (DeviceInfo DT), !ToJson S}.
Context `{!FromJson CommandPayload, !FromJson TimePayload, !FromJson FWAnnounce, !FromJson Client.ServerStatus}.
Context {b64 : Base64}.
Context `{!Postcard TopicFromDevice, !UploadAlloc U}.
Context (timestamp_or_default_us : Recorder D → Z) (provider : P) (timestamp_ms : Z).
Abbreviation CR := (Client (Recorder D)).
Implicit Types c : CR.

Definition published c : list (string * list Z) := (driver c).2.
(** The item is on the wire, with the topic in its header and its payload. *)
Definition item_published (u : U) c : Prop :=
  ∃ t name, deserialize_topic_header (slice 0 TOPIC_HEADER_SIZE (ss_bytes (sendable u))) = Some t ∧
    from_to_topic_string t (uid c) = Ok name ∧
    (name, slice TOPIC_HEADER_SIZE (TOPIC_HEADER_SIZE + payload_len (sendable u)) (ss_bytes (sendable u))) ∈ published c.
Definition later c c' : Prop := uid c' = uid c ∧ published c `prefix_of` published c'.

#[local] Instance later_refl : Reflexive later.
Proof. intros c. split; done. Qed.
#[local] Instance later_trans : Transitive later.
Proof. intros c1 c2 c3 [] []. split; [congruence|by etrans]. Qed.

Definition grow {E A} (m : M CR E A) : Prop := ∀ c, later c (m c).2.

Lemma g_bind {E A B} (m : M CR E A) (k : A → M CR E B) : grow m → (∀ a, grow (k a)) → grow (m ≫= k).
Proof.
  intros Hm Hk c. unfold mbind, M_bind. specialize (Hm c). destruct (m c) as [[a|e|] c']; cbn in *; [|done..].
  etrans; [exact Hm|apply Hk].
Qed.
Lemma g_id {E A} (r : CR → outcome E A) : grow (λ c, (r c, c)).
Proof. intros c. reflexivity. Qed.
Lemma g_set {E} (f : CR → CR) : (∀ c, uid (f c) = uid c) → (∀ c, driver (f c) = driver c) → grow (E := E) (modify f).
Proof. intros H1 H2 c. split; cbn; [apply H1|unfold published; by rewrite H2]. Qed.
Lemma g_attempt {E E' A} (m : M CR E A) : grow m → grow (attempt (E' := E') m).
Proof. intros Hm c. specialize (Hm c). unfold attempt. by destruct (m c) as [[]]. Qed.
Lemma g_map_err {E E' A} (f : E → E') (m : M CR E A) : grow m → grow (map_err f m).
Proof. intros Hm c. specialize (Hm c). unfold map_err. by destruct (m c) as [[]]. Qed.
Lemma g_driver {E A} (m : M D E A) : grow (on_driver (unrecorded m)).
Proof. intros c. unfold on_driver, unrecorded, zoom. destruct (m (driver c).1). by split. Qed.
Lemma g_publish t p : grow (on_driver (mq_publish t p)).
Proof.
  intros c. unfold on_driver, zoom. cbn. unfold unrecorded, zoom, mbind, M_bind.
  destruct (mq_publish t p (driver c).1) as [[[]|e|] d]; split; try done. cbn. by apply prefix_app_r.
Qed.

Ltac gp :=
  repeat first
    [ apply g_bind; [|intros ?] | apply g_id | apply g_set; done | apply g_attempt | apply g_map_err
    | apply g_publish | apply g_driver
    | progress unfold publish_on, subscribe_topic, topic_name_pub, topic_name_sub, topic_name, fail_firmware_download,
        send_online, send_offline, send_info, send_firmware_update_status, u16_add, string_try_from
    | match goal with |- context [match ?x with _ => _ end] => destruct x end ].

#[local] Instance recorded_client : NetworkClient CR U S ClientSignal CellInfo :=
  client_network timestamp_or_default_us provider timestamp_ms.

Lemma send_grows s : grow (send_sendable s).
Proof. unfold send_sendable, Serialize.topic, header_bytes, payload_bytes, range_of. gp. Qed.

Lemma send_publishes u c c' : nc_upload u c = (Ok tt, c') → item_published u c'.
Proof.
  cbn [nc_upload recorded_client client_network]. unfold send_sendable.
  intros (t & c1 & H1 & Hs)%bind_ok_inv. unfold Serialize.topic in H1. apply bind_ok_inv in H1 as (h & c2 & H1 & H2).
  injection H2 as <- <-. unfold header_bytes, range_of in H1. destruct (_ && _); [|done]. injection H1 as <- <-.
  destruct (deserialize_topic_header _) as [t|] eqn:Ht; [|done].
  apply bind_ok_inv in Hs as (name & c2 & H1 & Hs). apply bind_ok_inv in Hs as (payload & c3 & H2 & Hs).
  unfold payload_bytes, range_of in H2. destruct (_ && _); [|done]. injection H2 as <- <-.
  unfold topic_name_pub, mbind, M_bind, gets, topic_name in H1.
  destruct (from_to_topic_string t (uid c)) as [n|e|] eqn:Hn; [|done..]. injection H1 as <- <-.
  apply zoom_ok_inv in Hs as (d & Hp & ->). cbn in Hp. apply bind_ok_inv in Hp as ([] & d' & Hp & Hd). injection Hd as <-.
  exists t, n. split; [done|]. split; [done|]. unfold published. cbn. apply elem_of_app. right. by left.
Qed.

(** C4: an item leaves the device's storage only when it has been published.  Running
    the network task with this client against a dispatch task that handed it these
    uploads is a run of the dispatch model, whatever the modem, the server and the other
    tasks do; and each item it confirms in the store has been published by the driver,
    on the topic in its header and with its payload. *)
Theorem confirmed_means_published {St L Ev} `{!DispatchStore St, !Flush L}
    (event_sendable : Ev → Z → option SerializedSendable) (is_urgent : Ev → bool) (UPLOADS : Z)
    (item_ok : Kind → SerializedSendable → Prop) (l : list (Attempt U S)) (t t' : NetTask CR U ClientSignal CellInfo) r
    (c : config St U L) rest :
  outs t = [] → network_task l t = (r, t') →
  uploads c = received (outs t') ++ rest → network c = [] →
  ∃ c' : config St U L, rtc (dispatch_step event_sendable is_urgent UPLOADS item_ok) c c' ∧ uploads c' = rest ∧
    phase c' = phase c ∧ accepted c' = accepted c ∧
    ∀ k n, (k, n) ∈ confirms c' → (k, n) ∈ confirms c ∨
      ∃ x h, confirm_handle x = Some (k, h) ∧ seq_no h = n ∧ item_published (inner x) (nt_client t').
Proof.
  intros Ho Hrun Hu Hn.
  destruct (network_refines_dispatch_environment event_sendable is_urgent UPLOADS item_ok l t r t' c rest Ho Hrun Hu Hn)
    as (c' & H1 & H2 & _ & H4 & H5 & H6).
  exists c'. do 4 (split; [done|]). intros k n [Hin|(x & h & Hs & Hx & Hh)]%H6; [by left|right].
  exists x, h. split; [done|]. split; [done|].
  apply (sent_was_published item_published later) with (l := l) (t := t) (r := r); try done.
  - intros u c1 c2 [Hid Hpre] (tp & name & J1 & J2 & J3). exists tp, name. rewrite Hid. split; [done|]. split; [done|].
    by eapply elem_of_prefix.
  - unfold grows. cbn [nc_connect recorded_client client_network]. unfold client_connect, subscribe_server_status,
      subscribe_commands, subscribe_time, subscribe_firmware_updates. gp.
  - cbn [nc_disconnect recorded_client client_network]. unfold client_disconnect. gp.
  - cbn [nc_download_firmware_update recorded_client client_network]. unfold client_download_firmware_update. gp.
  - cbn [nc_handle_read recorded_client client_network]. unfold handle_read, handle_response, handle_normal_state,
      handle_update_state, handle_message, handle_common_topic. gp.
  - cbn [nc_send_device_info recorded_client client_network]. unfold send_device_info, device_info. gp.
  - cbn [nc_cell_info recorded_client client_network]. gp.
  - intros s. cbn [nc_send_status recorded_client client_network]. unfold send_status. gp.
  - intros u. apply send_grows.
  - apply send_publishes.
Qed.
End published.
