(* ===== verification/ClientDemo.v ===== *)
(** * Runs of the protocol client

    URL-safe base64 with its laws, a driver that serves one file, and the witnesses of
    [ClientProps]. *)

From stdpp Require Import base list list_numbers numbers option strings relations.
From S2P Require Import Prelude Samples Serialize MetaConfig Topics TimeAdjust Queue DispatchStore.
From S2P Require Import Dispatch Network NetworkProps Client ClientProps.
#[local] Open Scope Z_scope.

(** ** Base64 *)

Definition b64_char (s : Z) : Z :=
  if s <? 26 then 65 + s else if s <? 52 then 71 + s else if s <? 62 then s - 4 else if s =? 62 then 45 else 95.
Definition b64_val (c : Z) : option Z :=
  if (65 <=? c) && (c <=? 90) then Some (c - 65)
  else if (97 <=? c) && (c <=? 122) then Some (c - 71)
  else if (48 <=? c) && (c <=? 57) then Some (c + 4)
  else if c =? 45 then Some 62 else if c =? 95 then Some 63 else None.
Definition b64_pad : Z := 61.

Fixpoint b64_encode (l : list Z) : list Z :=
  match l with
  | [] => []
  | [a] => [b64_char (a / 4); b64_char (a mod 4 * 16); b64_pad; b64_pad]
  | [a; b] => [b64_char (a / 4); b64_char (a mod 4 * 16 + b / 16); b64_char (b mod 16 * 4); b64_pad]
  | a :: b :: c :: l =>
      b64_char (a / 4) :: b64_char (a mod 4 * 16 + b / 16) :: b64_char (b mod 16 * 4 + c / 64) :: b64_char (c mod 64) ::
      b64_encode l
  end.
Fixpoint b64_decode (l : list Z) : option (list Z) :=
  match l with
  | [] => Some []
  | w :: x :: y :: z :: l =>
      w ← b64_val w;
      x ← b64_val x;
      match b64_val y, b64_val z with
      | Some y, Some z => rest ← b64_decode l; Some (w * 4 + x / 16 :: x mod 16 * 16 + y / 4 :: y mod 4 * 64 + z :: rest)
      | Some y, None => if bool_decide (z = b64_pad ∧ l = []) then Some [w * 4 + x / 16; x mod 16 * 16 + y / 4] else None
      | None, _ => if bool_decide (y = b64_pad ∧ z = b64_pad ∧ l = []) then Some [w * 4 + x / 16] else None
      end
  | _ => None
  end.

Lemma b64_val_char s : 0 ≤ s < 64 → b64_val (b64_char s) = Some s.
Proof.
  intros Hs. assert (∀ n : nat, (n < 64)%nat → b64_val (b64_char (Z.of_nat n)) = Some (Z.of_nat n)) as H.
  { intros n Hn. do 64 (destruct n as [|n]; [reflexivity|]). lia. }
  rewrite <-(Z2Nat.id s) by lia. apply H. lia.
Qed.

Lemma list3_ind (P : list Z → Prop) :
  P [] → (∀ a, P [a]) → (∀ a b, P [a; b]) → (∀ a b c l, P l → P (a :: b :: c :: l)) → ∀ l, P l.
Proof.
  intros H0 H1 H2 H3 l. enough (P l ∧ (∀ a, P (a :: l)) ∧ (∀ a b, P (a :: b :: l))) by tauto.
  induction l as [|x l (IH1 & IH2 & IH3)]; [auto|]. split; [apply IH2|]. split; [intros a; apply IH3|]. auto.
Qed.

#[export] Instance base64 : Base64 := λ input buf,
  d ← b64_decode input;
  if len d <=? len buf then Some (len d, d ++ drop (length d) buf) else None.

Lemma b64_decode_encode l : Forall is_u8 l → b64_decode (b64_encode l) = Some l.
Proof.
  unfold is_u8. induction l as [|a|a b|a b c l IH] using list3_ind; intros Hl; [done|..];
    repeat (apply list.Forall_cons in Hl as [? Hl]); cbn [b64_encode b64_decode].
  - rewrite !b64_val_char by (Z.to_euclidean_division_equations; lia). cbn.
    do 2 f_equal. Z.to_euclidean_division_equations; lia.
  - rewrite !b64_val_char by (Z.to_euclidean_division_equations; lia). cbn. f_equal.
    f_equal; [|f_equal]; Z.to_euclidean_division_equations; lia.
  - rewrite !b64_val_char by (Z.to_euclidean_division_equations; lia). cbn [mbind option_bind].
    rewrite IH by done. cbn [mbind option_bind]. f_equal.
    f_equal; [|f_equal; [|f_equal]]; Z.to_euclidean_division_equations; lia.
Qed.

#[export] Program Instance base64_laws : Base64Laws := {| encode := b64_encode |}.
Next Obligation.
  intros l. induction l as [|a|a b|a b c l IH] using list3_ind; [done..|]. cbn [b64_encode]. rewrite !len_cons, IH.
  replace (1 + (1 + (1 + len l)) + 2) with (len l + 2 + 1 * 3) by lia. rewrite Z.div_add by done. lia.
Qed.
Next Obligation.
  intros l k. induction l as [|a|a b|a b c l IH] using list3_ind; [done..|]. intros Hl. cbn [app b64_encode].
  rewrite IH; [done|]. rewrite !len_cons in Hl. rewrite <-Hl.
  replace (1 + (1 + (1 + len l))) with (len l + 1 * 3) by lia. by rewrite Z.mod_add.
Qed.
Next Obligation.
  intros l buf Hl Hlen. unfold decode_slice, base64. rewrite b64_decode_encode by done. cbn [mbind option_bind].
  by rewrite (proj2 (Z.leb_le _ _)).
Qed.

(** ** A device and its server *)

Module DemoClient.
(** Topics are numbered as the enum declares them. *)
#[local] Instance demo_topics : Postcard TopicFromDevice := {|
  pc_to_slice t buf := match buf with
    | [] => None
    | _ :: rest => Some (match t with
        | Topics.Online => 0 | Topics.Event => 1 | Topics.FWStatus => 2 | DeviceInfoV2 => 3 | DeviceInfoV3 => 4 | Topics.Status => 5
        | BenchmarkEvent => 6 | BenchmarkData => 7 | ChargerStatus => 8 end :: rest)
    end;
  pc_from_bytes l := match l with
    | b :: _ => [Topics.Online; Topics.Event; Topics.FWStatus; DeviceInfoV2; DeviceInfoV3; Topics.Status; BenchmarkEvent;
                 BenchmarkData; ChargerStatus] !! Z.to_nat b
    | [] => None
    end
|}.
#[local] Instance json_out T : ToJson T := λ _ _, Some [123; 125].
#[local] Instance no_json T : FromJson T := λ _, None.
#[local] Instance announce : FromJson FWAnnounce := λ _, Some (mkFWAnnounce "http://x" None).
#[local] Instance demo_status : NetworkStatus Z := {| set_signal_strength q _ := q; ns_confirmation_token := id |}.
#[local] Instance demo_provider : DeviceMetaDataProvider unit Z := {|
  p_device_type _ := 7; p_bootloader_version _ := "1.0"; p_git_rev := "abc"; p_fw_version := "2.0"; p_hw_rev _ := "B" |}.

(** The image on the server: a chunk and a bit. *)
Definition image : list Z := replicate 300 65 ++ [1; 2; 255; 0].
Definition server_file (_ : string) : list Z := b64_encode image.

(** The driver is the file it downloaded; there is always an announcement to read. *)
#[local] Instance demo_driver : MqttClient (list Z) Z := {|
  mq_connect _ _ := mret tt;
  mq_disconnect := mret tt;
  mq_subscribe _ := mret tt;
  mq_publish _ _ := mret tt;
  mq_await_response _ := mret tt;
  mq_handle_response := mret (ReceivedMessage (mkMessage "t/dev/fw_update/meta" [123; 125]));
  mq_download_file u := modify (λ _, server_file u);
  mq_read_file_chunk n := λ d,
    match d with [] => (Err EndOfFile, d) | _ => (Ok (take (Z.to_nat n) d), drop (Z.to_nat n) d) end;
  mq_signal_quality := mret (Some (-70));
  mq_cell_info := mret None;
  mq_sim_iccid := mret None;
  mq_modem_model := mret "unknown";
  mq_modem_fw_version := mret "unknown"
|}.

#[local] Program Instance demo_download : DownloadLaws (list Z) Z server_file := {| file_left := id; works _ := True |}.
Next Obligation. by intros u d d' [= <-]. Qed.
Next Obligation. intros n [|x d] _; eexists _, _; (split; [reflexivity|]); cbn; by rewrite ?drop_nil. Qed.
Next Obligation. intros. by eexists _, _. Qed.

Definition announced : Client (list Z) := mkClient [] "dev" Normal (Some "http://x") 9.
Definition downloading : Client (list Z) := mkClient (b64_encode image) "dev" FirmwareUpdate (Some "http://x") 0.

Lemma firmware_download_delivers_image_witness :
  ∃ last c2 n, reads (λ _ : list Z, 0) 3 downloading =
      (Ok [SFirmwareChunk (mkFWChunk 0 (replicate 300 65)); SFirmwareChunk (mkFWChunk 1 (padded [1; 2; 255; 0])); last], c2) ∧
    last = SFirmwareUpdateComplete ∧ cl_state c2 = Normal ∧ image_of (chunk_signals 0 image) = image ++ replicate n 0.
Proof.
  destruct (@firmware_download_delivers_image (list Z) Z demo_driver (json_out _) (no_json _) (no_json _) announce (no_json _) base64 (λ _, 0) server_file demo_download base64_laws
    announced downloading "http://x" image eq_refl ltac:(vm_compute; reflexivity) eq_refl
    ltac:(apply u8s; vm_compute; reflexivity) ltac:(vm_compute; discriminate)) as (k & last & c2 & n & H1 & H2 & [[H4 H5]|(_ & _ & H4)] & H3).
  2: { by destruct H4. }
  exists last, c2, n. split; [|by split_and!]. subst k.
  etrans; [|etrans; [exact H1|]]; vm_compute; [reflexivity|]. rewrite H4. reflexivity.
Defined.

#[local] Instance pool : UploadAlloc SerializedSendable := {| alloc _ s := inl s; sendable := id |}.
Abbreviation Task D := (NetTask (Client D) SerializedSendable ClientSignal Z).
Abbreviation client := (client_network (D := list Z) (S := Z) (λ _, 0) tt 0).



(** Two events that the dispatch task handed over; the second is still waiting. *)
Definition event (n : Z) : Confirmable SerializedSendable :=
  mkConfirmable (mkSendable ([164; 165; 165; 165; 165; 165; 165; 165] ++ [n; n]) 2) (Some (KEvent, handle_new n)).
Definition session : list (Attempt SerializedSendable Z) :=
  [mkAttempt false [mkEnv None None (SelMsg (Some (event 1))); mkEnv None None (SelRead false)] 1000000 0].
Definition recorded : Client (Recorder (list Z)) := mkClient ([], []) "dev" Normal None 0.
Abbreviation recording := (client_network (D := Recorder (list Z)) (S := Z) (λ _, 0) tt 0).

Definition session_end : Task (Recorder (list Z)) :=
  Eval vm_compute in (@network_task _ _ _ _ _ recording session (mkNetTask recorded 0 None 0 [])).2.
Lemma session_run :
  @network_task _ _ _ _ _ recording session (mkNetTask recorded 0 None 0 []) = (Ok tt, session_end).
Proof. vm_compute. reflexivity. Qed.

Example session_published :
  published (nt_client session_end) =
    [("f/dev/online", [123; 125]); ("f/dev/events", [1; 1]); ("f/dev/online", [123; 125])]%string.
Proof. reflexivity. Qed.

(** A store that only counts. *)
#[local] Instance no_store : DispatchStore unit := {|
  ds_store _ _ := mret 0; ds_peek _ := mret None; ds_is_drained := mret true; ds_wait_confirmation := mret None;
  ds_confirm _ _ st := st; ds_drop _ _ st := st
|}.
#[local] Instance no_samples : Flush unit := λ l, (None, l).
Definition handed_over : config unit SerializedSendable unit :=
  mkConfig (mkDispatch tt None None false tt []) PPeekEvent [event 1; event 2] [] false (λ _, []) [].

Lemma confirmed_means_published_witness :
  ∃ c', rtc (dispatch_step (λ (_ : unit) _, None) (λ _, false) 3 (λ _ _, True)) handed_over c' ∧ uploads c' = [event 2] ∧
    ∀ k n, (k, n) ∈ confirms c' → ∃ x h, confirm_handle x = Some (k, h) ∧ seq_no h = n ∧
      item_published (inner x) (nt_client session_end).
Proof.
  destruct (@confirmed_means_published _ Z Z unit Z _ demo_driver _ _ (json_out _) (json_out _) (json_out _) (json_out _)
    (no_json _) (no_json _) announce (no_json _) base64 demo_topics pool (λ _, 0) tt 0 unit unit unit no_store no_samples
    (λ _ _, None) (λ _, false) 3 (λ _ _, True) session (mkNetTask recorded 0 None 0 []) session_end (Ok tt) handed_over [event 2]
    eq_refl session_run eq_refl eq_refl) as (c' & H1 & H2 & _ & _ & H3).
  exists c'. split; [exact H1|]. split; [exact H2|]. intros k n [Hin|Hin]%H3; [|exact Hin].
  by apply not_elem_of_nil in Hin.
Defined.

(** Asked for an update that was never announced, the client tells the server that it
    started, and not that it failed. *)
Definition status_json : ToJson Client.FWStatus := λ _ s,
  Some [match s with FwStart => 1 | FwFailed => 2 | FwReceived => 3 | FwComplete => 4 end].
Lemma start_without_announcement :
  let run := @client_download_firmware_update (Recorder (list Z)) Z recorder status_json recorded in
  run.1 = Ok Failed ∧ published run.2 = [("f/dev/fw_update/status"%string, [1])].
Proof. vm_compute. by split. Qed.
End DemoClient.
