(* ===== verification/ActiveConfig.v ===== *)
(** * The active configuration

    [logic/active_config.rs]: an active and a pending configuration behind a
    critical-section mutex, and bindings ([ConfigInUse]) that pin the active one.  Each
    method runs under the lock, so it is one step; the bindings that are alive are a
    list, as tasks acquire, clone and drop them in any order. *)

From stdpp Require Import base list list_numbers numbers option relations.
From S2P Require Import Prelude.

Section active_config.
Context {T : Type}.

Record State : Type := mkState {
  active : option T;
  pending : option T;
  pending_set : bool;
  in_use_count : Z
}.

(** [ConfigInUse]; its [holder] is the only one there is. *)
Record ConfigInUse : Type := mkConfigInUse { binding_cfg : T }.

Definition active_config_new : State := mkState None None false 0.

Definition usize_size : Z := u32_size.
Definition count_add {E} (a b : Z) : M State E Z := if a + b <? usize_size then mret (a + b) else panic.
Definition set_count (n : Z) (s : State) : State := mkState (active s) (pending s) (pending_set s) n.

Definition try_promote (s : State) : State :=
  if (in_use_count s =? 0) && pending_set s then mkState (pending s) None false (in_use_count s) else s.

Definition acquire {E} : M State E (option ConfigInUse) :=
  a ← gets active;
  match a with
  | None => mret None
  | Some cfg =>
      n ← gets in_use_count;
      n ← count_add n 1;
      modify (set_count n);;
      mret (Some (mkConfigInUse cfg))
  end.

Definition set_pending {E} (cfg : option T) : M State E unit :=
  modify (λ s, try_promote (mkState (active s) cfg true (in_use_count s))).

Definition with_active {E R} (f : option T → R) : M State E R := gets (f ∘ active).
Definition has_pending {E} : M State E bool := gets pending_set.

(** [Clone] and [Drop] of a binding. *)
Definition clone_binding {E} (b : ConfigInUse) : M State E ConfigInUse :=
  n ← gets in_use_count;
  n ← count_add n 1;
  modify (set_count n);;
  mret (mkConfigInUse (binding_cfg b)).
Definition drop_binding {E} : M State E unit :=
  n ← gets in_use_count;
  n ← usize_sub n 1;
  modify (set_count n);;
  modify try_promote.

(** ** Tasks *)

(** The state with the bindings that are alive. *)
Record Tasks : Type := mkTasks { shared : State; bindings : list ConfigInUse }.

(** One call of a task; [None] when it panics. *)
Inductive call : Type :=
| CAcquire | CClone (i : nat) | CDrop (i : nat) | CSetPending (cfg : option T).

Definition run_call (c : call) (t : Tasks) : option Tasks :=
  match c with
  | CAcquire =>
      match acquire (E := Empty_set) (shared t) with
      | (Ok (Some b), s) => Some (mkTasks s (b :: bindings t))
      | (Ok None, s) => Some (mkTasks s (bindings t))
      | _ => None
      end
  | CClone i =>
      match bindings t !! i with
      | None => Some t
      | Some b =>
          match clone_binding (E := Empty_set) b (shared t) with
          | (Ok b, s) => Some (mkTasks s (b :: bindings t))
          | _ => None
          end
      end
  | CDrop i =>
      match bindings t !! i with
      | None => Some t
      | Some _ =>
          match drop_binding (E := Empty_set) (shared t) with
          | (Ok _, s) => Some (mkTasks s (delete i (bindings t)))
          | _ => None
          end
      end
  | CSetPending cfg =>
      match set_pending (E := Empty_set) cfg (shared t) with
      | (Ok _, s) => Some (mkTasks s (bindings t))
      | _ => None
      end
  end.

Fixpoint run_calls (l : list call) (t : Tasks) : option Tasks :=
  match l with
  | [] => Some t
  | c :: l => t ← run_call c t; run_calls l t
  end.

(** The configuration that was published last. *)
Definition last_published (init : option T) (l : list call) : option T :=
  foldl (λ c call, if call is CSetPending cfg then cfg else c) init l.

(** ** What the holder promises *)

Definition held (t : Tasks) : Prop :=
  in_use_count (shared t) = len (bindings t) ∧
  Forall (λ b, Some (binding_cfg b) = active (shared t)) (bindings t) ∧
  (bindings t = [] → pending_set (shared t) = false).

(** What a task will see once nothing is bound. *)
Definition published (s : State) : option T := if pending_set s then pending s else active s.

Lemma held_new : held (mkTasks active_config_new []).
Proof. split; [done|]. split; [constructor|done]. Qed.

Lemma promote_none s : in_use_count s ≠ 0 → try_promote s = s.
Proof. intros Hn. unfold try_promote. by rewrite (proj2 (Z.eqb_neq _ _) Hn). Qed.

Lemma promote_all s : in_use_count s = 0 → published (try_promote s) = published s ∧
  pending_set (try_promote s) = false ∧ in_use_count (try_promote s) = 0.
Proof. intros Hn. unfold try_promote, published. rewrite Hn. destruct (pending_set s) eqn:Hp; cbn; by rewrite ?Hp. Qed.

(** One call of a task, when the counter does not overflow. *)
Lemma call_held c t :
  held t → len (bindings t) < usize_size - 1 →
  ∃ t', run_call c t = Some t' ∧ held t' ∧
    published (shared t') = (if c is CSetPending cfg then cfg else published (shared t)) ∧
    (bindings t ≠ [] → (∀ i, c ≠ CDrop i) → active (shared t') = active (shared t)) ∧
    (bindings t' ≠ [] → bindings t ≠ [] → active (shared t') = active (shared t)).
Proof.
  intros Hheld Hlen. pose proof (len_nonneg (bindings t)). assert (Hheld' := Hheld). destruct Hheld' as (Hn & Hb & Hp).
  destruct c as [|i|i|cfg]; cbn [run_call].
  - unfold acquire, gets, mbind, M_bind. destruct (active (shared t)) as [cfg|] eqn:Ha; [|by exists t; destruct t].
    unfold count_add. rewrite Hn, (proj2 (Z.ltb_lt _ _)) by lia. cbn. eexists. split; [done|].
    unfold held, published. cbn. rewrite len_cons, Ha. split_and!; try done; [lia|by constructor].
  - destruct (bindings t !! i) as [b|] eqn:Hi; [|by exists t].
    unfold clone_binding, gets, mbind, M_bind, count_add. rewrite Hn, (proj2 (Z.ltb_lt _ _)) by lia. cbn.
    eexists. split; [done|]. unfold held, published. cbn. rewrite len_cons. split_and!; try done; [lia|].
    constructor; [|done]. by apply (proj1 (list.Forall_lookup _ _) Hb _ _ Hi).
  - destruct (bindings t !! i) as [b|] eqn:Hi; [|by exists t].
    assert (length (delete i (bindings t)) = length (bindings t) - 1)%nat as Hd by (by apply length_delete; eauto).
    pose proof (lookup_lt_Some _ _ _ Hi) as Hlt.
    assert (len (delete i (bindings t)) = len (bindings t) - 1) as Hld by (unfold len; rewrite Hd; lia).
    unfold drop_binding, gets, mbind, M_bind, usize_sub. unfold len in Hn at 1. rewrite Hn.
    rewrite (proj2 (Z.leb_le _ _)) by lia. cbn. eexists. split; [done|]. unfold held. cbn. rewrite Hld.
    set (s := set_count _ (shared t)). assert (in_use_count s = len (bindings t) - 1) as Hs by done.
    destruct (decide (len (bindings t) = 1)) as [H1|H1].
    + destruct (promote_all s ltac:(lia)) as (P1 & P2 & P3).
      assert (delete i (bindings t) = []) as -> by (apply length_zero_iff_nil; unfold len in *; lia).
      split; [split; [lia|by split]|]. split; [done|]. split; [intros _ Hc; by destruct (Hc i)|done].
    + rewrite promote_none by lia. cbn. split; [|done]. split; [done|]. split; [by apply Forall_delete|].
      intros Hnil. rewrite Hnil in Hld. change (len (@nil ConfigInUse)) with 0 in Hld. lia.
  - eexists. split; [done|]. unfold held. cbn. set (s := mkState _ _ _ _).
    destruct (decide (len (bindings t) = 0)) as [H0|H0].
    + destruct (promote_all s ltac:(cbn; lia)) as (P1 & P2 & P3).
      assert (bindings t = []) as -> by (apply length_zero_iff_nil; unfold len in H0; lia).
      by repeat split.
    + rewrite promote_none by (cbn; lia). cbn. split; [|done]. split; [done|]. split; [done|].
      intros Hnil. by rewrite Hnil in H0.
Qed.

Lemma call_bindings c t t' : run_call c t = Some t' → len (bindings t') ≤ len (bindings t) + 1.
Proof.
  assert (∀ i, len (delete i (bindings t)) ≤ len (bindings t)) as Hd.
  { intros i. unfold len. pose proof (sublist_length _ _ (sublist_delete (bindings t) i)). lia. }
  destruct c as [|i|i|cfg]; cbn [run_call].
  - destruct (acquire (E := Empty_set) (shared t)) as [[[b|]| |] s]; intros [= <-]; cbn; rewrite ?len_cons; lia.
  - destruct (bindings t !! i) as [b|]; [|intros [= <-]; lia].
    destruct (clone_binding (E := Empty_set) b (shared t)) as [[] s]; intros [= <-]. cbn. rewrite len_cons. lia.
  - destruct (bindings t !! i) as [b|]; [|intros [= <-]; lia].
    destruct (drop_binding (E := Empty_set) (shared t)) as [[] s]; intros [= <-]. cbn. specialize (Hd i). lia.
  - destruct (set_pending (E := Empty_set) cfg (shared t)) as [[] s]; intros [= <-]. cbn. lia.
Qed.

Lemma calls_held l t :
  held t → len (bindings t) + len l < usize_size →
  ∃ t', run_calls l t = Some t' ∧ held t' ∧ published (shared t') = last_published (published (shared t)) l ∧
    len (bindings t') ≤ len (bindings t) + len l.
Proof.
  revert t. induction l as [|c l IH]; intros t Ht Hlen.
  { exists t. change (len []) with 0. do 3 (split; [done|]). cbn. lia. }
  rewrite len_cons in Hlen. pose proof (len_nonneg l).
  destruct (call_held c t Ht ltac:(lia)) as (t1 & H1 & H2 & H3 & _). pose proof (call_bindings _ _ _ H1).
  destruct (IH t1 H2 ltac:(lia)) as (t' & H4 & H5 & H6 & H7). exists t'. cbn [run_calls]. rewrite H1. cbn [mbind option_bind].
  do 2 (split; [done|]). split; [|rewrite len_cons; lia]. rewrite H6, H3. by destruct c.
Qed.

(** The active configuration is pinned while it is in use, and the last published
    one is what comes next.  Whatever the tasks do with the holder, in any order, no
    call panics (up to the width of the counter); every binding that is alive carries
    the active configuration, and no call changes it while a binding stays alive; and
    when nothing is bound, the configuration that was published last is active and none
    is pending. *)
Theorem active_config_pinned (l : list call) :
  len l < usize_size - 1 →
  ∃ t, run_calls l (mkTasks active_config_new []) = Some t ∧
    Forall (λ b, Some (binding_cfg b) = active (shared t)) (bindings t) ∧
    (bindings t = [] → active (shared t) = last_published None l ∧ pending_set (shared t) = false) ∧
    ∀ c, ∃ t', run_call c t = Some t' ∧
      (bindings t ≠ [] → bindings t' ≠ [] → active (shared t') = active (shared t)).
Proof.
  intros Hlen.
  destruct (calls_held l (mkTasks active_config_new []) held_new) as (t & H1 & H2 & H3 & H4).
  { cbn. change (len (@nil ConfigInUse)) with 0. lia. }
  cbn in H4. change (len (@nil ConfigInUse)) with 0 in H4. exists t. split; [done|].
  assert (Ht := H2). destruct Ht as (Hn & Hb & Hp). split; [done|]. split.
  - intros Hnil. specialize (Hp Hnil). split; [|done]. unfold published in H3. rewrite Hp in H3. exact H3.
  - intros c. destruct (call_held c t H2 ltac:(lia)) as (t' & J1 & _ & _ & _ & J5). exists t'. split; [done|]. intros ??. by apply J5.
Qed.
End active_config.

Module DemoActiveConfig.
(** A session is started with configuration 1; 2 and 3 are published while it runs;
    its binding was handed to a second task. *)
Definition calls : list (call (T := Z)) :=
  [CSetPending (Some 1); CAcquire; CClone 0; CSetPending (Some 2); CDrop 0; CSetPending (Some 3); CDrop 0].

Example promoted : run_calls calls (mkTasks active_config_new []) = Some (mkTasks (mkState (Some 3) None false 0) []).
Proof. reflexivity. Qed.

Example pinned :
  run_calls (take 6 calls) (mkTasks active_config_new []) =
    Some (mkTasks (mkState (Some 1) (Some 3) true 1) [mkConfigInUse 1]).
Proof. reflexivity. Qed.

Lemma active_config_pinned_witness :
  ∃ t, run_calls calls (mkTasks active_config_new []) = Some t ∧ bindings t = [] ∧ active (shared t) = Some 3.
Proof.
  destruct (active_config_pinned calls ltac:(vm_compute; reflexivity)) as (t & H1 & _ & H2 & _).
  exists t. assert (bindings t = []) as Hb by (vm_compute in H1; injection H1 as <-; reflexivity).
  split; [exact H1|]. split; [exact Hb|]. etrans; [apply (proj1 (H2 Hb))|reflexivity].
Defined.
End DemoActiveConfig.
