(* ===== verification/Session.v ===== *)
(** * Session channels

    [sync/session_channel.rs]: a data channel and a latest-value channel make sessions:
    the receiver starts one, the sender sends data and an end marker, the receiver
    finishes.  The channels are those of [utils/channels.rs], without closing: a bounded
    FIFO, and a cell that holds the latest value and whether it was seen.  An [async]
    call is one definition per await point.  [finish] consumes the session, so its [Drop]
    finishes it a second time.  No code of the repository uses both ends yet, so the steps
    are those of any caller: every operation at any time, in any interleaving, calls that
    are given up included; what the documentation of the traits asks of the callers is the
    predicate [orderly]. *)

From stdpp Require Import base list list_numbers numbers option relations.
From S2P Require Import Prelude.

Inductive SessionState : Type := SNone | Started (id : Z) | Finished (id : Z).
Inductive FinishError : Type := FSend | FFeedback | Restarted (id : Z) | OutOfSync.
Inductive FiniteStream (T : Type) : Type := Data (x : T) | Reset_ | End_.
Arguments Data {T}.
Arguments Reset_ {T}.
Arguments End_ {T}.

Section session.
Context {T : Type} (capacity : Z).

(** The two channels. *)
Record Channels : Type := mkChannels { queue : list (FiniteStream T); cell : SessionState; unseen : bool }.

(** [SessionSender], [SessionReceiver], and [SessionActive]. *)
Record Sender : Type := mkSender { s_state : SessionState }.
Record Receiver : Type := mkReceiver { session_id : Z }.
Record Active : Type := mkActive { a_session_id : Z; should_finish : bool }.

Definition sender_new : Sender := mkSender (Finished 0).
Definition receiver_new : Receiver := mkReceiver 0.
Definition channels_new : Channels := mkChannels [] (Finished 0) false.

(** ** The channels; [None] is a call that has to wait *)

Definition chan_send (x : FiniteStream T) (c : Channels) : option Channels :=
  if len (queue c) <? capacity then Some (mkChannels (queue c ++ [x]) (cell c) (unseen c)) else None.
Definition chan_try_recv (c : Channels) : option (FiniteStream T * Channels) :=
  match queue c with [] => None | x :: q => Some (x, mkChannels q (cell c) (unseen c)) end.
Definition cell_send (v : SessionState) (c : Channels) : Channels := mkChannels (queue c) v true.
Definition cell_recv (c : Channels) : option (SessionState * Channels) :=
  if unseen c then Some (cell c, mkChannels (queue c) (cell c) false) else None.

(** ** The sender *)

(** A turn of the loop of [wait_started]; the id when it returns. *)
Definition wait_started (s : Sender) (c : Channels) : option (option Z * Sender * Channels) :=
  '(v, c) ← cell_recv c;
  Some (if v is Started id then Some id else None, mkSender v, c).

Definition send (x : T) : Channels → option Channels := chan_send (Data x).
Definition send_reset : Channels → option Channels := chan_send Reset_.

(** [finish_and_wait] up to the second await, and what it does with the answer. *)
Definition finish_send : Channels → option Channels := chan_send End_.
Definition finish_waits (s : Sender) : bool := if s_state s is Finished _ then false else true.
Definition finish_result (old_state v : SessionState) : unit + FinishError :=
  match v with
  | Finished finish_id =>
      let start_id := if old_state is Started sess_id then sess_id else finish_id in
      if start_id =? finish_id then inl tt else inr OutOfSync
  | Started start_id => inr (Restarted start_id)
  | SNone => inr OutOfSync
  end.
Definition finish_wait (s : Sender) (c : Channels) : option ((unit + FinishError) * Sender * Channels) :=
  '(v, c) ← cell_recv c;
  Some (finish_result (s_state s) v, mkSender v, c).

(** ** The receiver *)

Definition start (r : Receiver) (c : Channels) : Active * Receiver * Channels :=
  (mkActive (session_id r) false, mkReceiver (as_u32 (session_id r + 1)), cell_send (Started (session_id r)) c).

(** [try_recv], and [recv] when it does not wait. *)
Definition recv (a : Active) (c : Channels) : option (FiniteStream T * Active * Channels) :=
  if should_finish a then Some (End_, a, c)
  else
    '(data, c) ← chan_try_recv c;
    Some (data, mkActive (a_session_id a) (if data is End_ then true else false), c).

(** [_inner_finish]: a turn of the loop that empties the queue, and the last send. *)
Definition drain_turn (c : Channels) : option Channels := snd <$> chan_try_recv c.
Definition finish_signal (a : Active) : Channels → Channels := cell_send (Finished (a_session_id a)).

(** ** The two ends in use

    Any use of the two ends: each calls its operations in any order, and a step goes up to
    the next await point.  The log of what happens is for the properties only. *)

(** Where the ends are.  [SendStarting]: in the loop of [wait_started]; [SendFinishing]:
    [finish_and_wait] has sent the end marker.  [RecvFinishing n]: in [_inner_finish], to
    be run [n] more times; [RecvSignal]: the queue was empty. *)
Inductive SenderPc : Type := SendIdle | SendStarting | SendFinishing.
Inductive ReceiverPc : Type := RecvOutside | RecvInside (a : Active) | RecvFinishing (n : nat) (a : Active) | RecvSignal (n : nat) (a : Active).

(** [put] is all that was put into the queue, [taken] all that was taken out: in which
    session, counted from 0, or by which [finish] ([None]); [ended] are the sessions that
    were reported as finished, and [answers] those of [finish_and_wait], with the state
    before.  [sent] and [got] are the items by session, as each end sees them. *)
Record System : Type := mkSystem {
  chan : Channels;
  sender : Sender;
  sender_pc : SenderPc;
  receiver : Receiver;
  receiver_pc : ReceiverPc;
  sent : list (list (FiniteStream T));
  got : list (list (FiniteStream T));
  answers : list (SessionState * (unit + FinishError));
  put : list (FiniteStream T);
  taken : list (option nat * FiniteStream T);
  ended : list nat
}.
Definition system_new : System := mkSystem channels_new sender_new SendIdle receiver_new RecvOutside [] [] [] [] [] [].

(** Add to the last session. *)
Definition to_last {A} (x : A) (l : list (list A)) : list (list A) :=
  match last l with Some k => removelast l ++ [k ++ [x]] | None => l end.

Definition set_sender (c : Channels) (sd : Sender) (pc : SenderPc) (s : System) : System :=
  mkSystem c sd pc (receiver s) (receiver_pc s) (sent s) (got s) (answers s) (put s) (taken s) (ended s).
Definition set_receiver (c : Channels) (r : Receiver) (pc : ReceiverPc) (s : System) : System :=
  mkSystem c (sender s) (sender_pc s) r pc (sent s) (got s) (answers s) (put s) (taken s) (ended s).
Definition log_sent (l : list (list (FiniteStream T))) (s : System) : System :=
  mkSystem (chan s) (sender s) (sender_pc s) (receiver s) (receiver_pc s) l (got s) (answers s) (put s) (taken s) (ended s).
Definition log_got (l : list (list (FiniteStream T))) (s : System) : System :=
  mkSystem (chan s) (sender s) (sender_pc s) (receiver s) (receiver_pc s) (sent s) l (answers s) (put s) (taken s) (ended s).
Definition log_answer (a : list (SessionState * (unit + FinishError))) (s : System) : System :=
  mkSystem (chan s) (sender s) (sender_pc s) (receiver s) (receiver_pc s) (sent s) (got s) (answers s ++ a) (put s) (taken s) (ended s).
Definition log_put (x : FiniteStream T) (s : System) : System :=
  mkSystem (chan s) (sender s) (sender_pc s) (receiver s) (receiver_pc s) (sent s) (got s) (answers s) (put s ++ [x]) (taken s) (ended s).
Definition log_taken (n : option nat) (x : FiniteStream T) (s : System) : System :=
  mkSystem (chan s) (sender s) (sender_pc s) (receiver s) (receiver_pc s) (sent s) (got s) (answers s) (put s) (taken s ++ [(n, x)]) (ended s).
Definition log_ended (n : nat) (s : System) : System :=
  mkSystem (chan s) (sender s) (sender_pc s) (receiver s) (receiver_pc s) (sent s) (got s) (answers s) (put s) (taken s) (n :: ended s).

(** The session that the receiver started last. *)
Definition this_session (s : System) : nat := length (got s) - 1.

(** The calls: [UWait] is a turn of [wait_started], [UFinishWait] the second await of
    [finish_and_wait], [UCancel] the caller dropping either; [UFinish n] is [drop] for one
    run of [_inner_finish] and [finish] for two. *)
Inductive Use : Type :=
| UWaitCall | UWait | USend (x : T) | UReset | UFinishSend | UFinishWait | UCancel
| UStart | URecv | UFinish (n : nat) | UDrain | UDrained | USignal.

Inductive session_step : Use → System → System → Prop :=
| step_wait_call s :
    sender_pc s = SendIdle → session_step UWaitCall s (set_sender (chan s) (sender s) SendStarting s)
| step_wait s id sd c :
    sender_pc s = SendStarting → wait_started (sender s) (chan s) = Some (id, sd, c) →
    session_step UWait s
      (log_sent (if id is Some _ then sent s ++ [[]] else sent s)
         (set_sender c sd (if id is Some _ then SendIdle else SendStarting) s))
| step_send s x c :
    sender_pc s = SendIdle → send x (chan s) = Some c →
    session_step (USend x) s (log_put (Data x) (log_sent (to_last (Data x) (sent s)) (set_sender c (sender s) SendIdle s)))
| step_send_reset s c :
    sender_pc s = SendIdle → send_reset (chan s) = Some c →
    session_step UReset s (log_put Reset_ (log_sent (to_last Reset_ (sent s)) (set_sender c (sender s) SendIdle s)))
| step_finish_send s c :
    sender_pc s = SendIdle → finish_send (chan s) = Some c →
    session_step UFinishSend s
      (log_put End_ (log_answer (if finish_waits (sender s) then [] else [(s_state (sender s), inl tt)])
         (set_sender c (sender s) (if finish_waits (sender s) then SendFinishing else SendIdle) s)))
| step_finish_wait s r sd c :
    sender_pc s = SendFinishing → finish_wait (sender s) (chan s) = Some (r, sd, c) →
    session_step UFinishWait s
      (log_answer [(s_state (sender s), r)]
         (log_sent (if r is inr (Restarted _) then sent s ++ [[]] else sent s) (set_sender c sd SendIdle s)))
| step_cancel s :
    sender_pc s ≠ SendIdle → session_step UCancel s (set_sender (chan s) (sender s) SendIdle s)
| step_start s a r c :
    receiver_pc s = RecvOutside → start (receiver s) (chan s) = (a, r, c) →
    session_step UStart s (log_got (got s ++ [[]]) (set_receiver c r (RecvInside a) s))
| step_recv s a x a' c :
    receiver_pc s = RecvInside a → recv a (chan s) = Some (x, a', c) →
    session_step URecv s
      (let s' := set_receiver c (receiver s) (RecvInside a') s in
       if should_finish a then s'
       else log_taken (Some (this_session s)) x (log_got (if x is End_ then got s else to_last x (got s)) s'))
| step_finish s a n :
    receiver_pc s = RecvInside a → n = 1%nat ∨ n = 2%nat →
    session_step (UFinish n) s (set_receiver (chan s) (receiver s) (RecvFinishing n a) s)
| step_drain s a n x c :
    receiver_pc s = RecvFinishing n a → chan_try_recv (chan s) = Some (x, c) →
    session_step UDrain s (log_taken None x (set_receiver c (receiver s) (RecvFinishing n a) s))
| step_drained s a n :
    receiver_pc s = RecvFinishing (S n) a → drain_turn (chan s) = None →
    session_step UDrained s (set_receiver (chan s) (receiver s) (RecvSignal n a) s)
| step_signal s a n :
    receiver_pc s = RecvSignal n a →
    session_step USignal s
      (log_ended (this_session s)
         (set_receiver (finish_signal a (chan s)) (receiver s) (if n is O then RecvOutside else RecvFinishing n a) s)).

(** The documented use: the sender sends only in a session that it was told of and waits
    for the answer when it has sent the end; the receiver finishes a session when it has
    seen the end. *)
Definition orderly (u : Use) (s : System) : Prop :=
  match u with
  | USend _ | UReset | UFinishSend => ∃ id, s_state (sender s) = Started id
  | UCancel => sender_pc s ≠ SendFinishing
  | UFinish _ => ∀ a, receiver_pc s = RecvInside a → should_finish a = true
  | _ => True
  end.

Definition any_use (s s' : System) : Prop := ∃ u, session_step u s s'.
Definition orderly_use (s s' : System) : Prop := ∃ u, orderly u s ∧ session_step u s s'.
End session.

(** ** Any use

    Whatever the two ends do: the queue is first in, first out, a session ends with its end
    marker, and what the sender is told is true. *)

Section props.
Context {T : Type} (capacity : Z).
Abbreviation item := (FiniteStream T).
Abbreviation step := (session_step (T := T) capacity).

Lemma to_last_snoc {A} (x : A) l k : to_last x (l ++ [k]) = l ++ [k ++ [x]].
Proof. unfold to_last. by rewrite last_snoc, removelast_last. Qed.

(** The id of a session. *)
Definition id_of (n : nat) : Z := as_u32 (Z.of_nat n).
Lemma id_of_next n : as_u32 (id_of n + 1) = id_of (S n).
Proof. unfold id_of, as_u32. rewrite Zplus_mod_idemp_l. f_equal. lia. Qed.

Definition no_end (l : list item) : Prop := End_ ∉ l.

Lemma lookup_snoc_cases {A} (l : list A) (x y : A) i :
  (l ++ [x]) !! i = Some y → l !! i = Some y ∧ (i < length l)%nat ∨ i = length l ∧ y = x.
Proof.
  intros [H|[Hl H]]%lookup_app_Some; [left; split; [done|by eapply lookup_lt_Some]|right].
  destruct (i - length l)%nat eqn:Hi; [|by destruct n]. injection H as ->. split; [lia|done].
Qed.

(** What session [n] took out of the queue. *)
Definition received (n : nat) (l : list (option nat * item)) : list item :=
  omap (λ x, if decide (x.1 = Some n) then Some x.2 else None) l.

Lemma received_snoc n l m x :
  received n (l ++ [(m, x)]) = received n l ++ (if decide (m = Some n) then [x] else []).
Proof. unfold received. rewrite omap_app. cbn. by destruct (decide (m = Some n)). Qed.

(** A session that started, a report of the lifecycle, an answer of [finish_and_wait]. *)
Definition started (s : System (T := T)) (i : Z) : Prop := ∃ n, (n < length (got s))%nat ∧ i = id_of n.
Definition finished (s : System (T := T)) (i : Z) : Prop := ∃ n, n ∈ ended s ∧ (n < length (got s))%nat ∧ i = id_of n.
Definition report_ok s (v : SessionState) : Prop :=
  match v with Started i => started s i | Finished i => finished s i | SNone => False end.
Definition answer_ok s (a : SessionState * (unit + FinishError)) : Prop :=
  match a.2 with
  | inl _ => ∀ i, a.1 = Started i → finished s i
  | inr (Restarted j) => started s j
  | inr OutOfSync => ∃ i j, a.1 = Started i ∧ i ≠ j ∧ finished s j
  | inr _ => False
  end.

(** The receiver's place in the session that it started last. *)
Definition active_of (pc : ReceiverPc) : option Active :=
  match pc with RecvOutside => None | RecvInside a | RecvFinishing _ a | RecvSignal _ a => Some a end.
Definition still_open (s : System (T := T)) (n : nat) : Prop :=
  S n = length (got s) ∧ ∃ a, receiver_pc s = RecvInside a ∧ should_finish a = false.

Record use_inv (s : System) : Prop := {
  u_put : put s = (taken s).*2 ++ queue (chan s);
  u_received n l : got s !! n = Some l →
    no_end l ∧ (received n (taken s) = l ∨ received n (taken s) = l ++ [End_] ∧ ¬ still_open s n);
  u_taken m x : (m, x) ∈ taken s → ∀ n, m = Some n → (n < length (got s))%nat;
  u_order i j n m : (taken s).*1 !! i = Some (Some n) → (taken s).*1 !! j = Some (Some m) → (i ≤ j)%nat → (n ≤ m)%nat;
  u_active a : active_of (receiver_pc s) = Some a → a_session_id a = id_of (this_session s) ∧ (0 < length (got s))%nat;
  u_next : session_id (receiver s) = id_of (length (got s));
  u_cell : unseen (chan s) = true → report_ok s (cell (chan s));
  u_sender : ∀ v, s_state (sender s) = v → v ≠ Finished 0 → report_ok s v;
  u_answers : Forall (answer_ok s) (answers s)
}.

Lemma use_inv_new : use_inv system_new.
Proof. split; cbn; try done. by intros m x Hin%elem_of_nil. Qed.

(** More sessions and more ends keep the reports true. *)
Definition extends (s s' : System (T := T)) : Prop := (length (got s) ≤ length (got s'))%nat ∧ ended s ⊆ ended s'.
Lemma finished_ext s s' i : extends s s' → finished s i → finished s' i.
Proof. intros [H1 H2] (n & Hn & Hl & ->). exists n. split; [by apply H2|]. split; [lia|done]. Qed.
Lemma started_ext s s' i : extends s s' → started s i → started s' i.
Proof. intros [H1 H2] (n & Hn & ->). exists n. split; [lia|done]. Qed.
Lemma report_ext s s' v : extends s s' → report_ok s v → report_ok s' v.
Proof. intros He. destruct v; cbn; [done|by apply started_ext|by apply finished_ext]. Qed.
Lemma answer_ext s s' a : extends s s' → answer_ok s a → answer_ok s' a.
Proof.
  intros He. unfold answer_ok. destruct a as [v [u|[]]]; cbn; [|done|done|by apply started_ext|].
  - intros H i Hi. eapply finished_ext; [done|by apply H].
  - intros (i & j & H1 & H2 & H3). exists i, j. split_and!; [done|done|by eapply finished_ext].
Qed.
Lemma answers_ext s s' : extends s s' → Forall (answer_ok s) (answers s) → Forall (answer_ok s') (answers s).
Proof. intros He H. eapply list.Forall_impl; [exact H|]. intros a. by apply answer_ext. Qed.
(** What a call of the sender leaves alone. *)
Definition receiver_same (s s' : System (T := T)) : Prop :=
  receiver s' = receiver s ∧ receiver_pc s' = receiver_pc s ∧ got s' = got s ∧ taken s' = taken s ∧ ended s' = ended s.

Lemma sender_inv s s' :
  use_inv s → receiver_same s s' → put s' = (taken s').*2 ++ queue (chan s') →
  (unseen (chan s') = true → report_ok s' (cell (chan s'))) →
  (∀ v, s_state (sender s') = v → v ≠ Finished 0 → report_ok s' v) → Forall (answer_ok s') (answers s') → use_inv s'.
Proof.
  intros [H1 H2 H3 H4 H5 H6 H7 H8 H9] (E1 & E2 & E3 & E4 & E5) Hp Hc Hs Ha.
  split; [done|..]; unfold still_open, this_session in *; rewrite ?E1, ?E2, ?E3, ?E4; done.
Qed.

Lemma same_extends s s' : receiver_same s s' → extends s s'.
Proof. intros (_ & _ & H1 & _ & H2). split; [by rewrite H1|by rewrite H2]. Qed.

Lemma cell_recv_inv (c c' : Channels (T := T)) v :
  cell_recv c = Some (v, c') → unseen c = true ∧ v = cell c ∧ queue c' = queue c ∧ unseen c' = false.
Proof. unfold cell_recv. destruct (unseen c); [|done]. by intros [= <- <-]. Qed.

Lemma chan_send_inv x (c c' : Channels (T := T)) :
  chan_send capacity x c = Some c' → c' = mkChannels (queue c ++ [x]) (cell c) (unseen c).
Proof. unfold chan_send. case_match; [|done]. by intros [= <-]. Qed.

Lemma put_inv s s' x c :
  use_inv s → chan_send capacity x (chan s) = Some c → receiver_same s s' → chan s' = c → put s' = put s ++ [x] →
  s_state (sender s') = s_state (sender s) →
  (answers s' = answers s ∨ ∃ v, answers s' = answers s ++ [(v, inl tt)] ∧ ∀ i, v ≠ Started i) → use_inv s'.
Proof.
  intros Hs ->%chan_send_inv Hr Hc Hp Hst Ha. pose proof (same_extends _ _ Hr) as He.
  apply (sender_inv s); [done|done|..]; rewrite ?Hc, ?Hp, ?Hst; cbn.
  - destruct Hr as (_ & _ & _ & -> & _). by rewrite (u_put _ Hs), (assoc_L (++)).
  - intros Hu. eapply report_ext; [done|by apply Hs].
  - intros v Hv Hn. eapply report_ext; [done|by apply Hs].
  - destruct Hs as [_ _ _ _ _ _ _ _ H9]. destruct Ha as [->|(v & -> & Hv)]; [by eapply answers_ext|].
    apply Forall_app. split; [by eapply answers_ext|]. constructor; [|constructor]. intros i Hi. by destruct (Hv i).
Qed.

(** The sender takes a report out of the cell. *)
Lemma take_inv s s' v c :
  use_inv s → cell_recv (chan s) = Some (v, c) → receiver_same s s' → chan s' = c → put s' = put s → s_state (sender s') = v →
  (answers s' = answers s ∨ answers s' = answers s ++ [(s_state (sender s), finish_result (s_state (sender s)) v)]) → use_inv s'.
Proof.
  intros Hs (Hu & -> & Hq & Hu')%cell_recv_inv Hr Hc Hp Hst Ha. pose proof (same_extends _ _ Hr) as He.
  pose proof (u_cell _ Hs Hu) as Hv.
  apply (sender_inv s); [done|done|..]; rewrite ?Hc, ?Hp, ?Hst, ?Hq, ?Hu'; [| |intros v <- _|]; try done.
  - destruct Hr as (_ & _ & _ & -> & _). apply Hs.
  - by eapply report_ext.
  - destruct Hs as [_ _ _ _ _ _ _ _ H9]. destruct Ha as [->| ->]; [by eapply answers_ext|].
    apply Forall_app. split; [by eapply answers_ext|]. constructor; [|constructor]. eapply answer_ext; [done|].
    unfold answer_ok, finish_result. cbn [fst snd]. destruct (cell (chan s)) as [|j|j]; [done|exact Hv|].
    destruct (s_state (sender s)) as [|i|i]; rewrite ?Z.eqb_refl; try done.
    destruct (Z.eqb_spec i j) as [->|Hne]; [by intros ? [= <-]|by exists i, j].
Qed.

Lemma recv_inv s a x a' c :
  use_inv s → receiver_pc s = RecvInside a → should_finish a = false → recv a (chan s) = Some (x, a', c) →
  use_inv (log_taken (Some (this_session s)) x (log_got (if x is End_ then got s else to_last x (got s)) (set_receiver c (receiver s) (RecvInside a') s))).
Proof.
  intros Hs Hpc Hf Hrecv. unfold recv, chan_try_recv in Hrecv. rewrite Hf in Hrecv. destruct (queue (chan s)) as [|y q] eqn:Hq; [done|].
  cbn in Hrecv. injection Hrecv as <- <- <-. destruct (u_active _ Hs a) as [Hid Hpos]; [by rewrite Hpc|].
  destruct Hs as [H1 H2 H3 H4 H5 H6 H7 H8 H9].
  assert (∃ l k, got s = l ++ [k]) as (l & k & Hg) by (destruct (got s) as [|k l _] using rev_ind; [cbn in Hpos; lia|by exists l, k]).
  assert (Hth : this_session s = length l) by (unfold this_session; rewrite Hg, length_app; cbn; lia).
  set (g := if y is End_ then got s else to_last y (got s)).
  assert (Hg' : g = l ++ [if y is End_ then k else k ++ [y]]) by (unfold g; rewrite Hg, to_last_snoc; by destruct y).
  assert (Hlen : length g = length (got s)) by (rewrite Hg', Hg, !length_app; done).
  destruct (H2 (length l) k) as [Hk Hrec]; [by rewrite Hg, lookup_app_r, Nat.sub_diag by done|].
  assert (Hop : still_open s (length l)) by (split; [by rewrite Hg, length_app, Nat.add_comm|eauto]).
  destruct Hrec as [Hrec|[_ Hno]]; [|done].
  split; unfold log_taken, log_got, set_receiver; cbn [put taken chan got receiver receiver_pc sender answers ended queue cell unseen].
  - rewrite fmap_app, <-(assoc_L (++)). cbn. by rewrite H1, Hq.
  - intros n m Hn. fold g in Hn. rewrite Hg' in Hn. rewrite received_snoc, Hth.
    apply lookup_snoc_cases in Hn as [[Hn Hlt]|[-> ->]].
    + rewrite decide_False by (intros [= ?]; lia). rewrite app_nil_r.
      assert (got s !! n = Some m) as Hm by (rewrite Hg; by apply lookup_app_l_Some). destruct (H2 n m Hm) as [Hne Hr]. split; [done|].
      destruct Hr as [Hr|[Hr _]]; [by left|right]. split; [done|]. intros [Hl _]. cbn in Hl. fold g in Hl. rewrite Hlen, Hg, length_app in Hl. cbn in Hl. lia.
    + rewrite decide_True by done. destruct y as [z| |]; cbn; rewrite Hrec.
      * split; [unfold no_end in *; set_solver|by left].
      * split; [unfold no_end in *; set_solver|by left].
      * split; [done|]. right. split; [done|]. intros (_ & a2 & [= <-] & Hf2). done.
  - fold g. intros m x Hin n ->. rewrite Hlen. apply elem_of_app in Hin as [Hin|[= -> ->]%list_elem_of_singleton]; [by eapply H3|unfold this_session; lia].
  - intros i j n m Hi Hj Hij. rewrite fmap_app in Hi, Hj. cbn in Hi, Hj.
    apply lookup_snoc_cases in Hi as [[Hi Hli]|[-> [= ->]]]; apply lookup_snoc_cases in Hj as [[Hj Hlj]|[-> [= ->]]]; [by eapply H4| |lia|done].
    apply list_lookup_fmap_Some in Hi as ([o z] & Heq & Hi). cbn in Heq. subst o. apply list_elem_of_lookup_2 in Hi. pose proof (H3 _ _ Hi n eq_refl). unfold this_session. lia.
  - intros a2 [= <-]. cbn. unfold this_session. cbn [got]. fold g. rewrite Hlen. split; [exact Hid|done].
  - fold g. by rewrite Hlen.
  - intros Hu. eapply report_ext; [|by apply H7]. split; cbn; [fold g; lia|done].
  - intros v Hv Hn. eapply report_ext; [|by apply H8]. split; cbn; [fold g; lia|done].
  - eapply (answers_ext s); [|done]. split; cbn; [fold g; lia|done].
Qed.

Lemma session_start_inv s a r c :
  use_inv s → receiver_pc s = RecvOutside → start (receiver s) (chan s) = (a, r, c) →
  use_inv (log_got (got s ++ [[]]) (set_receiver c r (RecvInside a) s)).
Proof.
  intros Hs Hpc. unfold start. intros [= <- <- <-]. destruct Hs as [H1 H2 H3 H4 H5 H6 H7 H8 H9].
  set (s' := log_got _ _). assert (He : extends s s') by (split; cbn; [rewrite length_app; lia|done]).
  assert (Hl : length (got s') = S (length (got s))) by (cbn; rewrite length_app; cbn; lia).
  assert (Hnone : received (length (got s)) (taken s) = []).
  { unfold received. destruct (omap _ (taken s)) as [|z l] eqn:Ho; [done|]. exfalso.
    assert (z ∈ omap (λ x, if decide (x.1 = Some (length (got s))) then Some x.2 else None) (taken s)) as Hz by (rewrite Ho; by left).
    apply list_elem_of_omap in Hz as ([m y] & Hy & Hd). cbn in Hd. destruct (decide (m = Some (length (got s)))) as [->|]; [|done].
    pose proof (H3 _ _ Hy _ eq_refl). lia. }
  split.
  - exact H1.
  - intros n l Hn. cbn in Hn. apply lookup_snoc_cases in Hn as [[Hn Hlt]|[-> ->]].
    + destruct (H2 n l Hn) as [Hne Hr]. split; [done|]. destruct Hr as [Hr|[Hr _]]; [by left|right]. split; [done|].
      intros [Hlen _]. rewrite Hl in Hlen. lia.
    + cbn [taken log_got set_receiver]. split; [apply not_elem_of_nil|by left].
  - intros m x Hin n Hm. rewrite Hl. pose proof (H3 m x Hin n Hm). lia.
  - exact H4.
  - intros a2 [= <-]. unfold this_session. rewrite Hl. cbn. rewrite Nat.sub_0_r. split; [exact H6|lia].
  - rewrite Hl. cbn. by rewrite H6, id_of_next.
  - intros _. cbn. exists (length (got s)). split; [cbn; rewrite length_app; cbn; lia|exact H6].
  - intros v Hv Hn. eapply report_ext; [done|by apply H8].
  - by apply (answers_ext s).
Qed.

(** The receiver changes its place, and nothing else. *)
Lemma place_inv s pc :
  use_inv s → active_of pc = active_of (receiver_pc s) →
  (∀ a, pc = RecvInside a → receiver_pc s = RecvInside a) → use_inv (set_receiver (chan s) (receiver s) pc s).
Proof.
  intros [H1 H2 H3 H4 H5 H6 H7 H8 H9] Ha Hin. split; try done.
  - intros n l Hn. destruct (H2 n l Hn) as [Hne Hr]. split; [done|]. destruct Hr as [Hr|[Hr Hno]]; [by left|right].
    split; [done|]. intros (Hl & a & Hpc & Hf). apply Hno. split; [done|]. exists a. split; [|done]. by apply Hin.
  - intros a Hpc. cbn in Hpc. rewrite Ha in Hpc. exact (H5 a Hpc).
Qed.

Lemma drain_inv s n a x c :
  use_inv s → receiver_pc s = RecvFinishing n a → chan_try_recv (chan s) = Some (x, c) →
  use_inv (log_taken None x (set_receiver c (receiver s) (RecvFinishing n a) s)).
Proof.
  intros [H1 H2 H3 H4 H5 H6 H7 H8 H9] Hpc. unfold chan_try_recv. destruct (queue (chan s)) as [|y q] eqn:Hq; [done|]. intros [= <- <-].
  split; try done; unfold log_taken, set_receiver; cbn [put taken chan got receiver receiver_pc sender answers ended queue].
  - rewrite fmap_app, <-(assoc_L (++)). cbn. by rewrite H1.
  - intros m l Hm. rewrite received_snoc, decide_False, app_nil_r by done. destruct (H2 m l Hm) as [Hne Hr]. split; [done|].
    destruct Hr as [Hr|[Hr _]]; [by left|right]. split; [done|]. intros (_ & a' & Hpc' & _). done.
  - intros m z Hin k Hm. apply elem_of_app in Hin as [Hin|[= -> ->]%list_elem_of_singleton]; [by eapply H3|done].
  - intros i j k m Hi Hj. rewrite fmap_app in Hi, Hj. cbn in Hi, Hj.
    apply lookup_snoc_cases in Hi as [[Hi _]|[_ ?]]; [|done]. apply lookup_snoc_cases in Hj as [[Hj _]|[_ ?]]; [by eapply H4|done].
  - intros a' [= <-]. apply H5. by rewrite Hpc.
Qed.

Lemma signal_inv s n a :
  use_inv s → receiver_pc s = RecvSignal n a →
  use_inv (log_ended (this_session s)
    (set_receiver (finish_signal a (chan s)) (receiver s) (if n is O then RecvOutside else RecvFinishing n a) s)).
Proof.
  intros Hs Hpc. destruct (u_active _ Hs a) as [Hid Hpos]; [by rewrite Hpc|]. destruct Hs as [H1 H2 H3 H4 H5 H6 H7 H8 H9].
  set (s' := log_ended _ _). assert (He : extends s s') by (split; cbn; [done|set_solver]).
  split; try done.
  - intros m l Hm. destruct (H2 m l Hm) as [Hne Hr]. split; [done|]. destruct Hr as [Hr|[Hr _]]; [by left|right].
    split; [done|]. intros (_ & a' & Hpc' & _). cbn in Hpc'. by destruct n.
  - intros a' Ha'. cbn in Ha'. apply H5. rewrite Hpc. by destruct n.
  - intros _. cbn. exists (this_session s). cbn. split; [by left|]. split; [unfold this_session; lia|done].
  - intros v Hv Hn. eapply report_ext; [done|by apply H8].
  - by apply (answers_ext s).
Qed.

Lemma use_inv_step s s' : use_inv s → any_use capacity s s' → use_inv s'.
Proof.
  intros Hs [u Hstep].
  destruct Hstep as [s Hpc|s id sd c Hpc Hop|s x c Hpc Hop|s c Hpc Hop|s c Hpc Hop|s r sd c Hpc Hop|s Hpc|s a r c Hpc Hop
    |s a x a' c Hpc Hop|s a n Hpc Hn|s a n x c Hpc Hop|s a n Hpc Hop|s a n Hpc].
  - apply (sender_inv s); try done; apply Hs.
  - unfold wait_started in Hop. destruct (cell_recv (chan s)) as [[v c']|] eqn:Hc; [|done]. cbn in Hop. injection Hop as <- <- <-.
    apply (take_inv s _ v c'); try done. by left.
  - apply (put_inv s _ (Data x) c); try done. by left.
  - apply (put_inv s _ Reset_ c); try done. by left.
  - apply (put_inv s _ End_ c); try done. cbn. unfold finish_waits. destruct (s_state (sender s)) as [| |i] eqn:Hst; [left|left|right].
    1,2: by rewrite app_nil_r. by exists (Finished i).
  - unfold finish_wait in Hop. destruct (cell_recv (chan s)) as [[v c']|] eqn:Hc; [|done]. cbn in Hop. injection Hop as <- <- <-.
    apply (take_inv s _ v c'); try done. by right.
  - apply (sender_inv s); try done; apply Hs.
  - by apply session_start_inv.
  - destruct (should_finish a) eqn:Hf; cbn zeta; rewrite ?Hf; [|by eapply recv_inv].
    unfold recv in Hop. rewrite Hf in Hop. injection Hop as <- <- <-. apply place_inv; [done|by rewrite Hpc|]. by intros ? [= <-].
  - apply place_inv; [done|by rewrite Hpc|done].
  - by apply drain_inv.
  - apply place_inv; [done|by rewrite Hpc|done].
  - by apply signal_inv.
Qed.

Lemma use_inv_reachable s : rtc (any_use capacity) system_new s → use_inv s.
Proof. apply (rtc_ind_r use_inv); [apply use_inv_new|]. intros s1 s2 _ Hstep Hs. by eapply use_inv_step. Qed.

(** ** The documented use *)

(** The answers of [finish_and_wait] that are no failure. *)
Definition synchronized (r : unit + FinishError) : Prop := r = inl tt ∨ ∃ id, r = inr (Restarted id).
Definition in_step (l : list (SessionState * (unit + FinishError))) : Prop := Forall (λ a, synchronized a.2) l.
Definition outside_session (st : SessionState) : Prop := ∀ id, st ≠ Started id.
Definition not_finishing (pc : SenderPc) : Prop := pc = SendIdle ∨ pc = SendStarting.

(** The receiver is finishing session [a]: before and after its first signal. *)
Inductive ending (a : Active) : ReceiverPc → Prop :=
| ending_inside : should_finish a = true → ending a (RecvInside a)
| ending_finishing n : ending a (RecvFinishing (S n) a)
| ending_signal n : ending a (RecvSignal n a).
Inductive ended_session (a : Active) : ReceiverPc → Prop :=
| ended_outside : ended_session a RecvOutside
| ended_finishing n : ended_session a (RecvFinishing (S n) a)
| ended_signal n : ended_session a (RecvSignal n a).

(** [l] are the sessions that are complete. *)
Inductive session_inv : System (T := T) → Prop :=
| inv_outside l c u st spc r rpc res a p tk en :
    outside_session c → outside_session st → not_finishing spc → r = id_of (length l) → ended_session a rpc → in_step res →
    session_inv (mkSystem (mkChannels [] c u) (mkSender st) spc (mkReceiver r) rpc l l res p tk en)
| inv_answered l st r rpc res a p tk en :
    st = Started (a_session_id a) → r = id_of (length l) → ended_session a rpc → in_step res →
    session_inv (mkSystem (mkChannels [] (Finished (a_session_id a)) true) (mkSender st) SendFinishing (mkReceiver r) rpc l l res p tk en)
| inv_ending l st r rpc res a p tk en :
    st = Started (a_session_id a) → r = id_of (length l) → ending a rpc → in_step res →
    session_inv (mkSystem (mkChannels [] st false) (mkSender st) SendFinishing (mkReceiver r) rpc l l res p tk en)
| inv_started l st r id res spc p tk en :
    id = id_of (length l) → r = id_of (S (length l)) → (spc = SendFinishing ∨ not_finishing spc ∧ outside_session st) → in_step res →
    session_inv (mkSystem (mkChannels [] (Started id) true) (mkSender st) spc (mkReceiver r)
      (RecvInside (mkActive id false)) l (l ++ [[]]) res p tk en)
| inv_inside l r id spc res k rest p tk en :
    id = id_of (length l) → r = id_of (S (length l)) → not_finishing spc → no_end rest → in_step res →
    session_inv (mkSystem (mkChannels rest (Started id) false) (mkSender (Started id)) spc (mkReceiver r)
      (RecvInside (mkActive id false)) (l ++ [k ++ rest]) (l ++ [k]) res p tk en)
| inv_finishing l r id res k rest p tk en :
    id = id_of (length l) → r = id_of (S (length l)) → no_end rest → in_step res →
    session_inv (mkSystem (mkChannels (rest ++ [End_]) (Started id) false) (mkSender (Started id)) SendFinishing (mkReceiver r)
      (RecvInside (mkActive id false)) (l ++ [k ++ rest]) (l ++ [k]) res p tk en).

Lemma session_inv_new : session_inv system_new.
Proof. apply (inv_outside [] _ _ _ _ _ _ _ (mkActive 0 true)); try done; [by left|constructor|constructor]. Qed.

Lemma ended_drained a b n : ended_session a (RecvFinishing n b) → a = b.
Proof. by inversion 1. Qed.
Lemma ended_signalled a b n : ended_session a (RecvSignal n b) → a = b.
Proof. by inversion 1. Qed.
Lemma ended_not_inside a b : ¬ ended_session a (RecvInside b).
Proof. by inversion 1. Qed.
Lemma ended_next a n : ended_session a (if n is O then RecvOutside else RecvFinishing n a).
Proof. destruct n; constructor. Qed.
Lemma in_step_snoc l a : in_step l → synchronized a.2 → in_step (l ++ [a]).
Proof. intros Hl Ha. apply list.Forall_app. split; [done|]. by constructor. Qed.

#[local] Hint Unfold not_finishing : session.
#[local] Hint Constructors ended_session ending : session.
#[local] Hint Resolve ended_next in_step_snoc : session.

(** One case per step that is possible, with its call as [Hop]. *)
Ltac inv_op Hord Hstep :=
  inversion Hstep; subst; cbn in *; simplify_eq;
  try match goal with
      | H : wait_started _ _ = _ |- _ => rename H into Hop
      | H : finish_wait _ _ = _ |- _ => rename H into Hop
      | H : start _ _ = _ |- _ => rename H into Hop
      | H : send _ _ _ = _ |- _ => rename H into Hop
      | H : send_reset _ _ = _ |- _ => rename H into Hop
      | H : finish_send _ _ = _ |- _ => rename H into Hop
      | H : recv _ _ = _ |- _ => rename H into Hop
      end;
  try match type of Hord with
      | ∃ id, _ = Started id => destruct Hord as [? Hord]; subst
      end;
  unfold log_answer, log_sent, log_got, log_put, log_taken, log_ended, set_sender, set_receiver in *; cbn in *.

(** The sender waits for the next session. *)
Lemma outside_step l c u st spc r rpc res a p tk en w s' :
  outside_session c → outside_session st → not_finishing spc → r = id_of (length l) → ended_session a rpc → in_step res →
  let s := mkSystem (mkChannels [] c u) (mkSender st) spc (mkReceiver r) rpc l l res p tk en in
  orderly w s → step w s s' → session_inv s'.
Proof.
  intros Hc Hst Hspc Hr He Hres s Hord Hstep. subst s. inv_op Hord Hstep; try (by destruct Hspc); try (by destruct (Hst _ Hord)); try (by destruct (Hst _ eq_refl)).
  - eapply inv_outside; eauto with session.
  - unfold wait_started, cell_recv in Hop. cbn in Hop. destruct u; [|done]. cbn in Hop. injection Hop as <- <- <-.
    destruct c as [|id'|]; [|by destruct (Hc id')|]; eapply inv_outside; eauto with session.
  - eapply inv_outside; eauto with session.
  - unfold start in Hop. injection Hop as <- <- <-. cbn. apply inv_started; [done|apply id_of_next|by right|done].
  - by apply ended_not_inside in He.
  - by apply ended_not_inside in He.
  - eapply inv_outside; eauto with session.
  - apply ended_signalled in He as ->. eapply inv_outside; eauto with session. by intros ?.
Qed.

(** The receiver has finished, the sender does not know yet. *)
Lemma answered_step l r rpc res a p tk en w s' :
  r = id_of (length l) → ended_session a rpc → in_step res →
  let s := mkSystem (mkChannels [] (Finished (a_session_id a)) true) (mkSender (Started (a_session_id a))) SendFinishing
    (mkReceiver r) rpc l l res p tk en in
  orderly w s → step w s s' → session_inv s'.
Proof.
  intros Hr He Hres s Hord Hstep. subst s. inv_op Hord Hstep; try done.
  - rewrite Z.eqb_refl. eapply inv_outside; eauto with session; try (by intros ?). apply in_step_snoc; [done|by left].
  - unfold start in Hop. injection Hop as <- <- <-. cbn. apply inv_started; [done|apply id_of_next|by left|done].
  - by apply ended_not_inside in He.
  - by apply ended_not_inside in He.
  - apply ended_drained in He as ->. apply inv_answered; eauto with session.
  - apply ended_signalled in He as ->. apply inv_answered; eauto with session.
Qed.

(** The receiver has seen the end. *)
Lemma ending_step l r rpc res a p tk en w s' :
  r = id_of (length l) → ending a rpc → in_step res →
  let s := mkSystem (mkChannels [] (Started (a_session_id a)) false) (mkSender (Started (a_session_id a))) SendFinishing
    (mkReceiver r) rpc l l res p tk en in
  orderly w s → step w s s' → session_inv s'.
Proof.
  intros Hr He Hres s Hord Hstep. subst s. inv_op Hord Hstep; try done.
  - by inversion He.
  - inversion He; subst. unfold recv in Hop. match goal with H : should_finish _ = true |- _ => rewrite H in Hop |- * end.
    injection Hop as <- <- <-. cbn. by eapply inv_ending.
  - inversion He; subst; try (match goal with H : _ ∨ _ |- _ => destruct H as [-> | ->] end);
      (eapply inv_ending; [reflexivity|done|constructor|done]).
  - inversion He; subst; (eapply inv_ending; [reflexivity|done|constructor|done]).
  - inversion He; subst. apply inv_answered; eauto with session.
Qed.

(** The receiver has started a session that the sender does not know yet. *)
Lemma started_step l st r id res spc p tk en w s' :
  id = id_of (length l) → r = id_of (S (length l)) → (spc = SendFinishing ∨ not_finishing spc ∧ outside_session st) → in_step res →
  let s := mkSystem (mkChannels [] (Started id) true) (mkSender st) spc (mkReceiver r)
    (RecvInside (mkActive id false)) l (l ++ [[]]) res p tk en in
  orderly w s → step w s s' → session_inv s'.
Proof.
  intros Hid Hr Hspc Hres s Hord Hstep. subst s. inv_op Hord Hstep;
    try (destruct Hspc as [?|[? Hst]]; [done|]); try (by destruct (Hst _ eq_refl)); try done.
  - apply inv_started; eauto with session.
  - apply (inv_inside l _ _ _ _ [] []); eauto with session. apply not_elem_of_nil.
  - apply (inv_inside l _ _ _ _ [] []); eauto with session; [apply not_elem_of_nil|]. apply in_step_snoc; [done|right; eauto].
  - apply inv_started; eauto with session.
  - specialize (Hord _ eq_refl). done.
Qed.

(** Both are in the session. *)
Lemma inside_send l r id spc res k rest x c p tk en :
  id = id_of (length l) → r = id_of (S (length l)) → not_finishing spc → no_end rest → x ≠ End_ → in_step res →
  chan_send capacity x (mkChannels rest (Started id) false) = Some c →
  session_inv (mkSystem c (mkSender (Started id)) spc (mkReceiver r) (RecvInside (mkActive id false))
    (to_last x (l ++ [k ++ rest])) (l ++ [k]) res p tk en).
Proof.
  intros Hid Hr Hspc Hno Hx Hres ->%chan_send_inv. cbn.
  rewrite to_last_snoc, <-app_assoc. apply inv_inside; try done. unfold no_end in *. set_solver.
Qed.

Lemma inside_step l r id spc res k rest p tk en w s' :
  id = id_of (length l) → r = id_of (S (length l)) → not_finishing spc → no_end rest → in_step res →
  let s := mkSystem (mkChannels rest (Started id) false) (mkSender (Started id)) spc (mkReceiver r)
    (RecvInside (mkActive id false)) (l ++ [k ++ rest]) (l ++ [k]) res p tk en in
  orderly w s → step w s s' → session_inv s'.
Proof.
  intros Hid Hr Hspc Hno Hres s Hord Hstep. subst s. inv_op Hord Hstep; try (by destruct Hspc).
  - eapply inv_inside; eauto with session.
  - eapply inside_send; eauto with session.
  - eapply inside_send; eauto with session.
  - apply chan_send_inv in Hop as ->. cbn. rewrite app_nil_r. by apply inv_finishing.
  - eapply inv_inside; eauto with session.
  - unfold recv, chan_try_recv in Hop. cbn in Hop. destruct rest as [|y rest]; [done|]. cbn in Hop. injection Hop as <- <- <-.
    assert (y ≠ End_) as Hy by (intros ->; apply Hno; by left).
    assert (no_end rest) as Hno' by (intros Hin; apply Hno; by right).
    assert (k ++ y :: rest = (k ++ [y]) ++ rest) as -> by (by rewrite <-app_assoc). destruct y; try done; rewrite to_last_snoc; by apply inv_inside.
  - specialize (Hord _ eq_refl). done.
Qed.

Lemma finishing_step l r id res k rest p tk en w s' :
  id = id_of (length l) → r = id_of (S (length l)) → no_end rest → in_step res →
  let s := mkSystem (mkChannels (rest ++ [End_]) (Started id) false) (mkSender (Started id)) SendFinishing (mkReceiver r)
    (RecvInside (mkActive id false)) (l ++ [k ++ rest]) (l ++ [k]) res p tk en in
  orderly w s → step w s s' → session_inv s'.
Proof.
  intros Hid Hr Hno Hres s Hord Hstep. subst s. inv_op Hord Hstep; try done.
  - unfold recv, chan_try_recv in Hop. cbn in Hop. destruct rest as [|y rest]; cbn in Hop; injection Hop as <- <- <-.
    + rewrite app_nil_r. apply (inv_ending (l ++ [k]) _ _ _ _ (mkActive (id_of (length l)) true));
        [done|by rewrite length_app, Nat.add_comm|by constructor|done].
    + assert (y ≠ End_) as Hy by (intros ->; apply Hno; by left).
      assert (no_end rest) as Hno' by (intros Hin; apply Hno; by right).
      assert (k ++ y :: rest = (k ++ [y]) ++ rest) as -> by (by rewrite <-app_assoc). destruct y; try done; rewrite to_last_snoc; by apply inv_finishing.
  - specialize (Hord _ eq_refl). done.
Qed.

Lemma session_inv_step s s' : session_inv s → orderly_use capacity s s' → session_inv s'.
Proof.
  intros [] [w [Hord Hstep]]; subst.
  - eapply outside_step; [..|exact Hord|exact Hstep]; try eassumption; reflexivity.
  - eapply answered_step; [..|exact Hord|exact Hstep]; try eassumption; reflexivity.
  - eapply ending_step; [..|exact Hord|exact Hstep]; try eassumption; reflexivity.
  - eapply started_step; [..|exact Hord|exact Hstep]; try eassumption; reflexivity.
  - eapply inside_step; [..|exact Hord|exact Hstep]; try eassumption; reflexivity.
  - eapply finishing_step; [..|exact Hord|exact Hstep]; try eassumption; reflexivity.
Qed.

Lemma session_inv_reachable s : rtc (orderly_use capacity) system_new s → session_inv s.
Proof. apply (rtc_ind_r session_inv); [apply session_inv_new|]. intros s1 s2 _ Hstep Hs. by eapply session_inv_step. Qed.

(** The receiver is not in the middle of a session. *)
Definition at_end (pc : ReceiverPc) : bool := if pc is RecvInside a then should_finish a else true.

(** The current session is a prefix, the ones before are complete. *)
Lemma sessions_prefix (l : list (list item)) k rest i m :
  (l ++ [k]) !! i = Some m → ∃ m', (l ++ [k ++ rest]) !! i = Some m' ∧ m `prefix_of` m'.
Proof.
  intros [[H Hlt]|[-> ->]]%lookup_snoc_cases.
  - exists m. split; [by apply lookup_app_l_Some|done].
  - exists (k ++ rest). split; [|by apply prefix_app_r].
    by rewrite lookup_app_r, Nat.sub_diag.
Qed.
Lemma sessions_complete {A} (l : list A) x y i m :
  (l ++ [x]) !! i = Some m → (S i < length (l ++ [x]))%nat → (l ++ [y]) !! i = Some m.
Proof.
  rewrite length_app. cbn. intros [[H Hlt]|[-> ->]]%lookup_snoc_cases Hi; [by apply lookup_app_l_Some|lia].
Qed.

(** A step that is not the caller giving up, nor a wait for a session that the sender
    already is in. *)
Definition advances (s : System) : Prop :=
  ∃ w s', w ≠ UCancel ∧ (w = UWaitCall → outside_session (s_state (sender s))) ∧ orderly w s ∧ step w s s'.

Lemma advance w s s' :
  w ≠ UCancel → w ≠ UWaitCall → orderly w s → step w s s' → advances s.
Proof. intros. exists w, s'. split_and!; [done|by intros ->|done|done]. Qed.

Lemma progress s :
  0 < capacity → session_inv s → (sender_pc s = SendStarting → outside_session (s_state (sender s))) → advances s.
Proof.
  intros Hcap [l c u st spc r rpc res a p tk en Hc Hst Hspc Hr He Hres|l st r rpc res a p tk en -> Hr He Hres|l st r rpc res a p tk en -> Hr He Hres
    |l st r id res spc p tk en Hid Hr Hspc Hres|l r id spc res k rest p tk en Hid Hr Hspc Hno Hres|l r id res k rest p tk en Hid Hr Hno Hres]; cbn; intros Hw.
  - destruct He; (eapply advance; [| | |first [by eapply step_start|by eapply step_drained|by eapply step_signal]]); done.
  - destruct He; (eapply advance; [| | |first [by eapply step_start|by eapply step_drained|by eapply step_signal]]); done.
  - destruct He; [eapply (advance (UFinish 1)); [done|done| |eapply step_finish; [done|by left]]; by intros ? [= <-]| |];
      (eapply advance; [| | |first [by eapply step_drained|by eapply step_signal]]); done.
  - destruct Hspc as [->|[[->| ->] Hst]].
    + eapply advance; [| | |by eapply step_finish_wait]; done.
    + eexists UWaitCall, _. split_and!; [done|done|done|by apply step_wait_call].
    + eapply advance; [| | |by eapply step_wait]; done.
  - destruct Hspc as [->| ->]; [|by destruct (Hw eq_refl id)].
    destruct rest as [|x rest]; [|eapply advance; [| | |by eapply step_recv]; done].
    eapply (advance UFinishSend); [done|done|by eexists|]. eapply step_finish_send; [done|]. unfold finish_send, chan_send. cbn.
    change (len []) with 0. by rewrite (proj2 (Z.ltb_lt _ _)).
  - destruct rest as [|x rest]; (eapply advance; [| | |by eapply step_recv]; done).
Qed.

(** What arrives in a session when it is used as documented. *)
Lemma orderly_sessions s :
  session_inv s →
  (∀ i m, got s !! i = Some m → m = [] ∨ ∃ m', sent s !! i = Some m' ∧ m `prefix_of` m') ∧
  (∀ i m, got s !! i = Some m → (S i < length (got s))%nat ∨ at_end (receiver_pc s) = true → sent s !! i = Some m) ∧
  in_step (answers s).
Proof.
  intros [l c u st spc r rpc res a p tk en Hc Hst Hspc Hr He Hres|l st r rpc res a p tk en -> Hr He Hres|l st r rpc res a p tk en -> Hr He Hres
    |l st r id res spc p tk en Hid Hr Hspc Hres|l r id spc res k rest p tk en Hid Hr Hspc Hno Hres|l r id res k rest p tk en Hid Hr Hno Hres];
    cbn in *; (split; [|split; [|done]]); try (intros i m Hm; right; by exists m); try done.
  - intros i m [[H _]|[_ ->]]%lookup_snoc_cases; [right; by exists m|by left].
  - intros i m Hm [Hi|]; [|done]. rewrite length_app in Hi. cbn in Hi.
    apply lookup_snoc_cases in Hm as [[H _]|[-> _]]; [done|lia].
  - intros i m Hm. right. by eapply sessions_prefix.
  - intros i m Hm [Hi|]; [|done]. by eapply sessions_complete.
  - intros i m Hm. right. by eapply sessions_prefix.
  - intros i m Hm [Hi|]; [|done]. by eapply sessions_complete.
Qed.

(** C30: sessions keep their data apart.  In whatever order the two ends call their
    operations, and wherever a call is given up: what was put into the channel is what was
    taken out and what is still in it, in order; a session takes no item after its end
    marker, and nothing that a session before it has not left; a sender is only told of
    sessions that were started, and its [finish_and_wait] succeeds only when its session
    was finished.  When the ends use it as documented (the sender sends in the session it
    was told of and does not give up [finish_and_wait], the receiver finishes when it has
    seen the end), every session receives in order a prefix of what was sent in it, and all
    of it at its end, no answer is [OutOfSync], and a call can go on, unless the sender
    waits for the start of a session although it was told of one that is not over. *)
Theorem session_data_intact s :
  (rtc (any_use capacity) system_new s →
     put s = (taken s).*2 ++ queue (chan s) ∧
     (∀ n l, got s !! n = Some l → no_end l ∧ (received n (taken s) = l ∨ received n (taken s) = l ++ [End_])) ∧
     (∀ i j n m, (taken s).*1 !! i = Some (Some n) → (taken s).*1 !! j = Some (Some m) → (i ≤ j)%nat → (n ≤ m)%nat) ∧
     (∀ id, s_state (sender s) = Started id → started s id) ∧ Forall (answer_ok s) (answers s)) ∧
  (0 < capacity → rtc (orderly_use capacity) system_new s →
     (∀ i m, got s !! i = Some m → m = [] ∨ ∃ m', sent s !! i = Some m' ∧ m `prefix_of` m') ∧
     (∀ i m, got s !! i = Some m → (S i < length (got s))%nat ∨ at_end (receiver_pc s) = true → sent s !! i = Some m) ∧
     in_step (answers s) ∧
     ((sender_pc s = SendStarting → outside_session (s_state (sender s))) → advances s)).
Proof.
  split.
  - intros [H1 H2 _ H4 _ _ _ H8 H9]%use_inv_reachable. split; [done|]. split; [|split; [done|split; [|done]]].
    + intros n l Hn. destruct (H2 n l Hn) as [Hne Hr]. split; [done|]. by destruct Hr as [Hr|[Hr _]]; [left|right].
    + intros id Hst. by apply (H8 (Started id)).
  - intros Hcap Hs%session_inv_reachable. destruct (orderly_sessions s Hs) as (H1 & H2 & H3). split_and!; [done..|].
    by apply progress.
Qed.
End props.

Module DemoSession.
(** A receiver that starts the next session at once, and a sender that is told so by
    [finish_and_wait] and then waits for the start, as it is recommended to: both wait
    for ever. *)
Definition opening : Channels (T := Z) := (start receiver_new channels_new).2.
Lemma restarted_sender_waits_forever :
  ∃ sd c c' a r',
    wait_started sender_new opening = Some (Some 0, sd, c) ∧
    finish_send (T := Z) 8 c = Some (mkChannels [End_] (Started 0) false) ∧
    start (mkReceiver 1) (finish_signal (mkActive 0 true) (mkChannels [] (Started 0) false)) = (a, r', c') ∧
    ∃ sd' c'', finish_wait sd c' = Some (inr (Restarted 1), sd', c'') ∧ wait_started sd' c'' = None ∧ recv (T := Z) a c'' = None.
Proof. do 5 eexists. do 3 (split; [reflexivity|]). do 2 eexists. split; [reflexivity|]. split; reflexivity. Qed.

(** The next step of a run. *)
Ltac play tac := eapply rtc_l; [eexists; tac|vm_compute].

(** The receiver gives up session 0 before its end, the sender sends in it and is
    answered that it was finished: its item and its end marker are what session 1 gets. *)
Definition left_over : System (T := Z) :=
  mkSystem (mkChannels [] (Started 1) true) (mkSender (Finished 0)) SendIdle (mkReceiver 2) (RecvInside (mkActive 1 true))
    [[Data 5]] [[]; [Data 5]] [(Started 0, inl tt)] [Data 5; End_] [(Some 1%nat, Data 5); (Some 1%nat, End_)] [0%nat].
Lemma early_finish_spills : rtc (any_use 8) system_new left_over.
Proof.
  play ltac:(eapply step_start; reflexivity). play ltac:(apply step_wait_call; reflexivity). play ltac:(eapply step_wait; reflexivity).
  play ltac:(eapply step_finish; [reflexivity|by left]). play ltac:(eapply step_drained; reflexivity). play ltac:(eapply step_signal; reflexivity).
  play ltac:(eapply step_send with (x := 5); reflexivity). play ltac:(eapply step_finish_send; reflexivity).
  play ltac:(eapply step_finish_wait; reflexivity). play ltac:(eapply step_start; reflexivity).
  do 2 play ltac:(eapply step_recv; reflexivity). apply rtc_refl.
Qed.

(** A session with one item that arrived, and of which the sender has sent the end. *)
Definition one_item : System (T := Z) :=
  mkSystem (mkChannels [End_] (Started 0) false) (mkSender (Started 0)) SendFinishing (mkReceiver 1)
    (RecvInside (mkActive 0 false)) [[Data 5]] [[Data 5]] [] [Data 5; End_] [(Some 0%nat, Data 5)] [].

Lemma one_item_reachable : rtc (orderly_use 8) system_new one_item.
Proof.
  eapply rtc_l; [eexists; split; [|by eapply step_start]; done|].
  eapply rtc_l; [eexists; split; [|by apply step_wait_call]; done|].
  eapply rtc_l; [eexists; split; [|by eapply step_wait]; done|].
  eapply rtc_l; [eexists; split; [|by apply step_send with (x := 5)]; by eexists|].
  eapply rtc_l; [eexists; split; [|by eapply step_finish_send]; by eexists|].
  eapply rtc_l; [eexists; split; [|by eapply step_recv]; done|]. apply rtc_refl.
Qed.

Lemma session_data_intact_witness :
  (∃ m', sent one_item !! 0%nat = Some m' ∧ [Data 5] `prefix_of` m') ∧ advances 8 one_item ∧
  put left_over = (taken left_over).*2 ++ queue (chan left_over) ∧ Forall (answer_ok left_over) (answers left_over).
Proof.
  destruct (session_data_intact 8 one_item) as [_ H]. destruct (H ltac:(reflexivity) one_item_reachable) as (H1 & _ & _ & Hp).
  destruct (session_data_intact 8 left_over) as [H2 _]. destruct (H2 early_finish_spills) as (H3 & _ & _ & _ & H4).
  split; [|split; [apply Hp; discriminate|split; [exact H3|exact H4]]]. destruct (H1 0%nat [Data 5] eq_refl) as [Hn|Hm]; [discriminate|exact Hm].
Defined.
End DemoSession.
