(* ===== verification/OnceLock.v ===== *)
(** * The once lock

    [sync/once_lock.rs]: a cell that is initialized at most once, by any number of
    threads.  Each access to the atomic and each access to the data is a step; memory is
    sequentially consistent.  Reading the data before it was written is undefined
    behaviour, a state of its own here, which is never reached. *)

From stdpp Require Import base list list_numbers numbers option relations.
From S2P Require Import Prelude.

Inductive Init : Type := INone | Busy | Done.
Definition init_as_u8 (i : Init) : Z := match i with INone => 0 | Busy => 1 | Done => 2 end.

Section once_lock.
Context {T : Type}.

(** [data] is [None] while it is uninitialized. *)
Record OnceLock : Type := mkLock { initialized : Z; data : option T }.
Definition lock_new : OnceLock := mkLock (init_as_u8 INone) None.

Definition compare_exchange (old new : Z) (m : OnceLock) : option OnceLock :=
  if initialized m =? old then Some (mkLock new (data m)) else None.
Definition store_init (i : Init) (m : OnceLock) : OnceLock := mkLock (init_as_u8 i) (data m).
Definition write_data (v : T) (m : OnceLock) : OnceLock := mkLock (initialized m) (Some v).

(** Where a thread is.  [Loading] and [Reading] are in [get]; [own] is whether the
    call is part of [get_or_try_init]. *)
Inductive Pc : Type :=
| InitStart (v : T)
| InitBusy (v : T)
| InitWritten
| Loading (own : bool)
| Reading (own : bool)
| Returned (own : bool) (r : option T)
| UndefinedBehaviour.

(** One step of [get_or_try_init] or [get]. *)
Definition thread_step (p : Pc) (m : OnceLock) : option (Pc * OnceLock) :=
  match p with
  | InitStart v =>
      Some (match compare_exchange (init_as_u8 INone) (init_as_u8 Busy) m with
            | Some m => (InitBusy v, m)
            | None => (Returned true None, m)
            end)
  | InitBusy v => Some (InitWritten, write_data v m)
  | InitWritten => Some (Loading true, store_init Done m)
  | Loading own => Some (if initialized m =? init_as_u8 Done then Reading own else Returned own None, m)
  | Reading own => Some (match data m with Some v => Returned own (Some v) | None => UndefinedBehaviour end, m)
  | Returned _ _ | UndefinedBehaviour => None
  end.

Record Threads : Type := mkThreads { lock : OnceLock; pcs : list Pc }.

Inductive lock_step : Threads → Threads → Prop :=
| lock_thread t i p p' m' :
    pcs t !! i = Some p → thread_step p (lock t) = Some (p', m') →
    lock_step t (mkThreads m' (<[i := p']> (pcs t))).

(** A thread starts with a call of [get_or_try_init] or [get]. *)
Definition fresh (p : Pc) : Prop := (∃ v, p = InitStart v) ∨ p = Loading false.

(** ** The invariant *)

(** The thread that won the race, on its way. *)
Definition initializing (p : Pc) : bool := match p with InitBusy _ | InitWritten => true | _ => false end.
Definition winner (p : Pc) : bool :=
  match p with InitBusy _ | InitWritten | Loading true | Reading true | Returned true (Some _) => true | _ => false end.
Fixpoint count (P : Pc → bool) (l : list Pc) : nat :=
  match l with [] => 0 | p :: l => Nat.b2n (P p) + count P l end.

(** What a thread may have seen, given the lock. *)
Definition sees (m : OnceLock) (p : Pc) : Prop :=
  match p with
  | InitStart _ | Returned _ None => True
  | InitBusy _ => initialized m = init_as_u8 Busy
  | InitWritten => initialized m = init_as_u8 Busy ∧ data m ≠ None
  | Loading own => own = true → initialized m = init_as_u8 Done
  | Reading _ => initialized m = init_as_u8 Done
  | Returned _ (Some v) => initialized m = init_as_u8 Done ∧ data m = Some v
  | UndefinedBehaviour => False
  end.

Definition lock_inv (t : Threads) : Prop :=
  Forall (sees (lock t)) (pcs t) ∧
  (initialized (lock t) = init_as_u8 Done → data (lock t) ≠ None) ∧
  (count initializing (pcs t) ≤ 1)%nat ∧ (count winner (pcs t) ≤ 1)%nat ∧
  (initialized (lock t) ≠ init_as_u8 Busy → count initializing (pcs t) = 0%nat) ∧
  (initialized (lock t) = init_as_u8 INone → count winner (pcs t) = 0%nat).

Lemma count_insert P l i p q :
  l !! i = Some p → (count P (<[i := q]> l) + Nat.b2n (P p) = count P l + Nat.b2n (P q))%nat.
Proof.
  revert i. induction l as [|x l IH]; intros [|i]; [done|done| |].
  - intros [= ->]. cbn. lia.
  - intros Hi. specialize (IH i Hi). change (<[S i:=q]> (x :: l)) with (x :: <[i:=q]> l). cbn [count]. lia.
Qed.

Lemma count_pos P l i p : l !! i = Some p → P p = true → (0 < count P l)%nat.
Proof.
  revert i. induction l as [|x l IH]; intros [|i] Hi Hp; try done; cbn [count].
  - injection Hi as ->. rewrite Hp. cbn. lia.
  - specialize (IH i Hi Hp). lia.
Qed.

Lemma count_unique P l i j p q :
  (count P l ≤ 1)%nat → l !! i = Some p → P p = true → l !! j = Some q → i ≠ j → P q = false.
Proof.
  intros Hc Hi Hp Hj Hne. destruct (P q) eqn:Hq; [|done]. revert i j Hc Hi Hj Hne.
  induction l as [|x l IH]; intros [|i] [|j] Hc Hi Hj Hne; try done; cbn [count] in Hc.
  - injection Hi as ->. pose proof (count_pos P l j q Hj Hq). rewrite Hp in Hc. cbn in Hc. lia.
  - injection Hj as ->. pose proof (count_pos P l i p Hi Hp). rewrite Hq in Hc. cbn in Hc. lia.
  - apply (IH i j); [lia|done|done|congruence].
Qed.

Lemma sees_insert l i p' m m' :
  Forall (sees m) l → sees m' p' → (∀ j q, l !! j = Some q → j ≠ i → sees m q → sees m' q) →
  Forall (sees m') (<[i := p']> l).
Proof.
  intros Hs Hp Hm. apply list.Forall_lookup. intros j q Hj.
  apply list_lookup_insert_Some in Hj as [(-> & -> & _)|[Hne Hj]]; [done|].
  eapply Hm; [done..|]. by apply (proj1 (list.Forall_lookup _ _) Hs _ _ Hj).
Qed.

(** Before the data is there, the threads have seen nothing of it. *)
Lemma sees_before m m' q : initialized m ≠ init_as_u8 Done → initializing q = false → sees m q → sees m' q.
Proof.
  intros Hd Hi Hs. destruct q as [v|v| |own|own|own [v|]|]; cbn in *; try done; try (intros Ho; by specialize (Hs Ho)).
  by destruct Hs.
Qed.

Lemma lock_inv_step t t' : lock_inv t → lock_step t t' → lock_inv t'.
Proof.
  intros Hinv Hst. destruct Hst as [t0 i p p' m' Hi Hstep]. destruct Hinv as (Hs & Hd & Hc & Hw & Hb & Hn). unfold lock_inv. cbn [lock pcs].
  assert (Hp : sees (lock t0) p) by (by apply (proj1 (list.Forall_lookup _ _) Hs _ _ Hi)).
  pose proof (count_insert initializing (pcs t0) i p p' Hi) as C1.
  pose proof (count_insert winner (pcs t0) i p p' Hi) as C2.
  pose proof (count_unique initializing (pcs t0) i) as C3.
  assert (∀ q, sees (lock t0) q → Forall (sees (lock t0)) (<[i := q]> (pcs t0))) as Hsame.
  { intros q Hq. by apply (sees_insert _ _ _ (lock t0)). }
  destruct p as [v|v| |own|own|own r|]; cbn [thread_step] in Hstep; cbn in Hp.
  - unfold compare_exchange in Hstep. destruct (Z.eqb_spec (initialized (lock t0)) (init_as_u8 INone)) as [E|E];
      injection Hstep as <- <-; cbn in C1, C2.
    + specialize (Hn E). specialize (Hb ltac:(by rewrite E)).
      split; [|split; [done|]; cbn; repeat split; first [lia|done]].
      eapply sees_insert; [done|done|]. intros j q Hj _. apply sees_before; [by rewrite E|].
      destruct (initializing q) eqn:Hq; [|done]. pose proof (count_pos initializing _ _ _ Hj Hq). lia.
    + split; [by apply Hsame|]. split; [done|]. repeat split; first [lia | intros H; first [specialize (Hb H); lia | specialize (Hn H); lia]].
  - injection Hstep as <- <-. cbn in C1, C2. split; [|split; [done|]; cbn; repeat split; first [lia|done|intros H; by rewrite Hp in H]].
    eapply sees_insert; [done|done|]. intros j q Hj Hne. apply sees_before; [by rewrite Hp|]. by eapply C3.
  - destruct Hp as [Hp Hdata]. injection Hstep as <- <-. cbn in C1, C2. split; [|split; [done|]; cbn; repeat split; first [lia|done|intros H; by rewrite Hp in H]].
    eapply sees_insert; [done|done|]. intros j q Hj Hne. apply sees_before; [by rewrite Hp|]. by eapply C3.
  - injection Hstep as <- <-. destruct (Z.eqb_spec (initialized (lock t0)) 2) as [E|E]; cbn in C1, C2.
    + split; [by apply Hsame|]. split; [done|]. destruct own; cbn in C2; repeat split; first [lia | intros H; first [specialize (Hb H); lia | by rewrite E in H]].
    + destruct own; [by specialize (Hp eq_refl)|]. split; [by apply Hsame|]. split; [done|]. cbn in C2.
      repeat split; first [lia | intros H; first [specialize (Hb H); lia | specialize (Hn H); lia]].
  - injection Hstep as <- <-. destruct (data (lock t0)) as [v|] eqn:Hv; [|by destruct (Hd Hp)]. cbn in C1, C2.
    split; [apply Hsame; by split|]. split; [intros _; congruence|]. destruct own; cbn in C2; repeat split; first [lia | intros H; first [specialize (Hb H); lia | by rewrite Hp in H]].
  - done.
  - done.
Qed.

Lemma lock_inv_reachable l t : Forall fresh l → rtc lock_step (mkThreads lock_new l) t → lock_inv t.
Proof.
  intros Hl Ht. assert (lock_inv (mkThreads lock_new l)) as Hinv.
  { assert (count initializing l = 0%nat ∧ count winner l = 0%nat) as [H1 H2].
    { clear Ht. induction Hl as [|p l [[v ->]| ->] _ [IH1 IH2]]; cbn; by split. }
    split; [|split; [done|]; cbn; repeat split; lia].
    eapply list.Forall_impl; [exact Hl|]. by intros p [[v ->]| ->]. }
  clear Hl. remember (mkThreads lock_new l) as t0 eqn:E. clear E. induction Ht; [done|]. by eapply IHHt, lock_inv_step.
Qed.

(** The once lock initializes once.  However any number of threads interleave, no
    uninitialized data is read, at most one call of [get_or_try_init] succeeds, and all
    calls that return a value return the one it wrote. *)
Theorem once_lock_initializes_once l t :
  Forall fresh l → rtc lock_step (mkThreads lock_new l) t →
  UndefinedBehaviour ∉ pcs t ∧
  (count (λ p, if p is Returned true (Some _) then true else false) (pcs t) ≤ 1)%nat ∧
  ∀ own v own' v', Returned own (Some v) ∈ pcs t → Returned own' (Some v') ∈ pcs t → v = v'.
Proof.
  intros Hl Ht. destruct (lock_inv_reachable l t Hl Ht) as (Hs & _ & _ & Hw & _). split; [|split].
  - intros Hin. by apply (proj1 (list.Forall_forall _ _) Hs _ Hin).
  - etrans; [|exact Hw]. clear. induction (pcs t) as [|p l IH]; cbn; [done|].
    apply Nat.add_le_mono; [|done]. destruct p as [| | |[]|[]|[] []|]; cbn; lia.
  - intros own v own' v' H1 H2. pose proof (proj1 (list.Forall_forall _ _) Hs _ H1) as [_ E1].
    pose proof (proj1 (list.Forall_forall _ _) Hs _ H2) as [_ E2]. congruence.
Qed.
End once_lock.

Module DemoOnceLock.
(** Two threads race to initialize; the second one loses, and a reader sees the value
    of the first. *)
Definition racing : list (Pc (T := Z)) := [InitStart 1; InitStart 2; Loading false].
Definition race_end : Threads :=
  mkThreads (mkLock 2 (Some 1)) [Returned true (Some 1); Returned true None; Returned false (Some 1)].

Lemma race : rtc lock_step (mkThreads lock_new racing) race_end.
Proof.
  do 5 (eapply rtc_l; [by eapply (lock_thread _ 0)|]). eapply rtc_l; [by eapply (lock_thread _ 1)|].
  do 2 (eapply rtc_l; [by eapply (lock_thread _ 2)|]). apply rtc_refl.
Qed.

Lemma once_lock_initializes_once_witness :
  UndefinedBehaviour ∉ pcs race_end ∧ ∀ own v, Returned own (Some v) ∈ pcs race_end → v = 1.
Proof.
  destruct (once_lock_initializes_once racing race_end) as (H1 & _ & H2).
  - constructor; [left; by exists 1|]. constructor; [left; by exists 2|]. constructor; [by right|constructor].
  - exact race.
  - split; [exact H1|]. intros own v Hin. apply (H2 own v true 1 Hin). by left.
Defined.
End DemoOnceLock.
