(* ===== verification/Deserialize.v ===== *)
(** * Parsing samples at the server

    [sensor-link-protocol/src/samples/deserialize.rs]: the server parses the packets of
    [samples/q15xl.rs] and [samples/q15.rs] straight into one timestamp and one value
    per sample, without the capacity that the device's types declare.  As in [Samples],
    the two formats are the same code for a length field of [LB] = 2 and 1 bytes.  The
    size computations are in a [usize] of 64 bits and do not overflow. *)

From stdpp Require Import base list list_numbers numbers option.
From S2P Require Import Prelude Samples SamplesFacts SamplesProps Numeric UniformSamples Serialize.
From S2P Require Import Buffer Quantize Serializer.

(** [ParseError::Deserialize] with its two messages, and [ParseError::Invalid]. *)
Inductive NParseError : Type :=
| NP_HeaderTooSmall
| NP_BufferTooSmall (expected got : Z)
| NP_Invalid.

Definition uniform_timestamps (t : Z) (fs : f32) (num_samples : Z) : option (list Z) :=
  mapM (sample_timestamp t fs) (seqZ 0 num_samples).

Section parse.
Context `{Libm} (LB N_CH : Z).

(** One iteration of the sample loop. *)
Definition parse_sample {S} (allow_nan : bool) (scale : f32) (sample_bytes : list Z) (channel : list f32)
    (sample_idx : Z) : M S NParseError (list f32) :=
  let byte_idx := sample_idx * 2 in
  b0 ← index sample_bytes byte_idx;
  b1 ← index sample_bytes (byte_idx + 1);
  let sample_i16 := i16_from_bytes [b0; b1] in
  let value := if sample_i16 =? - 2 ^ 15 then f32_nan else f32_mul (f32_of_int sample_i16) scale in
  if is_nan value && negb allow_nan then fail NP_Invalid else mret (channel ++ [value]).

(** One iteration of the channel loop; the channels behind this one are still empty. *)
Definition parse_channel {S} (allow_nan : bool) (num_samples bytes_per_channel : Z) (data_bytes : list Z)
    (channels : list (list f32)) (ch_idx : Z) : M S NParseError (list (list f32)) :=
  let ch_start := ch_idx * bytes_per_channel in
  ch_bytes ← range_of ch_start (ch_start + bytes_per_channel) data_bytes;
  exponent ← index ch_bytes 0;
  let scale := f32_div (powf (f32_of_int 2) (f32_of_int (i8_from_bytes [exponent]))) (f32_of_int 32767) in
  sample_bytes ← range_of 1 (len ch_bytes) ch_bytes;
  channel ← fold_m (parse_sample allow_nan scale sample_bytes) [] (seqZ 0 num_samples);
  mret (channels ++ [channel]).

Definition parse_to_nchannel {S} (allow_nan : bool) (bytes : list Z) : M S NParseError NChannelSamples :=
  if len bytes <? UNIFORM_HEADER_OVERHEAD then fail NP_HeaderTooSmall
  else
    t_bytes ← range_of 0 8 bytes;
    fs_bytes ← range_of 8 12 bytes;
    let t := to_signed 64 (le_val t_bytes) in
    let fs_bits := le_val fs_bytes in
    let fs := f32_from_bits fs_bits in
    let empty := mkNChannel [] fs (replicate (Z.to_nat N_CH) []) in
    if t <=? 0 then fail NP_Invalid
    else if f32_le_zero fs_bits || f32_is_nan fs_bits then fail NP_Invalid
    else
      q15_bytes ← range_of 12 (len bytes) bytes;
      if len q15_bytes <? LB then mret empty
      else
        n_bytes ← range_of 0 LB q15_bytes;
        let num_samples := le_val n_bytes in
        if num_samples =? 0 then mret empty
        else
          let bytes_per_channel := Q15_OVERHEAD_PER_CHANNEL + Q15_BYTES_PER_SAMPLE * num_samples in
          let expected_size := LB + N_CH * bytes_per_channel in
          if len q15_bytes <? expected_size then fail (NP_BufferTooSmall expected_size (len q15_bytes))
          else
            data_bytes ← range_of LB (len q15_bytes) q15_bytes;
            channels ← fold_m (parse_channel allow_nan num_samples bytes_per_channel data_bytes) [] (seqZ 0 N_CH);
            match uniform_timestamps t fs num_samples with
            | Some timestamps => mret (mkNChannel timestamps fs channels)
            | None => fail NP_Invalid
            end.
End parse.

Section instances.
Context `{Libm} (N_CH : Z).
Definition parse_q15_to_nchannel {S} (bytes : list Z) : M S NParseError NChannelSamples :=
  parse_to_nchannel Q15.q15_OVERHEAD_PER_PACKET N_CH false bytes.
Definition parse_q15xl_to_nchannel {S} (bytes : list Z) : M S NParseError NChannelSamples :=
  parse_to_nchannel XL N_CH false bytes.
Definition parse_q15xl_to_nchannel_allow_nan {S} (bytes : list Z) : M S NParseError NChannelSamples :=
  parse_to_nchannel XL N_CH true bytes.
End instances.

(** ** What the loops compute *)

Lemma fold_push {S E A B} (body : list B → A → M S E (list B)) (g : A → option B) (e : E) (st : S) l : ∀ acc,
  (∀ a acc, a ∈ l → body acc a st = (match g a with Some b => Ok (acc ++ [b]) | None => Err e end, st)) →
  fold_m body acc l st = (match mapM g l with Some bs => Ok (acc ++ bs) | None => Err e end, st).
Proof.
  induction l as [|a l IH]; intros acc Hb; [cbn; by rewrite app_nil_r|].
  cbn [fold_m mapM]. unfold mbind, M_bind. rewrite Hb by constructor.
  destruct (g a) as [b|]; [|done]. rewrite IH by (intros; apply Hb; by constructor).
  cbn [mbind option_bind]. destruct (mapM g l); [|done]. by rewrite <-(assoc_L (++)).
Qed.

Lemma mapM_mret {A B} (g : A → option B) (f : A → B) l : (∀ a, a ∈ l → g a = Some (f a)) → mapM g l = Some (f <$> l).
Proof.
  induction l as [|a l IH]; intros Hg; [done|]. cbn [mapM]. rewrite Hg by constructor. cbn.
  by rewrite IH by (intros; apply Hg; by constructor).
Qed.
Lemma mapM_compose {A B C} (g : B → option C) (f : A → B) l : mapM g (f <$> l) = mapM (g ∘ f) l.
Proof. induction l as [|a l IH]; [done|]. rewrite fmap_cons. cbn [mapM]. by rewrite IH. Qed.

Lemma slice_one src : 0 < len src → slice 0 1 src = [byte_at src 0].
Proof. by destruct src. Qed.

Lemma mul_nan x : f32_mul f32_nan x = f32_nan.
Proof. by destruct x. Qed.

Section facts.
Context `{Libm} (LB N_CH : Z) (HLB : 0 < LB) (HN : 0 < N_CH).

(** A 16-bit sample at the server. *)
Definition restore_value (allow_nan : bool) (scale : f32) (v : Z) : option f32 :=
  let value := f32_mul (i16_as_f32 v) scale in
  if is_nan value && negb allow_nan then None else Some value.
Definition restored (allow_nan : bool) (n : Z) (c : Q15Channel) : option (list f32) :=
  mapM (restore_value allow_nan (scale_factor c)) (take (Z.to_nat n) (values c)).

(** The samples of a packet, all channels. *)
Definition restored_samples (allow_nan : bool) (u : Uniform) : option NChannelSamples :=
  let n := num_samples (u_data u) in
  let fs := f32_from_bits (u_fs u) in
  chs ← mapM (restored allow_nan n) (channels (u_data u));
  ts ← uniform_timestamps (u_t u) fs n;
  Some (mkNChannel ts fs chs).

Lemma take_decoded n MAX src : 0 ≤ n ≤ MAX →
  take (Z.to_nat n) (values (decode_channel n MAX src)) =
    (λ spl, i16_from_bytes [byte_at src (1 + 2 * spl); byte_at src (2 + 2 * spl)]) <$> seqZ 0 n.
Proof.
  intros Hn. unfold decode_channel. cbn [values]. apply take_app_length'.
  rewrite length_fmap, length_seqZ. lia.
Qed.

Lemma parse_sample_run {S} allow scale src spl acc (st : S) :
  0 ≤ spl → 1 + 2 * spl + 2 ≤ len src →
  parse_sample allow scale (slice 1 (len src) src) acc spl st =
    (match restore_value allow scale (i16_from_bytes [byte_at src (1 + 2 * spl); byte_at src (2 + 2 * spl)]) with
     | Some x => Ok (acc ++ [x]) | None => Err NP_Invalid end, st).
Proof.
  intros Hs Hl. unfold parse_sample, mbind, M_bind.
  rewrite (index_run _ _ (byte_at src (1 + 2 * spl))).
  2: { rewrite slice_tail_lookup by lia. replace (1 + spl * 2) with (1 + 2 * spl) by lia. apply byte_lookup. lia. }
  rewrite (index_run _ _ (byte_at src (2 + 2 * spl))).
  2: { rewrite slice_tail_lookup by lia. replace (1 + (spl * 2 + 1)) with (2 + 2 * spl) by lia. apply byte_lookup. lia. }
  unfold restore_value, i16_as_f32. destruct (_ =? _); rewrite ?mul_nan; by destruct (is_nan _ && _).
Qed.

Lemma parse_channel_run {S} allow n MAX data ch acc (st : S) :
  0 < n ≤ MAX → 0 ≤ ch → (ch + 1) * (1 + 2 * n) ≤ len data →
  parse_channel allow n (1 + 2 * n) data acc ch st =
    (match restored allow n (decode_channel n MAX (slice (ch * (1 + 2 * n)) ((ch + 1) * (1 + 2 * n)) data)) with
     | Some xs => Ok (acc ++ [xs]) | None => Err NP_Invalid end, st).
Proof.
  intros Hn Hch Hl. unfold parse_channel, mbind, M_bind. rewrite range_of_run by nia.
  replace (ch * (1 + 2 * n) + (1 + 2 * n)) with ((ch + 1) * (1 + 2 * n)) by lia. set (src := slice _ _ data).
  assert (Hsrc : len src = 1 + 2 * n) by (unfold src; rewrite len_slice by nia; lia).
  rewrite (index_run _ _ (byte_at src 0)) by (apply byte_lookup; lia).
  rewrite range_of_run by lia. set (c := decode_channel n MAX src).
  assert (Hsc : f32_div (powf (f32_of_int 2) (f32_of_int (i8_from_bytes [byte_at src 0]))) (f32_of_int 32767) = scale_factor c).
  { unfold scale_factor, c, decode_channel. cbn [exponent]. by rewrite slice_one by lia. }
  rewrite Hsc. rewrite (fold_push _
    (λ spl, restore_value allow (scale_factor c) (i16_from_bytes [byte_at src (1 + 2 * spl); byte_at src (2 + 2 * spl)])) NP_Invalid).
  2: { intros spl acc' Hin. apply elem_of_seqZ in Hin. apply parse_sample_run; lia. }
  pose proof (take_decoded n MAX src ltac:(lia)) as Ht. fold c in Ht. unfold restored. rewrite Ht, mapM_compose. unfold compose. cbn [app].
  by destruct (mapM _ _).
Qed.

(** The data behind the header. *)
Definition parse_data (allow_nan : bool) (t fs_bits : Z) (data : list Z) : outcome NParseError NChannelSamples :=
  let n := len_field LB data in
  if n =? 0 then Ok (mkNChannel [] (f32_from_bits fs_bits) (replicate (Z.to_nat N_CH) []))
  else if len data <? LB + N_CH * (1 + 2 * n) then Err (NP_BufferTooSmall (LB + N_CH * (1 + 2 * n)) (len data))
  else match restored_samples allow_nan (mkUniform t fs_bits (mkQ15 n ((λ ch, decode_channel n n
               (slice (LB + ch * (1 + 2 * n)) (LB + (ch + 1) * (1 + 2 * n)) data)) <$> seqZ 0 N_CH))) with
       | Some s => Ok s | None => Err NP_Invalid end.

Definition parsed (allow_nan : bool) (bytes : list Z) : outcome NParseError NChannelSamples :=
  let t := to_signed 64 (le_val (slice 0 8 bytes)) in
  let fs_bits := le_val (slice 8 12 bytes) in
  if len bytes <? 12 then Err NP_HeaderTooSmall
  else if verify (mkUniform t fs_bits (mkQ15 0 [])) then parse_data allow_nan t fs_bits (slice 12 (len bytes) bytes)
  else Err NP_Invalid.

Lemma len_field_range data : Forall is_u8 data → 0 ≤ len_field LB data ≤ num_max LB.
Proof using HLB.
  intros Hb. pose proof (num_bound LB HLB) as H256. unfold len_field, num_max.
  destruct (Z.leb_spec LB (len data)) as [Hl|]; [|lia].
  pose proof (le_val_range _ (Forall_slice is_u8 0 LB data Hb)) as Hr. rewrite len_slice in Hr by lia.
  replace (LB - 0) with LB in Hr by lia. lia.
Qed.

Lemma slice_of_slice {A} lo lo' hi' (l : list A) :
  0 ≤ lo → 0 ≤ lo' → hi' ≤ len l - lo → slice lo' hi' (slice lo (len l) l) = slice (lo + lo') (lo + hi') l.
Proof.
  intros Hlo Hlo' Hhi. unfold slice.
  rewrite (take_ge (drop (Z.to_nat lo) l)) by (rewrite length_drop; unfold len; lia).
  rewrite drop_drop. do 2 f_equal; lia.
Qed.

Lemma parse_run {S} allow bytes (st : S) :
  Forall is_u8 bytes → parse_to_nchannel LB N_CH allow bytes st = (parsed allow bytes, st).
Proof using HLB HN.
  intros Hb. unfold parse_to_nchannel, parsed, UNIFORM_HEADER_OVERHEAD, mbind, M_bind. change (8 + 4) with 12.
  destruct (Z.ltb_spec (len bytes) 12) as [|Hl]; [done|]. rewrite !range_of_run by lia.
  unfold verify. cbn [u_t u_fs]. destruct (_ <=? 0); [done|]. destruct (f32_le_zero _ || _); [done|].
  rewrite range_of_run by lia. set (data := slice 12 _ bytes). assert (Hd : Forall is_u8 data) by by apply Forall_slice.
  pose proof (len_field_range data Hd) as Hn. unfold parse_data. set (n := len_field LB data) in *. unfold len_field in n.
  destruct (Z.ltb_spec (len data) LB) as [Hs|Hs].
  { unfold n. by rewrite (proj2 (Z.leb_gt _ _)) by lia. }
  rewrite range_of_run by lia. assert (En : le_val (slice 0 LB data) = n) by (unfold n; by rewrite (proj2 (Z.leb_le _ _)) by lia).
  rewrite En. clearbody n. destruct (Z.eqb_spec n 0) as [|Hn0]; [done|]. unfold Q15_OVERHEAD_PER_CHANNEL, Q15_BYTES_PER_SAMPLE.
  destruct (Z.ltb_spec (len data) (LB + N_CH * (1 + 2 * n))) as [|Hx]; [done|]. rewrite range_of_run by lia.
  set (src := slice LB (len data) data). assert (Hsrc : len src = len data - LB) by (unfold src; rewrite len_slice by lia; lia).
  set (chan ch := decode_channel n n (slice (LB + ch * (1 + 2 * n)) (LB + (ch + 1) * (1 + 2 * n)) data)).
  rewrite (fold_push _ (λ ch, restored allow n (chan ch)) NP_Invalid).
  2: { intros ch acc Hin. apply elem_of_seqZ in Hin. rewrite (parse_channel_run _ n n) by nia.
       unfold src. by rewrite slice_of_slice by nia. }
  unfold restored_samples. cbn [u_data num_samples u_fs u_t channels]. rewrite mapM_compose. unfold compose.
  destruct (mapM _ (seqZ 0 N_CH)); [|done]. cbn. by destruct (uniform_timestamps _ _ _).
Qed.
Lemma restored_pad allow n MAX src :
  0 ≤ n ≤ MAX → restored allow n (decode_channel n MAX src) = restored allow n (decode_channel n n src).
Proof. intros Hn. unfold restored. by rewrite !take_decoded by lia. Qed.

Lemma mapM_replicate {A B} (g : A → option B) a b n : g a = Some b → mapM g (replicate n a) = Some (replicate n b).
Proof. intros Hg. induction n as [|n IH]; [done|]. cbn [replicate mapM]. rewrite Hg. cbn. by rewrite IH. Qed.

Definition server_outcome (allow_nan : bool) (u : Uniform) : outcome NParseError NChannelSamples :=
  match restored_samples allow_nan u with Some s => Ok s | None => Err NP_Invalid end.

(** What the parser for the device accepts, the parser of the server reads alike. *)
Lemma parsed_accepted allow MAX bytes u :
  0 ≤ MAX ≤ num_max LB → Forall is_u8 bytes →
  from_topic_data LB N_CH MAX bytes = (Ok u, bytes) → parsed allow bytes = server_outcome allow u.
Proof using HLB HN.
  intros HMAX Hb Hu. unfold parsed. destruct (Z.ltb_spec (len bytes) 12) as [Hl|Hl].
  { by rewrite (from_topic_short LB N_CH MAX HLB HN HMAX) in Hu by lia. }
  rewrite (from_topic_run LB N_CH MAX HLB HN HMAX) in Hu by lia. set (data := slice 12 _ bytes) in *.
  assert (Hd : Forall is_u8 data) by by apply Forall_slice. pose proof (len_field_range data Hd) as Hn.
  unfold decode in Hu. unfold parse_data, server_outcome. set (n := len_field LB data) in *. clearbody n data.
  destruct (MAX <? n) eqn:E; [done|]. apply Z.ltb_ge in E. unfold verify in *. cbn [u_t u_fs] in *.
  destruct (Z.eqb_spec n 0) as [-> |Hn0].
  - cbn [Z.ltb Z.compare] in Hu. destruct (_ <=? 0); [done|]. destruct (f32_le_zero _ || _); [done|]. injection Hu as <-.
    unfold restored_samples. cbn [u_data num_samples channels u_t u_fs].
    by rewrite (mapM_replicate _ _ []) by done.
  - rewrite (proj2 (Z.ltb_lt 0 n)) in Hu by lia.
    assert (Es : size_of LB N_CH n = LB + N_CH * (1 + 2 * n)) by (unfold size_of; by rewrite !(proj2 (Z.eqb_neq _ _)) by lia).
    rewrite Es in Hu. destruct (len data <? _); [done|].
    destruct (_ <=? 0); [done|]. destruct (f32_le_zero _ || _); [done|]. injection Hu as <-.
    unfold restored_samples. cbn [u_data num_samples channels u_t u_fs]. rewrite !mapM_compose. unfold compose.
    by rewrite (mapM_ext _ _ _ (λ ch, restored_pad allow n MAX _ (conj (proj1 Hn) E))).
Qed.

Lemma parsed_inv allow bytes s :
  Forall is_u8 bytes → parsed allow bytes = Ok s →
  ∃ u, from_topic_data LB N_CH (num_max LB) bytes = (Ok u, bytes) ∧ restored_samples allow u = Some s.
Proof using HLB HN.
  intros Hb Hp. pose proof (num_bound LB HLB) as H256.
  assert (HMAX : 0 ≤ num_max LB ≤ num_max LB) by (unfold num_max; lia).
  destruct (from_topic_data LB N_CH (num_max LB) bytes) as [r b'] eqn:Hr.
  assert (b' = bytes ∧ ∃ u, r = Ok u) as [-> [u ->]].
  { unfold parsed in Hp. destruct (Z.ltb_spec (len bytes) 12) as [Hl|Hl]; [done|].
    rewrite (from_topic_run LB N_CH (num_max LB) HLB HN HMAX) in Hr by lia. injection Hr as Hr <-. split; [done|].
    set (data := slice 12 _ bytes) in *. assert (Hd : Forall is_u8 data) by by apply Forall_slice.
    pose proof (len_field_range data Hd) as Hn. unfold decode in Hr. unfold parse_data in Hp. set (n := len_field LB data) in *.
    clearbody n data. rewrite (proj2 (Z.ltb_ge _ _)) in Hr by lia. unfold verify in *. cbn [u_t u_fs] in *.
    destruct (_ <=? 0); [done|]. destruct (f32_le_zero _ || _); [done|].
    rewrite <-Hr. destruct (Z.eqb_spec n 0) as [E0|Hn0]; [rewrite E0; by eexists|].
    rewrite (proj2 (Z.ltb_lt 0 n)) by lia. unfold size_of. rewrite !(proj2 (Z.eqb_neq _ _)) by lia.
    cbn [orb]. destruct (len data <? _); [done|]. by eexists. }
  exists u. split; [done|]. rewrite (parsed_accepted allow (num_max LB) bytes u) in Hp by done.
  unfold server_outcome in Hp. destruct (restored_samples _ _); by simplify_eq.
Qed.

Lemma parsed_no_panic allow bytes : parsed allow bytes ≠ Panic.
Proof.
  unfold parsed, parse_data. destruct (_ <? 12); [done|]. destruct (verify _); [|done]. destruct (_ =? 0); [done|].
  destruct (_ <? _); [done|]. by destruct (restored_samples _ _).
Qed.

(** C35: one wire format, two parsers.  On any bytes the server's parser returns without a
    panic.  A packet that the device's parser accepts, at any capacity, is read by the
    server as the same header with the samples scaled by their channel's exponent and a
    timestamp each, or refused because of a NaN or of a timestamp out of range; and a
    packet that the server accepts is accepted by the device's parser with the
    greatest capacity. *)
Theorem parsers_agree {S} (allow_nan : bool) (bytes : list Z) (st : S) :
  Forall is_u8 bytes →
  let parse := parse_to_nchannel LB N_CH allow_nan bytes st in
  parse.1 ≠ Panic ∧
  (∀ MAX u, 0 ≤ MAX ≤ num_max LB → from_topic_data LB N_CH MAX bytes = (Ok u, bytes) →
     parse = (server_outcome allow_nan u, st)) ∧
  (∀ s, parse = (Ok s, st) →
     ∃ u, from_topic_data LB N_CH (num_max LB) bytes = (Ok u, bytes) ∧ restored_samples allow_nan u = Some s).
Proof using HLB HN.
  intros Hb. cbv zeta. rewrite parse_run by done. split; [apply parsed_no_panic|]. split.
  - intros MAX u HMAX Hu. by rewrite (parsed_accepted allow_nan MAX bytes u).
  - intros s Hs. injection Hs as Hs. by apply (parsed_inv allow_nan).
Qed.
End facts.

(** ** From the device to the server *)

Section bytes.
Context (LB N_CH MAX : Z).

Lemma concat_u8 (f : Z → list Z) l : (∀ x, Forall is_u8 (f x)) → Forall is_u8 (concat (f <$> l)).
Proof.
  intros Hf. induction l as [|x l IH]; [constructor|]. rewrite fmap_cons. cbn [concat]. by apply list.Forall_app.
Qed.

Lemma packet_bytes_u8 u : Forall is_u8 (header u ++ payload LB N_CH (u_data u)).
Proof.
  apply list.Forall_app. split; [apply list.Forall_app; split; apply le_bytes_u8|].
  unfold payload. destruct (_ =? 0); [constructor|]. unfold packet. apply list.Forall_app. split; [apply le_bytes_u8|].
  apply concat_u8. intros ch. unfold channel_bytes. apply list.Forall_app. split; [apply le_bytes_u8|].
  apply concat_u8. intros spl. apply le_bytes_u8.
Qed.
End bytes.

Section end_to_end.
Context `{Libm} {V : Type} `{HV : HeaplessVec V} {T : Type} `{HT : Postcard T} `{HTL : !PostcardLaws T}.
Context (N_CH MAX_OUTPUT_LEN MAX : Z) `{HVL : !HeaplessVecLaws V MAX}.

Definition has_nan (axes : list (list f32)) : bool := existsb (existsb is_nan) axes.

Lemma restored_all allow n c xs :
  (λ x, f32_mul (i16_as_f32 x) (scale_factor c)) <$> take (Z.to_nat n) (values c) = xs →
  restored allow n c = if existsb is_nan xs && negb allow then None else Some xs.
Proof.
  intros <-. unfold restored. induction (take _ _) as [|v l IH]; [done|]. rewrite fmap_cons. cbn [mapM existsb].
  rewrite IH. unfold restore_value. by destruct (is_nan _), (existsb _ _), allow.
Qed.

Lemma restored_axes allow n cs axes :
  Forall2 (λ c axis, n ≤ len (values c) ∧
    (λ x, f32_mul (i16_as_f32 x) (scale_factor c)) <$> take (Z.to_nat n) (values c) =
    requantize (channel_exponent axis) <$> axis) cs axes →
  let out := (λ axis, requantize (channel_exponent axis) <$> axis) <$> axes in
  mapM (restored allow n) cs = if has_nan out && negb allow then None else Some out.
Proof.
  intros HF. cbv zeta. induction HF as [|c axis cs axes [_ Hc] _ IH]; [done|]. rewrite fmap_cons. cbn [mapM].
  rewrite (restored_all allow _ _ _ Hc), IH. unfold has_nan. cbn [existsb].
  by destruct (existsb is_nan _), (existsb (existsb _) _), allow.
Qed.

Lemma timestamps_of n t fs :
  0 ≤ n ≤ i64_max → 0 < t → f32_sign fs = false →
  (1 ≤ n → is_Some (sample_timestamp t fs (n - 1))) →
  uniform_timestamps t fs n = Some ((λ i, t + i * interval_us fs) <$> seqZ 0 n).
Proof.
  intros Hn Ht Hs Hlast. apply mapM_mret. intros i Hi%elem_of_seqZ. destruct Hlast as [x Hx]; [lia|].
  destruct (sample_timestamp_mono _ _ i (n - 1) x Ht Hs ltac:(lia) ltac:(lia) Hx) as [-> _]. f_equal. lia.
Qed.

(** C34: from the device to the database.  For samples as the application pushes them,
    whose timestamps are in range, the payload of the message is parsed by the server
    to the exact timestamp of each sample, [t] plus a multiple of the interval, and the samples of every channel as they
    were quantised; the strict parser refuses it when one of these is a NaN, and
    reads the same otherwise. *)
Theorem samples_reach_server {S E} n (us : UniformSamples V) (t : T) (st : S) :
  0 < N_CH → output_len_ok MAX_OUTPUT_LEN → 12 ≤ MAX_OUTPUT_LEN - TOPIC_HEADER_SIZE →
  MAX ≤ max_num_input_samples XL N_CH (MAX_OUTPUT_LEN - TOPIC_HEADER_SIZE) →
  us_wf N_CH n us → us_len MAX us = n → 0 ≤ n ≤ MAX →
  0 < us_t us < 2 ^ 63 → f32_valid (us_fs us) → le_zero (us_fs us) = false → is_nan (us_fs us) = false →
  (1 ≤ n → is_Some (sample_timestamp (us_t us) (us_fs us) (n - 1))) →
  is_Some (pc_to_slice t (replicate (Z.to_nat TOPIC_HEADER_SIZE) 0)) →
  let axes := (λ axis, requantize (channel_exponent axis) <$> axis) <$> us_axes us in
  let arrived := mkNChannel ((λ i, us_t us + i * interval_us (us_fs us)) <$> seqZ 0 n) (us_fs us) axes in
  ∃ s p, uss_serialize N_CH MAX_OUTPUT_LEN MAX us t st = (Ok s, st) ∧
    payload_bytes (E := E) s st = (Ok p, st) ∧
    parse_q15xl_to_nchannel_allow_nan N_CH p st = (Ok arrived, st) ∧
    parse_q15xl_to_nchannel N_CH p st = (if has_nan axes then Err NP_Invalid else Ok arrived, st).
Proof using HTL HVL.
  intros HN Hout Hmin Hmax Hwf Hlen Hn Ht Hfs Hz Hnan Hlast Htopic axes arrived. assert (HX : 0 < XL) by done.
  destruct (serialized_payload (E := E) N_CH MAX_OUTPUT_LEN MAX n us t st HN Hout Hmin Hmax Hwf Hlen Hn Ht Hfs Hz Hnan Htopic)
    as (HM & s & Hrun & _ & Hpl & Hrecv).
  set (p := _ ++ _) in *. exists s, p. split; [exact Hrun|]. split; [exact Hpl|].
  destruct (received_channels N_CH MAX HN n us Hwf Hn) as [Hnum Hch].
  assert (Hp : ∀ allow, parse_to_nchannel XL N_CH allow p st = (if has_nan axes && negb allow then Err NP_Invalid else Ok arrived, st)).
  { intros allow. rewrite parse_run by (done || apply packet_bytes_u8).
    rewrite (parsed_accepted XL N_CH HX HN allow MAX p _ (conj (Z.le_trans _ _ _ (proj1 Hn) (proj2 Hn)) HM) (packet_bytes_u8 _ _ _) Hrecv).
    unfold server_outcome, restored_samples. cbn [u_data u_t u_fs]. rewrite Hnum, (restored_axes allow n _ _ Hch).
    rewrite f32_bits_roundtrip by done. fold axes. assert (num_max XL ≤ i64_max) by (vm_compute; discriminate).
    rewrite timestamps_of by (done || lia || by apply f32_positive_sign).
    by destruct (has_nan axes && _). }
  split.
  - unfold parse_q15xl_to_nchannel_allow_nan. by rewrite Hp, andb_false_r.
  - unfold parse_q15xl_to_nchannel. by rewrite Hp, andb_true_r.
Qed.
End end_to_end.

Module DemoDeserialize.
Import DemoUniform DemoSerialize DemoSerializer.

(** One channel of two samples at 1 kHz, with one spare byte. *)
Definition wire : list Z :=
  le_bytes 8 5000000 ++ le_bytes 4 (f32_to_bits (f32_of_int 1000)) ++ [2; 0; 3; 255; 127; 0; 128; 9].

Lemma parsers_agree_witness :
  parse_to_nchannel XL 1 true wire tt =
    (Ok (mkNChannel [5000000; 5001000] (f32_of_int 1000) [[f32_mul (f32_of_int 32767) (f32_div (f32_of_int 4) (f32_of_int 32767)); f32_nan]]), tt) ∧
  (parse_to_nchannel XL 1 false wire tt).1 = Err NP_Invalid.
Proof.
  assert (Hb : Forall is_u8 wire) by exact (bool_decide_unpack (Forall (λ z, 0 ≤ z < 256) wire) I).
  destruct (from_topic_data XL 1 4 wire) as [r b] eqn:E.
  assert (Hr : ∃ u, r = Ok u ∧ b = wire ∧
    server_outcome true u = Ok (mkNChannel [5000000; 5001000] (f32_of_int 1000)
      [[f32_mul (f32_of_int 32767) (f32_div (f32_of_int 4) (f32_of_int 32767)); f32_nan]]) ∧
    server_outcome false u = Err NP_Invalid).
  { vm_compute in E. injection E as <- <-. eexists. split; [reflexivity|]. by vm_compute. }
  destruct Hr as (u & -> & -> & Ht & Hf).
  destruct (parsers_agree XL 1 eq_refl eq_refl true wire tt Hb) as (_ & H1 & _).
  destruct (parsers_agree XL 1 eq_refl eq_refl false wire tt Hb) as (_ & H2 & _).
  rewrite (H1 4 u) by (done || (unfold num_max, XL; lia)). rewrite (H2 4 u) by (done || (unfold num_max, XL; lia)).
  rewrite Ht, Hf. split; reflexivity.
Defined.

Lemma samples_reach_server_witness :
  ∃ s p axes,
    uss_serialize 2 100 4 demo true tt = (Ok s, tt) ∧ payload_bytes (E := unit) s tt = (Ok p, tt) ∧
    parse_q15xl_to_nchannel_allow_nan 2 p tt = (Ok (mkNChannel [5000000; 5001000; 5002000] (f32_of_int 1000) axes), tt).
Proof.
  destruct (samples_reach_server (V := listvec 4) (E := unit) 2 100 4 3 demo true tt) as (s & p & Hs & Hp & Hr & _).
  - lia.
  - unfold output_len_ok, TOPIC_HEADER_SIZE, MAX_MESSAGE_LEN. lia.
  - unfold TOPIC_HEADER_SIZE. lia.
  - vm_compute. discriminate.
  - split; [reflexivity|]. repeat constructor.
  - vm_compute. reflexivity.
  - lia.
  - cbn. lia.
  - vm_compute. reflexivity.
  - vm_compute. reflexivity.
  - vm_compute. reflexivity.
  - intros _. eexists. vm_compute. reflexivity.
  - by eexists.
  - exists s, p, ((λ axis, requantize (channel_exponent axis) <$> axis) <$> us_axes demo). split; [exact Hs|]. split; [exact Hp|].
    exact Hr.
Defined.
End DemoDeserialize.
