(* ===== verification/Timeseries.v ===== *)
(** * Downsampling of time series

    [server/sensor-link-server-core/src/timeseries.rs], with the columns of
    [sensor_data.rs]: the server reduces a series to buckets whose width is one of a
    fixed list, or given by the caller.  [f32] and [f64] are spec floats, [i64] and
    [usize] (of 64 bits) are checked. *)

From stdpp Require Import base list list_numbers numbers option.
From Stdlib Require Import SpecFloat.
From S2P Require Import Prelude Samples Numeric.

(** ** Arithmetic of the file *)

(** [f64]: [n as f64], [/], [ceil] and [as i64]. *)
Definition f64_of_int (n : Z) : spec_float := binary_normalize 53 1024 n 0 false.
Definition f64_div : spec_float → spec_float → spec_float := SFdiv 53 1024.
Definition f64_ceil (x : spec_float) : spec_float :=
  match x with
  | S754_finite s m e =>
      if 0 <=? e then x else f64_of_int (- ((if s then Z.pos m else - Z.pos m) / 2 ^ (- e)))
  | _ => x
  end.
Definition f64_as_i64 : spec_float → Z := f32_as i64_min i64_max.

(** [/] and [%] on [i64]. *)
Definition i64_div {S E} (a b : Z) : M S E Z := if b =? 0 then panic else i64_op (Z.quot a b).
Definition i64_rem {S E} (a b : Z) : M S E Z :=
  if (b =? 0) || ((a =? i64_min) && (b =? -1)) then panic else mret (Z.rem a b).
(** [x as usize] *)
Definition as_usize (z : Z) : Z := z mod 2 ^ 64.

(** [x.min(y)] on [f32], and [sum] of a slice divided by its length. *)
Definition f32_min (x y : f32) : f32 :=
  if is_nan x then y else if is_nan y then x else if SFltb y x then y else x.
Definition average (v : list f32) : f32 := f32_div (foldl f32_add (S754_zero true) v) (f32_of_int (len v)).

(** [l.get(range)] and [iter().reduce(f)]. *)
Definition get_range {A} (start_idx end_idx : Z) (l : list A) : option (list A) :=
  if (start_idx <=? end_idx) && (end_idx <=? len l) then Some (slice start_idx end_idx l) else None.
Definition reduce {A} (f : A → A → A) (l : list A) : option A :=
  match l with [] => None | x :: l => Some (foldl f x l) end.

(** ** Data *)

Record MPSensorData : Type := mkSeries {
  measuring_point_id : list Z;
  time : list Z;
  values : list f32;
  min : list f32;
  max : list f32;
  freq : option (list f32);
  perc : option (list f32);
  seconds_per_sample : f32
}.

Inductive DownsampleBucketMethod : Type := MaxPoints (n : Z) | BucketWidthMS (width_ms : Z).
Inductive DownsamplePreference : Type := Percentage | Average.
Record DownsampleOptions : Type := mkOptions { method : DownsampleBucketMethod; preference : DownsamplePreference }.

Definition MAX_NUM_SAMPLES : Z := 5000.

(** [add_sample] *)
Definition add_opt (x : option f32) (col : option (list f32)) : option (list f32) :=
  match x, col with Some x, Some col => Some (col ++ [x]) | _, _ => col end.
Definition add_sample (t : Z) (v vmin vmax : f32) (f p : option f32) (s : MPSensorData) : MPSensorData :=
  mkSeries (measuring_point_id s) (time s ++ [t]) (values s ++ [v]) (min s ++ [vmin]) (max s ++ [vmax])
    (add_opt f (freq s)) (add_opt p (perc s)) (seconds_per_sample s).

(** ** Bucket widths *)

Definition BucketWidth_ALL : list Z :=
  [1; 5; 10; 50; 100; 500; 1000; 5000; 10000; 30000; 60000; 300000; 600000; 900000; 1800000; 3600000;
   10800000; 21600000; 43200000; 86400000; 604800000; 2592000000].
Definition smallest : Z := 1.
Definition largest : Z := 2592000000.
Definition find_next_width (width_ms : Z) : Z :=
  match filter (λ bucket, width_ms ≤ bucket) BucketWidth_ALL with bucket :: _ => bucket | [] => largest end.

Section downsample.
Context {S E : Type}.
Implicit Types t : list Z.

(** The smallest positive difference of neighbours. *)
Fixpoint intervals (t : list Z) : M S E (list Z) :=
  match t with
  | a :: (b :: _) as t' => d ← i64_sub b a; ds ← intervals t'; mret (d :: ds)
  | _ => mret []
  end.
Definition min_interval_of (ds : list Z) : Z := default 1 (reduce Z.min (filter (λ i, 0 < i) ds)).

Definition calc_bucket_width (t : list Z) (max_num_samples : Z) : M S E Z :=
  if len t <=? 1 then mret smallest
  else
    start_time_ms ← index t 0;
    end_time_ms ← index t (len t - 1);
    time_range ← i64_sub end_time_ms start_time_ms;
    if max_num_samples =? 1 then mret time_range
    else
      divisor ← usize_sub max_num_samples 1;
      let ideal_width := f64_as_i64 (f64_ceil (f64_div (f64_of_int time_range) (f64_of_int divisor))) in
      ds ← intervals t;
      let min_interval := min_interval_of ds in
      let adjusted_width := Z.max ideal_width min_interval in
      mret (find_next_width adjusted_width).

(** ** Buckets *)

Record Bucket : Type := mkBucket { ts : Z; start_idx : Z; end_idx : Z }.

(** [iter().position(p)] *)
Fixpoint position (p : Z → bool) (t : list Z) : option Z :=
  match t with
  | [] => None
  | x :: t => if p x then Some 0 else Z.succ <$> position p t
  end.

Definition bucket_new (t : list Z) (start_idx bucket_width_ms : Z) : M S E Bucket :=
  t0 ← index t start_idx;
  r ← i64_rem t0 bucket_width_ms;
  bucket_start_ms ← i64_sub t0 r;
  bucket_end_ms ← i64_add bucket_start_ms bucket_width_ms;
  let end_idx := default (len t) (position (λ x, bucket_end_ms <? x) t) in
  mret (mkBucket bucket_start_ms start_idx end_idx).

(** The comparison of [find_sample_with_max_percentage] and [.._min_percentage], on
    indexed percentages. *)
Definition compare_samples (other : list f32) (a b : Z * f32) : M S E comparison :=
  match SFcompare (snd a) (snd b) with
  | Some Eq | None =>
      x ← index other (fst a); y ← index other (fst b);
      mret (default Eq (SFcompare x y))
  | Some ordering => mret ordering
  end.
Definition max_by (other : list f32) (a b : Z * f32) : M S E (Z * f32) :=
  c ← compare_samples other a b; mret (if c is Gt then a else b).
Definition min_by (other : list f32) (a b : Z * f32) : M S E (Z * f32) :=
  c ← compare_samples other a b; mret (if c is Gt then b else a).

Definition find_sample (pick : Z * f32 → Z * f32 → M S E (Z * f32)) (percs : list f32) : M S E (option (Z * f32)) :=
  match zip (seqZ 0 (len percs)) percs with
  | [] => mret None
  | a :: l => x ← fold_m pick a l; mret (Some x)
  end.
Definition find_sample_with_max_percentage (percs max_values : list f32) : M S E (option (Z * f32)) :=
  find_sample (max_by max_values) percs.
Definition find_sample_with_min_percentage (percs min_values : list f32) : M S E (option (Z * f32)) :=
  find_sample (min_by min_values) percs.

(** [opt.and_then(|x| f(x))] for an [f] that may panic. *)
Definition and_then {A B} (x : option A) (f : A → M S E (option B)) : M S E (option B) :=
  match x with Some x => f x | None => mret None end.

(** The sample of one bucket. *)
Definition add_bucket (pref : DownsamplePreference) (series : MPSensorData) (bucket : Bucket)
    (downsampled : MPSensorData) : M S E MPSensorData :=
  let range {A} (l : list A) := get_range (start_idx bucket) (end_idx bucket) l in
  match average <$> range (values series) with
  | None => mret downsampled
  | Some mean =>
      let vmin := default mean (range (min series) ≫= reduce f32_min) in
      let vmax := default mean (range (max series) ≫= reduce f32_max) in
      let f := average <$> (freq series ≫= range) in
      let p := average <$> (perc series ≫= range) in
      let perc_bucket := perc series ≫= range in
      best ← and_then perc_bucket (λ percs, and_then (range (max series)) (find_sample_with_max_percentage percs));
      match pref, best with
      | Percentage, Some (max_index, max_perc) =>
          least ← and_then perc_bucket (λ percs, and_then (range (min series)) (find_sample_with_min_percentage percs));
          mret (add_sample (ts bucket) mean
            (default vmin (least ≫= λ '(min_index, _), min series !! Z.to_nat (start_idx bucket + min_index)))
            (default vmax (max series !! Z.to_nat (start_idx bucket + max_index)))
            (freq series ≫= λ f, f !! Z.to_nat (start_idx bucket + max_index))
            (Some max_perc) downsampled)
      | _, _ => mret (add_sample (ts bucket) mean vmin vmax f p downsampled)
      end
  end.

(** [while start_idx < last_idx]; every turn advances, so as many turns as there are
    samples are enough. *)
Fixpoint bucket_loop (fuel : nat) (pref : DownsamplePreference) (series : MPSensorData) (width start_idx last_idx : Z)
    (downsampled : MPSensorData) : M S E MPSensorData :=
  match fuel with
  | O => panic
  | Datatypes.S fuel =>
      if start_idx <? last_idx then
        bucket ← bucket_new (time series) start_idx width;
        downsampled ← add_bucket pref series bucket downsampled;
        bucket_loop fuel pref series width (end_idx bucket) last_idx downsampled
      else mret downsampled
  end.

(** The first timestamp whose remainder is smaller than that of the one before it. *)
Fixpoint first_wrap (width prev_modulo : Z) (t : list Z) : M S E (option Z) :=
  match t with
  | [] => mret None
  | x :: t =>
      modulo ← i64_rem x width;
      if modulo <? prev_modulo then mret (Some 0)
      else i ← first_wrap width modulo t; mret (Z.succ <$> i)
  end.
(** The last timestamp whose remainder is greater than that of the one behind it; [t]
    is reversed, and the result counts from its start. *)
Fixpoint last_wrap (width last_modulo : Z) (t : list Z) : M S E (option Z) :=
  match t with
  | [] => mret None
  | x :: t =>
      modulo ← i64_rem x width;
      if last_modulo <? modulo then mret (Some 0)
      else i ← last_wrap width modulo t; mret (Z.succ <$> i)
  end.

Definition bucket_range (m : DownsampleBucketMethod) (t : list Z) : M S E (Z * Z) :=
  match m with
  | BucketWidthMS width_ms =>
      first ← first_wrap width_ms 0 t;
      back ← last_wrap width_ms width_ms (rev t);
      mret (default 0 first, len t - 1 - default 0 back)
  | MaxPoints _ => mret (0, len t)
  end.

Definition bucket_width (m : DownsampleBucketMethod) (t : list Z) (start_time_ms end_time_ms : Z) : M S E (Z * Z) :=
  match m with
  | MaxPoints n => w ← calc_bucket_width t n; mret (w, n)
  | BucketWidthMS width_ms =>
      span ← i64_sub end_time_ms start_time_ms;
      q ← i64_div span width_ms;
      let num_samples := as_usize q in
      if MAX_NUM_SAMPLES <? num_samples then
        adjusted_width_ms ← i64_div span MAX_NUM_SAMPLES;
        mret (adjusted_width_ms, MAX_NUM_SAMPLES)
      else mret (width_ms, num_samples)
  end.

Definition downsample (series : MPSensorData) (options : DownsampleOptions) : M S E MPSensorData :=
  match time series with
  | [] => mret series
  | _ :: _ =>
      let t := time series in
      start_time_ms ← index t 0;
      end_time_ms ← index t (len t - 1);
      '(width, max_num_samples) ← bucket_width (method options) t start_time_ms end_time_ms;
      if len t <=? max_num_samples then mret series
      else
        let downsampled := mkSeries (measuring_point_id series) [] [] [] [] (const [] <$> freq series) (const [] <$> perc series)
          (f32_div (f32_of_int width) (f32_of_int 1000)) in
        '(first, last_idx) ← bucket_range (method options) t;
        bucket_loop (length t + 1) (preference options) series width first last_idx downsampled
  end.

(** [get_timeseries], over the data the store returned. *)
Definition get_timeseries (columndata : MPSensorData) (options : option DownsampleOptions) : M S E MPSensorData :=
  match options with Some options => downsample columndata options | None => mret columndata end.
End downsample.
