(* ===== verification/TimeseriesProps.v ===== *)
(** * Properties of the downsampling

    A downsampled series is a partition of the samples into aligned buckets, one row
    per bucket. *)

From stdpp Require Import base list list_numbers numbers option sorting.
From Stdlib Require Import SpecFloat ZArith Lia.
From S2P Require Import Prelude Samples SamplesFacts Numeric Timeseries.

(** ** The specification *)

(** The order of [f32] values that are not NaN, on keys. *)
Definition key (x : f32) : Z * Z * Z :=
  match x with
  | S754_nan | S754_zero _ => (0, 0, 0)
  | S754_infinity s => (if s then -2 else 2, 0, 0)
  | S754_finite s m e => if s then (-1, - e, - Z.pos m) else (1, e, Z.pos m)
  end.
Definition key_compare (x y : Z * Z * Z) : comparison :=
  let '(a, b, c) := x in let '(a', b', c') := y in
  match a ?= a' with Eq => match b ?= b' with Eq => c ?= c' | o => o end | o => o end.
Definition f32_le (x y : f32) : Prop := key_compare (key x) (key y) ≠ Gt.

(** The timestamps from the index [s] on, cut into buckets: each starts at a multiple of
    the width, holds at least one sample, and ends behind the last sample that is not
    later than the start of the next bucket. *)
Inductive chain (t : list Z) (w : Z) : Z → list Bucket → Prop :=
| chain_nil : chain t w (len t) []
| chain_cons b bl :
    0 ≤ start_idx b < end_idx b → end_idx b ≤ len t → (w | ts b) →
    (∀ i x, start_idx b ≤ i < end_idx b → t !! Z.to_nat i = Some x → ts b ≤ x ≤ ts b + w) →
    (∀ x, t !! Z.to_nat (end_idx b) = Some x → ts b + w < x) →
    chain t w (end_idx b) bl →
    chain t w (start_idx b) (b :: bl).

Definition covered (b : Bucket) {A} (l : list A) : list A := slice (start_idx b) (end_idx b) l.
(** The sample at [i] is one of the bucket's, and its percentage [q] is extreme. *)
Definition extreme (R : f32 → f32 → Prop) (ps : list f32) (b : Bucket) (i : Z) (q : f32) : Prop :=
  start_idx b ≤ i < end_idx b ∧ ps !! Z.to_nat i = Some q ∧ Forall (λ y, R y q) (covered b ps).

(** The row of a bucket. *)
Definition row (pref : DownsamplePreference) (s : MPSensorData) (b : Bucket) (v vmin vmax : f32) (f p : option f32) : Prop :=
  v = average (covered b (values s)) ∧
  match pref, perc s with
  | Percentage, Some ps =>
      ∃ i j q q', extreme f32_le ps b i q ∧ extreme (flip f32_le) ps b j q' ∧
        max s !! Z.to_nat i = Some vmax ∧ min s !! Z.to_nat j = Some vmin ∧
        f = (freq s ≫= λ l, l !! Z.to_nat i) ∧ p = Some q
  | _, _ =>
      reduce f32_min (covered b (min s)) = Some vmin ∧ reduce f32_max (covered b (max s)) = Some vmax ∧
      f = (average ∘ covered b <$> freq s) ∧ p = (average ∘ covered b <$> perc s)
  end.

Inductive rows (pref : DownsamplePreference) (s : MPSensorData) : list Bucket → MPSensorData → MPSensorData → Prop :=
| rows_nil d : rows pref s [] d d
| rows_cons b bl v vmin vmax f p d d' :
    row pref s b v vmin vmax f p → rows pref s bl (add_sample (ts b) v vmin vmax f p d) d' →
    rows pref s (b :: bl) d d'.

Definition column_ok (n : Z) (c : option (list f32)) : Prop := ∀ l, c = Some l → len l = n.
Record series_ok (s : MPSensorData) : Prop := {
  so_sorted : StronglySorted Z.le (time s);
  so_range : Forall (λ x, 0 ≤ x < 2 ^ 62) (time s);
  so_values : len (values s) = len (time s);
  so_min : len (min s) = len (time s);
  so_max : len (max s) = len (time s);
  so_freq : column_ok (len (time s)) (freq s);
  so_perc : column_ok (len (time s)) (perc s);
  so_nan : ∀ l, perc s = Some l → Forall (λ x, is_nan x = false) l
}.

(** ** Order of floats *)

Lemma pos_compare m m' : Pos.compare_cont Eq m m' = (Z.pos m ?= Z.pos m').
Proof. done. Qed.

Lemma compare_key x y :
  is_nan x = false → is_nan y = false → SFcompare x y = Some (key_compare (key x) (key y)).
Proof.
  destruct x as [[]|[]| |[] m e], y as [[]|[]| |[] m' e']; intros Hx Hy; try done; cbn [SFcompare key key_compare].
  - change (-1 ?= -1) with Eq. cbn iota. rewrite !Z.compare_opp, (Z.compare_antisym e e'), pos_compare, (Z.compare_antisym (Z.pos m)).
    by destruct (e ?= e').
Qed.

Lemma key_compare_spec a b c a' b' c' :
  CompareSpec (a = a' ∧ b = b' ∧ c = c')
    (a < a' ∨ a = a' ∧ (b < b' ∨ b = b' ∧ c < c'))
    (a' < a ∨ a = a' ∧ (b' < b ∨ b = b' ∧ c' < c)) (key_compare (a, b, c) (a', b', c')).
Proof.
  unfold key_compare. destruct (Z.compare_spec a a'); [|constructor; lia..].
  destruct (Z.compare_spec b b'); [|constructor; lia..]. destruct (Z.compare_spec c c'); constructor; lia.
Qed.

#[export] Instance f32_le_preorder : PreOrder f32_le.
Proof.
  split; unfold f32_le.
  - intros x. destruct (key x) as [[a b] c]. destruct (key_compare_spec a b c a b c); [done|done|lia].
  - intros x y z. destruct (key x) as [[a b] c], (key y) as [[a' b'] c'], (key z) as [[a1 b1] c1].
    destruct (key_compare_spec a b c a' b' c'), (key_compare_spec a' b' c' a1 b1 c1), (key_compare_spec a b c a1 b1 c1); try done; lia.
Qed.

Lemma f32_le_total x y : f32_le x y ∨ f32_le y x.
Proof.
  unfold f32_le. destruct (key x) as [[a b] c], (key y) as [[a' b'] c'].
  destruct (key_compare_spec a b c a' b' c'), (key_compare_spec a' b' c' a b c); auto; lia.
Qed.

(** ** Picking a sample *)

Lemma fold_pick {St E A} (pick : A → A → M St E A) (P : A → Prop) (R : A → A → Prop) `{!PreOrder R} (st : St) l : ∀ a,
  (∀ a b, P a → P b → ∃ r, pick a b st = (Ok r, st) ∧ (r = a ∨ r = b) ∧ R a r ∧ R b r) →
  P a → Forall P l →
  ∃ r, fold_m pick a l st = (Ok r, st) ∧ r ∈ a :: l ∧ Forall (λ x, R x r) (a :: l).
Proof.
  induction l as [|b l IH]; intros a Hpick Ha Hl.
  - exists a. split; [done|]. split; [by apply list_elem_of_singleton|]. by repeat constructor.
  - apply list.Forall_cons in Hl as [Hb Hl]. destruct (Hpick a b Ha Hb) as (r & Hr & Hor & Ra & Rb).
    destruct (IH r Hpick ltac:(by destruct Hor as [-> | ->]) Hl) as (x & Hx & Hin & HF).
    apply list.Forall_cons in HF as [Rr HF]. exists x. cbn [fold_m]. unfold mbind, M_bind. rewrite Hr. split; [done|]. split.
    + rewrite !elem_of_cons. apply elem_of_cons in Hin as [-> |Hin]; [destruct Hor as [-> | ->]|]; auto.
    + constructor; [by etrans|]. constructor; [by etrans|done].
Qed.

Section picking.
Context {St E : Type} (other : list f32) (st : St).

(** A comparison of samples whose percentages are not NaN. *)
Lemma compare_run a b :
  is_nan (snd a) = false → is_nan (snd b) = false → 0 ≤ fst a < len other → 0 ≤ fst b < len other →
  ∃ c, compare_samples (S := St) (E := E) other a b st = (Ok c, st) ∧
    (c = Gt → f32_le (snd b) (snd a)) ∧ (c ≠ Gt → f32_le (snd a) (snd b)).
Proof.
  intros Ha Hb Ia Ib. unfold compare_samples. rewrite compare_key by done. unfold f32_le.
  destruct (lookup_lt_is_Some_2 other (Z.to_nat (fst a))) as [x Hx]; [unfold len in *; lia|].
  destruct (lookup_lt_is_Some_2 other (Z.to_nat (fst b))) as [y Hy]; [unfold len in *; lia|].
  destruct (key (snd a)) as [[k1 k2] k3], (key (snd b)) as [[l1 l2] l3].
  destruct (key_compare_spec k1 k2 k3 l1 l2 l3), (key_compare_spec l1 l2 l3 k1 k2 k3); try lia;
    unfold mbind, M_bind; rewrite ?(index_run _ _ _ _ Hx), ?(index_run _ _ _ _ Hy); (eexists; split; [reflexivity|]; split; intros; congruence).
Qed.

Definition sample_ok (a : Z * f32) : Prop := is_nan (snd a) = false ∧ 0 ≤ fst a < len other.

Lemma max_by_run a b : sample_ok a → sample_ok b →
  ∃ r, max_by (S := St) (E := E) other a b st = (Ok r, st) ∧ (r = a ∨ r = b) ∧ f32_le (snd a) (snd r) ∧ f32_le (snd b) (snd r).
Proof.
  intros [Na Ia] [Nb Ib]. destruct (compare_run a b Na Nb Ia Ib) as (c & Hc & HG & HL).
  unfold max_by, mbind, M_bind. rewrite Hc. destruct (decide (c = Gt)) as [-> |Hn].
  - exists a. split; [done|]. split; [by left|]. split; [reflexivity|by apply HG].
  - exists b. split; [by destruct c|]. split; [by right|]. split; [by apply HL|reflexivity].
Qed.
Lemma min_by_run a b : sample_ok a → sample_ok b →
  ∃ r, min_by (S := St) (E := E) other a b st = (Ok r, st) ∧ (r = a ∨ r = b) ∧ f32_le (snd r) (snd a) ∧ f32_le (snd r) (snd b).
Proof.
  intros [Na Ia] [Nb Ib]. destruct (compare_run a b Na Nb Ia Ib) as (c & Hc & HG & HL).
  unfold min_by, mbind, M_bind. rewrite Hc. destruct (decide (c = Gt)) as [-> |Hn].
  - exists b. split; [done|]. split; [by right|]. split; [by apply HG|reflexivity].
  - exists a. split; [by destruct c|]. split; [by left|]. split; [reflexivity|by apply HL].
Qed.

(** The samples with their indices. *)
Lemma indexed_lookup (percs : list f32) i q :
  (i, q) ∈ zip (seqZ 0 (len percs)) percs → 0 ≤ i < len percs ∧ percs !! Z.to_nat i = Some q.
Proof.
  intros [k Hk]%list_elem_of_lookup_1. apply lookup_zip_with_Some in Hk as (i' & q' & [= <- <-] & Hi & Hq).
  apply lookup_seqZ in Hi as [-> Hi]. split; [lia|]. by replace (Z.to_nat (0 + Z.of_nat k)) with k by lia.
Qed.

Lemma find_run pick (R : f32 → f32 → Prop) `{!PreOrder R} percs :
  (∀ a b, sample_ok a → sample_ok b → ∃ r, pick a b st = (Ok r, st) ∧ (r = a ∨ r = b) ∧ R (snd a) (snd r) ∧ R (snd b) (snd r)) →
  percs ≠ [] → len percs = len other → Forall (λ x, is_nan x = false) percs →
  ∃ i q, find_sample (S := St) (E := E) pick percs st = (Ok (Some (i, q)), st) ∧
    0 ≤ i < len percs ∧ percs !! Z.to_nat i = Some q ∧ Forall (λ y, R y q) percs.
Proof.
  intros Hpick Hne Hlen Hnan. unfold find_sample.
  assert (Hall : Forall sample_ok (zip (seqZ 0 (len percs)) percs)).
  { apply list.Forall_forall. intros [i q] Hin. destruct (indexed_lookup _ _ _ Hin) as [Hi Hq]. split; cbn; [|lia].
    rewrite list.Forall_forall in Hnan. apply Hnan. by eapply list_elem_of_lookup_2. }
  assert (Hsnd : (zip (seqZ 0 (len percs)) percs).*2 = percs).
  { apply snd_zip. rewrite length_seqZ. unfold len. lia. }
  destruct (zip _ _) as [|a l] eqn:Ez; [by destruct percs|]. apply list.Forall_cons in Hall as [Ha Hl].
  assert (Hpre : PreOrder (λ x y : Z * f32, R (snd x) (snd y))) by (split; [by intros x|by intros x y z ??; etrans]).
  destruct (fold_pick pick sample_ok (λ x y, R (snd x) (snd y)) st l a) as ([i q] & Hr & Hin & HF); [by auto|done..|].
  exists i, q. unfold mbind, M_bind. rewrite Hr. split; [done|]. rewrite <-Ez in Hin. apply indexed_lookup in Hin as [Hi Hq].
  split; [done|]. split; [done|]. rewrite <-Hsnd. apply list.Forall_fmap. exact HF.
Qed.
End picking.

(** ** One bucket *)

Lemma get_range_run {A} lo hi (l : list A) : 0 ≤ lo ≤ hi → hi ≤ len l → get_range lo hi l = Some (slice lo hi l).
Proof. intros. unfold get_range. by rewrite !(proj2 (Z.leb_le _ _)) by lia. Qed.

Lemma covered_cons {A} b (l : list A) : 0 ≤ start_idx b < end_idx b → end_idx b ≤ len l → covered b l ≠ [].
Proof.
  intros Hb Hl E. assert (len (covered b l) = 0) as H by by rewrite E. unfold covered in H. rewrite len_slice in H by lia. lia.
Qed.
Lemma reduce_some {A} f (l : list A) : l ≠ [] → ∃ x, reduce f l = Some x.
Proof. destruct l; [done|]. intros _. by eexists. Qed.

Lemma slice_lookup {A} lo hi i (l : list A) :
  0 ≤ lo ≤ hi → hi ≤ len l → 0 ≤ i < hi - lo → slice lo hi l !! Z.to_nat i = l !! Z.to_nat (lo + i).
Proof.
  intros. unfold slice. rewrite lookup_take_lt by lia. rewrite lookup_drop. f_equal. lia.
Qed.

(** The extreme sample of a bucket, in the whole series. *)
Lemma extreme_run {St E} pick (R : f32 → f32 → Prop) `{!PreOrder R} (other ps : list f32) b (st : St) :
  (∀ a c, sample_ok (covered b other) a → sample_ok (covered b other) c →
     ∃ r, pick a c st = (Ok r, st) ∧ (r = a ∨ r = c) ∧ R (snd a) (snd r) ∧ R (snd c) (snd r)) →
  0 ≤ start_idx b < end_idx b → end_idx b ≤ len ps → len other = len ps → Forall (λ x, is_nan x = false) ps →
  ∃ i q x, find_sample (E := E) pick (covered b ps) st = (Ok (Some (i, q)), st) ∧
    extreme R ps b (start_idx b + i) q ∧ other !! Z.to_nat (start_idx b + i) = Some x.
Proof.
  intros Hpick Hb Hps Hlen Hnan.
  assert (Hl : len (covered b ps) = end_idx b - start_idx b) by (unfold covered; by rewrite len_slice by lia).
  destruct (find_run (covered b other) st pick R (covered b ps) Hpick) as (i & q & Hf & Hi & Hq & HR).
  - by apply covered_cons.
  - rewrite Hl. unfold covered. by rewrite len_slice by lia.
  - by apply Forall_slice.
  - unfold covered in Hq. rewrite slice_lookup in Hq by lia.
    destruct (lookup_lt_is_Some_2 other (Z.to_nat (start_idx b + i))) as [x Hx]; [unfold len in *; lia|].
    exists i, q, x. split; [done|]. split; [|done]. split; [lia|]. by split.
Qed.

Lemma column_range n c b : column_ok n c → 0 ≤ start_idx b < end_idx b → end_idx b ≤ n →
  (c ≫= get_range (start_idx b) (end_idx b)) = (covered b <$> c).
Proof. intros Hc Hb Hn. destruct c as [l|]; [|done]. cbn. apply get_range_run; [lia|]. by rewrite (Hc l). Qed.

Lemma add_bucket_run {St E} pref s b d (st : St) :
  series_ok s → 0 ≤ start_idx b < end_idx b → end_idx b ≤ len (time s) →
  ∃ v vmin vmax f p, add_bucket (E := E) pref s b d st = (Ok (add_sample (ts b) v vmin vmax f p d), st) ∧
    row pref s b v vmin vmax f p.
Proof.
  intros [_ _ Hv Hmn Hmx Hf Hp Hnan] Hb He. unfold add_bucket, row.
  rewrite !get_range_run by lia. fold (covered b (values s)) (covered b (min s)) (covered b (max s)).
  rewrite (column_range _ _ _ Hf), (column_range _ _ _ Hp) by done. cbn [fmap option_fmap option_map mbind option_bind].
  destruct (reduce_some f32_min (covered b (min s))) as [vmin ->]; [apply covered_cons; lia|].
  destruct (reduce_some f32_max (covered b (max s))) as [vmax ->]; [apply covered_cons; lia|]. cbn [default].
  assert (Hbest : ∃ best, and_then (S := St) (E := E) (covered b <$> perc s)
    (λ percs, and_then (Some (covered b (max s))) (find_sample_with_max_percentage percs)) st = (Ok best, st) ∧
    match perc s with
    | Some ps => ∃ i q x, best = Some (i, q) ∧ extreme f32_le ps b (start_idx b + i) q ∧ max s !! Z.to_nat (start_idx b + i) = Some x
    | None => best = None end).
  { destruct (perc s) as [ps|] eqn:Eps; [|by eexists].
    destruct (extreme_run (E := E) (max_by (covered b (max s))) f32_le (max s) ps b st) as (i & q & x & Hrun & Hext & Hx).
    - intros. by apply max_by_run.
    - done.
    - by rewrite (Hp ps).
    - rewrite (Hp ps) by done. lia.
    - by apply Hnan.
    - eexists. split; [exact Hrun|]. by exists i, q, x. }
  destruct Hbest as (best & Hrun & Hbest). unfold mbind at 1, M_bind at 1. rewrite Hrun.
  destruct (perc s) as [ps|] eqn:Eps.
  2: { subst best. do 5 eexists. split; [by destruct pref|]. split; [done|]. by destruct pref, (freq s). }
  destruct Hbest as (i & q & x & -> & Hext & Hx). destruct pref.
  2: { do 5 eexists. split; [done|]. split; [done|]. by destruct (freq s). }
  destruct (extreme_run (E := E) (min_by (covered b (min s))) (flip f32_le) (min s) ps b st) as (j & q' & y & Hrun' & Hext' & Hy).
  - intros. by apply min_by_run.
  - done.
  - by rewrite (Hp ps).
  - rewrite (Hp ps) by done. lia.
  - by apply Hnan.
  - unfold mbind at 1, M_bind at 1. cbn [fmap option_fmap option_map and_then]. unfold find_sample_with_min_percentage.
    rewrite Hrun', Hx. cbn [mbind option_bind]. rewrite Hy. cbn [default]. do 5 eexists. split; [reflexivity|]. split; [done|].
    exists (start_idx b + i), (start_idx b + j), q, q'. by split_and!.
Qed.

(** ** The partition *)

Lemma position_spec e t :
  StronglySorted Z.le t →
  let k := default (len t) (position (λ x, e <? x) t) in
  0 ≤ k ≤ len t ∧ (∀ i x, 0 ≤ i < k → t !! Z.to_nat i = Some x → x ≤ e) ∧
  (∀ i x, k ≤ i → t !! Z.to_nat i = Some x → e < x).
Proof.
  induction t as [|y t IH]; intros Hs; cbn [position]; cbv zeta.
  { change (len []) with 0. split; [cbn; lia|]. split; [cbn; intros; lia|by intros]. }
  apply StronglySorted_inv in Hs as [Hs Hy]. pose proof (len_nonneg t). rewrite len_cons. destruct (Z.ltb_spec e y) as [He|He].
  - cbn. split; [lia|]. split; [intros; lia|]. intros i x Hi Hx.
    destruct (Z.to_nat i) as [|n]; [by injection Hx as <-|cbn in Hx].
    rewrite list.Forall_forall in Hy. pose proof (Hy x (list_elem_of_lookup_2 _ _ _ Hx)). lia.
  - destruct (IH Hs) as (Hk & Hbef & Haft). set (k := default (len t) _) in *.
    assert (Ek : default (len t + 1) (Z.succ <$> position (λ x, e <? x) t) = k + 1).
    { unfold k. destruct (position _ t); cbn; lia. }
    replace (1 + len t) with (len t + 1) by lia. rewrite Ek. split; [lia|]. split.
    + intros i x Hi Hx. destruct (decide (i = 0)) as [-> |]; [injection Hx as <-; lia|].
      replace (Z.to_nat i) with (S (Z.to_nat (i - 1))) in Hx by lia. cbn in Hx. apply (Hbef (i - 1)); [lia|done].
    + intros i x Hi Hx. replace (Z.to_nat i) with (S (Z.to_nat (i - 1))) in Hx by lia. cbn in Hx. apply (Haft (i - 1)); [lia|done].
Qed.

Lemma range_lookup (t : list Z) i x : Forall (λ x, 0 ≤ x < 2 ^ 62) t → t !! i = Some x → 0 ≤ x < 2 ^ 62.
Proof. intros Ht Hx. rewrite list.Forall_forall in Ht. apply Ht. by eapply list_elem_of_lookup_2. Qed.

Lemma i64_rem_run {St E} a b (st : St) : 0 ≤ a → 0 < b → i64_rem (E := E) a b st = (Ok (a mod b), st).
Proof.
  intros Ha Hb. unfold i64_rem, i64_min. rewrite (proj2 (Z.eqb_neq b 0)), (proj2 (Z.eqb_neq a (- 2 ^ 63))) by lia.
  by rewrite Z.rem_mod_nonneg by lia.
Qed.

Lemma bucket_new_run {St E} t s w (st : St) :
  StronglySorted Z.le t → Forall (λ x, 0 ≤ x < 2 ^ 62) t → 0 < w ≤ 2 ^ 62 → 0 ≤ s < len t →
  ∃ b, bucket_new (E := E) t s w st = (Ok b, st) ∧ start_idx b = s ∧ s < end_idx b ≤ len t ∧ (w | ts b) ∧
    (∀ i x, s ≤ i < end_idx b → t !! Z.to_nat i = Some x → ts b ≤ x ≤ ts b + w) ∧
    (∀ i x, end_idx b ≤ i → t !! Z.to_nat i = Some x → ts b + w < x) ∧
    ∀ x, t !! Z.to_nat s = Some x → ts b = w * (x / w).
Proof.
  intros Hs Hr Hw Hi. destruct (lookup_lt_is_Some_2 t (Z.to_nat s)) as [x Hx]; [unfold len in Hi; lia|].
  pose proof (range_lookup _ _ _ Hr Hx) as Hx0. pose proof (Z.mod_pos_bound x w ltac:(lia)). pose proof (Z.div_mod x w ltac:(lia)).
  pose proof (Z.mod_le x w ltac:(lia) ltac:(lia)).
  unfold bucket_new, mbind, M_bind. rewrite (index_run _ _ _ _ Hx), i64_rem_run by lia.
  unfold i64_sub, i64_add. rewrite i64_op_run by (unfold is_i64, i64_min, i64_max; lia).
  rewrite i64_op_run by (unfold is_i64, i64_min, i64_max; lia).
  set (e := x - x mod w + w). destruct (position_spec e t Hs) as (Hk & Hbef & Haft). set (k := default (len t) _) in *.
  assert (Hsk : s < k).
  { destruct (Z.lt_ge_cases s k); [done|]. pose proof (Haft s x ltac:(lia) Hx). unfold e in *. lia. }
  exists (mkBucket (x - x mod w) s k). split; [done|]. cbn. split; [done|]. split; [lia|].
  split; [exists (x / w); lia|]. split; [|split].
  - intros i y Hi' Hy. split; [|apply (Hbef i); [lia|done]].
    pose proof (sorted_lookup t (Z.to_nat s) (Z.to_nat i) x y Hs ltac:(lia) Hx Hy). lia.
  - exact Haft.
  - intros y Hy. rewrite Hx in Hy. injection Hy as <-. lia.
Qed.

(** The loop makes one row per bucket, and as many turns as samples are enough. *)
Lemma bucket_loop_run {St E} pref s w fuel : ∀ start d (st : St),
  series_ok s → 0 < w ≤ 2 ^ 62 → 0 ≤ start ≤ len (time s) → len (time s) - start < Z.of_nat fuel →
  ∃ bl d', bucket_loop (E := E) fuel pref s w start (len (time s)) d st = (Ok d', st) ∧
    chain (time s) w start bl ∧ rows pref s bl d d' ∧
    ∀ b bl' x, bl = b :: bl' → time s !! Z.to_nat start = Some x → ts b = w * (x / w).
Proof.
  induction fuel as [|fuel IH]; intros start d st Hok Hw Hst Hf; [lia|]. cbn [bucket_loop].
  destruct (Z.ltb_spec start (len (time s))) as [Hlt|Hge].
  2: { exists [], d. split; [done|]. replace start with (len (time s)) by lia. split; [constructor|]. split; [constructor|]. by intros. }
  destruct (bucket_new_run (E := E) (time s) start w st (so_sorted s Hok) (so_range s Hok) Hw ltac:(lia))
    as (b & Hb & Hs & He & Hdiv & Hin & Hout & Hts).
  destruct (add_bucket_run (E := E) pref s b d st Hok ltac:(lia) ltac:(lia)) as (v & vmin & vmax & f & p & Hadd & Hrow).
  destruct (IH (end_idx b) (add_sample (ts b) v vmin vmax f p d) st Hok Hw ltac:(lia) ltac:(lia))
    as (bl & d' & Hrun & Hch & Hrows & _).
  exists (b :: bl), d'. unfold mbind, M_bind. rewrite Hb, Hadd, Hrun. split; [done|]. split.
  - rewrite <-Hs. constructor; [lia|lia|done| | |done]; [by rewrite Hs|]. intros x Hx. by apply (Hout (end_idx b)).
  - split; [by econstructor|]. intros b' bl' x [= -> ->]. apply Hts.
Qed.

(** ** The width and the number of buckets *)

Lemma find_next_width_spec w : find_next_width w ∈ BucketWidth_ALL ∧ (find_next_width w = largest ∨ w ≤ find_next_width w).
Proof.
  unfold find_next_width. destruct (filter _ _) as [|b l] eqn:E.
  - split; [|by left]. apply (bool_decide_unpack (largest ∈ BucketWidth_ALL)). by vm_compute.
  - assert (Hb : b ∈ filter (λ bucket, w ≤ bucket) BucketWidth_ALL) by (rewrite E; by left).
    apply list_elem_of_filter in Hb as [Hw Hb]. by auto.
Qed.

Lemma width_range w : w ∈ BucketWidth_ALL → 0 < w ≤ 2 ^ 62.
Proof.
  intros Hw. assert (HF : Forall (λ w, 0 < w ≤ 2 ^ 62) BucketWidth_ALL) by (repeat constructor; lia).
  rewrite list.Forall_forall in HF. by apply HF.
Qed.

Lemma intervals_run {St E} t (st : St) : Forall (λ x, 0 ≤ x < 2 ^ 62) t → ∃ ds, intervals (E := E) t st = (Ok ds, st).
Proof.
  induction 1 as [|a t Ha Ht IH]; [by eexists|]. destruct t as [|b t]; [by eexists|].
  destruct IH as [ds Hds]. apply list.Forall_cons in Ht as [Hb _]. 
  change (intervals (a :: b :: t)) with (d ← i64_sub (S := St) (E := E) b a; ds ← intervals (b :: t); mret (d :: ds)).
  unfold mbind, M_bind, i64_sub. rewrite i64_op_run by (unfold is_i64, i64_min, i64_max; lia). rewrite Hds. by eexists.
Qed.

(** The width that the [f64] arithmetic asks for. *)
Definition ideal_width (range m : Z) : Z := f64_as_i64 (f64_ceil (f64_div (f64_of_int range) (f64_of_int (m - 1)))).

Lemma calc_bucket_width_run {St E} t m t0 t1 (st : St) :
  StronglySorted Z.le t → Forall (λ x, 0 ≤ x < 2 ^ 62) t → 1 < len t → 1 ≤ m →
  t !! 0%nat = Some t0 → t !! Z.to_nat (len t - 1) = Some t1 →
  ∃ w, calc_bucket_width (E := E) t m st = (Ok w, st) ∧
    (m = 1 → w = t1 - t0) ∧
    (m ≠ 1 → w ∈ BucketWidth_ALL ∧ (w = largest ∨ ideal_width (t1 - t0) m ≤ w)).
Proof.
  intros Hs Hr Hl Hm H0 H1. pose proof (range_lookup _ _ _ Hr H0). pose proof (range_lookup _ _ _ Hr H1).
  unfold calc_bucket_width. rewrite (proj2 (Z.leb_gt (len t) 1)) by lia. unfold mbind, M_bind.
  rewrite (index_run _ 0 _ _ H0), (index_run _ _ _ _ H1). unfold i64_sub at 1.
  rewrite i64_op_run by (unfold is_i64, i64_min, i64_max; lia).
  destruct (Z.eqb_spec m 1) as [-> |Hm1]; [by eexists|]. unfold usize_sub. rewrite (proj2 (Z.leb_le _ _)) by lia. cbn [mret M_ret].
  destruct (intervals_run (E := E) t st Hr) as [ds ->]. eexists. split; [done|]. split; [done|]. intros _.
  fold (ideal_width (t1 - t0) m). destruct (find_next_width_spec (Z.max (ideal_width (t1 - t0) m) (min_interval_of ds))) as [Hin Hw].
  split; [done|]. destruct Hw; [by left|right; lia].
Qed.

Lemma multiples_apart w a b : 0 < w → (w | a) → (w | b) → a < b → a / w + 1 ≤ b / w.
Proof. intros Hw [k ->] [l ->] Hab. rewrite !Z.div_mul by lia. nia. Qed.

Lemma chain_count t w s bl : 0 < w → StronglySorted Z.le t → chain t w s bl →
  ∀ b bl' t1, bl = b :: bl' → t !! Z.to_nat (len t - 1) = Some t1 → len bl ≤ t1 / w - ts b / w + 1.
Proof.
  intros Hw Hs. induction 1 as [|b bl Hb He Hdiv Hin Hout Hch IH]; [done|].
  intros b' bl'' t1 [= <- <-] H1. destruct (lookup_lt_is_Some_2 t (Z.to_nat (start_idx b))) as [x Hx]; [unfold len in *; lia|].
  pose proof (Hin (start_idx b) x ltac:(lia) Hx). pose proof (sorted_lookup t (Z.to_nat (start_idx b)) (Z.to_nat (len t - 1)) x t1 Hs ltac:(lia) Hx H1).
  rewrite len_cons. destruct bl as [|b2 bl2].
  - change (len []) with 0. pose proof (Z.div_le_mono (ts b) t1 w Hw ltac:(lia)). lia.
  - pose proof (IH b2 bl2 t1 eq_refl H1) as Hlen. inversion Hch as [|b3 bl3 Hb3 He3 Hdiv3 Hin3 _ _ Es]; subst b3 bl3.
    destruct (lookup_lt_is_Some_2 t (Z.to_nat (start_idx b2))) as [y Hy]; [unfold len in *; lia|].
    pose proof (Hin3 (start_idx b2) y ltac:(lia) Hy) as Hy2. rewrite Es in Hy. pose proof (Hout y Hy).
    pose proof (multiples_apart w (ts b) (ts b2) Hw Hdiv Hdiv3 ltac:(lia)). lia.
Qed.

Lemma rows_time pref s bl d d' : rows pref s bl d d' → time d' = time d ++ (ts <$> bl).
Proof. induction 1 as [|b bl v vmin vmax f p d d' _ _ IH]; [by rewrite app_nil_r|]. rewrite IH. cbn. by rewrite <-(assoc_L (++)). Qed.

(** The series without rows. *)
Definition no_rows (s : MPSensorData) (w : Z) : MPSensorData :=
  mkSeries (measuring_point_id s) [] [] [] [] (const [] <$> freq s) (const [] <$> perc s) (f32_div (f32_of_int w) (f32_of_int 1000)).

(** C36: downsampling partitions the series.  For sorted timestamps, at least one point and more
    samples than points asked for, and, if one point is asked for, a first and a last
    timestamp that differ (they may not, see [simultaneous_samples_panic]),
    the call terminates without a panic; the samples are cut into consecutive
    buckets that start at multiples of the width, in which every sample lies, none is left out,
    and every bucket makes one row: the average, and the least and greatest value, or
    those of the samples with the least and the greatest percentage.  There are at most
    two rows more than widths in the range, and at most as many as asked for when the
    width is what that number needs. *)
Theorem downsample_partitions {St E} s m pref t0 t1 (st : St) :
  series_ok s → 1 ≤ m < len (time s) →
  time s !! 0%nat = Some t0 → time s !! Z.to_nat (len (time s) - 1) = Some t1 → (m = 1 → t0 < t1) →
  ∃ w bl d', downsample (E := E) s (mkOptions (MaxPoints m) pref) st = (Ok d', st) ∧
    (if m =? 1 then w = t1 - t0 else w ∈ BucketWidth_ALL ∧ (w = largest ∨ ideal_width (t1 - t0) m ≤ w)) ∧
    chain (time s) w 0 bl ∧ rows pref s bl (no_rows s w) d' ∧ time d' = ts <$> bl ∧
    len (time d') ≤ (t1 - t0) / w + 2 ∧ (t1 - t0 ≤ (m - 1) * w → len (time d') ≤ m).
Proof.
  intros Hok Hm H0 H1 Hlt. pose proof (so_sorted s Hok) as Hs. pose proof (so_range s Hok) as Hr.
  pose proof (range_lookup _ _ _ Hr H0). pose proof (range_lookup _ _ _ Hr H1).
  destruct (calc_bucket_width_run (E := E) (time s) m t0 t1 st Hs Hr ltac:(lia) ltac:(lia) H0 H1) as (w & Hw & Hw1 & Hwn).
  assert (Hwr : 0 < w ≤ 2 ^ 62).
  { destruct (decide (m = 1)) as [E1|En]; [rewrite (Hw1 E1); specialize (Hlt E1); lia|]. by apply width_range, Hwn. }
  destruct (bucket_loop_run (E := E) pref s w (length (time s) + 1) 0 (no_rows s w) st Hok Hwr) as (bl & d' & Hrun & Hch & Hrows & Hts).
  { pose proof (len_nonneg (time s)). lia. }
  { unfold len. lia. }
  exists w, bl, d'. split.
  { unfold downsample. destruct (time s) as [|a t] eqn:Et; [done|]. rewrite <-Et in *. unfold mbind, M_bind.
    rewrite (index_run _ 0 _ _ H0), (index_run _ _ _ _ H1). cbn [method bucket_width]. unfold mbind, M_bind. rewrite Hw. cbn [mret M_ret].
    rewrite (proj2 (Z.leb_gt _ _)) by lia. cbn [bucket_range mret M_ret preference]. fold (no_rows s w). exact Hrun. }
  split; [destruct (Z.eqb_spec m 1); auto|]. split; [done|]. split; [done|].
  pose proof (rows_time _ _ _ _ _ Hrows) as Ht. cbn in Ht. split; [done|]. rewrite Ht.
  replace (len (ts <$> bl)) with (len bl) by (unfold len; by rewrite length_fmap).
  destruct bl as [|b bl']; [change (len []) with 0; pose proof (Z.div_pos (t1 - t0) w); pose proof (sorted_lookup _ _ _ _ _ Hs (Nat.le_0_l _) H0 H1); lia|].
  pose proof (chain_count _ _ _ _ (proj1 Hwr) Hs Hch b bl' t1 eq_refl H1) as Hc.
  rewrite (Hts b bl' t0 eq_refl H0), (Z.mul_comm w), Z.div_mul in Hc by lia.
  pose proof (Z.div_mod t0 w ltac:(lia)). pose proof (Z.mod_pos_bound t0 w ltac:(lia)).
  pose proof (Z.div_mod t1 w ltac:(lia)). pose proof (Z.mod_pos_bound t1 w ltac:(lia)).
  pose proof (Z.div_mod (t1 - t0) w ltac:(lia)). pose proof (Z.mod_pos_bound (t1 - t0) w ltac:(lia)).
  split; [nia|]. intros. nia.
Qed.

Module DemoTimeseries.
Definition floats (l : list Z) : list f32 := f32_of_int <$> l.
(** The series of the unit test of the source. *)
Definition series : MPSensorData :=
  mkSeries [] [1; 2; 3] (floats [4; 6; 5]) (floats [0; 2; 1]) (floats [8; 9; 8]) None (Some (floats [0; 0; 0])) (f32_of_int 0).

Lemma series_is_ok : series_ok series.
Proof.
  split; cbn [time values min max freq perc series]; try done.
  - repeat (constructor; try lia).
  - repeat constructor; lia.
  - by intros l [= <-].
  - intros l [= <-]. repeat constructor.
Qed.

Lemma downsample_partitions_witness :
  ∃ bl d', downsample (E := unit) series (mkOptions (MaxPoints 1) Percentage) tt = (Ok d', tt) ∧
    chain [1; 2; 3] 2 0 bl ∧ rows Percentage series bl (no_rows series 2) d' ∧ time d' = [0; 2].
Proof.
  destruct (downsample_partitions (E := unit) series 1 Percentage 1 3 tt series_is_ok) as (w & bl & d' & Hr & Hw & Hc & Hrows & Ht & _);
    [split; [lia|reflexivity]|reflexivity|reflexivity|lia|].
  cbn in Hw. subst w. exists bl, d'. split; [exact Hr|]. split; [exact Hc|]. split; [exact Hrows|].
  vm_compute in Hr. injection Hr as <-. reflexivity.
Defined.

(** Samples every 3 ms from 0 to 33: the bucket from 0 to 10 is complete but is left out
    with the incomplete one at the end, because the search for the first full bucket
    skips to the first remainder that is smaller than the one before it. *)
Definition regular : MPSensorData :=
  mkSeries [] (Z.mul 3 <$> seqZ 0 12) (floats (seqZ 0 12)) [] [] None None (f32_of_int 0).
Lemma aligned_first_bucket_dropped :
  ∃ d', downsample (E := unit) regular (mkOptions (BucketWidthMS 10) Average) tt = (Ok d', tt) ∧ time d' = [10; 20].
Proof. eexists. split; vm_compute; reflexivity. Qed.

(** Two samples of the same millisecond, reduced to one point: a division by zero. *)
Definition simultaneous : MPSensorData := mkSeries [] [5; 5] (floats [1; 2]) [] [] None None (f32_of_int 0).
Lemma simultaneous_samples_panic :
  (downsample (E := unit) simultaneous (mkOptions (MaxPoints 1) Average) tt).1 = Panic.
Proof. vm_compute. reflexivity. Qed.

(** The order of the query may be descending; then everything is one bucket. *)
Definition descending : MPSensorData :=
  mkSeries [] [4000; 3000; 2000; 1000; 0] (floats [1; 2; 3; 4; 5]) [] [] None None (f32_of_int 0).
Lemma descending_series_collapses :
  ∃ d', downsample (E := unit) descending (mkOptions (MaxPoints 4) Average) tt = (Ok d', tt) ∧
    time d' = [4000] ∧ values d' = [f32_of_int 3].
Proof. eexists. split; [vm_compute; reflexivity|]. split; vm_compute; reflexivity. Qed.
End DemoTimeseries.
