(* ===== verification/Charger.v ===== *)
(** * The battery charger

    [drivers/bq25672.rs]: the driver of a battery charger chip on an I2C bus that is
    powered down between calls.  The bus, the enable pin and the interrupt line with its
    clock are the third-party traits of [embedded-hal] and the platform: classes.  An
    [ActiveBus], the guard that [acquire] returns, is a [Bus]; its [Drop] runs whenever
    a call leaves the block. *)

From stdpp Require Import base list list_numbers numbers option.
From S2P Require Import Prelude Bitwise.

(** ** The hardware *)

(** [I2c] and [Suspend]; [i2c_write_read] fills a buffer of the given size. *)
Class I2cBus (P EI : Type) : Type := {
  i2c_write : Z → list Z → M P EI unit;
  i2c_write_read : Z → list Z → Z → M P EI (list Z);
  suspend : P → P;
  resume : P → P
}.

(** [OutputPin] *)
Class OutputPin (CE : Type) : Type := { set_high : M CE unit unit; set_low : M CE unit unit }.

(** [Trigger::wait_untill_any_edge] with a time-out, [true] for an edge, and the clock. *)
Class TriggerClock (X : Type) : Type := { wait_untill_any_edge : Z → X → bool * X; now_us : X → Z }.

(** ** Data *)

Inductive Charging : Type := CNone | Trickle | Pre | FastCC | TaperCV | TopOff | CDone.
Definition charging_from (value : Z) : Charging :=
  match value with
  | 1 => Trickle | 2 => Pre | 3 => FastCC | 4 => TaperCV
  | 6 => TopOff | 7 => CDone | _ => CNone
  end.

Record ChipInfo : Type := mkChipInfo {
  watchdog_expired : bool; overheating : bool; ac2_mosfet_found : bool; ac1_mosfet_found : bool
}.

Inductive PowerSource : Type := BatteryOnly | Adapter (vindpm : Z) | USB (vindpm : Z).
Inductive SourceStatus : Type := Poor | VoltageRegulation | CurrentRegulation | Present | NoAdapter.

Record Status : Type := mkStatus {
  power_good : bool;
  usb_present : bool;
  adapter_present : bool;
  battery_present : bool;
  source_status : SourceStatus;
  charging : Charging;
  chip_info : ChipInfo
}.

Record InputLimits : Type := mkInputLimits {
  input_voltage_limit_mv : Z; input_current_limit_ma : Z; ico_optimizer_limit_ma : Z
}.

Record Faults : Type := mkFaults {
  bus_overvoltage : bool;
  usb_overvoltage : bool;
  adapter_overvoltage : bool;
  bus_overcurrent : bool;
  converter_overcurrent : bool;
  battery_overvoltage : bool;
  battery_overcurrent : bool;
  output_short_circuit : bool;
  output_overvoltage : bool;
  overtemp_shutdown : bool
}.

Record PowerMeasurements : Type := mkPower {
  current_bus_ma : Z; current_battery_ma : Z; adapter_mv : Z; usb_mv : Z; battery_mv : Z; system_mv : Z
}.

Inductive BatteryTempRange : Type := Cold | Cool | NormalTemp | Warm | Hot | Unknown.

(** [BatteryTempRange::from] *)
Definition temp_range_from {S E} (tmp : Z) : M S E BatteryTempRange :=
  b0 ← bit W8 tmp 0;
  if b0 : bool then mret Hot else
  b1 ← bit W8 tmp 1;
  if b1 : bool then mret Warm else
  b2 ← bit W8 tmp 2;
  if b2 : bool then mret Cool else
  b3 ← bit W8 tmp 3;
  if b3 : bool then mret Cold else mret NormalTemp.

Inductive ChargeTimeout : Type := Max5Hours | Max8Hours | Max12Hours | Max24Hours.
Definition timeout_as_u8 (t : ChargeTimeout) : Z :=
  match t with Max5Hours => 0 | Max8Hours => 1 | Max12Hours => 2 | Max24Hours => 3 end.

Inductive WatchdogConfig : Type :=
| Off | ResetAfter500ms | ResetAfter1sec | ResetAfter2sec | ResetAfter20sec | ResetAfter40sec | ResetAfter80sec | ResetAfter160sec.
Definition watchdog_as_u8 (w : WatchdogConfig) : Z :=
  match w with
  | Off => 0 | ResetAfter500ms => 1 | ResetAfter1sec => 2 | ResetAfter2sec => 3
  | ResetAfter20sec => 4 | ResetAfter40sec => 5 | ResetAfter80sec => 6 | ResetAfter160sec => 7
  end.

Inductive PowerMode : Type := Idle | Shutdown | Ship | SystemReset.
Definition power_mode_as_u8 (m : PowerMode) : Z :=
  match m with Idle => 0 | Shutdown => 1 | Ship => 2 | SystemReset => 3 end.

Inductive ChargerError (EI : Type) : Type := I2C (e : EI) | ChipNotRecognized | MisConfigured | ChargerTimeout | IO.
Arguments I2C {EI}.
Arguments ChipNotRecognized {EI}.
Arguments MisConfigured {EI}.
Arguments ChargerTimeout {EI}.
Arguments IO {EI}.

Definition ADC_TIMEOUT_MS : Z := 500.

(** The registers and their addresses. *)
Inductive RegU8 : Type :=
| MinSystemVoltage | InputVoltageLimit | PrechargeControl | TerminationControl | ReChargeControl | OTGCurrentRegulation
| TimerControl | ChargerControl0 | ChargerControl1 | ChargerControl2 | ChargerControl3 | ChargerControl4 | ChargerControl5
| MPPTControl | TempControl | NTCControl0 | NTCControl1
| ChargerStatus0 | ChargerStatus1 | ChargerStatus2 | ChargerStatus3 | ChargerStatus4 | Fault0 | Fault1
| ChargerFlag0 | ChargerFlag1 | ChargerFlag2 | ChargerFlag3 | FaultFlag0 | FaultFlag1
| ChargerMask0 | ChargerMask1 | ChargerMask2 | ChargerMask3 | FaultMask0 | FaultMask1
| ADCControl | ADCDisable0 | ADCDisable1 | DPDMDriver | PartInformation.
Definition reg_u8 (r : RegU8) : Z :=
  match r with
  | MinSystemVoltage => 0x00 | InputVoltageLimit => 0x05 | PrechargeControl => 0x08 | TerminationControl => 0x09
  | ReChargeControl => 0x0A | OTGCurrentRegulation => 0x0D | TimerControl => 0x0E
  | ChargerControl0 => 0x0F | ChargerControl1 => 0x10 | ChargerControl2 => 0x11 | ChargerControl3 => 0x12
  | ChargerControl4 => 0x13 | ChargerControl5 => 0x14 | MPPTControl => 0x15 | TempControl => 0x16
  | NTCControl0 => 0x17 | NTCControl1 => 0x18
  | ChargerStatus0 => 0x1B | ChargerStatus1 => 0x1C | ChargerStatus2 => 0x1D | ChargerStatus3 => 0x1E | ChargerStatus4 => 0x1F
  | Fault0 => 0x20 | Fault1 => 0x21
  | ChargerFlag0 => 0x22 | ChargerFlag1 => 0x23 | ChargerFlag2 => 0x24 | ChargerFlag3 => 0x25
  | FaultFlag0 => 0x26 | FaultFlag1 => 0x27
  | ChargerMask0 => 0x28 | ChargerMask1 => 0x29 | ChargerMask2 => 0x2A | ChargerMask3 => 0x2B
  | FaultMask0 => 0x2C | FaultMask1 => 0x2D
  | ADCControl => 0x2E | ADCDisable0 => 0x2F | ADCDisable1 => 0x30 | DPDMDriver => 0x47 | PartInformation => 0x48
  end.
Inductive RegU16 : Type :=
| ChargeVoltageLimit | ChargeCurrentLimit | InputCurrentLimit | OTGVoltageRegulation | InputCurrentOptimalLimit | ADCTS | ADCDP | ADCDM.
Definition reg_u16 (r : RegU16) : Z :=
  match r with
  | ChargeVoltageLimit => 0x01 | ChargeCurrentLimit => 0x03 | InputCurrentLimit => 0x06 | OTGVoltageRegulation => 0x0B
  | InputCurrentOptimalLimit => 0x19 | ADCTS => 0x3F | ADCDP => 0x43 | ADCDM => 0x45
  end.
Inductive RegI16 : Type := ADCIbus | ADCIbat | ADCVbus | ADCVac1 | ADCVac2 | ADCVbat | ADCVsys | ADCTDIE.
Definition reg_i16 (r : RegI16) : Z :=
  match r with
  | ADCIbus => 0x31 | ADCIbat => 0x33 | ADCVbus => 0x35 | ADCVac1 => 0x37 | ADCVac2 => 0x39
  | ADCVbat => 0x3B | ADCVsys => 0x3D | ADCTDIE => 0x41
  end.

(** Fixed settings. *)
Definition MIN_SYSTEM_VOLTAGE_MV : Z := 6300.
Definition CHARGE_LIMIT_MV : Z := 8200.
Definition CHARGE_LIMIT_MA : Z := 2000.
Definition CHARGE_N_CELLS : Z := 2.
Definition TIMEOUT : ChargeTimeout := Max24Hours.
Definition WATCHDOG : WatchdogConfig := Off.
Definition POWERMODE : PowerMode := Idle.
Definition EN_IBAT : bool := false.
Definition INPUT_CURRENT_OPTIMIZER : bool := true.
Definition HIZ_MODE : bool := false.
Definition CHARGER_MASK_0 : Z := Z.lor (Z.shiftl 1 7) (Z.shiftl 1 6).
Definition CHARGER_MASK_1 : Z := Z.shiftl 1 6.
Definition CHARGER_MASK_3_TS : Z := 15.

(** [u16::to_be_bytes], [u16::from_be_bytes] and [i16::from_be_bytes]; the [|] of several
    terms. *)
Definition to_be_bytes16 (v : Z) : list Z := reverse (le_bytes 2 v).
Definition from_be_bytes16 (l : list Z) : Z := le_val (reverse l).
Definition i16_from_be_bytes (l : list Z) : Z := to_signed 16 (le_val (reverse l)).
Definition bits_of (l : list Z) : Z := foldl Z.lor 0 l.

Record BQ25672 (P CE X : Type) : Type := mkBQ {
  peripheral : P; pin_ce : CE; pin_int : X; addr : Z; selected_source : option PowerSource
}.
Arguments mkBQ {P CE X}.
Arguments peripheral {P CE X}.
Arguments pin_ce {P CE X}.
Arguments pin_int {P CE X}.
Arguments addr {P CE X}.
Arguments selected_source {P CE X}.

Record Bus (P X : Type) : Type := mkBus { bus_p : P; bus_int : X; bus_addr : Z }.
Arguments mkBus {P X}.
Arguments bus_p {P X}.
Arguments bus_int {P X}.
Arguments bus_addr {P X}.

Section driver.
Context {P EI CE X : Type} `{!I2cBus P EI, !OutputPin CE, !TriggerClock X}.
Abbreviation MB := (M (Bus P X) (ChargerError EI)).
Abbreviation MC := (M (BQ25672 P CE X) (ChargerError EI)).

(** ** Registers *)

(** A transfer at the address of the guard. *)
Definition transfer {A} (m : Z → M P EI A) : MB A := λ b,
  zoom bus_p (λ p b, mkBus p (bus_int b) (bus_addr b)) (map_err I2C (m (bus_addr b))) b.

(** [read_reg_8] returns [res[0]]. *)
Definition read_reg_8 (register : RegU8) : MB Z :=
  res ← transfer (λ a, i2c_write_read a [reg_u8 register] 1);
  mret (nth 0 res 0).
Definition read_reg_u16 (register : RegU16) : MB Z :=
  res ← transfer (λ a, i2c_write_read a [reg_u16 register] 2);
  mret (from_be_bytes16 res).
Definition read_reg_i16 (register : RegI16) : MB Z :=
  res ← transfer (λ a, i2c_write_read a [reg_i16 register] 2);
  mret (i16_from_be_bytes res).
Definition write_reg_8 (register : RegU8) (value : Z) : MB unit :=
  transfer (λ a, i2c_write a [reg_u8 register; value]).
Definition write_reg_u16 (register : RegU16) (value : Z) : MB unit :=
  let data := to_be_bytes16 value in
  transfer (λ a, i2c_write a (reg_u16 register :: data)).

(** ** [ActiveBus] *)

Definition reset_to_defaults : MB unit := write_reg_8 TerminationControl (Z.shiftl 1 6).

Definition verify_chip : MB unit :=
  part_id ← read_reg_8 PartInformation;
  if Z.land part_id 0x3F =? 0x21 then mret tt else fail ChipNotRecognized.

Definition n_cells_in_series : MB Z :=
  reg ← read_reg_8 ReChargeControl;
  mret (Z.shiftr reg 6 + 1).

Definition set_charger_control0 (optimize_input_current enter_hiz_mode : bool) : MB unit :=
  write_reg_8 ChargerControl0 (bits_of [Z.shiftl 1 7; Z.shiftl 0 6; Z.shiftl 1 5;
    Z.shiftl (Z.b2z optimize_input_current) 4; Z.shiftl (Z.b2z optimize_input_current) 3;
    Z.shiftl (Z.b2z enter_hiz_mode) 2; Z.shiftl 1 1]).

Definition bus_set_watchdog (config : WatchdogConfig) : MB unit :=
  write_reg_8 ChargerControl1 (bits_of [Z.shiftl 0 4; Z.shiftl 0 3; watchdog_as_u8 config]).

Definition set_power_mode (power_mode : PowerMode) : MB unit :=
  write_reg_8 ChargerControl2 (bits_of [Z.shiftl 0 7; Z.shiftl 0 6; Z.shiftl 0 5; Z.shiftl 0 4; Z.shiftl 0 3;
    Z.shiftl (power_mode_as_u8 power_mode) 1; 1]).

Definition configure_adc_inputs : MB unit :=
  write_reg_8 ADCDisable0 (bits_of [Z.shiftl 0 7; Z.shiftl 0 6; Z.shiftl 1 5; Z.shiftl 0 4; Z.shiftl 0 3; Z.shiftl 0 2; Z.shiftl 0 1]);;
  write_reg_8 ADCDisable1 (bits_of [Z.shiftl 1 7; Z.shiftl 1 6; Z.shiftl 0 5; Z.shiftl 0 4]).

Definition set_battery_current_measurement (enable_measurement : bool) : MB unit :=
  write_reg_8 ChargerControl5 (bits_of [Z.shiftl 1 7; Z.shiftl (Z.b2z enable_measurement) 5; Z.shiftl 2 3;
    Z.shiftl 1 2; Z.shiftl 1 1; Z.shiftl 1 0]).

Definition set_min_sys_voltage (min_system_mv : Z) : MB unit :=
  write_reg_8 MinSystemVoltage (as_u8 (saturating_sub (Z.min min_system_mv 16000) 2500 / 250)).

Definition configure_charging (current_limit_ma : Z) : MB unit :=
  let current_limit_ma := Z.min current_limit_ma CHARGE_LIMIT_MA in
  let voltage_limit_mv := CHARGE_LIMIT_MV in
  write_reg_u16 ChargeVoltageLimit (Z.min voltage_limit_mv 18800 / 10);;
  write_reg_u16 ChargeCurrentLimit (current_limit_ma / 10);;
  let termination_limit := current_limit_ma / 10 in
  write_reg_8 TerminationControl (as_u8 (Z.min termination_limit 1000 / 40));;
  write_reg_8 TimerControl (bits_of [Z.shiftl 0 6; Z.shiftl 1 5; Z.shiftl 1 4; Z.shiftl 1 3; Z.shiftl (timeout_as_u8 TIMEOUT) 1; 1]).

Definition inner_configure : MB unit :=
  reset_to_defaults;;
  verify_chip;;
  n ← n_cells_in_series;
  if negb (n =? CHARGE_N_CELLS) then fail MisConfigured
  else
    set_min_sys_voltage MIN_SYSTEM_VOLTAGE_MV;;
    configure_charging CHARGE_LIMIT_MA;;
    set_charger_control0 INPUT_CURRENT_OPTIMIZER HIZ_MODE;;
    bus_set_watchdog WATCHDOG;;
    set_power_mode POWERMODE;;
    set_battery_current_measurement EN_IBAT;;
    configure_adc_inputs;;
    write_reg_8 ChargerMask0 CHARGER_MASK_0;;
    write_reg_8 ChargerMask1 CHARGER_MASK_1.

(** [pin_int.wait_untill_any_edge().with_timeout_us(..)] *)
Definition bus_wait (timeout_us : Z) : MB bool := λ b,
  let '(edge, x) := wait_untill_any_edge timeout_us (bus_int b) in (Ok edge, mkBus (bus_p b) x (bus_addr b)).

(** [await_flag(Flag::ADCDone, ..)]; the result is [false] when the flag was still
    awaited after [fuel] edges. *)
Fixpoint await_flag (fuel : nat) (timeout_ms : Z) : MB bool :=
  match fuel with
  | O => mret false
  | S fuel =>
      value ← read_reg_8 ChargerFlag2;
      flag_found ← bit W8 value 5;
      if flag_found : bool then mret true
      else
        edge ← bus_wait (timeout_ms * 1000);
        if edge : bool then await_flag fuel timeout_ms else fail ChargerTimeout
  end.

Definition inner_measure_power (fuel : nat) : MB (option PowerMeasurements) :=
  write_reg_8 ADCControl (bits_of [Z.shiftl 1 7; Z.shiftl 1 6; Z.shiftl 1 4; Z.shiftl 0 3; Z.shiftl 1 2]);;
  done ← await_flag fuel ADC_TIMEOUT_MS;
  if negb done then mret None
  else
    ibus ← read_reg_i16 ADCIbus;
    ibat ← read_reg_i16 ADCIbat;
    vac1 ← read_reg_i16 ADCVac1;
    vac2 ← read_reg_i16 ADCVac2;
    vbat ← read_reg_i16 ADCVbat;
    vsys ← read_reg_i16 ADCVsys;
    mret (Some (mkPower ibus ibat vac1 vac2 vbat vsys)).

(** ** [BQ25672] *)

Definition bq_new (p : P) (charge_enable : CE) (interrupt : X) : BQ25672 P CE X := mkBQ p charge_enable interrupt 0x6B None.

(** A block that starts with [acquire] and ends with the guard's [Drop]. *)
Definition with_bus {A} (m : MB A) : MC A := λ c,
  let '(r, b) := m (mkBus (resume (peripheral c)) (pin_int c) (addr c)) in
  (r, mkBQ (suspend (bus_p b)) (pin_ce c) (bus_int b) (addr c) (selected_source c)).

(** An operation of the enable pin, and one of the interrupt line outside a guard. *)
Definition on_pin (m : M CE unit unit) : MC unit :=
  zoom pin_ce (λ ce c, mkBQ (peripheral c) ce (pin_int c) (addr c) (selected_source c)) (map_err (λ _, IO) m).
Definition bq_wait (timeout_us : Z) : MC bool := λ c,
  let '(edge, x) := wait_untill_any_edge timeout_us (pin_int c) in
  (Ok edge, mkBQ (peripheral c) (pin_ce c) x (addr c) (selected_source c)).
Definition set_source (s : PowerSource) (c : BQ25672 P CE X) : BQ25672 P CE X :=
  mkBQ (peripheral c) (pin_ce c) (pin_int c) (addr c) (Some s).

(** The enable pin is active low. *)
Definition disable_charging : MC unit := on_pin set_high.
Definition enable_charging : MC unit := on_pin set_low.

Definition configure : MC unit := disable_charging;; with_bus inner_configure.

(** The flags of one turn of [await_change], all of them read. *)
Fixpoint check_flags (l : list (RegU8 * Z)) (significant : bool) : MB bool :=
  match l with
  | [] => mret significant
  | (flag_reg, mask) :: l =>
      value ← read_reg_8 flag_reg;
      check_flags l (significant || negb (Z.land value (255 - mask) =? 0))
  end.
Definition flags_of (source : option PowerSource) : list (RegU8 * Z) :=
  let mask3 := match source with Some BatteryOnly => CHARGER_MASK_3_TS | _ => 0 end in
  [(ChargerFlag0, CHARGER_MASK_0); (ChargerFlag1, CHARGER_MASK_1); (ChargerFlag2, 0); (ChargerFlag3, mask3);
   (FaultFlag0, 0); (FaultFlag1, 0)].

(** The result is [false] when nothing was decided after [fuel] edges. *)
Fixpoint change_loop (fuel : nat) (flags : list (RegU8 * Z)) (start timeout_us : Z) : MC bool :=
  match fuel with
  | O => mret false
  | S fuel =>
      significant ← with_bus (check_flags flags false);
      if significant : bool then mret true
      else
        now ← gets (now_us ∘ pin_int);
        let elapsed := now - start in
        if timeout_us <=? elapsed then fail ChargerTimeout
        else
          edge ← bq_wait (timeout_us - elapsed);
          if edge : bool then change_loop fuel flags start timeout_us else fail ChargerTimeout
  end.
Definition await_change (fuel : nat) (timeout_ms : Z) : MC bool :=
  source ← gets selected_source;
  start ← gets (now_us ∘ pin_int);
  change_loop fuel (flags_of source) start (timeout_ms * 1000).

Definition select_source (source : PowerSource) : MC unit :=
  modify (set_source source);;
  let '(en_acdrv1, en_acdrv2, vindpm) :=
    match source with
    | BatteryOnly => (0, 0, None)
    | Adapter vindpm => (1, 0, Some vindpm)
    | USB vindpm => (0, 1, Some vindpm)
    end in
  with_bus (
    (match vindpm with
     | Some vindpm => write_reg_8 InputVoltageLimit (as_u8 (Z.min (vindpm / 100) 255))
     | None => mret tt
     end);;
    set_charger_control0 INPUT_CURRENT_OPTIMIZER HIZ_MODE;;
    let acdrv_bits := Z.lor (Z.shiftl en_acdrv1 6) (Z.shiftl en_acdrv2 7) in
    if negb (acdrv_bits =? 0) then write_reg_8 ChargerControl4 acdrv_bits else mret tt).

Definition set_watchdog (config : WatchdogConfig) : MC unit := with_bus (bus_set_watchdog config).

Definition measure_power (fuel : nat) : MC (option PowerMeasurements) :=
  with_bus (
    set_battery_current_measurement true;;
    result ← attempt (inner_measure_power fuel);
    set_battery_current_measurement false;;
    match result with inl m => mret m | inr e => fail e end).

Definition charger_status : MC Status :=
  with_bus (
    status0 ← read_reg_8 ChargerStatus0;
    status1 ← read_reg_8 ChargerStatus1;
    status2 ← read_reg_8 ChargerStatus2;
    status3 ← read_reg_8 ChargerStatus3;
    s0b0 ← bit W8 status0 0; s0b1 ← bit W8 status0 1; s0b2 ← bit W8 status0 2; s0b3 ← bit W8 status0 3;
    s0b5 ← bit W8 status0 5; s0b6 ← bit W8 status0 6; s0b7 ← bit W8 status0 7;
    s2b0 ← bit W8 status2 0; s2b2 ← bit W8 status2 2;
    s3b6 ← bit W8 status3 6; s3b7 ← bit W8 status3 7;
    let source_status :=
      if negb s0b3 then Poor else if s0b6 : bool then VoltageRegulation
      else if s0b7 : bool then CurrentRegulation else if s0b0 : bool then Present else NoAdapter in
    mret (mkStatus s0b3 s0b2 s0b1 s2b0 source_status (charging_from (Z.land (Z.shiftr status1 5) 7))
      (mkChipInfo s0b5 s2b2 s3b7 s3b6))).

Definition battery_temperature : MC BatteryTempRange :=
  with_bus (
    status2 ← read_reg_8 ChargerStatus2;
    status4 ← read_reg_8 ChargerStatus4;
    present ← bit W8 status2 0;
    if present : bool then temp_range_from (Z.land status4 15) else mret Unknown).

Definition input_limits : MC InputLimits :=
  with_bus (
    ico_optimizer_limit ← read_reg_u16 InputCurrentOptimalLimit;
    input_voltage_limit ← read_reg_8 InputVoltageLimit;
    input_current_limit ← read_reg_u16 InputCurrentLimit;
    mret (mkInputLimits (input_voltage_limit * 100) (Z.land input_current_limit 0x1FF * 10)
      (Z.land ico_optimizer_limit 0x1FF * 10))).

Definition faults : MC (option Faults) :=
  with_bus (
    fault0 ← read_reg_8 Fault0;
    fault1 ← read_reg_8 Fault1;
    if (fault0 =? 0) && (fault1 =? 0) then mret None
    else
      f0b0 ← bit W8 fault0 0; f0b1 ← bit W8 fault0 1; f0b2 ← bit W8 fault0 2; f0b3 ← bit W8 fault0 3;
      f0b4 ← bit W8 fault0 4; f0b5 ← bit W8 fault0 5; f0b6 ← bit W8 fault0 6;
      f1b2 ← bit W8 fault1 2; f1b6 ← bit W8 fault1 6; f1b7 ← bit W8 fault1 7;
      mret (Some (mkFaults f0b6 f0b1 f0b0 f0b4 f0b2 f0b5 f0b3 f1b7 f1b6 f1b2))).
End driver.
