(* ===== verification/ChargerProps.v ===== *)
(** * Properties of the battery charger driver

    What the driver puts on the bus, whatever the bus, the pins and the interrupt line
    do.  The classes with the ghost state say what the traits of [embedded-hal] and the
    clock promise. *)

From stdpp Require Import base list list_numbers numbers option.
From S2P Require Import Prelude Bitwise Charger.

(** ** What the hardware promises *)

(** A transfer as the bus saw it: whether it was powered, the address, the bytes, and
    whether it succeeded or what was read. *)
Inductive Transfer : Type :=
| TWrite (on : bool) (a : Z) (bytes : list Z) (ok : bool)
| TRead (on : bool) (a : Z) (bytes : list Z) (result : option (list Z)).

Class I2cLaws (P EI : Type) `{!I2cBus P EI} : Type := {
  powered : P → bool;
  trace : P → list Transfer;
  resume_law p : powered (resume p) = true ∧ trace (resume p) = trace p;
  suspend_law p : powered (suspend p) = false ∧ trace (suspend p) = trace p;
  write_law a bs p :
    match i2c_write a bs p with
    | (Ok _, p') => powered p' = powered p ∧ trace p' = trace p ++ [TWrite (powered p) a bs true]
    | (Err _, p') => powered p' = powered p ∧ trace p' = trace p ++ [TWrite (powered p) a bs false]
    | (Panic, _) => False
    end;
  read_law a bs n p :
    match i2c_write_read a bs n p with
    | (Ok res, p') =>
        powered p' = powered p ∧ trace p' = trace p ++ [TRead (powered p) a bs (Some res)] ∧ len res = n ∧ Forall is_u8 res
    | (Err _, p') => powered p' = powered p ∧ trace p' = trace p ++ [TRead (powered p) a bs None]
    | (Panic, _) => False
    end
}.

Class PinLaws (CE : Type) `{!OutputPin CE} : Type := {
  high : CE → bool;
  set_high_law ce : match set_high ce with (Ok _, ce') => high ce' = true | (Err _, _) => True | (Panic, _) => False end;
  set_low_law ce : match set_low ce with (Ok _, ce') => high ce' = false | (Err _, _) => True | (Panic, _) => False end
}.

(** A wait takes at least a microsecond, and one that times out at least the time-out. *)
Class ClockLaws (X : Type) `{!TriggerClock X} : Prop := {
  wait_advances t x : now_us x < now_us (wait_untill_any_edge t x).2;
  wait_times_out t x : (wait_untill_any_edge t x).1 = false → now_us x + t ≤ now_us (wait_untill_any_edge t x).2
}.

(** ** The specification *)

Definition CHARGER_ADDR : Z := 0x6B.

(** The bits [h] down to [l] of a byte. *)
Definition field (h l v : Z) : Z := Z.land (Z.shiftr v l) (Z.ones (h - l + 1)).

(** The values of the registers that matter to the safety of the battery and the inputs.
    The time of the watchdog is the caller's. *)
Definition safe_value (r : RegU8) (v : Z) : bool :=
  match r with
  | MinSystemVoltage => (6000 <=? 2500 + 250 * v) && (2500 + 250 * v <=? MIN_SYSTEM_VOLTAGE_MV)
  | InputVoltageLimit => true
  (* the reset, or the current at which charging ends: at most a tenth of the limit *)
  | TerminationControl => (v =? 64) || ((0 <? v) && (40 * v <=? CHARGE_LIMIT_MA / 10))
  (* no top-off timer; the timers of trickle, pre- and fast charging are on, 24 h *)
  | TimerControl => (field 7 6 v =? 0) && (field 5 3 v =? 7) && (field 2 1 v =? timeout_as_u8 Max24Hours)
  (* discharge on overvoltage, and not else; charging is up to the pin and ends by itself; no high impedance *)
  | ChargerControl0 => (field 7 5 v =? 5) && (field 2 1 v =? 1)
  (* overvoltage of the input at the lowest level *)
  | ChargerControl1 => field 7 3 v =? 0
  (* no voltage above 5 V is asked for; the power mode stays idle *)
  | ChargerControl2 => (field 7 3 v =? 0) && (field 2 1 v =? power_mode_as_u8 Idle)
  (* one of the two inputs, never both, and no boost *)
  | ChargerControl4 => (v =? 64) || (v =? 128)
  (* the limits of the input current and the protection against discharge overcurrent *)
  | ChargerControl5 => (field 7 6 v =? 2) && (field 4 0 v =? 23)
  | ADCControl | ADCDisable0 | ADCDisable1 => true
  | ChargerMask0 => v =? CHARGER_MASK_0
  | ChargerMask1 => v =? CHARGER_MASK_1
  | _ => false
  end.

Definition written_registers : list RegU8 :=
  [MinSystemVoltage; InputVoltageLimit; TerminationControl; TimerControl; ChargerControl0; ChargerControl1; ChargerControl2;
   ChargerControl4; ChargerControl5; ADCControl; ADCDisable0; ADCDisable1; ChargerMask0; ChargerMask1].

(** The writes that are safe: charging within the limits, and safe values in the registers
    of one byte. *)
Definition safe_write (bytes : list Z) : bool :=
  match bytes with
  | [r; h; l] =>
      ((r =? reg_u16 ChargeVoltageLimit) && (10 * from_be_bytes16 [h; l] <=? CHARGE_LIMIT_MV)) ||
      ((r =? reg_u16 ChargeCurrentLimit) && (10 * from_be_bytes16 [h; l] <=? CHARGE_LIMIT_MA))
  | [a; v] => (0 <=? v) && (v <? 256) && existsb (λ r, (a =? reg_u8 r) && safe_value r v) written_registers
  | _ => false
  end.

Definition good (t : Transfer) : Prop :=
  match t with
  | TWrite on a bytes _ => on = true ∧ a = CHARGER_ADDR ∧ safe_write bytes = true
  | TRead on a _ _ => on = true ∧ a = CHARGER_ADDR
  end.

(** A call of the driver. *)
Inductive charger_call : Type :=
| CConfigure | CAwaitChange (fuel : nat) (timeout_ms : Z) | CSelectSource (s : PowerSource) | CDisable | CEnable
| CWatchdog (w : WatchdogConfig) | CMeasure (fuel : nat) | CStatus | CTemperature | CLimits | CFaults.

Section props.
Context {P EI CE X : Type} {bus : I2cBus P EI} {pin : OutputPin CE} {clk : TriggerClock X}.
Context {busL : I2cLaws P EI} {pinL : PinLaws CE} {clkL : ClockLaws X}.
Implicit Types (b : Bus P X) (c : BQ25672 P CE X) (tr : list Transfer).

Definition run_call (cl : charger_call) : M (BQ25672 P CE X) (ChargerError EI) unit :=
  match cl with
  | CConfigure => configure
  | CAwaitChange fuel timeout_ms => await_change fuel timeout_ms;; mret tt
  | CSelectSource s => select_source s
  | CDisable => disable_charging
  | CEnable => enable_charging
  | CWatchdog w => set_watchdog w
  | CMeasure fuel => measure_power fuel;; mret tt
  | CStatus => charger_status;; mret tt
  | CTemperature => battery_temperature;; mret tt
  | CLimits => input_limits;; mret tt
  | CFaults => faults;; mret tt
  end.
Definition run_calls (l : list charger_call) (c : BQ25672 P CE X) : BQ25672 P CE X :=
  foldl (λ c cl, (run_call cl c).2) c l.

(** ** Invariants of the guard and of the driver *)

Definition new_transfers (tr tr' : list Transfer) : Prop := ∃ l, tr' = tr ++ l ∧ Forall good l.

Definition bus_ok tr b : Prop :=
  powered (bus_p b) = true ∧ bus_addr b = CHARGER_ADDR ∧ new_transfers tr (trace (bus_p b)).
Definition idle tr c : Prop :=
  powered (peripheral c) = false ∧ addr c = CHARGER_ADDR ∧ new_transfers tr (trace (peripheral c)).

Definition keeps {S A} (I : S → Prop) (m : M S (ChargerError EI) A) : Prop := ∀ s, I s → wp m (λ _, I) (λ _, I) s.

Lemma keeps_bind {S A B} (I : S → Prop) (m : M S (ChargerError EI) A) (k : A → M S (ChargerError EI) B) :
  keeps I m → (∀ a, keeps I (k a)) → keeps I (m ≫= k).
Proof. intros Hm Hk s Hs. apply wp_bind. eapply wp_mono; [by apply Hm|intros a s' Hs'; by apply Hk|done]. Qed.
Lemma keeps_ret {S A} (I : S → Prop) (a : A) : keeps I (mret (M := M S (ChargerError EI)) a).
Proof. intros s Hs. by apply wp_ret. Qed.
Lemma keeps_fail {S A} (I : S → Prop) e : keeps I (fail (S := S) (A := A) e).
Proof. intros s Hs. by apply wp_fail. Qed.
Lemma keeps_gets {S A} (I : S → Prop) (f : S → A) : keeps I (gets f).
Proof. intros s Hs. by apply wp_gets. Qed.
Lemma keeps_attempt {S A} (I : S → Prop) (m : M S (ChargerError EI) A) : keeps I m → keeps I (attempt m).
Proof. intros Hm s Hs. apply wp_attempt. by apply Hm. Qed.
Lemma keeps_bit {S} (I : S → Prop) x n : n < 8 → keeps I (bit W8 x n).
Proof. intros Hn s Hs. unfold bit, one_shl. change (bits W8) with 8. rewrite (proj2 (Z.ltb_lt _ _)) by lia. by apply wp_bind, wp_ret, wp_ret. Qed.

Lemma new_snoc tr tr' t : new_transfers tr tr' → good t → new_transfers tr (tr' ++ [t]).
Proof. intros (l & -> & Hl) Ht. exists (l ++ [t]). rewrite (assoc_L (++)). split; [done|]. apply list.Forall_app. by repeat constructor. Qed.

(** ** Transfers *)

Lemma keeps_write tr bytes : safe_write bytes = true → keeps (bus_ok tr) (transfer (X := X) (λ a, i2c_write a bytes)).
Proof.
  intros Hs b (Hp & Ha & Hn). unfold transfer. apply wp_zoom, wp_map_err. unfold wp.
  pose proof (write_law (bus_addr b) bytes (bus_p b)) as L. rewrite Hp, Ha in L. rewrite Ha.
  destruct (i2c_write _ _ _) as [[u|e|] p']; [| |done]; destruct L as [L1 L2];
    (split; [exact L1|]; split; [done|]; cbn; rewrite L2; by apply new_snoc).
Qed.
Lemma keeps_read tr bytes n : keeps (bus_ok tr) (transfer (X := X) (λ a, i2c_write_read a bytes n)).
Proof.
  intros b (Hp & Ha & Hn). unfold transfer. apply wp_zoom, wp_map_err. unfold wp.
  pose proof (read_law (bus_addr b) bytes n (bus_p b)) as L. rewrite Hp, Ha in L. rewrite Ha.
  destruct (i2c_write_read _ _ _ _) as [[u|e|] p']; [| |done]; [destruct L as (L1 & L2 & _)|destruct L as [L1 L2]];
    (split; [exact L1|]; split; [done|]; cbn; rewrite L2; by apply new_snoc).
Qed.

Lemma keeps_write_8 tr r v : safe_write [reg_u8 r; v] = true → keeps (bus_ok tr) (write_reg_8 (X := X) r v).
Proof. apply keeps_write. Qed.
Lemma keeps_write_16 tr r v : safe_write (reg_u16 r :: to_be_bytes16 v) = true → keeps (bus_ok tr) (write_reg_u16 (X := X) r v).
Proof. apply keeps_write. Qed.
Lemma keeps_read_8 tr r : keeps (bus_ok tr) (read_reg_8 (X := X) r).
Proof. apply keeps_bind; [apply keeps_read|intros; apply keeps_ret]. Qed.
Lemma keeps_read_u16 tr r : keeps (bus_ok tr) (read_reg_u16 (X := X) r).
Proof. apply keeps_bind; [apply keeps_read|intros; apply keeps_ret]. Qed.
Lemma keeps_read_i16 tr r : keeps (bus_ok tr) (read_reg_i16 (X := X) r).
Proof. apply keeps_bind; [apply keeps_read|intros; apply keeps_ret]. Qed.

(** Follow the structure of an operation. *)
Ltac keeps_step :=
  lazymatch goal with
  | |- keeps _ (mbind _ _) => apply keeps_bind; [|intros ?]
  | |- keeps _ (mret _) => apply keeps_ret
  | |- keeps _ (fail _) => apply keeps_fail
  | |- keeps _ (attempt _) => apply keeps_attempt
  | |- keeps _ (bit W8 _ _) => apply keeps_bit; lia
  | |- keeps _ (read_reg_8 _) => apply keeps_read_8
  | |- keeps _ (read_reg_u16 _) => apply keeps_read_u16
  | |- keeps _ (read_reg_i16 _) => apply keeps_read_i16
  | |- keeps _ (write_reg_8 _ _) => apply keeps_write_8; try (vm_compute; reflexivity)
  | |- keeps _ (write_reg_u16 _ _) => apply keeps_write_16; vm_compute; reflexivity
  | |- keeps _ (let '(_, _) := ?p in _) => destruct p
  | |- keeps _ (if ?b then _ else _) => destruct b eqn:?
  | |- keeps _ (match ?x with _ => _ end) => destruct x
  end.
Ltac keeps_tac := repeat (keeps_step; cbv beta zeta).

Lemma keeps_wait tr t : keeps (bus_ok tr) (bus_wait (P := P) t).
Proof. intros b Hb. unfold bus_wait, wp. destruct (wait_untill_any_edge _ _) as [e x]. exact Hb. Qed.

Lemma keeps_await_flag tr t fuel : keeps (bus_ok tr) (await_flag (X := X) fuel t).
Proof.
  induction fuel as [|fuel IH]; cbn [await_flag]; [apply keeps_ret|]. keeps_tac; [apply keeps_wait|exact IH].
Qed.

Lemma keeps_inner_configure tr : keeps (bus_ok tr) (inner_configure (X := X)).
Proof.
  unfold inner_configure, reset_to_defaults, verify_chip, n_cells_in_series, set_min_sys_voltage, configure_charging,
    set_charger_control0, bus_set_watchdog, set_power_mode, set_battery_current_measurement, configure_adc_inputs.
  keeps_tac.
Qed.

Lemma keeps_measure tr fuel :
  keeps (bus_ok tr) (set_battery_current_measurement true;; result ← attempt (inner_measure_power (X := X) fuel);
    set_battery_current_measurement false;; match result with inl m => mret m | inr e => fail e end).
Proof.
  unfold inner_measure_power, set_battery_current_measurement. keeps_tac. apply keeps_await_flag.
Qed.

Lemma keeps_check tr flags sig : keeps (bus_ok tr) (check_flags (X := X) flags sig).
Proof. revert sig. induction flags as [|[r m] flags IH]; intros sig; cbn [check_flags]; keeps_tac. apply IH. Qed.

(** ** Calls *)

Lemma keeps_with_bus {A} tr (m : M (Bus P X) (ChargerError EI) A) : keeps (bus_ok tr) m → keeps (idle tr) (with_bus (CE := CE) m).
Proof.
  intros Hm c (Hp & Ha & Hn). unfold with_bus, wp. destruct (resume_law (peripheral c)) as [R1 R2].
  specialize (Hm (mkBus (resume (peripheral c)) (pin_int c) (addr c))). unfold wp in Hm.
  assert (Hb : bus_ok tr (mkBus (resume (peripheral c)) (pin_int c) (addr c))) by (split; [done|]; split; [done|]; cbn; by rewrite R2).
  specialize (Hm Hb). destruct (m _) as [[a|e|] b]; [| |done]; destruct Hm as (_ & _ & Hm);
    (destruct (suspend_law (bus_p b)) as [S1 S2]; split; [exact S1|]; split; [exact Ha|]; cbn; by rewrite S2).
Qed.

Lemma keeps_pin tr (m : M CE unit unit) : (∀ ce, (m ce).1 ≠ Panic) → keeps (idle tr) (on_pin (EI := EI) (X := X) m).
Proof.
  intros Hm c Hc. unfold on_pin. apply wp_zoom, wp_map_err. unfold wp. specialize (Hm (pin_ce c)).
  destruct (m (pin_ce c)) as [[u|e|] ce']; [exact Hc|exact Hc|done].
Qed.
Lemma keeps_set_high tr : keeps (idle tr) (disable_charging (EI := EI) (X := X)).
Proof. apply keeps_pin. intros ce E. pose proof (set_high_law ce) as L. by destruct (set_high ce) as [[]]. Qed.
Lemma keeps_set_low tr : keeps (idle tr) (enable_charging (EI := EI) (X := X)).
Proof. apply keeps_pin. intros ce E. pose proof (set_low_law ce) as L. by destruct (set_low ce) as [[]]. Qed.

Lemma keeps_bq_wait tr t : keeps (idle tr) (bq_wait (P := P) (CE := CE) t).
Proof. intros c Hc. unfold bq_wait, wp. destruct (wait_untill_any_edge _ _) as [e x]. exact Hc. Qed.

Lemma keeps_change_loop tr flags start t fuel : keeps (idle tr) (change_loop (CE := CE) fuel flags start t).
Proof.
  induction fuel as [|fuel IH]; cbn [change_loop]; [apply keeps_ret|]. apply keeps_bind; [apply keeps_with_bus, keeps_check|].
  intros significant. keeps_tac; [apply keeps_gets|apply keeps_bq_wait|exact IH].
Qed.

Lemma watchdog_safe w : safe_write [reg_u8 ChargerControl1; bits_of [Z.shiftl 0 4; Z.shiftl 0 3; watchdog_as_u8 w]] = true.
Proof. by destruct w. Qed.
Lemma vindpm_safe v : safe_write [reg_u8 InputVoltageLimit; as_u8 v] = true.
Proof.
  pose proof (Z.mod_pos_bound v 256 ltac:(lia)). unfold safe_write, as_u8. rewrite (proj2 (Z.leb_le _ _)), (proj2 (Z.ltb_lt _ _)) by lia.
  cbn [written_registers existsb]. apply orb_true_iff. right. reflexivity.
Qed.

Lemma run_call_keeps tr cl : keeps (idle tr) (run_call cl).
Proof.
  destruct cl as [|fuel t|s| | |w|fuel| | | |]; cbn [run_call].
  - apply keeps_bind; [apply keeps_set_high|]. intros []. apply keeps_with_bus, keeps_inner_configure.
  - unfold await_change. keeps_tac; [apply keeps_gets..|apply keeps_change_loop].
  - unfold select_source. apply keeps_bind; [intros c Hc; exact Hc|]. intros [].
    destruct s; (apply keeps_with_bus; unfold set_charger_control0; cbn -[write_reg_8]; keeps_tac; try discriminate; try apply vindpm_safe).
  - apply keeps_set_high.
  - apply keeps_set_low.
  - apply keeps_with_bus, keeps_write_8, watchdog_safe.
  - apply keeps_bind; [apply keeps_with_bus, keeps_measure|]. intros. apply keeps_ret.
  - apply keeps_bind; [|intros; apply keeps_ret]. apply keeps_with_bus. keeps_tac.
  - apply keeps_bind; [|intros; apply keeps_ret]. apply keeps_with_bus. unfold temp_range_from. keeps_tac.
  - apply keeps_bind; [|intros; apply keeps_ret]. apply keeps_with_bus. keeps_tac.
  - apply keeps_bind; [|intros; apply keeps_ret]. apply keeps_with_bus. keeps_tac.
Qed.

Lemma run_calls_idle tr l c : idle tr c → idle tr (run_calls l c).
Proof.
  revert c. induction l as [|cl l IH]; intros c Hc; [done|]. cbn. apply IH.
  pose proof (run_call_keeps tr cl c Hc) as Hw. unfold wp in Hw. by destruct (run_call cl c) as [[]].
Qed.

(** C32: the charger's bus and battery are safe.  Whatever calls are made and however the
    bus, the pin and the interrupt line behave, no call panics; every transfer goes to the
    charger while the bus is powered, and the bus is powered down after every call,
    failing ones included; and every write is safe in the sense of [safe_write]: no
    charging above 8200 mV or 2000 mA, which ends at 200 mA at most; the safety timers of
    trickle, pre- and fast charging stay on, at 24 h; no shutdown, ship mode or high
    impedance; the discharge on overvoltage, the input current limits and the
    protection against discharge overcurrent stay on, the input overvoltage level as it is;
    never both inputs at once.  The reset of [configure] and the watchdog, which [configure]
    switches off and [set_watchdog] sets to what the caller asks for, are outside of this. *)
Theorem charger_bus_safe l c :
  powered (peripheral c) = false → addr c = CHARGER_ADDR →
  let c' := run_calls l c in
  powered (peripheral c') = false ∧
  (∃ new, trace (peripheral c') = trace (peripheral c) ++ new ∧ Forall good new) ∧
  ∀ cl, (run_call cl c').1 ≠ Panic.
Proof.
  intros Hp Ha. assert (Hc : idle (trace (peripheral c)) c).
  { split; [done|]. split; [done|]. exists []. by rewrite app_nil_r. }
  destruct (run_calls_idle _ l c Hc) as (H1 & H2 & H3). split; [done|]. split; [done|]. intros cl E.
  pose proof (run_call_keeps _ cl (run_calls l c) (conj H1 (conj H2 H3))) as Hw. unfold wp in Hw.
  by destruct (run_call cl _) as [[]].
Qed.

(** ** Exact transfers *)

Definition at_trace tr b : Prop := powered (bus_p b) = true ∧ bus_addr b = CHARGER_ADDR ∧ trace (bus_p b) = tr.
Definition rest_trace tr c : Prop := powered (peripheral c) = false ∧ addr c = CHARGER_ADDR ∧ trace (peripheral c) = tr.
Definition bus_error (e : ChargerError EI) : Prop := ∃ x, e = I2C x.
Definition W (r v : Z) (ok : bool) : Transfer := TWrite true CHARGER_ADDR [r; v] ok.
Definition W16 (r v : Z) (ok : bool) : Transfer := TWrite true CHARGER_ADDR (r :: to_be_bytes16 v) ok.
Definition R (r : Z) (result : list Z) : Transfer := TRead true CHARGER_ADDR [r] (Some result).

Lemma wp_write_at tr bytes b :
  at_trace tr b →
  wp (transfer (λ a, i2c_write a bytes))
    (λ _ b', at_trace (tr ++ [TWrite true CHARGER_ADDR bytes true]) b' ∧ bus_int b' = bus_int b)
    (λ e b', bus_error e ∧ at_trace (tr ++ [TWrite true CHARGER_ADDR bytes false]) b') b.
Proof.
  intros (Hp & Ha & <-). unfold transfer. apply wp_zoom, wp_map_err. unfold wp.
  pose proof (write_law (bus_addr b) bytes (bus_p b)) as L. rewrite Hp, Ha in L. rewrite Ha.
  destruct (i2c_write _ _ _) as [[u|e|] p']; [| |done]; destruct L as [L1 L2]; [by repeat split|].
  split; [by eexists|]. by repeat split.
Qed.

Lemma wp_read_at tr bytes n b :
  at_trace tr b →
  wp (transfer (λ a, i2c_write_read a bytes n))
    (λ res b', (at_trace (tr ++ [TRead true CHARGER_ADDR bytes (Some res)]) b' ∧ bus_int b' = bus_int b) ∧ len res = n)
    (λ e b', bus_error e ∧ at_trace (tr ++ [TRead true CHARGER_ADDR bytes None]) b') b.
Proof.
  intros (Hp & Ha & <-). unfold transfer. apply wp_zoom, wp_map_err. unfold wp.
  pose proof (read_law (bus_addr b) bytes n (bus_p b)) as L. rewrite Hp, Ha in L. rewrite Ha.
  destruct (i2c_write_read _ _ _ _) as [[u|e|] p']; [| |done].
  - destruct L as (L1 & L2 & L3 & _). by repeat split.
  - destruct L as [L1 L2]. split; [by eexists|]. by repeat split.
Qed.

Lemma wp_read_8_at tr r b :
  at_trace tr b →
  wp (read_reg_8 r) (λ v b', at_trace (tr ++ [R (reg_u8 r) [v]]) b' ∧ bus_int b' = bus_int b)
    (λ e b', bus_error e ∧ at_trace (tr ++ [TRead true CHARGER_ADDR [reg_u8 r] None]) b') b.
Proof.
  intros Hb. unfold read_reg_8. apply wp_bind. eapply wp_mono; [by apply wp_read_at| |done].
  intros res b' [[H1 H2] H3]. apply wp_ret. destruct res as [|v [|? l]]; [done|by split|].
  rewrite !len_cons in H3. pose proof (len_nonneg l). lia.
Qed.
Lemma wp_read_i16_at tr r b :
  at_trace tr b →
  wp (read_reg_i16 r) (λ v b', (∃ w, v = i16_from_be_bytes w ∧ at_trace (tr ++ [R (reg_i16 r) w]) b') ∧ bus_int b' = bus_int b)
    (λ e b', bus_error e ∧ at_trace (tr ++ [TRead true CHARGER_ADDR [reg_i16 r] None]) b') b.
Proof.
  intros Hb. unfold read_reg_i16. apply wp_bind. eapply wp_mono; [by apply wp_read_at| |done].
  intros res b' [[H1 H2] H3]. apply wp_ret. split; [by exists res|done].
Qed.

(** A block between [acquire] and [Drop]. *)
Lemma wp_with_bus {A} (m : M (Bus P X) (ChargerError EI) A) Q R' tr c :
  rest_trace tr c →
  (∀ b, at_trace tr b → bus_int b = pin_int c →
     wp m (λ a b', ∃ tr', at_trace tr' b' ∧ ∀ c', rest_trace tr' c' → pin_int c' = bus_int b' → pin_ce c' = pin_ce c → Q a c')
          (λ e b', ∃ tr', at_trace tr' b' ∧ ∀ c', rest_trace tr' c' → pin_int c' = bus_int b' → pin_ce c' = pin_ce c → R' e c') b) →
  wp (with_bus m) Q R' c.
Proof.
  intros (Hp & Ha & Ht) Hm. destruct (resume_law (peripheral c)) as [R1 R2].
  specialize (Hm (mkBus (resume (peripheral c)) (pin_int c) (addr c))). unfold wp, with_bus in *.
  specialize (Hm ltac:(split; [done|]; split; [done|]; cbn; congruence) eq_refl).
  destruct (m _) as [[a|e|] b]; [| |done]; destruct Hm as (tr' & (H1 & H2 & H3) & Hc);
    (destruct (suspend_law (bus_p b)) as [S1 S2]; apply Hc; [|done|done]; split; [exact S1|]; split; [exact Ha|]; cbn; congruence).
Qed.

(** ** Waiting for a change *)

(** The reads of the flags, and whether one of them is set and not masked. *)
Definition flag_reads (flags : list (RegU8 * Z)) (vs : list Z) : list Transfer :=
  zip_with (λ f v, R (reg_u8 f.1) [v]) flags vs.
Definition significant (flags : list (RegU8 * Z)) (vs : list Z) : bool :=
  existsb (λ x, x) (zip_with (λ f v, negb (Z.land v (255 - f.2) =? 0)) flags vs).

Lemma wp_check_flags flags : ∀ tr sig b,
  at_trace tr b →
  wp (check_flags flags sig)
    (λ r b', ∃ vs, length vs = length flags ∧ r = (sig || significant flags vs) ∧
       at_trace (tr ++ flag_reads flags vs) b' ∧ bus_int b' = bus_int b)
    (λ e b', bus_error e ∧ ∃ tr', at_trace tr' b') b.
Proof.
  induction flags as [|[r mask] flags IH]; intros tr sig b Hb; cbn [check_flags].
  - apply wp_ret. exists []. unfold significant, flag_reads. cbn. by rewrite orb_false_r, app_nil_r.
  - apply wp_bind. eapply wp_mono; [by apply wp_read_8_at| |intros e b' [He Hb']; split; [done|by eexists]].
    intros v b1 [H1 H2]. eapply wp_mono; [by eapply IH| |done]. intros res b2 (vs & Hl & Hr & H3 & H4).
    exists (v :: vs). split; [cbn; lia|]. split; [|split; [|congruence]].
    + rewrite Hr. unfold significant. cbn [zip_with existsb]. by rewrite orb_assoc.
    + by rewrite <-(assoc_L (++)) in H3.
Qed.

(** The state after the flags were read for the last time. *)
Definition read_last (flags : list (RegU8 * Z)) (s : bool) c : Prop :=
  ∃ tr vs, length vs = length flags ∧ significant flags vs = s ∧ rest_trace (tr ++ flag_reads flags vs) c.

Lemma wp_change_loop flags start T fuel : ∀ tr c,
  rest_trace tr c → start + T - now_us (pin_int c) < Z.of_nat fuel → 0 < Z.of_nat fuel →
  wp (change_loop fuel flags start T)
    (λ r c', r = true ∧ read_last flags true c')
    (λ e c', bus_error e ∨ e = ChargerTimeout ∧ read_last flags false c' ∧ start + T ≤ now_us (pin_int c')) c.
Proof.
  induction fuel as [|fuel IH]; intros tr c Hc Hf Hpos; [lia|]. cbn [change_loop]. apply wp_bind.
  eapply (wp_with_bus _ _ _ tr); [done|]. intros b Hb Eint.
  eapply wp_mono; [by apply wp_check_flags| |].
  2: { intros e b' (He & tr' & Hb'). exists tr'. split; [done|]. intros. by left. }
  intros sig b' (vs & Hl & Hsig & Htr & Eint'). exists (tr ++ flag_reads flags vs). split; [done|].
  intros c1 Hc1 Ei _. cbn in Hsig. subst sig.
  assert (Hlast : read_last flags (significant flags vs) c1) by (exists tr, vs; split; [done|]; split; [done|exact Hc1]).
  assert (Ei2 : pin_int c1 = pin_int c) by congruence.
  destruct (significant flags vs); [by apply wp_ret|]. apply wp_bind, wp_gets. unfold compose. rewrite Ei2.
  destruct (Z.leb_spec T (now_us (pin_int c) - start)) as [Hle|Hgt].
  { apply wp_fail. right. split; [done|]. split; [done|]. rewrite Ei2. lia. }
  apply wp_bind. unfold bq_wait at 1. unfold wp at 1. rewrite Ei2.
  pose proof (wait_advances (T - (now_us (pin_int c) - start)) (pin_int c)) as Hadv.
  pose proof (wait_times_out (T - (now_us (pin_int c) - start)) (pin_int c)) as Hout.
  destruct (wait_untill_any_edge _ _) as [edge x]. cbn in Hadv, Hout. destruct edge.
  - apply (IH (tr ++ flag_reads flags vs)); [done|cbn; lia|lia].
  - apply wp_fail. right. split; [done|]. split; [|cbn; specialize (Hout eq_refl); lia].
    destruct Hlast as (tr1 & vs1 & H1 & H2 & H3). exists tr1, vs1. split; [done|]. split; [done|exact H3].
Qed.

(** [await_change] decides.  Its loop ends within the time-out, in microseconds,
    however often the interrupt line fires; it reports a change exactly when the flags
    it read last have a bit that is not masked, and a time-out only when the time is
    over and none of them has. *)
Theorem await_change_decides fuel timeout_ms c :
  powered (peripheral c) = false → addr c = CHARGER_ADDR → 0 ≤ timeout_ms → timeout_ms * 1000 < Z.of_nat fuel →
  match await_change fuel timeout_ms c with
  | (Ok changed, c') => changed = true ∧ read_last (flags_of (selected_source c)) true c'
  | (Err ChargerTimeout, c') =>
      read_last (flags_of (selected_source c)) false c' ∧ now_us (pin_int c) + timeout_ms * 1000 ≤ now_us (pin_int c')
  | (Err e, _) => bus_error e
  | (Panic, _) => False
  end.
Proof.
  intros Hp Ha Ht Hf.
  set (start := now_us (pin_int c)).
  assert (Hw := wp_change_loop (flags_of (selected_source c)) start (timeout_ms * 1000) fuel
    (trace (peripheral c)) c (conj Hp (conj Ha eq_refl))). fold start in Hw. specialize (Hw ltac:(lia) ltac:(lia)).
  unfold await_change, mbind, M_bind, gets, compose. fold start. unfold wp in Hw. destruct (change_loop _ _ _ _ _) as [[r|e|] c']; [done| |done].
  destruct Hw as [[x ->]|(-> & H1 & H2)]; [by eexists|done].
Qed.

(** ** Configuration and measurement *)

(** What a successful [configure] transfers. *)
Definition config_transfers (part_id recharge : Z) : list Transfer :=
  [W 0x09 64 true; R 0x48 [part_id]; R 0x0A [recharge]; W 0x00 15 true; W16 0x01 820 true; W16 0x03 200 true; W 0x09 5 true;
   W 0x0E 63 true; W 0x0F 186 true; W 0x10 0 true; W 0x11 1 true; W 0x14 151 true; W 0x2F 32 true; W 0x30 192 true;
   W 0x28 192 true; W 0x29 64 true].

(** The outcome of the configuration, by the transfers it made. *)
Definition configured tr c : Prop :=
  ∃ id rc, Z.land id 0x3F = 0x21 ∧ Z.shiftr rc 6 + 1 = 2 ∧ rest_trace (tr ++ config_transfers id rc) c.
Definition config_error tr (e : ChargerError EI) b : Prop :=
  match e with
  | ChipNotRecognized => ∃ id, Z.land id 0x3F ≠ 0x21 ∧ at_trace (tr ++ take 2 (config_transfers id 0)) b
  | MisConfigured => ∃ id rc, Z.shiftr rc 6 + 1 ≠ 2 ∧ at_trace (tr ++ take 3 (config_transfers id rc)) b
  | I2C _ => ∃ tr', at_trace tr' b
  | _ => False
  end.

Lemma bus_error_config tr tr' e b : bus_error e → at_trace tr' b → config_error tr e b.
Proof. intros [x ->] Hb. by exists tr'. Qed.

(** One more write of the configuration. *)
Ltac write_step :=
  apply wp_bind; eapply wp_mono; [eapply wp_write_at; eassumption| |intros ? ? [? ?]; by eapply bus_error_config];
  intros [] ? [? _].

Lemma wp_inner_configure tr b :
  at_trace tr b →
  wp inner_configure
    (λ _ b', ∃ id rc, Z.land id 0x3F = 0x21 ∧ Z.shiftr rc 6 + 1 = 2 ∧ at_trace (tr ++ config_transfers id rc) b')
    (config_error tr) b.
Proof.
  intros Hb. unfold inner_configure, reset_to_defaults, write_reg_8 at 1. write_step.
  unfold verify_chip. apply wp_bind, wp_bind. eapply wp_mono; [by eapply wp_read_8_at| |intros ? ? [? ?]; by eapply bus_error_config].
  intros id b1 [Hid _]. destruct (Z.eqb_spec (Z.land id 0x3F) 0x21) as [Eid|Nid].
  2: { apply wp_fail. exists id. split; [done|]. by rewrite <-(assoc_L (++)) in Hid. }
  apply wp_ret. unfold n_cells_in_series. apply wp_bind, wp_bind.
  eapply wp_mono; [by eapply wp_read_8_at| |intros ? ? [? ?]; by eapply bus_error_config].
  intros rc b2 [Hrc _]. apply wp_ret. unfold CHARGE_N_CELLS. destruct (Z.eqb_spec (Z.shiftr rc 6 + 1) 2) as [Erc|Nrc]; cbn [negb].
  2: { apply wp_fail. exists id, rc. split; [done|]. by rewrite <-!(assoc_L (++)) in Hrc. }
  unfold set_min_sys_voltage, configure_charging, set_charger_control0, bus_set_watchdog, set_power_mode,
    set_battery_current_measurement, configure_adc_inputs, write_reg_8, write_reg_u16.
  write_step. apply wp_bind. do 3 write_step.
  eapply wp_mono; [eapply wp_write_at; eassumption| |intros ? ? [? ?]; by eapply bus_error_config]. intros [] ? [? _].
  do 4 write_step. apply wp_bind. write_step.
  eapply wp_mono; [eapply wp_write_at; eassumption| |intros ? ? [? ?]; by eapply bus_error_config]. intros [] ? [? _].
  write_step.
  eapply wp_mono; [eapply wp_write_at; eassumption| |intros ? ? [? ?]; by eapply bus_error_config]. intros [] bn [Hn _].
  exists id, rc. split; [done|]. split; [done|]. rewrite <-!(assoc_L (++)) in Hn. exact Hn.
Qed.

(** What [configure] does.  When it succeeds, charging is disabled at the pin and the
    transfers were exactly the documented sequence: a reset, the identification of the
    chip and of two cells, and the settings (8200 mV, 2000 mA, watchdog off, no current
    measurement, masks).  A chip that is not recognized, or set up for another number of
    cells, gets none of the settings; and charging is disabled whenever the pin works. *)
Theorem configure_sets_limits c :
  powered (peripheral c) = false → addr c = CHARGER_ADDR →
  match configure c with
  | (Ok _, c') => high (pin_ce c') = true ∧ configured (trace (peripheral c)) c'
  | (Err IO, c') => trace (peripheral c') = trace (peripheral c)
  | (Err e, c') => high (pin_ce c') = true ∧ powered (peripheral c') = false ∧
      match e with
      | ChipNotRecognized => ∃ id, Z.land id 0x3F ≠ 0x21 ∧ rest_trace (trace (peripheral c) ++ take 2 (config_transfers id 0)) c'
      | MisConfigured => ∃ id rc, Z.shiftr rc 6 + 1 ≠ 2 ∧ rest_trace (trace (peripheral c) ++ take 3 (config_transfers id rc)) c'
      | _ => bus_error e
      end
  | (Panic, _) => False
  end.
Proof.
  intros Hp Ha. unfold configure, disable_charging, on_pin. unfold mbind, M_bind, zoom, map_err.
  pose proof (set_high_law (pin_ce c)) as Hh. destruct (set_high (pin_ce c)) as [[u|e|] ce]; [|done|done].
  set (c1 := mkBQ _ _ _ _ _). set (tr := trace (peripheral c)).
  assert (Hw : wp (with_bus inner_configure) (λ _ c', high (pin_ce c') = true ∧ configured tr c')
    (λ e c', high (pin_ce c') = true ∧ powered (peripheral c') = false ∧
      match e with
      | ChipNotRecognized => ∃ id, Z.land id 0x3F ≠ 0x21 ∧ rest_trace (tr ++ take 2 (config_transfers id 0)) c'
      | MisConfigured => ∃ id rc, Z.shiftr rc 6 + 1 ≠ 2 ∧ rest_trace (tr ++ take 3 (config_transfers id rc)) c'
      | _ => bus_error e
      end) c1).
  { eapply (wp_with_bus _ _ _ tr); [done|]. intros b Hb _. eapply wp_mono; [by apply wp_inner_configure| |].
    - intros _ b' (id & rc & E1 & E2 & Hb'). eexists. split; [exact Hb'|]. intros c' Hc' _ Ece. split; [by rewrite Ece|]. by exists id, rc.
    - intros e b' He. destruct e as [x| | | |]; cbn in He; try done.
      + destruct He as [tr' Hb']. exists tr'. split; [done|]. intros c' Hc' _ Ece. split; [by rewrite Ece|]. split; [apply Hc'|by eexists].
      + destruct He as (id & Hid & Hb'). eexists. split; [exact Hb'|]. intros c' Hc' _ Ece. split; [by rewrite Ece|]. split; [apply Hc'|by exists id].
      + destruct He as (id & rc & Hrc & Hb'). eexists. split; [exact Hb'|]. intros c' Hc' _ Ece. split; [by rewrite Ece|]. split; [apply Hc'|by exists id, rc]. }
  unfold wp in Hw. destruct (with_bus inner_configure c1) as [[[]|[]|] c']; try done; by destruct Hw as (_ & _ & [x Hx]).
Qed.

(** [set_battery_current_measurement]: on and off. *)
Definition IBAT_ON : Transfer := W 0x14 183 true.
Definition ibat_off (ok : bool) : Transfer := W 0x14 151 ok.

Definition word_reads (ws : list (list Z)) : list Transfer := zip_with (λ r w, R (reg_i16 r) w) [ADCIbus; ADCIbat; ADCVac1; ADCVac2; ADCVbat; ADCVsys] ws.
Definition decoded (ws : list (list Z)) (m : PowerMeasurements) : Prop :=
  i16_from_be_bytes <$> ws = [current_bus_ma m; current_battery_ma m; adapter_mv m; usb_mv m; battery_mv m; system_mv m].

Lemma wp_await_flag t fuel : ∀ tr b, at_trace tr b →
  wp (await_flag fuel t) (λ _ b', ∃ tr', at_trace tr' b') (λ _ b', ∃ tr', at_trace tr' b') b.
Proof.
  induction fuel as [|fuel IH]; intros tr b Hb; cbn [await_flag]; [apply wp_ret; by exists tr|].
  apply wp_bind. eapply wp_mono; [by eapply wp_read_8_at| |intros ? ? [? ?]; by eexists]. intros v b1 [H1 _].
  unfold bit, one_shl. change (5 <? bits W8) with true. cbv iota. apply wp_bind, wp_bind, wp_ret, wp_ret.
  destruct (negb _); [apply wp_ret; by eexists|]. apply wp_bind. unfold bus_wait, wp.
  destruct (wait_untill_any_edge _ _) as [[] x]; [by eapply IH|]. by eexists.
Qed.

Lemma wp_inner_measure tr b fuel : at_trace tr b →
  wp (inner_measure_power fuel)
    (λ r b', ∃ tr', match r with
       | Some m => ∃ ws, length ws = 6%nat ∧ decoded ws m ∧ at_trace (tr' ++ word_reads ws) b'
       | None => at_trace tr' b' end)
    (λ _ b', ∃ tr', at_trace tr' b') b.
Proof.
  intros Hb. unfold inner_measure_power, write_reg_8. apply wp_bind.
  eapply wp_mono; [by apply wp_write_at| |intros ? ? [? ?]; by eexists]. intros [] b1 [H1 _].
  apply wp_bind. eapply wp_mono; [by eapply wp_await_flag| |done]. cbv beta. intros found b2 [tr' H2].
  destruct found; cbn [negb]; [|apply wp_ret; by exists tr'].
  do 6 (apply wp_bind; eapply wp_mono; [by eapply wp_read_i16_at| |intros ? ? [? ?]; by eexists]; intros ? ? [(? & -> & ?) _]).
  apply wp_ret. exists tr'. eexists [_; _; _; _; _; _]. split; [done|]. split; [reflexivity|]. cbn. rewrite <-!(assoc_L (++)) in *. eassumption.
Qed.

(** A measurement is what was read, and is switched off again.  The result of
    [measure_power] is the six words read last, as signed big-endian numbers; and
    however the call ends, its last transfer switches the measurement of the battery
    current off, unless the bus failed when it was to be switched on. *)
Theorem measurement_switched_off fuel c :
  powered (peripheral c) = false → addr c = CHARGER_ADDR →
  let '(r, c') := measure_power fuel c in
  r ≠ Panic ∧ powered (peripheral c') = false ∧
  (∀ m, r = Ok (Some m) → ∃ tr ws, length ws = 6%nat ∧ decoded ws m ∧
     trace (peripheral c') = tr ++ word_reads ws ++ [ibat_off true]) ∧
  ((∃ tr ok, trace (peripheral c') = tr ++ [ibat_off ok]) ∨
   trace (peripheral c') = trace (peripheral c) ++ [W 0x14 183 false]).
Proof.
  intros Hp Ha. set (tr := trace (peripheral c)).
  assert (Hw : wp (measure_power fuel)
    (λ r c', ∃ tr', match r with
       | Some m => ∃ ws, length ws = 6%nat ∧ decoded ws m ∧ rest_trace ((tr' ++ word_reads ws) ++ [ibat_off true]) c'
       | None => rest_trace (tr' ++ [ibat_off true]) c' end)
    (λ _ c', (∃ tr' ok, rest_trace (tr' ++ [ibat_off ok]) c') ∨ rest_trace (tr ++ [W 0x14 183 false]) c') c).
  { eapply (wp_with_bus _ _ _ tr); [done|]. intros b Hb _. unfold set_battery_current_measurement, write_reg_8.
    apply wp_bind. eapply wp_mono; [by apply wp_write_at| |].
    2: { intros e b' [_ Hb']. eexists. split; [exact Hb'|]. intros. by right. }
    intros [] b1 [H1 _]. apply wp_bind, wp_attempt. eapply wp_mono; [by eapply wp_inner_measure| |]; cbv beta.
    - intros r b2 [tr' H2]. apply wp_bind.
      assert (H3 : ∃ t, at_trace t b2 ∧ (∀ m, r = Some m → ∃ ws, length ws = 6%nat ∧ decoded ws m ∧ t = tr' ++ word_reads ws)).
      { destruct r as [m|]; [destruct H2 as (ws & ? & ? & ?)|]; eexists; (split; [eassumption|]); [|done].
        intros m' [= <-]. by exists ws. }
      destruct H3 as (t & H3 & Hm). eapply wp_mono; [by apply wp_write_at| |].
      + intros [] b3 [H4 _]. apply wp_ret. eexists. split; [exact H4|]. intros c' Hc' _ _. destruct r as [m|].
        * destruct (Hm m eq_refl) as (ws & Hl & Hd & ->). by exists tr', ws.
        * by exists t.
      + intros e b3 [_ H4]. eexists. split; [exact H4|]. intros c' Hc' _ _. left. by exists t, false.
    - intros e b2 [tr' H2]. apply wp_bind. eapply wp_mono; [by apply wp_write_at| |].
      + intros [] b3 [H4 _]. apply wp_fail. eexists. split; [exact H4|]. intros c' Hc' _ _. left. by exists tr', true.
      + intros e' b3 [_ H4]. eexists. split; [exact H4|]. intros c' Hc' _ _. left. by exists tr', false. }
  unfold wp in Hw. destruct (measure_power fuel c) as [[r|e|] c']; [| |done].
  - destruct Hw as [tr' Hw]. split; [done|]. destruct r as [m|].
    + destruct Hw as (ws & Hl & Hd & Hc'). split; [apply Hc'|]. split.
      * intros m' [= <-]. exists tr', ws. destruct Hc' as (_ & _ & ->). by rewrite <-(assoc_L (++)).
      * left. eexists _, true. apply Hc'.
    + split; [apply Hw|]. split; [done|]. left. exists tr', true. apply Hw.
  - split; [done|]. destruct Hw as [(tr' & ok & Hc')|Hc']; (split; [apply Hc'|]; split; [done|]).
    + left. exists tr', ok. apply Hc'.
    + right. apply Hc'.
Qed.
End props.

Module DemoCharger.
(** A chip with registers, whose bus fails after a number of transfers. *)
Record chip : Type := mkChip { on : bool; log : list Transfer; regs : Z → Z; budget : nat }.
Definition reg_set (r v : Z) (f : Z → Z) : Z → Z := λ x, if x =? r then v else f x.

#[export] Instance chip_bus : I2cBus chip unit := {
  i2c_write a bs c :=
    match budget c with
    | O => (Err tt, mkChip (on c) (log c ++ [TWrite (on c) a bs false]) (regs c) O)
    | S n => (Ok tt, mkChip (on c) (log c ++ [TWrite (on c) a bs true])
               (match bs with [r; v] => reg_set r v (regs c) | [r; h; l] => reg_set r h (reg_set (r + 1) l (regs c)) | _ => regs c end) n)
    end;
  i2c_write_read a bs n c :=
    match budget c with
    | O => (Err tt, mkChip (on c) (log c ++ [TRead (on c) a bs None]) (regs c) O)
    | S m =>
        let res := (λ i, regs c (nth 0 bs 0 + i) mod 256) <$> seqZ 0 (Z.max 0 n) in
        if n <? 0 then (Err tt, mkChip (on c) (log c ++ [TRead (on c) a bs None]) (regs c) m)
        else (Ok res, mkChip (on c) (log c ++ [TRead (on c) a bs (Some res)]) (regs c) m)
    end;
  suspend c := mkChip false (log c) (regs c) (budget c);
  resume c := mkChip true (log c) (regs c) (budget c)
}.

#[export] Program Instance chip_laws : I2cLaws chip unit := { powered := on; trace := log }.
Next Obligation. done. Qed.
Next Obligation. done. Qed.
Next Obligation. intros a bs p. cbn. by destruct (budget p). Qed.
Next Obligation.
  intros a bs n p. cbn. destruct (budget p); [done|]. destruct (Z.ltb_spec n 0); [done|]. split; [done|]. split; [done|]. split.
  - unfold len. rewrite length_fmap, length_seqZ. lia.
  - apply list.Forall_fmap, list.Forall_forall. intros i _. apply Z.mod_pos_bound. lia.
Qed.

#[export] Instance level_pin : OutputPin bool := { set_high _ := (Ok tt, true); set_low _ := (Ok tt, false) }.
#[export] Program Instance level_laws : PinLaws bool := { high b := b }.
Next Obligation. done. Qed.
Next Obligation. done. Qed.

(** A line that fires the given number of times, every 400 ms, and the time. *)
Record line : Type := mkLine { edges : nat; clock : Z }.
#[export] Instance line_clock : TriggerClock line := {
  wait_untill_any_edge t x :=
    match edges x with
    | O => (false, mkLine O (clock x + Z.max 1 t))
    | S n => (true, mkLine n (clock x + 400000))
    end;
  now_us := clock
}.
#[export] Program Instance line_laws : ClockLaws line.
Next Obligation. intros t x. cbn. destruct (edges x); cbn; lia. Qed.
Next Obligation. intros t x. cbn. destruct (edges x); cbn; [lia|done]. Qed.

(** The chip answers with its part number and two cells; the IINDPM flag is set. *)
Definition chip_regs : Z → Z := reg_set 0x48 0x21 (reg_set 0x0A 64 (reg_set 0x22 128 (λ _, 0))).
Definition charger (budget edges : nat) (f : Z → Z) : BQ25672 chip bool line :=
  bq_new (mkChip false [] f budget) false (mkLine edges 0).

Lemma charger_bus_safe_witness :
  let c' := run_calls [CConfigure; CSelectSource (Adapter 4500); CEnable; CMeasure 3; CConfigure; CAwaitChange 5 10] (charger 20 1 chip_regs) in
  on (peripheral c') = false ∧ length (log (peripheral c')) = 24%nat.
Proof.
  destruct (charger_bus_safe (P := chip) (EI := unit) (CE := bool) (X := line)
    [CConfigure; CSelectSource (Adapter 4500); CEnable; CMeasure 3; CConfigure; CAwaitChange 5 10] (charger 20 1 chip_regs))
    as (H & _ & _); [reflexivity|reflexivity|].
  split; [exact H|]. vm_compute. reflexivity.
Defined.

Lemma configure_sets_limits_witness :
  ∃ c', configure (charger 20 0 chip_regs) = (Ok tt, c') ∧ pin_ce c' = true ∧ configured [] c'.
Proof.
  pose proof (configure_sets_limits (P := chip) (EI := unit) (CE := bool) (X := line) (charger 20 0 chip_regs)) as H.
  specialize (H ltac:(reflexivity) ltac:(reflexivity)).
  destruct (configure _) as [r c'] eqn:E. assert (Hr : r = Ok tt).
  { change r with (r, c').1. rewrite <-E. vm_compute. reflexivity. }
  subst r. exists c'. split; [done|]. exact H.
Defined.

Lemma await_change_decides_witness :
  ∃ c', await_change 1001 1 (charger 20 0 chip_regs) = (Err ChargerTimeout, c') ∧ 1000 ≤ clock (pin_int c').
Proof.
  pose proof (await_change_decides (P := chip) (EI := unit) (CE := bool) (X := line) 1001 1 (charger 20 0 chip_regs)) as H.
  specialize (H ltac:(reflexivity) ltac:(reflexivity)).
  destruct (await_change _ _ _) as [r c'] eqn:E. assert (Hr : r = Err ChargerTimeout).
  { change r with (r, c').1. rewrite <-E. vm_compute. reflexivity. }
  subst r. exists c'. split; [done|]. destruct (H ltac:(lia) ltac:(lia)) as [_ Hc]. exact Hc.
Defined.

(** The flag of the conversion is set, and the battery voltage is 7700 mV. *)
Definition converted : Z → Z := reg_set 0x24 32 (reg_set 0x3B 30 (reg_set 0x3C 20 chip_regs)).
Lemma measurement_switched_off_witness :
  ∃ m c', measure_power 3 (charger 20 0 converted) = (Ok (Some m), c') ∧ battery_mv m = 7700 ∧ on (peripheral c') = false ∧
    ∃ tr ok, log (peripheral c') = tr ++ [ibat_off ok].
Proof.
  pose proof (measurement_switched_off (P := chip) (EI := unit) (CE := bool) (X := line) 3 (charger 20 0 converted)) as H.
  specialize (H ltac:(reflexivity) ltac:(reflexivity)).
  destruct (measure_power _ _) as [r c'] eqn:E. destruct H as (_ & Hoff & _ & [Hl|Hl]).
  - assert (Hr : r = Ok (Some (mkPower 0 0 0 0 7700 0))).
    { change r with (r, c').1. rewrite <-E. vm_compute. reflexivity. }
    subst r. eexists _, c'. split; [done|]. split; [done|]. split; [exact Hoff|]. exact Hl.
  - exfalso. assert (Hc : length (trace (peripheral c')) = 10%nat); [|by rewrite Hl in Hc].
    change c' with (r, c').2. rewrite <-E. vm_compute. reflexivity.
Defined.

(** The time-out of the conversion starts anew with every edge: a line that keeps firing
    extends the 500 ms without bound. *)
Lemma spurious_edges_extend_timeout :
  ∃ b', await_flag (EI := unit) 20 ADC_TIMEOUT_MS (mkBus (mkChip true [] chip_regs 100) (mkLine 100 0) CHARGER_ADDR) = (Ok false, b') ∧
    clock (bus_int b') = 8000000.
Proof. eexists. split; [vm_compute; reflexivity|]. reflexivity. Qed.

(** A register with a bit set that [Faults] has no field for makes [faults] report a
    fault, with no field set. *)
Lemma fault_without_fault :
  (faults (charger 20 0 (reg_set 0x20 128 chip_regs))).1 =
    Ok (Some (mkFaults false false false false false false false false false false)).
Proof. vm_compute. reflexivity. Qed.

(** [BatteryOnly] after [Adapter] writes neither the input switches nor the
    high-impedance mode: the adapter stays selected. *)
Lemma battery_only_keeps_adapter :
  let c' := run_calls [CSelectSource (Adapter 4500); CSelectSource BatteryOnly] (charger 20 0 chip_regs) in
  log (peripheral c') = [W 0x05 45 true; W 0x0F 186 true; W 0x13 64 true; W 0x0F 186 true] ∧ regs (peripheral c') 0x13 = 64.
Proof. split; vm_compute; reflexivity. Qed.
End DemoCharger.
