(* ===== verification/StatusHandler.v ===== *)
(** * The server's answer to a status report

    [status_handler.rs] of the server core with its [command_handler.rs] and
    [firmware_handler.rs], and the devices of [device.rs].  The database is a
    parameter: classes with the calls of the traits [DeviceStore] and [FirmwareStore]
    that the handlers make.  [Utc::now] is an argument of the function that calls it;
    a date is a number of milliseconds, an [f32] its bits. *)

From stdpp Require Import base list list_numbers numbers option strings.
From S2P Require Import Prelude Topics Client.
#[local] Open Scope Z_scope.

Abbreviation DataStoreId := string.

(** ** Commands *)

Inductive Command : Type := CNone | CStart | CStop | CReboot | CFormat.
#[export] Instance Command_eq_dec : EqDecision Command.
Proof. solve_decision. Defined.

Inductive CommandIntoError : Type := NoCommand | Unsupported.

(** [TryFrom<Command> for Cmd] *)
Definition cmd_try_from (value : Command) : Cmd + CommandIntoError :=
  match value with
  | CNone => inr NoCommand
  | CStart => inl CmdStart
  | CStop => inl CmdStop
  | CReboot => inl Reboot
  | CFormat => inr Unsupported
  end.

Definition command_fmt (c : Command) : string :=
  match c with
  | CNone => ""
  | CStart => "start"
  | CStop => "stop"
  | CReboot => "reboot"
  | CFormat => "force format"
  end.

(** [FromStr for Command] *)
Definition command_from_str (s : string) : Command + string :=
  if bool_decide (s = "") then inl CNone
  else if bool_decide (s = "start") then inl CStart
  else if bool_decide (s = "stop") then inl CStop
  else if bool_decide (s = "reboot") then inl CReboot
  else if bool_decide (s = "format") || bool_decide (s = "force format") then inl CFormat
  else inr ("Unknown command: " +:+ s).

(** ** Devices *)

(** [DeviceStatusLike] *)
Class DeviceStatusLike (DS St : Type) : Type := {
  ds_status : DS → St;
  ds_status_eq_dec :: EqDecision St;
  is_active_or_idle : DS → bool;
  is_inactive : DS → bool
}.

Record Version : Type := mkVersion {
  v_firmware : string;
  v_hardware : string;
  v_bootloader : string;
  v_api : string;
  v_modem_model : string;
  v_modem_firmware_version : string
}.

Record Device (DT DS : Type) : Type := mkDevice {
  id : string;
  name : string;
  dev_type : DT;
  hub_id : option string;
  group_id : option string;
  last_contact : option Z;
  version : option Version;
  marked_for_update : option DataStoreId;
  command : Command;
  sync_interval_min : option Z;
  waiting_for_new_mp : bool;
  config_confirmed : bool;
  config_last_sent_at : option Z;
  calibration_date : option Z;
  documents : list string;
  device_status : DS;
  status_since : Z;
  register_time : Z;
  baseline_values : list Z;
  baseline_date : option Z;
  dev_sim_iccid : string;
  license_start : option Z;
  online_since : option Z
}.
Arguments mkDevice {DT DS}.
Arguments id {DT DS}.
Arguments name {DT DS}.
Arguments dev_type {DT DS}.
Arguments hub_id {DT DS}.
Arguments group_id {DT DS}.
Arguments last_contact {DT DS}.
Arguments version {DT DS}.
Arguments marked_for_update {DT DS}.
Arguments command {DT DS}.
Arguments sync_interval_min {DT DS}.
Arguments waiting_for_new_mp {DT DS}.
Arguments config_confirmed {DT DS}.
Arguments config_last_sent_at {DT DS}.
Arguments calibration_date {DT DS}.
Arguments documents {DT DS}.
Arguments device_status {DT DS}.
Arguments status_since {DT DS}.
Arguments register_time {DT DS}.
Arguments baseline_values {DT DS}.
Arguments baseline_date {DT DS}.
Arguments dev_sim_iccid {DT DS}.
Arguments license_start {DT DS}.
Arguments online_since {DT DS}.

(** A value for one field: the type that [FieldType] derives from [Device]. *)
Inductive DeviceFieldType (DT DS : Type) : Type :=
| FName (v : string)
| FDeviceType (v : DT)
| FHubId (v : option string)
| FGroupId (v : option string)
| FLastContact (v : option Z)
| FVersion (v : option Version)
| FMarkedForUpdate (v : option DataStoreId)
| FCommand (v : Command)
| FSyncIntervalMin (v : option Z)
| FWaitingForNewMp (v : bool)
| FConfigConfirmed (v : bool)
| FConfigLastSentAt (v : option Z)
| FCalibrationDate (v : option Z)
| FDocuments (v : list string)
| FDeviceStatus (v : DS)
| FStatusSince (v : Z)
| FRegisterTime (v : Z)
| FBaselineValues (v : list Z)
| FBaselineDate (v : option Z)
| FSimIccid (v : string)
| FLicenseStart (v : option Z)
| FOnlineSince (v : option Z).
Arguments FName {DT DS}.
Arguments FDeviceType {DT DS}.
Arguments FHubId {DT DS}.
Arguments FGroupId {DT DS}.
Arguments FLastContact {DT DS}.
Arguments FVersion {DT DS}.
Arguments FMarkedForUpdate {DT DS}.
Arguments FCommand {DT DS}.
Arguments FSyncIntervalMin {DT DS}.
Arguments FWaitingForNewMp {DT DS}.
Arguments FConfigConfirmed {DT DS}.
Arguments FConfigLastSentAt {DT DS}.
Arguments FCalibrationDate {DT DS}.
Arguments FDocuments {DT DS}.
Arguments FDeviceStatus {DT DS}.
Arguments FStatusSince {DT DS}.
Arguments FRegisterTime {DT DS}.
Arguments FBaselineValues {DT DS}.
Arguments FBaselineDate {DT DS}.
Arguments FSimIccid {DT DS}.
Arguments FLicenseStart {DT DS}.
Arguments FOnlineSince {DT DS}.

(** ** The stores *)

Record Firmware (FT : Type) : Type := mkFirmware {
  f_id : string;
  f_version : string;
  f_description : string;
  f_date : Z;
  v2BinID : string;
  recommended : bool;
  f_device_type : FT
}.
Arguments mkFirmware {FT}.
Arguments f_id {FT}.
Arguments f_version {FT}.
Arguments f_description {FT}.
Arguments f_date {FT}.
Arguments v2BinID {FT}.
Arguments recommended {FT}.
Arguments f_device_type {FT}.

Class DeviceStore (DB DT DS DbErr : Type) : Type := {
  device_by_id : string → M DB DbErr (option (Device DT DS));
  set_device_field : string → DeviceFieldType DT DS → M DB DbErr unit
}.
Class FirmwareStore (DB FT DbErr : Type) : Type :=
  firmware_by_id : DataStoreId → M DB DbErr (option (Firmware FT)).

(** ** The messages of an answer, and its errors *)

Inductive DeviceControlOut : Type :=
| DeviceCommand (p : CommandPayload)
| FWUpdateAnnounce (a : FWAnnounce)
| Time.
Record ControlMessageOut : Type := mkMessageOut { device_id : string; payload : DeviceControlOut }.

(** [anyhow::Error], by the messages the handlers give it. *)
Inductive AnyError (DbErr : Type) : Type :=
| StoreError (e : DbErr)
| UnsupportedCommand
| ErrorResetting (e : DbErr)
| ErrorConverting
| ErrorSending (e : AnyError DbErr)
| ErrorChecking (e : AnyError DbErr).
Arguments StoreError {DbErr}.
Arguments UnsupportedCommand {DbErr}.
Arguments ErrorResetting {DbErr}.
Arguments ErrorConverting {DbErr}.
Arguments ErrorSending {DbErr}.
Arguments ErrorChecking {DbErr}.
#[export] Instance from_store_error DbErr : From DbErr (AnyError DbErr) := StoreError.

(** [FWUpdateURL] is a [heapless::String<128>]. *)
Definition FW_UPDATE_URL_LEN : Z := 128.
Definition url_from_str (s : string) : option string :=
  if str_len s <=? FW_UPDATE_URL_LEN then Some s else None.

(** ** The handlers *)

Section handlers.
Context {DB DT DS St FT DbErr : Type} `{!DeviceStatusLike DS St}.
Context {dstore : DeviceStore DB DT DS DbErr} {fstore : FirmwareStore DB FT DbErr}.

Abbreviation MH := (M DB (AnyError DbErr)).

(** [DeviceFieldType::field_name] *)
Definition field_name (f : DeviceFieldType DT DS) : string :=
  match f with
  | FDeviceType _ => "device_type"
  | FGroupId _ => "group_id"
  | FName _ => "name"
  | FLastContact _ => "last_contact"
  | FVersion _ => "version"
  | FMarkedForUpdate _ => "marked_for_update"
  | FCommand _ => "command"
  | FSyncIntervalMin _ => "sync_interval_min"
  | FWaitingForNewMp _ => "waiting_for_new_mp"
  | FConfigConfirmed _ => "config_confirmed"
  | FConfigLastSentAt _ => "config_last_sent_at"
  | FCalibrationDate _ => "calibration_date"
  | FDocuments _ => "documents"
  | FDeviceStatus _ => "device_status"
  | FStatusSince _ => "status_since"
  | FRegisterTime _ => "register_time"
  | FBaselineValues _ => "baseline_values"
  | FBaselineDate _ => "baseline_date"
  | FHubId _ => "hub_id"
  | FSimIccid _ => "sim_iccid"
  | FLicenseStart _ => "license_start"
  | FOnlineSince _ => "online_since"
  end.

Definition check_send_command (device : Device DT DS) (status : DS) : MH (option ControlMessageOut) :=
  match cmd_try_from (command device) with
  | inr NoCommand => mret None
  | inr Unsupported => fail UnsupportedCommand
  | inl c =>
      let skip := match c with
                  | CmdStart => is_active_or_idle status
                  | CmdStop => is_inactive status
                  | _ => false
                  end in
      if skip then
        try! (set_device_field (id device) (FCommand CNone));;
        mret None
      else mret (Some (mkMessageOut (id device) (DeviceCommand (mkCommandPayload c))))
  end.

Definition check_and_announce_update (device : Device DT DS) : MH (option ControlMessageOut) :=
  found ← attempt (firmware_by_id (default "" (marked_for_update device)));
  match found with
  | inl (Some firmware) =>
      if match version device with
         | Some v => bool_decide (v_firmware v = f_version firmware)
         | None => false
         end
      then
        map_err ErrorResetting (set_device_field (id device) (FMarkedForUpdate None));;
        mret None
      else
        match url_from_str (v2BinID firmware) with
        | Some url => mret (Some (mkMessageOut (id device) (FWUpdateAnnounce (mkFWAnnounce url None))))
        | None => fail ErrorConverting
        end
  | _ => mret None
  end.

(** Each sensor with the time of its call of [Utc::now].  An error is logged, and the
    next sensor has its turn. *)
Fixpoint update_contact_time_for_sensors (sensor_ids : list (string * Z)) : MH unit :=
  match sensor_ids with
  | [] => mret tt
  | (sensor_id, now) :: sensor_ids =>
      attempt (set_device_field sensor_id (FLastContact (Some now)));;
      update_contact_time_for_sensors sensor_ids
  end.
Definition update_contact_time (now : Z) (device : Device DT DS) : MH unit :=
  update_contact_time_for_sensors [(id device, now)].

Definition handle_command (device : Device DT DS) (status : DS) : MH (option ControlMessageOut) :=
  map_err ErrorSending (check_send_command device status).

Definition send_time_sync (device_id : string) : ControlMessageOut := mkMessageOut device_id Time.

Definition update_status (now : Z) (device_id : string) (status previous : DS) (waiting_for_new_mp : bool) : MH unit :=
  (if negb (bool_decide (ds_status status = ds_status previous)) || waiting_for_new_mp then
     attempt (set_device_field device_id (FStatusSince now));; mret tt
   else mret tt);;
  attempt (set_device_field device_id (FDeviceStatus status));;
  mret tt.

Definition update_device_status (now : Z) (device : Device DT DS) (status : DS) : MH unit :=
  update_status now (id device) status (device_status device) (waiting_for_new_mp device).

Definition check_firmware_update (device : Device DT DS) : MH (option ControlMessageOut) :=
  map_err ErrorChecking (check_and_announce_update device).

(** [now] and [now'] are the times of the two calls of [Utc::now]. *)
Definition handle_status (now now' : Z) (device : Device DT DS) (status : DS) : MH (list ControlMessageOut) :=
  update_contact_time now device;;
  command_message ← try! (handle_command device status);
  let messages := option_list command_message ++ [send_time_sync (id device)] in
  try! (update_device_status now' device status);;
  firmware_update_message ← try! (check_firmware_update device);
  mret (messages ++ option_list firmware_update_message).
End handlers.
