(* ===== verification/StatusHandlerProps.v ===== *)
(** * Properties of the server's answer to a status report

    What the handlers send and write, over any database that keeps the promises of the
    class [StoreLaws].  An error of the database leaves open whether the write was done. *)

From stdpp Require Import base list list_numbers numbers option strings gmap.
From S2P Require Import Prelude Topics Client StatusHandler.
#[local] Open Scope Z_scope.

(** ** What the database promises *)

(** [$set] of one field of a document. *)
Definition apply_field {DT DS} (f : DeviceFieldType DT DS) (d : Device DT DS) : Device DT DS :=
  mkDevice (id d)
    (match f with FName v => v | _ => name d end)
    (match f with FDeviceType v => v | _ => dev_type d end)
    (match f with FHubId v => v | _ => hub_id d end)
    (match f with FGroupId v => v | _ => group_id d end)
    (match f with FLastContact v => v | _ => last_contact d end)
    (match f with FVersion v => v | _ => version d end)
    (match f with FMarkedForUpdate v => v | _ => marked_for_update d end)
    (match f with FCommand v => v | _ => command d end)
    (match f with FSyncIntervalMin v => v | _ => sync_interval_min d end)
    (match f with FWaitingForNewMp v => v | _ => waiting_for_new_mp d end)
    (match f with FConfigConfirmed v => v | _ => config_confirmed d end)
    (match f with FConfigLastSentAt v => v | _ => config_last_sent_at d end)
    (match f with FCalibrationDate v => v | _ => calibration_date d end)
    (match f with FDocuments v => v | _ => documents d end)
    (match f with FDeviceStatus v => v | _ => device_status d end)
    (match f with FStatusSince v => v | _ => status_since d end)
    (match f with FRegisterTime v => v | _ => register_time d end)
    (match f with FBaselineValues v => v | _ => baseline_values d end)
    (match f with FBaselineDate v => v | _ => baseline_date d end)
    (match f with FSimIccid v => v | _ => dev_sim_iccid d end)
    (match f with FLicenseStart v => v | _ => license_start d end)
    (match f with FOnlineSince v => v | _ => online_since d end).

(** Two writes commute unless they name the same field, when the last one counts. *)
Lemma field_writes {DT DS} (f g : DeviceFieldType DT DS) d :
  apply_field f (apply_field g d) =
  if bool_decide (field_name f = field_name g) then apply_field f d else apply_field g (apply_field f d).
Proof. by destruct f, g, d. Qed.

Definition apply_fields {DT DS} (fs : list (DeviceFieldType DT DS)) (d : Device DT DS) : Device DT DS :=
  foldl (λ d f, apply_field f d) d fs.

Class StoreLaws (DB DT DS FT DbErr : Type)
    {dstore : DeviceStore DB DT DS DbErr} {fstore : FirmwareStore DB FT DbErr} : Type := {
  devices : DB → gmap string (Device DT DS);
  firmwares : DB → gmap string (Firmware FT);
  device_by_id_law d db :
    match device_by_id d db with
    | (Ok r, db') => r = devices db !! d ∧ devices db' = devices db ∧ firmwares db' = firmwares db
    | (Err _, db') => devices db' = devices db ∧ firmwares db' = firmwares db
    | (Panic, _) => False
    end;
  set_device_field_law d f db :
    match set_device_field d f db with
    | (Ok _, db') => devices db' = alter (apply_field f) d (devices db) ∧ firmwares db' = firmwares db
    | (Err _, db') =>
        (devices db' = devices db ∨ devices db' = alter (apply_field f) d (devices db)) ∧ firmwares db' = firmwares db
    | (Panic, _) => False
    end;
  firmware_by_id_law i db :
    match firmware_by_id i db with
    | (Ok r, db') => r = firmwares db !! i ∧ devices db' = devices db ∧ firmwares db' = firmwares db
    | (Err _, db') => devices db' = devices db ∧ firmwares db' = firmwares db
    | (Panic, _) => False
    end;
  (** The empty string is not an [ObjectId]. *)
  no_empty_id db : firmwares db !! "" = None
}.

(** A database whose calls succeed; an identifier that is none is still refused. *)
Class Reliable (DB DT DS FT DbErr : Type)
    {dstore : DeviceStore DB DT DS DbErr} {fstore : FirmwareStore DB FT DbErr}
    {laws : StoreLaws DB DT DS FT DbErr} : Prop := {
  device_by_id_ok d db : ∀ e db', device_by_id d db ≠ (Err e, db');
  set_device_field_ok d f db : ∀ e db', set_device_field d f db ≠ (Err e, db');
  firmware_by_id_ok i db : is_Some (firmwares db !! i) → ∀ e db', firmware_by_id i db ≠ (Err e, db')
}.

(** ** The specification of an answer *)

Section specification.
Context {DT DS St FT : Type} `{!DeviceStatusLike DS St}.
Implicit Types (dev : Device DT DS) (status : DS) (found : option (Firmware FT)).

(** The device already is what the command asks for. *)
Definition satisfied (c : Command) status : bool :=
  match c with CStart => is_active_or_idle status | CStop => is_inactive status | _ => false end.

Definition command_due dev status : option ControlMessageOut :=
  match cmd_try_from (command dev) with
  | inl c => if satisfied (command dev) status then None else Some (mkMessageOut (id dev) (DeviceCommand (mkCommandPayload c)))
  | inr _ => None
  end.

Definition runs (f : Firmware FT) dev : bool := bool_decide (v_firmware <$> version dev = Some (f_version f)).

Definition announce_due dev found : option ControlMessageOut :=
  match found with
  | Some f => if runs f dev then None else Some (mkMessageOut (id dev) (FWUpdateAnnounce (mkFWAnnounce (v2BinID f) None)))
  | None => None
  end.

(** The writes of an answer, in order; [true]: the answer fails without it. *)
Definition writes_before (now now' : Z) dev status : list (bool * DeviceFieldType DT DS) :=
  [(false, FLastContact (Some now))] ++
  (if satisfied (command dev) status then [(true, FCommand CNone)] else []) ++
  (if bool_decide (ds_status status = ds_status (device_status dev)) && negb (waiting_for_new_mp dev)
   then [] else [(false, FStatusSince now')]) ++
  [(false, FDeviceStatus status)].
Definition writes_after dev found : list (bool * DeviceFieldType DT DS) :=
  match found with Some f => if runs f dev then [(true, FMarkedForUpdate None)] else [] | None => [] end.
Definition all_writes now now' dev status found := writes_before now now' dev status ++ writes_after dev found.
End specification.

Section properties.
Context {DB DT DS St FT DbErr : Type} `{!DeviceStatusLike DS St}.
Context {dstore : DeviceStore DB DT DS DbErr} {fstore : FirmwareStore DB FT DbErr}.
Context {laws : StoreLaws DB DT DS FT DbErr}.
Implicit Types (db : DB) (dev : Device DT DS) (status : DS) (found : option (Firmware FT)).
Implicit Types (fs : list (DeviceFieldType DT DS)) (ws : list (bool * DeviceFieldType DT DS)).

Abbreviation reliable := (Reliable DB DT DS FT DbErr).

(** Exactly these fields of the device were written. *)
Definition wrote (d : string) fs db db' : Prop :=
  devices db' = alter (apply_fields fs) d (devices db) ∧ firmwares db' = firmwares db.

(** Only writes of the list were done, in its order. *)
Definition wrote_some (d : string) ws db db' : Prop := ∃ fs, fs `sublist_of` ws.*2 ∧ wrote d fs db db'.

(** Moreover those that must be done, and all of them if the database is reliable. *)
Definition logged (d : string) ws db db' : Prop :=
  ∃ fs, (filter (λ w, w.1 = true) ws).*2 `sublist_of` fs ∧ fs `sublist_of` ws.*2 ∧ (reliable → fs = ws.*2) ∧ wrote d fs db db'.

Lemma wrote_nil d db db' : devices db' = devices db → firmwares db' = firmwares db → wrote d [] db db'.
Proof. intros Hd Hf. split; [|done]. rewrite Hd. symmetry. by apply alter_id. Qed.

Lemma alter_twice (f g : Device DT DS → Device DT DS) d (m : gmap string (Device DT DS)) :
  alter f d (alter g d m) = alter (f ∘ g) d m.
Proof. apply map_eq. intros j. rewrite !lookup_alter. destruct (decide (d = j)) as [->|]; [|done]. rewrite decide_True by done. by destruct (m !! j). Qed.

Lemma wrote_app d fs fs' db db1 db' : wrote d fs db db1 → wrote d fs' db1 db' → wrote d (fs ++ fs') db db'.
Proof.
  intros [Hd Hf] [Hd' Hf']. split; [|congruence]. rewrite Hd', Hd, alter_twice.
  apply alter_ext. intros dev _. unfold apply_fields, compose. by rewrite foldl_app.
Qed.

Lemma logged_nil d db db' : devices db' = devices db → firmwares db' = firmwares db → logged d [] db db'.
Proof. intros Hd Hf. exists []. split; [done|split; [done|split; [done|by apply wrote_nil]]]. Qed.

Lemma logged_app d ws ws' db db1 db' : logged d ws db db1 → logged d ws' db1 db' → logged d (ws ++ ws') db db'.
Proof.
  intros (fs & Hm & Hs & Hr & Hw) (fs' & Hm' & Hs' & Hr' & Hw'). exists (fs ++ fs').
  rewrite filter_app, !fmap_app. split; [by apply sublist_app|split; [by apply sublist_app|split]].
  - intros R. by rewrite Hr, Hr'.
  - by eapply wrote_app.
Qed.

Lemma logged_some d ws db db' : logged d ws db db' → wrote_some d ws db db'.
Proof. intros (fs & _ & Hs & _ & Hw). by exists fs. Qed.

Lemma some_app d ws ws' db db1 db' : wrote_some d ws db db1 → wrote_some d ws' db1 db' → wrote_some d (ws ++ ws') db db'.
Proof.
  intros (fs & Hs & Hw) (fs' & Hs' & Hw'). exists (fs ++ fs'). rewrite fmap_app.
  split; [by apply sublist_app|by eapply wrote_app].
Qed.

Lemma some_weaken d ws ws' db db' : wrote_some d ws db db' → wrote_some d (ws ++ ws') db db'.
Proof. intros (fs & Hs & Hw). exists fs. rewrite fmap_app. split; [by apply sublist_inserts_r|done]. Qed.

(** ** The calls of the database *)

Lemma wp_set d f b db :
  wp (set_device_field d f) (λ _ db', logged d [(b, f)] db db')
    (λ _ db', ¬ reliable ∧ wrote_some d [(b, f)] db db') db.
Proof.
  pose proof (set_device_field_law d f db) as L. unfold wp.
  destruct (set_device_field d f db) as [[u|e|] db'] eqn:Hrun; [| |done].
  - exists [f]. split; [by destruct b; constructor|split; [done|split; [done|]]]. apply L.
  - split; [intros R; by apply (set_device_field_ok d f db e db')|]. destruct L as [[Hd|Hd] Hf].
    + exists []. split; [apply sublist_nil_l|by apply wrote_nil].
    + exists [f]. by split; [|split].
Qed.

Lemma wp_set_ignored d f db :
  wp (set_device_field d f) (λ _ db', logged d [(false, f)] db db') (λ _ db', logged d [(false, f)] db db') db.
Proof.
  eapply wp_mono; [apply (wp_set d f false)|done|].
  intros e db' [R (fs & Hs & Hw)]. exists fs. split; [apply sublist_nil_l|by split; [|split]].
Qed.

(** What the lookup of the marked firmware comes to. *)
Definition firmware_found (r : caught DbErr (option (Firmware FT))) : option (Firmware FT) :=
  match r with inl o => o | inr _ => None end.

Lemma firmware_lookup i db :
  match attempt (E' := AnyError DbErr) (firmware_by_id i) db with
  | (Ok r, db') =>
      devices db' = devices db ∧ firmwares db' = firmwares db ∧
      (firmware_found r = None ∨ firmware_found r = firmwares db !! i) ∧ (reliable → firmware_found r = firmwares db !! i)
  | _ => False
  end.
Proof.
  pose proof (firmware_by_id_law i db) as L. unfold attempt.
  destruct (firmware_by_id i db) as [[o|e|] db'] eqn:Hrun; [|..|done].
  - destruct L as (-> & Hd & Hf). cbn. auto.
  - destruct L as [Hd Hf]. cbn. split; [done|split; [done|split; [by left|]]]. intros R.
    destruct (firmwares db !! i) eqn:Hi; [|done]. exfalso. by eapply firmware_by_id_ok.
Qed.

(** ** The parts of an answer *)

Lemma wp_check_send_command dev status db :
  wp (check_send_command dev status)
    (λ m db', command dev ≠ CFormat ∧ m = command_due dev status ∧
       logged (id dev) (if satisfied (command dev) status then [(true, FCommand CNone)] else []) db db')
    (λ e db', (command dev = CFormat ∧ db' = db) ∨
       (¬ reliable ∧ wrote_some (id dev) (if satisfied (command dev) status then [(true, FCommand CNone)] else []) db db')) db.
Proof.
  unfold check_send_command, command_due, satisfied.
  destruct (command dev) eqn:Hc; cbn [cmd_try_from]; wp_steps; try (split; [done|split; [done|by apply logged_nil]]).
  all: try (by left).
  all: lazymatch goal with |- context [if ?b then _ else _] => destruct b end; wp_steps;
    try (split; [done|split; [done|by apply logged_nil]]).
  all: eapply wp_mono; [apply (wp_set _ _ true)|intros ? ? ?; wp_steps; by split; [|split]|by right].
Qed.

Lemma wp_update_device_status now dev status db :
  wp (update_device_status now dev status)
    (λ _ db', logged (id dev)
       ((if bool_decide (ds_status status = ds_status (device_status dev)) && negb (waiting_for_new_mp dev)
         then [] else [(false, FStatusSince now)]) ++ [(false, FDeviceStatus status)]) db db')
    (λ _ _, False) db.
Proof.
  unfold update_device_status, update_status.
  destruct (bool_decide _), (waiting_for_new_mp dev); cbn [negb andb orb]; wp_steps.
  all: lazymatch goal with |- wp (set_device_field _ (FStatusSince _)) _ _ _ => eapply wp_mono; [apply wp_set_ignored|..]
       | |- _ => assert (L : logged (id dev) [] db db) by (by apply logged_nil) end.
  all: try (intros ? db1 L; wp_steps).
  all: eapply wp_mono; [apply wp_set_ignored|..]; intros ? db2 L'; wp_steps; by apply (logged_app _ _ _ _ db1) || by apply (logged_app _ [] _ _ db).
Qed.

Lemma url_from_str_spec s : url_from_str s = if bool_decide (str_len s ≤ FW_UPDATE_URL_LEN) then Some s else None.
Proof. unfold url_from_str. case_bool_decide; [rewrite Zle_imp_le_bool by done; done|by rewrite (proj2 (Z.leb_gt _ _)) by lia]. Qed.

Lemma wp_check_firmware dev db :
  wp (check_and_announce_update dev)
    (λ m db', ∃ found, (found = None ∨ found = firmwares db !! default "" (marked_for_update dev)) ∧
       (reliable → found = firmwares db !! default "" (marked_for_update dev)) ∧
       m = announce_due dev found ∧ logged (id dev) (writes_after dev found) db db')
    (λ e db', (∃ f, firmwares db !! default "" (marked_for_update dev) = Some f ∧ runs f dev = false ∧
                 FW_UPDATE_URL_LEN < str_len (v2BinID f) ∧ e = ErrorConverting ∧ wrote_some (id dev) [] db db') ∨
       (¬ reliable ∧ ∃ found, wrote_some (id dev) (writes_after dev found) db db')) db.
Proof.
  unfold check_and_announce_update. apply wp_bind. unfold wp at 1.
  pose proof (firmware_lookup (default "" (marked_for_update dev)) db) as L.
  destruct (attempt _ db) as [[r|e|] db1]; [destruct L as (Hd & Hf & Hv & Hr)|done..].
  assert (Hn : logged (id dev) [] db db1) by (by apply logged_nil).
  destruct r as [[f|]|e]; cbn [firmware_found] in *; wp_steps.
  2,3: exists None; split; [by left|split; [done|by split]].
  assert (Hf' : firmwares db !! default "" (marked_for_update dev) = Some f) by (by destruct Hv).
  assert (Hruns : match version dev with Some v => bool_decide (v_firmware v = f_version f) | None => false end = runs f dev).
  { unfold runs. destruct (version dev) as [v|]; [|done]. cbn. apply bool_decide_ext. split; [by intros ->|by intros [= ->]]. }
  rewrite Hruns. destruct (runs f dev) eqn:Hru; wp_steps.
  - eapply wp_mono; [apply (wp_set _ _ true)| |].
    + intros ? db2 L. wp_steps. exists (Some f). unfold announce_due, writes_after. rewrite Hru.
      split; [by right|split; [done|split; [done|]]]. by apply (logged_app _ [] _ _ db1).
    + intros e db2 [R Hw]. right. split; [done|]. exists (Some f). unfold writes_after. rewrite Hru.
      apply (some_app _ [] _ _ db1); [by apply logged_some|done].
  - rewrite url_from_str_spec. case_bool_decide; wp_steps.
    + exists (Some f). unfold announce_due, writes_after. rewrite Hru. split; [by right|split; [done|by split]].
    + left. exists f. split; [done|split; [done|split; [lia|split; [done|by apply logged_some]]]].
Qed.

(** ** A report is answered *)

(** Every status report of a device is answered with, in this order, the command
    that the device still has to carry out, the time, and the announcement of the
    firmware it is marked for and does not run, all addressed to the device.  Of the
    database only fields of this device are written: the contact time, the status, when
    the status changed (or a measuring point is awaited) the time since when, and [None]
    to a command that is satisfied and to the mark of a firmware that runs; the last two
    have been written when the answer is sent.  The only answers refused are those to a
    device with the unsupported command [format], which gets no time and whose status
    is not stored, and to one marked for a firmware whose name is too long, and those
    for which the database failed. *)
Theorem status_report_answered now now' dev status db :
  wp (handle_status now now' dev status)
    (λ messages db', command dev ≠ CFormat ∧
       ∃ found, (found = None ∨ found = firmwares db !! default "" (marked_for_update dev)) ∧
         (reliable → found = firmwares db !! default "" (marked_for_update dev)) ∧
         messages = option_list (command_due dev status) ++ [mkMessageOut (id dev) Time] ++
                    option_list (announce_due dev found) ∧
         logged (id dev) (all_writes now now' dev status found) db db')
    (λ e db',
       (command dev = CFormat ∧ logged (id dev) [(false, FLastContact (Some now))] db db') ∨
       (∃ f, firmwares db !! default "" (marked_for_update dev) = Some f ∧ runs f dev = false ∧
          FW_UPDATE_URL_LEN < str_len (v2BinID f) ∧ wrote_some (id dev) (writes_before now now' dev status) db db') ∨
       (¬ reliable ∧ ∃ found, wrote_some (id dev) (all_writes now now' dev status found) db db')) db.
Proof.
  unfold handle_status, handle_command, check_firmware_update, update_contact_time, all_writes, writes_before. cbn [update_contact_time_for_sensors]. wp_steps.
  eapply wp_mono; [apply wp_set_ignored|..]; intros ? db1 L1; cbv beta in L1; wp_steps.
  all: eapply wp_mono; [apply wp_check_send_command|intros m db2 (Hc & -> & L2)|intros ? db2 [[Hc ->]|[R W2]]].
  all: lazymatch goal with
       | Hc : command _ = CFormat |- _ => left; by split
       | R : ¬ reliable |- _ => right; right; split; [done|]; exists None; rewrite <- !app_assoc;
           apply (some_app _ _ _ _ db1); [by apply logged_some|by apply some_weaken]
       | |- _ => idtac end.
  all: wp_steps; eapply wp_mono; [apply wp_update_device_status|intros ? db3 L3; wp_steps|done].
  all: pose proof (logged_app _ _ _ _ _ _ L1 (logged_app _ _ _ _ _ _ L2 L3)) as L.
  all: assert (Hf : firmwares db3 = firmwares db) by (by destruct L as (? & _ & _ & _ & _ & ?)).
  all: eapply wp_mono; [apply wp_check_firmware|intros m db4 (found & Hv & Hr & -> & L4); wp_steps|].
  all: rewrite Hf in *.
  all: try (split; [done|]; exists found; split; [done|split; [done|split; [by rewrite <- app_assoc|by eapply logged_app]]]).
  all: intros ? db4 [(f & Hi & Hrun & Hlen & -> & W4)|[R [found W4]]]; right.
  all: lazymatch goal with
       | R : ¬ reliable |- _ => right; split; [done|]; exists found; eapply some_app; [by apply logged_some|done]
       | |- _ => left; exists f; split; [done|split; [done|split; [done|]]];
           rewrite <- (app_nil_r (_ ++ _)); eapply some_app; [by apply logged_some|done] end.
Qed.

(** ** A firmware update as the server sees it *)

(** What happens to a device: it reports its status, which is answered for the device as
    the database has it, or it reports the version it runs. *)
Inductive DeviceEvent : Type :=
| Report (now now' : Z) (status : DS)
| Runs (v : Version).

Definition report (d : string) (now now' : Z) (status : DS) : M DB (AnyError DbErr) (list ControlMessageOut) :=
  found ← map_err StoreError (device_by_id d);
  match found with
  | Some dev => handle_status now now' dev status
  | None => mret []
  end.
Fixpoint run (d : string) (evs : list DeviceEvent) : M DB (AnyError DbErr) (list (list ControlMessageOut)) :=
  match evs with
  | [] => mret []
  | Report now now' status :: evs =>
      messages ← report d now now' status;
      replies ← run d evs;
      mret (messages :: replies)
  | Runs v :: evs => map_err StoreError (set_device_field d (FVersion (Some v)));; run d evs
  end.

Definition announces (messages : list ControlMessageOut) : list string :=
  omap (λ m, match payload m with FWUpdateAnnounce a => Some (url a) | _ => None end) messages.

(** The announcements that the reports get: each one that of the firmware, up to the
    first report of a device that runs it. *)
Fixpoint announced (f : Firmware FT) (v : option string) (marked : bool) (evs : list DeviceEvent) : list (list string) :=
  match evs with
  | [] => []
  | Report _ _ _ :: evs =>
      let pending := marked && negb (bool_decide (v = Some (f_version f))) in
      (if pending then [v2BinID f] else []) :: announced f v pending evs
  | Runs v :: evs => announced f (Some (v_firmware v)) marked evs
  end.

(** The device [dev] is in the database, marked for the firmware [f] or no longer. *)
Record updating (d i : string) (f : Firmware FT) (v : option string) (marked : bool) db dev : Prop := {
  up_device : devices db !! d = Some dev;
  up_id : id dev = d;
  up_version : v_firmware <$> version dev = v;
  up_mark : marked_for_update dev = if marked then Some i else None;
  up_firmware : firmwares db !! i = Some f;
  up_url : str_len (v2BinID f) ≤ FW_UPDATE_URL_LEN;
  up_command : command dev ≠ CFormat
}.

Lemma id_apply_fields fs dev : id (apply_fields fs dev) = id dev.
Proof. revert dev. induction fs as [|g fs IH]; intros dev; [done|]. unfold apply_fields in *. cbn. by rewrite IH. Qed.

Lemma apply_all_writes now now' dev status found :
  let dev' := apply_fields (all_writes now now' dev status found).*2 dev in
  version dev' = version dev ∧
  marked_for_update dev' = (match found with Some f => if runs f dev then None else marked_for_update dev | None => marked_for_update dev end) ∧
  command dev' = (if satisfied (command dev) status then CNone else command dev).
Proof.
  cbv zeta. unfold all_writes, writes_before, writes_after.
  destruct (satisfied _ _), (_ && _), found as [f|]; try destruct (runs f dev); done.
Qed.

Lemma announces_answer dev status found :
  announces (option_list (command_due dev status) ++ [mkMessageOut (id dev) Time] ++ option_list (announce_due dev found)) =
  match found with Some f => if runs f dev then [] else [v2BinID f] | None => [] end.
Proof.
  unfold command_due, announce_due.
  destruct (cmd_try_from _); [destruct (satisfied _ _)|]; (destruct found as [f|]; [destruct (runs f dev)|]); done.
Qed.

Lemma report_updating {R : reliable} d i f v marked now now' status db dev :
  updating d i f v marked db dev →
  let pending := marked && negb (bool_decide (v = Some (f_version f))) in
  ∃ messages db' dev', report d now now' status db = (Ok messages, db') ∧
    announces messages = (if pending then [v2BinID f] else []) ∧ updating d i f v pending db' dev'.
Proof.
  intros [Hd Hid Hv Hm Hf Hu Hc]. cbv zeta. unfold report.
  pose proof (device_by_id_law d db) as L. unfold mbind, M_bind, map_err.
  destruct (device_by_id d db) as [[r|e|] db1] eqn:Hget; [|by destruct (device_by_id_ok d db e db1)|done].
  destruct L as (-> & Hd1 & Hf1). rewrite Hd.
  pose proof (status_report_answered now now' dev status db1) as W. unfold wp in W.
  assert (Hfound : firmwares db1 !! default "" (marked_for_update dev) = if marked then Some f else None).
  { rewrite Hf1, Hm. destruct marked; [done|apply no_empty_id]. }
  rewrite Hfound in W.
  destruct (handle_status now now' dev status db1) as [[msgs|e|] db2]; [| |done].
  - destruct W as (_ & found & _ & Hr & -> & fs & _ & _ & Hall & Hw & Hf2).
    rewrite (Hr R), (Hall R) in *. eexists _, _, _. split; [done|].
    rewrite announces_answer. unfold runs. rewrite Hv. split; [by destruct marked, (bool_decide _)|].
    destruct (apply_all_writes now now' dev status (if marked then Some f else None)) as (Hv' & Hm' & Hc').
    split; [by rewrite Hw, Hid, lookup_alter_eq, Hd1, Hd|rewrite id_apply_fields; done|by rewrite Hv'| |by rewrite Hf2, Hf1|done|].
    + rewrite Hm'. unfold runs. rewrite Hm, Hv. by destruct marked, (bool_decide _).
    + rewrite Hc'. by destruct (satisfied _ _).
  - destruct W as [[? _]|[(f' & Hi & _ & Hlen & _)|[? _]]]; [done| |done].
    destruct marked; [|done]. injection Hi as ->. lia.
Qed.

(** C19: a device that is marked for a firmware gets its announcement with every status
    report, until one finds the device running it; that one clears the mark and no
    later report announces it again, whatever version the device runs then.  All
    reports are answered.  This is for a device whose pending command, if it has one, is not
    [Format] (that one goes out alone, see [format_blocks_answer]), a firmware
    URL of at most 128 bytes, and a database whose calls all succeed. *)
Theorem update_announced_until_installed {R : reliable} d i f v marked evs db dev :
  updating d i f v marked db dev →
  ∃ replies db', run d evs db = (Ok replies, db') ∧ map announces replies = announced f v marked evs.
Proof.
  revert v marked db dev. induction evs as [|[now now' status|w] evs IH]; intros v marked db dev Hup; [by exists [], db|..].
  - destruct (report_updating d i f v marked now now' status db dev Hup) as (msgs & db1 & dev1 & Hrun & Ha & Hup1).
    destruct (IH _ _ _ _ Hup1) as (replies & db2 & Hrun2 & Hall). exists (msgs :: replies), db2.
    cbn [run announced map]. rewrite (bind_run _ _ _ _ _ Hrun), (bind_run _ _ _ _ _ Hrun2), Ha, Hall. done.
  - pose proof (set_device_field_law d (FVersion (Some w)) db) as L.
    destruct (set_device_field d _ db) as [[u|e|] db1] eqn:Hset; [|by destruct (set_device_field_ok _ _ _ _ _ Hset)|done].
    destruct L as [Hd1 Hf1], Hup as [Hd Hid Hv Hm Hf Hu Hc].
    destruct (IH (Some (v_firmware w)) marked db1 (apply_field (FVersion (Some w)) dev)) as (replies & db2 & Hrun2 & Hall).
    { split; [by rewrite Hd1, lookup_alter_eq, Hd|done..|by rewrite Hf1|done|done]. }
    exists replies, db2. split; [|done]. cbn [run]. unfold mbind at 1, M_bind, map_err. by rewrite Hset.
Qed.
End properties.

(** ** Commands as text *)

Lemma command_roundtrip c : command_from_str (command_fmt c) = inl c.
Proof. by destruct c. Qed.

(** ** A database in memory *)

Module DemoStatus.
Record Mem : Type := mkMem { mem_devices : gmap string (Device unit bool); mem_firmwares : gmap string (Firmware unit) }.

#[local] Instance bool_status : DeviceStatusLike bool bool :=
  {| ds_status b := b; is_active_or_idle b := b; is_inactive b := negb b |}.
#[local] Instance mem_device_store : DeviceStore Mem unit bool unit := {|
  device_by_id d := gets (λ m, mem_devices m !! d);
  set_device_field d f := modify (λ m, mkMem (alter (apply_field f) d (mem_devices m)) (mem_firmwares m))
|}.
#[local] Instance mem_firmware_store : FirmwareStore Mem unit unit :=
  λ i, if bool_decide (i = "") then fail tt else gets (λ m, mem_firmwares m !! i).
#[local] Instance mem_laws : StoreLaws Mem unit bool unit unit.
Proof.
  refine {| devices := mem_devices; firmwares m := delete "" (mem_firmwares m) |}.
  - done.
  - done.
  - intros i m. unfold firmware_by_id, mem_firmware_store. case_bool_decide; [done|]. cbn. by rewrite lookup_delete_ne.
  - intros m. apply lookup_delete_eq.
Defined.
#[local] Instance mem_reliable : Reliable Mem unit bool unit unit.
Proof.
  split; [done..|]. intros i m [f Hf] e m'. unfold firmware_by_id, mem_firmware_store.
  case_bool_decide as Hi; [|done]. subst i. cbn in Hf. by rewrite lookup_delete_eq in Hf.
Qed.

Definition version_1 : Version := mkVersion "1.0.0" "A" "1" "3" "" "".
Definition version_2 : Version := mkVersion "2.0.0" "A" "1" "3" "" "".
Definition device_1 (c : Command) : Device unit bool :=
  mkDevice "dev1" "" tt None None None (Some version_1) (Some "fw") c None false false None None [] false 0 0 [] None "" None None.
Definition firmware_2 : Firmware unit := mkFirmware "fw" "2.0.0" "" 0 "bin2" true tt.
Definition mem_1 (c : Command) : Mem := mkMem {["dev1" := device_1 c]} {["fw" := firmware_2]}.

(** The answer to the first report: start, the time, the announcement. *)
Example first_answer :
  match handle_status 10 11 (device_1 CStart) false (mem_1 CStart) with
  | (Ok messages, m) => (payload <$> messages, last_contact <$> mem_devices m !! "dev1")
  | _ => ([], None)
  end = ([DeviceCommand (mkCommandPayload CmdStart); Time; FWUpdateAnnounce (mkFWAnnounce "bin2" None)], Some (Some 10)).
Proof. vm_compute. reflexivity. Qed.

(** A device with the command [format] is not even sent the time. *)
Example format_blocks_answer :
  match handle_status 10 11 (device_1 CFormat) true (mem_1 CFormat) with
  | (Err e, m) => (Some e, device_status <$> mem_devices m !! "dev1")
  | _ => (None, None)
  end = (Some (ErrorSending UnsupportedCommand), Some false).
Proof. vm_compute. reflexivity. Qed.

Lemma status_report_answered_witness :
  match handle_status 10 11 (device_1 CStart) false (mem_1 CStart) with (Ok messages, _) => length messages = 3%nat | _ => False end.
Proof.
  pose proof (status_report_answered (laws := mem_laws) 10 11 (device_1 CStart) false (mem_1 CStart)) as W. unfold wp in W.
  destruct (handle_status _ _ _ _ _) as [[msgs|e|] m] eqn:Hrun; [| |done].
  - destruct W as (_ & found & _ & Hr & -> & _). by rewrite (Hr mem_reliable).
  - vm_compute in Hrun. discriminate.
Defined.

Definition update_events : list (DeviceEvent (DS := bool)) :=
  [Report 1 1 false; Runs version_2; Report 2 2 true; Runs version_1; Report 3 3 true].
Lemma update_announced_until_installed_witness :
  ∃ replies m, run "dev1" update_events (mem_1 CStart) = (Ok replies, m) ∧ map announces replies = [["bin2"]; []; []].
Proof.
  apply (update_announced_until_installed (laws := mem_laws) (R := mem_reliable) "dev1" "fw" firmware_2 (Some "1.0.0") true
           update_events (mem_1 CStart) (device_1 CStart)).
  split; [done..|by vm_compute|done].
Defined.
End DemoStatus.
