(* ===== verification/MatViews.v ===== *)
(** * The scheduler of the materialized views

    [materialized_views.rs] of the server core: data sets that received data wait in a
    queue until the data stops coming or a time-out, and are processed by a bounded
    number of jobs.  Times are milliseconds of [Utc::now], which chrono keeps below
    [2^53] in absolute value, so no sum of the source overflows its [i64].  The task is a step
    relation: its jobs run beside it. *)

From stdpp Require Import base list list_numbers numbers option strings gmap.
From S2P Require Import Prelude.
#[local] Open Scope Z_scope.

(** ** The queue *)

Record MatViewMsg (DC : Type) : Type := mkMsg { data_channel : DC; data_set_id : string }.
Arguments mkMsg {DC}.
Arguments data_channel {DC}.
Arguments data_set_id {DC}.
#[export] Instance MatViewMsg_eq_dec {DC} `{EqDecision DC} : EqDecision (MatViewMsg DC).
Proof. solve_decision. Defined.
#[export] Instance MatViewMsg_countable {DC} `{Countable DC} : Countable (MatViewMsg DC).
Proof. by apply (inj_countable' (λ m, (data_channel m, data_set_id m)) (λ '(c, i), mkMsg c i)); intros []. Defined.

Record MatViewState : Type := mkViewState {
  start_of_dataset : Z;
  last_processed_ms : Z;
  in_progress : bool;
  last_received_ms : Z
}.

Definition THRESHOLD_RECEIVE_IDLE_MS : Z := 3000.
Definition THRESHOLD_REPROCESS_MS : Z := 60000.
Definition THRESHOLD_STALE_MS : Z := 8 * 3600000.

Inductive MatViewNotReady : Type := AlreadyBusy | AlreadyUpToDate.
#[export] Instance MatViewNotReady_eq_dec : EqDecision MatViewNotReady.
Proof. solve_decision. Defined.
Inductive NotReady : Type := TryAgainAt (deadline : Z) | QueueEmpty.

Definition process_at (s : MatViewState) : Z + MatViewNotReady :=
  if in_progress s then inr AlreadyBusy
  else
    let t_receive_idle := last_received_ms s + THRESHOLD_RECEIVE_IDLE_MS in
    if t_receive_idle <=? last_processed_ms s then inr AlreadyUpToDate
    else
      let t_reprocess := start_of_dataset s + THRESHOLD_REPROCESS_MS in
      let deadline := Z.min t_receive_idle t_reprocess in
      let min_deadline := last_processed_ms s + THRESHOLD_REPROCESS_MS in
      inl (Z.max deadline min_deadline).

Section queue.
Context {DC : Type} `{Countable DC}.

Abbreviation MatViewQueue := (gmap (MatViewMsg DC) MatViewState).
(** [MatViewQueue::new] *)
Definition mat_view_queue_new : MatViewQueue := ∅.

Definition set_idle (s : MatViewState) : MatViewState :=
  mkViewState (start_of_dataset s) (last_processed_ms s) false (last_received_ms s).
Definition mark_done (feedback : MatViewMsg DC) (q : MatViewQueue) : MatViewQueue := alter set_idle feedback q.

(** The entry after [update_last_received]; [s] is the entry before, if there was one. *)
Definition received_state (t_now_ms : Z) (s : option MatViewState) : MatViewState :=
  let s := default (mkViewState t_now_ms 0 false t_now_ms) s in
  let start := match process_at s with inr AlreadyUpToDate => t_now_ms | _ => start_of_dataset s end in
  mkViewState start (last_processed_ms s) (in_progress s) t_now_ms.
Definition update_last_received (t_now_ms : Z) (msg : MatViewMsg DC) (q : MatViewQueue) : MatViewState * MatViewQueue :=
  let s := received_state t_now_ms (q !! msg) in (s, <[msg := s]> q).

(** One turn of the fold of [next_to_process]: the best candidate so far with its
    deadline, and the stale entries. *)
Definition next_step (t_now_ms : Z) (acc : option (Z * (MatViewMsg DC * MatViewState)) * list (MatViewMsg DC))
    (candidate : MatViewMsg DC * MatViewState) : option (Z * (MatViewMsg DC * MatViewState)) * list (MatViewMsg DC) :=
  let '(best, stale) := acc in
  match process_at candidate.2 with
  | inl deadline =>
      match best ≫= (λ b, match process_at b.2.2 with inl d => Some d | inr _ => None end) with
      | Some current_deadline => if current_deadline <=? deadline then (best, stale) else (Some (deadline, candidate), stale)
      | None => (Some (deadline, candidate), stale)
      end
  | inr _ =>
      if negb (in_progress candidate.2) && (THRESHOLD_STALE_MS <? t_now_ms - last_received_ms candidate.2) then
        (best, stale ++ [candidate.1])
      else (best, stale)
  end.

Definition set_started (t_now_ms : Z) (s : MatViewState) : MatViewState :=
  mkViewState (start_of_dataset s) t_now_ms true (last_received_ms s).

(** [entries] are those of the map in the order of its iterator. *)
Definition next_to_process (entries : list (MatViewMsg DC * MatViewState)) (t_now_ms : Z) (q : MatViewQueue) :
    (MatViewMsg DC + NotReady) * MatViewQueue :=
  let '(next, stale) := foldl (next_step t_now_ms) (None, []) entries in
  let '(result, q) :=
    match next with
    | Some (deadline, (msg, s)) =>
        if deadline <=? t_now_ms then (inl msg, <[msg := set_started t_now_ms s]> q) else (inr (TryAgainAt deadline), q)
    | None => (inr QueueEmpty, q)
    end in
  (result, foldl (λ q obsolete, delete obsolete q) q stale).

(** ** The task *)

Definition as_u64 (z : Z) : Z := z mod 2 ^ 64.

Definition IDLE_DELAY_MS : Z := 10 * 60000.
Definition SHUTDOWN_TIMEOUT_MS : Z := 3 * 60000.

(** Where the task is: in its [select], in the loop that starts jobs, waiting for its jobs
    after the end of the loop, or at its end. *)
Inductive Place : Type := Selecting | Spawning | Draining (until : Z) | Exited.

(** [running]: the jobs that hold a permit; [reporting]: those that ended, with their
    feedback underway.  [timer] is the time at which the [sleep] of this [select] ends;
    [no_permit]: the loop that starts jobs was left because it got no permit. *)
Record ViewsTask : Type := mkTask {
  place : Place;
  queue : MatViewQueue;
  delay_ms : Z;
  timer : Z;
  no_permit : bool;
  running : list (MatViewMsg DC);
  reporting : list (MatViewMsg DC)
}.
Definition task_start (now : Z) : ViewsTask := mkTask Selecting mat_view_queue_new IDLE_DELAY_MS (now + IDLE_DELAY_MS) false [] [].

(** What happens, each with its time.  [EShutdown]: the shutdown signal, or the end of the
    channel of the incoming jobs; the task itself keeps the channel of the feedback open. *)
Inductive TaskEvent : Type :=
| EShutdown (now : Z)
| EDelay (now : Z)
| EFeedback (msg : MatViewMsg DC) (now : Z)
| EReceived (msg : MatViewMsg DC) (now : Z)
| EStarted (msg : MatViewMsg DC) (now : Z)
| ENotReady (r : NotReady) (now : Z)
| EFull (now : Z)
| EFinished (msg : MatViewMsg DC) (now : Z)
| EPanicked (msg : MatViewMsg DC) (now : Z)
| EExit (now : Z).
Definition time (e : TaskEvent) : Z :=
  match e with
  | EShutdown t | EDelay t | EFeedback _ t | EReceived _ t | EStarted _ t | ENotReady _ t | EFull t | EFinished _ t | EPanicked _ t | EExit t => t
  end.

(** [max_parallel_tasks] permits.  The [sleep] is ready from its time on, a message of a
    channel at any time. *)
Inductive task_step (max_parallel_tasks : Z) : ViewsTask → TaskEvent → ViewsTask → Prop :=
| StShutdown q d t np run rep now :
    task_step max_parallel_tasks (mkTask Selecting q d t np run rep) (EShutdown now)
      (mkTask (Draining (now + SHUTDOWN_TIMEOUT_MS)) q d t np run rep)
| StDelay q d t np run rep now :
    t ≤ now →
    task_step max_parallel_tasks (mkTask Selecting q d t np run rep) (EDelay now) (mkTask Spawning q d t np run rep)
| StFeedback q d t np run rep1 msg rep2 now :
    task_step max_parallel_tasks (mkTask Selecting q d t np run (rep1 ++ msg :: rep2)) (EFeedback msg now)
      (mkTask Spawning (mark_done msg q) d t np run (rep1 ++ rep2))
| StReceived q d t np run rep msg now :
    task_step max_parallel_tasks (mkTask Selecting q d t np run rep) (EReceived msg now)
      (mkTask Spawning (update_last_received now msg q).2 d t np run rep)
| StStarted q q' d t np run rep entries msg now :
    len run < max_parallel_tasks → entries ≡ₚ map_to_list q → next_to_process entries now q = (inl msg, q') →
    task_step max_parallel_tasks (mkTask Spawning q d t np run rep) (EStarted msg now) (mkTask Spawning q' d t np (run ++ [msg]) rep)
| StNotReady q q' d t np run rep entries r now :
    len run < max_parallel_tasks → entries ≡ₚ map_to_list q → next_to_process entries now q = (inr r, q') →
    let d' := match r with TryAgainAt deadline => as_u64 (deadline - now) | QueueEmpty => IDLE_DELAY_MS end in
    task_step max_parallel_tasks (mkTask Spawning q d t np run rep) (ENotReady r now) (mkTask Selecting q' d' (now + d') false run rep)
| StFull q d t np run rep now :
    max_parallel_tasks ≤ len run →
    task_step max_parallel_tasks (mkTask Spawning q d t np run rep) (EFull now) (mkTask Selecting q d (now + d) true run rep)
| StFinished p q d t np run1 msg run2 rep now :
    task_step max_parallel_tasks (mkTask p q d t np (run1 ++ msg :: run2) rep) (EFinished msg now)
      (mkTask p q d t np (run1 ++ run2) (rep ++ [msg]))
| StPanicked p q d t np run1 msg run2 rep now :
    task_step max_parallel_tasks (mkTask p q d t np (run1 ++ msg :: run2) rep) (EPanicked msg now)
      (mkTask p q d t np (run1 ++ run2) rep)
| StExit until q d t np run rep now :
    run = [] ∨ until ≤ now →
    task_step max_parallel_tasks (mkTask (Draining until) q d t np run rep) (EExit now) (mkTask Exited q d t np run rep).

Inductive task_run (max_parallel_tasks : Z) (start : Z) : list TaskEvent → ViewsTask → Prop :=
| run_start : task_run max_parallel_tasks start [] (task_start start)
| run_step tr e st st' :
    task_run max_parallel_tasks start tr st → task_step max_parallel_tasks st e st' →
    task_run max_parallel_tasks start (tr ++ [e]) st'.
End queue.
Arguments ViewsTask DC {_ _}.
Arguments TaskEvent DC : clear implicits.
