(* ===== verification/MatViewsProps.v ===== *)
(** * Properties of the scheduler of the materialized views

    No data set is forgotten, processed twice at the same time or processed late, as long
    as its jobs end and a permit is free. *)

From stdpp Require Import base list list_numbers numbers option strings gmap.
From S2P Require Import Prelude MatViews.
#[local] Open Scope Z_scope.

Section scheduler.
Context {DC : Type} `{Countable DC}.
Implicit Types (m : MatViewMsg DC) (s : MatViewState) (q : gmap (MatViewMsg DC) MatViewState) (tr : list (TaskEvent DC)).

(** ** The queue *)

(** What one call of [next_to_process] finds among the entries. *)
Definition best_of (entries : list (MatViewMsg DC * MatViewState)) (best : option (Z * (MatViewMsg DC * MatViewState))) : Prop :=
  match best with
  | None => ∀ m s d, (m, s) ∈ entries → process_at s ≠ inl d
  | Some (d, (m, s)) => (m, s) ∈ entries ∧ process_at s = inl d ∧ ∀ m' s' d', (m', s') ∈ entries → process_at s' = inl d' → d ≤ d'
  end.

(** Entries that need no processing and got no data for a long time. *)
Definition stale (now : Z) s : Prop :=
  process_at s = inr AlreadyUpToDate ∧ THRESHOLD_STALE_MS < now - last_received_ms s.

Lemma process_at_busy s : process_at s = inr AlreadyBusy ↔ in_progress s = true.
Proof. unfold process_at. destruct (in_progress s); [done|]. by destruct (_ <=? _). Qed.

Lemma next_fold now entries :
  let '(best, old) := foldl (next_step now) (None, []) entries in
  best_of entries best ∧ ∀ m, m ∈ old ↔ ∃ s, (m, s) ∈ entries ∧ stale now s.
Proof.
  induction entries as [|[m s] entries IH] using rev_ind.
  { split; [by intros ? ? ? Hin%not_elem_of_nil|]. intros m. split; [by intros ?%not_elem_of_nil|]. by intros (s & ?%not_elem_of_nil & _). }
  rewrite foldl_snoc. destruct (foldl _ _ entries) as [best old]. destruct IH as [Hb Ho]. unfold next_step. cbn [snd fst].
  assert (Hin : ∀ m' s', (m', s') ∈ entries ++ [(m, s)] ↔ (m', s') ∈ entries ∨ (m' = m ∧ s' = s)).
  { intros m' s'. rewrite elem_of_app, elem_of_cons, elem_of_nil. split; [intros [?|[[= -> ->]|[]]]; auto|intros [?|[-> ->]]; auto]. }
  destruct (process_at s) as [d|r] eqn:Hs.
  - assert (Hnew : best_of (entries ++ [(m, s)]) (Some (d, (m, s))) ↔ ∀ m' s' d', (m', s') ∈ entries → process_at s' = inl d' → d ≤ d').
    { unfold best_of. split; [intros (_ & _ & Hall) m' s' d' Hm; apply (Hall m'), Hin; by left|].
      intros Hall. split; [apply Hin; by right|]. split; [done|]. intros m' s' d' [Hm|[-> ->]]%Hin Hp; [by eapply Hall|].
      rewrite Hs in Hp. injection Hp as ->. lia. }
    assert (Hstale : ∀ m', m' ∈ old ↔ ∃ s', (m', s') ∈ entries ++ [(m, s)] ∧ stale now s').
    { intros m'. rewrite Ho. split; intros (s' & Hm & Hst); exists s'; rewrite Hin in *; [by split; [left|]|].
      destruct Hm as [Hm|[-> ->]]; [done|]. destruct Hst as [Hst _]. congruence. }
    destruct best as [[db [mb sb]]|]; cbn [mbind option_bind snd]; [|split; [|done]].
    + destruct Hb as (Hbin & Hbp & Hball). rewrite Hbp. destruct (Z.leb_spec db d) as [Hle|Hgt]; (split; [|done]).
      * split; [apply Hin; by left|]. split; [done|]. intros m' s' d' [Hm|[-> ->]]%Hin Hp; [by eapply Hball|]. congruence.
      * apply Hnew. intros m' s' d' Hm Hp. specialize (Hball _ _ _ Hm Hp). lia.
    + apply Hnew. intros m' s' d' Hm Hp. by destruct (Hb _ _ _ Hm Hp).
  - assert (Hbest : best_of (entries ++ [(m, s)]) best).
    { destruct best as [[db [mb sb]]|].
      - destruct Hb as (Hbin & Hbp & Hball). split; [apply Hin; by left|]. split; [done|].
        intros m' s' d' [Hm|[-> ->]]%Hin Hp; [by eapply Hball|congruence].
      - intros m' s' d [Hm|[-> ->]]%Hin; [by eapply Hb|congruence]. }
    assert (Hst : negb (in_progress s) && (THRESHOLD_STALE_MS <? now - last_received_ms s) = true ↔ stale now s).
    { unfold stale. rewrite Hs, andb_true_iff, negb_true_iff, Z.ltb_lt. destruct r.
      - apply process_at_busy in Hs. rewrite Hs. naive_solver.
      - assert (in_progress s = false) as -> by (destruct (in_progress s) eqn:Hb'; [apply process_at_busy in Hb'; congruence|done]). naive_solver. }
    destruct (_ && _); (split; [done|]); intros m'; rewrite ?elem_of_app, Ho.
    + rewrite elem_of_cons, elem_of_nil. split.
      * intros [(s' & Hm & Hs')|[->|[]]]; [exists s'; rewrite Hin; auto|exists s; rewrite Hin; naive_solver].
      * intros (s' & [Hm|[-> ->]]%Hin & Hs'); [left; eauto|auto].
    + split; intros (s' & Hm & Hs'); exists s'; rewrite Hin in *; [by split; [left|]|].
      destruct Hm as [Hm|[-> ->]]; [done|]. destruct Hst as [_ Hst]. by specialize (Hst Hs').
Qed.

Lemma lookup_delete_all q (old : list (MatViewMsg DC)) m :
  foldl (λ q o, delete o q) q old !! m = if bool_decide (m ∈ old) then None else q !! m.
Proof.
  revert q. induction old as [|o old IH]; intros q; [done|]. cbn [foldl]. rewrite IH.
  destruct (decide (m = o)) as [->|Hne].
  - rewrite lookup_delete_eq, (bool_decide_true (o ∈ o :: old)) by left. by destruct (bool_decide _).
  - rewrite lookup_delete_ne by done. erewrite bool_decide_ext; [done|]. rewrite elem_of_cons. naive_solver.
Qed.

(** A call removes the stale entries; the rest stays, but for the one to be processed. *)
Lemma next_to_process_run entries now q r q' :
  entries ≡ₚ map_to_list q → next_to_process entries now q = (r, q') →
  match r with
  | inl msg => ∃ s d, q !! msg = Some s ∧ process_at s = inl d ∧ d ≤ now ∧
      ∀ m, q' !! m = if decide (m = msg) then Some (set_started now s)
                     else match q !! m with Some s => if decide (stale now s) then None else Some s | None => None end
  | inr r =>
      (∀ m, q' !! m = match q !! m with Some s => if decide (stale now s) then None else Some s | None => None end) ∧
      match r with
      | TryAgainAt d => (∃ m s, q !! m = Some s ∧ process_at s = inl d) ∧ now < d ∧ ∀ m s d', q !! m = Some s → process_at s = inl d' → d ≤ d'
      | QueueEmpty => ∀ m s d, q !! m = Some s → process_at s ≠ inl d
      end
  end.
Proof.
  intros Hperm Hrun. unfold next_to_process in Hrun. pose proof (next_fold now entries) as Hf.
  destruct (foldl _ _ entries) as [best old]. destruct Hf as [Hb Ho].
  assert (Hin : ∀ m s, (m, s) ∈ entries ↔ q !! m = Some s) by (intros m s; by rewrite Hperm, elem_of_map_to_list).
  assert (Hold : ∀ m s, q !! m = Some s → bool_decide (m ∈ old) = bool_decide (stale now s)).
  { intros m s Hm. apply bool_decide_ext. rewrite Ho. split; [|intros Hs; exists s; by rewrite Hin].
    intros (s' & Hm' & Hs). rewrite Hin in Hm'. congruence. }
  assert (Hdel : ∀ m, foldl (λ q o, delete o q) q old !! m = match q !! m with Some s => if decide (stale now s) then None else Some s | None => None end).
  { intros m. rewrite lookup_delete_all. destruct (q !! m) as [s|] eqn:Hm; [|by destruct (bool_decide _)].
    rewrite (Hold m s Hm). by destruct (decide (stale now s)); [rewrite bool_decide_true|rewrite bool_decide_false]. }
  destruct best as [[d [msg s]]|].
  - destruct Hb as (Hbin & Hbp & Hball). destruct (Z.leb_spec d now) as [Hle|Hgt]; injection Hrun as <- <-.
    + exists s, d. split; [by apply Hin|]. split; [done|]. split; [done|]. intros m.
      rewrite lookup_delete_all. destruct (decide (m = msg)) as [->|Hne].
      * rewrite (Hold msg s) by (by apply Hin). rewrite bool_decide_false by (intros [? _]; congruence). by rewrite lookup_insert_eq.
      * rewrite lookup_insert_ne by done. by rewrite <- lookup_delete_all.
    + split; [done|]. split; [exists msg, s; by rewrite <- Hin|]. split; [done|]. intros m' s' d' Hm. rewrite <- Hin in Hm. by apply (Hball m').
  - injection Hrun as <- <-. split; [done|]. intros m s d Hm. rewrite <- Hin in Hm. by apply (Hb m).
Qed.

(** ** What happened to a data set *)

(** When its last job started and the last data that it saw came; the data that came
    since; whether a job has it that has not reported. *)
Record History : Type := mkHistory { h_start : option Z; h_seen : Z; h_unseen : list Z; h_busy : bool }.
Definition last_data (h : History) : Z := foldl (λ _ t, t) (h_seen h) (h_unseen h).
Definition last_start (h : History) : Z := default 0 (h_start h).

Definition history_step m (h : History) (e : TaskEvent DC) : History :=
  match e with
  | EReceived m' t => if decide (m' = m) then mkHistory (h_start h) (h_seen h) (h_unseen h ++ [t]) (h_busy h) else h
  | EStarted m' t => if decide (m' = m) then mkHistory (Some t) (last_data h) [] true else h
  | EFeedback m' _ => if decide (m' = m) then mkHistory (h_start h) (h_seen h) (h_unseen h) false else h
  | _ => h
  end.
Definition history m tr : History := foldl (history_step m) (mkHistory None 0 [] false) tr.
Definition panicked tr : list (MatViewMsg DC) := omap (λ e, match e with EPanicked m _ => Some m | _ => None end) tr.

(** The time of the last event; the clock never went backwards. *)
Definition now t0 tr : Z := foldl (λ _ e, time e) t0 tr.
Fixpoint clocked t0 tr : Prop :=
  match tr with [] => True | e :: tr => t0 ≤ time e ∧ clocked (time e) tr end.

Lemma history_snoc m tr e : history m (tr ++ [e]) = history_step m (history m tr) e.
Proof. apply foldl_snoc. Qed.
Lemma now_snoc t0 tr e : now t0 (tr ++ [e]) = time e.
Proof. unfold now. by rewrite foldl_snoc. Qed.
Lemma panicked_snoc tr e : panicked (tr ++ [e]) = panicked tr ++ match e with EPanicked m _ => [m] | _ => [] end.
Proof. unfold panicked. rewrite omap_app. by destruct e. Qed.
Lemma clocked_snoc t0 tr e : clocked t0 (tr ++ [e]) ↔ clocked t0 tr ∧ now t0 tr ≤ time e.
Proof.
  revert t0. induction tr as [|e' tr IH]; intros t0; [cbn; naive_solver|]. cbn [app clocked]. rewrite IH. unfold now. cbn. naive_solver.
Qed.

(** ** The entry of a data set, in the light of its history *)

(** Silence for so long that the entry may be gone. *)
Definition silent (h : History) (t : Z) : Prop := THRESHOLD_STALE_MS < t - h_seen h.

Record entry_ok (t : Z) (h : History) s : Prop := {
  eo_busy : in_progress s = h_busy h;
  eo_processed : 0 ≤ last_processed_ms s ≤ last_start h;
  eo_received : last_received_ms s = last_data h;
  eo_start : start_of_dataset s ≤ last_received_ms s;
  eo_unseen f l : h_unseen h = f :: l → start_of_dataset s ≤ f;
  eo_kept : last_processed_ms s = last_start h ∨ ∃ f l, h_unseen h = f :: l ∧ silent h f
}.
Definition entry_inv (t : Z) (h : History) (s : option MatViewState) : Prop :=
  match s with
  | Some s => entry_ok t h s
  | None => h_unseen h = [] ∧ h_busy h = false ∧ (h_start h ≠ None → silent h t)
  end.
(** Of the history alone: its times. *)
Record history_ok (t : Z) (h : History) : Prop := {
  ho_start : 0 ≤ last_start h ≤ t;
  ho_last : last_data h ≤ t;
  ho_unseen f l : h_unseen h = f :: l → last_start h ≤ f ≤ last_data h
}.

Lemma last_data_snoc a b l t c : last_data (mkHistory a b (l ++ [t]) c) = t.
Proof. unfold last_data. cbn. by rewrite foldl_snoc. Qed.

(** Data that no job has seen keeps the entry in the queue. *)
Lemma unseen_due t h s :
  entry_ok t h s → history_ok t h → h_unseen h ≠ [] → process_at s ≠ inr AlreadyUpToDate.
Proof.
  intros [Hb Hp Hr Hs Hu Hk] [Ht Hl Hf] Hne. destruct (h_unseen h) as [|f l]; [done|]. specialize (Hf f l eq_refl).
  unfold process_at. destruct (in_progress s); [done|]. unfold THRESHOLD_RECEIVE_IDLE_MS. by rewrite (proj2 (Z.leb_gt _ _)) by lia.
Qed.

(** When an entry is due. *)
Lemma due_bounds t h s d :
  entry_ok t h s → history_ok t h → process_at s = inl d →
  h_busy h = false ∧ d ≤ t + THRESHOLD_REPROCESS_MS ∧
  d ≤ Z.max (last_data h + THRESHOLD_RECEIVE_IDLE_MS) (last_start h + THRESHOLD_REPROCESS_MS) ∧
  (∀ f l, h_unseen h = f :: l → d ≤ Z.max f (last_start h) + THRESHOLD_REPROCESS_MS) ∧
  (last_start h + THRESHOLD_REPROCESS_MS ≤ d ∨ ∃ f l, h_unseen h = f :: l ∧ silent h f).
Proof.
  intros [Hb Hp Hr Hs Hu Hk] [Ht Hl Hf] Hd. unfold process_at, THRESHOLD_RECEIVE_IDLE_MS, THRESHOLD_REPROCESS_MS in *.
  destruct (in_progress s); [done|]. destruct (Z.leb_spec (last_received_ms s + 3000) (last_processed_ms s)); [done|]. injection Hd as <-.
  split; [done|]. split; [lia|]. split; [lia|]. split.
  - intros f l Hfl. specialize (Hu f l Hfl). lia.
  - destruct Hk as [Hk|Hk]; [left; lia|by right].
Qed.

(** *** What a step does to the entry and the history of a data set *)

Lemma silent_mono h t t' : t ≤ t' → silent h t → silent h t'.
Proof. unfold silent. lia. Qed.
Lemma history_ok_later t t' h : t ≤ t' → history_ok t h → history_ok t' h.
Proof. intros Ht [H1 H2 H3]. split; [lia|lia|done]. Qed.
Lemma entry_inv_later t t' h o : t ≤ t' → entry_inv t h o → entry_inv t' h o.
Proof.
  intros Ht. destruct o as [s|]; cbn.
  - intros [H1 H2 H3 H4 H5 H6]. by split.
  - intros (H1 & H2 & H3). split; [done|]. split; [done|]. intros Hs. by eapply silent_mono, H3.
Qed.

Definition receive_at (t : Z) (h : History) : History := mkHistory (h_start h) (h_seen h) (h_unseen h ++ [t]) (h_busy h).
Lemma received_history t h : history_ok t h → history_ok t (receive_at t h).
Proof.
  intros [H1 H2 H3]. split; [done|unfold receive_at; rewrite last_data_snoc; lia|]. intros f l Hfl. unfold receive_at in *.
  rewrite last_data_snoc. cbn in Hfl. destruct (h_unseen h) as [|f' l'] eqn:Hu; cbn in Hfl; injection Hfl as <- <-.
  - split; [apply H1|lia].
  - specialize (H3 f' l' eq_refl). change (last_start (mkHistory _ _ _ _)) with (last_start h). lia.
Qed.
Lemma received_entry t h o : history_ok t h → entry_inv t h o → entry_inv t (receive_at t h) (Some (received_state t o)).
Proof.
  intros Hh He. pose proof Hh as [Ht Hl Hf]. destruct o as [s|]; cbn [entry_inv] in *.
  - assert (Hup : process_at s = inr AlreadyUpToDate → h_unseen h = []).
    { intros Hp. destruct (h_unseen h) eqn:Hu; [done|]. exfalso. eapply unseen_due; [exact He|exact Hh|by rewrite Hu|done]. }
    destruct He as [Hb Hp Hr Hs Hu Hk].
    assert (Hlast : last_data (receive_at t h) = t) by apply last_data_snoc.
    change (received_state t (Some s)) with
      (mkViewState (match process_at s with inr AlreadyUpToDate => t | _ => start_of_dataset s end) (last_processed_ms s) (in_progress s) t).
    split; cbn [in_progress last_processed_ms last_received_ms start_of_dataset]; try done.
    + destruct (process_at s) as [|[]]; lia.
    + intros f l Hfl. cbn in Hfl. destruct (h_unseen h) as [|f' l'] eqn:Hun; cbn in Hfl; injection Hfl as <- <-.
      * destruct (process_at s) as [|[]]; lia.
      * specialize (Hu f' l' eq_refl). destruct (process_at s) as [|[]] eqn:Hpa; try lia. by specialize (Hup eq_refl).
    + destruct Hk as [Hk|(f & l & Hfl & Hsil)]; [by left|right]. exists f, (l ++ [t]). cbn. by rewrite Hfl.
  - destruct He as (Hu & Hb & Hst). change (received_state t None) with
      (mkViewState (match process_at (mkViewState t 0 false t) with inr AlreadyUpToDate => t | _ => t end) 0 false t).
    split; cbn [in_progress last_processed_ms last_received_ms start_of_dataset receive_at h_busy h_unseen] in *.
    + done.
    + change (last_start (receive_at t h)) with (last_start h). lia.
    + symmetry. apply last_data_snoc.
    + destruct (process_at _) as [|[]]; lia.
    + rewrite Hu. intros f l [= <- _]. destruct (process_at _) as [|[]]; lia.
    + destruct (h_start h) as [t0|] eqn:Hst0; [right; exists t, []; rewrite Hu; split; [done|]; by apply Hst|left; unfold last_start; cbn; by rewrite Hst0].
Qed.

Definition report (h : History) : History := mkHistory (h_start h) (h_seen h) (h_unseen h) false.
Lemma reported_history t h : history_ok t h → history_ok t (report h).
Proof. intros [H1 H2 H3]. by split. Qed.
Lemma reported_entry t h o : entry_inv t h o → entry_inv t (report h) (set_idle <$> o).
Proof.
  destruct o as [s|]; cbn; [|intros (H1 & H2 & H3); by split].
  intros [H1 H2 H3 H4 H5 H6]. by split.
Qed.

Definition start_at (t : Z) (h : History) : History := mkHistory (Some t) (last_data h) [] true.
Lemma started_history t h : history_ok t h → history_ok t (start_at t h).
Proof. intros [H1 H2 H3]. split; cbn; [lia|done|done]. Qed.
Lemma started_entry t h s : history_ok t h → entry_ok t h s → entry_ok t (start_at t h) (set_started t s).
Proof.
  intros [Ht Hl _] [H1 H2 H3 H4 H5 H6]. unfold set_started, start_at. split; cbn; try done; [|by left].
  change (last_start _) with t. lia.
Qed.

Lemma stale_entry t h s : history_ok t h → entry_ok t h s → stale t s → entry_inv t h None.
Proof.
  intros Hh He [Hp Hst]. cbn.
  assert (Hu : h_unseen h = []).
  { destruct (h_unseen h) eqn:Hu; [done|]. exfalso. eapply unseen_due; [exact He|exact Hh|by rewrite Hu|done]. }
  destruct He as [Hb _ Hr _ _ _]. split; [done|]. split.
  - rewrite <- Hb. destruct (in_progress s) eqn:Hi; [apply process_at_busy in Hi; congruence|done].
  - intros _. unfold silent. unfold last_data in Hr. rewrite Hu in Hr. cbn in Hr. by rewrite <- Hr.
Qed.
Lemma cleaned_entry t h o : history_ok t h → entry_inv t h o →
  entry_inv t h (match o with Some s => if decide (stale t s) then None else Some s | None => None end).
Proof. intros Hh He. destruct o as [s|]; [|done]. destruct (decide _); [by eapply stale_entry|done]. Qed.
(** ** The task *)

Section task.
Context (max_parallel_tasks t0 : Z) (Hmax : 0 ≤ max_parallel_tasks) (Ht0 : 0 ≤ t0).
Implicit Types st : ViewsTask DC.

Definition jobs tr st : list (MatViewMsg DC) := running st ++ reporting st ++ panicked tr.

(** No entry that is not being processed is due before the timer. *)
Definition timer_set st : Prop :=
  place st = Selecting → no_permit st = false → ∀ m s d, queue st !! m = Some s → process_at s = inl d → timer st ≤ d.

Record task_inv tr st : Prop := {
  ti_history m : history_ok (now t0 tr) (history m tr);
  ti_entry m : entry_inv (now t0 tr) (history m tr) (queue st !! m);
  ti_busy m : h_busy (history m tr) = true ↔ m ∈ jobs tr st;
  ti_jobs : NoDup (jobs tr st);
  ti_permits : len (running st) ≤ max_parallel_tasks;
  ti_timer : timer_set st
}.

Lemma jobs_step tr tr' st st' : jobs tr st ≡ₚ jobs tr' st' →
  NoDup (jobs tr st) → NoDup (jobs tr' st') ∧ ∀ m, m ∈ jobs tr st ↔ m ∈ jobs tr' st'.
Proof. intros Hp Hn. split; [by rewrite <- Hp|]. intros m. by rewrite Hp. Qed.

(** A step that only moves the clock on, with the entries cleaned at most. *)
Lemma views_inv_quiet tr e st st' :
  task_inv tr st → now t0 tr ≤ time e → (∀ m h, history_step m h e = h) → jobs tr st ≡ₚ jobs (tr ++ [e]) st' →
  (∀ m, queue st' !! m = queue st !! m ∨
    queue st' !! m = match queue st !! m with Some s => if decide (stale (time e) s) then None else Some s | None => None end) →
  len (running st') ≤ max_parallel_tasks → timer_set st' → task_inv (tr ++ [e]) st'.
Proof.
  intros [Hh He Hb Hj Hp Ht] Hnow Hq Hjobs Hqueue Hp' Ht'. destruct (jobs_step _ _ _ _ Hjobs Hj) as [Hj' Hin].
  split; try done; intros m; rewrite ?now_snoc, ?history_snoc, ?Hq.
  - by eapply history_ok_later, Hh.
  - pose proof (entry_inv_later _ (time e) _ _ Hnow (He m)) as He'. destruct (Hqueue m) as [->| ->]; [done|].
    apply cleaned_entry; [by eapply history_ok_later, Hh|done].
  - by rewrite Hb, Hin.
Qed.

Lemma task_inv_step tr e st st' :
  task_inv tr st → now t0 tr ≤ time e → task_step max_parallel_tasks st e st' → task_inv (tr ++ [e]) st'.
Proof.
  intros Hinv Hnow Hstep. pose proof Hinv as [Hh He Hb Hj Hp Ht].
  assert (Hh' : ∀ m, history_ok (time e) (history m tr)) by (intros m; by eapply history_ok_later, Hh).
  assert (He' : ∀ m, entry_inv (time e) (history m tr) (queue st !! m)) by (intros m; by eapply entry_inv_later, He).
  unfold timer_set, jobs in *.
  destruct Hstep as [q d t np run rep clk|q d t np run rep clk _|q d t np run rep1 msg rep2 clk|q d t np run rep msg clk
    |q q' d t np run rep entries msg clk Hrun Hperm Hnext|q q' d t np run rep entries r clk Hrun Hperm Hnext d'
    |q d t np run rep clk Hfull|p q d t np run1 msg run2 rep clk|p q d t np run1 msg run2 rep clk|until q d t np run rep clk _];
    cbn [time queue running reporting place timer no_permit] in *.
  - eapply views_inv_quiet; [exact Hinv|exact Hnow|done| |by left|done|done]. unfold jobs. by rewrite panicked_snoc, app_nil_r.
  - eapply views_inv_quiet; [exact Hinv|exact Hnow|done| |by left|done|done]. unfold jobs. by rewrite panicked_snoc, app_nil_r.
  - assert (Hhist : ∀ m, history m (tr ++ [EFeedback msg clk]) = if decide (msg = m) then report (history m tr) else history m tr)
      by (intros m; by rewrite history_snoc).
    assert (Hd : jobs tr (mkTask Selecting q d t np run (rep1 ++ msg :: rep2)) ≡ₚ msg :: (run ++ (rep1 ++ rep2) ++ panicked tr))
      by (unfold jobs; cbn; solve_Permutation).
    unfold jobs in Hd. cbn in Hd. rewrite Hd in Hj. apply NoDup_cons in Hj as [Hout Hj].
    split; unfold timer_set, jobs; cbn; rewrite ?now_snoc, ?panicked_snoc, ?app_nil_r; try done; intros m; rewrite Hhist.
    + case_decide; [by apply reported_history|apply Hh'].
    + unfold mark_done. destruct (decide (msg = m)) as [->|Hne]; [rewrite lookup_alter_eq; apply reported_entry, He'|by rewrite lookup_alter_ne].
    + case_decide as Hm; [subst; split; [done|intros ?; done]|]. rewrite Hb, Hd, elem_of_cons. naive_solver.
  - assert (Hhist : ∀ m, history m (tr ++ [EReceived msg clk]) = if decide (msg = m) then receive_at clk (history m tr) else history m tr)
      by (intros m; by rewrite history_snoc).
    split; unfold timer_set, jobs; cbn; rewrite ?now_snoc, ?panicked_snoc, ?app_nil_r; try done; intros m; rewrite Hhist.
    + case_decide; [by apply received_history|apply Hh'].
    + unfold update_last_received. cbn. destruct (decide (msg = m)) as [->|Hne].
      * rewrite lookup_insert_eq. by apply received_entry.
      * by rewrite lookup_insert_ne.
    + case_decide; [subst; apply Hb|apply Hb].
  - assert (Hhist : ∀ m, history m (tr ++ [EStarted msg clk]) = if decide (msg = m) then start_at clk (history m tr) else history m tr)
      by (intros m; by rewrite history_snoc).
    destruct (next_to_process_run _ _ _ _ _ Hperm Hnext) as (s & d0 & Hs & Hdue & _ & Hq'). pose proof (He' msg) as Hem. rewrite Hs in Hem.
    destruct (due_bounds _ _ _ _ Hem (Hh' msg) Hdue) as (Hidle & _).
    assert (Hd : jobs tr (mkTask Spawning q' d t np (run ++ [msg]) rep) ≡ₚ msg :: (run ++ rep ++ panicked tr))
      by (unfold jobs; cbn; solve_Permutation).
    split; unfold timer_set; try done.
    + intros m. rewrite now_snoc, Hhist. case_decide; [by apply started_history|apply Hh'].
    + intros m. rewrite now_snoc, Hhist. cbn. rewrite Hq'. destruct (decide (msg = m)) as [->|Hne].
      * rewrite decide_True by done. by apply started_entry.
      * rewrite decide_False by done. by apply cleaned_entry.
    + intros m. rewrite Hhist. unfold jobs in *. cbn in *. rewrite panicked_snoc, app_nil_r, Hd, elem_of_cons, <- Hb.
      case_decide as Hm; [subst; cbn; naive_solver|naive_solver].
    + unfold jobs in *. cbn in *. rewrite panicked_snoc, app_nil_r, Hd. apply NoDup_cons. split; [|done]. rewrite <- Hb. by rewrite Hidle.
    + cbn. unfold len in *. rewrite length_app. cbn. lia.
  - destruct (next_to_process_run _ _ _ _ _ Hperm Hnext) as [Hq' Hr]. eapply views_inv_quiet; [exact Hinv|exact Hnow|done| |by right|done|].
    { unfold jobs. by rewrite panicked_snoc, app_nil_r. }
    intros _ _ m s dl. cbn. rewrite Hq'. destruct (q !! m) as [s'|] eqn:Hm; [|done]. case_decide; [done|]. intros [= ->] Hdl.
    destruct r as [d0|]; [|by destruct (Hr _ _ _ Hm Hdl)]. destruct Hr as ((m0 & s0 & Hm0 & Hd0) & Hlt & Hmin).
    pose proof (He' m0) as Hem. rewrite Hm0 in Hem. destruct (due_bounds _ _ _ _ Hem (Hh' m0) Hd0) as (_ & Hbound & _).
    unfold THRESHOLD_REPROCESS_MS in Hbound. specialize (Hmin _ _ _ Hm Hdl). unfold d', as_u64. rewrite Z.mod_small by lia. lia.
  - eapply views_inv_quiet; [exact Hinv|exact Hnow|done| |by left|done|done]. unfold jobs. by rewrite panicked_snoc, app_nil_r.
  - eapply views_inv_quiet; [exact Hinv|exact Hnow|done| |by left| |done].
    + unfold jobs. rewrite panicked_snoc, app_nil_r. cbn. solve_Permutation.
    + cbn. unfold len in *. rewrite length_app in *. cbn in Hp. lia.
  - eapply views_inv_quiet; [exact Hinv|exact Hnow|done| |by left| |done].
    + unfold jobs. rewrite panicked_snoc. cbn. solve_Permutation.
    + cbn. unfold len in *. rewrite length_app in *. cbn in Hp. lia.
  - eapply views_inv_quiet; [exact Hinv|exact Hnow|done| |by left|done|done]. unfold jobs. by rewrite panicked_snoc, app_nil_r.
Qed.

Lemma run_inv tr st : task_run max_parallel_tasks t0 tr st → clocked t0 tr → task_inv tr st.
Proof using Hmax Ht0.
  induction 1 as [|tr e st st' _ IH Hstep].
  - intros _. split; cbn; try done.
    + intros m. split; [done|]. by intros ?%not_elem_of_nil.
    + constructor.
  - intros [Hc Hnow]%clocked_snoc. by eapply task_inv_step; [apply IH| |].
Qed.

Lemma run_prefix tr1 e tr2 st :
  task_run max_parallel_tasks t0 (tr1 ++ e :: tr2) st →
  ∃ st1 st2, task_run max_parallel_tasks t0 tr1 st1 ∧ task_step max_parallel_tasks st1 e st2.
Proof.
  revert st. induction tr2 as [|e' tr2 IH] using rev_ind; intros st Hrun.
  - inversion Hrun as [Hnil|tr e0 st1 st2 Hr Hs Heq]; subst; [by destruct tr1|]. apply app_inj_tail in Heq as [-> ->]. by exists st1, st.
  - rewrite app_comm_cons, app_assoc in Hrun. inversion Hrun as [Hnil|tr e0 st1 st2 Hr Hs Heq]; subst; [by destruct tr1|].
    apply app_inj_tail in Heq as [-> ->]. by eapply IH.
Qed.
Lemma clocked_prefix tr1 tr2 : clocked t0 (tr1 ++ tr2) → clocked t0 tr1.
Proof.
  induction tr2 as [|e tr2 IH] using rev_ind; [by rewrite app_nil_r|]. rewrite app_assoc. intros [? _]%clocked_snoc. by apply IH.
Qed.

(** When the task last went to sleep with a permit free. *)
Definition asleep_since tr : Z := foldl (λ (z : Z) (e : TaskEvent DC), match e with ENotReady _ t => t | _ => z end) t0 tr.

Lemma timer_after_sleep tr st :
  task_run max_parallel_tasks t0 tr st → clocked t0 tr → place st = Selecting → no_permit st = false → asleep_since tr < timer st.
Proof using Hmax Ht0.
  induction 1 as [|tr e st st' Hrun IH Hstep].
  { intros _ _ _. cbn. unfold asleep_since, IDLE_DELAY_MS. cbn. lia. }
  intros [Hc Hnow]%clocked_snoc. pose proof (run_inv _ _ Hrun Hc) as [Hh He _ _ _ _]. specialize (IH Hc). unfold asleep_since in *. rewrite foldl_snoc.
  destruct Hstep as [q d t np run rep clk|q d t np run rep clk _|q d t np run rep1 msg rep2 clk|q d t np run rep msg clk
    |q q' d t np run rep entries msg clk Hfree Hperm Hnext|q q' d t np run rep entries r clk Hfree Hperm Hnext d'
    |q d t np run rep clk Hfull|p q d t np run1 msg run2 rep clk|p q d t np run1 msg run2 rep clk|until q d t np run rep clk _]; try done.
  intros _ _. cbn in *. destruct (next_to_process_run _ _ _ _ _ Hperm Hnext) as [_ Hr].
  destruct r as [d0|]; [|unfold d', IDLE_DELAY_MS; lia]. destruct Hr as ((m0 & s0 & Hm0 & Hd0) & Hlt & _).
  pose proof (He m0) as Hem. rewrite Hm0 in Hem. destruct (due_bounds _ _ _ _ Hem (Hh m0) Hd0) as (_ & Hbound & _).
  unfold d', as_u64. unfold THRESHOLD_REPROCESS_MS in *. rewrite Z.mod_small by lia. lia.
Qed.
End task.

(** C22: no data set is forgotten or left for long.  While the task sleeps after it found no
    job to start, every data set with data that no job has seen is either with a job that
    has not reported or in the queue, due at most 3 seconds after its last data and at most
    60 seconds after the first that no job has seen, or when its last job is 60 seconds ago
    if that is later; and the task wakes no later than that, having slept since before.  The
    exception is a job that panicked: its data set counts as in progress for good. *)
Theorem views_processed_in_time n t0 tr st m f l :
  0 ≤ n → 0 ≤ t0 → task_run n t0 tr st → clocked t0 tr →
  place st = Selecting → no_permit st = false → h_unseen (history m tr) = f :: l →
  m ∈ running st ++ reporting st ++ panicked tr ∨
  ∃ s d, queue st !! m = Some s ∧ process_at s = inl d ∧ asleep_since t0 tr < timer st ≤ d ∧
    let limit := last_start (history m tr) + THRESHOLD_REPROCESS_MS in
    d ≤ Z.max (last_data (history m tr) + THRESHOLD_RECEIVE_IDLE_MS) limit ∧ d ≤ Z.max (f + THRESHOLD_REPROCESS_MS) limit.
Proof.
  intros Hn Ht0 Hrun Hc Hplace Hpermit Hf. pose proof (run_inv _ _ Hn Ht0 _ _ Hrun Hc) as [Hh He Hb _ _ Ht].
  specialize (He m). destruct (queue st !! m) as [s|] eqn:Hs; [|by destruct He as [He _]; rewrite Hf in He].
  destruct (process_at s) as [d|r] eqn:Hd.
  - right. exists s, d. destruct (due_bounds _ _ _ _ He (Hh m) Hd) as (_ & _ & H1 & H2 & _). specialize (H2 f l Hf).
    pose proof (timer_after_sleep _ _ Hn Ht0 _ _ Hrun Hc Hplace Hpermit). specialize (Ht Hplace Hpermit m s d Hs Hd).
    split; [done|]. split; [done|]. split; [lia|]. cbv zeta. lia.
  - left. apply Hb. destruct r; [|by destruct (unseen_due _ _ _ He (Hh m)); rewrite ?Hf].
    apply process_at_busy in Hd. destruct He as [He _ _ _ _ _]. by rewrite <- He.
Qed.

(** C23: at most one job has a data set, at most as many as permitted run, and a data set is
    processed again after 60 seconds at the earliest; after a silence of more than eight
    hours, when its entry may be gone, a new one may be processed at once. *)
Theorem view_jobs_exclusive n t0 tr st :
  0 ≤ n → 0 ≤ t0 → task_run n t0 tr st → clocked t0 tr →
  NoDup (running st ++ reporting st ++ panicked tr) ∧ len (running st) ≤ n ∧
  ∀ tr1 m t tr2, tr = tr1 ++ EStarted m t :: tr2 →
    h_busy (history m tr1) = false ∧
    (last_start (history m tr1) + THRESHOLD_REPROCESS_MS ≤ t ∨ ∃ f l, h_unseen (history m tr1) = f :: l ∧ silent (history m tr1) f).
Proof.
  intros Hn Ht0 Hrun Hc. pose proof (run_inv _ _ Hn Ht0 _ _ Hrun Hc) as [_ _ _ Hj Hp _]. split; [done|]. split; [done|].
  intros tr1 m t tr2 ->. destruct (run_prefix _ _ _ _ _ _ Hrun) as (st1 & st2 & Hrun1 & Hstep).
  pose proof (run_inv _ _ Hn Ht0 _ _ Hrun1 (clocked_prefix _ _ _ Hc)) as [Hh He _ _ _ _].
  inversion Hstep as [| | | |q q' d t' np run rep entries m' clk Hfree Hperm Hnext| | | | |]; subst.
  destruct (next_to_process_run _ _ _ _ _ Hperm Hnext) as (s & d0 & Hs & Hdue & Hle & _). specialize (He m). cbn in He. rewrite Hs in He.
  destruct (due_bounds _ _ _ _ He (Hh m) Hdue) as (Hidle & _ & _ & _ & Hrate). split; [done|]. destruct Hrate as [Hrate|Hrate]; [left; lia|by right].
Qed.

(** A data set whose job panicked is never processed again. *)
Lemma panicked_never_processed n t0 tr1 tr2 st m t :
  0 ≤ n → 0 ≤ t0 → task_run n t0 (tr1 ++ tr2) st → clocked t0 (tr1 ++ tr2) → m ∈ panicked tr1 → EStarted m t ∉ tr2.
Proof.
  intros Hn Ht0 Hrun Hc Hpan Hin. apply list_elem_of_split in Hin as (l1 & l2 & ->). rewrite app_assoc in Hrun, Hc.
  destruct (run_prefix _ _ _ _ _ _ Hrun) as (st1 & st2 & Hrun1 & Hstep).
  pose proof (run_inv _ _ Hn Ht0 _ _ Hrun1 (clocked_prefix _ _ _ Hc)) as [Hh He Hb _ _ _].
  inversion Hstep as [| | | |q q' d t' np run rep entries m' clk Hfree Hperm Hnext| | | | |]; subst.
  destruct (next_to_process_run _ _ _ _ _ Hperm Hnext) as (s & d0 & Hs & Hdue & _). specialize (He m). cbn in He. rewrite Hs in He.
  destruct (due_bounds _ _ _ _ He (Hh m) Hdue) as (Hidle & _). assert (h_busy (history m (tr1 ++ l1)) = true) as Hbusy; [|congruence].
  apply Hb. unfold jobs, panicked. rewrite omap_app, !elem_of_app. auto.
Qed.
End scheduler.

(** ** A run *)

Module DemoViews.
Definition a : MatViewMsg bool := mkMsg true "set1".
Definition b : MatViewMsg bool := mkMsg false "set1".

(** Data for [a] is processed after 3 seconds of silence; data comes while its job runs,
    and for [b]. *)
Definition demo_trace : list (TaskEvent bool) :=
  [EReceived a 100000; ENotReady (TryAgainAt 103000) 100000; EDelay 103000; EStarted a 103000; ENotReady QueueEmpty 103000;
   EReceived a 104000; ENotReady QueueEmpty 104000; EFinished a 105000; EFeedback a 105000; ENotReady (TryAgainAt 163000) 105000].
Definition demo_state : ViewsTask bool :=
  mkTask Selecting {[ a := mkViewState 100000 103000 false 104000 ]} 58000 163000 false [] [].

Lemma views_demo_run : task_run 2 100000 demo_trace demo_state.
Proof.
  change demo_trace with ((((((((((([] ++ [EReceived a 100000]) ++ [ENotReady (TryAgainAt 103000) 100000]) ++ [EDelay 103000]) ++ [EStarted a 103000])
    ++ [ENotReady QueueEmpty 103000]) ++ [EReceived a 104000]) ++ [ENotReady QueueEmpty 104000]) ++ [EFinished a 105000]) ++ [EFeedback a 105000])
    ++ [ENotReady (TryAgainAt 163000) 105000])).
  eapply run_step; [eapply run_step; [eapply run_step; [eapply run_step; [eapply run_step; [eapply run_step;
    [eapply run_step; [eapply run_step; [eapply run_step; [eapply run_step; [apply run_start|]|]|]|]|]|]|]|]|]|].
  - apply StReceived.
  - by eapply StNotReady.
  - by apply StDelay.
  - by eapply StStarted.
  - by eapply StNotReady.
  - apply StReceived.
  - by eapply StNotReady.
  - apply (StFinished 2 Selecting _ _ _ _ [] a [] []).
  - apply (StFeedback 2 _ _ _ _ [] [] a []).
  - by eapply (StNotReady 2 _ _ _ _ _ _ _ _ (TryAgainAt 163000)).
Qed.

Lemma views_processed_in_time_witness :
  a ∈ running demo_state ++ reporting demo_state ++ panicked demo_trace ∨
  ∃ s d, queue demo_state !! a = Some s ∧ process_at s = inl d ∧ asleep_since 100000 demo_trace < timer demo_state ≤ d ∧
    let limit := last_start (history a demo_trace) + THRESHOLD_REPROCESS_MS in
    d ≤ Z.max (last_data (history a demo_trace) + THRESHOLD_RECEIVE_IDLE_MS) limit ∧ d ≤ Z.max (104000 + THRESHOLD_REPROCESS_MS) limit.
Proof.
  apply (views_processed_in_time 2 100000 demo_trace demo_state a 104000 []); [done|done|exact views_demo_run| |done|done|reflexivity].
  by repeat split.
Defined.

Lemma view_jobs_exclusive_witness :
  NoDup (running demo_state ++ reporting demo_state ++ panicked demo_trace) ∧ len (running demo_state) ≤ 2 ∧
  ∀ tr1 m t tr2, demo_trace = tr1 ++ EStarted m t :: tr2 →
    h_busy (history m tr1) = false ∧
    (last_start (history m tr1) + THRESHOLD_REPROCESS_MS ≤ t ∨ ∃ f l, h_unseen (history m tr1) = f :: l ∧ silent (history m tr1) f).
Proof. apply (view_jobs_exclusive 2 100000 demo_trace demo_state); [done|done|exact views_demo_run|by repeat split]. Defined.

(** The tests of the source: an entry is not due at once; a stream that never stops is
    processed after a minute; and stale entries go. *)
Example does_not_trigger_immediately :
  process_at (update_last_received 1000000000 a mat_view_queue_new).1 = inl (1000000000 + THRESHOLD_RECEIVE_IDLE_MS).
Proof. reflexivity. Qed.
Example triggers_even_if_never_idle :
  let q := foldl (λ q i, (update_last_received (1000000000 + 1500 * i) a q).2) mat_view_queue_new (seqZ 0 40) in
  (next_to_process (map_to_list q) (1000000000 + 59999) q).1 = inr (TryAgainAt (1000000000 + 60000)).
Proof. vm_compute. reflexivity. Qed.
Example stale_item_evicted :
  let q := (update_last_received 1000000000 a mat_view_queue_new).2 in
  let q := mark_done a (next_to_process (map_to_list q) (1000000000 + 3000) q).2 in
  let q' := (next_to_process (map_to_list q) (1000000000 + THRESHOLD_STALE_MS + 1) q).2 in
  (size q, size q') = (1%nat, 0%nat).
Proof. vm_compute. reflexivity. Qed.
End DemoViews.
