(* ===== verification/Quectel.v ===== *)
(** * The modem driver

    [drivers/quectel.rs] with [quectel/]: the MQTT driver for Quectel modems, which is
    the [MqttClient] of the protocol client.  AT commands are sent through the trait
    [AtatClient] of the [atat] crate: class [Modem] gives the answer to a command, and the
    unsolicited result codes (URCs) that arrive during a wait, which are known at its
    start ([upcoming]); the messages are taken one by one ([receive]) and the wait that
    takes them all ends with its time-out ([wait_out]).  The responses that the driver parses itself
    ([parse_read]) are bytes.  A loop that does not end is the outcome [Panic].  The demo
    functions [test_http_get] and [test_read_file], the task that feeds the UART into
    [atat], and logging are left out. *)

From Stdlib Require Import Ascii.
From stdpp Require Import base list list_numbers numbers option strings pretty.
From S2P Require Import Prelude Samples Topics Network Client.
#[local] Open Scope Z_scope.

Definition URC_QUEUE_LEN : Z := 6.
Definition MQTT_CONTEXT : Z := 1.
Definition TLS_CONTEXT : Z := 2.
Definition HTTP_CONTEXT : Z := 3.
Definition TMP_FILE : string := "UFS:tmp.file".
Definition TMP_FILE_STORAGE : string := "UFS".
Definition DOWNLOAD_SLICE_LEN : Z := 16000.
Definition SLICE_ATTEMPTS : nat := 3.
Definition HTTP_STOP_URC_WAIT_MS : Z := 3000.
Definition SLICE_RETRY_DELAY_MS : Z := 2000.
Definition GET_HEADER_INPUT_TIME_S : Z := 5.
Definition HTTP_RSP_TIME_S : Z := 30.
Definition HTTP_NEGOTIATE_TIME_S : Z := 20.
Definition MAX_URL_LEN : Z := 128.
Definition MAX_REQUEST_HEADER_LEN : Z := 512.
Definition MAX_FILE_CHUNK_LEN : Z := 600.
Definition MAX_FILENAME_LEN : Z := 20.
Definition CA_FILE : string := "UFS:cacert.pem".
Definition CLIENT_CERT_FILE : string := "UFS:client.crt".
Definition CLIENT_KEY_FILE : string := "UFS:client.key".
Definition DEFAULT_BAUDRATE : Z := 115200.

(** ** Unsolicited result codes *)

Inductive Urc : Type :=
| UModemReady
| UModemOff
| UMQTTOpen (result : Z)
| UMQTTClose (result : Z)
| UMQTTConnect (ret_code : Z)
| UMQTTDisconnect (result : Z)
| UMQTTSubscribe (msg_id result : Z)
| UMQTTUnsubscribe (msg_id result : Z)
| UMQTTPublish (msg_id result : Z)
| UMQTTStatus (err_code : Z)
| UQIURC
| UCREG
| UEREG
| UMQTTReceive (recv_id : Z)
| UHTTPGet (err : Z) (resp content_length : option Z)
| UHTTPReadFile (err : Z).

Inductive UrcVariant : Type :=
| VModemReady | VModemOff | VMQTTOpen | VMQTTClose | VMQTTConnect | VMQTTDisconnect | VMQTTSubscribe
| VMQTTUnsubscribe | VMQTTReceive | VMQTTPublish | VMQTTStatus | VQIURC | VCREG | VEREG | VHTTPGet | VHTTPReadFile.
#[export] Instance UrcVariant_eq_dec : EqDecision UrcVariant.
Proof. solve_decision. Defined.

Definition timeout (v : UrcVariant) : Z :=
  match v with
  | VMQTTOpen => 120000
  | VMQTTClose => 31000
  | VMQTTConnect => 5000
  | VMQTTDisconnect => 30000
  | VMQTTSubscribe => 15000
  | VMQTTUnsubscribe => 15000
  | VMQTTReceive => 0
  | VMQTTPublish => 15000
  | VModemReady => 20000
  | VModemOff => 65000
  | VMQTTStatus => 0
  | VQIURC => 0
  | VCREG => 90000
  | VEREG => 60000
  | VHTTPGet => 60000
  | VHTTPReadFile => 60000
  end.

Definition variant (u : Urc) : UrcVariant :=
  match u with
  | UModemReady => VModemReady
  | UModemOff => VModemOff
  | UMQTTClose _ => VMQTTClose
  | UMQTTConnect _ => VMQTTConnect
  | UMQTTOpen _ => VMQTTOpen
  | UMQTTDisconnect _ => VMQTTDisconnect
  | UMQTTSubscribe _ _ => VMQTTSubscribe
  | UMQTTUnsubscribe _ _ => VMQTTUnsubscribe
  | UMQTTReceive _ => VMQTTReceive
  | UMQTTPublish _ _ => VMQTTPublish
  | UMQTTStatus _ => VMQTTStatus
  | UQIURC => VQIURC
  | UCREG => VCREG
  | UEREG => VEREG
  | UHTTPGet _ _ _ => VHTTPGet
  | UHTTPReadFile _ => VHTTPReadFile
  end.

(** [MQTTPacketResult], parsed from its number; other numbers are [PktUnknown]. *)
Inductive MQTTPacketResult : Type := PktSuccess | PktRetransmission | PktFailed | PktUnknown.
Definition parse_packet (result : Z) : MQTTPacketResult :=
  if result =? 0 then PktSuccess
  else if result =? 1 then PktRetransmission
  else if result =? 2 then PktFailed
  else PktUnknown.

(** [MqttAck::parse_packet_result]: [inl] for the expected message id, [inr] for another. *)
Definition parse_packet_result (msg_id result expected_msg_id : Z) : MQTTPacketResult + MQTTPacketResult :=
  if expected_msg_id =? msg_id then inl (parse_packet result) else inr (parse_packet result).

(** [MQTTReceive], the response to [Receive]. *)
Record MQTTReceive : Type := mkReceive { rx_msg_id : Z; rx_topic : string; rx_payload : list Z }.

(** [CellInfo] of the protocol crate. *)
Inductive Rat : Type := Gsm | Umts | Lte | LteM | NbIot.
Record CellInfo : Type := mkCell { rat : Rat; mcc : Z; mnc : Z; tac : Z; ci : Z; rsrp : option Z }.

(** ** AT commands, with the part of the response that is used *)

Inductive AtCmd : Type → Type :=
| AT : AtCmd unit
| ATE (value : Z) : AtCmd unit
| CPIN : AtCmd unit
| CIMI : AtCmd (list Z)
| CREGQuery : AtCmd Z
| CEREGQuery : AtCmd Z
| GetModelId : AtCmd string
| GetSoftwareVersion : AtCmd string
| GetSignalQuality : AtCmd Z
| GetSimIccid : AtCmd string
| GetServingCell : AtCmd (option CellInfo)
| PowerDown : AtCmd unit
| SetBaudRate (rate : Z) : AtCmd unit
| StoreBaudrate : AtCmd unit
| SetPDPContextDefinition (cid : Z) (pdp_type apn : string) : AtCmd unit
| ActivateContext (cid : Z) : AtCmd unit
| DeactivateContext (cid : Z) : AtCmd unit
| HttpConfig (param : string) (value : Z) : AtCmd unit
| HttpURL (url_length timeout : Z) : AtCmd unit
| GETWithHeader (timeout header_length input_time : Z) : AtCmd unit
| HttpStop : AtCmd unit
| HttpReadFile (file_name : string) (wait_time : Z) : AtCmd unit
| FileSpace (pattern : string) : AtCmd Z
| FileOpen (filename : string) (mode : Z) : AtCmd Z
| FileClose (handle : Z) : AtCmd unit
| FileSeek (handle offset position : Z) : AtCmd unit
| FileRead (handle size : Z) : AtCmd (list Z)
| FileUploadInit (filename : string) (file_size timeout : Z) : AtCmd unit
| FileDelete (filename : string) : AtCmd unit
| MqttConfig (param : string) (client_idx value : Z) (arg : option Z) : AtCmd unit
| MqttConfigWill (client_idx fg qos retain : Z) (topic : string) (msg : list Z) : AtCmd unit
| MqttOpen (client_idx : Z) (host_name : string) (port : Z) : AtCmd unit
| MqttClose (client_idx : Z) : AtCmd unit
| MqttConnect (client_idx : Z) (mqtt_client_id : string) : AtCmd unit
| MqttDisconnect (client_idx : Z) : AtCmd unit
| MqttSubscribe (client_idx msg_id : Z) (topic : string) (qos : Z) : AtCmd unit
| MqttUnsubscribe (client_idx msg_id : Z) (topic : string) : AtCmd unit
| MqttReceive (client_idx recv_id : Z) : AtCmd MQTTReceive
| PublishPrepare (client_idx msg_id qos retain : Z) (topic : string) (msg_len : Z) : AtCmd unit
| SslConfigFile (param : string) (ssl_ctx : Z) (path : string) : AtCmd unit
| SslConfig (param : string) (ssl_ctx arg : Z) : AtCmd unit
| SslCiphersuite (ssl_ctx : Z) : AtCmd unit.

(** [atat::Error], as far as the driver tells its values apart. *)
Inductive AtError : Type := AtTimeout | AtParse | AtCustom | AtOther (code : Z).

(** [Error<atat::Error>] of the protocol crate. *)
Inductive QError : Type := QClient (e : AtError) | QTimeOut | QMQTT (s : string) | QSerialize.
Definition net_error (e : QError) : NetError :=
  match e with
  | QClient _ => ClientError
  | QTimeOut => TimeOut
  | QMQTT _ => MQTT
  | QSerialize => Network.Serialize
  end.

(** *** Responses *)

(** [parse_read]: ["CONNECT "], digits, a line ending, then the bytes.  A response that is
    one byte short is accepted. *)
Fixpoint strip_prefix (p l : list Z) : option (list Z) :=
  match p, l with
  | [], _ => Some l
  | a :: p, b :: l => if a =? b then strip_prefix p l else None
  | _ :: _, [] => None
  end.
Definition is_digit (b : Z) : bool := (48 <=? b) && (b <=? 57).
(** The digits at the front, and their value. *)
Fixpoint digit1 (acc : Z) (l : list Z) : Z * list Z :=
  match l with
  | b :: l' => if is_digit b then digit1 (10 * acc + (b - 48)) l' else (acc, l)
  | [] => (acc, [])
  end.
Definition line_ending (l : list Z) : option (list Z) :=
  match l with
  | 13 :: 10 :: l => Some l
  | 10 :: l => Some l
  | _ => None
  end.
Definition FILE_READ_CAPACITY : Z := 1024.
Definition parse_read (bytes : list Z) : option (list Z) :=
  rest ← strip_prefix (bytes_of "CONNECT ") bytes;
  if match rest with b :: _ => is_digit b | [] => false end then
    let '(size, rest) := digit1 0 rest in
    leftover ← line_ending rest;
    if size <? u32_size then
      let bytes := take (Z.to_nat (Z.min size (len leftover))) leftover in
      if (size <=? len leftover + 1) && (len bytes <=? FILE_READ_CAPACITY) then Some bytes else None
    else None
  else None.

(** Signal strength: [rssi_to_dbm] and [dbm_to_percentage]; [/] truncates. *)
Definition rssi_to_dbm (rssi : Z) : option Z :=
  if rssi =? 0 then Some (-113)
  else if rssi =? 1 then Some (-111)
  else if (2 <=? rssi) && (rssi <=? 30) then Some (-109 + Z.quot ((rssi - 2) * 56) 28)
  else if rssi =? 31 then Some (-51)
  else if rssi =? 99 then None
  else if rssi =? 100 then Some (-116)
  else if rssi =? 101 then Some (-115)
  else if (102 <=? rssi) && (rssi <=? 190) then Some (-114 + Z.quot ((rssi - 102) * 88) 88)
  else if rssi =? 191 then Some (-25)
  else None.
Definition dbm_to_percentage (dbm : Z) : Z :=
  if dbm <? -116 then 0
  else if -25 <? dbm then 100
  else Z.quot ((dbm + 116) * 100) 91.
Definition signal_strength (rssi : Z) : Z := default (-2) (dbm_to_percentage <$> rssi_to_dbm rssi).

(** *** Text *)

Definition lower (a : ascii) : ascii :=
  let n := nat_of_ascii a in
  if ((65 <=? n) && (n <=? 90))%nat then ascii_of_nat (n + 32) else a.
Fixpoint to_ascii_lowercase (s : string) : string :=
  match s with
  | EmptyString => EmptyString
  | String a s => String (lower a) (to_ascii_lowercase s)
  end.
(** [model_id.get(..prefix.len())] is the prefix but for the case of its letters. *)
Fixpoint eq_ignore_ascii_case_prefix (p s : string) : bool :=
  match p, s with
  | EmptyString, _ => true
  | String a p, String b s => bool_decide (lower a = lower b) && eq_ignore_ascii_case_prefix p s
  | String _ _, EmptyString => false
  end.
(** [str::contains] *)
Fixpoint contains (p s : string) : bool :=
  String.prefix p s || match s with EmptyString => false | String _ s => contains p s end.

(** [into_version_string]: at most [VERSION_STRING_MAX_LEN] bytes; the model and version of a
    modem are ASCII. *)
Definition into_version_string (s : string) : string := String.substring 0 (Z.to_nat VERSION_STRING_MAX_LEN) s.

(** *** Access points *)

Definition APN_FALLBACK : string := "internet".
Definition APN_TABLE : list (list Z * string) :=
  [(bytes_of "20408", "internet"); (bytes_of "20412", "internet"); (bytes_of "20469", "internet");
   (bytes_of "23201", "Data0575"); (bytes_of "90140", "iot.1nce.net")].
Fixpoint apn_lookup (table : list (list Z * string)) (imsi : list Z) : string + string :=
  match table with
  | [] => inr APN_FALLBACK
  | (plmn_id, apn) :: table =>
      match strip_prefix plmn_id imsi with Some _ => inl apn | None => apn_lookup table imsi end
  end.

(** ** The outside *)

Class Modem (A : Type) : Type := {
  at_send {R} : AtCmd R → M A AtError R;
  (** [send_bytes] with no response, and with the size of an [Upload]. *)
  at_send_bytes : list Z → Z → M A AtError unit;
  at_upload : list Z → Z → M A AtError Z;
  upcoming : Z → A → list Urc;
  receive : A → A;
  wait_out : Z → A → A;
  q_delay_ms : Z → A → A;
  set_baud_rate : Z → A → A;
  uart_resume : A → A;
  uart_suspend : A → A;
  (** [ERROR_OCCURRED] *)
  rx_error : A → bool;
  clear_rx_error : A → A;
  (** [ModemVariant] *)
  model_prefix : string;
  target_baudrate : option Z;
  persist_baudrate : bool;
  is_powered : A → bool;
  power_on : A → A;
  power_off : A → A;
}.

(** ** The driver *)

Record Config : Type := mkConfig { cfg_host : string; cfg_port : Z; use_tls : bool }.
Record Credentials : Type := mkCredentials { ca_cert : list Z; client_cert : list Z; client_key : list Z }.
Record Download : Type := mkDownload {
  dl_url : string;
  slice_offset : Z;
  slice_len : Z;
  slice_read : Z;
  dl_complete : bool
}.
Definition slice_remaining (d : Download) : Z := slice_len d - slice_read d.

Record Quectel (A : Type) : Type := mkQuectel {
  modem : A;
  unexpected_urc_queue : list Urc;
  config : Config;
  credentials : Credentials;
  first_boot : bool;
  apn : string;
  baudrate_determined : option Z;
  packets_missed : bool;
  last_rx_msg_id : Z;
  next_tx_msg_id : Z;
  file_handle : option Z;
  download : option Download;
  q_urc : option Urc
}.
Arguments mkQuectel {A}.
Arguments modem {A}.
Arguments unexpected_urc_queue {A}.
Arguments config {A}.
Arguments credentials {A}.
Arguments first_boot {A}.
Arguments apn {A}.
Arguments baudrate_determined {A}.
Arguments packets_missed {A}.
Arguments last_rx_msg_id {A}.
Arguments next_tx_msg_id {A}.
Arguments file_handle {A}.
Arguments download {A}.
Arguments q_urc {A}.

Section setters.
Context {A : Type}.
Implicit Types q : Quectel A.
Definition set_modem (v : A) q : Quectel A := mkQuectel v (unexpected_urc_queue q) (config q) (credentials q) (first_boot q) (apn q)
  (baudrate_determined q) (packets_missed q) (last_rx_msg_id q) (next_tx_msg_id q) (file_handle q) (download q) (q_urc q).
Definition set_queue v q : Quectel A := mkQuectel (modem q) v (config q) (credentials q) (first_boot q) (apn q)
  (baudrate_determined q) (packets_missed q) (last_rx_msg_id q) (next_tx_msg_id q) (file_handle q) (download q) (q_urc q).
Definition set_first_boot v q : Quectel A := mkQuectel (modem q) (unexpected_urc_queue q) (config q) (credentials q) v (apn q)
  (baudrate_determined q) (packets_missed q) (last_rx_msg_id q) (next_tx_msg_id q) (file_handle q) (download q) (q_urc q).
Definition set_apn v q : Quectel A := mkQuectel (modem q) (unexpected_urc_queue q) (config q) (credentials q) (first_boot q) v
  (baudrate_determined q) (packets_missed q) (last_rx_msg_id q) (next_tx_msg_id q) (file_handle q) (download q) (q_urc q).
Definition set_baudrate v q : Quectel A := mkQuectel (modem q) (unexpected_urc_queue q) (config q) (credentials q) (first_boot q) (apn q)
  v (packets_missed q) (last_rx_msg_id q) (next_tx_msg_id q) (file_handle q) (download q) (q_urc q).
Definition set_missed v q : Quectel A := mkQuectel (modem q) (unexpected_urc_queue q) (config q) (credentials q) (first_boot q) (apn q)
  (baudrate_determined q) v (last_rx_msg_id q) (next_tx_msg_id q) (file_handle q) (download q) (q_urc q).
Definition set_last_rx v q : Quectel A := mkQuectel (modem q) (unexpected_urc_queue q) (config q) (credentials q) (first_boot q) (apn q)
  (baudrate_determined q) (packets_missed q) v (next_tx_msg_id q) (file_handle q) (download q) (q_urc q).
Definition set_next_tx v q : Quectel A := mkQuectel (modem q) (unexpected_urc_queue q) (config q) (credentials q) (first_boot q) (apn q)
  (baudrate_determined q) (packets_missed q) (last_rx_msg_id q) v (file_handle q) (download q) (q_urc q).
Definition set_handle v q : Quectel A := mkQuectel (modem q) (unexpected_urc_queue q) (config q) (credentials q) (first_boot q) (apn q)
  (baudrate_determined q) (packets_missed q) (last_rx_msg_id q) (next_tx_msg_id q) v (download q) (q_urc q).
Definition set_download v q : Quectel A := mkQuectel (modem q) (unexpected_urc_queue q) (config q) (credentials q) (first_boot q) (apn q)
  (baudrate_determined q) (packets_missed q) (last_rx_msg_id q) (next_tx_msg_id q) (file_handle q) v (q_urc q).
Definition set_q_urc v q : Quectel A := mkQuectel (modem q) (unexpected_urc_queue q) (config q) (credentials q) (first_boot q) (apn q)
  (baudrate_determined q) (packets_missed q) (last_rx_msg_id q) (next_tx_msg_id q) (file_handle q) (download q) v.
End setters.

Section driver.
Context {A : Type} `{!Modem A}.

Abbreviation MQ := (M (Quectel A) QError).

Definition quectel_new (m : A) (config : Config) (credentials : Credentials) : Quectel A :=
  mkQuectel m [] config credentials true APN_FALLBACK
    (match target_baudrate with None => Some DEFAULT_BAUDRATE | Some _ => None end)
    false 0 0 None None None.

(** *** Calls of the modem *)

Definition on_modem {E R} (c : M A E R) : M (Quectel A) E R := zoom modem set_modem c.
Definition outside {E} (f : A → A) : M (Quectel A) E unit := modify (λ q, set_modem (f (modem q)) q).
Definition delay_ms {E} (t : Z) : M (Quectel A) E unit := outside (q_delay_ms t).

(** [self.client.send(&cmd).await.map_err(Error::Client)], and with its result at hand. *)
Definition send {R} (c : AtCmd R) : MQ R := map_err QClient (on_modem (at_send c)).
Definition try_send {E R} (c : AtCmd R) : M (Quectel A) E (caught AtError R) := attempt (on_modem (at_send c)).
Definition send_bytes (bytes : list Z) (timeout : Z) : MQ unit := map_err QClient (on_modem (at_send_bytes bytes timeout)).

(** [client.send] of a [Read]: the response is parsed by [parse_read]. *)
Definition send_read (handle size : Z) : M (Quectel A) AtError (list Z) :=
  bytes ← on_modem (at_send (FileRead handle size));
  match parse_read bytes with
  | Some bytes => mret bytes
  | None => fail AtParse
  end.

(** *** URCs *)

(** [heapless]'s [spsc::Queue] of size [URC_QUEUE_LEN] has room for one less; a URC that
    finds it full is lost. *)
Definition unexpected_urc {E} (u : Urc) : M (Quectel A) E unit :=
  modify (λ q, if len (unexpected_urc_queue q) <? URC_QUEUE_LEN - 1 then set_queue (unexpected_urc_queue q ++ [u]) q else q).

(** [inner_await_urc] with a time-out. *)
Fixpoint await_loop {E} (v : UrcVariant) (t : Z) (l : list Urc) : M (Quectel A) E (option Urc) :=
  match l with
  | [] => outside (wait_out t);; mret None
  | u :: l =>
      outside receive;;
      if bool_decide (variant u = v) then mret (Some u)
      else unexpected_urc u;; await_loop v t l
  end.
Definition await_urc_for {E} (v : UrcVariant) (t : Z) : M (Quectel A) E (option Urc) :=
  l ← gets (λ q, upcoming t (modem q));
  await_loop v t l.
Definition await_urc {E} (v : UrcVariant) : M (Quectel A) E (option Urc) := await_urc_for v (timeout v).

(** The future of [await_acked_with_timeout], with the loop of [inner_await_urc]. *)
Fixpoint ack_loop (v : UrcVariant) (expected_msg_id t : Z) (default_error : QError) (l : list Urc) : MQ unit :=
  match l with
  | [] => outside (wait_out t);; fail QTimeOut
  | u :: l =>
      outside receive;;
      if bool_decide (variant u = v) then
        let packet_result := match u with
                             | UMQTTSubscribe msg_id result => Some (parse_packet_result msg_id result expected_msg_id)
                             | UMQTTUnsubscribe msg_id result => Some (parse_packet_result msg_id result expected_msg_id)
                             | UMQTTPublish msg_id result => Some (parse_packet_result msg_id result expected_msg_id)
                             | _ => None
                             end in
        match packet_result with
        | None => fail (QClient AtCustom)
        | Some (inl PktSuccess) => mret tt
        | Some (inl _) => fail default_error
        | Some (inr _) => ack_loop v expected_msg_id t default_error l
        end
      else unexpected_urc u;; ack_loop v expected_msg_id t default_error l
  end.
Definition await_acked_with_timeout (v : UrcVariant) (expected_msg_id : Z) (default_error : QError) : MQ unit :=
  l ← gets (λ q, upcoming (timeout v) (modem q));
  ack_loop v expected_msg_id (timeout v) default_error l.

Definition next_msg_id (q : Quectel A) : Z := if next_tx_msg_id q =? u16_max then 1 else next_tx_msg_id q + 1.
Definition tx_msg_id : MQ Z :=
  next_id ← gets next_msg_id;
  modify (set_next_tx next_id);;
  mret next_id.

(** *** Files of the modem *)

Definition filename_try_from (s : string) : MQ string :=
  if str_len s <=? MAX_FILENAME_LEN then mret s else fail QSerialize.

Definition close_file : MQ unit :=
  h ← gets file_handle;
  match h with
  | Some handle => modify (set_handle None);; send (FileClose handle)
  | None => mret tt
  end.
Definition delete_file (filename : string) : MQ unit :=
  filename ← filename_try_from filename;
  send (FileDelete filename).

Definition read_file_chunk (filename : string) (chunk_size : Z) : MQ (option (list Z)) :=
  if MAX_FILE_CHUNK_LEN <? chunk_size then fail QSerialize
  else
    h ← gets file_handle;
    (match h with
     | Some _ => mret tt
     | None =>
         filename ← filename_try_from filename;
         handle ← send (FileOpen filename 0);
         modify (set_handle (Some handle));;
         send (FileSeek handle 0 0)
     end);;
    h ← gets file_handle;
    match h with
    | Some handle =>
        r ← attempt (send_read handle chunk_size);
        match r with
        | inl bytes => mret (Some (take (Z.to_nat (Z.min (len bytes) chunk_size)) bytes))
        | inr _ => mret None
        end
    | None => mret None
    end.

Definition upload_file (filename : string) (contents : list Z) : MQ unit :=
  filename ← filename_try_from filename;
  send (FileUploadInit filename (as_u32 (len contents)) 60);;
  size ← map_err QClient (on_modem (at_upload contents 300000));
  if len contents =? size then mret tt else fail QSerialize.

(** The loop of [ensure_provisioned]: whether the file has to be updated.  It does not end
    if the modem keeps answering with no bytes. *)
Fixpoint compare_loop (fuel : nat) (filename : string) (reference_content : list Z) (offset : Z) : MQ bool :=
  match fuel with
  | O => panic
  | S fuel =>
      if offset <? len reference_content then
        r ← read_file_chunk filename MAX_FILE_CHUNK_LEN;
        match r with
        | Some content =>
            let end_ := offset + len content in
            if len reference_content <? end_ then mret true
            else if negb (bool_decide (content = slice offset end_ reference_content)) then mret true
            else compare_loop fuel filename reference_content end_
        | None => mret true
        end
      else mret false
  end.
Definition ensure_provisioned (filename : string) (reference_content : list Z) : MQ unit :=
  if bool_decide (reference_content = []) then mret tt
  else
    needs_update ← compare_loop (Datatypes.S (length reference_content)) filename reference_content 0;
    attempt (E' := QError) close_file;;
    if needs_update : bool then
      attempt (E' := QError) (delete_file filename);;
      upload_file filename reference_content
    else mret tt.
Definition ensure_provisioned_all : MQ unit :=
  c ← gets credentials;
  ensure_provisioned CA_FILE (ca_cert c);;
  ensure_provisioned CLIENT_CERT_FILE (client_cert c);;
  ensure_provisioned CLIENT_KEY_FILE (client_key c).

(** *** Power, baud rate and initialization *)

Definition negotiate_baudrate (target_rate default_rate : Z) : MQ unit :=
  outside (set_baud_rate target_rate);;
  delay_ms 1;;
  try_send (E := QError) AT;;
  r ← try_send AT;
  match r with
  | inl _ => mret tt
  | inr _ =>
      outside (set_baud_rate default_rate);;
      delay_ms 1;;
      try_send (E := QError) AT;;
      r ← try_send AT;
      match r with
      | inr _ => fail QTimeOut
      | inl _ =>
          r ← try_send (SetBaudRate target_rate);
          (match r with inl _ => outside (set_baud_rate target_rate) | inr _ => mret tt end);;
          delay_ms 500;;
          try_send (E := QError) AT;;
          r ← try_send AT;
          match r with
          | inr _ => fail QTimeOut
          | inl _ =>
              model_id ← send GetModelId;
              if eq_ignore_ascii_case_prefix model_prefix model_id then
                delay_ms 1;;
                if persist_baudrate then try_send (E := QError) StoreBaudrate;; mret tt else mret tt
              else fail QTimeOut
          end
      end
  end.

Definition turn_on : MQ unit :=
  powered ← gets (λ q, is_powered (modem q));
  if powered : bool then outside uart_resume
  else
    (if persist_baudrate then mret tt
     else modify (set_baudrate None);; outside (set_baud_rate DEFAULT_BAUDRATE));;
    outside power_on;;
    outside uart_resume;;
    await_urc (E := QError) VModemReady;;
    mret tt.

(** The loop over [CPIN]: [retries] is the number of attempts left. *)
Fixpoint cpin_loop (retries : nat) : MQ unit :=
  match retries with
  | O => mret tt
  | S retries =>
      r ← try_send CPIN;
      match r with
      | inl _ => mret tt
      | inr err =>
          delay_ms 1000;;
          if bool_decide (retries = O) then fail (QClient err)
          else send (ATE 0);; cpin_loop retries
      end
  end.

(** An IMSI that is not UTF-8 is refused: it is not ASCII digits. *)
Definition try_autodetect_apn : MQ unit :=
  r ← try_send CIMI;
  modify (set_apn (match r with
                   | inr _ => APN_FALLBACK
                   | inl imsi => match apn_lookup APN_TABLE imsi with inl a | inr a => a end
                   end)).

Definition modem_model {E} : M (Quectel A) E string :=
  r ← try_send GetModelId;
  mret match r with inl s => into_version_string s | inr _ => "" end.
Definition modem_fw_version {E} : M (Quectel A) E string :=
  r ← try_send GetSoftwareVersion;
  mret match r with inl s => into_version_string s | inr _ => "" end.

Definition initialize : MQ unit :=
  turn_on;;
  b ← gets baudrate_determined;
  (match b with
   | Some baudrate =>
       outside (set_baud_rate baudrate);;
       delay_ms 1;;
       try_send (E := QError) AT;;
       r ← try_send AT;
       match r with inl _ => mret tt | inr _ => fail QTimeOut end
   | None =>
       let target := default DEFAULT_BAUDRATE target_baudrate in
       r ← attempt (negotiate_baudrate target DEFAULT_BAUDRATE);
       match r with
       | inl _ => modify (set_baudrate (Some target))
       | inr _ =>
           modify (set_baudrate (Some DEFAULT_BAUDRATE));;
           outside (set_baud_rate DEFAULT_BAUDRATE);;
           fail QTimeOut
       end
   end);;
  send (ATE 0);;
  cpin_loop 20;;
  try_autodetect_apn;;
  first ← gets first_boot;
  if first : bool then
    r ← attempt ensure_provisioned_all;
    match r with
    | inl _ => modify (set_first_boot false)
    | inr (QClient AtTimeout) =>
        model ← modem_model;
        if contains model_prefix (to_ascii_lowercase model) then mret tt else fail (QClient AtTimeout)
    | inr _ => mret tt
    end
  else mret tt.

(** The messages that are already there are taken out. *)
Definition deinitialize : MQ unit :=
  r ← try_send PowerDown;
  (match r with
   | inl _ => await_urc (E := QError) VModemOff;; mret tt
   | inr _ => mret tt
   end);;
  delay_ms 1000;;
  outside uart_suspend;;
  outside power_off;;
  l ← gets (λ q, upcoming 0 (modem q));
  modify (λ q, set_modem (Nat.iter (length (l : list Urc)) receive (modem q)) q);;
  modify (set_queue []).

(** *** HTTP download *)

Definition deactivate_context (cid : Z) : MQ unit :=
  map_err (λ _ : AtError, QMQTT "Deactivate Context") (on_modem (at_send (DeactivateContext cid))).

(** The loop over [CREGQuery] or [CEREGQuery]; it goes on when the network is never found. *)
Fixpoint register_loop (query : AtCmd Z) (retries : nat) : MQ unit :=
  match retries with
  | O => mret tt
  | S retries =>
      r ← try_send query;
      if match r with inl stat => (stat =? 1) || (stat =? 5) | inr _ => false end then mret tt
      else delay_ms 1000;; register_loop query retries
  end.
Definition set_pdp_context (cid : Z) : MQ unit :=
  a ← gets apn;
  a ← string_try_from 15 a;
  send (SetPDPContextDefinition cid "IP" a).

Definition storage_free_space (storage : string) : MQ (option Z) :=
  if str_len storage <=? MAX_FILENAME_LEN then
    r ← try_send (FileSpace storage);
    mret match r with inl free_size => Some free_size | inr _ => None end
  else mret None.

(** Split an [http(s)://host[:port]/path] URL. *)
Fixpoint strip_str_prefix (p s : string) : option string :=
  match p, s with
  | EmptyString, _ => Some s
  | String a p, String b s => if bool_decide (a = b) then strip_str_prefix p s else None
  | String _ _, EmptyString => None
  end.
Fixpoint split_at_slash (s : string) : option (string * string) :=
  match s with
  | EmptyString => None
  | String a s' =>
      if bool_decide (a = "/"%char) then Some ("", s)
      else '(host, path) ← split_at_slash s'; Some (String a host, path)
  end.
Definition split_url (url : string) : option (string * string) :=
  host_and_path ← union (strip_str_prefix "https://" url) (strip_str_prefix "http://" url);
  Some (default (host_and_path, "/") (split_at_slash host_and_path)).

Definition CRLF : string := String (ascii_of_nat 13) (String (ascii_of_nat 10) "").
Definition request_header (host path : string) (offset last_byte : Z) : string :=
  "GET " +:+ path +:+ " HTTP/1.1" +:+ CRLF +:+
  "Host: " +:+ host +:+ CRLF +:+
  "Range: bytes=" +:+ pretty offset +:+ "-" +:+ pretty last_byte +:+ CRLF +:+
  "Accept: */*" +:+ CRLF +:+
  "Connection: keep-alive" +:+ CRLF +:+ CRLF.

Definition cancel_http_request : MQ unit :=
  try_send (E := QError) HttpStop;;
  await_urc_for (E := QError) VHTTPGet HTTP_STOP_URC_WAIT_MS;;
  mret tt.

Definition discard_slice_file : MQ unit :=
  attempt (E' := QError) close_file;;
  attempt (E' := QError) (delete_file TMP_FILE);;
  mret tt.

(** What [fetch_slice] makes of the answer to its request. *)
Definition slice_len_of (offset : Z) (u : option Urc) : Z + QError :=
  match u with
  | Some (UHTTPGet _ resp content_length) =>
      match resp, content_length with
      | Some code, Some n =>
          if code =? 206 then inl n
          else if code =? 200 then
            if (offset =? 0) && (n <=? DOWNLOAD_SLICE_LEN) then inl n else inr (QMQTT "Range request not supported")
          else if code =? 416 then inl 0
          else inr QSerialize
      | Some code, None => if code =? 416 then inl 0 else inr QSerialize
      | None, _ => inr QSerialize
      end
  | _ => inr QTimeOut
  end.

Definition fetch_slice (offset : Z) : MQ unit :=
  d ← gets download;
  match d with
  | None => fail (QMQTT "No download in progress")
  | Some d =>
      last_byte ← (x ← u32_add offset DOWNLOAD_SLICE_LEN; u32_sub x 1);
      match split_url (dl_url d) with
      | None => fail QSerialize
      | Some (host, path) =>
          let header := request_header host path offset last_byte in
          if MAX_REQUEST_HEADER_LEN <? str_len header then fail QSerialize
          else
            send (GETWithHeader HTTP_RSP_TIME_S (as_u16 (str_len header)) GET_HEADER_INPUT_TIME_S);;
            send_bytes (bytes_of header) 1000;;
            u ← await_urc VHTTPGet;
            match slice_len_of offset u with
            | inr e => fail e
            | inl n =>
                (if n =? 0 then mret tt
                 else
                   send (HttpReadFile TMP_FILE HTTP_RSP_TIME_S);;
                   u ← await_urc VHTTPReadFile;
                   match u with
                   | Some (UHTTPReadFile err) => if err =? 0 then mret tt else fail (QMQTT "Read to File failed")
                   | _ => fail QTimeOut
                   end);;
                modify (set_download (Some (mkDownload (dl_url d) offset n 0 (n <? DOWNLOAD_SLICE_LEN))))
            end
      end
  end.

(** The loop of [fetch_slice_with_retry]; [attempts] is the number of attempts left. *)
Fixpoint fetch_slice_loop (offset : Z) (attempts : nat) : MQ unit :=
  match attempts with
  | O => panic
  | S attempts =>
      r ← attempt (fetch_slice offset);
      match r with
      | inl _ => mret tt
      | inr err =>
          if bool_decide (attempts = O) then fail err
          else
            cancel_http_request;;
            discard_slice_file;;
            delay_ms SLICE_RETRY_DELAY_MS;;
            fetch_slice_loop offset attempts
      end
  end.
Definition fetch_slice_with_retry (offset : Z) : MQ unit := fetch_slice_loop offset SLICE_ATTEMPTS.

Definition download_file (url : string) : MQ unit :=
  send (HttpConfig "contextid" HTTP_CONTEXT);;
  send (HttpConfig "responseheader" 0);;
  send (HttpConfig "requestheader" 1);;
  set_pdp_context HTTP_CONTEXT;;
  register_loop CREGQuery 90;;
  register_loop CEREGQuery 60;;
  send (ActivateContext HTTP_CONTEXT);;
  send (HttpConfig "sslctxid" HTTP_CONTEXT);;
  send (SslConfig "sslversion" HTTP_CONTEXT 4);;
  send (SslConfig "seclevel" HTTP_CONTEXT 0);;
  send (SslConfig "negotiatetime" HTTP_CONTEXT HTTP_NEGOTIATE_TIME_S);;
  send (SslCiphersuite 1);;
  send (HttpURL (as_u16 (str_len url)) 20);;
  send_bytes (bytes_of url) 100;;
  free ← storage_free_space TMP_FILE_STORAGE;
  (if match free with Some free_size => free_size <? DOWNLOAD_SLICE_LEN | None => false end then
     deactivate_context HTTP_CONTEXT;;
     fail (QMQTT "Download slice does not fit in storage")
   else mret tt);;
  (if str_len url <=? MAX_URL_LEN then modify (set_download (Some (mkDownload url 0 0 0 false)))
   else fail QSerialize);;
  fetch_slice_with_retry 0.

(** *** Reading the download *)

Definition read_slice (size : Z) : MQ (list Z) :=
  d ← gets download;
  match d with
  | None => fail (QMQTT "No download in progress")
  | Some d =>
      h ← gets file_handle;
      handle ← (match h with
                | Some handle => mret handle
                | None =>
                    handle ← send (FileOpen TMP_FILE 0);
                    modify (set_handle (Some handle));;
                    send (FileSeek handle (slice_read d) 0);;
                    mret handle
                end);
      bytes ← map_err QClient (send_read handle size);
      let n := Z.min (len bytes) size in
      if n =? 0 then fail (QMQTT "Slice ended early")
      else
        (if MAX_FILE_CHUNK_LEN <? n then panic else mret tt);;
        read ← u32_add (slice_read d) n;
        modify (set_download (Some (mkDownload (dl_url d) (slice_offset d) (slice_len d) read (dl_complete d))));;
        mret (take (Z.to_nat n) bytes)
  end.

(** The loop of [read_slice_with_retry], with the attempts that are left; from the second
    retry on ([again]) the slice is fetched again. *)
Fixpoint read_slice_loop (size : Z) (attempts : nat) (again : bool) : MQ (list Z) :=
  match attempts with
  | O => panic
  | S attempts =>
      r ← attempt (read_slice size);
      match r with
      | inl part => mret part
      | inr err =>
          d ← gets download;
          match d with
          | None => panic
          | Some d =>
              if bool_decide (attempts = O) then fail err
              else
                delay_ms 500;;
                attempt (E' := QError) close_file;;
                (if again then
                   discard_slice_file;;
                   fetch_slice_with_retry (slice_offset d);;
                   d' ← gets download;
                   match d' with
                   | None => panic
                   | Some d' =>
                       modify (set_download (Some (mkDownload (dl_url d') (slice_offset d') (slice_len d') (slice_read d) (dl_complete d'))))
                   end
                 else mret tt);;
                read_slice_loop size attempts true
          end
      end
  end.
Definition read_slice_with_retry (size : Z) : MQ (list Z) := read_slice_loop size SLICE_ATTEMPTS false.

(** The loop of [read_download_chunk].  Every turn reads a byte at least or fetches a
    slice that is not empty or the last. *)
Fixpoint chunk_loop (fuel : nat) (chunk_size : Z) (chunk : list Z) : MQ (list Z) :=
  match fuel with
  | O => panic
  | S fuel =>
      if len chunk <? chunk_size then
        d ← gets download;
        match d with
        | None => mret chunk
        | Some d =>
            remaining ← u32_sub (slice_len d) (slice_read d);
            if remaining =? 0 then
              if dl_complete d then mret chunk
              else
                next ← u32_add (slice_offset d) (slice_len d);
                discard_slice_file;;
                fetch_slice_with_retry next;;
                chunk_loop fuel chunk_size chunk
            else
              part ← read_slice_with_retry (Z.min (chunk_size - len chunk) remaining);
              (if MAX_FILE_CHUNK_LEN <? len chunk + len part then panic else mret tt);;
              chunk_loop fuel chunk_size (chunk ++ part)
        end
      else mret chunk
  end.
Definition read_download_chunk (chunk_size : Z) : MQ (list Z) :=
  chunk_loop (Z.to_nat (2 * chunk_size + 2)) chunk_size [].

Definition finish_download : MQ unit :=
  d ← gets download;
  (match d with
   | Some _ => modify (set_download None);; discard_slice_file
   | None => mret tt
   end);;
  attempt (E' := QError) (deactivate_context HTTP_CONTEXT);;
  mret tt.

(** *** MQTT *)

(** ["ssl"], ["cacert"] and so on are the parameters of [QMTCFG] and [QSSLCFG]. *)
Definition setup_tls : MQ unit :=
  set_pdp_context TLS_CONTEXT;;
  send (ActivateContext TLS_CONTEXT);;
  send (MqttConfig "ssl" MQTT_CONTEXT 1 (Some TLS_CONTEXT));;
  send (SslConfigFile "cacert" TLS_CONTEXT CA_FILE);;
  send (SslConfigFile "clientcert" TLS_CONTEXT CLIENT_CERT_FILE);;
  send (SslConfigFile "clientkey" TLS_CONTEXT CLIENT_KEY_FILE);;
  send (SslConfig "seclevel" TLS_CONTEXT 2);;
  send (SslConfig "sslversion" TLS_CONTEXT 3);;
  send (SslCiphersuite 2);;
  send (SslConfig "ignorelocaltime" TLS_CONTEXT 1).

Definition connect_mqtt (clean_session : bool) : MQ unit :=
  modify (λ q, set_last_rx 0 (set_missed false q));;
  send (MqttConfig "session" MQTT_CONTEXT (if clean_session then 1 else 0) None);;
  c ← gets config;
  host ← string_try_from 30 (cfg_host c);
  send (MqttOpen MQTT_CONTEXT host (cfg_port c));;
  u ← await_urc VMQTTOpen;
  (match u with
   | Some (UMQTTOpen result) => if result =? 0 then mret tt else fail (QMQTT "Open")
   | _ => fail QTimeOut
   end);;
  send (MqttConnect MQTT_CONTEXT "placeholder");;
  u ← await_urc VMQTTConnect;
  match u with
  | Some (UMQTTConnect ret_code) => if ret_code =? 0 then mret tt else fail (QMQTT "Connect")
  | _ => fail QTimeOut
  end.

Definition quectel_connect (will : Will) : MQ unit :=
  set_pdp_context MQTT_CONTEXT;;
  register_loop CREGQuery 90;;
  register_loop CEREGQuery 60;;
  send (ActivateContext MQTT_CONTEXT);;
  send (MqttConfig "recv/mode" MQTT_CONTEXT 1 (Some 1));;
  c ← gets config;
  (if use_tls c then setup_tls else mret tt);;
  try_send (E := QError) (MqttConfigWill MQTT_CONTEXT 1 1 0 (will_topic will) (will_payload will));;
  connect_mqtt true.

(** The results of the URCs are only logged. *)
Definition disconnect_mqtt : MQ unit :=
  r ← try_send (MqttDisconnect MQTT_CONTEXT);
  (match r with
   | inl _ => await_urc (E := QError) VMQTTDisconnect;; mret tt
   | inr _ => mret tt
   end);;
  r ← try_send (MqttClose MQTT_CONTEXT);
  match r with
  | inl _ => await_urc (E := QError) VMQTTClose;; mret tt
  | inr _ => mret tt
  end.
Definition quectel_disconnect : MQ unit :=
  attempt (E' := QError) disconnect_mqtt;;
  deactivate_context MQTT_CONTEXT.

Definition subscribe (topic : string) : MQ unit :=
  msg_id ← tx_msg_id;
  send (MqttSubscribe MQTT_CONTEXT msg_id topic 2);;
  await_acked_with_timeout VMQTTSubscribe msg_id (QMQTT "Subscribe").
Definition unsubscribe (topic : string) : MQ unit :=
  msg_id ← tx_msg_id;
  send (MqttUnsubscribe MQTT_CONTEXT msg_id topic);;
  await_acked_with_timeout VMQTTUnsubscribe msg_id (QMQTT "Unsubscribe").
Definition publish (topic : string) (message : list Z) : MQ unit :=
  msg_id ← tx_msg_id;
  if MAX_MESSAGE_LEN <? len message then fail QSerialize
  else
    send (PublishPrepare MQTT_CONTEXT msg_id 1 0 topic (as_u16 (len message)));;
    send_bytes message 3000;;
    await_acked_with_timeout VMQTTPublish msg_id (QMQTT "Publish").

Definition read_message (recv_id : Z) : MQ MQTTReceive :=
  (if recv_id =? 4 then modify (set_missed true) else mret tt);;
  send (MqttReceive MQTT_CONTEXT recv_id).

(** The comparison with the previous message id, which is only logged, adds to a [u16]. *)
Definition handle_urc : M (Quectel A) unit MqttEvent :=
  u ← gets q_urc;
  modify (set_q_urc None);;
  match u with
  | None => fail tt
  | Some (UMQTTReceive recv_id) =>
      r ← attempt (read_message recv_id);
      match r with
      | inl message =>
          last ← gets last_rx_msg_id;
          (if (0 <? last) && (last =? u16_max) then panic else mret tt);;
          modify (set_last_rx (rx_msg_id message));;
          mret (ReceivedMessage (mkMessage (rx_topic message) (rx_payload message)))
      | inr _ => fail tt
      end
  | Some (UMQTTStatus err_code) => if err_code =? 1 then mret EvDisconnected else fail tt
  | Some _ => fail tt
  end.

Definition await_response (timeout_s : Z) : M (Quectel A) unit unit :=
  e ← gets (λ q, rx_error (modem q));
  if e : bool then
    outside clear_rx_error;;
    fail tt
  else
    u ← gets q_urc;
    match u with
    | Some _ => mret tt
    | None =>
        queue ← gets unexpected_urc_queue;
        match queue with
        | u :: queue => modify (λ q, set_q_urc (Some u) (set_queue queue q))
        | [] =>
            t ← u32_mul timeout_s 1000;
            l ← gets (λ q, upcoming t (modem q));
            match l with
            | u :: _ => modify (λ q, set_q_urc (Some u) (set_modem (receive (modem q)) q))
            | [] => outside (wait_out t);; fail tt
            end
        end
    end.

(** *** The trait *)

Definition mqtt_download_file (url : string) : MQ unit :=
  attempt (E' := QError) close_file;;
  attempt (E' := QError) (delete_file TMP_FILE);;
  result ← attempt (download_file url);
  match result with
  | inl _ => mret tt
  | inr e => finish_download;; fail e
  end.
Definition mqtt_read_file_chunk (chunk_size : Z) : M (Quectel A) FileError (list Z) :=
  if MAX_FILE_CHUNK_LEN <? chunk_size then fail ReadError
  else
    r ← attempt (read_download_chunk chunk_size);
    match r with
    | inl [] => attempt (E' := FileError) finish_download;; fail EndOfFile
    | inl chunk => mret chunk
    | inr _ => attempt (E' := FileError) finish_download;; fail ReadError
    end.
Definition mqtt_reconnect : MQ unit :=
  disconnect_mqtt;;
  connect_mqtt false.

#[export] Instance quectel_mqtt : MqttClient (Quectel A) CellInfo := {|
  mq_connect _ will := map_err net_error (initialize;; quectel_connect will);
  mq_disconnect :=
    attempt (E' := NetError) quectel_disconnect;;
    map_err net_error deinitialize;;
    mret tt;
  mq_subscribe topic := map_err net_error (subscribe topic);
  mq_publish topic message := map_err net_error (publish topic message);
  mq_await_response timeout_s := await_response timeout_s;
  mq_handle_response := handle_urc;
  mq_download_file url := map_err net_error (mqtt_download_file url);
  mq_read_file_chunk chunk_size := mqtt_read_file_chunk chunk_size;
  mq_signal_quality :=
    r ← try_send GetSignalQuality;
    mret match r with inl rssi => Some (signal_strength rssi) | inr _ => None end;
  mq_cell_info :=
    r ← try_send GetServingCell;
    mret match r with inl cell => cell | inr _ => None end;
  mq_sim_iccid :=
    r ← try_send GetSimIccid;
    mret match r with inl iccid => Some iccid | inr _ => None end;
  mq_modem_model := modem_model;
  mq_modem_fw_version := modem_fw_version;
|}.
End driver.
