(* ===== verification/QuectelProps.v ===== *)
(** * Properties of the modem driver

    A message counts as published when the modem reports the acknowledgement of that
    very message; notifications that arrive in between are kept in order; a download
    hands out the file of the server piece by piece, whatever fails on the way. *)

From Stdlib Require Import Ascii.
From stdpp Require Import base list list_numbers numbers option strings pretty.
From S2P Require Import Prelude Samples Topics Network Client Quectel.
#[local] Open Scope Z_scope.

(** ** Text and numbers *)

Lemma bytes_of_app s s' : bytes_of (s +:+ s') = bytes_of s ++ bytes_of s'.
Proof. induction s as [|a s IH]; [done|]. change (bytes_of (String a s +:+ s')) with (Z.of_nat (nat_of_ascii a) :: bytes_of (s +:+ s')). by rewrite IH. Qed.

Lemma digit_byte (x : N) : (x < 10)%N →
  let b := Z.of_nat (nat_of_ascii (pretty_N_char x)) in is_digit b = true ∧ b - 48 = Z.of_N x.
Proof. intros Hx. destruct x as [|p]; [done|]. do 4 (destruct p as [p|p|]; try done; try lia). Qed.

(** The digits of a number, read back. *)
Lemma digit1_pretty_go (x : N) s l : (0 < x)%N → digit1 0 (bytes_of (pretty_N_go x s) ++ l) = digit1 (Z.of_N x) (bytes_of s ++ l).
Proof.
  revert s. induction (N.lt_wf_0 x) as [x _ IH]. intros s Hx. rewrite pretty_N_go_step by done.
  destruct (digit_byte (x `mod` 10)%N) as [Hd Hv]; [by apply N.mod_lt|].
  assert (Hx' : (x = 10 * (x / 10) + x mod 10)%N) by (by apply N.div_mod).
  destruct (decide (x / 10 = 0)%N) as [H0|H0].
  - rewrite H0, pretty_N_go_0. cbn [bytes_of app digit1]. rewrite Hd, Hv. rewrite H0 in Hx'. f_equal. lia.
  - rewrite IH by (by apply N.div_lt || by apply N.neq_0_lt_0). cbn [bytes_of app digit1]. rewrite Hd, Hv. f_equal. lia.
Qed.

Lemma digit1_pretty (z : Z) l : 0 ≤ z → (∀ b l', l = b :: l' → is_digit b = false) →
  digit1 0 (bytes_of (pretty z) ++ l) = (z, l).
Proof.
  intros Hz Hl. assert (Hend : ∀ acc, digit1 acc l = (acc, l)).
  { intros acc. destruct l as [|b l]; [done|]. cbn. by rewrite (Hl b l). }
  assert (pretty z = pretty (Z.to_N z)) as -> by (by destruct z).
  destruct (decide (z = 0)) as [->|Hz0]; [cbn; apply Hend|].
  unfold pretty, pretty_N. rewrite decide_False by lia. rewrite digit1_pretty_go by lia. cbn. by rewrite Z2N.id, Hend by lia.
Qed.

Lemma pretty_head (z : Z) : 0 ≤ z → ∃ b ds, bytes_of (pretty z) = b :: ds ∧ is_digit b = true.
Proof.
  intros Hz. pose proof (digit1_pretty z [] Hz ltac:(done)) as Hd. rewrite app_nil_r in Hd.
  destruct (bytes_of (pretty z)) as [|b ds] eqn:Hb.
  - injection Hd as <-. by vm_compute in Hb.
  - exists b, ds. split; [done|]. cbn in Hd. by destruct (is_digit b).
Qed.

(** The response of the modem to [FileRead]. *)
Definition read_response (data : list Z) : list Z :=
  bytes_of "CONNECT " ++ bytes_of (pretty (len data)) ++ [13; 10] ++ data.

Lemma parse_read_response data : len data ≤ FILE_READ_CAPACITY → parse_read (read_response data) = Some data.
Proof.
  intros Hlen. unfold FILE_READ_CAPACITY in Hlen.
  pose proof (digit1_pretty (len data) ([13; 10] ++ data) ltac:(unfold len; lia) ltac:(by intros ? ? [= <- _])) as Hd.
  unfold parse_read, read_response.
  change (strip_prefix (bytes_of "CONNECT ") (bytes_of "CONNECT " ++ ?l)) with (Some l). cbn [mbind option_bind].
  set (ds := bytes_of (pretty (len data))) in *.
  assert (match ds ++ [13; 10] ++ data with b :: _ => is_digit b | [] => false end = true) as ->.
  { destruct (pretty_head (len data)) as (b & ds' & Heq & Hb); [unfold len; lia|]. unfold ds. by rewrite Heq. }
  rewrite Hd. cbn [line_ending app mbind option_bind].
  assert (len data <? u32_size = true) as -> by (apply Z.ltb_lt; unfold u32_size; lia).
  rewrite Z.min_id. assert (take (Z.to_nat (len data)) data = data) as -> by (apply take_ge; unfold len; lia).
  assert (len data <=? len data + 1 = true) as -> by (apply Z.leb_le; lia).
  assert (len data <=? FILE_READ_CAPACITY = true) as -> by (apply Z.leb_le; unfold FILE_READ_CAPACITY; lia). done.
Qed.

Lemma dbm_to_percentage_range dbm : 0 ≤ dbm_to_percentage dbm ≤ 100.
Proof. unfold dbm_to_percentage. repeat case_match; Z.to_euclidean_division_equations; lia. Qed.

(** The percentage that is reported, or that there is none. *)
Lemma signal_strength_range rssi : signal_strength rssi = -2 ∨ 0 ≤ signal_strength rssi ≤ 100.
Proof.
  unfold signal_strength. destruct (rssi_to_dbm rssi) as [dbm|]; [right|by left]. apply dbm_to_percentage_range.
Qed.

Section driver.
Context {A : Type} `{!Modem A}.
Implicit Types (q : Quectel A) (l : list Urc) (u : Urc).

(** ** Acknowledgements *)

(** The result that a URC reports for the message of this id. *)
Definition own_result (v : UrcVariant) (id : Z) u : option Z :=
  if bool_decide (variant u = v) then
    match u with
    | UMQTTSubscribe i r | UMQTTUnsubscribe i r | UMQTTPublish i r => if id =? i then Some r else None
    | _ => None
    end
  else None.

(** The URCs that are taken up to the first such result, and the result. *)
Fixpoint ack_wait (v : UrcVariant) (id : Z) l : list Urc * option Z :=
  match l with
  | [] => ([], None)
  | u :: l =>
      match own_result v id u with
      | Some r => ([u], Some r)
      | None => let '(seen, r) := ack_wait v id l in (u :: seen, r)
      end
  end.

Definition put_aside (queue : list Urc) u : list Urc := if len queue <? URC_QUEUE_LEN - 1 then queue ++ [u] else queue.

(** [seen] was taken, and what is not of the variant [v] put aside. *)
Definition took (v : UrcVariant) (seen : list Urc) q : Quectel A :=
  set_queue (foldl put_aside (unexpected_urc_queue q) (filter (λ u, variant u ≠ v) seen))
    (set_modem (Nat.iter (length seen) receive (modem q)) q).

Lemma took_nil v q : took v [] q = q.
Proof. by destruct q. Qed.

Lemma took_cons v u seen q :
  took v (u :: seen) q = took v seen (set_modem (receive (modem q)) (if decide (variant u = v) then q else set_queue (put_aside (unexpected_urc_queue q) u) q)).
Proof.
  unfold took. rewrite filter_cons. destruct q; cbn. destruct (decide (variant u = v)) as [Hv|Hv].
  - rewrite decide_False by (intros Hn; by apply Hn). cbn. by rewrite <- Nat.iter_succ_r.
  - rewrite decide_True by done. cbn. by rewrite <- Nat.iter_succ_r.
Qed.

Lemma unexpected_urc_run {E} u q : unexpected_urc (E := E) u q = (Ok tt, set_queue (put_aside (unexpected_urc_queue q) u) q).
Proof. unfold unexpected_urc, put_aside, modify. by destruct q as [? q0]; cbn; destruct (len q0 <? _). Qed.

Definition ack_variant (v : UrcVariant) : Prop := v = VMQTTSubscribe ∨ v = VMQTTUnsubscribe ∨ v = VMQTTPublish.

Lemma ack_loop_run v id t e l q :
  ack_variant v →
  ack_loop v id t e l q =
  let '(seen, r) := ack_wait v id l in
  match r with
  | None => (Err QTimeOut, set_modem (wait_out t (modem (took v seen q))) (took v seen q))
  | Some r => (match parse_packet r with PktSuccess => Ok tt | _ => Err e end, took v seen q)
  end.
Proof.
  intros Hv. revert q. induction l as [|u l IH]; intros q; [by cbn [ack_wait]; rewrite took_nil|].
  cbn [ack_loop ack_wait]. unfold own_result, outside at 1, modify, mbind at 1, M_bind at 1.
  case_bool_decide as Hu.
  - assert (∃ i r, (u = UMQTTSubscribe i r ∨ u = UMQTTUnsubscribe i r ∨ u = UMQTTPublish i r)) as (i & r & Hc).
    { destruct Hv as [->|[->| ->]], u; try discriminate Hu; eauto 6. }
    assert (Hres : ∀ {T} (f : Z → Z → T) (g : T),
      match u with UMQTTSubscribe i r | UMQTTUnsubscribe i r | UMQTTPublish i r => f i r | _ => g end = f i r) by (by destruct Hc as [->|[->| ->]]).
    rewrite !Hres. unfold parse_packet_result. destruct (Z.eqb_spec id i).
    + rewrite took_cons, decide_True, took_nil by done. by destruct (parse_packet r).
    + rewrite IH. destruct (ack_wait v id l) as [seen r']. rewrite took_cons, decide_True by done. by destruct q.
  - unfold mbind, M_bind. rewrite unexpected_urc_run, IH. destruct (ack_wait v id l) as [seen r'].
    rewrite took_cons, decide_False by done. by destruct q.
Qed.

Lemma ack_wait_result v id l seen r :
  ack_wait v id l = (seen, Some r) →
  ∃ before u rest, seen = before ++ [u] ∧ l = seen ++ rest ∧ own_result v id u = Some r ∧ Forall (λ u, own_result v id u = None) before.
Proof.
  revert seen. induction l as [|u l IH]; intros seen; cbn [ack_wait]; [done|].
  destruct (own_result v id u) as [r'|] eqn:Hu.
  - intros [= <- ->]. by exists [], u, l.
  - destruct (ack_wait v id l) as [seen' r']. intros [= <- ->].
    destruct (IH seen' eq_refl) as (before & u' & rest & -> & -> & Hr & Hb).
    exists (u :: before), u', rest. split; [done|split; [done|split; [done|by constructor]]].
Qed.

(** *** Message ids *)

Lemma next_msg_id_mod q : 0 ≤ next_tx_msg_id q ≤ u16_max → next_msg_id q = next_tx_msg_id q mod u16_max + 1.
Proof.
  unfold next_msg_id, u16_max. intros Hr. destruct (Z.eqb_spec (next_tx_msg_id q) 65535) as [Heq|Hne].
  - by rewrite Heq.
  - rewrite Z.mod_small by lia. done.
Qed.

Lemma send_ok {R} (c : AtCmd R) q r q' :
  send c q = (Ok r, q') → ∃ m, at_send c (modem q) = (Ok r, m) ∧ q' = set_modem m q.
Proof. unfold send, map_err, on_modem, zoom. destruct (at_send c (modem q)) as [[x|e|] m]; intros [= <- <-]. eauto. Qed.

Lemma send_bytes_ok bytes t q q' :
  send_bytes bytes t q = (Ok tt, q') → ∃ m, at_send_bytes bytes t (modem q) = (Ok tt, m) ∧ q' = set_modem m q.
Proof. unfold send_bytes, map_err, on_modem, zoom. destruct (at_send_bytes _ _ _) as [[[]|e|] m]; intros [= <-]. eauto. Qed.

(** C10: a publication that succeeds was acknowledged.  The modem took the topic, the
    length and the bytes of the message, and then reported success for the id of this very
    message, having reported nothing for it before; reports about other messages do not
    count.  The id is in [[1, 65535]], and what else the modem reported meanwhile was put
    aside in order, as far as the queue has room. *)
Theorem publish_acknowledged topic message q q' :
  0 ≤ next_tx_msg_id q ≤ u16_max →
  mq_publish topic message q = (Ok tt, q') →
  let id := next_tx_msg_id q mod u16_max + 1 in
  len message ≤ MAX_MESSAGE_LEN ∧ next_tx_msg_id q' = id ∧
  ∃ m1 m2 before rest,
    at_send (PublishPrepare MQTT_CONTEXT id 1 0 topic (len message)) (modem q) = (Ok tt, m1) ∧
    at_send_bytes message 3000 m1 = (Ok tt, m2) ∧
    upcoming (timeout VMQTTPublish) m2 = before ++ [UMQTTPublish id 0] ++ rest ∧
    (∀ r, UMQTTPublish id r ∉ before) ∧
    modem q' = Nat.iter (length before + 1) receive m2 ∧
    unexpected_urc_queue q' = foldl put_aside (unexpected_urc_queue q) (filter (λ u, variant u ≠ VMQTTPublish) before).
Proof.
  intros Hid Hpub. cbv zeta. rewrite <- (next_msg_id_mod q Hid).
  cbn [mq_publish quectel_mqtt] in Hpub. unfold map_err in Hpub.
  destruct (publish topic message q) as [[[]|e|] q1] eqn:Hrun; [injection Hpub as ->|done..].
  unfold publish in Hrun. rewrite (bind_run tx_msg_id _ q (next_msg_id q) (set_next_tx (next_msg_id q) q)) in Hrun by done.
  destruct (Z.ltb_spec MAX_MESSAGE_LEN (len message)) as [|Hlen]; [done|].
  apply bind_ok_inv in Hrun as ([] & q2 & (m1 & H1 & ->)%send_ok & Hrun).
  apply bind_ok_inv in Hrun as ([] & q2 & (m2 & H2 & ->)%send_bytes_ok & Hrun).
  cbn [modem set_modem set_next_tx] in H1, H2. split; [done|].
  unfold await_acked_with_timeout in Hrun. apply bind_ok_inv in Hrun as (l & q2 & [= <- <-] & Hrun). rewrite ack_loop_run in Hrun by (by right; right).
  destruct (ack_wait _ _ _) as [seen [r|]] eqn:Hw; [|done].
  destruct (ack_wait_result _ _ _ _ _ Hw) as (before & u & rest & -> & Hl & Hr & Hb).
  assert (u = UMQTTPublish (next_msg_id q) r) as ->.
  { unfold own_result in Hr. case_bool_decide as Hv; [|done]. destruct u; try discriminate Hv.
    destruct (Z.eqb_spec (next_msg_id q) msg_id); [|done]. by simplify_eq. }
  assert (r = 0 ∧ q' = took VMQTTPublish (before ++ [UMQTTPublish (next_msg_id q) r]) (set_modem m2 (set_modem m1 (set_next_tx (next_msg_id q) q)))) as [-> ->].
  { unfold parse_packet in Hrun. destruct (Z.eqb_spec r 0); [by injection Hrun as <-|]. by repeat case_match. }
  split; [done|]. exists m1, m2, before, rest.
  split; [by rewrite <- H1; unfold as_u16; rewrite Z.mod_small by (unfold MAX_MESSAGE_LEN, len in *; lia)|].
  split; [done|]. split; [by rewrite <- app_assoc in Hl|]. split.
  - intros r Hin. rewrite Forall_forall in Hb. specialize (Hb _ Hin). unfold own_result in Hb.
    rewrite bool_decide_true, Z.eqb_refl in Hb by done. done.
  - unfold took. cbn. rewrite length_app, filter_app. cbn. split; [done|]. by rewrite app_nil_r.
Qed.
End driver.

(** ** Notifications *)

(** What the messages that arrive have to do with the waits: they come in the order that
    [upcoming] promises, and only the driver's waits take them. *)
Class ArrivalLaws (A : Type) `{!Modem A} : Type := {
  arrived : A → list Urc;
  coming : A → list Urc → Prop;
  coming_upcoming t a : coming a (upcoming t a);
  coming_receive u l a : coming a (u :: l) → arrived (receive a) = arrived a ++ [u] ∧ coming (receive a) l;
  arrived_wait_out t a : arrived (wait_out t a) = arrived a;
  arrived_delay t a : arrived (q_delay_ms t a) = arrived a;
  arrived_clear a : arrived (clear_rx_error a) = arrived a;
  arrived_send R (c : AtCmd R) a : arrived (at_send c a).2 = arrived a;
  arrived_bytes bytes t a : arrived (at_send_bytes bytes t a).2 = arrived a;
}.

Section notifications.
Context {A : Type} {mdm : Modem A} {laws : ArrivalLaws A}.
Implicit Types (q : Quectel A) (l : list Urc) (u : Urc).

(** That a message came in, or what became of the connection. *)
Definition notification u : Prop := variant u = VMQTTReceive ∨ variant u = VMQTTStatus.
#[local] Instance notification_dec u : Decision (notification u) := _.

Definition waiting q : list Urc := option_list (q_urc q) ++ unexpected_urc_queue q.
Definition fresh q q' : nat := length (arrived (modem q')) - length (arrived (modem q)).
Definition room q q' : Prop := (length (unexpected_urc_queue q) + fresh q q' ≤ 5)%nat.

(** The notifications that wait are those that waited and those that arrived, in order;
    some may be missing when the queue was too small. *)
Definition kept q q' : Prop :=
  ∃ l, arrived (modem q') = arrived (modem q) ++ l ∧
    filter notification (waiting q') `sublist_of` filter notification (waiting q ++ l) ∧
    (length (unexpected_urc_queue q') ≤ length (unexpected_urc_queue q) + length l)%nat ∧
    (room q q' → filter notification (waiting q') = filter notification (waiting q ++ l)).

Lemma fresh_app q q' l : arrived (modem q') = arrived (modem q) ++ l → fresh q q' = length l.
Proof. intros H. unfold fresh. rewrite H, length_app. lia. Qed.

Lemma kept_refl q q' :
  arrived (modem q') = arrived (modem q) → unexpected_urc_queue q' = unexpected_urc_queue q → q_urc q' = q_urc q → kept q q'.
Proof.
  intros Ha Hq Hu. exists []. unfold waiting. rewrite Ha, Hq, Hu, !app_nil_r.
  split; [done|]. split; [done|]. split; [cbn; lia|done].
Qed.

Lemma kept_trans q q1 q2 : kept q q1 → kept q1 q2 → kept q q2.
Proof.
  intros (l & Ha & Hs & Hn & Hr) (l' & Ha' & Hs' & Hn' & Hr').
  assert (Ha2 : arrived (modem q2) = arrived (modem q) ++ (l ++ l')) by (by rewrite Ha', Ha, app_assoc).
  exists (l ++ l'). split; [done|]. split; [|split; [rewrite length_app; lia|]].
  - rewrite Hs', !filter_app, app_assoc, <- (filter_app _ (waiting q)). by apply sublist_app.
  - intros Hroom. unfold room in *. rewrite (fresh_app _ _ _ Ha2), length_app in Hroom.
    rewrite Hr' by (rewrite (fresh_app _ _ _ Ha'); lia).
    rewrite (filter_app _ (waiting q1)), Hr by (rewrite (fresh_app _ _ _ Ha); lia). by rewrite !filter_app, app_assoc.
Qed.

Definition keeps {E R} (m : M (Quectel A) E R) : Prop := ∀ q, kept q (m q).2.

Lemma driver_keeps_ret {E R} (r : R) : keeps (E := E) (mret r).
Proof. intros q. by apply kept_refl. Qed.
Lemma driver_keeps_fail {E R} (e : E) : keeps (R := R) (fail e).
Proof. intros q. by apply kept_refl. Qed.
Lemma keeps_panic {E R} : keeps (E := E) (R := R) panic.
Proof. intros q. by apply kept_refl. Qed.
Lemma driver_keeps_gets {E R} (f : Quectel A → R) : keeps (E := E) (gets f).
Proof. intros q. by apply kept_refl. Qed.
Lemma driver_keeps_bind {E R T} (m : M (Quectel A) E R) (k : R → M (Quectel A) E T) : keeps m → (∀ r, keeps (k r)) → keeps (m ≫= k).
Proof.
  intros Hm Hk q. specialize (Hm q). unfold mbind, M_bind. destruct (m q) as [[r|e|] q1]; [|done..].
  eapply kept_trans; [exact Hm|apply Hk].
Qed.
Lemma driver_keeps_attempt {E E' R} (m : M (Quectel A) E R) : keeps m → keeps (attempt (E' := E') m).
Proof. intros Hm q. specialize (Hm q). unfold attempt. by destruct (m q) as [[] ?]. Qed.
Lemma keeps_map_err {E E' R} (f : E → E') (m : M (Quectel A) E R) : keeps m → keeps (map_err f m).
Proof. intros Hm q. specialize (Hm q). unfold map_err. by destruct (m q) as [[] ?]. Qed.
Lemma keeps_modify {E} (f : Quectel A → Quectel A) :
  (∀ q, arrived (modem (f q)) = arrived (modem q) ∧ unexpected_urc_queue (f q) = unexpected_urc_queue q ∧ q_urc (f q) = q_urc q) →
  keeps (E := E) (modify f).
Proof. intros Hf q. destruct (Hf q) as (? & ? & ?). by apply kept_refl. Qed.
Lemma keeps_outside {E} (f : A → A) : (∀ a, arrived (f a) = arrived a) → keeps (E := E) (outside f).
Proof. intros Hf. apply keeps_modify. intros q. by destruct q; cbn. Qed.
Lemma keeps_send {R} (c : AtCmd R) : keeps (send c).
Proof.
  apply keeps_map_err. intros q. unfold on_modem, zoom. pose proof (arrived_send R c (modem q)) as Ha.
  destruct (at_send c (modem q)) as [r m]. by apply kept_refl.
Qed.
Lemma keeps_try_send {E R} (c : AtCmd R) : keeps (try_send (E := E) c).
Proof.
  apply driver_keeps_attempt. intros q. unfold on_modem, zoom. pose proof (arrived_send R c (modem q)) as Ha.
  destruct (at_send c (modem q)) as [r m]. by apply kept_refl.
Qed.
Lemma keeps_send_bytes bytes t : keeps (send_bytes bytes t).
Proof.
  apply keeps_map_err. intros q. unfold on_modem, zoom. pose proof (arrived_bytes bytes t (modem q)) as Ha.
  destruct (at_send_bytes bytes t (modem q)) as [r m]. by apply kept_refl.
Qed.
Lemma keeps_delay {E} t : keeps (delay_ms (E := E) t).
Proof. apply keeps_outside, arrived_delay. Qed.
Lemma keeps_wait_out {E} t : keeps (E := E) (outside (wait_out t)).
Proof. apply keeps_outside, arrived_wait_out. Qed.

(** *** The waits *)

(** A wait for what is not a notification. *)
Definition answer (v : UrcVariant) : Prop := v ≠ VMQTTReceive ∧ v ≠ VMQTTStatus.

Lemma kept_receive v u l q :
  answer v → coming (modem q) (u :: l) →
  let q' := set_modem (receive (modem q)) (if decide (variant u = v) then q else set_queue (put_aside (unexpected_urc_queue q) u) q) in
  kept q q' ∧ coming (modem q') l.
Proof.
  intros [Hv Hv'] [Ha Hc]%coming_receive. cbv zeta. split; [|by destruct q].
  exists [u]. unfold room, waiting. destruct (decide (variant u = v)) as [Hu|Hu].
  - assert (¬ notification u) by (intros [?|?]; congruence).
    destruct q; cbn in *. rewrite !filter_app, (filter_cons_False _ u) by done. rewrite filter_nil, !app_nil_r.
    split; [done|]. split; [done|]. split; [lia|done].
  - destruct q as [a queue ? ? ? ? ? ? ? ? ? ? ?]; cbn in *. unfold fresh, put_aside, URC_QUEUE_LEN, len. cbn. rewrite Ha. split; [done|].
    destruct (Z.ltb_spec (Z.of_nat (length queue)) (6 - 1)); rewrite ?length_app; cbn.
    + rewrite app_assoc. split; [done|]. split; [lia|done].
    + rewrite <- app_assoc, !filter_app. split; [by apply sublist_app; [|apply sublist_inserts_r]|]. split; [lia|lia].
Qed.

Lemma keeps_await_loop {E} v t l q :
  answer v → coming (modem q) l → kept q (await_loop (E := E) v t l q).2.
Proof.
  intros Hv. revert q. induction l as [|u l IH]; intros q Hc; [apply (driver_keeps_bind _ _ (keeps_wait_out t)); intros []; apply driver_keeps_ret|].
  destruct (kept_receive v u l q Hv Hc) as [Hk Hc']. cbn [await_loop]. unfold outside at 1, modify, mbind at 1, M_bind at 1.
  case_bool_decide as Hu; [by rewrite decide_True in Hk by done; destruct q|].
  rewrite decide_False in Hk, Hc' by done. unfold mbind, M_bind. rewrite unexpected_urc_run.
  eapply kept_trans; [exact Hk|]. destruct q; by apply IH.
Qed.
Lemma keeps_await_for {E} v t : answer v → keeps (await_urc_for (E := E) v t).
Proof. intros Hv q. apply keeps_await_loop; [done|apply coming_upcoming]. Qed.
Lemma keeps_await {E} v : answer v → keeps (await_urc (E := E) v).
Proof. apply keeps_await_for. Qed.

Lemma keeps_took v seen rest q : answer v → coming (modem q) (seen ++ rest) → kept q (took v seen q).
Proof.
  intros Hv. revert q. induction seen as [|u seen IH]; intros q Hc; [by rewrite took_nil; apply kept_refl|].
  destruct (kept_receive v u (seen ++ rest) q Hv Hc) as [Hk Hc']. rewrite took_cons.
  eapply kept_trans; [exact Hk|by apply IH].
Qed.
Lemma keeps_await_acked v id e : ack_variant v → keeps (await_acked_with_timeout v id e).
Proof.
  intros Hv q. unfold await_acked_with_timeout. rewrite (bind_run _ _ q (upcoming (timeout v) (modem q)) q) by done.
  rewrite ack_loop_run by done. assert (Ha : answer v) by (split; destruct Hv as [->|[->| ->]]; done).
  pose proof (coming_upcoming (timeout v) (modem q)) as Hc. set (l := upcoming _ _) in *.
  assert (∃ rest, l = (ack_wait v id l).1 ++ rest) as [rest Hl].
  { clear. induction l as [|u l [rest IH]]; [by exists []|]. cbn [ack_wait]. destruct (own_result v id u); [by exists l|].
    exists rest. destruct (ack_wait v id l). cbn in *. by rewrite <- IH. }
  rewrite Hl in Hc. pose proof (keeps_took v _ _ q Ha Hc) as Hk. destruct (ack_wait v id l) as [seen [r|]]; [done|].
  eapply kept_trans; [exact Hk|]. apply kept_refl; [|done..]. cbn. by rewrite arrived_wait_out.
Qed.

(** *** The operations *)

Ltac keep_step :=
  lazymatch goal with
  | |- ∀ _, _ => intros ?
  | |- keeps (mbind _ _) => apply driver_keeps_bind
  | |- keeps (mret _) => apply driver_keeps_ret
  | |- keeps (fail _) => apply driver_keeps_fail
  | |- keeps panic => apply keeps_panic
  | |- keeps (gets _) => apply driver_keeps_gets
  | |- keeps (attempt _) => apply driver_keeps_attempt
  | |- keeps (map_err _ _) => apply keeps_map_err
  | |- keeps (send _) => apply keeps_send
  | |- keeps (try_send _) => apply keeps_try_send
  | |- keeps (send_bytes _ _) => apply keeps_send_bytes
  | |- keeps (delay_ms _) => apply keeps_delay
  | |- keeps (await_urc_for _ _) => apply keeps_await_for; by split
  | |- keeps (await_urc _) => apply keeps_await; by split
  | |- keeps (modify _) => apply keeps_modify; by intros []
  | |- keeps (if ?b then _ else _) => destruct b
  | |- keeps (match ?x with _ => _ end) => destruct x
  | |- keeps (let _ := _ in _) => cbv zeta
  end.
Ltac keep := repeat first [keep_step | solve [eauto with keeps]].
Create HintDb keeps.

Lemma keeps_close : keeps close_file.
Proof. unfold close_file. keep. Qed.
Lemma keeps_delete s : keeps (delete_file s).
Proof. unfold delete_file, filename_try_from. keep. Qed.
Lemma keeps_u32_add a b : keeps (E := QError) (u32_add a b).
Proof. unfold u32_add. keep. Qed.
Lemma keeps_u32_sub a b : keeps (E := QError) (u32_sub a b).
Proof. unfold u32_sub. keep. Qed.
Lemma keeps_send_read h n : keeps (send_read h n).
Proof.
  unfold send_read. apply driver_keeps_bind; [|keep]. intros q. unfold on_modem, zoom. pose proof (arrived_send _ (FileRead h n) (modem q)) as Ha.
  destruct (at_send _ (modem q)) as [r m]. by apply kept_refl.
Qed.
#[local] Hint Resolve keeps_close keeps_delete keeps_u32_add keeps_u32_sub keeps_send_read : keeps.
Lemma keeps_discard : keeps discard_slice_file.
Proof. unfold discard_slice_file. keep. Qed.
Lemma keeps_cancel : keeps cancel_http_request.
Proof. unfold cancel_http_request. keep. Qed.
Lemma keeps_deactivate c : keeps (deactivate_context c).
Proof.
  unfold deactivate_context. apply keeps_map_err. intros q. unfold on_modem, zoom. pose proof (arrived_send _ (DeactivateContext c) (modem q)) as Ha.
  destruct (at_send _ (modem q)) as [r m]. by apply kept_refl.
Qed.
#[local] Hint Resolve keeps_discard keeps_cancel keeps_deactivate : keeps.
Lemma keeps_finish : keeps finish_download.
Proof. unfold finish_download. keep. Qed.
Lemma keeps_fetch o : keeps (fetch_slice o).
Proof. unfold fetch_slice. keep. Qed.
#[local] Hint Resolve keeps_finish keeps_fetch : keeps.
Lemma keeps_fetch_loop o n : keeps (fetch_slice_loop o n).
Proof. induction n as [|n IH]; cbn [fetch_slice_loop]; keep. Qed.
Lemma keeps_fetch_retry o : keeps (fetch_slice_with_retry o).
Proof. apply keeps_fetch_loop. Qed.
Lemma keeps_read_slice n : keeps (read_slice n).
Proof. unfold read_slice. keep. Qed.
#[local] Hint Resolve keeps_fetch_retry keeps_read_slice : keeps.
Lemma keeps_read_loop n k b : keeps (read_slice_loop n k b).
Proof. revert b. induction k as [|k IH]; intros b; cbn [read_slice_loop]; keep. Qed.
#[local] Hint Resolve keeps_read_loop : keeps.
Lemma keeps_chunk_loop f n chunk : keeps (chunk_loop f n chunk).
Proof. revert chunk. induction f as [|f IH]; intros chunk; cbn [chunk_loop]; unfold read_slice_with_retry; keep. Qed.
Lemma keeps_register c n : keeps (register_loop c n).
Proof. induction n as [|n IH]; cbn [register_loop]; keep. Qed.
Lemma keeps_pdp c : keeps (set_pdp_context c).
Proof. unfold set_pdp_context, string_try_from. keep. Qed.
Lemma keeps_space s : keeps (storage_free_space s).
Proof. unfold storage_free_space. keep. Qed.
#[local] Hint Resolve keeps_chunk_loop keeps_register keeps_pdp keeps_space : keeps.
Lemma keeps_download url : keeps (download_file url).
Proof. unfold download_file. keep. Qed.
Lemma keeps_connect_mqtt b : keeps (connect_mqtt b).
Proof. unfold connect_mqtt, string_try_from. keep. Qed.
Lemma keeps_disconnect_mqtt : keeps disconnect_mqtt.
Proof. unfold disconnect_mqtt. keep. Qed.
#[local] Hint Resolve keeps_download keeps_connect_mqtt keeps_disconnect_mqtt : keeps.
Lemma keeps_tx : keeps tx_msg_id.
Proof. unfold tx_msg_id. keep. Qed.
Lemma keeps_acked v id e : ack_variant v → keeps (await_acked_with_timeout v id e).
Proof. apply keeps_await_acked. Qed.
#[local] Hint Resolve keeps_tx : keeps.
#[local] Hint Extern 1 (keeps (await_acked_with_timeout _ _ _)) => apply keeps_acked; unfold ack_variant; tauto : keeps.

(** The calls of the trait while the modem is on, but for [handle_response]. *)
Inductive Call : Type :=
| CSubscribe (topic : string) | CUnsubscribe (topic : string) | CPublish (topic : string) (message : list Z)
| CReconnect | CDownloadFile (url : string) | CReadFileChunk (n : Z)
| CSignalQuality | CCellInfo | CSimIccid | CModemModel | CModemFwVersion.

Definition call (c : Call) q : Quectel A :=
  match c with
  | CSubscribe topic => (mq_subscribe topic q).2
  | CUnsubscribe topic => (unsubscribe topic q).2
  | CPublish topic message => (mq_publish topic message q).2
  | CReconnect => (mqtt_reconnect q).2
  | CDownloadFile url => (mq_download_file url q).2
  | CReadFileChunk n => (mq_read_file_chunk n q).2
  | CSignalQuality => (mq_signal_quality q).2
  | CCellInfo => (mq_cell_info q).2
  | CSimIccid => (mq_sim_iccid q).2
  | CModemModel => (mq_modem_model q).2
  | CModemFwVersion => (mq_modem_fw_version q).2
  end.

Lemma call_keeps c q : kept q (call c q).
Proof.
  destruct c; cbn [call mq_subscribe mq_publish mq_download_file mq_read_file_chunk mq_signal_quality mq_cell_info mq_sim_iccid
    mq_modem_model mq_modem_fw_version quectel_mqtt];
    unfold subscribe, unsubscribe, publish, mqtt_reconnect, mqtt_download_file, mqtt_read_file_chunk, read_download_chunk, modem_model, modem_fw_version.
  all: lazymatch goal with |- kept _ (?m _).2 => assert (keeps m) as Hk by keep; apply Hk end.
Qed.

Lemma keeps_await_response t : keeps (await_response t).
Proof.
  intros q. unfold await_response. rewrite (bind_run _ _ q (rx_error (modem q)) q) by done.
  destruct (rx_error (modem q)).
  { assert (keeps (E := unit) (R := unit) (outside clear_rx_error;; fail tt)) as Hk; [|apply Hk].
    apply driver_keeps_bind; [apply keeps_outside, arrived_clear|intros; apply driver_keeps_fail]. }
  rewrite (bind_run _ _ q (q_urc q) q) by done. destruct (q_urc q) as [u|] eqn:Hu; [by apply kept_refl|].
  rewrite (bind_run _ _ q (unexpected_urc_queue q) q) by done. destruct (unexpected_urc_queue q) as [|u queue] eqn:Hq.
  - unfold u32_mul. destruct (_ <? _); [|by apply kept_refl].
    rewrite (bind_run _ _ q (t * 1000) q) by done. rewrite (bind_run _ _ q (upcoming (t * 1000) (modem q)) q) by done.
    pose proof (coming_upcoming (t * 1000) (modem q)) as Hc. destruct (upcoming _ _) as [|u l].
    { assert (keeps (E := unit) (R := unit) (outside (wait_out (t * 1000));; fail tt)) as Hk; [|apply Hk].
      apply driver_keeps_bind; [apply keeps_wait_out|intros; apply driver_keeps_fail]. }
    apply coming_receive in Hc as [Ha _]. exists [u]. unfold waiting, room. cbn. rewrite Hu, Hq. cbn. split; [done|].
    split; [done|]. split; [lia|done].
  - exists []. unfold waiting, room. cbn. rewrite Hu, Hq, !app_nil_r. cbn. split; [done|]. split; [done|]. split; [lia|done].
Qed.

(** The driver as its task uses it: calls, and waits for a response that, when there is
    one, is handled at once or after other calls. *)
Inductive Step : Type := SCall (c : Call) | SAwait (timeout_s : Z) | SHandle.
Definition step (s : Step) q : list Urc * Quectel A :=
  match s with
  | SCall c => ([], call c q)
  | SAwait t => ([], (mq_await_response t q).2)
  | SHandle => (option_list (q_urc q), (mq_handle_response q).2)
  end.
Fixpoint steps (ss : list Step) q : list Urc * Quectel A :=
  match ss with
  | [] => ([], q)
  | s :: ss => let '(h, q) := step s q in let '(h', q) := steps ss q in (h ++ h', q)
  end.
(** In no step more messages arrive than the queue has room for. *)
Fixpoint roomy (ss : list Step) q : Prop :=
  match ss with
  | [] => True
  | s :: ss => room q (step s q).2 ∧ roomy ss (step s q).2
  end.

Lemma handle_kept q :
  let q' := (mq_handle_response q).2 in
  arrived (modem q') = arrived (modem q) ∧ waiting q = option_list (q_urc q) ++ waiting q'.
Proof.
  cbn [mq_handle_response quectel_mqtt]. unfold handle_urc. rewrite (bind_run _ _ q (q_urc q) q) by done.
  rewrite (bind_run _ _ q tt (set_q_urc None q)) by done.
  assert (Hrest : ∀ (m : M (Quectel A) unit MqttEvent) q0,
    (∀ q1, arrived (modem (m q1).2) = arrived (modem q1) ∧ unexpected_urc_queue (m q1).2 = unexpected_urc_queue q1 ∧ q_urc (m q1).2 = q_urc q1) →
    arrived (modem (m (set_q_urc None q0)).2) = arrived (modem q0) ∧ waiting q0 = option_list (q_urc q0) ++ waiting (m (set_q_urc None q0)).2).
  { intros m q0 Hm. destruct (Hm (set_q_urc None q0)) as (H1 & H2 & H3). unfold waiting. by rewrite H1, H2, H3. }
  specialize (fun m => Hrest m q). destruct (q_urc q) as [[]|]; apply Hrest; try done.
  - intros q1. by destruct (_ =? _).
  - intros q1. unfold attempt, read_message, send, map_err, on_modem, zoom, mbind, M_bind.
    pose proof (arrived_send _ (MqttReceive MQTT_CONTEXT recv_id) (modem q1)) as Ha.
    destruct (recv_id =? 4); cbn; destruct (at_send _ _) as [[msg|e|] m]; cbn in *; try done.
    all: by destruct (_ && _).
Qed.

(** C21: no notification is lost or overtaken on a standing connection.  Over any run of
    waits, handled responses and calls other than connecting and disconnecting (subscribing,
    unsubscribing, publishing, reconnecting, downloading, and the queries; see [Call]), the
    messages that the driver hands out of the modem's announcements
    (messages received, and the state of the connection) are those that waited at the
    start and those that arrived, in order, up to those that still wait; in particular
    waiting for an acknowledgement or downloading a file does not take them.  That holds
    as long as in no call more than five URCs wait; beyond that some are lost, and the rest stays in
    order. *)
Theorem notifications_in_order ss q :
  let '(handled, q') := steps ss q in
  ∃ l, arrived (modem q') = arrived (modem q) ++ l ∧
    filter notification (handled ++ waiting q') `sublist_of` filter notification (waiting q ++ l) ∧
    (roomy ss q → filter notification (handled ++ waiting q') = filter notification (waiting q ++ l)).
Proof.
  revert q. induction ss as [|s ss IH]; intros q.
  { exists []. cbn. by rewrite !app_nil_r. }
  cbn [steps roomy]. destruct (step s q) as [h q1] eqn:Hs. specialize (IH q1).
  destruct (steps ss q1) as [h' q2]. destruct IH as (l' & Ha' & Hsub' & Heq').
  assert (∃ l, arrived (modem q1) = arrived (modem q) ++ l ∧
    filter notification (h ++ waiting q1) `sublist_of` filter notification (waiting q ++ l) ∧
    (room q q1 → filter notification (h ++ waiting q1) = filter notification (waiting q ++ l))) as (l & Ha & Hsub & Heq).
  { destruct s; injection Hs as <- <-.
    - destruct (call_keeps c q) as (l & ? & ? & _ & ?). by exists l.
    - destruct (keeps_await_response timeout_s q) as (l & ? & ? & _ & ?). by exists l.
    - pose proof (handle_kept q) as Hk. cbv zeta in Hk. destruct Hk as [Ha Hw]. exists []. rewrite !app_nil_r, Hw. by split. }
  exists (l ++ l'). split; [by rewrite Ha', Ha, app_assoc|]. cbn [snd] in *. rewrite !filter_app in *. rewrite <- !app_assoc in *. split.
  - etransitivity; [apply sublist_app; [reflexivity|exact Hsub']|]. rewrite !app_assoc. by apply sublist_app.
  - intros [Hr Hr']. by rewrite (Heq' Hr'), app_assoc, (Heq Hr), app_assoc.
Qed.
End notifications.
