(* ===== verification/QuectelDownload.v ===== *)
(** * A download through the modem

    What [download_file] and [read_file_chunk] of the modem driver deliver, against the
    documented behaviour of the modem's HTTP client and file system (class
    [DownloadModem]), in which any command may fail at any time, before or after the modem
    has taken it, and the report of a request may come after the driver has given it up. *)

From Stdlib Require Import Ascii.
From stdpp Require Import base list list_numbers numbers option strings pretty.
From S2P Require Import Prelude Samples Topics Network Client ClientProps Quectel QuectelProps.
#[local] Open Scope Z_scope.

(** ** What the modem and the server promise *)

(** The file on the server; the range that was last requested and the body of its
    response; the contents of the temporary file, and its open handle with the position;
    and how many requests the modem has taken, each of which it reports once. *)
Record Web : Type := mkWeb {
  served : list Z;
  request : option (Z * Z);
  body : list Z;
  stored : option (list Z);
  opened : option (Z * Z);
  asked : nat
}.

(** The commands that do not change a file that exists. *)
Definition reads_only {R} (c : AtCmd R) : bool :=
  match c with FileOpen _ _ | FileClose _ | FileSeek _ _ _ | FileRead _ _ => true | _ => false end.

(** The command that starts a request. *)
Definition is_get {R} (c : AtCmd R) : bool := match c with GETWithHeader _ _ _ => true | _ => false end.

(** The reports of requests. *)
Abbreviation get_reports l := (filter (λ u, variant u = VHTTPGet) l).

(** A report that is about the latest request. *)
Definition truthful (w : Web) (u : Urc) : Prop :=
  match u with
  | UHTTPGet _ (Some code) n =>
      ∀ lo hi, request w = Some (lo, hi) →
        (code = 206 → n = Some (len (body w)) ∧ body w = slice lo (hi + 1) (served w)) ∧
        (code = 200 → n = Some (len (body w)) ∧ body w = served w) ∧
        (code = 416 → len (served w) ≤ lo)
  | _ => True
  end.

(** Any command may fail, whether or not the modem has taken it.  A report is about the
    latest request only when it is the only one outstanding.  What [HttpStop] stops
    reports within the wait of the driver, whatever the answer to the command itself.  The
    answer to the reading of a file is complete, or one that [parse_read] refuses. *)
Class DownloadModem (A : Type) `{!Modem A, !ArrivalLaws A} (host path : string) : Type := {
  web : A → Web;
  web_receive a : web (receive a) = web a;
  web_wait_out t a : web (wait_out t a) = web a;
  web_delay t a : web (q_delay_ms t a) = web a;
  web_send R (c : AtCmd R) a :
    (at_send c a).1 ≠ Panic ∧ served (web (at_send c a).2) = served (web a) ∧
    (reads_only c = true → ∀ file, stored (web a) = Some file → stored (web (at_send c a).2) = Some file) ∧
    (is_get c = false → asked (web (at_send c a).2) = asked (web a));
  web_send_bytes bytes t a :
    (at_send_bytes bytes t a).1 ≠ Panic ∧ served (web (at_send_bytes bytes t a).2) = served (web a) ∧
    asked (web (at_send_bytes bytes t a).2) = asked (web a);
  request_law t n i a r a' : at_send (GETWithHeader t n i) a = (r, a') →
    (asked (web a') = asked (web a) ∧ r ≠ Ok tt) ∨ asked (web a') = S (asked (web a));
  header_law lo hi t a a' : 0 ≤ lo → 0 ≤ hi →
    at_send_bytes (bytes_of (request_header host path lo hi)) t a = (Ok tt, a') → request (web a') = Some (lo, hi);
  report_law t a : (length (get_reports (arrived a ++ upcoming t a)) ≤ asked (web a))%nat;
  get_law t a u : asked (web a) = S (length (get_reports (arrived a))) → u ∈ upcoming t a → truthful (web a) u;
  stop_law a : let a' := (at_send HttpStop a).2 in
    (asked (web a') ≤ S (length (get_reports (arrived a'))) →
     asked (web a') ≤ length (get_reports (arrived a' ++ upcoming HTTP_STOP_URC_WAIT_MS a')))%nat;
  read_file_law w t a a' :
    at_send (HttpReadFile TMP_FILE w) a = (Ok tt, a') → UHTTPReadFile 0 ∈ upcoming t a' → stored (web a') = Some (body (web a));
  open_law a h a' : at_send (FileOpen TMP_FILE 0) a = (Ok h, a') → opened (web a') = Some (h, 0);
  seek_law a h p o a' :
    opened (web a) = Some (h, p) → at_send (FileSeek h o 0) a = (Ok tt, a') → opened (web a') = Some (h, o);
  read_law a h p file n bytes a' :
    opened (web a) = Some (h, p) → stored (web a) = Some file → 0 ≤ n → at_send (FileRead h n) a = (Ok bytes, a') →
    parse_read bytes = None ∨
    ∃ data rest, drop (Z.to_nat p) file = data ++ rest ∧ len data ≤ n ∧ bytes = read_response data ∧
      opened (web a') = Some (h, p + len data)
}.

(** A file is handed out in full chunks, but for the last. *)
Fixpoint read_all {A} `{!Modem A} (turns : nat) (n : Z) (q : Quectel A) : list (list Z) * option FileError * Quectel A :=
  match turns with
  | O => ([], None, q)
  | S turns =>
      match mq_read_file_chunk n q with
      | (Ok chunk, q) => let '(l, e, q) := read_all turns n q in (chunk :: l, e, q)
      | (Err e, q) => ([], Some e, q)
      | (Panic, q) => ([], None, q)
      end
  end.

Section download.
Context {A : Type} {mdm : Modem A} {arr : ArrivalLaws A} {host path : string} {laws : DownloadModem A host path}.
Context {url : string} (Hurl : split_url url = Some (host, path)).
Implicit Types (q : Quectel A) (d : Download).

Definition the_file q : list Z := served (web (modem q)).

Definition reported q : nat := length (get_reports (arrived (modem q))).

(** No report is outstanding; or one may be. *)
Definition settled q : Prop := asked (web (modem q)) = reported q.
Definition one_left q : Prop := (asked (web (modem q)) ≤ S (reported q))%nat.

(** What no command changes. *)
Definition same q q' : Prop := the_file q' = the_file q ∧ download q' = download q ∧ file_handle q' = file_handle q.
Definition mild q q' : Prop := same q q' ∧ (settled q → settled q').

Lemma same_trans q q1 q2 : same q q1 → same q1 q2 → same q q2.
Proof. unfold same. intuition congruence. Qed.
Lemma mild_refl q : mild q q.
Proof. done. Qed.
Lemma mild_trans q q1 q2 : mild q q1 → mild q1 q2 → mild q q2.
Proof. intros [] []. split; [by apply (same_trans _ q1)|auto]. Qed.

Lemma settled_one_left q : settled q → one_left q.
Proof. unfold settled, one_left. lia. Qed.

(** The state of the modem after a command other than the one that starts a request. *)
Lemma mild_modem q m :
  served (web m) = served (web (modem q)) → asked (web m) = asked (web (modem q)) → arrived m = arrived (modem q) → mild q (set_modem m q).
Proof. unfold mild, same, settled, reported, the_file. cbn. by intros -> -> ->. Qed.

Lemma wp_send_mild {R} (c : AtCmd R) q : is_get c = false → wp (send c) (λ _ q', mild q q') (λ _ q', mild q q') q.
Proof.
  intros Hc. unfold wp, send, map_err, on_modem, zoom. pose proof (web_send R c (modem q)) as (Hp & Hs & _ & Ha).
  pose proof (mild_modem q (at_send c (modem q)).2 Hs (Ha Hc) (arrived_send _ _ _)). destruct (at_send c (modem q)) as [[r|e|] m]; done.
Qed.
Lemma wp_send_bytes_mild bytes t q : wp (send_bytes bytes t) (λ _ q', mild q q') (λ _ q', mild q q') q.
Proof.
  unfold wp, send_bytes, map_err, on_modem, zoom. pose proof (web_send_bytes bytes t (modem q)) as (Hp & Hs & Ha).
  pose proof (mild_modem q (at_send_bytes bytes t (modem q)).2 Hs Ha (arrived_bytes _ _ _)). destruct (at_send_bytes bytes t (modem q)) as [[r|e|] m]; done.
Qed.
Lemma wp_try_mild {E R} (c : AtCmd R) q : is_get c = false → wp (try_send (E := E) c) (λ _ q', mild q q') (λ _ _, False) q.
Proof.
  intros Hc. unfold wp, try_send, attempt, on_modem, zoom. pose proof (web_send R c (modem q)) as (Hp & Hs & _ & Ha).
  pose proof (mild_modem q (at_send c (modem q)).2 Hs (Ha Hc) (arrived_send _ _ _)). destruct (at_send c (modem q)) as [[r|e|] m]; done.
Qed.

(** The messages that a wait takes, and what it returns. *)
Definition taken v (l : list Urc) (u : option Urc) (before : list Urc) : Prop :=
  (∀ x, x ∈ before → variant x ≠ v) ∧
  match u with
  | Some x => variant x = v ∧ ∃ rest, l = before ++ x :: rest
  | None => l = before
  end.

(** A wait changes nothing but the number of reports. *)
Lemma await_loop_calm {E} v t l q :
  coming (modem q) l →
  wp (await_loop (E := E) v t l)
    (λ u q', same q q' ∧ web (modem q') = web (modem q) ∧ ∃ before, taken v l u before ∧
       arrived (modem q') = arrived (modem q) ++ before ++ option_list u) (λ _ _, False) q.
Proof.
  revert q. induction l as [|u l IH]; intros q Hc.
  - cbn [await_loop]. unfold outside. apply wp_bind, wp_modify, wp_ret. unfold same, the_file. cbn. rewrite web_wait_out, arrived_wait_out.
    split; [done|]. split; [done|]. exists []. rewrite !app_nil_r. split; [|done]. split; [intros x Hx; by apply elem_of_nil in Hx|done].
  - apply coming_receive in Hc as [Ha Hc]. cbn [await_loop]. unfold outside at 1. apply wp_bind, wp_modify. case_bool_decide as Hv.
    + apply wp_ret. unfold same, the_file. cbn. rewrite web_receive, Ha. split; [done|]. split; [done|]. exists []. split; [|done].
      split; [intros x Hx; by apply elem_of_nil in Hx|]. split; [done|by exists l].
    + unfold wp, mbind, M_bind. rewrite unexpected_urc_run. eapply wp_mono; [apply IH; exact Hc| |done].
      intros x q' (Hm & Hw & before & [Hb Hx] & Har). unfold same, the_file in *. cbn in *. rewrite Hw, web_receive in *. rewrite Ha, <- (assoc_L (++)) in Har.
      split; [done|]. split; [done|]. exists (u :: before). split; [|done]. split.
      { intros y Hy. apply elem_of_cons in Hy as [->|Hy]; [done|by apply Hb]. }
      destruct x as [x|]; [|by subst]. destruct Hx as [? [rest ->]]. split; [done|by exists rest].
Qed.
Lemma wp_await {E} v t q :
  wp (await_urc_for (E := E) v t)
    (λ u q', same q q' ∧ web (modem q') = web (modem q) ∧ ∃ before, taken v (upcoming t (modem q)) u before ∧
       arrived (modem q') = arrived (modem q) ++ before ++ option_list u) (λ _ _, False) q.
Proof. unfold await_urc_for. apply wp_bind, wp_gets, await_loop_calm, coming_upcoming. Qed.

(** While no report is outstanding, none comes. *)
Lemma settled_await v t q q' u before :
  web (modem q') = web (modem q) → taken v (upcoming t (modem q)) u before →
  arrived (modem q') = arrived (modem q) ++ before ++ option_list u → settled q → settled q'.
Proof.
  intros Hw [_ Ht] Ha Hs. pose proof (report_law t (modem q)) as Hr. unfold settled, reported in *. rewrite Hw, Ha.
  assert (∃ rest, upcoming t (modem q) = (before ++ option_list u) ++ rest) as [rest Hu].
  { destruct u as [u|]; cbn in *; [destruct Ht as [_ [rest ->]]; exists rest; by rewrite <- (assoc_L (++))|exists []; by rewrite !app_nil_r]. }
  rewrite Hu in Hr. rewrite !filter_app, !length_app in *. lia.
Qed.

(** A wait for the report takes it. *)
Lemma await_report l u before : taken VHTTPGet l u before → length (get_reports (before ++ option_list u)) = match u with Some _ => 1%nat | None => 0%nat end.
Proof.
  intros [Hb Hu]. rewrite filter_app, length_app. assert (get_reports before = []) as ->.
  { destruct (get_reports before) as [|x l'] eqn:Hl; [done|]. assert (x ∈ get_reports before) as Hx by (rewrite Hl; by left).
    apply list_elem_of_filter in Hx as [Hv Hx]. by destruct (Hb x Hx). }
  destruct u as [u|]; [|done]. destruct Hu as [Hv _]. cbn. by rewrite decide_True by done.
Qed.

(** *** Closing and cleaning up *)

Definition closed q q' : Prop := the_file q' = the_file q ∧ download q' = download q ∧ file_handle q' = None ∧ (settled q → settled q').

Lemma wp_close q :
  let P := λ q', closed q q' ∧ ∀ file, stored (web (modem q)) = Some file → stored (web (modem q')) = Some file in
  wp close_file (λ _, P) (λ _, P) q.
Proof.
  unfold close_file. cbv zeta. apply wp_bind, wp_gets. destruct (file_handle q) as [h|] eqn:Hh; [|apply wp_ret; by split_and!].
  apply wp_bind, wp_modify. unfold wp, send, map_err, on_modem, zoom.
  pose proof (web_send _ (FileClose h) (modem q)) as (Hp & Hs & Hst & Ha).
  pose proof (mild_modem q (at_send (FileClose h) (modem q)).2 Hs (Ha eq_refl) (arrived_send _ _ _)) as [_ Hset]. unfold settled, reported in *.
  destruct q; cbn in *. destruct (at_send _ _) as [[r|e|] m]; cbn in *; [| |done]; (split; [done|by apply Hst]).
Qed.

Lemma wp_discard q : wp discard_slice_file (λ _ q', closed q q') (λ _ _, False) q.
Proof.
  unfold discard_slice_file. apply wp_bind, wp_attempt. eapply wp_mono; [apply wp_close|..]; intros ? q1 [(H1 & H2 & H3 & S1) _].
  all: apply wp_bind, wp_attempt; unfold delete_file; change (filename_try_from TMP_FILE) with (mret (M := M (Quectel A) QError) TMP_FILE);
    apply wp_bind, wp_ret; eapply wp_mono; [by apply wp_send_mild|..]; intros ? q2 [(H4 & H5 & H6) S2]; apply wp_ret; (split_and!; [congruence..|auto]).
Qed.

Lemma wp_try_run {E R} (c : AtCmd R) q : wp (try_send (E := E) c) (λ _ q', q' = set_modem (at_send c (modem q)).2 q) (λ _ _, False) q.
Proof.
  unfold wp, try_send, attempt, on_modem, zoom. pose proof (web_send R c (modem q)) as [Hp _]. by destruct (at_send c (modem q)) as [[r|e|] m].
Qed.

(** The request that may be in progress is stopped, and its report is taken. *)
Lemma wp_cancel q : one_left q → wp cancel_http_request (λ _ q', same q q' ∧ settled q') (λ _ _, False) q.
Proof.
  intros Hone. unfold cancel_http_request. apply wp_bind. eapply wp_mono; [apply wp_try_run|intros ? q1 ->|done].
  pose proof (web_send _ HttpStop (modem q)) as (_ & Hs & _ & Ha). specialize (Ha eq_refl).
  pose proof (arrived_send _ HttpStop (modem q)) as Har. pose proof (stop_law (modem q)) as Hstop. cbv zeta in Hstop.
  set (m := (at_send HttpStop (modem q)).2) in *. unfold one_left, reported in Hone. rewrite Ha, Har in Hstop. specialize (Hstop Hone).
  apply wp_bind. eapply wp_mono; [apply wp_await|intros u q2 (Hm & Hw & before & Ht & Hr)|done]. cbn [modem set_modem] in *.
  apply wp_ret. split; [apply (same_trans _ (set_modem m q)); [by split|done]|].
  pose proof (await_report _ _ _ Ht) as Hlen. pose proof (report_law HTTP_STOP_URC_WAIT_MS m) as Hrep. unfold settled, reported.
  rewrite Hw, Hr, Ha, Har, !filter_app, !length_app in *.
  destruct u as [u|]; [|destruct Ht as [_ <-]; cbn in *; lia].
  destruct Ht as [Hb [_ [rest Ht]]]. change (u :: rest) with ([u] ++ rest) in Ht.
  rewrite Ht, !filter_app, !length_app in Hrep. change (option_list (Some u)) with [u] in *. lia.
Qed.

Lemma wp_delay_calm {E} t q : wp (delay_ms (E := E) t) (λ _ q', mild q q' ∧ web (modem q') = web (modem q)) (λ _ _, False) q.
Proof. unfold delay_ms, outside. apply wp_modify. unfold mild, same, settled, reported, the_file. cbn. by rewrite web_delay, arrived_delay. Qed.

(** *** Fetching a slice *)

Definition slice_size (file : list Z) (offset : Z) : Z := Z.min DOWNLOAD_SLICE_LEN (len file - offset).

(** The slice at [offset] is in the temporary file, and none of it has been read. *)
Definition fetched (offset : Z) q q' : Prop :=
  let n := slice_size (the_file q) offset in
  the_file q' = the_file q ∧ file_handle q' = file_handle q ∧
  download q' = Some (mkDownload url offset n 0 (n <? DOWNLOAD_SLICE_LEN)) ∧
  (0 < n → stored (web (modem q')) = Some (slice offset (offset + n) (the_file q))) ∧ settled q'.

(** An attempt that failed. *)
Definition tried q q' : Prop := same q q' ∧ one_left q'.

(** The server has the file, and offsets fit in 32 bits. *)
Definition fits q : Prop := len (the_file q) + DOWNLOAD_SLICE_LEN < u32_size.

Lemma len_part lo hi (l : list Z) : 0 ≤ lo ≤ hi → hi ≤ len l → len (slice lo hi l) = hi - lo.
Proof. intros Hlo Hhi. unfold len, slice in *. rewrite length_take, length_drop. lia. Qed.

Lemma slice_clip lo hi (l : list Z) : 0 ≤ lo ≤ len l → len l ≤ hi → slice lo hi l = slice lo (len l) l.
Proof. intros Hlo Hhi. unfold slice, len in *. rewrite !take_ge by (rewrite length_drop; lia). done. Qed.

(** The length that the answer reports is that of the slice, which is the body. *)
Lemma slice_len_of_truthful q offset u n :
  0 ≤ offset ≤ len (the_file q) → request (web (modem q)) = Some (offset, offset + DOWNLOAD_SLICE_LEN - 1) →
  truthful (web (modem q)) u → variant u = VHTTPGet → slice_len_of offset (Some u) = inl n →
  n = slice_size (the_file q) offset ∧ (0 < n → body (web (modem q)) = slice offset (offset + n) (the_file q)).
Proof.
  intros Ho Hreq Ht Hv. destruct u; try discriminate Hv. clear Hv. unfold slice_len_of, slice_size, the_file, DOWNLOAD_SLICE_LEN in *.
  destruct resp as [code|]; [|done]. cbn in Ht. destruct (Ht _ _ Hreq) as (H206 & H200 & H416).
  set (F := served (web (modem q))) in *. replace (offset + 16000 - 1 + 1) with (offset + 16000) in H206 by lia.
  assert (Hend : code = 416 → n = 0 → n = Z.min 16000 (len F - offset) ∧ (0 < n → body (web (modem q)) = slice offset (offset + n) F)).
  { intros Hc ->. specialize (H416 Hc). split; [lia|lia]. }
  destruct content_length as [k|].
  - destruct (Z.eqb_spec code 206) as [Hc|_].
    { intros [= <-]. destruct (H206 Hc) as [[= ->] Hb]. rewrite Hb.
      destruct (decide (offset + 16000 ≤ len F)) as [Hle|Hgt].
      - rewrite len_part by lia. split; [lia|]. intros _. by replace (offset + (offset + 16000 - offset)) with (offset + 16000) by lia.
      - rewrite slice_clip, len_part by lia. split; [lia|]. intros _. by replace (offset + (len F - offset)) with (len F) by lia. }
    destruct (Z.eqb_spec code 200) as [Hc|_].
    { destruct (Z.eqb_spec offset 0) as [Ho0|]; [|done]. destruct (Z.leb_spec k 16000); [|done]. cbn. intros [= <-].
      destruct (H200 Hc) as [[= ->] Hb]. rewrite Hb in *. subst offset. split; [lia|]. intros _. unfold slice.
      by rewrite take_ge by (rewrite length_drop; unfold len; lia). }
    destruct (Z.eqb_spec code 416) as [Hc|_]; [|done]. intros [= <-]. by apply Hend.
  - destruct (Z.eqb_spec code 416) as [Hc|_]; [|done]. intros [= <-]. by apply Hend.
Qed.

Lemma u32_run {E} (m : M (Quectel A) E Z) (n : Z) q (Q : Z → Quectel A → Prop) R : m q = (Ok n, q) → Q n q → wp m Q R q.
Proof. intros Hm HQ. unfold wp. by rewrite Hm. Qed.

(** What follows the report: the body goes to the temporary file. *)
Lemma wp_store offset n q :
  n = slice_size (the_file q) offset → (0 < n → body (web (modem q)) = slice offset (offset + n) (the_file q)) → settled q →
  wp ((if n =? 0 then mret tt
       else
         send (HttpReadFile TMP_FILE HTTP_RSP_TIME_S);;
         u ← await_urc VHTTPReadFile;
         match u with
         | Some (UHTTPReadFile err) => if err =? 0 then mret tt else fail (QMQTT "Read to File failed")
         | _ => fail QTimeOut
         end);;
      modify (set_download (Some (mkDownload url offset n 0 (n <? DOWNLOAD_SLICE_LEN)))))
    (λ _ q', fetched offset q q') (λ _ q', tried q q') q.
Proof.
  intros Hsize Hbody Hs.
  assert (Hdone : ∀ q', mild q q' → (0 < n → stored (web (modem q')) = Some (slice offset (offset + n) (the_file q))) →
    wp (E := QError) (modify (set_download (Some (mkDownload url offset n 0 (n <? DOWNLOAD_SLICE_LEN))))) (λ _ q', fetched offset q q') (λ _ q', tried q q') q').
  { intros q' [(Hf & _ & Hh) Hq] Hst. apply wp_modify. unfold fetched. rewrite <- Hsize. split_and!; auto. }
  assert (Htried : ∀ q', mild q q' → tried q q').
  { intros q' [Hm Hq]. split; [done|]. by apply settled_one_left, Hq. }
  apply wp_bind. destruct (Z.eqb_spec n 0) as [Hn0|Hn0]; [apply wp_ret, Hdone; [done|lia]|].
  apply wp_bind. unfold wp at 1, send, map_err, on_modem, zoom.
  pose proof (read_file_law HTTP_RSP_TIME_S (timeout VHTTPReadFile) (modem q)) as Hst.
  pose proof (web_send _ (HttpReadFile TMP_FILE HTTP_RSP_TIME_S) (modem q)) as (Hp & Hsv & _ & Ha).
  pose proof (mild_modem q _ Hsv (Ha eq_refl) (arrived_send _ _ _)) as H1.
  destruct (at_send _ _) as [[[]|e|] m]; cbn [fst snd] in *; [|by apply Htried|done].
  apply wp_bind. eapply wp_mono; [apply wp_await|intros u q2 (Hm & Hw & before & Ht & Har)|done].
  assert (H2 : mild q q2).
  { apply (mild_trans _ (set_modem m q)); [done|]. split; [done|]. by eapply settled_await. }
  destruct u as [u|]; [|apply wp_fail, Htried, H2]. destruct Ht as [_ [Hv [rest Hup]]].
  destruct u; try discriminate Hv. destruct (Z.eqb_spec err 0) as [->|]; [|apply wp_fail, Htried, H2].
  apply wp_ret, Hdone; [done|]. intros Hpos. rewrite Hw. cbn [modem set_modem] in *. rewrite (Hst m eq_refl); [f_equal; auto|].
  rewrite Hup. apply elem_of_app. right. by left.
Qed.

(** The request is taken: one report is owed. *)
Lemma wp_get t n i q :
  settled q →
  wp (send (GETWithHeader t n i)) (λ _ q', same q q' ∧ asked (web (modem q')) = S (reported q')) (λ _ q', tried q q') q.
Proof.
  intros Hset. unfold settled, reported in Hset. unfold wp, send, map_err, on_modem, zoom.
  pose proof (web_send _ (GETWithHeader t n i) (modem q)) as (Hp & Hs & _). pose proof (arrived_send _ (GETWithHeader t n i) (modem q)) as Ha.
  pose proof (request_law t n i (modem q)) as Hk. destruct (at_send _ _) as [r m]. specialize (Hk r m eq_refl). cbn [fst snd] in *.
  unfold tried, one_left, same, the_file, reported. destruct r as [[]|e|]; [| |done]; cbn; rewrite Ha; (split; [done|]).
  - destruct Hk as [[]|Hk]; [done|lia].
  - destruct Hk as [[]|]; lia.
Qed.

Lemma wp_header lo hi q :
  0 ≤ lo → 0 ≤ hi → asked (web (modem q)) = S (reported q) →
  wp (send_bytes (bytes_of (request_header host path lo hi)) 1000)
    (λ _ q', same q q' ∧ asked (web (modem q')) = S (reported q') ∧ request (web (modem q')) = Some (lo, hi)) (λ _ q', tried q q') q.
Proof.
  intros Hlo Hhi Hone. unfold wp, send_bytes, map_err, on_modem, zoom. set (bytes := bytes_of _).
  pose proof (header_law lo hi 1000 (modem q)) as Hreq. pose proof (web_send_bytes bytes 1000 (modem q)) as (Hp & Hs & Hk).
  pose proof (arrived_bytes bytes 1000 (modem q)) as Ha. fold bytes in Hreq. destruct (at_send_bytes _ _ _) as [r m]. cbn [fst snd] in *.
  unfold tried, one_left, same, the_file, reported in *. destruct r as [[]|e|]; [| |done]; cbn; rewrite Ha, Hk; (split; [done|]); [|lia].
  split; [done|]. by apply Hreq.
Qed.

(** Only while no report is outstanding is the next one about this request. *)
Lemma wp_fetch offset d q :
  download q = Some d → dl_url d = url → 0 ≤ offset ≤ len (the_file q) → fits q → settled q →
  wp (fetch_slice offset) (λ _ q', fetched offset q q') (λ _ q', tried q q') q.
Proof using Hurl.
  intros Hd Hu Ho Hfit Hset. unfold fits, DOWNLOAD_SLICE_LEN in Hfit. unfold fetch_slice.
  apply wp_bind, wp_gets. rewrite Hd. apply wp_bind.
  apply (u32_run _ (offset + DOWNLOAD_SLICE_LEN - 1)).
  { unfold u32_add, u32_sub, DOWNLOAD_SLICE_LEN. unfold mbind, M_bind.
    rewrite (proj2 (Z.ltb_lt _ _)) by lia. cbn. rewrite (proj2 (Z.leb_le _ _)) by lia. done. }
  rewrite Hu, Hurl. cbv zeta. destruct (_ <? _); [apply wp_fail; split; [done|by apply settled_one_left]|].
  apply wp_bind. eapply wp_mono; [by apply wp_get|intros ? q1 [M1 Hone1]|done].
  apply wp_bind. eapply wp_mono; [by apply wp_header; [lia|unfold DOWNLOAD_SLICE_LEN; lia|]|intros ? q2 (M12 & Hone & Hreq)|].
  2: { intros ? q2 [M12 O2]. split; [by apply (same_trans _ q1)|done]. }
  assert (M2 : same q q2) by (by apply (same_trans _ q1)).
  apply wp_bind. eapply wp_mono; [apply wp_await|intros u q3 (H3 & Hw3 & before & Ht & Har)|done].
  assert (M3 : same q q3) by (by apply (same_trans _ q2)). pose proof (await_report _ _ _ Ht) as Hlen.
  assert (Hrep : reported q3 = (reported q2 + match u with Some _ => 1 | None => 0 end)%nat)
    by (unfold reported; by rewrite Har, filter_app, length_app, Hlen).
  assert (Hfail : tried q q3) by (split; [done|]; unfold one_left; rewrite Hw3, Hone, Hrep; lia).
  destruct (slice_len_of offset u) as [n|e] eqn:Hn; [|by apply wp_fail].
  destruct u as [u|]; [|done]. destruct Ht as [_ [Hv [rest Hup]]].
  assert (Hin : u ∈ upcoming (timeout VHTTPGet) (modem q2)) by (rewrite Hup; apply elem_of_app; right; by left).
  destruct M3 as (F3 & D3 & N3). assert (F2 : the_file q2 = the_file q) by apply M2.
  destruct (slice_len_of_truthful q2 offset u n) as [Hsize Hbody]; [by rewrite F2|done|by eapply get_law|done|done|].
  eapply wp_mono; [apply (wp_store offset n q3)|..].
  - by rewrite F3, <- F2.
  - rewrite Hw3, F3, <- F2. exact Hbody.
  - unfold settled. rewrite Hw3, Hone, Hrep. lia.
  - intros ? q4. unfold fetched. by rewrite F3, N3.
  - intros ? q4 [M4 O4]. split; [|done]. by apply (same_trans _ q3).
Qed.

Lemma wp_fetch_retry offset d q :
  download q = Some d → dl_url d = url → 0 ≤ offset ≤ len (the_file q) → fits q → settled q → file_handle q = None →
  wp (fetch_slice_with_retry offset) (λ _ q', fetched offset q q') (λ _ q', the_file q' = the_file q) q.
Proof using Hurl.
  unfold fetch_slice_with_retry, SLICE_ATTEMPTS. generalize 2%nat as k. intros k. revert q.
  induction k as [|k IH]; intros q Hd Hu Ho Hfit Hset Hh; cbn [fetch_slice_loop].
  all: apply wp_bind, wp_attempt; eapply wp_mono; [by apply (wp_fetch offset d)|intros ? q1 H1; by apply wp_ret|].
  all: intros e q1 [(F1 & D1 & N1) O1]; case_bool_decide; try done.
  apply wp_bind. eapply wp_mono; [by apply wp_cancel|intros ? q2 [(F2 & D2 & N2) S2]|done].
  apply wp_bind. eapply wp_mono; [apply wp_discard|intros ? q3 (F3 & D3 & N3 & S3)|done].
  apply wp_bind. eapply wp_mono; [apply wp_delay_calm|intros ? q4 [[(F4 & D4 & N4) S4] _]|done].
  assert (F : the_file q4 = the_file q) by congruence. unfold fits in *.
  eapply wp_mono; [apply IH; congruence || (by rewrite F) || auto|..].
  - intros ? q5 (F5 & N5 & D5 & S5). unfold fetched. rewrite <- F. split; [done|]. split; [congruence|]. by split.
  - cbn. intros ? q5 F5. congruence.
Qed.

(** *** Reading a slice *)

(** The slice of the download is in the temporary file. *)
Record sliced q d : Prop := {
  sl_download : download q = Some d;
  sl_url : dl_url d = url;
  sl_offset : 0 ≤ slice_offset d ≤ len (the_file q);
  sl_len : slice_len d = slice_size (the_file q) (slice_offset d);
  sl_read : 0 ≤ slice_read d ≤ slice_len d;
  sl_complete : dl_complete d = (slice_len d <? DOWNLOAD_SLICE_LEN);
  sl_stored : 0 < slice_len d → stored (web (modem q)) = Some (slice (slice_offset d) (slice_offset d + slice_len d) (the_file q));
  sl_fits : fits q;
  sl_settled : settled q
}.

(** Moreover a handle that is open is where the previous read ended. *)
Definition reading q d : Prop := sliced q d ∧ ∀ h, file_handle q = Some h → opened (web (modem q)) = Some (h, slice_read d).

Definition file_position d : Z := slice_offset d + slice_read d.
Definition advance d (n : Z) : Download :=
  mkDownload (dl_url d) (slice_offset d) (slice_len d) (slice_read d + n) (dl_complete d).

Lemma sliced_frame q q' d :
  the_file q' = the_file q → download q' = Some d →
  (∀ file, stored (web (modem q)) = Some file → stored (web (modem q')) = Some file) → (settled q → settled q') → sliced q d → sliced q' d.
Proof. intros Hf Hd Hst Hset [? ? ? ? ? ? ? ? ?]. split; rewrite ?Hf; try done; [auto| |auto]. unfold fits in *. by rewrite Hf. Qed.

(** Commands that leave the temporary file alone. *)
Lemma sliced_send {R} (c : AtCmd R) q q1 d m r :
  reads_only c = true → at_send c (modem q) = (r, m) → modem q1 = m → download q1 = Some d → sliced q d →
  r ≠ Panic ∧ sliced q1 d ∧ the_file q1 = the_file q.
Proof.
  intros Hc Hrun Hm Hd Hs. pose proof (web_send _ c (modem q)) as (Hp & Hf & Hst & Ha). pose proof (arrived_send _ c (modem q)) as Har.
  rewrite Hrun in *. cbn [fst snd] in *. subst m. split; [done|]. split; [|done].
  apply (sliced_frame q); try done; [by apply Hst|]. unfold settled, reported. rewrite Har. intros <-. apply Ha. by destruct c.
Qed.

Lemma part_of_part lo hi p k (l rest data : list Z) :
  0 ≤ lo → 0 ≤ p → drop (Z.to_nat p) (slice lo hi l) = data ++ rest → k = len data → data = slice (lo + p) (lo + p + k) l.
Proof.
  intros Hlo Hp Hd ->. unfold slice in *. rewrite skipn_firstn_comm, drop_drop in Hd.
  replace (Z.to_nat (lo + p)) with (Z.to_nat lo + Z.to_nat p)%nat by lia.
  replace (Z.to_nat (lo + p + len data - (lo + p))) with (length data) by (unfold len; lia).
  apply (f_equal (take (length data))) in Hd. rewrite take_app_length, take_take in Hd. rewrite <- Hd at 1.
  f_equal. apply (f_equal length) in Hd. rewrite length_take in Hd. lia.
Qed.

(** The handle that [read_slice] uses is at the position of the download. *)
Lemma wp_open_handle d q :
  reading q d →
  wp (match file_handle q with
      | Some handle => mret handle
      | None =>
          handle ← send (FileOpen TMP_FILE 0);
          modify (set_handle (Some handle));;
          send (FileSeek handle (slice_read d) 0);;
          mret handle
      end)
    (λ h q', sliced q' d ∧ the_file q' = the_file q ∧ file_handle q' = Some h ∧ opened (web (modem q')) = Some (h, slice_read d))
    (λ _ q', sliced q' d ∧ the_file q' = the_file q) q.
Proof.
  intros [Hs Hh]. destruct (file_handle q) as [h|] eqn:Hq; [apply wp_ret; auto|]. pose proof (sl_download _ _ Hs) as Hd.
  apply wp_bind. unfold wp at 1, send, map_err, on_modem, zoom.
  destruct (at_send (FileOpen TMP_FILE 0) (modem q)) as [r m] eqn:Hopen.
  destruct (sliced_send (FileOpen TMP_FILE 0) q (set_modem m q) d m r) as (Hp & Hs1 & F1); try done. destruct r as [h|e|]; [|done..].
  apply open_law in Hopen. apply wp_bind, wp_modify, wp_bind. unfold wp at 1, send, map_err, on_modem, zoom.
  set (q1 := set_handle (Some h) (set_modem m q)). assert (Hs1' : sliced q1 d) by (by destruct Hs1).
  destruct (at_send (FileSeek h (slice_read d) 0) (modem q1)) as [r m'] eqn:Hseek.
  destruct (sliced_send (FileSeek h (slice_read d) 0) q1 (set_modem m' q1) d m' r eq_refl Hseek) as (Hp' & Hs2 & F2); try done.
  assert (F : the_file (set_modem m' q1) = the_file q) by (rewrite F2; exact F1). destruct r as [[]|e|]; [|done..].
  apply wp_ret. split; [done|]. split; [done|]. split; [done|]. by eapply seek_law.
Qed.

Lemma wp_read_slice size d q :
  reading q d → 0 < size ≤ slice_remaining d → size ≤ MAX_FILE_CHUNK_LEN →
  wp (read_slice size)
    (λ part q', the_file q' = the_file q ∧ reading q' (advance d (len part)) ∧ 0 < len part ≤ size ∧
       part = slice (file_position d) (file_position d + len part) (the_file q))
    (λ _ q', sliced q' d ∧ the_file q' = the_file q) q.
Proof.
  intros Hr Hsize Hmax. pose proof Hr as [Hs _]. unfold read_slice. apply wp_bind, wp_gets. rewrite (sl_download _ _ Hs).
  unfold slice_remaining in Hsize. unfold MAX_FILE_CHUNK_LEN in *.
  apply wp_bind, wp_gets, wp_bind. eapply wp_mono; [by apply wp_open_handle|intros h q1 (Hs1 & Hf1 & Hh1 & Ho1)|done].
  pose proof Hs1 as [Hd1 Hu1 Hoff1 Hlen1 Hread1 Hc1 Hst1 Hfit1 _]. specialize (Hst1 ltac:(lia)).
  apply wp_bind. unfold wp at 1, map_err, send_read, on_modem, zoom, mbind at 1, M_bind at 1.
  destruct (at_send (FileRead h size) (modem q1)) as [r m] eqn:Hread.
  destruct (sliced_send (FileRead h size) q1 (set_modem m q1) d m r eq_refl Hread) as (Hp & Hs2 & F2); try done. rewrite Hf1 in F2.
  destruct r as [bytes|e|]; [|done..].
  destruct (read_law (modem q1) h (slice_read d) _ size bytes m Ho1 Hst1 ltac:(lia) Hread) as [Hbad|(data & rest & Hdrop & Hdlen & -> & Hop)].
  { by rewrite Hbad. }
  rewrite parse_read_response by (unfold FILE_READ_CAPACITY; lia). unfold mret at 1, M_ret at 1.
  rewrite Z.min_l by done. cbv zeta. destruct (Z.eqb_spec (len data) 0) as [Hz|Hz]; [by apply wp_fail|].
  assert (0 < len data) by (unfold len in *; lia).
  apply wp_bind. rewrite (proj2 (Z.ltb_ge _ _)) by lia. apply wp_ret, wp_bind.
  assert (Hslice : len data ≤ slice_len d - slice_read d) by lia.
  assert (Hsz : slice_size (the_file q1) (slice_offset d) ≤ 16000) by (unfold slice_size, DOWNLOAD_SLICE_LEN; lia).
  apply (u32_run _ (slice_read d + len data)).
  { unfold u32_add. by rewrite (proj2 (Z.ltb_lt _ _)) by (unfold u32_size; lia). }
  apply wp_bind, wp_modify, wp_ret. rewrite (take_ge data) by (unfold len; lia).
  split; [done|]. split; [|split; [done|]].
  - split.
    + destruct Hs2. split; cbn; try done. lia.
    + cbn. rewrite Hh1. intros h' [= <-]. done.
  - rewrite <- Hf1. unfold file_position. by eapply part_of_part; [lia|lia|exact Hdrop|].
Qed.

Lemma fetched_sliced offset q q' :
  0 ≤ offset ≤ len (the_file q) → fits q → fetched offset q q' →
  sliced q' (mkDownload url offset (slice_size (the_file q) offset) 0 (slice_size (the_file q) offset <? DOWNLOAD_SLICE_LEN)).
Proof.
  intros Ho Hfit (Hf & Hh & Hd & Hst & Hset). assert (0 ≤ slice_size (the_file q) offset) by (unfold slice_size, DOWNLOAD_SLICE_LEN; lia).
  split; cbn; rewrite ?Hf; try done. unfold fits in *. by rewrite Hf.
Qed.

Definition read_part d size q (part : list Z) q' : Prop :=
  the_file q' = the_file q ∧ reading q' (advance d (len part)) ∧ 0 < len part ≤ size ∧
  part = slice (file_position d) (file_position d + len part) (the_file q).

(** The slice is fetched again, and reading goes on where it was. *)
Lemma wp_refetch d q :
  sliced q d → file_handle q = None →
  wp (discard_slice_file;;
      fetch_slice_with_retry (slice_offset d);;
      d' ← gets download;
      match d' with
      | None => panic
      | Some d' => modify (set_download (Some (mkDownload (dl_url d') (slice_offset d') (slice_len d') (slice_read d) (dl_complete d'))))
      end)
    (λ _ q', the_file q' = the_file q ∧ reading q' d) (λ _ q', the_file q' = the_file q) q.
Proof using Hurl.
  intros Hs Hh. apply wp_bind. eapply wp_mono; [apply wp_discard|intros ? q1 (F1 & D1 & N1 & S1)|done].
  destruct Hs as [Hd Hu Ho Hl Hr Hc _ Hfit Hset].
  apply wp_bind. eapply wp_mono; [apply (wp_fetch_retry (slice_offset d) d); [congruence|done|by rewrite F1|unfold fits in *; by rewrite F1|auto|done]
    |intros ? q2 H2|cbn; intros; congruence].
  pose proof (fetched_sliced _ _ _ ltac:(by rewrite F1) ltac:(unfold fits in *; by rewrite F1) H2) as Hs2.
  destruct H2 as (F2 & N2 & D2 & _). apply wp_bind, wp_gets. rewrite D2. apply wp_modify. cbn.
  rewrite F1, <- Hl, <- Hc, <- Hu in *. replace (mkDownload _ _ _ _ _) with d by (by destruct d).
  split; [change (the_file q2 = the_file q); congruence|]. split; [|intros h; cbn; congruence].
  destruct Hs2 as [_ _ Ho2 Hl2 _ _ Hst2 Hfit2 Hset2]. by split.
Qed.

Lemma wp_read_loop k again size d q :
  reading q d → 0 < size ≤ slice_remaining d → size ≤ MAX_FILE_CHUNK_LEN →
  wp (read_slice_loop size (Datatypes.S k) again) (read_part d size q) (λ _ q', the_file q' = the_file q) q.
Proof using Hurl.
  revert again q. induction k as [|k IH]; intros again q Hr Hsize Hmax; cbn [read_slice_loop].
  all: apply wp_bind, wp_attempt; eapply wp_mono; [by apply (wp_read_slice size d)|intros part q1 H1; by apply wp_ret|].
  all: intros e q1 [Hs1 Hf1]; apply wp_bind, wp_gets; rewrite (sl_download _ _ Hs1); case_bool_decide; try done.
  apply wp_bind. eapply wp_mono; [apply wp_delay_calm|intros ? q2 [[(F2 & D2 & N2) S2] W2]|done].
  pose proof (sl_download _ _ Hs1) as Hd1.
  assert (Hs2 : sliced q2 d) by (apply (sliced_frame q1); [done|by rewrite D2|by rewrite W2|done|done]).
  assert (Hnext : ∀ q3, the_file q3 = the_file q2 → reading q3 d →
    wp (read_slice_loop size (Datatypes.S k) true) (read_part d size q) (λ _ q', the_file q' = the_file q) q3).
  { intros q3 F3 R3. eapply wp_mono; [by apply IH|intros part q4 (F4 & R4 & L4 & S4)|cbn; intros; congruence].
    unfold read_part. by rewrite <- Hf1, <- F2, <- F3. }
  apply wp_bind, wp_attempt. eapply wp_mono; [apply wp_close|..].
  all: intros ? q3 [(F3 & D3 & N3 & S3) W3]; assert (Hs3 : sliced q3 d) by (apply (sliced_frame q2); [done|by rewrite D3, D2|done|done|done]).
  all: apply wp_bind; destruct again; [|apply wp_ret, Hnext; [done|split; [done|by rewrite N3]]].
  all: eapply wp_mono; [by apply wp_refetch|intros ? q4 [F4 R4]; apply Hnext; [congruence|done]|cbn; intros; congruence].
Qed.

(** *** A chunk *)

(** What was read of the file since [start]. *)
Lemma slice_step start mid end_ (l : list Z) : 0 ≤ start ≤ mid → mid ≤ end_ → slice start mid l ++ slice mid end_ l = slice start end_ l.
Proof.
  intros Hs He. unfold slice. replace (Z.to_nat (end_ - start)) with (Z.to_nat (mid - start) + Z.to_nat (end_ - mid))%nat by lia.
  rewrite <- (take_take_drop _ (Z.to_nat (mid - start)) (Z.to_nat (end_ - mid))), drop_drop.
  by replace (Z.to_nat start + Z.to_nat (mid - start))%nat with (Z.to_nat mid) by lia.
Qed.

Lemma sliced_position q d : sliced q d → 0 ≤ file_position d ≤ len (the_file q).
Proof. intros [_ _ Ho Hl Hr _ _ _ _]. unfold file_position, slice_size in *. lia. Qed.

(** A turn of the loop reads at least a byte, or fetches a slice to be read or the end. *)
Definition turns (n : Z) (chunk : list Z) d : Z :=
  2 * (n - len chunk) + 1 + (if (slice_remaining d =? 0) && negb (dl_complete d) then 1 else 0).

Lemma wp_chunk_loop fuel n start d chunk q :
  reading q d → 0 ≤ start ≤ file_position d → chunk = slice start (file_position d) (the_file q) → len chunk ≤ n → n ≤ MAX_FILE_CHUNK_LEN →
  turns n chunk d ≤ Z.of_nat fuel →
  wp (chunk_loop fuel n chunk)
    (λ chunk' q', the_file q' = the_file q ∧ ∃ d', reading q' d' ∧ start ≤ file_position d' ∧
       chunk' = slice start (file_position d') (the_file q) ∧ len chunk' ≤ n ∧ (len chunk' = n ∨ file_position d' = len (the_file q)))
    (λ _ q', the_file q' = the_file q) q.
Proof using Hurl.
  revert d chunk q. induction fuel as [|fuel IH]; intros d chunk q Hr Hstart Hchunk Hlen Hmax Hturns.
  { unfold turns in Hturns. destruct (_ && _); lia. }
  pose proof Hr as [Hs _]. pose proof (sliced_position _ _ Hs) as Hpos. pose proof Hs as [Hd Hu Ho Hl Hread Hc Hst Hfit Hset].
  assert (Hlc : len chunk = file_position d - start) by (rewrite Hchunk; apply len_part; lia).
  cbn [chunk_loop]. destruct (Z.ltb_spec (len chunk) n) as [Hlt|Hge].
  2: { apply wp_ret. split; [done|]. exists d. split; [done|]. split; [lia|]. split; [done|]. split; [done|]. left. lia. }
  apply wp_bind, wp_gets. rewrite Hd. apply wp_bind. apply (u32_run _ (slice_len d - slice_read d)).
  { unfold u32_sub. by rewrite (proj2 (Z.leb_le _ _)) by lia. }
  unfold turns, slice_remaining in Hturns. destruct (Z.eqb_spec (slice_len d - slice_read d) 0) as [Hz|Hz].
  - destruct (dl_complete d) eqn:Hcomp; symmetry in Hc.
    { apply wp_ret. split; [done|]. exists d. split; [done|]. split; [lia|]. split; [done|]. split; [done|]. right.
      apply Z.ltb_lt in Hc. unfold file_position, slice_size in *. lia. }
    apply Z.ltb_ge in Hc. unfold fits, slice_size, DOWNLOAD_SLICE_LEN, file_position in *.
    apply wp_bind. apply (u32_run _ (slice_offset d + slice_len d)).
    { unfold u32_add. by rewrite (proj2 (Z.ltb_lt _ _)) by lia. }
    apply wp_bind. eapply wp_mono; [apply wp_discard|intros ? q1 (F1 & D1 & N1 & T1)|done].
    apply wp_bind. eapply wp_mono; [apply (wp_fetch_retry (slice_offset d + slice_len d) d); [congruence|done|rewrite F1; lia|unfold fits; by rewrite F1|auto|done]
      |intros ? q2 H2|cbn; intros; congruence].
    pose proof (fetched_sliced (slice_offset d + slice_len d) q1 q2 ltac:(rewrite F1; lia) ltac:(unfold fits; by rewrite F1) H2) as Hs2.
    destruct H2 as (F2 & N2 & D2 & _). set (d2 := mkDownload _ _ _ _ _) in *.
    assert (file_position d2 = slice_offset d + slice_read d) by (unfold file_position; cbn; lia). unfold file_position in *.
    eapply wp_mono; [apply (IH d2)|intros chunk' q3 (F3 & H3)|cbn; intros; congruence].
    + split; [done|]. rewrite N2, N1. done.
    + lia.
    + rewrite H, F2, F1. done.
    + done.
    + done.
    + unfold turns, slice_remaining. cbn in *. unfold slice_size, DOWNLOAD_SLICE_LEN. rewrite F1.
      destruct (Z.eqb_spec (Z.min 16000 (len (the_file q) - (slice_offset d + slice_len d)) - 0) 0) as [H0|H0]; cbn; [|lia].
      rewrite (proj2 (Z.ltb_lt _ _)) by lia. cbn. lia.
    + by rewrite F2, F1 in *.
  - assert (Hsz : 0 < Z.min (n - len chunk) (slice_len d - slice_read d) ≤ slice_remaining d) by (unfold slice_remaining; lia).
    apply wp_bind. unfold MAX_FILE_CHUNK_LEN in *. eapply wp_mono; [apply (wp_read_loop 2 false _ d); [done|done|unfold MAX_FILE_CHUNK_LEN; lia]|intros part q1 (F1 & R1 & L1 & S1)|done].
    rewrite (proj2 (Z.ltb_ge _ _)) by lia. apply wp_bind, wp_ret.
    assert (Hpa : file_position (advance d (len part)) = file_position d + len part) by (unfold file_position; cbn; lia).
    eapply wp_mono; [apply (IH (advance d (len part)))|intros chunk' q2 (F2 & H2)|cbn; intros; congruence].
    + done.
    + lia.
    + rewrite Hpa, F1, Hchunk, S1 at 1. apply slice_step; lia.
    + unfold len in *. rewrite length_app. lia.
    + done.
    + unfold turns. assert (len (chunk ++ part) = len chunk + len part) as -> by (unfold len; rewrite length_app; lia).
      cbn [andb] in Hturns. destruct (_ && _); lia.
    + by rewrite F1 in *.
Qed.

(** *** Starting and finishing *)

Lemma wp_register c k q : is_get c = false → wp (register_loop c k) (λ _ q', mild q q') (λ _ _, False) q.
Proof.
  intros Hc. revert q. induction k as [|k IH]; intros q; [by apply wp_ret|]. cbn [register_loop].
  apply wp_bind. eapply wp_mono; [by apply wp_try_mild|intros r q1 H1|done]. destruct (match r with inl _ => _ | inr _ => _ end); [by apply wp_ret|].
  apply wp_bind. eapply wp_mono; [apply wp_delay_calm|intros ? q2 [H2 _]|done].
  eapply wp_mono; [apply IH|intros ? q3 H3|done]. by apply (mild_trans _ q2); [apply (mild_trans _ q1)|].
Qed.

Lemma wp_space s q : wp (storage_free_space s) (λ _ q', mild q q') (λ _ _, False) q.
Proof.
  unfold storage_free_space. destruct (_ <=? _); [|by apply wp_ret]. apply wp_bind.
  eapply wp_mono; [by apply wp_try_mild|intros r q1 H1; by apply wp_ret|done].
Qed.

Lemma wp_deactivate c q : wp (deactivate_context c) (λ _ q', the_file q' = the_file q) (λ _ q', the_file q' = the_file q) q.
Proof.
  unfold wp, deactivate_context, map_err, on_modem, zoom. pose proof (web_send _ (DeactivateContext c) (modem q)) as (Hp & Hs & _).
  destruct (at_send _ _) as [[r|e|] m]; done.
Qed.

Lemma wp_finish q : wp finish_download (λ _ q', the_file q' = the_file q) (λ _ _, False) q.
Proof.
  unfold finish_download. apply wp_bind, wp_gets, wp_bind. destruct (download q); [apply wp_bind, wp_modify|apply wp_ret].
  1: eapply wp_mono; [apply wp_discard|intros ? q1 (F1 & _)|done]. 1: change (the_file q1 = the_file q) in F1.
  all: apply wp_bind, wp_attempt; eapply wp_mono; [apply wp_deactivate|..]; intros ? q2 F2; apply wp_ret; congruence.
Qed.

(** A step that came to its end and changed nothing that matters here. *)
Lemma mild_ok {R} (m : M (Quectel A) QError R) P q0 q r q' :
  m q = (Ok r, q') → mild q0 q → wp m (λ _ q', mild q q') P q → mild q0 q'.
Proof. intros Hrun H0 Hwp. pose proof (wp_run _ _ _ _ _ _ Hwp Hrun). by apply (mild_trans _ q). Qed.

Lemma pdp_ok c q0 q r q' : mild q0 q → set_pdp_context c q = (Ok r, q') → mild q0 q'.
Proof.
  intros H0 (a & q1 & [= <- <-] & H)%bind_ok_inv. apply bind_ok_inv in H as (a & q1 & Ha & H).
  unfold string_try_from in Ha. destruct (_ <=? _); [injection Ha as <- <-|done]. eapply mild_ok; [exact H|done|by apply wp_send_mild].
Qed.

Ltac step_ok H Hm :=
  apply bind_ok_inv in H as (? & ? & Hrun & H);
  eapply mild_ok in Hrun; [|exact Hm|first [by apply wp_send_mild | apply wp_send_bytes_mild | by apply wp_register | apply wp_space]];
  clear Hm; rename Hrun into Hm.

(** What a download that was started has stored. *)
Lemma download_started q q' :
  fits q → settled q → mq_download_file url q = (Ok tt, q') → the_file q' = the_file q ∧ ∃ d, reading q' d ∧ file_position d = 0.
Proof using Hurl.
  intros Hfit Hset Hrun. cbn [mq_download_file quectel_mqtt] in Hrun. unfold map_err in Hrun.
  destruct (mqtt_download_file url q) as [[[]|e|] q0] eqn:Hdl; [injection Hrun as ->|done..].
  unfold mqtt_download_file in Hdl. apply bind_ok_inv in Hdl as (r1 & q1 & H1 & Hdl).
  assert (closed q q1) as Hc.
  { unfold attempt in H1. pose proof (wp_close q) as W. unfold wp in W. destruct (close_file q) as [[]]; simplify_eq; apply W. }
  apply bind_ok_inv in Hdl as (r2 & q2 & H2 & Hdl).
  assert (mild q1 q2) as Hm.
  { unfold attempt, delete_file in H2. change (filename_try_from TMP_FILE) with (mret (M := M (Quectel A) QError) TMP_FILE) in H2.
    pose proof (wp_send_mild (FileDelete TMP_FILE) q1 eq_refl) as W. unfold wp in W. unfold mbind, M_bind, mret, M_ret in H2.
    destruct (send _ q1) as [[]]; simplify_eq; apply W. }
  apply bind_ok_inv in Hdl as (r3 & q3 & H3 & Hdl). destruct r3 as [[]|e].
  2: { apply bind_ok_inv in Hdl as (? & ? & _ & Hdl). done. }
  injection Hdl as ->. apply attempt_inl_inv in H3. unfold download_file in H3.
  do 3 step_ok H3 Hm. apply bind_ok_inv in H3 as (? & ? & Hp & H3). eapply pdp_ok in Hp; [|exact Hm]. clear Hm. rename Hp into Hm.
  do 10 step_ok H3 Hm. apply bind_ok_inv in H3 as (free & ? & Hs & H3).
  eapply mild_ok in Hs; [|exact Hm|apply wp_space]. clear Hm. rename Hs into Hm.
  apply bind_ok_inv in H3 as (? & q4 & Hs & H3). destruct (match free with Some _ => _ | None => _ end) in Hs;
    [apply bind_ok_inv in Hs as (? & ? & _ & Hs); done|injection Hs as _ <-].
  apply bind_ok_inv in H3 as (? & q5 & Hs & H3). destruct (_ <=? _); [injection Hs as _ <-|done].
  match type of H3 with fetch_slice_with_retry 0 ?q6 = _ => set (q5 := q6) in H3 end.
  assert (F : the_file q5 = the_file q).
  { destruct Hc as (F1 & _), Hm as [(F2 & _) _]. change (the_file q5) with (the_file x27). congruence. }
  assert (N : file_handle q5 = None).
  { destruct Hc as (_ & _ & N1 & _), Hm as [(_ & _ & N2) _]. change (file_handle q5) with (file_handle x27). congruence. }
  assert (Hset5 : settled q5) by (apply Hm, Hc, Hset).
  assert (Hrange : 0 ≤ 0 ≤ len (the_file q5)) by (unfold len; lia).
  assert (Hfit5 : fits q5) by (unfold fits in *; by rewrite F).
  pose proof (wp_fetch_retry 0 _ q5 eq_refl eq_refl Hrange Hfit5 Hset5 N) as W. pose proof (wp_run _ _ _ _ _ _ W H3) as Hf. cbv beta iota in Hf.
  pose proof (fetched_sliced 0 _ _ Hrange Hfit5 Hf) as Hs5. destruct Hf as (F6 & N6 & _).
  split; [congruence|]. eexists. split; [split; [exact Hs5|by rewrite N6, N]|done].
Qed.

(** *** Reading it all *)

Definition remaining_file q d : list Z := drop (Z.to_nat (file_position d)) (the_file q).

Lemma wp_read_chunk n d q :
  reading q d → 0 < n ≤ MAX_FILE_CHUNK_LEN →
  wp (mq_read_file_chunk n)
    (λ chunk q', remaining_file q d ≠ [] ∧ chunk = take (Z.to_nat n) (remaining_file q d) ∧
       ∃ d', reading q' d' ∧ remaining_file q' d' = drop (Z.to_nat n) (remaining_file q d))
    (λ e _, (e = EndOfFile ∧ remaining_file q d = []) ∨ e = ReadError) q.
Proof using Hurl.
  intros Hr Hn. pose proof (sliced_position _ _ (proj1 Hr)) as Hpos. cbn [mq_read_file_chunk quectel_mqtt]. unfold mqtt_read_file_chunk.
  rewrite (proj2 (Z.ltb_ge _ _)) by lia. apply wp_bind, wp_attempt. unfold read_download_chunk.
  eapply wp_mono; [apply (wp_chunk_loop _ n (file_position d) d [] q Hr)|..].
  - lia.
  - unfold slice. by replace (Z.to_nat (file_position d - file_position d)) with 0%nat by lia.
  - unfold len. cbn. lia.
  - lia.
  - unfold turns, len. cbn [length]. destruct (_ && _); lia.
  - intros chunk q1 (F1 & d1 & R1 & Hp1 & Hc & Hle & Hfull). pose proof (sliced_position _ _ (proj1 R1)) as Hpos1. rewrite F1 in Hpos1.
    assert (Hl : len chunk = file_position d1 - file_position d) by (rewrite Hc; apply len_part; lia).
    assert (Htake : chunk = take (Z.to_nat n) (remaining_file q d)).
    { rewrite Hc. unfold slice, remaining_file. destruct Hfull as [Hfull|Hend]; [f_equal; lia|].
      rewrite !take_ge by (rewrite length_drop; unfold len in *; lia). done. }
    assert (Hdrop : remaining_file q1 d1 = drop (Z.to_nat n) (remaining_file q d)).
    { unfold remaining_file. rewrite F1, drop_drop. destruct Hfull as [Hfull|Hend]; [f_equal; lia|].
      rewrite !drop_ge by (unfold len in *; lia). done. }
    destruct chunk as [|b chunk].
    + apply wp_bind, wp_attempt. eapply wp_mono; [apply wp_finish|intros ? q2 _|done]. apply wp_fail. left. split; [done|].
      unfold remaining_file. apply drop_ge. unfold len in *. cbn in *. lia.
    + apply wp_ret. split; [|split; [done|by exists d1]]. intros Hnil. by rewrite Hnil, take_nil in Htake.
  - intros e q1 _. apply wp_bind, wp_attempt. eapply wp_mono; [apply wp_finish|intros ? q2 _|done]. apply wp_fail. by right.
Qed.

Lemma read_all_run k n d q :
  reading q d → 0 < n ≤ MAX_FILE_CHUNK_LEN →
  let '(l, e, _) := read_all k n q in
  let all := chunks n (remaining_file q d) in
  l = take (length l) all ∧
  match e with
  | None => length l = k
  | Some EndOfFile => l = all
  | Some e => e = ReadError
  end.
Proof using Hurl.
  intros Hr Hn. revert d q Hr. induction k as [|k IH]; intros d q Hr; [done|]. cbn [read_all].
  pose proof (wp_read_chunk n d q Hr Hn) as W. unfold wp in W. destruct (mq_read_file_chunk n q) as [[chunk|e|] q1]; [| |done].
  - destruct W as (Hne & -> & d1 & R1 & Hd). specialize (IH d1 q1 R1). destruct (read_all k n q1) as [[l e] q2].
    rewrite Hd in IH. cbv zeta in *. rewrite (chunks_step n (remaining_file q d)) by (done || lia). destruct IH as [Hl He].
    cbn [length take]. split; [by rewrite <- Hl|]. destruct e as [[]|]; [done|done|by rewrite <- He|by rewrite He].
  - split; [done|]. destruct W as [[-> Hnil]| ->]; [|done]. by rewrite Hnil.
Qed.

(** C9: a download delivers the file of the server.  Once it has been started, with no
    report of an earlier request outstanding, reading it in chunks of any size hands out
    the file of the server in order, in full chunks but for the last, and nothing else;
    the end of the file is reported only after all of it.  That holds whichever commands
    fail on the way, taken by the modem or not, and whatever is retried: the request of a
    failed attempt is stopped and its report taken before the next one, so that no
    report is mistaken for another, and what cannot be read ends the download with an
    error.  The driver never panics.  It relies on [DownloadModem]: what [HttpStop] stops
    reports within 3 s, and the answer to a read of the temporary file is complete or
    refused by the parser (one that is a byte short is not, see [newline_is_lost]). *)
Theorem download_delivers_file k n q q1 :
  fits q → settled q → 0 < n ≤ MAX_FILE_CHUNK_LEN → mq_download_file url q = (Ok tt, q1) →
  let '(l, e, _) := read_all k n q1 in
  l = take (length l) (chunks n (the_file q)) ∧
  match e with
  | None => length l = k
  | Some EndOfFile => l = chunks n (the_file q)
  | Some e => e = ReadError
  end.
Proof using Hurl.
  intros Hfit Hset Hn Hdl. destruct (download_started q q1 Hfit Hset Hdl) as (Hf & d & Hr & Hp).
  pose proof (read_all_run k n d q1 Hr Hn) as W. unfold remaining_file in W. by rewrite Hp, Hf in W.
Qed.
End download.

(** ** A simulated modem

    With a server, a file system, and a script of the commands that fail. *)

Module DemoModem.
Inductive Report : Type := PGet | PRead | PPublish (id : Z) | PMessage (slot : Z).
#[export] Instance Report_eq_dec : EqDecision Report.
Proof. solve_decision. Defined.
Record Sim : Type := mkSim {
  s_file : list Z;
  s_ranges : bool;
  s_fail : list bool;
  s_request : option (Z * Z);
  s_stored : option (list Z);
  s_opened : option (Z * Z);
  s_publish : option Z;
  s_pending : list Report;
  s_log : list Urc;
  (** GETs that wait for their header. *)
  s_prompts : nat
}.
Definition sim (file : list Z) (ranges : bool) (fail : list bool) (pending : list Report) : Sim :=
  mkSim file ranges fail None None None None pending [] 0.

Definition sim_body (s : Sim) : list Z :=
  match s_request s with
  | Some (lo, hi) => if s_ranges s then slice lo (hi + 1) (s_file s) else s_file s
  | None => []
  end.
Definition sim_get (s : Sim) : Urc :=
  match s_request s with
  | Some (lo, _) =>
      if s_ranges s && (len (s_file s) <=? lo) then UHTTPGet 0 (Some 416) None
      else UHTTPGet 0 (Some (if s_ranges s then 206 else 200)) (Some (len (sim_body s)))
  | None => UHTTPGet 0 None None
  end.
Definition sim_urc (s : Sim) (r : Report) : Urc :=
  match r with
  | PGet => sim_get s
  | PRead => UHTTPReadFile 0
  | PPublish id => UMQTTPublish id 0
  | PMessage slot => UMQTTReceive slot
  end.
Definition sim_upcoming (s : Sim) : list Urc := sim_urc s <$> s_pending s.
Definition sim_receive (s : Sim) : Sim :=
  mkSim (s_file s) (s_ranges s) (s_fail s) (s_request s) (s_stored s) (s_opened s) (s_publish s) (tail (s_pending s))
    (s_log s ++ take 1 (sim_upcoming s)) (s_prompts s).

Definition sim_fail (l : list bool) (s : Sim) : Sim :=
  mkSim (s_file s) (s_ranges s) l (s_request s) (s_stored s) (s_opened s) (s_publish s) (s_pending s) (s_log s) (s_prompts s).
Definition sim_files (st : option (list Z)) (op : option (Z * Z)) (s : Sim) : Sim :=
  mkSim (s_file s) (s_ranges s) (s_fail s) (s_request s) st op (s_publish s) (s_pending s) (s_log s) (s_prompts s).
Definition sim_report (r : list Report) (s : Sim) : Sim :=
  mkSim (s_file s) (s_ranges s) (s_fail s) (s_request s) (s_stored s) (s_opened s) (s_publish s) (s_pending s ++ r) (s_log s) (s_prompts s).
Definition sim_request (r : Z * Z) (s : Sim) : Sim :=
  mkSim (s_file s) (s_ranges s) (s_fail s) (Some r) (s_stored s) (s_opened s) (s_publish s) (s_pending s ++ [PGet]) (s_log s) (pred (s_prompts s)).
Definition sim_prepare (id : option Z) (s : Sim) : Sim :=
  mkSim (s_file s) (s_ranges s) (s_fail s) (s_request s) (s_stored s) (s_opened s) id (s_pending s) (s_log s) (s_prompts s).

Definition sim_prompt (n : nat) (s : Sim) : Sim :=
  mkSim (s_file s) (s_ranges s) (s_fail s) (s_request s) (s_stored s) (s_opened s) (s_publish s) (s_pending s) (s_log s) n.

(** [trim]: whether the newline at the end of a response is lost. *)
Definition trimmed (trim : bool) (l : list Z) : list Z :=
  if trim && bool_decide (last l = Some 10) then take (length l - 1) l else l.

Definition sim_exec (trim : bool) {R} (c : AtCmd R) (s : Sim) : outcome AtError R * Sim :=
  match c in AtCmd R return outcome AtError R * Sim with
  | CIMI => (Ok (bytes_of "204081234567890"), s)
  | CREGQuery => (Ok 1, s)
  | CEREGQuery => (Ok 1, s)
  | GetModelId => (Ok "EC21"%string, s)
  | GetSoftwareVersion => (Ok "1"%string, s)
  | GetSignalQuality => (Ok 20, s)
  | GetSimIccid => (Ok "8931"%string, s)
  | GetServingCell => (Ok None, s)
  | FileSpace _ => (Ok 100000, s)
  | FileOpen _ _ => (Ok 7, sim_files (union (s_stored s) (Some [])) (Some (7, 0)) s)
  | FileSeek h o _ =>
      match s_opened s with
      | Some (h', _) => if h =? h' then (Ok tt, sim_files (s_stored s) (Some (h, o)) s) else (Err (AtOther 1), s)
      | None => (Err (AtOther 1), s)
      end
  | FileRead h n =>
      match s_opened s, s_stored s with
      | Some (h', p), Some file =>
          if h =? h' then
            let data := take (Z.to_nat n) (drop (Z.to_nat p) file) in
            (Ok (trimmed trim (read_response data)), sim_files (s_stored s) (Some (h, p + len data)) s)
          else (Err (AtOther 1), s)
      | _, _ => (Err (AtOther 1), s)
      end
  | FileClose _ => (Ok tt, sim_files (s_stored s) None s)
  | FileDelete _ => (Ok tt, sim_files None (s_opened s) s)
  | HttpReadFile _ _ => (Ok tt, sim_report [PRead] (sim_files (Some (sim_body s)) (s_opened s) s))
  | PublishPrepare _ id _ _ _ _ => (Ok tt, sim_prepare (Some id) s)
  | GETWithHeader _ _ _ => (Ok tt, sim_prompt (S (s_prompts s)) s)
  | HttpStop => (Ok tt, sim_prompt 0 (sim_report (replicate (s_prompts s) PGet) s))
  | MqttReceive _ slot => (Ok (mkReceive slot "t" []), s)
  | AT | ATE _ | CPIN | PowerDown | SetBaudRate _ | StoreBaudrate | SetPDPContextDefinition _ _ _ | ActivateContext _
  | DeactivateContext _ | HttpConfig _ _ | HttpURL _ _ | FileUploadInit _ _ _
  | MqttConfig _ _ _ _ | MqttConfigWill _ _ _ _ _ _ | MqttOpen _ _ _ | MqttClose _ | MqttConnect _ _ | MqttDisconnect _
  | MqttSubscribe _ _ _ _ | MqttUnsubscribe _ _ _ | SslConfigFile _ _ _ | SslConfig _ _ _ | SslCiphersuite _ => (Ok tt, s)
  end.

Definition HOST : string := "h".
Definition PATH : string := "/fw".
Definition URL : string := "https://h/fw".
Definition header_start : list Z := bytes_of ("GET " +:+ PATH +:+ " HTTP/1.1" +:+ CRLF +:+ "Host: " +:+ HOST +:+ CRLF +:+ "Range: bytes=").
Definition parse_range (bytes : list Z) : option (Z * Z) :=
  rest ← strip_prefix header_start bytes;
  let '(lo, rest) := digit1 0 rest in
  match rest with 45 :: rest => Some (lo, (digit1 0 rest).1) | _ => None end.
Definition sim_bytes (bytes : list Z) (s : Sim) : outcome AtError unit * Sim :=
  match parse_range bytes with
  | Some r => if s_prompts s is O then (Err (AtOther 1), s) else (Ok tt, sim_request r s)
  | None =>
      match s_publish s with
      | Some id => (Ok tt, sim_report [PPublish id] (sim_prepare None s))
      | None => (Ok tt, s)
      end
  end.
(** The next entry of the script decides whether a command fails; [lost] is what it has done
    by then. *)
Definition scripted {R} (f : Sim → outcome AtError R * Sim) (lost : Sim → Sim) (s : Sim) : outcome AtError R * Sim :=
  match s_fail s with
  | true :: l => (Err AtTimeout, lost (sim_fail l s))
  | false :: l => f (sim_fail l s)
  | [] => f s
  end.

(** Of these commands only the answer is lost. *)
Definition done_anyway {R} (c : AtCmd R) : bool := match c with GETWithHeader _ _ _ | HttpStop => true | _ => false end.
Definition sim_lost (trim : bool) {R} (c : AtCmd R) (s : Sim) : Sim := if done_anyway c then (sim_exec trim c s).2 else s.

Definition sim_modem (trim : bool) : Modem Sim := {|
  at_send R c := scripted (sim_exec trim c) (sim_lost trim c);
  at_send_bytes bytes _ := scripted (sim_bytes bytes) (λ s, s);
  at_upload contents _ := mret (len contents);
  upcoming _ := sim_upcoming;
  receive := sim_receive;
  wait_out _ s := s;
  q_delay_ms _ s := s;
  set_baud_rate _ s := s;
  uart_resume s := s;
  uart_suspend s := s;
  rx_error _ := false;
  clear_rx_error s := s;
  model_prefix := "ec2";
  target_baudrate := Some 3000000;
  persist_baudrate := true;
  is_powered _ := true;
  power_on s := s;
  power_off s := s
|}.
#[local] Instance demo_modem : Modem Sim := sim_modem false.

Lemma strip_prefix_app p l : strip_prefix p (p ++ l) = Some l.
Proof. induction p as [|b p IH]; [done|]. cbn. by rewrite Z.eqb_refl. Qed.

Lemma parse_range_header lo hi : 0 ≤ lo → 0 ≤ hi → parse_range (bytes_of (request_header HOST PATH lo hi)) = Some (lo, hi).
Proof.
  intros Hlo Hhi. assert (bytes_of (request_header HOST PATH lo hi) = header_start ++ (bytes_of (pretty lo) ++ 45 ::
    (bytes_of (pretty hi) ++ 13 :: 10 :: bytes_of ("Accept: */*" +:+ CRLF +:+ "Connection: keep-alive" +:+ CRLF +:+ CRLF)))) as ->.
  { unfold request_header. rewrite !bytes_of_app. reflexivity. }
  unfold parse_range.
  rewrite strip_prefix_app. cbn [mbind option_bind].
  rewrite digit1_pretty by (done || by intros ? ? [= <- _]). rewrite digit1_pretty by (done || by intros ? ? [= <- _]). done.
Qed.

Lemma scripted_cases {R} (f : Sim → outcome AtError R * Sim) (lost : Sim → Sim) s :
  ∃ l, scripted f lost s = (Err AtTimeout, lost (sim_fail l s)) ∨ scripted f lost s = f (sim_fail l s).
Proof.
  unfold scripted. destruct (s_fail s) as [|[] l] eqn:Hs; [exists []; right|exists l; by left|exists l; by right].
  f_equal. destruct s. cbn in *. by subst.
Qed.

(** What holds of a command with any answer. *)
Lemma sim_send_ind {R} (c : AtCmd R) (P : outcome AtError R * Sim → Prop) s :
  (∀ l, P (sim_exec false c (sim_fail l s))) → (∀ l, done_anyway c = false → P (Err AtTimeout, sim_fail l s)) →
  (∀ l, done_anyway c = true → P (Err AtTimeout, (sim_exec false c (sim_fail l s)).2)) → P (at_send (Modem := demo_modem) c s).
Proof.
  intros Hok Herr Hlost. destruct (scripted_cases (sim_exec false c) (sim_lost false c) s) as [l [H|H]]; cbn [at_send demo_modem sim_modem]; rewrite H; [|apply Hok].
  unfold sim_lost. destruct (done_anyway c) eqn:Hc; [by apply Hlost|by apply Herr].
Qed.
Lemma sim_ok {R} (c : AtCmd R) s r s' : at_send (Modem := demo_modem) c s = (Ok r, s') → ∃ l, sim_exec false c (sim_fail l s) = (Ok r, s').
Proof. by apply (sim_send_ind c (λ x, x = (Ok r, s') → ∃ l, sim_exec false c (sim_fail l s) = (Ok r, s'))); [eauto|..]. Qed.
Lemma sim_bytes_ind bytes t (P : outcome AtError unit * Sim → Prop) s :
  (∀ l, P (sim_bytes bytes (sim_fail l s))) → (∀ l, P (Err AtTimeout, sim_fail l s)) → P (at_send_bytes (Modem := demo_modem) bytes t s).
Proof.
  intros Hok Herr. destruct (scripted_cases (sim_bytes bytes) (λ s, s) s) as [l [H|H]]; cbn [at_send_bytes demo_modem sim_modem]; rewrite H; [apply Herr|apply Hok].
Qed.

#[local] Instance demo_arrivals : ArrivalLaws Sim.
Proof.
  refine {| arrived := s_log; coming s l := l = sim_upcoming s |}; try done.
  - intros u l s Hl. cbn. unfold sim_receive, sim_upcoming in *. cbn. destruct (s_pending s) as [|r rs]; [done|]. by injection Hl as -> ->.
  - intros R c s. apply (sim_send_ind c (λ x, s_log x.2 = s_log s)); [|done|]; intros l; destruct c; cbn; try done; by repeat case_match.
  - intros bytes t s. apply (sim_bytes_ind bytes t (λ x, s_log x.2 = s_log s)); [|done]. intros l. unfold sim_bytes. by repeat case_match.
Defined.

(** The requests that the modem has taken: those that wait for their header, those that will
    be reported, and those that were. *)
Definition gets_of (l : list Report) : nat := length (filter (λ r, r = PGet) l).
Definition sim_asked (s : Sim) : nat := s_prompts s + gets_of (s_pending s) + length (get_reports (s_log s)).
Definition sim_web (s : Sim) : Web := mkWeb (s_file s) (s_request s) (sim_body s) (s_stored s) (s_opened s) (sim_asked s).

Lemma sim_urc_variant s r : variant (sim_urc s r) = VHTTPGet ↔ r = PGet.
Proof. destruct r; cbn; try done. unfold sim_get. by repeat case_match. Qed.
Lemma sim_report_count s r l : (length (get_reports (sim_urc s r :: l)) = gets_of [r] + length (get_reports l))%nat.
Proof.
  unfold gets_of. pose proof (sim_urc_variant s r) as Hv. rewrite !filter_cons.
  destruct (decide (variant (sim_urc s r) = VHTTPGet)); destruct (decide (r = PGet)); [done|tauto..|done].
Qed.
Lemma gets_cons r l : (gets_of (r :: l) = gets_of [r] + gets_of l)%nat.
Proof. unfold gets_of. rewrite <- length_app, <- filter_app. done. Qed.
Lemma upcoming_reports s : length (get_reports (sim_upcoming s)) = gets_of (s_pending s).
Proof.
  unfold sim_upcoming. induction (s_pending s) as [|r l IH]; [done|].
  change (sim_urc s <$> r :: l) with (sim_urc s r :: (sim_urc s <$> l)). by rewrite sim_report_count, (gets_cons r l), IH.
Qed.
Lemma receive_asked s : sim_asked (sim_receive s) = sim_asked s.
Proof.
  unfold sim_asked, sim_receive, sim_upcoming. cbn [s_prompts s_pending s_log]. rewrite filter_app, length_app.
  destruct (s_pending s) as [|r rs]; [cbn; lia|]. change (take 1 (sim_urc s <$> r :: rs)) with [sim_urc s r].
  rewrite sim_report_count, (gets_cons r rs). cbn [tail]. change (length (get_reports [])) with 0%nat. lia.
Qed.

Lemma report_asked r s : sim_asked (sim_report r s) = (gets_of r + sim_asked s)%nat.
Proof. unfold sim_asked, gets_of. cbn [sim_report s_prompts s_pending s_log]. rewrite filter_app, length_app. lia. Qed.
Lemma gets_replicate n : gets_of (replicate n PGet) = n.
Proof. unfold gets_of. induction n as [|n IH]; [done|]. cbn [replicate]. rewrite filter_cons_True by done. cbn. by rewrite IH. Qed.

(** Requests that wait for their header and are stopped will be reported. *)
Lemma stop_asked s : sim_asked (sim_prompt 0 (sim_report (replicate (s_prompts s) PGet) s)) = sim_asked s.
Proof.
  pose proof (report_asked (replicate (s_prompts s) PGet) s) as H. rewrite gets_replicate in H. unfold sim_asked in *.
  cbn [sim_prompt sim_report s_prompts s_pending s_log] in *. lia.
Qed.
Lemma header_asked r s n : s_prompts s = S n → sim_asked (sim_request r s) = sim_asked s.
Proof.
  intros Hn. pose proof (report_asked [PGet] s) as H. unfold sim_asked in *.
  cbn [sim_request sim_report s_prompts s_pending s_log] in *. rewrite Hn in *. change (gets_of [PGet]) with 1%nat in H. cbn [pred]. lia.
Qed.

Definition sim_keeps {R} (c : AtCmd R) (s s' : Sim) : Prop :=
  s_file s' = s_file s ∧ (reads_only c = true → ∀ file, s_stored s = Some file → s_stored s' = Some file) ∧
  (is_get c = false → sim_asked s' = sim_asked s).
Lemma exec_keeps {R} (c : AtCmd R) s : (sim_exec false c s).1 ≠ Panic ∧ sim_keeps c s (sim_exec false c s).2.
Proof.
  unfold sim_keeps. destruct c; cbn [sim_exec]; try (split_and!; done).
  - split_and!; [done..|]. intros _. apply stop_asked.
  - split_and!; [done..|]. intros _. exact (report_asked [PRead] _).
  - split_and!; try done. cbn. intros _ file ->. by destruct file.
  - destruct (s_opened s) as [[h p]|]; [|by split_and!]. by destruct (handle =? h); split_and!.
  - destruct (s_opened s) as [[h p]|]; [|by split_and!]. destruct (s_stored s) as [file|] eqn:Hst; [|by split_and!].
    destruct (handle =? h); split_and!; cbn; intros; congruence || done.
Qed.

#[local] Instance demo_download : DownloadModem Sim HOST PATH.
Proof.
  refine {| web := sim_web |}; try done.
  - intros s. cbn. unfold sim_web at 1. by rewrite receive_asked.
  - intros R c s. change (let x := at_send (Modem := demo_modem) c s in x.1 ≠ Panic ∧ sim_keeps c s x.2).
    apply (sim_send_ind c (λ x, x.1 ≠ Panic ∧ sim_keeps c s x.2)); [intros l; exact (exec_keeps c (sim_fail l s))|done|].
    intros l _. split; [done|]. exact (proj2 (exec_keeps c (sim_fail l s))).
  - intros bytes t s. apply (sim_bytes_ind bytes t (λ x, x.1 ≠ Panic ∧ s_file x.2 = s_file s ∧ sim_asked x.2 = sim_asked s)); [|done].
    intros l. unfold sim_bytes. cbn. destruct (parse_range bytes) as [r|]; [|by destruct (s_publish s); cbn; split_and!; try exact (report_asked [PPublish _] _)].
    destruct (s_prompts s) as [|n] eqn:Hn; cbn; [done|]. split_and!; [done..|]. exact (header_asked r (sim_fail l s) n Hn).
  - intros t n i s r s'. apply (sim_send_ind (GETWithHeader t n i) (λ x, x = (r, s') →
      (sim_asked s' = sim_asked s ∧ r ≠ Ok tt) ∨ sim_asked s' = S (sim_asked s))); [|done|].
    1: cbn; intros l [= <- <-]. 2: cbn; intros l _ [= <- <-]. all: right; unfold sim_asked; cbn [sim_prompt sim_fail s_prompts s_pending s_log]; lia.
  - intros lo hi t s s' Hlo Hhi. apply (sim_bytes_ind _ t (λ x, x = (Ok tt, s') → request (sim_web s') = Some (lo, hi))); [|done].
    intros l. unfold sim_bytes. rewrite parse_range_header by done. destruct (s_prompts _); [done|]. by intros [= <-].
  - intros t s. cbn. rewrite filter_app, length_app, upcoming_reports. unfold sim_asked. lia.
  - intros t s u _ Hu. cbn in Hu. unfold sim_upcoming in Hu. apply list_elem_of_fmap in Hu as (r & -> & _).
    destruct r; try done. unfold sim_urc, sim_get, truthful, sim_web, sim_body. cbn. destruct (s_request s) as [[lo' hi']|]; [|done].
    destruct (s_ranges s); cbn; [destruct (Z.leb_spec (len (s_file s)) lo')|]; intros lo hi [= -> ->]; done.
  - intros s. apply (sim_send_ind HttpStop (λ x, asked (sim_web x.2) ≤ S (length (get_reports (s_log x.2))) →
      asked (sim_web x.2) ≤ length (get_reports (s_log x.2 ++ sim_upcoming x.2)))%nat).
    2: done. 1: intros l _. 2: intros l _ _.
    all: cbn [sim_exec snd sim_web asked]; rewrite filter_app, length_app, upcoming_reports; unfold sim_asked; cbn [sim_prompt s_prompts]; lia.
  - by intros w t s s' [l [= <-]]%sim_ok.
  - by intros s h s' [l [= <- <-]]%sim_ok.
  - intros s h p o s' Hop [l Hl]%sim_ok. cbn in *. rewrite Hop, Z.eqb_refl in Hl. by injection Hl as <-.
  - intros s h p file n bytes s' Hop Hst Hn [l Hl]%sim_ok. cbn in *. rewrite Hop, Hst, Z.eqb_refl in Hl. injection Hl as <- <-. right.
    exists (take (Z.to_nat n) (drop (Z.to_nat p) file)), (drop (Z.to_nat n) (drop (Z.to_nat p) file)).
    split; [by rewrite take_drop|]. split; [unfold len; rewrite length_take; lia|done].
Defined.

(** A file of 1500 bytes, and a modem on which some commands fail. *)
Definition demo_file : list Z := (λ i, i mod 251) <$> seqZ 0 1500.
Definition demo_faults : list bool := replicate 16 false ++ [true] ++ replicate 5 false ++ [true] ++ replicate 9 false ++ [true; true] ++ replicate 6 false ++ [true].
Definition demo_driver (s : Sim) : Quectel Sim := quectel_new s (mkConfig "broker" 8883 true) (mkCredentials [] [] []).
Definition demo_start : Quectel Sim := demo_driver (sim demo_file true demo_faults []).

Definition demo_loaded : Quectel Sim := Eval vm_compute in (mq_download_file URL demo_start).2.
Lemma demo_started : mq_download_file URL demo_start = (Ok tt, demo_loaded).
Proof. vm_cast_no_check (eq_refl (Ok tt : outcome NetError unit, demo_loaded)). Qed.
Lemma demo_file_fits : fits (host := HOST) (path := PATH) demo_start.
Proof. vm_compute. reflexivity. Qed.

Lemma demo_settled : settled (host := HOST) (path := PATH) demo_start.
Proof. reflexivity. Qed.

Lemma download_delivers_file_witness :
  let '(l, e, _) := read_all 4 600 demo_loaded in
  l = take (length l) (chunks 600 (the_file (host := HOST) (path := PATH) demo_start)) ∧
  match e with
  | None => length l = 4%nat
  | Some EndOfFile => l = chunks 600 (the_file (host := HOST) (path := PATH) demo_start)
  | Some e => e = ReadError
  end.
Proof.
  exact (download_delivers_file (host := HOST) (path := PATH) (url := URL) eq_refl 4 600 demo_start demo_loaded
    demo_file_fits demo_settled ltac:(by split) demo_started).
Defined.

Example demo_delivered : (read_all 4 600 demo_loaded).1 = (chunks 600 demo_file, Some EndOfFile).
Proof. vm_compute. reflexivity. Qed.

(** *** A publication, with messages that arrive in between *)

Definition demo_sender : Quectel Sim := demo_driver (sim [] true [] [PMessage 2; PPublish 9; PMessage 0]).
Definition demo_published : Quectel Sim := Eval vm_compute in (mq_publish "a/b" [1; 2; 3] demo_sender).2.
Lemma demo_sent : mq_publish "a/b" [1; 2; 3] demo_sender = (Ok tt, demo_published).
Proof. vm_cast_no_check (eq_refl (Ok tt : outcome NetError unit, demo_published)). Qed.

Lemma publish_acknowledged_witness :
  len [1; 2; 3] ≤ MAX_MESSAGE_LEN ∧ next_tx_msg_id demo_published = next_tx_msg_id demo_sender mod u16_max + 1 ∧
  ∃ m1 m2 before rest,
    at_send (PublishPrepare MQTT_CONTEXT (next_tx_msg_id demo_sender mod u16_max + 1) 1 0 "a/b" (len [1; 2; 3])) (modem demo_sender) = (Ok tt, m1) ∧
    at_send_bytes [1; 2; 3] 3000 m1 = (Ok tt, m2) ∧
    upcoming (timeout VMQTTPublish) m2 = before ++ [UMQTTPublish (next_tx_msg_id demo_sender mod u16_max + 1) 0] ++ rest ∧
    (∀ r, UMQTTPublish (next_tx_msg_id demo_sender mod u16_max + 1) r ∉ before) ∧
    modem demo_published = Nat.iter (length before + 1) receive m2 ∧
    unexpected_urc_queue demo_published = foldl put_aside (unexpected_urc_queue demo_sender) (filter (λ u, variant u ≠ VMQTTPublish) before).
Proof.
  exact (publish_acknowledged "a/b" [1; 2; 3] demo_sender demo_published ltac:(by split) demo_sent).
Defined.

(** The messages that came before the acknowledgement wait, in order. *)
Example demo_put_aside : unexpected_urc_queue demo_published = [UMQTTReceive 2; UMQTTReceive 0].
Proof. reflexivity. Qed.

Definition demo_steps : list Step := [SAwait 1; SCall (CPublish "a/b" [1]); SHandle; SAwait 1; SHandle].
Lemma demo_roomy : roomy demo_steps demo_sender.
Proof. vm_compute. repeat (split; [lia|]). done. Qed.

Lemma notifications_in_order_witness :
  roomy demo_steps demo_sender ∧
  let '(handled, q') := steps demo_steps demo_sender in
  ∃ l, arrived (modem q') = arrived (modem demo_sender) ++ l ∧
    filter notification (handled ++ waiting q') `sublist_of` filter notification (waiting demo_sender ++ l) ∧
    (roomy demo_steps demo_sender → filter notification (handled ++ waiting q') = filter notification (waiting demo_sender ++ l)).
Proof. exact (conj demo_roomy (notifications_in_order demo_steps demo_sender)). Defined.

Example demo_handled : (steps demo_steps demo_sender).1 = [UMQTTReceive 2; UMQTTReceive 0].
Proof. vm_compute. reflexivity. Qed.

(** *** What goes wrong *)

(** The file whose last byte of the first chunk is a newline, with a response that loses
    it: [parse_read] takes what is left, the next read continues behind the newline, and the
    first chunk of the download has lost that byte. *)
Definition newline_file : list Z := replicate 599 1 ++ [10] ++ replicate 100 2.
Example newline_is_lost :
  let q1 := (@mq_download_file _ _ (@quectel_mqtt Sim (sim_modem true)) URL (demo_driver (sim newline_file true [] []))).2 in
  (@mq_read_file_chunk _ _ (@quectel_mqtt Sim (sim_modem true)) 600 q1).1 = Ok (replicate 599 1 ++ [2]).
Proof. vm_compute. reflexivity. Qed.

(** A server that ignores ranges, with a file that exactly fills the first slice: all of
    it arrives, and then the download fails. *)
Definition full_slice : list Z := replicate 16000 1.
Example whole_file_is_refused :
  let q1 := (mq_download_file URL (demo_driver (sim full_slice false [] []))).2 in
  let '(l, e, _) := read_all 28 600 q1 in
  (len (mjoin l), e) = (15600, Some ReadError).
Proof. vm_compute. reflexivity. Qed.

(** With message id 65535 received before, the next message overflows the sum that is
    only logged. *)
Example message_id_overflow :
  let q := set_q_urc (Some (UMQTTReceive 0)) (set_last_rx 65535 (demo_driver (sim [] true [] []))) in
  (mq_handle_response q).1 = Panic.
Proof. reflexivity. Qed.
End DemoModem.
