(* ===== verification/Provision.v ===== *)
(** * The provisioning tool

    [sensor-link-provision]: the operator's input ([validate.rs]), the log of issued
    certificates ([log_csv.rs]), the config image ([config_bin.rs]), the boot log
    ([rtt.rs]), the worker that provisions a device step by step ([worker.rs]) and the
    state of the session screen ([app.rs]).  The bench is a parameter: the certificate
    authority, the probe with the device, the file of the log (class [Bench]).  Scanned
    text is ASCII, and so are the marks that are looked for in a boot log.  Drawing, the
    progress of a flash and the start of a session (reading the artifacts and checking the
    certificate authority) are left out. *)

From Stdlib Require Import Ascii Strings.Byte.
From stdpp Require Import base list list_numbers numbers option strings gmap.
From S2P Require Import Prelude Samples Firmware MetaConfig Topics.
#[local] Open Scope Z_scope.

(** ** Text *)

Definition code (a : ascii) : Z := Z.of_nat (nat_of_ascii a).
Definition newline : ascii := ascii_of_nat 10.
Definition comma : ascii := ascii_of_nat 44.
Definition is_space (a : ascii) : bool := (code a =? 32) || (9 <=? code a) && (code a <=? 13).

Fixpoint str_rev (s acc : string) : string :=
  match s with EmptyString => acc | String a s => str_rev s (String a acc) end.
Fixpoint trim_start (s : string) : string :=
  match s with EmptyString => EmptyString | String a s' => if is_space a then trim_start s' else s end.
Definition trim (s : string) : string := str_rev (trim_start (str_rev (trim_start s) "")) "".

Definition upper (a : ascii) : ascii :=
  if (97 <=? code a) && (code a <=? 122) then ascii_of_nat (Z.to_nat (code a - 32)) else a.
Definition lower (a : ascii) : ascii :=
  if (65 <=? code a) && (code a <=? 90) then ascii_of_nat (Z.to_nat (code a + 32)) else a.
Fixpoint str_map (f : ascii → ascii) (s : string) : string :=
  match s with EmptyString => EmptyString | String a s => String (f a) (str_map f s) end.

(** [split(c)]: at least one piece. *)
Fixpoint split_at (c : ascii) (s : string) : string * list string :=
  match s with
  | EmptyString => ("", [])
  | String a s => let '(p, ps) := split_at c s in if decide (a = c) then ("", p :: ps) else (String a p, ps)
  end.
Definition split (c : ascii) (s : string) : list string := let '(p, ps) := split_at c s in p :: ps.

Fixpoint strip_cr (s : string) : string :=
  match s with
  | EmptyString => EmptyString
  | String a EmptyString => if code a =? 13 then EmptyString else s
  | String a s => String a (strip_cr s)
  end.
(** [lines]: what follows the last line end is a line unless it is empty; only a line
    that is ended loses its carriage return. *)
Fixpoint ended_lines (p : string) (ps : list string) : list string :=
  match ps with
  | [] => if decide (p = "") then [] else [p]
  | p' :: ps => strip_cr p :: ended_lines p' ps
  end.
Definition lines (s : string) : list string := let '(p, ps) := split_at newline s in ended_lines p ps.

Fixpoint str_contains (p s : string) : bool :=
  String.prefix p s || match s with EmptyString => false | String _ s => str_contains p s end.

(** ** [validate.rs] *)

Definition normalize_uid (raw : string) : string := str_map upper (trim raw).

(** Whether [uid_warning] returns a text. *)
Definition uid_warning (uid : string) (min max : Z) : bool := (str_len uid <? min) || (max <? str_len uid).

Definition digits (s : string) : list Z := bytes_of s.
Definition is_ascii_digit (b : Z) : bool := (48 <=? b) && (b <=? 57).
(** The term of the digit at position [i] from the end. *)
Definition luhn_term (i : nat) (d : Z) : Z :=
  if decide (i mod 2 = 1)%nat then let dd := d * 2 in if 9 <? dd then dd - 9 else dd else d.
Definition luhn_sum (ds : list Z) : Z := foldr Z.add 0 (imap luhn_term (reverse ds)).
Definition iccid_valid (icc : string) : bool :=
  let icc := digits (trim icc) in
  if negb ((19 <=? len icc) && (len icc <=? 20)) || negb (forallb is_ascii_digit icc) then false
  else luhn_sum ((λ b, b - 48) <$> icc) mod 10 =? 0.

(** ** [log_csv.rs] *)

Definition HEADER : string := "datetime_utc,uid,sim_icc,cert_serial,cert_sha256".
Record Row : Type := mkRow { r_uid : string; r_icc : string; r_cert_serial : string; r_cert_sha256 : string }.
(** What [append] writes at the time [ts]. *)
Definition row_line (ts : string) (row : Row) : string :=
  ts +:+ "," +:+ r_uid row +:+ "," +:+ r_icc row +:+ "," +:+ r_cert_serial row +:+ "," +:+ r_cert_sha256 row +:+ String newline "".
(** [init] on a file that holds [text], if it exists. *)
Definition log_init (text : option string) : string := default (HEADER +:+ String newline "") text.
Definition contains_uid (text : option string) (uid : string) : bool :=
  match text with
  | None => false
  | Some text => existsb (λ l, bool_decide (split comma l !! 1%nat = Some uid)) (drop 1 (lines text))
  end.

(** ** [config_bin.rs] *)

(** [ProfileDeviceType]: any byte. *)
Definition ProfileDeviceType : Type := Byte.byte.
#[export] Instance ProfileDeviceType_eq_dec : EqDecision ProfileDeviceType := Byte.byte_eq_dec.
#[export] Instance profile_device_type : DeviceType ProfileDeviceType := {|
  to_byte d := Z.of_N (Byte.to_N d);
  try_from_byte b := if b <? 0 then None else Byte.of_N (Z.to_N b)
|}.

Definition build (uid : string) (device_type : ProfileDeviceType) (cert_pem key_pem : list Z) : list Z + string :=
  if MAX_CERT_SIZE <? len cert_pem then inr "certificate PEM too large"
  else if MAX_KEY_SIZE <? len key_pem then inr "private key PEM too large"
  else if MetaConfig.MAX_UID_LEN <? str_len uid then inr "UID too long"
  else
    let config := MetaConfig.mkConfig (bytes_of uid) cert_pem key_pem device_type in
    match config_as_bytes config (replicate (Z.to_nat CONFIG_BINARY_SIZE) 0) with
    | (Ok _, buf) => inl buf
    | _ => inr "panic"
    end.

(** ** [rtt.rs] *)

Definition seen_step (banner needle : string) (found : bool) (line : string) : bool :=
  let found := if str_contains banner line then false else found in
  if str_contains needle (str_map lower line) then true else found.
Definition seen_after_banner (log banner needle : string) : bool :=
  foldl (seen_step banner (str_map lower needle)) false (lines log).

(** One turn of the loop of [wait_for] before its deadline: whether the core answers, the
    attach to the control block, and what the read gives, with its text decoded. *)
Inductive RttRead : Type := ReadText (s : string) | ReadFailed | NoChannel.
Record RttTurn : Type := mkTurn { core : option string; attaches : bool; read : RttRead }.
Record BootLog : Type := mkBootLog { banner : string; attached : bool; boot_log : string }.
Fixpoint wait_for (turns : list RttTurn) (needle : string) (b : BootLog) : (bool + string) * BootLog * list string :=
  match turns with
  | [] => (inl (seen_after_banner (boot_log b) (banner b) needle), b, [])
  | t :: turns =>
      if seen_after_banner (boot_log b) (banner b) needle then (inl true, b, [])
      else
        match core t with
        | Some e => (inr e, b, [])
        | None =>
            if negb (attached b) && negb (attaches t) then wait_for turns needle b
            else
              match read t with
              | ReadText "" => wait_for turns needle (mkBootLog (banner b) true (boot_log b))
              | ReadText s =>
                  let log := boot_log b +:+ s in
                  let '(r, b, updates) := wait_for turns needle (mkBootLog (banner b) true log) in (r, b, log :: updates)
              | ReadFailed | NoChannel => wait_for turns needle (mkBootLog (banner b) false (boot_log b))
              end
        end
  end.

(** ** [worker.rs] *)

Definition STEPS : nat := 9.
Definition STEP_LOG : nat := 6.
Definition STEP_RTT : nat := 7.
Definition STEP_MQTT : nat := 8.

Record Checks : Type := mkChecks { check_iccid : bool; check_mqtt : bool }.
Inductive Command : Type :=
| ListProbes
| StartSession
| Provision (uid icc : string) (reprovision : bool) (checks : Checks)
| Retry
| Skip.
Inductive StepState : Type := Pending | Running | Done | Failed (message : string) | StepSkipped.
Inductive Outcome : Type := OutcomeOk | Unverified | Fail.
#[export] Instance Outcome_eq_dec : EqDecision Outcome.
Proof. solve_decision. Defined.
Inductive Event : Type :=
| Probes
| Rtt (log : string)
| SessionReady (checks : Checks)
| SessionFailed (message : string)
| StepEvent (index : nat) (state : StepState)
| DeviceFinished (uid : string) (outcome : Outcome) (reprovision : bool) (rtt_log : string) (error : option string).

Record IssuedCert : Type := mkCert { pem : string; serial_hex : string; sha256_hex : string }.

(** What a session knows of its artifacts: the profile of the project and the variant. *)
Record Session : Type := mkSession {
  s_device_type : ProfileDeviceType;
  config_flash_start : Z;
  config_flash_end : Z;
  boot_banner : string;
  rtt_timeout_s : Z;
  mqtt_marker : string;
  mqtt_timeout_s : Z;
  s_checks : Checks
}.

Inductive Image : Type := BootloaderImage | FirmwareImage.

Class Bench (W : Type) : Type := {
  (** [DeviceKey::generate], [cert::issue] and [sec1_pem] *)
  issue : string → M W string (IssuedCert * string);
  attach : M W string unit;
  flash_elf : Image → M W string unit;
  erase : Z → Z → M W string unit;
  program : Z → list Z → M W string unit;
  reset : M W string unit;
  rtt_turns : Z → W → list RttTurn * W;
  (** The log: its text, the time, and a write at its end. *)
  log_text : W → option string;
  log_time : W → string;
  log_write : string → M W string unit;
  start_session : M W string Session
}.

Section worker.
Context {W : Type} `{!Bench W}.

Record Worker : Type := mkWorker { bench : W; commands : list Command; sent : list Event; session : option Session }.
Definition set_bench (v : W) (w : Worker) : Worker := mkWorker v (commands w) (sent w) (session w).
Definition set_commands (v : list Command) (w : Worker) : Worker := mkWorker (bench w) v (sent w) (session w).
Definition set_sent (v : list Event) (w : Worker) : Worker := mkWorker (bench w) (commands w) v (session w).
Definition set_session (v : option Session) (w : Worker) : Worker := mkWorker (bench w) (commands w) (sent w) v.

(** The operator chose to skip after a failed step. *)
Inductive Skipped : Type := OperatorSkipped.
Abbreviation MW := (M Worker Skipped).

Definition at_bench {E T} (c : M W E T) : M Worker E T := zoom bench set_bench c.
Definition worker_send {E} (ev : Event) : M Worker E unit := modify (λ w, set_sent (sent w ++ [ev]) w).

Definition write_region (start end_ : Z) (data : list Z) : M W string unit :=
  if end_ <? start then panic
  else if end_ - start <? len data then fail "config does not fit"
  else erase start end_;; program start data.

(** [step]: the commands that come decide whether a failed step is run again.  The
    channel ends where the list of commands ends. *)
Definition step_try {T} (index : nat) (f : M W string T) (otherwise : MW T) : MW T :=
  worker_send (StepEvent index Running);;
  r ← attempt (at_bench f);
  match r with
  | inl v => worker_send (StepEvent index Done);; mret v
  | inr e => worker_send (StepEvent index (Failed e));; otherwise
  end.
Fixpoint step_wait {T} (index : nat) (f : M W string T) (cmds : list Command) : MW T :=
  match cmds with
  | [] => modify (set_commands []);; fail OperatorSkipped
  | Retry :: cmds => modify (set_commands cmds);; step_try index f (step_wait index f cmds)
  | Skip :: cmds => modify (set_commands cmds);; fail OperatorSkipped
  | _ :: cmds => step_wait index f cmds
  end.
Definition step {T} (index : nat) (f : M W string T) : MW T :=
  cmds ← gets commands;
  step_try index f (step_wait index f cmds).

Definition finish_verify_step {E} (index : nat) (result : unit + string) : M Worker E (option string) :=
  let error := match result with inl _ => None | inr e => Some e end in
  worker_send (StepEvent index (match error with None => Done | Some msg => Failed msg end));;
  mret error.

(** [wait_for] with its time-out, and its [ensure]. *)
Definition boot_wait {E} (needle : string) (timeout_s : Z) (message : string) (b : BootLog) : M Worker E ((unit + string) * BootLog) :=
  turns ← (λ w, let '(turns, v) := rtt_turns timeout_s (bench w) in (Ok turns, set_bench v w));
  let '(r, b, updates) := wait_for turns needle b in
  modify (λ w, set_sent (sent w ++ (Rtt <$> updates)) w);;
  mret (match r with inl true => inl tt | inl false => inr message | inr e => inr e end, b).

Definition verify {E} (s : Session) (uid : string) (checks : Checks) : M Worker E (Outcome * string * option string) :=
  let b := mkBootLog (boot_banner s) false "" in
  worker_send (StepEvent STEP_RTT Running);;
  r ← attempt (at_bench reset);
  booted ← match r with
           | inl _ => boot_wait uid (rtt_timeout_s s) "UID not seen in the boot log" b
           | inr e => mret (inr e, b)
           end;
  let '(booted, b) := booted in
  error ← finish_verify_step STEP_RTT booted;
  result ← match error with
           | None =>
               if check_mqtt checks then
                 worker_send (StepEvent STEP_MQTT Running);;
                 connected ← boot_wait (mqtt_marker s) (mqtt_timeout_s s) "no MQTT connection" b;
                 let '(connected, b) := connected in
                 error ← finish_verify_step STEP_MQTT connected;
                 mret (error, b)
               else worker_send (StepEvent STEP_MQTT StepSkipped);; mret (error, b)
           | Some _ => worker_send (StepEvent STEP_MQTT StepSkipped);; mret (error, b)
           end;
  let '(error, b) := result in
  mret (match error with None => OutcomeOk | Some _ => Unverified end, boot_log b, error).

Definition log_append (row : Row) : M W string unit :=
  ts ← gets log_time;
  log_write (row_line ts row).

(** The steps of [provision], up to the verification. *)
Definition provision_steps (s : Session) (uid icc : string) : MW unit :=
  issued ← step 0 (issue uid);
  let '(issued, key_pem) := issued in
  config ← step 1 (match build uid (s_device_type s) (bytes_of (pem issued)) (bytes_of key_pem) with inl c => mret c | inr e => fail e end);
  step 2 attach;;
  step 3 (flash_elf BootloaderImage);;
  step 4 (flash_elf FirmwareImage);;
  step 5 (write_region (config_flash_start s) (config_flash_end s) config);;
  step STEP_LOG (log_append (mkRow uid icc (serial_hex issued) (sha256_hex issued))).

Definition provision (uid icc : string) (reprovision : bool) (checks : Checks) : M Worker Empty_set unit :=
  modify (λ w, set_sent (sent w ++ ((λ i, StepEvent i Pending) <$> seq 0 STEPS)) w);;
  s ← gets session;
  match s with
  | None => worker_send (SessionFailed "no active session")
  | Some s =>
      r ← attempt (provision_steps s uid icc;; verify s uid checks);
      let '(outcome, rtt_log, error) :=
        match r with inl result => result | inr OperatorSkipped => (Fail, "", Some "skipped by operator") end in
      worker_send (DeviceFinished uid outcome reprovision rtt_log error)
  end.

(** [run]: each turn takes a command, so their number is enough fuel. *)
Fixpoint run_loop (fuel : nat) : M Worker Empty_set unit :=
  match fuel with
  | O => mret tt
  | Datatypes.S fuel =>
      cmds ← gets commands;
      match cmds with
      | [] => mret tt
      | cmd :: cmds =>
          modify (set_commands cmds);;
          match cmd with
          | ListProbes => worker_send Probes
          | StartSession =>
              r ← attempt (at_bench start_session);
              match r with
              | inl s => modify (set_session (Some s));; worker_send (SessionReady (s_checks s))
              | inr e => worker_send (SessionFailed e)
              end
          | Provision uid icc reprovision checks => provision uid icc reprovision checks
          | Retry | Skip => mret tt
          end;;
          run_loop fuel
      end
  end.
Definition run : M Worker Empty_set unit :=
  cmds ← gets commands;
  run_loop (Datatypes.S (length cmds)).
End worker.
Arguments Worker : clear implicits.

(** ** [app.rs]: the session screen *)

Record Counts : Type := mkCounts { count_ok : Z; unverified : gset string; failed : gset string }.
Definition record (uid : string) (outcome : Outcome) (reprovision : bool) (c : Counts) : Counts :=
  match outcome with
  | OutcomeOk =>
      let was_unverified := bool_decide (uid ∈ unverified c) in
      let was_failed := bool_decide (uid ∈ failed c) in
      mkCounts (if negb reprovision || was_unverified || was_failed then count_ok c + 1 else count_ok c)
        (unverified c ∖ {[uid]}) (failed c ∖ {[uid]})
  | Unverified =>
      if bool_decide (uid ∈ failed c) || negb reprovision then mkCounts (count_ok c) ({[uid]} ∪ unverified c) (failed c ∖ {[uid]})
      else c
  | Fail => if negb reprovision then mkCounts (count_ok c) (unverified c) ({[uid]} ∪ failed c) else c
  end.

Inductive Phase : Type :=
| Idle
| Confirm (warnings : list string) (uid icc : string) (reprovision : bool)
| PhaseRunning
| PhaseFailed (index : nat) (message : string).
Record Finished : Type := mkFinished { fin_uid : string; fin_outcome : Outcome; fin_error : option string }.
Record Screen : Type := mkScreen {
  uid : string;
  icc : string;
  checks : Checks;
  counts : Counts;
  phase : Phase;
  last : option Finished;
  steps : list StepState;
  live_rtt : string
}.

(** [handle_events] on the session screen, for one event; [None] is the panic of an index
    out of range. *)
Definition handle_event (ev : Event) (s : Screen) : option Screen :=
  match ev with
  | StepEvent index state =>
      let phase := match state with
                   | Failed m => if (index <? STEP_RTT)%nat then PhaseFailed index m else phase s
                   | _ => phase s
                   end in
      if (index <? length (steps s))%nat then
        Some (mkScreen (uid s) (icc s) (checks s) (counts s) phase (last s) (<[index := state]> (steps s)) (live_rtt s))
      else None
  | Rtt log => Some (mkScreen (uid s) (icc s) (checks s) (counts s) (phase s) (last s) (steps s) log)
  | DeviceFinished u outcome reprovision rtt_log error =>
      Some (mkScreen "" "" (checks s) (record u outcome reprovision (counts s)) Idle (Some (mkFinished u outcome error)) (steps s) rtt_log)
  | SessionReady checks =>
      Some (mkScreen "" "" checks (mkCounts 0 ∅ ∅) Idle None (replicate STEPS Pending) "")
  | Probes | SessionFailed _ => Some s
  end.

Definition ICCID_WARNING : string := "The SIM ICCID failed validation".
(** [prepare_start], given the limits of the profile and the text of the log. *)
Definition prepare_start (uid_min uid_max : Z) (log : option string) (s : Screen) : Screen :=
  let u := normalize_uid (uid s) in
  let i := trim (icc s) in
  let s := mkScreen u i (checks s) (counts s) (phase s) (last s) (steps s) "" in
  if decide (u = "" ∨ i = "") then s
  else
    let reprovision := contains_uid log u in
    let warnings :=
      (if uid_warning u uid_min uid_max then ["uid length"] else []) ++
      (if check_iccid (checks s) && negb (iccid_valid i) then [ICCID_WARNING] else []) ++
      (if reprovision then ["already in the log"] else []) in
    mkScreen u i (checks s) (counts s) (Confirm warnings u i reprovision) (last s) (steps s) "".

(** [dialogs]: what the operator clicks, when the dialog is there to be clicked. *)
Inductive Click : Type := NoClick | CancelClick | ContinueClick | RetryClick | SkipClick.
Definition dialogs (click : Click) (s : Screen) : list Command * Screen :=
  let next phase := mkScreen (uid s) (icc s) (checks s) (counts s) phase (last s) (steps s) (live_rtt s) in
  match phase s with
  | Confirm warnings u i reprovision =>
      let start := ([Provision u i reprovision (checks s)], next PhaseRunning) in
      match warnings, click with
      | [], _ => start
      | _, ContinueClick => start
      | _, CancelClick => ([], next Idle)
      | _, _ => ([], s)
      end
  | PhaseFailed _ _ =>
      match click with
      | RetryClick => ([Retry], next PhaseRunning)
      | SkipClick => ([Skip], next PhaseRunning)
      | _ => ([], s)
      end
  | _ => ([], s)
  end.
