(* ===== verification/ProvisionProps.v ===== *)
(** * Properties of the provisioning tool

    A device that is reported as provisioned holds the config with the very certificate
    that the log names; the log finds it again; the counters count every device once; the
    check of a SIM number finds mistyped digits. *)

From Stdlib Require Import Ascii Strings.Byte.
From stdpp Require Import base list list_numbers numbers option strings gmap.
From S2P Require Import Prelude Samples Firmware MetaConfig Topics Provision.
#[local] Open Scope Z_scope.

(** ** What the bench promises *)

Class BenchLaws (W : Type) `{!Bench W} : Type := {
  (** The bytes of the device's flash, from an address. *)
  flash_bytes : W → Z → Z → list Z;
  issue_law uid b : (issue uid b).1 ≠ Panic ∧ log_text (issue uid b).2 = log_text b;
  attach_law b : (attach b).1 ≠ Panic ∧ log_text (attach b).2 = log_text b;
  flash_elf_law i b : (flash_elf i b).1 ≠ Panic ∧ log_text (flash_elf i b).2 = log_text b;
  erase_law lo hi b : (erase lo hi b).1 ≠ Panic ∧ log_text (erase lo hi b).2 = log_text b;
  program_law a data b :
    (program a data b).1 ≠ Panic ∧ log_text (program a data b).2 = log_text b ∧
    ((program a data b).1 = Ok tt → flash_bytes (program a data b).2 a (len data) = data);
  reset_law b : (reset b).1 ≠ Panic ∧ log_text (reset b).2 = log_text b ∧ flash_bytes (reset b).2 = flash_bytes b;
  rtt_law t b : log_text (rtt_turns t b).2 = log_text b ∧ flash_bytes (rtt_turns t b).2 = flash_bytes b;
  (** A write to the log may fail half-way. *)
  log_write_law line b text :
    log_text b = Some text →
    (log_write line b).1 ≠ Panic ∧ flash_bytes (log_write line b).2 = flash_bytes b ∧
    ∃ written, log_text (log_write line b).2 = Some (text +:+ written) ∧ ((log_write line b).1 = Ok tt → written = line)
}.

(** ** The config image *)

#[export] Instance profile_device_type_laws : DeviceTypeLaws ProfileDeviceType.
Proof.
  split; cbn.
  - intros d. pose proof (Byte.to_N_bounded d). unfold is_u8. lia.
  - intros d. rewrite (proj2 (Z.ltb_ge _ _)) by lia. by rewrite N2Z.id, Byte.of_to_N.
  - intros b d. destruct (Z.ltb_spec b 0); [done|]. intros Hd%Byte.to_of_N. rewrite Hd. lia.
Qed.

Lemma len_bytes_of s : len (bytes_of s) = str_len s.
Proof. unfold len, str_len. f_equal. induction s as [|a s IH]; [done|]. cbn. by rewrite IH. Qed.

(** The firmware reads the config back that the tool built. *)
Lemma build_parses uid dt cert key config :
  build uid dt cert key = inl config → 0 ∉ bytes_of uid → utf8_valid (bytes_of uid) = true →
  config_try_from_bytes config = (Ok (MetaConfig.mkConfig (bytes_of uid) cert key dt), config).
Proof.
  unfold build. destruct (Z.ltb_spec MAX_CERT_SIZE (len cert)); [done|]. destruct (Z.ltb_spec MAX_KEY_SIZE (len key)); [done|].
  destruct (Z.ltb_spec MetaConfig.MAX_UID_LEN (str_len uid)); [done|]. intros Hb Hz Hu.
  assert (Hok : config_ok (MetaConfig.mkConfig (bytes_of uid) cert key dt)).
  { split; [done|]. split; [done|]. cbn. rewrite len_bytes_of. lia. }
  rewrite (config_as_bytes_run _ _ Hok) in Hb by (unfold len; by rewrite length_replicate). injection Hb as <-.
  pose proof (config_try_run _ [] Hok) as Hr. by rewrite app_nil_r in Hr.
Qed.

Section worker.
Context {W : Type} {bn : Bench W} {laws : BenchLaws W}.
Implicit Types (w : Worker W) (b : W).

Definition is_finished (ev : Event) : bool := match ev with DeviceFinished _ _ _ _ _ => true | _ => false end.

(** The worker sent these events, none of which ends a device. *)
Definition grew (evs : list Event) w w' : Prop :=
  session w' = session w ∧ sent w' = sent w ++ evs ∧ Forall (λ ev, is_finished ev = false) evs.

Lemma grew_nil w w' : session w' = session w → sent w' = sent w → grew [] w w'.
Proof. intros H1 H2. split; [done|]. by rewrite app_nil_r. Qed.
Lemma grew_trans e1 e2 w w1 w2 : grew e1 w w1 → grew e2 w1 w2 → grew (e1 ++ e2) w w2.
Proof.
  intros (H1 & H2 & H3) (H4 & H5 & H6). split; [congruence|]. split; [by rewrite H5, H2, app_assoc|by apply Forall_app].
Qed.
Lemma grew_send w ev : is_finished ev = false → grew [ev] w (set_sent (sent w ++ [ev]) w).
Proof. intros Hev. split; [done|]. split; [done|]. by constructor. Qed.

Lemma wp_send_event {E} ev w (Q : unit → Worker W → Prop) (R : E → Worker W → Prop) :
  Q tt (set_sent (sent w ++ [ev]) w) → wp (worker_send ev) Q R w.
Proof. done. Qed.

(** What a step leads to: the call of its function that succeeded, the first or, when
    there were failures, a later one; [P] is what failed calls keep. *)
Definition keeps_on_failure {T} (f : M W string T) (P : W → Prop) (Q : T → W → Prop) : Prop :=
  ∀ b, P b → match f b with (Ok v, b') => Q v b' | (Err _, b') => P b' | (Panic, _) => False end.

Lemma wp_step_wait {T} i (f : M W string T) P Q cmds w :
  keeps_on_failure f P Q → P (bench w) →
  wp (step_wait i f cmds)
    (λ v w', (∃ evs, grew evs w w') ∧ Q v (bench w'))
    (λ _ w', (∃ evs, grew evs w w') ∧ P (bench w')) w.
Proof.
  intros Hf. revert w. induction cmds as [|cmd cmds IH]; intros w HP; cbn [step_wait].
  { apply wp_bind, wp_modify, wp_fail. split; [by exists []; apply grew_nil|done]. }
  assert (Hskip : wp (modify (set_commands cmds);; fail OperatorSkipped : M (Worker W) Skipped T)
    (λ v w', (∃ evs, grew evs w w') ∧ Q v (bench w')) (λ _ w', (∃ evs, grew evs w w') ∧ P (bench w')) w).
  { apply wp_bind, wp_modify, wp_fail. split; [by exists []; apply grew_nil|done]. }
  destruct cmd; try (by apply IH); [|done].
  apply wp_bind, wp_modify. unfold step_try. apply wp_bind, wp_send_event. set (w1 := set_sent _ _).
  assert (G1 : grew [StepEvent i Running] w w1) by (by apply (grew_trans [] _ _ (set_commands cmds w)); [apply grew_nil|apply grew_send]).
  apply wp_bind. unfold wp at 1, attempt, at_bench, zoom. specialize (Hf (bench w1) HP).
  destruct (f (bench w1)) as [[v|e|] b']; [| |done].
  - apply wp_bind, wp_send_event, wp_ret. split; [|done]. exists ([StepEvent i Running] ++ [StepEvent i Done]).
    eapply grew_trans; [exact G1|]. by apply (grew_trans [] _ _ (set_bench b' w1)); [apply grew_nil|apply grew_send].
  - apply wp_bind, wp_send_event. set (w2 := set_sent _ _).
    assert (G2 : grew [StepEvent i (Failed e)] w1 w2) by (by apply (grew_trans [] _ _ (set_bench b' w1)); [apply grew_nil|apply grew_send]).
    eapply wp_mono; [by apply IH|..]; intros ? w3 [[evs G3] H3]; (split; [|done]); eexists; (eapply grew_trans; [exact G1|]);
      (eapply grew_trans; [exact G2|exact G3]).
Qed.

Lemma wp_step {T} i (f : M W string T) P Q w :
  keeps_on_failure f P Q → P (bench w) →
  wp (step i f)
    (λ v w', ∃ evs, grew evs w w' ∧ Q v (bench w') ∧ ((∃ m, StepEvent i (Failed m) ∈ evs) ∨ f (bench w) = (Ok v, bench w')))
    (λ _ w', (∃ evs, grew evs w w') ∧ P (bench w')) w.
Proof.
  intros Hf HP. unfold step. apply wp_bind, wp_gets. generalize (commands w) as cmds. intros cmds. unfold step_try.
  apply wp_bind, wp_send_event. set (w1 := set_sent _ _). assert (G1 : grew [StepEvent i Running] w w1) by (by apply grew_send).
  apply wp_bind. unfold wp at 1, attempt, at_bench, zoom. pose proof (Hf (bench w1) HP) as Hw.
  destruct (f (bench w1)) as [[v|e|] b'] eqn:Hrun; [| |done].
  - apply wp_bind, wp_send_event, wp_ret. exists ([StepEvent i Running] ++ [StepEvent i Done]). split; [|split; [done|by right]].
    eapply grew_trans; [exact G1|]. by apply (grew_trans [] _ _ (set_bench b' w1)); [apply grew_nil|apply grew_send].
  - apply wp_bind, wp_send_event. set (w2 := set_sent _ _).
    assert (G2 : grew [StepEvent i (Failed e)] w1 w2) by (by apply (grew_trans [] _ _ (set_bench b' w1)); [apply grew_nil|apply grew_send]).
    eapply wp_mono; [by apply (wp_step_wait i f P Q)|..].
    + intros v w3 [[evs G3] H3]. eexists. split; [eapply grew_trans; [exact G1|eapply grew_trans; [exact G2|exact G3]]|].
      split; [done|]. left. exists e. cbn. by right; left.
    + intros ? w3 [[evs G3] H3]. split; [|done]. eexists. eapply grew_trans; [exact G1|eapply grew_trans; [exact G2|exact G3]].
Qed.

(** *** Provisioning *)

(** The device holds the config with the certificate that the last row of the log names. *)
Definition stored (s : Session) (uid icc text : string) (evs : list Event) b : Prop :=
  ∃ cert key config junk ts,
    (∃ b1 b2, issue uid b1 = (Ok (cert, key), b2)) ∧
    build uid (s_device_type s) (bytes_of (pem cert)) (bytes_of key) = inl config ∧
    flash_bytes b (config_flash_start s) (len config) = config ∧
    log_text b = Some (text +:+ junk +:+ row_line ts (mkRow uid icc (serial_hex cert) (sha256_hex cert))) ∧
    ((∀ m, StepEvent STEP_LOG (Failed m) ∉ evs) → junk = "") ∧
    (0 ∉ bytes_of uid → utf8_valid (bytes_of uid) = true →
     config_try_from_bytes config = (Ok (MetaConfig.mkConfig (bytes_of uid) (bytes_of (pem cert)) (bytes_of key) (s_device_type s)), config)).

Ltac grow := first [eassumption | eapply grew_trans; [eassumption|grow]].
Ltac use_step P Q :=
  apply wp_bind; eapply wp_mono;
    [apply (wp_step _ _ P Q); [intros ? ?|]| |intros ? ? [(? & ?) _]; eexists; grow].

Lemma app_string_assoc (a b c : string) : (a +:+ b) +:+ c = a +:+ b +:+ c.
Proof. induction a as [|x a IH]; [done|]. change (String x ((a +:+ b) +:+ c) = String x (a +:+ b +:+ c)). by rewrite IH. Qed.
Lemma app_string_nil (a : string) : a +:+ "" = a.
Proof. induction a as [|x a IH]; [done|]. change (String x (a +:+ "") = String x a). by rewrite IH. Qed.

Lemma wp_provision_steps s uid icc w text :
  config_flash_start s ≤ config_flash_end s → log_text (bench w) = Some text →
  wp (provision_steps s uid icc) (λ _ w', ∃ evs, grew evs w w' ∧ stored s uid icc text evs (bench w')) (λ _ w', ∃ evs, grew evs w w') w.
Proof.
  intros Hrange Hlog. unfold provision_steps.
  use_step (λ b, log_text b = Some text) (λ (r : IssuedCert * string) b, log_text b = Some text ∧ ∃ b1 b2, issue uid b1 = (Ok r, b2)).
  { destruct (issue_law uid b) as [Hp Hl]. destruct (issue uid b) as [[r|e|] b'] eqn:Hr; cbn in *; [|congruence|done].
    split; [congruence|eauto]. }
  { done. }
  intros [cert key] w0 (e0 & G0 & [L0 Hissue] & _).
  use_step (λ b, log_text b = Some text) (λ (c : list Z) b, log_text b = Some text ∧ build uid (s_device_type s) (bytes_of (pem cert)) (bytes_of key) = inl c).
  { destruct (build _ _ _ _); [by split|done]. }
  { done. }
  intros config w1 (e1 & G1 & [L1 Hbuild] & _).
  use_step (λ b, log_text b = Some text) (λ (_ : unit) b, log_text b = Some text).
  { destruct (attach_law b) as [Hp Hl]. destruct (attach b) as [[r|e|] b']; cbn in *; [congruence|congruence|done]. }
  { done. }
  intros [] w2 (e2 & G2 & L2 & _).
  use_step (λ b, log_text b = Some text) (λ (_ : unit) b, log_text b = Some text).
  { destruct (flash_elf_law BootloaderImage b) as [Hp Hl]. destruct (flash_elf _ b) as [[r|e|] b']; cbn in *; [congruence|congruence|done]. }
  { done. }
  intros [] w3 (e3 & G3 & L3 & _).
  use_step (λ b, log_text b = Some text) (λ (_ : unit) b, log_text b = Some text).
  { destruct (flash_elf_law FirmwareImage b) as [Hp Hl]. destruct (flash_elf _ b) as [[r|e|] b']; cbn in *; [congruence|congruence|done]. }
  { done. }
  intros [] w4 (e4 & G4 & L4 & _).
  use_step (λ b, log_text b = Some text) (λ (_ : unit) b, log_text b = Some text ∧ flash_bytes b (config_flash_start s) (len config) = config).
  { unfold write_region. rewrite (proj2 (Z.ltb_ge _ _)) by lia. destruct (_ <? len config); [done|]. unfold mbind, M_bind.
    destruct (erase_law (config_flash_start s) (config_flash_end s) b) as [Hp Hl]. destruct (erase _ _ b) as [[r|e|] b']; cbn in *; [|congruence|done].
    destruct (program_law (config_flash_start s) config b') as (Hp' & Hl' & Hf).
    destruct (program _ _ b') as [[[]|e|] b'']; cbn in *; [|congruence|done]. split; [congruence|by apply Hf]. }
  { done. }
  intros [] w5 (e5 & G5 & [L5 F5] & _).
  eapply wp_mono; [apply (wp_step _ _ (λ b, flash_bytes b (config_flash_start s) (len config) = config ∧ ∃ junk, log_text b = Some (text +:+ junk))
    (λ (_ : unit) b, flash_bytes b (config_flash_start s) (len config) = config ∧
       ∃ junk ts, log_text b = Some (text +:+ junk +:+ row_line ts (mkRow uid icc (serial_hex cert) (sha256_hex cert)))))|..].
  - intros b [Hf (junk & Hj)]. unfold log_append, mbind, M_bind, gets.
    destruct (log_write_law (row_line (log_time b) (mkRow uid icc (serial_hex cert) (sha256_hex cert))) b _ Hj) as (Hp & Hf' & written & Hw & Hok).
    destruct (log_write _ b) as [[[]|e|] b']; cbn in *; [| |done].
    + rewrite (Hok eq_refl), app_string_assoc in Hw. split; [congruence|eauto].
    + rewrite app_string_assoc in Hw. split; [congruence|eauto].
  - split; [done|]. exists "". by rewrite app_string_nil.
  - intros [] w6 (e6 & G6 & [F6 (junk & ts & L6)] & Hfirst). eexists. split.
    { grow. }
    assert (∃ junk ts, log_text (bench w6) = Some (text +:+ junk +:+ row_line ts (mkRow uid icc (serial_hex cert) (sha256_hex cert))) ∧
      ((∀ m, StepEvent STEP_LOG (Failed m) ∉ e6) → junk = "")) as (junk' & ts' & L6' & Hjunk).
    { destruct Hfirst as [(m & Hm)|Hrun]; [exists junk, ts; split; [done|intros Hno; by destruct (Hno m)]|].
      unfold log_append, mbind, M_bind, gets in Hrun. exists "", (log_time (bench w5)).
      destruct (log_write_law (row_line (log_time (bench w5)) (mkRow uid icc (serial_hex cert) (sha256_hex cert))) (bench w5) _ L5) as (_ & _ & written & Hw & Hok).
      rewrite Hrun in Hw, Hok. cbn in *. by rewrite (Hok eq_refl) in Hw. }
    exists cert, key, config, junk', ts'. split; [done|]. split; [done|]. split; [done|]. split; [done|].
    split; [|by apply build_parses]. intros Hno. apply Hjunk. intros m Hm. apply (Hno m). rewrite !elem_of_app. auto 10.
  - intros ? w6 [(e6 & G6) _]. eexists. grow.
Qed.

(** *** Verification *)

Lemma wait_for_spec turns needle (b : BootLog) r (b' : BootLog) ups :
  wait_for turns needle b = (r, b', ups) →
  banner b' = banner b ∧ (∃ more, boot_log b' = boot_log b +:+ more) ∧ (r = inl true → seen_after_banner (boot_log b') (banner b) needle = true).
Proof.
  revert b r b' ups. induction turns as [|t turns IH]; intros b r b' ups; cbn [wait_for].
  { intros [= <- <- <-]. split; [done|]. split; [by exists ""; rewrite app_string_nil|by intros [= ->]]. }
  destruct (seen_after_banner _ _ _) eqn:Hs.
  { intros [= <- <- <-]. split; [done|]. split; [by exists ""; rewrite app_string_nil|done]. }
  destruct (core t); [intros [= <- <- <-]; split; [done|]; split; [by exists ""; rewrite app_string_nil|done]|].
  destruct (_ && _); [apply IH|].
  destruct (read t) as [text| |]; [|intros Hw; by apply IH in Hw..].
  destruct text as [|a text]; [intros Hw; by apply IH in Hw|].
  destruct (wait_for turns needle _) as [[r0 b0] ups0] eqn:Hw. intros [= <- <- <-]. apply IH in Hw as (H1 & (more & H2) & H3).
  cbn in *. split; [done|]. split; [|done]. exists (String a text +:+ more). by rewrite H2, app_string_assoc.
Qed.

(** The log and the flash stay as they are. *)
Definition untouched w w' : Prop := log_text (bench w') = log_text (bench w) ∧ flash_bytes (bench w') = flash_bytes (bench w).

Lemma wp_boot_wait {E} needle t msg (b : BootLog) w :
  wp (boot_wait (E := E) needle t msg b)
    (λ '(r, b') w', (∃ evs, grew evs w w') ∧ untouched w w' ∧ banner b' = banner b ∧ (∃ more, boot_log b' = boot_log b +:+ more) ∧
       (r = inl tt → seen_after_banner (boot_log b') (banner b) needle = true))
    (λ _ _, False) w.
Proof.
  unfold boot_wait. apply wp_bind. unfold wp at 1. destruct (rtt_law t (bench w)) as [Hl Hf]. destruct (rtt_turns t (bench w)) as [turns v].
  destruct (wait_for turns needle b) as [[r b'] ups] eqn:Hw. apply wp_bind, wp_modify, wp_ret.
  destruct (wait_for_spec _ _ _ _ _ _ Hw) as (H1 & H2 & H3).
  split.
  { exists (Rtt <$> ups). split; [done|]. split; [done|]. rewrite Forall_fmap. by apply Forall_true. }
  split; [by split|]. split; [done|]. split; [done|]. destruct r as [[]|]; try done. intros _. by apply H3.
Qed.

Lemma wp_finish_step {E} i r w :
  wp (finish_verify_step (E := E) i r)
    (λ err w', (∃ evs, grew evs w w') ∧ bench w' = bench w ∧ err = match r with inl _ => None | inr e => Some e end) (λ _ _, False) w.
Proof. apply wp_bind, wp_send_event, wp_ret. split; [|done]. eexists. by apply grew_send. Qed.

(** What an outcome of the verification says. *)
Definition verified (s : Session) uid (checks : Checks) (o : Outcome) (log : string) (err : option string) : Prop :=
  match o with
  | OutcomeOk =>
      err = None ∧ (∃ first rest, log = first +:+ rest ∧ seen_after_banner first (boot_banner s) uid = true) ∧
      (check_mqtt checks = true → seen_after_banner log (boot_banner s) (mqtt_marker s) = true)
  | Unverified => err ≠ None
  | Fail => False
  end.

Lemma grew_event ev w : is_finished ev = false → ∃ evs, grew evs w (set_sent (sent w ++ [ev]) w).
Proof. intros Hev. eexists. by apply grew_send. Qed.

Lemma wp_verify {E} s uid checks w :
  wp (verify (E := E) s uid checks)
    (λ '(o, log, err) w', (∃ evs, grew evs w w') ∧ untouched w w' ∧ verified s uid checks o log err) (λ _ _, False) w.
Proof.
  unfold verify. cbv zeta. apply wp_bind, wp_send_event. set (w1 := set_sent _ _).
  destruct (grew_event (StepEvent STEP_RTT Running) w eq_refl) as [e1 G1]. fold w1 in G1.
  apply wp_bind. unfold wp at 1, attempt, at_bench, zoom. destruct (reset_law (bench w1)) as (Hp & Hl & Hf).
  destruct (reset (bench w1)) as [[[]|e|] bb]; [| |done]; cbn in Hl, Hf; set (w2 := set_bench bb w1);
    (assert (G2 : ∃ evs, grew evs w w2) by (exists e1; exact G1));
    (assert (U2 : untouched w w2) by (by split)); clearbody w2; clear w1 G1 Hl Hf Hp; destruct G2 as [e2 G2].
  2: { apply wp_bind, wp_ret, wp_bind. eapply wp_mono; [apply wp_finish_step|intros err w3 ([e3 G3] & Hb3 & ->)|done].
    apply wp_bind, wp_bind, wp_send_event, wp_ret, wp_ret. split.
    - destruct (grew_event (StepEvent STEP_MQTT StepSkipped) w3 eq_refl) as [e4 G4]. eexists. grow.
    - split; [|done]. unfold untouched in *. cbn. by rewrite Hb3. }
  apply wp_bind. eapply wp_mono; [apply wp_boot_wait|intros [booted b] w3 ([e3 G3] & U3 & Hb & (more & Hmore) & Hseen)|done].
  apply wp_bind. eapply wp_mono; [apply wp_finish_step|intros err w4 ([e4 G4] & Hb4 & ->)|done].
  assert (U4 : untouched w w4) by (unfold untouched in *; rewrite Hb4; intuition congruence).
  destruct booted as [[]|e].
  2: { apply wp_bind, wp_bind, wp_send_event, wp_ret, wp_ret. split; [|by split].
    destruct (grew_event (StepEvent STEP_MQTT StepSkipped) w4 eq_refl) as [e5 G5]. eexists. grow. }
  specialize (Hseen eq_refl). cbn in Hb, Hmore. destruct (check_mqtt checks) eqn:Hmq.
  2: { apply wp_bind, wp_bind, wp_send_event, wp_ret, wp_ret. split.
    - destruct (grew_event (StepEvent STEP_MQTT StepSkipped) w4 eq_refl) as [e5 G5]. eexists. grow.
    - split; [done|]. split; [done|]. rewrite Hmq. split; [|done]. exists (boot_log b), "". by rewrite app_string_nil. }
  apply wp_bind, wp_bind, wp_send_event. set (w5 := set_sent _ _).
  destruct (grew_event (StepEvent STEP_MQTT Running) w4 eq_refl) as [e5 G5]. fold w5 in G5.
  apply wp_bind. eapply wp_mono; [apply wp_boot_wait|intros [connected b'] w6 ([e6 G6] & U6 & Hb' & (more' & Hmore') & Hseen')|done].
  apply wp_bind. eapply wp_mono; [apply wp_finish_step|intros err w7 ([e7 G7] & Hb7 & ->)|done].
  apply wp_ret, wp_ret. split; [eexists; grow|]. split; [unfold untouched in *; rewrite Hb7; cbn in *; intuition congruence|].
  destruct connected as [[]|e]; [|done]. split; [done|]. rewrite Hb in Hseen'. split; [|by intros _; apply Hseen']. by exists (boot_log b), more'.
Qed.

(** C27: a device that is reported as provisioned is the one that the log names.  Provisioning
    always ends, with one report.  When the report is not a failure, the device holds the
    config image of its UID with a certificate that was issued for that UID in this run
    and its key, and the log ends with the row that names the UID, the SIM and this very
    certificate, with nothing else written unless a write to the log failed before; the
    firmware reads that config back.  OK is reported only when the boot log showed the UID
    after the last boot banner and, if that check is on, the mark of the connection.
    Otherwise the operator skipped the device. *)
Theorem provisioned_device_is_logged s uid icc reprovision checks w text :
  session w = Some s → config_flash_start s ≤ config_flash_end s → log_text (bench w) = Some text →
  ∃ w' evs outcome rtt error,
    provision uid icc reprovision checks w = (Ok tt, w') ∧
    sent w' = sent w ++ evs ++ [DeviceFinished uid outcome reprovision rtt error] ∧ Forall (λ ev, is_finished ev = false) evs ∧
    match outcome with
    | Fail => error = Some "skipped by operator"
    | _ => verified s uid checks outcome rtt error ∧ stored s uid icc text evs (bench w')
    end.
Proof.
  intros Hs Hrange Hlog. unfold provision. unfold mbind at 1, M_bind at 1, modify at 1.
  set (w0 := set_sent _ w). assert (G0 : grew ((λ i, StepEvent i Pending) <$> seq 0 STEPS) w w0).
  { split; [done|]. split; [done|]. rewrite Forall_fmap. by apply Forall_true. }
  rewrite (bind_run _ _ w0 (session w) w0) by done. rewrite Hs.
  assert (W1 : wp (provision_steps s uid icc;; verify s uid checks)
    (λ '(o, log, err) w', ∃ evs, grew evs w0 w' ∧ verified s uid checks o log err ∧ stored s uid icc text evs (bench w'))
    (λ _ w', ∃ evs, grew evs w0 w') w0).
  { apply wp_bind. eapply wp_mono; [by apply (wp_provision_steps s uid icc w0 text)|intros [] w1 (e1 & G1 & St)|done].
    eapply wp_mono; [apply wp_verify|intros [[o log] err] w2 ([e2 G2] & [Hl Hf] & Hv)|done].
    exists (e1 ++ e2). split; [by eapply grew_trans|]. split; [done|]. destruct St as (cert & key & config & junk & ts & H1 & H2 & H3 & H4 & H5 & H6).
    exists cert, key, config, junk, ts. rewrite Hl, Hf. split; [done|]. split; [done|]. split; [done|]. split; [done|]. split; [|done].
    intros Hno. apply H5. intros m Hm. apply (Hno m), elem_of_app. by left. }
  unfold wp in W1. unfold mbind at 1, M_bind at 1, attempt.
  destruct ((provision_steps s uid icc;; verify s uid checks) w0) as [[[[o log] err]|[]|] w1]; [| |done].
  - destruct W1 as (evs & G1 & Hv & St). pose proof (grew_trans _ _ _ _ _ G0 G1) as (_ & Hsent & Hfin).
    eexists _, _, o, log, err. split; [done|]. cbn [sent worker_send modify set_sent]. rewrite Hsent, <- app_assoc. split; [done|]. split; [done|].
    destruct o; [| |done]; (split; [done|]); destruct St as (cert & key & config & junk & ts & H1 & H2 & H3 & H4 & H5 & H6);
      exists cert, key, config, junk, ts; (split; [done|]); (split; [done|]); (split; [done|]); (split; [done|]); (split; [|done]);
      intros Hno; apply H5; intros m Hm; apply (Hno m), elem_of_app; by right.
  - destruct W1 as [evs G1]. pose proof (grew_trans _ _ _ _ _ G0 G1) as (_ & Hsent & Hfin).
    eexists _, _, Fail, "", _. split; [done|]. cbn [sent worker_send modify set_sent]. rewrite Hsent, <- app_assoc. by split.
Qed.
End worker.

(** ** The log *)

Fixpoint str_has (c : ascii) (s : string) : bool :=
  match s with EmptyString => false | String a s => bool_decide (a = c) || str_has c s end.

Lemma str_has_app c a b : str_has c (a +:+ b) = str_has c a || str_has c b.
Proof.
  induction a as [|x a IH]; [done|]. change (String x a +:+ b) with (String x (a +:+ b)). cbn [str_has]. by rewrite IH, orb_assoc.
Qed.

Lemma split_at_app c a b :
  split_at c (a +:+ String c b) = let '(p, ps) := split_at c a in let '(q, qs) := split_at c b in (p, ps ++ q :: qs).
Proof.
  induction a as [|x a IH].
  - change ("" +:+ String c b) with (String c b). cbn. destruct (split_at c b) as [q qs]. by rewrite decide_True.
  - change (String x a +:+ String c b) with (String x (a +:+ String c b)). cbn [split_at]. rewrite IH.
    destruct (split_at c a) as [p ps], (split_at c b) as [q qs]. by destruct (decide (x = c)).
Qed.

Lemma split_at_free c a b : str_has c a = false → split_at c (a +:+ b) = let '(q, qs) := split_at c b in (a +:+ q, qs).
Proof.
  induction a as [|x a IH]; [change ("" +:+ b) with b; by destruct (split_at c b)|]. cbn [str_has]. intros [Hx Ha]%orb_false_iff. apply bool_decide_eq_false in Hx.
  change (String x a +:+ b) with (String x (a +:+ b)). cbn [split_at]. rewrite IH by done. destruct (split_at c b) as [q qs].
  by rewrite decide_False.
Qed.

Lemma ended_lines_app p ps q qs : ended_lines p (ps ++ q :: qs) = (strip_cr <$> p :: ps) ++ ended_lines q qs.
Proof. revert p. induction ps as [|p' ps IH]; intros p; [done|]. cbn [app ended_lines]. by rewrite IH. Qed.

Lemma lines_app a b : ∃ l, lines (a +:+ String newline "") = l ∧ lines (a +:+ String newline b) = l ++ lines b ∧ l ≠ [].
Proof.
  unfold lines. rewrite !split_at_app. destruct (split_at newline a) as [p ps], (split_at newline b) as [q qs].
  change (split_at newline "") with ("", @nil string). cbn iota beta. rewrite !ended_lines_app. eexists. split; [done|]. split; [|done]. cbn. by rewrite app_nil_r.
Qed.

Lemma strip_cr_comma a b : strip_cr (a +:+ String comma b) = a +:+ String comma (strip_cr b).
Proof.
  induction a as [|x a IH]; [by destruct b|]. change (String x a +:+ String comma b) with (String x (a +:+ String comma b)).
  assert (strip_cr (String x (a +:+ String comma b)) = String x (strip_cr (a +:+ String comma b))) as ->; [by destruct a|].
  rewrite IH. done.
Qed.

Lemma existsb_app_true {T} (f : T → bool) l l' : existsb f l = true ∨ existsb f l' = true → existsb f (l ++ l') = true.
Proof. rewrite existsb_app. destruct (existsb f l), (existsb f l'); naive_solver. Qed.

(** The log finds a device again.  After a row was added to a log that ends with a line
    end, the UID of the row is found, whatever the other fields hold, and what was found
    before still is, as long as the UID itself has no comma and no line end. *)
Theorem logged_uid_is_found text ts row :
  str_has comma (r_uid row) = false → str_has newline (r_uid row) = false → str_has comma ts = false → str_has newline ts = false →
  let log := text +:+ String newline "" in
  contains_uid (Some (log +:+ row_line ts row)) (r_uid row) = true ∧
  ∀ uid, contains_uid (Some log) uid = true → contains_uid (Some (log +:+ row_line ts row)) uid = true.
Proof.
  intros Huc Hun Htc Htn. cbv zeta. unfold contains_uid.
  assert ((text +:+ String newline "") +:+ row_line ts row = text +:+ String newline (row_line ts row)) as -> by (by rewrite app_string_assoc).
  destruct (lines_app text (row_line ts row)) as (l & -> & -> & Hl). destruct l as [|l0 l]; [done|]. cbn [app drop]. split.
  - apply existsb_app_true. right. apply existsb_exists.
    assert (∃ y rest, lines (row_line ts row) = (ts +:+ String comma (r_uid row +:+ String comma y)) :: rest) as (y & rest & Hrow).
    { unfold row_line, lines.
      assert (∀ z, ts +:+ "," +:+ r_uid row +:+ "," +:+ z = (ts +:+ String comma (r_uid row +:+ String comma "")) +:+ z) as Hz.
      { intros z. rewrite app_string_assoc. f_equal.
        change (String comma (r_uid row +:+ String comma z) = String comma ((r_uid row +:+ String comma "") +:+ z)). by rewrite app_string_assoc. }
      rewrite Hz, split_at_free.
      2: { rewrite str_has_app, Htn. cbn [str_has]. by rewrite str_has_app, Hun. }
      set (z := r_icc row +:+ _). destruct (split_at newline z) as [q qs] eqn:Hq.
      assert (Hqs : qs ≠ []).
      { intros ->. unfold z in Hq.
        assert (z = (r_icc row +:+ "," +:+ r_cert_serial row +:+ "," +:+ r_cert_sha256 row) +:+ String newline "") as Hz' by (unfold z; by rewrite !app_string_assoc).
        unfold z in Hz'. rewrite Hz', split_at_app in Hq. destruct (split_at newline _) as [p ps]. cbn in Hq. injection Hq as _ Hq. by destruct ps. }
      destruct qs as [|q' qs]; [done|]. cbn [ended_lines]. exists (strip_cr q), (ended_lines q' qs). f_equal.
      rewrite app_string_assoc. change (String comma (r_uid row +:+ String comma "") +:+ q) with (String comma ((r_uid row +:+ String comma "") +:+ q)).
      rewrite strip_cr_comma. do 2 f_equal.
      rewrite app_string_assoc. apply strip_cr_comma. }
    rewrite Hrow. eexists. split; [by left|]. apply bool_decide_eq_true. unfold split.
    rewrite split_at_app. rewrite <- (app_string_nil ts), split_at_free by done. cbn [split_at].
    rewrite split_at_app. rewrite <- (app_string_nil (r_uid row)), split_at_free by done. cbn [split_at].
    destruct (split_at comma y) as [q qs]. cbn. by rewrite app_string_nil.
  - intros uid Hu. apply existsb_app_true. by left.
Qed.

(** ** The counters *)

(** A device that was reported, with its outcome. *)
Definition Attempt : Type := string * Outcome.
Definition with_outcome (o : Outcome) (atts : list Attempt) : gset string := list_to_set ((filter (λ a, a.2 = o) atts).*1).

(** Each report is counted with the flag that its device has a row in the log, which is
    written when a device does not fail; the log was empty at the start. *)
Definition logged (u : string) (atts : list Attempt) : bool := bool_decide (u ∈ with_outcome OutcomeOk atts ∪ with_outcome Unverified atts).
Fixpoint count_attempts (before rest : list Attempt) (c : Counts) : Counts :=
  match rest with
  | [] => c
  | (u, o) :: rest => count_attempts (before ++ [(u, o)]) rest (record u o (logged u before) c)
  end.

Lemma with_outcome_snoc o atts u o' :
  with_outcome o (atts ++ [(u, o')]) = if decide (o' = o) then {[u]} ∪ with_outcome o atts else with_outcome o atts.
Proof.
  unfold with_outcome. rewrite filter_app, filter_cons. cbn. destruct (decide (o' = o)); rewrite fmap_app, list_to_set_app_L; cbn; set_solver.
Qed.

(** What the counters should show. *)
Definition tally (atts : list Attempt) : Counts :=
  let oks := with_outcome OutcomeOk atts in
  let unv := with_outcome Unverified atts in
  mkCounts (Z.of_nat (size oks)) (unv ∖ oks) (with_outcome Fail atts ∖ (oks ∪ unv)).

Lemma record_tally u o atts : record u o (logged u atts) (tally atts) = tally (atts ++ [(u, o)]).
Proof.
  unfold tally. rewrite !with_outcome_snoc. unfold logged, record. cbn [count_ok unverified failed].
  set (A := with_outcome OutcomeOk atts). set (B := with_outcome Unverified atts). set (F := with_outcome Fail atts).
  destruct o; cbn [decide]; repeat (rewrite decide_True by done || rewrite decide_False by done).
  - destruct (decide (u ∈ A)) as [Hu|Hu].
    + assert ({[u]} ∪ A = A) as -> by set_solver.
      rewrite (bool_decide_true (u ∈ A ∪ B)), (bool_decide_false (u ∈ B ∖ A)), (bool_decide_false (u ∈ F ∖ (A ∪ B))) by set_solver. cbn.
      f_equal; set_solver.
    + assert (negb (bool_decide (u ∈ A ∪ B)) || bool_decide (u ∈ B ∖ A) || bool_decide (u ∈ F ∖ (A ∪ B)) = true) as ->.
      { destruct (decide (u ∈ B)); [rewrite (bool_decide_true (u ∈ B ∖ A)) by set_solver; by rewrite orb_true_r|by rewrite bool_decide_false by set_solver]. }
      rewrite size_union, size_singleton by set_solver. f_equal; [lia|set_solver|set_solver].
  - case_bool_decide as HF; cbn [orb].
    + f_equal; set_solver.
    + case_bool_decide as HB; cbn [negb].
      * f_equal; set_solver.
      * f_equal; set_solver.
  - case_bool_decide as HB; cbn [negb]; f_equal; set_solver.
Qed.

(** The counters count every device once: a device that was once OK as OK, else one that
    was once flashed as unverified, else one that was tried as failed, however often it
    was tried. *)
Theorem counts_each_device_once atts :
  let c := count_attempts [] atts (mkCounts 0 ∅ ∅) in
  let oks := with_outcome OutcomeOk atts in
  count_ok c = Z.of_nat (size oks) ∧ unverified c = with_outcome Unverified atts ∖ oks ∧
  failed c = with_outcome Fail atts ∖ (oks ∪ with_outcome Unverified atts).
Proof.
  assert (∀ before rest, count_attempts before rest (tally before) = tally (before ++ rest)) as Hall.
  { intros before rest. revert before. induction rest as [|[u o] rest IH]; intros before; cbn; [by rewrite app_nil_r|].
    by rewrite record_tally, IH, <- app_assoc. }
  specialize (Hall [] atts). cbv zeta. change (mkCounts 0 ∅ ∅) with (tally []). rewrite Hall. done.
Qed.

(** ** The check digit *)

Lemma luhn_term_injective k d d' : 0 ≤ d ≤ 9 → 0 ≤ d' ≤ 9 → luhn_term k d mod 10 = luhn_term k d' mod 10 → d = d'.
Proof.
  intros Hd Hd'. unfold luhn_term. case_decide; [|rewrite !Z.mod_small by lia; done].
  assert (d = 0 ∨ d = 1 ∨ d = 2 ∨ d = 3 ∨ d = 4 ∨ d = 5 ∨ d = 6 ∨ d = 7 ∨ d = 8 ∨ d = 9) as Hc by lia.
  assert (d' = 0 ∨ d' = 1 ∨ d' = 2 ∨ d' = 3 ∨ d' = 4 ∨ d' = 5 ∨ d' = 6 ∨ d' = 7 ∨ d' = 8 ∨ d' = 9) as Hc' by lia.
  repeat (destruct Hc as [->|Hc]); try subst; repeat (destruct Hc' as [->|Hc']); try subst; done.
Qed.

Lemma sum_insert (f : nat → Z → Z) ds i d0 d :
  ds !! i = Some d0 → foldr Z.add 0 (imap f (<[i := d]> ds)) = foldr Z.add 0 (imap f ds) - f i d0 + f i d.
Proof.
  revert f i. induction ds as [|x ds IH]; intros f [|i] Hi; [done..| |].
  - injection Hi as ->. cbn. lia.
  - change (<[Datatypes.S i := d]> (x :: ds)) with (x :: <[i := d]> ds). rewrite !imap_cons. cbn [foldr]. rewrite IH by done. unfold compose. lia.
Qed.

(** A mistyped digit of a SIM number is found: when the check digit is right, changing
    any one digit makes it wrong. *)
Theorem iccid_detects_wrong_digit ds i d0 d :
  ds !! i = Some d0 → 0 ≤ d0 ≤ 9 → 0 ≤ d ≤ 9 → d ≠ d0 → luhn_sum ds mod 10 = 0 → luhn_sum (<[i := d]> ds) mod 10 ≠ 0.
Proof.
  intros Hi H0 Hd Hne Hok Hbad. unfold luhn_sum in *.
  assert (i < length ds)%nat as Hlt by (by eapply lookup_lt_Some).
  set (k := (length ds - S i)%nat) in *.
  assert (reverse (<[i := d]> ds) = <[k := d]> (reverse ds)) as Hrev.
  { apply list_eq. intros j. destruct (decide (j < length ds)%nat) as [Hj|Hj].
    - rewrite reverse_lookup by (by rewrite length_insert). rewrite length_insert. destruct (decide (j = k)) as [->|Hjk].
      + rewrite list_lookup_insert_eq by (rewrite length_reverse; lia). replace (length ds - S k)%nat with i by lia.
        by rewrite list_lookup_insert_eq.
      + rewrite !list_lookup_insert_ne by lia. by rewrite reverse_lookup.
    - rewrite !lookup_ge_None_2; [done|..]; rewrite ?length_insert, ?length_reverse, ?length_insert; lia. }
  rewrite Hrev, (sum_insert _ _ k d0) in Hbad.
  2: { rewrite reverse_lookup by lia. by replace (length ds - S k)%nat with i by lia. }
  apply Hne, (luhn_term_injective k); [done|done|].
  set (S := foldr Z.add 0 (imap luhn_term (reverse ds))) in *. Z.to_euclidean_division_equations; lia.
Qed.

(** ** A concrete bench

    A bench with a script: each call that can fail takes the next entry, [true] is a
    failure; a write to the log that fails leaves the beginning of the line behind.  The boot log
    comes in one piece. *)
Module DemoBench.
Record B : Type := mkB { script : list bool; region : Z * list Z; file : string; boot : string }.
Definition scripted (f g : B → B) : M B string unit := λ b,
  match script b with
  | true :: rest => (Err "i/o error", g (mkB rest (region b) (file b) (boot b)))
  | _ :: rest => (Ok tt, f (mkB rest (region b) (file b) (boot b)))
  | [] => (Ok tt, f b)
  end.
Definition add_text (t : string) (b : B) : B := mkB (script b) (region b) (file b +:+ t) (boot b).
Definition set_region (r : Z * list Z) (b : B) : B := mkB (script b) r (file b) (boot b).
Definition cut_short (s : string) : string := String.substring 0 24 s.

#[export] Instance demo_bench : Bench B := {|
  issue uid := scripted id id;; mret (mkCert ("cert of " +:+ uid) "0A" "ff", "key");
  attach := scripted id id;
  flash_elf _ := scripted id id;
  erase _ _ := scripted (set_region (0, [])) id;
  program a data := scripted (set_region (a, data)) id;
  reset := scripted id id;
  rtt_turns _ b := ([mkTurn None true (ReadText (boot b))], mkB (script b) (region b) (file b) "");
  log_text b := Some (file b);
  log_time _ := "2024-01-01T00:00:00Z";
  log_write line := scripted (add_text line) (add_text (cut_short line));
  start_session := fail "no artifacts"
|}.

Definition demo_flash (b : B) (a n : Z) : list Z := if a =? (region b).1 then take (Z.to_nat n) (region b).2 else [].

(** A call keeps what both of its ends keep. *)
Lemma scripted_keeps {T} (p : B → T) f g b :
  (∀ b, p (f b) = p b) → (∀ b, p (g b) = p b) → (∀ s b, p (mkB s (region b) (file b) (boot b)) = p b) →
  (scripted f g b).1 ≠ Panic ∧ p (scripted f g b).2 = p b.
Proof. intros Hf Hg Hs. unfold scripted. destruct (script b) as [|[] rest]; cbn; by rewrite ?Hf, ?Hg, ?Hs. Qed.

#[export] Instance demo_bench_laws : BenchLaws B.
Proof.
  apply Build_BenchLaws with (flash_bytes := demo_flash).
  - intros uid b. cbn. unfold mbind, M_bind. destruct (scripted_keeps file id id b) as [H1 H2]; [done..|].
    destruct (scripted id id b) as [[[]|e|] b']; cbn in *; by rewrite ?H2.
  - intros b. destruct (scripted_keeps file id id b) as [H1 H2]; [done..|]. split; [done|]. cbn. by rewrite H2.
  - intros i b. destruct (scripted_keeps file id id b) as [H1 H2]; [done..|]. split; [done|]. cbn. by rewrite H2.
  - intros lo hi b. destruct (scripted_keeps file (set_region (0, [])) id b) as [H1 H2]; [done..|]. split; [done|]. cbn. by rewrite H2.
  - intros a data b. destruct (scripted_keeps file (set_region (a, data)) id b) as [H1 H2]; [done..|]. split; [done|]. split; [cbn; by rewrite H2|].
    cbn. unfold scripted. destruct (script b) as [|[] rest]; [|done|]; intros _; unfold demo_flash; cbn;
      rewrite Z.eqb_refl; apply take_ge; unfold len; lia.
  - intros b. destruct (scripted_keeps file id id b) as [H1 H2]; [done..|].
    destruct (scripted_keeps demo_flash id id b) as [_ H3]; [done..|]. split; [done|]. split; [|done]. cbn. by rewrite H2.
  - done.
  - intros line b text [= <-].
    destruct (scripted_keeps demo_flash (add_text line) (add_text (cut_short line)) b) as [H1 H2]; [done..|]. split; [done|]. split; [done|].
    cbn. unfold scripted. destruct (script b) as [|[] rest]; cbn; [exists line|exists (cut_short line)|exists line]; done.
Qed.

Definition demo_session : Session :=
  mkSession Byte.x07 4096 8192 "Bootloader" 10 "mqtt connected" 30 (mkChecks true true).
Definition demo_start : string := HEADER +:+ String newline "".
Definition demo_boot : string := "Bootloader v2" +:+ String newline ("UID ABC123" +:+ String newline ("MQTT connected" +:+ String newline "")).
Definition demo_worker (failing : list bool) (cmds : list Command) : Worker B :=
  mkWorker (mkB failing (0, []) demo_start demo_boot) cmds [] (Some demo_session).
Definition demo_provision (failing : list bool) (cmds : list Command) : list Event * Z * bool :=
  let w := (provision "ABC123" "89310410106543789305" false (mkChecks true true) (demo_worker failing cmds)).2 in
  (sent w, len (region (bench w)).2, contains_uid (log_text (bench w)) "ABC123").
Definition last_report (failing : list bool) (cmds : list Command) : option (option Outcome * Z * bool) :=
  let '(evs, n, known) := demo_provision failing cmds in
  (λ ev, (match ev with DeviceFinished _ o _ _ _ => Some o | _ => None end, n, known)) <$> list.last evs.

(** The first command of the program step fails and is retried. *)
Example demo_reports_ok : last_report [false; false; false; false; false; true] [Retry] = Some (Some OutcomeOk, CONFIG_BINARY_SIZE, true).
Proof. vm_compute. reflexivity. Qed.

(** Skipped when the row cannot be written: reported as not provisioned, with the config
    in place. *)
Example skipped_but_provisioned :
  last_report [false; false; false; false; false; false; true] [Skip] = Some (Some Fail, CONFIG_BINARY_SIZE, false).
Proof. vm_compute. reflexivity. Qed.

(** A write to the log that fails half-way and is retried joins two rows: a device that is
    reported as OK is not found in the log. *)
Example joined_rows_hide_device :
  last_report [false; false; false; false; false; false; true] [Retry] = Some (Some OutcomeOk, CONFIG_BINARY_SIZE, false).
Proof. vm_compute. reflexivity. Qed.

Lemma provisioned_device_is_logged_witness :
  let w := demo_worker [false; false; false; false; false; true] [Retry] in
  ∃ w' evs outcome rtt error,
    provision "ABC123" "89310410106543789305" false (mkChecks true true) w = (Ok tt, w') ∧
    sent w' = sent w ++ evs ++ [DeviceFinished "ABC123" outcome false rtt error] ∧ Forall (λ ev, is_finished ev = false) evs ∧
    match outcome with
    | Fail => error = Some "skipped by operator"
    | _ =>
        verified demo_session "ABC123" (mkChecks true true) outcome rtt error ∧
        stored demo_session "ABC123" "89310410106543789305" demo_start evs (bench w')
    end.
Proof. cbv zeta. apply provisioned_device_is_logged; [reflexivity|vm_compute; discriminate|reflexivity]. Defined.
End DemoBench.

Lemma logged_uid_is_found_witness :
  let row := mkRow "ABC123" "8931" "0A" "ff" in
  let log := (HEADER +:+ String newline "2024,XYZ,1,2,3") +:+ String newline "" in
  contains_uid (Some (log +:+ row_line "2025" row)) "ABC123" = true ∧
  ∀ uid, contains_uid (Some log) uid = true → contains_uid (Some (log +:+ row_line "2025" row)) uid = true.
Proof. cbv zeta. apply logged_uid_is_found; reflexivity. Defined.

(** A device that was OK and fails its check later is not counted as unverified. *)
Example later_failure_not_counted :
  let c := record "A" Unverified true (record "A" OutcomeOk false (mkCounts 0 ∅ ∅)) in
  count_ok c = 1 ∧ unverified c = ∅ ∧ failed c = ∅.
Proof. vm_compute. done. Qed.

Lemma iccid_detects_wrong_digit_witness :
  let ds := [8;9;3;1;0;4;1;0;1;0;6;5;4;3;7;8;9;3;0;5] in
  luhn_sum ds mod 10 = 0 ∧ luhn_sum (<[3%nat := 7]> ds) mod 10 ≠ 0.
Proof. split; [reflexivity|]. apply (iccid_detects_wrong_digit _ 3 1); [reflexivity|lia..|reflexivity]. Defined.
