(* ===== verification/ServerMqtt.v ===== *)
(** * The MQTT client of the server

    [server/sensor-link-mqtt/src]: the codec of topics and payloads, the handler of
    incoming messages, the event loop and the task that publishes ([client.rs],
    [lib.rs]), with the supervisor that restarts such tasks
    ([server/task-supervisor/src/lib.rs]); and that what the server says reaches the
    protocol client of the device, and the other way round.  Third-party code is a
    parameter: JSON (classes [FromSlice] and [ToText]), the [rumqttc] client (class
    [AsyncClient]), the database (class [ServerDb]), the codec of a manufacturer (class
    [TopicCodec]).  [Utc::now] is an argument; sending on a [tokio] channel fails when
    its receiver is gone.  Metrics and logging are left out. *)

From Stdlib Require Import Ascii.
From stdpp Require Import base countable list list_numbers numbers option strings.
From S2P Require Import Prelude MetaConfig Topics Client StatusHandler.
#[local] Open Scope Z_scope.

(** ** Text *)

Fixpoint string_of (l : list Z) : string :=
  match l with [] => EmptyString | b :: l => String (ascii_of_nat (Z.to_nat b)) (string_of l) end.

(** [String::from_utf8_lossy]: each maximal part of a character that is not one is
    replaced by U+FFFD. *)
Definition REPLACEMENT : list Z := [0xEF; 0xBF; 0xBD].
Definition pair3 (b0 b1 : Z) : bool :=
  if b0 =? 0xE0 then between 0xA0 b1 0xBF
  else if between 0xE1 b0 0xEC || between 0xEE b0 0xEF then cont b1
  else (b0 =? 0xED) && between 0x80 b1 0x9F.
Definition pair4 (b0 b1 : Z) : bool :=
  if b0 =? 0xF0 then between 0x90 b1 0xBF
  else if between 0xF1 b0 0xF3 then cont b1
  else (b0 =? 0xF4) && between 0x80 b1 0x8F.
Fixpoint utf8_lossy (l : list Z) : list Z :=
  match l with
  | [] => []
  | b0 :: l0 =>
      if b0 <? 0x80 then b0 :: utf8_lossy l0
      else match l0 with
      | [] => REPLACEMENT
      | b1 :: l1 =>
          if between 0xC2 b0 0xDF then
            if cont b1 then b0 :: b1 :: utf8_lossy l1 else REPLACEMENT ++ utf8_lossy l0
          else if pair3 b0 b1 then
            match l1 with
            | [] => REPLACEMENT
            | b2 :: l2 => if cont b2 then b0 :: b1 :: b2 :: utf8_lossy l2 else REPLACEMENT ++ utf8_lossy l1
            end
          else if pair4 b0 b1 then
            match l1 with
            | [] => REPLACEMENT
            | b2 :: l2 =>
                if cont b2 then
                  match l2 with
                  | [] => REPLACEMENT
                  | b3 :: l3 => if cont b3 then b0 :: b1 :: b2 :: b3 :: utf8_lossy l3 else REPLACEMENT ++ utf8_lossy l2
                  end
                else REPLACEMENT ++ utf8_lossy l1
            end
          else REPLACEMENT ++ utf8_lossy l0
      end
  end.
Definition from_utf8_lossy (payload : list Z) : string := string_of (utf8_lossy payload).

(** ** Messages ([lib.rs]) *)

Record EventPayload (EV : Type) : Type := mkEventPayload { ev_event : EV; ev_ts : Z }.
Arguments mkEventPayload {EV}.
Arguments ev_event {EV}.
Arguments ev_ts {EV}.
Inductive SMSResult : Type := Success | SmsFail.
#[export] Instance SMSResult_eq_dec : EqDecision SMSResult.
Proof. solve_decision. Defined.
Record SmsRequest : Type := mkSmsRequest { req_id : string; req_phone_numbers : list string; req_message : string }.
Record SmsResponse : Type := mkSmsResponse { resp_id : string; resp_result : SMSResult; failed_phone_numbers : list string }.

Inductive DeviceControlIn (D S EV : Type) : Type :=
| DeviceOnline (o : Client.Online)
| DeviceInfoIn (i : Client.DeviceInfo D)
| DeviceStatus (s : S)
| EventIn (e : EventPayload EV)
| FirmwareUpdateStatus (s : Client.FWStatus).
Arguments DeviceOnline {D S EV}.
Arguments DeviceInfoIn {D S EV}.
Arguments DeviceStatus {D S EV}.
Arguments EventIn {D S EV}.
Arguments FirmwareUpdateStatus {D S EV}.
Record ControlMessageIn (D S EV : Type) : Type := mkControlIn { in_device_id : string; in_payload : DeviceControlIn D S EV }.
Arguments mkControlIn {D S EV}.
Arguments in_device_id {D S EV}.
Arguments in_payload {D S EV}.
Record ProcessingMessage (DT P : Type) : Type := mkProcessing { datatype : DT; pm_device_id : string; pm_data : P }.
Arguments mkProcessing {DT P}.
Inductive SystemMessageIn : Type := SMSResponseIn (r : SmsResponse).
Inductive ParsedMqttIn (DT D S EV P : Type) : Type :=
| ParsedData (m : ProcessingMessage DT P)
| ParsedControl (m : ControlMessageIn D S EV)
| ParsedSystem (m : SystemMessageIn).
Arguments ParsedData {DT D S EV P}.
Arguments ParsedControl {DT D S EV P}.
Arguments ParsedSystem {DT D S EV P}.

Inductive DeviceControlOut : Type :=
| DeviceCommand (c : CommandPayload)
| FWUpdateAnnounce (a : FWAnnounce)
| Time
| SMSRequest (r : SmsRequest).
Record ControlMessageOut (CO : Type) : Type := mkOut { out_device_id : string; out_payload : CO }.
Arguments mkOut {CO}.
Arguments out_device_id {CO}.
Arguments out_payload {CO}.

#[export] Instance from_device_control_out : From StatusHandler.DeviceControlOut DeviceControlOut := λ value,
  match value with
  | StatusHandler.DeviceCommand cmd => DeviceCommand cmd
  | StatusHandler.FWUpdateAnnounce announce => FWUpdateAnnounce announce
  | StatusHandler.Time => Time
  end.
#[export] Instance from_control_message_out : From StatusHandler.ControlMessageOut (ControlMessageOut DeviceControlOut) := λ value,
  mkOut (StatusHandler.device_id value) (from (StatusHandler.payload value)).

(** ** The codec *)

(** [serde_json::from_slice] and [to_string], with the text of the error. *)
Class FromSlice (T : Type) : Type := from_slice : list Z → T + string.
Class ToText (T : Type) : Type := to_text : T → string + string.

(** [TopicCodec]; [PErr] is the error of a payload. *)
Class TopicCodec (DT D S EV P T CO PErr : Type) : Type := {
  codec_parse_topic : string → outcome TopicParseError (TopicParts T);
  topic_debug : T → string;
  parse_payload : list Z → TopicParts T → ParsedMqttIn DT D S EV P + PErr;
  encode_control_out : Z → string → CO → outcome string (string * string);
  event_log_type : EV → option string
}.

(** [DeviceInfoV2] and its conversion. *)
Record DeviceInfoV2 (D : Type) : Type := mkDeviceInfoV2 {
  v2_device_type : D; v2_fw_version : string; v2_fw_rev : string; v2_bootloader_version : string;
  v2_modem_model : string; v2_modem_fw_version : string
}.
Arguments mkDeviceInfoV2 {D}.
Arguments v2_device_type {D}.
Arguments v2_fw_version {D}.
Arguments v2_fw_rev {D}.
Arguments v2_bootloader_version {D}.
Arguments v2_modem_model {D}.
Arguments v2_modem_fw_version {D}.
#[export] Instance from_device_info_v2 D : From (DeviceInfoV2 D) (Client.DeviceInfo D) := λ value,
  mkDeviceInfo (v2_device_type value) (v2_fw_version value) (v2_fw_rev value) (v2_bootloader_version value) ""
    (v2_modem_model value) (v2_modem_fw_version value) None.

(** The derived [Debug] of the topics and of the error of building one. *)
Definition from_device_debug (t : TopicFromDevice) : string :=
  match t with
  | Topics.Online => "Online"
  | Topics.Event => "Event"
  | Topics.FWStatus => "FWStatus"
  | Topics.DeviceInfoV2 => "DeviceInfoV2"
  | Topics.DeviceInfoV3 => "DeviceInfoV3"
  | Topics.Status => "Status"
  | Topics.BenchmarkEvent => "BenchmarkEvent"
  | Topics.BenchmarkData => "BenchmarkData"
  | Topics.ChargerStatus => "ChargerStatus"
  end.
Definition serialize_error_debug (e : TopicSerializeError) : string :=
  match e with
  | PrefixLength => "PrefixLength"
  | UIDLength => "UIDLength"
  | SuffixLength => "SuffixLength"
  | TotalLength => "TotalLength"
  | Topics.Other => "Other"
  end.

Inductive PayloadError : Type :=
| ParseOnline (e : string)
| ParseInfoV2 (e : string)
| ParseInfoV3 (e : string)
| ParseStatus (e : string)
| ParseEvent (e : string)
| ParseFWStatus (e : string)
| UnsupportedTopic (t : TopicFromDevice).

Definition map_sum {A B E E' : Type} (f : A → B) (g : E → E') (r : A + E) : B + E' :=
  match r with inl a => inl (f a) | inr e => inr (g e) end.

Section jitter.
Context {DT D S EV P : Type}.
Context `{!FromSlice Client.Online, !FromSlice (DeviceInfoV2 D), !FromSlice (Client.DeviceInfo D), !FromSlice S}.
Context `{!FromSlice (EventPayload EV), !FromSlice Client.FWStatus}.
Context `{!ToText CommandPayload, !ToText FWAnnounce, !ToText TimePayload, !ToText SmsRequest}.

Definition jitter_parse_payload (payload : list Z) (parts : TopicParts TopicFromDevice) :
    ParsedMqttIn DT D S EV P + PayloadError :=
  let control p := ParsedControl (mkControlIn (Topics.device_id parts) p) in
  match Topics.topic parts with
  | Topics.Online => map_sum (λ o, control (DeviceOnline o)) ParseOnline (from_slice payload)
  | Topics.DeviceInfoV2 => map_sum (λ i : DeviceInfoV2 D, control (DeviceInfoIn (from i))) ParseInfoV2 (from_slice payload)
  | Topics.DeviceInfoV3 => map_sum (λ i, control (DeviceInfoIn i)) ParseInfoV3 (from_slice payload)
  | Topics.Status => map_sum (λ s, control (DeviceStatus s)) ParseStatus (from_slice payload)
  | Topics.Event => map_sum (λ e, control (EventIn e)) ParseEvent (from_slice payload)
  | Topics.FWStatus => map_sum (λ s, control (FirmwareUpdateStatus s)) ParseFWStatus (from_slice payload)
  | other => inr (UnsupportedTopic other)
  end.

(** A payload with the topic it goes to; the payload is made first. *)
Definition encoded (what : string) (payload : string + string) (t : TopicToDevice) (device_id : string) : outcome string (string * string) :=
  match payload with
  | inr err => Err ("Serialize " +:+ what +:+ ": " +:+ err)
  | inl payload =>
      match to_to_topic_string t device_id with
      | Ok topic => Ok (topic, payload)
      | Err err => Err ("Encode topic: " +:+ serialize_error_debug err)
      | Panic => Panic
      end
  end.
Definition jitter_encode_control_out (now_us : Z) (device_id : string) (out : DeviceControlOut) : outcome string (string * string) :=
  match out with
  | DeviceCommand data => encoded "DeviceCommand" (to_text data) Topics.Command device_id
  | FWUpdateAnnounce data => encoded "FWUpdateAnnounce" (to_text data) Topics.FWUpdateAnnounce device_id
  | Time => encoded "Time" (to_text (mkTimePayload now_us)) Topics.Time device_id
  | SMSRequest data =>
      match to_text data with
      | inl payload => Ok (as_str Topics.SMSRequest, payload)
      | inr _ => Err "Serialize SMSRequest"
      end
  end.
Definition jitter_codec : TopicCodec DT D S EV P TopicFromDevice DeviceControlOut PayloadError := {|
  codec_parse_topic := parse_topic_from_device;
  topic_debug := from_device_debug;
  parse_payload := jitter_parse_payload;
  encode_control_out := jitter_encode_control_out;
  event_log_type _ := None
|}.
End jitter.

(** ** The database and the channels *)

Inductive SendStatus : Type := NotSent | Sending | Sent | SendFailed.
Record SensorServerLog : Type := mkLog {
  log_id : option string; sensor_id : string; log_group_id : option string; user_id : string; log_timestamp : Z; duration : Z;
  log_type : string; header : string; body : list string
}.
(** The row that [insert_sensor_server_log] makes. *)
Definition new_log (now : Z) (sensor type msg payload_for_log : string) : SensorServerLog :=
  mkLog None sensor None "auto" now 0 type msg ["Payload: " +:+ payload_for_log].

(** The calls of [EventStore] and [DeviceStore] that the client makes. *)
Class ServerDb (DB DbErr : Type) : Type := {
  event_mark_sent : string → SendStatus → M DB DbErr unit;
  insert_log : SensorServerLog → M DB DbErr unit
}.

(** [let _ = ...], and the errors that are only logged. *)
Definition ignore {S E E' A} (m : M S E A) : M S E' unit := attempt m;; mret tt.

Definition insert_sensor_server_log {DB DbErr E} `{!ServerDb DB DbErr} (now : Z) (sensor_id type msg payload_for_log : string) : M DB E unit :=
  ignore (insert_log (new_log now sensor_id type msg payload_for_log)).

(** [mpsc::Sender]: the messages sent, and whether the receiver is gone. *)
Record Tx (A : Type) : Type := mkTx { tx_closed : bool; tx_sent : list A }.
Arguments mkTx {A}.
Arguments tx_closed {A}.
Arguments tx_sent {A}.
Definition tx_send {A} (a : A) : M (Tx A) unit unit := λ tx,
  if tx_closed tx then (Err tt, tx) else (Ok tt, mkTx false (tx_sent tx ++ [a])).

(** ** Incoming messages *)

Record Publish : Type := mkPublish { pub_topic : string; pub_payload : list Z }.

Inductive InError (PErr : Type) : Type :=
| FailedSmsResponse
| UnexpectedSystemTopic
| ParseTopic (e : TopicParseError)
| ParsePayload (e : PErr).
Arguments FailedSmsResponse {PErr}.
Arguments UnexpectedSystemTopic {PErr}.
Arguments ParseTopic {PErr}.
Arguments ParsePayload {PErr}.
Record InHandlerError (PErr : Type) : Type := mkInError { err_error : InError PErr; err_device_id : string; err_topic : string; err_payload_len : Z }.
Arguments mkInError {PErr}.

Section server.
Context {DT D S EV P T CO PErr DB DbErr C CErr : Type}.
Context {codec : TopicCodec DT D S EV P T CO PErr} `{!ServerDb DB DbErr, !FromSlice SmsResponse}.

Record InHandler : Type := mkInHandler { data_tx : Tx (ProcessingMessage DT P); device_tx : Tx (ControlMessageIn D S EV); h_db : DB }.
Definition set_data_tx (v : Tx (ProcessingMessage DT P)) (h : InHandler) : InHandler := mkInHandler v (device_tx h) (h_db h).
Definition set_device_tx (v : Tx (ControlMessageIn D S EV)) (h : InHandler) : InHandler := mkInHandler (data_tx h) v (h_db h).
Definition set_h_db (v : DB) (h : InHandler) : InHandler := mkInHandler (data_tx h) (device_tx h) v.
Abbreviation MI := (M InHandler (InHandlerError PErr)).

Definition get_mqtt_message (publish : Publish) : outcome (InHandlerError PErr) (ParsedMqttIn DT D S EV P) :=
  let payload_len := len (pub_payload publish) in
  match parse_system_topic (pub_topic publish) with
  | Some Topics.SMSResponse =>
      match from_slice (pub_payload publish) with
      | inl r => Ok (ParsedSystem (SMSResponseIn r))
      | inr _ => Err (mkInError FailedSmsResponse "SMS Gateway" (pub_topic publish) payload_len)
      end
  | Some _ => Err (mkInError UnexpectedSystemTopic "" (pub_topic publish) payload_len)
  | None =>
      match codec_parse_topic (pub_topic publish) with
      | Ok parts =>
          match parse_payload (pub_payload publish) parts with
          | inl m => Ok m
          | inr err => Err (mkInError (ParsePayload err) (Topics.device_id parts) (topic_debug (Topics.topic parts)) payload_len)
          end
      | Err err => Err (mkInError (ParseTopic err) "?" (pub_topic publish) payload_len)
      | Panic => Panic
      end
  end.

(** The result of a function that has no state, with [?]. *)
Definition returned {St A E} (r : outcome E A) : M St E A := λ s, (r, s).

(** What [process_mqtt_topic] writes to the log of the sensor for a message. *)
Definition control_log (publish : Publish) (p : DeviceControlIn D S EV) : option (string * string * string) :=
  let whole type := Some (type, pub_topic publish, from_utf8_lossy (pub_payload publish)) in
  match p with
  | DeviceInfoIn _ | DeviceStatus _ => whole "info"
  | DeviceOnline online =>
      Some ("info", match since online with
                    | Some _ => "Online"
                    | None => if ungraceful_offline online then "Offline (ungraceful)" else "Offline"
                    end, "")
  | EventIn event => log_type ← event_log_type (ev_event event); whole log_type
  | FirmwareUpdateStatus _ => whole "info"
  end.

Definition process_mqtt_topic (now : Z) (publish : Publish) : MI unit :=
  parsed_msg ← returned (get_mqtt_message publish);
  match parsed_msg with
  | ParsedData msg => ignore (zoom data_tx set_data_tx (tx_send msg))
  | ParsedControl msg =>
      match control_log publish (in_payload msg) with
      | Some (type, log_msg, payload) => zoom h_db set_h_db (insert_sensor_server_log now (in_device_id msg) type log_msg payload)
      | None => mret tt
      end;;
      ignore (zoom device_tx set_device_tx (tx_send msg))
  | ParsedSystem (SMSResponseIn sms_response) =>
      if decide (resp_result sms_response = Success) then ignore (zoom h_db set_h_db (event_mark_sent (resp_id sms_response) Sent))
      else mret tt
  end.

(** ** The event loop *)

(** What [EventLoop::poll] gives; everything that is neither of the first three is
    [PollOther]. *)
Inductive PollEvent (ConnErr : Type) : Type :=
| ConnAck
| Incoming (now : Z) (publish : Publish)
| PollError (e : ConnErr)
| PollOther.
#[global] Arguments ConnAck {ConnErr}.
#[global] Arguments Incoming {ConnErr}.
#[global] Arguments PollError {ConnErr}.
#[global] Arguments PollOther {ConnErr}.
Inductive LoopEvent (ConnErr : Type) : Type := ShutdownRequest | Polled (e : PollEvent ConnErr).
#[global] Arguments ShutdownRequest {ConnErr}.
#[global] Arguments Polled {ConnErr}.

(** The loop with what its hooks were given: the values of the connection status, the
    errors, and the signals of [connect_tx]. *)
Record EventLoop (ConnErr H : Type) : Type := mkLoop {
  error_detected : bool;
  shutdown_requested : bool;
  status_sent : list bool;
  errors_reported : list ConnErr;
  connects : nat;
  incoming_handler : H
}.
#[global] Arguments mkLoop {ConnErr H}.
#[global] Arguments error_detected {ConnErr H}.
#[global] Arguments shutdown_requested {ConnErr H}.
#[global] Arguments status_sent {ConnErr H}.
#[global] Arguments errors_reported {ConnErr H}.
#[global] Arguments connects {ConnErr H}.
#[global] Arguments incoming_handler {ConnErr H}.

Section event_loop.
Context {ConnErr H HErr : Type} (process : Z → Publish → M H HErr unit).
Implicit Types l : EventLoop ConnErr H.

Definition set_error_detected (v : bool) l : EventLoop ConnErr H :=
  mkLoop v (shutdown_requested l) (status_sent l) (errors_reported l) (connects l) (incoming_handler l).
Definition request_shutdown l : EventLoop ConnErr H :=
  mkLoop (error_detected l) true (status_sent l) (errors_reported l) (connects l) (incoming_handler l).
Definition push_status (v : bool) l : EventLoop ConnErr H :=
  mkLoop (error_detected l) (shutdown_requested l) (status_sent l ++ [v]) (errors_reported l) (connects l) (incoming_handler l).
Definition on_connection_error (e : ConnErr) l : EventLoop ConnErr H :=
  mkLoop (error_detected l) (shutdown_requested l) (status_sent l) (errors_reported l ++ [e]) (connects l) (incoming_handler l).
Definition signal_connect l : EventLoop ConnErr H :=
  mkLoop (error_detected l) (shutdown_requested l) (status_sent l) (errors_reported l) (Datatypes.S (connects l)) (incoming_handler l).
Definition set_handler (h : H) l : EventLoop ConnErr H :=
  mkLoop (error_detected l) (shutdown_requested l) (status_sent l) (errors_reported l) (connects l) h.

(** One turn; [true] leaves the loop.  After the first request the shutdown branch
    never completes again. *)
Definition loop_turn (ev : LoopEvent ConnErr) : M (EventLoop ConnErr H) Empty_set bool :=
  match ev with
  | ShutdownRequest =>
      requested ← gets shutdown_requested;
      if (requested : bool) then mret false
      else modify request_shutdown;; gets error_detected
  | Polled ConnAck =>
      modify (set_error_detected false);;
      modify (push_status true);;
      modify signal_connect;;
      mret false
  | Polled (Incoming now publish) =>
      modify (set_error_detected false);;
      ignore (zoom incoming_handler set_handler (process now publish));;
      mret false
  | Polled (PollError err) =>
      requested ← gets shutdown_requested;
      if (requested : bool) then mret true
      else
        detected ← gets error_detected;
        (if (detected : bool) then mret tt else modify (on_connection_error err);; modify (push_status false));;
        modify (set_error_detected true);;
        mret false
  | Polled PollOther => modify (set_error_detected false);; mret false
  end.
(** [false] when it waits for the next event. *)
Fixpoint loop_turns (evs : list (LoopEvent ConnErr)) : M (EventLoop ConnErr H) Empty_set bool :=
  match evs with
  | [] => mret false
  | ev :: evs =>
      stop ← loop_turn ev;
      if (stop : bool) then mret true else loop_turns evs
  end.
Definition mqtt_event_loop_task (evs : list (LoopEvent ConnErr)) : M (EventLoop ConnErr H) Empty_set bool :=
  ended ← loop_turns evs;
  (if ended : bool then modify (push_status false) else mret tt);;
  mret ended.
End event_loop.

(** ** The task that publishes *)

Record LastWill : Type := mkLastWill { lw_topic : string; lw_message : string; lw_retain : bool }.

(** [AsyncClient]: its calls queue a request for the event loop, and fail when that is gone. *)
Class AsyncClient (C CErr : Type) : Type := {
  client_new : LastWill → C → C;
  subscribe : string → M C CErr unit;
  publish : string → bool → string → M C CErr unit;
  disconnect : M C CErr unit
}.

Definition MQTT_TOPICS : list string := ["f/#"; "sms/resp"].

Section task.
Context `{!AsyncClient C CErr, !ToText Client.ServerStatus}.

Record MqttTask : Type := mkTask { t_client : C; t_db : DB }.
Definition set_client (v : C) (t : MqttTask) : MqttTask := mkTask v (t_db t).
Definition set_t_db (v : DB) (t : MqttTask) : MqttTask := mkTask (t_client t) v.
Definition at_client {E A} (m : M C E A) : M MqttTask E A := zoom t_client set_client m.

Fixpoint subscribe_all (topics : list string) : M C (list CErr) (list CErr) :=
  match topics with
  | [] => mret []
  | topic :: topics =>
      r ← attempt (subscribe topic);
      errors ← subscribe_all topics;
      mret (match r with inl _ => errors | inr err => err :: errors end)
  end.
Definition mqtt_subscribe (additional_topics : list string) : M C (list CErr) unit :=
  errors ← subscribe_all (MQTT_TOPICS ++ additional_topics);
  match errors with [] => mret tt | _ => fail errors end.

(** [ServerStatus::serialize], with its [unwrap]. *)
Definition status_serialize {St E} (status : Client.ServerStatus) : M St E string :=
  match to_text status with inl s => mret s | inr _ => panic end.
Definition publish_server_status (status : Client.ServerStatus) : M C CErr unit :=
  text ← status_serialize status;
  publish (as_str Topics.ServerStatus) true text.

Definition try_publish_to_device (now : Z) (device_id topic payload : string) : M MqttTask Empty_set unit :=
  r ← attempt (at_client (publish topic false payload));
  zoom t_db set_t_db
    (insert_sensor_server_log now device_id (match r with inl _ => "info" | inr _ => "error" end) topic payload).

(** An outgoing message comes with the times of the calls of [Utc::now] in its encoding
    and in the log. *)
Inductive TaskEvent : Type :=
| TaskShutdown
| Connected
| Outgoing (now_us now : Z) (message : ControlMessageOut CO).

Definition send_out (now_us now : Z) (message : ControlMessageOut CO) : M MqttTask Empty_set unit :=
  encoded ← attempt (returned (encode_control_out now_us (out_device_id message) (out_payload message)));
  match encoded with
  | inl (topic, payload) => try_publish_to_device now (out_device_id message) topic payload
  | inr err => zoom t_db set_t_db (insert_sensor_server_log now (out_device_id message) "error" err "")
  end.

(** [true] when the loop is left, [false] when it waits. *)
Fixpoint task_loop (additional_topics : list string) (evs : list TaskEvent) : M MqttTask Empty_set bool :=
  match evs with
  | [] => mret false
  | TaskShutdown :: _ => mret true
  | Connected :: evs =>
      r ← attempt (at_client (mqtt_subscribe additional_topics));
      match r with
      | inl _ => task_loop additional_topics evs
      | inr _ => ignore (at_client disconnect);; mret true
      end
  | Outgoing now_us now message :: evs => send_out now_us now message;; task_loop additional_topics evs
  end.

Definition mqtt_task (additional_topics : list string) (evs : list TaskEvent) : M MqttTask Empty_set bool :=
  offline ← status_serialize Client.SsOffline;
  modify (λ t, set_client (client_new (mkLastWill (as_str Topics.ServerStatus) offline true) (t_client t)) t);;
  r ← attempt (at_client (mqtt_subscribe additional_topics));
  match r with
  | inr _ => ignore (at_client disconnect);; mret true
  | inl _ =>
      r ← attempt (at_client (publish_server_status Client.SsOk));
      match r with
      | inr _ => ignore (at_client disconnect);; mret true
      | inl _ =>
          ended ← task_loop additional_topics evs;
          if (ended : bool) then
            ignore (at_client (publish_server_status Client.SsOffline));;
            ignore (at_client disconnect);;
            mret true
          else mret false
      end
  end.
End task.
End server.
Arguments InHandler : clear implicits.
Arguments MqttTask : clear implicits.
Arguments TaskEvent : clear implicits.
Arguments TaskShutdown {CO}.
Arguments Connected {CO}.
Arguments Outgoing {CO}.

(** ** The supervisor *)

Module Supervisor.
Inductive Exit : Type := Finished | Panicked | Cancelled.
Inductive SupervisorEvent : Type := ShutdownSignal | TaskEnded (e : Exit).
(** The supervisor with the shutdown messages sent to the task, the tasks spawned, the
    calls of [on_panic] and the time spent in [sleep]. *)
Record Handle : Type := mkHandle {
  nr_panics : Z; shutdown_requested : bool; told : nat; spawned : nat; on_panic : list Z; slept_ms : Z; ended : bool
}.
Definition supervisor_new : Handle := mkHandle 0 false 0 1 [] 0 false.
(** One turn of [select!]; the signal is fused, so it completes once. *)
Definition supervise (ev : SupervisorEvent) (h : Handle) : Handle :=
  if ended h then h
  else
    match ev with
    | ShutdownSignal =>
        if shutdown_requested h then h
        else mkHandle (nr_panics h) true (Datatypes.S (told h)) (spawned h) (on_panic h) (slept_ms h) false
    | TaskEnded res =>
        if shutdown_requested h then mkHandle (nr_panics h) true (told h) (spawned h) (on_panic h) (slept_ms h) true
        else
          let '(panics, calls, pause) :=
            match res with
            | Finished => (nr_panics h, on_panic h, 0)
            | Panicked => (nr_panics h + 1, on_panic h ++ [nr_panics h + 1], 5000)
            | Cancelled => (nr_panics h, on_panic h, 5000)
            end in
          mkHandle panics false (told h) (Datatypes.S (spawned h)) calls (slept_ms h + pause + 10) false
    end.
Definition supervise_all (evs : list SupervisorEvent) : Handle := foldl (λ h ev, supervise ev h) supervisor_new evs.
End Supervisor.

(** * Properties *)

(** ** Text *)

Lemma utf8_lossy_valid payload : utf8_valid payload = true → utf8_lossy payload = payload.
Proof.
  remember (length payload) as n eqn:Hn. revert payload Hn.
  induction n as [n IH] using lt_wf_ind. intros l ->. destruct l as [|b0 l0]; [done|]. cbn [utf8_valid utf8_lossy].
  assert (Hrec : ∀ l', (length l' < length (b0 :: l0))%nat → utf8_valid l' = true → utf8_lossy l' = l') by (intros; by apply (IH (length l'))).
  destruct (b0 <? 0x80) eqn:H80; [intros Hv; f_equal; apply Hrec; [cbn; lia|done]|].
  destruct l0 as [|b1 l1]; [done|]. destruct (between 0xC2 b0 0xDF) eqn:H2.
  { intros [-> Hv]%andb_prop. do 2 f_equal. apply Hrec; [cbn; lia|done]. }
  destruct l1 as [|b2 l2]; [done|]. unfold pair3, pair4.
  destruct (b0 =? 0xE0) eqn:E0.
  { intros [[-> ->]%andb_prop Hv]%andb_prop. do 3 f_equal. apply Hrec; [cbn; lia|done]. }
  destruct (between 0xE1 b0 0xEC || between 0xEE b0 0xEF) eqn:E1.
  { intros [[-> ->]%andb_prop Hv]%andb_prop. do 3 f_equal. apply Hrec; [cbn; lia|done]. }
  destruct (b0 =? 0xED) eqn:E2.
  { intros [[-> ->]%andb_prop Hv]%andb_prop. cbn [andb]. do 3 f_equal. apply Hrec; [cbn; lia|done]. }
  cbn [andb]. destruct l2 as [|b3 l3]; [done|].
  destruct (b0 =? 0xF0) eqn:F0.
  { intros [[[-> ->]%andb_prop ->]%andb_prop Hv]%andb_prop. do 4 f_equal. apply Hrec; [cbn; lia|done]. }
  destruct (between 0xF1 b0 0xF3) eqn:F1.
  { intros [[[-> ->]%andb_prop ->]%andb_prop Hv]%andb_prop. do 4 f_equal. apply Hrec; [cbn; lia|done]. }
  destruct (b0 =? 0xF4) eqn:F4; [|done].
  intros [[[-> ->]%andb_prop ->]%andb_prop Hv]%andb_prop. cbn [andb]. do 4 f_equal. apply Hrec; [cbn; lia|done].
Qed.

(** A stray byte and a cut-off character. *)
Example lossy_examples : utf8_lossy [65; 0xFF; 66] = [65; 0xEF; 0xBF; 0xBD; 66] ∧ utf8_lossy [0xE2; 0x82; 66] = [0xEF; 0xBF; 0xBD; 66].
Proof. done. Qed.

Lemma ignore_run {S E E' A} (m : M S E A) s : (m s).1 ≠ Panic → ignore (E' := E') m s = (Ok tt, (m s).2).
Proof. unfold ignore, attempt, mbind, M_bind. by destruct (m s) as [[]]. Qed.

(** ** The event loop *)

Section loop_facts.
Context {ConnErr H HErr : Type} (process : Z → Publish → M H HErr unit).
Context (process_returns : ∀ now p h, (process now p h).1 ≠ Panic).
Implicit Types (l : EventLoop ConnErr H) (evs : list (LoopEvent ConnErr)).

(** Whether the last connection that came up has not failed since. *)
Definition connection_up : bool → list (LoopEvent ConnErr) → bool :=
  foldl (λ up ev, match ev with Polled ConnAck => true | Polled (PollError _) => false | _ => up end).
(** The first errors of the streaks of errors. *)
Fixpoint first_errors (failing : bool) evs : list ConnErr :=
  match evs with
  | [] => []
  | Polled (PollError e) :: evs => (if failing then [] else [e]) ++ first_errors true evs
  | Polled _ :: evs => first_errors false evs
  | ShutdownRequest :: evs => first_errors failing evs
  end.
Definition handled (h : H) evs : H :=
  foldl (λ h ev, match ev with Polled (Incoming now p) => (process now p h).2 | _ => h end) h evs.
Definition is_error (ev : LoopEvent ConnErr) : bool := match ev with Polled (PollError _) => true | _ => false end.
Definition loop_new (h : H) : EventLoop ConnErr H := mkLoop false false [] [] 0 h.

(** The status a watcher sees; it starts as [false]. *)
Definition status l : bool := default false (list.last (status_sent l)).
(** After an error was reported, the status is [false]. *)
Definition loop_ok l : Prop := error_detected l = true → status l = false.

Lemma loop_turn_run ev l :
  loop_ok l →
  ∃ stop l', loop_turn process ev l = (Ok stop, l') ∧
    if (stop : bool) then ev = ShutdownRequest ∨ (is_error ev = true ∧ shutdown_requested l = true)
    else
      loop_ok l' ∧ status l' = connection_up (status l) [ev] ∧
      errors_reported l' = errors_reported l ++ first_errors (error_detected l) [ev] ∧
      (∀ evs, first_errors (error_detected l) (ev :: evs) = first_errors (error_detected l) [ev] ++ first_errors (error_detected l') evs) ∧
      incoming_handler l' = handled (incoming_handler l) [ev] ∧
      shutdown_requested l' = (shutdown_requested l || if ev is ShutdownRequest then true else false) ∧
      (shutdown_requested l = true → is_error ev = false).
Proof.
  intros Hok. destruct ev as [|[| now p | e |]].
  - unfold loop_turn, mbind, M_bind, gets at 1. destruct (shutdown_requested l) eqn:Hs.
    + exists false, l. cbn. rewrite app_nil_r, Hs. repeat split; done.
    + exists (error_detected l), (request_shutdown l). split; [done|]. destruct (error_detected l) eqn:He; [by left|]. unfold loop_ok, status. cbn. rewrite app_nil_r, He.
      repeat split; done.
  - eexists false, _. split; [done|]. unfold loop_ok, status. cbn. rewrite last_snoc, app_nil_r, orb_false_r. repeat split; done.
  - unfold loop_turn, mbind, M_bind, modify at 1. unfold ignore, attempt, zoom, mbind, M_bind.
    pose proof (process_returns now p (incoming_handler (set_error_detected false l))) as Hp.
    unfold handled. cbn [foldl]. change (incoming_handler (set_error_detected false l)) with (incoming_handler l) in *.
    destruct (process now p (incoming_handler l)) as [[u|e|] h]; [| |done];
      (eexists false, _; split; [done|]; unfold loop_ok, status; cbn; rewrite app_nil_r, orb_false_r; repeat split; done).
  - unfold loop_turn, mbind, M_bind, gets at 1. destruct (shutdown_requested l) eqn:Hs; [exists true, l; by auto|].
    unfold gets at 1. destruct (error_detected l) eqn:He.
    + eexists false, _. split; [done|]. unfold loop_ok, status in *. cbn. rewrite app_nil_r. specialize (Hok He). repeat split; done.
    + eexists false, _. split; [done|]. unfold loop_ok, status. cbn. rewrite last_snoc. repeat split; done.
  - eexists false, _. split; [done|]. unfold loop_ok, status. cbn. rewrite app_nil_r, orb_false_r. repeat split; done.
Qed.

Lemma loop_turns_run evs l :
  loop_ok l →
  ∃ stop l', loop_turns process evs l = (Ok stop, l') ∧
    (stop = true → shutdown_requested l = true ∨ ShutdownRequest ∈ evs) ∧
    (stop = false →
       status l' = connection_up (status l) evs ∧
       errors_reported l' = errors_reported l ++ first_errors (error_detected l) evs ∧
       incoming_handler l' = handled (incoming_handler l) evs ∧
       (shutdown_requested l = true → Forall (λ ev, is_error ev = false) evs) ∧
       (∀ before after, evs = before ++ ShutdownRequest :: after → Forall (λ ev, is_error ev = false) after)).
Proof.
  revert l. induction evs as [|ev evs IH]; intros l Hok.
  { exists false, l. split; [done|]. split; [done|]. intros _. cbn. rewrite app_nil_r. repeat split; [done|].
    by intros [|??]. }
  destruct (loop_turn_run ev l Hok) as (stop & l1 & Hrun & Hl1). cbn [loop_turns]. unfold mbind, M_bind at 1. rewrite Hrun.
  destruct stop.
  { exists true, l1. split; [done|]. split; [|done]. intros _. destruct Hl1 as [->|[_ ->]]; [right; by left|by left]. }
  destruct Hl1 as (Hok1 & H1 & H2 & H3 & H4 & H5 & H6). destruct (IH l1 Hok1) as (stop & l2 & Hrun2 & Hstop & Hgo).
  exists stop, l2. split; [done|]. split.
  { intros [Hr|Hr]%Hstop; [|right; by right]. rewrite H5 in Hr. destruct ev; [right; by left|]. rewrite orb_false_r in Hr. by left. }
  intros Hs. destruct (Hgo Hs) as (G1 & G2 & G3 & G4 & G5).
  split; [by rewrite G1, H1|]. split; [by rewrite G2, H2, (H3 evs), <- app_assoc|]. split; [by rewrite G3, H4|]. split.
  { intros Hr. constructor; [by apply H6|]. apply G4. by rewrite H5, Hr. }
  intros [|ev' before] after [= Hev Hevs].
  - subst ev. rewrite <- Hevs. apply G4. by rewrite H5, orb_true_r.
  - by apply (G5 before after).
Qed.

(** A watcher of the connection sees the truth.  Whatever the event loop polls, it
    never fails, and while it runs the last status it sent says whether a connection came
    up and has not failed since; each streak of errors is reported once, with its first
    error; every message went to the handler, once and in order.  It ends only after a
    shutdown was requested, then with the first error, and says that it is not
    connected. *)
Theorem status_reflects_connection evs h :
  ∃ ended l, mqtt_event_loop_task process evs (loop_new h) = (Ok ended, l) ∧
    if (ended : bool) then status l = false ∧ ShutdownRequest ∈ evs
    else
      status l = connection_up false evs ∧ errors_reported l = first_errors false evs ∧ incoming_handler l = handled h evs ∧
      ∀ before after, evs = before ++ ShutdownRequest :: after → Forall (λ ev, is_error ev = false) after.
Proof.
  destruct (loop_turns_run evs (loop_new h)) as (stop & l & Hrun & Hstop & Hgo); [done|].
  unfold mqtt_event_loop_task, mbind, M_bind at 1. rewrite Hrun. destruct stop.
  - eexists true, _. split; [done|]. split; [|by destruct (Hstop eq_refl)]. unfold status. cbn. by rewrite last_snoc.
  - exists false, l. split; [done|]. destruct (Hgo eq_refl) as (G1 & G2 & G3 & _ & G5). done.
Qed.
End loop_facts.

(** ** From the device to the server *)

Section uplink.
Context {DT D S EV P DB DbErr : Type} `{!ServerDb DB DbErr, !FromSlice SmsResponse}.
Context `{!ToJson Client.Online, !ToJson Client.FWStatus, !ToJson (Client.DeviceInfo D), !ToJson S}.
Context `{!FromSlice Client.Online, !FromSlice (DeviceInfoV2 D), !FromSlice (Client.DeviceInfo D), !FromSlice S}.
Context `{!FromSlice (EventPayload EV), !FromSlice Client.FWStatus}.
Context `{!ToText CommandPayload, !ToText FWAnnounce, !ToText TimePayload, !ToText SmsRequest}.
Existing Instance jitter_codec.

(** The server decodes what the device encodes. *)
Definition json_agrees (T : Type) `{!ToJson T, !FromSlice T} : Prop :=
  ∀ n (t : T) bytes, to_json n t = Some bytes → from_slice bytes = inl t.
Context (online_agrees : json_agrees Client.Online) (fw_status_agrees : json_agrees Client.FWStatus).
Context (info_agrees : json_agrees (Client.DeviceInfo D)) (status_agrees : json_agrees S).
Context (log_returns : ∀ l (d : DB), (insert_log l d).1 ≠ Panic).

(** The reports of the protocol client. *)
Inductive Report : Type := ROnline (o : Client.Online) | RInfo (i : Client.DeviceInfo D) | RFwStatus (s : Client.FWStatus) | RStatus (s : S).
Definition report_topic (r : Report) : TopicFromDevice :=
  match r with ROnline _ => Topics.Online | RInfo _ => Topics.DeviceInfoV3 | RFwStatus _ => Topics.FWStatus | RStatus _ => Topics.Status end.
Definition report_payload (n : Z) (r : Report) : option (list Z) :=
  match r with
  | ROnline o => serialize_topic_payload n o
  | RInfo i => serialize_topic_payload n i
  | RFwStatus s => serialize_topic_payload n s
  | RStatus s => serialize_topic_payload n s
  end.
Definition report_in (r : Report) : DeviceControlIn D S EV :=
  match r with ROnline o => DeviceOnline o | RInfo i => DeviceInfoIn i | RFwStatus s => FirmwareUpdateStatus s | RStatus s => DeviceStatus s end.

Lemma device_topic_parses t uid topic :
  from_to_topic_string t uid = Ok topic → no_slash uid = true →
  parse_system_topic topic = None ∧ parse_topic_from_device topic = Ok (mkParts "f" uid t).
Proof.
  intros Ht Hu. destruct (device_topics_roundtrip topic "f" uid t) as [Hp Hb]. apply Hb in Ht as (-> & _).
  split; [done|]. by apply Hp.
Qed.

Lemma report_parses n r payload parts :
  report_payload n r = Some payload → Topics.topic parts = report_topic r →
  jitter_parse_payload (DT := DT) (P := P) payload parts = inl (ParsedControl (mkControlIn (Topics.device_id parts) (report_in r))).
Proof.
  unfold jitter_parse_payload. intros Hr ->.
  destruct r; cbn in *; by rewrite (online_agrees _ _ _ Hr) || rewrite (info_agrees _ _ _ Hr) || rewrite (fw_status_agrees _ _ _ Hr) || rewrite (status_agrees _ _ _ Hr).
Qed.

Lemma insert_run {E} now sid type msg payload (d : DB) :
  insert_sensor_server_log (E := E) now sid type msg payload d = (Ok tt, (insert_log (new_log now sid type msg payload) d).2).
Proof. apply ignore_run, log_returns. Qed.

(** C25: a report of a device reaches the server.  What the protocol client publishes for
    a device (online status, info, firmware update status or status), on the topic it
    builds for its UID, is handed to the device task as the report of that UID, once, and
    is logged, whatever the database answers. *)
Theorem device_report_reaches_server n r uid topic payload now (h : InHandler DT D S EV P DB) :
  from_to_topic_string (report_topic r) uid = Ok topic → report_payload n r = Some payload → no_slash uid = true →
  tx_closed (device_tx h) = false →
  ∃ l db', process_mqtt_topic now (mkPublish topic payload) h =
    (Ok tt, mkInHandler (data_tx h) (mkTx false (tx_sent (device_tx h) ++ [mkControlIn uid (report_in r)])) db') ∧
    sensor_id l = uid ∧ db' = (insert_log l (h_db h)).2.
Proof.
  intros Ht Hp Hu Hc. destruct (device_topic_parses _ _ _ Ht Hu) as [Hs Hd].
  unfold process_mqtt_topic, get_mqtt_message. cbn [pub_topic pub_payload]. rewrite Hs. cbn [codec_parse_topic jitter_codec]. rewrite Hd.
  cbn [parse_payload jitter_codec]. rewrite (report_parses n r payload) by done. cbn [Topics.device_id].
  unfold mbind at 1, M_bind at 1, returned. cbn [in_payload in_device_id].
  destruct (control_log (mkPublish topic payload) (report_in r)) as [[[type msg] body]|] eqn:Hl; [|by destruct r].
  unfold mbind, M_bind, zoom at 1. rewrite insert_run.
  exists (new_log now uid type msg body). eexists. split; [|by split].
  rewrite ignore_run; unfold zoom; cbn [device_tx set_h_db]; unfold tx_send; rewrite Hc; done.
Qed.
End uplink.

(** ** From the server to the device *)

Section downlink.
Context {D CellInfo S P DT U : Type}.
Context `{!ToJson Client.Online, !ToJson Client.FWStatus, !ToJson (Client.DeviceInfo DT), !ToJson S}.
Context `{!FromJson CommandPayload, !FromJson TimePayload, !FromJson FWAnnounce, !FromJson Client.ServerStatus}.
Context `{!ToText CommandPayload, !ToText FWAnnounce, !ToText TimePayload, !ToText SmsRequest}.

(** The device decodes what the server encodes, when the value satisfies [ok]; JSON
    without a single character does not exist. *)
Definition text_agrees {T : Type} `{!ToText T, !FromJson T} (ok : T → Prop) : Prop :=
  ∀ t : T, ok t → ∃ text, to_text t = inl text ∧ from_json (bytes_of text) = Some t ∧ 1 < len (bytes_of text).

(** Text that JSON does not escape; the decoder of the device keeps an escape as it is. *)
Fixpoint plain_text (s : string) : bool :=
  match s with
  | EmptyString => true
  | String a s => let c := Z.of_nat (nat_of_ascii a) in (32 <=? c) && negb (c =? 34) && negb (c =? 92) && plain_text s
  end.
Definition announce_ok (a : FWAnnounce) : Prop := str_len (url a) ≤ FW_UPDATE_URL_LEN ∧ plain_text (url a) = true.

Context (command_agrees : text_agrees (λ _ : CommandPayload, True)) (time_agrees : text_agrees (λ _ : TimePayload, True)).
Context (announce_agrees : text_agrees announce_ok).

Lemma encoded_reaches {T : Type} `{!ToText T, !FromJson T} (ok : T → Prop) what (t : T) topic_kind (c : Client D) uid' :
  text_agrees ok → ok t → str_len uid' ≤ MAX_UID_LEN → no_slash uid' = true →
  ∃ topic text, encoded what (to_text t) topic_kind uid' = Ok (topic, text) ∧ to_to_topic_string topic_kind uid' = Ok topic ∧
    handle_message (mkMessage topic (bytes_of text)) c = handle_common_topic topic_kind (bytes_of text) c ∧
    parse_json_payload (bytes_of text) = Some t.
Proof.
  intros Hag Hok Hlen Hu. destruct (Hag t Hok) as (text & Ht & Hj & Hl).
  destruct (to_topics_roundtrip (topic_text "t" uid' (to_topic_name topic_kind)) "t" uid' topic_kind) as [Hp Hb].
  assert (Htop : to_to_topic_string topic_kind uid' = Ok (topic_text "t" uid' (to_topic_name topic_kind))) by (apply Hb; split; [done|]; split; [by vm_compute|done]).
  eexists _, text. unfold encoded. rewrite Ht, Htop. split; [done|]. split; [done|]. split.
  - unfold handle_message. cbn [msg_topic msg_payload].
    assert (parse_system_topic (topic_text "t" uid' (to_topic_name topic_kind)) = None) as -> by done.
    rewrite (proj2 Hp) by done. done.
  - unfold parse_json_payload. by rewrite (proj2 (Z.leb_gt _ _)).
Qed.

(** C24: what the server tells a device reaches it.  A message of the status handler for a
    device is encoded on the topic that the protocol client of that device subscribes to,
    and the client makes of it the command, the time at which it was encoded, or the
    announcement with the very URL, which is then the one it downloads; for a UID that is
    too long nothing is encoded. *)
Theorem control_message_reaches_device now_us (m : StatusHandler.ControlMessageOut) (c : Client D) :
  uid c = StatusHandler.device_id m → no_slash (uid c) = true →
  match StatusHandler.payload m with StatusHandler.FWUpdateAnnounce a => announce_ok a | _ => True end →
  let out : ControlMessageOut DeviceControlOut := from m in
  (MAX_UID_LEN < str_len (uid c) → (∃ e, jitter_encode_control_out now_us (out_device_id out) (out_payload out) = Err e)) ∧
  (str_len (uid c) ≤ MAX_UID_LEN →
   ∃ kind topic text ev c',
     jitter_encode_control_out now_us (out_device_id out) (out_payload out) = Ok (topic, text) ∧
     topic_name_sub kind c = (Ok topic, c) ∧
     handle_message (mkMessage topic (bytes_of text)) c = (Ok (Some ev), c') ∧
     match StatusHandler.payload m with
     | StatusHandler.DeviceCommand p => kind = Topics.Command ∧ ev = CommandReceived (cmd p) ∧ c' = c
     | StatusHandler.FWUpdateAnnounce a =>
         kind = Topics.FWUpdateAnnounce ∧ ev = FirmwareUpdateAnnounced ∧ c' = set_url (url a) c ∧ update_url c' = Some (url a)
     | StatusHandler.Time => kind = Topics.Time ∧ ev = TimestampReceived now_us ∧ c' = c
     end).
Proof.
  intros Hid Hu Hok. cbv zeta. destruct m as [dev pl]. cbn [StatusHandler.device_id StatusHandler.payload] in *. subst dev.
  change (out_device_id (from (mkMessageOut (uid c) pl))) with (uid c).
  change (out_payload (from (mkMessageOut (uid c) pl))) with (from_device_control_out pl).
  split.
  - intros Hlong. assert (Hno : ∀ t, to_to_topic_string t (uid c) = Err UIDLength).
    { intros t. unfold to_to_topic_string, to_to_topic_string_with_prefix, build_topic_string, validate_uid, mbind, M_bind. cbn.
      by rewrite (proj2 (Z.leb_gt _ _)) by done. }
    destruct pl as [p|a|]; unfold from_device_control_out, jitter_encode_control_out, encoded; rewrite Hno; destruct (to_text _); eauto.
  - intros Hlen. destruct pl as [p|a|]; unfold from_device_control_out, jitter_encode_control_out.
    + destruct (encoded_reaches _ "DeviceCommand" p Topics.Command c (uid c) command_agrees) as (topic & text & H1 & H2 & H3 & H4); [done..|].
      exists Topics.Command, topic, text. eexists _, _. split; [done|]. split.
      { unfold topic_name_sub, mbind, M_bind, gets. cbn. by rewrite H2. }
      split; [rewrite H3; unfold handle_common_topic; rewrite H4; done|done].
    + destruct (encoded_reaches _ "FWUpdateAnnounce" a Topics.FWUpdateAnnounce c (uid c) announce_agrees) as (topic & text & H1 & H2 & H3 & H4); [done..|].
      exists Topics.FWUpdateAnnounce, topic, text. eexists _, _. split; [done|]. split.
      { unfold topic_name_sub, mbind, M_bind, gets. cbn. by rewrite H2. }
      split; [rewrite H3; unfold handle_common_topic; rewrite H4; done|done].
    + destruct (encoded_reaches _ "Time" (mkTimePayload now_us) Topics.Time c (uid c) time_agrees) as (topic & text & H1 & H2 & H3 & H4); [done..|].
      exists Topics.Time, topic, text. eexists _, _. split; [done|]. split.
      { unfold topic_name_sub, mbind, M_bind, gets. cbn. by rewrite H2. }
      split; [rewrite H3; unfold handle_common_topic; rewrite H4; done|done].
Qed.
End downlink.

(** ** The task that publishes *)

Inductive Request : Type := ReqSubscribe (topic : string) | ReqPublish (topic : string) (retain : bool) (payload : string) | ReqDisconnect.

(** What is documented of the client and the database: a call that succeeds queues its
    request or keeps its row, a call that fails does nothing. *)
Definition keeps {S E A B : Type} (view : S → list B) (m : M S E A) (item : B) : Prop :=
  ∀ s, match m s with (Ok _, s') => view s' = view s ++ [item] | (Err _, s') => view s' = view s | (Panic, _) => False end.
Class ClientLaws (C CErr : Type) `{!AsyncClient C CErr} : Type := {
  requests : C → list Request;
  client_new_law w c : requests (client_new w c) = [];
  subscribe_law topic : keeps requests (subscribe topic) (ReqSubscribe topic);
  publish_law topic retain payload : keeps requests (publish topic retain payload) (ReqPublish topic retain payload);
  disconnect_law : keeps requests disconnect ReqDisconnect
}.
Class DbLaws (DB DbErr : Type) `{!ServerDb DB DbErr} : Type := {
  logs : DB → list SensorServerLog;
  insert_log_law l : keeps logs (insert_log l) l
}.

Definition works {S E A : Type} (m : M S E A) : Prop := ∀ s, ∃ a, (m s).1 = Ok a.

Section publishing.
Context {DT D S EV P T CO PErr DB DbErr C CErr : Type}.
Context {codec : TopicCodec DT D S EV P T CO PErr} `{!ServerDb DB DbErr, !AsyncClient C CErr, !ToText Client.ServerStatus}.
Context {claws : ClientLaws C CErr} {dlaws : DbLaws DB DbErr}.
Context (encode_returns : ∀ now dev (out : CO), encode_control_out now dev out ≠ Panic).
Context (ok_text offline_text : string).
Context (ok_serializes : to_text Client.SsOk = inl ok_text) (offline_serializes : to_text Client.SsOffline = inl offline_text).
Implicit Types (t : MqttTask DB C) (evs : list (TaskEvent CO)).

(** A message that was handled, whether its publication and its log were accepted. *)
Record Handled : Type := mkHandled { at_us : Z; at_ms : Z; msg : ControlMessageOut CO; sent_ok : bool; logged_ok : bool }.
Definition outgoing (ev : TaskEvent CO) : option (Z * Z * ControlMessageOut CO) :=
  match ev with Outgoing now_us now m => Some (now_us, now, m) | _ => None end.
Definition of_handled (h : Handled) : Z * Z * ControlMessageOut CO := (at_us h, at_ms h, msg h).
Definition encoding (h : Handled) : outcome string (string * string) := encode_control_out (at_us h) (out_device_id (msg h)) (out_payload (msg h)).
Definition publication (h : Handled) : list (string * string) :=
  match encoding h with Ok tp => if sent_ok h then [tp] else [] | _ => [] end.
Definition log_of (h : Handled) : list SensorServerLog :=
  if logged_ok h then
    [match encoding h with
     | Ok (topic, payload) =>
         new_log (at_ms h) (out_device_id (msg h)) (if sent_ok h then "info" else "error") topic payload
     | Err err => new_log (at_ms h) (out_device_id (msg h)) "error" err ""
     | Panic => new_log 0 "" "" "" ""
     end]
  else [].

Definition messages_of : list Request → list (string * string) :=
  omap (λ r, match r with ReqPublish topic false payload => Some (topic, payload) | _ => None end).
Definition statuses_of : list Request → list (string * string) :=
  omap (λ r, match r with ReqPublish topic true payload => Some (topic, payload) | _ => None end).

(** The task did [hs] and announced [st]. *)
Definition did (hs : list Handled) (st : list (string * string)) t t' : Prop :=
  messages_of (requests (t_client t')) = messages_of (requests (t_client t)) ++ concat (publication <$> hs) ∧
  statuses_of (requests (t_client t')) = statuses_of (requests (t_client t)) ++ st ∧
  logs (t_db t') = logs (t_db t) ++ concat (log_of <$> hs).

Lemma did_nil t : did [] [] t t.
Proof. split; [by rewrite app_nil_r|]. split; by rewrite app_nil_r. Qed.
Lemma did_trans hs st hs' st' t t1 t2 : did hs st t t1 → did hs' st' t1 t2 → did (hs ++ hs') (st ++ st') t t2.
Proof.
  intros (H1 & H2 & H3) (G1 & G2 & G3). unfold did. rewrite !fmap_app, !concat_app.
  by rewrite G1, H1, G2, H2, G3, H3, !app_assoc.
Qed.

(** A call of the client, seen from the task. *)
Lemma at_client_did {A} (m : M C CErr A) req t :
  keeps requests m req → messages_of [req] = [] →
  wp (at_client m) (λ _ t', did [] (statuses_of [req]) t t') (λ _ t', did [] [] t t') t.
Proof.
  intros Hk Hm. apply wp_zoom. unfold wp. specialize (Hk (t_client t)). destruct (m (t_client t)) as [[a|e|] c']; [| |done].
  - split; cbn; [|split]; rewrite ?Hk, ?app_nil_r; [|by unfold statuses_of; rewrite omap_app|done].
    unfold messages_of in *. by rewrite omap_app, Hm, app_nil_r.
  - split; cbn; [|split]; by rewrite ?Hk, ?app_nil_r.
Qed.

Lemma wp_ignore {St E E' A} (m : M St E A) (Q : unit → St → Prop) (R : E' → St → Prop) s :
  wp m (λ _, Q tt) (λ _, Q tt) s → wp (ignore m) Q R s.
Proof. intros Hm. apply wp_bind, wp_attempt. eapply wp_mono; [exact Hm|..]; intros; by apply wp_ret. Qed.

Lemma send_out_did now_us now m t :
  wp (send_out now_us now m)
    (λ _ t', ∃ h, of_handled h = (now_us, now, m) ∧ did [h] [] t t' ∧
       ((∀ topic payload, works (publish topic false payload)) → sent_ok h = true) ∧ ((∀ l, works (insert_log l)) → logged_ok h = true))
    (λ _ _, False) t.
Proof.
  assert (Hinsert : ∀ (log : SensorServerLog) t0, wp (zoom t_db set_t_db (ignore (E' := Empty_set) (insert_log log)))
    (λ _ t', ∃ b : bool, t_client t' = t_client t0 ∧ logs (t_db t') = logs (t_db t0) ++ (if b then [log] else []) ∧ ((∀ l, works (insert_log l)) → b = true))
    (λ _ _, False) t0).
  { intros log t0. apply wp_zoom, wp_ignore. unfold wp. pose proof (insert_log_law log (t_db t0)) as Hl.
    destruct (insert_log log (t_db t0)) as [[a|e|] d] eqn:Hi; [by exists true| |done].
    exists false. cbn. rewrite app_nil_r. split; [done|]. split; [done|]. intros Hw. destruct (Hw log (t_db t0)) as [a Ha]. by rewrite Hi in Ha. }
  unfold send_out. apply wp_bind, wp_attempt. unfold wp at 1, returned. destruct (encode_control_out _ _ _) as [[topic payload]|err|] eqn:He; [| |by destruct (encode_returns _ _ _ He)].
  - unfold try_publish_to_device. apply wp_bind, wp_attempt.
    assert (Hafter : ∀ (b : bool) t1, messages_of (requests (t_client t1)) = messages_of (requests (t_client t)) ++ (if b then [(topic, payload)] else []) →
      statuses_of (requests (t_client t1)) = statuses_of (requests (t_client t)) → t_db t1 = t_db t →
      ((∀ topic payload, works (publish topic false payload)) → b = true) →
      wp (zoom t_db set_t_db (insert_sensor_server_log (E := Empty_set) now (out_device_id m) (if b then "info" else "error") topic payload))
        (λ _ t', ∃ h, of_handled h = (now_us, now, m) ∧ did [h] [] t t' ∧
           ((∀ topic payload, works (publish topic false payload)) → sent_ok h = true) ∧ ((∀ l, works (insert_log l)) → logged_ok h = true)) (λ _ _, False) t1).
    { intros b t1 Hm Hst Hdb Hb. eapply wp_mono; [apply Hinsert|intros _ t2 (lb & Hc & Hl & Hlb)|done].
      exists (mkHandled now_us now m b lb). split; [done|]. split; [|done]. unfold did, publication, log_of, encoding.
      cbn [fmap list_fmap concat at_us at_ms msg sent_ok logged_ok]. rewrite He, Hc, Hl, Hm, Hst, Hdb, !app_nil_r. by destruct b. }
    pose proof (publish_law topic false payload (t_client t)) as Hp. unfold wp, at_client, zoom.
    destruct (publish topic false payload (t_client t)) as [[u|e|] c'] eqn:Hrun; [| |done].
    + apply (Hafter true); [cbn; rewrite Hp; unfold messages_of; by rewrite omap_app|cbn; rewrite Hp; unfold statuses_of; by rewrite omap_app, app_nil_r|done|done].
    + apply (Hafter false); [cbn; by rewrite Hp, app_nil_r|cbn; by rewrite Hp|done|].
      intros Hw. destruct (Hw topic payload (t_client t)) as [u Hu]. by rewrite Hrun in Hu.
  - eapply wp_mono; [apply Hinsert|intros _ t2 (lb & Hc & Hl & Hlb)|done].
    exists (mkHandled now_us now m true lb). split; [done|]. split; [|done]. unfold did, publication, log_of, encoding.
    cbn [fmap list_fmap concat at_us at_ms msg sent_ok logged_ok]. rewrite He, Hc, Hl, !app_nil_r. done.
Qed.

(** Subscribing adds neither messages nor statuses. *)
Lemma subscribe_all_quiet topics (c : C) :
  wp (subscribe_all topics)
    (λ errs c', messages_of (requests c') = messages_of (requests c) ∧ statuses_of (requests c') = statuses_of (requests c) ∧
       ((∀ topic, works (subscribe topic)) → errs = []))
    (λ _ _, False) c.
Proof.
  revert c. induction topics as [|topic topics IH]; intros c; [by apply wp_ret|]. cbn [subscribe_all].
  apply wp_bind, wp_attempt. unfold wp at 1. pose proof (subscribe_law topic c) as Hs.
  destruct (subscribe topic c) as [[u|e|] c1] eqn:Hrun; [| |done];
    (apply wp_bind; eapply wp_mono; [apply IH|intros errs c2 (H1 & H2 & H3)|done]; apply wp_ret; rewrite H1, H2, Hs; split; [|split]).
  - unfold messages_of. by rewrite omap_app, app_nil_r.
  - unfold statuses_of. by rewrite omap_app, app_nil_r.
  - done.
  - done.
  - done.
  - intros Hw. destruct (Hw topic c) as [u Hu]. by rewrite Hrun in Hu.
Qed.

Lemma subscribe_did topics t :
  wp (at_client (mqtt_subscribe topics)) (λ _ t', did [] [] t t')
    (λ _ t', did [] [] t t' ∧ ¬ (∀ topic, works (subscribe (C := C) topic))) t.
Proof.
  apply wp_zoom. unfold mqtt_subscribe. apply wp_bind. eapply wp_mono; [apply subscribe_all_quiet|intros errs c (H1 & H2 & H3)|done].
  assert (did [] [] t (set_client c t)) by (split; cbn; [|split]; by rewrite ?H1, ?H2, ?app_nil_r).
  destruct errs as [|e errs]; [by apply wp_ret|]. apply wp_fail. split; [done|]. intros Hw. by specialize (H3 Hw).
Qed.

Definition is_shutdown (ev : TaskEvent CO) : bool := match ev with TaskShutdown => true | _ => false end.
Fixpoint before_shutdown evs : list (TaskEvent CO) :=
  match evs with [] => [] | ev :: evs => if is_shutdown ev then [] else ev :: before_shutdown evs end.
(** Nothing in reach fails. *)
Definition client_works : Prop := (∀ topic, works (subscribe (C := C) topic)) ∧ (∀ topic retain payload, works (publish (C := C) topic retain payload)).

(** What the loop did, and whether it was left. *)
Definition loop_did evs (ended : bool) (hs : list Handled) t t' : Prop :=
  did hs [] t t' ∧ (of_handled <$> hs) `prefix_of` omap outgoing (before_shutdown evs) ∧
  ((ended = false ∨ client_works) → of_handled <$> hs = omap outgoing (before_shutdown evs) ∧ ended = existsb is_shutdown evs) ∧
  (client_works → Forall (λ h, sent_ok h = true) hs) ∧
  ((∀ l, works (insert_log (DB := DB) l)) → Forall (λ h, logged_ok h = true) hs).

Lemma task_loop_did topics evs t :
  wp (task_loop topics evs) (λ ended t', ∃ hs, loop_did evs ended hs t t') (λ _ _, False) t.
Proof.
  revert t. induction evs as [|[| |now_us now m] evs IH]; intros t.
  - apply wp_ret. exists []. split; [apply did_nil|]. split; [apply prefix_nil|]. by repeat split.
  - apply wp_ret. exists []. split; [apply did_nil|]. split; [apply prefix_nil|]. by repeat split.
  - cbn [task_loop]. apply wp_bind, wp_attempt. eapply wp_mono; [apply subscribe_did|intros ? t1 H1|intros e t1 [H1 Hno]].
    + eapply wp_mono; [apply IH|intros ended t2 (hs & H2 & Hrest)|done]. exists hs.
      split; [exact (did_trans _ _ _ _ _ _ _ H1 H2)|]. done.
    + apply wp_bind, wp_ignore. eapply wp_mono; [apply (at_client_did disconnect ReqDisconnect); [apply disconnect_law|done]|..];
        intros ? t2 H2; apply wp_ret; exists []; (split; [exact (did_trans _ _ _ _ _ _ _ H1 H2)|]); (split; [apply prefix_nil|]);
        (split; [by intros [?|[Hw _]]|]); (split; [by constructor|by constructor]).
  - cbn [task_loop]. apply wp_bind. eapply wp_mono; [apply send_out_did|intros _ t1 (h & Hh & H1 & Hs & Hl)|done].
    eapply wp_mono; [apply IH|intros ended t2 (hs & H2 & Hpre & Hall & Hsent & Hlogged)|done]. exists (h :: hs).
    split; [exact (did_trans [h] [] hs [] _ _ _ H1 H2)|]. cbn [before_shutdown is_shutdown omap list_omap outgoing existsb orb fmap list_fmap].
    rewrite Hh. split; [by apply prefix_cons|]. split; [intros He; destruct (Hall He) as [Hh' He']; by rewrite Hh'|]. split.
    + intros Hw. constructor; [apply Hs; intros; apply Hw|by apply Hsent].
    + intros Hw. constructor; [by apply Hl|by apply Hlogged].
Qed.

Lemma publish_status_did st text t :
  to_text st = inl text →
  wp (at_client (publish_server_status st)) (λ _ t', did [] [(as_str Topics.ServerStatus, text)] t t')
    (λ _ t', did [] [] t t' ∧ ¬ client_works) t.
Proof.
  intros Ht. unfold at_client, publish_server_status, status_serialize, wp, zoom, mbind, M_bind. rewrite Ht. cbn.
  pose proof (publish_law "server/status" true text (t_client t)) as Hp.
  destruct (publish _ _ _ _) as [[u|e|] c] eqn:Hrun; [| |done].
  - split; cbn; [|split]; rewrite ?Hp, ?app_nil_r; [unfold messages_of; by rewrite omap_app, app_nil_r|unfold statuses_of; by rewrite omap_app|done].
  - split; [split; cbn; [|split]; by rewrite ?Hp, ?app_nil_r|]. intros [_ Hw].
    destruct (Hw "server/status" true text (t_client t)) as [u Hu]. by rewrite Hrun in Hu.
Qed.

(** What was done of the messages, and the number of announcements. *)
Definition accounts evs (ended : bool) (hs : list Handled) (n : nat) : Prop :=
  (of_handled <$> hs) `prefix_of` omap outgoing (before_shutdown evs) ∧
  (ended = false → of_handled <$> hs = omap outgoing (before_shutdown evs) ∧ n = 1%nat) ∧
  (client_works →
     of_handled <$> hs = omap outgoing (before_shutdown evs) ∧ ended = existsb is_shutdown evs ∧ n = (if ended then 2 else 1)%nat ∧
     Forall (λ h, sent_ok h = true) hs) ∧
  ((∀ l, works (insert_log (DB := DB) l)) → Forall (λ h, logged_ok h = true) hs).
Definition announcements : list (string * string) := [(as_str Topics.ServerStatus, ok_text); (as_str Topics.ServerStatus, offline_text)].

Lemma quit_did evs t0 t1 :
  did [] [] t0 t1 → ¬ client_works →
  wp (ignore (at_client (E := CErr) disconnect);; mret true : M (MqttTask DB C) Empty_set bool)
    (λ ended t', ∃ hs n, did hs (take n announcements) t0 t' ∧ accounts evs ended hs n) (λ _ _, False) t1.
Proof.
  intros H1 Hno. apply wp_bind, wp_ignore. eapply wp_mono; [apply (at_client_did disconnect ReqDisconnect); [apply disconnect_law|done]|..];
    intros ? t2 H2; apply wp_ret; exists [], 0%nat; (split; [exact (did_trans _ _ _ _ _ _ _ H1 H2)|]); (split; [apply prefix_nil|]);
    (split; [done|]); (split; [done|by constructor]).
Qed.

Lemma mqtt_task_did topics evs t :
  wp (mqtt_task topics evs)
    (λ ended t', ∃ hs n, did hs (take n announcements) (set_client (client_new (mkLastWill (as_str Topics.ServerStatus) offline_text true) (t_client t)) t) t' ∧
       accounts evs ended hs n) (λ _ _, False) t.
Proof.
  unfold mqtt_task. apply wp_bind. unfold status_serialize at 1. rewrite offline_serializes. apply wp_ret, wp_bind, wp_modify.
  set (t0 := set_client _ t). apply wp_bind, wp_attempt.
  eapply wp_mono; [apply subscribe_did|intros ? t1 H1|intros e t1 [H1 Hno]; apply quit_did; [done|by intros [Hw _]]].
  apply wp_bind, wp_attempt. eapply wp_mono; [by apply publish_status_did|intros ? t2 H2|intros e t2 [H2 Hno]; apply quit_did; [exact (did_trans _ _ _ _ _ _ _ H1 H2)|done]].
  apply wp_bind. eapply wp_mono; [apply task_loop_did|intros ended t3 (hs & H3 & Hpre & Hall & Hsent & Hlogged)|done].
  pose proof (did_trans _ _ _ _ _ _ _ (did_trans _ _ _ _ _ _ _ H1 H2) H3) as H03. cbn [app] in H03.
  destruct ended.
  - apply wp_bind, wp_ignore.
    eapply wp_mono; [by apply publish_status_did|intros ? t4 H4|intros e t4 [H4 Hno]];
      (apply wp_bind, wp_ignore; eapply wp_mono; [apply (at_client_did disconnect ReqDisconnect); [apply disconnect_law|done]|..]; intros ? t5 H5; apply wp_ret; exists hs).
    all: pose proof (did_trans _ _ _ _ _ _ _ (did_trans _ _ _ _ _ _ _ H03 H4) H5) as H; rewrite !app_nil_r in H.
    + exists 2%nat. split; [exact H|]. split; [done|]. split; [done|]. split; [|done]. intros Hw. destruct (Hall (or_intror Hw)). by eauto.
    + exists 2%nat. split; [exact H|]. split; [done|]. split; [done|]. split; [|done]. intros Hw. destruct (Hall (or_intror Hw)). by eauto.
    + exists 1%nat. split; [exact H|]. split; [done|]. split; [done|]. split; [done|done].
    + exists 1%nat. split; [exact H|]. split; [done|]. split; [done|]. split; [done|done].
  - apply wp_ret. exists hs, 1%nat. split; [exact H03|]. split; [done|]. split; [intros _; by destruct (Hall (or_introl eq_refl))|].
    split; [|done]. intros Hw. destruct (Hall (or_intror Hw)). by eauto.
Qed.

(** C26: messages to devices are sent in order, and the server announces itself.  Whatever
    fails, the task publishes and logs the outgoing messages in their order, each at most
    once: those that do not encode only in the log, as errors, and one that was not
    published as an error too; none is skipped while the task runs.  The first thing
    published is that the server is up, the last, when the task ends, that it is not.
    When the client and the database work, every message before the shutdown that encodes
    is published and logged. *)
Theorem outgoing_messages_in_order topics evs t :
  ∃ ended t' hs n,
    mqtt_task topics evs t = (Ok ended, t') ∧
    messages_of (requests (t_client t')) = concat (publication <$> hs) ∧
    statuses_of (requests (t_client t')) = take n announcements ∧
    logs (t_db t') = logs (t_db t) ++ concat (log_of <$> hs) ∧
    accounts evs ended hs n.
Proof.
  pose proof (mqtt_task_did topics evs t) as Hwp. unfold wp in Hwp.
  destruct (mqtt_task topics evs t) as [[ended|[]|] t']; [|done].
  destruct Hwp as (hs & n & (H1 & H2 & H3) & Hrest). exists ended, t', hs, n. split; [done|].
  cbn in H1, H2, H3. rewrite client_new_law in H1, H2. done.
Qed.
End publishing.

(** ** The supervisor *)

Section supervisor.
Import Supervisor.
Implicit Types (evs : list SupervisorEvent).

Definition is_end (ev : SupervisorEvent) : bool := match ev with TaskEnded _ => true | _ => false end.
Definition is_panic (ev : SupervisorEvent) : bool := match ev with TaskEnded Panicked => true | _ => false end.
Definition count (p : SupervisorEvent → bool) evs : nat := length (filter p evs).

Lemma count_snoc p evs ev : count p (evs ++ [ev]) = (count p evs + if p ev then 1 else 0)%nat.
Proof. unfold count. rewrite filter_app, length_app. f_equal. cbn. by destruct (p ev). Qed.

Lemma supervise_before evs :
  forallb is_end evs = true →
  let h := supervise_all evs in
  ended h = false ∧ shutdown_requested h = false ∧ told h = 0%nat ∧ spawned h = Datatypes.S (count is_end evs) ∧
  nr_panics h = Z.of_nat (count is_panic evs) ∧ on_panic h = seqZ 1 (Z.of_nat (count is_panic evs)) ∧
  10 * Z.of_nat (count is_end evs) + 5000 * Z.of_nat (count is_panic evs) ≤ slept_ms h.
Proof.
  induction evs as [|ev evs IH] using rev_ind; intros Hall; [by repeat split|].
  rewrite forallb_app in Hall. apply andb_prop in Hall as [Hall Hev]. cbn in Hev. rewrite andb_true_r in Hev. destruct (IH Hall) as (H1 & H2 & H3 & H4 & H5 & H6 & H7).
  unfold supervise_all in *. rewrite foldl_app. cbn [foldl]. set (h := foldl _ _ evs) in *. rewrite !count_snoc, Hev.
  unfold supervise. rewrite H1. destruct ev as [|e]; [done|]. rewrite H2.
  destruct e; cbn -[Z.of_nat]; repeat split; try done; try lia.
  - by rewrite Nat.add_0_r, H6.
  - rewrite H6, H5. replace (Z.of_nat (count is_panic evs + 1)) with (Z.of_nat (count is_panic evs) + 1) by lia.
    rewrite (seqZ_app 1 (Z.of_nat (count is_panic evs)) 1) by lia. f_equal. by rewrite (Z.add_comm _ 1).
  - by rewrite Nat.add_0_r, H6.
Qed.

Lemma supervise_ended evs h : ended h = true → foldl (λ h ev, supervise ev h) h evs = h.
Proof. intros Hh. induction evs as [|ev evs IH]; [done|]. cbn [foldl]. unfold supervise at 2. by rewrite Hh. Qed.

Lemma supervise_after evs h :
  shutdown_requested h = true → ended h = false →
  let h' := foldl (λ h ev, supervise ev h) h evs in
  told h' = told h ∧ spawned h' = spawned h ∧ on_panic h' = on_panic h ∧ ended h' = existsb is_end evs.
Proof.
  intros Hs He. destruct h as [np sr tl sp op sl en]; cbn in Hs, He; subst.
  induction evs as [|[|e] evs IH]; [done|exact IH|]. cbn [foldl]. by rewrite supervise_ended.
Qed.

(** A supervised task runs until it is told to stop.  Before a shutdown is requested,
    the task is started again whenever it ends, after a pause of at least 10 ms, or 5 s
    after a panic, and each panic is reported with its number.  The shutdown is passed on
    once, from then on nothing is started or reported, and the supervisor ends exactly
    when the task does. *)
Theorem supervised_until_shutdown before after :
  forallb is_end before = true →
  let running := supervise_all before in
  ended running = false ∧ spawned running = Datatypes.S (count is_end before) ∧
  on_panic running = seqZ 1 (Z.of_nat (count is_panic before)) ∧
  10 * Z.of_nat (count is_end before) + 5000 * Z.of_nat (count is_panic before) ≤ slept_ms running ∧
  let stopping := supervise_all (before ++ ShutdownSignal :: after) in
  told running = 0%nat ∧ told stopping = 1%nat ∧ spawned stopping = spawned running ∧ on_panic stopping = on_panic running ∧
  ended stopping = existsb is_end after.
Proof.
  intros Hall. cbv zeta. destruct (supervise_before before Hall) as (H1 & H2 & H3 & H4 & H5 & H6 & H7).
  split; [done|]. split; [done|]. split; [done|]. split; [done|]. split; [done|].
  unfold supervise_all in *. rewrite foldl_app. cbn [foldl]. set (h := foldl _ _ before) in *.
  assert (supervise ShutdownSignal h = Supervisor.mkHandle (nr_panics h) true 1 (spawned h) (on_panic h) (slept_ms h) false) as ->
    by (unfold supervise; by rewrite H1, H2, H3).
  by apply (supervise_after after (Supervisor.mkHandle (nr_panics h) true 1 (spawned h) (on_panic h) (slept_ms h) false)).
Qed.

Lemma supervised_until_shutdown_witness :
  let before := [TaskEnded Panicked; TaskEnded Finished; TaskEnded Panicked] in
  let running := supervise_all before in
  ended running = false ∧ spawned running = Datatypes.S (count is_end before) ∧
  on_panic running = seqZ 1 (Z.of_nat (count is_panic before)) ∧
  10 * Z.of_nat (count is_end before) + 5000 * Z.of_nat (count is_panic before) ≤ slept_ms running ∧
  let stopping := supervise_all (before ++ ShutdownSignal :: [ShutdownSignal; TaskEnded Panicked]) in
  told running = 0%nat ∧ told stopping = 1%nat ∧ spawned stopping = spawned running ∧ on_panic stopping = on_panic running ∧
  ended stopping = existsb is_end [ShutdownSignal; TaskEnded Panicked].
Proof. apply supervised_until_shutdown. reflexivity. Defined.
End supervisor.

(** ** Concrete parameters

    An encoding of every countable type in place of JSON, a client and a database with a
    script of failing calls. *)
Module DemoServer.

Fixpoint bits (p : positive) : string :=
  match p with xH => EmptyString | xO p => String "0"%char (bits p) | xI p => String "1"%char (bits p) end.
Definition unbits (l : list Z) : positive := foldr (λ b p, if b =? 48 then xO p else xI p) xH l.
Lemma unbits_bits p : unbits (bytes_of (bits p)) = p.
Proof. unfold unbits. induction p as [p IH|p IH|]; [cbn; by rewrite IH..|done]. Qed.
(** The text of a value, in brackets. *)
Definition text_of {T} `{Countable T} (t : T) : string := String "["%char (String "]"%char (bits (encode t))).
Definition value_of {T} `{Countable T} (l : list Z) : option T := decode (unbits (drop 2 l)).
Lemma value_of_text {T} `{Countable T} (t : T) : value_of (bytes_of (text_of t)) = Some t.
Proof. change (decode (unbits (bytes_of (bits (encode t)))) = Some t). by rewrite unbits_bits, decode_encode. Qed.
Lemma len_text {T} `{Countable T} (t : T) : 1 < len (bytes_of (text_of t)).
Proof. unfold text_of, len. cbn [bytes_of length]. lia. Qed.

Ltac countable f g := apply (inj_countable' f g); by intros [].
#[export] Instance online_eq_dec : EqDecision Client.Online.
Proof. solve_decision. Defined.
#[export] Instance online_countable : Countable Client.Online.
Proof. countable (λ o, (since o, canary o)) (λ p : option Z * option Z, Client.mkOnline p.1 p.2). Defined.
#[export] Instance fw_status_eq_dec : EqDecision Client.FWStatus.
Proof. solve_decision. Defined.
#[export] Instance fw_status_countable : Countable Client.FWStatus.
Proof.
  countable (λ s, match s with FwStart => 0 | FwFailed => 1 | FwReceived => 2 | FwComplete => 3 end)
    (λ n : Z, if n =? 0 then FwStart else if n =? 1 then FwFailed else if n =? 2 then FwReceived else FwComplete).
Defined.
#[export] Instance info_eq_dec : EqDecision (Client.DeviceInfo ()).
Proof. solve_decision. Defined.
#[export] Instance info_countable : Countable (Client.DeviceInfo ()).
Proof.
  apply (inj_countable' (λ i : Client.DeviceInfo (), [fw_version _ i; fw_rev _ i; Client.bootloader_version _ i; hw_rev _ i; modem_model _ i; modem_fw_version _ i] ++ option_list (sim_iccid _ i))
    (λ l, mkDeviceInfo tt (nth 0 l "") (nth 1 l "") (nth 2 l "") (nth 3 l "") (nth 4 l "") (nth 5 l "") (l !! 6%nat))). intros [[] ? ? ? ? ? ? []]; done.
Defined.
#[export] Instance server_status_eq_dec : EqDecision Client.ServerStatus.
Proof. solve_decision. Defined.
#[export] Instance server_status_countable : Countable Client.ServerStatus.
Proof.
  countable (λ s, match s with SsOk => 0 | SsOffline => 1 | SsMaintenance => 2 end)
    (λ n : Z, if n =? 0 then SsOk else if n =? 1 then SsOffline else SsMaintenance).
Defined.
#[export] Instance cmd_eq_dec : EqDecision Cmd.
Proof. solve_decision. Defined.
#[export] Instance cmd_countable : Countable Cmd.
Proof.
  countable (λ c, match c with CmdStart => 0 | CmdStop => 1 | Client.Blink => 2 | Client.Reboot => 3 end)
    (λ n : Z, if n =? 0 then CmdStart else if n =? 1 then CmdStop else if n =? 2 then Client.Blink else Client.Reboot).
Defined.
#[export] Instance command_payload_eq_dec : EqDecision CommandPayload.
Proof. solve_decision. Defined.
#[export] Instance command_payload_countable : Countable CommandPayload.
Proof. countable cmd mkCommandPayload. Defined.
#[export] Instance time_payload_eq_dec : EqDecision TimePayload.
Proof. solve_decision. Defined.
#[export] Instance time_payload_countable : Countable TimePayload.
Proof. countable time mkTimePayload. Defined.
#[export] Instance announce_eq_dec : EqDecision FWAnnounce.
Proof. solve_decision. Defined.
#[export] Instance announce_countable : Countable FWAnnounce.
Proof. countable (λ a, (url a, timestamp a)) (λ p : string * option Z, mkFWAnnounce p.1 p.2). Defined.

#[export] Instance demo_to_json {T} `{Countable T} : ToJson T := λ n t,
  if len (bytes_of (text_of t)) <=? n then Some (bytes_of (text_of t)) else None.
#[export] Instance demo_from_json {T} `{Countable T} : FromJson T := value_of.
#[export] Instance demo_from_slice {T} `{Countable T} : FromSlice T := λ l,
  match value_of l with Some t => inl t | None => inr "invalid" end.
#[export] Instance demo_to_text {T} `{Countable T} : ToText T := λ t, inl (text_of t).
Lemma demo_json {T} `{Countable T} : json_agrees T.
Proof.
  intros n t bytes. unfold to_json, demo_to_json, from_slice, demo_from_slice. destruct (_ <=? _); [|done]. intros Hb. assert (bytes = bytes_of (text_of t)) as -> by congruence. by rewrite value_of_text.
Qed.
Lemma demo_text {T} `{Countable T} ok : text_agrees (T := T) ok.
Proof. intros t _. exists (text_of t). split; [done|]. split; [apply value_of_text|apply len_text]. Qed.

(** The types that no report uses. *)
#[export] Instance no_info_v2 : FromSlice (DeviceInfoV2 ()) := λ _, inr "unsupported".
#[export] Instance no_event : FromSlice (EventPayload ()) := λ _, inr "unsupported".
#[export] Instance no_sms : FromSlice SmsResponse := λ _, inr "unsupported".
#[export] Instance no_sms_text : ToText SmsRequest := λ _, inr "unsupported".

(** A call fails when the script says so. *)
Definition scripted {A} (a : A) : M (list A * list bool) string unit := λ s,
  match s with
  | (l, true :: script) => (Err "i/o error", (l, script))
  | (l, script) => (Ok tt, (l ++ [a], tail script))
  end.
#[export] Instance demo_db : ServerDb (list SensorServerLog * list bool) string := {|
  event_mark_sent _ _ := mret tt;
  insert_log l := scripted l
|}.
#[export] Instance demo_client : AsyncClient (list Request * list bool) string := {|
  client_new _ c := ([], c.2);
  subscribe topic := scripted (ReqSubscribe topic);
  publish topic retain payload := scripted (ReqPublish topic retain payload);
  disconnect := scripted ReqDisconnect
|}.
Lemma script_keeps {A} (a : A) : keeps fst (scripted a) a.
Proof. by intros [l [|[] script]]. Qed.
#[export] Instance demo_db_laws : DbLaws (list SensorServerLog * list bool) string.
Proof. apply (Build_DbLaws _ _ _ fst). intros l. apply script_keeps. Defined.
#[export] Instance demo_client_laws : ClientLaws (list Request * list bool) string.
Proof. apply (Build_ClientLaws _ _ _ fst); try done; intros; apply script_keeps. Defined.
Lemma insert_returns l (d : list SensorServerLog * list bool) : (insert_log l d).1 ≠ Panic.
Proof. by destruct d as [logs [|[] script]]. Qed.

Definition demo_process (_ : Z) (p : Publish) : M (list Publish) unit unit := λ h,
  match pub_payload p with [] => (Err tt, h) | _ => (Ok tt, h ++ [p]) end.
Definition demo_polls : list (LoopEvent Z) :=
  [Polled ConnAck; Polled (PollError 1); Polled (PollError 2); Polled PollOther; Polled (PollError 3); Polled ConnAck;
   Polled (Incoming 5 (mkPublish "f/ABC/online" [1])); ShutdownRequest; Polled (PollError 4)].

Lemma status_reflects_connection_witness :
  ∃ ended l, mqtt_event_loop_task demo_process demo_polls (loop_new []) = (Ok ended, l) ∧
    if (ended : bool) then status l = false ∧ ShutdownRequest ∈ demo_polls
    else
      status l = connection_up false demo_polls ∧ errors_reported l = first_errors false demo_polls ∧
      incoming_handler l = handled demo_process [] demo_polls ∧
      ∀ before after, demo_polls = before ++ ShutdownRequest :: after → Forall (λ ev, is_error ev = false) after.
Proof. apply status_reflects_connection. intros now p h. unfold demo_process. destruct (pub_payload p); discriminate. Defined.

(** The first errors of the two streaks are reported, and the status follows. *)
Example demo_polls_run :
  (λ l : EventLoop Z (list Publish), (errors_reported l, status_sent l, connects l)) (mqtt_event_loop_task demo_process demo_polls (loop_new [])).2 =
  ([1; 3], [true; false; false; true; false], 2%nat).
Proof. reflexivity. Qed.

Abbreviation DemoDb := (list SensorServerLog * list bool)%type.
Definition demo_codec : TopicCodec () () bool () () TopicFromDevice DeviceControlOut PayloadError := jitter_codec.
Definition demo_handler : InHandler () () bool () () DemoDb := mkInHandler (mkTx false []) (mkTx false []) ([], [true]).
Definition demo_report : Report (D := ()) (S := bool) := RFwStatus FwComplete.

Definition demo_payload : list Z := Eval vm_compute in default [] (report_payload 128 demo_report).

(** The log of this report fails. *)
Lemma device_report_reaches_server_witness :
  ∃ l db',
    process_mqtt_topic (codec := demo_codec) 7 (mkPublish "f/ABC/fw_update/status" demo_payload) demo_handler =
      (Ok tt, mkInHandler (data_tx demo_handler) (mkTx false (tx_sent (device_tx demo_handler) ++ [mkControlIn "ABC" (report_in demo_report)])) db') ∧
    sensor_id l = "ABC" ∧ db' = (insert_log l (h_db demo_handler)).2.
Proof.
  apply (device_report_reaches_server (DT := ()) (D := ()) (S := bool) (EV := ()) (P := ()) (DB := DemoDb)) with (n := 128) (r := demo_report);
    [apply demo_json..|apply insert_returns|reflexivity|vm_compute; reflexivity|reflexivity|reflexivity].
Defined.

Definition demo_uid_client : Client () := Client.client_new () "ABC".
Definition demo_announce : StatusHandler.ControlMessageOut := mkMessageOut "ABC" (StatusHandler.FWUpdateAnnounce (mkFWAnnounce "fw.bin" None)).

Lemma control_message_reaches_device_witness :
  ∃ kind topic text ev c',
    jitter_encode_control_out 5 "ABC" (from (StatusHandler.payload demo_announce)) = Ok (topic, text) ∧
    topic_name_sub kind demo_uid_client = (Ok topic, demo_uid_client) ∧
    handle_message (mkMessage topic (bytes_of text)) demo_uid_client = (Ok (Some ev), c') ∧
    kind = Topics.FWUpdateAnnounce ∧ ev = FirmwareUpdateAnnounced ∧ c' = set_url "fw.bin" demo_uid_client ∧ update_url c' = Some "fw.bin".
Proof.
  destruct (control_message_reaches_device (D := ())) with (now_us := 5) (m := demo_announce) (c := demo_uid_client) as [_ Hreach];
    [apply demo_text..|reflexivity|reflexivity|split; [vm_compute; discriminate|reflexivity]|].
  apply Hreach. vm_compute. discriminate.
Defined.

Lemma write_pieces_returns l out : (write_pieces l out).1 ≠ Panic.
Proof.
  revert out. induction l as [|p l IH]; intros out; [done|]. cbn [write_pieces]. unfold push_str, mbind, M_bind. destruct (_ <=? _); [apply IH|done].
Qed.
Lemma topic_string_returns p d name : build_topic_string p d name ≠ Panic.
Proof.
  unfold build_topic_string, validate_prefix, validate_uid, mbind, M_bind. destruct (str_len p <=? _); [|done].
  unfold mret, M_ret. destruct (str_len d <=? _); [|done]. unfold map_err.
  pose proof (write_pieces_returns [p; "/"; d; "/"; name] "") as Hw. by destruct (write_pieces _ _) as [[]].
Qed.
Lemma jitter_encode_returns now dev out : jitter_encode_control_out now dev out ≠ Panic.
Proof.
  destruct out as [c|a| |r]; unfold jitter_encode_control_out, encoded; [..|by destruct (to_text r)]; (destruct (to_text _); [|done]);
    unfold to_to_topic_string, to_to_topic_string_with_prefix;
    (match goal with |- context [build_topic_string ?p ?d ?n] => pose proof (topic_string_returns p d n); by destruct (build_topic_string p d n) end).
Qed.

Definition demo_task : MqttTask DemoDb (list Request * list bool) := mkTask ([], [false; false; false; true]) ([], [false; true]).
Definition demo_events : list (TaskEvent DeviceControlOut) :=
  [Outgoing 1 2 (mkOut "ABC" Time); Outgoing 3 4 (mkOut "a uid that is too long" Time);
   Outgoing 5 6 (mkOut "DEF" (DeviceCommand (mkCommandPayload CmdStop))); Connected; TaskShutdown].

Lemma outgoing_messages_in_order_witness :
  ∃ ended t' hs n,
    mqtt_task (codec := demo_codec) [] demo_events demo_task = (Ok ended, t') ∧
    messages_of (requests (t_client t')) = concat (publication (codec := demo_codec) <$> hs) ∧
    statuses_of (requests (t_client t')) = take n (announcements (text_of SsOk) (text_of SsOffline)) ∧
    logs (t_db t') = logs (t_db demo_task) ++ concat (log_of (codec := demo_codec) <$> hs) ∧
    accounts (DB := DemoDb) (C := list Request * list bool) demo_events ended hs n.
Proof.
  apply (outgoing_messages_in_order (codec := demo_codec)); [intros now dev out; apply jitter_encode_returns|reflexivity|reflexivity].
Defined.

(** A request for the gateway is logged under its device id, which its sender leaves
    empty as unused. *)
Example sms_request_is_logged :
  (λ l, (sensor_id l, log_type l)) <$>
    (t_db (send_out (codec := demo_codec) 1 2 (mkOut "" (SMSRequest (mkSmsRequest "1" [] ""))) (mkTask (([], []) : list Request * list bool) (([], []) : DemoDb))).2).1 =
  [("", "error")].
Proof. reflexivity. Qed.

(** The first message is not published, the second does not encode and its log fails. *)
Example demo_task_run :
  let t := (mqtt_task (codec := demo_codec) [] demo_events demo_task).2 in
  (len (messages_of (t_client t).1), len (statuses_of (t_client t).1), (λ l, (sensor_id l, log_type l)) <$> (t_db t).1) =
  (1, 2, [("ABC", "error"); ("DEF", "info")]).
Proof. vm_compute. reflexivity. Qed.
End DemoServer.
