(* ===== verification/Alarm.v ===== *)
(** * Alarms and text messages

    [server/sensor-link-notify/src]: the task that turns alarm events of the database into
    emails and text messages ([alarm.rs]), and the task that sends a text message through
    the gateway or, as a fallback, through the API of a provider ([sms.rs]).  The database
    is class [EventStore] with what its queries and updates promise ([EventStoreLaws]), the
    builder of the messages class [MessageBuilder], the API class [SmsApi].  [Utc::now] is
    an argument, a date a number of milliseconds.  The text of an email is kept as its
    arguments; logging is left out. *)

From stdpp Require Import base list list_numbers numbers option strings sorting.
From S2P Require Import Prelude Topics Client StatusHandler ServerMqtt.
#[local] Open Scope Z_scope.

(** ** Events ([event.rs]) *)

Inductive EventType : Type := TyInfo | TyWarning | TyError | TySms | TyEmail | TyAlarm | TyDebug | TyDiagnostic.
#[export] Instance EventType_eq_dec : EqDecision EventType.
Proof. solve_decision. Defined.
#[export] Instance SendStatus_eq_dec : EqDecision SendStatus.
Proof. solve_decision. Defined.

(** [EventCodes] *)
Definition AlarmSMS : Z := 201.
Definition SMSCode : Z := 202.
Definition EmailCode : Z := 203.
Definition ErrorSendingSMS : Z := 410.

(** An event; [e_details] stands for the fields that no code here looks at. *)
Record Event (CD ED : Type) : Type := mkEvent {
  e_id : string;
  e_type : EventType;
  e_code : Z;
  e_timestamp : Z;
  e_sent : option SendStatus;
  e_contact_details : option CD;
  e_details : ED
}.
Arguments mkEvent {CD ED}.
Arguments e_id {CD ED}.
Arguments e_type {CD ED}.
Arguments e_code {CD ED}.
Arguments e_timestamp {CD ED}.
Arguments e_sent {CD ED}.
Arguments e_contact_details {CD ED}.
Arguments e_details {CD ED}.

(** [EventQuery], as far as it is used here. *)
Record EventQuery : Type := mkQuery {
  q_from : Z; q_until : Z; q_types : list EventType; q_sent : SendStatus; q_has_contact_details : bool;
  q_code : list Z; q_sort : Z; q_limit : nat
}.

Class EventStore (DB CD ED DbErr : Type) : Type := {
  query_events : EventQuery → M DB DbErr (list (Event CD ED));
  mark_sent : string → SendStatus → M DB DbErr unit;
  event_update_code : string → Z → EventType → M DB DbErr unit
}.

(** ** Messages *)

Record SMS : Type := mkSMS {
  phone_numbers : list string;
  message : string;
  group_name : option string;
  originator : string;
  event_id : string;
  created_at : Z;
  use_jitter_gateway : bool
}.
(** [From<SMS> for SMSRequest] *)
#[export] Instance sms_into_request : From SMS SmsRequest := λ val, mkSmsRequest (event_id val) (phone_numbers val) (message val).

Record SMSPayload : Type := mkPayload {
  encoding : string; p_body : string; route : string; p_originator : string; recipients : list string; reference : option string
}.
#[export] Instance sms_into_payload : From SMS SMSPayload := λ sms,
  mkPayload "auto" (message sms) "business" (originator sms) (phone_numbers sms) (group_name sms).

(** [NotificationMessageBuilder] *)
Class MessageBuilder (B CD ED Email BErr : Type) : Type := {
  build_email : Event CD ED → CD → M B BErr (option Email);
  build_sms : Event CD ED → CD → M B BErr (option SMS)
}.

(** ** [alarm.rs] *)

Definition SMS_RETRY_AFTER_SEC : Z := 120.
Definition SMS_RETRY_WINDOW_SEC : Z := 300.
Definition START_OFFSET_SEC : Z := SMS_RETRY_WINDOW_SEC.
Definition POLL_INTERVAL_MS : Z := 5000.
Definition QUERY_LIMIT : nat := 1024.

Inductive AlarmError (DbErr BErr : Type) : Type := AlarmDb (e : DbErr) | AlarmBuilder (e : BErr) | AlarmSend.
Arguments AlarmDb {DbErr BErr}.
Arguments AlarmBuilder {DbErr BErr}.
Arguments AlarmSend {DbErr BErr}.

Definition new_query (untill now : Z) : EventQuery :=
  mkQuery untill now [TyEmail; TySms] NotSent true [EmailCode; AlarmSMS] 1 QUERY_LIMIT.
(** Events with status sending that have been timed out. *)
Definition retry_query (untill : Z) : EventQuery :=
  mkQuery (untill - SMS_RETRY_WINDOW_SEC * 1000) (untill - SMS_RETRY_AFTER_SEC * 1000) [TySms] Sending true [AlarmSMS] 1 QUERY_LIMIT.

Section alarm.
Context {DB CD ED Email B DbErr BErr : Type} `{!EventStore DB CD ED DbErr, !MessageBuilder B CD ED Email BErr}.

Record Alarm : Type := mkAlarm { a_db : DB; mail_sender : Tx Email; sms_sender : Tx SMS; builder : B }.
Definition set_a_db (v : DB) (s : Alarm) : Alarm := mkAlarm v (mail_sender s) (sms_sender s) (builder s).
Definition set_mail (v : Tx Email) (s : Alarm) : Alarm := mkAlarm (a_db s) v (sms_sender s) (builder s).
Definition set_sms (v : Tx SMS) (s : Alarm) : Alarm := mkAlarm (a_db s) (mail_sender s) v (builder s).
Definition set_builder (v : B) (s : Alarm) : Alarm := mkAlarm (a_db s) (mail_sender s) (sms_sender s) v.
Abbreviation MA := (M Alarm (AlarmError DbErr BErr)).

Definition at_db {A} (m : M DB DbErr A) : MA A := map_err AlarmDb (zoom a_db set_a_db m).
Definition at_builder {A} (m : M B BErr A) : MA A := map_err AlarmBuilder (zoom builder set_builder m).
Definition send_mail (m : Email) : MA unit := map_err (λ _, AlarmSend) (zoom mail_sender set_mail (tx_send m)).
Definition send_to_sms_task (m : SMS) : MA unit := map_err (λ _, AlarmSend) (zoom sms_sender set_sms (tx_send m)).

Definition send_text (event : Event CD ED) (contact_details : CD) : MA unit :=
  sms ← at_builder (build_sms event contact_details);
  match sms with
  | None => mret tt
  | Some sms => send_to_sms_task sms
  end.
Definition process_alarm_event (event : Event CD ED) : MA unit :=
  match e_contact_details event with
  | None => mret tt
  | Some contact_details =>
      match e_type event with
      | TyEmail =>
          email ← at_builder (build_email event contact_details);
          match email with
          | None => mret tt
          | Some email => send_mail email;; at_db (mark_sent (e_id event) Sent)
          end
      | TySms =>
          ignore (at_db (mark_sent (e_id event) Sending));;
          send_text event contact_details
      | _ => mret tt
      end
  end.
Fixpoint process_all (events : list (Event CD ED)) : MA unit :=
  match events with
  | [] => mret tt
  | event :: events => process_alarm_event event;; process_all events
  end.
Definition process_alarms (alarms_processed_untill now : Z) : MA Z :=
  events ← at_db (query_events (new_query alarms_processed_untill now));
  events_retry ← at_db (query_events (retry_query alarms_processed_untill));
  let events := events ++ events_retry in
  process_all events;;
  mret (len events).

(** The loop of [alarm_task]: each pass comes with its time and whether a shutdown arrives
    in the wait after it; it gives the pauses, in milliseconds.  [true] when the task was
    shut down. *)
Fixpoint alarm_loop (alarms_processed_untill : Z) (passes : list (Z * bool)) : M Alarm Empty_set (bool * list Z) :=
  match passes with
  | [] => mret (false, [])
  | (now, shutdown) :: passes =>
      r ← attempt (process_alarms alarms_processed_untill now);
      let pauses := match r with inl _ => [] | inr _ => [60000] end in
      if (shutdown : bool) then mret (true, pauses)
      else
        rest ← alarm_loop alarms_processed_untill passes;
        mret (rest.1, pauses ++ POLL_INTERVAL_MS :: rest.2)
  end.
Definition alarm_task (started : Z) (passes : list (Z * bool)) : M Alarm Empty_set (bool * list Z) :=
  alarm_loop (started - START_OFFSET_SEC * 1000) passes.
End alarm.
Arguments Alarm : clear implicits.

(** ** [sms.rs] *)

(** A sender on a bounded channel; [try_send] fails when the channel is closed or full. *)
Record BoundedTx (A : Type) : Type := mkBounded { b_closed : bool; b_free : nat; b_sent : list A }.
Arguments mkBounded {A}.
Arguments b_closed {A}.
Arguments b_free {A}.
Arguments b_sent {A}.
Inductive TrySendError : Type := Full | Closed.
Definition try_send {A} (a : A) : M (BoundedTx A) TrySendError unit := λ tx,
  if b_closed tx then (Err Closed, tx)
  else match b_free tx with
       | O => (Err Full, tx)
       | Datatypes.S free => (Ok tt, mkBounded false free (b_sent tx ++ [a]))
       end.

(** The API of the provider: whether the response is a success; an error is one of the
    transport. *)
Class SmsApi (W HttpErr : Type) : Type := post : SMSPayload → M W HttpErr bool.

(** The reason of a fallback, and the email that reports it. *)
Inductive FallbackReason : Type := GatewayError (e : TrySendError) | GatewayTooLate (phones : list string).
Record FallbackMail : Type := mkFallback {
  fb_time : Z; fb_phone_numbers : list string; fb_server_name : string; fb_group : string; fb_reason : FallbackReason
}.

Section sms.
Context {DB CD ED DbErr W HttpErr : Type} `{!EventStore DB CD ED DbErr, !SmsApi W HttpErr}.

Record SmsTask : Type := mkSmsTask {
  s_db : DB; api : W; tx_to_mqtt : BoundedTx (ServerMqtt.ControlMessageOut ServerMqtt.DeviceControlOut); mail_tx : BoundedTx FallbackMail
}.
Definition set_s_db (v : DB) (s : SmsTask) : SmsTask := mkSmsTask v (api s) (tx_to_mqtt s) (mail_tx s).
Definition set_api (v : W) (s : SmsTask) : SmsTask := mkSmsTask (s_db s) v (tx_to_mqtt s) (mail_tx s).
Definition set_tx_to_mqtt (v : BoundedTx (ServerMqtt.ControlMessageOut ServerMqtt.DeviceControlOut)) (s : SmsTask) : SmsTask :=
  mkSmsTask (s_db s) (api s) v (mail_tx s).
Definition set_mail_tx (v : BoundedTx FallbackMail) (s : SmsTask) : SmsTask := mkSmsTask (s_db s) (api s) (tx_to_mqtt s) v.
Abbreviation MS := (M SmsTask Empty_set).

Definition send_jitter_fallback_mail (now : Z) (sms : SMS) (reason : FallbackReason) : MS unit :=
  ignore (zoom mail_tx set_mail_tx
    (try_send (mkFallback now (phone_numbers sms) (originator sms) (default "(unknown)" (group_name sms)) reason))).

(** Whether the gateway took the message; [now] and [now'] are the times of the age check
    and of the email. *)
Definition try_gateway (now now' : Z) (sms : SMS) : MS bool :=
  if use_jitter_gateway sms then
    if now - created_at sms <? 15000 then
      r ← attempt (zoom tx_to_mqtt set_tx_to_mqtt (try_send (ServerMqtt.mkOut "" (ServerMqtt.SMSRequest (from sms)))));
      match r with
      | inl _ => mret true
      | inr err => send_jitter_fallback_mail now' sms (GatewayError err);; mret false
      end
    else send_jitter_fallback_mail now' sms (GatewayTooLate (phone_numbers sms));; mret false
  else mret false.

Definition at_events {A} (m : M DB DbErr A) : MS unit := ignore (zoom s_db set_s_db m).

(** One turn of the loop of [send_task]; [config] is whether there is a key for the API. *)
Definition send_sms (config : bool) (now now' : Z) (sms : SMS) : MS unit :=
  taken ← try_gateway now now' sms;
  if (taken : bool) then mret tt
  else if negb config then at_events (mark_sent (event_id sms) SendFailed)
  else
    response ← attempt (zoom api set_api (post (from sms)));
    match response with
    | inl true => at_events (mark_sent (event_id sms) Sent)
    | inl false =>
        at_events (mark_sent (event_id sms) SendFailed);;
        at_events (event_update_code (event_id sms) ErrorSendingSMS TyWarning)
    | inr _ => at_events (event_update_code (event_id sms) ErrorSendingSMS TyWarning)
    end.
Fixpoint sms_send_task (config : bool) (input : list (Z * Z * SMS)) : MS unit :=
  match input with
  | [] => mret tt
  | (now, now', sms) :: input => send_sms config now now' sms;; sms_send_task config input
  end.
End sms.
Arguments SmsTask : clear implicits.

(** * Properties *)

(** ** What the database promises *)

Section laws.
Context {DB CD ED DbErr : Type} `{!EventStore DB CD ED DbErr}.

Definition matches (q : EventQuery) (e : Event CD ED) : bool :=
  (q_from q <=? e_timestamp e) && (e_timestamp e <=? q_until q) && bool_decide (e_type e ∈ q_types q) &&
  bool_decide (e_sent e = Some (q_sent q)) && bool_decide (e_code e ∈ q_code q) &&
  implb (q_has_contact_details q) (match e_contact_details e with Some _ => true | None => false end).
Definition with_sent (status : SendStatus) (e : Event CD ED) : Event CD ED :=
  mkEvent (e_id e) (e_type e) (e_code e) (e_timestamp e) (Some status) (e_contact_details e) (e_details e).
Definition set_status (id : string) (status : SendStatus) (evs : list (Event CD ED)) : list (Event CD ED) :=
  (λ e, if decide (e_id e = id) then with_sent status e else e) <$> evs.

(** A query gives matching events in the order of time, all of them unless there are more
    than the limit; an update that fails may have taken place. *)
Class EventStoreLaws : Type := {
  events : DB → list (Event CD ED);
  query_law q d :
    events (query_events q d).2 = events d ∧
    match (query_events q d).1 with
    | Ok l =>
        l ⊆+ filter (matches q) (events d) ∧ Sorted (λ a b, e_timestamp a ≤ e_timestamp b) l ∧
        ((length (filter (matches q) (events d)) ≤ q_limit q)%nat → l ≡ₚ filter (matches q) (events d))
    | Err _ => True
    | Panic => False
    end;
  mark_law id status d :
    match (mark_sent id status d).1 with
    | Ok _ => events (mark_sent id status d).2 = set_status id status (events d)
    | Err _ => events (mark_sent id status d).2 = events d ∨ events (mark_sent id status d).2 = set_status id status (events d)
    | Panic => False
    end
}.

Lemma matches_inv q (e : Event CD ED) :
  matches q e = true →
  q_from q ≤ e_timestamp e ≤ q_until q ∧ e_type e ∈ q_types q ∧ e_sent e = Some (q_sent q) ∧
  (q_has_contact_details q = true → is_Some (e_contact_details e)).
Proof.
  unfold matches. rewrite !andb_true_iff, !bool_decide_eq_true, !Z.leb_le. intros [[[[[H1 H2] H3] H4] H5] H6].
  split; [done|]. split; [done|]. split; [done|]. intros Hq. rewrite Hq in H6. destruct (e_contact_details e); [by eexists|done].
Qed.
End laws.
Arguments EventStoreLaws : clear implicits.
Arguments EventStoreLaws DB CD ED {DbErr _}.

Section passes.
Context {DB CD ED Email B DbErr BErr : Type} {store : EventStore DB CD ED DbErr} {mb : MessageBuilder B CD ED Email BErr}.
Context {slaws : EventStoreLaws DB CD ED}.
Context (email_returns : ∀ e c b, (build_email e c b).1 ≠ Panic) (sms_returns : ∀ e c b, (build_sms e c b).1 ≠ Panic).
Abbreviation AL := (Alarm DB Email B).
Implicit Types (s : AL) (e : Event CD ED).

(** What a pass that may fail keeps: [P] of the events, the emails and the text messages
    that were sent since the start. *)
Definition tracks (P : list (Event CD ED) → list Email → list SMS → Prop) (s0 s : AL) : Prop :=
  ∃ mails texts, tx_sent (mail_sender s) = tx_sent (mail_sender s0) ++ mails ∧ tx_sent (sms_sender s) = tx_sent (sms_sender s0) ++ texts ∧
    P (events (a_db s)) mails texts.

(** The steps of a pass over [event], as far as they change what is tracked. *)
Definition preserved (P : list (Event CD ED) → list Email → list SMS → Prop) e : Prop :=
  (∀ c evs mails texts b b' m, e_contact_details e = Some c → build_email e c b = (Ok (Some m), b') →
     P evs mails texts → P evs (mails ++ [m]) texts ∧ P (set_status (e_id e) Sent evs) (mails ++ [m]) texts) ∧
  (∀ evs mails texts, e_type e = TySms → P evs mails texts → P (set_status (e_id e) Sending evs) mails texts) ∧
  (∀ c evs mails texts b b' m, e_contact_details e = Some c → build_sms e c b = (Ok (Some m), b') →
     P evs mails texts → P evs mails (texts ++ [m])).

Lemma tx_send_tracks {A} (a : A) (tx : Tx A) : (tx_send a tx).1 = Ok tt ∧ tx_sent (tx_send a tx).2 = tx_sent tx ++ [a] ∨ (tx_send a tx).1 = Err tt ∧ (tx_send a tx).2 = tx.
Proof. unfold tx_send. destruct (tx_closed tx); auto. Qed.

Lemma send_text_tracks P e c s0 s :
  preserved P e → e_contact_details e = Some c → tracks P s0 s →
  wp (send_text e c : M AL (AlarmError DbErr BErr) unit) (λ _, tracks P s0) (λ _ , tracks P s0) s.
Proof.
  intros (_ & _ & Htext) Hc (mails & texts & Hm & Ht & HP). unfold send_text. apply wp_bind, wp_map_err, wp_zoom. unfold wp at 1.
  pose proof (sms_returns e c (builder s)) as Hr. destruct (build_sms e c (builder s)) as [[[m|]|err|] b'] eqn:Hb; [| | |done].
  - unfold send_to_sms_task. apply wp_map_err, wp_zoom. unfold wp. cbn [sms_sender set_builder].
    destruct (tx_send_tracks m (sms_sender s)) as [[H1 H2]|[H1 H2]]; destruct (tx_send m (sms_sender s)) as [r tx]; cbn in H1, H2; subst.
    + exists mails, (texts ++ [m]). split; [done|]. split; [cbn; by rewrite H2, Ht, app_assoc|]. cbn. by eapply Htext.
    + by exists mails, texts.
  - apply wp_ret. by exists mails, texts.
  - by exists mails, texts.
Qed.

Lemma process_alarm_event_tracks P e s0 s :
  preserved P e → tracks P s0 s →
  wp (process_alarm_event e) (λ _, tracks P s0) (λ _ , tracks P s0) s.
Proof.
  intros Hpre (mails & texts & Hm & Ht & HP). unfold process_alarm_event.
  destruct (e_contact_details e) as [c|] eqn:Hc; [|apply wp_ret; by exists mails, texts].
  destruct (e_type e) eqn:Hty; try (apply wp_ret; by exists mails, texts).
  - apply wp_bind, wp_ignore, wp_map_err, wp_zoom. unfold wp at 1. pose proof (mark_law (e_id e) Sending (a_db s)) as Hl.
    assert (Hnext : ∀ d, events d = events (a_db s) ∨ events d = set_status (e_id e) Sending (events (a_db s)) → tracks P s0 (set_a_db d s)).
    { intros d Hd. exists mails, texts. split; [done|]. split; [done|]. cbn. destruct Hd as [->| ->]; [done|by apply Hpre]. }
    destruct (mark_sent (e_id e) Sending (a_db s)) as [[u|err|] d]; cbn in Hl; [| |done]; apply send_text_tracks; auto.
  - destruct Hpre as (Hmail & _ & _). apply wp_bind, wp_map_err, wp_zoom. unfold wp at 1.
    pose proof (email_returns e c (builder s)) as Hr. destruct (build_email e c (builder s)) as [[[m|]|err|] b'] eqn:Hb; [| | |done].
    2: { apply wp_ret. by exists mails, texts. }
    2: { by exists mails, texts. }
    unfold send_mail. apply wp_bind, wp_map_err, wp_zoom. unfold wp at 1. cbn [mail_sender set_builder].
    destruct (tx_send_tracks m (mail_sender s)) as [[H1 H2]|[H1 H2]]; destruct (tx_send m (mail_sender s)) as [r tx]; cbn in H1, H2; subst r.
    2: { subst tx. by exists mails, texts. }
    destruct (Hmail c (events (a_db s)) mails texts (builder s) b' m Hc Hb HP) as [HP1 HP2].
    apply wp_map_err, wp_zoom. unfold wp. cbn [a_db set_mail set_builder].
    pose proof (mark_law (e_id e) Sent (a_db s)) as Hl.
    destruct (mark_sent (e_id e) Sent (a_db s)) as [[u|err|] d]; cbn in Hl; [| |done];
      (exists (mails ++ [m]), texts; split; [cbn; by rewrite H2, Hm, app_assoc|]; split; [done|]; cbn).
    + by rewrite Hl.
    + by destruct Hl as [-> | ->].
Qed.

Lemma process_alarms_tracks P untill now s0 s :
  (∀ e, e ∈ events (a_db s) → matches (new_query untill now) e = true ∨ matches (retry_query untill) e = true → preserved P e) →
  tracks P s0 s →
  wp (process_alarms untill now) (λ _, tracks P s0) (λ _, tracks P s0) s.
Proof.
  intros Hpre Htr. unfold process_alarms.
  assert (Hq : ∀ q s1, events (a_db s1) = events (a_db s) → tracks P s0 s1 →
    wp (at_db (query_events q) : M AL (AlarmError DbErr BErr) _) (λ l s2, events (a_db s2) = events (a_db s) ∧ tracks P s0 s2 ∧ (∀ e, e ∈ l → e ∈ events (a_db s) ∧ matches q e = true))
      (λ _, tracks P s0) s1).
  { intros q s1 He1 (mails & texts & Hm & Ht & HP). apply wp_map_err, wp_zoom. unfold wp. destruct (query_law q (a_db s1)) as [Hev Hl].
    assert (tracks P s0 (set_a_db (query_events q (a_db s1)).2 s1)) as Htr1 by (exists mails, texts; cbn; by rewrite Hev).
    destruct (query_events q (a_db s1)) as [[l|err|] d]; cbn in Hev, Hl; [|done|done]. split; [cbn; by rewrite Hev|]. split; [done|].
    intros e He. destruct Hl as (Hsub & _). eapply elem_of_submseteq in He; [|exact Hsub]. apply list_elem_of_filter in He as [Hma Hin].
    rewrite He1 in Hin. split; [done|]. by destruct (matches q e). }
  apply wp_bind. eapply wp_mono; [apply Hq; [done|exact Htr]|intros l1 s1 (E1 & T1 & H1)|done].
  apply wp_bind. eapply wp_mono; [apply Hq; [exact E1|exact T1]|intros l2 s2 (E2 & T2 & H2)|done].
  apply wp_bind. assert (Hall : Forall (preserved P) (l1 ++ l2)).
  { apply Forall_app. split; apply Forall_forall; intros e He; [destruct (H1 e He)|destruct (H2 e He)]; apply Hpre; auto. }
  clear H1 H2 E1 E2. eapply wp_mono with (Q := λ _, tracks P s0) (R := λ _, tracks P s0); [|intros ? ? ?; by apply wp_ret|done].
  revert s2 T2. induction Hall as [|e l He Hall IH]; intros s2 T2; [by apply wp_ret|]. cbn [process_all].
  apply wp_bind. eapply wp_mono; [by apply (process_alarm_event_tracks P e s0 s2)|intros ? s3 T3; by apply IH|done].
Qed.

(** An email that was sent was built for an event with this id. *)
Definition emailed (mails : list Email) (id : string) : Prop :=
  ∃ e c m b b', e_id e = id ∧ build_email e c b = (Ok (Some m), b') ∧ m ∈ mails.

(** An event is marked as sent only after its email was.  Whatever fails during a pass
    over the alarms (the database, the builder, the channels), an event that is marked as
    sent afterwards was so before, or an email that was built for it has been handed to
    the mail task in this pass. *)
Theorem sent_only_with_email untill now s :
  ∃ r s' mails, process_alarms untill now s = (r, s') ∧ r ≠ Panic ∧ tx_sent (mail_sender s') = tx_sent (mail_sender s) ++ mails ∧
    ∀ e', e' ∈ events (a_db s') → e_sent e' = Some Sent →
      emailed mails (e_id e') ∨ ∃ e, e ∈ events (a_db s) ∧ e_id e = e_id e' ∧ e_sent e = Some Sent.
Proof.
  set (P := λ (evs : list (Event CD ED)) (mails : list Email) (_ : list SMS), ∀ e', e' ∈ evs → e_sent e' = Some Sent →
    emailed mails (e_id e') ∨ ∃ e, e ∈ events (a_db s) ∧ e_id e = e_id e' ∧ e_sent e = Some Sent).
  assert (Hw : wp (process_alarms untill now) (λ _, tracks P s) (λ _, tracks P s) s).
  { apply process_alarms_tracks.
    2: { exists [], []. rewrite !app_nil_r. split; [done|]. split; [done|]. intros e' He Hs. right. by exists e'. }
    intros e _ _. split; [|split; [|done]].
    - intros c evs mails texts b b' m Hc Hb HP.
      assert (Hmono : ∀ e', emailed mails (e_id e') → emailed (mails ++ [m]) (e_id e')).
      { intros e' (x & cx & mx & bx & bx' & H1 & H2 & H3). exists x, cx, mx, bx, bx'. split; [done|]. split; [done|]. apply elem_of_app. by left. }
      split; intros e' He Hs; [destruct (HP e' He Hs); auto|].
      unfold set_status in He. apply list_elem_of_fmap in He as (x & -> & Hx). destruct (decide (e_id x = e_id e)) as [Hid|Hid].
      + left. exists e, c, m, b, b'. split; [done|]. split; [done|]. apply elem_of_app. right. by left.
      + destruct (HP x Hx Hs); auto.
    - intros evs mails texts Hty HP e' He Hs. unfold set_status in He. apply list_elem_of_fmap in He as (x & -> & Hx).
      destruct (decide (e_id x = e_id e)); [done|]. by apply (HP x). }
  unfold wp in Hw. destruct (process_alarms untill now s) as [[n|err|] s']; [| |done]; destruct Hw as (mails & texts & H1 & _ & H3);
    eexists _, s', mails; (split; [done|]); (split; [done|]); by split.
Qed.

(** ** Retries *)

(** Only text messages from before the start are retried.  In any number of passes of
    the task, with whatever failures, each text message that is handed over was built for
    an event that was not yet being sent, or for one that is more than seven minutes older
    than the start of the task; one of a later event that is being sent is not retried. *)
Theorem only_old_texts_retried started passes s :
  ∃ r s' texts, alarm_task started passes s = (Ok r, s') ∧ tx_sent (sms_sender s') = tx_sent (sms_sender s) ++ texts ∧
    ∀ m, m ∈ texts → ∃ e c b b', build_sms e c b = (Ok (Some m), b') ∧
      (e_sent e = Some NotSent ∨ (e_sent e = Some Sending ∧ e_timestamp e ≤ started - 420000)).
Proof.
  set (P := λ (_ : list (Event CD ED)) (_ : list Email) (texts : list SMS), ∀ m, m ∈ texts → ∃ (e : Event CD ED) (c : CD) b b',
    build_sms e c b = (Ok (Some m), b') ∧ (e_sent e = Some NotSent ∨ (e_sent e = Some Sending ∧ e_timestamp e ≤ started - 420000))).
  unfold alarm_task. set (untill := started - START_OFFSET_SEC * 1000).
  assert (Hstep : ∀ now s1, tracks P s s1 → wp (process_alarms untill now) (λ _, tracks P s) (λ _, tracks P s) s1).
  { intros now s1 T1. apply process_alarms_tracks; [|done]. intros e _ Hma. split; [by intros|split; [by intros|]].
    intros c evs mails texts b b' m Hc Hb HP x [Hx|Hx]%elem_of_app; [by apply HP|]. apply list_elem_of_singleton in Hx as ->.
    exists e, c, b, b'. split; [done|]. destruct Hma as [Hma|Hma]; apply matches_inv in Hma as ([_ Ht] & _ & Hs & _); [by left|].
    right. split; [done|]. cbn in Ht. unfold untill, START_OFFSET_SEC, SMS_RETRY_WINDOW_SEC, SMS_RETRY_AFTER_SEC in Ht. lia. }
  assert (Hw : ∀ s1, tracks P s s1 → wp (alarm_loop untill passes) (λ _, tracks P s) (λ _ _, False) s1).
  { induction passes as [|[now shutdown] passes IH]; intros s1 T1; [by apply wp_ret|]. cbn [alarm_loop].
    apply wp_bind, wp_attempt. eapply wp_mono; [by apply Hstep|..]; intros x s2 T2; (destruct shutdown; [by apply wp_ret|]);
      apply wp_bind; (eapply wp_mono; [by apply IH|intros rest s3 T3; by apply wp_ret|done]). }
  specialize (Hw s). unfold wp in Hw. destruct (alarm_loop untill passes s) as [[r|[]|] s'].
  - destruct Hw as (mails & texts & _ & H2 & H3); [exists [], []; rewrite !app_nil_r; split; [done|]; split; [done|]; by intros m Hm%not_elem_of_nil|].
    by exists r, s', texts.
  - exfalso. apply Hw. exists [], []. rewrite !app_nil_r. split; [done|]. split; [done|]. by intros m Hm%not_elem_of_nil.
Qed.
End passes.

(** ** A pass in which nothing fails *)

Section working.
Context {DB CD ED Email B DbErr BErr : Type} {store : EventStore DB CD ED DbErr} {mb : MessageBuilder B CD ED Email BErr}.
Context {slaws : EventStoreLaws DB CD ED}.
(** The builder may also decide that there is nothing to send. *)
Context (email_of : Event CD ED → CD → option Email) (sms_of : Event CD ED → CD → option SMS).
Context (builds_email : ∀ e c b, (build_email e c b).1 = Ok (email_of e c)).
Context (builds_sms : ∀ e c b, (build_sms e c b).1 = Ok (sms_of e c)).
Context (queries : ∀ q d, ∃ l, (query_events q d).1 = Ok l) (marks_sent : ∀ id d, (mark_sent id Sent d).1 = Ok tt).
Context (marks_sending : ∀ id d, events (mark_sent id Sending d).2 = set_status id Sending (events d)).
Implicit Types (s : Alarm DB Email B) (e : Event CD ED).

Definition email_for e : option Email := match e_type e, e_contact_details e with TyEmail, Some c => email_of e c | _, _ => None end.
Definition sms_for e : option SMS := match e_type e, e_contact_details e with TySms, Some c => sms_of e c | _, _ => None end.
Definition status_for e : option SendStatus :=
  match e_type e, e_contact_details e with TyEmail, Some c => (λ _, Sent) <$> email_of e c | TySms, Some _ => Some Sending | _, _ => None end.
(** An event for which there is no email to send; it stays as it is. *)
Definition skipped e : Prop := e_type e = TyEmail ∧ email_for e = None.
(** An event after the events [l] were processed. *)
Definition marked (l : list (Event CD ED)) e : Event CD ED :=
  foldl (λ e x, match status_for x with Some st => if decide (e_id e = e_id x) then with_sent st e else e | None => e end) e l.

Lemma process_all_works l s :
  tx_closed (mail_sender s) = false → tx_closed (sms_sender s) = false →
  ∃ s', process_all l s = (Ok tt, s') ∧
    mail_sender s' = mkTx false (tx_sent (mail_sender s) ++ omap email_for l) ∧
    sms_sender s' = mkTx false (tx_sent (sms_sender s) ++ omap sms_for l) ∧
    events (a_db s') = marked l <$> events (a_db s).
Proof.
  revert s. induction l as [|e l IH]; intros [d [mc mails] [tc texts] b] Hm Ht; cbn in Hm, Ht; subst.
  { eexists. split; [done|]. cbn. rewrite !app_nil_r. split; [done|]. split; [done|]. symmetry. apply list_fmap_id. }
  assert (∃ d' b', process_alarm_event e (mkAlarm d (mkTx false mails) (mkTx false texts) b) =
    (Ok tt, mkAlarm d' (mkTx false (mails ++ option_list (email_for e))) (mkTx false (texts ++ option_list (sms_for e))) b') ∧
    events d' = marked [e] <$> events d) as (d' & b' & Hrun & Hd).
  { assert (Hkeep : events d = (λ e, e) <$> events d) by (symmetry; apply list_fmap_id).
    unfold process_alarm_event, email_for, sms_for, marked, status_for. cbn [foldl].
    destruct (e_contact_details e) as [c|]; [|exists d, b; destruct (e_type e); cbn; by rewrite !app_nil_r].
    destruct (e_type e) eqn:Hty; try (exists d, b; cbn; by rewrite !app_nil_r).
    - pose proof (marks_sending (e_id e) d) as Hms. pose proof (mark_law (e_id e) Sending d) as Hl. pose proof (builds_sms e c b) as Hb.
      unfold ignore, at_db, send_text, at_builder, send_to_sms_task, attempt, map_err, zoom, mbind, M_bind. cbn.
      destruct (mark_sent (e_id e) Sending d) as [[u|err|] d']; [| |done]; cbn in *;
        (destruct (build_sms e c b) as [r b']; cbn in Hb; subst r; cbn; exists d', b'; rewrite app_nil_r;
           destruct (sms_of e c); cbn; rewrite ?app_nil_r; (split; [done|exact Hms])).
    - pose proof (marks_sent (e_id e) d) as Hms. pose proof (mark_law (e_id e) Sent d) as Hl. pose proof (builds_email e c b) as Hb.
      unfold at_db, send_mail, at_builder, map_err, zoom, mbind, M_bind. cbn. destruct (build_email e c b) as [r b']; cbn in Hb; subst r. cbn.
      destruct (email_of e c) as [mail|]; cbn; [|exists d, b'; by rewrite !app_nil_r].
      destruct (mark_sent (e_id e) Sent d) as [r d']; cbn in Hms; subst r. cbn in *. exists d', b'. rewrite app_nil_r. by split. }
  destruct (IH (mkAlarm d' (mkTx false (mails ++ option_list (email_for e))) (mkTx false (texts ++ option_list (sms_for e))) b')) as (s' & Hrest & H1 & H2 & H3); [done|done|].
  exists s'. cbn [process_all]. unfold mbind, M_bind. rewrite Hrun, Hrest. split; [done|]. cbn in H1, H2, H3. rewrite H1, H2, H3, Hd.
  cbn [omap list_omap]. split; [|split].
  - cbn. destruct (email_for e); cbn; by rewrite <- ?app_assoc, ?app_nil_r.
  - cbn. destruct (sms_for e); cbn; by rewrite <- ?app_assoc, ?app_nil_r.
  - rewrite <- list_fmap_compose. done.
Qed.

Lemma marked_keeps l e :
  e_id (marked l e) = e_id e ∧ e_type (marked l e) = e_type e ∧ e_code (marked l e) = e_code e ∧
  e_timestamp (marked l e) = e_timestamp e ∧ e_contact_details (marked l e) = e_contact_details e ∧
  (e_sent (marked l e) = Some NotSent → marked l e = e ∧ ∀ x, x ∈ l → is_Some (status_for x) → e_id x ≠ e_id e).
Proof.
  induction l as [|x l IH] using rev_ind; [split_and!; try done; intros _; split; [done|]; by intros x Hx%not_elem_of_nil|].
  unfold marked in *. rewrite foldl_app. cbn [foldl]. set (e' := foldl _ e l) in *. destruct IH as (H1 & H2 & H3 & H4 & H5 & H6).
  destruct (status_for x) as [st|] eqn:Hst; [destruct (decide (e_id e' = e_id x)) as [Hid|Hid]|]; cbn.
  - split; [done|]. split; [done|]. split; [done|]. split; [done|]. split; [done|].
    unfold status_for in Hst. intros [= ->]. destruct (e_type x), (e_contact_details x) as [c|]; try done. by destruct (email_of x c).
  - split; [done|]. split; [done|]. split; [done|]. split; [done|]. split; [done|]. intros Hs. destruct (H6 Hs) as [G1 G2]. split; [done|].
    intros y [Hy|Hy]%elem_of_app Hsy; [by apply G2|]. apply list_elem_of_singleton in Hy as ->. congruence.
  - split; [done|]. split; [done|]. split; [done|]. split; [done|]. split; [done|]. intros Hs. destruct (H6 Hs) as [G1 G2]. split; [done|].
    intros y [Hy|Hy]%elem_of_app Hsy; [by apply G2|]. apply list_elem_of_singleton in Hy as ->. rewrite Hst in Hsy. by destruct Hsy.
Qed.

Lemma new_query_status untill now e : matches (new_query untill now) e = true → is_Some (status_for e) ∨ skipped e.
Proof.
  intros Hma. apply matches_inv in Hma as (_ & Hty & _ & Hc). destruct (Hc eq_refl) as [c Hc']. cbn in Hty. unfold skipped, status_for, email_for. rewrite Hc'.
  apply elem_of_cons in Hty as [-> | ->%list_elem_of_singleton]; [|by left]. destruct (email_of e c); [by left|by right].
Qed.

(** C20: a pass in which nothing fails sends every alarm once.  The emails and text messages
    of the new alarm events are handed over, each once and in the order of time, followed
    by the text messages that are retried.  These are all new events, as long as they are
    no more than the limit of the query (1024); and what the next pass would still
    take as new are events that this pass did not get, or for which the builder had no email
    (they are not marked, and come again). *)
Theorem working_pass_sends_all untill now s :
  tx_closed (mail_sender s) = false → tx_closed (sms_sender s) = false →
  let new db := filter (matches (new_query untill now)) (events db) in
  ∃ s' l retried,
    process_alarms untill now s = (Ok (len l + len retried), s') ∧
    l ⊆+ new (a_db s) ∧ ((length (new (a_db s)) ≤ QUERY_LIMIT)%nat → l ≡ₚ new (a_db s)) ∧
    Sorted (λ a b, e_timestamp a ≤ e_timestamp b) l ∧ retried ⊆+ filter (matches (retry_query untill)) (events (a_db s)) ∧
    tx_sent (mail_sender s') = tx_sent (mail_sender s) ++ omap email_for l ∧
    tx_sent (sms_sender s') = tx_sent (sms_sender s) ++ omap sms_for l ++ omap sms_for retried ∧
    (∀ e, e ∈ new (a_db s') → e ∈ new (a_db s) ∧ (e ∈ l → skipped e)).
Proof.
  intros Hm Ht new. unfold new. unfold process_alarms, at_db, map_err, zoom, mbind, M_bind.
  destruct (query_law (new_query untill now) (a_db s)) as [E1 L1]. destruct (queries (new_query untill now) (a_db s)) as [l Hl].
  destruct (query_events (new_query untill now) (a_db s)) as [r1 d1]. cbn in E1, L1, Hl. subst r1. destruct L1 as (Hnew & Hsort & Hperm).
  cbn [a_db set_a_db]. destruct (query_law (retry_query untill) d1) as [E2 L2]. destruct (queries (retry_query untill) d1) as [lr Hlr].
  destruct (query_events (retry_query untill) d1) as [r2 d2]. cbn in E2, L2, Hlr. subst r2. destruct L2 as (Hsub & _ & _).
  destruct (process_all_works (l ++ lr) (set_a_db d2 (set_a_db d1 s))) as (s' & Hrun & H1 & H2 & H3); [done..|].
  rewrite Hrun. exists s', l, lr. split; [unfold mret, M_ret, len; rewrite length_app; do 2 f_equal; lia|]. split; [done|]. split; [exact Hperm|]. split; [done|].
  split; [by rewrite E1 in Hsub|]. rewrite H1, H2. cbn. rewrite !omap_app. split; [|split; [done|]].
  - assert (omap email_for lr = []) as ->; [|by rewrite app_nil_r].
    assert (Forall (λ e, email_for e = None) lr) as Hnone.
    { apply Forall_forall. intros e He. eapply elem_of_submseteq in He; [|exact Hsub]. apply list_elem_of_filter in He as [Hma _].
      destruct (matches (retry_query untill) e) eqn:Hme; [|done]. apply matches_inv in Hme as (_ & Hty & _). cbn in Hty.
      apply list_elem_of_singleton in Hty. unfold email_for. by rewrite Hty. }
    clear -Hnone. induction Hnone as [|e lr He Hnone IH]; [done|]. cbn. by rewrite He.
  - intros e' [Hma' Hin']%list_elem_of_filter. rewrite H3 in Hin'. cbn in Hin'. rewrite E2, E1 in Hin'.
    apply list_elem_of_fmap in Hin' as (e & -> & Hin). destruct (marked_keeps (l ++ lr) e) as (_ & _ & _ & _ & _ & K6).
    destruct (matches (new_query untill now) (marked (l ++ lr) e)) eqn:Hma; [|done].
    pose proof (matches_inv _ _ Hma) as (_ & _ & Hs & _). destruct (K6 Hs) as [He Hno]. rewrite He in *.
    split; [apply list_elem_of_filter; by rewrite Hma|]. intros Hl. destruct (new_query_status _ _ _ Hma) as [Hst|]; [|done].
    exfalso. apply (Hno e); [apply elem_of_app; by left|done|done].
Qed.
End working.

(** ** The task that sends text messages *)

Section texts.
Context {DB CD ED DbErr W HttpErr : Type} {store : EventStore DB CD ED DbErr} {sapi : SmsApi W HttpErr}.
Context {slaws : EventStoreLaws DB CD ED}.
Context (code_returns : ∀ id code ty (d : DB), (event_update_code id code ty d).1 ≠ Panic).
(** The messages that were posted to the API. *)
Context (posted : W → list SMSPayload).
Context (post_law : ∀ p (w : W), (post p w).1 ≠ Panic ∧ posted (post p w).2 = posted w ++ [p]).
Implicit Types s : SmsTask DB W.

Definition gateway_message (sms : SMS) : ServerMqtt.ControlMessageOut ServerMqtt.DeviceControlOut := ServerMqtt.mkOut "" (ServerMqtt.SMSRequest (from sms)).
(** A message that was handled at a time, by the gateway or not. *)
Definition Way : Type := Z * SMS * bool.
Definition by_gateway (w : Way) : option (ServerMqtt.ControlMessageOut ServerMqtt.DeviceControlOut) := if w.2 then Some (gateway_message w.1.2) else None.
Definition by_api (w : Way) : option SMSPayload := if w.2 then None else Some (from w.1.2).
(** The gateway is only used for a message that asks for it and is not old. *)
Definition way_allowed (w : Way) : Prop := w.2 = true → use_jitter_gateway w.1.2 = true ∧ w.1.1 - created_at w.1.2 < 15000.
(** Somebody is told when a message asked for the gateway in vain. *)
Definition must_report (w : Way) : bool := use_jitter_gateway w.1.2 && negb w.2.

(** What the task did. *)
Definition sent_by (config : bool) (ways : list Way) s s' : Prop :=
  b_sent (tx_to_mqtt s') = b_sent (tx_to_mqtt s) ++ omap by_gateway ways ∧
  posted (api s') = posted (api s) ++ (if config then omap by_api ways else []) ∧
  ∃ mails, b_sent (mail_tx s') = b_sent (mail_tx s) ++ mails ∧
    (λ m, (fb_phone_numbers m, fb_server_name m)) <$> mails `sublist_of` (λ w, (phone_numbers w.1.2, originator w.1.2)) <$> filter must_report ways.

Lemma try_send_sent {A} (a : A) tx :
  (try_send a tx).1 = Ok tt ∧ b_sent (try_send a tx).2 = b_sent tx ++ [a] ∨ (∃ e, (try_send a tx).1 = Err e) ∧ (try_send a tx).2 = tx.
Proof. unfold try_send. destruct (b_closed tx); [right; eauto|]. destruct (b_free tx); [right; eauto|by left]. Qed.

Lemma fallback_mail_sent now sms reason s :
  ∃ tx, send_jitter_fallback_mail now sms reason s = (Ok tt, set_mail_tx tx s) ∧
    ∃ mails, b_sent tx = b_sent (mail_tx s) ++ mails ∧
      (λ m, (fb_phone_numbers m, fb_server_name m)) <$> mails `sublist_of` [(phone_numbers sms, originator sms)].
Proof.
  unfold send_jitter_fallback_mail, ignore, attempt, zoom, mbind, M_bind.
  destruct (try_send_sent (mkFallback now (phone_numbers sms) (originator sms) (default "(unknown)" (group_name sms)) reason) (mail_tx s)) as [[H1 H2]|[[e H1] H2]];
    destruct (try_send _ (mail_tx s)) as [r tx]; cbn in H1, H2; subst r; exists tx; (split; [done|]).
  - eexists. split; [exact H2|]. cbn. done.
  - exists []. subst tx. rewrite app_nil_r. split; [done|]. apply sublist_nil_l.
Qed.

Lemma try_gateway_run now now' sms s :
  ∃ taken q tx, try_gateway now now' sms s = (Ok taken, set_mail_tx tx (set_tx_to_mqtt q s)) ∧
    way_allowed (now, sms, taken) ∧ b_sent q = b_sent (tx_to_mqtt s) ++ option_list (by_gateway (now, sms, taken)) ∧
    ∃ mails, b_sent tx = b_sent (mail_tx s) ++ mails ∧
      (λ m, (fb_phone_numbers m, fb_server_name m)) <$> mails `sublist_of`
        (if must_report (now, sms, taken) then [(phone_numbers sms, originator sms)] else []).
Proof.
  unfold try_gateway, way_allowed, by_gateway, must_report. cbn [fst snd]. destruct s as [d w q tx].
  destruct (use_jitter_gateway sms); cbn [andb].
  2: { exists false, q, tx. split; [done|]. split; [done|]. split; [by rewrite app_nil_r|]. exists []. by rewrite app_nil_r. }
  destruct (Z.ltb_spec (now - created_at sms) 15000).
  - unfold attempt, zoom, mbind at 1, M_bind at 1. cbn [tx_to_mqtt].
    destruct (try_send_sent (gateway_message sms) q) as [[H1 H2]|[[e H1] H2]]; change (ServerMqtt.mkOut "" (ServerMqtt.SMSRequest (from sms))) with (gateway_message sms);
      destruct (try_send (gateway_message sms) q) as [r q']; cbn in H1, H2; subst r.
    + exists true, q', tx. split; [done|]. split; [done|]. split; [done|]. exists []. by rewrite app_nil_r.
    + subst q'. destruct (fallback_mail_sent now' sms (GatewayError e) (mkSmsTask d w q tx)) as (tx' & Hrun & Hmails).
      exists false, q, tx'. unfold mbind, M_bind. cbn. unfold set_tx_to_mqtt. cbn. rewrite Hrun. split; [done|]. split; [done|]. by rewrite app_nil_r.
  - destruct (fallback_mail_sent now' sms (GatewayTooLate (phone_numbers sms)) (mkSmsTask d w q tx)) as (tx' & Hrun & Hmails).
    exists false, q, tx'. unfold mbind, M_bind. rewrite Hrun. split; [done|]. split; [done|]. by rewrite app_nil_r.
Qed.

Lemma at_events_run {A} (m : M DB DbErr A) s : (∀ d, (m d).1 ≠ Panic) → ∃ d, at_events m s = (Ok tt, set_s_db d s).
Proof.
  intros Hm. unfold at_events. specialize (Hm (s_db s)). rewrite ignore_run.
  - unfold zoom. destruct (m (s_db s)) as [r d]. by exists d.
  - unfold zoom. by destruct (m (s_db s)).
Qed.
Lemma mark_returns id st (d : DB) : (mark_sent id st d).1 ≠ Panic.
Proof. pose proof (mark_law id st d). by destruct (mark_sent id st d) as [[]]. Qed.

Lemma send_sms_run config now now' sms s :
  ∃ taken s', send_sms config now now' sms s = (Ok tt, s') ∧ way_allowed (now, sms, taken) ∧ sent_by config [(now, sms, taken)] s s'.
Proof.
  destruct (try_gateway_run now now' sms s) as (taken & q & tx & Hrun & Hway & Hq & mails & Hm & Hsub). unfold send_sms, mbind at 1, M_bind at 1. rewrite Hrun.
  assert (Hsent : ∀ d w, posted w = posted (api s) ++ (if config then option_list (by_api (now, sms, taken)) else []) →
    sent_by config [(now, sms, taken)] s (mkSmsTask d w q tx)).
  { intros d w Hw. unfold sent_by. cbn [tx_to_mqtt api mail_tx]. rewrite Hq, Hw. split; [by destruct taken|]. split; [by destruct taken, config|].
    exists mails. split; [done|]. rewrite filter_cons, filter_nil. by destruct (must_report (now, sms, taken)). }
  destruct taken.
  { eexists true, _. split; [done|]. split; [done|]. apply Hsent. cbn. by destruct config; rewrite app_nil_r. }
  destruct config; cbn [negb].
  2: { destruct (at_events_run (mark_sent (event_id sms) SendFailed) (set_mail_tx tx (set_tx_to_mqtt q s))) as [d ->]; [apply mark_returns|].
       eexists false, _. split; [done|]. split; [done|]. apply Hsent. by rewrite app_nil_r. }
  unfold mbind at 1, M_bind at 1, attempt, zoom. cbn [api set_mail_tx set_tx_to_mqtt]. destruct (post_law (from sms) (api s)) as [Hp Hw].
  destruct (post (from sms) (api s)) as [r w]; cbn in Hp, Hw. set (s1 := set_api w _).
  destruct r as [[|]|e|]; [| | |done].
  - destruct (at_events_run (mark_sent (event_id sms) Sent) s1) as [d ->]; [apply mark_returns|]. eexists false, _. split; [done|]. split; [done|]. by apply Hsent.
  - destruct (at_events_run (mark_sent (event_id sms) SendFailed) s1) as [d Hd]; [apply mark_returns|]. unfold mbind, M_bind. rewrite Hd.
    destruct (at_events_run (event_update_code (event_id sms) ErrorSendingSMS TyWarning) (set_s_db d s1)) as [d' ->]; [apply code_returns|].
    eexists false, _. split; [done|]. split; [done|]. by apply Hsent.
  - destruct (at_events_run (event_update_code (event_id sms) ErrorSendingSMS TyWarning) s1) as [d ->]; [apply code_returns|].
    eexists false, _. split; [done|]. split; [done|]. by apply Hsent.
Qed.

(** Each text message is sent one way.  Whatever the channels, the database and the API
    do, every message of the input is handled, in order, and goes either to the gateway
    (only when it asks for it and is younger than 15 seconds) or, when there is a key,
    once to the API, never both; a report is sent only for a message that asked for the
    gateway and did not get it. *)
Theorem each_text_sent_one_way config input s :
  ∃ ways s', sms_send_task config input s = (Ok tt, s') ∧ (fst <$> ways) = (λ i, (i.1.1, i.2)) <$> input ∧ Forall way_allowed ways ∧ sent_by config ways s s'.
Proof.
  revert s. induction input as [|[[now now'] sms] input IH]; intros s.
  { exists [], s. split; [done|]. split; [done|]. split; [constructor|]. unfold sent_by. cbn. rewrite !app_nil_r. split; [done|].
    split; [by destruct config; rewrite app_nil_r|]. exists []. by rewrite app_nil_r. }
  destruct (send_sms_run config now now' sms s) as (taken & s1 & Hrun & Hway & H1 & H2 & m1 & H3 & H4).
  destruct (IH s1) as (ways & s2 & Hrest & Hw & Hall & G1 & G2 & m2 & G3 & G4).
  exists ((now, sms, taken) :: ways), s2. cbn [sms_send_task]. unfold mbind, M_bind. rewrite Hrun, Hrest. split; [done|]. split; [cbn; by rewrite Hw|].
  split; [by constructor|]. change ((now, sms, taken) :: ways) with ([(now, sms, taken)] ++ ways). unfold sent_by. rewrite !omap_app, filter_app, fmap_app.
  rewrite G1, H1, G2, H2. split; [by rewrite app_assoc|]. split; [destruct config; by rewrite ?app_nil_r, ?app_assoc|].
  exists (m1 ++ m2). rewrite G3, H3, app_assoc. split; [done|]. rewrite fmap_app. by apply sublist_app.
Qed.
End texts.

(** ** A concrete database *)

Module DemoAlarm.
(** The events, the emails and text messages are numbers; a builder fails for the contact
    "broken". *)
Abbreviation DB := (list (Event string Z)).
Abbreviation Ev := (Event string Z).
Fixpoint insert_by_time (e : Ev) (l : list Ev) : list Ev :=
  match l with [] => [e] | x :: l' => if e_timestamp e <=? e_timestamp x then e :: l else x :: insert_by_time e l' end.
Definition sort_by_time (l : list Ev) : list Ev := foldr insert_by_time [] l.
#[export] Instance demo_store : EventStore DB string Z string := {|
  query_events q := gets (λ d, take (q_limit q) (sort_by_time (filter (matches q) d)));
  mark_sent id st := modify (set_status id st);;  mret tt;
  event_update_code id code ty := modify (fmap (λ e : Ev, if decide (e_id e = id) then mkEvent id ty code (e_timestamp e) (e_sent e) (e_contact_details e) (e_details e) else e));; mret tt
|}.
Definition demo_sms (e : Ev) : SMS := mkSMS [default "" (e_contact_details e)] "alarm" None "server" (e_id e) (e_timestamp e) true.
#[export] Instance demo_builder : MessageBuilder unit string Z Z string := {|
  build_email e c := if decide (c = "broken") then fail "template" else mret (Some (e_details e));
  build_sms e c := mret (Some (demo_sms e))
|}.

Lemma insert_perm e l : insert_by_time e l ≡ₚ e :: l.
Proof. induction l as [|x l IH]; [done|]. cbn. destruct (_ <=? _); [done|]. rewrite IH. by constructor. Qed.
Lemma sort_perm l : sort_by_time l ≡ₚ l.
Proof. induction l as [|e l IH]; [done|]. cbn. by rewrite insert_perm, IH. Qed.
Abbreviation by_time := (λ a b : Ev, e_timestamp a ≤ e_timestamp b).
Lemma insert_sorted e l : Sorted by_time l → Sorted by_time (insert_by_time e l).
Proof.
  induction l as [|x l IH]; intros Hs; [by repeat constructor|]. cbn. destruct (Z.leb_spec (e_timestamp e) (e_timestamp x)); [constructor; [done|by constructor]|].
  inversion Hs as [|? ? Hl Hh]; subst. constructor; [by apply IH|]. destruct l as [|y l]; cbn; [constructor; lia|].
  destruct (_ <=? _); constructor; [lia|]. by inversion Hh.
Qed.
Lemma sort_sorted l : Sorted by_time (sort_by_time l).
Proof. induction l as [|e l IH]; [constructor|]. by apply insert_sorted. Qed.
Lemma take_sorted n l : Sorted by_time l → Sorted by_time (take n l).
Proof.
  revert n. induction l as [|x l IH]; intros n Hs; [by rewrite take_nil|]. destruct n; [constructor|]. inversion Hs as [|? ? Hl Hh]; subst.
  cbn. constructor; [by apply IH|]. destruct Hh; destruct n; by constructor.
Qed.

#[export] Instance demo_store_laws : EventStoreLaws DB string Z.
Proof.
  apply Build_EventStoreLaws with (events := λ d : DB, d).
  - intros q d. split; [done|]. cbn. split; [|split].
    + etrans; [apply submseteq_take|]. by rewrite sort_perm.
    + apply take_sorted, sort_sorted.
    + intros Hl. rewrite take_ge; [apply sort_perm|]. by rewrite sort_perm.
  - done.
Defined.

Definition started : Z := 1000000.
Definition text_event (id : string) (t : Z) : Ev := mkEvent id TySms AlarmSMS t (Some NotSent) (Some "jan") 1.
Definition mail_event (id contact : string) (t n : Z) : Ev := mkEvent id TyEmail EmailCode t (Some NotSent) (Some contact) n.
Definition demo_alarm (evs : list Ev) : Alarm DB Z unit := mkAlarm evs (mkTx false []) (mkTx false []) tt.
(** Polls for an hour. *)
Definition an_hour : list (Z * bool) := (λ i, (started + 5000 * i, false)) <$> seqZ 1 720.

(** A text message of an event after the start that nobody acknowledges is handed over
    once in an hour of polling, and stays being sent. *)
Example unanswered_text_not_retried :
  let s := (alarm_task started an_hour (demo_alarm [text_event "a" (started + 1000)])).2 in
  (event_id <$> tx_sent (sms_sender s), e_sent <$> a_db s) = (["a"], [Some Sending]).
Proof. vm_compute. reflexivity. Qed.

(** An event whose email cannot be built keeps the later ones from being sent. *)
Example broken_event_blocks_later :
  let s := (alarm_task started an_hour (demo_alarm [mail_event "a" "broken" (started + 1000) 1; mail_event "b" "jan" (started + 2000) 2])).2 in
  (tx_sent (mail_sender s), e_sent <$> a_db s) = ([], [Some NotSent; Some NotSent]).
Proof. vm_compute. reflexivity. Qed.

Lemma email_returns e c b : (build_email (B := unit) (CD := string) (ED := Z) (Email := Z) e c b).1 ≠ Panic.
Proof. cbn. by destruct (decide (c = "broken")). Qed.

Definition demo_events : list Ev := [mail_event "b" "jan" 800000 2; mail_event "a" "piet" 700000 1; text_event "c" 900000].

Lemma sent_only_with_email_witness :
  ∃ r s' mails, process_alarms 700000 1000000 (demo_alarm demo_events) = (r, s') ∧ r ≠ Panic ∧ tx_sent (mail_sender s') = [] ++ mails ∧
    ∀ e', e' ∈ events (a_db s') → e_sent e' = Some Sent →
      emailed mails (e_id e') ∨ ∃ e, e ∈ events (a_db (demo_alarm demo_events)) ∧ e_id e = e_id e' ∧ e_sent e = Some Sent.
Proof. apply sent_only_with_email; [apply email_returns|intros e c b; cbn; discriminate]. Defined.

Lemma only_old_texts_retried_witness :
  ∃ r s' texts, alarm_task started an_hour (demo_alarm demo_events) = (Ok r, s') ∧ tx_sent (sms_sender s') = [] ++ texts ∧
    ∀ m, m ∈ texts → ∃ e c b b', build_sms (B := unit) (ED := Z) (Email := Z) e c b = (Ok (Some m), b') ∧
      (e_sent e = Some NotSent ∨ (e_sent e = Some Sending ∧ e_timestamp e ≤ started - 420000)).
Proof. apply (only_old_texts_retried (store := demo_store)); [apply email_returns|intros e c b; cbn; discriminate]. Defined.

(** A builder that never fails, and has no email for an event without details. *)
Definition good_email (e : Ev) (_ : string) : option Z := if e_details e =? 0 then None else Some (e_details e).
#[export] Instance good_builder : MessageBuilder bool string Z Z string := {|
  build_email e c := mret (good_email e c);
  build_sms e c := mret (Some (demo_sms e))
|}.
Definition good_events : list Ev := mail_event "d" "kees" 750000 0 :: demo_events.
Definition good_alarm : Alarm DB Z bool := mkAlarm good_events (mkTx false []) (mkTx false []) true.

Lemma working_pass_sends_all_witness :
  let new db := filter (matches (new_query 700000 1000000)) (events db) in
  let skipped := skipped good_email in
  ∃ s' l retried,
    process_alarms 700000 1000000 good_alarm = (Ok (len l + len retried), s') ∧
    l ⊆+ new good_events ∧ ((length (new good_events) ≤ QUERY_LIMIT)%nat → l ≡ₚ new good_events) ∧
    Sorted (λ a b, e_timestamp a ≤ e_timestamp b) l ∧
    retried ⊆+ filter (matches (retry_query 700000)) good_events ∧
    tx_sent (mail_sender s') = [] ++ omap (email_for good_email) l ∧
    tx_sent (sms_sender s') = [] ++ omap (sms_for (λ e _, Some (demo_sms e))) l ++ omap (sms_for (λ e _, Some (demo_sms e))) retried ∧
    (∀ e, e ∈ new (a_db s') → e ∈ new good_events ∧ (e ∈ l → skipped e)).
Proof.
  refine (working_pass_sends_all (store := demo_store) (mb := good_builder) good_email (λ e _, Some (demo_sms e)) _ _ _ _ _ 700000 1000000 good_alarm _ _);
    [reflexivity|reflexivity|intros q d; eexists; reflexivity|reflexivity|reflexivity|reflexivity|reflexivity].
Defined.

(** Both emails, in the order of time; the event that has none stays new. *)
Example good_alarm_run :
  let s := (process_alarms 700000 1000000 good_alarm).2 in
  (tx_sent (mail_sender s), event_id <$> tx_sent (sms_sender s), e_sent <$> a_db s) = ([1; 2], ["c"], [Some NotSent; Some Sent; Some Sent; Some Sending]).
Proof. vm_compute. reflexivity. Qed.

(** The API does not answer for the number "bad". *)
#[export] Instance demo_api : SmsApi (list SMSPayload) unit := λ p w, (if decide (recipients p = ["bad"]) then Err tt else Ok true, w ++ [p]).
Definition text_to (number : string) (t : Z) : SMS := mkSMS [number] "alarm" None "server" number t true.
Definition demo_texts : list (Z * Z * SMS) := [(10000, 10001, text_to "a" 0); (10000, 10001, text_to "b" 9000); (20000, 20001, text_to "bad" 0)].
(** The gateway has room for one message. *)
Definition demo_sms_task : SmsTask DB (list SMSPayload) := mkSmsTask demo_events [] (mkBounded false 1 []) (mkBounded false 1 []).

Lemma each_text_sent_one_way_witness :
  ∃ ways s', sms_send_task true demo_texts demo_sms_task = (Ok tt, s') ∧ (fst <$> ways) = (λ i, (i.1.1, i.2)) <$> demo_texts ∧
    Forall way_allowed ways ∧ sent_by (λ w, w) true ways demo_sms_task s'.
Proof.
  apply (each_text_sent_one_way (store := demo_store) (sapi := demo_api));
    [intros id code ty d; discriminate|intros p w; split; [unfold post, demo_api; cbn; destruct (decide _); discriminate|reflexivity]].
Defined.
End DemoAlarm.
